(* ===== verification/_CoqProject ===== *)
-Q . S2P
Prelude.v
FreeQueue.v
BlockPool.v
F32.v
Json.v
CoreTypes.v
Request.v
KVSpec.v
Prefix.v
CacheManager.v
Optimizations.v
Offload.v
Policy.v
Scheduler.v
Executor.v
EngineCore.v
SyncEngine.v
AsyncEngine.v
BatchQueue.v
Sorting.v
Logits.v
Sampler.v
Utf8.v
Text.v
OpenAi.v
Server.v
Grpc.v
Serving.v
ServerConfig.v
Detokenizer.v
BeamSearch.v
KvLayout.v
AttentionMeta.v
CpuRef.v
ModelRunner.v
WorkerStep.v
Speculative.v
GpuCache.v
CudaGraph.v
Worker.v
UniProc.v
Tensors.v
IntFloat.v
NdTensor.v
Mxfp.v
Nvfp.v
Int8.v
QuantMethod.v
Gptq.v
Dequant.v
Rope.v
Layers.v
LayerRows.v
AttentionRows.v
Moe.v
Exact.v
Llama.v
Decoder.v
LlamaRows.v
LlamaLoad.v
LlamaCheckpoint.v
HfConfig.v
QwenConfig.v
Qwen.v
QwenRows.v
DeepseekV3.v
Deepseek.v
DeepseekParts.v
DeepseekRows.v
Structured.v
MultiProc.v
Tokenizer.v
Loader.v
Export.v
ExportDir.v
Runner.v
Launch.v
PagedOp.v
AttentionReduce.v
