(* ===== verification/Prelude.v ===== *)
(** * rLLM: a verified model of the inference engine

    rLLM serves large language models.  A client's request reaches the HTTP or the
    gRPC server (src/crates/rllm-server), which checks it, turns messages into
    prompt tokens (rllm-tokenizer) and submits it to the asynchronous engine
    (rllm-engine).  The engine's task drives the engine core: each step the
    scheduler (rllm-scheduler) chooses requests and obtains KV blocks from the cache
    manager (rllm-cache), the executor (rllm-executor) has the worker (rllm-worker)
    run the model (rllm-model) on a flat batch over the paged cache (rllm-kernels)
    and samples tokens (rllm-sampling); the outputs go back to the client's stream.
    rllm-core holds the shared types, rllm-quant the weight formats.

    ** How the model is written

    Definitions follow the source function by function and keep its names, with a
    prefix where two files use one name.  A struct is a [Record], an enum an
    [Inductive]; [Result] is [result] below, and a panic (an index out of range, a
    failed assertion, an underflow, a division by zero) is [None].  A method that
    changes its object returns the new one; where an error leaves changes behind,
    the state is returned beside the error.  Machine integers are [nat], [N] or [Z]
    with the wrap-around or the check of the source written out where it matters: an
    unvalidated number of draft tokens can overflow a sum of the scheduler, which is a
    panic of the step ([step_overflows]); the counts and ids of blocks are 32 bits wide.
    [f32] and [f64] are IEEE numbers (F32.v).  Hash maps are [gmap]s; where the
    order in which a hash map is walked can matter, it is an argument.  Code of
    other packages is a parameter, with the documented behaviour that is relied on
    as a class of laws, and each class has an instance (tensors: NdTensor.v, Moe.v,
    DeepseekParts.v, over the real numbers Exact.v).

    ** The files

    Memory and scheduling:
    - FreeQueue.v, BlockPool.v (rllm-cache/src/block_pool.rs): the intrusive list of
      free blocks, and the pool with its reference counts and hash table;
    - KVSpec.v (spec.rs), Prefix.v (prefix.rs), CacheManager.v (manager.rs),
      Offload.v (offload.rs): geometry, block hashes, block tables with rollback and
      prefix reuse, and the CPU store of evicted blocks;
    - CoreTypes.v, Request.v, Json.v, Optimizations.v (rllm-core): shared types,
      request parameters and status machine, quantization and parallelism plans;
    - Policy.v, Scheduler.v (rllm-scheduler): the queue of waiting requests and the
      continuous-batching scheduler.

    Engine and execution:
    - Executor.v: the executor as a class, against which the engine is verified;
    - EngineCore.v, SyncEngine.v, AsyncEngine.v, BatchQueue.v (rllm-engine);
    - Sorting.v, Logits.v, Sampler.v, BeamSearch.v, Speculative.v, Structured.v
      (rllm-sampling): logit processors, greedy and random choice, beams, drafts,
      grammar masks;
    - ModelRunner.v, CudaGraph.v, Worker.v (rllm-worker), UniProc.v, MultiProc.v
      (rllm-executor): the flat batch, graphs and overlap, the worker, the executor
      in the process, with its draft verification, and the one over ranks;
    - KvLayout.v, AttentionMeta.v, CpuRef.v, GpuCache.v (rllm-kernels): layouts,
      attention metadata, the reference attention over pages, the device cache;
    - WorkerStep.v: one step of the worker over the paged cache, composed of those;
    - Launch.v (rllm-kernels): the kernel launches over a device, with what each
      kernel requires of its arguments; PagedOp.v (layers.rs, deepseek.rs): the
      paged attention operation of a layer, which [paged_launches_safe] follows
      from a batch's metadata to launches that stay inside their operands;
    - AttentionReduce.v: how the attention kernels add up a dot product, which
      counts every term for heads of a power of two and loses some for others.

    Serving:
    - Utf8.v, Text.v: strings of bytes; Detokenizer.v, Tokenizer.v (rllm-tokenizer):
      streamed text with stop strings; the tokenizer, chat templates and the pool;
    - OpenAi.v, Server.v, Grpc.v, ServerConfig.v (rllm-server): the protocol, both
      servers, and the configuration; Serving.v: a request from server to engine.

    Models and weights:
    - Tensors.v, IntFloat.v, NdTensor.v: the tensor library as an interface with
      laws, and integer arithmetic on floats;
    - Mxfp.v, Nvfp.v, Int8.v, QuantMethod.v (rllm-quant), Gptq.v, Dequant.v
      (rllm-model/src/gptq.rs, layers.rs): the weight formats;
    - HfConfig.v, Loader.v (hf_config.rs, registry.rs, loader.rs, gguf_loader.rs):
      configurations and weight files; Runner.v (runner.rs): from a directory to a
      model of any family; Export.v, ExportDir.v (quantize.rs): the GPTQ export;
    - Rope.v, Layers.v, LayerRows.v, AttentionRows.v: the layers, and what they make
      of each row; Llama.v, LlamaRows.v, LlamaLoad.v, LlamaCheckpoint.v: the Llama
      model from checkpoint to tokens;
    - Exact.v: tensors read as real numbers, where what the models promise about
      their passes is stated;
    - Decoder.v: what a forward pass promises, as a class that the model families
      discharge and generation and prefill are verified against;
    - Moe.v, QwenConfig.v, Qwen.v, QwenRows.v: mixtures of experts, the Qwen models;
    - DeepseekV3.v, Deepseek.v, DeepseekParts.v, DeepseekRows.v: the DeepSeek models
      with latent attention and block-scaled weights.

    ** What is shown

    - Memory safety of the cache: the pointer queue refines a list
      ([free_queue_refines_list]); from any history of operations the pool and the
      block tables agree, no block is shared by accident, and a reused prefix holds
      the same tokens ([pool_history_safe], [manager_reachable_safe], [prefix_reuse]).
    - Scheduling: every reachable state is consistent, every step respects its
      budgets, and an idle scheduler admits the request at the head of its queue ([scheduler_reachable_safe],
      [step_correct], [step_progress]; [decode_overflow_panics] is the exception).
    - The engine, for any executor that keeps the contract of Executor.v: reachable
      states are safe, each step reports exactly the tokens computed, generation is
      bounded and ends, streams lose nothing ([engine_reachable_safe],
      [engine_step_spec], [engine_generation_bounded], [generate_correct],
      [async_streams_lossless], [collects_engine_tokens]).
    - Execution: attention through pages is dense attention, and one worker step
      computes it for the new tokens ([run_host_dense], [worker_step_attention]);
      for greedy requests without logit processors, drafts change no token
      ([speculation_is_greedy]; with processors they can, [drafts_skip_penalties]).
    - Servers: what is validated, that streaming and whole responses agree, that both
      servers agree ([chat_handler_gate], [stream_agrees_with_response],
      [grpc_agrees_with_http]); a pool answers as one tokenizer ([pool_transparent]); ASCII text
      ends at the first stop string of the list that occurs ([stop_strings_exact]), and a
      constrained request whose logits have the width of the vocabulary and a number
      among the allowed ones gets a token its grammar accepts
      ([constrained_token_accepted]).
    - Models, over the real numbers: decoding with caches, and for DeepSeek any split
      of the prompt, gives the logits of one pass ([cached_equals_full], [chunked_prefill_exact]); several
      tokens on a non-empty cache fail for Llama ([chunk_on_cache_fails]);
      generation is greedy decoding of the language model the weights describe,
      for Llama from the checkpoint and from its files on ([checkpoint_generates],
      [runner_serves_checkpoint], [qwen_generates], [deepseek_generates]); a routed token does not depend on its batch
      ([sparse_layer_rowwise]).
    - Weights: layers load independently of each other, an exported quantized
      checkpoint is read back as it was made, integer products do not overflow
      ([layers_load_independently], [gptq_export_loads], [gptq_layer_exact],
      [w8a8_exact]); shards stay in their directory and no GGUF tensor takes another's
      name ([shards_stay_inside], [gguf_weights_exact]).

    ** Bounds and assumptions

    A loop without a bound in the source (SyncEngine.v [generate_loop]) has fuel and
    a theorem that some number of steps is enough; the generation loops of the models
    have one step per token, and their theorems give the result.  The equalities
    between passes of a model hold up to rounding: the files of the models are generic
    in the elements of a tensor, with the two facts about masks they need as a class
    ([MaskLaws]), which Exact.v proves of the real numbers, and the theorems are stated
    of those; of the tensor library they assume that its operations compute the
    documented functions over the reals.  Where
    the arithmetic is that of IEEE floats (Gptq.v, Dequant.v, Mxfp.v, Nvfp.v, Int8.v,
    CpuRef.v, Sampler.v) it is computed with them.  Hash functions, random numbers
    and the platform's exponentials and logarithms are parameters.

    ** Not modelled

    The CUDA kernels themselves (rllm-kernels/src/cuda) are compiled code of another
    language: Launch.v has their entry points and requirements, not what they
    compute, but for the dot product of AttentionReduce.v.  The CUDA halves of the quantized projections (layers.rs, int8.rs,
    mxfp.rs, nvfp.rs, deepseek_v3.rs) are operations of the library.  Metrics, tracing,
    logging, route tables, process start-up and build scripts observe or wire up the
    rest.  Files are read by libraries: the models start from their contents, and
    downloads, their credentials and the copying of files are left out.  The tensor
    view of rllm-tensor/src/tensor.rs and the request state of sequence.rs are used by
    nothing.  The benchmark crate measures the engine and is not part of it.  Threads and channels
    appear as sequences of steps (AsyncEngine.v), not as schedules of the runtime. *)
From Stdlib Require Export ZArith Lia.
From stdpp Require Export base strings sorting numbers option gmap sets list.

#[global] Set Default Proof Using "Type".

(** ** Results and panics

    [result] is Rust's [Result].  A Rust panic (an index out of range, an
    arithmetic overflow, a failed [assert!], a division by zero) is the [None]
    of [option]: an operation that can panic has type [option (A * state)] and
    is written in stdpp's option monad, so a theorem that it returns [Some]
    is a theorem that it does not panic. *)
Inductive result (A E : Type) : Type :=
  | Ok (a : A)
  | Err (e : E).
Arguments Ok {A E} a.
Arguments Err {A E} e.

#[global] Instance result_eq_dec {A E} `{EqDecision A} `{EqDecision E} : EqDecision (result A E).
Proof. solve_decision. Defined.

Definition result_bind {A B E} (m : result A E) (k : A → result B E) : result B E :=
  match m with Ok a => k a | Err e => Err e end.

Definition is_ok {A E} (m : result A E) : bool :=
  match m with Ok _ => true | Err _ => false end.

Declare Scope rllm_scope.
Delimit Scope rllm_scope with rllm.
Notation "x <-? m ; k" := (result_bind m (λ x, k))
  (at level 100, m at level 99, k at level 200, right associativity) : rllm_scope.
Notation "'require' b 'else' e ; k" := (if b then k else Err e)
  (at level 100, b at level 99, e at level 99, k at level 200, right associativity) : rllm_scope.

(** [iter.map(f).collect::<Result<Vec<_>>>()?] *)
Fixpoint try_map {A B E} (f : A → result B E) (l : list A) : result (list B) E :=
  match l with
  | [] => Ok []
  | x :: l => result_bind (f x) (λ y, result_bind (try_map f l) (λ ys, Ok (y :: ys)))
  end.

Create HintDb rllm.

(** ** Machine integers

    [usize] values that count or index memory are [nat]; values that are only
    compared or hashed (token ids, hashes, byte sizes) are [N].  Narrowing casts
    and saturating operations are written out with these bounds. *)
Definition u8_max : N := 255.
Definition u32_max : N := 4294967295.
Definition u64_max : N := 18446744073709551615.

(** [x as u8], [x as u32]. *)
Definition as_u8 (x : N) : N := (x mod 256)%N.
Definition as_u32 (x : N) : N := (x mod 4294967296)%N.

(** [u32::try_from(n).unwrap_or(u32::MAX)]. *)
Definition u32_try_from_or_max (n : N) : N := if (n <=? u32_max)%N then n else u32_max.

(** [u32::saturating_add]. *)
Definition u32_saturating_add (a b : N) : N := N.min (a + b) u32_max.

Lemma u32_saturating_add_le a b : (u32_saturating_add a b <= u32_max)%N.
Proof. unfold u32_saturating_add. lia. Qed.

Lemma u32_try_from_or_max_le n : (u32_try_from_or_max n <= u32_max)%N.
Proof. unfold u32_try_from_or_max. destruct (N.leb_spec n u32_max); lia. Qed.

(** [a + b], [a * b] on [usize], which panic past the maximum with overflow
    checks on. *)
Definition usize_add (a b : N) : option N :=
  if (a + b <=? u64_max)%N then Some (a + b)%N else None.
Definition usize_mul (a b : N) : option N :=
  if (a * b <=? u64_max)%N then Some (a * b)%N else None.

(** A product of factors taken from the left. *)
Fixpoint usize_product (acc : N) (l : list N) : option N :=
  match l with
  | [] => Some acc
  | x :: l => acc ← usize_mul acc x; usize_product acc l
  end.

Definition product (l : list N) : N := foldr N.mul 1%N l.

Lemma usize_product_Some acc l n :
  usize_product acc l = Some n → n = (acc * product l)%N.
Proof.
  revert acc. induction l as [|x l IH]; intros acc; simpl; [intros [= <-]; lia |].
  unfold usize_mul. destruct (_ <=? _)%N; simpl; [intros ->%IH; lia | done].
Qed.

(** The product fits when the whole product does and no factor is zero. *)
Lemma usize_product_fits acc l :
  (∀ x, x ∈ l → (0 < x)%N) → (acc * product l <= u64_max)%N →
  usize_product acc l = Some (acc * product l)%N.
Proof.
  revert acc. induction l as [|x l IH]; intros acc Hpos Hfit; simpl in *; [f_equal; lia |].
  assert (0 < product l)%N as Hl.
  { clear IH Hfit. induction l as [|y l IHl]; simpl; [lia |].
    pose proof (Hpos y ltac:(set_solver)). specialize (IHl ltac:(set_solver)). lia. }
  pose proof (Hpos x ltac:(set_solver)).
  unfold usize_mul. destruct (N.leb_spec (acc * x) u64_max) as [|Hgt]; [| nia].
  simpl. rewrite IH; [f_equal; lia | set_solver | lia].
Qed.

(** [&l[a..b]], which panics when the range is not inside the slice. *)
Definition slice {A} (l : list A) (a b : nat) : option (list A) :=
  if (a <=? b) && (b <=? length l) then Some (take (b - a) (drop a l)) else None.

Lemma slice_Some {A} (l : list A) a b :
  a ≤ b → b ≤ length l → slice l a b = Some (take (b - a) (drop a l)).
Proof.
  intros H1 H2. unfold slice.
  by rewrite (proj2 (Nat.leb_le _ _) H1), (proj2 (Nat.leb_le _ _) H2).
Qed.

(** [usize::checked_sub], which panics below zero with overflow checks on. *)
Definition sub_checked (a b : nat) : option nat := if b <=? a then Some (a - b) else None.

Lemma sub_checked_Some a b : b ≤ a → sub_checked a b = Some (a - b).
Proof. intros H. unfold sub_checked. by rewrite (proj2 (Nat.leb_le b a) H). Qed.

(** [a + b] on [usize] values that are [nat], which panics past the maximum. *)
Definition add_checked (a b : nat) : option nat := if (N.of_nat (a + b) <=? u64_max)%N then Some (a + b) else None.

Lemma add_checked_case a b :
  ((N.of_nat (a + b) <= u64_max)%N ∧ add_checked a b = Some (a + b))
  ∨ ((u64_max < N.of_nat (a + b))%N ∧ add_checked a b = None).
Proof. unfold add_checked. destruct (N.leb_spec (N.of_nat (a + b)) u64_max); [by left | by right]. Qed.

(** [usize::div_ceil]; [None] when the divisor is zero. *)
Definition div_ceil (n d : nat) : option nat :=
  if d =? 0 then None
  else Some (n / d + (if 0 <? n mod d then 1 else 0)).

(** The value of [div_ceil] at a positive divisor. *)
Definition cdiv (n d : nat) : nat := n / d + (if 0 <? n mod d then 1 else 0).

Lemma div_ceil_pos n d : 0 < d → div_ceil n d = Some (cdiv n d).
Proof. intros H. unfold div_ceil. destruct (Nat.eqb_spec d 0); [lia | done]. Qed.

Lemma cdiv_bounds n d : 0 < d → n ≤ d * cdiv n d < n + d.
Proof.
  intros Hd. unfold cdiv. pose proof (Nat.div_mod_eq n d).
  pose proof (Nat.mod_upper_bound n d ltac:(lia)).
  destruct (Nat.ltb_spec 0 (n mod d)); nia.
Qed.

Lemma cdiv_unique n d k : 0 < d → n ≤ d * k < n + d → cdiv n d = k.
Proof. intros Hd Hk. pose proof (cdiv_bounds n d Hd). nia. Qed.

Lemma cdiv_0 d : 0 < d → cdiv 0 d = 0.
Proof. intros. apply cdiv_unique; lia. Qed.

Lemma cdiv_pos n d : 0 < d → 0 < n → 0 < cdiv n d.
Proof. intros Hd Hn. pose proof (cdiv_bounds n d Hd). nia. Qed.

Lemma cdiv_mono m n d : 0 < d → m ≤ n → cdiv m d ≤ cdiv n d.
Proof. intros Hd ?. pose proof (cdiv_bounds n d Hd). pose proof (cdiv_bounds m d Hd). nia. Qed.

(** Blocks for [m + n] tokens never exceed blocks for [m] plus blocks for [n]. *)
Lemma cdiv_add_le m n d : 0 < d → cdiv (m + n) d ≤ cdiv m d + cdiv n d.
Proof.
  intros Hd. pose proof (cdiv_bounds n d Hd). pose proof (cdiv_bounds m d Hd).
  pose proof (cdiv_bounds (m + n) d Hd). nia.
Qed.

Lemma cdiv_mul_add k n d : 0 < d → cdiv (k * d + n) d = k + cdiv n d.
Proof. intros Hd. pose proof (cdiv_bounds n d Hd). apply cdiv_unique; nia. Qed.

(** ** Occurrence counts *)
Section occ.
Context {A : Type} `{EqDecision A}.
Implicit Types (x y : A) (l : list A).

Fixpoint occ (x : A) (l : list A) : nat :=
  match l with
  | [] => 0
  | y :: l => (if decide (x = y) then 1 else 0) + occ x l
  end.

Lemma occ_app x l1 l2 : occ x (l1 ++ l2) = occ x l1 + occ x l2.
Proof. induction l1 as [|y l1 IH]; simpl; [done | rewrite IH; lia]. Qed.

Lemma occ_elem_of x l : x ∈ l ↔ 0 < occ x l.
Proof.
  induction l as [|y l IH]; simpl; [split; [by intros ?%not_elem_of_nil | lia] |].
  rewrite elem_of_cons, IH. case_decide as E.
  - split; [lia | by left].
  - split; [by intros [?|?] | by right].
Qed.

Lemma occ_not_elem_of x l : x ∉ l ↔ occ x l = 0.
Proof. rewrite occ_elem_of. lia. Qed.

Lemma occ_NoDup x l : NoDup l → occ x l ≤ 1.
Proof.
  induction 1 as [|y l Hy _ IH]; simpl; [lia |].
  case_decide as E; [| lia]. subst. apply occ_not_elem_of in Hy. lia.
Qed.
End occ.

(** ** Strings *)
Lemma string_app_assoc (a b c : string) : ((a +:+ b) +:+ c = a +:+ (b +:+ c))%string.
Proof.
  induction a as [|x a IH]; [done |].
  change (String x ((a +:+ b) +:+ c) = String x (a +:+ (b +:+ c)))%string. by rewrite IH.
Qed.

Lemma string_app_nil (a : string) : (a +:+ "")%string = a.
Proof. induction a as [|x a IH]; [done |]. change (String x (a +:+ "") = String x a)%string. by rewrite IH. Qed.

Lemma string_app_inj (p a b : string) : (p +:+ a = p +:+ b)%string → a = b.
Proof. induction p as [|c p IH]; [done |]. intros H. apply IH. by injection H. Qed.

Lemma length_append (p s : string) : String.length (p +:+ s) = String.length p + String.length s.
Proof. induction p as [|c p IH]; [done |]. change (S (String.length (p +:+ s)) = S (String.length p + String.length s)). by rewrite IH. Qed.

Lemma list_of_append (a b : string) :
  String.list_ascii_of_string (a +:+ b) = String.list_ascii_of_string a ++ String.list_ascii_of_string b.
Proof.
  induction a as [|x a IH]; [done |].
  change (x :: String.list_ascii_of_string (a +:+ b) = x :: (String.list_ascii_of_string a ++ String.list_ascii_of_string b)). by rewrite IH.
Qed.

Lemma list_of_string_inj a b : String.list_ascii_of_string a = String.list_ascii_of_string b → a = b.
Proof. intros H. rewrite <- (String.string_of_list_ascii_of_string a), H. apply String.string_of_list_ascii_of_string. Qed.

(** ** Lists *)
Lemma app_split_eq {A} (l1 l2 m1 m2 : list A) x y :
  l1 ++ x :: l2 = m1 ++ y :: m2 →
  (l1 = m1 ∧ x = y ∧ l2 = m2)
  ∨ (∃ k, m1 = l1 ++ x :: k ∧ l2 = k ++ y :: m2)
  ∨ (∃ k, l1 = m1 ++ y :: k ∧ m2 = k ++ x :: l2).
Proof.
  revert m1. induction l1 as [|a l1 IH]; intros [|b m1] Heq;
    simpl in Heq; injection Heq as Hh Ht; subst; simpl.
  - auto.
  - right; left. by exists m1.
  - right; right. by exists l1.
  - destruct (IH m1 Ht) as [(-> & -> & ->) | [(k & -> & ->) | (k & -> & ->)]]; eauto 10.
Qed.

Lemma NoDup_split_unique {A} (l1 l2 m1 m2 : list A) x :
  NoDup (l1 ++ x :: l2) → l1 ++ x :: l2 = m1 ++ x :: m2 → l1 = m1 ∧ l2 = m2.
Proof.
  intros Hnd Heq. destruct (app_split_eq _ _ _ _ _ _ Heq) as [(-> & _ & ->) | [(k & -> & ->) | (k & -> & ->)]].
  - done.
  - rewrite NoDup_app, NoDup_cons in Hnd. set_solver.
  - rewrite NoDup_app in Hnd. set_solver.
Qed.

(** Length of [filter] when one element changes. *)
Lemma filter_length_insert {A} (P : A → Prop) `{!∀ x, Decision (P x)} (l : list A) i x y :
  l !! i = Some x →
  length (filter P (<[i:=y]> l)) + (if decide (P x) then 1 else 0)
  = length (filter P l) + (if decide (P y) then 1 else 0).
Proof.
  revert i. induction l as [|a l IH]; intros [|i] Hi; simplify_eq/=.
  - rewrite !filter_cons. repeat case_decide; simpl; lia.
  - specialize (IH i Hi). rewrite !filter_cons. repeat case_decide; simpl in *; lia.
Qed.

Lemma filter_id {A} (P : A → Prop) `{!∀ x, Decision (P x)} (l : list A) :
  (∀ x, x ∈ l → P x) → filter P l = l.
Proof.
  induction l as [|a l IH]; intros Hall; [done |].
  rewrite filter_cons_True by (apply Hall; by left).
  f_equal. apply IH. intros x Hx. apply Hall. by right.
Qed.

(** Splits a monadic bind on [option] in a hypothesis. *)
Ltac bind_inv H :=
  match type of H with
  | (_ ≫= _) = Some _ =>
      let x := fresh "x" in let Hx := fresh "Hx" in
      apply bind_Some in H as (x & Hx & H)
  end.

#[export] Hint Resolve cdiv_pos cdiv_0 : rllm.
