(* ===== verification/FreeQueue.v ===== *)
(** * The intrusive free queue of KV blocks

    [KVCacheBlock] and [FreeBlockQueue] of crates/rllm-cache/src/block_pool.rs:
    a doubly-linked list threaded through the block vector by indices.  The
    operations are the code's, index by index, with an out-of-range access or
    an underflow of [len] as [None].  [queue_rep] relates a queue to the plain
    list of block indices it stands for; the theorems are the refinement of
    the list operations by the pointer operations. *)
From S2P Require Import Prelude.

Abbreviation BlockId := nat (only parsing).
Abbreviation BlockHash := N (only parsing).

Record KVCacheBlock : Type := mkBlock {
  blk_id : BlockId;
  blk_hash : option BlockHash;
  ref_count : nat;
  prev_free : option nat;
  next_free : option nat;
  is_null : bool;
}.

Record FreeBlockQueue : Type := mkQueue {
  q_head : option nat;
  q_tail : option nat;
  q_len : nat;
}.

Definition set_prev (p : option nat) (b : KVCacheBlock) : KVCacheBlock :=
  mkBlock (blk_id b) (blk_hash b) (ref_count b) p (next_free b) (is_null b).
Definition set_next (n : option nat) (b : KVCacheBlock) : KVCacheBlock :=
  mkBlock (blk_id b) (blk_hash b) (ref_count b) (prev_free b) n (is_null b).
Definition set_hash (h : option BlockHash) (b : KVCacheBlock) : KVCacheBlock :=
  mkBlock (blk_id b) h (ref_count b) (prev_free b) (next_free b) (is_null b).
Definition set_ref (r : nat) (b : KVCacheBlock) : KVCacheBlock :=
  mkBlock (blk_id b) (blk_hash b) r (prev_free b) (next_free b) (is_null b).

(** [blocks\[i\] = f(blocks\[i\])], a panic out of range. *)
Definition update_block (f : KVCacheBlock → KVCacheBlock) (i : nat)
    (blocks : list KVCacheBlock) : option (list KVCacheBlock) :=
  b ← blocks !! i; Some (<[i := f b]> blocks).

Module FreeQueue.

Definition new : FreeBlockQueue := mkQueue None None 0.

Definition len (q : FreeBlockQueue) : nat := q_len q.

Definition is_empty (q : FreeBlockQueue) : bool := q_len q =? 0.

(** Push a block at the head (MRU end). *)
Definition push_front (q : FreeBlockQueue) (blocks : list KVCacheBlock) (idx : nat) :
    option (FreeBlockQueue * list KVCacheBlock) :=
  blocks ← update_block (λ b, set_next (q_head q) (set_prev None b)) idx blocks;
  match q_head q with
  | Some head_idx =>
      blocks ← update_block (set_prev (Some idx)) head_idx blocks;
      Some (mkQueue (Some idx) (q_tail q) (q_len q + 1), blocks)
  | None => Some (mkQueue (Some idx) (Some idx) (q_len q + 1), blocks)
  end.

(** Push a block at the tail (LRU end). *)
Definition push_back (q : FreeBlockQueue) (blocks : list KVCacheBlock) (idx : nat) :
    option (FreeBlockQueue * list KVCacheBlock) :=
  blocks ← update_block (λ b, set_next None (set_prev (q_tail q) b)) idx blocks;
  match q_tail q with
  | Some tail_idx =>
      blocks ← update_block (set_next (Some idx)) tail_idx blocks;
      Some (mkQueue (q_head q) (Some idx) (q_len q + 1), blocks)
  | None => Some (mkQueue (Some idx) (Some idx) (q_len q + 1), blocks)
  end.

(** Pop the block at the head; [self.head?] returns [None] on an empty queue. *)
Definition pop_front (q : FreeBlockQueue) (blocks : list KVCacheBlock) :
    option (option nat * FreeBlockQueue * list KVCacheBlock) :=
  match q_head q with
  | None => Some (None, q, blocks)
  | Some idx =>
      block ← blocks !! idx;
      '(tail, blocks) ←
        match next_free block with
        | Some new_head =>
            blocks ← update_block (set_prev None) new_head blocks;
            Some (q_tail q, blocks)
        | None => Some (None, blocks)
        end;
      blocks ← update_block (λ b, set_next None (set_prev None b)) idx blocks;
      len ← sub_checked (q_len q) 1;
      Some (Some idx, mkQueue (next_free block) tail len, blocks)
  end.

(** Unlink a given block. *)
Definition remove (q : FreeBlockQueue) (blocks : list KVCacheBlock) (idx : nat) :
    option (FreeBlockQueue * list KVCacheBlock) :=
  block ← blocks !! idx;
  let prev := prev_free block in
  let next := next_free block in
  '(head, blocks) ←
    match prev with
    | Some p => blocks ← update_block (set_next next) p blocks; Some (q_head q, blocks)
    | None => Some (next, blocks)
    end;
  '(tail, blocks) ←
    match next with
    | Some n => blocks ← update_block (set_prev prev) n blocks; Some (q_tail q, blocks)
    | None => Some (prev, blocks)
    end;
  blocks ← update_block (λ b, set_next None (set_prev None b)) idx blocks;
  len ← sub_checked (q_len q) 1;
  Some (mkQueue head tail len, blocks).

End FreeQueue.

(** ** Representation *)

(** The link fields of the block at [b], at a position with [l1] before and
    [l2] behind it. *)
Definition linked (blocks : list KVCacheBlock) (l1 : list nat) (b : nat) (l2 : list nat) : Prop :=
  ∃ blk, blocks !! b = Some blk ∧ prev_free blk = last l1 ∧ next_free blk = head l2.

Record queue_rep (fq : FreeBlockQueue) (blocks : list KVCacheBlock) (q : list nat) : Prop := {
  qr_head : q_head fq = head q;
  qr_tail : q_tail fq = last q;
  qr_len : q_len fq = length q;
  qr_nodup : NoDup q;
  qr_links : ∀ l1 b l2, q = l1 ++ b :: l2 → linked blocks l1 b l2;
}.

(** The part of a block the queue operations leave alone. *)
Definition payload (b : KVCacheBlock) : BlockId * option BlockHash * nat * bool :=
  (blk_id b, blk_hash b, ref_count b, is_null b).

Definition same_payload (blocks blocks' : list KVCacheBlock) : Prop :=
  payload <$> blocks' = payload <$> blocks.

(** ** Helper lemmas *)
Lemma app_cons_split {A} (l1 l2 m1 m2 : list A) c :
  l1 ++ l2 = m1 ++ c :: m2 →
  (∃ k, l1 = m1 ++ c :: k ∧ m2 = k ++ l2) ∨ (∃ k, m1 = l1 ++ k ∧ l2 = k ++ c :: m2).
Proof.
  revert m1. induction l1 as [|a l1 IH]; intros [|b m1] Heq; simpl in *.
  - right. by exists [].
  - right. by exists (b :: m1).
  - injection Heq as -> <-. left. by exists l1.
  - injection Heq as -> Heq. destruct (IH m1 Heq) as [(k & -> & ->) | (k & -> & ->)]; eauto.
Qed.

Lemma last_elem_of {A} (l : list A) x : last l = Some x → x ∈ l.
Proof. intros [l' ->]%last_Some. set_solver. Qed.

Lemma head_elem_of {A} (l : list A) x : head l = Some x → x ∈ l.
Proof. intros [l' ->]%head_Some. set_solver. Qed.

Section blocks.
Implicit Types (bs : list KVCacheBlock) (f : KVCacheBlock → KVCacheBlock).

Lemma update_block_lt f i bs :
  i < length bs → ∃ b, bs !! i = Some b ∧ update_block f i bs = Some (<[i := f b]> bs).
Proof.
  intros Hi. destruct (lookup_lt_is_Some_2 bs i Hi) as [b Hb].
  exists b. split; [done |]. unfold update_block. by rewrite Hb.
Qed.

Lemma same_payload_refl bs : same_payload bs bs.
Proof. done. Qed.

Lemma same_payload_trans bs1 bs2 bs3 :
  same_payload bs1 bs2 → same_payload bs2 bs3 → same_payload bs1 bs3.
Proof. unfold same_payload. by intros -> . Qed.

Lemma same_payload_insert bs i b b' :
  bs !! i = Some b → payload b' = payload b → same_payload bs (<[i := b']> bs).
Proof.
  intros Hb Hp. unfold same_payload. rewrite list_fmap_insert, Hp.
  apply list_insert_id. by rewrite list_lookup_fmap, Hb.
Qed.

Lemma same_payload_length bs bs' : same_payload bs bs' → length bs' = length bs.
Proof. intros H. apply (f_equal length) in H. by rewrite !length_fmap in H. Qed.

Lemma same_payload_lookup bs bs' i b :
  same_payload bs bs' → bs !! i = Some b → ∃ b', bs' !! i = Some b' ∧ payload b' = payload b.
Proof.
  intros H Hb. apply (f_equal (lookup i)) in H. rewrite !list_lookup_fmap, Hb in H.
  destruct (bs' !! i) as [b'|]; [| done]. injection H as H. exists b'.
  split; [done |]. unfold payload. congruence.
Qed.

Lemma same_payload_lookup_inv bs bs' i b' :
  same_payload bs bs' → bs' !! i = Some b' → ∃ b, bs !! i = Some b ∧ payload b' = payload b.
Proof.
  intros H Hb. destruct (same_payload_lookup bs' bs i b') as (b & ? & ?); [by symmetry | done |].
  eauto.
Qed.

Lemma linked_insert_ne bs i x l1 b l2 :
  b ≠ i → linked bs l1 b l2 → linked (<[i := x]> bs) l1 b l2.
Proof. intros Hne (blk & ? & ? & ?). exists blk. by rewrite list_lookup_insert_ne. Qed.

Lemma linked_lt bs l1 b l2 : linked bs l1 b l2 → b < length bs.
Proof. intros (blk & ? & _). by eapply lookup_lt_Some. Qed.

Lemma queue_rep_lt fq bs q b : queue_rep fq bs q → b ∈ q → b < length bs.
Proof.
  intros Hq (l1 & l2 & ->)%list_elem_of_split.
  by eapply linked_lt, (qr_links _ _ _ Hq).
Qed.
End blocks.

#[export] Hint Resolve same_payload_refl : rllm.

(** ** Refinement of the list operations *)
Lemma new_rep blocks : queue_rep FreeQueue.new blocks [].
Proof. split; try done; [constructor | intros [] ??; done]. Qed.

Lemma push_front_rep fq blocks q idx :
  queue_rep fq blocks q → idx ∉ q → idx < length blocks →
  ∃ fq' blocks', FreeQueue.push_front fq blocks idx = Some (fq', blocks')
    ∧ queue_rep fq' blocks' (idx :: q) ∧ same_payload blocks blocks'.
Proof.
  intros Hq Hni Hlt. unfold FreeQueue.push_front.
  destruct (update_block_lt (λ b, set_next (q_head fq) (set_prev None b)) idx blocks Hlt)
    as (b & Hb & ->); simpl.
  set (b1 := set_next (q_head fq) (set_prev None b)).
  assert (Hp1 : same_payload blocks (<[idx := b1]> blocks))
    by (by eapply same_payload_insert).
  rewrite (qr_head _ _ _ Hq). destruct q as [|h t]; simpl.
  - eexists _, _. split; [done |]. split; [| done].
    split; simpl; [done | done | by rewrite (qr_len _ _ _ Hq) | by apply NoDup_singleton |].
    intros l1 c l2 Heq. destruct l1 as [|? [|]]; simplify_eq/=.
    exists b1. rewrite list_lookup_insert_eq by done. subst b1. simpl.
    by rewrite (qr_head _ _ _ Hq).
  - assert (Hh : h < length (<[idx := b1]> blocks)).
    { rewrite length_insert. eapply queue_rep_lt; [done | set_solver]. }
    destruct (update_block_lt (set_prev (Some idx)) h _ Hh) as (bh & Hbh & ->); simpl.
    eexists _, _. split; [done |]. split.
    2: { eapply same_payload_trans; [done |]. by eapply same_payload_insert. }
    assert (Hne : idx ≠ h) by set_solver.
    split; simpl.
    + done.
    + rewrite (qr_tail _ _ _ Hq). done.
    + rewrite (qr_len _ _ _ Hq). simpl. lia.
    + constructor; [done | apply (qr_nodup _ _ _ Hq)].
    + intros l1 c l2 Heq.
      destruct l1 as [|x l1]; simpl in Heq; injection Heq as <- Heq.
      * subst l2. apply linked_insert_ne; [done |]. exists b1.
        rewrite list_lookup_insert_eq by done. subst b1. simpl. by rewrite (qr_head _ _ _ Hq).
      * pose proof (qr_links _ _ _ Hq _ _ _ Heq) as Hl.
        pose proof (qr_nodup _ _ _ Hq) as Hnd.
        destruct l1 as [|a l1]; simpl in Heq; injection Heq as <- Heq.
        -- destruct Hl as (blk & Hblk & Hprev & Hnext).
           rewrite list_lookup_insert_ne in Hbh by done.
           assert (bh = blk) as -> by congruence.
           exists (set_prev (Some idx) blk). by rewrite list_lookup_insert_eq by done.
        -- apply NoDup_cons in Hnd as [Hnd _]. subst t.
           apply linked_insert_ne; [set_solver |]. apply linked_insert_ne; [set_solver |].
           exact Hl.
Qed.

Lemma push_back_rep fq blocks q idx :
  queue_rep fq blocks q → idx ∉ q → idx < length blocks →
  ∃ fq' blocks', FreeQueue.push_back fq blocks idx = Some (fq', blocks')
    ∧ queue_rep fq' blocks' (q ++ [idx]) ∧ same_payload blocks blocks'.
Proof.
  intros Hq Hni Hlt. unfold FreeQueue.push_back.
  destruct (update_block_lt (λ b, set_next None (set_prev (q_tail fq) b)) idx blocks Hlt)
    as (b & Hb & ->); simpl.
  set (b1 := set_next None (set_prev (q_tail fq) b)).
  assert (Hp1 : same_payload blocks (<[idx := b1]> blocks))
    by (by eapply same_payload_insert).
  rewrite (qr_tail _ _ _ Hq).
  destruct q as [|t q'] using rev_ind; [| clear IHq']; simpl.
  - eexists _, _. split; [done |]. split; [| done].
    split; simpl; [done | done | by rewrite (qr_len _ _ _ Hq) | by apply NoDup_singleton |].
    intros l1 c l2 Heq. destruct l1 as [|? [|]]; simplify_eq/=.
    exists b1. rewrite list_lookup_insert_eq by done. subst b1. simpl.
    by rewrite (qr_tail _ _ _ Hq).
  - rewrite last_snoc.
    assert (Ht : t < length (<[idx := b1]> blocks)).
    { rewrite length_insert. eapply queue_rep_lt; [done | set_solver]. }
    destruct (update_block_lt (set_next (Some idx)) t _ Ht) as (bt & Hbt & ->); simpl.
    eexists _, _. split; [done |]. split.
    2: { eapply same_payload_trans; [done |]. by eapply same_payload_insert. }
    assert (Hne : idx ≠ t) by set_solver.
    pose proof (qr_nodup _ _ _ Hq) as Hnd.
    rewrite list_lookup_insert_ne in Hbt by done.
    split; simpl.
    + rewrite (qr_head _ _ _ Hq). by destruct q'.
    + by rewrite last_snoc.
    + rewrite (qr_len _ _ _ Hq), !length_app. simpl. lia.
    + rewrite NoDup_app. split; [done |]. split; [set_solver | apply NoDup_singleton].
    + intros l1 c l2 Heq.
      destruct (app_cons_split _ _ _ _ _ Heq) as [(k & Hk & ->) | (k & -> & Hk)].
      * pose proof (qr_links _ _ _ Hq _ _ _ Hk) as Hl.
        destruct (app_cons_split _ _ _ _ _ Hk) as [(k' & -> & ->) | (k' & -> & Hk')].
        -- apply NoDup_app in Hnd as (_ & Hnd & _).
           apply linked_insert_ne; [set_solver |]. apply linked_insert_ne; [set_solver |].
           by destruct k'.
        -- destruct k' as [|? []]; simplify_eq/=. rewrite app_nil_r in Hl |- *.
           destruct Hl as (blk & Hblk & Hprev & Hnext).
           assert (bt = blk) as -> by congruence.
           exists (set_next (Some idx) blk).
           by rewrite list_lookup_insert_eq by exact Ht.
      * destruct k as [|? []]; simplify_eq/=. rewrite app_nil_r.
        apply linked_insert_ne; [done |]. exists b1. rewrite list_lookup_insert_eq by done.
        subst b1. simpl. by rewrite (qr_tail _ _ _ Hq).
Qed.

(** [q ++ \[x\]] and [x :: q] with their ends removed again: the unlinking of a
    block in the middle, with [p], [n] its neighbours. *)
Lemma relink_links blocks l1 b l2 blocks1 blocks2 blkb :
  NoDup (l1 ++ b :: l2) →
  (∀ m1 c m2, l1 ++ b :: l2 = m1 ++ c :: m2 → linked blocks m1 c m2) →
  (match last l1 with
   | Some p => update_block (set_next (head l2)) p blocks = Some blocks1
   | None => blocks1 = blocks
   end) →
  (match head l2 with
   | Some n => update_block (set_prev (last l1)) n blocks1 = Some blocks2
   | None => blocks2 = blocks1
   end) →
  ∀ m1 c m2, l1 ++ l2 = m1 ++ c :: m2 → linked (<[b := blkb]> blocks2) m1 c m2.
Proof.
  intros Hnd Hlinks H1 H2 m1 c m2 Heq.
  destruct (app_cons_split _ _ _ _ _ Heq) as [(k & -> & ->) | (k & -> & ->)].
  - (* [c] in front of the unlinked block *)
    assert (Hc : linked blocks m1 c (k ++ b :: l2)) by (apply Hlinks; by rewrite <- app_assoc).
    rewrite <- app_assoc in Hnd. apply NoDup_app in Hnd as (_ & _ & Hnd).
    simpl in Hnd. apply NoDup_cons in Hnd as [Hc' Hnd].
    apply linked_insert_ne; [set_solver |].
    assert (Hc1 : linked blocks1 m1 c (k ++ l2)).
    { rewrite last_app in H1. destruct k as [|k0 k] using rev_ind; [| clear IHk]; simpl in *.
      - unfold update_block in H1. destruct Hc as (blk & Hblk & ? & ?). rewrite Hblk in H1.
        injection H1 as <-. exists (set_next (head l2) blk).
        rewrite list_lookup_insert_eq; [done | by eapply lookup_lt_Some].
      - rewrite last_cons, last_snoc in H1. unfold update_block in H1.
        apply bind_Some in H1 as (blk & _ & [= <-]).
        apply linked_insert_ne; [set_solver |].
        destruct Hc as (blk' & ? & ? & Hh). exists blk'.
        rewrite Hh. by destruct k. }
    destruct (head l2) as [n|] eqn:Hn; [| by subst].
    apply bind_Some in H2 as (blk & _ & [= <-]).
    apply linked_insert_ne; [| done]. apply head_elem_of in Hn. set_solver.
  - (* [c] behind it *)
    assert (Hc : linked blocks (l1 ++ b :: k) c m2)
      by (apply Hlinks; by rewrite <- app_assoc).
    rewrite app_comm_cons, app_assoc in Hnd. apply NoDup_app in Hnd as (Hnd1 & Hnd2 & Hnd3).
    apply NoDup_cons in Hnd3 as [Hc' _].
    apply linked_insert_ne; [set_solver |].
    assert (Hc1 : linked blocks1 (l1 ++ b :: k) c m2).
    { destruct (last l1) as [p|] eqn:Hp; [| by subst].
      apply bind_Some in H1 as (blk & _ & [= <-]).
      apply linked_insert_ne; [| done]. apply last_elem_of in Hp. set_solver. }
    destruct k as [|k0 k]; simpl in *.
    + apply bind_Some in H2 as (blk & Hblk & [= <-]).
      destruct Hc1 as (blk' & Hblk' & _ & Hnext). assert (blk' = blk) as -> by congruence.
      exists (set_prev (last l1) blk).
      rewrite list_lookup_insert_eq by (by eapply lookup_lt_Some). by rewrite app_nil_r.
    + apply bind_Some in H2 as (blk & _ & [= <-]).
      apply linked_insert_ne; [set_solver |].
      destruct Hc1 as (blk' & ? & Hprev & ?). exists blk'. split; [done |]. split; [| done].
      rewrite Hprev, !last_app. by rewrite last_cons_cons.
Qed.

(** A neighbour update succeeds and touches no payload. *)
Lemma neighbour_update blocks q fq f (o : option nat) :
  (∀ b, payload (f b) = payload b) → queue_rep fq blocks q → (∀ i, o = Some i → i ∈ q) →
  ∀ blocks0, same_payload blocks blocks0 →
  ∃ blocks1,
    match o with Some i => update_block f i blocks0 = Some blocks1 | None => blocks1 = blocks0 end
    ∧ same_payload blocks blocks1.
Proof.
  intros Hf Hq Ho blocks0 Hp. destruct o as [i|]; [| by exists blocks0].
  destruct (update_block_lt f i blocks0) as (b & Hb & ->).
  - rewrite (same_payload_length _ _ Hp). eapply queue_rep_lt; [done | by apply Ho].
  - eexists. split; [done |]. eapply same_payload_trans; [done |]. by eapply same_payload_insert.
Qed.

Lemma remove_rep fq blocks l1 b l2 :
  queue_rep fq blocks (l1 ++ b :: l2) →
  ∃ fq' blocks', FreeQueue.remove fq blocks b = Some (fq', blocks')
    ∧ queue_rep fq' blocks' (l1 ++ l2) ∧ same_payload blocks blocks'.
Proof.
  intros Hq. unfold FreeQueue.remove.
  destruct (qr_links _ _ _ Hq l1 b l2 eq_refl) as (blk & Hblk & Hprev & Hnext).
  rewrite Hblk. simpl. rewrite Hprev, Hnext.
  destruct (neighbour_update blocks _ fq (set_next (head l2)) (last l1) (λ _, eq_refl) Hq)
    with (blocks0 := blocks) as (bs1 & H1 & Hp1); [| done |].
  { intros i Hi%last_elem_of. set_solver. }
  destruct (neighbour_update blocks _ fq (set_prev (last l1)) (head l2) (λ _, eq_refl) Hq)
    with (blocks0 := bs1) as (bs2 & H2 & Hp2); [| done |].
  { intros i Hi%head_elem_of. set_solver. }
  destruct (update_block_lt (λ b, set_next None (set_prev None b)) b bs2) as (blk2 & Hblk2 & H3).
  { rewrite (same_payload_length _ _ Hp2). by eapply lookup_lt_Some. }
  pose proof (relink_links _ _ _ _ _ _ (set_next None (set_prev None blk2))
    (qr_nodup _ _ _ Hq) (qr_links _ _ _ Hq) H1 H2) as Hl.
  pose proof (qr_head _ _ _ Hq) as Hh. pose proof (qr_tail _ _ _ Hq) as Ht.
  pose proof (qr_len _ _ _ Hq) as Hlen. rewrite length_app in Hlen. simpl in Hlen.
  eexists (mkQueue (head (l1 ++ l2)) (last (l1 ++ l2)) (length (l1 ++ l2))), _.
  split; [| split].
  - assert (E1 : (match last l1 with
        | Some p => blocks1 ← update_block (set_next (head l2)) p blocks; Some (q_head fq, blocks1)
        | None => Some (head l2, blocks) end) = Some (head (l1 ++ l2), bs1)).
    { destruct (last l1) as [p|] eqn:Hp.
      - rewrite H1. simpl. rewrite Hh. destruct l1; [done |]. done.
      - apply last_None in Hp as ->. by subst. }
    rewrite E1. simpl.
    assert (E2 : (match head l2 with
        | Some n => blocks2 ← update_block (set_prev (last l1)) n bs1; Some (q_tail fq, blocks2)
        | None => Some (last l1, bs1) end) = Some (last (l1 ++ l2), bs2)).
    { destruct (head l2) as [n|] eqn:Hn.
      - rewrite H2. simpl. rewrite Ht. destruct l2; [done |]. by rewrite !last_app, !last_cons_cons.
      - apply head_None in Hn as ->. subst. by rewrite app_nil_r. }
    rewrite E2. simpl. rewrite H3. simpl. rewrite sub_checked_Some by lia. simpl.
    do 3 f_equal. rewrite Hlen, length_app. lia.
  - split; simpl; try done.
    pose proof (qr_nodup _ _ _ Hq) as Hnd. rewrite NoDup_app, NoDup_cons in Hnd.
    rewrite NoDup_app. set_solver.
  - eapply same_payload_trans; [done |]. by eapply same_payload_insert.
Qed.

Lemma pop_front_rep fq blocks b q :
  queue_rep fq blocks (b :: q) →
  ∃ fq' blocks', FreeQueue.pop_front fq blocks = Some (Some b, fq', blocks')
    ∧ queue_rep fq' blocks' q ∧ same_payload blocks blocks'.
Proof.
  intros Hq. destruct (remove_rep fq blocks [] b q Hq) as (fq' & blocks' & H & Hq' & Hp).
  exists fq', blocks'. split; [| done].
  destruct (qr_links _ _ _ Hq [] b q eq_refl) as (blk & Hblk & Hprev & Hnext).
  unfold FreeQueue.remove in H. unfold FreeQueue.pop_front.
  rewrite (qr_head _ _ _ Hq). simpl. rewrite Hblk in H |- *. simpl in *.
  rewrite Hprev, Hnext in H. rewrite Hnext. simpl in *.
  destruct (match head q with
            | Some n => blocks0 ← update_block (set_prev None) n blocks; Some (q_tail fq, blocks0)
            | None => Some (None, blocks) end) as [[tl bs]|]; [| done].
  simpl in *. destruct (update_block _ b bs); [| done]. simpl in *.
  destruct (sub_checked _ _); [| done]. simpl in *. by injection H as <- <-.
Qed.

Lemma pop_front_nil fq blocks :
  queue_rep fq blocks [] → FreeQueue.pop_front fq blocks = Some (None, fq, blocks).
Proof. intros Hq. unfold FreeQueue.pop_front. by rewrite (qr_head _ _ _ Hq). Qed.

(** Changing a payload in place keeps the links. *)
Lemma queue_rep_payload fq blocks q i f b :
  (∀ b, prev_free (f b) = prev_free b) → (∀ b, next_free (f b) = next_free b) →
  queue_rep fq blocks q → blocks !! i = Some b → queue_rep fq (<[i := f b]> blocks) q.
Proof.
  intros Hfp Hfn Hq Hb. destruct Hq as [Hh Ht Hlen Hnd Hl]. split; try done.
  intros l1 c l2 Heq. destruct (Hl _ _ _ Heq) as (blk & Hblk & Hp & Hn).
  destruct (decide (c = i)) as [->|Hne].
  - assert (blk = b) as -> by congruence. exists (f b).
    rewrite list_lookup_insert_eq by (by eapply lookup_lt_Some). by rewrite Hfp, Hfn.
  - apply linked_insert_ne; [done |]. by exists blk.
Qed.

(** ** Properties *)

(** C21. The intrusive queue refines a plain list: on a queue that represents
    [q], [push_front], [push_back], [remove] and [pop_front] do not panic,
    represent [i :: q], [q ++ \[i\]], [q] without the block and the tail of [q],
    and change no field of a block but its two links. *)
Theorem free_queue_refines_list fq blocks q (Hq : queue_rep fq blocks q) :
  (∀ i, i ∉ q → i < length blocks →
     ∃ fq' bs', FreeQueue.push_front fq blocks i = Some (fq', bs')
       ∧ queue_rep fq' bs' (i :: q) ∧ same_payload blocks bs')
  ∧ (∀ i, i ∉ q → i < length blocks →
     ∃ fq' bs', FreeQueue.push_back fq blocks i = Some (fq', bs')
       ∧ queue_rep fq' bs' (q ++ [i]) ∧ same_payload blocks bs')
  ∧ (∀ l1 i l2, q = l1 ++ i :: l2 →
     ∃ fq' bs', FreeQueue.remove fq blocks i = Some (fq', bs')
       ∧ queue_rep fq' bs' (l1 ++ l2) ∧ same_payload blocks bs')
  ∧ (∃ fq' bs', FreeQueue.pop_front fq blocks = Some (head q, fq', bs')
       ∧ queue_rep fq' bs' (tail q) ∧ same_payload blocks bs')
  ∧ FreeQueue.len fq = length q ∧ FreeQueue.is_empty fq = bool_decide (q = []).
Proof.
  split_and!.
  - intros. by apply push_front_rep.
  - intros. by apply push_back_rep.
  - intros l1 i l2 ->. by apply remove_rep.
  - destruct q as [|b q]; [| by apply pop_front_rep].
    exists fq, blocks. rewrite pop_front_nil by done. done.
  - apply Hq.
  - unfold FreeQueue.is_empty. rewrite (qr_len _ _ _ Hq). by destruct q.
Qed.

Lemma free_queue_refines_list_witness :
  let blocks := [mkBlock 0 None 0 None None true; mkBlock 1 None 0 None None false] in
  queue_rep FreeQueue.new blocks []
  ∧ ∃ fq' bs', FreeQueue.push_front FreeQueue.new blocks 1 = Some (fq', bs')
       ∧ queue_rep fq' bs' [1] ∧ same_payload blocks bs'.
Proof.
  intros blocks. split; [apply new_rep |].
  apply (free_queue_refines_list FreeQueue.new blocks [] (new_rep blocks)).
  - apply not_elem_of_nil.
  - subst blocks. simpl. lia.
Defined.
