(* ===== verification/BlockPool.v ===== *)
(** * The pool of KV cache blocks

    [BlockPool] of crates/rllm-cache/src/block_pool.rs: the block vector, the
    free queue threaded through it, the map from block hashes to blocks and the
    active-block counter.  Every operation is in the panic monad of [Prelude].
    [pool_rep p q] is the invariant, with [q] the list of free blocks from the
    MRU end to the LRU end. *)
From S2P Require Import Prelude FreeQueue.

Record BlockPool : Type := mkPool {
  bp_blocks : list KVCacheBlock;
  bp_free_queue : FreeBlockQueue;
  bp_hash_map : gmap BlockHash (list BlockId);
  bp_num_active : nat;
}.

Record BlockPoolUsage : Type := mkPoolUsage {
  pu_num_total : nat;
  pu_num_active : nat;
  pu_num_free : nat;
  pu_num_cached : nat;
}.

Definition set_blocks (bs : list KVCacheBlock) (p : BlockPool) : BlockPool :=
  mkPool bs (bp_free_queue p) (bp_hash_map p) (bp_num_active p).
Definition set_queue (q : FreeBlockQueue) (bs : list KVCacheBlock) (p : BlockPool) : BlockPool :=
  mkPool bs q (bp_hash_map p) (bp_num_active p).
Definition set_hash_map (m : gmap BlockHash (list BlockId)) (p : BlockPool) : BlockPool :=
  mkPool (bp_blocks p) (bp_free_queue p) m (bp_num_active p).
Definition set_num_active (n : nat) (p : BlockPool) : BlockPool :=
  mkPool (bp_blocks p) (bp_free_queue p) (bp_hash_map p) n.

Module BlockPool.

(** The block [new] creates at index [i]; block 0 is the null block. *)
Definition fresh_block (i : nat) : KVCacheBlock := mkBlock i None 0 None None (i =? 0).

(** The pushes of [new]'s last loop. *)
Fixpoint push_all (idxs : list nat) (fq : FreeBlockQueue) (bs : list KVCacheBlock) :
    option (FreeBlockQueue * list KVCacheBlock) :=
  match idxs with
  | [] => Some (fq, bs)
  | i :: idxs => '(fq, bs) ← FreeQueue.push_back fq bs i; push_all idxs fq bs
  end.

(** The code's ids are [i as u32] and its reference counts [u32]: the ids are the
    indices in a pool of at most 2^32 blocks, and [pool_call] below adds the bound
    of the counts.  The allocation of the vector is taken to succeed. *)
Definition new (num_blocks : nat) : option BlockPool :=
  let blocks := fresh_block 0 :: (fresh_block <$> seq 1 (num_blocks - 1)) in
  '(fq, blocks) ← push_all (seq 1 (num_blocks - 1)) FreeQueue.new blocks;
  Some (mkPool blocks fq ∅ 0).

Definition num_blocks (p : BlockPool) : nat := length (bp_blocks p).
Definition num_active (p : BlockPool) : nat := bp_num_active p.
Definition num_free (p : BlockPool) : nat := FreeQueue.len (bp_free_queue p).

(** Remove [block_id] from the entry of [hash]; an entry left empty goes too. *)
Definition remove_hash_entry (p : BlockPool) (hash : BlockHash) (block_id : BlockId) : BlockPool :=
  match bp_hash_map p !! hash with
  | Some ids =>
      let ids := filter (λ id, id ≠ block_id) ids in
      set_hash_map
        (match ids with [] => delete hash (bp_hash_map p) | _ => <[hash := ids]> (bp_hash_map p) end) p
  | None => p
  end.

(** The walk of [pop_uncached] from [candidate]; [fuel] bounds the links followed. *)
Fixpoint pop_uncached_from (fuel : nat) (p : BlockPool) (candidate : option nat) :
    option (option nat * BlockPool) :=
  match fuel, candidate with
  | _, None => Some (None, p)
  | 0, Some _ => None
  | S fuel, Some idx =>
      b ← bp_blocks p !! idx;
      match blk_hash b with
      | None =>
          '(fq, bs) ← FreeQueue.remove (bp_free_queue p) (bp_blocks p) idx;
          Some (Some idx, set_queue fq bs p)
      | Some _ => pop_uncached_from fuel p (next_free b)
      end
  end.

(** Pop the first uncached block from the free queue. *)
Definition pop_uncached (p : BlockPool) : option (option nat * BlockPool) :=
  pop_uncached_from (length (bp_blocks p)) p (q_head (bp_free_queue p)).

Fixpoint evict_lru_from (fuel : nat) (p : BlockPool) (candidate : option nat) :
    option (option nat * BlockPool) :=
  match fuel, candidate with
  | _, None => Some (None, p)
  | 0, Some _ => None
  | S fuel, Some idx =>
      b ← bp_blocks p !! idx;
      match blk_hash b with
      | Some hash =>
          '(fq, bs) ← FreeQueue.remove (bp_free_queue p) (bp_blocks p) idx;
          b ← bs !! idx;
          let p := set_queue fq (<[idx := set_hash None b]> bs) p in
          Some (Some idx, remove_hash_entry p hash (blk_id b))
      | None => evict_lru_from fuel p (prev_free b)
      end
  end.

(** Evict the LRU cached block from the tail of the free queue. *)
Definition evict_lru (p : BlockPool) : option (option nat * BlockPool) :=
  evict_lru_from (length (bp_blocks p)) p (q_tail (bp_free_queue p)).

(** Allocate a block: an uncached free block if there is one, otherwise the
    LRU cached one. *)
Definition allocate (p : BlockPool) : option (option BlockId * BlockPool) :=
  '(found, p) ← pop_uncached p;
  '(found, p) ← match found with Some idx => Some (Some idx, p) | None => evict_lru p end;
  match found with
  | None => Some (None, p)
  | Some idx =>
      b ← bp_blocks p !! idx;
      let p := set_blocks (<[idx := set_hash None (set_ref 1 b)]> (bp_blocks p)) p in
      Some (Some (blk_id b), set_num_active (bp_num_active p + 1) p)
  end.

(** Drop one reference; the last one returns the block to the MRU end. *)
Definition free (p : BlockPool) (block_id : BlockId) : option BlockPool :=
  b ← bp_blocks p !! block_id;
  if is_null b || (ref_count b =? 0) then Some p
  else
    let b := set_ref (ref_count b - 1) b in
    let bs := <[block_id := b]> (bp_blocks p) in
    if ref_count b =? 0 then
      '(fq, bs) ← FreeQueue.push_front (bp_free_queue p) bs block_id;
      n ← sub_checked (bp_num_active p) 1;
      Some (set_num_active n (set_queue fq bs p))
    else Some (set_blocks bs p).

(** The addition is on [u32]; [pool_call] says when it overflows. *)
Definition incref (p : BlockPool) (block_id : BlockId) : option BlockPool :=
  b ← bp_blocks p !! block_id;
  if negb (is_null b) && (0 <? ref_count b)
  then Some (set_blocks (<[block_id := set_ref (ref_count b + 1) b]> (bp_blocks p)) p)
  else Some p.

Definition is_shared (p : BlockPool) (block_id : BlockId) : bool :=
  match bp_blocks p !! block_id with
  | None => false
  | Some b => negb (is_null b) && (1 <? ref_count b)
  end.

Definition copy_on_write (p : BlockPool) (old_block_id : BlockId) :
    option (option BlockId * BlockPool) :=
  if negb (is_shared p old_block_id) then Some (Some old_block_id, p)
  else
    '(new_block_id, p) ← allocate p;
    match new_block_id with
    | None => Some (None, p)
    | Some new_block_id => p ← free p old_block_id; Some (Some new_block_id, p)
    end.

(** The queue-membership test of [touch] and [get_cached_block]. *)
Definition looks_queued (p : BlockPool) (idx : nat) (b : KVCacheBlock) : bool :=
  bool_decide (is_Some (prev_free b)) || bool_decide (is_Some (next_free b))
  || bool_decide (q_head (bp_free_queue p) = Some idx).

(** Move a cached, unreferenced block to the MRU end. *)
Definition touch (p : BlockPool) (block_id : BlockId) : option BlockPool :=
  b ← bp_blocks p !! block_id;
  if (ref_count b =? 0) && negb (is_null b) && bool_decide (is_Some (blk_hash b)) then
    if looks_queued p block_id b then
      '(fq, bs) ← FreeQueue.remove (bp_free_queue p) (bp_blocks p) block_id;
      '(fq, bs) ← FreeQueue.push_front fq bs block_id;
      Some (set_queue fq bs p)
    else Some p
  else Some p.

(** Look up a cached block, take a reference to it and keep it alive. *)
Definition get_cached_block (p : BlockPool) (hash : BlockHash) :
    option (option BlockId * BlockPool) :=
  match bp_hash_map p !! hash with
  | None | Some [] => Some (None, p)
  | Some (block_id :: _) =>
      p ← touch p block_id;
      b ← bp_blocks p !! block_id;
      let needs_activate := ref_count b =? 0 in
      let in_queue := needs_activate && looks_queued p block_id b in
      p ← (if in_queue then
             '(fq, bs) ← FreeQueue.remove (bp_free_queue p) (bp_blocks p) block_id;
             Some (set_queue fq bs p)
           else Some p);
      let p := if needs_activate then set_num_active (bp_num_active p + 1) p else p in
      bs ← update_block (λ b, set_ref (ref_count b + 1) b) block_id (bp_blocks p);
      Some (Some block_id, set_blocks bs p)
  end.

(** Associate an active block with a hash. *)
Definition cache_block (p : BlockPool) (block_id : BlockId) (hash : BlockHash) : option BlockPool :=
  b ← bp_blocks p !! block_id;
  if (ref_count b =? 0) || is_null b then Some p
  else
    let p := set_blocks (<[block_id := set_hash (Some hash) b]> (bp_blocks p)) p in
    Some (set_hash_map (<[hash := default [] (bp_hash_map p !! hash) ++ [block_id]]> (bp_hash_map p)) p).

(** The error names the first active block that still carries a hash. *)
Inductive ResetError : Type := BlockActiveWithHash (block : BlockId).

Definition active_with_hash (b : KVCacheBlock) : bool :=
  bool_decide (is_Some (blk_hash b)) && (0 <? ref_count b).

Definition reset_prefix_cache (p : BlockPool) : result BlockPool ResetError :=
  match List.find active_with_hash (bp_blocks p) with
  | Some b => Err (BlockActiveWithHash (blk_id b))
  | None => Ok (set_hash_map ∅ (set_blocks (set_hash None <$> bp_blocks p) p))
  end.

Definition usage (p : BlockPool) : BlockPoolUsage :=
  mkPoolUsage (length (bp_blocks p) - 1) (bp_num_active p) (num_free p) (size (bp_hash_map p)).

End BlockPool.

(** ** Observations *)
Definition refs (p : BlockPool) (i : nat) : nat := from_option ref_count 0 (bp_blocks p !! i).
Definition hash_of (p : BlockPool) (i : nat) : option BlockHash := bp_blocks p !! i ≫= blk_hash.

(** Is the block referenced?  The counter [num_active_blocks] counts these. *)
Definition act (b : KVCacheBlock) : nat := if 0 <? ref_count b then 1 else 0.
Fixpoint nactive (bs : list KVCacheBlock) : nat :=
  match bs with [] => 0 | b :: bs => act b + nactive bs end.

(** ** The invariant *)
Definition block_ok (q : list nat) (i : nat) (b : KVCacheBlock) : Prop :=
  blk_id b = i ∧ is_null b = (i =? 0) ∧ (i ∈ q ↔ i ≠ 0 ∧ ref_count b = 0)
  ∧ (i = 0 → ref_count b = 0 ∧ blk_hash b = None).

Record pool_data (bs : list KVCacheBlock) (q : list nat) (n : nat)
    (hm : gmap BlockHash (list BlockId)) : Prop := {
  pd_nonempty : 0 < length bs;
  pd_blocks : ∀ i b, bs !! i = Some b → block_ok q i b;
  pd_active : n = nactive bs;
  pd_map : ∀ h ids i, hm !! h = Some ids → i ∈ ids → 0 < i < length bs;
}.

Record pool_rep (p : BlockPool) (q : list nat) : Prop := {
  pr_queue : queue_rep (bp_free_queue p) (bp_blocks p) q;
  pr_data : pool_data (bp_blocks p) q (bp_num_active p) (bp_hash_map p);
}.

(** The hash map holds exactly the blocks that carry the hash. *)
Definition hash_coherent (p : BlockPool) : Prop :=
  ∀ i h, i < length (bp_blocks p) → (hash_of p i = Some h ↔ i ∈ default [] (bp_hash_map p !! h)).

(** ** Helper lemmas *)
Lemma nactive_insert bs i b b' :
  bs !! i = Some b → nactive (<[i := b']> bs) + act b = nactive bs + act b'.
Proof.
  revert i. induction bs as [|a bs IH]; intros [|i] Hi; simplify_eq/=; [lia |].
  specialize (IH i Hi). lia.
Qed.

Lemma nactive_zero bs : (∀ i b, bs !! i = Some b → ref_count b = 0) → nactive bs = 0.
Proof.
  induction bs as [|b bs IH]; intros H; [done |]. simpl. rewrite IH by (intros i; apply (H (S i))).
  unfold act. by rewrite (H 0 b eq_refl).
Qed.

Lemma act_payload b b' : payload b' = payload b → act b' = act b.
Proof. unfold payload, act. intros [= _ _ -> _]. done. Qed.

Lemma nactive_payload bs bs' : same_payload bs bs' → nactive bs' = nactive bs.
Proof.
  unfold same_payload. revert bs'.
  induction bs as [|b bs IH]; intros [|b' bs'] H; simpl in *; try done.
  apply cons_eq_inj in H as [Hb H]. by rewrite (act_payload _ _ Hb), (IH bs' H).
Qed.

Lemma pool_data_payload bs bs' q n hm :
  same_payload bs bs' → pool_data bs q n hm → pool_data bs' q n hm.
Proof.
  intros Hp [H1 H2 H3 H4]. split.
  - by rewrite (same_payload_length _ _ Hp).
  - intros i b' Hb'. destruct (same_payload_lookup_inv _ _ _ _ Hp Hb') as (b & Hb & E).
    specialize (H2 i b Hb). unfold payload in E. injection E as E1 E2 E3 E4.
    unfold block_ok in *. by rewrite E1, E2, E3, E4.
  - by rewrite (nactive_payload _ _ Hp).
  - rewrite (same_payload_length _ _ Hp). done.
Qed.

Lemma pool_data_perm bs q q' n hm :
  (∀ i, i ∈ q ↔ i ∈ q') → pool_data bs q n hm → pool_data bs q' n hm.
Proof.
  intros Hq [H1 H2 H3 H4]. split; [done | | done | done].
  intros i b Hb. specialize (H2 i b Hb). unfold block_ok in *. by rewrite <- Hq.
Qed.

Lemma pool_data_insert bs q n hm i b b' q' n' :
  pool_data bs q n hm → bs !! i = Some b → i ≠ 0 →
  blk_id b' = blk_id b → is_null b' = is_null b →
  (∀ j, j ≠ i → (j ∈ q' ↔ j ∈ q)) → (i ∈ q' ↔ ref_count b' = 0) →
  n' + act b = n + act b' →
  pool_data (<[i := b']> bs) q' n' hm.
Proof.
  intros [H1 H2 H3 H4] Hb Hi Hid Hnull Hq Hqi Hn. split.
  - by rewrite length_insert.
  - intros j c Hc. destruct (decide (j = i)) as [->|Hne].
    + rewrite list_lookup_insert_eq in Hc by (by eapply lookup_lt_Some). injection Hc as <-.
      destruct (H2 i b Hb) as (E1 & E2 & _ & _).
      split; [congruence |]. split; [congruence |]. split; [| done].
      rewrite Hqi. naive_solver.
    + rewrite list_lookup_insert_ne in Hc by done.
      destruct (H2 j c Hc) as (E1 & E2 & E3 & E4).
      split; [done |]. split; [done |]. split; [| done]. by rewrite Hq.
  - pose proof (nactive_insert bs i b b' Hb). lia.
  - by rewrite length_insert.
Qed.

Lemma pool_data_map bs q n hm hm' :
  pool_data bs q n hm →
  (∀ h ids i, hm' !! h = Some ids → i ∈ ids → 0 < i < length bs) →
  pool_data bs q n hm'.
Proof. intros [H1 H2 H3 H4] ?. by split. Qed.

Lemma payload_refs bs bs' i :
  same_payload bs bs' → from_option ref_count 0 (bs' !! i) = from_option ref_count 0 (bs !! i).
Proof.
  intros H. apply (f_equal (lookup i)) in H. rewrite !list_lookup_fmap in H.
  destruct (bs !! i), (bs' !! i); simplify_eq/=; unfold payload in *; congruence.
Qed.

Lemma payload_hash bs bs' i : same_payload bs bs' → (bs' !! i ≫= blk_hash) = (bs !! i ≫= blk_hash).
Proof.
  intros H. apply (f_equal (lookup i)) in H. rewrite !list_lookup_fmap in H.
  destruct (bs !! i), (bs' !! i); simplify_eq/=; unfold payload in *; congruence.
Qed.

Section facts.
Context (p : BlockPool) (q : list nat) (Hrep : pool_rep p q).

Lemma pool_queue_lt i : i ∈ q → i < length (bp_blocks p).
Proof using Hrep. apply queue_rep_lt with (bp_free_queue p). apply Hrep. Qed.

Lemma pool_queue_length : length q ≤ length (bp_blocks p).
Proof using Hrep.
  rewrite <- (length_seq (length (bp_blocks p)) 0).
  apply submseteq_length, NoDup_submseteq.
  - apply (qr_nodup _ _ _ (pr_queue _ _ Hrep)).
  - intros i Hi%pool_queue_lt. apply elem_of_seq. lia.
Qed.

Lemma pool_queue_block i :
  i ∈ q → ∃ b, bp_blocks p !! i = Some b ∧ blk_id b = i ∧ is_null b = false
               ∧ ref_count b = 0 ∧ i ≠ 0.
Proof using Hrep.
  intros Hi. destruct (lookup_lt_is_Some_2 _ _ (pool_queue_lt i Hi)) as [b Hb].
  destruct (pd_blocks _ _ _ _ (pr_data _ _ Hrep) i b Hb) as (E1 & E2 & E3 & _).
  destruct (proj1 E3 Hi) as [Hi0 Hr]. exists b. split_and!; try done.
  rewrite E2. by apply Nat.eqb_neq.
Qed.

Lemma pool_block i :
  i < length (bp_blocks p) →
  ∃ b, bp_blocks p !! i = Some b ∧ block_ok q i b ∧ refs p i = ref_count b ∧ hash_of p i = blk_hash b.
Proof using Hrep.
  intros Hi. destruct (lookup_lt_is_Some_2 _ _ Hi) as [b Hb]. exists b.
  split; [done |]. split; [by apply (pd_blocks _ _ _ _ (pr_data _ _ Hrep)) |].
  unfold refs, hash_of. by rewrite Hb.
Qed.

(** The queue test of [touch] and [get_cached_block] is membership. *)
Lemma looks_queued_true i b :
  i ∈ q → bp_blocks p !! i = Some b → BlockPool.looks_queued p i b = true.
Proof using Hrep.
  intros (l1 & l2 & Hq)%list_elem_of_split Hb. unfold BlockPool.looks_queued.
  destruct (qr_links _ _ _ (pr_queue _ _ Hrep) l1 i l2 Hq) as (b' & Hb' & Hp & Hn).
  assert (b' = b) as -> by congruence. rewrite Hp, Hn.
  destruct l1 as [|x l1 _] using rev_ind.
  - rewrite (qr_head _ _ _ (pr_queue _ _ Hrep)), Hq. simpl.
    rewrite (bool_decide_eq_true_2 (Some i = Some i)) by done. by rewrite orb_true_r.
  - rewrite last_snoc. rewrite bool_decide_eq_true_2 by eauto. done.
Qed.
End facts.

(** ** [new] *)
Lemma push_all_rep idxs fq bs q :
  queue_rep fq bs q → NoDup (q ++ idxs) → (∀ i, i ∈ idxs → i < length bs) →
  ∃ fq' bs', BlockPool.push_all idxs fq bs = Some (fq', bs')
    ∧ queue_rep fq' bs' (q ++ idxs) ∧ same_payload bs bs'.
Proof.
  revert fq bs q. induction idxs as [|i idxs IH]; intros fq bs q Hq Hnd Hlt; simpl.
  - exists fq, bs. by rewrite app_nil_r.
  - destruct (push_back_rep fq bs q i Hq) as (fq1 & bs1 & -> & Hq1 & Hp1); simpl.
    { rewrite NoDup_app in Hnd. set_solver. }
    { apply Hlt. set_solver. }
    destruct (IH fq1 bs1 (q ++ [i])) as (fq2 & bs2 & -> & Hq2 & Hp2); [done | | |].
    + by rewrite <- app_assoc.
    + intros j Hj. rewrite (same_payload_length _ _ Hp1). apply Hlt. set_solver.
    + exists fq2, bs2. rewrite <- app_assoc in Hq2. split; [done |]. split; [done |].
      by eapply same_payload_trans.
Qed.

Lemma nactive_fresh l : nactive (BlockPool.fresh_block <$> l) = 0.
Proof. induction l as [|j l IH]; simpl; [done | apply IH]. Qed.

Lemma new_rep_pool n :
  ∃ p, BlockPool.new n = Some p ∧ pool_rep p (seq 1 (n - 1)) ∧ hash_coherent p
    ∧ BlockPool.num_blocks p = S (n - 1) ∧ (∀ i, refs p i = 0).
Proof.
  unfold BlockPool.new.
  set (bs := BlockPool.fresh_block 0 :: _).
  assert (Hlook : ∀ i b, bs !! i = Some b → b = BlockPool.fresh_block i).
  { intros [|i] b Hb; subst bs; simpl in Hb; [congruence |].
    apply list_lookup_fmap_Some in Hb as (j & -> & Hj).
    apply lookup_seq in Hj as [-> _]. done. }
  destruct (push_all_rep (seq 1 (n - 1)) FreeQueue.new bs []) as (fq & bs' & -> & Hq & Hp).
  { apply new_rep. }
  { apply NoDup_seq. }
  { intros i Hi%elem_of_seq. subst bs. simpl. rewrite length_fmap, length_seq. lia. }
  assert (Hlook' : ∀ i b', bs' !! i = Some b' → payload b' = payload (BlockPool.fresh_block i)).
  { intros i b' Hb'. destruct (same_payload_lookup_inv _ _ _ _ Hp Hb') as (b & Hb & ->).
    by rewrite (Hlook i b Hb). }
  assert (Hlen : length bs' = S (n - 1)).
  { rewrite (same_payload_length _ _ Hp). subst bs. simpl. by rewrite length_fmap, length_seq. }
  simpl. eexists. split; [done |]. split; [split |]; simpl in *.
  - done.
  - split; [lia | | |].
    + intros i b Hb. pose proof (lookup_lt_Some _ _ _ Hb) as Hi. apply Hlook' in Hb.
      unfold payload in Hb. injection Hb as E1 E2 E3 E4. split; [done |]. split; [done |].
      split; [| by intros _].
      rewrite elem_of_seq. split; [intros ?; split; [lia | done] | intros [? _]; lia].
    + rewrite (nactive_payload _ _ Hp). subst bs. simpl.
      by rewrite nactive_fresh.
    + intros h ids i Hh. by rewrite lookup_empty in Hh.
  - split; [| split; [done |]].
    + intros i h Hi. unfold hash_of. simpl in *. rewrite lookup_empty. simpl.
      split; [| by intros ?%not_elem_of_nil].
      destruct (bs' !! i) as [b|] eqn:Hb; [| done]. apply Hlook' in Hb. simpl.
      unfold payload in Hb. injection Hb as _ -> _ _. done.
    + intros i. unfold refs. simpl. destruct (bs' !! i) as [b|] eqn:Hb; [| done].
      apply Hlook' in Hb. simpl. unfold payload in Hb. by injection Hb as _ _ -> _.
Qed.

(** ** Payload updates *)
Lemma refs_insert p p' bs i b' j :
  same_payload (bp_blocks p) bs → bp_blocks p' = <[i := b']> bs → i < length (bp_blocks p) →
  refs p' j = if decide (j = i) then ref_count b' else refs p j.
Proof.
  intros Hp E Hi. unfold refs. rewrite E. case_decide as Ej.
  - subst. rewrite list_lookup_insert_eq; [done |]. by rewrite (same_payload_length _ _ Hp).
  - rewrite list_lookup_insert_ne by done. by apply payload_refs.
Qed.

Lemma hash_of_insert p p' bs i b' j :
  same_payload (bp_blocks p) bs → bp_blocks p' = <[i := b']> bs → i < length (bp_blocks p) →
  hash_of p' j = if decide (j = i) then blk_hash b' else hash_of p j.
Proof.
  intros Hp E Hi. unfold hash_of. rewrite E. case_decide as Ej.
  - subst. rewrite list_lookup_insert_eq; [done |]. by rewrite (same_payload_length _ _ Hp).
  - rewrite list_lookup_insert_ne by done. by apply payload_hash.
Qed.

(** A free block taken off the queue and given its first reference. *)
Lemma activate_rep p l1 i l2 fq bs b b' :
  pool_rep p (l1 ++ i :: l2) → queue_rep fq bs (l1 ++ l2) → same_payload (bp_blocks p) bs →
  bs !! i = Some b →
  blk_id b' = blk_id b → is_null b' = is_null b → ref_count b' = 1 →
  prev_free b' = prev_free b → next_free b' = next_free b →
  pool_rep (mkPool (<[i := b']> bs) fq (bp_hash_map p) (bp_num_active p + 1)) (l1 ++ l2).
Proof.
  intros Hrep Hq Hp Hb Hid Hnull Href Hprev Hnext.
  pose proof (qr_nodup _ _ _ (pr_queue _ _ Hrep)) as Hnd.
  destruct (pool_queue_block p _ Hrep i) as (b0 & Hb0 & _ & _ & Hr0 & Hi); [set_solver |].
  assert (Hr : ref_count b = 0).
  { pose proof (payload_refs _ _ i Hp) as E. rewrite Hb, Hb0 in E. simpl in E. lia. }
  split; simpl.
  - destruct Hq as [Hh Ht Hl Hn Hlk]. split; try done.
    intros m1 c m2 Heq. destruct (Hlk _ _ _ Heq) as (blk & Hblk & E1 & E2).
    destruct (decide (c = i)) as [->|Hne].
    + assert (blk = b) as -> by congruence. exists b'.
      rewrite list_lookup_insert_eq by (by eapply lookup_lt_Some). by rewrite Hprev, Hnext.
    + apply linked_insert_ne; [done |]. by exists blk.
  - apply pool_data_insert with (q := l1 ++ i :: l2) (n := bp_num_active p) (b := b); try done.
    + eapply pool_data_payload; [done | apply Hrep].
    + intros j Hj. set_solver.
    + rewrite Href. split; [| done]. rewrite NoDup_app, NoDup_cons in Hnd. set_solver.
    + unfold act. rewrite Href, Hr. simpl. lia.
Qed.

(** ** [allocate] *)
Lemma pop_uncached_from_rep p l1 l2 fuel :
  pool_rep p (l1 ++ l2) → length l2 ≤ fuel →
  (∃ m1 i m2 fq bs, l2 = m1 ++ i :: m2 ∧ hash_of p i = None
     ∧ (∀ c, c ∈ m1 → hash_of p c ≠ None)
     ∧ BlockPool.pop_uncached_from fuel p (head l2) = Some (Some i, set_queue fq bs p)
     ∧ queue_rep fq bs (l1 ++ m1 ++ m2) ∧ same_payload (bp_blocks p) bs)
  ∨ ((∀ c, c ∈ l2 → hash_of p c ≠ None)
     ∧ BlockPool.pop_uncached_from fuel p (head l2) = Some (None, p)).
Proof.
  intros Hrep. revert l1 fuel Hrep. induction l2 as [|i l2 IH]; intros l1 fuel Hrep Hfuel.
  - right. split; [by intros ? ?%not_elem_of_nil |]. by destruct fuel.
  - simpl in Hfuel. destruct fuel as [|fuel]; [lia |].
    destruct (qr_links _ _ _ (pr_queue _ _ Hrep) l1 i l2 eq_refl) as (b & Hb & Hprev & Hnext).
    assert (Hh : hash_of p i = blk_hash b) by (unfold hash_of; by rewrite Hb).
    simpl. rewrite Hb. simpl. destruct (blk_hash b) as [h|].
    + rewrite Hnext. destruct (IH (l1 ++ [i]) fuel) as
        [(m1 & j & m2 & fq & bs & -> & Hj & Hm1 & E & Hq & Hp) | [Hall E]]; [| lia | |].
      * by rewrite <- app_assoc.
      * left. exists (i :: m1), j, m2, fq, bs. rewrite <- app_assoc in Hq.
        split_and!; try done. intros c [->|Hc]%elem_of_cons; [congruence | by apply Hm1].
      * right. split; [| done]. intros c [->|Hc]%elem_of_cons; [congruence | by apply Hall].
    + left. destruct (remove_rep _ _ _ _ _ (pr_queue _ _ Hrep)) as (fq & bs & E & Hq & Hp).
      exists [], i, l2, fq, bs. rewrite E. simpl. split_and!; try done.
      by intros ? ?%not_elem_of_nil.
Qed.

Lemma evict_lru_rep p q i :
  pool_rep p (q ++ [i]) → hash_of p i ≠ None →
  ∃ h fq bs b, hash_of p i = Some h ∧ queue_rep fq bs q ∧ same_payload (bp_blocks p) bs
    ∧ bs !! i = Some b
    ∧ BlockPool.evict_lru p
      = Some (Some i, BlockPool.remove_hash_entry (set_queue fq (<[i := set_hash None b]> bs) p) h i).
Proof.
  intros Hrep Hi. unfold BlockPool.evict_lru.
  rewrite (qr_tail _ _ _ (pr_queue _ _ Hrep)), last_snoc.
  pose proof (pd_nonempty _ _ _ _ (pr_data _ _ Hrep)) as Hlen.
  destruct (length (bp_blocks p)) as [|fuel]; [lia |]. simpl.
  destruct (pool_queue_block p _ Hrep i) as (b0 & Hb0 & Hid & _); [set_solver |].
  assert (Hh : hash_of p i = blk_hash b0) by (unfold hash_of; by rewrite Hb0).
  rewrite Hb0. simpl. destruct (blk_hash b0) as [h|]; [| done].
  destruct (remove_rep _ _ q i [] (pr_queue _ _ Hrep)) as (fq & bs & E & Hq & Hp).
  rewrite E. simpl. rewrite app_nil_r in Hq.
  destruct (same_payload_lookup _ _ _ _ Hp Hb0) as (b & Hb & Hpay).
  rewrite Hb. simpl. exists h, fq, bs, b. unfold payload in Hpay. injection Hpay as E1 _ _ _.
  by rewrite E1, Hid.
Qed.

(** Which free block [allocate] takes: the first uncached one from the MRU end,
    or, when every free block is cached, the LRU one. *)
Definition alloc_choice (p : BlockPool) (l1 : list nat) (i : nat) (l2 : list nat) : Prop :=
  (hash_of p i = None ∧ ∀ c, c ∈ l1 → hash_of p c ≠ None)
  ∨ (l2 = [] ∧ ∀ c, c ∈ l1 ++ [i] → hash_of p c ≠ None).

(** The hash map after the block [i] leaves the prefix cache. *)
Definition map_without (p : BlockPool) (i : nat) : gmap BlockHash (list BlockId) :=
  match hash_of p i with
  | None => bp_hash_map p
  | Some h => bp_hash_map (BlockPool.remove_hash_entry p h i)
  end.

Lemma remove_hash_entry_map p fq bs h i :
  BlockPool.remove_hash_entry (set_queue fq bs p) h i
  = mkPool bs fq (bp_hash_map (BlockPool.remove_hash_entry p h i)) (bp_num_active p).
Proof. unfold BlockPool.remove_hash_entry. simpl. by destruct (bp_hash_map p !! h). Qed.

Lemma remove_hash_entry_elem p h i h' j :
  j ∈ default [] (bp_hash_map (BlockPool.remove_hash_entry p h i) !! h')
  ↔ j ∈ default [] (bp_hash_map p !! h') ∧ ¬ (h' = h ∧ j = i).
Proof.
  unfold BlockPool.remove_hash_entry. destruct (bp_hash_map p !! h) as [ids|] eqn:E; simpl.
  2: { split; [| naive_solver]. intros Hj. split; [done |]. intros [-> ->].
       rewrite E in Hj. by apply not_elem_of_nil in Hj. }
  destruct (decide (h' = h)) as [->|Hne].
  - rewrite E. simpl. destruct (filter _ ids) as [|a l] eqn:F.
    + rewrite lookup_delete_eq. simpl. split; [by intros ?%not_elem_of_nil |].
      intros [Hj Hne]. assert (Hf : j ∈ filter (λ id, id ≠ i) ids)
        by (apply list_elem_of_filter; naive_solver).
      rewrite F in Hf. by apply not_elem_of_nil in Hf.
    + rewrite lookup_insert_eq. simpl. rewrite <- F, list_elem_of_filter. naive_solver.
  - destruct (filter _ ids).
    + rewrite lookup_delete_ne by done. naive_solver.
    + rewrite lookup_insert_ne by done. naive_solver.
Qed.

Lemma map_without_elem p i h j :
  hash_coherent p → i < length (bp_blocks p) →
  j ∈ default [] (map_without p i !! h) ↔ j ∈ default [] (bp_hash_map p !! h) ∧ j ≠ i.
Proof.
  intros Hc Hi. unfold map_without. destruct (hash_of p i) as [h0|] eqn:E.
  - rewrite remove_hash_entry_elem. split; intros [Hj Hn]; split; try done; [| naive_solver].
    intros ->. apply Hn. split; [| done]. apply (Hc i h Hi) in Hj. congruence.
  - split; [| naive_solver]. intros Hj. split; [done |]. intros ->.
    apply (Hc i h Hi) in Hj. congruence.
Qed.

Lemma map_without_range p q i :
  pool_rep p q → ∀ h ids j, map_without p i !! h = Some ids → j ∈ ids → 0 < j < length (bp_blocks p).
Proof.
  intros Hrep h ids j Hh Hj. pose proof (pd_map _ _ _ _ (pr_data _ _ Hrep)) as Hm.
  unfold map_without in Hh. destruct (hash_of p i) as [h0|]; [| by eapply Hm].
  assert (Hj' : j ∈ default [] (bp_hash_map (BlockPool.remove_hash_entry p h0 i) !! h))
    by (by rewrite Hh).
  apply remove_hash_entry_elem in Hj' as [Hj' _].
  destruct (bp_hash_map p !! h) as [ids'|] eqn:E; [| by apply not_elem_of_nil in Hj'].
  by eapply Hm.
Qed.

(** What a successful [allocate] did, with the block it took off the queue. *)
Record allocated (p : BlockPool) (l1 : list nat) (i : nat) (l2 : list nat) (p' : BlockPool) : Prop := {
  al_choice : alloc_choice p l1 i l2;
  al_rep : pool_rep p' (l1 ++ l2);
  al_fresh : i ≠ 0 ∧ refs p i = 0;
  al_refs : ∀ j, refs p' j = if decide (j = i) then 1 else refs p j;
  al_hash : ∀ j, hash_of p' j = if decide (j = i) then None else hash_of p j;
  al_map : bp_hash_map p' = map_without p i;
  al_len : length (bp_blocks p') = length (bp_blocks p);
}.

Lemma allocate_rep p q :
  pool_rep p q →
  (q = [] ∧ BlockPool.allocate p = Some (None, p))
  ∨ (∃ l1 i l2 p', q = l1 ++ i :: l2 ∧ BlockPool.allocate p = Some (Some i, p')
       ∧ allocated p l1 i l2 p').
Proof.
  intros Hrep. unfold BlockPool.allocate, BlockPool.pop_uncached.
  rewrite (qr_head _ _ _ (pr_queue _ _ Hrep)).
  destruct (pop_uncached_from_rep p [] q (length (bp_blocks p)) Hrep (pool_queue_length p q Hrep))
    as [(m1 & i & m2 & fq & bs & -> & Hi & Hm1 & -> & Hq & Hp) | [Hall ->]]; simpl.
  - right. destruct (pool_queue_block p _ Hrep i) as (b0 & Hb0 & Hid & Hnull & Hr & Hi0); [set_solver |].
    destruct (same_payload_lookup _ _ _ _ Hp Hb0) as (b & Hb & Hpay).
    unfold payload in Hpay. injection Hpay as E1 E2 E3 E4. rewrite Hb. simpl.
    exists m1, i, m2. eexists. split; [done |]. rewrite E1, Hid. split; [done |].
    split.
    + by left.
    + apply (activate_rep p m1 i m2 fq bs b); done.
    + split; [done |]. unfold refs. rewrite Hb0. exact Hr.
    + intros j. erewrite (refs_insert p _ bs i (set_hash None (set_ref 1 b)) j Hp);
        [done | reflexivity | by eapply lookup_lt_Some].
    + intros j. erewrite (hash_of_insert p _ bs i (set_hash None (set_ref 1 b)) j Hp);
        [done | reflexivity | by eapply lookup_lt_Some].
    + simpl. unfold map_without. by rewrite Hi.
    + simpl. rewrite length_insert. by apply same_payload_length.
  - destruct q as [|i q' _] using rev_ind.
    { left. split; [done |]. unfold BlockPool.evict_lru.
      rewrite (qr_tail _ _ _ (pr_queue _ _ Hrep)). simpl.
      by destruct (length (bp_blocks p)). }
    right. destruct (evict_lru_rep p q' i Hrep) as (h & fq & bs & b & Hh & Hq & Hp & Hb & ->).
    { apply Hall. set_solver. }
    destruct (pool_queue_block p _ Hrep i) as (b0 & Hb0 & Hid & Hnull & Hr & Hi0); [set_solver |].
    destruct (same_payload_lookup _ _ _ _ Hp Hb0) as (b' & Hb' & Hpay).
    assert (b' = b) as -> by congruence. unfold payload in Hpay. injection Hpay as E1 E2 E3 E4.
    simpl. rewrite remove_hash_entry_map. simpl.
    rewrite list_lookup_insert_eq by (by eapply lookup_lt_Some). simpl.
    rewrite list_insert_insert_eq.
    exists q', i, []. eexists. split; [done |]. rewrite E1, Hid. split; [done |].
    assert (Hmap : bp_hash_map (BlockPool.remove_hash_entry p h i) = map_without p i)
      by (unfold map_without; by rewrite Hh).
    split.
    + right. split; [done |]. done.
    + pose proof (activate_rep p q' i [] fq bs b (set_hash None (set_ref 1 (set_hash None b)))) as Ha.
      rewrite app_nil_r in Ha |- *. destruct Ha as [Hq' Hd]; try done.
      split; [done |]. simpl in *. eapply pool_data_map; [done |].
      rewrite Hmap, length_insert, (same_payload_length _ _ Hp). by eapply map_without_range.
    + split; [done |]. unfold refs. rewrite Hb0. exact Hr.
    + intros j. erewrite (refs_insert p _ bs i (set_hash None (set_ref 1 (set_hash None b))) j Hp);
        [done | reflexivity | by eapply lookup_lt_Some].
    + intros j. erewrite (hash_of_insert p _ bs i (set_hash None (set_ref 1 (set_hash None b))) j Hp);
        [done | reflexivity | by eapply lookup_lt_Some].
    + done.
    + simpl. rewrite length_insert. by apply same_payload_length.
Qed.

Lemma allocated_coherent p q l1 i l2 p' :
  pool_rep p q → allocated p l1 i l2 p' → i < length (bp_blocks p) →
  hash_coherent p → hash_coherent p'.
Proof.
  intros Hrep Ha Hi Hc j h Hj. rewrite (al_len _ _ _ _ _ Ha) in Hj.
  rewrite (al_hash _ _ _ _ _ Ha), (al_map _ _ _ _ _ Ha), (map_without_elem p i h j Hc Hi).
  case_decide as E; [| by rewrite (Hc j h Hj); naive_solver]. naive_solver.
Qed.

(** ** The other operations *)

(** A payload change that does not decide whether the block is free. *)
Lemma poke_rep p q i b f :
  pool_rep p q → bp_blocks p !! i = Some b → i ≠ 0 →
  (∀ b, blk_id (f b) = blk_id b) → (∀ b, is_null (f b) = is_null b) →
  (∀ b, prev_free (f b) = prev_free b) → (∀ b, next_free (f b) = next_free b) →
  0 < ref_count b → 0 < ref_count (f b) →
  pool_rep (set_blocks (<[i := f b]> (bp_blocks p)) p) q.
Proof.
  intros Hrep Hb Hi Hid Hnull Hprev Hnext Hr Hr'. split; simpl.
  - by apply queue_rep_payload; [| | apply Hrep |].
  - eapply pool_data_insert with (q := q) (n := bp_num_active p); try done.
    + apply Hrep.
    + destruct (pd_blocks _ _ _ _ (pr_data _ _ Hrep) i b Hb) as (_ & _ & E & _).
      rewrite E. lia.
    + unfold act. destruct (Nat.ltb_spec 0 (ref_count b)), (Nat.ltb_spec 0 (ref_count (f b))); lia.
Qed.

(** Operations that move blocks in the queue and change nothing else. *)
Lemma requeue_rep p q q' fq bs :
  pool_rep p q → queue_rep fq bs q' → same_payload (bp_blocks p) bs → (∀ i, i ∈ q ↔ i ∈ q') →
  pool_rep (set_queue fq bs p) q'.
Proof.
  intros Hrep Hq Hp Hqq. split; [done |]. simpl.
  eapply pool_data_perm; [done |]. eapply pool_data_payload; [done | apply Hrep].
Qed.

Definition without (i : nat) (q : list nat) : list nat := filter (λ j, j ≠ i) q.

Lemma without_split i l1 l2 : NoDup (l1 ++ i :: l2) → without i (l1 ++ i :: l2) = l1 ++ l2.
Proof.
  intros Hnd. unfold without. rewrite filter_app, filter_cons_False by naive_solver.
  rewrite NoDup_app, NoDup_cons in Hnd. destruct Hnd as (_ & Hnd & Hni & _).
  f_equal; apply filter_id; intros j Hj; [set_solver |].
  intros ->. naive_solver.
Qed.

Lemma without_not_in i q : i ∉ q → without i q = q.
Proof. intros Hi. apply filter_id. intros j Hj ->. done. Qed.

(** The observable effect of an operation on the reference counts. *)
Record bumped (p : BlockPool) (i : nat) (r : nat) (p' : BlockPool) : Prop := {
  bu_refs : ∀ j, refs p' j = if decide (j = i) then r else refs p j;
  bu_hash : ∀ j, hash_of p' j = hash_of p j;
  bu_map : bp_hash_map p' = bp_hash_map p;
  bu_len : length (bp_blocks p') = length (bp_blocks p);
}.

Lemma bumped_coherent p i r p' : bumped p i r p' → hash_coherent p → hash_coherent p'.
Proof.
  intros Hb Hc j h Hj. rewrite (bu_len _ _ _ _ Hb) in Hj.
  by rewrite (bu_hash _ _ _ _ Hb), (bu_map _ _ _ _ Hb), (Hc j h Hj).
Qed.

Lemma bumped_same p i : bumped p i (refs p i) p.
Proof. split; try done. intros j. case_decide; by subst. Qed.

Lemma bumped_insert p p' bs i b' :
  same_payload (bp_blocks p) bs → bp_blocks p' = <[i := b']> bs → i < length (bp_blocks p) →
  blk_hash b' = hash_of p i → bp_hash_map p' = bp_hash_map p →
  bumped p i (ref_count b') p'.
Proof.
  intros Hp E Hi Hh Hm. split; [| | done |].
  - intros j. by erewrite refs_insert.
  - intros j. erewrite hash_of_insert by done. case_decide; by subst.
  - rewrite E, length_insert. by apply same_payload_length.
Qed.

Lemma free_rep p q i :
  pool_rep p q → i < length (bp_blocks p) →
  ∃ p', BlockPool.free p i = Some p'
    ∧ pool_rep p' (if refs p i =? 1 then i :: q else q) ∧ bumped p i (refs p i - 1) p'.
Proof.
  intros Hrep Hi. destruct (pool_block p q Hrep i Hi) as (b & Hb & (Hid & Hnull & Hq & Hz) & Hr & Hh).
  unfold BlockPool.free. rewrite Hb, Hr. simpl. rewrite Hnull.
  destruct (Nat.eqb_spec i 0) as [->|Hi0]; simpl.
  { destruct (Hz eq_refl) as [-> _]. exists p. split; [done |]. split; [done |].
    replace (0 - 1) with (refs p 0) by (rewrite Hr; destruct (Hz eq_refl); lia). apply bumped_same. }
  destruct (Nat.eqb_spec (ref_count b) 0) as [E|E].
  { rewrite E. exists p. split; [done |]. split; [done |].
    replace (0 - 1) with (refs p i) by lia. apply bumped_same. }
  set (b1 := set_ref (ref_count b - 1) b).
  assert (Hq1 : queue_rep (bp_free_queue p) (<[i := b1]> (bp_blocks p)) q)
    by (apply queue_rep_payload; [done | done | apply Hrep | done]).
  destruct (Nat.eqb_spec (ref_count b - 1) 0) as [E1|E1].
  - rewrite (proj2 (Nat.eqb_eq (ref_count b) 1)) by lia.
    destruct (push_front_rep _ _ _ i Hq1) as (fq & bs & -> & Hq2 & Hp2).
    { naive_solver. }
    { by rewrite length_insert. }
    simpl. pose proof (nactive_insert _ _ _ b1 Hb) as Hn.
    rewrite <- (pd_active _ _ _ _ (pr_data _ _ Hrep)) in Hn. unfold act in Hn. subst b1. simpl in Hn.
    rewrite E1 in Hn. destruct (Nat.ltb_spec 0 (ref_count b)); [| lia]. simpl in Hn.
    rewrite sub_checked_Some by lia. simpl. eexists. split; [done |]. split.
    + split; [done |]. simpl. eapply pool_data_payload; [done |].
      eapply pool_data_insert with (q := q) (n := bp_num_active p); try done.
      * apply Hrep.
      * intros j Hj. set_solver.
      * simpl. split; [done | set_solver].
      * unfold act. simpl. rewrite E1. destruct (Nat.ltb_spec 0 (ref_count b)); simpl; lia.
    + pose proof (bumped_insert p (set_blocks (<[i := set_ref (ref_count b - 1) b]> (bp_blocks p)) p)
        (bp_blocks p) i (set_ref (ref_count b - 1) b)) as [B1 B2 B3 B4]; try done.
      simpl in *. split; simpl.
      * intros j. rewrite <- B1. unfold refs. simpl. by apply payload_refs.
      * intros j. rewrite <- B2. unfold hash_of. simpl. by apply payload_hash.
      * done.
      * by rewrite (same_payload_length _ _ Hp2).
  - destruct (Nat.eqb_spec (ref_count b) 1); [lia |].
    eexists. split; [done |]. split.
    + eapply poke_rep with (f := set_ref (ref_count b - 1)); simpl; try done; lia.
    + by apply bumped_insert with (bs := bp_blocks p) (b' := b1).
Qed.

Lemma incref_rep p q i :
  pool_rep p q → i < length (bp_blocks p) →
  ∃ p', BlockPool.incref p i = Some p' ∧ pool_rep p' q
    ∧ bumped p i (if 0 <? refs p i then refs p i + 1 else 0) p'.
Proof.
  intros Hrep Hi. destruct (pool_block p q Hrep i Hi) as (b & Hb & (Hid & Hnull & Hq & Hz) & Hr & Hh).
  unfold BlockPool.incref. rewrite Hb, Hr. simpl. rewrite Hnull.
  destruct (Nat.ltb_spec 0 (ref_count b)) as [E|E].
  - destruct (Nat.eqb_spec i 0) as [->|Hi0]; [naive_solver lia |]. simpl.
    eexists. split; [done |]. split.
    + eapply poke_rep with (f := λ b, set_ref (ref_count b + 1) b); simpl; try done; lia.
    + by apply bumped_insert with (bs := bp_blocks p) (b' := set_ref (ref_count b + 1) b).
  - rewrite andb_false_r. exists p. split; [done |]. split; [done |].
    replace 0 with (refs p i) by lia. apply bumped_same.
Qed.

Lemma touch_rep p q i :
  pool_rep p q → i < length (bp_blocks p) →
  ∃ fq bs, BlockPool.touch p i = Some (set_queue fq bs p) ∧ same_payload (bp_blocks p) bs
    ∧ pool_rep (set_queue fq bs p)
        (if decide (i ∈ q ∧ is_Some (hash_of p i)) then i :: without i q else q).
Proof.
  intros Hrep Hi. destruct (pool_block p q Hrep i Hi) as (b & Hb & (Hid & Hnull & Hq & Hz) & Hr & Hh).
  unfold BlockPool.touch. rewrite Hb. simpl.
  destruct (decide (i ∈ q ∧ is_Some (hash_of p i))) as [[Hiq Hhs] | Hn].
  - destruct (proj1 Hq Hiq) as [Hi0 Hr0]. rewrite Hr0, Hnull.
    rewrite (proj2 (Nat.eqb_neq i 0) Hi0), (bool_decide_eq_true_2 (is_Some (blk_hash b))) by congruence.
    simpl. rewrite (looks_queued_true p q Hrep i b Hiq Hb).
    pose proof (qr_nodup _ _ _ (pr_queue _ _ Hrep)) as Hnd.
    apply list_elem_of_split in Hiq as (l1 & l2 & ->).
    rewrite (without_split i l1 l2 Hnd).
    destruct (remove_rep _ _ _ _ _ (pr_queue _ _ Hrep)) as (fq1 & bs1 & -> & Hq1 & Hp1). simpl.
    assert (Hni : i ∉ l1 ++ l2) by (rewrite NoDup_app, NoDup_cons in Hnd; set_solver).
    destruct (push_front_rep _ _ _ i Hq1 Hni) as (fq2 & bs2 & -> & Hq2 & Hp2).
    { by rewrite (same_payload_length _ _ Hp1). }
    simpl. exists fq2, bs2.
    assert (Hp : same_payload (bp_blocks p) bs2) by (by eapply same_payload_trans).
    split; [done |]. split; [done |]. eapply requeue_rep; [done | done | done | set_solver].
  - assert (E : (ref_count b =? 0) && negb (is_null b) && bool_decide (is_Some (blk_hash b)) = false).
    { rewrite Hnull. destruct (Nat.eqb_spec (ref_count b) 0), (Nat.eqb_spec i 0); simpl; try done.
      apply bool_decide_eq_false_2. intros Hs. apply Hn. rewrite Hh. naive_solver. }
    rewrite E. exists (bp_free_queue p), (bp_blocks p). destruct p. split; [done |]. done.
Qed.

Lemma get_cached_block_rep p q h :
  pool_rep p q →
  (default [] (bp_hash_map p !! h) = [] ∧ BlockPool.get_cached_block p h = Some (None, p))
  ∨ (∃ i ids p', bp_hash_map p !! h = Some (i :: ids)
       ∧ BlockPool.get_cached_block p h = Some (Some i, p')
       ∧ 0 < i < length (bp_blocks p)
       ∧ pool_rep p' (without i q) ∧ bumped p i (refs p i + 1) p').
Proof.
  intros Hrep. unfold BlockPool.get_cached_block.
  destruct (bp_hash_map p !! h) as [[|i ids]|] eqn:Em; [by left | | by left]. right.
  assert (Hi : 0 < i < length (bp_blocks p))
    by (eapply (pd_map _ _ _ _ (pr_data _ _ Hrep)); [done | by left]).
  exists i, ids. destruct (touch_rep p q i Hrep ltac:(lia)) as (fq & bs & -> & Hp & Hrep1). simpl.
  set (p1 := set_queue fq bs p) in *. set (q1 := if decide _ then _ else _) in *.
  assert (Hwo : without i q1 = without i q).
  { subst q1. case_decide; [| done]. unfold without. rewrite filter_cons_False by naive_solver.
    apply filter_id. intros j Hj%list_elem_of_filter. naive_solver. }
  assert (Hmem : i ∈ q1 ↔ i ∈ q) by (subst q1; case_decide; set_solver).
  destruct (pool_block p1 q1 Hrep1 i) as (b & Hb & (Hid & Hnull & Hq & _) & Hr & Hh).
  { simpl. rewrite (same_payload_length _ _ Hp). lia. }
  assert (Hrp : refs p1 i = refs p i) by (by apply payload_refs).
  simpl in Hb. rewrite Hb. simpl.
  rewrite <- Hwo. clearbody q1. rewrite <- Hrp.
  destruct (Nat.eqb_spec (ref_count b) 0) as [E|E]; simpl.
  - assert (Hiq : i ∈ q1) by (apply Hq; lia).
    rewrite (looks_queued_true p1 q1 Hrep1 i b Hiq Hb).
    pose proof (qr_nodup _ _ _ (pr_queue _ _ Hrep1)) as Hnd.
    apply list_elem_of_split in Hiq as (l1 & l2 & ->).
    rewrite (without_split i l1 l2 Hnd).
    destruct (remove_rep _ _ _ _ _ (pr_queue _ _ Hrep1)) as (fq2 & bs2 & E2 & Hq2 & Hp2).
    simpl in E2. rewrite E2. simpl. simpl in Hp2.
    destruct (same_payload_lookup _ _ _ _ Hp2 Hb) as (b2 & Hb2 & Hpay).
    unfold payload in Hpay. injection Hpay as P1 P2 P3 P4.
    unfold update_block. rewrite Hb2. simpl. eexists. split; [done |]. split; [done |]. split; [done |].
    split.
    + apply (activate_rep p1 l1 i l2 fq2 bs2 b2); simpl; try done. lia.
    + replace (refs p1 i + 1) with (ref_count (set_ref (ref_count b2 + 1) b2)) by (simpl; lia).
      assert (Hpp : same_payload (bp_blocks p) bs2) by (by eapply same_payload_trans).
      apply bumped_insert with (bs := bs2); try done; [lia |].
      simpl. pose proof (payload_hash _ _ i Hpp) as Ep. rewrite Hb2 in Ep. done.
  - rewrite without_not_in by (rewrite Hq; lia).
    unfold update_block. rewrite Hb. simpl. eexists. split; [done |]. split; [done |]. split; [done |].
    split.
    + eapply (poke_rep p1 q1 i b (λ b, set_ref (ref_count b + 1) b)); simpl; try done; lia.
    + replace (refs p1 i + 1) with (ref_count (set_ref (ref_count b + 1) b)) by (simpl; lia).
      apply bumped_insert with (bs := bs); try done; [lia |].
      simpl. pose proof (payload_hash _ _ i Hp) as Ep. rewrite Hb in Ep. done.
Qed.

Lemma cache_block_rep p q i h :
  pool_rep p q → i < length (bp_blocks p) →
  ∃ p', BlockPool.cache_block p i h = Some p' ∧ pool_rep p' q
    ∧ (∀ j, refs p' j = refs p j) ∧ length (bp_blocks p') = length (bp_blocks p)
    ∧ (refs p i = 0 → p' = p)
    ∧ (0 < refs p i →
         (∀ j, hash_of p' j = if decide (j = i) then Some h else hash_of p j)
         ∧ bp_hash_map p' = <[h := default [] (bp_hash_map p !! h) ++ [i]]> (bp_hash_map p)).
Proof.
  intros Hrep Hi. destruct (pool_block p q Hrep i Hi) as (b & Hb & (Hid & Hnull & Hq & Hz) & Hr & Hh).
  unfold BlockPool.cache_block. rewrite Hb, Hr. simpl. rewrite Hnull.
  destruct (Nat.eqb_spec (ref_count b) 0) as [E|E]; simpl.
  { exists p. split_and!; try done. lia. }
  destruct (Nat.eqb_spec i 0) as [->|Hi0]; [naive_solver lia |].
  eexists. split; [done |].
  assert (Hrep1 : pool_rep (set_blocks (<[i := set_hash (Some h) b]> (bp_blocks p)) p) q)
    by (eapply (poke_rep p q i b (set_hash (Some h))); simpl; try done; lia).
  split; [| split_and!; [| | lia | intros _; split; [| done]]].
  - destruct Hrep1 as [Hq1 Hd1]. split; [done |]. simpl in *. eapply pool_data_map; [done |].
    intros h' ids j Hh' Hj. rewrite length_insert. apply lookup_insert_Some in Hh' as [[<- <-]|[_ Hh']].
    + apply elem_of_app in Hj as [Hj | ->%list_elem_of_singleton]; [| lia].
      destruct (bp_hash_map p !! h) as [ids|] eqn:Em; [| by apply not_elem_of_nil in Hj].
      by eapply (pd_map _ _ _ _ (pr_data _ _ Hrep)).
    + by eapply (pd_map _ _ _ _ (pr_data _ _ Hrep)).
  - intros j. erewrite (refs_insert p _ (bp_blocks p) i (set_hash (Some h) b) j);
      [| done | reflexivity | done]. case_decide; [by subst | done].
  - simpl. by rewrite length_insert.
  - intros j. by erewrite (hash_of_insert p _ (bp_blocks p) i (set_hash (Some h) b) j);
      [| done | reflexivity | done].
Qed.

(** Caching a block that carries no hash keeps the hash map coherent. *)
Lemma cache_block_coherent p q i h p' :
  pool_rep p q → i < length (bp_blocks p) → hash_coherent p →
  hash_of p i = None ∨ hash_of p i = Some h →
  BlockPool.cache_block p i h = Some p' → hash_coherent p'.
Proof.
  intros Hrep Hi Hc Hn E. destruct (cache_block_rep p q i h Hrep Hi) as (p1 & E1 & _ & _ & Hl & H0 & H1).
  assert (p1 = p') as -> by congruence. destruct (decide (refs p i = 0)) as [Hr|Hr].
  { by rewrite (H0 Hr). }
  destruct H1 as [Hh Hm]; [lia |]. intros j h' Hj. rewrite Hl in Hj. rewrite Hh, Hm.
  destruct (decide (h' = h)) as [->|Hne].
  - rewrite lookup_insert_eq. simpl. rewrite elem_of_app, list_elem_of_singleton, <- (Hc j h Hj).
    case_decide; [subst; naive_solver | naive_solver].
  - rewrite lookup_insert_ne by done. rewrite <- (Hc j h' Hj).
    case_decide; [subst; naive_solver | done].
Qed.

Lemma copy_on_write_rep p q i :
  pool_rep p q → i < length (bp_blocks p) →
  (BlockPool.is_shared p i = false ∧ BlockPool.copy_on_write p i = Some (Some i, p))
  ∨ (1 < refs p i ∧ q = [] ∧ BlockPool.copy_on_write p i = Some (None, p))
  ∨ (1 < refs p i ∧ ∃ j p', j ∈ q ∧ BlockPool.copy_on_write p i = Some (Some j, p')
       ∧ pool_rep p' (without j q)
       ∧ length (bp_blocks p') = length (bp_blocks p)
       ∧ (∀ k, refs p' k = if decide (k = j) then 1 else if decide (k = i) then refs p i - 1 else refs p k)).
Proof.
  intros Hrep Hi. destruct (pool_block p q Hrep i Hi) as (b & Hb & (Hid & Hnull & Hq & Hz) & Hr & Hh).
  unfold BlockPool.copy_on_write. destruct (BlockPool.is_shared p i) eqn:Hs; simpl; [right | by left].
  assert (Hr1 : 1 < refs p i).
  { unfold BlockPool.is_shared in Hs. rewrite Hb in Hs. apply andb_true_iff in Hs as [_ Hs].
    apply Nat.ltb_lt in Hs. lia. }
  destruct (allocate_rep p q Hrep) as [[-> ->] | (l1 & j & l2 & p1 & -> & -> & Ha)]; simpl; [by left |].
  right. split; [done |].
  destruct (free_rep p1 (l1 ++ l2) i) as (p' & -> & Hrep' & Hbu).
  { apply Ha. } { by rewrite (al_len _ _ _ _ _ Ha). }
  simpl. exists j, p'. destruct (al_fresh _ _ _ _ _ Ha) as [Hj0 Hj].
  assert (Hij : i ≠ j) by (intros ->; lia).
  rewrite (al_refs _ _ _ _ _ Ha), decide_False in Hrep' by done.
  rewrite (proj2 (Nat.eqb_neq (refs p i) 1)) in Hrep' by lia.
  split; [set_solver |]. split; [done |].
  rewrite (without_split j l1 l2) by apply (qr_nodup _ _ _ (pr_queue _ _ Hrep)).
  split; [done |]. split; [rewrite (bu_len _ _ _ _ Hbu); apply Ha |].
  intros k. rewrite (bu_refs _ _ _ _ Hbu), !(al_refs _ _ _ _ _ Ha).
  repeat case_decide; subst; done.
Qed.

Lemma reset_rep p q :
  pool_rep p q →
  (∃ i h, i < length (bp_blocks p) ∧ 0 < refs p i ∧ hash_of p i = Some h
     ∧ BlockPool.reset_prefix_cache p = Err (BlockPool.BlockActiveWithHash i))
  ∨ (∃ p', BlockPool.reset_prefix_cache p = Ok p' ∧ pool_rep p' q ∧ hash_coherent p'
       ∧ bp_hash_map p' = ∅ ∧ (∀ j, refs p' j = refs p j) ∧ (∀ j, hash_of p' j = None)).
Proof.
  intros Hrep. unfold BlockPool.reset_prefix_cache.
  destruct (List.find _ _) as [b|] eqn:E.
  - left. apply List.find_some in E as [Hin Ha].
    apply list_elem_of_In, list_elem_of_lookup in Hin as [i Hi].
    apply andb_true_iff in Ha as [[h Hh]%bool_decide_eq_true Hr%Nat.ltb_lt].
    destruct (pd_blocks _ _ _ _ (pr_data _ _ Hrep) i b Hi) as (Hid & _).
    exists i, h. unfold refs, hash_of. rewrite Hi. simpl. rewrite Hid.
    split_and!; try done. by eapply lookup_lt_Some.
  - right. eexists. split; [done |].
    assert (Hlook : ∀ j, (set_hash None <$> bp_blocks p) !! j = set_hash None <$> bp_blocks p !! j)
      by (intros; apply list_lookup_fmap).
    split; [| split_and!].
    + split; simpl.
      * destruct (pr_queue _ _ Hrep) as [Qh Qt Ql Qn Qk]. split; try done.
        intros l1 c l2 Heq. destruct (Qk _ _ _ Heq) as (blk & Hblk & ? & ?).
        exists (set_hash None blk). by rewrite Hlook, Hblk.
      * destruct (pr_data _ _ Hrep) as [D1 D2 D3 D4]. split.
        -- by rewrite length_fmap.
        -- intros i b Hb. rewrite Hlook in Hb. apply fmap_Some in Hb as (b0 & Hb0 & ->).
           destruct (D2 i b0 Hb0) as (? & ? & ? & ?). split; [done |]. naive_solver.
        -- rewrite D3. clear. induction (bp_blocks p) as [|b bs IH]; simpl; [done |]. by rewrite IH.
        -- intros h ids i Hh. by rewrite lookup_empty in Hh.
    + intros j h Hj. unfold hash_of. simpl. rewrite Hlook, lookup_empty.
      destruct (bp_blocks p !! j); simpl; (split; [done | by intros ?%not_elem_of_nil]).
    + done.
    + intros j. unfold refs. simpl. rewrite Hlook. by destruct (bp_blocks p !! j).
    + intros j. unfold hash_of. simpl. rewrite Hlook. by destruct (bp_blocks p !! j).
Qed.

(** ** Conservation of blocks *)
Fixpoint idle_from (k : nat) (bs : list KVCacheBlock) : list nat :=
  match bs with
  | [] => []
  | b :: bs => (if decide (ref_count b = 0) then [k] else []) ++ idle_from (S k) bs
  end.

Lemma idle_from_count k bs : length (idle_from k bs) + nactive bs = length bs.
Proof.
  revert k. induction bs as [|b bs IH]; intros k; simpl; [done |].
  rewrite length_app. specialize (IH (S k)). unfold act.
  case_decide; destruct (Nat.ltb_spec 0 (ref_count b)); simpl; lia.
Qed.

Lemma idle_from_elem k bs i :
  i ∈ idle_from k bs ↔ k ≤ i ∧ ∃ b, bs !! (i - k) = Some b ∧ ref_count b = 0.
Proof.
  revert k. induction bs as [|b bs IH]; intros k; simpl.
  - split; [by intros ?%not_elem_of_nil | naive_solver].
  - rewrite elem_of_app, IH. split.
    + intros [Hi | (Hle & b' & Hb' & Hr)].
      * case_decide; [| by apply not_elem_of_nil in Hi].
        apply list_elem_of_singleton in Hi as ->. rewrite Nat.sub_diag. eauto.
      * replace (i - k) with (S (i - S k)) by lia. simpl. split; [lia | eauto].
    + intros (Hle & b' & Hb' & Hr). destruct (decide (i = k)) as [->|Hne].
      * rewrite Nat.sub_diag in Hb'. simplify_eq/=. left. rewrite decide_True by done. by left.
      * right. replace (i - k) with (S (i - S k)) in Hb' by lia. simpl in Hb'. split; [lia | eauto].
Qed.

Lemma idle_from_NoDup k bs : NoDup (idle_from k bs).
Proof.
  revert k. induction bs as [|b bs IH]; intros k; simpl; [constructor |].
  case_decide; simpl; [| done]. constructor; [| done].
  rewrite idle_from_elem. lia.
Qed.

(** Every block but the null block is either active or in the free queue. *)
Lemma pool_conservation p q :
  pool_rep p q → bp_num_active p + length q + 1 = length (bp_blocks p).
Proof.
  intros Hrep. destruct (pr_data _ _ Hrep) as [D1 D2 D3 D4].
  rewrite D3. destruct (bp_blocks p) as [|b0 bs] eqn:E; [simpl in D1; lia |].
  destruct (D2 0 b0 eq_refl) as (_ & _ & _ & H0). destruct (H0 eq_refl) as [Hr0 _].
  assert (Hq : q ≡ₚ idle_from 1 bs).
  { apply NoDup_Permutation; [apply (qr_nodup _ _ _ (pr_queue _ _ Hrep)) | apply idle_from_NoDup |].
    intros i. rewrite idle_from_elem. split.
    - intros Hi. destruct (pool_queue_block p q Hrep i Hi) as (b & Hb & _ & _ & Hr & Hi0).
      split; [lia |]. exists b. rewrite E in Hb. destruct i; [done |].
      simpl in *. by rewrite Nat.sub_0_r.
    - intros (Hle & b & Hb & Hr). destruct i as [|i]; [lia |]. simpl in Hb.
      rewrite Nat.sub_0_r in Hb. apply (D2 (S i) b Hb). split; [lia | done]. }
  rewrite Hq. pose proof (idle_from_count 1 bs). simpl. unfold act at 1. rewrite Hr0. simpl. lia.
Qed.

(** ** Histories of the pool *)
Inductive PoolOp : Type :=
  | PAllocate
  | PFree (i : BlockId)
  | PIncref (i : BlockId)
  | PTouch (i : BlockId)
  | PCopyOnWrite (i : BlockId)
  | PGetCached (h : BlockHash)
  | PCacheBlock (i : BlockId) (h : BlockHash)
  | PReset.

(** One client call; a refused [reset_prefix_cache] leaves the pool as it is. *)
Definition pool_step (p : BlockPool) (op : PoolOp) : option BlockPool :=
  match op with
  | PAllocate => snd <$> BlockPool.allocate p
  | PFree i => BlockPool.free p i
  | PIncref i => BlockPool.incref p i
  | PTouch i => BlockPool.touch p i
  | PCopyOnWrite i => snd <$> BlockPool.copy_on_write p i
  | PGetCached h => snd <$> BlockPool.get_cached_block p h
  | PCacheBlock i h => BlockPool.cache_block p i h
  | PReset => Some (match BlockPool.reset_prefix_cache p with Ok p' => p' | Err _ => p end)
  end.

(** The code keeps [ref_count] in a [u32], where the operations above count
    without a bound: the call panics (overflow checks on) when it takes a count
    past [u32::MAX].  Likewise the block ids are [i as u32], which is [i] in a pool
    of at most 2^32 blocks. *)
Definition counts_fit (p : BlockPool) : bool := forallb (λ b, (N.of_nat (ref_count b) <=? u32_max)%N) (bp_blocks p).
Definition pool_call (p : BlockPool) (op : PoolOp) : option BlockPool :=
  p' ← pool_step p op; if counts_fit p' then Some p' else None.

Definition pool_run (n : nat) (ops : list PoolOp) : option BlockPool :=
  p ← BlockPool.new n; foldl (λ m op, p ← m; pool_call p op) (Some p) ops.

(** The block ids a call names exist in a pool of [len] blocks. *)
Definition op_in_range (len : nat) (op : PoolOp) : Prop :=
  match op with
  | PFree i | PIncref i | PTouch i | PCopyOnWrite i | PCacheBlock i _ => i < len
  | _ => True
  end.

Lemma pool_step_rep p q op :
  pool_rep p q → op_in_range (length (bp_blocks p)) op →
  ∃ p' q', pool_step p op = Some p' ∧ pool_rep p' q' ∧ length (bp_blocks p') = length (bp_blocks p).
Proof.
  intros Hrep Hop. destruct op as [|i|i|i|i|h|i h|]; simpl in *.
  - destruct (allocate_rep p q Hrep) as [[-> ->] | (l1 & i & l2 & p' & -> & -> & Ha)]; simpl.
    + by exists p, [].
    + exists p', (l1 ++ l2). split; [done |]. split; apply Ha.
  - destruct (free_rep p q i Hrep Hop) as (p' & -> & ? & Hb). eexists _, _.
    split; [done |]. split; [done | apply Hb].
  - destruct (incref_rep p q i Hrep Hop) as (p' & -> & ? & Hb). eexists _, _.
    split; [done |]. split; [done | apply Hb].
  - destruct (touch_rep p q i Hrep Hop) as (fq & bs & -> & Hp & ?). eexists _, _.
    split; [done |]. split; [done | by apply same_payload_length].
  - destruct (copy_on_write_rep p q i Hrep Hop) as [[_ ->] | [(_ & -> & ->) | (_ & j & p' & Hj & -> & ? & ? & _)]]; simpl.
    + by exists p, q.
    + by exists p, [].
    + by eexists _, _.
  - destruct (get_cached_block_rep p q h Hrep) as [[_ ->] | (i & ids & p' & _ & -> & _ & ? & Hb)]; simpl.
    + by exists p, q.
    + eexists _, _. split; [done |]. split; [done | apply Hb].
  - destruct (cache_block_rep p q i h Hrep Hop) as (p' & -> & ? & _ & ? & _). by exists p', q.
  - destruct (reset_rep p q Hrep) as [(i & h & _ & _ & _ & ->) | (p' & E & ? & _)].
    + by exists p, q.
    + rewrite E. exists p', q. split; [done |]. split; [done |].
      unfold BlockPool.reset_prefix_cache in E. destruct (List.find _ _); simplify_eq.
      simpl. by rewrite length_fmap.
Qed.

(** A call raises a count by at most one. *)
Lemma pool_step_counts p q op p' k :
  pool_rep p q → op_in_range (length (bp_blocks p)) op → pool_step p op = Some p' →
  (∀ j, refs p j ≤ k) → ∀ j, refs p' j ≤ S k.
Proof.
  intros Hrep Hop E Hk j. pose proof (Hk j) as Hj.
  assert (Hb : ∀ i r, r ≤ S k → bumped p i r p' → refs p' j ≤ S k).
  { intros i r Hr Hb. rewrite (bu_refs _ _ _ _ Hb). case_decide; lia. }
  destruct op as [|i|i|i|i|h|i h|]; simpl in *.
  - destruct (allocate_rep p q Hrep) as [[-> E1] | (l1 & i & l2 & p1 & -> & E1 & Ha)]; rewrite E1 in E; simpl in E; simplify_eq; [lia |].
    rewrite (al_refs _ _ _ _ _ Ha). case_decide; lia.
  - destruct (free_rep p q i Hrep Hop) as (p1 & E1 & _ & H1). simplify_eq. eapply (Hb i); [| exact H1]. specialize (Hk i). lia.
  - destruct (incref_rep p q i Hrep Hop) as (p1 & E1 & _ & H1). simplify_eq. eapply (Hb i); [| exact H1]. specialize (Hk i). case_match; lia.
  - destruct (touch_rep p q i Hrep Hop) as (fq & bs & E1 & Hp & _). simplify_eq.
    assert (refs (set_queue fq bs p) j = refs p j) as -> by (by apply payload_refs). lia.
  - destruct (copy_on_write_rep p q i Hrep Hop) as [[_ E1] | [(_ & _ & E1) | (_ & i' & p1 & _ & E1 & _ & _ & H1)]];
      rewrite E1 in E; simpl in E; simplify_eq; [lia | lia |].
    rewrite H1. specialize (Hk i). repeat case_decide; lia.
  - destruct (get_cached_block_rep p q h Hrep) as [[_ E1] | (i & ids & p1 & _ & E1 & _ & _ & H1)];
      rewrite E1 in E; simpl in E; simplify_eq; [lia |]. eapply (Hb i); [| exact H1]. specialize (Hk i). lia.
  - destruct (cache_block_rep p q i h Hrep Hop) as (p1 & E1 & _ & H1 & _). simplify_eq. rewrite H1. lia.
  - destruct (reset_rep p q Hrep) as [(i & h & _ & _ & _ & E1) | (p1 & E1 & _ & _ & _ & H1 & _)];
      rewrite E1 in E; simplify_eq; [lia |]. rewrite H1. lia.
Qed.

Lemma counts_fit_spec p : counts_fit p = true ↔ ∀ j, (N.of_nat (refs p j) <= u32_max)%N.
Proof.
  unfold counts_fit, refs. rewrite forallb_forall. split.
  - intros H j. destruct (bp_blocks p !! j) as [b|] eqn:E; [| done].
    by apply N.leb_le, H, list_elem_of_In, (list_elem_of_lookup_2 _ j).
  - intros H b [j E]%list_elem_of_In%list_elem_of_lookup. specialize (H j). rewrite E in H. by apply N.leb_le.
Qed.

(** The count that a [u32] cannot hold. *)
Lemma incref_overflow_panics p q i :
  pool_rep p q → i < length (bp_blocks p) → N.of_nat (refs p i) = u32_max → pool_call p (PIncref i) = None.
Proof.
  intros Hrep Hi Hm. destruct (incref_rep p q i Hrep Hi) as (p' & E & _ & Hb). unfold pool_call. simpl. rewrite E. simpl.
  destruct (counts_fit p') eqn:Ef; [| done]. exfalso. pose proof (proj1 (counts_fit_spec p') Ef i) as H.
  rewrite (bu_refs _ _ _ _ Hb), decide_True in H by done. destruct (Nat.ltb_spec 0 (refs p i)); unfold u32_max in *; lia.
Qed.

(** A bounded pool of four usable blocks, for the witnesses. *)
Definition pool4 : BlockPool := default (mkPool [] FreeQueue.new ∅ 0) (BlockPool.new 5).

Lemma pool4_rep : pool_rep pool4 [1; 2; 3; 4].
Proof.
  destruct (new_rep_pool 5) as (p & E & Hrep & _). unfold pool4. by rewrite E.
Qed.

Lemma pool4_coherent : hash_coherent pool4.
Proof.
  destruct (new_rep_pool 5) as (p & E & _ & Hc & _). unfold pool4. by rewrite E.
Qed.

(** The calls, with counts up to [k] so far. *)
Lemma pool_calls_rep ops len k p0 q0 :
  Forall (op_in_range len) ops → pool_rep p0 q0 → length (bp_blocks p0) = len → (∀ j, refs p0 j ≤ k) →
  (N.of_nat (k + length ops) <= u32_max)%N →
  ∃ p q, foldl (λ m op, p ← m; pool_call p op) (Some p0) ops = Some p
    ∧ pool_rep p q ∧ length (bp_blocks p) = len ∧ ∀ j, refs p j ≤ k + length ops.
Proof.
  intros Hops. revert k p0 q0. induction Hops as [|op ops Hop _ IH]; intros k p0 q0 Hrep0 Hlen0 Hk Hfit; simpl in *.
  { exists p0, q0. split_and!; try done. intros j. rewrite Nat.add_0_r. apply Hk. }
  rewrite <- Hlen0 in Hop. destruct (pool_step_rep p0 q0 op Hrep0 Hop) as (p1 & q1 & E1 & Hrep1 & Hlen1).
  pose proof (pool_step_counts p0 q0 op p1 k Hrep0 Hop E1 Hk) as Hk1.
  assert (Hc : pool_call p0 op = Some p1).
  { unfold pool_call. rewrite E1. simpl. by rewrite (proj2 (counts_fit_spec p1)) by (intros j; specialize (Hk1 j); lia). }
  rewrite Hc. destruct (IH (S k) p1 q1) as (p & q & E & H1 & H2 & H3); [done | congruence | done | lia |].
  exists p, q. split_and!; [done | done | done |]. intros j. specialize (H3 j). lia.
Qed.

(** C19. In a pool of at most 2^32 blocks no history of fewer than 2^32 calls on
    its block ids panics (a count is a [u32], and is at most the number of calls),
    and after every such history the free queue is a well-formed list of exactly
    the unreferenced blocks, [num_active_blocks] counts the referenced ones, and
    every usable block is counted once: active + free = total. *)
Theorem pool_history_safe n ops (Hops : Forall (op_in_range (S (n - 1))) ops)
    (Hn : (N.of_nat n <= u32_max + 1)%N) (Hcalls : (N.of_nat (length ops) <= u32_max)%N) :
  ∃ p q, pool_run n ops = Some p ∧ pool_rep p q
    ∧ (∀ i b, bp_blocks p !! i = Some b → as_u32 (N.of_nat i) = N.of_nat (blk_id b) ∧ ref_count b ≤ length ops)
    ∧ (∀ i, i < S (n - 1) → (i ∈ q ↔ i ≠ 0 ∧ refs p i = 0))
    ∧ let u := BlockPool.usage p in
      pu_num_total u = n - 1 ∧ pu_num_free u = length q
      ∧ pu_num_active u + pu_num_free u = pu_num_total u.
Proof.
  destruct (new_rep_pool n) as (p0 & E0 & Hrep0 & _ & Hlen0 & Hr0).
  unfold pool_run. rewrite E0. simpl. unfold BlockPool.num_blocks in Hlen0.
  destruct (pool_calls_rep ops (S (n - 1)) 0 p0 _ Hops Hrep0 Hlen0) as (p & q & -> & Hrep & Hlen & Hr);
    [intros j; by rewrite Hr0 | done |].
  exists p, q. split; [done |]. split; [done |]. split; [| split].
  - intros i b Hb. pose proof (lookup_lt_Some _ _ _ Hb) as Hi.
    destruct (pool_block p q Hrep i Hi) as (b' & Hb' & (Hid & _) & _). rewrite Hb in Hb'. injection Hb' as <-. rewrite Hid.
    split; [unfold as_u32, u32_max in *; rewrite N.mod_small; lia |]. specialize (Hr i). unfold refs in Hr. by rewrite Hb in Hr.
  - intros i Hi. destruct (pool_block p q Hrep i) as (b & _ & (_ & _ & Hq & _) & -> & _); [lia | done].
  - pose proof (pool_conservation p q Hrep).
    unfold BlockPool.usage, BlockPool.num_free, FreeQueue.len. simpl.
    rewrite (qr_len _ _ _ (pr_queue _ _ Hrep)). lia.
Qed.

Lemma pool_history_safe_witness :
  ∃ p q, pool_run 4 [PAllocate; PCacheBlock 1 7; PFree 1; PGetCached 7; PIncref 1; PCopyOnWrite 1; PReset]
           = Some p ∧ pool_rep p q
    ∧ (∀ i b, bp_blocks p !! i = Some b → as_u32 (N.of_nat i) = N.of_nat (blk_id b) ∧ ref_count b ≤ 7)
    ∧ (∀ i, i < 4 → (i ∈ q ↔ i ≠ 0 ∧ refs p i = 0))
    ∧ let u := BlockPool.usage p in
      pu_num_total u = 3 ∧ pu_num_free u = length q
      ∧ pu_num_active u + pu_num_free u = pu_num_total u.
Proof.
  apply (pool_history_safe 4); [repeat constructor; simpl; lia | vm_compute; discriminate | vm_compute; discriminate].
Defined.

(** Which block [allocate] hands out: it fails exactly when the free queue
    is empty, changing nothing; otherwise it takes the first block without a
    hash counted from the MRU end, or, when every free block carries a hash,
    the LRU one, which loses its hash.  The block was free, comes back with
    one reference and no hash, and no other block changes. *)
Theorem allocate_policy p q (Hrep : pool_rep p q) :
  match BlockPool.allocate p with
  | None => False
  | Some (None, p') => q = [] ∧ p' = p
  | Some (Some i, p') =>
      ∃ l1 l2, q = l1 ++ i :: l2 ∧ alloc_choice p l1 i l2 ∧ pool_rep p' (l1 ++ l2)
        ∧ i ≠ 0 ∧ refs p i = 0
        ∧ (∀ j, refs p' j = if decide (j = i) then 1 else refs p j)
        ∧ (∀ j, hash_of p' j = if decide (j = i) then None else hash_of p j)
        ∧ (hash_coherent p → hash_coherent p')
  end.
Proof.
  destruct (allocate_rep p q Hrep) as [[-> ->] | (l1 & i & l2 & p' & Eq & -> & Ha)]; [done |].
  exists l1, l2. destruct (al_fresh _ _ _ _ _ Ha) as [Hi0 Hr].
  split_and!; try done; try apply Ha.
  apply (allocated_coherent p q l1 i l2 p' Hrep Ha).
  eapply pool_queue_lt; [done |]. rewrite Eq. set_solver.
Qed.

Lemma allocate_policy_witness :
  pool_rep pool4 [1; 2; 3; 4] ∧
  ∃ i p' l1 l2, BlockPool.allocate pool4 = Some (Some i, p') ∧ [1; 2; 3; 4] = l1 ++ i :: l2
    ∧ pool_rep p' (l1 ++ l2) ∧ refs p' i = 1.
Proof.
  split; [apply pool4_rep |].
  pose proof (allocate_policy pool4 [1; 2; 3; 4] pool4_rep) as H.
  destruct (BlockPool.allocate pool4) as [[[i|] p']|]; [| by destruct H | done].
  destruct H as (l1 & l2 & Eq & _ & Hrep & _ & _ & Hr & _).
  exists i, p', l1, l2. rewrite Hr, decide_True by done. done.
Defined.

(** Prefix reuse: a block cached under a hash no other block has, and then
    released by its last user, is what the next lookup of the hash returns,
    active again with one reference and out of the free queue; no other
    block's count changes. *)
Theorem cached_block_reused p q i h (Hrep : pool_rep p q) (Hc : hash_coherent p)
    (Hi : i < length (bp_blocks p)) (Hr : refs p i = 1) (Hn : hash_of p i = None)
    (Hnew : bp_hash_map p !! h = None) :
  ∃ p1 p2 p3 q3, BlockPool.cache_block p i h = Some p1 ∧ BlockPool.free p1 i = Some p2
    ∧ BlockPool.get_cached_block p2 h = Some (Some i, p3)
    ∧ pool_rep p3 q3 ∧ i ∉ q3 ∧ hash_coherent p3
    ∧ hash_of p3 i = Some h ∧ (∀ j, refs p3 j = refs p j).
Proof.
  destruct (cache_block_rep p q i h Hrep Hi) as (p1 & E1 & Hrep1 & Hr1 & Hl1 & _ & H1).
  destruct H1 as [Hh1 Hm1]; [lia |].
  assert (Hc1 : hash_coherent p1) by (by apply (cache_block_coherent p q i h); [.. | left |]).
  destruct (free_rep p1 q i Hrep1) as (p2 & E2 & Hrep2 & Hb2); [lia |].
  rewrite Hr1, Hr in Hrep2, Hb2. simpl in Hrep2.
  destruct (get_cached_block_rep p2 _ h Hrep2) as [[Hnone _] | (k & ids & p3 & Hm & E3 & Hk & Hrep3 & Hb3)];
    rewrite (bu_map _ _ _ _ Hb2), Hm1, lookup_insert_eq, Hnew in *; [done |].
  simpl in Hm. injection Hm as -> <-.
  exists p1, p2, p3. eexists. split_and!; try done.
  - unfold without. rewrite list_elem_of_filter. naive_solver.
  - eapply bumped_coherent; [done |]. by eapply bumped_coherent.
  - rewrite (bu_hash _ _ _ _ Hb3), (bu_hash _ _ _ _ Hb2), Hh1. by rewrite decide_True.
  - intros j. rewrite (bu_refs _ _ _ _ Hb3), !(bu_refs _ _ _ _ Hb2), Hr1.
    repeat case_decide; subst; try done; lia.
Qed.

Definition pool4_used : BlockPool :=
  match BlockPool.allocate pool4 with Some (_, p) => p | None => pool4 end.

Lemma pool4_used_rep : pool_rep pool4_used [2; 3; 4] ∧ hash_coherent pool4_used.
Proof.
  destruct (allocate_rep pool4 _ pool4_rep) as [[? _] | (l1 & i & l2 & p' & Eq & E & Ha)]; [done |].
  assert (E' : pool4_used = p') by (unfold pool4_used; by rewrite E).
  assert (Hi : i = 1) by (vm_compute in E; congruence). subst i. rewrite E'.
  assert (Hl : l1 = [] ∧ l2 = [2; 3; 4]).
  { apply (NoDup_split_unique l1 l2 [] [2; 3; 4] 1); [| done].
    rewrite <- Eq. apply (qr_nodup _ _ _ (pr_queue _ _ pool4_rep)). }
  destruct Hl as [-> ->]. split; [apply Ha |].
  eapply allocated_coherent; [apply pool4_rep | done | vm_compute; lia | apply pool4_coherent].
Qed.

Lemma cached_block_reused_witness :
  refs pool4_used 1 = 1 ∧
  ∃ p1 p2 p3 q3, BlockPool.cache_block pool4_used 1 9%N = Some p1 ∧ BlockPool.free p1 1 = Some p2
    ∧ BlockPool.get_cached_block p2 9%N = Some (Some 1, p3)
    ∧ pool_rep p3 q3 ∧ 1 ∉ q3 ∧ hash_coherent p3
    ∧ hash_of p3 1 = Some 9%N ∧ (∀ j, refs p3 j = refs pool4_used j).
Proof.
  split; [by vm_compute |].
  apply (cached_block_reused pool4_used [2; 3; 4] 1 9%N); try by vm_compute.
  - apply pool4_used_rep.
  - apply pool4_used_rep.
  - vm_compute. lia.
Defined.

(** Copy-on-write: a block with one user is returned as it is; a shared
    block is swapped for a free one that gets one reference while the shared
    block loses exactly one; with no free block nothing changes and the
    caller is told so. *)
Theorem copy_on_write_exclusive p q i (Hrep : pool_rep p q) (Hi : i < length (bp_blocks p)) :
  match BlockPool.copy_on_write p i with
  | None => False
  | Some (None, p') => p' = p ∧ q = [] ∧ 1 < refs p i
  | Some (Some j, p') =>
      (j = i ∧ p' = p ∧ BlockPool.is_shared p i = false)
      ∨ (j ≠ i ∧ 1 < refs p i ∧ pool_rep p' (without j q) ∧ refs p j = 0
         ∧ refs p' j = 1 ∧ refs p' i = refs p i - 1 ∧ ∀ k, k ≠ i → k ≠ j → refs p' k = refs p k)
  end.
Proof.
  destruct (copy_on_write_rep p q i Hrep Hi) as [[Hs ->] | [(Hr & -> & ->) | (Hr & j & p' & Hj & -> & Hrep' & _ & Hrefs)]].
  - by left.
  - done.
  - right. destruct (pool_queue_block p q Hrep j Hj) as (b & Hb & _ & _ & Hr0 & _).
    assert (Hrj : refs p j = 0) by (unfold refs; rewrite Hb; exact Hr0).
    assert (Hne : j ≠ i) by (intros ->; lia).
    split_and!; try done.
    + rewrite Hrefs. by rewrite decide_True.
    + rewrite Hrefs, decide_False, decide_True by done. done.
    + intros k Hki Hkj. rewrite Hrefs, !decide_False by done. done.
Qed.

Definition pool4_shared : BlockPool := default pool4 (BlockPool.incref pool4_used 1).

Lemma pool4_shared_rep : pool_rep pool4_shared [2; 3; 4].
Proof.
  destruct pool4_used_rep as [Hrep _].
  destruct (incref_rep pool4_used _ 1 Hrep) as (p' & E & ? & _); [vm_compute; lia |].
  unfold pool4_shared. by rewrite E.
Qed.

Lemma copy_on_write_exclusive_witness :
  1 < refs pool4_shared 1 ∧
  ∃ j p', BlockPool.copy_on_write pool4_shared 1 = Some (Some j, p') ∧ j ≠ 1 ∧ refs p' j = 1
    ∧ refs p' 1 = refs pool4_shared 1 - 1.
Proof.
  split; [vm_compute; lia |].
  assert (Hlen : 1 < length (bp_blocks pool4_shared)) by (vm_compute; lia).
  pose proof (copy_on_write_exclusive pool4_shared [2; 3; 4] 1 pool4_shared_rep Hlen) as H.
  destruct (BlockPool.copy_on_write pool4_shared 1) as [[[j|] p']|]; [| by destruct H as (_ & ? & _) | done].
  destruct H as [(_ & _ & Hs) | (Hj & _ & _ & _ & Hr1 & Hr2 & _)]; [by vm_compute in Hs |].
  by exists j, p'.
Defined.

(** Resetting the prefix cache: refused, without any change, exactly when
    an active block still carries a hash; otherwise every hash is gone, the
    hash map is empty and coherent, and no reference count or free block
    changed. *)
Theorem reset_prefix_cache_correct p q (Hrep : pool_rep p q) :
  match BlockPool.reset_prefix_cache p with
  | Err (BlockPool.BlockActiveWithHash i) => 0 < refs p i ∧ is_Some (hash_of p i)
  | Ok p' =>
      (∀ i, i < length (bp_blocks p) → is_Some (hash_of p i) → refs p i = 0)
      ∧ pool_rep p' q ∧ hash_coherent p' ∧ bp_hash_map p' = ∅
      ∧ (∀ j, refs p' j = refs p j) ∧ (∀ j, hash_of p' j = None)
  end.
Proof.
  destruct (reset_rep p q Hrep) as [(i & h & _ & Hr & Hh & ->) | (p' & E & H)]; [by rewrite Hh |].
  rewrite E. split; [| done]. intros i Hi [h Hh].
  unfold BlockPool.reset_prefix_cache in E. destruct (List.find _ _) as [|] eqn:F; [done |].
  destruct (pool_block p q Hrep i Hi) as (b & Hb & _ & -> & Hh').
  eapply (List.find_none _ _) in F; [| apply list_elem_of_In, list_elem_of_lookup; by exists i].
  unfold BlockPool.active_with_hash in F. rewrite bool_decide_eq_true_2 in F by (rewrite <- Hh'; by exists h).
  simpl in F. apply Nat.ltb_ge in F. lia.
Qed.

Lemma reset_prefix_cache_correct_witness :
  pool_rep pool4_used [2; 3; 4] ∧
  ∃ p', BlockPool.reset_prefix_cache pool4_used = Ok p' ∧ pool_rep p' [2; 3; 4]
    ∧ hash_coherent p' ∧ bp_hash_map p' = ∅.
Proof.
  destruct pool4_used_rep as [Hrep _]. split; [done |].
  pose proof (reset_prefix_cache_correct pool4_used [2; 3; 4] Hrep) as H.
  assert (Hok : is_ok (BlockPool.reset_prefix_cache pool4_used) = true) by (by vm_compute).
  destruct (BlockPool.reset_prefix_cache pool4_used) as [p'|]; [| done].
  destruct H as (_ & ? & ? & ? & _). by exists p'.
Defined.

(** A block cached twice keeps its first entry in the hash map: after the block
    is evicted and handed out again, a lookup of the first hash returns it
    although it no longer holds that content. *)
Example stale_hash_entry :
  (p ← BlockPool.new 2; '(_, p) ← BlockPool.allocate p;
   p ← BlockPool.cache_block p 1 11%N; p ← BlockPool.cache_block p 1 22%N;
   p ← BlockPool.free p 1; '(_, p) ← BlockPool.allocate p;
   '(hit, p) ← BlockPool.get_cached_block p 11%N; Some (hit, hash_of p 1))
  = Some (Some 1, None).
Proof. by vm_compute. Qed.
