(* ===== verification/F32.v ===== *)
(** * IEEE binary32 and binary64

    [f32] and [f64] on the Standard Library's [SpecFloat]: values are
    [spec_float], and each operation is the correctly rounded one at the
    precision of the type (24/128 and 53/1024).  [NaN] has one value, without
    sign and payload.  [exp], [ln] and [powf], whose precision Rust leaves
    unspecified, are parameters of the definitions that use them. *)
From S2P Require Import Prelude.
From Stdlib Require Export SpecFloat.

#[global] Instance spec_float_eq_dec : EqDecision spec_float.
Proof. solve_decision. Defined.

Abbreviation f32 := spec_float (only parsing).
Abbreviation f64 := spec_float (only parsing).

Module F32.

Definition add : f32 → f32 → f32 := SFadd 24 128.
Definition sub : f32 → f32 → f32 := SFsub 24 128.
Definition mul : f32 → f32 → f32 := SFmul 24 128.
Definition div : f32 → f32 → f32 := SFdiv 24 128.
Definition sqrt : f32 → f32 := SFsqrt 24 128.
Definition abs : f32 → f32 := SFabs.

(** [x as f32] of an integer. *)
Definition of_Z (z : Z) : f32 := binary_normalize 24 128 z 0 false.
Definition of_N (n : N) : f32 := of_Z (Z.of_N n).

Definition zero : f32 := S754_zero false.
Definition one : f32 := of_Z 1.
Definition two : f32 := of_Z 2.
Definition neg_infinity : f32 := S754_infinity true.
(** [f32::EPSILON], 2^-23. *)
Definition epsilon : f32 := binary_normalize 24 128 1 (-23) false.

(** [f32::MIN_POSITIVE], 2^-126. *)
Definition min_positive : f32 := binary_normalize 24 128 1 (-126) false.

Definition ltb (a b : f32) : bool := SFltb a b.
Definition leb (a b : f32) : bool := SFleb a b.
Definition eqb (a b : f32) : bool := SFeqb a b.
Definition gtb (a b : f32) : bool := SFltb b a.
Definition geb (a b : f32) : bool := SFleb b a.

Definition is_nan (a : f32) : bool := match a with S754_nan => true | _ => false end.
Definition is_finite (a : f32) : bool :=
  match a with S754_zero _ | S754_finite _ _ _ => true | _ => false end.

(** [a.partial_cmp(b).unwrap_or(Ordering::Equal)]. *)
Definition cmp_or_eq (a b : f32) : comparison :=
  match SFcompare a b with Some c => c | None => Eq end.

(** [f32::max]: the other operand when one is NaN. *)
Definition max (a b : f32) : f32 :=
  if is_nan a then b else if is_nan b then a else if ltb a b then b else a.

(** The bits of the absolute value: a normal or subnormal [m * 2^e] in
    canonical form has exactly this encoding. *)
Definition magnitude_bits (a : f32) : Z :=
  match a with
  | S754_zero _ => 0
  | S754_infinity _ => 255 * 2 ^ 23
  | S754_nan => 255 * 2 ^ 23 + 2 ^ 22
  | S754_finite _ m e => (e + 149) * 2 ^ 23 + Z.pos m
  end%Z.

Definition sign_bit (a : f32) : bool :=
  match a with
  | S754_zero s | S754_infinity s | S754_finite s _ _ => s
  | S754_nan => false
  end.

(** [f32::round]: to the nearest integer, halves away from zero. *)
Definition round (a : f32) : f32 :=
  match a with
  | S754_finite s m e =>
      if (0 <=? e)%Z then a
      else let q := ((Z.pos m + 2 ^ (- e - 1)) / 2 ^ (- e))%Z in
           binary_normalize 24 128 (if s then (- q)%Z else q) 0 s
  | _ => a
  end.

(** [f32::ceil]: the least integer not below. *)
Definition ceil (a : f32) : f32 :=
  match a with
  | S754_finite s m e =>
      if (0 <=? e)%Z then a
      else let q := (if s then - (Z.pos m / 2 ^ (- e)) else (Z.pos m + 2 ^ (- e) - 1) / 2 ^ (- e))%Z in
           binary_normalize 24 128 q 0 s
  | _ => a
  end.

(** [f32::clamp(lo, hi)]: NaN stays NaN. *)
Definition clamp (lo hi a : f32) : f32 :=
  let a := if ltb a lo then lo else a in
  if ltb hi a then hi else a.

(** [x as i8], [x as i32]: truncation, saturating, NaN to 0. *)
Definition to_int (lo hi : Z) (a : f32) : Z :=
  match a with
  | S754_finite s m e =>
      let q := if (0 <=? e)%Z then (Z.pos m * 2 ^ e)%Z else (Z.pos m / 2 ^ (- e))%Z in
      if s then Z.max (- q) lo else Z.min q hi
  | S754_infinity true => lo
  | S754_infinity false => hi
  | _ => 0%Z
  end.
Definition to_i8 : f32 → Z := to_int (-128) 127.
Definition to_i32 : f32 → Z := to_int (-2147483648) 2147483647.

(** [f32::total_cmp] compares the bits as signed magnitudes. *)
Definition total_key (a : f32) : Z :=
  if sign_bit a then (- magnitude_bits a - 1)%Z else magnitude_bits a.
Definition total_cmp (a b : f32) : comparison := Z.compare (total_key a) (total_key b).

Definition fold_max (l : list f32) : f32 := foldl max neg_infinity l.
Definition sum (l : list f32) : f32 := foldl add (S754_zero true) l.

End F32.

Module F64.

(** [x as f64] of an integer and of an [f32] (exact). *)
Definition of_N (n : N) : f64 := binary_normalize 53 1024 (Z.of_N n) 0 false.
Definition of_f32 (a : f32) : f64 :=
  match a with
  | S754_finite s m e => binary_normalize 53 1024 (if s then Z.neg m else Z.pos m) e s
  | _ => a
  end.
(** [x as f32]: rounded to nearest, ties to even. *)
Definition to_f32 (a : f64) : f32 :=
  match a with
  | S754_finite s m e => binary_normalize 24 128 (if s then Z.neg m else Z.pos m) e s
  | _ => a
  end.
Definition add : f64 → f64 → f64 := SFadd 53 1024.
Definition sub : f64 → f64 → f64 := SFsub 53 1024.
Definition mul : f64 → f64 → f64 := SFmul 53 1024.
Definition div : f64 → f64 → f64 := SFdiv 53 1024.
Definition zero : f64 := S754_zero false.
Definition neg_infinity : f64 := S754_infinity true.
Definition eqb (a b : f64) : bool := SFeqb a b.
Definition max (a b : f64) : f64 := F32.max a b.
(** [f64::min]: the other operand when one is NaN. *)
Definition min (a b : f64) : f64 :=
  if F32.is_nan a then b else if F32.is_nan b then a else if F32.ltb b a then b else a.
Definition sqrt : f64 → f64 := SFsqrt 53 1024.
Definition neg : f64 → f64 := SFopp.
Definition abs : f64 → f64 := SFabs.
Definition infinity : f64 := S754_infinity false.
Definition of_Z (z : Z) : f64 := binary_normalize 53 1024 z 0 false.
Definition sum (l : list f64) : f64 := foldl add (S754_zero true) l.

(** [f64::round]: to the nearest integer, halves away from zero. *)
Definition round (a : f64) : f64 :=
  match a with
  | S754_finite s m e =>
      if (0 <=? e)%Z then a
      else let q := ((Z.pos m + 2 ^ (- e - 1)) / 2 ^ (- e))%Z in
           binary_normalize 53 1024 (if s then (- q)%Z else q) 0 s
  | _ => a
  end.

(** [x as usize]: truncation, saturating, NaN to 0. *)
Definition to_usize (a : f64) : N :=
  match a with
  | S754_finite false m e =>
      N.min u64_max
        (if (0 <=? e)%Z then N.pos m * 2 ^ Z.to_N e else N.pos m / 2 ^ Z.to_N (- e))%N
  | S754_infinity false => u64_max
  | _ => 0%N
  end.

End F64.

(** ** The order on numbers that are not NaN

    [ltb] is the lexicographic order on (class and sign, exponent, mantissa). *)
Definition key3 (a : f32) : Z * Z * Z :=
  match a with
  | S754_infinity true => (-2, 0, 0)
  | S754_finite true m e => (-1, - e, Z.neg m)
  | S754_zero _ => (0, 0, 0)
  | S754_finite false m e => (1, e, Z.pos m)
  | S754_infinity false => (2, 0, 0)
  | S754_nan => (0, 0, 0)
  end%Z.

Definition key_lt (k1 k2 : Z * Z * Z) : Prop :=
  let '(x1, y1, z1) := k1 in let '(x2, y2, z2) := k2 in
  (x1 < x2 ∨ (x1 = x2 ∧ (y1 < y2 ∨ (y1 = y2 ∧ z1 < z2))))%Z.

Definition num (a : f32) : Prop := F32.is_nan a = false.

Lemma ltb_key a b : num a → num b → (F32.ltb a b = true ↔ key_lt (key3 a) (key3 b)).
Proof.
  unfold num, F32.ltb, SFltb.
  destruct a as [[]|[]| |[] ma ea], b as [[]|[]| |[] mb eb]; simpl; intros Ha Hb; try discriminate;
    try (split; [intros; try discriminate; lia | intros; first [reflexivity | lia]]);
    change (Pos.compare_cont Eq ma mb) with (ma ?= mb)%positive;
    destruct (Z.compare_spec ea eb); try (destruct (Pos.compare_spec ma mb)); simpl;
    (split; [intros; try discriminate; lia | intros; first [reflexivity | lia]]).
Qed.

Lemma ltb_false_key a b : num a → num b → (F32.ltb a b = false ↔ ¬ key_lt (key3 a) (key3 b)).
Proof. intros Ha Hb. rewrite <- (ltb_key a b Ha Hb). by destruct (F32.ltb a b). Qed.

Lemma ltb_irrefl a : F32.ltb a a = false.
Proof.
  destruct (F32.is_nan a) eqn:E; [by destruct a | fold (num a) in E].
  rewrite ltb_false_key by done. destruct (key3 a) as [[??]?]. unfold key_lt. lia.
Qed.

Lemma ltb_trans a b c :
  num a → num b → num c → F32.ltb a b = true → F32.ltb b c = true → F32.ltb a c = true.
Proof.
  intros Ha Hb Hc. rewrite !ltb_key by done.
  destruct (key3 a) as [[??]?], (key3 b) as [[??]?], (key3 c) as [[??]?]. unfold key_lt. lia.
Qed.

(** [ltb] is a strict weak order: its negation is transitive. *)
Lemma nltb_trans a b c :
  num a → num b → num c → F32.ltb a b = false → F32.ltb b c = false → F32.ltb a c = false.
Proof.
  intros Ha Hb Hc. rewrite !ltb_false_key by done.
  destruct (key3 a) as [[??]?], (key3 b) as [[??]?], (key3 c) as [[??]?]. unfold key_lt. lia.
Qed.

Lemma ltb_asym a b : num a → num b → F32.ltb a b = true → F32.ltb b a = false.
Proof.
  intros Ha Hb. rewrite ltb_key, ltb_false_key by done.
  destruct (key3 a) as [[??]?], (key3 b) as [[??]?]. unfold key_lt. lia.
Qed.

(** [partial_cmp] on numbers. *)
Lemma cmp_gt a b : num a → num b → (F32.cmp_or_eq a b = Gt ↔ F32.ltb b a = true).
Proof.
  unfold num, F32.cmp_or_eq, F32.ltb, SFltb.
  destruct a as [[]|[]| |[] ma ea], b as [[]|[]| |[] mb eb]; simpl; intros Ha Hb; try discriminate;
    try (by split); rewrite ?(Z.compare_antisym ea eb);
    change (Pos.compare_cont Eq ma mb) with (ma ?= mb)%positive;
    change (Pos.compare_cont Eq mb ma) with (mb ?= ma)%positive; rewrite ?(Pos.compare_antisym ma mb);
    destruct (ea ?= eb)%Z; simpl; try (destruct (ma ?= mb)%positive; simpl); by split.
Qed.

(** Adding a zero does not change a comparison. *)
Lemma geb_add_zero a s b : F32.geb (F32.add a (S754_zero s)) b = F32.geb a b.
Proof.
  destruct a as [sa|[]| |sa m e]; try reflexivity.
  by destruct sa, s, b as [[]|[]| |[] ? ?].
Qed.

(** Comparisons with NaN are false, and NaN stays NaN. *)
Lemma geb_nan b : F32.geb S754_nan b = false.
Proof. by destruct b as [[]|[]| |[] ? ?]. Qed.

Lemma add_nan_r a : F32.add a S754_nan = S754_nan.
Proof. by destruct a as [[]|[]| |[] ? ?]. Qed.

(** A zero divided by anything is a zero or NaN. *)
Lemma div_zero s b : F32.div (S754_zero s) b = S754_nan ∨ ∃ s', F32.div (S754_zero s) b = S754_zero s'.
Proof. destruct b as [sb|sb| |sb m e]; [by left | right | by left | right]; by eexists. Qed.

(** Negative infinity minus a number that is not negative infinity. *)
Lemma sub_neg_infinity a : num a → F32.eqb a F32.neg_infinity = false → F32.sub F32.neg_infinity a = F32.neg_infinity.
Proof. by destruct a as [[]|[]| |[] ? ?]. Qed.

(** ** Mantissas

    The mantissa of a result has at most as many bits as the precision. *)
Definition small_prec (prec : Z) (a : spec_float) : Prop :=
  match a with S754_finite _ m _ => (Z.pos m < 2 ^ prec)%Z | _ => True end.
Abbreviation small := (small_prec 24).

Lemma digits2_bound m : (Z.pos m < 2 ^ Z.pos (digits2_pos m))%Z.
Proof.
  induction m as [m IH|m IH|]; cbn [digits2_pos]; rewrite ?Pos2Z.inj_succ, ?Z.pow_succ_r by lia; [lia | lia | reflexivity].
Qed.

Lemma shr_1_half x : (0 <= shr_m x)%Z → shr_m (shr_1 x) = (shr_m x / 2)%Z.
Proof.
  destruct x as [m r s]. cbn [shr_m]. intros Hm. destruct m as [|[p|p|]|p]; cbn; try reflexivity; [| | lia].
  - rewrite Pos2Z.inj_xI. replace (2 * Z.pos p + 1)%Z with (1 + Z.pos p * 2)%Z by lia. rewrite Z.div_add by lia. reflexivity.
  - rewrite Pos2Z.inj_xO. rewrite Z.mul_comm, Z.div_mul by lia. reflexivity.
Qed.

Lemma iter_shr_1 p : ∀ x, (0 <= shr_m x)%Z → shr_m (iter_pos shr_1 p x) = (shr_m x / 2 ^ Z.pos p)%Z.
Proof.
  induction p as [p IH|p IH|]; intros x Hx; cbn [iter_pos].
  - assert (H1 := shr_1_half x Hx).
    assert (Hnn : (0 <= shr_m (shr_1 x))%Z) by (rewrite H1; apply Z.div_pos; lia).
    assert (Hnn2 : (0 <= shr_m (iter_pos shr_1 p (shr_1 x)))%Z) by (rewrite IH by done; apply Z.div_pos; lia).
    rewrite IH, IH, H1, !Z.div_div by (done || lia). f_equal.
    replace (Z.pos p~1) with (1 + Z.pos p + Z.pos p)%Z by lia. rewrite !Z.pow_add_r by lia. ring.
  - assert (Hnn : (0 <= shr_m (iter_pos shr_1 p x))%Z) by (rewrite IH by done; apply Z.div_pos; lia).
    rewrite IH, IH, Z.div_div by (done || lia). f_equal. rewrite Pos2Z.inj_xO, <- Z.pow_add_r by lia. f_equal. lia.
  - by apply shr_1_half.
Qed.

Section precision.
Context (prec emax : Z) (Hprec : (0 <= prec)%Z).

Lemma shr_fexp_small m e l : (0 <= m)%Z →
  (0 <= shr_m (shr_fexp prec emax m e l).1 < 2 ^ prec)%Z.
Proof using Hprec.
  intros Hm. unfold shr_fexp. set (k := (fexp prec emax (Zdigits2 m + e) - e)%Z).
  assert (Hk : (Zdigits2 m - prec <= k)%Z) by (unfold k, fexp; lia).
  assert (Hd : (m < 2 ^ Zdigits2 m)%Z) by (destruct m; [reflexivity | apply digits2_bound | lia]).
  assert (Hd0 : (0 <= Zdigits2 m)%Z) by (destruct m; simpl; lia).
  assert (Hrec : shr_m (shr_record_of_loc m l) = m) by (by destruct l as [|[]]).
  assert (Hsmall : (k <= 0)%Z → (m < 2 ^ prec)%Z).
  { intros. eapply Z.lt_le_trans; [exact Hd |]. apply Z.pow_le_mono_r; lia. }
  unfold shr. destruct k as [|p|p]; cbn [fst]; rewrite ?Hrec; [split; [done | apply Hsmall; lia] | | split; [done | apply Hsmall; lia]].
  rewrite iter_shr_1 by (by rewrite Hrec). rewrite Hrec. split; [apply Z.div_pos; lia |].
  apply Z.div_lt_upper_bound; [lia |]. rewrite <- Z.pow_add_r by lia.
  eapply Z.lt_le_trans; [exact Hd |]. apply Z.pow_le_mono_r; lia.
Qed.

Lemma small_round_aux sx m e l : (0 <= m)%Z → small_prec prec (binary_round_aux prec emax sx m e l).
Proof using Hprec.
  intros Hm. unfold binary_round_aux. pose proof (shr_fexp_small m e l Hm) as H1.
  destruct (shr_fexp prec emax m e l) as [r1 e1]. cbn [fst] in H1.
  assert (H2 : (0 <= round_nearest_even (shr_m r1) (loc_of_shr_record r1))%Z).
  { unfold round_nearest_even. destruct (loc_of_shr_record r1) as [|[]]; try lia. destruct (Z.even (shr_m r1)); lia. }
  pose proof (shr_fexp_small _ e1 loc_Exact H2) as H3. destruct (shr_fexp _ _ _ e1 loc_Exact) as [r2 e2]. cbn [fst] in H3.
  destruct (shr_m r2) as [|p|p]; [done | | done]. destruct (e2 <=? _)%Z; [| done]. cbn [small_prec]. lia.
Qed.

(** Rounding a non-negative mantissa keeps the sign and gives a number. *)
Definition signed (sx : bool) (a : spec_float) : Prop :=
  match a with S754_nan => False | S754_zero s | S754_infinity s | S754_finite s _ _ => s = sx end.

Lemma signed_round_aux sx m e l : (0 <= m)%Z → signed sx (binary_round_aux prec emax sx m e l).
Proof using Hprec.
  intros Hm. unfold binary_round_aux. pose proof (shr_fexp_small m e l Hm) as H1.
  destruct (shr_fexp prec emax m e l) as [r1 e1]. cbn [fst] in H1.
  assert (H2 : (0 <= round_nearest_even (shr_m r1) (loc_of_shr_record r1))%Z).
  { unfold round_nearest_even. destruct (loc_of_shr_record r1) as [|[]]; try lia. destruct (Z.even (shr_m r1)); lia. }
  pose proof (shr_fexp_small _ e1 loc_Exact H2) as H3. destruct (shr_fexp _ _ _ e1 loc_Exact) as [r2 e2]. cbn [fst] in H3.
  destruct (shr_m r2) as [|p|p]; [done | | lia]. by destruct (e2 <=? _)%Z.
Qed.

Lemma small_normalize m e s : small_prec prec (binary_normalize prec emax m e s).
Proof using Hprec.
  destruct m as [|p|p]; [done | |]; unfold binary_normalize, binary_round;
    destruct (shl_align _ _ _) as [mz ez]; apply small_round_aux; lia.
Qed.

Lemma small_SFdiv a b : small_prec prec (SFdiv prec emax a b).
Proof using Hprec.
  destruct a as [|[]| |sa ma ea], b as [|[]| |sb mb eb]; try done. unfold SFdiv.
  unfold SFdiv_core_binary. set (e' := Z.min _ _). set (m' := match _ with Z0 => _ | _ => _ end).
  assert (Hm : (0 <= m')%Z).
  { unfold m'. destruct (ea - eb - e')%Z; [lia | | lia]. apply Z.shiftl_nonneg. lia. }
  pose proof (Z_div_mod m' (Z.pos mb) ltac:(lia)) as Hdm. destruct (Z.div_eucl m' (Z.pos mb)) as [q r].
  apply small_round_aux. nia.
Qed.
End precision.

Lemma small_of_Z z : small (F32.of_Z z).
Proof. apply small_normalize. lia. Qed.

Lemma small_mul a b : small (F32.mul a b).
Proof. destruct a as [|[]| |], b as [|[]| |]; try done. apply small_round_aux; lia. Qed.

Lemma small_div a b : small (F32.div a b).
Proof. apply small_SFdiv. lia. Qed.

Lemma small_round a : small a → small (F32.round a).
Proof. destruct a as [| | |s m e]; try done. intros Ha. unfold F32.round. destruct (0 <=? e)%Z; [done | by apply small_normalize]. Qed.

(** Products of a positive finite number and a count, and what they leave of
    minus infinity. *)
Lemma signed_of_N n : signed false (F32.of_N n).
Proof.
  unfold F32.of_N, F32.of_Z. destruct n as [|p]; [done |]. unfold binary_normalize, binary_round. cbn [Z.of_N].
  destruct (shl_align _ _ _) as [mz ez]. apply signed_round_aux; lia.
Qed.

Lemma signed_mul m e b : signed false b → signed false (F32.mul (S754_finite false m e) b) ∨ F32.mul (S754_finite false m e) b = S754_nan.
Proof.
  destruct b as [s|s| |s m' e']; simpl; intros Hb; try (subst; by left); try done.
  left. subst s. apply signed_round_aux; lia.
Qed.

Lemma sub_from_neg_infinity a : signed false a ∨ F32.is_finite a = true → F32.sub F32.neg_infinity a = F32.neg_infinity.
Proof. intros [H|H]; destruct a as [[]|[]| |[] ? ?]; done. Qed.

(** Clamped to [-127, 127] and converted, a number is a code of a symmetric byte. *)
Lemma clamp_code lo hi a : small a → (lo <= -127)%Z → (127 <= hi)%Z →
  (-127 <= F32.to_int lo hi (F32.clamp (F32.of_Z (-127)) (F32.of_Z 127) a) <= 127)%Z.
Proof.
  intros Ha Hlo Hhi.
  assert (E1 : F32.of_Z (-127) = S754_finite true 16646144 (-17)) by reflexivity.
  assert (E2 : F32.of_Z 127 = S754_finite false 16646144 (-17)) by reflexivity.
  assert (T1 : F32.to_int lo hi (S754_finite true 16646144 (-17)) = (-127)%Z).
  { unfold F32.to_int. change (0 <=? -17)%Z with false. cbv iota. change (16646144 / 2 ^ (- -17))%Z with 127%Z. lia. }
  assert (T2 : F32.to_int lo hi (S754_finite false 16646144 (-17)) = 127%Z).
  { unfold F32.to_int. change (0 <=? -17)%Z with false. cbv iota. change (16646144 / 2 ^ (- -17))%Z with 127%Z. lia. }
  unfold F32.clamp. rewrite E1, E2.
  destruct (F32.ltb a (S754_finite true 16646144 (-17))) eqn:L1; [| clear T1].
  { change (F32.ltb (S754_finite false 16646144 (-17)) (S754_finite true 16646144 (-17))) with false. cbv iota. rewrite T1. lia. }
  destruct (F32.ltb (S754_finite false 16646144 (-17)) a) eqn:L2; [rewrite T2; lia |].
  destruct a as [s|[]| |s m e]; try (cbn; lia); try discriminate.
  assert (Hb : (e <= -17 ∧ (e = -17 → Z.pos m <= 16646144))%Z).
  { unfold F32.ltb, SFltb, SFcompare in L1, L2. destruct s.
    - destruct (Z.compare_spec e (-17)); [| split; lia | discriminate].
      split; [lia |]. intros _. change (Pos.compare_cont Eq m 16646144) with (m ?= 16646144)%positive in L1.
      destruct (Pos.compare_spec m 16646144); [lia | lia | discriminate].
    - destruct (Z.compare_spec (-17) e); [| discriminate | split; lia].
      split; [lia |]. intros _. change (Pos.compare_cont Eq 16646144 m) with (16646144 ?= m)%positive in L2.
      destruct (Pos.compare_spec 16646144 m); [lia | discriminate | lia]. }
  cbn [small_prec] in Ha. unfold F32.to_int. rewrite (proj2 (Z.leb_gt 0 e)) by lia.
  assert (Hq : (0 <= Z.pos m / 2 ^ (- e) <= 127)%Z).
  { split; [apply Z.div_pos; lia |]. destruct (decide (e = -17)%Z) as [->|He].
    - apply (Z.div_le_upper_bound _ _ 127); [lia |]. change (2 ^ (- -17))%Z with 131072%Z. lia.
    - assert (Z.pos m / 2 ^ (- e) <= Z.pos m / 2 ^ 18)%Z as H18 by (apply Z.div_le_compat_l; [lia | split; [lia | apply Z.pow_le_mono_r; lia]]).
      assert (Z.pos m / 2 ^ 18 < 64)%Z by (apply Z.div_lt_upper_bound; lia). lia. }
  destruct s; lia.
Qed.
