(* ===== verification/Json.v ===== *)
(** * JSON values

    What the program uses of [serde_json::Value]: a number is one of the three
    forms serde_json keeps, an object the list of its entries in iteration order
    (keys are unique). *)
From S2P Require Import Prelude F32.

Inductive Number : Type :=
  | PosInt (n : N)
  | NegInt (z : Z)
  | Float (x : f64).

Inductive Json : Type :=
  | JNull
  | JBool (b : bool)
  | JNumber (n : Number)
  | JString (s : string)
  | JArray (l : list Json)
  | JObject (entries : list (string * Json)).

Fixpoint json_assoc (key : string) (entries : list (string * Json)) : option Json :=
  match entries with
  | [] => None
  | (k, v) :: entries => if String.eqb k key then Some v else json_assoc key entries
  end.

(** [Value::get], the [as_*] readers, and [Map::remove]. *)
Definition json_get (v : Json) (key : string) : option Json :=
  match v with JObject entries => json_assoc key entries | _ => None end.
Definition json_str (v : Json) : option string := match v with JString s => Some s | _ => None end.
Definition json_u64 (v : Json) : option N := match v with JNumber (PosInt n) => Some n | _ => None end.
Definition json_bool (v : Json) : option bool := match v with JBool b => Some b | _ => None end.
Definition json_array (v : Json) : option (list Json) := match v with JArray l => Some l | _ => None end.
Definition json_object (v : Json) : option (list (string * Json)) := match v with JObject l => Some l | _ => None end.
Definition map_remove (key : string) (entries : list (string * Json)) : list (string * Json) :=
  filter (λ e, negb (String.eqb e.1 key)) entries.

(** Writing through [get_mut]: the value of the first entry with the key. *)
Fixpoint json_update (key : string) (v : Json) (entries : list (string * Json)) : list (string * Json) :=
  match entries with
  | [] => []
  | (k, x) :: entries => if String.eqb k key then (k, v) :: entries else (k, x) :: json_update key v entries
  end.
