(* ===== verification/CoreTypes.v ===== *)
(** * Shared types (rllm-core)

    ids.rs, dtype.rs, error.rs, output.rs and the parts of config.rs the
    modelled components read. *)
From S2P Require Import Prelude F32.

(** A [RequestId] wraps a UUID: a 128-bit number. *)
Abbreviation RequestId := N (only parsing).
Abbreviation TokenId := N (only parsing).

(** ** dtype.rs *)
Inductive DType : Type := DT_F32 | DT_F16 | DT_BF16 | FP8E4M3 | FP8E5M2 | DT_INT8 | DT_INT4.

#[global] Instance DType_eq_dec : EqDecision DType.
Proof. solve_decision. Defined.

Definition bytes_per_scalar (d : DType) : N :=
  match d with
  | DT_F32 => 4
  | DT_F16 | DT_BF16 => 2
  | FP8E4M3 | FP8E5M2 | DT_INT8 | DT_INT4 => 1
  end%N.

(** ** error.rs *)
Inductive CoreError : Type :=
  | InvalidConfig (msg : string)
  | InvalidSamplingParams (msg : string)
  | RequestNotFound (id : string)
  | InvalidStatusTransition (from to : string).

(** ** config.rs *)
Inductive QuantizationKind : Type :=
  | QK_None | QK_FP8 | QK_GPTQ | QK_AWQ | QK_BitsAndBytes | QK_MXFP8 | QK_MXFP4 | QK_NVFP4
  | QK_Int8 | QK_Int4 | QK_Gguf | QK_CompressedTensors | QK_ModelOpt | QK_TorchAO.

#[global] Instance QuantizationKind_eq_dec : EqDecision QuantizationKind.
Proof. solve_decision. Defined.

Record QuantizationConfig : Type := mkQuantizationConfig {
  qc_kind : QuantizationKind;
  qc_group_size : option N;
  qc_bits : option N;
}.

Inductive TokenizerMode : Type := TM_Auto | TM_Slow | TM_Mistral.

Record RopeScaling : Type := mkRopeScaling {
  rp_type : string;
  rp_factor : f32;
  rp_low_freq_factor : option f32;
  rp_high_freq_factor : option f32;
  rp_original_max_position_embeddings : option nat;
}.

Record ModelConfig : Type := mkModelConfig {
  mc_model_id : string;
  mc_architecture : string;
  mc_vocab_size : nat;
  mc_hidden_size : nat;
  mc_intermediate_size : nat;
  mc_num_layers : nat;
  mc_num_attention_heads : nat;
  mc_num_kv_heads : nat;
  mc_head_dim : nat;
  mc_max_model_len : nat;
  mc_rope_theta : f32;
  mc_rope_scaling : option RopeScaling;
  mc_dtype : DType;
  mc_quantization : option QuantizationConfig;
  mc_tokenizer_mode : TokenizerMode;
}.

Inductive PrefixHashAlgorithm : Type := Sha256Cbor | XxHash.

Record CacheConfig : Type := mkCacheConfig {
  cc_block_size : nat;
  cc_hash_block_size : nat;
  cc_gpu_memory_utilization : f32;
  cc_cpu_swap_bytes : N;
  cc_cache_dtype : DType;
  cc_num_gpu_blocks : nat;
  cc_enable_prefix_caching : bool;
  cc_prefix_hash_algorithm : PrefixHashAlgorithm;
  cc_sliding_window : option nat;
}.

Inductive SchedulingPolicy : Type := FCFS | Priority.

#[global] Instance SchedulingPolicy_eq_dec : EqDecision SchedulingPolicy.
Proof. solve_decision. Defined.

Record SchedulerConfig : Type := mkSchedulerConfig {
  max_num_seqs : nat;
  max_num_batched_tokens : nat;
  max_num_scheduled_tokens : nat;
  long_prefill_token_threshold : nat;
  enable_chunked_prefill : bool;
  scheduling_policy : SchedulingPolicy;
  stream_interval : nat;
  async_scheduling : bool;
}.

(** ** output.rs *)
Inductive FinishReason : Type := FR_Stop | FR_Length | FR_Aborted | FR_Error.

#[global] Instance FinishReason_eq_dec : EqDecision FinishReason.
Proof. solve_decision. Defined.

Record Usage : Type := mkUsage {
  prompt_tokens : N;
  completion_tokens : N;
  total_tokens : N;
}.

Record Logprob : Type := mkLogprob {
  lp_token_id : TokenId;
  lp_logprob : f32;
  lp_text : option string;
}.

Record CompletionOutput : Type := mkCompletionOutput {
  co_index : N;
  co_text : string;
  co_token_ids : list TokenId;
  co_finish_reason : option FinishReason;
  co_logprobs : option (list Logprob);
}.

Record RequestOutput : Type := mkRequestOutput {
  ro_request_id : RequestId;
  ro_outputs : list CompletionOutput;
  ro_finished : bool;
  ro_usage : Usage;
}.
