(* ===== verification/Request.v ===== *)
(** * Requests (rllm-core/src/request.rs)

    Sampling parameters with their validation, and the request status machine.
    A [serde_json::Value] is a type parameter [Value] with its serialiser
    [value_to_string]; a Rust [String] is Stdlib's byte string. *)
From S2P Require Import Prelude F32 CoreTypes.
#[local] Open Scope string_scope.
#[local] Open Scope nat_scope.
#[local] Open Scope rllm_scope.

Inductive OutputKind : Type := OK_Text | OK_TokenIds.

Record SpeculativeDecodingConfig : Type := mkSpeculativeDecodingConfig {
  sd_enabled : bool;
  sd_proposer : string;
  sd_num_speculative_tokens : nat;
  sd_min_ngram : nat;
  sd_max_ngram : nat;
}.

Definition SpeculativeDecodingConfig_default : SpeculativeDecodingConfig :=
  mkSpeculativeDecodingConfig true "ngram" 3 2 4.

Record StructuredOutputParams (Value : Type) : Type := mkStructuredOutputParams {
  json_schema : option Value;
  json_object : option bool;
  xml : option string;
  regex : option string;
  grammar : option string;
  choice : option (list string);
}.
Arguments mkStructuredOutputParams {Value}.
Arguments json_schema {Value}.
Arguments json_object {Value}.
Arguments xml {Value}.
Arguments regex {Value}.
Arguments grammar {Value}.
Arguments choice {Value}.

Record SamplingParams (Value : Type) : Type := mkSamplingParams {
  sp_n : N;
  best_of : option N;
  presence_penalty : f32;
  frequency_penalty : f32;
  repetition_penalty : f32;
  temperature : f32;
  top_p : f32;
  top_k : Z;
  min_p : f32;
  seed : option N;
  stop : list string;
  stop_token_ids : list TokenId;
  ignore_eos : bool;
  max_tokens : option N;
  min_tokens : N;
  logprobs : option N;
  prompt_logprobs : option N;
  detokenize : bool;
  skip_special_tokens : bool;
  spaces_between_special_tokens : bool;
  include_stop_str_in_output : bool;
  output_kind : OutputKind;
  logit_bias : gmap N f32;
  allowed_token_ids : option (gset N);
  bad_words : list string;
  structured_outputs : option (StructuredOutputParams Value);
  skip_reading_prefix_cache : bool;
  speculative_decoding : option SpeculativeDecodingConfig;
}.
Arguments mkSamplingParams {Value}.
Arguments sp_n {Value}.
Arguments best_of {Value}.
Arguments presence_penalty {Value}.
Arguments frequency_penalty {Value}.
Arguments repetition_penalty {Value}.
Arguments temperature {Value}.
Arguments top_p {Value}.
Arguments top_k {Value}.
Arguments min_p {Value}.
Arguments seed {Value}.
Arguments stop {Value}.
Arguments stop_token_ids {Value}.
Arguments ignore_eos {Value}.
Arguments max_tokens {Value}.
Arguments min_tokens {Value}.
Arguments logprobs {Value}.
Arguments prompt_logprobs {Value}.
Arguments detokenize {Value}.
Arguments skip_special_tokens {Value}.
Arguments spaces_between_special_tokens {Value}.
Arguments include_stop_str_in_output {Value}.
Arguments output_kind {Value}.
Arguments logit_bias {Value}.
Arguments allowed_token_ids {Value}.
Arguments bad_words {Value}.
Arguments structured_outputs {Value}.
Arguments skip_reading_prefix_cache {Value}.
Arguments speculative_decoding {Value}.

Definition SamplingParams_default {Value : Type} : SamplingParams Value :=
  {| sp_n := 1; best_of := None;
     presence_penalty := F32.zero; frequency_penalty := F32.zero;
     repetition_penalty := F32.one; temperature := F32.one;
     top_p := F32.one; top_k := -1; min_p := F32.zero;
     seed := None; stop := []; stop_token_ids := []; ignore_eos := false;
     max_tokens := Some 16%N; min_tokens := 0; logprobs := None; prompt_logprobs := None;
     detokenize := true; skip_special_tokens := true;
     spaces_between_special_tokens := true; include_stop_str_in_output := false;
     output_kind := OK_Text; logit_bias := ∅; allowed_token_ids := None; bad_words := [];
     structured_outputs := None; skip_reading_prefix_cache := false;
     speculative_decoding := None |}.

Section validate.
Context {Value : Type} (value_to_string : Value → string).

Definition one_mib : N := 1048576.
Definition str_len (s : string) : N := N.of_nat (String.length s).
Definition str_is_empty (s : string) : bool := String.length s =? 0.

(** [opt.is_some_and(f)] *)
Definition is_some_and {A} (f : A → bool) (o : option A) : bool :=
  match o with Some a => f a | None => false end.
Definition is_some {A} (o : option A) : bool := match o with Some _ => true | None => false end.

(** The loop over the named string constraints. *)
Fixpoint check_named (l : list (string * option string)) : result unit CoreError :=
  match l with
  | [] => Ok ()
  | (name, value) :: l =>
      require negb (is_some_and str_is_empty value)
        else InvalidSamplingParams ("structured_outputs." +:+ name +:+ " must not be empty");
      require negb (is_some_and (λ v, (one_mib <? str_len v)%N) value)
        else InvalidSamplingParams ("structured_outputs." +:+ name +:+ " exceeds the 1 MiB limit");
      check_named l
  end.

Definition active_constraints (p : StructuredOutputParams Value) : nat :=
  length (filter (λ b : bool, b = true)
    [is_some (json_schema p); is_some (json_object p); is_some (xml p);
     is_some (regex p); is_some (grammar p); is_some (choice p)]).

Definition choice_invalid (choices : list string) : bool :=
  match choices with [] => true | _ => existsb str_is_empty choices end.

Definition structured_validate (p : StructuredOutputParams Value) : result unit CoreError :=
  require (active_constraints p =? 1)
    else InvalidSamplingParams "structured_outputs must set exactly one of json, json_object, xml, regex, grammar, or choice";
  require negb (bool_decide (json_object p = Some false))
    else InvalidSamplingParams "structured_outputs.json_object must be true when set";
  _ <-? check_named [("xml", xml p); ("regex", regex p); ("grammar", grammar p)];
  require negb (is_some_and choice_invalid (choice p))
    else InvalidSamplingParams "structured_outputs.choice must contain non-empty choices";
  require negb (is_some_and (λ s, (one_mib <? str_len (value_to_string s))%N) (json_schema p)
                || is_some_and (λ cs, (one_mib <? foldr (λ c n, str_len c + n) 0 cs)%N) (choice p))
    else InvalidSamplingParams "structured output constraint exceeds the 1 MiB limit";
  Ok ().

(** [(lo..=hi).contains(&x)] *)
Definition in_range (lo hi x : f32) : bool := F32.leb lo x && F32.leb x hi.

Definition speculative_enabled (p : SamplingParams Value) : bool :=
  is_some_and sd_enabled (speculative_decoding p).

Definition validate (p : SamplingParams Value) : result unit CoreError :=
  require negb (sp_n p =? 0)%N else InvalidSamplingParams "n must be >= 1";
  require negb (F32.ltb (temperature p) F32.zero)
    else InvalidSamplingParams "temperature must be >= 0";
  require in_range F32.zero F32.two (presence_penalty p)
    else InvalidSamplingParams "presence_penalty must be in [0, 2]";
  require in_range F32.zero F32.two (frequency_penalty p)
    else InvalidSamplingParams "frequency_penalty must be in [0, 2]";
  require negb (F32.leb (repetition_penalty p) F32.zero)
    else InvalidSamplingParams "repetition_penalty must be > 0";
  require in_range F32.zero F32.one (top_p p)
    else InvalidSamplingParams "top_p must be in [0, 1]";
  require negb (F32.eqb (temperature p) F32.zero && (1 <? sp_n p)%N)
    else InvalidSamplingParams "n must be 1 when temperature is 0 (greedy)";
  match structured_outputs p with
  | None => Ok ()
  | Some so =>
      _ <-? structured_validate so;
      require negb (speculative_enabled p)
        else InvalidSamplingParams "structured outputs cannot currently be combined with speculative decoding";
      require (sp_n p =? 1)%N
        else InvalidSamplingParams "structured outputs currently require n = 1";
      require negb (is_some (allowed_token_ids p) || (0 <? min_tokens p)%N || ignore_eos p
                    || negb (bool_decide (stop p = [])) || negb (bool_decide (stop_token_ids p = [])))
        else InvalidSamplingParams "structured outputs cannot be combined with allowed_token_ids, min_tokens, ignore_eos, or stop conditions";
      Ok ()
  end.
End validate.

Record ChatMessage : Type := mkChatMessage { role : string; content : string }.

(** [arrival_time], a [std::time::Instant], is a tick count. *)
Record InferenceRequest (Value : Type) : Type := mkInferenceRequest {
  request_id : RequestId;
  prompt : option string;
  token_ids : option (list TokenId);
  messages : option (list ChatMessage);
  sampling_params : SamplingParams Value;
  arrival_time : N;
  priority : Z;
  stream : bool;
  cache_salt : option string;
}.
Arguments mkInferenceRequest {Value}.
Arguments request_id {Value}.
Arguments prompt {Value}.
Arguments token_ids {Value}.
Arguments messages {Value}.
Arguments sampling_params {Value}.
Arguments arrival_time {Value}.
Arguments priority {Value}.
Arguments stream {Value}.
Arguments cache_salt {Value}.

Inductive RequestStatus : Type :=
  | Waiting | Running | WaitingForRemoteKV | Preempted
  | FinishedStopped | FinishedLength | FinishedAborted | FinishedError.

#[global] Instance RequestStatus_eq_dec : EqDecision RequestStatus.
Proof. solve_decision. Defined.

Definition status_is_finished (s : RequestStatus) : bool :=
  match s with
  | FinishedStopped | FinishedLength | FinishedAborted | FinishedError => true
  | _ => false
  end.

Definition can_transition_to (s next : RequestStatus) : bool :=
  match s, next with
  | Waiting, (Running | FinishedAborted) => true
  | Running, (Running | Waiting | Preempted | FinishedStopped | FinishedLength
              | FinishedAborted | FinishedError) => true
  | Preempted, (Waiting | FinishedAborted) => true
  | WaitingForRemoteKV, (Running | FinishedAborted) => true
  | _, _ => false
  end.

(** The [Debug] rendering of a status. *)
Definition status_debug (s : RequestStatus) : string :=
  match s with
  | Waiting => "Waiting" | Running => "Running"
  | WaitingForRemoteKV => "WaitingForRemoteKV" | Preempted => "Preempted"
  | FinishedStopped => "FinishedStopped" | FinishedLength => "FinishedLength"
  | FinishedAborted => "FinishedAborted" | FinishedError => "FinishedError"
  end.

Definition transition (s next : RequestStatus) : result RequestStatus CoreError :=
  if can_transition_to s next then Ok next
  else Err (InvalidStatusTransition (status_debug s) (status_debug next)).

(** ** Helper lemmas *)
Lemma is_some_spec {A} (o : option A) : is_some o = true ↔ o ≠ None.
Proof. by destruct o. Qed.

Lemma is_some_and_false {A} (f : A → bool) (o : option A) :
  is_some_and f o = false ↔ ∀ a, o = Some a → f a = false.
Proof. destruct o; simpl; naive_solver. Qed.

Lemma require_Ok {A} (b : bool) (e : CoreError) (k : result A CoreError) a :
  (require b else e; k) = Ok a ↔ b = true ∧ k = Ok a.
Proof. destruct b; naive_solver. Qed.

Lemma bind_unit_Ok {A} (m : result unit CoreError) (k : result A CoreError) a :
  (_ <-? m; k) = Ok a ↔ m = Ok () ∧ k = Ok a.
Proof. destruct m as [[]|]; simpl; naive_solver. Qed.

Lemma require_Err {A} (b : bool) (e e' : CoreError) (k : result A CoreError) :
  (require b else e; k) = Err e' → e' = e ∨ k = Err e'.
Proof. destruct b; naive_solver. Qed.

Lemma bind_Err {A B} (m : result A CoreError) (k : A → result B CoreError) e :
  result_bind m k = Err e → m = Err e ∨ ∃ a, k a = Err e.
Proof. destruct m; simpl; naive_solver. Qed.

Lemma bool_prop_false (b : bool) : b = false ↔ ¬ (b = true).
Proof. by destruct b. Qed.

Create Rewrite HintDb validate.
#[export] Hint Rewrite @require_Ok @bind_unit_Ok negb_true_iff negb_false_iff orb_false_iff
  andb_true_iff Nat.eqb_eq N.eqb_eq N.eqb_neq bool_decide_eq_false bool_decide_eq_true
  N.ltb_ge @is_some_and_false : validate.

Lemma count_true_zero (l : list bool) :
  length (filter (λ b : bool, b = true) l) = 0 ↔ ∀ k, l !! k ≠ Some true.
Proof.
  induction l as [|[] l IH].
  - split; [done | done].
  - rewrite filter_cons_True by done. split; [done |]. intros H. by specialize (H 0).
  - rewrite filter_cons_False, IH by done. split; intros H; [by intros [|k]; [|apply H] |].
    intros k. apply (H (S k)).
Qed.

Lemma count_true_one (l : list bool) :
  length (filter (λ b : bool, b = true) l) = 1
  ↔ ∃ k, l !! k = Some true ∧ ∀ j, l !! j = Some true → j = k.
Proof.
  induction l as [|[] l IH].
  - split; [done | by intros (k & ? & _)].
  - rewrite filter_cons_True by done. cbn [length].
    rewrite Nat.succ_inj_wd, count_true_zero. split.
    + intros H. exists 0. split; [done |]. intros [|j] Hj; [done |]. by apply H in Hj.
    + intros (k & _ & Hu) j Hj. specialize (Hu 0 eq_refl) as H0. specialize (Hu (S j) Hj). lia.
  - rewrite filter_cons_False, IH by done. split.
    + intros (k & Hk & Hu). exists (S k). split; [done |].
      intros [|j] Hj; [done |]. f_equal. by apply Hu.
    + intros ([|k] & Hk & Hu); [done |]. exists k. split; [done |].
      intros j Hj. specialize (Hu (S j) Hj). lia.
Qed.

Section spec.
Context {Value : Type} (value_to_string : Value → string).

(** Which of the six constraints are set, in field order. *)
Definition constraint_flags (p : StructuredOutputParams Value) : list bool :=
  [is_some (json_schema p); is_some (json_object p); is_some (xml p);
   is_some (regex p); is_some (grammar p); is_some (choice p)].

Definition exactly_one (p : StructuredOutputParams Value) : Prop :=
  ∃ k, constraint_flags p !! k = Some true
    ∧ ∀ j, constraint_flags p !! j = Some true → j = k.

Definition good_text (o : option string) : Prop :=
  ∀ s, o = Some s → s ≠ "" ∧ (str_len s <= one_mib)%N.

Record structured_valid (p : StructuredOutputParams Value) : Prop := {
  sv_one : exactly_one p;
  sv_object : json_object p ≠ Some false;
  sv_text : good_text (xml p) ∧ good_text (regex p) ∧ good_text (grammar p);
  sv_choice : ∀ cs, choice p = Some cs →
    cs ≠ [] ∧ (∀ c, c ∈ cs → c ≠ "") ∧ (foldr (λ c n, str_len c + n) 0 cs <= one_mib)%N;
  sv_schema : ∀ v, json_schema p = Some v → (str_len (value_to_string v) <= one_mib)%N;
}.

(** [0 <= x <= hi] in [f32], so [x] is a number. *)
Definition between0 (hi x : f32) : Prop := F32.leb F32.zero x = true ∧ F32.leb x hi = true.

Record params_valid (p : SamplingParams Value) : Prop := {
  pv_n : sp_n p ≠ 0%N;
  pv_temperature : F32.ltb (temperature p) F32.zero = false;
  pv_presence : between0 F32.two (presence_penalty p);
  pv_frequency : between0 F32.two (frequency_penalty p);
  pv_repetition : F32.leb (repetition_penalty p) F32.zero = false;
  pv_top_p : between0 F32.one (top_p p);
  pv_greedy : F32.eqb (temperature p) F32.zero = true → sp_n p = 1%N;
  pv_structured : ∀ so, structured_outputs p = Some so →
    structured_valid so ∧ speculative_enabled p = false ∧ sp_n p = 1%N
    ∧ allowed_token_ids p = None ∧ min_tokens p = 0%N ∧ ignore_eos p = false
    ∧ stop p = [] ∧ stop_token_ids p = [];
}.

Lemma str_is_empty_spec s : str_is_empty s = true ↔ s = "".
Proof.
  unfold str_is_empty. rewrite Nat.eqb_eq. destruct s; simpl; [done |].
  split; intros; discriminate.
Qed.

Lemma good_text_spec o :
  good_text o ↔ is_some_and str_is_empty o = false
                ∧ is_some_and (λ v, (one_mib <? str_len v)%N) o = false.
Proof.
  unfold good_text. destruct o as [s|]; simpl; [| done].
  rewrite N.ltb_ge, bool_prop_false, str_is_empty_spec.
  split; [intros H; by apply (H s) | intros H s' [= <-]; exact H].
Qed.

Lemma check_named_Ok l :
  check_named l = Ok () ↔ Forall (λ nv, good_text (snd nv)) l.
Proof.
  induction l as [|[name v] l IH]; [by split; intros; constructor |].
  cbn [check_named]. rewrite !require_Ok, !negb_true_iff, IH, Forall_cons, good_text_spec.
  simpl. tauto.
Qed.

Lemma active_one p : active_constraints p = 1 ↔ exactly_one p.
Proof. apply count_true_one. Qed.
End spec.

Ltac peel H := repeat (apply require_Err in H as [-> | H]; [by eauto |]).

Section validate_spec.
Context {Value : Type} (value_to_string : Value → string).

Lemma choice_valid_spec (o : option (list string)) :
  (∀ cs, o = Some cs →
     cs ≠ [] ∧ (∀ c, c ∈ cs → c ≠ "") ∧ (foldr (λ c n, str_len c + n) 0 cs <= one_mib)%N)
  ↔ is_some_and choice_invalid o = false
    ∧ is_some_and (λ cs, (one_mib <? foldr (λ c n, str_len c + n) 0 cs)%N) o = false.
Proof.
  destruct o as [cs|]; simpl; [| done]. rewrite N.ltb_ge.
  assert (E : choice_invalid cs = false ↔ cs ≠ [] ∧ ∀ c, c ∈ cs → c ≠ "").
  { rewrite bool_prop_false. unfold choice_invalid. destruct cs as [|c cs]; [naive_solver |].
    rewrite existsb_exists. setoid_rewrite str_is_empty_spec.
    setoid_rewrite <- list_elem_of_In. naive_solver. }
  rewrite E. naive_solver.
Qed.

Lemma structured_validate_Ok p :
  structured_validate value_to_string p = Ok () ↔ structured_valid value_to_string p.
Proof.
  unfold structured_validate.
  rewrite require_Ok, Nat.eqb_eq, active_one, require_Ok, negb_true_iff, bool_decide_eq_false,
    bind_unit_Ok, check_named_Ok, !Forall_cons, !require_Ok, !negb_true_iff, orb_false_iff.
  cbn [snd].
  assert (Hs : is_some_and (λ s, (one_mib <? str_len (value_to_string s))%N) (json_schema p) = false
               ↔ ∀ v, json_schema p = Some v → (str_len (value_to_string v) <= one_mib)%N).
  { rewrite is_some_and_false. by setoid_rewrite N.ltb_ge. }
  rewrite Hs. pose proof (choice_valid_spec (choice p)) as Hc. split.
  - intros (H1 & H2 & (? & ? & ? & _) & H4 & (H5 & H6) & _). split; try done. by apply Hc.
  - intros [H1 H2 (? & ? & ?) H4 H5]. apply Hc in H4 as [H4 H6]. by split_and!.
Qed.

Lemma validate_errors p e : validate value_to_string p = Err e → ∃ msg, e = InvalidSamplingParams msg.
Proof.
  assert (Hn : ∀ l e, check_named l = Err e → ∃ msg, e = InvalidSamplingParams msg).
  { induction l as [|[n v] l IH]; intros e' H; [done |]. cbn [check_named] in H. peel H. by apply IH. }
  assert (Hs : ∀ so e, structured_validate value_to_string so = Err e → ∃ msg, e = InvalidSamplingParams msg).
  { intros so e' H. unfold structured_validate in H. peel H.
    apply bind_Err in H as [H | [? H]]; [by eapply Hn | peel H; done]. }
  intros H. unfold validate in H. peel H. destruct (structured_outputs p) as [so|]; [| done].
  apply bind_Err in H as [H | [? H]]; [by eapply Hs | peel H; done].
Qed.
End validate_spec.

(** ** Properties *)

(** [validate] accepts exactly the parameters the documented ranges allow
    (a NaN fails every closed range), including the restrictions on structured
    outputs, and every rejection is an [InvalidSamplingParams]. *)
Theorem validate_exact {Value} (value_to_string : Value → string) (p : SamplingParams Value) :
  (validate value_to_string p = Ok () ↔ params_valid value_to_string p)
  ∧ (¬ params_valid value_to_string p →
     ∃ msg, validate value_to_string p = Err (InvalidSamplingParams msg)).
Proof.
  assert (E : validate value_to_string p = Ok () ↔ params_valid value_to_string p).
  { unfold validate, in_range.
    rewrite !require_Ok, !negb_true_iff, N.eqb_neq, !andb_true_iff, andb_false_iff, N.ltb_ge.
    split.
    - intros (H1 & H2 & H3 & H4 & H5 & H6 & H7 & H8). split; try done.
      + intros Hg. destruct H7; [congruence | lia].
      + intros so Hso. rewrite Hso in H8.
        rewrite bind_unit_Ok, !require_Ok, !negb_true_iff, !orb_false_iff, N.eqb_eq, N.ltb_ge,
          !negb_false_iff, !bool_decide_eq_true, structured_validate_Ok in H8.
        destruct H8 as (? & ? & ? & ((((? & ?) & ?) & ?) & ?) & _).
        split_and!; try done; [by destruct (allowed_token_ids p) | lia].
    - intros [H1 H2 H3 H4 H5 H6 H7 H8]. split_and!; try apply H3; try apply H4; try apply H6; try done.
      + destruct (F32.eqb _ _); [right; rewrite H7 by done; lia | by left].
      + destruct (structured_outputs p) as [so|]; [| done].
        destruct (H8 so eq_refl) as (? & ? & ? & Ha & ? & ? & ? & ?).
        rewrite bind_unit_Ok, !require_Ok, !negb_true_iff, !orb_false_iff, N.eqb_eq, N.ltb_ge,
          !negb_false_iff, !bool_decide_eq_true, structured_validate_Ok, Ha.
        split_and!; try done; lia. }
  split; [done |]. intros Hn. destruct (validate value_to_string p) as [[]|e] eqn:Ev.
  - exfalso. by apply Hn, E.
  - destruct (validate_errors _ _ _ Ev) as [msg ->]. by exists msg.
Qed.

(** A NaN temperature passes the check whose message asks for [>= 0]. *)
Example nan_temperature_accepted :
  validate (λ s : string, s) (mkSamplingParams 1 None F32.zero F32.zero F32.one S754_nan F32.one (-1)
    F32.zero None [] [] false None 0 None None true true true false OK_Text ∅ None [] None false None)
  = Ok ().
Proof. by vm_compute. Qed.

Inductive status_step : RequestStatus → RequestStatus → Prop :=
  | StatusStep s next : transition s next = Ok next → status_step s next.

Lemma status_step_iff s next : status_step s next ↔ can_transition_to s next = true.
Proof.
  split.
  - intros [s' n H]. unfold transition in H. by destruct (can_transition_to s' n).
  - intros H. constructor. unfold transition. by rewrite H.
Qed.

(** The status machine: [transition] accepts exactly the listed pairs and
    otherwise names both statuses; a finished status is terminal; and from
    [Waiting] every status is reachable except [WaitingForRemoteKV], which no
    transition enters. *)
Theorem status_machine s next :
  (can_transition_to s next = true → transition s next = Ok next)
  ∧ (can_transition_to s next = false →
       transition s next = Err (InvalidStatusTransition (status_debug s) (status_debug next)))
  ∧ (status_is_finished s = true → ¬ status_step s next)
  ∧ (rtc status_step Waiting s ↔ s ≠ WaitingForRemoteKV).
Proof.
  unfold transition. split_and!.
  - by intros ->.
  - by intros ->.
  - rewrite status_step_iff. by destruct s, next.
  - split.
    + intros H. apply rtc_ind_r with (P := λ s, s ≠ WaitingForRemoteKV) in H; [done | done |].
      intros y z _ Hstep _ ->. apply status_step_iff in Hstep. by destruct y.
    + assert (H1 : status_step Waiting Running) by (by apply status_step_iff).
      intros Hs. destruct (decide (s = Waiting)) as [->|Hw]; [done |].
      apply rtc_l with Running; [done |].
      destruct s; try done; apply rtc_once, status_step_iff; done.
Qed.
