(* ===== verification/KVSpec.v ===== *)
(** * KV cache geometry (rllm-cache/src/spec.rs)

    Sizes are [N] with the overflow checks of [usize] arithmetic written out. *)
From S2P Require Import Prelude F32 CoreTypes.

Inductive KVLayout : Type := NHD | HND.

Record KVCacheSpec : Type := mkKVCacheSpec {
  block_size : nat;
  num_layers : N;
  num_kv_heads : N;
  head_dim : N;
  spec_dtype : DType;
  sliding_window : option nat;
}.

Definition block_size_N (s : KVCacheSpec) : N := N.of_nat (block_size s).

Definition bytes_per_block (s : KVCacheSpec) : option N :=
  usize_product 2 [num_layers s; block_size_N s; num_kv_heads s; head_dim s;
                   bytes_per_scalar (spec_dtype s)].

Definition kv_bytes_per_block_per_layer (s : KVCacheSpec) : option N :=
  usize_product (block_size_N s) [num_kv_heads s; head_dim s; bytes_per_scalar (spec_dtype s)].

(** [(total as f64 * utilization as f64) as usize] *)
Definition usable_bytes (total_gpu_bytes : N) (gpu_memory_utilization : f32) : N :=
  F64.to_usize (F64.mul (F64.of_N total_gpu_bytes) (F64.of_f32 gpu_memory_utilization)).

Definition num_blocks_from_available_memory (s : KVCacheSpec)
    (total_gpu_bytes model_weight_bytes activation_peak_bytes : N)
    (gpu_memory_utilization : f32) : option N :=
  let usable := usable_bytes total_gpu_bytes gpu_memory_utilization in
  reserved ← usize_add model_weight_bytes activation_peak_bytes;
  let available := (usable - reserved)%N in
  bytes_per_block ← bytes_per_block s;
  if (bytes_per_block =? 0)%N then Some 0%N
  else Some (available / bytes_per_block)%N.

Definition key_shape (s : KVCacheSpec) (num_blocks : N) (layout : KVLayout) : list N :=
  match layout with
  | NHD => [num_blocks; num_kv_heads s; head_dim s; block_size_N s]
  | HND => [num_blocks; block_size_N s; num_kv_heads s; head_dim s]
  end.

Definition value_shape (s : KVCacheSpec) (num_blocks : N) (layout : KVLayout) : list N :=
  match layout with
  | NHD => [num_blocks; num_kv_heads s; head_dim s; block_size_N s]
  | HND => [num_blocks; block_size_N s; num_kv_heads s; head_dim s]
  end.

Record KVCacheConfig : Type := mkKVCacheConfig {
  num_blocks : nat;
  kv_spec : KVCacheSpec;
}.

(** Bytes of the K and V tensors of every layer, allocated with these shapes. *)
Definition kv_tensor_bytes (s : KVCacheSpec) (n : N) (layout : KVLayout) : N :=
  (num_layers s * (product (key_shape s n layout) + product (value_shape s n layout))
   * bytes_per_scalar (spec_dtype s))%N.

(** ** Helper lemmas *)
Lemma bytes_per_block_value s b :
  bytes_per_block s = Some b →
  b = (2 * num_layers s * block_size_N s * num_kv_heads s * head_dim s
       * bytes_per_scalar (spec_dtype s))%N.
Proof. intros ->%usize_product_Some. simpl. lia. Qed.

Lemma kv_tensor_bytes_value s n layout b :
  bytes_per_block s = Some b → kv_tensor_bytes s n layout = (n * b)%N.
Proof.
  intros ->%bytes_per_block_value. unfold kv_tensor_bytes.
  destruct layout; simpl; lia.
Qed.

(** ** Properties *)

(** The memory budget: the block count computed from the free memory is the
    largest whose K and V tensors, of every layer and in either layout, fit next
    to the weights and the activation peak; it is 0 when even the reserved bytes
    exceed the usable ones or a block has no bytes. *)
Theorem memory_budget s total weights peak util layout n
    (Hn : num_blocks_from_available_memory s total weights peak util = Some n) :
  let usable := usable_bytes total util in
  (kv_tensor_bytes s n layout = 0 ∨ kv_tensor_bytes s n layout + weights + peak <= usable)%N
  ∧ (kv_tensor_bytes s 1 layout = 0
     ∨ usable < kv_tensor_bytes s (n + 1) layout + (weights + peak))%N
  ∧ (bytes_per_block s = Some 0%N → n = 0%N)
  ∧ (∀ l, kv_bytes_per_block_per_layer s = Some l →
       kv_tensor_bytes s n layout = n * (2 * num_layers s * l))%N.
Proof.
  unfold num_blocks_from_available_memory, usize_add in Hn. cbn zeta.
  set (usable := usable_bytes total util) in *.
  destruct (_ <=? _)%N; simpl in Hn; [| done].
  destruct (bytes_per_block s) as [b|] eqn:Eb; simpl in Hn; [| done].
  rewrite !(kv_tensor_bytes_value s _ layout b Eb).
  assert (Hl : ∀ l, kv_bytes_per_block_per_layer s = Some l →
    (n * b = n * (2 * num_layers s * l))%N).
  { intros l ->%usize_product_Some. apply bytes_per_block_value in Eb. subst b. simpl. lia. }
  destruct (N.eqb_spec b 0) as [->|Hb].
  - injection Hn as <-. split_and!; [left; lia | left; lia | done | done].
  - injection Hn as <-. pose proof (N.div_mod (usable - (weights + peak)) b Hb) as Hdm.
    pose proof (N.mod_lt (usable - (weights + peak)) b Hb) as Hlt.
    set (k := (_ / b)%N) in *. set (m := (_ mod b)%N) in *. clearbody k m usable.
    split_and!; [| right; nia | congruence | done].
    destruct (N.eq_dec k 0%N) as [->|Hk]; [left; lia | right].
    assert (1 <= b * k)%N by nia.
    lia.
Qed.

Definition llama_spec : KVCacheSpec := mkKVCacheSpec 16 32 8 128 DT_F16 None.

Lemma memory_budget_witness :
  ∃ n, num_blocks_from_available_memory llama_spec 25769803776 16000000000 1000000000
         (F32.div (F32.of_Z 9) (F32.of_Z 10)) = Some n
    ∧ (0 < n)%N
    ∧ (kv_tensor_bytes llama_spec n HND + 16000000000 + 1000000000
       <= usable_bytes 25769803776 (F32.div (F32.of_Z 9) (F32.of_Z 10)))%N.
Proof.
  eexists. split; [vm_compute; reflexivity |]. split; [lia |].
  destruct (memory_budget llama_spec 25769803776 16000000000 1000000000
    (F32.div (F32.of_Z 9) (F32.of_Z 10)) HND _ ltac:(vm_compute; reflexivity)) as [[H|H] _].
  - vm_compute in H. discriminate H.
  - exact H.
Defined.
