(* ===== verification/Prefix.v ===== *)
(** * Prefix hashing (rllm-cache/src/prefix.rs)

    The chained hashes of a token sequence's full blocks.  SHA-256 and XXH3 are
    the parameters [sha256] and [xxh3_64]; the encodings they are applied to are
    the code's. *)
From Stdlib Require Strings.Byte Strings.String.
From S2P Require Import Prelude CoreTypes FreeQueue.
#[local] Open Scope list_scope.
#[local] Open Scope nat_scope.

Abbreviation byte := Init.Byte.byte.

#[global] Instance byte_eq_dec : EqDecision byte := Strings.Byte.byte_eq_dec.

(** ** Byte encodings *)
Definition byte_of_N (n : N) : byte := default Init.Byte.x00 (Strings.Byte.of_N (n mod 256)).

(** [k] little-endian bytes of [n]. *)
Fixpoint le_bytes (k : nat) (n : N) : list byte :=
  match k with 0 => [] | S k => byte_of_N n :: le_bytes k (n / 256) end.

Definition u64_to_be_bytes (n : N) : list byte := reverse (le_bytes 8 n).
Definition u64_to_le_bytes (n : N) : list byte := le_bytes 8 n.
Definition u32_to_le_bytes (n : N) : list byte := le_bytes 4 n.
Definition u64_from_be_bytes (l : list byte) : N :=
  foldl (λ acc b, (256 * acc + Strings.Byte.to_N b)%N) 0%N l.

Definition str_bytes (s : string) : list byte := Strings.String.list_byte_of_string s.

Record BlockHashInput : Type := mkBlockHashInput {
  parent_hash : BlockHash;
  bh_token_ids : list TokenId;
  bh_cache_salt : option string;
  extra_keys : list (string * list byte);
}.

(** What [sha256_cbor_hash] feeds to the digest. *)
Definition sha256_input (i : BlockHashInput) : list byte :=
  u64_to_be_bytes (parent_hash i)
  ++ mjoin (u32_to_le_bytes <$> bh_token_ids i)
  ++ match bh_cache_salt i with
     | Some salt => u64_to_le_bytes (N.of_nat (length (str_bytes salt))) ++ str_bytes salt
     | None => []
     end
  ++ mjoin ((λ '(key, value),
       u64_to_le_bytes (N.of_nat (length (str_bytes key))) ++ str_bytes key
       ++ u64_to_le_bytes (N.of_nat (length value)) ++ value) <$> extra_keys i).

(** The buffer [xxhash_hash] builds. *)
Definition xxhash_input (i : BlockHashInput) : list byte :=
  u64_to_be_bytes (parent_hash i)
  ++ mjoin (u32_to_le_bytes <$> bh_token_ids i)
  ++ match bh_cache_salt i with
     | Some salt => u64_to_be_bytes (N.of_nat (length (str_bytes salt))) ++ str_bytes salt
     | None => []
     end
  ++ mjoin ((λ '(key, value),
       u64_to_be_bytes (N.of_nat (length (str_bytes key))) ++ str_bytes key
       ++ u64_to_be_bytes (N.of_nat (length value)) ++ value) <$> extra_keys i).

Section hashing.
Context (sha256 : list byte → list byte) (xxh3_64 : list byte → N).

Definition sha256_cbor_hash (i : BlockHashInput) : BlockHash :=
  u64_from_be_bytes (take 8 (sha256 (sha256_input i))).

Definition xxhash_hash (i : BlockHashInput) : BlockHash := xxh3_64 (xxhash_input i).

Definition hash_input (algo : PrefixHashAlgorithm) (i : BlockHashInput) : BlockHash :=
  match algo with
  | Sha256Cbor => sha256_cbor_hash i
  | XxHash => xxhash_hash i
  end.

Definition compute_block_hash (algo : PrefixHashAlgorithm) (input : BlockHashInput)
    (block_size : nat) : option BlockHash :=
  if length (bh_token_ids input) <? block_size then None else Some (hash_input algo input).

(** The loop of [compute_block_hashes]: [n] iterations from block [i]. *)
Fixpoint block_hashes_from (algo : PrefixHashAlgorithm) (token_ids : list TokenId)
    (block_size : nat) (cache_salt : option string) (n i : nat) (parent : BlockHash) :
    option (list BlockHash) :=
  match n with
  | 0 => Some []
  | S n =>
      let start := i * block_size in
      let end_ := start + block_size in
      tokens ← slice token_ids start end_;
      let hash := hash_input algo (mkBlockHashInput parent tokens cache_salt []) in
      hashes ← block_hashes_from algo token_ids block_size cache_salt n (i + 1) hash;
      Some (hash :: hashes)
  end.

(** One hash per full block; [None] is the division by a zero block size. *)
Definition compute_block_hashes (algo : PrefixHashAlgorithm) (token_ids : list TokenId)
    (block_size : nat) (cache_salt : option string) : option (list BlockHash) :=
  if block_size =? 0 then None
  else block_hashes_from algo token_ids block_size cache_salt
         (length token_ids / block_size) 0 0%N.
End hashing.

Definition full_cache_hit_info (prompt_len num_cached_blocks block_size : nat) : nat * bool :=
  let cached_tokens := num_cached_blocks * block_size in
  (num_cached_blocks, (prompt_len <=? cached_tokens) && (0 <? num_cached_blocks)).

(** The loop of [find_prefix_hit] at index [i]. *)
Fixpoint find_prefix_hit_from {V} (cached : gmap BlockHash V) (hashes : list BlockHash) (i : nat) : nat :=
  match hashes with
  | [] => i
  | h :: hashes =>
      match cached !! h with None => i | Some _ => find_prefix_hit_from cached hashes (i + 1) end
  end.
Definition find_prefix_hit {V} (computed : list BlockHash) (cached : gmap BlockHash V) : nat :=
  find_prefix_hit_from cached computed 0.

(** ** Specification: the chain of block digests *)
Section chain.
Context (sha256 : list byte → list byte) (xxh3_64 : list byte → N).
Context (algo : PrefixHashAlgorithm) (cache_salt : option string).

(** The digest of an algorithm, and the bytes it is applied to. *)
Definition digest (x : list byte) : BlockHash :=
  match algo with
  | Sha256Cbor => u64_from_be_bytes (take 8 (sha256 x))
  | XxHash => xxh3_64 x
  end.
Definition encode (i : BlockHashInput) : list byte :=
  match algo with Sha256Cbor => sha256_input i | XxHash => xxhash_input i end.

Definition chain_input (parent : BlockHash) (block : list TokenId) : list byte :=
  encode (mkBlockHashInput parent block cache_salt []).

(** The hash of a sequence of blocks, and every input digested on the way. *)
Fixpoint chain_hash (parent : BlockHash) (blocks : list (list TokenId)) : BlockHash :=
  match blocks with
  | [] => parent
  | b :: blocks => chain_hash (digest (chain_input parent b)) blocks
  end.
Fixpoint chain_inputs (parent : BlockHash) (blocks : list (list TokenId)) : list (list byte) :=
  match blocks with
  | [] => []
  | b :: blocks => chain_input parent b :: chain_inputs (digest (chain_input parent b)) blocks
  end.

(** The [n] blocks of [block_size] tokens from block [i]. *)
Fixpoint blocks_from (block_size : nat) (tokens : list TokenId) (i n : nat) : list (list TokenId) :=
  match n with
  | 0 => []
  | S n => take block_size (drop (i * block_size) tokens) :: blocks_from block_size tokens (i + 1) n
  end.

Definition full_blocks (block_size : nat) (tokens : list TokenId) : list (list TokenId) :=
  blocks_from block_size tokens 0 (length tokens / block_size).
End chain.

(** ** Helper lemmas: encodings are injective *)
Lemma byte_of_N_to_N n : Strings.Byte.to_N (byte_of_N n) = (n mod 256)%N.
Proof.
  unfold byte_of_N. destruct (Strings.Byte.of_N (n mod 256)) as [b|] eqn:E; simpl.
  - by apply Strings.Byte.to_of_N.
  - apply Strings.Byte.of_N_None_iff in E. pose proof (N.mod_lt n 256 ltac:(lia)). lia.
Qed.

Lemma le_bytes_length k n : length (le_bytes k n) = k.
Proof. revert n. induction k as [|k IH]; intros n; simpl; [done | by rewrite IH]. Qed.

Lemma le_bytes_inj k m n :
  (m < 256 ^ N.of_nat k)%N → (n < 256 ^ N.of_nat k)%N → le_bytes k m = le_bytes k n → m = n.
Proof.
  revert m n. induction k as [|k IH]; intros m n Hm Hn Heq; [simpl in *; lia |].
  rewrite Nat2N.inj_succ, N.pow_succ_r' in Hm, Hn.
  cbn [le_bytes] in Heq. injection Heq as Hb Hr.
  apply (f_equal Strings.Byte.to_N) in Hb. rewrite !byte_of_N_to_N in Hb.
  apply IH in Hr; [| by apply N.Div0.div_lt_upper_bound ..].
  rewrite (N.div_mod m 256), (N.div_mod n 256) by lia. congruence.
Qed.

Lemma be_bytes_length n : length (u64_to_be_bytes n) = 8.
Proof. unfold u64_to_be_bytes. by rewrite length_reverse, le_bytes_length. Qed.

Lemma be_bytes_inj m n :
  (m <= u64_max)%N → (n <= u64_max)%N → u64_to_be_bytes m = u64_to_be_bytes n → m = n.
Proof.
  intros Hm Hn Heq. apply (f_equal reverse) in Heq. unfold u64_to_be_bytes in Heq.
  rewrite !reverse_involutive in Heq. apply (le_bytes_inj 8); [| | done];
    change (256 ^ N.of_nat 8)%N with (u64_max + 1)%N; lia.
Qed.

Lemma tokens_bytes_inj (l1 l2 : list TokenId) (r1 r2 : list byte) :
  length l1 = length l2 → Forall (λ t, (t <= u32_max)%N) l1 → Forall (λ t, (t <= u32_max)%N) l2 →
  mjoin (u32_to_le_bytes <$> l1) ++ r1 = mjoin (u32_to_le_bytes <$> l2) ++ r2 → l1 = l2 ∧ r1 = r2.
Proof.
  revert l2. induction l1 as [|t1 l1 IH]; intros [|t2 l2] Hlen H1 H2 Heq; try discriminate Hlen;
    [done |].
  apply Forall_cons in H1 as [Ht1 H1]. apply Forall_cons in H2 as [Ht2 H2].
  cbn [fmap list_fmap mjoin list_join] in Heq. rewrite <- !app_assoc in Heq.
  apply app_inj_1 in Heq as [Ht Heq]; [| by unfold u32_to_le_bytes; rewrite !le_bytes_length].
  apply (le_bytes_inj 4) in Ht; [| change (256 ^ N.of_nat 4)%N with (u32_max + 1)%N; lia ..].
  destruct (IH l2) as [-> ->]; [by injection Hlen | done | done | exact Heq | by subst].
Qed.

Lemma str_bytes_inj s t : str_bytes s = str_bytes t → s = t.
Proof.
  intros H. rewrite <- (Strings.String.string_of_list_byte_of_string s),
    <- (Strings.String.string_of_list_byte_of_string t).
  unfold str_bytes in H. by rewrite H.
Qed.

Lemma u64_from_be_bytes_bound l : length l ≤ 8 → (u64_from_be_bytes l <= u64_max)%N.
Proof.
  intros Hl. unfold u64_from_be_bytes.
  assert (∀ acc, foldl (λ acc b, (256 * acc + Strings.Byte.to_N b)%N) acc l
                 < (acc + 1) * 256 ^ N.of_nat (length l))%N as Hf.
  { clear Hl. induction l as [|b l IH]; intros acc; [simpl; lia |].
    cbn [foldl length]. eapply N.lt_le_trans; [apply IH |].
    rewrite Nat2N.inj_succ, N.pow_succ_r'. pose proof (Strings.Byte.to_N_bounded b).
    pose proof (N.le_0_l (256 ^ N.of_nat (length l))). nia. }
  specialize (Hf 0%N). pose proof (N.pow_le_mono_r 256 (N.of_nat (length l)) 8 ltac:(lia) ltac:(lia)).
  change (256 ^ 8)%N with (u64_max + 1)%N in *. lia.
Qed.

(** ** Helper lemmas: the chain *)
Lemma blocks_from_app bs tokens i m n :
  blocks_from bs tokens i (m + n) = blocks_from bs tokens i m ++ blocks_from bs tokens (i + m) n.
Proof.
  revert i. induction m as [|m IH]; intros i; simpl; [by rewrite Nat.add_0_r |].
  rewrite IH. by replace (i + 1 + m) with (i + S m) by lia.
Qed.

Lemma blocks_from_length bs tokens i n : length (blocks_from bs tokens i n) = n.
Proof. revert i. induction n as [|n IH]; intros i; simpl; [done | by rewrite IH]. Qed.

Lemma blocks_from_join bs tokens i n :
  mjoin (blocks_from bs tokens i n) = take (n * bs) (drop (i * bs) tokens).
Proof.
  revert i. induction n as [|n IH]; intros i; simpl; [by rewrite take_0 |].
  rewrite IH, <- take_take_drop, drop_drop. by replace ((i + 1) * bs) with (i * bs + bs) by lia.
Qed.

Lemma blocks_from_size bs tokens i n :
  (i + n) * bs ≤ length tokens → Forall (λ b, length b = bs) (blocks_from bs tokens i n).
Proof.
  revert i. induction n as [|n IH]; intros i Hlen; simpl; [done |].
  constructor; [| apply IH; lia].
  rewrite length_take, length_drop. lia.
Qed.

Lemma blocks_from_u32 bs tokens i n :
  Forall (λ t, (t <= u32_max)%N) tokens →
  Forall (Forall (λ t, (t <= u32_max)%N)) (blocks_from bs tokens i n).
Proof.
  intros H. revert i. induction n as [|n IH]; intros i; simpl; [done |].
  constructor; [by apply Forall_take, Forall_drop | apply IH].
Qed.

Lemma blocks_from_take bs tokens1 tokens2 n :
  take (n * bs) tokens1 = take (n * bs) tokens2 →
  blocks_from bs tokens1 0 n = blocks_from bs tokens2 0 n.
Proof.
  induction n as [|n IH]; intros Heq; [done |].
  rewrite <- Nat.add_1_r, !blocks_from_app. simpl. f_equal.
  - apply IH. apply (f_equal (take (n * bs))) in Heq. rewrite !take_take in Heq.
    by rewrite !(Nat.min_l (n * bs)) in Heq by lia.
  - f_equal. rewrite !take_drop_commute.
    replace (n * bs + bs) with (S n * bs) by lia. by rewrite Heq.
Qed.

Section chain_lemmas.
Context (sha256 : list byte → list byte) (xxh3_64 : list byte → N).
Context (algo : PrefixHashAlgorithm).
Notation dig := (digest sha256 xxh3_64 algo).
Notation chash := (chain_hash sha256 xxh3_64 algo).
Notation cinputs := (chain_inputs sha256 xxh3_64 algo).

Lemma hash_input_digest i : hash_input sha256 xxh3_64 algo i = dig (encode algo i).
Proof. by destruct algo. Qed.

Lemma chain_hash_snoc salt parent bl b :
  chash salt parent (bl ++ [b]) = dig (chain_input algo salt (chash salt parent bl) b).
Proof. revert parent. induction bl as [|a bl IH]; intros parent; simpl; [done | apply IH]. Qed.

Lemma chain_inputs_snoc salt parent bl b :
  cinputs salt parent (bl ++ [b])
  = cinputs salt parent bl ++ [chain_input algo salt (chash salt parent bl) b].
Proof.
  revert parent. induction bl as [|a bl IH]; intros parent; simpl; [done | by rewrite IH].
Qed.

(** The loop computes the chain hashes of the prefixes. *)
Lemma block_hashes_from_spec tokens bs salt n i parent :
  (i + n) * bs ≤ length tokens →
  ∃ hs, block_hashes_from sha256 xxh3_64 algo tokens bs salt n i parent = Some hs ∧ length hs = n
    ∧ ∀ k, k < n → hs !! k = Some (chash salt parent (blocks_from bs tokens i (S k))).
Proof.
  revert i parent. induction n as [|n IH]; intros i parent Hlen.
  - exists []. split_and!; [done | done | lia].
  - cbn [block_hashes_from]. rewrite slice_Some by lia. simpl.
    replace (i * bs + bs - i * bs) with bs by lia.
    rewrite hash_input_digest.
    destruct (IH (i + 1) (dig (chain_input algo salt parent (take bs (drop (i * bs) tokens)))))
      as (hs & Ehs & Hl & Hk); [lia |].
    unfold chain_input in Ehs. rewrite Ehs. simpl. eexists. split; [done |].
    split; [simpl; lia |]. intros [|k] Hlt; [done |]. simpl. rewrite Hk by lia. done.
Qed.

Lemma compute_block_hashes_spec tokens bs salt :
  0 < bs →
  ∃ hs, compute_block_hashes sha256 xxh3_64 algo tokens bs salt = Some hs
    ∧ length hs = length tokens / bs
    ∧ ∀ k, k < length tokens / bs → hs !! k = Some (chash salt 0%N (blocks_from bs tokens 0 (S k))).
Proof.
  intros Hbs. unfold compute_block_hashes. destruct (Nat.eqb_spec bs 0); [lia |].
  apply block_hashes_from_spec. pose proof (Nat.Div0.mul_div_le (length tokens) bs). lia.
Qed.
End chain_lemmas.

Lemma salt_bytes_inj (f : N → list byte) (salt1 salt2 : option string) :
  (∀ n, length (f n) = 8) →
  match salt1 with Some s => f (N.of_nat (length (str_bytes s))) ++ str_bytes s | None => [] end
  = match salt2 with Some s => f (N.of_nat (length (str_bytes s))) ++ str_bytes s | None => [] end →
  salt1 = salt2.
Proof.
  intros Hf Heq. destruct salt1 as [s1|], salt2 as [s2|]; try done.
  - apply app_inj_1 in Heq as [_ ->%str_bytes_inj]; [done | by rewrite !Hf].
  - apply (f_equal length) in Heq. rewrite length_app, Hf in Heq. done.
  - apply (f_equal length) in Heq. rewrite length_app, Hf in Heq. done.
Qed.

(** Sequences that share [k] blocks share [k] hashes. *)
Lemma block_hashes_prefix_spec sha256 xxh3_64 algo salt bs tokens1 tokens2 k :
  0 < bs → k * bs ≤ length tokens1 → k * bs ≤ length tokens2 →
  take (k * bs) tokens1 = take (k * bs) tokens2 →
  ∃ hs1 hs2, compute_block_hashes sha256 xxh3_64 algo tokens1 bs salt = Some hs1
    ∧ compute_block_hashes sha256 xxh3_64 algo tokens2 bs salt = Some hs2
    ∧ k ≤ length hs1 ∧ k ≤ length hs2 ∧ take k hs1 = take k hs2.
Proof.
  intros Hbs Hl1 Hl2 Heq.
  destruct (compute_block_hashes_spec sha256 xxh3_64 algo tokens1 bs salt Hbs) as (hs1 & E1 & L1 & K1).
  destruct (compute_block_hashes_spec sha256 xxh3_64 algo tokens2 bs salt Hbs) as (hs2 & E2 & L2 & K2).
  pose proof (Nat.div_le_lower_bound (length tokens1) bs k ltac:(lia) ltac:(lia)) as Hk1.
  pose proof (Nat.div_le_lower_bound (length tokens2) bs k ltac:(lia) ltac:(lia)) as Hk2.
  exists hs1, hs2. split_and!; [done | done | lia | lia |]. apply list_eq. intros i.
  destruct (Nat.lt_ge_cases i k) as [Hi|Hi]; [| by rewrite !lookup_take_ge].
  rewrite !lookup_take_lt by lia. rewrite K1, K2 by lia. f_equal. f_equal.
  apply blocks_from_take. apply (f_equal (take (S i * bs))) in Heq.
  rewrite !take_take, !(Nat.min_l (S i * bs)) in Heq by nia. done.
Qed.

(** The encoding determines parent, block and salt, blocks being of one size. *)
Lemma chain_input_inj algo salt1 salt2 p1 p2 b1 b2 :
  (p1 <= u64_max)%N → (p2 <= u64_max)%N → length b1 = length b2 →
  Forall (λ t, (t <= u32_max)%N) b1 → Forall (λ t, (t <= u32_max)%N) b2 →
  chain_input algo salt1 p1 b1 = chain_input algo salt2 p2 b2 → p1 = p2 ∧ b1 = b2 ∧ salt1 = salt2.
Proof.
  intros Hp1 Hp2 Hlen H1 H2 Heq. unfold chain_input, encode, sha256_input, xxhash_input in Heq.
  assert (∃ r1 r2, u64_to_be_bytes p1 ++ mjoin (u32_to_le_bytes <$> b1) ++ r1
                   = u64_to_be_bytes p2 ++ mjoin (u32_to_le_bytes <$> b2) ++ r2
    ∧ (r1 = r2 → salt1 = salt2)) as (r1 & r2 & Heq' & Hr).
  { destruct algo; eexists _, _; (split; [exact Heq |]); simpl; rewrite !app_nil_r; intros Hr.
    - apply (salt_bytes_inj u64_to_le_bytes); [intros; apply le_bytes_length | exact Hr].
    - apply (salt_bytes_inj u64_to_be_bytes); [apply be_bytes_length | exact Hr]. }
  apply app_inj_1 in Heq' as [Hp Heq']; [| by rewrite !be_bytes_length].
  apply be_bytes_inj in Hp; [| done | done].
  apply tokens_bytes_inj in Heq' as [Hb Heq']; [| done | done | done].
  split_and!; [done | done | by apply Hr].
Qed.

(** *** Equal hashes *)
Section matching.
Context (sha256 : list byte → list byte) (xxh3_64 : list byte → N).
Context (Hdigest : ∀ x, (xxh3_64 x <= u64_max)%N) (algo : PrefixHashAlgorithm).
Context (bs : nat) (salt1 salt2 : option string).
Notation dig := (digest sha256 xxh3_64 algo).
Notation chash := (chain_hash sha256 xxh3_64 algo).
Notation cinputs := (chain_inputs sha256 xxh3_64 algo).

(** Two of the digested inputs collide, or one has digest 0. *)
Definition accident (bl1 bl2 : list (list TokenId)) : Prop :=
  (∃ x y, x ∈ cinputs salt1 0%N bl1 ∧ y ∈ cinputs salt2 0%N bl2 ∧ x ≠ y ∧ dig x = dig y)
  ∨ (∃ x, (x ∈ cinputs salt1 0%N bl1 ∨ x ∈ cinputs salt2 0%N bl2) ∧ dig x = 0%N).

Definition good_blocks (bl : list (list TokenId)) : Prop :=
  Forall (λ b, length b = bs ∧ Forall (λ t, (t <= u32_max)%N) b) bl.

Lemma digest_bound x : (dig x <= u64_max)%N.
Proof using Hdigest.
  destruct algo; [| apply Hdigest]. apply u64_from_be_bytes_bound. rewrite length_take. lia.
Qed.

Lemma chain_hash_bound salt bl : (chash salt 0 bl <= u64_max)%N.
Proof using Hdigest.
  destruct bl as [|b bl _] using rev_ind; [done |]. rewrite chain_hash_snoc. apply digest_bound.
Qed.

Lemma accident_app bl1 bl2 b1 b2 : accident bl1 bl2 → accident (bl1 ++ [b1]) (bl2 ++ [b2]).
Proof using Type.
  unfold accident. rewrite !chain_inputs_snoc. setoid_rewrite elem_of_app. naive_solver.
Qed.

Lemma chain_hash_match bl1 bl2 :
  good_blocks bl1 → good_blocks bl2 → bl1 ≠ [] → bl2 ≠ [] →
  chash salt1 0%N bl1 = chash salt2 0%N bl2 → (bl1 = bl2 ∧ salt1 = salt2) ∨ accident bl1 bl2.
Proof using Hdigest.
  revert bl2. induction bl1 as [|b1 bl1 IH] using rev_ind; [done |].
  intros bl2 Hg1 Hg2 _ Hne Heq. destruct bl2 as [|b2 bl2 _] using rev_ind; [done |].
  apply Forall_app in Hg1 as [Hg1 [Hb1 _]%Forall_cons], Hg2 as [Hg2 [Hb2 _]%Forall_cons].
  rewrite !chain_hash_snoc in Heq.
  set (x := chain_input algo salt1 _ b1) in Heq. set (y := chain_input algo salt2 _ b2) in Heq.
  destruct (decide (x = y)) as [Exy|Hxy].
  2: { right. left. exists x, y. rewrite !chain_inputs_snoc. set_solver. }
  apply chain_input_inj in Exy as (Ep & -> & Es);
    [| apply chain_hash_bound | apply chain_hash_bound | intuition congruence | apply Hb1 | apply Hb2].
  destruct bl1 as [|a1 bl1 _] using rev_ind; (destruct bl2 as [|a2 bl2 _] using rev_ind); [by left | | |].
  - right. right. rewrite chain_hash_snoc in Ep. eexists. split; [| symmetry; exact Ep].
    right. rewrite !chain_inputs_snoc. set_solver.
  - right. right. rewrite chain_hash_snoc in Ep. eexists. split; [| exact Ep].
    left. rewrite !chain_inputs_snoc. set_solver.
  - destruct (IH (bl2 ++ [a2])) as [[-> _]|Hacc]; [done | done | by destruct bl1 | by destruct bl2
      | done | by left |]. right. by apply accident_app.
Qed.
End matching.

(** ** Properties *)
Section properties.
Context (sha256 : list byte → list byte) (xxh3_64 : list byte → N).

(** Block hashing is total at a positive block size and depends only on the
    prefix: there is one hash per full block, hash [k] is the digest of the
    [k]-th block chained on hash [k - 1], and two sequences that agree on their
    first [k] blocks have the same first [k] hashes. *)
Theorem block_hashes_prefix_stable algo salt bs tokens1 tokens2 (Hbs : 0 < bs) :
  ∃ hs1 hs2, compute_block_hashes sha256 xxh3_64 algo tokens1 bs salt = Some hs1
    ∧ compute_block_hashes sha256 xxh3_64 algo tokens2 bs salt = Some hs2
    ∧ length hs1 = length tokens1 / bs
    ∧ (∀ k, k < length hs1 →
         hs1 !! k = compute_block_hash sha256 xxh3_64 algo
           (mkBlockHashInput (if decide (k = 0) then 0%N else default 0%N (hs1 !! (k - 1)))
              (take bs (drop (k * bs) tokens1)) salt []) bs)
    ∧ (∀ k, k ≤ length hs1 → k ≤ length hs2 →
         take (k * bs) tokens1 = take (k * bs) tokens2 → take k hs1 = take k hs2).
Proof.
  destruct (compute_block_hashes_spec sha256 xxh3_64 algo tokens1 bs salt Hbs) as (hs1 & E1 & L1 & K1).
  destruct (compute_block_hashes_spec sha256 xxh3_64 algo tokens2 bs salt Hbs) as (hs2 & E2 & L2 & K2).
  exists hs1, hs2. split_and!; [done | done | done | |].
  - intros k Hk. rewrite K1 by lia. rewrite <- (Nat.add_1_r k), blocks_from_app. simpl.
    rewrite chain_hash_snoc. unfold compute_block_hash. cbn [bh_token_ids].
    pose proof (Nat.Div0.mul_div_le (length tokens1) bs).
    rewrite length_take, length_drop.
    rewrite (proj2 (Nat.ltb_ge _ _)) by nia. rewrite hash_input_digest. f_equal. f_equal.
    unfold chain_input. f_equal. f_equal.
    destruct k as [|k]; [done |]. simpl. rewrite Nat.sub_0_r, K1 by lia. done.
  - intros k Hk1 Hk2 Heq. pose proof (Nat.Div0.mul_div_le (length tokens1) bs).
    pose proof (Nat.Div0.mul_div_le (length tokens2) bs).
    destruct (block_hashes_prefix_spec sha256 xxh3_64 algo salt bs tokens1 tokens2 k Hbs)
      as (hs1' & hs2' & E1' & E2' & _ & _ & Ht); [nia | nia | done | congruence].
Qed.

(** A prefix-cache hit is a real hit: when hash [j] of one sequence equals
    hash [k] of another, the two sequences have the same salt and the same first
    [j + 1] = [k + 1] blocks, unless two of the byte strings digested for these
    very prefixes collide or one of them has digest 0. *)
Theorem hash_match_sound algo bs salt1 salt2 tokens1 tokens2 hs1 hs2 j k h
    (Hdigest : ∀ x, (xxh3_64 x <= u64_max)%N) (Hbs : 0 < bs)
    (Ht1 : Forall (λ t, (t <= u32_max)%N) tokens1)
    (Ht2 : Forall (λ t, (t <= u32_max)%N) tokens2)
    (Hhs1 : compute_block_hashes sha256 xxh3_64 algo tokens1 bs salt1 = Some hs1)
    (Hhs2 : compute_block_hashes sha256 xxh3_64 algo tokens2 bs salt2 = Some hs2)
    (Hj : hs1 !! j = Some h) (Hk : hs2 !! k = Some h) :
  (j = k ∧ salt1 = salt2 ∧ take ((k + 1) * bs) tokens1 = take ((k + 1) * bs) tokens2)
  ∨ accident sha256 xxh3_64 algo salt1 salt2
      (blocks_from bs tokens1 0 (j + 1)) (blocks_from bs tokens2 0 (k + 1)).
Proof.
  destruct (compute_block_hashes_spec sha256 xxh3_64 algo tokens1 bs salt1 Hbs) as (hs1' & E1 & L1 & K1).
  destruct (compute_block_hashes_spec sha256 xxh3_64 algo tokens2 bs salt2 Hbs) as (hs2' & E2 & L2 & K2).
  simplify_eq. pose proof (lookup_lt_Some _ _ _ Hj) as Hj'. pose proof (lookup_lt_Some _ _ _ Hk) as Hk'.
  rewrite K1 in Hj by lia. rewrite K2 in Hk by lia. rewrite <- (Nat.add_1_r j) in Hj. rewrite <- (Nat.add_1_r k) in Hk.
  pose proof (Nat.Div0.mul_div_le (length tokens1) bs).
  pose proof (Nat.Div0.mul_div_le (length tokens2) bs).
  assert (∀ tokens n, n * bs ≤ length tokens → Forall (λ t, (t <= u32_max)%N) tokens →
    good_blocks bs (blocks_from bs tokens 0 n)) as Hgood.
  { intros tokens n Hn Ht. apply Forall_and. split; [by apply blocks_from_size | by apply blocks_from_u32]. }
  destruct (chain_hash_match sha256 xxh3_64 Hdigest algo bs salt1 salt2
    (blocks_from bs tokens1 0 (j + 1)) (blocks_from bs tokens2 0 (k + 1))) as [[Eb Es]|Hacc];
    [apply Hgood; [nia | done] | apply Hgood; [nia | done]
    | by rewrite Nat.add_1_r | by rewrite Nat.add_1_r | congruence | left | by right].
  assert (j = k) as ->.
  { apply (f_equal length) in Eb. rewrite !blocks_from_length in Eb. lia. }
  split_and!; [done | done |].
  apply (f_equal mjoin) in Eb. rewrite !blocks_from_join in Eb. simpl in Eb. by rewrite !drop_0 in Eb.
Qed.
End properties.

(** A digest to run the definitions on. *)
Definition toy_digest (x : list byte) : N :=
  (foldl (λ acc b, 31 * acc + Strings.Byte.to_N b) 7 x mod 18446744073709551616)%N.

Lemma block_hashes_prefix_stable_witness :
  ∃ hs1 hs2, compute_block_hashes (λ x, x) toy_digest XxHash [1; 2; 3; 4; 5]%N 2 None = Some hs1
    ∧ compute_block_hashes (λ x, x) toy_digest XxHash [1; 2; 3; 7]%N 2 None = Some hs2
    ∧ length hs1 = 2 ∧ take 1 hs1 = take 1 hs2.
Proof.
  destruct (block_hashes_prefix_stable (λ x, x) toy_digest XxHash None 2
    [1; 2; 3; 4; 5]%N [1; 2; 3; 7]%N ltac:(lia)) as (hs1 & hs2 & E1 & E2 & L1 & _ & Hp).
  exists hs1, hs2. split_and!; [done | done | done |].
  apply Hp; [rewrite L1; simpl; lia | | done].
  vm_compute in E2. injection E2 as <-. simpl. lia.
Defined.

Definition toy_hashes (tokens : list TokenId) : list BlockHash :=
  default [] (compute_block_hashes (λ x, x) toy_digest XxHash tokens 2 (Some "tenant"%string)).

Lemma hash_match_sound_witness :
  ∃ h, toy_hashes [1; 2; 3; 4; 5]%N !! 1 = Some h ∧ toy_hashes [1; 2; 3; 4]%N !! 1 = Some h
    ∧ take 4 [1; 2; 3; 4; 5]%N = take 4 [1; 2; 3; 4]%N.
Proof.
  set (h := default 0%N (toy_hashes [1; 2; 3; 4]%N !! 1)). exists h.
  split; [vm_compute; reflexivity |]. split; [vm_compute; reflexivity |].
  destruct (hash_match_sound (λ x, x) toy_digest XxHash 2 (Some "tenant"%string)
    (Some "tenant"%string) [1; 2; 3; 4; 5]%N [1; 2; 3; 4]%N
    (toy_hashes [1; 2; 3; 4; 5]%N) (toy_hashes [1; 2; 3; 4]%N) 1 1 h) as [(_ & _ & H)|Hacc];
    [ | lia | | | vm_compute; reflexivity | vm_compute; reflexivity
      | vm_compute; reflexivity | vm_compute; reflexivity | exact H | reflexivity].
  - intros x. unfold toy_digest. pose proof (N.mod_lt
      (foldl (λ acc b, 31 * acc + Strings.Byte.to_N b) 7 x)%N 18446744073709551616 ltac:(lia)).
    unfold u64_max. lia.
  - apply (bool_decide_unpack _). vm_compute. exact I.
  - apply (bool_decide_unpack _). vm_compute. exact I.
Defined.

(** The prefix hit is the longest run of leading hashes in the cache, and the
    hit information says the whole prompt is covered exactly when those blocks
    hold at least [prompt_len] tokens. *)
Theorem prefix_hit_longest {V} (computed : list BlockHash) (cached : gmap BlockHash V) prompt_len bs :
  let n := find_prefix_hit computed cached in
  n ≤ length computed
  ∧ (∀ i h, i < n → computed !! i = Some h → is_Some (cached !! h))
  ∧ (∀ h, computed !! n = Some h → cached !! h = None)
  ∧ full_cache_hit_info prompt_len n bs = (n, bool_decide (prompt_len ≤ n * bs ∧ 0 < n)).
Proof.
  cbn zeta. unfold find_prefix_hit.
  assert (∀ i, let n := find_prefix_hit_from cached computed i in
    i ≤ n ≤ i + length computed
    ∧ (∀ k h, i + k < n → computed !! k = Some h → is_Some (cached !! h))
    ∧ (∀ h, computed !! (n - i) = Some h → cached !! h = None)) as Hgen.
  { induction computed as [|h hs IH]; intros i; simpl.
    - split_and!; [lia | lia | intros k h Hk; lia | by intros h].
    - destruct (cached !! h) as [v|] eqn:Eh; simpl.
      + destruct (IH (i + 1)) as (Hb & Hin & Hout). split_and!; [lia | lia | |].
        * intros [|k] h' Hk Hh'; simplify_eq/=; [by eexists | apply (Hin k); [lia | done]].
        * intros h' Hh'. apply Hout.
          destruct (find_prefix_hit_from cached hs (i + 1) - i) as [|d] eqn:Ed; [lia |].
          by replace (find_prefix_hit_from cached hs (i + 1) - (i + 1)) with d by lia.
      + rewrite Nat.sub_diag. split_and!; [lia | lia | intros k h' Hk; lia |]. intros h' [= <-]. done. }
  destruct (Hgen 0) as (Hb & Hin & Hout). rewrite Nat.sub_0_r in Hout.
  split_and!; [lia | apply Hin | apply Hout |]. unfold full_cache_hit_info. f_equal.
  apply eq_bool_prop_intro. rewrite !Is_true_true, bool_decide_eq_true, andb_true_iff, Nat.leb_le, Nat.ltb_lt.
  done.
Qed.
