(* ===== verification/CacheManager.v ===== *)
(** * The KV cache manager (rllm-cache/src/manager.rs)

    Block tables of the requests on top of [BlockPool]: prefix lookup,
    allocation with rollback, release, publication of full blocks, forking.
    A request id is the 128-bit number of its UUID.  [manager_rep m q] is the
    invariant: the pool's invariant with free queue [q], and every reference
    count is the number of occurrences of the block in the tables. *)
From S2P Require Import Prelude CoreTypes FreeQueue BlockPool KVSpec Prefix.
#[local] Open Scope rllm_scope.

Record PrefixCacheResult : Type := mkPrefixCacheResult {
  cached_block_ids : list BlockId;
  num_computed_tokens : nat;
}.

Record CacheUsage : Type := mkCacheUsage {
  cu_num_total_blocks : nat;
  cu_num_active_blocks : nat;
  cu_num_free_blocks : nat;
  cu_num_cached_hashes : nat;
  cu_num_tracked_requests : nat;
}.

Record KVCacheManager : Type := mkManager {
  block_pool : BlockPool;
  spec : KVCacheSpec;
  config : KVCacheConfig;
  enable_prefix_caching : bool;
  hash_algorithm : PrefixHashAlgorithm;
  request_blocks : gmap RequestId (list BlockId);
  request_computed_tokens : gmap RequestId nat;
  request_block_hashes : gmap RequestId (list BlockHash);
}.

Definition set_pool (p : BlockPool) (m : KVCacheManager) : KVCacheManager :=
  mkManager p (spec m) (config m) (enable_prefix_caching m) (hash_algorithm m)
    (request_blocks m) (request_computed_tokens m) (request_block_hashes m).
Definition set_request_blocks (t : gmap RequestId (list BlockId)) (m : KVCacheManager) : KVCacheManager :=
  mkManager (block_pool m) (spec m) (config m) (enable_prefix_caching m) (hash_algorithm m)
    t (request_computed_tokens m) (request_block_hashes m).
Definition set_computed (t : gmap RequestId nat) (m : KVCacheManager) : KVCacheManager :=
  mkManager (block_pool m) (spec m) (config m) (enable_prefix_caching m) (hash_algorithm m)
    (request_blocks m) t (request_block_hashes m).
Definition set_hashes (t : gmap RequestId (list BlockHash)) (m : KVCacheManager) : KVCacheManager :=
  mkManager (block_pool m) (spec m) (config m) (enable_prefix_caching m) (hash_algorithm m)
    (request_blocks m) (request_computed_tokens m) t.

Module KVCacheManager.

Definition new (cfg : KVCacheConfig) (enable_prefix_caching : bool)
    (hash_algorithm : PrefixHashAlgorithm) : option KVCacheManager :=
  pool ← BlockPool.new (num_blocks cfg);
  Some (mkManager pool (kv_spec cfg) cfg enable_prefix_caching hash_algorithm ∅ ∅ ∅).

(** The lookup loop of [get_computed_blocks]: stops at the first miss. *)
Fixpoint lookup_hits (p : BlockPool) (hashes : list BlockHash) (cached : list BlockId) :
    option (list BlockId * BlockPool) :=
  match hashes with
  | [] => Some (cached, p)
  | h :: hashes =>
      '(hit, p) ← BlockPool.get_cached_block p h;
      match hit with
      | Some block_id => lookup_hits p hashes (cached ++ [block_id])
      | None => Some (cached, p)
      end
  end.

Definition get_computed_blocks (sha256 : list byte → list byte) (xxh3_64 : list byte → N)
    (m : KVCacheManager) (request_id : RequestId) (prompt_tokens : list TokenId)
    (skip_prefix_cache : bool) : option (PrefixCacheResult * KVCacheManager) :=
  if negb (enable_prefix_caching m) || skip_prefix_cache || bool_decide (prompt_tokens = [])
  then Some (mkPrefixCacheResult [] 0, m)
  else
    let block_size := block_size (spec m) in
    hashes ← compute_block_hashes sha256 xxh3_64 (hash_algorithm m) prompt_tokens block_size None;
    '(cached_block_ids, p) ← lookup_hits (block_pool m) hashes [];
    let num_computed_tokens := length cached_block_ids * block_size in
    let m := set_pool p m in
    let m := set_hashes (<[request_id := hashes]> (request_block_hashes m)) m in
    let m := set_computed (<[request_id := num_computed_tokens]> (request_computed_tokens m)) m in
    let m := set_request_blocks (<[request_id := cached_block_ids]> (request_blocks m)) m in
    Some (mkPrefixCacheResult cached_block_ids num_computed_tokens, m).

(** Release every block of a list. *)
Fixpoint free_all (p : BlockPool) (ids : list BlockId) : option BlockPool :=
  match ids with
  | [] => Some p
  | id :: ids => p ← BlockPool.free p id; free_all p ids
  end.

(** The allocation loop of [allocate_slots], with its rollback. *)
Fixpoint allocate_blocks (n : nat) (p : BlockPool) (new_blocks : list BlockId) :
    option (option (list BlockId) * BlockPool) :=
  match n with
  | 0 => Some (Some new_blocks, p)
  | S n =>
      '(block, p) ← BlockPool.allocate p;
      match block with
      | Some block_id => allocate_blocks n p (new_blocks ++ [block_id])
      | None => p ← free_all p new_blocks; Some (None, p)
      end
  end.

Definition allocate_slots (m : KVCacheManager) (request_id : RequestId) (num_tokens num_computed : nat) :
    option (option (list BlockId) * KVCacheManager) :=
  let tokens_needed := num_tokens - num_computed in
  if tokens_needed =? 0 then Some (Some [], m)
  else
    num_new_blocks ← div_ceil tokens_needed (block_size (spec m));
    '(new_blocks, p) ← allocate_blocks num_new_blocks (block_pool m) [];
    let m := set_pool p m in
    match new_blocks with
    | None => Some (None, m)
    | Some new_blocks =>
        let table := default [] (request_blocks m !! request_id) in
        Some (Some new_blocks,
              set_request_blocks (<[request_id := table ++ new_blocks]> (request_blocks m)) m)
    end.

Definition free (m : KVCacheManager) (request_id : RequestId) : option KVCacheManager :=
  m ← match request_blocks m !! request_id with
      | Some blocks =>
          p ← free_all (block_pool m) blocks;
          Some (set_pool p (set_request_blocks (delete request_id (request_blocks m)) m))
      | None => Some m
      end;
  Some (set_hashes (delete request_id (request_block_hashes m))
         (set_computed (delete request_id (request_computed_tokens m)) m)).

(** The loop of [cache_blocks] over [n] block indices from [i]. *)
Fixpoint cache_from (n i : nat) (p : BlockPool) (table : list BlockId) (hashes : list BlockHash) :
    option BlockPool :=
  match n with
  | 0 => Some p
  | S n =>
      p ← (if i <? length table then
             block ← table !! i;
             hash ← hashes !! i;
             BlockPool.cache_block p block hash
           else Some p);
      cache_from n (i + 1) p table hashes
  end.

Definition cache_blocks (m : KVCacheManager) (request_id : RequestId) (num_computed : nat) :
    option KVCacheManager :=
  if negb (enable_prefix_caching m) then Some m
  else
    let block_size := block_size (spec m) in
    if block_size =? 0 then None
    else
      let num_full_blocks := num_computed / block_size in
      match request_blocks m !! request_id, request_block_hashes m !! request_id with
      | Some block_table, Some hashes =>
          let existing_cached := default 0 (request_computed_tokens m !! request_id) in
          let already_cached_blocks := existing_cached / block_size in
          p ← cache_from (Nat.min num_full_blocks (length hashes) - already_cached_blocks)
                already_cached_blocks (block_pool m) block_table hashes;
          let m := set_pool p m in
          Some (set_computed (<[request_id := num_computed]> (request_computed_tokens m)) m)
      | _, _ => Some m
      end.

Definition get_block_ids (m : KVCacheManager) (request_id : RequestId) : option (list BlockId) :=
  request_blocks m !! request_id.

Inductive ForkError : Type := ParentNotFound (parent : RequestId).

Fixpoint incref_all (p : BlockPool) (ids : list BlockId) : option BlockPool :=
  match ids with
  | [] => Some p
  | id :: ids => p ← BlockPool.incref p id; incref_all p ids
  end.

Definition fork_blocks (m : KVCacheManager) (parent_id child_id : RequestId) :
    option (result unit ForkError * KVCacheManager) :=
  match request_blocks m !! parent_id with
  | None => Some (Err (ParentNotFound parent_id), m)
  | Some parent_blocks =>
      p ← incref_all (block_pool m) parent_blocks;
      let m := set_pool p m in
      let m := set_request_blocks (<[child_id := parent_blocks]> (request_blocks m)) m in
      let m := match request_computed_tokens m !! parent_id with
               | Some computed => set_computed (<[child_id := computed]> (request_computed_tokens m)) m
               | None => m
               end in
      let m := match request_block_hashes m !! parent_id with
               | Some hashes => set_hashes (<[child_id := hashes]> (request_block_hashes m)) m
               | None => m
               end in
      Some (Ok (), m)
  end.

Definition get_computed_tokens (m : KVCacheManager) (request_id : RequestId) : nat :=
  default 0 (request_computed_tokens m !! request_id).

Definition usage (m : KVCacheManager) : CacheUsage :=
  let pool_usage := BlockPool.usage (block_pool m) in
  mkCacheUsage (pu_num_total pool_usage) (pu_num_active pool_usage) (pu_num_free pool_usage)
    (pu_num_cached pool_usage) (size (request_blocks m)).

Inductive ResetError : Type :=
  | ActiveRequests (n : nat)
  | PoolReset (e : BlockPool.ResetError).

Definition reset_prefix_cache (m : KVCacheManager) : result KVCacheManager ResetError :=
  if bool_decide (request_blocks m = ∅)
  then match BlockPool.reset_prefix_cache (block_pool m) with
       | Ok p => Ok (set_pool p m)
       | Err e => Err (PoolReset e)
       end
  else Err (ActiveRequests (size (request_blocks m))).

End KVCacheManager.

(** ** Lists of pool operations *)

(** Nothing but reference counts and the free queue changed. *)
Record same_cache (p p' : BlockPool) : Prop := {
  sc_len : length (bp_blocks p') = length (bp_blocks p);
  sc_hash : ∀ j, hash_of p' j = hash_of p j;
  sc_map : bp_hash_map p' = bp_hash_map p;
}.

Lemma same_cache_refl p : same_cache p p.
Proof. by split. Qed.

Lemma same_cache_trans p1 p2 p3 : same_cache p1 p2 → same_cache p2 p3 → same_cache p1 p3.
Proof. intros [L1 H1 M1] [L2 H2 M2]. split; [congruence | | congruence]. intros j. by rewrite H2. Qed.

Lemma bumped_same_cache p i r p' : bumped p i r p' → same_cache p p'.
Proof. intros [_ Hh Hm Hl]. by split. Qed.

Lemma same_cache_coherent p p' : same_cache p p' → hash_coherent p → hash_coherent p'.
Proof.
  intros [Hl Hh Hm] Hc i h Hi. rewrite Hh, Hm. apply Hc. by rewrite <- Hl.
Qed.

#[export] Hint Resolve same_cache_refl same_cache_trans bumped_same_cache same_cache_coherent : rllm.

Lemma refs_pos_lt p j : 0 < refs p j → j < length (bp_blocks p).
Proof.
  unfold refs. destruct (bp_blocks p !! j) eqn:E; simpl; [intros _; by eapply lookup_lt_Some | lia].
Qed.

Lemma occ_cons_eq (j i : nat) l : occ j (i :: l) = (if decide (j = i) then 1 else 0) + occ j l.
Proof. done. Qed.

(** [hits_of m hs ids]: [ids] is what the map has for the longest cached run of [hs]. *)
Definition hits_of (m : gmap BlockHash (list BlockId)) (hashes : list BlockHash) (ids : list BlockId) : Prop :=
  length ids ≤ length hashes
  ∧ (∀ k h id, hashes !! k = Some h → ids !! k = Some id → head (default [] (m !! h)) = Some id)
  ∧ (∀ h, hashes !! length ids = Some h → default [] (m !! h) = []).

Lemma lookup_hits_rep p q hashes acc :
  pool_rep p q →
  ∃ ids p' q', KVCacheManager.lookup_hits p hashes acc = Some (acc ++ ids, p')
    ∧ pool_rep p' q' ∧ same_cache p p' ∧ hits_of (bp_hash_map p) hashes ids
    ∧ (∀ j, refs p' j = refs p j + occ j ids).
Proof.
  revert p q acc. induction hashes as [|h hashes IH]; intros p q acc Hrep; simpl.
  - exists [], p, q. rewrite app_nil_r. split_and!; [done | done | auto with rllm | | intros; simpl; lia].
    split_and!; [done | by intros [] | by intros].
  - destruct (get_cached_block_rep p q h Hrep) as [[Hm ->] | (i & ids & p1 & Hm & -> & _ & Hrep1 & Hb)]; simpl.
    + exists [], p, q. rewrite app_nil_r. split_and!; [done | done | auto with rllm | | intros; simpl; lia].
      split_and!; [simpl; lia | by intros k h' id _ Hk | by intros h' [= <-]].
    + destruct (IH p1 _ (acc ++ [i]) Hrep1) as (ids' & p' & q' & -> & Hrep' & Hsc & (Hl & Hhit & Hmiss) & Hrefs).
      exists (i :: ids'), p', q'. rewrite <- app_assoc. split_and!; [done | done | eauto with rllm | |].
      * rewrite (bu_map _ _ _ _ Hb) in Hhit, Hmiss. split_and!; [simpl; lia | | done].
        intros [|k] h' id Hh Hid; simplify_eq/=; [by rewrite Hm | by eapply Hhit].
      * intros j. rewrite Hrefs, (bu_refs _ _ _ _ Hb), occ_cons_eq. case_decide; subst; lia.
Qed.

Lemma mapped_lt p q h i :
  pool_rep p q → i ∈ default [] (bp_hash_map p !! h) → 0 < i < length (bp_blocks p).
Proof.
  intros Hrep Hi. destruct (bp_hash_map p !! h) as [l|] eqn:E; simpl in Hi.
  - by apply (pd_map _ _ _ _ (pr_data _ _ Hrep) h l i E).
  - by apply not_elem_of_nil in Hi.
Qed.

(** Under coherence the hits carry the hashes they were found under. *)
Lemma hits_hash p q hashes ids i b :
  pool_rep p q → hash_coherent p → hits_of (bp_hash_map p) hashes ids → ids !! i = Some b →
  hash_of p b = hashes !! i.
Proof.
  intros Hrep Hc (Hle & Hmap & _) Hb.
  destruct (lookup_lt_is_Some_2 hashes i) as [h Hh]; [apply lookup_lt_Some in Hb; lia |].
  pose proof (Hmap i h b Hh Hb) as Hhd. apply head_elem_of in Hhd. rewrite Hh.
  apply Hc; [| done]. by apply (mapped_lt p q h).
Qed.

Lemma free_all_rep p q ids :
  pool_rep p q → (∀ j, occ j ids ≤ refs p j) →
  ∃ p' q', KVCacheManager.free_all p ids = Some p' ∧ pool_rep p' q' ∧ same_cache p p'
    ∧ (∀ j, refs p' j = refs p j - occ j ids).
Proof.
  revert p q. induction ids as [|i ids IH]; intros p q Hrep Hocc; simpl.
  - exists p, q. split_and!; [done | done | auto with rllm | intros; lia].
  - pose proof (Hocc i) as Hi. rewrite occ_cons_eq, decide_True in Hi by done.
    destruct (free_rep p q i Hrep) as (p1 & -> & Hrep1 & Hb); [apply refs_pos_lt; lia |]. simpl.
    destruct (IH p1 _ Hrep1) as (p' & q' & -> & Hrep' & Hsc & Hrefs).
    { intros j. specialize (Hocc j). rewrite (bu_refs _ _ _ _ Hb).
      rewrite occ_cons_eq in Hocc. case_decide; subst; lia. }
    exists p', q'. split_and!; [done | done | eauto with rllm |].
    intros j. rewrite Hrefs, (bu_refs _ _ _ _ Hb). case_decide; subst; lia.
Qed.

Lemma incref_all_rep p q ids :
  pool_rep p q → (∀ j, j ∈ ids → 0 < refs p j) →
  ∃ p', KVCacheManager.incref_all p ids = Some p' ∧ pool_rep p' q ∧ same_cache p p'
    ∧ (∀ j, refs p' j = refs p j + occ j ids).
Proof.
  revert p. induction ids as [|i ids IH]; intros p Hrep Hpos; simpl.
  - exists p. split_and!; [done | done | auto with rllm | intros; lia].
  - pose proof (Hpos i ltac:(by left)) as Hi.
    destruct (incref_rep p q i Hrep) as (p1 & -> & Hrep1 & Hb); [by apply refs_pos_lt |]. simpl.
    rewrite (proj2 (Nat.ltb_lt _ _) Hi) in Hb.
    destruct (IH p1 Hrep1) as (p' & -> & Hrep' & Hsc & Hrefs).
    { intros j Hj. rewrite (bu_refs _ _ _ _ Hb). specialize (Hpos j ltac:(by right)). case_decide; lia. }
    exists p'. split_and!; [done | done | eauto with rllm |].
    intros j. rewrite Hrefs, (bu_refs _ _ _ _ Hb). case_decide; subst; lia.
Qed.

(** Allocation keeps what is in use: only free blocks lose their hash. *)
Record alloc_effect (p p' : BlockPool) : Prop := {
  ae_len : length (bp_blocks p') = length (bp_blocks p);
  ae_coherent : hash_coherent p → hash_coherent p';
  ae_hash : ∀ j, 0 < refs p j → hash_of p' j = hash_of p j;
  ae_lost : ∀ j, hash_of p' j = hash_of p j ∨ hash_of p' j = None;
}.

Lemma alloc_effect_same_cache p p' : same_cache p p' → alloc_effect p p'.
Proof.
  intros Hsc. pose proof Hsc as [Hl Hh Hm]. split; [done | by apply same_cache_coherent | done | by left].
Qed.

Lemma allocated_effect p q l1 i l2 p1 :
  pool_rep p q → q = l1 ++ i :: l2 → allocated p l1 i l2 p1 → alloc_effect p p1.
Proof.
  intros Hrep Hq Hal. pose proof Hal as [_ _ [_ Hi] _ Hh _ Hl].
  assert (i < length (bp_blocks p)) by (apply (pool_queue_lt p q Hrep); set_solver).
  split; [done | by apply (allocated_coherent p q l1 i l2) | |].
  - intros j Hj. rewrite Hh. case_decide; [subst; lia | done].
  - intros j. rewrite Hh. case_decide; auto.
Qed.

Lemma allocate_blocks_rep n p q acc :
  pool_rep p q → (∀ j, occ j acc ≤ refs p j) →
  (n ≤ length q ∧ ∃ ids p' q', KVCacheManager.allocate_blocks n p acc = Some (Some (acc ++ ids), p')
     ∧ length ids = n ∧ NoDup ids ∧ (∀ j, j ∈ ids → refs p j = 0 ∧ hash_of p' j = None)
     ∧ pool_rep p' q' ∧ length q' + n = length q ∧ alloc_effect p p'
     ∧ (∀ j, refs p' j = refs p j + occ j ids))
  ∨ (length q < n ∧ ∃ p' q', KVCacheManager.allocate_blocks n p acc = Some (None, p')
     ∧ pool_rep p' q' ∧ alloc_effect p p' ∧ (∀ j, refs p' j = refs p j - occ j acc)).
Proof.
  revert p q acc. induction n as [|n IH]; intros p q acc Hrep Hacc.
  { left. split; [lia |]. exists [], p, q. rewrite app_nil_r. simpl.
    split_and!; [done | done | by apply NoDup_nil_2 | by intros j ?%not_elem_of_nil | done | lia | | intros; lia].
    by apply alloc_effect_same_cache, same_cache_refl. }
  destruct (allocate_rep p q Hrep) as [[-> E] | (l1 & i & l2 & p1 & Hq & E & Hal)];
    cbn [KVCacheManager.allocate_blocks]; rewrite E; simpl.
  { right. split; [simpl; lia |].
    destruct (free_all_rep p [] acc Hrep Hacc) as (p' & q' & -> & Hrep' & Hsc & Hr).
    exists p', q'. split_and!; [done | done | by apply alloc_effect_same_cache | done]. }
  pose proof (allocated_effect p q l1 i l2 p1 Hrep Hq Hal) as [Hl1 Hc1 Hh1 Hlost1].
  destruct Hal as [_ Hrep1 [_ Hi0] Hr1 Hhash1 _ _].
  pose proof (Hacc i) as Hai. rewrite Hi0 in Hai.
  destruct (IH p1 (l1 ++ l2) (acc ++ [i]) Hrep1) as
    [(Hn & ids & p' & q' & Ea & Hlen & Hnd & Hids & Hrep' & Hlq & [Hl Hc Hh Hlost] & Hr)
    | (Hn & p' & q' & Ea & Hrep' & [Hl Hc Hh Hlost] & Hr)].
  { intros j. rewrite occ_app, Hr1. simpl. specialize (Hacc j). case_decide; subst; lia. }
  - left. rewrite length_app in Hn, Hlq. split; [subst q; rewrite length_app; simpl; lia |].
    assert (i ∉ ids) as Hi. { intros Hi. destruct (Hids i Hi) as [H0 _]. rewrite Hr1, decide_True in H0; done. }
    exists (i :: ids), p', q'. rewrite Ea, <- app_assoc. split_and!; [done | simpl; lia | by constructor | | done | | |].
    + intros j [->|Hj]%elem_of_cons.
      * split; [done |]. rewrite Hh by (rewrite Hr1, decide_True by done; lia).
        by rewrite Hhash1, decide_True.
      * destruct (Hids j Hj) as [H0 H1]. split; [| done]. rewrite Hr1 in H0. by case_decide.
    + subst q. rewrite length_app. simpl. lia.
    + split; [congruence | auto | |].
      * intros j Hj. rewrite Hh; [by apply Hh1 |]. rewrite Hr1. case_decide; lia.
      * intros j. destruct (Hlost j) as [->|]; auto.
    + intros j. rewrite Hr, Hr1. simpl. apply occ_not_elem_of in Hi. case_decide; subst; lia.
  - right. rewrite length_app in Hn. split; [subst q; rewrite length_app; simpl; lia |].
    exists p', q'. split_and!; [done | done | |].
    + split; [congruence | auto | |].
      * intros j Hj. rewrite Hh; [by apply Hh1 |]. rewrite Hr1. case_decide; lia.
      * intros j. destruct (Hlost j) as [->|]; auto.
    + intros j. rewrite Hr, Hr1, occ_app. simpl. specialize (Hacc j). case_decide; subst; lia.
Qed.

(** The free queue holds the unreferenced blocks, so equal counts mean equal queues. *)
Lemma free_queue_perm p q p' q' :
  pool_rep p q → pool_rep p' q' → length (bp_blocks p') = length (bp_blocks p) →
  (∀ j, refs p' j = refs p j) → q' ≡ₚ q.
Proof.
  intros Hrep Hrep' Hl Hr. apply NoDup_Permutation.
  - apply (qr_nodup _ _ _ (pr_queue _ _ Hrep')).
  - apply (qr_nodup _ _ _ (pr_queue _ _ Hrep)).
  - intros i. destruct (Nat.lt_ge_cases i (length (bp_blocks p))) as [Hi|Hi].
    + destruct (pool_block p q Hrep i Hi) as (b & _ & (_ & _ & -> & _) & <- & _).
      destruct (pool_block p' q' Hrep' i ltac:(lia)) as (b' & _ & (_ & _ & -> & _) & <- & _).
      by rewrite Hr.
    + split; intros Hin; [apply (pool_queue_lt p' q' Hrep') in Hin | apply (pool_queue_lt p q Hrep) in Hin]; lia.
Qed.

(** ** References held by the block tables *)
Definition held (t : gmap RequestId (list BlockId)) (b : BlockId) : nat :=
  map_fold (λ _ l n, occ b l + n) 0 t.

Lemma held_empty b : held ∅ b = 0.
Proof. apply map_fold_empty. Qed.

Lemma held_insert_new t r l b : t !! r = None → held (<[r := l]> t) b = occ b l + held t b.
Proof. intros Hr. unfold held. rewrite map_fold_insert_L; [done | intros; lia | done]. Qed.

Lemma held_delete t r b : held t b = occ b (default [] (t !! r)) + held (delete r t) b.
Proof.
  destruct (t !! r) as [l|] eqn:E; simpl.
  - rewrite <- (insert_delete_id t r l E) at 1. apply held_insert_new, lookup_delete_eq.
  - by rewrite delete_id.
Qed.

Lemma held_insert t r l b :
  held (<[r := l]> t) b + occ b (default [] (t !! r)) = occ b l + held t b.
Proof.
  rewrite <- insert_delete_eq, held_insert_new by apply lookup_delete_eq.
  rewrite (held_delete t r b). lia.
Qed.

Lemma held_lookup t r l b : t !! r = Some l → occ b l ≤ held t b.
Proof. intros E. rewrite (held_delete t r b), E. simpl. lia. Qed.

Lemma held_zero t b : held t b = 0 ↔ ∀ r, b ∉ default [] (t !! r).
Proof.
  induction t as [|r l t Ht IH] using map_ind.
  - rewrite held_empty. split; [intros _ r; rewrite lookup_empty; apply not_elem_of_nil | done].
  - rewrite held_insert_new by done. split.
    + intros H0 r'. destruct (decide (r' = r)) as [->|Hne].
      * rewrite lookup_insert_eq. simpl. apply occ_not_elem_of. lia.
      * rewrite lookup_insert_ne by done. apply IH. lia.
    + intros Hh. pose proof (Hh r) as Hr. rewrite lookup_insert_eq in Hr. simpl in Hr.
      apply occ_not_elem_of in Hr. rewrite Hr. apply IH. intros r'.
      specialize (Hh r'). destruct (decide (r' = r)) as [->|Hne].
      * rewrite Ht. apply not_elem_of_nil.
      * by rewrite lookup_insert_ne in Hh.
Qed.

(** ** The invariants *)
Definition table (m : KVCacheManager) (r : RequestId) : list BlockId := default [] (request_blocks m !! r).
Definition bsize (m : KVCacheManager) : nat := block_size (spec m).
Definition computed (m : KVCacheManager) (r : RequestId) : nat := KVCacheManager.get_computed_tokens m r.

Record manager_rep (m : KVCacheManager) (q : list nat) : Prop := {
  mr_pool : pool_rep (block_pool m) q;
  mr_refs : ∀ b, refs (block_pool m) b = held (request_blocks m) b;
  mr_bs : 0 < bsize m;
}.

(** The published hashes describe the tables: the hash map is coherent, a block
    a request has still to publish has no hash or the one it will get, and
    tables that share an unhashed block agree on its place and hash. *)
Record cache_inv (m : KVCacheManager) : Prop := {
  ci_coherent : hash_coherent (block_pool m);
  ci_unpublished : ∀ r hs i b h, request_block_hashes m !! r = Some hs →
    computed m r / bsize m ≤ i → table m r !! i = Some b → hs !! i = Some h →
    hash_of (block_pool m) b = None ∨ hash_of (block_pool m) b = Some h;
  ci_label : ∀ r r' i i' b, table m r !! i = Some b → table m r' !! i' = Some b →
    hash_of (block_pool m) b = None →
    i = i' ∧ request_block_hashes m !! r = request_block_hashes m !! r';
}.

Lemma table_refs m q r i b :
  manager_rep m q → table m r !! i = Some b → 0 < refs (block_pool m) b.
Proof.
  intros [_ Hr _] Hb. rewrite Hr. unfold table in Hb.
  destruct (request_blocks m !! r) as [l|] eqn:E; simpl in Hb; [| done].
  pose proof (held_lookup _ _ _ b E). apply list_elem_of_lookup_2, occ_elem_of in Hb. lia.
Qed.

Lemma table_lt m q r i b :
  manager_rep m q → table m r !! i = Some b → 0 < b < length (bp_blocks (block_pool m)).
Proof.
  intros Hrep Hb. pose proof (table_refs _ _ _ _ _ Hrep Hb) as Hpos.
  pose proof (refs_pos_lt _ _ Hpos). split; [| done].
  destruct (pool_block _ _ (mr_pool _ _ Hrep) b ltac:(done)) as (blk & _ & (_ & _ & _ & H0) & E & _).
  destruct b; [| lia]. rewrite E in Hpos. specialize (H0 eq_refl). lia.
Qed.

(** ** [new] *)
Lemma manager_new_rep cfg pc algo :
  0 < block_size (kv_spec cfg) →
  ∃ m, KVCacheManager.new cfg pc algo = Some m ∧ manager_rep m (seq 1 (num_blocks cfg - 1))
    ∧ cache_inv m ∧ request_blocks m = ∅ ∧ spec m = kv_spec cfg ∧ enable_prefix_caching m = pc
    ∧ request_computed_tokens m = ∅ ∧ request_block_hashes m = ∅.
Proof.
  intros Hbs. unfold KVCacheManager.new.
  destruct (new_rep_pool (num_blocks cfg)) as (p & -> & Hrep & Hc & _ & Hr). simpl.
  eexists. split; [done |]. by split_and!.
Qed.

(** ** [get_computed_blocks] *)
Section lookup.
Context (sha256 : list byte → list byte) (xxh3_64 : list byte → N).

(** The manager after a lookup that found [ids]. *)
Definition looked_up (m : KVCacheManager) (p : BlockPool) (r : RequestId) (hashes : list BlockHash)
    (ids : list BlockId) : KVCacheManager :=
  set_request_blocks (<[r := ids]> (request_blocks m))
    (set_computed (<[r := length ids * bsize m]> (request_computed_tokens m))
      (set_hashes (<[r := hashes]> (request_block_hashes m)) (set_pool p m))).

Definition lookup_skipped (m : KVCacheManager) (tokens : list TokenId) (skip : bool) : bool :=
  negb (enable_prefix_caching m) || skip || bool_decide (tokens = []).

Lemma get_computed_blocks_rep m q r tokens skip :
  manager_rep m q → table m r = [] →
  if lookup_skipped m tokens skip then
    KVCacheManager.get_computed_blocks sha256 xxh3_64 m r tokens skip
    = Some (mkPrefixCacheResult [] 0, m)
  else
    ∃ hashes ids p q',
      compute_block_hashes sha256 xxh3_64 (hash_algorithm m) tokens (bsize m) None = Some hashes
      ∧ length hashes = length tokens / bsize m
      ∧ KVCacheManager.get_computed_blocks sha256 xxh3_64 m r tokens skip
        = Some (mkPrefixCacheResult ids (length ids * bsize m), looked_up m p r hashes ids)
      ∧ same_cache (block_pool m) p ∧ hits_of (bp_hash_map (block_pool m)) hashes ids
      ∧ manager_rep (looked_up m p r hashes ids) q'
      ∧ (cache_inv m → cache_inv (looked_up m p r hashes ids)).
Proof.
  intros [Hp Hr Hbs] Hempty. unfold KVCacheManager.get_computed_blocks, lookup_skipped.
  destruct (negb _ || _ || _); [done |].
  destruct (compute_block_hashes_spec sha256 xxh3_64 (hash_algorithm m) tokens (bsize m) None Hbs)
    as (hashes & Eh & Hlen & _).
  destruct (lookup_hits_rep (block_pool m) q hashes [] Hp) as (ids & p & q' & El & Hrep' & Hsc & Hhits & Hrefs).
  exists hashes, ids, p, q'. unfold bsize in Eh. rewrite Eh. simpl. rewrite El. simpl.
  split_and!; try done.
  - split; [done | | done]. intros b. simpl. rewrite Hrefs, Hr.
    pose proof (held_insert (request_blocks m) r ids b) as Hh.
    fold (table m r) in Hh. rewrite Hempty in Hh. simpl in Hh. lia.
  - intros [Hc Hu Hl].
    assert (∀ i b, ids !! i = Some b → hash_of p b ≠ None) as Hhit.
    { intros i b Hb. rewrite (sc_hash _ _ Hsc), (hits_hash _ _ _ _ _ _ Hp Hc Hhits Hb).
      apply lookup_lt_Some in Hb. destruct Hhits as [Hle _].
      destruct (lookup_lt_is_Some_2 hashes i) as [h ->]; [lia | done]. }
    assert (∀ r' i b, table (looked_up m p r hashes ids) r' !! i = Some b →
      (r' = r ∧ ids !! i = Some b) ∨ (r' ≠ r ∧ table m r' !! i = Some b)) as Htab.
    { intros r' i b. unfold table. simpl. destruct (decide (r' = r)) as [->|Hne].
      - rewrite lookup_insert_eq. auto.
      - rewrite lookup_insert_ne by done. auto. }
    split; simpl.
    + by apply (same_cache_coherent (block_pool m)).
    + intros r' hs i b h Hhs Hi Hb Hh. destruct (Htab _ _ _ Hb) as [[-> Hb']|[Hne Hb']].
      * unfold computed, KVCacheManager.get_computed_tokens, bsize in Hi. simpl in Hi.
        rewrite lookup_insert_eq in Hi. simpl in Hi. apply lookup_lt_Some in Hb'.
        rewrite Nat.div_mul in Hi by (unfold bsize in Hbs; lia). lia.
      * rewrite lookup_insert_ne in Hhs by done. rewrite (sc_hash _ _ Hsc).
        apply (Hu r' hs i b h Hhs); [| done | done].
        unfold computed, KVCacheManager.get_computed_tokens in *. simpl in Hi.
        by rewrite lookup_insert_ne in Hi.
    + intros r1 r2 i1 i2 b H1 H2 Hn.
      destruct (Htab _ _ _ H1) as [[-> H1']|[Hne1 H1']]; [by apply Hhit in H1' |].
      destruct (Htab _ _ _ H2) as [[-> H2']|[Hne2 H2']]; [by apply Hhit in H2' |].
      rewrite !lookup_insert_ne by done. rewrite (sc_hash _ _ Hsc) in Hn. by apply (Hl r1 r2 i1 i2 b).
Qed.
End lookup.

(** ** Keeping [cache_inv] *)

(** Tables may lose entries, and gain blocks that have no hash and no other place. *)
Lemma cache_inv_mono m m' :
  hash_coherent (block_pool m') → bsize m' = bsize m →
  (∀ r i b, table m' r !! i = Some b →
    (table m r !! i = Some b ∧ hash_of (block_pool m') b = hash_of (block_pool m) b
     ∧ request_block_hashes m' !! r = request_block_hashes m !! r ∧ computed m r ≤ computed m' r)
    ∨ (hash_of (block_pool m') b = None
       ∧ ∀ r' i', table m' r' !! i' = Some b → r' = r ∧ i' = i)) →
  cache_inv m → cache_inv m'.
Proof.
  intros Hc Hbs Htab [_ Hu Hl]. split; [done | |].
  - intros r hs i b h Hhs Hi Hb Hh. destruct (Htab r i b Hb) as [(Hb' & -> & Hh' & Hle) | [Hn _]]; [| by left].
    rewrite Hh' in Hhs. apply (Hu r hs i b h Hhs); [| done | done].
    rewrite Hbs in Hi. etrans; [by apply Nat.Div0.div_le_mono | done].
  - intros r1 r2 i1 i2 b H1 H2 Hn.
    destruct (Htab r1 i1 b H1) as [(H1' & E1 & Eh1 & _) | [_ Hu1]].
    + destruct (Htab r2 i2 b H2) as [(H2' & _ & Eh2 & _) | [_ Hu2]].
      * rewrite Eh1, Eh2. rewrite E1 in Hn. by apply (Hl r1 r2 i1 i2 b).
      * destruct (Hu2 r1 i1 H1) as [-> ->]. done.
    + destruct (Hu1 r2 i2 H2) as [-> ->]. done.
Qed.

(** ** [allocate_slots] *)
Definition allocated_slots (m : KVCacheManager) (p : BlockPool) (r : RequestId) (ids : list BlockId) : KVCacheManager :=
  set_request_blocks (<[r := table m r ++ ids]> (request_blocks m)) (set_pool p m).

Lemma table_allocated m p r ids r' :
  table (allocated_slots m p r ids) r' = if decide (r' = r) then table m r ++ ids else table m r'.
Proof.
  unfold table, allocated_slots. simpl. case_decide as E.
  - subst. by rewrite lookup_insert_eq.
  - by rewrite lookup_insert_ne.
Qed.

Lemma allocated_slots_inv m q p r ids :
  manager_rep m q → NoDup ids → (∀ j, j ∈ ids → refs (block_pool m) j = 0 ∧ hash_of p j = None) →
  alloc_effect (block_pool m) p → cache_inv m → cache_inv (allocated_slots m p r ids).
Proof.
  intros Hm Hnd Hids [_ Hc Hh _] Hinv.
  assert (Hpos : ∀ r' i b, table m r' !! i = Some b → b ∉ ids ∧ 0 < refs (block_pool m) b).
  { intros r' i b Hb. pose proof (table_refs m q r' i b Hm Hb). split; [| done].
    intros Hin%Hids. lia. }
  assert (Hcase : ∀ r' i b, table (allocated_slots m p r ids) r' !! i = Some b →
    table m r' !! i = Some b
    ∨ (b ∈ ids ∧ r' = r ∧ length (table m r) ≤ i ∧ ids !! (i - length (table m r)) = Some b)).
  { intros r' i b. rewrite table_allocated. case_decide as E; [subst | by left].
    rewrite lookup_app_Some. intros [?|[? Hb]]; [by left | right].
    split_and!; [by eapply list_elem_of_lookup_2 | done | done | done]. }
  apply (cache_inv_mono m); [by apply Hc, ci_coherent | done | | done].
  intros r' i b Hb. destruct (Hcase r' i b Hb) as [Hb'|(Hin & -> & Hge & Hb')].
  - left. split_and!; [done | by eapply Hh, Hpos | done | done].
  - right. split; [by apply Hids |]. intros r2 i2 Hb2.
    destruct (Hcase r2 i2 b Hb2) as [Hb2'|(_ & -> & Hge2 & Hb2')]; [by apply Hpos in Hb2' as [? _] |].
    split; [done |]. pose proof (NoDup_lookup _ _ _ _ Hnd Hb' Hb2'). lia.
Qed.

Lemma allocate_slots_rep m q r nt nc :
  manager_rep m q →
  (nt ≤ nc ∧ KVCacheManager.allocate_slots m r nt nc = Some (Some [], m))
  ∨ (nc < nt ∧ cdiv (nt - nc) (bsize m) ≤ length q ∧ ∃ ids p q',
       KVCacheManager.allocate_slots m r nt nc = Some (Some ids, allocated_slots m p r ids)
       ∧ length ids = cdiv (nt - nc) (bsize m) ∧ NoDup ids
       ∧ (∀ j, j ∈ ids → refs (block_pool m) j = 0 ∧ hash_of p j = None)
       ∧ manager_rep (allocated_slots m p r ids) q'
       ∧ length q' + length ids = length q ∧ alloc_effect (block_pool m) p
       ∧ (cache_inv m → cache_inv (allocated_slots m p r ids)))
  ∨ (nc < nt ∧ length q < cdiv (nt - nc) (bsize m) ∧ ∃ p q',
       KVCacheManager.allocate_slots m r nt nc = Some (None, set_pool p m)
       ∧ manager_rep (set_pool p m) q' ∧ q' ≡ₚ q ∧ alloc_effect (block_pool m) p
       ∧ (cache_inv m → cache_inv (set_pool p m))).
Proof.
  intros Hm. pose proof Hm as [Hp Hr Hbs]. unfold KVCacheManager.allocate_slots.
  destruct (Nat.eqb_spec (nt - nc) 0) as [E|E]; [left; split; [lia | done] | right].
  fold (bsize m). rewrite div_ceil_pos by done. simpl.
  destruct (allocate_blocks_rep (cdiv (nt - nc) (bsize m)) (block_pool m) q [] Hp) as
    [(Hle & ids & p & q' & -> & Hlen & Hnd & Hids & Hp' & Hlq & Heff & Hr')
    | (Hlt & p & q' & -> & Hp' & Heff & Hr')]; [intros; simpl; lia | left | right]; simpl.
  - split_and!; [lia | done |]. exists ids, p, q'. split_and!; try done; [| lia |].
    + split; [done | | done]. intros b. simpl. rewrite Hr', Hr.
      pose proof (held_insert (request_blocks m) r (table m r ++ ids) b) as Hh.
      fold (table m r) in Hh. rewrite occ_app in Hh. lia.
    + by apply (allocated_slots_inv m q).
  - simpl in Hr'. split_and!; [lia | done |]. exists p, q'. split_and!; try done.
    + split; [done | | done]. intros b. simpl. rewrite Hr', Hr. lia.
    + apply (free_queue_perm (block_pool m) q p q'); [done | done | apply Heff | intros j; rewrite Hr'; lia].
    + destruct Heff as [_ Hc Hh _]. intros Hinv.
      apply (cache_inv_mono m); [by apply Hc, ci_coherent | done | | done].
      intros r' i b Hb. left. split_and!; [done | | done | done]. apply Hh, (table_refs m q r' i b Hm Hb).
Qed.

(** ** [free] *)
Definition freed (m : KVCacheManager) (p : BlockPool) (r : RequestId) : KVCacheManager :=
  mkManager p (spec m) (config m) (enable_prefix_caching m) (hash_algorithm m)
    (delete r (request_blocks m)) (delete r (request_computed_tokens m)) (delete r (request_block_hashes m)).

Lemma table_freed m p r r' : table (freed m p r) r' = if decide (r' = r) then [] else table m r'.
Proof.
  unfold table, freed. simpl. case_decide as E; [subst; by rewrite lookup_delete_eq | by rewrite lookup_delete_ne].
Qed.

Lemma manager_free_rep m q r :
  manager_rep m q →
  ∃ p q', KVCacheManager.free m r = Some (freed m p r) ∧ manager_rep (freed m p r) q'
    ∧ same_cache (block_pool m) p
    ∧ (∀ b, refs p b = refs (block_pool m) b - occ b (table m r))
    ∧ (cache_inv m → cache_inv (freed m p r)).
Proof.
  intros Hm. pose proof Hm as [Hp Hr Hbs]. unfold KVCacheManager.free.
  assert (∀ b, occ b (table m r) ≤ refs (block_pool m) b) as Hocc.
  { intros b. rewrite Hr, (held_delete _ r b). unfold table. lia. }
  destruct (free_all_rep (block_pool m) q (table m r) Hp Hocc) as (p & q' & Ef & Hp' & Hsc & Hr').
  exists p, q'. split_and!; [| | done | done |].
  - destruct (request_blocks m !! r) as [l|] eqn:E; simpl.
    + assert (table m r = l) as Hl by (unfold table; by rewrite E). rewrite Hl in Ef. by rewrite Ef.
    + assert (table m r = []) as Hl by (unfold table; by rewrite E). rewrite Hl in Ef.
      injection Ef as <-. unfold freed. rewrite (delete_id (request_blocks m)) by done. by destruct m.
  - split; [done | | done]. intros b. simpl. rewrite Hr', Hr, (held_delete (request_blocks m) r b).
    fold (table m r). lia.
  - intros Hinv. apply (cache_inv_mono m); [by eapply same_cache_coherent, ci_coherent | done | | done].
    intros r' i b. rewrite table_freed. case_decide; [done |]. intros Hb. left.
    unfold computed, KVCacheManager.get_computed_tokens, freed. simpl.
    rewrite !lookup_delete_ne by done. split_and!; [done | apply (sc_hash _ _ Hsc) | done | done].
Qed.

(** ** [cache_blocks] *)
Lemma cache_block_inv m q r hs i b h :
  manager_rep m q → request_block_hashes m !! r = Some hs →
  table m r !! i = Some b → hs !! i = Some h →
  ∃ p, BlockPool.cache_block (block_pool m) b h = Some p
    ∧ manager_rep (set_pool p m) q
    ∧ (∀ j, hash_of p j = if decide (j = b) then Some h else hash_of (block_pool m) j)
    ∧ (cache_inv m → computed m r / bsize m ≤ i → cache_inv (set_pool p m)).
Proof.
  intros Hm Hhs Hb Hh. pose proof Hm as [Hp Hr Hbs].
  pose proof (table_refs m q r i b Hm Hb) as Hpos.
  destruct (cache_block_rep (block_pool m) q b h Hp) as (p & Ep & Hp' & Hrefs & Hlen & _ & Hch);
    [by apply refs_pos_lt |].
  destruct (Hch Hpos) as [Hhash _]. exists p. split_and!; [done | | done |].
  - split; [done | | done]. intros j. simpl. by rewrite Hrefs, Hr.
  - intros [Hc Hu Hl] Hi. pose proof (Hu r hs i b h Hhs Hi Hb Hh) as Hbh.
    split; simpl.
    + eapply cache_block_coherent; [exact Hp | by apply refs_pos_lt | done | exact Hbh | done].
    + intros r' hs' i' b' h' Hhs' Hi' Hb' Hh'. rewrite Hhash. case_decide as E; [subst b'; right | by eapply Hu].
      destruct Hbh as [Hbn|Hbh].
      * destruct (Hl r r' i i' b Hb Hb' Hbn) as [-> Eh]. rewrite Hhs, Hhs' in Eh. congruence.
      * destruct (Hu r' hs' i' b h' Hhs' Hi' Hb' Hh') as [?|?]; congruence.
    + intros r1 r2 i1 i2 b' H1 H2. rewrite Hhash. case_decide; [done |]. by apply Hl.
Qed.

(** The loop publishes the blocks of the index range. *)
Lemma cache_from_rep m q r hs n i :
  manager_rep m q → request_block_hashes m !! r = Some hs → i + n ≤ length hs →
  ∃ p, KVCacheManager.cache_from n i (block_pool m) (table m r) hs = Some p
    ∧ manager_rep (set_pool p m) q
    ∧ (cache_inv m → computed m r / bsize m ≤ i → cache_inv (set_pool p m)
         ∧ (∀ b h, hash_of (block_pool m) b = Some h → hash_of p b = Some h)
         ∧ (∀ j b h, i ≤ j < i + n → table m r !! j = Some b → hs !! j = Some h → hash_of p b = Some h)).
Proof.
  revert m i. induction n as [|n IH]; intros m i Hm Hhs Hle; cbn [KVCacheManager.cache_from].
  { exists (block_pool m). assert (set_pool (block_pool m) m = m) as -> by (by destruct m).
    split_and!; [done | done |]. intros Hinv _. split_and!; [done | done | lia]. }
  destruct (Nat.ltb_spec i (length (table m r))) as [Hi|Hi].
  - destruct (lookup_lt_is_Some_2 _ _ Hi) as [b Hb].
    destruct (lookup_lt_is_Some_2 hs i) as [h Hh]; [lia |]. rewrite Hb, Hh. simpl.
    destruct (cache_block_inv m q r hs i b h Hm Hhs Hb Hh) as (p1 & Ep1 & Hm1 & Hh1 & Hinv1).
    rewrite Ep1. simpl.
    destruct (IH (set_pool p1 m) (i + 1) Hm1 Hhs ltac:(lia)) as (p & Ep & Hm' & Hrest).
    simpl in Ep. exists p. split_and!; [done | done |]. intros Hinv Hi0.
    destruct Hrest as (Hinv' & Hkeep & Hset); [by apply Hinv1 |
      change (computed m r / bsize m ≤ i + 1); lia |].
    split_and!; [done | |].
    + intros b' h' Hb'. apply Hkeep. simpl. rewrite Hh1. case_decide; [subst b' | done].
      destruct (ci_unpublished _ Hinv r hs i b h Hhs Hi0 Hb Hh); congruence.
    + intros j b' h' Hj Hb' Hh'. destruct (decide (j = i)) as [->|Hne]; [| apply (Hset j); [lia | done | done]].
      assert (b' = b) as -> by congruence. assert (h' = h) as -> by congruence.
      apply Hkeep. simpl. by rewrite Hh1, decide_True.
  - simpl. destruct (IH m (i + 1) Hm Hhs ltac:(lia)) as (p & Ep & Hm' & Hrest).
    exists p. split_and!; [done | done |]. intros Hinv Hi0.
    destruct Hrest as (Hinv' & Hkeep & _); [done | lia |]. split_and!; [done | done |].
    intros j b h Hj Hb. apply lookup_lt_Some in Hb. lia.
Qed.

Definition published (m : KVCacheManager) (p : BlockPool) (r : RequestId) (n : nat) : KVCacheManager :=
  set_computed (<[r := n]> (request_computed_tokens m)) (set_pool p m).

Lemma set_pool_computed_inv m p r n :
  computed m r ≤ n → cache_inv (set_pool p m) → cache_inv (published m p r n).
Proof.
  intros Hn Hinv. apply (cache_inv_mono (set_pool p m)); [apply Hinv | done | | done].
  intros r' i b Hb. left. split_and!; [done | done | done |].
  unfold computed, KVCacheManager.get_computed_tokens in *. simpl.
  destruct (decide (r' = r)) as [->|Hne]; [by rewrite lookup_insert_eq | by rewrite lookup_insert_ne].
Qed.

Lemma cache_blocks_rep m q r n :
  manager_rep m q →
  (KVCacheManager.cache_blocks m r n = Some m
   ∧ (enable_prefix_caching m = false ∨ request_blocks m !! r = None ∨ request_block_hashes m !! r = None))
  ∨ (∃ hs p, enable_prefix_caching m = true ∧ is_Some (request_blocks m !! r)
       ∧ request_block_hashes m !! r = Some hs
       ∧ KVCacheManager.cache_blocks m r n = Some (published m p r n)
       ∧ manager_rep (published m p r n) q
       ∧ (cache_inv m → computed m r ≤ n → cache_inv (published m p r n)
            ∧ (∀ b h, hash_of (block_pool m) b = Some h → hash_of p b = Some h)
            ∧ (∀ i b h, computed m r / bsize m ≤ i < n / bsize m → table m r !! i = Some b →
                 hs !! i = Some h → hash_of p b = Some h))).
Proof.
  intros Hm. pose proof Hm as [Hp Hr Hbs]. unfold KVCacheManager.cache_blocks.
  destruct (enable_prefix_caching m) eqn:Epc; simpl; [| left; auto].
  fold (bsize m). destruct (Nat.eqb_spec (bsize m) 0); [lia |].
  destruct (request_blocks m !! r) as [t|] eqn:Et; [| left; auto].
  destruct (request_block_hashes m !! r) as [hs|] eqn:Ehs; [| left; auto]. right.
  assert (table m r = t) as Htab by (unfold table; by rewrite Et).
  fold (KVCacheManager.get_computed_tokens m r). fold (computed m r).
  set (i0 := computed m r / bsize m). set (k := Nat.min (n / bsize m) (length hs) - i0).
  destruct (Nat.le_gt_cases (i0 + k) (length hs)) as [Hk|Hk].
  - destruct (cache_from_rep m q r hs k i0 Hm Ehs Hk) as (p & Ep & Hm' & Hrest).
    rewrite Htab in Ep. exists hs, p. rewrite Ep. simpl. split_and!; try done.
    { destruct Hm' as [H1 H2 H3]. by split. }
    intros Hinv Hn. destruct (Hrest Hinv (Nat.le_refl _)) as (Hinv' & Hkeep & Hset).
    split_and!; [by apply set_pool_computed_inv | done |].
    intros i b h Hi Hb Hh. apply (Hset i); [| done | done].
    pose proof (lookup_lt_Some _ _ _ Hh). subst k. lia.
  - assert (k = 0) as Hk0 by lia. rewrite Hk0. simpl. exists hs, (block_pool m).
    assert (set_pool (block_pool m) m = m) as Hid by (by destruct m).
    split_and!; try done.
    intros Hinv Hn. split_and!; [by apply set_pool_computed_inv; [| rewrite Hid] | done |].
    intros i b h Hi Hb Hh. pose proof (lookup_lt_Some _ _ _ Hh). subst k. lia.
Qed.

(** ** [fork_blocks] and [reset_prefix_cache] *)
Definition unknown (m : KVCacheManager) (r : RequestId) : Prop :=
  request_blocks m !! r = None ∧ request_computed_tokens m !! r = None ∧ request_block_hashes m !! r = None.

Definition forked (m : KVCacheManager) (p : BlockPool) (parent child : RequestId) : KVCacheManager :=
  mkManager p (spec m) (config m) (enable_prefix_caching m) (hash_algorithm m)
    (<[child := table m parent]> (request_blocks m))
    (partial_alter (λ _, request_computed_tokens m !! parent) child (request_computed_tokens m))
    (partial_alter (λ _, request_block_hashes m !! parent) child (request_block_hashes m)).

Lemma insert_or_keep {A} (t : gmap RequestId A) (parent child : RequestId) :
  t !! child = None →
  match t !! parent with Some x => <[child := x]> t | None => t end
  = partial_alter (λ _, t !! parent) child t.
Proof.
  intros Hc. apply map_eq. intros k. destruct (decide (k = child)) as [->|Hne].
  - rewrite lookup_partial_alter_eq. destruct (t !! parent) eqn:E; [by rewrite lookup_insert_eq | done].
  - rewrite lookup_partial_alter_ne by done.
    destruct (t !! parent) eqn:E; [by rewrite lookup_insert_ne | done].
Qed.

Lemma fork_blocks_rep m q parent child :
  manager_rep m q → unknown m child →
  match request_blocks m !! parent with
  | None => KVCacheManager.fork_blocks m parent child = Some (Err (KVCacheManager.ParentNotFound parent), m)
  | Some blocks =>
      ∃ p, KVCacheManager.fork_blocks m parent child = Some (Ok (), forked m p parent child)
        ∧ manager_rep (forked m p parent child) q ∧ same_cache (block_pool m) p
        ∧ (∀ b, refs p b = refs (block_pool m) b + occ b blocks)
        ∧ (cache_inv m → cache_inv (forked m p parent child))
  end.
Proof.
  intros Hm (Hub & Huc & Huh). pose proof Hm as [Hp Hr Hbs]. unfold KVCacheManager.fork_blocks.
  destruct (request_blocks m !! parent) as [blocks|] eqn:E; [| done].
  assert (table m parent = blocks) as Htab by (unfold table; by rewrite E).
  destruct (incref_all_rep (block_pool m) q blocks Hp) as (p & Ep & Hp' & Hsc & Hr').
  { intros j Hj. rewrite Hr. pose proof (held_lookup _ _ _ j E). apply occ_elem_of in Hj. lia. }
  exists p. split_and!; [| | done | done |].
  - rewrite Ep. simpl. f_equal. f_equal. unfold forked. rewrite Htab.
    rewrite <- (insert_or_keep (request_computed_tokens m)), <- (insert_or_keep (request_block_hashes m)) by done.
    by destruct (request_computed_tokens m !! parent); simpl; destruct (request_block_hashes m !! parent).
  - split; [done | | done]. intros b. simpl. rewrite Hr', Hr, held_insert_new by done. rewrite Htab. lia.
  - intros [Hc Hu Hl].
    set (src r := if decide (r = child) then parent else r).
    assert (∀ r, table (forked m p parent child) r = table m (src r)
      ∧ request_block_hashes (forked m p parent child) !! r = request_block_hashes m !! src r
      ∧ computed (forked m p parent child) r = computed m (src r)) as Hsrc.
    { intros r. subst src. unfold table, computed, KVCacheManager.get_computed_tokens, forked. simpl.
      case_decide as Er.
      - subst r. by rewrite lookup_insert_eq, !lookup_partial_alter_eq.
      - by rewrite lookup_insert_ne, !lookup_partial_alter_ne by done. }
    split; simpl.
    + by apply (same_cache_coherent (block_pool m)).
    + intros r hs i b h. destruct (Hsrc r) as (Et & Eh & Ec). simpl in Eh. rewrite Eh, Et, Ec.
      rewrite (sc_hash _ _ Hsc). apply Hu.
    + intros r r' i i' b. destruct (Hsrc r) as (Et & Eh & _), (Hsrc r') as (Et' & Eh' & _).
      simpl in Eh, Eh'. rewrite Eh, Eh', Et, Et', (sc_hash _ _ Hsc). apply Hl.
Qed.

Lemma manager_reset_rep m q :
  manager_rep m q →
  match KVCacheManager.reset_prefix_cache m with
  | Ok m' => request_blocks m = ∅ ∧ manager_rep m' q ∧ cache_inv m' ∧ bp_hash_map (block_pool m') = ∅
  | Err (KVCacheManager.ActiveRequests n) => n = size (request_blocks m) ∧ 0 < n
  | Err (KVCacheManager.PoolReset _) => False
  end.
Proof.
  intros Hm. pose proof Hm as [Hp Hr Hbs]. unfold KVCacheManager.reset_prefix_cache. case_bool_decide as He.
  - assert (∀ b, refs (block_pool m) b = 0) as H0 by (intros b; rewrite Hr, He; apply held_empty).
    destruct (reset_rep (block_pool m) q Hp) as [(i & h & _ & Hi & _) | (p & -> & Hp' & Hc & Hmap & Hr' & Hh)].
    { rewrite H0 in Hi. lia. }
    split_and!; [done | | | done].
    + split; [done | | done]. intros b. simpl. by rewrite Hr', Hr.
    + split; [done | |]; unfold table; simpl; rewrite He; intros *; by rewrite !lookup_empty.
  - split; [done |]. destruct (size (request_blocks m)) eqn:Es; [| lia].
    by apply map_size_empty_inv in Es.
Qed.

(** ** Histories of manager calls *)
Section history.
Context (sha256 : list byte → list byte) (xxh3_64 : list byte → N).

Inductive ManagerOp : Type :=
  | MGetComputed (r : RequestId) (prompt : list TokenId) (skip : bool)
  | MAllocate (r : RequestId) (num_tokens num_computed : nat)
  | MFree (r : RequestId)
  | MCache (r : RequestId) (num_computed : nat)
  | MFork (parent child : RequestId)
  | MReset.

Definition manager_step (m : KVCacheManager) (op : ManagerOp) : option KVCacheManager :=
  match op with
  | MGetComputed r prompt skip =>
      snd <$> KVCacheManager.get_computed_blocks sha256 xxh3_64 m r prompt skip
  | MAllocate r nt nc => snd <$> KVCacheManager.allocate_slots m r nt nc
  | MFree r => KVCacheManager.free m r
  | MCache r n => KVCacheManager.cache_blocks m r n
  | MFork parent child => snd <$> KVCacheManager.fork_blocks m parent child
  | MReset => Some (match KVCacheManager.reset_prefix_cache m with Ok m' => m' | Err _ => m end)
  end.

(** What the callers respect: a prefix lookup only for a request without blocks,
    computed tokens that do not go back, and a fork onto an unknown request. *)
Definition op_allowed (m : KVCacheManager) (op : ManagerOp) : Prop :=
  match op with
  | MGetComputed r _ _ => table m r = []
  | MCache r n => computed m r ≤ n
  | MFork _ child => unknown m child
  | _ => True
  end.

Inductive reachable (cfg : KVCacheConfig) (pc : bool) (algo : PrefixHashAlgorithm) : KVCacheManager → Prop :=
  | reachable_new m : KVCacheManager.new cfg pc algo = Some m → reachable cfg pc algo m
  | reachable_step m op m' :
      reachable cfg pc algo m → op_allowed m op → manager_step m op = Some m' →
      reachable cfg pc algo m'.

Lemma manager_step_rep m q op :
  manager_rep m q → cache_inv m → op_allowed m op →
  ∃ m' q', manager_step m op = Some m' ∧ manager_rep m' q' ∧ cache_inv m'.
Proof.
  intros Hm Hinv Hop. destruct op as [r prompt skip | r nt nc | r | r n | parent child |];
    cbn [manager_step op_allowed] in *.
  - pose proof (get_computed_blocks_rep sha256 xxh3_64 m q r prompt skip Hm Hop) as Hg.
    destruct (lookup_skipped m prompt skip); [rewrite Hg; eauto |].
    destruct Hg as (hs & ids & p & q' & _ & _ & -> & _ & _ & Hm' & Hinv'). simpl. eauto 10.
  - destruct (allocate_slots_rep m q r nt nc Hm) as
      [(_ & ->) | [(_ & _ & ids & p & q' & -> & _ & _ & _ & Hm' & _ & _ & Hinv')
                  | (_ & _ & p & q' & -> & Hm' & _ & _ & Hinv')]]; simpl; eauto 10.
  - destruct (manager_free_rep m q r Hm) as (p & q' & -> & Hm' & _ & _ & Hinv'). eauto 10.
  - destruct (cache_blocks_rep m q r n Hm) as
      [[-> _] | (hs & p & _ & _ & _ & -> & Hm' & Hrest)]; [eauto |].
    destruct (Hrest Hinv Hop) as [Hinv' _]. eauto 10.
  - pose proof (fork_blocks_rep m q parent child Hm Hop) as Hf.
    destruct (request_blocks m !! parent); [| rewrite Hf; simpl; eauto].
    destruct Hf as (p & -> & Hm' & _ & _ & Hinv'). simpl. eauto 10.
  - pose proof (manager_reset_rep m q Hm) as Hr.
    destruct (KVCacheManager.reset_prefix_cache m) as [m'|[n|e]]; [| eauto | done].
    destruct Hr as (_ & Hm' & Hinv' & _). eauto.
Qed.

Lemma reachable_rep cfg pc algo m :
  0 < block_size (kv_spec cfg) → reachable cfg pc algo m → ∃ q, manager_rep m q ∧ cache_inv m.
Proof.
  intros Hbs. induction 1 as [m Hn | m op m' _ (q & Hm & Hinv) Hop Hs].
  - destruct (manager_new_rep cfg pc algo Hbs) as (m' & E & Hm & Hinv & _). simplify_eq. eauto.
  - destruct (manager_step_rep m q op Hm Hinv Hop) as (m2 & q2 & E & Hm2 & Hinv2). simplify_eq. eauto.
Qed.

End history.

(** A manager to run the definitions on: five usable blocks of two tokens. *)
Definition small_config : KVCacheConfig := mkKVCacheConfig 6 (mkKVCacheSpec 2 1 1 1 DT_F16 None).
Definition some_manager : KVCacheManager :=
  mkManager (mkPool [] FreeQueue.new ∅ 0) (kv_spec small_config) small_config true XxHash ∅ ∅ ∅.
Definition small_manager : KVCacheManager :=
  default some_manager (KVCacheManager.new small_config true XxHash).

Lemma small_manager_new : KVCacheManager.new small_config true XxHash = Some small_manager.
Proof. vm_compute. reflexivity. Qed.

Lemma small_manager_rep : manager_rep small_manager [1; 2; 3; 4; 5] ∧ cache_inv small_manager.
Proof.
  destruct (manager_new_rep small_config true XxHash ltac:(simpl; lia)) as (m & E & Hm & Hinv & _).
  rewrite small_manager_new in E. by injection E as <-.
Qed.


(** ** Properties of the operations *)

Lemma free_blocks_usage m q :
  manager_rep m q → cu_num_free_blocks (KVCacheManager.usage m) = length q.
Proof. intros [Hp _ _]. apply (qr_len _ _ _ (pr_queue _ _ Hp)). Qed.



(** Releasing a request undoes everything it took: its table is empty, every
    other table is untouched, each block it held loses exactly its references,
    and a request that was unknown before an allocation leaves every reference
    count and the number of free blocks as they were. *)
Theorem allocate_free_roundtrip m q r nt nc ids m1 (Hm : manager_rep m q)
    (Hr : request_blocks m !! r = None)
    (Ha : KVCacheManager.allocate_slots m r nt nc = Some (Some ids, m1)) :
  ∃ m2, KVCacheManager.free m1 r = Some m2
    ∧ (∀ r', table m2 r' = table m r')
    ∧ (∀ b, refs (block_pool m2) b = refs (block_pool m) b)
    ∧ cu_num_free_blocks (KVCacheManager.usage m2) = cu_num_free_blocks (KVCacheManager.usage m)
    ∧ unknown m2 r.
Proof.
  assert (∃ q1, manager_rep m1 q1 ∧ delete r (request_blocks m1) = request_blocks m
    ∧ length (bp_blocks (block_pool m1)) = length (bp_blocks (block_pool m)))
    as (q1 & Hm1 & Hb1 & Hl1).
  { destruct (allocate_slots_rep m q r nt nc Hm) as
      [(_ & E) | [(_ & _ & ids' & p & q' & E & _ & _ & _ & Hm' & _ & Heff & _) | (_ & _ & p & q' & E & _)]];
      rewrite Ha in E; [| | done]; injection E as -> ->.
    - exists q. by rewrite delete_id.
    - exists q'. split_and!; [done | | apply Heff]. simpl. by rewrite delete_insert_eq, delete_id. }
  destruct (manager_free_rep m1 q1 r Hm1) as (p & q2 & Ef & Hm2 & Hsc & _).
  exists (freed m1 p r). split; [done |].
  assert (Hrefs : ∀ b, refs p b = refs (block_pool m) b).
  { intros b. rewrite (mr_refs _ _ Hm), <- Hb1. apply (mr_refs _ _ Hm2). }
  split_and!; [| done | | unfold unknown, freed; simpl; by rewrite !lookup_delete_eq].
  - intros r'. unfold table, freed. simpl. by rewrite Hb1.
  - rewrite (free_blocks_usage _ _ Hm2), (free_blocks_usage _ _ Hm).
    rewrite (free_queue_perm _ _ _ _ (mr_pool _ _ Hm) (mr_pool _ _ Hm2)); [done | | done].
    simpl. by rewrite (sc_len _ _ Hsc).
Qed.

Lemma allocate_free_roundtrip_witness :
  ∃ ids m1 m2, KVCacheManager.allocate_slots small_manager 7 5 0 = Some (Some ids, m1)
    ∧ KVCacheManager.free m1 7 = Some m2 ∧ unknown m2 7
    ∧ cu_num_free_blocks (KVCacheManager.usage m2) = 5.
Proof.
  destruct (KVCacheManager.allocate_slots small_manager 7 5 0) as [[[ids|] m1]|] eqn:E;
    [| vm_compute in E; discriminate E | vm_compute in E; discriminate E].
  destruct (allocate_free_roundtrip small_manager _ 7 5 0 ids m1 (proj1 small_manager_rep) eq_refl E)
    as (m2 & Ef & _ & _ & Hf & Hu).
  exists ids, m1, m2. by split_and!.
Defined.

(** The comment of [allocate_slots] promises that a failure modifies no state;
    the eviction of a cached block is not undone.  Here the published block is
    gone from the cache after a failed allocation. *)
Example failed_allocation_evicts :
  (m ← KVCacheManager.new (mkKVCacheConfig 2 (kv_spec small_config)) true XxHash;
   '(_, m) ← KVCacheManager.get_computed_blocks (λ x, x) toy_digest m 1 [5; 6]%N false;
   '(_, m) ← KVCacheManager.allocate_slots m 1 2 0;
   m ← KVCacheManager.cache_blocks m 1 2;
   m ← KVCacheManager.free m 1;
   '(r, m') ← KVCacheManager.allocate_slots m 2 4 0;
   Some (r, cu_num_cached_hashes (KVCacheManager.usage m), cu_num_cached_hashes (KVCacheManager.usage m')))
  = Some (None, 1, 0).
Proof. vm_compute. reflexivity. Qed.

(** [fork_blocks] onto a request that has blocks overwrites its table: the blocks
    it held stay referenced for ever. *)
Example fork_onto_live_child_leaks :
  (m ← KVCacheManager.new small_config true XxHash;
   '(_, m) ← KVCacheManager.allocate_slots m 1 2 0;
   '(_, m) ← KVCacheManager.allocate_slots m 2 2 0;
   '(_, m) ← KVCacheManager.fork_blocks m 1 2;
   m ← KVCacheManager.free m 1; m ← KVCacheManager.free m 2;
   Some (size (request_blocks m), cu_num_active_blocks (KVCacheManager.usage m)))
  = Some (0, 1).
Proof. vm_compute. reflexivity. Qed.

(** *** Prefix reuse *)
Definition hashed (m : KVCacheManager) (h : BlockHash) : Prop := ∃ b, hash_of (block_pool m) b = Some h.

Definition same_settings (m m' : KVCacheManager) : Prop :=
  spec m' = spec m ∧ hash_algorithm m' = hash_algorithm m
  ∧ enable_prefix_caching m' = enable_prefix_caching m.

Lemma hashed_mapped m h :
  cache_inv m → hashed m h → default [] (bp_hash_map (block_pool m) !! h) ≠ [].
Proof.
  intros Hinv [b Hb] E.
  assert (b < length (bp_blocks (block_pool m))) as Hlt.
  { unfold hash_of in Hb. destruct (bp_blocks (block_pool m) !! b) eqn:Eb; [by eapply lookup_lt_Some | done]. }
  apply (ci_coherent _ Hinv b h Hlt) in Hb. rewrite E in Hb. by apply not_elem_of_nil in Hb.
Qed.

Section reuse.
Context (sha256 : list byte → list byte) (xxh3_64 : list byte → N).

(** A lookup finds every leading hash some block carries. *)
Lemma hashed_prefix_found m q r tokens res m' hs k :
  manager_rep m q → cache_inv m → enable_prefix_caching m = true → table m r = [] → tokens ≠ [] →
  KVCacheManager.get_computed_blocks sha256 xxh3_64 m r tokens false = Some (res, m') →
  compute_block_hashes sha256 xxh3_64 (hash_algorithm m) tokens (bsize m) None = Some hs →
  k ≤ length hs → (∀ i h, i < k → hs !! i = Some h → hashed m h) →
  k ≤ length (cached_block_ids res)
  ∧ num_computed_tokens res = length (cached_block_ids res) * bsize m.
Proof.
  intros Hm Hinv Hpc Ht Hne Hget Hhs Hk Hall.
  pose proof (get_computed_blocks_rep sha256 xxh3_64 m q r tokens false Hm Ht) as H1.
  unfold lookup_skipped in H1. rewrite Hpc, bool_decide_eq_false_2 in H1 by done. simpl in H1.
  destruct H1 as (hs' & ids & p & q' & Eh & _ & E & _ & (Hle & _ & Hmiss) & _).
  rewrite E in Hget. injection Hget as <- <-. simpl. split; [| done].
  assert (hs' = hs) as -> by congruence.
  destruct (Nat.le_gt_cases k (length ids)) as [|Hlt]; [done | exfalso].
  destruct (lookup_lt_is_Some_2 hs (length ids)) as [h Hh]; [lia |].
  by apply (hashed_mapped m h Hinv (Hall _ h Hlt Hh)), Hmiss.
Qed.

(** Looking up, allocating and publishing a prompt leaves every full block hashed. *)
Lemma prompt_published m q r tokens res ids m1 m2 m3 :
  manager_rep m q → cache_inv m → enable_prefix_caching m = true → table m r = [] → tokens ≠ [] →
  KVCacheManager.get_computed_blocks sha256 xxh3_64 m r tokens false = Some (res, m1) →
  KVCacheManager.allocate_slots m1 r (length tokens) (num_computed_tokens res) = Some (Some ids, m2) →
  KVCacheManager.cache_blocks m2 r (length tokens) = Some m3 →
  ∃ q3 hs, manager_rep m3 q3 ∧ cache_inv m3 ∧ same_settings m m3
    ∧ (∀ r', r' ≠ r → table m3 r' = table m r')
    ∧ compute_block_hashes sha256 xxh3_64 (hash_algorithm m) tokens (bsize m) None = Some hs
    ∧ (∀ i h, hs !! i = Some h → hashed m3 h).
Proof.
  intros Hm Hinv Hpc Ht Hne Hget Halloc Hcache. pose proof (mr_bs _ _ Hm) as Hbs.
  pose proof (get_computed_blocks_rep sha256 xxh3_64 m q r tokens false Hm Ht) as H1.
  unfold lookup_skipped in H1. rewrite Hpc, bool_decide_eq_false_2 in H1 by done. simpl in H1.
  destruct H1 as (hs & ids1 & p1 & q1 & Eh & Hlh & E & Hsc & Hhits & Hm1 & Hinv1).
  rewrite E in Hget. injection Hget as <- <-. specialize (Hinv1 Hinv). simpl in Halloc.
  pose proof (proj1 Hhits) as Hle. pose proof (Nat.Div0.mul_div_le (length tokens) (bsize m)) as Hdiv.
  set (m1 := looked_up m p1 r hs ids1) in *.
  assert (Ht1 : table m1 r = ids1) by (unfold table; simpl; by rewrite lookup_insert_eq).
  assert (Hothers : ∀ r', r' ≠ r → table m1 r' = table m r').
  { intros r' Hr'. unfold table. simpl. by rewrite lookup_insert_ne. }
  (* the allocation covers the prompt and keeps the hits hashed *)
  assert (∃ q2 p2, manager_rep m2 q2 ∧ cache_inv m2 ∧ m2 = allocated_slots m1 p2 r ids
    ∧ length tokens ≤ bsize m * length (ids1 ++ ids)
    ∧ (∀ i b, ids1 !! i = Some b → hash_of p2 b = hs !! i)) as (q2 & p2 & Hm2 & Hinv2 & -> & Hcov & Hold).
  { assert (∀ i b, ids1 !! i = Some b → hash_of p1 b = hs !! i) as Hh1.
    { intros i b Hb. rewrite (sc_hash _ _ Hsc). eapply hits_hash; [apply Hm | apply Hinv | done | done]. }
    destruct (allocate_slots_rep m1 q1 r (length tokens) (length ids1 * bsize m) Hm1) as
      [(Hge & E2) | [(_ & _ & ids' & p & q' & E2 & Hlen & _ & _ & Hm' & _ & Heff & Hinv')
                  | (_ & _ & p & q' & E2 & _)]]; rewrite E2 in Halloc; [| | done]; injection Halloc as <- <-.
    - exists q1, p1. split_and!; [done | done | | rewrite app_nil_r; lia | done].
      unfold allocated_slots. rewrite Ht1, app_nil_r. subst m1. unfold looked_up, set_request_blocks, set_pool.
      simpl. by rewrite insert_insert_eq.
    - exists q', p. split_and!; [done | by apply Hinv' | done | |].
      + rewrite length_app, Hlen. pose proof (cdiv_bounds (length tokens - length ids1 * bsize m) (bsize m) Hbs).
        change (bsize m1) with (bsize m). nia.
      + intros i b Hb. rewrite (ae_hash _ _ Heff); [by apply Hh1 |].
        apply (table_refs m1 q1 r i); [done | by rewrite Ht1]. }
  destruct (cache_blocks_rep _ q2 r (length tokens) Hm2) as
    [[_ [Hx|[Hx|Hx]]] | (hs' & p3 & _ & _ & Hhs' & E3 & Hm3 & Hrest)];
    [simpl in Hx; congruence | by simpl in Hx; rewrite lookup_insert_eq in Hx
    | by simpl in Hx; rewrite lookup_insert_eq in Hx |].
  rewrite E3 in Hcache. injection Hcache as <-. simpl in Hhs'. rewrite lookup_insert_eq in Hhs'. injection Hhs' as <-.
  assert (Hc2 : computed (allocated_slots m1 p2 r ids) r = length ids1 * bsize m).
  { unfold computed, KVCacheManager.get_computed_tokens. simpl. by rewrite lookup_insert_eq. }
  change (bsize (allocated_slots m1 p2 r ids)) with (bsize m) in Hrest. rewrite Hc2 in Hrest.
  destruct (Hrest Hinv2) as (Hinv3 & Hkeep & Hset); [nia |].
  exists q2, hs. split_and!; [done | done | done | | done |].
  - intros r' Hr'. unfold published, table. simpl. rewrite !lookup_insert_ne by done. done.
  - intros i h Hh. pose proof (lookup_lt_Some _ _ _ Hh) as Hi.
    destruct (lookup_lt_is_Some_2 (ids1 ++ ids) i) as [b Hb]; [nia |]. exists b. simpl.
    apply lookup_app_Some in Hb as Hb'. destruct Hb' as [Hb'|[Hge Hb']].
    + apply Hkeep. simpl. by rewrite (Hold i b Hb').
    + apply (Hset i); [| by rewrite table_allocated, decide_True, Ht1 | done].
      rewrite Nat.div_mul by lia. lia.
Qed.
End reuse.

(** C16. Prefix reuse: after a request has looked up, allocated, published and
    released its prompt, a later request whose prompt agrees with it on the first
    [k] blocks finds at least [k] cached blocks. *)
Theorem prefix_reuse sha256 xxh3_64 m q r1 r2 tokens1 tokens2 res1 res2 ids m1 m2 m3 m4 m5 k
    (Hm : manager_rep m q) (Hinv : cache_inv m) (Hpc : enable_prefix_caching m = true)
    (Hne : r1 ≠ r2) (Ht1 : table m r1 = []) (Ht2 : table m r2 = []) (Hk : 0 < k)
    (Hget : KVCacheManager.get_computed_blocks sha256 xxh3_64 m r1 tokens1 false = Some (res1, m1))
    (Halloc : KVCacheManager.allocate_slots m1 r1 (length tokens1) (num_computed_tokens res1)
              = Some (Some ids, m2))
    (Hcache : KVCacheManager.cache_blocks m2 r1 (length tokens1) = Some m3)
    (Hfree : KVCacheManager.free m3 r1 = Some m4)
    (Hget2 : KVCacheManager.get_computed_blocks sha256 xxh3_64 m4 r2 tokens2 false = Some (res2, m5))
    (Hl1 : k * bsize m ≤ length tokens1) (Hl2 : k * bsize m ≤ length tokens2)
    (Hpre : take (k * bsize m) tokens1 = take (k * bsize m) tokens2) :
  k ≤ length (cached_block_ids res2)
  ∧ k * bsize m ≤ num_computed_tokens res2.
Proof.
  pose proof (mr_bs _ _ Hm) as Hbs.
  assert (∀ tokens : list TokenId, k * bsize m ≤ length tokens → tokens ≠ []) as Hnil.
  { intros [|] Hl; [simpl in Hl; nia | done]. }
  destruct (prompt_published sha256 xxh3_64 m q r1 tokens1 res1 ids m1 m2 m3 Hm Hinv Hpc Ht1
    (Hnil _ Hl1) Hget Halloc Hcache) as (q3 & hs1 & Hm3 & Hinv3 & (Es & Ea & Ep) & Htab & Eh1 & Hall).
  destruct (manager_free_rep m3 q3 r1 Hm3) as (p & q4 & Ef & Hm4 & Hsc & _ & Hinv4).
  rewrite Ef in Hfree. injection Hfree as <-.
  destruct (block_hashes_prefix_spec sha256 xxh3_64 (hash_algorithm m) None (bsize m) tokens1 tokens2 k Hbs
    Hl1 Hl2 Hpre) as (hs1' & hs2 & Eh1' & Eh2 & Hk1 & Hk2 & Htake).
  assert (hs1' = hs1) as -> by congruence.
  assert (bsize (freed m3 p r1) = bsize m) as Hb by (unfold bsize; simpl; by rewrite Es).
  destruct (hashed_prefix_found sha256 xxh3_64 (freed m3 p r1) q4 r2 tokens2 res2 m5 hs2 k) as [Hlen Hnum];
    [done | by apply Hinv4 | simpl; congruence | | by apply Hnil | done | simpl; rewrite Hb; congruence | done | |].
  - rewrite table_freed, decide_False by done. by rewrite Htab.
  - intros i h Hi Hh. destruct (Hall i h) as [b Hbh].
    + rewrite <- (lookup_take_lt hs1 k i) by done. by rewrite Htake, lookup_take_lt.
    + exists b. simpl. by rewrite (sc_hash _ _ Hsc).
  - split; [done |]. rewrite Hnum, Hb. nia.
Qed.

Definition after {A} (o : option (A * KVCacheManager)) : KVCacheManager :=
  match o with Some (_, m) => m | None => some_manager end.
Definition first_lookup := KVCacheManager.get_computed_blocks (λ x, x) toy_digest small_manager 1 [5; 6; 7; 8; 9]%N false.
Definition first_allocation := KVCacheManager.allocate_slots (after first_lookup) 1 5 0.
Definition first_publication := default some_manager (KVCacheManager.cache_blocks (after first_allocation) 1 5).
Definition first_release := default some_manager (KVCacheManager.free first_publication 1).
Definition second_lookup := KVCacheManager.get_computed_blocks (λ x, x) toy_digest first_release 2 [5; 6; 7; 8; 10; 11]%N false.

Lemma prefix_reuse_witness :
  ∃ res m, second_lookup = Some (res, m) ∧ 2 ≤ length (cached_block_ids res).
Proof.
  destruct second_lookup as [[res m]|] eqn:E; [| vm_compute in E; discriminate E].
  exists res, m. split; [done |].
  destruct (prefix_reuse (λ x, x) toy_digest small_manager [1; 2; 3; 4; 5] 1%N 2%N
    [5; 6; 7; 8; 9]%N [5; 6; 7; 8; 10; 11]%N (mkPrefixCacheResult [] 0) res [1; 2; 3]
    (after first_lookup) (after first_allocation) first_publication first_release m 2) as [H _];
    [apply small_manager_rep | apply small_manager_rep | reflexivity | done | reflexivity | reflexivity
    | lia | vm_compute; reflexivity | vm_compute; reflexivity | vm_compute; reflexivity
    | vm_compute; reflexivity | exact E | simpl; lia | simpl; lia | reflexivity | exact H].
Defined.
