(* ===== verification/Optimizations.v ===== *)
(** * Quantization and parallelism plans (rllm-core/src/optimizations.rs)

    Plan construction and validation, and the arithmetic that splits tensors,
    layers and requests over workers.  A failed [assert!] is [None]. *)
From S2P Require Import Prelude CoreTypes.
#[local] Open Scope string_scope.
#[local] Open Scope nat_scope.
#[local] Open Scope rllm_scope.

Inductive QuantizedWeightFormat : Type :=
  | Fp8KvCache | Gptq | Awq | Gguf | BitsAndBytes | Mxfp8 | Mxfp4 | Nvfp4
  | Int8 | Int4 | CompressedTensors | ModelOpt | TorchAo | Unquantized.

Record QuantizationPlan : Type := mkPlan {
  format : QuantizedWeightFormat;
  bits : option N;
  group_size : option N;
  activation_dtype : DType;
  kv_cache_dtype : DType;
}.

Definition QuantizationPlan_default : QuantizationPlan :=
  mkPlan Unquantized None None DT_F16 DT_F16.
Definition fp8_kv_cache : QuantizationPlan := mkPlan Fp8KvCache (Some 8%N) None DT_F16 FP8E4M3.
Definition mxfp8 : QuantizationPlan := mkPlan Mxfp8 (Some 8%N) (Some 32%N) DT_F16 FP8E4M3.
Definition mxfp4 : QuantizationPlan := mkPlan Mxfp4 (Some 4%N) (Some 32%N) DT_F16 FP8E4M3.
Definition nvfp4 : QuantizationPlan := mkPlan Nvfp4 (Some 4%N) (Some 16%N) DT_F16 FP8E4M3.
Definition int8 : QuantizationPlan := mkPlan Int8 (Some 8%N) None DT_F16 DT_INT8.
Definition int4 : QuantizationPlan := mkPlan Int4 (Some 4%N) (Some 128%N) DT_F16 DT_F16.
Definition compressed_tensors : QuantizationPlan := mkPlan CompressedTensors (Some 8%N) None DT_F16 DT_F16.
Definition model_opt : QuantizationPlan := mkPlan ModelOpt (Some 8%N) None DT_F16 DT_F16.
Definition torch_ao : QuantizationPlan := mkPlan TorchAo (Some 8%N) None DT_F16 DT_F16.

Definition no_group (p : QuantizationPlan) : bool := (default 0 (group_size p) =? 0)%N.
Definition bits_are (n : N) (p : QuantizationPlan) : bool := bool_decide (bits p = Some n).

Definition plan_validate (p : QuantizationPlan) : result unit string :=
  match format p with
  | Gptq | Awq =>
      require match bits p with
              | Some b => (b =? 2) || (b =? 3) || (b =? 4) || (b =? 8)
              | None => false
              end%N
        else "GPTQ/AWQ quantization requires 2, 3, 4, or 8 bits";
      require negb (no_group p) else "GPTQ/AWQ quantization requires a positive group size";
      Ok ()
  | Fp8KvCache =>
      require match kv_cache_dtype p with FP8E4M3 | FP8E5M2 => true | _ => false end
        else "FP8 KV cache requires an FP8 cache dtype";
      Ok ()
  | Mxfp8 =>
      require bits_are 8 p else "MXFP8 requires 8 bits";
      require negb (no_group p) else "MXFP8 requires a positive group size";
      Ok ()
  | Mxfp4 =>
      require bits_are 4 p else "MXFP4 requires 4 bits";
      require negb (no_group p) else "MXFP4 requires a positive group size";
      Ok ()
  | Nvfp4 =>
      require bits_are 4 p else "NVFP4 requires 4 bits";
      require negb (no_group p) else "NVFP4 requires a positive group size";
      Ok ()
  | Int8 => require bits_are 8 p else "INT8 requires 8 bits"; Ok ()
  | Int4 => require bits_are 4 p else "INT4 requires 4 bits"; Ok ()
  | Gguf | BitsAndBytes | CompressedTensors | ModelOpt | TorchAo | Unquantized => Ok ()
  end.

(** [a.or(b)] *)
Definition option_or {A} (a b : option A) : option A :=
  match a with Some _ => a | None => b end.

(** The GPTQ and AWQ branches of [from_config]. *)
Definition int4_like (f : QuantizedWeightFormat) (c : QuantizationConfig) : QuantizationPlan :=
  mkPlan f (match qc_bits c with Some b => Some (as_u8 b) | None => bits int4 end)
    (option_or (qc_group_size c) (group_size int4)) (activation_dtype int4) (kv_cache_dtype int4).

Definition plan_of (c : QuantizationConfig) : QuantizationPlan :=
  match qc_kind c with
  | QK_None => QuantizationPlan_default
  | QK_FP8 => fp8_kv_cache
  | QK_GPTQ => int4_like Gptq c
  | QK_AWQ => int4_like Awq c
  | QK_MXFP8 => mxfp8
  | QK_MXFP4 => mxfp4
  | QK_NVFP4 => nvfp4
  | QK_Int8 => mkPlan Int8 (bits int8) (qc_group_size c) (activation_dtype int8) (kv_cache_dtype int8)
  | QK_Int4 => mkPlan Int4 (bits int4) (option_or (qc_group_size c) (group_size int4))
                 (activation_dtype int4) (kv_cache_dtype int4)
  | QK_Gguf => mkPlan Gguf None None DT_F16 DT_F16
  | QK_CompressedTensors => compressed_tensors
  | QK_ModelOpt => model_opt
  | QK_TorchAO => torch_ao
  | QK_BitsAndBytes => mkPlan BitsAndBytes None None DT_F16 DT_F16
  end.

Definition from_config (c : QuantizationConfig) : result QuantizationPlan string :=
  let plan := plan_of c in
  _ <-? plan_validate plan;
  Ok plan.

Record LoraCachePolicy : Type := mkLoraCachePolicy {
  max_active_adapters : nat;
  lru_capacity : nat;
}.

Definition admits (p : LoraCachePolicy) (active_adapters : nat) : bool :=
  active_adapters <? Nat.min (max_active_adapters p) (lru_capacity p).

Record TensorParallelPlan : Type := mkTensorParallelPlan { world_size : nat; rank : nat }.

(** A [Range<usize>] is the pair of its bounds. *)
Definition shard_range (p : TensorParallelPlan) (total_dim : nat) : option (nat * nat) :=
  if (0 <? world_size p) && (rank p <? world_size p) then
    let base := total_dim / world_size p in
    let rem := total_dim mod world_size p in
    let start := rank p * base + Nat.min (rank p) rem in
    let len := base + (if rank p <? rem then 1 else 0) in
    Some (start, start + len)
  else None.

Record PipelineParallelPlan : Type := mkPipelineParallelPlan { stages : nat; stage : nat }.

Definition layer_range (p : PipelineParallelPlan) (num_layers : nat) : option (nat * nat) :=
  shard_range (mkTensorParallelPlan (stages p) (stage p)) num_layers.

Record DataParallelPlan : Type := mkDataParallelPlan { replicas : N; replica : N }.

Definition owns_request (p : DataParallelPlan) (request_hash : N) : bool :=
  (0 <? replicas p)%N && (request_hash mod replicas p =? replica p)%N.

Record CpuKvOffloadPlan : Type := mkCpuKvOffloadPlan { pinned_bytes : N; block_size_bytes : N }.

(** [checked_div(..).unwrap_or(0)] *)
Definition capacity_blocks (p : CpuKvOffloadPlan) : N :=
  if (block_size_bytes p =? 0)%N then 0%N else (pinned_bytes p / block_size_bytes p)%N.

(** ** Helper lemmas *)
Definition range_list (r : nat * nat) : list nat := seq r.1 (r.2 - r.1).

(** The shards of ranks [0 .. k-1], in order. *)
Fixpoint shards (ws total k : nat) : list nat :=
  match k with
  | 0 => []
  | S k => shards ws total k
           ++ from_option range_list [] (shard_range (mkTensorParallelPlan ws k) total)
  end.

Lemma shards_prefix ws total k :
  0 < ws → k ≤ ws → shards ws total k = seq 0 (k * (total / ws) + Nat.min k (total mod ws)).
Proof.
  intros Hws. induction k as [|k IH]; intros Hk; [done |].
  cbn [shards]. rewrite IH by lia. unfold shard_range. cbn [world_size rank].
  rewrite (proj2 (Nat.ltb_lt 0 ws)), (proj2 (Nat.ltb_lt k ws)) by lia. cbn [andb from_option range_list fst snd].
  unfold range_list. cbn [fst snd].
  set (s := k * (total / ws) + k `min` (total mod ws)).
  set (l := total / ws + _). replace (s + l - s) with l by lia.
  change (seq s l) with (seq (0 + s) l). rewrite <- (seq_app s l 0). f_equal. subst s l.
  generalize (total / ws) (total mod ws). intros base rem. destruct (Nat.ltb_spec k rem); lia.
Qed.

(** ** Properties *)

(** Sharding partitions: the shards of the ranks, in order, list every index
    of the dimension exactly once, each shard has the floor or the ceiling of the
    even share, a rank outside the world panics, and the pipeline stages split
    the layers the same way. *)
Theorem shards_partition ws total (Hws : 0 < ws) :
  shards ws total ws = seq 0 total
  ∧ (∀ r, match shard_range (mkTensorParallelPlan ws r) total with
          | Some (a, b) =>
              r < ws ∧ a ≤ b ≤ total
              ∧ (b - a = total / ws ∨ (b - a = total / ws + 1 ∧ r < total mod ws))
          | None => ws ≤ r
          end)
  ∧ (∀ r, layer_range (mkPipelineParallelPlan ws r) total
          = shard_range (mkTensorParallelPlan ws r) total).
Proof.
  pose proof (Nat.div_mod_eq total ws) as Hdm. pose proof (Nat.mod_upper_bound total ws ltac:(lia)) as Hmod.
  split_and!; [| | done].
  - rewrite shards_prefix by lia. f_equal. rewrite Nat.min_r by lia. lia.
  - intros r. unfold shard_range. simpl. rewrite (proj2 (Nat.ltb_lt 0 ws)) by done. simpl.
    destruct (Nat.ltb_spec r ws); [| done].
    assert (r * (total / ws) + r `min` (total mod ws) + (total / ws + (if r <? total mod ws then 1 else 0))
            ≤ total).
    { assert ((r + 1) * (total / ws) ≤ ws * (total / ws)) as Hle by (apply Nat.mul_le_mono_r; lia).
      rewrite Nat.mul_add_distr_r in Hle. destruct (Nat.ltb_spec r (total mod ws)); lia. }
    split_and!; [done | lia | done |]. destruct (Nat.ltb_spec r (total mod ws)); lia.
Qed.

Lemma shards_partition_witness :
  shards 3 10 3 = seq 0 10 ∧ shard_range (mkTensorParallelPlan 3 1) 10 = Some (4, 7).
Proof. split; [apply (shards_partition 3 10); lia | reflexivity]. Defined.

(** Data parallelism assigns every request hash to exactly one replica. *)
Theorem unique_owner n h (Hn : (0 < n)%N) :
  ∃ r, (r < n)%N ∧ owns_request (mkDataParallelPlan n r) h = true
    ∧ ∀ r', owns_request (mkDataParallelPlan n r') h = true → r' = r.
Proof.
  exists (h mod n)%N. unfold owns_request. simpl.
  rewrite (proj2 (N.ltb_lt 0 n) Hn). simpl.
  split_and!; [apply N.mod_lt; lia | apply N.eqb_refl |].
  intros r' H. apply N.eqb_eq in H. done.
Qed.

Lemma unique_owner_witness :
  ∃ r, (r < 4)%N ∧ owns_request (mkDataParallelPlan 4 r) 18446744073709551615 = true.
Proof.
  destruct (unique_owner 4 18446744073709551615 ltac:(lia)) as (r & Hr & Ho & _). by exists r.
Defined.

Lemma int4_like_validate c f :
  f = Gptq ∨ f = Awq →
  let b := as_u8 (default 4%N (qc_bits c)) in
  plan_validate (int4_like f c)
  = if decide (b = 2%N ∨ b = 3%N ∨ b = 4%N ∨ b = 8%N) then
      if decide (default 128%N (qc_group_size c) ≠ 0%N) then Ok ()
      else Err "GPTQ/AWQ quantization requires a positive group size"
    else Err "GPTQ/AWQ quantization requires 2, 3, 4, or 8 bits".
Proof.
  intros Hf. cbn zeta. set (b := as_u8 _). unfold plan_validate, int4_like.
  replace (match qc_bits c with Some b => Some (as_u8 b) | None => bits int4 end) with (Some b)
    by (subst b; by destruct (qc_bits c)).
  assert (∀ x : N, (x =? 2)%N || (x =? 3)%N || (x =? 4)%N || (x =? 8)%N
    = bool_decide (x = 2%N ∨ x = 3%N ∨ x = 4%N ∨ x = 8%N)) as Hb.
  { intros x. apply eq_bool_prop_intro. rewrite !Is_true_true, bool_decide_eq_true, !orb_true_iff, !N.eqb_eq.
    tauto. }
  unfold no_group. cbn [format bits group_size].
  replace (default 0%N (option_or (qc_group_size c) (group_size int4)))
    with (default 128%N (qc_group_size c)) by (by destruct (qc_group_size c)).
  destruct Hf as [->| ->]; rewrite Hb; repeat case_bool_decide; repeat case_decide; simpl; try done;
    destruct (N.eqb_spec (default 128%N (qc_group_size c)) 0); simpl; done.
Qed.

(** A configuration gives a plan exactly when its kind is not GPTQ or AWQ, or
    its bit count as a byte is 2, 3, 4 or 8 (4 when absent) and its group size is
    not zero (128 when absent); the plan then passes its own validation, and the
    only other outcome is one of the two GPTQ/AWQ messages. *)
Theorem from_config_exact c :
  let needs_check := bool_decide (qc_kind c = QK_GPTQ ∨ qc_kind c = QK_AWQ) in
  let b := as_u8 (default 4%N (qc_bits c)) in
  let bits_ok := b = 2%N ∨ b = 3%N ∨ b = 4%N ∨ b = 8%N in
  let group_ok := default 128%N (qc_group_size c) ≠ 0%N in
  match from_config c with
  | Ok p => p = plan_of c ∧ plan_validate p = Ok () ∧ (needs_check = true → bits_ok ∧ group_ok)
  | Err e =>
      needs_check = true
      ∧ ((e = "GPTQ/AWQ quantization requires 2, 3, 4, or 8 bits" ∧ ¬ bits_ok)
         ∨ (e = "GPTQ/AWQ quantization requires a positive group size" ∧ bits_ok ∧ ¬ group_ok))
  end.
Proof.
  cbn zeta. pose proof (int4_like_validate c) as Hv.
  set (b := as_u8 (default 4%N (qc_bits c))) in *. set (g := default 128%N (qc_group_size c)) in *.
  unfold from_config, plan_of. destruct (qc_kind c);
    try (split; [done | split; [done | by rewrite bool_decide_eq_false_2 by (by intros [?|?])]]);
    rewrite bool_decide_eq_true_2 by auto; rewrite Hv by auto;
    (destruct (decide (b = 2%N ∨ b = 3%N ∨ b = 4%N ∨ b = 8%N));
      [destruct (decide (g ≠ 0%N)); simpl; (split; [done |]);
        [split; [rewrite Hv by auto; by rewrite !decide_True by done | done] | auto]
      | simpl; auto]).
Qed.

(** The bit count is cut to a byte before it is validated: 260 passes as 4. *)
Example bits_truncated :
  from_config (mkQuantizationConfig QK_GPTQ None (Some 260%N))
  = Ok (mkPlan Gptq (Some 4%N) (Some 128%N) DT_F16 DT_F16).
Proof. reflexivity. Qed.
