(* ===== verification/Offload.v ===== *)
(** * CPU offload store for KV blocks (rllm-cache/src/offload.rs)

    Slots of one pinned buffer, a stack of free slots and the map from
    (request, block) to slots.  The buffer is a list of bytes; the raw copies are
    [write_at] and [read_at], which are [None] outside the buffer. *)
From S2P Require Import Prelude FreeQueue Prefix CoreTypes.
#[local] Open Scope string_scope.
#[local] Open Scope list_scope.
#[local] Open Scope nat_scope.

(** [Vec::pop] *)
Definition vec_pop {A} (l : list A) : option (A * list A) :=
  match last l with Some x => Some (x, take (length l - 1) l) | None => None end.

(** rllm-tensor/src/pinned.rs: [PinnedBuffer::alloc], zeroed; the layout is
    invalid past [isize::MAX] rounded down to the alignment. *)
Definition pinned_alloc (bytes : N) : option (list byte) :=
  if (bytes <=? 9223372036854775744)%N
  then Some (replicate (Nat.max (N.to_nat bytes) 1) Init.Byte.x00) else None.

Definition write_at (storage : list byte) (offset : nat) (bytes : list byte) : option (list byte) :=
  if offset + length bytes <=? length storage
  then Some (take offset storage ++ bytes ++ drop (offset + length bytes) storage) else None.

Definition read_at (storage : list byte) (offset len : nat) : option (list byte) :=
  if offset + len <=? length storage then Some (take len (drop offset storage)) else None.

Abbreviation Key := (RequestId * BlockId)%type.

Record CpuKvOffloadStore : Type := mkStore {
  os_block_size_bytes : nat;
  os_capacity_blocks : nat;
  os_free_slots : list nat;
  os_slots : gmap Key nat;
  os_storage : list byte;
}.

Record CpuKvOffloadUsage : Type := mkOffloadUsage {
  ou_capacity_blocks : nat;
  ou_used_blocks : nat;
  ou_free_blocks : nat;
}.

Inductive OffloadError : Type :=
  | WrongSize (got expected : nat)
  | StoreFull.

Module Offload.

Definition new (capacity_blocks block_size_bytes : nat) : option CpuKvOffloadStore :=
  storage ← pinned_alloc (N.of_nat capacity_blocks * N.of_nat block_size_bytes);
  Some (mkStore block_size_bytes capacity_blocks (reverse (seq 0 capacity_blocks)) ∅ storage).

Definition put (s : CpuKvOffloadStore) (request_id : RequestId) (block_id : BlockId) (bytes : list byte) :
    option (result unit OffloadError * CpuKvOffloadStore) :=
  if negb (length bytes =? os_block_size_bytes s)
  then Some (Err (WrongSize (length bytes) (os_block_size_bytes s)), s)
  else
    let key := (request_id, block_id) in
    let slot := match os_slots s !! key with
                | Some slot => Some (slot, os_free_slots s)
                | None => vec_pop (os_free_slots s)
                end in
    match slot with
    | None => Some (Err StoreFull, s)
    | Some (slot, free_slots) =>
        storage ← write_at (os_storage s) (slot * os_block_size_bytes s) bytes;
        Some (Ok (), mkStore (os_block_size_bytes s) (os_capacity_blocks s) free_slots
                       (<[key := slot]> (os_slots s)) storage)
    end.

Definition get (s : CpuKvOffloadStore) (request_id : RequestId) (block_id : BlockId) :
    option (option (list byte)) :=
  match os_slots s !! (request_id, block_id) with
  | None => Some None
  | Some slot =>
      src ← read_at (os_storage s) (slot * os_block_size_bytes s) (os_block_size_bytes s);
      Some (Some src)
  end.

Definition remove (s : CpuKvOffloadStore) (request_id : RequestId) (block_id : BlockId) :
    bool * CpuKvOffloadStore :=
  match os_slots s !! (request_id, block_id) with
  | Some slot =>
      (true, mkStore (os_block_size_bytes s) (os_capacity_blocks s) (os_free_slots s ++ [slot])
               (delete (request_id, block_id) (os_slots s)) (os_storage s))
  | None => (false, s)
  end.

Definition usage (s : CpuKvOffloadStore) : CpuKvOffloadUsage :=
  mkOffloadUsage (os_capacity_blocks s) (size (os_slots s)) (length (os_free_slots s)).

End Offload.

(** ** Specification: a bounded map *)
Inductive OffloadOp : Type :=
  | OPut (r : RequestId) (b : BlockId) (bytes : list byte)
  | OGet (r : RequestId) (b : BlockId)
  | ORemove (r : RequestId) (b : BlockId)
  | OUsage.

Inductive OffloadOut : Type :=
  | RPut (res : result unit OffloadError)
  | RGet (res : option (list byte))
  | RRemove (found : bool)
  | RUsage (u : CpuKvOffloadUsage).

Definition store_step (s : CpuKvOffloadStore) (op : OffloadOp) : option (OffloadOut * CpuKvOffloadStore) :=
  match op with
  | OPut r b bytes => '(res, s) ← Offload.put s r b bytes; Some (RPut res, s)
  | OGet r b => res ← Offload.get s r b; Some (RGet res, s)
  | ORemove r b => let '(found, s) := Offload.remove s r b in Some (RRemove found, s)
  | OUsage => Some (RUsage (Offload.usage s), s)
  end.

Fixpoint store_run (s : CpuKvOffloadStore) (ops : list OffloadOp) : option (list OffloadOut) :=
  match ops with
  | [] => Some []
  | op :: ops => '(out, s) ← store_step s op; outs ← store_run s ops; Some (out :: outs)
  end.

Definition spec_step (cap bsb : nat) (m : gmap Key (list byte)) (op : OffloadOp) :
    OffloadOut * gmap Key (list byte) :=
  match op with
  | OPut r b bytes =>
      if decide (length bytes ≠ bsb) then (RPut (Err (WrongSize (length bytes) bsb)), m)
      else if decide (m !! (r, b) = None ∧ size m = cap) then (RPut (Err StoreFull), m)
      else (RPut (Ok ()), <[(r, b) := bytes]> m)
  | OGet r b => (RGet (m !! (r, b)), m)
  | ORemove r b => (RRemove (bool_decide (is_Some (m !! (r, b)))), delete (r, b) m)
  | OUsage => (RUsage (mkOffloadUsage cap (size m) (cap - size m)), m)
  end.

Fixpoint spec_run (cap bsb : nat) (m : gmap Key (list byte)) (ops : list OffloadOp) : list OffloadOut :=
  match ops with
  | [] => []
  | op :: ops => let '(out, m) := spec_step cap bsb m op in out :: spec_run cap bsb m ops
  end.

(** ** Helper lemmas *)
Lemma vec_pop_snoc {A} (l : list A) x : vec_pop (l ++ [x]) = Some (x, l).
Proof.
  unfold vec_pop. rewrite last_snoc, length_app. simpl.
  by rewrite Nat.add_sub, take_app_length.
Qed.

Lemma write_at_Some st off bytes :
  off + length bytes ≤ length st →
  ∃ st', write_at st off bytes = Some st' ∧ length st' = length st
    ∧ take (length bytes) (drop off st') = bytes
    ∧ (∀ off' len, off' + len ≤ off ∨ off + length bytes ≤ off' →
         take len (drop off' st') = take len (drop off' st)).
Proof.
  intros Hle. unfold write_at. rewrite (proj2 (Nat.leb_le _ _) Hle).
  eexists. split; [done |]. split_and!.
  - rewrite !length_app, length_take, length_drop. lia.
  - rewrite drop_app_ge by (rewrite length_take; lia). rewrite length_take, Nat.min_l by lia.
    rewrite Nat.sub_diag, drop_0. by rewrite take_app_length.
  - intros off' len Hd. apply list_eq. intros i.
    destruct (Nat.lt_ge_cases i len) as [Hi|Hi]; [| by rewrite !lookup_take_ge].
    rewrite !lookup_take_lt, !lookup_drop by done.
    destruct (Nat.lt_ge_cases (off' + i) off) as [Ho|Ho].
    + rewrite lookup_app_l by (rewrite length_take; lia). by rewrite lookup_take_lt.
    + rewrite lookup_app_r by (rewrite length_take; lia). rewrite length_take, Nat.min_l by lia.
      rewrite lookup_app_r by lia. rewrite lookup_drop. f_equal. lia.
Qed.

(** The state holds the map [m]: slots are distinct, in range and disjoint from
    the free ones, and hold the bytes. *)
Record store_rep (cap bsb : nat) (s : CpuKvOffloadStore) (m : gmap Key (list byte)) : Prop := {
  so_bsb : os_block_size_bytes s = bsb;
  so_cap : os_capacity_blocks s = cap;
  so_len : cap * bsb ≤ length (os_storage s);
  so_count : length (os_free_slots s) + size (os_slots s) = cap;
  so_free : NoDup (os_free_slots s) ∧ ∀ i, i ∈ os_free_slots s → i < cap;
  so_slot : ∀ k i, os_slots s !! k = Some i → i < cap ∧ i ∉ os_free_slots s;
  so_inj : ∀ k k' i, os_slots s !! k = Some i → os_slots s !! k' = Some i → k = k';
  so_data : m = (λ i, take bsb (drop (i * bsb) (os_storage s))) <$> os_slots s;
}.

Lemma slots_disjoint cap bsb i j :
  i ≠ j → i < cap → j < cap → i * bsb + bsb ≤ j * bsb ∨ j * bsb + bsb ≤ i * bsb.
Proof. intros. destruct (Nat.lt_gt_cases i j) as [[?|?] _]; [done | left; nia | right; nia]. Qed.

Lemma put_rep cap bsb s m r b bytes :
  store_rep cap bsb s m →
  ∃ res s', Offload.put s r b bytes = Some (res, s')
    ∧ spec_step cap bsb m (OPut r b bytes) = (RPut res, (spec_step cap bsb m (OPut r b bytes)).2)
    ∧ store_rep cap bsb s' (spec_step cap bsb m (OPut r b bytes)).2.
Proof.
  intros Hrep. pose proof Hrep as [Hb Hc Hl Hn [Hnd Hfr] Hs Hi Hd].
  unfold Offload.put. simpl. rewrite Hb. destruct (Nat.eqb_spec (length bytes) bsb) as [Hlen|Hlen]; simpl.
  2: { rewrite decide_True by done. simpl. eauto. }
  rewrite decide_False by tauto.
  assert (size m = size (os_slots s)) as Hsz by (rewrite Hd; apply map_size_fmap).
  assert (Hw : ∀ i fs, i < cap → NoDup fs → (∀ j, j ∈ fs → j < cap ∧ j ∈ os_free_slots s) → i ∉ fs →
    (∀ k, k ≠ (r, b) → os_slots s !! k ≠ Some i) →
    length fs + size (<[(r, b) := i]> (os_slots s)) = cap →
    ∃ s', (storage ← write_at (os_storage s) (i * bsb) bytes;
           Some (Ok () : result unit OffloadError, mkStore bsb (os_capacity_blocks s) fs (<[(r, b) := i]> (os_slots s)) storage))
          = Some (Ok (), s') ∧ store_rep cap bsb s' (<[(r, b) := bytes]> m)).
  { intros i fs Hicap Hndf Hfs Hif Huniq Hcount.
    destruct (write_at_Some (os_storage s) (i * bsb) bytes) as (st & -> & Hst & Hread & Hother); [nia |].
    simpl. eexists. split; [done |]. split; simpl; [done | done | lia | done | | | |].
    - split; [done |]. intros j Hj. by apply Hfs.
    - intros k j. destruct (decide (k = (r, b))) as [->|Hk].
      + rewrite lookup_insert_eq. intros [= <-]. done.
      + rewrite lookup_insert_ne by done. intros Hj. destruct (Hs k j Hj) as [? Hnf]. split; [done |].
        intros Hjf. by apply Hfs in Hjf as [_ ?].
    - intros k k' j. destruct (decide (k = (r, b))) as [->|Hk], (decide (k' = (r, b))) as [->|Hk']; [done | | |];
        rewrite ?lookup_insert_eq, ?lookup_insert_ne by done.
      + intros [= <-] Hk2. by destruct (Huniq k' Hk').
      + intros Hk2 [= <-]. by destruct (Huniq k Hk).
      + apply Hi.
    - rewrite Hd, fmap_insert. apply map_eq. intros k. destruct (decide (k = (r, b))) as [->|Hk].
      + rewrite !lookup_insert_eq. rewrite Hlen in Hread. by rewrite Hread.
      + rewrite !lookup_insert_ne, !lookup_fmap by done. destruct (os_slots s !! k) as [j|] eqn:Ek; [| done].
        simpl. f_equal. symmetry. apply Hother. rewrite Hlen. destruct (Hs k j Ek) as [Hj _].
        assert (j ≠ i) as Hji by (intros ->; by destruct (Huniq k Hk)).
        destruct (slots_disjoint cap bsb j i Hji Hj Hicap); [by left | by right]. }
  destruct (os_slots s !! (r, b)) as [i|] eqn:Ek.
  - destruct (Hs _ _ Ek) as [Hicap Hif].
    rewrite decide_False by (rewrite Hd, lookup_fmap, Ek; naive_solver).
    destruct (Hw i (os_free_slots s)) as (s' & -> & Hrep'); [done | done | auto | done | | |].
    + intros k Hk Hk2. apply Hk. by apply (Hi _ _ i).
    + rewrite map_size_insert, Ek. done.
    + eauto.
  - destruct (os_free_slots s) as [|i fs _] eqn:Ef using rev_ind.
    + simpl. rewrite decide_True by (rewrite Hd, lookup_fmap, Ek; simpl in Hn; split; [done | by rewrite map_size_fmap]).
      simpl. eauto.
    + rewrite vec_pop_snoc. rewrite length_app in Hn. simpl in Hn.
      rewrite decide_False by (rewrite Hsz; lia).
      apply NoDup_app in Hnd as (Hndf & Hdis & _).
      destruct (Hw i fs) as (s' & -> & Hrep'); [apply Hfr; set_solver | done | | | | |].
      * intros j Hj. split; [apply Hfr; set_solver | set_solver].
      * intros Hif. apply (Hdis i Hif). by left.
      * intros k _ Hk. apply Hs in Hk as [_ Hk]. set_solver.
      * rewrite map_size_insert, Ek. lia.
      * eauto.
Qed.

Lemma get_rep cap bsb s m r b :
  store_rep cap bsb s m → Offload.get s r b = Some (m !! (r, b)).
Proof.
  intros [Hb Hc Hl Hn _ Hs _ Hd]. unfold Offload.get.
  assert (m !! (r, b) = (λ i, take bsb (drop (i * bsb) (os_storage s))) <$> os_slots s !! (r, b)) as ->.
  { rewrite Hd. apply lookup_fmap. }
  destruct (os_slots s !! (r, b)) as [i|] eqn:Ek; [| done]. destruct (Hs _ _ Ek) as [Hi _].
  unfold read_at. rewrite Hb, (proj2 (Nat.leb_le _ _)) by nia. done.
Qed.

Lemma remove_rep_store cap bsb s m r b :
  store_rep cap bsb s m →
  (Offload.remove s r b).1 = bool_decide (is_Some (m !! (r, b)))
  ∧ store_rep cap bsb (Offload.remove s r b).2 (delete (r, b) m).
Proof.
  intros Hrep. pose proof Hrep as [Hb Hc Hl Hn [Hnd Hfr] Hs Hi Hd]. unfold Offload.remove.
  assert (m !! (r, b) = (λ i, take bsb (drop (i * bsb) (os_storage s))) <$> os_slots s !! (r, b)) as Hm.
  { rewrite Hd. apply lookup_fmap. }
  rewrite Hm. destruct (os_slots s !! (r, b)) as [i|] eqn:Ek; simpl.
  - destruct (Hs _ _ Ek) as [Hicap Hif].
    split; [done |]. split; simpl; [done | done | done | | | | |].
    + rewrite length_app, map_size_delete, Ek. simpl.
      assert (size (os_slots s) ≠ 0) as Hne by (apply map_size_ne_0_lookup_2 with (r, b); eauto). lia.
    + split; [apply NoDup_app; split_and!; [done | set_solver | apply NoDup_singleton] | set_solver].
    + intros k j Hk. apply lookup_delete_Some in Hk as [Hne Hk]. destruct (Hs k j Hk) as [? Hjf].
      split; [done |]. rewrite elem_of_app, list_elem_of_singleton. intros [?| ->]; [done |].
      apply Hne. by apply (Hi _ _ i).
    + intros k k' j Hk Hk'. apply lookup_delete_Some in Hk as [_ Hk], Hk' as [_ Hk']. by apply (Hi _ _ j).
    + by rewrite Hd, fmap_delete.
  - split; [done |]. by rewrite delete_id by (by rewrite Hm).
Qed.

Lemma store_step_rep cap bsb s m op :
  store_rep cap bsb s m →
  ∃ s', store_step s op = Some ((spec_step cap bsb m op).1, s')
    ∧ store_rep cap bsb s' (spec_step cap bsb m op).2.
Proof.
  intros Hrep. destruct op as [r b bytes | r b | r b |]; unfold store_step.
  - destruct (put_rep cap bsb s m r b bytes Hrep) as (res & s' & -> & -> & Hrep'). simpl. eauto.
  - rewrite (get_rep cap bsb s m r b Hrep). simpl. eauto.
  - destruct (remove_rep_store cap bsb s m r b Hrep) as [Hf Hrep'].
    destruct (Offload.remove s r b) as [found s']. simpl in *. subst. eauto.
  - exists s. split; [| done]. simpl. f_equal. f_equal. f_equal. unfold Offload.usage.
    destruct Hrep as [_ Hc _ Hn _ _ _ Hd].
    assert (size m = size (os_slots s)) as -> by (rewrite Hd; apply map_size_fmap).
    rewrite Hc. f_equal. lia.
Qed.

(** C33. The offload store is a map of at most [capacity_blocks] blocks: any
    sequence of puts, gets, removes and usage queries on a new store never
    touches memory outside the buffer and answers as the bounded map does (a get
    returns the bytes last put under the key, a put fails exactly on a wrong size
    or on a new key when full, used and free blocks add up to the capacity). *)
Theorem offload_refines_map cap bsb ops s (Hnew : Offload.new cap bsb = Some s) :
  store_run s ops = Some (spec_run cap bsb ∅ ops).
Proof.
  assert (store_rep cap bsb s ∅) as Hrep.
  { unfold Offload.new, pinned_alloc in Hnew.
    destruct (_ <=? _)%N; simpl in Hnew; [| done]. injection Hnew as <-.
    split; simpl; try done.
    - rewrite length_replicate. lia.
    - rewrite length_reverse, length_seq, map_size_empty. lia.
    - split; [rewrite reverse_Permutation; apply NoDup_seq |]. intros i. rewrite elem_of_reverse, elem_of_seq. lia. }
  clear Hnew. revert s Hrep. generalize (∅ : gmap Key (list byte)).
  induction ops as [|op ops IH]; intros m s Hrep; [done |].
  destruct (store_step_rep cap bsb s m op Hrep) as (s' & E & Hrep').
  cbn [store_run spec_run]. rewrite E. simpl. rewrite (IH _ s' Hrep'). simpl.
  by destruct (spec_step cap bsb m op).
Qed.

Definition two_slots : CpuKvOffloadStore :=
  default (mkStore 0 0 [] ∅ []) (Offload.new 2 2).

Lemma offload_refines_map_witness :
  let a := [Init.Byte.x01; Init.Byte.x02] in let b := [Init.Byte.x03; Init.Byte.x04] in
  store_run two_slots [OPut 1 5 a; OPut 1 6 b; OPut 2 5 a; OPut 1 5 b; OGet 1 5; ORemove 1 6; OUsage]
  = Some [RPut (Ok ()); RPut (Ok ()); RPut (Err StoreFull); RPut (Ok ()); RGet (Some b);
          RRemove true; RUsage (mkOffloadUsage 2 1 1)].
Proof.
  cbn zeta. rewrite (offload_refines_map 2 2 _ two_slots) by reflexivity. reflexivity.
Defined.
