(* ===== verification/Policy.v ===== *)
(** * The request queue (rllm-scheduler/src/policy.rs)

    An [IndexMap] is the list of its entries, keys distinct: inserting a present
    key replaces its value in place, [shift_remove] keeps the order.  An
    [Instant] is a tick count. *)
From S2P Require Import Prelude CoreTypes.

Record QueueEntry : Type := mkQueueEntry {
  qe_priority : Z;
  qe_arrival_time : N;
}.

(** ** IndexMap *)
Fixpoint im_insert {V} (k : RequestId) (v : V) (l : list (RequestId * V)) : list (RequestId * V) :=
  match l with
  | [] => [(k, v)]
  | (k', v') :: l => if decide (k = k') then (k, v) :: l else (k', v') :: im_insert k v l
  end.

Fixpoint im_get {V} (k : RequestId) (l : list (RequestId * V)) : option V :=
  match l with
  | [] => None
  | (k', v) :: l => if decide (k = k') then Some v else im_get k l
  end.

Definition im_shift_remove {V} (k : RequestId) (l : list (RequestId * V)) : list (RequestId * V) :=
  filter (λ kv, kv.1 ≠ k) l.

Record RequestQueue : Type := mkQueue {
  entries : list (RequestId * QueueEntry);
  policy : SchedulingPolicy;
}.

(** The comparison of [sort_by_priority]: [a] does not come after [b]. *)
Definition entry_le (a b : RequestId * QueueEntry) : bool :=
  (qe_priority b.2 <? qe_priority a.2)%Z
  || (qe_priority b.2 =? qe_priority a.2)%Z && (qe_arrival_time a.2 <=? qe_arrival_time b.2)%N.

(** [sort_by] is a stable sort; insertion from the back is one. *)
Fixpoint insert_sorted (a : RequestId * QueueEntry) (l : list (RequestId * QueueEntry)) :
    list (RequestId * QueueEntry) :=
  match l with
  | [] => [a]
  | b :: l => if entry_le a b then a :: b :: l else b :: insert_sorted a l
  end.

Definition sort_entries (l : list (RequestId * QueueEntry)) : list (RequestId * QueueEntry) :=
  foldr insert_sorted [] l.

Module Queue.

Definition new (p : SchedulingPolicy) : RequestQueue := mkQueue [] p.

Definition sort_by_priority (q : RequestQueue) : RequestQueue :=
  mkQueue (sort_entries (entries q)) (policy q).

Definition push (q : RequestQueue) (request_id : RequestId) (priority : Z) (arrival_time : N) : RequestQueue :=
  let entry := mkQueueEntry priority arrival_time in
  let q' := mkQueue (im_insert request_id entry (entries q)) (policy q) in
  match policy q with
  | FCFS => q'
  | Priority => sort_by_priority q'
  end.

Definition pop (q : RequestQueue) : option RequestId * RequestQueue :=
  match entries q with
  | [] => (None, q)
  | (id, _) :: l => (Some id, mkQueue l (policy q))
  end.

Definition peek (q : RequestQueue) : option RequestId := fst <$> head (entries q).

Definition remove (q : RequestQueue) (request_id : RequestId) : bool * RequestQueue :=
  (match im_get request_id (entries q) with Some _ => true | None => false end,
   mkQueue (im_shift_remove request_id (entries q)) (policy q)).

Definition pop_request (q : RequestQueue) (request_id : RequestId) : option RequestId * RequestQueue :=
  ((λ _, request_id) <$> im_get request_id (entries q),
   mkQueue (im_shift_remove request_id (entries q)) (policy q)).

Definition len (q : RequestQueue) : nat := length (entries q).
Definition is_empty (q : RequestQueue) : bool := match entries q with [] => true | _ => false end.
Definition iter (q : RequestQueue) : list RequestId := (entries q).*1.
Definition contains (q : RequestQueue) (request_id : RequestId) : bool :=
  match im_get request_id (entries q) with Some _ => true | None => false end.
Definition priority_of (q : RequestQueue) (request_id : RequestId) : option Z :=
  qe_priority <$> im_get request_id (entries q).

End Queue.

#[global] Arguments Queue.push : simpl never.
#[global] Arguments Queue.remove : simpl never.
#[global] Arguments Queue.pop_request : simpl never.

(** ** Helper lemmas *)
Lemma im_insert_keys {V} k (v : V) l :
  (im_insert k v l).*1 = if decide (k ∈ l.*1) then l.*1 else l.*1 ++ [k].
Proof.
  induction l as [|[k' v'] l IH]; [done |]. cbn [im_insert]. destruct (decide (k = k')) as [<-|Hne].
  - by rewrite decide_True by (by left).
  - rewrite !fmap_cons, IH. cbn [fst]. destruct (decide (k ∈ l.*1)) as [Hin|Hin].
    + by rewrite decide_True by (by right).
    + by rewrite decide_False by (by intros [?|?]%elem_of_cons).
Qed.

Lemma im_shift_remove_keys {V} k (l : list (RequestId * V)) :
  (im_shift_remove k l).*1 = filter (λ k', k' ≠ k) l.*1.
Proof.
  unfold im_shift_remove. induction l as [|[k' v] l IH]; [done |].
  rewrite fmap_cons, !filter_cons. cbn [fst]. destruct (decide (k' ≠ k)); rewrite ?fmap_cons, IH; done.
Qed.

Lemma im_get_elem {V} k (l : list (RequestId * V)) : is_Some (im_get k l) ↔ k ∈ l.*1.
Proof.
  induction l as [|[k' v] l IH]; simpl; [split; [by intros [? ?] | by intros ?%not_elem_of_nil] |].
  rewrite elem_of_cons. case_decide; naive_solver.
Qed.

Lemma insert_sorted_perm a l : insert_sorted a l ≡ₚ a :: l.
Proof.
  induction l as [|b l IH]; simpl; [done |]. destruct (entry_le a b); [done |].
  rewrite IH. apply Permutation_swap.
Qed.

Lemma sort_entries_perm l : sort_entries l ≡ₚ l.
Proof. induction l as [|a l IH]; simpl; [done |]. by rewrite insert_sorted_perm, IH. Qed.

Lemma entry_le_total a b : entry_le a b = false → entry_le b a = true.
Proof.
  unfold entry_le. destruct (Z.ltb_spec (qe_priority b.2) (qe_priority a.2)), (Z.ltb_spec (qe_priority a.2) (qe_priority b.2)),
    (Z.eqb_spec (qe_priority b.2) (qe_priority a.2)), (Z.eqb_spec (qe_priority a.2) (qe_priority b.2)),
    (N.leb_spec (qe_arrival_time a.2) (qe_arrival_time b.2)), (N.leb_spec (qe_arrival_time b.2) (qe_arrival_time a.2));
    simpl; intros; try done; lia.
Qed.

Lemma entry_le_trans a b c : entry_le a b = true → entry_le b c = true → entry_le a c = true.
Proof.
  unfold entry_le. rewrite !orb_true_iff, !andb_true_iff, !Z.ltb_lt, !Z.eqb_eq, !N.leb_le. lia.
Qed.

Definition sorted_entries (l : list (RequestId * QueueEntry)) : Prop :=
  StronglySorted (λ a b, entry_le a b = true) l.

Lemma insert_sorted_sorted a l : sorted_entries l → sorted_entries (insert_sorted a l).
Proof.
  unfold sorted_entries. induction l as [|b l IH]; simpl; intros Hs; [by repeat constructor |].
  apply StronglySorted_inv in Hs as [Hs Hb]. destruct (entry_le a b) eqn:E.
  - constructor; [by constructor |]. constructor; [done |].
    eapply Forall_impl; [exact Hb |]. intros c Hc. by apply (entry_le_trans a b c).
  - constructor; [by apply IH |]. rewrite insert_sorted_perm. constructor; [by apply entry_le_total | done].
Qed.

Lemma sort_entries_sorted l : sorted_entries (sort_entries l).
Proof. induction l as [|a l IH]; simpl; [constructor | by apply insert_sorted_sorted]. Qed.

(** Sorting keeps a sorted list: among equal keys the order is kept. *)
Lemma sort_entries_id l : sorted_entries l → sort_entries l = l.
Proof.
  unfold sorted_entries. induction l as [|a l IH]; simpl; [done |]. intros [Hs Ha]%StronglySorted_inv.
  rewrite IH by done. destruct l as [|b l]; [done |]. simpl. apply Forall_cons in Ha as [-> _]. done.
Qed.

Lemma push_keys q id p t :
  Queue.iter (Queue.push q id p t) ≡ₚ
    if decide (id ∈ Queue.iter q) then Queue.iter q else Queue.iter q ++ [id].
Proof.
  unfold Queue.iter, Queue.push. destruct (policy q); simpl.
  - by rewrite im_insert_keys.
  - by rewrite sort_entries_perm, im_insert_keys.
Qed.

Lemma push_new_keys q id p t :
  id ∉ Queue.iter q → Queue.iter (Queue.push q id p t) ≡ₚ id :: Queue.iter q.
Proof. intros Hid. rewrite push_keys, decide_False by done. by rewrite (Permutation_app_comm _ [id]). Qed.

Lemma remove_keys q id :
  Queue.iter (Queue.remove q id).2 = filter (λ k, k ≠ id) (Queue.iter q).
Proof. apply im_shift_remove_keys. Qed.

Lemma pop_request_keys q id :
  Queue.iter (Queue.pop_request q id).2 = filter (λ k, k ≠ id) (Queue.iter q).
Proof. apply im_shift_remove_keys. Qed.

Lemma peek_iter q : Queue.peek q = head (Queue.iter q).
Proof. unfold Queue.peek, Queue.iter. by destruct (entries q). Qed.

Lemma len_iter q : Queue.len q = length (Queue.iter q).
Proof. unfold Queue.len, Queue.iter. by rewrite length_fmap. Qed.

Lemma is_empty_iter q : Queue.is_empty q = bool_decide (Queue.iter q = []).
Proof. unfold Queue.is_empty, Queue.iter. by destruct (entries q). Qed.

(** ** Properties *)
Inductive queue_reach (p : SchedulingPolicy) : RequestQueue → Prop :=
  | qr_new : queue_reach p (Queue.new p)
  | qr_push q id pr t : queue_reach p q → queue_reach p (Queue.push q id pr t)
  | qr_pop q : queue_reach p q → queue_reach p (Queue.pop q).2
  | qr_remove q id : queue_reach p q → queue_reach p (Queue.remove q id).2
  | qr_pop_request q id : queue_reach p q → queue_reach p (Queue.pop_request q id).2.

Definition queue_ok (q : RequestQueue) : Prop :=
  NoDup (Queue.iter q) ∧ (policy q = Priority → sorted_entries (entries q)).

Lemma sorted_filter (P : RequestId * QueueEntry → Prop) `{!∀ x, Decision (P x)} l :
  sorted_entries l → sorted_entries (filter P l).
Proof.
  unfold sorted_entries. induction 1 as [|a l Hs IH Ha]; [constructor |].
  rewrite filter_cons. case_decide; [| done]. constructor; [done |].
  rewrite Forall_forall in *. intros b [_ Hb]%list_elem_of_filter. by apply Ha.
Qed.

Lemma queue_reach_ok p q : queue_reach p q → policy q = p ∧ queue_ok q.
Proof.
  assert (Hrem : ∀ q id, queue_ok q → queue_ok (mkQueue (im_shift_remove id (entries q)) (policy q))).
  { intros q' id [Hnd Hs]. split; [| intros Hp; by apply sorted_filter, Hs].
    unfold Queue.iter. simpl. rewrite im_shift_remove_keys. by apply NoDup_filter. }
  induction 1 as [|q id pr t _ [Hp [Hnd Hs]] | q _ [Hp [Hnd Hs]] | q id _ [Hp Hok] | q id _ [Hp Hok]].
  - repeat split; [apply NoDup_nil_2 | constructor].
  - assert (policy (Queue.push q id pr t) = p) as Hpol by (unfold Queue.push; by destruct (policy q)).
    split_and!; [done | split].
    + rewrite push_keys. case_decide as Hin; [done |]. rewrite (Permutation_app_comm _ [id]). by constructor.
    + rewrite Hpol. intros ->. unfold Queue.push. rewrite Hp. apply sort_entries_sorted.
  - unfold Queue.pop. destruct (entries q) as [|[id e] l] eqn:E; simpl; [split; [done | split; [done | by rewrite E]] |].
    unfold queue_ok, Queue.iter in *. rewrite E in Hnd. simpl in *. apply NoDup_cons in Hnd as [_ Hnd].
    split_and!; [done | done |]. intros Hq. by apply StronglySorted_inv, proj1 in Hs.
  - split; [done | by apply Hrem].
  - split; [done | by apply Hrem].
Qed.

(** Where a stable sort puts an entry appended to a sorted list. *)
Lemma sort_snoc_position l e :
  sorted_entries l →
  ∃ l1 l2, l = l1 ++ l2 ∧ sort_entries (l ++ [e]) = l1 ++ e :: l2
    ∧ Forall (λ x, entry_le x e = true) l1 ∧ Forall (λ x, entry_le x e = false) l2.
Proof.
  unfold sorted_entries. induction l as [|a l IH]; intros Hs.
  - exists [], []. by split_and!.
  - apply StronglySorted_inv in Hs as [Hs Ha]. destruct (IH Hs) as (l1 & l2 & -> & E & H1 & H2).
    cbn [sort_entries app foldr] in *. fold (sort_entries ((l1 ++ l2) ++ [e])) in *. rewrite E.
    destruct l1 as [|b l1].
    + simpl. destruct (entry_le a e) eqn:Eae.
      * exists [a], l2. split_and!; [done | done | by constructor | done].
      * exists [], (a :: l2). split_and!; [done | | constructor | by constructor]. simpl. f_equal.
        destruct l2 as [|c l2]; [done |]. simpl. apply Forall_cons in Ha as [-> _]. done.
    + exists (a :: b :: l1), l2. apply Forall_cons in H1 as [Hb H1].
      apply Forall_cons in Ha as [Hab _]. simpl. rewrite Hab.
      split_and!; [done | done | | done]. repeat constructor; [by apply (entry_le_trans a b e) | done | done].
Qed.

Lemma im_insert_new {V} k (v : V) l : k ∉ l.*1 → im_insert k v l = l ++ [(k, v)].
Proof.
  induction l as [|[k' v'] l IH]; intros Hk; [done |]. cbn [im_insert]. rewrite fmap_cons in Hk.
  apply not_elem_of_cons in Hk as [Hne Hk]. rewrite decide_False by done. by rewrite IH.
Qed.

(** The queue discipline: under FCFS a new request goes to the back; under
    Priority the queue is sorted by priority (highest first) and arrival, a new
    request goes behind every entry that does not come after it, and the request
    [peek] and [pop] give has no entry of higher priority, nor an earlier one of
    its priority, in the queue. *)
Theorem queue_discipline p q id pr t (Hq : queue_reach p q) (Hid : id ∉ Queue.iter q) :
  let e := (id, mkQueueEntry pr t) in
  NoDup (Queue.iter q)
  ∧ (Queue.pop q).1 = Queue.peek q
  ∧ match p with
    | FCFS => entries (Queue.push q id pr t) = entries q ++ [e]
    | Priority =>
        (∃ l1 l2, entries q = l1 ++ l2 ∧ entries (Queue.push q id pr t) = l1 ++ e :: l2
           ∧ Forall (λ x, entry_le x e = true) l1 ∧ Forall (λ x, entry_le x e = false) l2)
        ∧ (∀ first x, head (entries q) = Some first → x ∈ entries q →
             (qe_priority x.2 <= qe_priority first.2)%Z
             ∧ (qe_priority x.2 = qe_priority first.2 → (qe_arrival_time first.2 <= qe_arrival_time x.2)%N))
    end.
Proof.
  cbn zeta. destruct (queue_reach_ok p q Hq) as [Hp [Hnd Hs]]. split_and!; [done | |].
  { unfold Queue.pop, Queue.peek. by destruct (entries q) as [|[??]?]. }
  unfold Queue.push. rewrite Hp. destruct p; simpl.
  - by apply im_insert_new.
  - specialize (Hs Hp). split.
    + rewrite im_insert_new by done. by apply sort_snoc_position.
    + intros first x Hf Hx. destruct (entries q) as [|f l]; simplify_eq/=.
      apply StronglySorted_inv in Hs as [_ Ha]. apply elem_of_cons in Hx as [->|Hx]; [lia |].
      rewrite Forall_forall in Ha. specialize (Ha x Hx). unfold entry_le in Ha.
      rewrite orb_true_iff, andb_true_iff, Z.ltb_lt, Z.eqb_eq, N.leb_le in Ha. lia.
Qed.

Definition three_queued : RequestQueue :=
  Queue.push (Queue.push (Queue.push (Queue.new Priority) 1 0 10) 2 5 20) 3 0 5.

Lemma queue_discipline_witness :
  Queue.iter three_queued = [2; 3; 1]%N
  ∧ ∃ l1 l2, entries three_queued = l1 ++ l2
    ∧ entries (Queue.push three_queued 4 0 5) = l1 ++ (4%N, mkQueueEntry 0 5) :: l2
    ∧ length l1 = 2.
Proof.
  split; [reflexivity |].
  destruct (queue_discipline Priority three_queued 4 0 5) as (_ & _ & (l1 & l2 & E1 & E2 & H1 & H2) & _).
  - repeat constructor.
  - apply (bool_decide_unpack _). vm_compute. exact I.
  - exists l1, l2. split_and!; [done | done |].
    destruct l1 as [|a [|b [|c l1]]]; [| | done |]; exfalso.
    + simpl in E1. subst l2. apply Forall_inv in H2. discriminate H2.
    + injection E1 as <- <-. apply Forall_inv in H2. discriminate H2.
    + injection E1 as <- <- <- _. apply Forall_inv_tail, Forall_inv_tail, Forall_inv in H1. discriminate H1.
Defined.
