(* ===== verification/Scheduler.v ===== *)
(** * The continuous-batching scheduler (rllm-scheduler/src/{scheduler,output}.rs)

    Waiting and running requests, KV block allocation, prefix-cache-aware
    admission, preemption, and the per-step output.  Every handler is in the
    panic monad.  [requests] is a [HashMap], so the order in which
    [process_finished] meets its keys is an argument of [step].  Metrics, logs
    and timers are left out.

    [core_inv] is the invariant over the parts of the state the handlers change. *)
From S2P Require Import Prelude F32 CoreTypes Request FreeQueue BlockPool KVSpec Prefix CacheManager Policy.

Section scheduler.
Context {Value : Type}.

Record SchedulerRequest : Type := mkSchedulerRequest {
  sr_request : InferenceRequest Value;
  sr_prompt_token_ids : list TokenId;
  sr_num_computed_tokens : nat;
  sr_cached_block_ids : list BlockId;
  sr_status : RequestStatus;
}.

Record SchedulerStats : Type := mkStats {
  st_num_waiting : nat;
  st_num_running : nat;
  st_num_finished : nat;
  st_total_preemptions : nat;
  st_prefill_tokens : nat;
  st_decode_tokens : nat;
}.

Record SchedulerOutput : Type := mkOutput {
  scheduled_new : list RequestId;
  scheduled_cached : list RequestId;
  scheduled_running : list RequestId;
  num_scheduled_tokens : gmap RequestId nat;
  block_tables : gmap RequestId (list BlockId);
  token_budget_used : nat;
  preempted : list RequestId;
  finished_ids : list RequestId;
  stats : SchedulerStats;
}.

Definition stats_default : SchedulerStats := mkStats 0 0 0 0 0 0.
Definition output_empty : SchedulerOutput := mkOutput [] [] [] ∅ ∅ 0 [] [] stats_default.
Definition num_scheduled (o : SchedulerOutput) : nat :=
  length (scheduled_new o) + length (scheduled_cached o) + length (scheduled_running o).

Record PrefixCacheAdmission : Type := mkAdmission {
  pa_request_id : option RequestId;
  pa_cached_tokens : nat;
}.

Record Scheduler : Type := mkScheduler {
  s_config : SchedulerConfig;
  s_block_size : nat;
  s_max_model_len : nat;
  s_enable_prefix_caching : bool;
  s_requests : gmap RequestId SchedulerRequest;
  s_waiting : RequestQueue;
  s_running : list RequestId;
  s_finished : gset RequestId;
  s_kv : KVCacheManager;
  s_total_preemptions : nat;
  s_prefix_cache_lookups : nat;
  s_prefix_cache_hits : nat;
  s_paused : bool;
  s_prefix_cache_admission : PrefixCacheAdmission;
}.

(** *** Field updates *)
Definition with_requests (r : gmap RequestId SchedulerRequest) (s : Scheduler) : Scheduler :=
  mkScheduler (s_config s) (s_block_size s) (s_max_model_len s) (s_enable_prefix_caching s)
    r (s_waiting s) (s_running s) (s_finished s) (s_kv s) (s_total_preemptions s)
    (s_prefix_cache_lookups s) (s_prefix_cache_hits s) (s_paused s) (s_prefix_cache_admission s).
Definition with_waiting (w : RequestQueue) (s : Scheduler) : Scheduler :=
  mkScheduler (s_config s) (s_block_size s) (s_max_model_len s) (s_enable_prefix_caching s)
    (s_requests s) w (s_running s) (s_finished s) (s_kv s) (s_total_preemptions s)
    (s_prefix_cache_lookups s) (s_prefix_cache_hits s) (s_paused s) (s_prefix_cache_admission s).
Definition with_running (r : list RequestId) (s : Scheduler) : Scheduler :=
  mkScheduler (s_config s) (s_block_size s) (s_max_model_len s) (s_enable_prefix_caching s)
    (s_requests s) (s_waiting s) r (s_finished s) (s_kv s) (s_total_preemptions s)
    (s_prefix_cache_lookups s) (s_prefix_cache_hits s) (s_paused s) (s_prefix_cache_admission s).
Definition with_finished (f : gset RequestId) (s : Scheduler) : Scheduler :=
  mkScheduler (s_config s) (s_block_size s) (s_max_model_len s) (s_enable_prefix_caching s)
    (s_requests s) (s_waiting s) (s_running s) f (s_kv s) (s_total_preemptions s)
    (s_prefix_cache_lookups s) (s_prefix_cache_hits s) (s_paused s) (s_prefix_cache_admission s).
Definition with_kv (k : KVCacheManager) (s : Scheduler) : Scheduler :=
  mkScheduler (s_config s) (s_block_size s) (s_max_model_len s) (s_enable_prefix_caching s)
    (s_requests s) (s_waiting s) (s_running s) (s_finished s) k (s_total_preemptions s)
    (s_prefix_cache_lookups s) (s_prefix_cache_hits s) (s_paused s) (s_prefix_cache_admission s).
Definition with_preemptions (n : nat) (s : Scheduler) : Scheduler :=
  mkScheduler (s_config s) (s_block_size s) (s_max_model_len s) (s_enable_prefix_caching s)
    (s_requests s) (s_waiting s) (s_running s) (s_finished s) (s_kv s) n
    (s_prefix_cache_lookups s) (s_prefix_cache_hits s) (s_paused s) (s_prefix_cache_admission s).
Definition with_lookups (l h : nat) (s : Scheduler) : Scheduler :=
  mkScheduler (s_config s) (s_block_size s) (s_max_model_len s) (s_enable_prefix_caching s)
    (s_requests s) (s_waiting s) (s_running s) (s_finished s) (s_kv s) (s_total_preemptions s)
    l h (s_paused s) (s_prefix_cache_admission s).
Definition with_paused (p : bool) (s : Scheduler) : Scheduler :=
  mkScheduler (s_config s) (s_block_size s) (s_max_model_len s) (s_enable_prefix_caching s)
    (s_requests s) (s_waiting s) (s_running s) (s_finished s) (s_kv s) (s_total_preemptions s)
    (s_prefix_cache_lookups s) (s_prefix_cache_hits s) p (s_prefix_cache_admission s).
Definition with_admission (a : PrefixCacheAdmission) (s : Scheduler) : Scheduler :=
  mkScheduler (s_config s) (s_block_size s) (s_max_model_len s) (s_enable_prefix_caching s)
    (s_requests s) (s_waiting s) (s_running s) (s_finished s) (s_kv s) (s_total_preemptions s)
    (s_prefix_cache_lookups s) (s_prefix_cache_hits s) (s_paused s) a.

Definition sr_set_status (st : RequestStatus) (r : SchedulerRequest) : SchedulerRequest :=
  mkSchedulerRequest (sr_request r) (sr_prompt_token_ids r) (sr_num_computed_tokens r)
    (sr_cached_block_ids r) st.
Definition sr_set_computed (n : nat) (r : SchedulerRequest) : SchedulerRequest :=
  mkSchedulerRequest (sr_request r) (sr_prompt_token_ids r) n (sr_cached_block_ids r) (sr_status r).
Definition sr_set_cached (l : list BlockId) (r : SchedulerRequest) : SchedulerRequest :=
  mkSchedulerRequest (sr_request r) (sr_prompt_token_ids r) (sr_num_computed_tokens r) l (sr_status r).

(** [if let Some(r) = self.requests.get_mut(&id)] *)
Definition update_request (id : RequestId) (f : SchedulerRequest → SchedulerRequest) (s : Scheduler) : Scheduler :=
  with_requests (alter f id (s_requests s)) s.

Definition num_tokens (r : SchedulerRequest) : nat := length (sr_prompt_token_ids r).
Definition num_remaining_tokens (r : SchedulerRequest) : nat := num_tokens r - sr_num_computed_tokens r.
Definition needs_prefill (r : SchedulerRequest) : bool :=
  sr_num_computed_tokens r <? length (sr_prompt_token_ids r).

(** *** Construction *)
Definition with_kv_cache_manager (config : SchedulerConfig) (block_size max_model_len : nat)
    (enable_prefix_caching : bool) (kv : KVCacheManager) : Scheduler :=
  mkScheduler config block_size max_model_len enable_prefix_caching ∅
    (Queue.new (scheduling_policy config)) [] ∅ kv 0 0 0 false (mkAdmission None 0).

Definition scheduler_new (config : SchedulerConfig) (cache_config : CacheConfig)
    (num_cache_blocks max_model_len : nat) : option Scheduler :=
  let kv_cache_config :=
    mkKVCacheConfig num_cache_blocks
      (mkKVCacheSpec (cc_block_size cache_config) 1 1 1 DT_F16 (cc_sliding_window cache_config)) in
  kv ← KVCacheManager.new kv_cache_config (cc_enable_prefix_caching cache_config)
         (cc_prefix_hash_algorithm cache_config);
  Some (with_kv_cache_manager config (cc_block_size cache_config) max_model_len
          (cc_enable_prefix_caching cache_config) kv).

(** *** Requests *)
Definition add_request (s : Scheduler) (request : InferenceRequest Value) : Scheduler :=
  let request_id := request_id request in
  let sched_req := mkSchedulerRequest request (default [] (token_ids request)) 0 [] Waiting in
  let s := with_requests (<[request_id := sched_req]> (s_requests s)) s in
  with_waiting (Queue.push (s_waiting s) request_id (priority request) (arrival_time request)) s.

Definition retain_not (id : RequestId) (l : list RequestId) : list RequestId := filter (λ x, x ≠ id) l.

Definition abort_request (s : Scheduler) (request_id : RequestId) : option Scheduler :=
  let s := with_waiting (Queue.remove (s_waiting s) request_id).2 s in
  let s := with_running (retain_not request_id (s_running s)) s in
  let s := with_finished (s_finished s ∖ {[request_id]}) s in
  let s := with_requests (delete request_id (s_requests s)) s in
  kv ← KVCacheManager.free (s_kv s) request_id;
  Some (with_kv kv s).

Definition pause (s : Scheduler) : Scheduler := with_paused true s.
Definition resume (s : Scheduler) : Scheduler := with_paused false s.
Definition is_paused (s : Scheduler) : bool := s_paused s.
Definition num_waiting (s : Scheduler) : nat := Queue.len (s_waiting s).
Definition num_running (s : Scheduler) : nat := length (s_running s).
Definition num_active (s : Scheduler) : nat := size (s_requests s).
Definition has_work (s : Scheduler) : bool :=
  negb (Queue.is_empty (s_waiting s)) || negb (bool_decide (s_running s = [])).
Definition scheduler_reset_prefix_cache (s : Scheduler) : result Scheduler KVCacheManager.ResetError :=
  match KVCacheManager.reset_prefix_cache (s_kv s) with
  | Ok kv => Ok (with_kv kv s)
  | Err e => Err e
  end.
Definition last_prefix_cache_admission (s : Scheduler) : option (RequestId * nat) :=
  (λ id, (id, pa_cached_tokens (s_prefix_cache_admission s))) <$> pa_request_id (s_prefix_cache_admission s).

(** *** Finished requests *)
Definition finish_request_internal (s : Scheduler) (request_id : RequestId) : option Scheduler :=
  let s := with_running (retain_not request_id (s_running s)) s in
  let s := with_waiting (Queue.remove (s_waiting s) request_id).2 s in
  kv ← KVCacheManager.free (s_kv s) request_id;
  let s := with_kv kv s in
  Some (with_finished ({[request_id]} ∪ s_finished s) s).

Definition request_finished (s : Scheduler) (id : RequestId) : bool :=
  match s_requests s !! id with Some r => status_is_finished (sr_status r) | None => false end.

Definition push_finished (id : RequestId) (o : SchedulerOutput) : SchedulerOutput :=
  mkOutput (scheduled_new o) (scheduled_cached o) (scheduled_running o) (num_scheduled_tokens o)
    (block_tables o) (token_budget_used o) (preempted o) (finished_ids o ++ [id]) (stats o).

Fixpoint finish_all (s : Scheduler) (o : SchedulerOutput) (ids : list RequestId) :
    option (Scheduler * SchedulerOutput) :=
  match ids with
  | [] => Some (s, o)
  | id :: ids => s ← finish_request_internal s id; finish_all s (push_finished id o) ids
  end.

(** [order] is the iteration order of [requests]. *)
Definition process_finished (order : list RequestId) (s : Scheduler) (o : SchedulerOutput) :
    option (Scheduler * SchedulerOutput) :=
  finish_all s o (filter (λ id, request_finished s id = true) order).

(** *** Running requests *)

(** Draft tokens scheduled with each decode step. *)
Definition spec_k (r : SchedulerRequest) : nat :=
  match speculative_decoding (sampling_params (sr_request r)) with
  | Some c => if sd_enabled c && (0 <? sd_num_speculative_tokens c) then sd_num_speculative_tokens c else 0
  | None => 0
  end.

Inductive DecodeOutcome : Type :=
  | DSkip
  | DPreempt
  | DScheduled (tokens : nat) (table : option (list BlockId)).

(** The body of [schedule_running]'s loop for one request.  Nothing bounds the
    number of draft tokens a request asks for, so the sums may overflow. *)
Definition decode_one (s : Scheduler) (id : RequestId) : option (DecodeOutcome * Scheduler) :=
  match s_requests s !! id with
  | None => Some (DSkip, s)
  | Some req =>
      let current_len := sr_num_computed_tokens req in
      if s_max_model_len s <=? current_len
      then Some (DSkip, update_request id (sr_set_status FinishedLength) s)
      else
        tokens_to_schedule ← add_checked 1 (spec_k req);
        current_blocks ← div_ceil current_len (s_block_size s);
        total_tokens ← add_checked current_len tokens_to_schedule;
        needed_blocks ← div_ceil total_tokens (s_block_size s);
        '(ok, s) ← (if current_blocks <? needed_blocks then
                      '(blocks, kv) ← KVCacheManager.allocate_slots (s_kv s) id total_tokens current_len;
                      Some (match blocks with Some _ => true | None => false end, with_kv kv s)
                    else Some (true, s));
        if ok : bool then
          let s := update_request id (sr_set_computed total_tokens) s in
          Some (DScheduled tokens_to_schedule (KVCacheManager.get_block_ids (s_kv s) id), s)
        else Some (DPreempt, s)
  end.

(** [if let Some(blocks) = ... { output.block_tables.insert(..) }] *)
Definition put_table (id : RequestId) (t : option (list BlockId)) (m : gmap RequestId (list BlockId)) :=
  match t with Some blocks => <[id := blocks]> m | None => m end.

Definition push_running (id : RequestId) (n : nat) (t : option (list BlockId)) (o : SchedulerOutput) :
    SchedulerOutput :=
  mkOutput (scheduled_new o) (scheduled_cached o) (scheduled_running o ++ [id])
    (<[id := n]> (num_scheduled_tokens o)) (put_table id t (block_tables o)) (token_budget_used o)
    (preempted o) (finished_ids o) (stats o).

Record RunningLoop : Type := mkRunningLoop {
  rl_s : Scheduler;
  rl_out : SchedulerOutput;
  rl_budget : nat;
  rl_total : nat;
  rl_preempt : list RequestId;
}.

Fixpoint running_loop (max_budget : nat) (ids : list RequestId) (l : RunningLoop) : option RunningLoop :=
  match ids with
  | [] => Some l
  | id :: ids =>
      if max_budget <=? rl_budget l then Some l
      else
        '(d, s) ← decode_one (rl_s l) id;
        match d with
        | DSkip => running_loop max_budget ids (mkRunningLoop s (rl_out l) (rl_budget l) (rl_total l) (rl_preempt l))
        | DPreempt =>
            running_loop max_budget ids (mkRunningLoop s (rl_out l) (rl_budget l) (rl_total l) (rl_preempt l ++ [id]))
        | DScheduled n t =>
            budget ← add_checked (rl_budget l) n;
            total ← add_checked (rl_total l) n;
            running_loop max_budget ids (mkRunningLoop s (push_running id n t (rl_out l)) budget total (rl_preempt l))
        end
  end.

Definition preempt_request (s : Scheduler) (id : RequestId) : option Scheduler :=
  let s := with_running (retain_not id (s_running s)) s in
  kv ← KVCacheManager.free (s_kv s) id;
  let s := with_kv kv s in
  let s := match s_requests s !! id with
           | Some req =>
               let req := sr_set_status Preempted req in
               let req := sr_set_cached [] (sr_set_computed 0 req) in
               let req := sr_set_status Waiting req in
               with_waiting (Queue.push (s_waiting s) id (priority (sr_request req)) (arrival_time (sr_request req)))
                 (with_requests (<[id := req]> (s_requests s)) s)
           | None => s
           end in
  Some (with_preemptions (s_total_preemptions s + 1) s).

Definition push_preempted (id : RequestId) (o : SchedulerOutput) : SchedulerOutput :=
  mkOutput (scheduled_new o) (scheduled_cached o) (scheduled_running o) (num_scheduled_tokens o)
    (block_tables o) (token_budget_used o) (preempted o ++ [id]) (finished_ids o) (stats o).

Fixpoint preempt_all (s : Scheduler) (o : SchedulerOutput) (ids : list RequestId) :
    option (Scheduler * SchedulerOutput) :=
  match ids with
  | [] => Some (s, o)
  | id :: ids => s ← preempt_request s id; preempt_all s (push_preempted id o) ids
  end.

(** The third component is the budget used, the last the decode tokens. *)
Definition schedule_running (s : Scheduler) (o : SchedulerOutput) (budget_used max_budget : nat) :
    option (Scheduler * SchedulerOutput * nat * nat) :=
  l ← running_loop max_budget (s_running s) (mkRunningLoop s o budget_used 0 []);
  '(s, o) ← preempt_all (rl_s l) (rl_out l) (rl_preempt l);
  Some (s, o, rl_budget l, rl_total l).

(** *** Waiting requests *)
Section waiting.
Context (sha256 : list byte → list byte) (xxh3_64 : list byte → N).

(** Prefix lookup for one request, recorded in its state. *)
Definition probe (s : Scheduler) (id : RequestId) : option (nat * Scheduler) :=
  let prompt_tokens := from_option sr_prompt_token_ids [] (s_requests s !! id) in
  let skip_cache := from_option (λ r, skip_reading_prefix_cache (sampling_params (sr_request r))) false
                      (s_requests s !! id) in
  '(res, kv) ← KVCacheManager.get_computed_blocks sha256 xxh3_64 (s_kv s) id prompt_tokens skip_cache;
  let cached := CacheManager.num_computed_tokens res in
  let s := with_kv kv s in
  let s := with_lookups (s_prefix_cache_lookups s + 1)
             (if 0 <? cached then s_prefix_cache_hits s + 1 else s_prefix_cache_hits s) s in
  Some (cached, update_request id (λ r, sr_set_computed cached (sr_set_cached (cached_block_ids res) r)) s).

Definition cached_ids_empty (s : Scheduler) (id : RequestId) (missing : bool) : bool :=
  from_option (λ r, bool_decide (sr_cached_block_ids r = [])) missing (s_requests s !! id).

Definition computed_of (s : Scheduler) (id : RequestId) : nat :=
  from_option sr_num_computed_tokens 0 (s_requests s !! id).

(** The loop of [select_waiting_request]. *)
Fixpoint select_loop (s : Scheduler) (queued : list RequestId) (best : RequestId) (best_cached : nat) :
    option (Scheduler * RequestId * nat) :=
  match queued with
  | [] => Some (s, best, best_cached)
  | id :: queued =>
      if negb (cached_ids_empty s id false) then
        let cached := computed_of s id in
        if best_cached <? cached then select_loop s queued id cached
        else select_loop s queued best best_cached
      else
        match s_requests s !! id with
        | None => select_loop s queued best best_cached
        | Some _ =>
            '(cached, s) ← probe s id;
            if best_cached <? cached then select_loop s queued id cached
            else select_loop s queued best best_cached
        end
  end.

Definition select_waiting_request (s : Scheduler) : option (option RequestId * Scheduler) :=
  match Queue.peek (s_waiting s) with
  | None => Some (None, s)
  | Some first =>
      let s := with_admission (mkAdmission (Some first) 0) s in
      if negb (s_enable_prefix_caching s) then Some (Some first, s)
      else
        '(s, best, best_cached) ← select_loop s (Queue.iter (s_waiting s)) first (computed_of s first);
        Some (Some best, with_admission (mkAdmission (Some best) best_cached) s)
  end.

Definition push_cached (id : RequestId) (o : SchedulerOutput) : SchedulerOutput :=
  mkOutput (scheduled_new o) (scheduled_cached o ++ [id]) (scheduled_running o) (num_scheduled_tokens o)
    (block_tables o) (token_budget_used o) (preempted o) (finished_ids o) (stats o).

Definition push_new (id : RequestId) (n : nat) (t : option (list BlockId)) (o : SchedulerOutput) :
    SchedulerOutput :=
  mkOutput (scheduled_new o ++ [id]) (scheduled_cached o) (scheduled_running o)
    (<[id := n]> (num_scheduled_tokens o)) (put_table id t (block_tables o)) (token_budget_used o)
    (preempted o) (finished_ids o) (stats o).

(** How many prompt tokens a request gets. *)
Definition prefill_tokens (s : Scheduler) (remaining num_cached available_budget : nat) : nat :=
  let t := Nat.min remaining available_budget in
  let t := if enable_chunked_prefill (s_config s)
           then Nat.min t (long_prefill_token_threshold (s_config s)) else t in
  Nat.min t (s_max_model_len s - num_cached).

Inductive AdmitOutcome : Type :=
  | ABreak
  | ACached (id : RequestId)
  | ANew (id : RequestId) (tokens : nat) (table : option (list BlockId)).

(** The body of [schedule_waiting]'s loop. *)
Definition admit_one (s : Scheduler) (budget_used max_budget : nat) : option (AdmitOutcome * Scheduler) :=
  if max_num_seqs (s_config s) <=? length (s_running s) then Some (ABreak, s)
  else
    '(selected, s) ← select_waiting_request s;
    match selected with
    | None => Some (ABreak, s)
    | Some id =>
        '(num_cached, s) ← (if s_enable_prefix_caching s && cached_ids_empty s id true
                            then probe s id else Some (computed_of s id, s));
        let prompt_len := from_option (λ r, length (sr_prompt_token_ids r)) 0 (s_requests s !! id) in
        let remaining := prompt_len - num_cached in
        if remaining =? 0 then
          let s := with_waiting (Queue.pop_request (s_waiting s) id).2 s in
          let s := update_request id (sr_set_status Running) s in
          Some (ACached id, with_running (s_running s ++ [id]) s)
        else
          let tokens := prefill_tokens s remaining num_cached (max_budget - budget_used) in
          if tokens =? 0 then Some (ABreak, s)
          else
            let total_after := num_cached + tokens in
            '(blocks, kv) ← KVCacheManager.allocate_slots (s_kv s) id total_after num_cached;
            let s := with_kv kv s in
            match blocks with
            | None => Some (ABreak, s)
            | Some _ =>
                let s := with_waiting (Queue.pop_request (s_waiting s) id).2 s in
                let s := update_request id (λ r, sr_set_computed total_after (sr_set_status Running r)) s in
                let s := with_running (s_running s ++ [id]) s in
                let table := KVCacheManager.get_block_ids (s_kv s) id in
                kv ← (if s_enable_prefix_caching s
                      then KVCacheManager.cache_blocks (s_kv s) id total_after
                      else Some (s_kv s));
                Some (ANew id tokens table, with_kv kv s)
            end
    end.

(** [fuel] bounds the iterations; every one that continues takes a request out
    of the waiting queue. *)
Fixpoint waiting_loop (fuel max_budget : nat) (s : Scheduler) (o : SchedulerOutput) (budget total : nat) :
    option (Scheduler * SchedulerOutput * nat * nat) :=
  if Queue.is_empty (s_waiting s) || (max_budget <=? budget) then Some (s, o, budget, total)
  else
    match fuel with
    | 0 => None
    | S fuel =>
        '(a, s) ← admit_one s budget max_budget;
        match a with
        | ABreak => Some (s, o, budget, total)
        | ACached id => waiting_loop fuel max_budget s (push_cached id o) budget total
        | ANew id n t => waiting_loop fuel max_budget s (push_new id n t o) (budget + n) (total + n)
        end
    end.

Definition schedule_waiting (s : Scheduler) (o : SchedulerOutput) (budget_used max_budget : nat) :
    option (Scheduler * SchedulerOutput * nat * nat) :=
  waiting_loop (Queue.len (s_waiting s)) max_budget s o budget_used 0.

(** *** One step *)
Definition build_output (s : Scheduler) (prefill decode : nat) : SchedulerOutput :=
  let o := output_empty in
  mkOutput (scheduled_new o) (scheduled_cached o) (scheduled_running o) (num_scheduled_tokens o)
    (block_tables o) (token_budget_used o) (preempted o) (finished_ids o)
    (mkStats (num_waiting s) (num_running s) 0 (s_total_preemptions s) prefill decode).

Definition finish_output (s : Scheduler) (o : SchedulerOutput) (budget prefill decode : nat) : SchedulerOutput :=
  mkOutput (scheduled_new o) (scheduled_cached o) (scheduled_running o) (num_scheduled_tokens o)
    (block_tables o) budget (preempted o) (finished_ids o)
    (mkStats (num_waiting s) (num_running s) (length (finished_ids o)) (s_total_preemptions s) prefill decode).

Definition step (order : list RequestId) (s : Scheduler) : option (SchedulerOutput * Scheduler) :=
  if s_paused s then Some (build_output s 0 0, s)
  else
    let max_budget := max_num_scheduled_tokens (s_config s) in
    '(s, o) ← process_finished order s output_empty;
    '(s, o, budget, decode) ← schedule_running s o 0 max_budget;
    '(s, o, budget, prefill) ← schedule_waiting s o budget max_budget;
    Some (finish_output s o budget prefill decode, s).
End waiting.

(** ** The invariant *)

(** A waiting request holds exactly its prefix-cache hits. *)
Definition waiting_ok (bs : nat) (kv : KVCacheManager) (id : RequestId) (req : SchedulerRequest) : Prop :=
  sr_status req = Waiting ∧ table kv id = sr_cached_block_ids req
  ∧ sr_num_computed_tokens req = length (sr_cached_block_ids req) * bs
  ∧ computed kv id ≤ sr_num_computed_tokens req.

(** The table of a running request has room for its computed tokens. *)
Definition running_ok (bs : nat) (kv : KVCacheManager) (id : RequestId) (req : SchedulerRequest) : Prop :=
  (sr_status req = Running ∨ sr_status req = FinishedLength)
  ∧ cdiv (sr_num_computed_tokens req) bs ≤ length (table kv id).

Record point_ok (bs : nat) (kv : KVCacheManager) (reqs : gmap RequestId SchedulerRequest)
    (w r : list RequestId) (fin : gset RequestId) (id : RequestId) : Prop := {
  po_disj : id ∈ w → id ∉ r;
  po_dom : id ∈ w ∨ id ∈ r → is_Some (reqs !! id);
  po_live : is_Some (request_blocks kv !! id) → id ∈ w ∨ id ∈ r;
  po_waiting : ∀ req, reqs !! id = Some req → id ∈ w → waiting_ok bs kv id req;
  po_running : ∀ req, reqs !! id = Some req → id ∈ r → running_ok bs kv id req;
  po_done : ∀ req, reqs !! id = Some req → id ∉ w → id ∉ r →
    status_is_finished (sr_status req) = true ∧ id ∈ fin;
  po_fresh : id ∉ w → id ∉ r → computed kv id = 0;
}.

Record core_inv (bs : nat) (kv : KVCacheManager) (reqs : gmap RequestId SchedulerRequest)
    (w r : list RequestId) (fin : gset RequestId) : Prop := {
  co_mgr : ∃ q, manager_rep kv q;
  co_cache : cache_inv kv;
  co_bs : bsize kv = bs;
  co_w : NoDup w;
  co_r : NoDup r;
  co_point : ∀ id, point_ok bs kv reqs w r fin id;
}.

Definition sched_inv (s : Scheduler) : Prop :=
  core_inv (s_block_size s) (s_kv s) (s_requests s) (Queue.iter (s_waiting s)) (s_running s) (s_finished s)
  ∧ length (s_running s) ≤ max_num_seqs (s_config s).

(** ** Cache manager calls change one request *)
Record kv_local (id : RequestId) (kv kv' : KVCacheManager) : Prop := {
  kl_mgr : ∃ q, manager_rep kv' q;
  kl_cache : cache_inv kv';
  kl_bs : bsize kv' = bsize kv;
  kl_other : ∀ id', id' ≠ id →
    request_blocks kv' !! id' = request_blocks kv !! id' ∧ computed kv' id' = computed kv id';
}.

Lemma kv_local_table id kv kv' id' : kv_local id kv kv' → id' ≠ id → table kv' id' = table kv id'.
Proof. intros [_ _ _ H] Hne. unfold table. by rewrite (proj1 (H id' Hne)). Qed.

Section kv_calls.
Context (kv : KVCacheManager) (q : list nat) (Hm : manager_rep kv q) (Hinv : cache_inv kv).

Lemma kv_get sha256 xxh3_64 id tokens skip :
  table kv id = [] → computed kv id = 0 →
  ∃ res kv', KVCacheManager.get_computed_blocks sha256 xxh3_64 kv id tokens skip = Some (res, kv')
    ∧ kv_local id kv kv' ∧ table kv' id = cached_block_ids res
    ∧ CacheManager.num_computed_tokens res = length (cached_block_ids res) * bsize kv
    ∧ computed kv' id ≤ CacheManager.num_computed_tokens res.
Proof using Hm Hinv.
  intros Ht Hc. pose proof (get_computed_blocks_rep sha256 xxh3_64 kv q id tokens skip Hm Ht) as Hg.
  destruct (lookup_skipped kv tokens skip).
  - rewrite Hg. eexists _, kv. split_and!; [done | | done | done | by rewrite Hc].
    split; [by exists q | done | done | done].
  - destruct Hg as (hs & ids & p & q' & _ & _ & -> & _ & _ & Hm' & Hinv'). eexists _, _.
    split; [done |]. split_and!; [split | | done |].
    + by exists q'.
    + by apply Hinv'.
    + done.
    + intros id' Hne. unfold computed, KVCacheManager.get_computed_tokens. simpl.
      by rewrite !lookup_insert_ne.
    + unfold table. simpl. by rewrite lookup_insert_eq.
    + unfold computed, KVCacheManager.get_computed_tokens. simpl. by rewrite lookup_insert_eq.
Qed.

Lemma kv_allocate id nt nc :
  ∃ res kv', KVCacheManager.allocate_slots kv id nt nc = Some (res, kv')
    ∧ kv_local id kv kv' ∧ computed kv' id = computed kv id
    ∧ match res with
      | Some ids => table kv' id = table kv id ++ ids ∧ length ids = cdiv (nt - nc) (bsize kv)
      | None => request_blocks kv' !! id = request_blocks kv !! id
      end
    ∧ (is_Some (request_blocks kv' !! id) → is_Some (request_blocks kv !! id) ∨ nc < nt).
Proof using Hm Hinv.
  destruct (allocate_slots_rep kv q id nt nc Hm) as
    [(Hle & ->) | [(Hlt & _ & ids & p & q' & -> & Hlen & _ & _ & Hm' & _ & _ & Hinv')
                | (Hlt & _ & p & q' & -> & Hm' & _ & _ & Hinv')]].
  - exists (Some []), kv. split_and!; [done | split; [by exists q | done | done | done] | done | | | auto].
    + by rewrite app_nil_r.
    + replace (nt - nc) with 0 by lia. by rewrite cdiv_0 by apply Hm.
  - eexists (Some ids), _. split; [done |]. split_and!; [split | done | | done | auto].
    + by exists q'.
    + by apply Hinv'.
    + done.
    + intros id' Hne. simpl. by rewrite lookup_insert_ne.
    + by rewrite table_allocated, decide_True.
  - eexists None, _. split; [done |]. split_and!; [split | done | done | auto].
    + by exists q'.
    + by apply Hinv'.
    + done.
    + done.
Qed.

Lemma kv_free id :
  ∃ kv', KVCacheManager.free kv id = Some kv' ∧ kv_local id kv kv'
    ∧ request_blocks kv' !! id = None ∧ computed kv' id = 0.
Proof using Hm Hinv.
  destruct (manager_free_rep kv q id Hm) as (p & q' & -> & Hm' & _ & _ & Hinv').
  eexists. split; [done |]. unfold computed, KVCacheManager.get_computed_tokens, freed. simpl.
  rewrite !lookup_delete_eq. split_and!; [split | done | done].
  - by exists q'.
  - by apply Hinv'.
  - done.
  - intros id' Hne. unfold computed, KVCacheManager.get_computed_tokens. simpl. by rewrite !lookup_delete_ne.
Qed.

Lemma kv_publish id n :
  computed kv id ≤ n →
  ∃ kv', KVCacheManager.cache_blocks kv id n = Some kv' ∧ kv_local id kv kv'
    ∧ request_blocks kv' = request_blocks kv.
Proof using Hm Hinv.
  intros Hn. destruct (cache_blocks_rep kv q id n Hm) as
    [[-> _] | (hs & p & _ & _ & _ & -> & Hm' & Hrest)].
  - exists kv. split_and!; [done | split; [by exists q | done | done | done] | done].
  - destruct (Hrest Hinv Hn) as [Hinv' _]. eexists. split; [done |]. split_and!; [split | done].
    + by exists q.
    + done.
    + done.
    + intros id' Hne. unfold computed, KVCacheManager.get_computed_tokens. simpl. by rewrite lookup_insert_ne.
Qed.
End kv_calls.

(** ** Changing one request keeps the invariant *)
Lemma core_inv_point id bs kv reqs w r fin kv' reqs' w' r' fin' :
  core_inv bs kv reqs w r fin → kv_local id kv kv' →
  (∀ id', id' ≠ id → reqs' !! id' = reqs !! id') →
  NoDup w' → NoDup r' →
  (∀ id', id' ≠ id → (id' ∈ w' ↔ id' ∈ w) ∧ (id' ∈ r' ↔ id' ∈ r) ∧ (id' ∈ fin → id' ∈ fin')) →
  point_ok bs kv' reqs' w' r' fin' id →
  core_inv bs kv' reqs' w' r' fin'.
Proof.
  intros [_ _ Hbs _ _ Hp] Hkl Hreqs Hw Hr Hmem Hid. pose proof Hkl as [Hm' Hc' Hbs' Hoth].
  split; [done | done | congruence | done | done |]. intros id'.
  destruct (decide (id' = id)) as [->|Hne]; [done |].
  destruct (Hp id') as [P1 P2 P3 P4 P5 P6 P7]. destruct (Hmem id' Hne) as (Mw & Mr & Mf).
  destruct (Hoth id' Hne) as [Ob Oc]. pose proof (kv_local_table _ _ _ _ Hkl Hne) as Ot.
  split; rewrite ?(Hreqs id' Hne), ?Ob.
  - by rewrite Mw, Mr.
  - by rewrite Mw, Mr.
  - by rewrite Mw, Mr.
  - intros req Hreq Hin%Mw. destruct (P4 req Hreq Hin) as (A & B & C & D).
    split_and!; [done | congruence | done | by rewrite Oc].
  - intros req Hreq Hin%Mr. destruct (P5 req Hreq Hin) as (A & B). split; [done | by rewrite Ot].
  - intros req Hreq H1 H2. rewrite Mw in H1. rewrite Mr in H2. destruct (P6 req Hreq H1 H2) as [A B]. auto.
  - intros H1 H2. rewrite Mw in H1. rewrite Mr in H2. rewrite Oc. auto.
Qed.

Lemma kv_local_refl id kv q : manager_rep kv q → cache_inv kv → kv_local id kv kv.
Proof. intros. split; [by exists q | done | done | done]. Qed.

Lemma retain_not_elem id id' l : id' ∈ retain_not id l ↔ id' ≠ id ∧ id' ∈ l.
Proof. unfold retain_not. by rewrite list_elem_of_filter. Qed.

Lemma retain_not_NoDup id l : NoDup l → NoDup (retain_not id l).
Proof. apply NoDup_filter. Qed.

(** ** What a step may do to a request *)
Definition may_become : RequestStatus → RequestStatus → Prop :=
  rtc (λ a b, can_transition_to a b = true).

Definition request_evolves (a b : SchedulerRequest) : Prop :=
  sr_request b = sr_request a ∧ sr_prompt_token_ids b = sr_prompt_token_ids a
  ∧ may_become (sr_status a) (sr_status b).

Definition evolves (reqs reqs' : gmap RequestId SchedulerRequest) : Prop :=
  ∀ id, option_Forall2 request_evolves (reqs !! id) (reqs' !! id).

Record frame (s s' : Scheduler) : Prop := {
  fr_config : s_config s' = s_config s;
  fr_bs : s_block_size s' = s_block_size s;
  fr_max : s_max_model_len s' = s_max_model_len s;
  fr_pc : s_enable_prefix_caching s' = s_enable_prefix_caching s;
  fr_paused : s_paused s' = s_paused s;
  fr_reqs : evolves (s_requests s) (s_requests s');
}.

Lemma request_evolves_refl a : request_evolves a a.
Proof. by repeat split. Qed.

Lemma request_evolves_same a b :
  sr_request b = sr_request a → sr_prompt_token_ids b = sr_prompt_token_ids a →
  sr_status b = sr_status a → request_evolves a b.
Proof. intros H1 H2 H3. split_and!; [done | done |]. rewrite H3. apply rtc_refl. Qed.

Lemma evolves_refl reqs : evolves reqs reqs.
Proof. intros id. destruct (reqs !! id); constructor. apply request_evolves_refl. Qed.

Lemma evolves_trans r1 r2 r3 : evolves r1 r2 → evolves r2 r3 → evolves r1 r3.
Proof.
  intros H1 H2 id. specialize (H1 id). specialize (H2 id).
  inversion H1 as [a b (A1 & A2 & A3) Ea Eb | Ea Eb]; rewrite <- Eb in H2;
    inversion H2 as [b' c (B1 & B2 & B3) Eb' Ec | Eb' Ec]; subst; constructor.
  split_and!; [congruence | congruence | by etrans].
Qed.

Lemma evolves_alter id f reqs :
  (∀ a, reqs !! id = Some a → request_evolves a (f a)) → evolves reqs (alter f id reqs).
Proof.
  intros Hf id'. destruct (decide (id' = id)) as [->|Hne].
  - rewrite lookup_alter_eq. destruct (reqs !! id) eqn:E; constructor. by apply Hf.
  - rewrite lookup_alter_ne by done. apply evolves_refl.
Qed.

Lemma evolves_insert id a b reqs :
  reqs !! id = Some a → request_evolves a b → evolves reqs (<[id := b]> reqs).
Proof.
  intros Ha Hb id'. destruct (decide (id' = id)) as [->|Hne].
  - rewrite lookup_insert_eq, Ha. by constructor.
  - rewrite lookup_insert_ne by done. apply evolves_refl.
Qed.

Lemma frame_refl s : frame s s.
Proof. split; try done. apply evolves_refl. Qed.

Lemma frame_trans s1 s2 s3 : frame s1 s2 → frame s2 s3 → frame s1 s3.
Proof. intros [] []. split; [congruence .. | by eapply evolves_trans]. Qed.

Lemma frame_lookup s s' id a :
  frame s s' → s_requests s !! id = Some a →
  ∃ b, s_requests s' !! id = Some b ∧ request_evolves a b.
Proof. intros [_ _ _ _ _ H] Ha. specialize (H id). rewrite Ha in H. inversion H; eauto. Qed.

Definition core (s : Scheduler) : Prop :=
  core_inv (s_block_size s) (s_kv s) (s_requests s) (Queue.iter (s_waiting s)) (s_running s) (s_finished s).

Definition status_of (s : Scheduler) (id : RequestId) : option RequestStatus :=
  sr_status <$> s_requests s !! id.

(** A move that touches only request [id]. *)
Record touches (id : RequestId) (s s' : Scheduler) : Prop := {
  to_core : core s';
  to_frame : frame s s';
  to_kv : kv_local id (s_kv s) (s_kv s');
  to_reqs : ∀ id', id' ≠ id → s_requests s' !! id' = s_requests s !! id';
}.

(** A move that touches only the requests of a list. *)
Record moves (l : list RequestId) (s s' : Scheduler) : Prop := {
  mv_core : core s';
  mv_frame : frame s s';
  mv_other : ∀ id', id' ∉ l →
    s_requests s' !! id' = s_requests s !! id'
    ∧ request_blocks (s_kv s') !! id' = request_blocks (s_kv s) !! id';
}.

Lemma moves_refl l s : core s → moves l s s.
Proof. intros. split; [done | apply frame_refl | done]. Qed.

Lemma touches_moves id l s s' : touches id s s' → id ∈ l → moves l s s'.
Proof.
  intros [Hc Hf Hk Hr] Hin. split; [done | done |]. intros id' Hn.
  assert (id' ≠ id) as Hne by (by intros ->). split; [by apply Hr | by apply (kl_other _ _ _ Hk)].
Qed.

Lemma touches_moves1 id s s' : touches id s s' → moves [id] s s'.
Proof. intros H. by eapply touches_moves, list_elem_of_here. Qed.

Lemma moves_trans l1 l2 l s1 s2 s3 :
  moves l1 s1 s2 → moves l2 s2 s3 → l1 ⊆ l → l2 ⊆ l → moves l s1 s3.
Proof.
  intros [_ F1 O1] [C2 F2 O2] H1 H2. split; [done | by eapply frame_trans |]. intros id Hn.
  destruct (O1 id), (O2 id); [set_solver .. |]. split; congruence.
Qed.

(** Updates that no part of the invariant reads. *)
Lemma moves_meta l s1 s2 s3 :
  moves l s1 s2 → core s3 → frame s2 s3 → s_requests s3 = s_requests s2 → s_kv s3 = s_kv s2 → moves l s1 s3.
Proof.
  intros [_ F O] C3 F3 Er Ek. split; [done | by eapply frame_trans | by rewrite Er, Ek].
Qed.

(** ** The handlers *)

(** A change of a running request's record and a local change of the cache. *)
Lemma touch_running s id req kv' f :
  core s → id ∈ s_running s → s_requests s !! id = Some req →
  kv_local id (s_kv s) kv' → request_evolves req (f req) →
  running_ok (s_block_size s) kv' id (f req) →
  touches id s (update_request id f (with_kv kv' s)).
Proof.
  intros Hcore Hin Hreq Hkl Hev Hok. pose proof Hcore as [_ _ _ Hw Hr Hp].
  destruct (Hp id) as [P1 P2 P3 P4 P5 P6 P7].
  assert (alter f id (s_requests s) !! id = Some (f req)) as Hl by (by rewrite lookup_alter_eq, Hreq).
  split; [| split; try done | done |].
  - eapply (core_inv_point id); [exact Hcore | exact Hkl | | done | done | done |].
    + intros id' Hne. simpl. by rewrite lookup_alter_ne.
    + split; simpl; rewrite ?Hl.
      * exact P1.
      * by eexists.
      * by right.
      * intros req' _ Hin'. by apply P1 in Hin'.
      * by intros req' [= <-].
      * by intros req' [= <-] _ Hnin.
      * by intros _ Hnin.
  - simpl. apply evolves_alter. intros a Ha. by assert (a = req) as -> by congruence.
  - intros id' Hne. simpl. by rewrite lookup_alter_ne.
Qed.

(** The draft tokens of a request do not fit the length and the budget of the
    scheduler in a [usize]. *)
Definition drafts_overflow (s : Scheduler) (req : SchedulerRequest) : Prop :=
  (u64_max < N.of_nat (Nat.max (s_max_model_len s) (max_num_scheduled_tokens (s_config s)) + spec_k req))%N.

Lemma decode_one_ok s id :
  core s → id ∈ s_running s → status_of s id = Some Running →
  (decode_one s id = None ∧ ∃ req, s_requests s !! id = Some req ∧ sr_num_computed_tokens req < s_max_model_len s
     ∧ (u64_max < N.of_nat (sr_num_computed_tokens req + (1 + spec_k req)))%N)
  ∨ ∃ d s', decode_one s id = Some (d, s') ∧ touches id s s'
    ∧ s_waiting s' = s_waiting s ∧ s_running s' = s_running s ∧ s_finished s' = s_finished s
    ∧ s_total_preemptions s' = s_total_preemptions s
    ∧ match d with
      | DSkip => s_max_model_len s ≤ computed_of s id ∧ status_of s' id = Some FinishedLength
      | DPreempt => status_of s' id = Some Running
      | DScheduled n t =>
          status_of s' id = Some Running
          ∧ (∃ req, s_requests s !! id = Some req ∧ n = 1 + spec_k req)
          ∧ computed_of s id < s_max_model_len s
          ∧ computed_of s' id = computed_of s id + n
          ∧ is_Some t ∧ request_blocks (s_kv s') !! id = t
      end.
Proof.
  intros Hcore Hin Hst. pose proof Hcore as [[q Hm] Hinv Hbs Hw Hr Hp].
  destruct (Hp id) as [P1 P2 P3 P4 P5 P6 P7]. destruct (P2 (or_intror Hin)) as [req Hreq].
  destruct (P5 req Hreq Hin) as [_ Hcov].
  unfold status_of in Hst. rewrite Hreq in Hst. injection Hst as Hst.
  unfold decode_one, computed_of, status_of. rewrite Hreq. simpl.
  set (c := sr_num_computed_tokens req) in *. set (n := S (spec_k req)).
  assert (0 < s_block_size s) as Hbs0 by (rewrite <- Hbs; apply Hm).
  pose proof (λ kv' f, touch_running s id req kv' f Hcore Hin Hreq) as Hmove.
  pose proof (λ f, Hmove (s_kv s) f (kv_local_refl id (s_kv s) q Hm Hinv)) as Hstay.
  replace (with_kv (s_kv s) s) with s in Hstay by (by destruct s).
  destruct (Nat.leb_spec (s_max_model_len s) c) as [Hmax|Hmax].
  { right. eexists _, _. split; [done |]. split_and!; try done.
    - apply Hstay; [| split; [by right | done]].
      split_and!; [done | done |]. rewrite Hst. by apply rtc_once.
    - simpl. by rewrite lookup_alter_eq, Hreq. }
  destruct (add_checked_case 1 (spec_k req)) as [[Hk ->]|[Hk ->]];
    [| left; split; [done |]; exists req; split_and!; [done | done | lia]].
  change (1 + spec_k req) with n in *. cbn [mbind option_bind].
  destruct (add_checked_case c n) as [[Hcn ->]|[Hcn ->]];
    [| left; split; [by rewrite div_ceil_pos by done |]; exists req; split_and!; [done | done | done]].
  right. rewrite div_ceil_pos by done. cbn [mbind option_bind]. rewrite div_ceil_pos by done. cbn [mbind option_bind].
  destruct (Nat.ltb_spec (cdiv c (s_block_size s)) (cdiv (c + n) (s_block_size s))) as [Hgrow|Hsame].
  - destruct (kv_allocate (s_kv s) q Hm Hinv id (c + n) c) as (res & kv' & -> & Hkl & _ & Hres & _).
    simpl. destruct res as [ids|]; simpl.
    + destruct Hres as [Htab Hlen]. rewrite Hbs in Hlen.
      assert (cdiv (c + n) (s_block_size s) ≤ length (table kv' id)) as Hcov'.
      { rewrite Htab, length_app, Hlen. replace (c + n - c) with n by lia.
        pose proof (cdiv_add_le c n (s_block_size s) Hbs0). lia. }
      eexists _, _. split; [done |]. split_and!; try done.
      * apply Hmove; [done | by apply request_evolves_same | split; [by left | done]].
      * simpl. by rewrite lookup_alter_eq, Hreq; simpl; rewrite Hst.
      * by exists req.
      * simpl. by rewrite lookup_alter_eq, Hreq.
      * simpl. unfold KVCacheManager.get_block_ids. unfold table in Hcov'.
        destruct (request_blocks kv' !! id); [done | simpl in Hcov'; lia].
    + eexists _, _. split; [done |]. split_and!; try done.
      * replace (with_kv kv' s) with (update_request id (λ r, r) (with_kv kv' s)).
        { apply Hmove; [done | by apply request_evolves_same | split; [by left |]].
          unfold table. rewrite Hres. exact Hcov. }
        unfold update_request, with_requests, with_kv. simpl. by rewrite alter_id by done.
      * simpl. by rewrite Hreq; simpl; rewrite Hst.
  - simpl. eexists _, _. split; [done |].
    assert (cdiv (c + n) (s_block_size s) ≤ length (table (s_kv s) id)) as Hcov' by lia.
    split_and!; try done.
    + apply Hstay; [by apply request_evolves_same | split; [by left | done]].
    + simpl. by rewrite lookup_alter_eq, Hreq; simpl; rewrite Hst.
    + by exists req.
    + simpl. by rewrite lookup_alter_eq, Hreq.
    + unfold KVCacheManager.get_block_ids. simpl. unfold table in Hcov'.
      destruct (request_blocks (s_kv s) !! id); [done |]. simpl in Hcov'.
      pose proof (cdiv_pos (c + n) (s_block_size s) Hbs0 ltac:(subst n; lia)). lia.
Qed.

Lemma finish_request_internal_ok s id :
  core s → request_finished s id = true →
  ∃ s', finish_request_internal s id = Some s' ∧ touches id s s'
    ∧ s_requests s' = s_requests s
    ∧ Queue.iter (s_waiting s') = retain_not id (Queue.iter (s_waiting s))
    ∧ s_running s' = retain_not id (s_running s)
    ∧ s_total_preemptions s' = s_total_preemptions s.
Proof.
  intros Hcore Hfin. pose proof Hcore as [[q Hm] Hinv Hbs Hw Hr Hp].
  unfold finish_request_internal. simpl.
  destruct (kv_free (s_kv s) q Hm Hinv id) as (kv' & -> & Hkl & Hb & Hc). simpl.
  eexists. split; [done |].
  assert (Hiter : Queue.iter (Queue.remove (s_waiting s) id).2 = retain_not id (Queue.iter (s_waiting s)))
    by apply remove_keys.
  simpl in Hiter. split_and!; [split; [| split; try done; apply evolves_refl | done | done] | done | done | done | done].
  eapply (core_inv_point id); [exact Hcore | exact Hkl | done | | by apply retain_not_NoDup | |]; simpl.
  - rewrite Hiter. by apply retain_not_NoDup.
  - intros id' Hne. rewrite Hiter, !retain_not_elem. set_solver.
  - rewrite Hiter. split.
    + by intros [? _]%retain_not_elem.
    + by intros [[? _]%retain_not_elem|[? _]%retain_not_elem].
    + rewrite Hb. by intros [? ?].
    + by intros req _ [? _]%retain_not_elem.
    + by intros req _ [? _]%retain_not_elem.
    + intros req Hreq _ _. unfold request_finished in Hfin. rewrite Hreq in Hfin.
      split; [done | set_solver].
    + done.
Qed.

Lemma preempt_request_ok s id :
  core s → id ∈ s_running s → status_of s id = Some Running →
  ∃ s', preempt_request s id = Some s' ∧ touches id s s'
    ∧ Queue.iter (s_waiting s') ≡ₚ id :: Queue.iter (s_waiting s)
    ∧ s_running s' = retain_not id (s_running s)
    ∧ s_finished s' = s_finished s
    ∧ status_of s' id = Some Waiting ∧ computed_of s' id = 0 ∧ request_blocks (s_kv s') !! id = None
    ∧ s_total_preemptions s' = s_total_preemptions s + 1.
Proof.
  intros Hcore Hin Hst. pose proof Hcore as [[q Hm] Hinv Hbs Hw Hr Hp].
  destruct (Hp id) as [P1 P2 P3 P4 P5 P6 P7]. destruct (P2 (or_intror Hin)) as [req Hreq].
  unfold status_of in Hst. rewrite Hreq in Hst. injection Hst as Hst.
  unfold preempt_request. simpl.
  destruct (kv_free (s_kv s) q Hm Hinv id) as (kv' & -> & Hkl & Hb & Hc). simpl. rewrite Hreq.
  assert (Hnw : id ∉ Queue.iter (s_waiting s)) by (intros ?; by apply P1).
  eexists. split; [done |]. set (req' := sr_set_status Waiting _). set (w' := Queue.push _ _ _ _).
  assert (Hiter : Queue.iter w' ≡ₚ id :: Queue.iter (s_waiting s)) by (by apply push_new_keys).
  unfold status_of, computed_of. simpl. rewrite lookup_insert_eq.
  split_and!; [split; [| split; try done | done |] | done | done | done | done | done | done | done].
  - eapply (core_inv_point id); [exact Hcore | exact Hkl | | | by apply retain_not_NoDup | |]; simpl.
    + intros id' Hne. by rewrite lookup_insert_ne.
    + rewrite Hiter. by constructor.
    + intros id' Hne. rewrite Hiter, retain_not_elem, elem_of_cons. set_solver.
    + assert (id ∈ Queue.iter w') as Hin' by (rewrite Hiter; by left).
      split; simpl; rewrite ?lookup_insert_eq.
      * by intros _ [? _]%retain_not_elem.
      * by eexists.
      * by left.
      * intros r [= <-] _. split_and!; [done | | done | simpl; lia].
        unfold table. by rewrite Hb.
      * by intros r _ [? _]%retain_not_elem.
      * by intros r _ Hn.
      * by intros Hn.
  - simpl. eapply evolves_insert; [done |]. split_and!; [done | done |]. simpl. rewrite Hst. by apply rtc_once.
  - intros id' Hne. simpl. by rewrite lookup_insert_ne.
Qed.

Section admission.
Context (sha256 : list byte → list byte) (xxh3_64 : list byte → N).

Lemma probe_ok s id req :
  core s → id ∈ Queue.iter (s_waiting s) → s_requests s !! id = Some req → sr_cached_block_ids req = [] →
  ∃ n s', probe sha256 xxh3_64 s id = Some (n, s') ∧ touches id s s'
    ∧ s_waiting s' = s_waiting s ∧ s_running s' = s_running s ∧ s_finished s' = s_finished s
    ∧ s_total_preemptions s' = s_total_preemptions s
    ∧ computed_of s' id = n.
Proof.
  intros Hcore Hin Hreq Hnil. pose proof Hcore as [[q Hm] Hinv Hbs Hw Hr Hp].
  destruct (Hp id) as [P1 P2 P3 P4 P5 P6 P7]. destruct (P4 req Hreq Hin) as (Hst & Htab & Hnum & Hcomp).
  rewrite Hnil in Htab, Hnum. simpl in Hnum.
  unfold probe. rewrite Hreq. simpl.
  destruct (kv_get (s_kv s) q Hm Hinv sha256 xxh3_64 id (sr_prompt_token_ids req)
    (skip_reading_prefix_cache (sampling_params (sr_request req)))) as (res & kv' & -> & Hkl & Htab' & Hnum' & Hcomp');
    [done | lia |]. simpl.
  eexists _, _. split; [done |]. set (f := λ r : SchedulerRequest, sr_set_computed _ _).
  assert (alter f id (s_requests s) !! id = Some (f req)) as Hl by (by rewrite lookup_alter_eq, Hreq).
  split_and!; try done; [split; [| split; try done | done |] |].
  - eapply (core_inv_point id); [exact Hcore | exact Hkl | | done | done | done |].
    + intros id' Hne. simpl. by rewrite lookup_alter_ne.
    + split; simpl; rewrite ?Hl.
      * exact P1.
      * by eexists.
      * by left.
      * intros r [= <-] _. split_and!; [done | done | | done]. simpl. by rewrite Hnum', Hbs.
      * intros r _ Hin'. by apply P1 in Hin.
      * by intros r _ Hn.
      * by intros Hn.
  - simpl. apply evolves_alter. intros a Ha. by apply request_evolves_same.
  - intros id' Hne. simpl. by rewrite lookup_alter_ne.
  - unfold computed_of. simpl. by rewrite Hl.
Qed.

Lemma select_loop_ok queued : ∀ s best bc,
  core s → queued ⊆ Queue.iter (s_waiting s) → NoDup queued → best ∈ Queue.iter (s_waiting s) →
  computed_of s best = bc →
  ∃ s' best' bc', select_loop sha256 xxh3_64 s queued best bc = Some (s', best', bc')
    ∧ moves queued s s' ∧ s_waiting s' = s_waiting s ∧ s_running s' = s_running s
    ∧ s_finished s' = s_finished s ∧ s_total_preemptions s' = s_total_preemptions s
    ∧ best' ∈ Queue.iter (s_waiting s) ∧ computed_of s' best' = bc' ∧ bc ≤ bc'
    ∧ (∀ id, id ∈ queued → computed_of s' id ≤ bc').
Proof.
  induction queued as [|id queued IH]; intros s best bc Hcore Hsub Hnd Hbest Hbc; cbn [select_loop].
  { exists s, best, bc. split_and!; try done; [by apply moves_refl | by intros id ?%not_elem_of_nil]. }
  apply NoDup_cons in Hnd as [Hid Hnd].
  assert (id ∈ Queue.iter (s_waiting s)) as Hin by (apply Hsub; by left).
  destruct (po_dom _ _ _ _ _ _ _ (co_point _ _ _ _ _ _ Hcore id) (or_introl Hin)) as [req Hreq].
  assert (∃ s1 n, (if negb (cached_ids_empty s id false) then Some (computed_of s id, s)
                   else probe sha256 xxh3_64 s id) = Some (n, s1)
    ∧ touches id s s1 ∧ s_waiting s1 = s_waiting s ∧ s_running s1 = s_running s
    ∧ s_finished s1 = s_finished s ∧ s_total_preemptions s1 = s_total_preemptions s
    ∧ computed_of s1 id = n ∧ (best = id → bc ≤ n)) as
    (s1 & n & E1 & Ht & Ew & Er & Ef & Ep & Hn & Hbn).
  { unfold cached_ids_empty. rewrite Hreq. simpl. case_bool_decide as Hnil; simpl.
    - destruct (probe_ok s id req Hcore Hin Hreq Hnil) as (n & s1 & -> & Ht & Ew & Er & Ef & Ep & Hn).
      exists s1, n. split_and!; try done. intros ->.
      assert (bc = 0) as ->; [| lia]. rewrite <- Hbc. unfold computed_of. rewrite Hreq. simpl.
      destruct (po_waiting _ _ _ _ _ _ _ (co_point _ _ _ _ _ _ Hcore id) req Hreq Hin) as (_ & _ & -> & _).
      by rewrite Hnil.
    - exists s, (computed_of s id). pose proof Hcore as [[q Hm] Hinv _ _ _ _].
      split_and!; try done; [| intros ->; lia].
      split; [done | apply frame_refl | by apply (kv_local_refl id _ q) | done]. }
  assert (Hoth : ∀ id', id' ≠ id → computed_of s1 id' = computed_of s id').
  { intros id' Hne. unfold computed_of. by rewrite (to_reqs _ _ _ Ht id' Hne). }
  set (best1 := if bc <? n then id else best). set (bc1 := if bc <? n then n else bc).
  assert (Hsel : select_loop sha256 xxh3_64 s (id :: queued) best bc
                 = select_loop sha256 xxh3_64 s1 queued best1 bc1).
  { cbn [select_loop]. rewrite Hreq. subst best1 bc1. destruct (negb _).
    - injection E1 as -> ->. by destruct (bc <? n).
    - rewrite E1. simpl. by destruct (bc <? n). }
  cbn [select_loop] in Hsel. rewrite Hsel. clear Hsel.
  destruct (IH s1 best1 bc1) as (s' & best' & bc' & -> & Hmv & Ew' & Er' & Ef' & Ep' & Hb' & Hc' & Hle & Hall).
  - apply Ht.
  - rewrite Ew. set_solver.
  - done.
  - subst best1. rewrite Ew. by destruct (bc <? n).
  - subst best1 bc1. destruct (Nat.ltb_spec bc n) as [|Hge]; [done |].
    destruct (decide (best = id)) as [->|Hne]; [specialize (Hbn eq_refl); lia | by rewrite Hoth].
  - rewrite Ew in Hb'. exists s', best', bc'. split_and!; try congruence.
    + eapply moves_trans; [by eapply touches_moves, list_elem_of_here | exact Hmv | |]; set_solver.
    + subst bc1. destruct (Nat.ltb_spec bc n); lia.
    + intros id' [->|Hid']%elem_of_cons; [| by apply Hall].
      assert (computed_of s' id = n) as ->.
      { unfold computed_of. rewrite (proj1 (mv_other _ _ _ Hmv id Hid)). exact Hn. }
      subst bc1. destruct (Nat.ltb_spec bc n); lia.
Qed.

Lemma select_waiting_request_ok s :
  core s →
  match Queue.peek (s_waiting s) with
  | None => select_waiting_request sha256 xxh3_64 s = Some (None, s)
  | Some first =>
      ∃ best s', select_waiting_request sha256 xxh3_64 s = Some (Some best, s')
        ∧ moves (Queue.iter (s_waiting s)) s s' ∧ s_waiting s' = s_waiting s
        ∧ s_running s' = s_running s ∧ s_finished s' = s_finished s
        ∧ s_total_preemptions s' = s_total_preemptions s
        ∧ best ∈ Queue.iter (s_waiting s)
        ∧ (s_enable_prefix_caching s = false → best = first)
        ∧ (s_enable_prefix_caching s = true →
             ∀ id, id ∈ Queue.iter (s_waiting s) → computed_of s' id ≤ computed_of s' best)
  end.
Proof.
  intros Hcore. unfold select_waiting_request.
  destruct (Queue.peek (s_waiting s)) as [first|] eqn:Ep; [| done].
  assert (first ∈ Queue.iter (s_waiting s)) as Hfirst.
  { rewrite peek_iter in Ep. by apply head_elem_of. }
  set (s0 := with_admission _ s). destruct (s_enable_prefix_caching s) eqn:Epc.
  - change (s_enable_prefix_caching s0) with (s_enable_prefix_caching s). rewrite Epc. simpl.
    destruct (select_loop_ok (Queue.iter (s_waiting s)) s0 first (computed_of s0 first))
      as (s1 & best & bc & E & Hmv & Ew & Er & Ef & Epr & Hb & Hc & _ & Hall);
      [done | done | apply (co_w _ _ _ _ _ _ Hcore) | done | done |].
    change (s_waiting s0) with (s_waiting s) in *. rewrite E. simpl.
    eexists best, _. split; [done |]. split_and!; try done.
    + destruct Hmv as [C F O]. split; [done | | done]. by destruct F.
    + intros _ id Hid. etrans; [by apply Hall |]. by rewrite <- Hc.
  - change (s_enable_prefix_caching s0) with (s_enable_prefix_caching s). rewrite Epc. simpl.
    eexists first, _. split; [done |]. split_and!; try done.
    split; [done | | done]. split; try done. apply evolves_refl.
Qed.

(** A waiting request moves to the running list. *)
Definition admitted (id : RequestId) (f : SchedulerRequest → SchedulerRequest) (kv : KVCacheManager)
    (s : Scheduler) : Scheduler :=
  with_running (s_running s ++ [id])
    (update_request id f (with_waiting (Queue.pop_request (s_waiting s) id).2 (with_kv kv s))).

Lemma admitted_ok s id req kv' f :
  core s → id ∈ Queue.iter (s_waiting s) → s_requests s !! id = Some req →
  kv_local id (s_kv s) kv' → request_evolves req (f req) →
  running_ok (s_block_size s) kv' id (f req) →
  touches id s (admitted id f kv' s).
Proof using Type.
  intros Hcore Hin Hreq Hkl Hev Hok. pose proof Hcore as [_ _ _ Hw Hr Hp].
  destruct (Hp id) as [P1 P2 P3 P4 P5 P6 P7].
  assert (alter f id (s_requests s) !! id = Some (f req)) as Hl by (by rewrite lookup_alter_eq, Hreq).
  assert (Hiter : Queue.iter (Queue.pop_request (s_waiting s) id).2 = retain_not id (Queue.iter (s_waiting s)))
    by apply pop_request_keys.
  unfold admitted. simpl in *.
  assert (id ∉ Queue.iter (Queue.pop_request (s_waiting s) id).2) as Hout.
  { simpl. rewrite Hiter. by intros [? _]%retain_not_elem. }
  split; [| split; try done | done |].
  - eapply (core_inv_point id); [exact Hcore | exact Hkl | | | | |]; simpl in *.
    + intros id' Hne. by rewrite lookup_alter_ne.
    + rewrite Hiter. by apply retain_not_NoDup.
    + apply NoDup_app. split_and!; [done | | apply NoDup_singleton].
      intros x Hx ->%list_elem_of_singleton. by apply (P1 Hin).
    + intros id' Hne. rewrite Hiter, retain_not_elem, elem_of_app, list_elem_of_singleton. naive_solver.
    + split; simpl; rewrite ?Hl.
      * done.
      * by eexists.
      * intros _. right. set_solver.
      * intros req' _ Hin'. done.
      * by intros req' [= <-].
      * intros req' [= <-] _ Hnin. set_solver.
      * intros _ Hnin. set_solver.
  - simpl. apply evolves_alter. intros a Ha. by assert (a = req) as -> by congruence.
  - intros id' Hne. simpl. by rewrite lookup_alter_ne.
Qed.

Lemma computed_of_lookup s id req : s_requests s !! id = Some req → computed_of s id = sr_num_computed_tokens req.
Proof using Type. intros E. unfold computed_of. by rewrite E. Qed.

(** A cache move that leaves the waiting request's blocks alone. *)
Lemma waiting_kv_ok s id kv' :
  core s → id ∈ Queue.iter (s_waiting s) → kv_local id (s_kv s) kv' →
  request_blocks kv' !! id = request_blocks (s_kv s) !! id → computed kv' id = computed (s_kv s) id →
  touches id s (with_kv kv' s).
Proof using Type.
  intros Hcore Hin Hkl Hb Hc. pose proof Hcore as [_ _ _ Hw Hr Hp]. destruct (Hp id) as [P1 P2 P3 P4 P5 P6 P7].
  split; [| split; try done; apply evolves_refl | done | done].
  eapply (core_inv_point id); [exact Hcore | exact Hkl | done | done | done | done |].
  split; simpl; try done; [by rewrite Hb | | ].
  - intros req Hreq _. destruct (P4 req Hreq Hin) as (A & B & C & D).
    split_and!; [done | unfold table; by rewrite Hb | done | by rewrite Hc].
  - intros req _ Hin'. by apply P1 in Hin.
Qed.

(** Selection, with the lookup that follows it. *)
Lemma choose_ok s :
  core s →
  (Queue.iter (s_waiting s) = [] ∧ select_waiting_request sha256 xxh3_64 s = Some (None, s))
  ∨ (∃ id s1 s2 req, select_waiting_request sha256 xxh3_64 s = Some (Some id, s1)
      ∧ (if s_enable_prefix_caching s1 && cached_ids_empty s1 id true
         then probe sha256 xxh3_64 s1 id else Some (computed_of s1 id, s1)) = Some (sr_num_computed_tokens req, s2)
      ∧ moves (Queue.iter (s_waiting s)) s s2 ∧ s_waiting s2 = s_waiting s ∧ s_running s2 = s_running s
      ∧ s_finished s2 = s_finished s ∧ s_total_preemptions s2 = s_total_preemptions s
      ∧ id ∈ Queue.iter (s_waiting s2) ∧ s_requests s2 !! id = Some req
      ∧ (s_enable_prefix_caching s = false → Queue.peek (s_waiting s) = Some id)).
Proof using Type.
  intros Hcore. pose proof (select_waiting_request_ok s Hcore) as Hsel.
  destruct (Queue.peek (s_waiting s)) as [first|] eqn:Epk.
  2: { left. split; [| done]. rewrite peek_iter in Epk. by apply head_None in Epk. }
  right. destruct Hsel as (id & s1 & E1 & Hmv & Ew & Er & Ef & Ep & Hin & Hfirst & _).
  assert (Hpc : s_enable_prefix_caching s = false → Some first = Some id) by (intros H; by rewrite (Hfirst H)).
  pose proof (mv_core _ _ _ Hmv) as Hcore1. rewrite <- Ew in Hin.
  destruct (po_dom _ _ _ _ _ _ _ (co_point _ _ _ _ _ _ Hcore1 id) (or_introl Hin)) as [req Hreq].
  destruct (s_enable_prefix_caching s1 && cached_ids_empty s1 id true) eqn:Eb.
  - assert (sr_cached_block_ids req = []) as Hnil.
    { apply andb_true_iff in Eb as [_ Eb]. unfold cached_ids_empty in Eb. rewrite Hreq in Eb. simpl in Eb.
      by apply bool_decide_eq_true in Eb. }
    destruct (probe_ok s1 id req Hcore1 Hin Hreq Hnil) as (n & s2 & E2 & Ht & Ew2 & Er2 & Ef2 & Ep2 & Hn).
    destruct (frame_lookup _ _ _ _ (to_frame _ _ _ Ht) Hreq) as (req2 & Hreq2 & _).
    rewrite (computed_of_lookup _ _ _ Hreq2) in Hn. subst n.
    exists id, s1, s2, req2. rewrite Eb. split_and!; try done; try congruence.
    rewrite Ew in Hin. eapply moves_trans; [exact Hmv | by apply touches_moves1 | done | set_solver].
  - exists id, s1, s1, req. rewrite Eb, (computed_of_lookup _ _ _ Hreq). by split_and!.
Qed.

Lemma prefill_tokens_bounds s remaining cached budget :
  prefill_tokens s remaining cached budget ≤ remaining ∧ prefill_tokens s remaining cached budget ≤ budget
  ∧ prefill_tokens s remaining cached budget ≤ s_max_model_len s - cached.
Proof using Type. unfold prefill_tokens. destruct (enable_chunked_prefill _); lia. Qed.

Definition admit_post (s : Scheduler) (budget max_budget : nat) (a : AdmitOutcome) (s' : Scheduler) : Prop :=
  match a with
  | ABreak => s_waiting s' = s_waiting s ∧ s_running s' = s_running s
  | ACached id | ANew id _ _ =>
      id ∈ Queue.iter (s_waiting s) ∧ length (s_running s) < max_num_seqs (s_config s)
      ∧ Queue.iter (s_waiting s') = retain_not id (Queue.iter (s_waiting s))
      ∧ s_running s' = s_running s ++ [id] ∧ status_of s' id = Some Running
      ∧ match a with
        | ANew _ n t => 0 < n ∧ budget + n ≤ Nat.max budget max_budget ∧ is_Some t
                        ∧ request_blocks (s_kv s') !! id = t
        | _ => True
        end
  end.

Lemma admit_one_ok s budget max_budget :
  core s →
  ∃ a s', admit_one sha256 xxh3_64 s budget max_budget = Some (a, s')
    ∧ moves (Queue.iter (s_waiting s)) s s' ∧ s_finished s' = s_finished s
    ∧ s_total_preemptions s' = s_total_preemptions s ∧ admit_post s budget max_budget a s'.
Proof using Type.
  intros Hcore. unfold admit_one.
  destruct (Nat.leb_spec (max_num_seqs (s_config s)) (length (s_running s))) as [Hfull|Hroom].
  { exists ABreak, s. split_and!; try done. by apply moves_refl. }
  destruct (choose_ok s Hcore) as [[_ ->] | (id & s1 & s2 & req & -> & E2 & Hmv & Ew & Er & Ef & Ep & Hin & Hreq & _)].
  { exists ABreak, s. split_and!; try done. by apply moves_refl. }
  simpl. rewrite E2. simpl. rewrite Hreq. simpl.
  pose proof (mv_core _ _ _ Hmv) as Hcore2. pose proof Hcore2 as [[q Hm] Hinv Hbs _ _ Hp].
  destruct (po_waiting _ _ _ _ _ _ _ (Hp id) req Hreq Hin) as (Hst & Htab & Hnum & Hcomp).
  assert (Hbs0 : 0 < s_block_size s2) by (rewrite <- Hbs; apply Hm).
  assert (Hin0 : id ∈ Queue.iter (s_waiting s)) by (by rewrite <- Ew).
  set (c := sr_num_computed_tokens req) in *.
  (* the outcome of an admission *)
  assert (Hadm : ∀ kv' f, kv_local id (s_kv s2) kv' → sr_request (f req) = sr_request req →
    sr_prompt_token_ids (f req) = sr_prompt_token_ids req → sr_status (f req) = Running →
    cdiv (sr_num_computed_tokens (f req)) (s_block_size s2) ≤ length (table kv' id) →
    moves (Queue.iter (s_waiting s)) s (admitted id f kv' s2) ∧ status_of (admitted id f kv' s2) id = Some Running).
  { intros kv' f Hkl H1 H2 H3 H4. split.
    - eapply moves_trans; [exact Hmv | apply (touches_moves1 id) | done | set_solver].
      eapply admitted_ok; [done | done | exact Hreq | done | | split; [by left | done]].
      split_and!; [done | done |]. rewrite Hst, H3. by apply rtc_once.
    - unfold status_of, admitted. simpl. rewrite lookup_alter_eq, Hreq. simpl. by rewrite H3. }
  destruct (Nat.eqb_spec (length (sr_prompt_token_ids req) - c) 0) as [Hrem|Hrem].
  - destruct (Hadm (s_kv s2) (sr_set_status Running)) as [Hmv' Hst']; try done.
    { by apply (kv_local_refl id _ q). }
    { change (sr_num_computed_tokens (sr_set_status Running req)) with c. rewrite Htab, Hnum.
      pose proof (cdiv_mul_add (length (sr_cached_block_ids req)) 0 (s_block_size s2) Hbs0) as Hc.
      rewrite Nat.add_0_r, cdiv_0 in Hc by done. lia. }
    assert (Eadm : with_running (s_running s2 ++ [id]) (update_request id (sr_set_status Running)
        (with_waiting (Queue.pop_request (s_waiting s2) id).2 s2))
      = admitted id (sr_set_status Running) (s_kv s2) s2) by (by destruct s2).
    eexists (ACached id), _. split; [simpl in *; rewrite Eadm; done |]. simpl in Eadm |- *.
    split_and!; try done. simpl. rewrite Ew. apply pop_request_keys.
    by rewrite Er.
  - pose proof (prefill_tokens_bounds s2 (length (sr_prompt_token_ids req) - c) c (max_budget - budget)) as Hbd.
    set (n := prefill_tokens _ _ _ _) in *.
    destruct (Nat.eqb_spec n 0) as [Hn|Hn].
    { exists ABreak, s2. by split_and!. }
    destruct (kv_allocate (s_kv s2) q Hm Hinv id (c + n) c) as (res & kv' & -> & Hkl & Hck & Hres & _). simpl.
    destruct res as [ids|].
    2: { eexists ABreak, _. split; [done |]. split_and!; try done.
         eapply moves_trans; [exact Hmv | by apply (touches_moves1 id), waiting_kv_ok | done | set_solver]. }
    destruct Hres as [Htab' Hlen]. replace (c + n - c) with n in Hlen by lia.
    pose proof Hkl as [[q' Hm'] Hinv' Hbs' Hoth'].
    assert (∃ kv2, (if s_enable_prefix_caching s2 then KVCacheManager.cache_blocks kv' id (c + n) else Some kv')
                   = Some kv2 ∧ kv_local id (s_kv s2) kv2 ∧ request_blocks kv2 = request_blocks kv') as
      (kv2 & Ekv2 & Hkl2 & Hrb2).
    { destruct (s_enable_prefix_caching s2); [| by exists kv'].
      destruct (kv_publish kv' q' Hm' Hinv' id (c + n)) as (kv2 & E & [M2 C2 B2 O2] & Hrb); [lia |].
      exists kv2. split_and!; [done | | done]. split; [done | done | congruence |].
      intros id' Hne. destruct (O2 id' Hne) as [-> ->]. by apply Hoth'. }
    set (f := λ r : SchedulerRequest, sr_set_computed (c + n) (sr_set_status Running r)).
    assert (Hcov : cdiv (c + n) (s_block_size s2) = length (table kv' id)).
    { rewrite Htab', Htab, length_app, Hlen, Hnum, Hbs. by apply cdiv_mul_add. }
    destruct (Hadm kv2 f) as [Hmv' Hst']; try done.
    { change (sr_num_computed_tokens (f req)) with (c + n). unfold table. rewrite Hrb2.
      fold (table kv' id). lia. }
    eexists (ANew id n (request_blocks kv' !! id)), (admitted id f kv2 s2).
    assert (Hne : 0 < length (table kv' id)).
    { rewrite <- Hcov. apply cdiv_pos; lia. }
    split; [| unfold admit_post; split_and!; try done].
    + simpl in *. rewrite Ekv2. done.
    + simpl. rewrite Ew. apply pop_request_keys.
    + simpl. by rewrite Er.
    + lia.
    + lia.
    + unfold table in Hne. destruct (request_blocks kv' !! id); [done | simpl in Hne; lia].
    + simpl. by rewrite Hrb2.
Qed.
End admission.

(** ** The output of a step *)
Definition sched_ids (o : SchedulerOutput) : list RequestId :=
  scheduled_new o ++ scheduled_cached o ++ scheduled_running o.

Definition total_tokens_of (m : gmap RequestId nat) : nat := map_fold (λ _ n acc, n + acc) 0 m.

Lemma total_tokens_insert m id n :
  m !! id = None → total_tokens_of (<[id := n]> m) = n + total_tokens_of m.
Proof. intros Hn. unfold total_tokens_of. rewrite map_fold_insert_L; [done | intros; lia | done]. Qed.

(** The scheduled requests are running, have tokens, and the table in the output
    is their block table. *)
Record out_ok (s : Scheduler) (o : SchedulerOutput) (budget : nat) : Prop := {
  oo_nodup : NoDup (sched_ids o);
  oo_running : ∀ id, id ∈ sched_ids o → id ∈ s_running s;
  oo_tables : ∀ id, id ∈ scheduled_new o ∨ id ∈ scheduled_running o →
    ∃ n t, num_scheduled_tokens o !! id = Some n ∧ 0 < n ∧ block_tables o !! id = Some t
           ∧ request_blocks (s_kv s) !! id = Some t;
  oo_dom : ∀ id, is_Some (num_scheduled_tokens o !! id) → id ∈ scheduled_new o ∨ id ∈ scheduled_running o;
  oo_budget : total_tokens_of (num_scheduled_tokens o) = budget;
}.

Lemma sched_ids_elem o id :
  id ∈ sched_ids o ↔ id ∈ scheduled_new o ∨ id ∈ scheduled_cached o ∨ id ∈ scheduled_running o.
Proof. unfold sched_ids. by rewrite !elem_of_app. Qed.

(** Moving other requests keeps the output right. *)
Lemma out_ok_moves s s' o budget l :
  out_ok s o budget → moves l s s' → (∀ id, id ∈ sched_ids o → id ∉ l ∧ id ∈ s_running s') →
  out_ok s' o budget.
Proof.
  intros [N R T D B] Hmv Hl. split; [done | | | done | done].
  - intros id Hid. by apply Hl.
  - intros id Hid. destruct (T id Hid) as (n & t & E1 & E2 & E3 & E4). exists n, t.
    split_and!; try done. destruct (mv_other _ _ _ Hmv id) as [_ ->]; [| done].
    apply Hl. rewrite sched_ids_elem. tauto.
Qed.

(** Adding a scheduled request; [cons] permutes to where the handler puts it. *)
Lemma out_ok_push s o o' id n t budget :
  out_ok s o budget → id ∉ sched_ids o → id ∈ s_running s → 0 < n → request_blocks (s_kv s) !! id = Some t →
  sched_ids o' ≡ₚ id :: sched_ids o →
  (∀ x, x ∈ scheduled_new o' ∨ x ∈ scheduled_running o'
        ↔ x = id ∨ x ∈ scheduled_new o ∨ x ∈ scheduled_running o) →
  num_scheduled_tokens o' = <[id := n]> (num_scheduled_tokens o) →
  block_tables o' = <[id := t]> (block_tables o) →
  out_ok s o' (budget + n).
Proof.
  intros [N R T D B] Hid Hrun Hn Ht Hperm Hmem En Eb.
  assert (num_scheduled_tokens o !! id = None) as Hnone.
  { destruct (num_scheduled_tokens o !! id) eqn:E; [| done]. exfalso. apply Hid.
    rewrite sched_ids_elem. destruct (D id); [by eexists | tauto | tauto]. }
  split.
  - rewrite Hperm. by constructor.
  - intros x. rewrite Hperm, elem_of_cons. intros [->|Hx]; [done | by apply R].
  - intros x Hx. rewrite En, Eb. destruct (decide (x = id)) as [->|Hne].
    + rewrite !lookup_insert_eq. eauto 10.
    + rewrite !lookup_insert_ne by done. apply T. apply Hmem in Hx. tauto.
  - intros x Hx. apply Hmem. rewrite En in Hx. destruct (decide (x = id)) as [->|Hne]; [by left |].
    rewrite lookup_insert_ne in Hx by done. right. by apply D.
  - rewrite En, total_tokens_insert by done. lia.
Qed.

Lemma out_ok_cached s o id budget :
  out_ok s o budget → id ∉ sched_ids o → id ∈ s_running s → out_ok s (push_cached id o) budget.
Proof.
  intros [N R T D B] Hid Hrun. split; simpl; try done.
  - assert (sched_ids (push_cached id o) ≡ₚ id :: sched_ids o) as ->; [| by constructor].
    unfold sched_ids. simpl. solve_Permutation.
  - intros x Hx. rewrite sched_ids_elem in Hx. simpl in Hx. destruct (decide (x = id)) as [->|]; [done |].
    apply R. rewrite sched_ids_elem. set_solver.
Qed.

Lemma out_ok_empty s fin : out_ok s (mkOutput [] [] [] ∅ ∅ 0 [] fin stats_default) 0.
Proof.
  split; simpl.
  - apply NoDup_nil_2.
  - by intros id ?%not_elem_of_nil.
  - by intros id [?%not_elem_of_nil|?%not_elem_of_nil].
  - intros id. rewrite lookup_empty. by intros [? ?].
  - done.
Qed.

Definition spec_bound (k : nat) (s : Scheduler) : Prop :=
  ∀ id req, s_requests s !! id = Some req → spec_k req ≤ k.

Lemma spec_bound_frame k s s' : frame s s' → spec_bound k s → spec_bound k s'.
Proof.
  intros [_ _ _ _ _ Hev] Hs id b Hb. specialize (Hev id). rewrite Hb in Hev.
  inversion Hev as [a b' (Er & _) Ea Eb|]; subst. unfold spec_k. rewrite Er.
  by apply (Hs id a).
Qed.

Lemma overflow_frame s s' id req :
  frame s s' → s_requests s' !! id = Some req → drafts_overflow s' req →
  ∃ req0, s_requests s !! id = Some req0 ∧ drafts_overflow s req0.
Proof.
  intros [Hc _ Hm _ _ Hev] Hreq Ho. specialize (Hev id). rewrite Hreq in Hev.
  inversion Hev as [a b' (Er & _) Ea Eb|]; subst. exists a. split; [done |].
  unfold drafts_overflow, spec_k in *. by rewrite <- Hc, <- Hm, <- Er.
Qed.

(** ** The loops *)
Lemma finish_all_ok ids : ∀ s fin,
  core s → (∀ id, id ∈ ids → request_finished s id = true) →
  ∃ s', finish_all s (mkOutput [] [] [] ∅ ∅ 0 [] fin stats_default) ids
        = Some (s', mkOutput [] [] [] ∅ ∅ 0 [] (fin ++ ids) stats_default)
    ∧ moves ids s s' ∧ s_requests s' = s_requests s
    ∧ Queue.iter (s_waiting s') = filter (λ x, x ∉ ids) (Queue.iter (s_waiting s))
    ∧ s_running s' = filter (λ x, x ∉ ids) (s_running s)
    ∧ s_total_preemptions s' = s_total_preemptions s.
Proof.
  induction ids as [|id ids IH]; intros s fin Hcore Hfin; cbn [finish_all].
  { exists s. rewrite app_nil_r, !filter_id by (intros; apply not_elem_of_nil).
    split_and!; try done. by apply moves_refl. }
  destruct (finish_request_internal_ok s id Hcore) as (s1 & -> & Ht & Er & Ew & Erun & Ep); [apply Hfin; by left |].
  simpl. destruct (IH s1 (fin ++ [id])) as (s' & E & Hmv & Er' & Ew' & Erun' & Ep').
  - apply Ht.
  - intros x Hx. unfold request_finished. rewrite Er. apply Hfin. by right.
  - assert (Hff : ∀ l : list RequestId, filter (λ x, x ∉ ids) (retain_not id l) = filter (λ x, x ∉ id :: ids) l).
    { intros l. unfold retain_not. rewrite list_filter_filter. apply list_filter_iff. intros x. set_solver. }
    exists s'. rewrite Ew', Ew, Erun', Erun, !Hff. unfold push_finished. simpl.
    rewrite <- app_assoc in E. split_and!; [exact E | | congruence | done | done | congruence].
    apply (moves_trans [id] ids _ s s1 s'); [by apply touches_moves1 | exact Hmv | set_solver | set_solver].
Qed.

(** The invariant of [running_loop]: [todo] are the requests still to visit. *)
Record loop_inv (s0 : Scheduler) (todo : list RequestId) (l : RunningLoop) : Prop := {
  li_core : core (rl_s l);
  li_frame : frame s0 (rl_s l);
  li_waiting : s_waiting (rl_s l) = s_waiting s0;
  li_running : s_running (rl_s l) = s_running s0;
  li_finished : s_finished (rl_s l) = s_finished s0;
  li_count : s_total_preemptions (rl_s l) = s_total_preemptions s0;
  li_nodup : NoDup (todo ++ rl_preempt l);
  li_sub : ∀ id, id ∈ todo ++ rl_preempt l →
    id ∈ s_running s0 ∧ status_of (rl_s l) id = Some Running ∧ id ∉ sched_ids (rl_out l);
  li_out : out_ok (rl_s l) (rl_out l) (rl_budget l);
}.

Lemma status_of_touches id id' s s' : touches id s s' → id' ≠ id → status_of s' id' = status_of s id'.
Proof. intros Ht Hne. unfold status_of. by rewrite (to_reqs _ _ _ Ht). Qed.

Lemma running_loop_ok k max_budget todo : ∀ s0 l,
  loop_inv s0 todo l → spec_bound k s0 → max_budget = max_num_scheduled_tokens (s_config s0) → rl_total l ≤ rl_budget l →
  (running_loop max_budget todo l = None
   ∧ ∃ id req, id ∈ todo ∧ s_requests s0 !! id = Some req ∧ drafts_overflow s0 req)
  ∨ ∃ l', running_loop max_budget todo l = Some l' ∧ loop_inv s0 [] l'
    ∧ rl_budget l' ≤ Nat.max (rl_budget l) (max_budget + k)
    ∧ rl_total l' + rl_budget l = rl_total l + rl_budget l'
    ∧ scheduled_new (rl_out l') = scheduled_new (rl_out l)
    ∧ scheduled_cached (rl_out l') = scheduled_cached (rl_out l)
    ∧ preempted (rl_out l') = preempted (rl_out l)
    ∧ finished_ids (rl_out l') = finished_ids (rl_out l).
Proof.
  induction todo as [|id todo IH]; intros s0 l Hinv Hk Hmb Hle; cbn [running_loop].
  { right. exists l. split_and!; try done; lia. }
  destruct (Nat.leb_spec max_budget (rl_budget l)) as [Hfull|Hroom].
  { right. exists l. destruct Hinv as [C F W R Fi Co N S O]. split_and!; try done; try lia.
    split; try done; simpl in *.
    - apply NoDup_cons in N as [_ N]. by apply NoDup_app in N as (_ & _ & ?).
    - intros x Hx. apply S. set_solver. }
  pose proof Hinv as [C F W R Fi Co N S O].
  apply NoDup_cons in N as [Hid N]. destruct (S id) as (Hin & Hst & Hns); [by left |].
  destruct (decode_one_ok (rl_s l) id C) as [(E & req & Hreq & Hc & Ho)|(d & s' & E & Ht & Ew & Er & Ef & Ep & Hd)];
    [by rewrite R | done | |].
  { left. rewrite E. split; [done |]. destruct (overflow_frame s0 (rl_s l) id req F Hreq) as (req0 & H0 & Ho0).
    - unfold drafts_overflow. lia.
    - exists id, req0. split; [by left | done]. }
  rewrite E. simpl.
  assert (Hnext : ∀ r : option RunningLoop, (r = None ∧ (∃ id req, id ∈ todo ∧ s_requests s0 !! id = Some req ∧ drafts_overflow s0 req)) →
    r = None ∧ ∃ id' req, id' ∈ id :: todo ∧ s_requests s0 !! id' = Some req ∧ drafts_overflow s0 req).
  { intros r (-> & x & req & Hx & Hr). split; [done |]. exists x, req. split; [by right | done]. }
  assert (Hsched : ∀ x, x ∈ sched_ids (rl_out l) → x ∉ [id] ∧ x ∈ s_running s').
  { intros x Hx. split; [intros ->%list_elem_of_singleton; done |]. rewrite Er. by apply O. }
  pose proof (out_ok_moves _ _ _ _ _ O (touches_moves1 _ _ _ Ht) Hsched) as O'.
  assert (Hrest : ∀ x, x ∈ todo ++ rl_preempt l →
    x ∈ s_running s0 ∧ status_of s' x = Some Running ∧ x ∉ sched_ids (rl_out l)).
  { intros x Hx. destruct (S x) as (A & B & D); [by right |]. split_and!; [done | | done].
    rewrite (status_of_touches _ _ _ _ Ht); [done | by intros ->]. }
  pose proof (frame_trans _ _ _ F (to_frame _ _ _ Ht)) as F'.
  destruct d as [| |n t].
  - destruct (IH s0 (mkRunningLoop s' (rl_out l) (rl_budget l) (rl_total l) (rl_preempt l)))
      as [Hn|(l' & -> & Hl' & Hrest')]; [| done | done | done | left; by apply Hnext | right; by exists l'].
    split; simpl; try congruence; try done. apply Ht.
  - destruct (IH s0 (mkRunningLoop s' (rl_out l) (rl_budget l) (rl_total l) (rl_preempt l ++ [id])))
      as [Hn|(l' & -> & Hl' & Hrest')]; [| done | done | done | left; by apply Hnext | right; by exists l'].
    split; simpl; try congruence; try done; [apply Ht | |].
    + rewrite app_assoc, (Permutation_app_comm _ [id]). by constructor.
    + intros x. rewrite app_assoc, elem_of_app, list_elem_of_singleton. intros [Hx| ->]; [by apply Hrest |].
      by split_and!.
  - destruct Hd as (Hst' & (req & Hreq & ->) & _ & _ & [tb ->] & Htb).
    destruct (add_checked_case (rl_budget l) (1 + spec_k req)) as [[Hb ->]|[Hb ->]]; cycle 1.
    { left. split; [done |]. destruct (overflow_frame s0 (rl_s l) id req F Hreq) as (req0 & H0 & Ho0).
      - unfold drafts_overflow. rewrite (fr_config _ _ F). lia.
      - exists id, req0. split; [by left | done]. }
    destruct (add_checked_case (rl_total l) (1 + spec_k req)) as [[Ht2 ->]|[Ht2 ->]]; [| lia]. cbn [mbind option_bind].
    destruct (IH s0 (mkRunningLoop s' (push_running id (1 + spec_k req) (Some tb) (rl_out l))
      (rl_budget l + (1 + spec_k req)) (rl_total l + (1 + spec_k req)) (rl_preempt l)))
      as [Hn|(l' & -> & Hl' & B & T & R1 & R2 & R3 & R4)]; [| done | done | simpl; lia | left; by apply Hnext | right].
    + split; simpl; try congruence; [apply Ht | done | |].
      * intros x Hx. destruct (Hrest x Hx) as (A & B & D). split_and!; [done | done |].
        rewrite sched_ids_elem in *. simpl. rewrite !elem_of_app, list_elem_of_singleton.
        assert (x ≠ id) by (by intros ->). tauto.
      * eapply (out_ok_push s' (rl_out l) _ id); [exact O' | done | by rewrite Er, R | lia | exact Htb | | | done | done].
        -- unfold sched_ids. simpl. solve_Permutation.
        -- intros x. simpl. rewrite elem_of_app, list_elem_of_singleton. tauto.
    + simpl in *. exists l'. pose proof (spec_bound_frame _ _ _ F Hk id req Hreq). split_and!; try done; lia.
Qed.

Lemma out_ok_fields s o o' budget :
  out_ok s o budget → scheduled_new o' = scheduled_new o → scheduled_cached o' = scheduled_cached o →
  scheduled_running o' = scheduled_running o → num_scheduled_tokens o' = num_scheduled_tokens o →
  block_tables o' = block_tables o → out_ok s o' budget.
Proof.
  intros [N R T D B] E1 E2 E3 E4 E5. unfold sched_ids in *.
  split; unfold sched_ids; by rewrite ?E1, ?E2, ?E3, ?E4, ?E5.
Qed.

(** A request is live while it waits or runs. *)
Definition live (s : Scheduler) (id : RequestId) : Prop := id ∈ Queue.iter (s_waiting s) ∨ id ∈ s_running s.

Lemma preempt_all_ok ids : ∀ s o budget,
  core s → NoDup ids →
  (∀ id, id ∈ ids → id ∈ s_running s ∧ status_of s id = Some Running ∧ id ∉ sched_ids o) →
  out_ok s o budget →
  ∃ s' o', preempt_all s o ids = Some (s', o') ∧ core s' ∧ frame s s' ∧ out_ok s' o' budget
    ∧ s_running s' = filter (λ x, x ∉ ids) (s_running s) ∧ s_finished s' = s_finished s
    ∧ s_total_preemptions s' = s_total_preemptions s + length ids
    ∧ preempted o' = preempted o ++ ids ∧ finished_ids o' = finished_ids o
    ∧ (∀ x, live s' x → live s x) ∧ scheduled_running o' = scheduled_running o.
Proof.
  induction ids as [|id ids IH]; intros s o budget Hcore Hnd Hids Hout; cbn [preempt_all].
  { exists s, o. rewrite app_nil_r, filter_id by (intros; apply not_elem_of_nil).
    split_and!; try done. apply frame_refl. }
  apply NoDup_cons in Hnd as [Hid Hnd]. destruct (Hids id) as (Hin & Hst & Hns); [by left |].
  destruct (preempt_request_ok s id Hcore Hin Hst) as (s1 & -> & Ht & Ew & Er & Ef & _ & _ & _ & Ep). simpl.
  destruct (IH s1 (push_preempted id o) budget) as (s' & o' & E & C & F & O & Er' & Ef' & Ep' & Epr & Efi & Li & Sr).
  - apply Ht.
  - done.
  - intros x Hx. destruct (Hids x) as (A & B & D); [by right |]. assert (x ≠ id) by (by intros ->).
    split_and!; [by rewrite Er, retain_not_elem | by rewrite (status_of_touches _ _ _ _ Ht) | done].
  - apply (out_ok_fields s1 o); [| done ..].
    apply (out_ok_moves s s1 o budget [id]); [done | by apply touches_moves1 |].
    intros x Hx. assert (x ≠ id) by (by intros ->).
    split; [by intros ?%list_elem_of_singleton |]. rewrite Er, retain_not_elem. split; [done | by apply Hout].
  - exists s', o'. split_and!; try done; try congruence.
    + eapply frame_trans; [apply Ht | done].
    + rewrite Er', Er. unfold retain_not. rewrite list_filter_filter. apply list_filter_iff. intros x. set_solver.
    + rewrite Ep', Ep. simpl. lia.
    + rewrite Epr. simpl. by rewrite <- app_assoc.
    + intros x Hx. apply Li in Hx. unfold live in *. rewrite Ew, Er, retain_not_elem, elem_of_cons in Hx.
      destruct Hx as [[->|?]|[_ ?]]; auto.
Qed.

Section step.
Context (sha256 : list byte → list byte) (xxh3_64 : list byte → N).

Lemma waiting_loop_ok fuel : ∀ max_budget s o budget total,
  Queue.len (s_waiting s) ≤ fuel → core s → out_ok s o budget →
  length (s_running s) ≤ max_num_seqs (s_config s) →
  ∃ s' o' budget' total', waiting_loop sha256 xxh3_64 fuel max_budget s o budget total = Some (s', o', budget', total')
    ∧ core s' ∧ frame s s' ∧ out_ok s' o' budget'
    ∧ length (s_running s') ≤ max_num_seqs (s_config s')
    ∧ budget' ≤ Nat.max budget max_budget ∧ total' + budget = total + budget'
    ∧ s_running s `prefix_of` s_running s' ∧ s_finished s' = s_finished s
    ∧ s_total_preemptions s' = s_total_preemptions s
    ∧ preempted o' = preempted o ∧ finished_ids o' = finished_ids o
    ∧ scheduled_running o' = scheduled_running o ∧ (∀ x, live s' x → live s x).
Proof.
  induction fuel as [|fuel IH]; intros max_budget s o budget total Hfuel Hcore Hout Hmax; cbn [waiting_loop].
  all: destruct (Queue.is_empty (s_waiting s)) eqn:Ee; simpl;
    [exists s, o, budget, total; split_and!; try done; try lia; apply frame_refl |].
  { rewrite len_iter in Hfuel. rewrite is_empty_iter in Ee. apply bool_decide_eq_false in Ee.
    by destruct (Queue.iter (s_waiting s)); simpl in Hfuel; [| lia]. }
  destruct (Nat.leb_spec max_budget budget) as [Hfull|Hroom].
  { exists s, o, budget, total; split_and!; try done; try lia; apply frame_refl. }
  destruct (admit_one_ok sha256 xxh3_64 s budget max_budget Hcore) as (a & s1 & -> & Hmv & Ef & Ep & Hpost). simpl.
  pose proof (mv_frame _ _ _ Hmv) as Hf. pose proof (mv_core _ _ _ Hmv) as Hcore1.
  assert (Hsched : ∀ id, id ∈ sched_ids o → id ∉ Queue.iter (s_waiting s) ∧ id ∈ s_running s).
  { intros id Hid. pose proof (oo_running _ _ _ Hout id Hid) as Hr. split; [| done].
    intros Hw. by apply (po_disj _ _ _ _ _ _ _ (co_point _ _ _ _ _ _ Hcore id) Hw). }
  (* an admission, then the rest of the loop *)
  assert (Hgo : ∀ id o1 n total1, id ∈ Queue.iter (s_waiting s) → length (s_running s) < max_num_seqs (s_config s) →
    Queue.iter (s_waiting s1) = retain_not id (Queue.iter (s_waiting s)) → s_running s1 = s_running s ++ [id] →
    budget + n ≤ Nat.max budget max_budget → total1 = total + n →
    preempted o1 = preempted o → finished_ids o1 = finished_ids o → scheduled_running o1 = scheduled_running o →
    (out_ok s1 o budget → out_ok s1 o1 (budget + n)) →
    ∃ s' o' budget' total', waiting_loop sha256 xxh3_64 fuel max_budget s1 o1 (budget + n) total1 = Some (s', o', budget', total')
      ∧ core s' ∧ frame s s' ∧ out_ok s' o' budget'
      ∧ length (s_running s') ≤ max_num_seqs (s_config s')
      ∧ budget' ≤ Nat.max budget max_budget ∧ total' + budget = total + budget'
      ∧ s_running s `prefix_of` s_running s' ∧ s_finished s' = s_finished s
      ∧ s_total_preemptions s' = s_total_preemptions s
      ∧ preempted o' = preempted o ∧ finished_ids o' = finished_ids o
      ∧ scheduled_running o' = scheduled_running o ∧ (∀ x, live s' x → live s x)).
  { intros id o1 n total1 Hin Hlt Ew Er Hn -> P1 P2 P3 Hpush.
    destruct (IH max_budget s1 o1 (budget + n) (total + n)) as
      (s' & o' & b' & t' & -> & C & F & O & M & B & T & Pr & Fi & Pe & Q1 & Q2 & Q3 & Li); [| done | | |].
    - rewrite len_iter in Hfuel |- *. rewrite Ew. unfold retain_not.
      apply list_elem_of_split in Hin as (l1 & l2 & Hl). rewrite Hl in Hfuel |- *.
      rewrite filter_app, filter_cons_False by naive_solver. rewrite length_app in Hfuel |- *. simpl in Hfuel.
      pose proof (length_filter (λ x, x ≠ id) l1). pose proof (length_filter (λ x, x ≠ id) l2). lia.
    - apply Hpush. eapply out_ok_moves; [exact Hout | exact Hmv |]. intros x Hx.
      destruct (Hsched x Hx). split; [done |]. rewrite Er. set_solver.
    - rewrite (fr_config _ _ Hf), Er, length_app. simpl. lia.
    - exists s', o', b', t'. split_and!; try done; try congruence; try lia.
      + by eapply frame_trans.
      + etrans; [| exact Pr]. rewrite Er. by apply prefix_app_r.
      + intros x Hx. apply Li in Hx. unfold live in *. rewrite Ew, Er, retain_not_elem, elem_of_app in Hx.
        destruct Hx as [[_ ?]|[?| ->%list_elem_of_singleton]]; auto. }
  destruct a as [|id|id n t]; simpl in Hpost.
  - destruct Hpost as [Ew Er]. exists s1, o, budget, total. split_and!; try done; try lia.
    + eapply out_ok_moves; [exact Hout | exact Hmv |]. intros id Hid. rewrite Er. by apply Hsched.
    + by rewrite Er, (fr_config _ _ Hf).
    + by rewrite Er.
    + intros x. unfold live. by rewrite Ew, Er.
  - destruct Hpost as (Hin & Hlt & Ew & Er & Hst & _).
    pose proof (Hgo id (push_cached id o) 0 total) as Hg. rewrite Nat.add_0_r in Hg.
    apply Hg; try done; try lia.
    intros O. apply out_ok_cached; [done | | rewrite Er; set_solver].
    intros Hx. by apply Hsched in Hx as [? _].
  - destruct Hpost as (Hin & Hlt & Ew & Er & Hst & Hn & Hb & [tb ->] & Htb).
    apply (Hgo id (push_new id n (Some tb) o) n (total + n)); try done.
    intros O. eapply (out_ok_push s1 o _ id n tb); try done.
    + intros Hx. by apply Hsched in Hx as [? _].
    + rewrite Er. set_solver.
    + unfold sched_ids. simpl. solve_Permutation.
    + intros x. simpl. rewrite elem_of_app, list_elem_of_singleton. tauto.
Qed.

(** What a step of a scheduler that is not paused guarantees. *)
Record step_post (k : nat) (s : Scheduler) (out : SchedulerOutput) (s' : Scheduler) : Prop := {
  sp_inv : sched_inv s';
  sp_frame : frame s s';
  sp_out : out_ok s' out (token_budget_used out);
  sp_budget : token_budget_used out ≤ max_num_scheduled_tokens (s_config s) + k;
  sp_finished : ∀ id, id ∈ finished_ids out ↔ request_finished s id = true;
  sp_gone : ∀ id, request_finished s id = true → ¬ live s' id ∧ request_blocks (s_kv s') !! id = None;
  sp_live : ∀ id, live s' id → live s id;
  sp_stats : stats out = mkStats (num_waiting s') (num_running s') (length (finished_ids out))
               (s_total_preemptions s') (st_prefill_tokens (stats out)) (st_decode_tokens (stats out))
    ∧ st_prefill_tokens (stats out) + st_decode_tokens (stats out) = token_budget_used out
    ∧ s_total_preemptions s' = s_total_preemptions s + length (preempted out);
  sp_preempted : ∀ id, id ∈ preempted out → id ∈ s_running s ∧ id ∉ scheduled_running out;
}.

Lemma step_ok order s k :
  sched_inv s → (∀ id, id ∈ order ↔ is_Some (s_requests s !! id)) → spec_bound k s →
  s_paused s = false →
  (step sha256 xxh3_64 order s = None
   ∧ ∃ id req, id ∈ s_running s ∧ s_requests s !! id = Some req ∧ drafts_overflow s req)
  ∨ ∃ out s', step sha256 xxh3_64 order s = Some (out, s') ∧ step_post k s out s'.
Proof.
  intros [Hcore Hmax] Horder Hk Hp. unfold step. rewrite Hp. unfold process_finished.
  set (ids := filter _ order). unfold output_empty.
  assert (Hids : ∀ id, id ∈ ids ↔ request_finished s id = true).
  { intros id. subst ids. rewrite list_elem_of_filter, Horder. split; [by intros [? _] |].
    intros Hf. split; [done |]. unfold request_finished in Hf. by destruct (s_requests s !! id). }
  destruct (finish_all_ok ids s [] Hcore) as (s1 & -> & Hmv1 & Er1 & Ew1 & Erun1 & Ep1); [by intros id; rewrite Hids |].
  simpl. pose proof (mv_core _ _ _ Hmv1) as C1. pose proof (mv_frame _ _ _ Hmv1) as F1.
  assert (Hst1 : ∀ id, id ∈ s_running s1 → status_of s1 id = Some Running).
  { intros id Hid. destruct (co_point _ _ _ _ _ _ C1 id) as [_ P2 _ _ P5 _ _].
    destruct (P2 (or_intror Hid)) as [req Hreq]. destruct (P5 req Hreq Hid) as [[Hs|Hs] _];
      unfold status_of; rewrite Hreq; simpl; [by rewrite Hs |].
    rewrite Erun1 in Hid. apply list_elem_of_filter in Hid as [Hn _]. exfalso. apply Hn, Hids.
    unfold request_finished. rewrite <- Er1, Hreq, Hs. done. }
  (* running requests *)
  unfold schedule_running.
  destruct (running_loop_ok k (max_num_scheduled_tokens (s_config s)) (s_running s1) s1
    (mkRunningLoop s1 (mkOutput [] [] [] ∅ ∅ 0 [] ids stats_default) 0 0 []))
    as [(E2 & id & req & Hid & Hreq & Ho)|(l & -> & [C2 F2 W2 R2 Fi2 Co2 N2 S2 O2] & B2 & T2 & Z1 & Z2 & Z3 & Z4)].
  { split; try done; simpl; [apply frame_refl | rewrite app_nil_r; apply C1 | | apply out_ok_empty].
    intros id. rewrite app_nil_r. intros Hid. split_and!; [done | by apply Hst1 | by apply not_elem_of_nil]. }
  { by apply (spec_bound_frame _ s). }
  { by rewrite (fr_config _ _ F1). }
  { done. }
  { left. rewrite E2. split; [done |]. exists id, req. rewrite Erun1 in Hid. apply list_elem_of_filter in Hid as [_ Hid].
    rewrite Er1 in Hreq. split_and!; [done | done |]. unfold drafts_overflow in *. by rewrite <- (fr_config _ _ F1), <- (fr_max _ _ F1). }
  right. simpl in *. destruct (preempt_all_ok (rl_preempt l) (rl_s l) (rl_out l) (rl_budget l))
    as (s3 & o3 & -> & C3 & F3 & O3 & R3 & Fi3 & P3 & Pr3 & Fn3 & L3 & Sr3); [done | done | | done |].
  { intros id Hid. destruct (S2 id Hid) as (A & B & D). by rewrite R2. }
  simpl.
  (* waiting requests *)
  assert (F13 : frame s s3) by (by eapply frame_trans; [| eapply frame_trans]).
  destruct (waiting_loop_ok (Queue.len (s_waiting s3)) (max_num_scheduled_tokens (s_config s)) s3 o3 (rl_budget l) 0)
    as (s4 & o4 & b4 & t4 & E4 & C4 & F4 & O4 & M4 & B4 & T4 & _ & Fi4 & P4 & Pr4 & Fn4 & Sr4 & L4);
    [done | done | done | |].
  { rewrite (fr_config _ _ F13), R3, R2, Erun1. etrans; [apply length_filter |]. etrans; [apply length_filter | done]. }
  unfold schedule_waiting. rewrite E4. simpl. eexists _, s4. split; [done |].
  assert (Hlive : ∀ id, live s4 id → live s1 id).
  { intros id Hid. apply L4, L3 in Hid. unfold live in *. by rewrite W2, R2 in Hid. }
  assert (Fend : frame s s4) by (by eapply frame_trans).
  split; simpl.
  - done.
  - done.
  - eapply out_ok_fields; [exact O4 | done ..].
  - lia.
  - intros id. by rewrite Fn4, Fn3, Z4.
  - intros id Hf. assert (¬ live s4 id) as Hn.
    { intros Hl%Hlive. apply Hids in Hf. unfold live in Hl. rewrite Ew1, Erun1, !list_elem_of_filter in Hl. tauto. }
    split; [done |]. destruct (request_blocks (s_kv s4) !! id) eqn:E; [| done]. exfalso. apply Hn.
    apply (po_live _ _ _ _ _ _ _ (co_point _ _ _ _ _ _ C4 id)). by eexists.
  - intros id Hl%Hlive. unfold live in *. rewrite Ew1, Erun1, !list_elem_of_filter in Hl. tauto.
  - split_and!; [done | lia |]. rewrite P4, P3, Co2, Ep1, Pr4, Pr3, Z3. done.
  - intros id. rewrite Pr4, Pr3, Z3, Sr4. simpl. intros Hid. destruct (S2 id Hid) as (A & _ & D).
    split.
    + rewrite Erun1 in A. by apply list_elem_of_filter in A as [_ ?].
    + rewrite Sr3. intros Hs. apply D. rewrite sched_ids_elem. tauto.
Qed.

(** ** The other entry points *)
Lemma scheduler_new_inv config cc nblocks maxlen :
  0 < cc_block_size cc →
  ∃ s, scheduler_new config cc nblocks maxlen = Some s ∧ sched_inv s ∧ s_requests s = ∅.
Proof.
  intros Hbs. unfold scheduler_new.
  destruct (manager_new_rep (mkKVCacheConfig nblocks
    (mkKVCacheSpec (cc_block_size cc) 1 1 1 DT_F16 (cc_sliding_window cc)))
    (cc_enable_prefix_caching cc) (cc_prefix_hash_algorithm cc) Hbs)
    as (kv & -> & Hm & Hinv & Hb & Hs & _ & Hc & _). simpl.
  eexists. split; [done |]. split; [| done]. split; [| simpl; lia]. split; simpl.
  - eauto.
  - done.
  - unfold bsize. by rewrite Hs.
  - apply NoDup_nil_2.
  - apply NoDup_nil_2.
  - intros id. split; simpl.
    + by intros ?%not_elem_of_nil.
    + by intros [?%not_elem_of_nil|?%not_elem_of_nil].
    + rewrite Hb, lookup_empty. by intros [? ?].
    + intros req. by rewrite lookup_empty.
    + intros req. by rewrite lookup_empty.
    + intros req. by rewrite lookup_empty.
    + intros _ _. unfold computed, KVCacheManager.get_computed_tokens. by rewrite Hc, lookup_empty.
Qed.

Lemma add_request_inv s req :
  sched_inv s → s_requests s !! request_id req = None → sched_inv (add_request s req).
Proof.
  intros [Hcore Hmax] Hnew. split; [| done]. pose proof Hcore as [[q Hm] Hinv Hbs Hw Hr Hp].
  set (id := request_id req) in *. destruct (Hp id) as [P1 P2 P3 P4 P5 P6 P7].
  assert (Hnl : ¬ live s id). { intros Hl. apply P2 in Hl as [? ?]. congruence. }
  assert (Hb : request_blocks (s_kv s) !! id = None).
  { destruct (request_blocks (s_kv s) !! id) eqn:E; [| done]. exfalso. apply Hnl, P3. by eexists. }
  assert (Hiter : Queue.iter (Queue.push (s_waiting s) id (priority req) (arrival_time req))
                  ≡ₚ id :: Queue.iter (s_waiting s)).
  { apply push_new_keys. intros ?. apply Hnl. by left. }
  unfold add_request. fold id. simpl.
  set (w' := Queue.push _ _ _ _) in *.
  eapply (core_inv_point id); [exact Hcore | by apply (kv_local_refl id _ q) | | | done | |]; simpl.
  - intros id' Hne. by rewrite lookup_insert_ne.
  - rewrite Hiter. constructor; [intros ?; apply Hnl; by left | done].
  - intros id' Hne. rewrite Hiter, elem_of_cons. tauto.
  - assert (id ∈ Queue.iter w') as Hin by (rewrite Hiter; by left).
    split; simpl; rewrite ?lookup_insert_eq.
    + intros _ Hin'. apply Hnl. by right.
    + by eexists.
    + by left.
    + intros r [= <-] _. split_and!; [done | unfold table; by rewrite Hb | done |].
      simpl. rewrite P7; [done | intros ?; apply Hnl; by left | intros ?; apply Hnl; by right].
    + intros r _ Hin'. exfalso. apply Hnl. by right.
    + by intros r _ Hn.
    + by intros Hn.
Qed.

Lemma abort_request_inv s id :
  sched_inv s → ∃ s', abort_request s id = Some s' ∧ sched_inv s'
    ∧ ¬ live s' id ∧ request_blocks (s_kv s') !! id = None ∧ s_requests s' = delete id (s_requests s).
Proof.
  intros [Hcore Hmax]. pose proof Hcore as [[q Hm] Hinv Hbs Hw Hr Hp].
  unfold abort_request. simpl. destruct (kv_free (s_kv s) q Hm Hinv id) as (kv' & -> & Hkl & Hb & Hc). simpl.
  assert (Hiter : Queue.iter (Queue.remove (s_waiting s) id).2 = retain_not id (Queue.iter (s_waiting s)))
    by apply remove_keys. simpl in Hiter.
  eexists. split; [done |]. unfold live. simpl. rewrite Hiter.
  split_and!; [split | by intros [[? _]%retain_not_elem|[? _]%retain_not_elem] | done | done].
  - eapply (core_inv_point id); [exact Hcore | exact Hkl | | | by apply retain_not_NoDup | |]; simpl; rewrite ?Hiter.
    + intros id' Hne. by rewrite lookup_delete_ne.
    + by apply retain_not_NoDup.
    + intros id' Hne. rewrite !retain_not_elem. set_solver.
    + split; rewrite ?lookup_delete_eq.
      * by intros [? _]%retain_not_elem.
      * by intros [[? _]%retain_not_elem|[? _]%retain_not_elem].
      * rewrite Hb. by intros [? ?].
      * by intros req.
      * by intros req.
      * by intros req.
      * done.
  - simpl. etrans; [apply length_filter | done].
Qed.

Lemma abort_request_other s s' id id' :
  sched_inv s → abort_request s id = Some s' → id' ≠ id →
  (live s' id' ↔ live s id') ∧ request_blocks (s_kv s') !! id' = request_blocks (s_kv s) !! id'.
Proof.
  intros [Hcore _] Ha Hne. pose proof Hcore as [[q Hm] Hinv _ _ _ _].
  unfold abort_request in Ha. simpl in Ha.
  destruct (kv_free (s_kv s) q Hm Hinv id) as (kv' & E & Hkl & _). rewrite E in Ha. simpl in Ha.
  injection Ha as <-. unfold live. simpl.
  assert (Hiter : Queue.iter (Queue.remove (s_waiting s) id).2 = retain_not id (Queue.iter (s_waiting s)))
    by apply remove_keys. simpl in Hiter. rewrite Hiter, !retain_not_elem.
  split; [tauto | apply (kl_other _ _ _ Hkl id' Hne)].
Qed.

Lemma reset_inv s s' :
  sched_inv s → scheduler_reset_prefix_cache s = Ok s' →
  sched_inv s' ∧ s_requests s' = s_requests s ∧ request_blocks (s_kv s) = ∅.
Proof.
  intros [Hcore Hmax]. pose proof Hcore as [[q Hm] Hinv Hbs Hw Hr Hp].
  unfold scheduler_reset_prefix_cache. pose proof (manager_reset_rep (s_kv s) q Hm) as Hreset.
  unfold KVCacheManager.reset_prefix_cache in *. case_bool_decide; [| done].
  destruct (BlockPool.BlockPool.reset_prefix_cache (block_pool (s_kv s))) as [p|e]; [| done].
  intros [= <-]. destruct Hreset as (Hemp & Hm' & Hinv' & _). split_and!; [split; [| done] | done | done].
  split; simpl; try done; [by exists q |]. intros id. destruct (Hp id). by split.
Qed.

(** ** Reachable schedulers *)
Inductive SchedOp : Type :=
  | SAdd (req : InferenceRequest Value)
  | SAbort (id : RequestId)
  | SStep (order : list RequestId)
  | SPause
  | SResume
  | SReset.

Definition sched_apply (s : Scheduler) (op : SchedOp) : option Scheduler :=
  match op with
  | SAdd req => Some (add_request s req)
  | SAbort id => abort_request s id
  | SStep order => snd <$> step sha256 xxh3_64 order s
  | SPause => Some (pause s)
  | SResume => Some (resume s)
  | SReset => Some (match scheduler_reset_prefix_cache s with Ok s' => s' | Err _ => s end)
  end.

(** Request ids are fresh, and [order] lists the keys of the request map. *)
Definition sched_op_ok (s : Scheduler) (op : SchedOp) : Prop :=
  match op with
  | SAdd req => s_requests s !! request_id req = None
  | SStep order => ∀ id, id ∈ order ↔ is_Some (s_requests s !! id)
  | _ => True
  end.

Inductive sched_reach (config : SchedulerConfig) (cc : CacheConfig) (nblocks maxlen : nat) : Scheduler → Prop :=
  | sched_reach_new s : scheduler_new config cc nblocks maxlen = Some s → sched_reach config cc nblocks maxlen s
  | sched_reach_op s op s' :
      sched_reach config cc nblocks maxlen s → sched_op_ok s op → sched_apply s op = Some s' →
      sched_reach config cc nblocks maxlen s'.

Lemma spec_bound_exists s : ∃ k, spec_bound k s.
Proof.
  unfold spec_bound. induction (s_requests s) as [|id req m Hm [k Hk]] using map_ind.
  - exists 0. intros id req. by rewrite lookup_empty.
  - exists (Nat.max k (spec_k req)). intros id' req'.
    destruct (decide (id' = id)) as [->|Hne].
    + rewrite lookup_insert_eq. intros [= <-]. lia.
    + rewrite lookup_insert_ne by done. intros Hr. specialize (Hk id' req' Hr). lia.
Qed.

(** A step of a scheduler with a running request whose draft tokens do not fit a
    [usize] next to the length limit and the budget. *)
Definition step_overflows (s : Scheduler) (op : SchedOp) : Prop :=
  match op with
  | SStep _ => s_paused s = false ∧ ∃ id req, id ∈ s_running s ∧ s_requests s !! id = Some req ∧ drafts_overflow s req
  | _ => False
  end.

Lemma spec_bound_fits k s req id :
  spec_bound k s → (N.of_nat (Nat.max (s_max_model_len s) (max_num_scheduled_tokens (s_config s)) + k) <= u64_max)%N →
  s_requests s !! id = Some req → ¬ drafts_overflow s req.
Proof. intros Hk Hfit Hreq. pose proof (Hk id req Hreq). unfold drafts_overflow. lia. Qed.

Lemma sched_apply_inv s op :
  sched_inv s → sched_op_ok s op →
  (sched_apply s op = None ∧ step_overflows s op) ∨ ∃ s', sched_apply s op = Some s' ∧ sched_inv s'.
Proof.
  intros Hinv Hop. destruct op as [req|id|order| | |]; simpl in *; [right | right | | right ..].
  - eexists. split; [done |]. by apply add_request_inv.
  - destruct (abort_request_inv s id Hinv) as (s' & -> & Hinv' & _). eauto.
  - destruct (s_paused s) eqn:Ep.
    + right. exists s. unfold step. rewrite Ep. done.
    + destruct (spec_bound_exists s) as [k Hk].
      destruct (step_ok order s k Hinv Hop Hk Ep) as [(-> & Ho)|(out & s' & -> & Hpost)]; [by left | right]. simpl.
      exists s'. split; [done | apply Hpost].
  - eexists. split; [done |]. by destruct Hinv.
  - eexists. split; [done |]. by destruct Hinv.
  - destruct (scheduler_reset_prefix_cache s) as [s'|e] eqn:E; [| by exists s].
    exists s'. split; [done |]. by apply (reset_inv s).
Qed.

Lemma sched_reach_inv config cc nblocks maxlen s :
  0 < cc_block_size cc → sched_reach config cc nblocks maxlen s → sched_inv s.
Proof.
  intros Hbs. induction 1 as [s Hs | s op s' _ IH Hop Hs].
  - destruct (scheduler_new_inv config cc nblocks maxlen Hbs) as (s' & E & Hinv & _). by simplify_eq.
  - destruct (sched_apply_inv s op IH Hop) as [[E _]|(s'' & E & Hinv)]; by simplify_eq.
Qed.



(** A running request with too many draft tokens panics the step that decodes it:
    nothing checks [num_speculative_tokens] when the request is added. *)
Lemma decode_overflow_panics s id req :
  0 < s_block_size s → s_requests s !! id = Some req → sr_num_computed_tokens req < s_max_model_len s →
  (u64_max < N.of_nat (sr_num_computed_tokens req + (1 + spec_k req)))%N → decode_one s id = None.
Proof.
  intros Hbs Hreq Hlt Ho. unfold decode_one. rewrite Hreq, (proj2 (Nat.leb_gt _ _)) by done.
  destruct (add_checked_case 1 (spec_k req)) as [[_ ->]|[_ ->]]; [| done]. cbn [mbind option_bind].
  rewrite div_ceil_pos by done. cbn [mbind option_bind].
  destruct (add_checked_case (sr_num_computed_tokens req) (1 + spec_k req)) as [[H _]|[_ ->]]; [lia | done].
Qed.

(** A step keeps every request, its parameters and its prompt, and moves its
    status only along the transitions of the status machine. *)
Theorem step_status_path config cc nblocks maxlen s order out s' id req
    (Hbs : 0 < cc_block_size cc) (Hreach : sched_reach config cc nblocks maxlen s)
    (Horder : ∀ id, id ∈ order ↔ is_Some (s_requests s !! id))
    (Hstep : step sha256 xxh3_64 order s = Some (out, s'))
    (Hreq : s_requests s !! id = Some req) :
  ∃ req', s_requests s' !! id = Some req'
    ∧ sr_request req' = sr_request req ∧ sr_prompt_token_ids req' = sr_prompt_token_ids req
    ∧ rtc (λ a b, is_ok (transition a b) = true) (sr_status req) (sr_status req')
    ∧ (status_is_finished (sr_status req) = true → sr_status req' = sr_status req).
Proof.
  pose proof (sched_reach_inv _ _ _ _ _ Hbs Hreach) as Hinv.
  assert (frame s s') as Hf.
  { destruct (s_paused s) eqn:Ep.
    - unfold step in Hstep. rewrite Ep in Hstep. injection Hstep as _ <-. apply frame_refl.
    - destruct (spec_bound_exists s) as [k Hk].
      destruct (step_ok order s k Hinv Horder Hk Ep) as [[E _]|(out' & s'' & E & Hpost)]; simplify_eq. apply Hpost. }
  destruct (frame_lookup _ _ _ _ Hf Hreq) as (req' & E & A & B & C). exists req'. split_and!; try done.
  - eapply rtc_subrel; [| exact C]. intros a b Hab. unfold transition. by rewrite Hab.
  - intros Hfin. inversion C as [|x y z Hxy]; [done |]. subst.
    by destruct (sr_status req), y; simpl in Hfin, Hxy.
Qed.

(** Prefix-aware admission: the request chosen from a non-empty waiting queue
    has the largest number of reusable tokens of all waiting requests, and without
    prefix caching it is the front of the queue. *)
Theorem select_longest_prefix config cc nblocks maxlen s first
    (Hbs : 0 < cc_block_size cc) (Hreach : sched_reach config cc nblocks maxlen s)
    (Hfirst : Queue.peek (s_waiting s) = Some first) :
  ∃ best s', select_waiting_request sha256 xxh3_64 s = Some (Some best, s')
    ∧ best ∈ Queue.iter (s_waiting s) ∧ s_waiting s' = s_waiting s
    ∧ (s_enable_prefix_caching s = false → best = first)
    ∧ (s_enable_prefix_caching s = true → ∀ id, id ∈ Queue.iter (s_waiting s) →
         length (table (s_kv s') id) ≤ length (table (s_kv s') best)).
Proof.
  pose proof (sched_reach_inv _ _ _ _ _ Hbs Hreach) as [Hcore _].
  pose proof (select_waiting_request_ok sha256 xxh3_64 s Hcore) as Hsel. rewrite Hfirst in Hsel.
  destruct Hsel as (best & s' & E & Hmv & Ew & _ & _ & _ & Hin & Hf & Hall).
  exists best, s'. split_and!; try done. intros Hpc id Hid. specialize (Hall Hpc id Hid).
  pose proof (mv_core _ _ _ Hmv) as [[q Hm] _ Hb _ _ Hp]. rewrite <- Ew in Hid, Hin.
  assert (∀ x, x ∈ Queue.iter (s_waiting s') → computed_of s' x = length (table (s_kv s') x) * s_block_size s') as Hc.
  { intros x Hx. destruct (Hp x) as [P1 P2 P3 P4 P5 P6 P7]. destruct (P2 (or_introl Hx)) as [req Hreq].
    destruct (P4 req Hreq Hx) as (_ & -> & Hn & _). by rewrite (computed_of_lookup _ _ _ Hreq). }
  rewrite !Hc in Hall by done. pose proof (mr_bs _ _ Hm). rewrite Hb in *. nia.
Qed.

(** ** Progress *)
Lemma waiting_loop_prefix fuel : ∀ max_budget s o budget total r,
  waiting_loop sha256 xxh3_64 fuel max_budget s o budget total = Some r →
  scheduled_new o `prefix_of` scheduled_new r.1.1.2.
Proof.
  induction fuel as [|fuel IH]; intros max_budget s o budget total r; cbn [waiting_loop];
    destruct (_ || _); [by intros [= <-] | done | by intros [= <-] |].
  destruct (admit_one sha256 xxh3_64 s budget max_budget) as [[[|id|id n t] s1]|]; simpl; [| | | done].
  - by intros [= <-].
  - intros H%IH. done.
  - intros H%IH. etrans; [| exact H]. simpl. by apply prefix_app_r.
Qed.

(** Without prefix caching the front of the queue is admitted when its blocks fit. *)
Lemma admit_front s id req budget max_budget :
  core s → s_enable_prefix_caching s = false → length (s_running s) < max_num_seqs (s_config s) →
  Queue.peek (s_waiting s) = Some id → s_requests s !! id = Some req →
  let c := sr_num_computed_tokens req in
  let n := prefill_tokens s (length (sr_prompt_token_ids req) - c) c (max_budget - budget) in
  0 < n → cdiv n (s_block_size s) ≤ cu_num_free_blocks (KVCacheManager.usage (s_kv s)) →
  ∃ s' t, admit_one sha256 xxh3_64 s budget max_budget = Some (ANew id n t, s').
Proof.
  intros Hcore Hpc Hroom Hpk Hreq c n Hn Hfit. pose proof Hcore as [[q Hm] Hinv Hb _ _ _].
  rewrite (free_blocks_usage _ q Hm) in Hfit.
  unfold admit_one. rewrite (proj2 (Nat.leb_gt _ _) Hroom).
  unfold select_waiting_request. rewrite Hpk. simpl. rewrite Hpc. simpl. rewrite Hpc. simpl.
  unfold computed_of. simpl. rewrite Hreq. simpl. fold c.
  pose proof (prefill_tokens_bounds s (length (sr_prompt_token_ids req) - c) c (max_budget - budget)) as Hbd.
  fold n in Hbd. rewrite (proj2 (Nat.eqb_neq _ _)) by lia.
  change (prefill_tokens (with_admission (mkAdmission (Some id) 0) s)) with (prefill_tokens s). fold n.
  rewrite (proj2 (Nat.eqb_neq n 0)) by lia.
  destruct (allocate_slots_rep (s_kv s) q id (c + n) c Hm) as
    [(Hle & _) | [(_ & _ & ids & p & q' & -> & _) | (_ & Hlt & _)]]; [lia | | ].
  - simpl. rewrite Hpc. simpl. eauto.
  - replace (c + n - c) with n in Hlt by lia. rewrite Hb in Hlt. lia.
Qed.

(** C35. Progress: when nothing runs and nothing has finished, a step without
    prefix caching schedules the request at the front of the queue, provided its
    prompt chunk is not empty, a sequence slot exists and its blocks are free. *)
Theorem step_progress config cc nblocks maxlen s order id req
    (Hbs : 0 < cc_block_size cc) (Hreach : sched_reach config cc nblocks maxlen s)
    (Horder : ∀ id, id ∈ order ↔ is_Some (s_requests s !! id))
    (Hp : s_paused s = false) (Hpc : s_enable_prefix_caching s = false)
    (Hrun : s_running s = []) (Hfin : ∀ id, request_finished s id = false)
    (Hseqs : 0 < max_num_seqs (s_config s))
    (Hpk : Queue.peek (s_waiting s) = Some id) (Hreq : s_requests s !! id = Some req)
    (Hn : 0 < prefill_tokens s (length (sr_prompt_token_ids req) - sr_num_computed_tokens req)
                (sr_num_computed_tokens req) (max_num_scheduled_tokens (s_config s)))
    (Hfit : cdiv (prefill_tokens s (length (sr_prompt_token_ids req) - sr_num_computed_tokens req)
                (sr_num_computed_tokens req) (max_num_scheduled_tokens (s_config s))) (s_block_size s)
            ≤ cu_num_free_blocks (KVCacheManager.usage (s_kv s))) :
  ∃ out s', step sha256 xxh3_64 order s = Some (out, s') ∧ id ∈ scheduled_new out.
Proof.
  pose proof (sched_reach_inv _ _ _ _ _ Hbs Hreach) as Hinv. pose proof Hinv as [Hcore _].
  destruct (spec_bound_exists s) as [k Hk].
  destruct (step_ok order s k Hinv Horder Hk Hp) as [(_ & id' & req' & Hid & _)|(out & s' & E & _)];
    [rewrite Hrun in Hid; by apply not_elem_of_nil in Hid |]. exists out, s'. split; [done |].
  unfold step in E. rewrite Hp in E. unfold process_finished in E.
  assert (filter (λ id, request_finished s id = true) order = []) as Hnone.
  { destruct (filter _ order) as [|x l] eqn:Ef; [done |].
    assert (x ∈ filter (λ id, request_finished s id = true) order) as Hx by (rewrite Ef; by left).
    apply list_elem_of_filter in Hx as [Hx _]. by rewrite Hfin in Hx. }
  rewrite Hnone in E. simpl in E. unfold schedule_running in E. rewrite Hrun in E. simpl in E.
  unfold schedule_waiting in E.
  assert (Hne : Queue.is_empty (s_waiting s) = false ∧ Queue.len (s_waiting s) = S (Queue.len (s_waiting s) - 1)).
  { unfold Queue.peek, Queue.is_empty, Queue.len in *. destruct (entries (s_waiting s)); [done |]. simpl. split; [done | lia]. }
  destruct Hne as [Hne Hlen]. rewrite Hlen in E. cbn [waiting_loop] in E. rewrite Hne in E.
  pose proof (prefill_tokens_bounds s (length (sr_prompt_token_ids req) - sr_num_computed_tokens req)
    (sr_num_computed_tokens req) (max_num_scheduled_tokens (s_config s))) as Hbd.
  rewrite (proj2 (Nat.leb_gt _ 0)) in E by lia. cbn [orb] in E.
  destruct (admit_front s id req 0 (max_num_scheduled_tokens (s_config s)) Hcore Hpc) as (s1 & t & Ea);
    [by rewrite Hrun | done | done | by rewrite Nat.sub_0_r | by rewrite Nat.sub_0_r |].
  rewrite Ea in E. simpl in E.
  destruct (waiting_loop _ _ _ _ _ _ _ _) as [[[[s4 o4] b4] t4]|] eqn:Ew; simpl in E; [| done].
  injection E as <- <-. apply waiting_loop_prefix in Ew. simpl in *.
  eapply elem_of_prefix; [| exact Ew]. set_solver.
Qed.
End step.
End scheduler.

(** ** Concrete runs *)

(** Four usable blocks of one token each, prefix caching on. *)
Definition demo_config : SchedulerConfig := mkSchedulerConfig 2 16 8 4 false FCFS 1 false.
Definition demo_cache (pc : bool) : CacheConfig :=
  mkCacheConfig 1 1 F32.one 0 DT_F16 5 pc XxHash None.
Definition demo_request (id : RequestId) (tokens : list TokenId) : InferenceRequest unit :=
  mkInferenceRequest id None (Some tokens) None SamplingParams_default 0 0 false None.

Definition demo_step (s : Scheduler) : option (SchedulerOutput * Scheduler) :=
  step (Value := unit) (λ x, x) toy_digest (elements (dom (s_requests s))) s.
Definition demo_apply (s : Scheduler) (op : SchedOp) : option Scheduler :=
  sched_apply (Value := unit) (λ x, x) toy_digest s op.
Definition demo_empty (pc : bool) : Scheduler :=
  with_kv_cache_manager (Value := unit) demo_config 1 16 pc some_manager.
Definition demo0 (pc : bool) : Scheduler :=
  default (demo_empty pc) (scheduler_new demo_config (demo_cache pc) 5 16).
Definition demo1 (pc : bool) : Scheduler :=
  default (demo_empty pc) (demo_apply (demo0 pc) (SAdd (demo_request 7 [1; 2; 3]%N))).
Definition demo2 (pc : bool) : Scheduler :=
  match demo_step (demo1 pc) with Some (_, s) => s | None => demo_empty pc end.

Lemma demo1_reach pc : sched_reach (λ x, x) toy_digest demo_config (demo_cache pc) 5 16 (demo1 pc).
Proof.
  apply (sched_reach_op _ _ _ _ _ _ (demo0 pc) (SAdd (demo_request 7 [1; 2; 3]%N))).
  - apply sched_reach_new. destruct pc; vm_compute; reflexivity.
  - destruct pc; reflexivity.
  - destruct pc; reflexivity.
Qed.

Lemma demo_order pc id :
  id ∈ elements (dom (s_requests (demo1 pc))) ↔ is_Some (s_requests (demo1 pc) !! id).
Proof. by rewrite elem_of_elements, elem_of_dom. Qed.



Lemma step_status_path_witness :
  ∃ out s' req', demo_step (demo1 true) = Some (out, s') ∧ s_requests s' !! 7%N = Some req'
    ∧ rtc (λ a b, is_ok (transition a b) = true) Waiting (sr_status req').
Proof.
  destruct (demo_step (demo1 true)) as [[out s']|] eqn:E; [| vm_compute in E; discriminate E].
  destruct (step_status_path (λ x, x) toy_digest demo_config (demo_cache true) 5 16 (demo1 true)
    (elements (dom (s_requests (demo1 true)))) out s' 7
    (mkSchedulerRequest (demo_request 7 [1; 2; 3]%N) [1; 2; 3]%N 0 [] Waiting)) as (req' & H1 & _ & _ & H2 & _);
    [simpl; lia | apply demo1_reach | apply demo_order | exact E | reflexivity |].
  exists out, s', req'. by split_and!.
Defined.

Lemma select_longest_prefix_witness :
  ∃ best s', select_waiting_request (λ x, x) toy_digest (demo1 true) = Some (Some best, s')
    ∧ best ∈ Queue.iter (s_waiting (demo1 true)).
Proof.
  destruct (select_longest_prefix (λ x, x) toy_digest demo_config (demo_cache true) 5 16 (demo1 true) 7)
    as (best & s' & E & Hin & _); [simpl; lia | apply demo1_reach | reflexivity |].
  exists best, s'. by split.
Defined.

Lemma step_progress_witness :
  ∃ out s', demo_step (demo1 false) = Some (out, s') ∧ 7%N ∈ scheduled_new out.
Proof.
  apply (step_progress (λ x, x) toy_digest demo_config (demo_cache false) 5 16 (demo1 false)
    (elements (dom (s_requests (demo1 false)))) 7
    (mkSchedulerRequest (demo_request 7 [1; 2; 3]%N) [1; 2; 3]%N 0 [] Waiting));
    [simpl; lia | apply demo1_reach | apply demo_order | reflexivity | reflexivity | reflexivity
    | | simpl; lia | reflexivity | reflexivity | vm_compute; lia | vm_compute; lia].
  intros id. unfold request_finished.
  destruct (s_requests (demo1 false) !! id) as [req|] eqn:Hreq; [| reflexivity].
  apply elem_of_map_to_list in Hreq. vm_compute in Hreq.
  apply list_elem_of_singleton in Hreq. injection Hreq as -> ->. reflexivity.
Defined.

(** Prefix hits are held while a request waits.  Two requests whose cached
    prefixes together pin every block starve each other: neither can get the
    block for its last token, and no step ever changes that. *)
Definition pinned_scheduler : option Scheduler :=
  s ← demo_apply (demo0 true) (SAdd (demo_request 1 [1; 2]%N));
  s ← snd <$> demo_step s; s ← demo_apply s (SAbort 1%N);
  s ← demo_apply s (SAdd (demo_request 2 [3; 4]%N));
  s ← snd <$> demo_step s; s ← demo_apply s (SAbort 2%N);
  s ← demo_apply s (SAdd (demo_request 3 [1; 2; 5]%N));
  s ← demo_apply s (SAdd (demo_request 4 [3; 4; 6]%N));
  snd <$> demo_step s.

Example pinned_prefixes_starve :
  match pinned_scheduler with
  | None => False
  | Some s =>
      ∃ out, demo_step s = Some (out, s) ∧ num_scheduled out = 0
        ∧ Queue.iter (s_waiting s) = [3; 4]%N ∧ s_running s = []
  end.
Proof. vm_compute. eexists. split; [reflexivity |]. repeat split. Qed.

(** A request that reached [max_model_len] is never removed from [requests], so
    every later step finishes and reports it again. *)
Example finished_reported_every_step :
  (s ← scheduler_new demo_config (demo_cache false) 5 2;
   s ← demo_apply s (SAdd (demo_request 7 [1; 2]%N));
   '(o1, s) ← demo_step s; '(o2, s) ← demo_step s; '(o3, s) ← demo_step s; '(o4, s) ← demo_step s;
   Some (scheduled_new o1, finished_ids o2, finished_ids o3, finished_ids o4, num_active s))
  = Some ([7%N], [], [7%N], [7%N], 1).
Proof. vm_compute. reflexivity. Qed.

(** With draft tokens a block boundary allocates [ceil (1 + k) / block_size] new
    blocks where fewer are needed: here 3 tokens and 5 scheduled ones fill two
    blocks, and the table gets three. *)
Example speculative_over_allocation :
  let params := SamplingParams_default (Value := unit) in
  let req := mkInferenceRequest 7%N None (Some [1; 2; 3]%N) None
    (mkSamplingParams (sp_n params) (best_of params) (presence_penalty params) (frequency_penalty params)
       (repetition_penalty params) (temperature params) (top_p params) (top_k params) (min_p params)
       (seed params) (stop params) (stop_token_ids params) (ignore_eos params) (max_tokens params)
       (min_tokens params) (logprobs params) (prompt_logprobs params) (detokenize params)
       (skip_special_tokens params) (spaces_between_special_tokens params)
       (include_stop_str_in_output params) (output_kind params) (logit_bias params)
       (allowed_token_ids params) (bad_words params) (structured_outputs params)
       (skip_reading_prefix_cache params)
       (Some (mkSpeculativeDecodingConfig true "ngram" 4 2 4))) 0 0 false None in
  (s ← scheduler_new demo_config (mkCacheConfig 4 4 F32.one 0 DT_F16 9 false XxHash None) 9 16;
   s ← demo_apply s (SAdd req);
   '(_, s) ← demo_step s; '(o, s) ← demo_step s;
   r ← s_requests s !! 7%N;
   Some (sr_num_computed_tokens r, length (table (s_kv s) 7%N), num_scheduled_tokens o !! 7%N))
  = Some (8, 3, Some 5).
Proof. vm_compute. reflexivity. Qed.
