(* ===== verification/Executor.v ===== *)
(** * The executor interface (rllm-executor/src/executor.rs)

    What the engine asks of whatever runs the model.  [Executor] is the trait as
    a class over the executor's state; a call that changes the state returns the
    new one.  [initialize] and [execute_model] may panic; the other methods do not. *)
From S2P Require Import Prelude F32 CoreTypes Request KVSpec Scheduler.

(** An [anyhow::Error]: a [CoreError] or a message. *)
Inductive Error : Type :=
  | ECore (e : CoreError)
  | EMsg (msg : string).

Record PerRequestOutput : Type := mkPerRequestOutput {
  pro_request_id : RequestId;
  pro_token_ids : list TokenId;
  pro_logprobs : list (option f32);
}.

Record ExecutorOutput : Type := mkExecutorOutput {
  per_request_outputs : list PerRequestOutput;
}.

Module ExecutorOutput.

Definition empty : ExecutorOutput := mkExecutorOutput [].
Definition is_empty (o : ExecutorOutput) : bool := bool_decide (per_request_outputs o = []).
Definition num_tokens (o : ExecutorOutput) : nat :=
  sum_list_with (λ p, length (pro_token_ids p)) (per_request_outputs o).
Definition all_token_ids (o : ExecutorOutput) : list TokenId := per_request_outputs o ≫= pro_token_ids.
Definition all_logprobs (o : ExecutorOutput) : list (option f32) := per_request_outputs o ≫= pro_logprobs.

End ExecutorOutput.

Class Executor (Value X : Type) : Type := {
  initialize : X → list KVCacheConfig → f32 → option (result nat Error * X);
  determine_available_memory : X → result N Error;
  execute_model : X → SchedulerOutput → option (result ExecutorOutput Error * X);
  executor_add_request : X → RequestId → list TokenId → SamplingParams Value → result unit Error * X;
  executor_abort_request : X → RequestId → X;
  shutdown : X → X;
}.
Arguments initialize {Value X _}.
Arguments determine_available_memory {Value X _}.
Arguments execute_model Value {X _}.
Arguments executor_add_request {Value X _}.
Arguments executor_abort_request Value {X _}.
Arguments shutdown {Value X _}.

Lemma all_token_ids_length o : length (ExecutorOutput.all_token_ids o) = ExecutorOutput.num_tokens o.
Proof.
  unfold ExecutorOutput.all_token_ids, ExecutorOutput.num_tokens.
  induction (per_request_outputs o) as [|p l IH]; simpl; [done |].
  rewrite length_app. f_equal. exact IH.
Qed.

(** What the engine relies on: a successful call reports scheduled requests that
    had tokens to process, each at most once and with at least one token. *)
Class LawfulExecutor (Value X : Type) `{!Executor Value X} : Prop := {
  exec_once : ∀ (x x' : X) out o, execute_model Value x out = Some (Ok o, x') →
    NoDup (scheduled_new out ++ scheduled_running out) → NoDup (pro_request_id <$> per_request_outputs o);
  exec_scheduled : ∀ (x x' : X) out o p, execute_model Value x out = Some (Ok o, x') →
    p ∈ per_request_outputs o → pro_request_id p ∈ scheduled_new out ++ scheduled_running out;
  exec_nonempty : ∀ (x x' : X) out o p, execute_model Value x out = Some (Ok o, x') →
    p ∈ per_request_outputs o → pro_token_ids p ≠ [];
}.
