(* ===== verification/EngineCore.v ===== *)
(** * The engine core (rllm-engine/src/engine_core.rs)

    One step: schedule, execute, check the stopping conditions, report and clean
    up.  The executor is any instance of [Executor].  The panic monad covers the
    scheduler and the executor.  Two hash orders are arguments of [step]: [order],
    that of the scheduler's requests, and [affected], that of the scheduled ids
    reported after an executor error.  Metrics and logs are left out. *)
From S2P Require Import Prelude F32 CoreTypes Request FreeQueue BlockPool KVSpec Prefix CacheManager Policy Scheduler Executor.

Section engine.
Context {Value X : Type} `{!Executor Value X}.

Record EngineRequest : Type := mkEngineRequest {
  er_prompt_token_ids : list TokenId;
  er_generated_token_ids : list TokenId;
  er_sampling_params : SamplingParams Value;
  er_prompt_text : option string;
  er_max_tokens : N;
  er_arrival_time : N;
  er_first_token_generated : bool;
}.

Definition er_num_tokens (r : EngineRequest) : nat :=
  length (er_prompt_token_ids r) + length (er_generated_token_ids r).

Record EngineCore : Type := mkEngineCore {
  ec_executor : X;
  ec_scheduler : Scheduler (Value := Value);
  ec_requests : gmap RequestId EngineRequest;
  ec_eos_token_id : N;
  ec_stop_token_ids : gset N;
}.

Definition with_executor (x : X) (c : EngineCore) : EngineCore :=
  mkEngineCore x (ec_scheduler c) (ec_requests c) (ec_eos_token_id c) (ec_stop_token_ids c).
Definition with_scheduler (s : Scheduler) (c : EngineCore) : EngineCore :=
  mkEngineCore (ec_executor c) s (ec_requests c) (ec_eos_token_id c) (ec_stop_token_ids c).
Definition with_engine_requests (m : gmap RequestId EngineRequest) (c : EngineCore) : EngineCore :=
  mkEngineCore (ec_executor c) (ec_scheduler c) m (ec_eos_token_id c) (ec_stop_token_ids c).

Definition engine_new (executor : X) (scheduler : Scheduler) (eos_token_id : N) : EngineCore :=
  mkEngineCore executor scheduler ∅ eos_token_id {[eos_token_id]}.

Definition with_stop_token_ids (c : EngineCore) (ids : list N) : EngineCore :=
  mkEngineCore (ec_executor c) (ec_scheduler c) (ec_requests c) (ec_eos_token_id c)
    ({[ec_eos_token_id c]} ∪ (ec_stop_token_ids c ∪ list_to_set ids)).

(** *** Requests *)
Section add.
Context (value_to_string : Value → string).

Definition engine_add_request (c : EngineCore) (request : InferenceRequest Value) :
    result unit Error * EngineCore :=
  let id := request_id request in
  match validate value_to_string (sampling_params request) with
  | Err e => (Err (ECore e), c)
  | Ok _ =>
      let tokens := default [] (token_ids request) in
      let max_tokens := default 16%N (max_tokens (sampling_params request)) in
      let '(r, x) := executor_add_request (ec_executor c) id tokens (sampling_params request) in
      let c := with_executor x c in
      match r with
      | Err e => (Err e, c)
      | Ok _ =>
          let req := mkEngineRequest tokens [] (sampling_params request) (prompt request)
                       max_tokens (arrival_time request) false in
          let c := with_engine_requests (<[id := req]> (ec_requests c)) c in
          (Ok (), with_scheduler (add_request (ec_scheduler c) request) c)
      end
  end.
End add.

(** [scheduler.abort_request], [executor.abort_request], [requests.remove]. *)
Definition engine_abort_request (c : EngineCore) (id : RequestId) : option EngineCore :=
  s ← abort_request (ec_scheduler c) id;
  let c := with_scheduler s c in
  let c := with_executor (executor_abort_request Value (ec_executor c) id) c in
  Some (with_engine_requests (delete id (ec_requests c)) c).

(** *** Stopping conditions *)
Definition push_token (t : TokenId) (r : EngineRequest) : EngineRequest :=
  mkEngineRequest (er_prompt_token_ids r) (er_generated_token_ids r ++ [t]) (er_sampling_params r)
    (er_prompt_text r) (er_max_tokens r) (er_arrival_time r) true.

Definition reached_eos (stops : gset N) (r : EngineRequest) (t : TokenId) : bool :=
  bool_decide (t ∈ stops) && negb (ignore_eos (er_sampling_params r)).
Definition hit_stop_token (r : EngineRequest) (t : TokenId) : bool :=
  bool_decide (t ∈ stop_token_ids (er_sampling_params r)).
Definition reached_length (r : EngineRequest) : bool :=
  (er_max_tokens r <=? N.of_nat (length (er_generated_token_ids r)))%N.

(** Checked after the token was pushed. *)
Definition finish_check (stops : gset N) (r : EngineRequest) (t : TokenId) : option FinishReason :=
  if reached_eos stops r t || hit_stop_token r t then Some FR_Stop
  else if reached_length r then Some FR_Length
  else None.

(** The loop over the tokens of one request. *)
Fixpoint token_loop (stops : gset N) (m : gmap RequestId EngineRequest) (id : RequestId)
    (tokens : list TokenId) : gmap RequestId EngineRequest * option FinishReason :=
  match tokens with
  | [] => (m, None)
  | t :: tokens =>
      match m !! id with
      | None => token_loop stops m id tokens
      | Some req =>
          let req := push_token t req in
          let m := <[id := req]> m in
          match finish_check stops req t with
          | Some reason => (m, Some reason)
          | None => token_loop stops m id tokens
          end
      end
  end.

Definition usage_of (r : EngineRequest) : Usage :=
  let p := u32_try_from_or_max (N.of_nat (length (er_prompt_token_ids r))) in
  let c := u32_try_from_or_max (N.of_nat (length (er_generated_token_ids r))) in
  mkUsage p c (u32_saturating_add p c).

Definition make_output (id : RequestId) (r : EngineRequest) (tokens : list TokenId)
    (finished : option FinishReason) : RequestOutput :=
  mkRequestOutput id [mkCompletionOutput 0 "" tokens finished None]
    (match finished with Some _ => true | None => false end) (usage_of r).

Definition process_output (stops : gset N) (m : gmap RequestId EngineRequest) (p : PerRequestOutput) :
    gmap RequestId EngineRequest * list RequestOutput :=
  let '(m, finished) := token_loop stops m (pro_request_id p) (pro_token_ids p) in
  (m, match m !! pro_request_id p with
      | Some req => [make_output (pro_request_id p) req (pro_token_ids p) finished]
      | None => []
      end).

Fixpoint process_outputs (stops : gset N) (m : gmap RequestId EngineRequest) (l : list PerRequestOutput) :
    gmap RequestId EngineRequest * list RequestOutput :=
  match l with
  | [] => (m, [])
  | p :: l =>
      let '(m, o) := process_output stops m p in
      let '(m, os) := process_outputs stops m l in
      (m, o ++ os)
  end.

(** *** Clean-up *)
Fixpoint abort_all (c : EngineCore) (ids : list RequestId) : option EngineCore :=
  match ids with
  | [] => Some c
  | id :: ids => c ← engine_abort_request c id; abort_all c ids
  end.

(** After an executor error: every affected request is aborted and reported. *)
Fixpoint fail_all (c : EngineCore) (ids : list RequestId) : option (list RequestOutput * EngineCore) :=
  match ids with
  | [] => Some ([], c)
  | id :: ids =>
      let o := match ec_requests c !! id with
               | Some req => [make_output id req [] (Some FR_Error)]
               | None => []
               end in
      c ← engine_abort_request c id;
      '(os, c) ← fail_all c ids;
      Some (o ++ os, c)
  end.

Definition finished_request_ids (outputs : list RequestOutput) : list RequestId :=
  ro_request_id <$> filter (λ o, ro_finished o = true) outputs.

Section step.
Context (sha256 : list byte → list byte) (xxh3_64 : list byte → N).

Definition engine_step (order affected : list RequestId) (c : EngineCore) :
    option (list RequestOutput * EngineCore) :=
  '(out, s) ← step sha256 xxh3_64 order (ec_scheduler c);
  let c := with_scheduler s c in
  if num_scheduled out =? 0 then Some ([], c)
  else
    '(r, x) ← execute_model Value (ec_executor c) out;
    let c := with_executor x c in
    match r with
    | Err _ => fail_all c affected
    | Ok exec =>
        let '(m, outputs) := process_outputs (ec_stop_token_ids c) (ec_requests c) (per_request_outputs exec) in
        let c := with_engine_requests m c in
        c ← abort_all c (finished_request_ids outputs);
        Some (outputs, c)
    end.
End step.

Definition engine_has_work (c : EngineCore) : bool := has_work (ec_scheduler c).
Definition num_active_requests (c : EngineCore) : nat := size (ec_requests c).
Definition engine_reset_prefix_cache (c : EngineCore) : result EngineCore KVCacheManager.ResetError :=
  match scheduler_reset_prefix_cache (ec_scheduler c) with
  | Ok s => Ok (with_scheduler s c)
  | Err e => Err e
  end.

(** ** The token loop *)

(** The conditions on a token that stop a request; they read its parameters only. *)
Definition is_stop (stops : gset N) (r : EngineRequest) (t : TokenId) : bool :=
  reached_eos stops r t || hit_stop_token r t.

(** The number of tokens a request may still generate. *)
Definition allowance (r : EngineRequest) : nat := Nat.max 1 (N.to_nat (er_max_tokens r)).
Definition tokens_left (r : EngineRequest) : nat := allowance r - length (er_generated_token_ids r).

(** [token_loop] on the request itself. *)
Fixpoint consume (stops : gset N) (r : EngineRequest) (tokens : list TokenId) :
    EngineRequest * option FinishReason :=
  match tokens with
  | [] => (r, None)
  | t :: tokens =>
      let r := push_token t r in
      match finish_check stops r t with
      | Some reason => (r, Some reason)
      | None => consume stops r tokens
      end
  end.

Lemma token_loop_None stops m id tokens : m !! id = None → token_loop stops m id tokens = (m, None).
Proof. intros Hm. induction tokens as [|t tokens IH]; simpl; [done | by rewrite Hm]. Qed.

Lemma token_loop_Some stops m id tokens r :
  m !! id = Some r →
  token_loop stops m id tokens = (<[id := (consume stops r tokens).1]> m, (consume stops r tokens).2).
Proof.
  revert m r. induction tokens as [|t tokens IH]; intros m r Hm; simpl; [by rewrite insert_id |].
  rewrite Hm. destruct (finish_check _ _ _); [done |].
  rewrite (IH _ (push_token t r)) by apply lookup_insert_eq. by rewrite insert_insert_eq.
Qed.

(** Fields the loop does not touch. *)
Definition same_request (r r' : EngineRequest) : Prop :=
  er_prompt_token_ids r' = er_prompt_token_ids r ∧ er_sampling_params r' = er_sampling_params r
  ∧ er_prompt_text r' = er_prompt_text r ∧ er_max_tokens r' = er_max_tokens r
  ∧ er_arrival_time r' = er_arrival_time r.

(** What the loop does to a request that may go on: it takes the tokens up to
    and including the first one that stops it or uses up its allowance. *)
Record consumed (stops : gset N) (r : EngineRequest) (tokens : list TokenId)
    (r' : EngineRequest) (reason : option FinishReason) : Prop := {
  cd_same : same_request r r';
  cd_tokens : ∃ n, n ≤ length tokens
    ∧ er_generated_token_ids r' = er_generated_token_ids r ++ take n tokens
    ∧ (∀ k t, S k < n → tokens !! k = Some t → is_stop stops r t = false)
    ∧ match reason with
      | None => n = length tokens ∧ (∀ t, t ∈ tokens → is_stop stops r t = false)
                ∧ length tokens < tokens_left r
      | Some why => ∃ t, n = S (pred n) ∧ tokens !! pred n = Some t
                ∧ ((why = FR_Stop ∧ is_stop stops r t = true ∧ n ≤ tokens_left r)
                   ∨ (why = FR_Length ∧ is_stop stops r t = false ∧ n = tokens_left r))
      end;
}.

Lemma is_stop_same stops r r' t : same_request r r' → is_stop stops r' t = is_stop stops r t.
Proof. intros (_ & E & _). unfold is_stop, reached_eos, hit_stop_token. by rewrite E. Qed.

Lemma allowance_same r r' : same_request r r' → allowance r' = allowance r.
Proof. intros (_ & _ & _ & E & _). unfold allowance. by rewrite E. Qed.

Lemma push_same t r : same_request r (push_token t r).
Proof. by repeat split. Qed.

Lemma same_trans r1 r2 r3 : same_request r1 r2 → same_request r2 r3 → same_request r1 r3.
Proof. unfold same_request. intuition congruence. Qed.

Lemma tokens_left_push t r : tokens_left (push_token t r) = pred (tokens_left r).
Proof. unfold tokens_left. rewrite (allowance_same r) by apply push_same. simpl. rewrite length_app. simpl. lia. Qed.

Lemma reached_length_spec r : 0 < length (er_generated_token_ids r) → (reached_length r = true ↔ tokens_left r = 0).
Proof. intros Hr. unfold reached_length, tokens_left, allowance. rewrite N.leb_le. lia. Qed.

Lemma finish_check_push stops r t :
  finish_check stops (push_token t r) t
  = if is_stop stops r t then Some FR_Stop
    else if decide (tokens_left r ≤ 1) then Some FR_Length else None.
Proof.
  unfold finish_check. fold (is_stop stops (push_token t r) t). rewrite (is_stop_same _ r) by apply push_same.
  destruct (is_stop stops r t); [done |].
  pose proof (reached_length_spec (push_token t r) ltac:(simpl; rewrite length_app; simpl; lia)) as Hr.
  rewrite tokens_left_push in Hr.
  destruct (reached_length _); case_decide; try done; [destruct Hr as [Hr _]; specialize (Hr eq_refl); lia |].
  destruct Hr as [_ Hr]. discriminate Hr. lia.
Qed.

Lemma consume_spec stops tokens : ∀ r,
  0 < tokens_left r →
  consumed stops r tokens (consume stops r tokens).1 (consume stops r tokens).2.
Proof.
  induction tokens as [|t tokens IH]; intros r Hr.
  - simpl. split; [by repeat split |]. exists 0. simpl. rewrite app_nil_r.
    split_and!; [lia | done | lia | done | by intros ? ?%not_elem_of_nil | done].
  - cbn [consume]. rewrite finish_check_push. destruct (is_stop stops r t) eqn:Es; [| case_decide as Hl].
    + simpl. split; [apply push_same |]. exists 1. simpl. rewrite take_0. split_and!; [lia | done | lia |].
      exists t. split_and!; [done | done |]. left. split_and!; [done | done | lia].
    + simpl. split; [apply push_same |]. exists 1. simpl. rewrite take_0. split_and!; [lia | done | lia |].
      exists t. split_and!; [done | done |]. right. split_and!; [done | done | lia].
    + destruct (IH (push_token t r)) as [Hs (n & Hn & Hg & Hpre & Hend)]; [rewrite tokens_left_push; lia |].
      rewrite tokens_left_push in Hend.
      split; [eapply same_trans; [apply push_same | done] |]. exists (S n).
      split_and!; [simpl; lia | | |].
      * rewrite Hg. simpl. by rewrite <- app_assoc.
      * intros [|k] t' Hk; simpl; [by intros [= <-] |]. intros Ht. rewrite <- (is_stop_same _ r _ t' (push_same t r)).
        apply (Hpre k); [lia | done].
      * destruct (consume stops (push_token t r) tokens).2 as [why|].
        -- destruct Hend as (t' & En & Ht' & Hwhy). exists t'. split_and!; [done | simpl; rewrite En; done |].
           rewrite (is_stop_same _ r) in Hwhy by apply push_same.
           destruct Hwhy as [(-> & -> & ?) | (-> & -> & ?)]; [left | right]; split_and!; try done; lia.
        -- destruct Hend as (-> & Hall & Hlen). split_and!; [done | | simpl; lia].
           intros t' [->|Ht']%elem_of_cons; [done |]. rewrite <- (is_stop_same _ r _ t' (push_same t r)). by apply Hall.
Qed.


Section facts.
Implicit Types (m : gmap RequestId EngineRequest) (c : EngineCore) (r : EngineRequest).

Lemma consume_same stops tokens : ∀ r, same_request r (consume stops r tokens).1.
Proof.
  induction tokens as [|t tokens IH]; intros r; simpl; [by repeat split |].
  destruct (finish_check _ _ _); simpl; [apply push_same |].
  eapply same_trans; [apply push_same | apply IH].
Qed.

Lemma consume_left stops tokens : ∀ r, tokens_left (consume stops r tokens).1 ≤ tokens_left r.
Proof.
  induction tokens as [|t tokens IH]; intros r; simpl; [done |].
  pose proof (tokens_left_push t r).
  destruct (finish_check _ _ _); simpl; [lia |]. specialize (IH (push_token t r)). lia.
Qed.

Lemma consume_left_lt stops tokens r :
  0 < tokens_left r → tokens ≠ [] → tokens_left (consume stops r tokens).1 < tokens_left r.
Proof.
  intros Hr. destruct tokens as [|t tokens]; [done |]. intros _. simpl.
  pose proof (tokens_left_push t r).
  destruct (finish_check _ _ _); simpl; [lia |]. pose proof (consume_left stops tokens (push_token t r)). lia.
Qed.

Lemma consume_reason stops tokens r : (consume stops r tokens).2 ≠ None → tokens ≠ [].
Proof. by destruct tokens. Qed.

(** A request that may go on has tokens left and generated no stop token. *)
Definition live_ok (stops : gset N) (r : EngineRequest) : Prop :=
  0 < tokens_left r ∧ ∀ t, t ∈ er_generated_token_ids r → is_stop stops r t = false.

Lemma consume_live stops tokens r :
  live_ok stops r → (consume stops r tokens).2 = None → live_ok stops (consume stops r tokens).1.
Proof.
  intros [Hr Hg] Hn. destruct (consume_spec stops tokens r Hr) as [Hs (n & Hle & Hgen & _ & Hend)].
  rewrite Hn in Hend. destruct Hend as (-> & Hall & Hlen). rewrite firstn_all in Hgen. split.
  - unfold tokens_left in *. rewrite (allowance_same _ _ Hs), Hgen, length_app. lia.
  - intros t. rewrite Hgen, (is_stop_same _ _ _ t Hs), elem_of_app. naive_solver.
Qed.

(** ** Tokens left over all requests *)
Definition credit m : nat := map_fold (λ _ r acc, tokens_left r + acc) 0 m.

Lemma credit_delete m id r : m !! id = Some r → credit m = tokens_left r + credit (delete id m).
Proof. intros Hm. unfold credit.
  rewrite (map_fold_delete_L _ _ id r m); [done | intros; lia | done]. Qed.

Lemma credit_insert m id r : m !! id = None → credit (<[id := r]> m) = tokens_left r + credit m.
Proof. intros Hm. unfold credit. rewrite map_fold_insert_L; [done | intros; lia | done]. Qed.

Lemma credit_update m id r r' :
  m !! id = Some r → credit (<[id := r']> m) + tokens_left r = credit m + tokens_left r'.
Proof.
  intros Hm. rewrite (credit_delete m id r Hm).
  rewrite <- insert_delete_eq, credit_insert by apply lookup_delete_eq. lia.
Qed.

Lemma credit_delete_le m id : credit (delete id m) ≤ credit m.
Proof.
  destruct (m !! id) as [r|] eqn:Hm; [rewrite (credit_delete m id r Hm); lia | by rewrite delete_id].
Qed.

(** ** Processing the executor's output *)
Definition same_requests (m m' : gmap RequestId EngineRequest) : Prop :=
  ∀ id, option_Forall2 same_request (m !! id) (m' !! id).

Lemma same_requests_refl m : same_requests m m.
Proof. intros id. destruct (m !! id); constructor. by repeat split. Qed.

Lemma same_requests_trans m1 m2 m3 : same_requests m1 m2 → same_requests m2 m3 → same_requests m1 m3.
Proof.
  intros H1 H2 id. specialize (H1 id). specialize (H2 id).
  inversion H1 as [a b A Ea Eb | Ea Eb]; rewrite <- Eb in H2;
    inversion H2 as [b' d B Eb' Ec | Eb' Ec]; subst; constructor. by eapply same_trans.
Qed.

(** An output that reports tokens or the end of a request. *)
Definition reports (o : RequestOutput) : bool :=
  ro_finished o || existsb (λ co, negb (bool_decide (co_token_ids co = []))) (ro_outputs o).

(** Every request may go on, except those in [done]. *)
Definition live_except (stops : gset N) (done : list RequestId) m : Prop :=
  ∀ id r, m !! id = Some r → id ∈ done ∨ live_ok stops r.

Record processed (stops : gset N) (done : list RequestId) m (m' : gmap RequestId EngineRequest)
    (os : list RequestOutput) : Prop := {
  ps_same : same_requests m m';
  ps_credit : credit m' ≤ credit m;
  ps_live : live_except stops (done ++ finished_request_ids os) m';
  ps_strict : ∀ o, o ∈ os → reports o = true → ro_request_id o ∉ done → credit m' < credit m;
  ps_known : ∀ o, o ∈ os → is_Some (m !! ro_request_id o);
}.

Lemma process_output_ok stops done m p :
  live_except stops done m →
  processed stops done m (process_output stops m p).1 (process_output stops m p).2.
Proof.
  intros Hl. unfold process_output. destruct (m !! pro_request_id p) as [r|] eqn:Hm.
  - rewrite (token_loop_Some _ _ _ _ _ Hm). simpl. rewrite lookup_insert_eq.
    set (r' := (consume _ _ _).1). set (why := (consume _ _ _).2).
    pose proof (credit_update m _ r r' Hm) as Hc. pose proof (consume_left stops (pro_token_ids p) r) as Hle.
    fold r' in Hle.
    split.
    + intros id. destruct (decide (id = pro_request_id p)) as [->|Hne].
      * rewrite Hm, lookup_insert_eq. constructor. apply consume_same.
      * rewrite lookup_insert_ne by done. apply same_requests_refl.
    + lia.
    + intros id r0. destruct (decide (id = pro_request_id p)) as [->|Hne].
      * rewrite lookup_insert_eq. intros [= <-].
        destruct why as [w|] eqn:Hwhy; [left; rewrite elem_of_app; right; by left |].
        destruct (Hl _ _ Hm) as [?|Hlive]; [left; rewrite elem_of_app; by left |].
        right. by apply consume_live.
      * rewrite lookup_insert_ne by done. intros Hr0. destruct (Hl _ _ Hr0); [left | by right].
        rewrite elem_of_app. by left.
    + intros o ->%list_elem_of_singleton. simpl. intros Hrep Hnd.
      destruct (Hl _ _ Hm) as [?|[Hlive _]]; [done |].
      assert (pro_token_ids p ≠ []) as Hne.
      { unfold reports in Hrep. simpl in Hrep. apply orb_true_iff in Hrep as [Hf|Hf].
        - apply (consume_reason stops _ r). fold why. by destruct why.
        - rewrite orb_false_r in Hf. by apply negb_true_iff, bool_decide_eq_false in Hf. }
      pose proof (consume_left_lt stops _ r Hlive Hne). fold r' in H. lia.
    + intros o ->%list_elem_of_singleton. simpl. by rewrite Hm.
  - rewrite token_loop_None by done. simpl. rewrite Hm.
    split; [apply same_requests_refl | done | | by intros ? ?%not_elem_of_nil | by intros ? ?%not_elem_of_nil].
    unfold finished_request_ids. simpl. by rewrite app_nil_r.
Qed.

Lemma finished_request_ids_app l1 l2 :
  finished_request_ids (l1 ++ l2) = finished_request_ids l1 ++ finished_request_ids l2.
Proof. unfold finished_request_ids. by rewrite filter_app, fmap_app. Qed.

Lemma finished_request_ids_elem id os :
  id ∈ finished_request_ids os ↔ ∃ o, o ∈ os ∧ ro_finished o = true ∧ ro_request_id o = id.
Proof.
  unfold finished_request_ids. rewrite list_elem_of_fmap. setoid_rewrite list_elem_of_filter. naive_solver.
Qed.

Lemma process_outputs_ok stops l : ∀ done m,
  live_except stops done m →
  processed stops done m (process_outputs stops m l).1 (process_outputs stops m l).2.
Proof.
  induction l as [|p l IH]; intros done m Hl; simpl.
  - split; [apply same_requests_refl | done | | by intros ? ?%not_elem_of_nil | by intros ? ?%not_elem_of_nil].
    unfold finished_request_ids. simpl. by rewrite app_nil_r.
  - pose proof (process_output_ok stops done m p Hl) as [A1 A2 A3 A4 A5].
    destruct (process_output stops m p) as [m1 o1]. simpl in *.
    pose proof (IH _ m1 A3) as [B1 B2 B3 B4 B5].
    destruct (process_outputs stops m1 l) as [m2 o2]. simpl in *. split.
    + by eapply same_requests_trans.
    + lia.
    + by rewrite finished_request_ids_app, app_assoc.
    + intros o Ho Hrep Hnd. apply elem_of_app in Ho as [Ho|Ho]; [specialize (A4 o Ho Hrep Hnd); lia |].
      destruct (decide (ro_request_id o ∈ finished_request_ids o1)) as [Hin|Hnin].
      * apply finished_request_ids_elem in Hin as (o' & Ho' & Hf & Hid).
        specialize (A4 o' Ho' ltac:(unfold reports; by rewrite Hf)). rewrite Hid in A4. specialize (A4 Hnd). lia.
      * specialize (B4 o Ho Hrep). rewrite elem_of_app in B4. specialize (B4 ltac:(tauto)). lia.
    + intros o Ho. apply elem_of_app in Ho as [Ho|Ho]; [by apply A5 |].
      destruct (B5 o Ho) as [r Hr]. specialize (A1 (ro_request_id o)). rewrite Hr in A1.
      inversion A1 as [a b Hab Ha Hb|]. by eexists.
Qed.
End facts.

(** ** The invariant *)
Definition agree (r : EngineRequest) (sr : SchedulerRequest (Value := Value)) : Prop :=
  er_prompt_token_ids r = sr_prompt_token_ids sr
  ∧ er_sampling_params r = sampling_params (sr_request sr).

Record engine_rep (c : EngineCore) : Prop := {
  ei_sched : sched_inv (ec_scheduler c);
  ei_agree : ∀ id, option_Forall2 agree (ec_requests c !! id) (s_requests (ec_scheduler c) !! id);
}.

Record engine_inv (c : EngineCore) : Prop := {
  ei_rep : engine_rep c;
  ei_live : ∀ id r, ec_requests c !! id = Some r → live_ok (ec_stop_token_ids c) r;
}.

(** [c'] is [c] without the requests [ids]. *)
Record aborted (ids : list RequestId) (c c' : EngineCore) : Prop := {
  ab_rep : engine_rep c';
  ab_requests : ∀ id, ec_requests c' !! id = if decide (id ∈ ids) then None else ec_requests c !! id;
  ab_gone : ∀ id, id ∈ ids → ¬ live (ec_scheduler c') id ∧ request_blocks (s_kv (ec_scheduler c')) !! id = None;
  ab_other : ∀ id, id ∉ ids → (live (ec_scheduler c') id ↔ live (ec_scheduler c) id)
    ∧ request_blocks (s_kv (ec_scheduler c')) !! id = request_blocks (s_kv (ec_scheduler c)) !! id;
  ab_stops : ec_stop_token_ids c' = ec_stop_token_ids c;
}.

Lemma agree_dom c id : engine_rep c → is_Some (ec_requests c !! id) ↔ is_Some (s_requests (ec_scheduler c) !! id).
Proof. intros [_ Ha]. specialize (Ha id). inversion Ha; split; intros [? ?]; eauto; congruence. Qed.

Lemma live_known c id : engine_rep c → live (ec_scheduler c) id → is_Some (ec_requests c !! id).
Proof. intros Hc Hl. apply (agree_dom c id Hc). destruct Hc as [[Hcore _] _]. by apply (po_dom _ _ _ _ _ _ _ (co_point _ _ _ _ _ _ Hcore id)). Qed.

Lemma blocks_live s id : sched_inv (Value := Value) s → is_Some (request_blocks (s_kv s) !! id) → live s id.
Proof. intros [Hcore _]. apply (po_live _ _ _ _ _ _ _ (co_point _ _ _ _ _ _ Hcore id)). Qed.

Lemma abort_one c id : engine_rep c → ∃ c', engine_abort_request c id = Some c' ∧ aborted [id] c c'.
Proof.
  intros [Hs Ha]. unfold engine_abort_request.
  destruct (abort_request_inv (ec_scheduler c) id Hs) as (s' & E & Hs' & Hnl & Hnb & Hr). rewrite E. simpl.
  eexists. split; [done |]. split; simpl.
  - split; simpl; [done |]. intros id'. rewrite Hr. destruct (decide (id' = id)) as [->|Hne].
    + rewrite !lookup_delete_eq. constructor.
    + by rewrite !lookup_delete_ne.
  - intros id'. destruct (decide (id' = id)) as [->|Hne].
    + rewrite lookup_delete_eq, decide_True by (by left). done.
    + rewrite lookup_delete_ne, decide_False by set_solver. done.
  - by intros id' ->%list_elem_of_singleton.
  - intros id' Hne. apply (abort_request_other _ _ id); [done | done | set_solver].
  - done.
Qed.

Lemma aborted_refl c : engine_rep c → aborted [] c c.
Proof. intros Hc. split; try done. by intros id ?%not_elem_of_nil. Qed.

Lemma aborted_cons id ids c1 c2 c3 : aborted [id] c1 c2 → aborted ids c2 c3 → aborted (id :: ids) c1 c3.
Proof.
  intros [A1 A2 A3 A4 A5] [B1 B2 B3 B4 B5]. split.
  - done.
  - intros id'. rewrite B2, A2. repeat case_decide; set_solver.
  - intros id' Hin. destruct (decide (id' ∈ ids)) as [Hids|Hids]; [by apply B3 |].
    destruct (B4 id' Hids) as [-> ->]. apply A3. set_solver.
  - intros id' Hnin. destruct (B4 id' ltac:(set_solver)) as [-> ->]. apply A4. set_solver.
  - congruence.
Qed.

Lemma abort_all_ok ids : ∀ c, engine_rep c → ∃ c', abort_all c ids = Some c' ∧ aborted ids c c'.
Proof.
  induction ids as [|id ids IH]; intros c Hc; [exists c; split; [done | by apply aborted_refl] |].
  cbn [abort_all]. destruct (abort_one c id Hc) as (c1 & -> & H1).
  destruct (IH c1 (ab_rep _ _ _ H1)) as (c2 & E & H2). exists c2. split; [exact E | by eapply aborted_cons].
Qed.

(** The report of a request dropped after an executor error. *)
Definition error_output (m : gmap RequestId EngineRequest) (id : RequestId) : list RequestOutput :=
  match m !! id with Some r => [make_output id r [] (Some FR_Error)] | None => [] end.

Lemma error_outputs_ext ids m1 m2 :
  (∀ id, id ∈ ids → m1 !! id = m2 !! id) → ids ≫= error_output m1 = ids ≫= error_output m2.
Proof.
  induction ids as [|id ids IH]; intros He; [done |]. rewrite !bind_cons. f_equal.
  - unfold error_output. by rewrite (He id) by (by left).
  - apply IH. intros id' Hin. apply He. by right.
Qed.

Lemma fail_all_ok ids : ∀ c, NoDup ids → engine_rep c →
  ∃ c', fail_all c ids = Some (ids ≫= error_output (ec_requests c), c') ∧ aborted ids c c'.
Proof.
  induction ids as [|id ids IH]; intros c Hnd Hc; [exists c; split; [done | by apply aborted_refl] |].
  apply NoDup_cons in Hnd as [Hnin Hnd].
  cbn [fail_all]. destruct (abort_one c id Hc) as (c1 & -> & H1).
  destruct (IH c1 Hnd (ab_rep _ _ _ H1)) as (c2 & E & H2). exists c2. split; [| by eapply aborted_cons].
  cbn [mbind option_bind]. rewrite E. rewrite bind_cons. cbn. do 3 f_equal.
  apply error_outputs_ext. intros id' Hin. rewrite (ab_requests _ _ _ H1), decide_False; [done |].
  intros ->%list_elem_of_singleton. done.
Qed.

(** ** One step *)
Section step_facts.
Context (value_to_string : Value → string) (sha256 : list byte → list byte) (xxh3_64 : list byte → N).

(** [order] lists the scheduler's requests, [affected] the scheduled ids. *)
Definition order_ok (c : EngineCore) (order : list RequestId) : Prop :=
  ∀ id, id ∈ order ↔ is_Some (s_requests (ec_scheduler c) !! id).
Definition affected_ok (c : EngineCore) (order affected : list RequestId) : Prop :=
  NoDup affected ∧ ∀ out s, step sha256 xxh3_64 order (ec_scheduler c) = Some (out, s) →
    ∀ id, id ∈ affected ↔ id ∈ sched_ids out.

Lemma step_any s order :
  sched_inv (Value := Value) s → (∀ id, id ∈ order ↔ is_Some (s_requests s !! id)) →
  (step sha256 xxh3_64 order s = None ∧ step_overflows s (SStep order))
  ∨ ∃ out s', step sha256 xxh3_64 order s = Some (out, s') ∧ sched_inv s' ∧ frame s s'
    ∧ NoDup (sched_ids out) ∧ (∀ id, id ∈ sched_ids out → is_Some (s_requests s' !! id)).
Proof.
  intros Hs Ho. destruct (s_paused s) eqn:Ep.
  - right. exists (build_output s 0 0), s. unfold step. rewrite Ep. split_and!; [done | done | apply frame_refl | apply NoDup_nil_2 |].
    by intros id ?%not_elem_of_nil.
  - destruct (spec_bound_exists s) as [k Hk].
    destruct (step_ok sha256 xxh3_64 order s k Hs Ho Hk Ep) as [[E Hov]|(out & s' & E & Hpost)]; [by left | right].
    exists out, s'. pose proof (sp_out _ _ _ _ Hpost) as [N R _ _ _]. pose proof (sp_inv _ _ _ _ Hpost) as [Hcore _].
    split_and!; [done | apply Hpost | apply Hpost | done |].
    intros id Hid. apply (po_dom _ _ _ _ _ _ _ (co_point _ _ _ _ _ _ Hcore id)). right. by apply R.
Qed.

Lemma num_scheduled_ids out : num_scheduled out = length (sched_ids out).
Proof. unfold num_scheduled, sched_ids. rewrite !length_app. lia. Qed.

Lemma rep_with_scheduler c s' : engine_rep c → sched_inv s' → frame (ec_scheduler c) s' → engine_rep (with_scheduler s' c).
Proof.
  intros [_ Ha] Hs' Hf. split; [done |]. simpl. intros id. specialize (Ha id). pose proof (fr_reqs _ _ Hf id) as He.
  inversion Ha as [r sr [A1 A2] Er Esr | Er Esr]; rewrite <- Esr in He;
    inversion He as [r0 sr' (B1 & B2 & _) E0 Esr'|E0 Esr']; subst; constructor.
  split; congruence.
Qed.

Lemma rep_with_executor c x : engine_rep c → engine_rep (with_executor x c).
Proof. by intros [? ?]. Qed.

Lemma rep_with_requests c m : engine_rep c → same_requests (ec_requests c) m → engine_rep (with_engine_requests m c).
Proof.
  intros [Hs Ha] Hm. split; [done |]. simpl. intros id. specialize (Ha id). specialize (Hm id).
  inversion Ha as [r sr [A1 A2] Er Esr | Er Esr]; rewrite <- Er in Hm;
    inversion Hm as [r0 r' (B1 & B2 & _) E0 Er'|E0 Er']; subst; constructor.
  split; congruence.
Qed.

(** The four ways a step can go. *)
Inductive step_case (c : EngineCore) (affected : list RequestId) (out : SchedulerOutput) (s : Scheduler) :
    option (list RequestOutput * EngineCore) → Prop :=
  | SC_idle : num_scheduled out = 0 → step_case c affected out s (Some ([], with_scheduler s c))
  | SC_panic : num_scheduled out ≠ 0 → execute_model Value (ec_executor c) out = None →
      step_case c affected out s None
  | SC_error e x c' : num_scheduled out ≠ 0 → execute_model Value (ec_executor c) out = Some (Err e, x) →
      aborted affected (with_executor x (with_scheduler s c)) c' →
      step_case c affected out s (Some (affected ≫= error_output (ec_requests c), c'))
  | SC_output o x m os c' : num_scheduled out ≠ 0 → execute_model Value (ec_executor c) out = Some (Ok o, x) →
      process_outputs (ec_stop_token_ids c) (ec_requests c) (per_request_outputs o) = (m, os) →
      engine_rep (with_engine_requests m (with_executor x (with_scheduler s c))) →
      aborted (finished_request_ids os) (with_engine_requests m (with_executor x (with_scheduler s c))) c' →
      step_case c affected out s (Some (os, c')).

Lemma engine_step_case c order affected :
  engine_inv c → order_ok c order → NoDup affected →
  (step sha256 xxh3_64 order (ec_scheduler c) = None ∧ engine_step sha256 xxh3_64 order affected c = None
   ∧ step_overflows (ec_scheduler c) (SStep order))
  ∨ ∃ out s, step sha256 xxh3_64 order (ec_scheduler c) = Some (out, s)
    ∧ engine_rep (with_scheduler s c) ∧ NoDup (sched_ids out)
    ∧ (∀ id, id ∈ sched_ids out → is_Some (ec_requests c !! id))
    ∧ step_case c affected out s (engine_step sha256 xxh3_64 order affected c).
Proof.
  intros [Hrep Hlive] Ho Haff. destruct (step_any (ec_scheduler c) order (ei_sched _ Hrep) Ho)
    as [[E Hov]|(out & s & E & Hs & Hf & Hnd & Hin)]; [left; unfold engine_step; by rewrite E | right]. exists out, s.
  pose proof (rep_with_scheduler c s Hrep Hs Hf) as Hrep1.
  split_and!; [done | done | done | |].
  { intros id Hid. apply (agree_dom _ id Hrep1). by apply Hin. }
  unfold engine_step. rewrite E. simpl.
  destruct (Nat.eqb_spec (num_scheduled out) 0) as [Hz|Hnz]; [by constructor |].
  destruct (execute_model Value (ec_executor c) out) as [[[o|e] x]|] eqn:Ex; simpl; [| | by constructor].
  - destruct (process_outputs _ _ _) as [m os] eqn:Ep.
    assert (engine_rep (with_engine_requests m (with_executor x (with_scheduler s c)))) as Hrep2.
    { apply rep_with_requests; [by apply rep_with_executor |]. simpl.
      pose proof (process_outputs_ok (ec_stop_token_ids c) (per_request_outputs o) [] (ec_requests c)) as Hp.
      rewrite Ep in Hp. apply Hp. intros id r Hr. right. by apply (Hlive id). }
    destruct (abort_all_ok (finished_request_ids os) _ Hrep2) as (c' & Ea & Hab). rewrite Ea. simpl.
    by eapply (SC_output c affected out s o x m os c').
  - destruct (fail_all_ok affected (with_executor x (with_scheduler s c)) Haff) as (c' & Ea & Hab);
      [by apply rep_with_executor |].
    rewrite Ea. simpl. by eapply (SC_error c affected out s e x c').
Qed.

(** Removing requests keeps the rest alive and does not add allowance. *)
Lemma aborted_inv ids c c' :
  aborted ids c c' → (∀ id r, ec_requests c !! id = Some r → id ∈ ids ∨ live_ok (ec_stop_token_ids c) r) →
  engine_inv c'.
Proof.
  intros [A1 A2 A3 A4 A5] Hl. split; [done |]. intros id r. rewrite A2, A5. case_decide; [done |].
  intros Hr. by destruct (Hl id r Hr).
Qed.

Lemma credit_mono m m' : (∀ id, m' !! id = None ∨ m' !! id = m !! id) → credit m' ≤ credit m.
Proof.
  revert m'. induction m as [|id r m Hm IH] using map_ind; intros m' H'.
  - replace m' with (∅ : gmap RequestId EngineRequest); [done |].
    apply map_eq. intros id. specialize (H' id). rewrite lookup_empty in *. by destruct H'.
  - rewrite credit_insert by done.
    assert (credit (delete id m') ≤ credit m) as Hd.
    { apply IH. intros id'. destruct (decide (id' = id)) as [->|Hne]; [rewrite lookup_delete_eq; by left |].
      rewrite lookup_delete_ne by done. specialize (H' id'). by rewrite lookup_insert_ne in H'. }
    specialize (H' id). rewrite lookup_insert_eq in H'. destruct H' as [H'|H'].
    + rewrite delete_id in Hd by done. lia.
    + rewrite (credit_delete m' id r) by done. lia.
Qed.

Lemma aborted_credit ids c c' : aborted ids c c' → credit (ec_requests c') ≤ credit (ec_requests c).
Proof. intros Hab. apply credit_mono. intros id. rewrite (ab_requests _ _ _ Hab). case_decide; auto. Qed.

Lemma aborted_credit_lt ids c c' id r :
  aborted ids c c' → id ∈ ids → ec_requests c !! id = Some r → 0 < tokens_left r →
  credit (ec_requests c') < credit (ec_requests c).
Proof.
  intros Hab Hid Hr Hl. rewrite (credit_delete (ec_requests c) id r Hr).
  assert (credit (ec_requests c') ≤ credit (delete id (ec_requests c))); [| lia].
  apply credit_mono. intros id'. rewrite (ab_requests _ _ _ Hab). case_decide; [by left |].
  rewrite lookup_delete_ne by set_solver. by right.
Qed.

Lemma engine_step_inv c order affected os c' :
  engine_inv c → order_ok c order → NoDup affected →
  engine_step sha256 xxh3_64 order affected c = Some (os, c') →
  engine_inv c' ∧ (if existsb reports os then 1 else 0) + credit (ec_requests c') ≤ credit (ec_requests c).
Proof.
  intros Hinv Ho Haff E. pose proof Hinv as [Hrep Hlive].
  destruct (engine_step_case c order affected Hinv Ho Haff) as [(_ & E0 & _)|(out & s & _ & Hrep1 & _ & Hk & Hcase)]; [congruence |].
  rewrite E in Hcase. inversion Hcase as [Hz | | e x c1 _ _ Hab | o x m os1 c1 _ _ Ep Hrep2 Hab]; subst; clear Hcase.
  - simpl. split; [by split | lia].
  - split; [eapply aborted_inv; [exact Hab |]; intros id r Hr; right; by apply (Hlive id) |].
    pose proof (aborted_credit _ _ _ Hab) as Hle. simpl in Hle.
    destruct (existsb _ _) eqn:Eb; [| lia].
    apply existsb_exists in Eb as (o & Ho' & _). apply list_elem_of_In in Ho'.
    apply list_elem_of_bind in Ho' as (id & Ho' & Hid). unfold error_output in Ho'.
    destruct (ec_requests c !! id) as [r|] eqn:Hr; [| by apply not_elem_of_nil in Ho'].
    pose proof (aborted_credit_lt _ _ _ id r Hab Hid Hr) as Hlt. simpl in Hlt.
    destruct (Hlive id r Hr) as [Hl _]. specialize (Hlt Hl). lia.
  - pose proof (process_outputs_ok (ec_stop_token_ids c) (per_request_outputs o) [] (ec_requests c)) as Hp.
    rewrite Ep in Hp. simpl in Hp. destruct Hp as [_ Hc Hl Hst _]; [intros id r Hr; right; by apply (Hlive id) |].
    split; [eapply aborted_inv; [exact Hab |]; simpl; exact Hl |].
    pose proof (aborted_credit _ _ _ Hab) as Hle. simpl in Hle.
    destruct (existsb _ _) eqn:Eb; [| lia].
    apply existsb_exists in Eb as (ro & Hro & Hrep'). apply list_elem_of_In in Hro.
    specialize (Hst ro Hro Hrep' ltac:(by apply not_elem_of_nil)). lia.
Qed.

(** ** Reachable engines *)
Inductive EngineOp : Type :=
  | EAdd (req : InferenceRequest Value)
  | EAbort (id : RequestId)
  | EStep (order affected : list RequestId)
  | EReset.

Definition engine_apply (c : EngineCore) (op : EngineOp) : option EngineCore :=
  match op with
  | EAdd req => Some (engine_add_request value_to_string c req).2
  | EAbort id => engine_abort_request c id
  | EStep order affected => snd <$> engine_step sha256 xxh3_64 order affected c
  | EReset => Some (match engine_reset_prefix_cache c with Ok c' => c' | Err _ => c end)
  end.

(** Request ids are fresh and the hash orders are orders of their tables. *)
Definition engine_op_ok (c : EngineCore) (op : EngineOp) : Prop :=
  match op with
  | EAdd req => ec_requests c !! request_id req = None
  | EStep order affected => order_ok c order ∧ affected_ok c order affected
  | _ => True
  end.

Inductive engine_reach (config : SchedulerConfig) (cc : CacheConfig) (nblocks maxlen : nat) : EngineCore → Prop :=
  | engine_reach_new x s eos ids :
      scheduler_new config cc nblocks maxlen = Some s →
      engine_reach config cc nblocks maxlen (with_stop_token_ids (engine_new x s eos) ids)
  | engine_reach_op c op c' :
      engine_reach config cc nblocks maxlen c → engine_op_ok c op → engine_apply c op = Some c' →
      engine_reach config cc nblocks maxlen c'.

Lemma engine_add_inv c req :
  engine_inv c → ec_requests c !! request_id req = None →
  engine_inv (engine_add_request value_to_string c req).2.
Proof.
  intros [[Hs Ha] Hl] Hnew. unfold engine_add_request.
  destruct (validate _ _); [| done].
  destruct (executor_add_request _ _ _ _) as [[u|e] x]; simpl; [| done].
  assert (Hsnew : s_requests (ec_scheduler c) !! request_id req = None).
  { specialize (Ha (request_id req)). rewrite Hnew in Ha. by inversion Ha. }
  split; [split; simpl |]; simpl.
  - by apply add_request_inv.
  - intros id. destruct (decide (id = request_id req)) as [->|Hne].
    + rewrite !lookup_insert_eq. by constructor.
    + rewrite !lookup_insert_ne by done. apply Ha.
  - intros id r. destruct (decide (id = request_id req)) as [->|Hne].
    + rewrite lookup_insert_eq. intros [= <-]. split; [| by intros t ?%not_elem_of_nil].
      unfold tokens_left, allowance. simpl. lia.
    + rewrite lookup_insert_ne by done. apply Hl.
Qed.

Lemma engine_apply_inv c op c' :
  engine_inv c → engine_op_ok c op → engine_apply c op = Some c' → engine_inv c'.
Proof.
  intros Hinv Hop E. pose proof Hinv as [Hrep Hl]. destruct op as [req|id|order affected|]; simpl in *.
  - injection E as <-. by apply engine_add_inv.
  - destruct (abort_one c id Hrep) as (c1 & E1 & Hab). simplify_eq.
    eapply aborted_inv; [exact Hab |]. intros id' r Hr. right. by apply (Hl id').
  - destruct Hop as [Ho [Hnd _]].
    destruct (engine_step _ _ _ _ _) as [[os c1]|] eqn:Es; simpl in E; [| done]. injection E as <-.
    by apply (engine_step_inv c order affected os c1).
  - injection E as <-. unfold engine_reset_prefix_cache.
    destruct (scheduler_reset_prefix_cache (ec_scheduler c)) as [s'|e] eqn:Er; [| done].
    destruct Hrep as [Hs Ha]. destruct (reset_inv _ _ Hs Er) as (Hs' & Hreq & _).
    split; [split; simpl |]; [done | by rewrite Hreq | done].
Qed.

Lemma engine_reach_inv config cc nblocks maxlen c :
  0 < cc_block_size cc → engine_reach config cc nblocks maxlen c → engine_inv c.
Proof.
  intros Hbs. induction 1 as [x s eos ids Hs | c op c' _ IH Hop E]; [| by eapply engine_apply_inv].
  destruct (scheduler_new_inv (Value := Value) config cc nblocks maxlen Hbs) as (s' & E & Hinv & Hr). simplify_eq.
  split; [split; simpl |]; [done | | ].
  - intros id. rewrite Hr, !lookup_empty. constructor.
  - simpl. intros id r. by rewrite lookup_empty.
Qed.


(** The outputs when no request is reported twice. *)
Definition reported (stops : gset N) (m : gmap RequestId EngineRequest) (p : PerRequestOutput) (o : RequestOutput) (r' : EngineRequest) : Prop :=
  ∃ r why, m !! pro_request_id p = Some r ∧ consumed stops r (pro_token_ids p) r' why
    ∧ o = make_output (pro_request_id p) r' (pro_token_ids p) why.

Lemma process_outputs_spec stops l : ∀ m : gmap RequestId EngineRequest,
  NoDup (pro_request_id <$> l) →
  (∀ p, p ∈ l → ∃ r, m !! pro_request_id p = Some r ∧ 0 < tokens_left r) →
  Forall2 (λ p o, ∃ r', reported stops m p o r' ∧ (process_outputs stops m l).1 !! pro_request_id p = Some r')
    l (process_outputs stops m l).2
  ∧ (∀ id, id ∉ pro_request_id <$> l → (process_outputs stops m l).1 !! id = m !! id).
Proof.
  induction l as [|p l IH]; intros m Hnd Hk; [by split |].
  rewrite fmap_cons, NoDup_cons in Hnd. destruct Hnd as [Hp Hnd].
  destruct (Hk p ltac:(by left)) as (r & Hr & Hleft).
  cbn [process_outputs]. unfold process_output. rewrite (token_loop_Some _ _ _ _ _ Hr). cbn [fst snd].
  rewrite lookup_insert_eq.
  set (r' := (consume _ _ _).1). set (why := (consume _ _ _).2). set (m1 := <[_ := r']> m).
  assert (Hne : ∀ id, id ∈ pro_request_id <$> l → m1 !! id = m !! id).
  { intros id Hid. subst m1. rewrite lookup_insert_ne; [done |]. intros <-. done. }
  assert (Hin : ∀ q, q ∈ l → pro_request_id q ∈ pro_request_id <$> l).
  { intros q Hq. apply list_elem_of_fmap. eauto. }
  destruct (IH m1 Hnd) as [Hf Ho]; [intros q Hq; rewrite Hne by auto; apply Hk; by right |].
  destruct (process_outputs stops m1 l) as [m2 os]. simpl in *. split.
  - constructor.
    + exists r'. split; [exists r, why; split_and!; [done | by apply consume_spec | done] |].
      rewrite Ho by done. apply lookup_insert_eq.
    + eapply Forall2_impl; [apply Forall2_same_length_lookup_2; [by eapply Forall2_length |] | ].
      2: { intros q o Hq. exact Hq. }
      intros i q o Hq Hoi. pose proof (Forall2_lookup_lr _ _ _ _ _ _ Hf Hq Hoi) as (r2 & (r0 & why0 & H0 & Hrest) & H2).
      exists r2. split; [| done]. exists r0, why0. rewrite <- Hne; [done |]. apply Hin. by eapply list_elem_of_lookup_2.
  - intros id Hid. rewrite not_elem_of_cons in Hid. destruct Hid as [H1 H2].
    rewrite Ho by done. subst m1. by rewrite lookup_insert_ne.
Qed.

Lemma Forall2_finished_ids (R : PerRequestOutput → RequestOutput → Prop) l os :
  Forall2 R l os → (∀ p o, R p o → ro_request_id o = pro_request_id p) →
  NoDup (pro_request_id <$> l) → ∀ i p o, l !! i = Some p → os !! i = Some o →
  (pro_request_id p ∈ finished_request_ids os ↔ ro_finished o = true).
Proof.
  intros Hf Hid Hnd i p o Hp Ho. rewrite finished_request_ids_elem.
  pose proof (Hid _ _ (Forall2_lookup_lr _ _ _ _ _ _ Hf Hp Ho)) as E. split; [| by exists o; split_and!; [eapply list_elem_of_lookup_2 | |]].
  intros (o' & Ho' & Hfin & E'). apply list_elem_of_lookup in Ho' as [j Hj].
  destruct (Forall2_lookup_r _ _ _ _ _ Hf Hj) as (p' & Hp' & HR). apply Hid in HR.
  assert (i = j) as ->; [| congruence].
  eapply (NoDup_lookup _ i j (pro_request_id p) Hnd); rewrite list_lookup_fmap; [by rewrite Hp |].
  rewrite Hp'. simpl. congruence.
Qed.

(** C15. One successful step, with a lawful executor: every scheduled request the
    executor answered is reported, in its order, with all the tokens the executor
    returned for it (those past a stop included, [output_keeps_tokens_past_stop]);
    the request itself has exactly the tokens up to the first stopping condition
    appended to its output, and the report carries the finish reason of that
    condition; requests that may go on stay, finished ones leave the engine
    and the scheduler and give their blocks back; no other request changes. *)
Theorem engine_step_spec `{!LawfulExecutor Value X} config cc nblocks maxlen c order affected out s o x
    (Hbs : 0 < cc_block_size cc) (Hreach : engine_reach config cc nblocks maxlen c)
    (Hop : engine_op_ok c (EStep order affected))
    (Hsched : step sha256 xxh3_64 order (ec_scheduler c) = Some (out, s))
    (Hn : num_scheduled out ≠ 0)
    (Hexec : execute_model Value (ec_executor c) out = Some (Ok o, x)) :
  ∃ os c', engine_step sha256 xxh3_64 order affected c = Some (os, c')
    ∧ Forall2 (λ p ro, ∃ r', reported (ec_stop_token_ids c) (ec_requests c) p ro r'
        ∧ let id := pro_request_id p in
          if ro_finished ro
          then ec_requests c' !! id = None ∧ s_requests (ec_scheduler c') !! id = None
               ∧ ¬ live (ec_scheduler c') id ∧ request_blocks (s_kv (ec_scheduler c')) !! id = None
          else ec_requests c' !! id = Some r') (per_request_outputs o) os
    ∧ (∀ id, id ∉ pro_request_id <$> per_request_outputs o → ec_requests c' !! id = ec_requests c !! id).
Proof.
  pose proof (engine_reach_inv _ _ _ _ _ Hbs Hreach) as Hinv. pose proof Hinv as [_ Hl].
  destruct Hop as [Ho [Hnd _]].
  destruct (engine_step_case c order affected Hinv Ho Hnd) as [[E _]|(out' & s' & E & Hrep1 & Hnds & Hk & Hcase)]; simplify_eq.
  inversion Hcase as [Hz | Hz Ex | e x1 c1 Hz Ex | o1 x1 m os c1 Hz Ex Ep Hrep2 Hab]; simplify_eq. clear Hcase.
  exists os, c1. split; [done |].
  assert (Hnd2 : NoDup (scheduled_new out ++ scheduled_running out)).
  { unfold sched_ids in Hnds. rewrite !NoDup_app in Hnds. rewrite NoDup_app. set_solver. }
  pose proof (exec_once _ _ _ _ Hexec Hnd2) as Honce.
  assert (Hknown : ∀ p, p ∈ per_request_outputs o → ∃ r, ec_requests c !! pro_request_id p = Some r ∧ 0 < tokens_left r).
  { intros p Hp. pose proof (exec_scheduled _ _ _ _ _ Hexec Hp) as Hin.
    destruct (Hk (pro_request_id p)) as [r Hr]; [unfold sched_ids; set_solver |].
    exists r. split; [done | by apply (Hl _ _ Hr)]. }
  destruct (process_outputs_spec (ec_stop_token_ids c) (per_request_outputs o) (ec_requests c) Honce Hknown) as [Hf Hother].
  rewrite Ep in Hf, Hother. simpl in Hf, Hother.
  assert (Hids : ∀ i p ro, per_request_outputs o !! i = Some p → os !! i = Some ro →
    (pro_request_id p ∈ finished_request_ids os ↔ ro_finished ro = true)).
  { eapply Forall2_finished_ids; [exact Hf | | done]. intros p ro (r' & (r & why & _ & _ & ->) & _). done. }
  split.
  - apply Forall2_same_length_lookup_2; [by eapply Forall2_length |]. intros i p ro Hp Hro.
    pose proof (Forall2_lookup_lr _ _ _ _ _ _ Hf Hp Hro) as (r' & Hrep' & Hm). exists r'. split; [done |]. simpl.
    specialize (Hids i p ro Hp Hro). destruct (ro_finished ro) eqn:Efin.
    + assert (pro_request_id p ∈ finished_request_ids os) as Hin by (by apply Hids).
      assert (ec_requests c1 !! pro_request_id p = None) as Hnone
        by (rewrite (ab_requests _ _ _ Hab); by rewrite decide_True).
      split_and!; [done | | by apply (ab_gone _ _ _ Hab) | by apply (ab_gone _ _ _ Hab)].
      pose proof (ei_agree _ (ab_rep _ _ _ Hab) (pro_request_id p)) as Ha. rewrite Hnone in Ha. by inversion Ha.
    + rewrite (ab_requests _ _ _ Hab), decide_False; [done |]. intros Hin. apply Hids in Hin. congruence.
  - intros id Hid. rewrite (ab_requests _ _ _ Hab), decide_False; [by apply Hother |].
    intros (ro & Hro & _ & Eid)%finished_request_ids_elem. apply Hid.
    apply list_elem_of_lookup in Hro as [i Hi]. destruct (Forall2_lookup_r _ _ _ _ _ Hf Hi) as (p & Hp & r' & (r & why & _ & _ & ->) & _).
    simpl in Eid. subst id. apply list_elem_of_fmap. exists p. split; [done | by eapply list_elem_of_lookup_2].
Qed.

(** C22. When the executor fails, every scheduled request is reported once, with
    finish reason Error and no tokens, and leaves the engine and the scheduler
    with its blocks freed; the other requests stay, live or not and with the
    blocks the scheduler's step left them. *)
Theorem engine_error_step config cc nblocks maxlen c order affected out s e x
    (Hbs : 0 < cc_block_size cc) (Hreach : engine_reach config cc nblocks maxlen c)
    (Hop : engine_op_ok c (EStep order affected))
    (Hsched : step sha256 xxh3_64 order (ec_scheduler c) = Some (out, s))
    (Hn : num_scheduled out ≠ 0)
    (Hexec : execute_model Value (ec_executor c) out = Some (Err e, x)) :
  ∃ os c', engine_step sha256 xxh3_64 order affected c = Some (os, c')
    ∧ ro_request_id <$> os = affected ∧ affected ≡ₚ sched_ids out
    ∧ (∀ ro, ro ∈ os → ro_finished ro = true
         ∧ co_finish_reason <$> ro_outputs ro = [Some FR_Error] ∧ (ro_outputs ro ≫= co_token_ids) = [])
    ∧ (∀ id, id ∈ affected → ec_requests c' !! id = None ∧ s_requests (ec_scheduler c') !! id = None
         ∧ ¬ live (ec_scheduler c') id ∧ request_blocks (s_kv (ec_scheduler c')) !! id = None)
    ∧ (∀ id, id ∉ affected → ec_requests c' !! id = ec_requests c !! id
         ∧ (live (ec_scheduler c') id ↔ live s id)
         ∧ request_blocks (s_kv (ec_scheduler c')) !! id = request_blocks (s_kv s) !! id).
Proof.
  pose proof (engine_reach_inv _ _ _ _ _ Hbs Hreach) as Hinv.
  destruct Hop as [Ho [Hnd Haff]]. pose proof (Haff _ _ Hsched) as Hmem.
  destruct (engine_step_case c order affected Hinv Ho Hnd) as [[E _]|(out' & s' & E & Hrep1 & Hnds & Hk & Hcase)]; simplify_eq.
  inversion Hcase as [Hz | Hz Ex | e1 x1 c1 Hz Ex Hab | o1 x1 m os c1 Hz Ex]; simplify_eq. clear Hcase.
  assert (Hone : ∀ id, id ∈ affected → ∃ r, error_output (ec_requests c) id = [make_output id r [] (Some FR_Error)]).
  { intros id Hid. apply Hmem, Hk in Hid as [r Hr]. exists r. unfold error_output. by rewrite Hr. }
  eexists _, c1. split; [done |]. split_and!.
  - clear -Hone. induction affected as [|id l IH]; [done |]. rewrite bind_cons, fmap_app.
    destruct (Hone id ltac:(by left)) as [r ->]. simpl. f_equal. apply IH. intros id' Hid. apply Hone. by right.
  - apply NoDup_Permutation; [done | done | exact Hmem].
  - intros ro Hro. apply list_elem_of_bind in Hro as (id & Hro & Hid).
    destruct (Hone id Hid) as [r Hr]. rewrite Hr in Hro. apply list_elem_of_singleton in Hro as ->. done.
  - intros id Hid. assert (ec_requests c1 !! id = None) as Hnone
      by (rewrite (ab_requests _ _ _ Hab); by rewrite decide_True).
    split_and!; [done | | by apply (ab_gone _ _ _ Hab) | by apply (ab_gone _ _ _ Hab)].
    pose proof (ei_agree _ (ab_rep _ _ _ Hab) id) as Ha. rewrite Hnone in Ha. by inversion Ha.
  - intros id Hid. destruct (ab_other _ _ _ Hab id Hid) as [H1 H2].
    split_and!; [| exact H1 | exact H2]. rewrite (ab_requests _ _ _ Hab). by rewrite decide_False.
Qed.

(** Runs of steps, counting those that report tokens or the end of a request. *)
Inductive engine_run : nat → EngineCore → EngineCore → Prop :=
  | engine_run_nil c : engine_run 0 c c
  | engine_run_step n c order affected os c1 c2 :
      engine_op_ok c (EStep order affected) →
      engine_step sha256 xxh3_64 order affected c = Some (os, c1) →
      engine_run n c1 c2 →
      engine_run ((if existsb reports os then 1 else 0) + n) c c2.

Lemma engine_run_credit n c c' :
  engine_run n c c' → engine_inv c → n + credit (ec_requests c') ≤ credit (ec_requests c).
Proof.
  induction 1 as [c | n c order affected os c1 c2 [Ho [Hnd _]] E _ IH]; intros Hinv; [done |].
  destruct (engine_step_inv c order affected os c1 Hinv Ho Hnd E) as [Hinv1 Hc]. specialize (IH Hinv1). lia.
Qed.

(** C23. Generation is bounded, for any executor: over any run of steps, the
    steps that report a token or the end of a request, together with the tokens
    the remaining requests may still generate, number at most the tokens the
    requests could generate at the start. *)
Theorem engine_generation_bounded config cc nblocks maxlen c c' n
    (Hbs : 0 < cc_block_size cc) (Hreach : engine_reach config cc nblocks maxlen c)
    (Hrun : engine_run n c c') :
  n + credit (ec_requests c') ≤ credit (ec_requests c).
Proof. apply engine_run_credit; [done | by apply (engine_reach_inv config cc nblocks maxlen)]. Qed.
End step_facts.
End engine.

(** ** A concrete executor

    It answers every request that has tokens with the token [5], and fails when
    its state is false. *)
Definition const_execute (ok : bool) (out : SchedulerOutput) : option (result ExecutorOutput Error * bool) :=
  if ok
  then Some (Ok (mkExecutorOutput ((λ id, mkPerRequestOutput id [5%N] [None])
                                     <$> scheduled_new out ++ scheduled_running out)), ok)
  else Some (Err (EMsg "device lost"), ok).

#[global] Instance const_executor : Executor unit bool := {
  initialize x _ _ := Some (Ok 0, x);
  determine_available_memory _ := Ok 0%N;
  execute_model := const_execute;
  executor_add_request x _ _ _ := (Ok (), x);
  executor_abort_request x _ := x;
  shutdown x := x;
}.

#[global] Instance const_lawful : LawfulExecutor unit bool.
Proof.
  split; unfold execute_model; simpl; unfold const_execute.
  - intros [] x' out o; intros [= <- <-] Hnd. simpl. by rewrite <- list_fmap_compose, list_fmap_id.
  - intros [] x' out o p; intros [= <- <-]; simpl. rewrite list_elem_of_fmap. by intros (id & -> & Hid).
  - intros [] x' out o p; intros [= <- <-]; simpl. rewrite list_elem_of_fmap. by intros (id & -> & _).
Qed.

Definition demo_engine0 (ok : bool) : EngineCore (Value := unit) (X := bool) :=
  with_stop_token_ids (engine_new ok (demo0 false) 2) [].
Definition unit_to_string (_ : unit) : string := "null".
Definition demo_engine (ok : bool) : EngineCore (Value := unit) (X := bool) :=
  (engine_add_request unit_to_string (demo_engine0 ok) (demo_request 7 [1; 2; 3]%N)).2.

Lemma demo_engine_reach ok :
  engine_reach unit_to_string (λ x, x) toy_digest demo_config (demo_cache false) 5 16 (demo_engine ok).
Proof.
  apply (engine_reach_op _ _ _ _ _ _ _ (demo_engine0 ok) (EAdd (demo_request 7 [1; 2; 3]%N)));
    [| reflexivity | reflexivity].
  apply engine_reach_new. vm_compute. reflexivity.
Qed.

Lemma demo_engine_op ok : engine_op_ok (λ x, x) toy_digest (demo_engine ok) (EStep [7%N] [7%N]).
Proof.
  assert (Hmap : s_requests (ec_scheduler (demo_engine ok))
    = {[7%N := mkSchedulerRequest (demo_request 7 [1; 2; 3]%N) [1; 2; 3]%N 0 [] Waiting]})
    by (destruct ok; vm_compute; reflexivity).
  split; [| split].
  - intros id. rewrite Hmap, list_elem_of_singleton, lookup_singleton_is_Some. naive_solver.
  - apply NoDup_singleton.
  - intros out s E id. assert (sched_ids out = [7%N]) as ->; [| done].
    assert (sched_ids ∘ fst <$> step (λ x, x) toy_digest [7%N] (ec_scheduler (demo_engine ok)) = Some [7%N]) as H
      by (destruct ok; vm_compute; reflexivity).
    rewrite E in H. by injection H.
Qed.

Definition demo_sched_out (ok : bool) : SchedulerOutput * Scheduler (Value := unit) :=
  default (output_empty, ec_scheduler (demo_engine ok)) (step (λ x, x) toy_digest [7%N] (ec_scheduler (demo_engine ok))).

Lemma demo_sched_step ok :
  step (λ x, x) toy_digest [7%N] (ec_scheduler (demo_engine ok))
  = Some ((demo_sched_out ok).1, (demo_sched_out ok).2).
Proof. destruct ok; vm_compute; reflexivity. Qed.


Lemma engine_step_spec_witness :
  ∃ os c' r', engine_step (λ x, x) toy_digest [7%N] [7%N] (demo_engine true) = Some (os, c')
    ∧ length os = 1 ∧ ec_requests c' !! 7%N = Some r' ∧ er_generated_token_ids r' = [5%N].
Proof.
  destruct (engine_step_spec unit_to_string (λ x, x) toy_digest demo_config (demo_cache false) 5 16
    (demo_engine true) [7%N] [7%N] (demo_sched_out true).1 (demo_sched_out true).2
    (mkExecutorOutput [mkPerRequestOutput 7%N [5%N] [None]]) true) as (os & c' & E & Hf & _);
    [simpl; lia | apply demo_engine_reach | apply demo_engine_op
    | apply demo_sched_step | vm_compute; lia | vm_compute; reflexivity |].
  simpl in Hf. apply Forall2_cons_inv_l in Hf as (ro & os' & (r' & Hr' & Hend) & Hnil & ->).
  apply Forall2_nil_inv_l in Hnil as ->.
  destruct Hr' as (r & why & Hr & Hcd & ->). assert (r = mkEngineRequest [1; 2; 3]%N [] SamplingParams_default None 16 0 false) as ->.
  { vm_compute in Hr. by injection Hr as <-. }
  destruct (cd_tokens _ _ _ _ _ Hcd) as (n & Hn & Hgen & _ & Hwhy). simpl in Hn.
  destruct why as [w|]; [exfalso | exists [make_output 7%N r' [5%N] None], c', r'; split_and!; [exact E | reflexivity | exact Hend |]].
  - destruct Hwhy as (t & _ & Ht & [(_ & Hs & _) | (_ & _ & Hl)]).
    + destruct (pred n); [injection Ht as <-; vm_compute in Hs; discriminate Hs | destruct n0; discriminate Ht].
    + vm_compute in Hl. lia.
  - destruct Hwhy as (-> & _). exact Hgen.
Defined.

Lemma engine_error_step_witness :
  ∃ os c', engine_step (λ x, x) toy_digest [7%N] [7%N] (demo_engine false) = Some (os, c')
    ∧ ro_request_id <$> os = [7%N] ∧ ec_requests c' !! 7%N = None.
Proof.
  destruct (engine_error_step unit_to_string (λ x, x) toy_digest demo_config (demo_cache false) 5 16
    (demo_engine false) [7%N] [7%N] (demo_sched_out false).1 (demo_sched_out false).2
    (EMsg "device lost") false) as (os & c' & E & Hids & _ & _ & Hgone & _);
    [simpl; lia | apply demo_engine_reach | apply demo_engine_op
    | apply demo_sched_step | vm_compute; lia | vm_compute; reflexivity |].
  exists os, c'. split_and!; [exact E | exact Hids | apply Hgone; by left].
Defined.

(** A reporting step uses up one of the 16 tokens. *)
Lemma engine_generation_bounded_witness :
  ∃ c', engine_run (λ x, x) toy_digest 1 (demo_engine true) c'
    ∧ 1 + credit (ec_requests c') ≤ credit (ec_requests (demo_engine true))
    ∧ credit (ec_requests (demo_engine true)) = 16.
Proof.
  destruct (engine_step (λ x, x) toy_digest [7%N] [7%N] (demo_engine true)) as [[os c']|] eqn:E;
    [| vm_compute in E; discriminate E].
  assert (existsb reports os = true) as Hrep.
  { assert (existsb reports ∘ fst <$> engine_step (λ x, x) toy_digest [7%N] [7%N] (demo_engine true) = Some true) as H
      by (vm_compute; reflexivity).
    rewrite E in H. by injection H. }
  assert (Hrun : engine_run (λ x, x) toy_digest 1 (demo_engine true) c').
  { pose proof (engine_run_step (λ x, x) toy_digest 0 (demo_engine true) [7%N] [7%N] os c' c'
      (demo_engine_op true) E (engine_run_nil _ _ c')) as H. by rewrite Hrep in H. }
  exists c'. split_and!; [exact Hrun | | vm_compute; reflexivity].
  apply (engine_generation_bounded unit_to_string (λ x, x) toy_digest demo_config (demo_cache false) 5 16);
    [simpl; lia | apply demo_engine_reach | exact Hrun].
Defined.

(** A stop token in the middle of the executor's tokens ends the request there,
    but the output still carries the tokens after it, and the usage does not. *)
Example output_keeps_tokens_past_stop :
  let r := mkEngineRequest (Value := unit) [1]%N [] SamplingParams_default None 16 0 false in
  let '(_, os) := process_output {[2%N]} {[7%N := r]} (mkPerRequestOutput 7%N [4; 2; 9]%N []) in
  os = [mkRequestOutput 7%N [mkCompletionOutput 0 "" [4; 2; 9]%N (Some FR_Stop) None] true (mkUsage 1 2 3)].
Proof. vm_compute. reflexivity. Qed.
