(* ===== verification/SyncEngine.v ===== *)
(** * The synchronous engine (rllm-engine/src/sync_engine.rs)

    [LLMEngine] wraps [EngineCore]; [generate] adds the requests and steps until
    there is no work.  The loop has no bound in the source: [generate_loop] has
    fuel, and [generate_correct] gives a number of steps that is enough when no
    step is idle.  [order_of] and [affected_of] are the hash orders of each step. *)
From S2P Require Import Prelude F32 CoreTypes Request FreeQueue BlockPool KVSpec Prefix CacheManager Policy Scheduler Executor EngineCore.

(** How a loop with fuel ends. *)
Inductive outcome (A : Type) : Type :=
  | Done (a : A)
  | Panic
  | OutOfFuel.
Arguments Done {A} a.
Arguments Panic {A}.
Arguments OutOfFuel {A}.

Module LLMEngine.
Section sync.
Context {Value X : Type} `{!Executor Value X}.
Context (value_to_string : Value → string) (sha256 : list byte → list byte) (xxh3_64 : list byte → N).
Context (order_of affected_of : EngineCore (Value := Value) (X := X) → list RequestId).

(** The wrapper's methods are those of the core. *)
Definition add_request (c : EngineCore (Value := Value) (X := X)) (request : InferenceRequest Value) :=
  engine_add_request value_to_string c request.
Definition abort_request (c : EngineCore) (id : RequestId) : option EngineCore := engine_abort_request c id.
Definition step (c : EngineCore) : option (list RequestOutput * EngineCore) :=
  engine_step sha256 xxh3_64 (order_of c) (affected_of c) c.
Definition has_work (c : EngineCore (Value := Value) (X := X)) : bool := engine_has_work c.

(** [for req in requests { self.add_request(req)?; }] *)
Fixpoint add_all (c : EngineCore) (requests : list (InferenceRequest Value)) : result unit Error * EngineCore :=
  match requests with
  | [] => (Ok (), c)
  | req :: requests =>
      match add_request c req with
      | (Ok _, c) => add_all c requests
      | (Err e, c) => (Err e, c)
      end
  end.

Definition finished_outputs (outputs : list RequestOutput) : list RequestOutput :=
  filter (λ o, ro_finished o = true) outputs.

Fixpoint generate_loop (fuel : nat) (c : EngineCore) (all_outputs : list RequestOutput) :
    outcome (list RequestOutput * EngineCore) :=
  if has_work c then
    match fuel with
    | 0 => OutOfFuel
    | S fuel =>
        match step c with
        | None => Panic
        | Some (outputs, c) => generate_loop fuel c (all_outputs ++ finished_outputs outputs)
        end
    end
  else Done (all_outputs, c).

Definition generate (fuel : nat) (c : EngineCore) (requests : list (InferenceRequest Value)) :
    outcome (result (list RequestOutput) Error * EngineCore) :=
  match add_all c requests with
  | (Err e, c) => Done (Err e, c)
  | (Ok _, c) =>
      match generate_loop fuel c [] with
      | Done (outputs, c) => Done (Ok outputs, c)
      | Panic => Panic
      | OutOfFuel => OutOfFuel
      end
  end.

(** The state after [k] iterations that found work. *)
Fixpoint iterate (k : nat) (c : EngineCore) : option EngineCore :=
  match k with
  | 0 => Some c
  | S k => if has_work c then '(_, c) ← step c; iterate k c else None
  end.

(** ** Finished outputs and known requests *)
Definition known (c : EngineCore (Value := Value) (X := X)) (id : RequestId) : Prop := is_Some (ec_requests c !! id).

Lemma process_outputs_ids stops l : ∀ (m : gmap RequestId (EngineRequest (Value := Value))),
  sublist (ro_request_id <$> (process_outputs stops m l).2) (pro_request_id <$> l).
Proof.
  induction l as [|p l IH]; intros m; simpl; [constructor |]. unfold process_output.
  destruct (token_loop _ _ _ _) as [m1 why]. specialize (IH m1).
  destruct (process_outputs stops m1 l) as [m2 os]. simpl in *.
  destruct (m1 !! pro_request_id p); simpl; [by apply sublist_skip | by apply sublist_cons].
Qed.

Lemma finished_ids_sublist os : sublist (finished_request_ids os) (ro_request_id <$> os).
Proof. unfold finished_request_ids. apply fmap_sublist, sublist_filter. Qed.

Lemma finished_outputs_ids os : ro_request_id <$> finished_outputs os = finished_request_ids os.
Proof. done. Qed.

Record step_accounts (c : EngineCore) (os : list RequestOutput) (c' : EngineCore) : Prop := {
  sa_nodup : NoDup (ro_request_id <$> os);
  sa_outputs : ∀ id, id ∈ ro_request_id <$> os → known c id;
  sa_known : ∀ id, known c id ↔ id ∈ finished_request_ids os ∨ known c' id;
  sa_gone : ∀ id, id ∈ finished_request_ids os → ¬ known c' id;
}.

Definition orders_ok : Prop :=
  ∀ c, engine_op_ok sha256 xxh3_64 c (EStep (order_of c) (affected_of c)).

Lemma step_accounts_ok `{!LawfulExecutor Value X} c os c' :
  engine_inv c → orders_ok → step c = Some (os, c') → step_accounts c os c'.
Proof using Type.
  intros Hinv Hop E. destruct (Hop c) as [Ho [Hnd Haff]].
  unfold step in E. destruct (engine_step_case sha256 xxh3_64 c _ _ Hinv Ho Hnd)
    as [(_ & E0 & _)|(out & s & Es & Hrep1 & Hnds & Hk & Hcase)]; [congruence |]. rewrite E in Hcase.
  assert (Hacc : ∀ ids (c1 c2 : EngineCore), aborted ids c1 c2 → (∀ id, known c1 id ↔ known c id) →
    (∀ id, id ∈ ids → known c id) → (∀ id, known c id ↔ id ∈ ids ∨ known c2 id) ∧ ∀ id, id ∈ ids → ¬ known c2 id).
  { intros ids c1 c2 Hab H12 Hids. assert (∀ id, known c2 id ↔ id ∉ ids ∧ known c1 id) as H2.
    { intros id. unfold known. rewrite (ab_requests _ _ _ Hab). case_decide; [| tauto].
      split; [by intros [? ?] | by intros [? _]]. }
    split; intros id; rewrite H2, ?H12; [| tauto]. destruct (decide (id ∈ ids)); naive_solver. }
  inversion Hcase as [Hz | | e x c1 Hz Ex Hab | o x m os1 c1 Hz Ex Ep Hrep2 Hab]; subst; clear Hcase.
  - split; [apply NoDup_nil_2 | by intros id ?%not_elem_of_nil | | by intros id ?%not_elem_of_nil].
    intros id. unfold known. simpl. split; [by right | by intros [?%not_elem_of_nil|]].
  - assert (Hk' : ∀ id, id ∈ affected_of c → is_Some (ec_requests c !! id)).
    { intros id Hid. apply Hk. by apply (Haff _ _ Es). }
    assert (Hids : finished_request_ids (affected_of c ≫= error_output (ec_requests c)) = affected_of c
      ∧ ro_request_id <$> (affected_of c ≫= error_output (ec_requests c)) = affected_of c).
    { clear -Hk'. induction (affected_of c) as [|id l IH]; [done |].
      rewrite bind_cons, finished_request_ids_app, fmap_app.
      destruct IH as [-> ->]; [intros; apply Hk'; by right |].
      destruct (Hk' id ltac:(by left)) as [r Hr]. unfold error_output. by rewrite Hr. }
    destruct Hids as [Hids Hids2]. destruct (Hacc _ _ _ Hab) as [A1 A2]; [done | exact Hk' |].
    split; rewrite ?Hids, ?Hids2; done.
  - pose proof (process_outputs_ok (ec_stop_token_ids c) (per_request_outputs o) [] (ec_requests c)) as Hp.
    pose proof (process_outputs_ids (ec_stop_token_ids c) (per_request_outputs o) (ec_requests c)) as Hsub.
    rewrite Ep in Hp, Hsub. simpl in Hp, Hsub.
    destruct Hp as [Hsame _ _ _ Hkn]; [intros id r Hr; right; by apply (ei_live _ Hinv id) |].
    assert (NoDup (scheduled_new out ++ scheduled_running out)) as Hnd2.
    { unfold sched_ids in Hnds. rewrite !NoDup_app in Hnds. rewrite NoDup_app. set_solver. }
    pose proof (exec_once _ _ _ _ Ex Hnd2) as Honce.
    destruct (Hacc _ _ _ Hab) as [A1 A2].
    + intros id. unfold known. simpl. specialize (Hsame id). inversion Hsame; split; intros [? ?]; eauto; congruence.
    + intros id (ro & Hro & _ & <-)%finished_request_ids_elem. by apply Hkn.
    + split; [by eapply sublist_NoDup | | done | done].
      intros id (ro & -> & Hro)%list_elem_of_fmap. by apply Hkn.
Qed.

(** The loop with enough fuel, when no iteration is idle. *)
Lemma generate_loop_ok `{!LawfulExecutor Value X} fuel : ∀ c acc,
  engine_inv c → orders_ok →
  (∀ k c', iterate k c = Some c' → has_work c' = true →
     ∃ os c'', step c' = Some (os, c'') ∧ existsb reports os = true) →
  credit (ec_requests c) ≤ fuel →
  NoDup (ro_request_id <$> acc) → (∀ id, id ∈ ro_request_id <$> acc → ¬ known c id) →
  (∀ o, o ∈ acc → ro_finished o = true) →
  ∃ outs c', generate_loop fuel c acc = Done (acc ++ outs, c') ∧ has_work c' = false ∧ engine_inv c'
    ∧ NoDup (ro_request_id <$> acc ++ outs) ∧ (∀ o, o ∈ outs → ro_finished o = true)
    ∧ (∀ id, known c id ↔ id ∈ ro_request_id <$> outs ∨ known c' id)
    ∧ (∀ id, id ∈ ro_request_id <$> acc ++ outs → ¬ known c' id).
Proof using Type.
  induction fuel as [|fuel IH]; intros c acc Hinv Hop Hprog Hfuel Hnd Hgone Hfin;
    cbn [generate_loop]; destruct (has_work c) eqn:Hw.
  - destruct (Hprog 0 c eq_refl Hw) as (os & c1 & E & Hrep). destruct (Hop c) as [Ho [Hnda _]].
    destruct (engine_step_inv sha256 xxh3_64 c _ _ os c1 Hinv Ho Hnda E) as [_ Hc]. rewrite Hrep in Hc. lia.
  - exists [], c. rewrite app_nil_r. split_and!; try done; [by intros ? ?%not_elem_of_nil |].
    intros id. simpl. split; [by right | by intros [?%not_elem_of_nil|]].
  - destruct (Hprog 0 c eq_refl Hw) as (os & c1 & E & Hrep). rewrite E. destruct (Hop c) as [Ho [Hnda _]].
    destruct (engine_step_inv sha256 xxh3_64 c _ _ os c1 Hinv Ho Hnda E) as [Hinv1 Hc]. rewrite Hrep in Hc.
    destruct (step_accounts_ok c os c1 Hinv Hop E) as [S1 _ S2 S3].
    destruct (IH c1 (acc ++ finished_outputs os)) as (outs & c' & -> & W & I & N & F & K & G); try done.
    + intros k c' Hk. apply (Hprog (S k)). simpl. by rewrite Hw, E.
    + lia.
    + rewrite fmap_app, NoDup_app. split_and!; [done | | by eapply sublist_NoDup, finished_ids_sublist].
      intros id Hid Hin. apply (Hgone id Hid). apply S2. left. by rewrite finished_outputs_ids in Hin.
    + intros id. rewrite fmap_app, elem_of_app. intros [Hid|Hid]; [| by apply S3].
      intros Hk. apply (Hgone id Hid). apply S2. by right.
    + intros o. rewrite elem_of_app. intros [Ho'|Ho']; [by apply Hfin | by apply list_elem_of_filter in Ho' as [? _]].
    + exists (finished_outputs os ++ outs), c'. rewrite app_assoc. split_and!; try done.
      * intros o. rewrite elem_of_app. intros [Ho'|Ho']; [by apply list_elem_of_filter in Ho' as [? _] | by apply F].
      * intros id. rewrite S2, K, fmap_app, elem_of_app, finished_outputs_ids. tauto.
  - exists [], c. rewrite app_nil_r. split_and!; try done; [by intros ? ?%not_elem_of_nil |].
    intros id. simpl. split; [by right | by intros [?%not_elem_of_nil|]].
Qed.

(** C24. [generate]'s loop, started in any reachable engine: if no iteration is
    idle (each one that finds work reports a token or the end of a request), as
    many iterations as tokens may still be generated end the loop without a
    panic; it returns finished outputs only, at most one per request, and
    every request known at the start was either returned or is still known to the
    engine, never both. *)
Theorem generate_correct `{!LawfulExecutor Value X} config cc nblocks maxlen c fuel
    (Hbs : 0 < cc_block_size cc)
    (Hreach : engine_reach value_to_string sha256 xxh3_64 config cc nblocks maxlen c)
    (Horders : orders_ok)
    (Hbusy : ∀ k c', iterate k c = Some c' → has_work c' = true →
       ∃ os c'', step c' = Some (os, c'') ∧ existsb reports os = true)
    (Hfuel : credit (ec_requests c) ≤ fuel) :
  ∃ outs c', generate_loop fuel c [] = Done (outs, c') ∧ has_work c' = false
    ∧ (∀ o, o ∈ outs → ro_finished o = true) ∧ NoDup (ro_request_id <$> outs)
    ∧ (∀ id, is_Some (ec_requests c !! id) ↔ id ∈ ro_request_id <$> outs ∨ is_Some (ec_requests c' !! id))
    ∧ (∀ id, id ∈ ro_request_id <$> outs → ec_requests c' !! id = None).
Proof using Type.
  destruct (generate_loop_ok fuel c []) as (outs & c' & E & W & _ & N & F & K & G); try done.
  - by eapply engine_reach_inv.
  - apply NoDup_nil_2.
  - by intros id ?%not_elem_of_nil.
  - by intros o ?%not_elem_of_nil.
  - exists outs, c'. split_and!; try done. intros id Hid. specialize (G id Hid). unfold known in G.
    destruct (ec_requests c' !! id); [exfalso; eauto | done].
Qed.
End sync.
End LLMEngine.

(** ** Concrete runs *)
Definition demo_orders (c : EngineCore (Value := unit) (X := bool)) : list RequestId :=
  elements (dom (s_requests (ec_scheduler c))).
Definition demo_affected (c : EngineCore (Value := unit) (X := bool)) : list RequestId :=
  match Scheduler.step (λ x, x) toy_digest (demo_orders c) (ec_scheduler c) with
  | Some (out, _) => remove_dups (sched_ids out)
  | None => []
  end.

Lemma demo_orders_ok : LLMEngine.orders_ok (λ x, x) toy_digest demo_orders demo_affected.
Proof.
  intros c. split; [| split].
  - intros id. unfold demo_orders. by rewrite elem_of_elements, elem_of_dom.
  - unfold demo_affected. destruct (step _ _ _ _) as [[out s]|]; [apply NoDup_remove_dups | apply NoDup_nil_2].
  - intros out s E id. unfold demo_affected. rewrite E. apply elem_of_remove_dups.
Qed.

Definition demo_generate (fuel : nat) (c : EngineCore (Value := unit) (X := bool)) (l : list (InferenceRequest unit)) :=
  LLMEngine.generate unit_to_string (λ x, x) toy_digest demo_orders demo_affected fuel c l.

(** The executor's token is a stop token, so one step ends the request. *)
Definition demo_stop0 : EngineCore (Value := unit) (X := bool) :=
  with_stop_token_ids (engine_new true (demo0 false) 2) [5%N].
Definition demo_stop : EngineCore (Value := unit) (X := bool) :=
  (engine_add_request unit_to_string demo_stop0 (demo_request 7 [1; 2; 3]%N)).2.

Lemma demo_stop_reach :
  engine_reach unit_to_string (λ x, x) toy_digest demo_config (demo_cache false) 5 16 demo_stop.
Proof.
  apply (engine_reach_op _ _ _ _ _ _ _ demo_stop0 (EAdd (demo_request 7 [1; 2; 3]%N)));
    [| reflexivity | reflexivity].
  apply engine_reach_new. vm_compute. reflexivity.
Qed.

Lemma generate_correct_witness :
  ∃ outs c', LLMEngine.generate_loop (λ x, x) toy_digest demo_orders demo_affected 16 demo_stop [] = Done (outs, c')
    ∧ NoDup (ro_request_id <$> outs)
    ∧ (7%N ∈ ro_request_id <$> outs ∨ is_Some (ec_requests c' !! 7%N)).
Proof.
  destruct (LLMEngine.generate_correct unit_to_string (λ x, x) toy_digest demo_orders demo_affected
    demo_config (demo_cache false) 5 16 demo_stop 16) as (outs & c' & E & _ & _ & Hnd & Hk & _).
  - simpl. lia.
  - apply demo_stop_reach.
  - apply demo_orders_ok.
  - intros [|[|k]] c' Hc Hw.
    + injection Hc as <-. eexists _, _. split; vm_compute; reflexivity.
    + exfalso. assert (LLMEngine.has_work <$> LLMEngine.iterate (λ x, x) toy_digest demo_orders demo_affected 1 demo_stop
        = Some false) as H by (vm_compute; reflexivity).
      rewrite Hc in H. simpl in H. congruence.
    + exfalso. assert (LLMEngine.iterate (λ x, x) toy_digest demo_orders demo_affected (S (S k)) demo_stop = None) as H
        by (vm_compute; reflexivity).
      congruence.
  - vm_compute. lia.
  - exists outs, c'. split_and!; [exact E | exact Hnd |]. apply Hk. vm_compute. eexists. reflexivity.
Defined.

Example generate_stops :
  match demo_generate 16 demo_stop0 [demo_request 7 [1; 2; 3]%N] with
  | Done (Ok outs, c) =>
      outs = [mkRequestOutput 7%N [mkCompletionOutput 0 "" [5%N] (Some FR_Stop) None] true (mkUsage 3 1 4)]
      ∧ num_active_requests c = 0
  | _ => False
  end.
Proof. vm_compute. by split. Qed.

(** A request that reaches [max_model_len] is finished by the scheduler only: it
    is not returned, and the engine keeps it. *)
Example generate_loses_long_request :
  match scheduler_new demo_config (demo_cache false) 5 3 with
  | Some s =>
      match demo_generate 16 (engine_new (Value := unit) true s 2) [demo_request 7 [1; 2]%N] with
      | Done (Ok outs, c) => outs = [] ∧ num_active_requests c = 1
      | _ => False
      end
  | None => False
  end.
Proof. vm_compute. by split. Qed.

Lemma generate_loop_cycle fuel c d :
  LLMEngine.has_work c = true → LLMEngine.has_work d = true →
  LLMEngine.step (λ x, x) toy_digest demo_orders demo_affected c = Some ([], d) →
  LLMEngine.step (λ x, x) toy_digest demo_orders demo_affected d = Some ([], c) →
  LLMEngine.generate_loop (λ x, x) toy_digest demo_orders demo_affected fuel c [] = OutOfFuel
  ∧ LLMEngine.generate_loop (λ x, x) toy_digest demo_orders demo_affected fuel d [] = OutOfFuel.
Proof.
  intros Wc Wd Ec Ed. induction fuel as [|fuel [IHc IHd]]; simpl; rewrite Wc, Wd; [done |].
  by rewrite Ec, Ed.
Qed.

(** The state [demo_engine] reaches after [n] steps. *)
Definition demo_after (n : nat) (c : EngineCore (Value := unit) (X := bool)) : EngineCore :=
  Nat.iter n (λ c, match LLMEngine.step (λ x, x) toy_digest demo_orders demo_affected c with
                   | Some (_, c) => c
                   | None => c
                   end) c.

(** A prompt with more tokens than the cache has slots makes [generate] run
    forever: after its first step the engine's states repeat. *)
Example generate_spins :
  ∀ fuel, demo_generate fuel (demo_engine0 true) [demo_request 7 [1; 2; 3; 4; 5]%N] = OutOfFuel.
Proof.
  intros fuel. unfold demo_generate, LLMEngine.generate.
  set (r := LLMEngine.add_all _ _ _). vm_compute in r. subst r. cbv beta iota.
  set (c := mkEngineCore _ _ _ _ _).
  destruct (generate_loop_cycle (pred fuel) (demo_after 1 c) (demo_after 2 c)) as [Hc _];
    [vm_compute; reflexivity .. |].
  destruct fuel as [|fuel]; [vm_compute; reflexivity |]. cbn [LLMEngine.generate_loop].
  assert (LLMEngine.has_work c = true) as -> by (vm_compute; reflexivity).
  assert (LLMEngine.step (λ x, x) toy_digest demo_orders demo_affected c = Some ([], demo_after 1 c)) as ->
    by (vm_compute; reflexivity).
  cbn [LLMEngine.finished_outputs filter list_filter app]. simpl pred in Hc. by rewrite Hc.
Qed.
