(* ===== verification/AsyncEngine.v ===== *)
(** * The asynchronous engine (rllm-engine/src/async_engine.rs)

    The background task [engine_loop] as a state machine.  A [turn] goes from one
    point where other tasks can run to the next: receiving one command, or the
    block that applies the drained commands, steps the core and sends the outputs
    under the core's lock.  Clients send commands between turns.

    tokio's unbounded channels are lists; a stream is the list of the outputs sent
    into it, named by a number; the watch channel is its last value. *)
From S2P Require Import Prelude F32 CoreTypes Request FreeQueue BlockPool KVSpec Prefix CacheManager Policy Scheduler Executor EngineCore SyncEngine.

Module AsyncLLMEngine.
Section async.
Context {Value X : Type} `{!Executor Value X}.

#[local] Abbreviation Core := (EngineCore (Value := Value) (X := X)).

Inductive EngineCommand : Type :=
  | AddRequest (request : InferenceRequest Value)
  | AddRequestStream (request : InferenceRequest Value) (sender : N)
  | AbortRequest (request_id : RequestId)
  | Shutdown.

(** Where the task is: at the head of the loop, waiting in [recv], draining the
    channel into [commands], at the locked block, or returned. *)
Inductive Phase : Type :=
  | Top
  | Blocked
  | Draining (commands : list EngineCommand)
  | Locked (commands : list EngineCommand)
  | Stopped.

Record AsyncState : Type := mkAsyncState {
  as_core : Core;
  as_senders : gmap RequestId N;
  as_queue : list EngineCommand;
  as_closed : bool;
  as_streams : gmap N (list RequestOutput);
  as_watch : list RequestOutput;
  as_phase : Phase;
}.

(** [AsyncLLMEngine::new] *)
Definition async_new (core : Core) : AsyncState :=
  mkAsyncState core ∅ [] false ∅ [] Top.

Definition set_phase (p : Phase) (st : AsyncState) : AsyncState :=
  mkAsyncState (as_core st) (as_senders st) (as_queue st) (as_closed st) (as_streams st) (as_watch st) p.
Definition set_queue (q : list EngineCommand) (st : AsyncState) : AsyncState :=
  mkAsyncState (as_core st) (as_senders st) q (as_closed st) (as_streams st) (as_watch st) (as_phase st).
Definition set_core (c : Core) (m : gmap RequestId N) (st : AsyncState) : AsyncState :=
  mkAsyncState c m (as_queue st) (as_closed st) (as_streams st) (as_watch st) (as_phase st).

(** [cmd_tx.send]: fails once the task has returned. *)
Definition send (st : AsyncState) (cmd : EngineCommand) : option AsyncState :=
  match as_phase st with
  | Stopped => None
  | _ => Some (set_queue (as_queue st ++ [cmd]) st)
  end.

Section turn.
Context (value_to_string : Value → string) (sha256 : list byte → list byte) (xxh3_64 : list byte → N).
Context (order_of affected_of : Core → list RequestId).

(** One command; [Shutdown] never gets here ([unreachable!]). *)
Definition handle (c : Core) (senders : gmap RequestId N) (cmd : EngineCommand) :
    option (Core * gmap RequestId N) :=
  match cmd with
  | AddRequest request => Some ((engine_add_request value_to_string c request).2, senders)
  | AddRequestStream request sender =>
      match engine_add_request value_to_string c request with
      | (Err _, c) => Some (c, senders)
      | (Ok _, c) => Some (c, <[request_id request := sender]> senders)
      end
  | AbortRequest id => (λ c, (c, delete id senders)) <$> engine_abort_request c id
  | Shutdown => None
  end.

Fixpoint handle_all (c : Core) (senders : gmap RequestId N) (l : list EngineCommand) :
    option (Core * gmap RequestId N) :=
  match l with
  | [] => Some (c, senders)
  | cmd :: l => '(c, senders) ← handle c senders cmd; handle_all c senders l
  end.

(** [sender.send(output.clone())] for every output with a sender. *)
Definition deliver_one (senders : gmap RequestId N) (streams : gmap N (list RequestOutput)) (o : RequestOutput) :=
  match senders !! ro_request_id o with
  | Some sid => <[sid := default [] (streams !! sid) ++ [o]]> streams
  | None => streams
  end.
Definition deliver (senders : gmap RequestId N) (os : list RequestOutput) (streams : gmap N (list RequestOutput)) :=
  foldl (deliver_one senders) streams os.

(** [senders.remove] for every finished output. *)
Definition drop_finished (os : list RequestOutput) (senders : gmap RequestId N) : gmap RequestId N :=
  foldl (λ m o, if ro_finished o then delete (ro_request_id o) m else m) senders os.

(** The block under the core's lock; returns the outputs of the step. *)
Definition locked_block (st : AsyncState) (commands : list EngineCommand) : option (list RequestOutput * AsyncState) :=
  '(c, senders) ← handle_all (as_core st) (as_senders st) commands;
  if engine_has_work c then
    '(os, c) ← engine_step sha256 xxh3_64 (order_of c) (affected_of c) c;
    let st := set_core c senders (set_phase Top st) in
    if bool_decide (os = []) then Some ([], st)
    else Some (os, mkAsyncState c (drop_finished os senders) (as_queue st) (as_closed st)
                     (deliver senders os (as_streams st)) os Top)
  else Some ([], set_core c senders (set_phase Top st)).

(** Returns the commands handled and the outputs produced.  A task with nothing
    to receive stays where it is; a closed and empty channel ends it. *)
Definition turn (st : AsyncState) : option (list EngineCommand * list RequestOutput * AsyncState) :=
  match as_phase st with
  | Top => Some ([], [], set_phase (if engine_has_work (as_core st) then Draining [] else Blocked) st)
  | Blocked =>
      match as_queue st with
      | [] => Some ([], [], if as_closed st then set_phase Stopped st else st)
      | Shutdown :: q => Some ([], [], set_phase Stopped (set_queue q st))
      | cmd :: q =>
          '(c, senders) ← handle (as_core st) (as_senders st) cmd;
          Some ([cmd], [], set_phase (Draining []) (set_core c senders (set_queue q st)))
      end
  | Draining commands =>
      match as_queue st with
      | [] => Some ([], [], set_phase (Locked commands) st)
      | Shutdown :: q => Some ([], [], set_phase Stopped (set_queue q st))
      | cmd :: q => Some ([], [], set_phase (Draining (commands ++ [cmd])) (set_queue q st))
      end
  | Locked commands =>
      '(os, st) ← locked_block st commands;
      Some (commands, os, st)
  | Stopped => Some ([], [], st)
  end.

(** ** Runs

    [log_sent], [log_handled] and [log_outputs] record what happened. *)
Record Log : Type := mkLog {
  log_sent : list EngineCommand;
  log_handled : list EngineCommand;
  log_outputs : list RequestOutput;
}.

Definition adds (cmd : EngineCommand) : list RequestId :=
  match cmd with
  | AddRequest req | AddRequestStream req _ => [request_id req]
  | _ => []
  end.
Definition opens (cmd : EngineCommand) : list N :=
  match cmd with AddRequestStream _ sid => [sid] | _ => [] end.

(** A sent command has a fresh request id and a fresh stream. *)
Definition fresh_cmd (l : Log) (cmd : EngineCommand) : Prop :=
  (∀ id, id ∈ adds cmd → id ∉ log_sent l ≫= adds) ∧ (∀ sid, sid ∈ opens cmd → sid ∉ log_sent l ≫= opens).

Inductive async_reach (c0 : Core) : AsyncState → Log → Prop :=
  | AR_new : async_reach c0 (async_new c0) (mkLog [] [] [])
  | AR_send st l cmd st' :
      async_reach c0 st l → as_closed st = false → fresh_cmd l cmd → send st cmd = Some st' →
      async_reach c0 st' (mkLog (log_sent l ++ [cmd]) (log_handled l) (log_outputs l))
  | AR_close st l :
      async_reach c0 st l →
      async_reach c0 (mkAsyncState (as_core st) (as_senders st) (as_queue st) true (as_streams st)
                        (as_watch st) (as_phase st)) l
  | AR_turn st l hs os st' :
      async_reach c0 st l → turn st = Some (hs, os, st') →
      async_reach c0 st' (mkLog (log_sent l) (log_handled l ++ hs) (log_outputs l ++ os)).

Definition pending (st : AsyncState) : list EngineCommand :=
  match as_phase st with Draining cmds | Locked cmds => cmds | _ => [] end.

(** ** Streams *)
Definition outputs_for (id : RequestId) (os : list RequestOutput) : list RequestOutput :=
  filter (λ o, ro_request_id o = id) os.

Definition stream (st : AsyncState) (sid : N) : list RequestOutput := default [] (as_streams st !! sid).

Lemma outputs_for_app id l1 l2 : outputs_for id (l1 ++ l2) = outputs_for id l1 ++ outputs_for id l2.
Proof. apply filter_app. Qed.

Lemma outputs_for_nil id os : (∀ o, o ∈ os → ro_request_id o ≠ id) → outputs_for id os = [].
Proof.
  intros Hn. unfold outputs_for. induction os as [|o os IH]; [done |].
  rewrite filter_cons_False by (apply Hn; by left). apply IH. intros o' Ho'. apply Hn. by right.
Qed.

Lemma outputs_for_once id os : NoDup (ro_request_id <$> os) → length (outputs_for id os) ≤ 1.
Proof.
  induction os as [|o os IH]; [simpl; lia |]. rewrite fmap_cons, NoDup_cons. intros [Ho Hnd].
  unfold outputs_for. rewrite filter_cons. case_decide as E; [| by apply IH].
  fold (outputs_for id os). rewrite outputs_for_nil; [done |]. intros o' Ho' E'.
  apply Ho, list_elem_of_fmap. exists o'. by split; [congruence |].
Qed.

Lemma deliver_lookup m os : ∀ streams sid,
  default [] (deliver m os streams !! sid)
  = default [] (streams !! sid) ++ filter (λ o, m !! ro_request_id o = Some sid) os.
Proof.
  induction os as [|o os IH]; intros streams sid; [by rewrite app_nil_r |].
  unfold deliver. simpl. fold (deliver m os (deliver_one m streams o)). rewrite IH, filter_cons.
  unfold deliver_one. destruct (m !! ro_request_id o) as [sid'|]; case_decide as E; simplify_eq; try done.
  - rewrite lookup_insert_eq. simpl. by rewrite <- app_assoc.
  - rewrite lookup_insert_ne; [done | congruence].
Qed.

Lemma drop_finished_lookup os : ∀ m id,
  drop_finished os m !! id = if decide (id ∈ finished_request_ids os) then None else m !! id.
Proof.
  induction os as [|o os IH]; intros m id.
  - rewrite decide_False; [done | by apply not_elem_of_nil].
  - unfold drop_finished. simpl. fold (drop_finished os (if ro_finished o then delete (ro_request_id o) m else m)).
    rewrite IH. unfold finished_request_ids. rewrite filter_cons.
    destruct (decide (ro_finished o = true)) as [E|E]; [rewrite E | by rewrite (not_true_is_false _ E)].
    rewrite fmap_cons. destruct (decide (id = ro_request_id o)) as [->|Hne].
    + rewrite lookup_delete_eq, (decide_True (P := _ ∈ _ :: _)) by (by left). by case_decide.
    + rewrite lookup_delete_ne by done. fold (finished_request_ids os).
      repeat case_decide; set_solver.
Qed.

(** ** The invariant of the streams *)
Abbreviation known := (LLMEngine.known (Value := Value) (X := X)).

Record stream_inv (c : Core) (m : gmap RequestId N) (streams : gmap N (list RequestOutput))
    (handled : list EngineCommand) (outs : list RequestOutput) : Prop := {
  si_core : engine_inv c;
  si_known : ∀ id, known c id → id ∈ handled ≫= adds;
  si_reg : ∀ id sid, m !! id = Some sid →
    known c id ∧ ∃ req, AddRequestStream req sid ∈ handled ∧ request_id req = id;
  si_open : ∀ req sid, AddRequestStream req sid ∈ handled → known c (request_id req) →
    m !! request_id req = Some sid;
  si_streams : ∀ req sid, AddRequestStream req sid ∈ handled →
    default [] (streams !! sid) = outputs_for (request_id req) outs;
  si_unopened : ∀ sid, sid ∉ handled ≫= opens → default [] (streams !! sid) = [];
  si_outs : ∀ o, o ∈ outs → ro_request_id o ∈ handled ≫= adds;
  si_final : ∀ id l1 o l2, outputs_for id outs = l1 ++ o :: l2 → ro_finished o = true → l2 = [] ∧ ¬ known c id;
  si_adds : NoDup (handled ≫= adds);
  si_opens : NoDup (handled ≫= opens);
}.

Lemma elem_of_adds req sid l : AddRequestStream req sid ∈ l → request_id req ∈ l ≫= adds ∧ sid ∈ l ≫= opens.
Proof. intros H. split; apply list_elem_of_bind; exists (AddRequestStream req sid); (split; [by left | done]). Qed.

Lemma bind_snoc {A B} (f : A → list B) l a : (l ++ [a]) ≫= f = (l ≫= f) ++ f a.
Proof. rewrite bind_app, bind_cons. simpl. by rewrite app_nil_r. Qed.

(** Two opened streams with the same number are the same command's. *)
Lemma opens_unique l req req' sid :
  NoDup (l ≫= opens) → AddRequestStream req sid ∈ l → AddRequestStream req' sid ∈ l → req = req'.
Proof.
  intros Hnd [l1 [l2 ->]]%list_elem_of_split H'. rewrite bind_app, bind_cons in Hnd. simpl in Hnd.
  rewrite NoDup_app, NoDup_cons in Hnd. destruct Hnd as (_ & Hd & Hn & _).
  rewrite elem_of_app, elem_of_cons in H'. destruct H' as [H'|[[= ->]|H']]; [exfalso | done | exfalso].
  - apply elem_of_adds in H' as [_ H']. apply (Hd _ H'). by left.
  - by apply elem_of_adds in H' as [_ H'].
Qed.

(** Adding a request: the engine refuses it and knows what it knew, or knows it too. *)
Lemma add_known c req :
  let '(r, c') := engine_add_request value_to_string c req in
  ∀ id, known c' id ↔ known c id ∨ (is_ok r = true ∧ id = request_id req).
Proof.
  assert (Hno : ∀ P Q : Prop, P ↔ P ∨ (false = true ∧ Q)).
  { intros P Q. split; [by left | by intros [?|[? _]]]. }
  unfold engine_add_request, LLMEngine.known. destruct (validate _ _); simpl; [| intros id; apply Hno].
  destruct (executor_add_request _ _ _ _) as [[u|e] x]; simpl; [| intros id; apply Hno].
  intros id. destruct (decide (id = request_id req)) as [->|Hne].
  - rewrite lookup_insert_eq. split; [by right | by eexists].
  - rewrite lookup_insert_ne by done. split; [by left | by intros [?|[_ ?]]].
Qed.

Definition add_cmd (req : InferenceRequest Value) (osid : option N) : EngineCommand :=
  match osid with Some sid => AddRequestStream req sid | None => AddRequest req end.
Definition register (ok : bool) (id : RequestId) (osid : option N) (m : gmap RequestId N) : gmap RequestId N :=
  match osid with Some sid => if ok then <[id := sid]> m else m | None => m end.

Lemma register_other ok id osid m id' : id' ≠ id → register ok id osid m !! id' = m !! id'.
Proof. intros Hne. unfold register. destruct osid, ok; try done. by rewrite lookup_insert_ne. Qed.

Lemma stream_inv_add c m streams handled outs req osid :
  stream_inv c m streams handled outs →
  request_id req ∉ handled ≫= adds → (∀ sid, osid = Some sid → sid ∉ handled ≫= opens) →
  let '(r, c') := engine_add_request value_to_string c req in
  stream_inv c' (register (is_ok r) (request_id req) osid m) streams (handled ++ [add_cmd req osid]) outs.
Proof.
  intros [Sc Sk Sr So Ss Su Sq Sf Sa Sp] Hid Hsid.
  pose proof (add_known c req) as Hkn.
  assert (Hc' : engine_inv (engine_add_request value_to_string c req).2).
  { apply engine_add_inv; [done |]. apply eq_None_not_Some. intros Hk. by apply Hid, Sk. }
  destruct (engine_add_request value_to_string c req) as [r c'] eqn:E. simpl in Hc'.
  assert (Hadds : adds (add_cmd req osid) = [request_id req]) by (by destruct osid).
  assert (Hopens : opens (add_cmd req osid) = option_list osid) by (by destruct osid).
  assert (Hold : ∀ id, id ∈ handled ≫= adds → id ≠ request_id req) by (intros id ? ->; done).
  assert (Hnone : m !! request_id req = None).
  { destruct (m !! request_id req) as [sid|] eqn:Em; [| done]. exfalso. by destruct (Sr _ _ Em) as [Hk%Sk _]. }
  split.
  - done.
  - intros id. rewrite Hkn, bind_snoc, Hadds, elem_of_app, list_elem_of_singleton.
    intros [Hk|[_ ->]]; [left; by apply Sk | by right].
  - intros id sid. destruct (decide (id = request_id req)) as [->|Hne].
    + unfold register. destruct osid as [sid0|]; [destruct (is_ok r) eqn:Er |]; [| congruence | congruence].
      rewrite lookup_insert_eq. intros [= ->]. split; [apply Hkn; by right |].
      exists req. split; [| done]. apply elem_of_app. right. by left.
    + rewrite register_other by done. intros [Hk (req0 & Hin & <-)]%Sr. split; [apply Hkn; by left |].
      exists req0. split; [| done]. apply elem_of_app. by left.
  - intros req0 sid. rewrite elem_of_app, list_elem_of_singleton. intros [Hin|Heq] Hk.
    + pose proof (proj1 (elem_of_adds _ _ _ Hin)) as Hin2. rewrite register_other by (by apply Hold).
      apply So; [done |]. apply Hkn in Hk as [Hk|[_ Hk]]; [done |]. by apply Hold in Hin2.
    + destruct osid as [sid0|]; simplify_eq/=. apply Hkn in Hk as [Hk|[Hok _]]; [by apply Sk in Hk |].
      rewrite Hok. apply lookup_insert_eq.
  - intros req0 sid. rewrite elem_of_app, list_elem_of_singleton. intros [Hin|Heq]; [by apply Ss |].
    destruct osid as [sid0|]; simplify_eq/=. rewrite Su by (by apply Hsid). symmetry. apply outputs_for_nil.
    intros o Ho Heq. apply Sq in Ho. rewrite Heq in Ho. done.
  - intros sid. rewrite bind_snoc, elem_of_app. intros Hn. apply Su. intros H. apply Hn. by left.
  - intros o Ho. rewrite bind_snoc, elem_of_app. left. by apply Sq.
  - intros id l1 o l2 Hl Hfin. destruct (Sf id l1 o l2 Hl Hfin) as [-> Hnk]. split; [done |].
    rewrite Hkn. intros [Hk|[_ ->]]; [done |].
    assert (o ∈ outputs_for (request_id req) outs) as Ho by (rewrite Hl; apply elem_of_app; right; by left).
    apply list_elem_of_filter in Ho as [Hoid Ho]. apply Sq in Ho. by rewrite Hoid in Ho.
  - rewrite bind_snoc, Hadds, NoDup_app. split_and!; [done | | apply NoDup_singleton].
    by intros id Hin%Hold ->%list_elem_of_singleton.
  - rewrite bind_snoc, Hopens, NoDup_app. split_and!; [done | | destruct osid; [apply NoDup_singleton | apply NoDup_nil_2]].
    intros sid Hin Hin2. destruct osid as [sid0|]; [| by apply not_elem_of_nil in Hin2].
    apply list_elem_of_singleton in Hin2 as ->. by apply (Hsid sid0).
Qed.

Lemma stream_inv_abort c m streams handled outs id :
  stream_inv c m streams handled outs →
  ∃ c', engine_abort_request c id = Some c'
    ∧ stream_inv c' (delete id m) streams (handled ++ [AbortRequest id]) outs.
Proof.
  intros [Sc Sk Sr So Ss Su Sq Sf Sa Sp]. destruct (abort_one c id (ei_rep _ Sc)) as (c' & E & Hab).
  exists c'. split; [done |].
  assert (Hkn : ∀ id', known c' id' ↔ id' ≠ id ∧ known c id').
  { intros id'. unfold LLMEngine.known. rewrite (ab_requests _ _ _ Hab). case_decide as H.
    - apply list_elem_of_singleton in H as ->. split; [by intros [? ?] | by intros [? _]].
    - rewrite list_elem_of_singleton in H. split; [done | by intros [_ ?]]. }
  assert (Hin' : ∀ req sid, AddRequestStream req sid ∈ handled ++ [AbortRequest id] → AddRequestStream req sid ∈ handled).
  { intros req sid [Hin|Hin%list_elem_of_singleton]%elem_of_app; done. }
  split; rewrite ?bind_snoc, ?app_nil_r; simpl; rewrite ?app_nil_r; try done.
  - eapply aborted_inv; [exact Hab |]. intros id' r Hr. right. by apply (ei_live _ Sc id').
  - intros id' Hk. apply Hkn in Hk as [_ Hk]. by apply Sk.
  - intros id' sid. destruct (decide (id' = id)) as [->|Hne]; [by rewrite lookup_delete_eq |].
    rewrite lookup_delete_ne by done. intros [Hk (req & Hin & <-)]%Sr. split; [by apply Hkn |].
    exists req. split; [apply elem_of_app; by left | done].
  - intros req sid Hin%Hin' [Hne Hk]%Hkn. rewrite lookup_delete_ne by done. by apply So.
  - intros req sid Hin%Hin'. by apply Ss.
  - intros id' l1 o l2 Hl Hfin. destruct (Sf id' l1 o l2 Hl Hfin) as [-> Hnk]. split; [done |].
    rewrite Hkn. by intros [_ ?].
Qed.

Lemma handle_inv c m streams handled outs cmd :
  stream_inv c m streams handled outs → cmd ≠ Shutdown →
  (∀ id, id ∈ adds cmd → id ∉ handled ≫= adds) → (∀ sid, sid ∈ opens cmd → sid ∉ handled ≫= opens) →
  ∃ c' m', handle c m cmd = Some (c', m') ∧ stream_inv c' m' streams (handled ++ [cmd]) outs.
Proof.
  intros Hinv Hcmd Hadds Hopens. destruct cmd as [req|req sid|id|]; simpl in *; [| | | done].
  - pose proof (stream_inv_add c m streams handled outs req None Hinv) as H.
    destruct (engine_add_request value_to_string c req) as [r c']. eexists _, _. split; [done |].
    apply H; [apply Hadds; by left | done].
  - pose proof (stream_inv_add c m streams handled outs req (Some sid) Hinv) as H.
    destruct (engine_add_request value_to_string c req) as [r c']. simpl in H.
    assert (Hr : stream_inv c' (if is_ok r then <[request_id req := sid]> m else m) streams
                   (handled ++ [AddRequestStream req sid]) outs).
    { apply H; [apply Hadds; by left |]. intros sid' [= <-]. apply Hopens. by left. }
    destruct r; eexists _, _; (split; [done | exact Hr]).
  - destruct (stream_inv_abort c m streams handled outs id Hinv) as (c' & E & Hr). rewrite E. simpl. eauto.
Qed.

Lemma handle_all_inv l : ∀ c m streams handled outs,
  stream_inv c m streams handled outs → Shutdown ∉ l →
  NoDup ((handled ++ l) ≫= adds) → NoDup ((handled ++ l) ≫= opens) →
  ∃ c' m', handle_all c m l = Some (c', m') ∧ stream_inv c' m' streams (handled ++ l) outs.
Proof.
  induction l as [|cmd l IH]; intros c m streams handled outs Hinv Hns Ha Ho.
  - exists c, m. by rewrite app_nil_r.
  - rewrite not_elem_of_cons in Hns. destruct Hns as [Hcmd Hns].
    pose proof Ha as Ha2. pose proof Ho as Ho2. rewrite bind_app, bind_cons, NoDup_app in Ha, Ho.
    destruct (handle_inv c m streams handled outs cmd Hinv) as (c1 & m1 & E & Hinv1); [congruence | | |].
    + intros id Hid Hin. apply (proj1 (proj2 Ha) id Hin). apply elem_of_app. by left.
    + intros sid Hid Hin. apply (proj1 (proj2 Ho) sid Hin). apply elem_of_app. by left.
    + simpl. rewrite E. simpl. rewrite (cons_middle cmd handled l), (app_assoc handled [cmd] l) in *.
      by apply IH.
Qed.

Lemma filter_ext_elem {A} (P Q : A → Prop) `{!∀ x, Decision (P x), !∀ x, Decision (Q x)} (l : list A) :
  (∀ x, x ∈ l → (P x ↔ Q x)) → filter P l = filter Q l.
Proof.
  induction l as [|x l IH]; intros Hpq; [done |]. rewrite !filter_cons, IH by (intros; apply Hpq; by right).
  pose proof (Hpq x ltac:(by left)) as [H1 H2]. repeat case_decide; try done; exfalso; auto.
Qed.

Lemma stream_inv_step c m streams handled outs os c' :
  stream_inv c m streams handled outs → engine_inv c' → LLMEngine.step_accounts c os c' →
  stream_inv c' (drop_finished os m) (deliver m os streams) handled (outs ++ os).
Proof.
  intros [Sc Sk Sr So Ss Su Sq Sf Sa Sp] Hc' [Nd Ko Kn Kg].
  assert (Hos : ∀ o, o ∈ os → known c (ro_request_id o)).
  { intros o Ho. apply Ko, list_elem_of_fmap. by exists o. }
  assert (Hback : ∀ id, known c' id → known c id) by (intros id Hk; apply Kn; by right).
  split; try done.
  - intros id Hk. by apply Sk, Hback.
  - intros id sid. rewrite drop_finished_lookup. case_decide as Hfin; [done |]. intros [Hk Hreq]%Sr.
    split; [| done]. by apply Kn in Hk as [?|?].
  - intros req sid Hin Hk. rewrite drop_finished_lookup, decide_False by (intros Hf; by apply (Kg _ Hf)).
    by apply So; [| apply Hback].
  - intros req sid Hin. rewrite deliver_lookup, outputs_for_app, (Ss req sid Hin). f_equal.
    apply filter_ext_elem. intros o Ho. split.
    + intros (Hk & req0 & Hin0 & <-)%Sr. by rewrite (opens_unique handled req req0 sid).
    + intros Heq. rewrite Heq. apply So; [done |]. rewrite <- Heq. by apply Hos.
  - intros sid Hsid. rewrite deliver_lookup, (Su sid Hsid). simpl.
    destruct (filter _ os) as [|o l] eqn:E; [done |]. exfalso.
    assert (o ∈ filter (λ o, m !! ro_request_id o = Some sid) os) as Ho by (rewrite E; by left).
    apply list_elem_of_filter in Ho as [(_ & req & Hin & _)%Sr _]. apply Hsid. by apply (elem_of_adds req).
  - intros o [Ho|Ho]%elem_of_app; [by apply Sq | by apply Sk, Hos].
  - intros id l1 o l2. rewrite outputs_for_app. pose proof (outputs_for_once id os Nd) as Hlen.
    destruct (outputs_for id os) as [|b [|b2 l]] eqn:E; [| | simpl in Hlen; lia].
    + rewrite app_nil_r. intros Hl Hfin. destruct (Sf id l1 o l2 Hl Hfin) as [-> Hn]. split; [done |]. by intros ?%Hback.
    + assert (b ∈ outputs_for id os) as Hb by (rewrite E; by left).
      apply list_elem_of_filter in Hb as [Hbid Hb]. pose proof (Hos b Hb) as Hkb. rewrite Hbid in Hkb.
      intros Hl Hfin. destruct (app_split_eq _ [] _ l2 _ _ Hl) as [(_ & <- & <-) | [(k & _ & Hnil) | (k & Hk & _)]].
      * split; [done |]. apply Kg, finished_request_ids_elem. by exists b.
      * by destruct k.
      * exfalso. by destruct (Sf id l1 o k Hk Hfin) as [_ Hn].
Qed.

(** ** The invariant of the task *)
Definition no_shutdown (l : list EngineCommand) : Prop := Shutdown ∉ l.

(** [lost] is what the task had taken from the channel when it returned. *)
Record async_inv (st : AsyncState) (l : Log) : Prop := {
  as_stream : stream_inv (as_core st) (as_senders st) (as_streams st) (log_handled l) (log_outputs l);
  as_fifo : ∃ lost, log_sent l = log_handled l ++ lost ++ as_queue st
    ∧ (as_phase st ≠ Stopped → lost = pending st ∧ no_shutdown lost);
  as_fresh : NoDup (log_sent l ≫= adds) ∧ NoDup (log_sent l ≫= opens);
}.

(** The step of the core under the lock panics. *)
Definition core_panics (st : AsyncState) : Prop :=
  ∃ cmds c m, as_phase st = Locked cmds ∧ handle_all (as_core st) (as_senders st) cmds = Some (c, m)
    ∧ engine_has_work c = true ∧ engine_step sha256 xxh3_64 (order_of c) (affected_of c) c = None.

Lemma locked_inv `{!LawfulExecutor Value X} st l cmds :
  LLMEngine.orders_ok sha256 xxh3_64 order_of affected_of →
  async_inv st l → as_phase st = Locked cmds →
  (∃ os st', turn st = Some (cmds, os, st')
     ∧ async_inv st' (mkLog (log_sent l) (log_handled l ++ cmds) (log_outputs l ++ os)))
  ∨ (turn st = None ∧ core_panics st).
Proof using Type.
  intros Hord [Hs (lost & Hsent & Hlost) Hfresh] Hp. pose proof Hfresh as [Ha Ho].
  destruct Hlost as [-> Hns]; [by rewrite Hp |]. unfold pending in *. rewrite Hp in *.
  rewrite Hsent, (app_assoc _ cmds), bind_app in Ha. rewrite Hsent, (app_assoc _ cmds), bind_app in Ho.
  apply NoDup_app in Ha as [Ha _]. apply NoDup_app in Ho as [Ho _].
  destruct (handle_all_inv cmds _ _ _ _ _ Hs Hns Ha Ho) as (c1 & m1 & E & Hs1).
  assert (Hgo : ∀ os c' m' streams' watch, stream_inv c' m' streams' (log_handled l ++ cmds) (log_outputs l ++ os) →
    async_inv (mkAsyncState c' m' (as_queue st) (as_closed st) streams' watch Top)
      (mkLog (log_sent l) (log_handled l ++ cmds) (log_outputs l ++ os))).
  { intros os c' m' streams' watch H. split; simpl; [done | | done].
    exists []. split; [by rewrite Hsent, <- app_assoc | by split; [| apply not_elem_of_nil]]. }
  unfold turn, locked_block. rewrite Hp, E. simpl.
  destruct (engine_has_work c1) eqn:Hw.
  - destruct (engine_step _ _ _ _ c1) as [[os c2]|] eqn:Es; simpl; [left | right; split; [done |]; by exists cmds, c1, m1].
    pose proof (Hord c1) as [Hoo [Hnd _]].
    pose proof (engine_step_inv sha256 xxh3_64 c1 _ _ os c2 (si_core _ _ _ _ _ Hs1) Hoo Hnd Es) as [Hc2 _].
    pose proof (LLMEngine.step_accounts_ok sha256 xxh3_64 order_of affected_of c1 os c2 (si_core _ _ _ _ _ Hs1) Hord Es) as Hacc.
    pose proof (stream_inv_step c1 m1 (as_streams st) (log_handled l ++ cmds) (log_outputs l) os c2 Hs1 Hc2 Hacc) as Hs2.
    case_bool_decide as Hos; simpl; [subst os |]; eexists _, _; (split; [done |]); apply Hgo; exact Hs2.
  - left. eexists [], _. split; [done |]. apply Hgo. by rewrite app_nil_r.
Qed.

(** A turn keeps the invariant; it panics only when a step of the core does. *)
Lemma turn_inv `{!LawfulExecutor Value X} st l :
  LLMEngine.orders_ok sha256 xxh3_64 order_of affected_of → async_inv st l →
  (∃ hs os st', turn st = Some (hs, os, st')
     ∧ async_inv st' (mkLog (log_sent l) (log_handled l ++ hs) (log_outputs l ++ os)))
  ∨ (turn st = None ∧ core_panics st).
Proof using Type.
  intros Hord Hinv. pose proof Hinv as [Hs (lost & Hsent & Hlost) Hfresh].
  destruct (as_phase st) as [| |cmds|cmds|] eqn:Hp.
  - left. eexists [], [], _. unfold turn. rewrite Hp. split; [done |]. rewrite !app_nil_r.
    destruct Hlost as [-> Hns]; [done |]. unfold pending in *. rewrite Hp in *.
    split; [done | | done]. exists []. split; [done |]. by destruct (engine_has_work (as_core st)).
  - destruct Hlost as [-> Hns]; [done |]. unfold pending in *. rewrite Hp in *. simpl in Hsent.
    unfold turn. rewrite Hp. destruct (as_queue st) as [|cmd q] eqn:Hq.
    + left. eexists [], [], _. split; [done |]. rewrite !app_nil_r. destruct (as_closed st).
      * split; [done | | done]. exists []. simpl. by rewrite Hq.
      * split; [done | | done]. exists []. unfold pending. by rewrite Hp, Hq.
    + assert (Hcmd : cmd = Shutdown ∨ cmd ≠ Shutdown) by (destruct cmd; auto).
      destruct Hcmd as [->|Hcmd].
      * left. eexists [], [], _. split; [done |]. rewrite !app_nil_r. split; [done | | done].
        exists [Shutdown]. by split.
      * pose proof Hfresh as [Ha Ho]. rewrite Hsent, bind_app, bind_cons, NoDup_app in Ha, Ho.
        destruct (handle_inv (as_core st) (as_senders st) (as_streams st) (log_handled l) (log_outputs l) cmd Hs Hcmd)
          as (c' & m' & E & Hs').
        { intros id Hid Hin. apply (proj1 (proj2 Ha) id Hin). apply elem_of_app. by left. }
        { intros sid Hid Hin. apply (proj1 (proj2 Ho) sid Hin). apply elem_of_app. by left. }
        left. exists [cmd], [], (set_phase (Draining []) (set_core c' m' (set_queue q st))).
        split; [destruct cmd; try done; by rewrite E |]. rewrite app_nil_r. split; simpl; [done | | done].
        exists []. split; [by rewrite Hsent, <- app_assoc | by split; [| apply not_elem_of_nil]].
  - destruct Hlost as [-> Hns]; [done |]. unfold pending in *. rewrite Hp in *.
    unfold turn. rewrite Hp. left. destruct (as_queue st) as [|cmd q] eqn:Hq.
    + eexists [], [], _. split; [done |]. rewrite !app_nil_r. split; [done | | done].
      exists cmds. simpl. by rewrite Hq.
    + assert (Hcmd : cmd = Shutdown ∨ cmd ≠ Shutdown) by (destruct cmd; auto).
      destruct Hcmd as [->|Hcmd].
      * eexists [], [], _. split; [done |]. rewrite !app_nil_r. split; [done | | done].
        exists (cmds ++ [Shutdown]). simpl. split; [by rewrite Hsent, <- app_assoc | done].
      * exists [], [], (set_phase (Draining (cmds ++ [cmd])) (set_queue q st)).
        split; [by destruct cmd |]. rewrite !app_nil_r. split; [done | | done].
        exists (cmds ++ [cmd]). simpl. split; [by rewrite Hsent, <- app_assoc |]. intros _. split; [done |].
        unfold no_shutdown. rewrite elem_of_app, list_elem_of_singleton. intros [?|?]; [by apply Hns | congruence].
  - destruct (locked_inv st l cmds Hord Hinv Hp) as [(os & st' & E & H)|H]; [left | right; done].
    exists cmds, os, st'. by split.
  - left. eexists [], [], _. unfold turn. rewrite Hp. split; [done |]. by rewrite !app_nil_r; destruct l.
Qed.

Lemma async_reach_inv `{!LawfulExecutor Value X} c0 st l :
  LLMEngine.orders_ok sha256 xxh3_64 order_of affected_of → engine_inv c0 → ec_requests c0 = ∅ →
  async_reach c0 st l → async_inv st l.
Proof using Type.
  intros Hord Hc0 Hemp. induction 1 as [|st l cmd st' _ IH Hopen [Hf1 Hf2] Hsend|st l _ IH|st l hs os st' _ IH Ht].
  - split; simpl; [| by exists []; split; [| split; [| apply not_elem_of_nil]] | split; apply NoDup_nil_2].
    split; simpl.
    + done.
    + intros id. unfold LLMEngine.known. rewrite Hemp, lookup_empty. by intros [? ?].
    + intros id sid. by rewrite lookup_empty.
    + by intros req sid ?%not_elem_of_nil.
    + by intros req sid ?%not_elem_of_nil.
    + intros sid _. by rewrite lookup_empty.
    + by intros o ?%not_elem_of_nil.
    + intros id l1 o l2 Hl. by destruct l1.
    + apply NoDup_nil_2.
    + apply NoDup_nil_2.
  - assert (st' = set_queue (as_queue st ++ [cmd]) st) as -> by (unfold send in Hsend; destruct (as_phase st); by simplify_eq).
    destruct IH as [Hs (lost & Hsent & Hlost) [Ha Ho]]. split; simpl; [done | |].
    + exists lost. split; [by rewrite Hsent, <- !app_assoc | done].
    + rewrite !bind_snoc, !NoDup_app. split_and!; try done.
      * intros id Hin Hid. by apply (Hf1 id).
      * destruct cmd; simpl; first [apply NoDup_singleton | apply NoDup_nil_2].
      * intros sid Hin Hid. by apply (Hf2 sid).
      * destruct cmd; simpl; first [apply NoDup_singleton | apply NoDup_nil_2].
  - destruct IH as [Hs Hfifo Hfresh]. by split.
  - destruct (turn_inv st l Hord IH) as [(hs' & os' & st'' & E & H)|[E _]]; by simplify_eq.
Qed.

(** Commands are handled in the order they were sent, each once: at any time
    the sent commands are the handled ones, those taken from the channel, and
    those still in it; what was taken is not lost while the task runs.  No turn
    panics unless a step of the core does. *)
Theorem async_commands_fifo `{!LawfulExecutor Value X} config cc nblocks maxlen c0 st l
    (Hbs : 0 < cc_block_size cc)
    (Hc0 : engine_reach value_to_string sha256 xxh3_64 config cc nblocks maxlen c0) (Hemp : ec_requests c0 = ∅)
    (Hord : LLMEngine.orders_ok sha256 xxh3_64 order_of affected_of)
    (Hreach : async_reach c0 st l) :
  (∃ lost, log_sent l = log_handled l ++ lost ++ as_queue st ∧ (as_phase st ≠ Stopped → lost = pending st))
  ∧ Shutdown ∉ log_handled l
  ∧ (turn st = None → core_panics st).
Proof using Type.
  pose proof (engine_reach_inv _ _ _ _ _ _ _ _ Hbs Hc0) as Hinv0.
  pose proof (async_reach_inv c0 st l Hord Hinv0 Hemp Hreach) as Hinv. split_and!.
  - destruct Hinv as [_ (lost & Hsent & Hlost) _]. exists lost. split; [done |]. intros Hp. by destruct (Hlost Hp).
  - clear Hinv. induction Hreach as [|st l cmd st' H IH Ho Hf Hs|st l H IH|st l hs os st' H IH Ht];
      [apply not_elem_of_nil | done | done |].
    simpl. rewrite elem_of_app. intros [?|Hin]; [done |].
    pose proof (async_reach_inv c0 st l Hord Hinv0 Hemp H) as [_ (lost & _ & Hlost) _].
    unfold turn in Ht. destruct (as_phase st) as [| |cmds|cmds|] eqn:Hp; simplify_eq/=; try by apply not_elem_of_nil in Hin.
    + destruct (as_queue st) as [|cmd q]; [by simplify_eq/=; apply not_elem_of_nil in Hin |].
      assert (Hcmd : cmd = Shutdown ∨ cmd ≠ Shutdown) by (destruct cmd; auto). destruct Hcmd as [->|Hcmd].
      { simplify_eq/=. by apply not_elem_of_nil in Hin. }
      assert (hs = [cmd]) as ->; [| apply list_elem_of_singleton in Hin; congruence].
      destruct cmd; try done;
        (destruct (handle (as_core st) (as_senders st) _) as [[c' m']|] eqn:Eh; [| done]; by injection Ht).
    + destruct (as_queue st) as [|[] q]; simplify_eq/=; by apply not_elem_of_nil in Hin.
    + destruct (locked_block st cmds) as [[os' st'']|]; simplify_eq/=. destruct Hlost as [-> Hns]; [done |].
      unfold pending in Hns. rewrite Hp in Hns. done.
  - intros Ht. by destruct (turn_inv st l Hord Hinv) as [(hs & os & st' & E & _)|[_ H]]; [congruence |].
Qed.

(** C18. A stream gets every output the engine produced for its request, in order
    and nothing else; an output that ends the request is the last one, and the
    task has dropped the sender, so the stream closes. *)
Theorem async_streams_lossless `{!LawfulExecutor Value X} config cc nblocks maxlen c0 st l req sid
    (Hbs : 0 < cc_block_size cc)
    (Hc0 : engine_reach value_to_string sha256 xxh3_64 config cc nblocks maxlen c0) (Hemp : ec_requests c0 = ∅)
    (Hord : LLMEngine.orders_ok sha256 xxh3_64 order_of affected_of)
    (Hreach : async_reach c0 st l)
    (Hreq : AddRequestStream req sid ∈ log_handled l) :
  stream st sid = outputs_for (request_id req) (log_outputs l)
  ∧ (∀ l1 o l2, stream st sid = l1 ++ o :: l2 → ro_finished o = true →
       l2 = [] ∧ as_senders st !! request_id req = None)
  ∧ (as_senders st !! request_id req = Some sid ↔ is_Some (ec_requests (as_core st) !! request_id req)).
Proof using Type.
  pose proof (engine_reach_inv _ _ _ _ _ _ _ _ Hbs Hc0) as Hinv0.
  pose proof (async_reach_inv c0 st l Hord Hinv0 Hemp Hreach) as [[Sc Sk Sr So Ss Su Sq Sf Sa Sp] _ _].
  unfold stream. rewrite (Ss req sid Hreq). split_and!; [done | |].
  - intros l1 o l2 Hl Hfin. destruct (Sf _ _ _ _ Hl Hfin) as [-> Hn]. split; [done |].
    destruct (as_senders st !! request_id req) eqn:E; [| done]. exfalso. by apply Sr in E as [? _].
  - split; [by intros [? _]%Sr | by apply So].
Qed.

(** ** Every command is handled *)

(** [n] turns without a client in between. *)
Fixpoint turns (n : nat) (st : AsyncState) : option (list EngineCommand * list RequestOutput * AsyncState) :=
  match n with
  | 0 => Some ([], [], st)
  | S n =>
      '(hs, os, st) ← turn st;
      '(hs', os', st) ← turns n st;
      Some (hs ++ hs', os ++ os', st)
  end.

Lemma turns_S n st hs os st1 hs' os' st2 :
  turn st = Some (hs, os, st1) → turns n st1 = Some (hs', os', st2) →
  turns (S n) st = Some (hs ++ hs', os ++ os', st2).
Proof. intros E1 E2. cbn [turns]. rewrite E1. simpl. by rewrite E2. Qed.

Lemma turn_locked st cmds hs os st' :
  as_phase st = Locked cmds → turn st = Some (hs, os, st') → as_phase st' = Top ∧ as_queue st' = as_queue st.
Proof.
  intros Hp. unfold turn, locked_block. rewrite Hp.
  destruct (handle_all _ _ _) as [[c m]|]; simpl; [| done].
  destruct (engine_has_work c); simpl; [| by intros [= _ _ <-]].
  destruct (engine_step _ _ _ _ c) as [[os' c']|]; simpl; [| done].
  case_bool_decide; simpl; by intros [= _ _ <-].
Qed.

(** One of the next [k] turns panics, in a step of the core. *)
Definition panics_within (k : nat) (st : AsyncState) : Prop :=
  ∃ n hs os st', n < k ∧ turns n st = Some (hs, os, st') ∧ core_panics st'.

Lemma panics_now k st : core_panics st → panics_within (S k) st.
Proof. intros H. exists 0, [], [], st. split_and!; [lia | done | done]. Qed.

Lemma panics_later k st hs os st1 : turn st = Some (hs, os, st1) → panics_within k st1 → panics_within (S k) st.
Proof.
  intros E (n & hs' & os' & st' & Hn & E' & Hp). exists (S n), (hs ++ hs'), (os ++ os'), st'.
  split_and!; [lia | by eapply turns_S | done].
Qed.

Lemma panics_le k k' st : k ≤ k' → panics_within k st → panics_within k' st.
Proof. intros Hk (n & hs & os & st' & Hn & H). exists n, hs, os, st'. split; [lia | done]. Qed.

(** Draining and then the locked block, from any amount already taken. *)
Lemma drain_turns `{!LawfulExecutor Value X} q : ∀ st l cmds,
  LLMEngine.orders_ok sha256 xxh3_64 order_of affected_of →
  async_inv st l → as_phase st = Draining cmds → as_queue st = q → no_shutdown q →
  panics_within (length q + 2) st
  ∨ ∃ os st', turns (length q + 2) st = Some (cmds ++ q, os, st') ∧ as_phase st' = Top ∧ as_queue st' = [].
Proof using Type.
  induction q as [|cmd q IH]; intros st l cmds Hord Hinv Hp Hq Hns.
  - assert (E1 : turn st = Some ([], [], set_phase (Locked cmds) st)) by (unfold turn; by rewrite Hp, Hq).
    destruct (turn_inv st l Hord Hinv) as [(hs & os & st1 & E & Hinv1)|[E _]]; [| congruence]. simplify_eq.
    destruct (locked_inv _ _ cmds Hord Hinv1 eq_refl) as [(os & st' & E & _)|[_ Hpan]];
      [right | left; by eapply panics_later, panics_now].
    exists os, st'. split_and!.
    + cbn [turns length Nat.add]. rewrite E1. cbn [mbind option_bind]. rewrite E. simpl. by rewrite !app_nil_r.
    + by apply (turn_locked _ cmds) in E as [? _].
    + apply (turn_locked _ cmds) in E as [_ ->]; [done | done].
  - assert (cmd ≠ Shutdown) as Hcmd by (intros ->; apply Hns; by left).
    assert (E1 : turn st = Some ([], [], set_phase (Draining (cmds ++ [cmd])) (set_queue q st)))
      by (unfold turn; rewrite Hp, Hq; by destruct cmd).
    destruct (turn_inv st l Hord Hinv) as [(hs & os & st1 & E & Hinv1)|[E _]]; [| congruence]. simplify_eq.
    destruct (IH _ _ (cmds ++ [cmd]) Hord Hinv1) as [Hpan|(os & st' & E2 & Hp' & Hq')]; [done | done | | |].
    { intros Hin. apply Hns. by right. }
    { left. by eapply (panics_later (length q + 2)). }
    right.
    exists os, st'. split_and!; [| done | done]. rewrite cons_middle, app_assoc.
    exact (turns_S (length q + 2) st [] [] _ _ _ _ E1 E2).
Qed.

(** [st] handles everything it has taken and everything in the channel within [k] turns. *)
Definition handles_within (k : nat) (st : AsyncState) : Prop :=
  ∃ n os st', n ≤ k ∧ turns n st = Some (pending st ++ as_queue st, os, st') ∧ as_queue st' = [].

Lemma handles_now st k : pending st = [] → as_queue st = [] → handles_within k st.
Proof. intros Hp Hq. exists 0, [], st. rewrite Hp, Hq. split_and!; [lia | done | done]. Qed.

Section handles.
Context `{!LawfulExecutor Value X} (Hord : LLMEngine.orders_ok sha256 xxh3_64 order_of affected_of).

Lemma draining_handles st l cmds :
  async_inv st l → as_phase st = Draining cmds → no_shutdown (as_queue st) →
  panics_within (length (as_queue st) + 2) st ∨ handles_within (length (as_queue st) + 2) st.
Proof using Type*.
  intros Hinv Hp Hns. destruct (drain_turns (as_queue st) st l cmds Hord Hinv Hp eq_refl Hns)
    as [Hpan|(os & st' & E & _ & Hq)]; [by left | right]. exists (length (as_queue st) + 2), os, st'. unfold pending. rewrite Hp. by split_and!.
Qed.

Lemma blocked_handles st l :
  async_inv st l → as_phase st = Blocked → no_shutdown (as_queue st) →
  panics_within (length (as_queue st) + 2) st ∨ handles_within (length (as_queue st) + 2) st.
Proof using Type*.
  intros Hinv Hp Hns. destruct (as_queue st) as [|cmd q] eqn:Hq.
  { right. apply handles_now; [| done]. unfold pending. by rewrite Hp. }
  assert (cmd ≠ Shutdown) as Hcmd by (intros ->; apply Hns; by left).
  destruct (turn_inv st l Hord Hinv) as [(hs & os & st1 & E & Hinv1)|[_ Hpan]];
    [| left; replace (length (cmd :: q) + 2) with (S (length q + 2)) by (simpl; lia); by apply panics_now].
  assert (hs = [cmd] ∧ as_phase st1 = Draining [] ∧ as_queue st1 = q) as (-> & Hp1 & Hq1).
  { unfold turn in E. rewrite Hp, Hq in E. destruct cmd; try done;
      (destruct (handle (as_core st) (as_senders st) _) as [[c' m']|]; [| done]); simpl in E; injection E as <- _ <-; done. }
  destruct (draining_handles st1 _ [] Hinv1 Hp1) as [Hpan|(n & os' & st2 & Hn & E2 & Hq2)].
  { rewrite Hq1. intros Hin. apply Hns. by right. }
  { left. rewrite Hq1 in Hpan. by apply (panics_later _ _ _ _ _ E). }
  right.
  unfold pending in E2. rewrite Hp1, Hq1 in E2. rewrite Hq1 in Hn.
  exists (S n), (os ++ os'), st2. split_and!; [simpl; lia | | done].
  unfold pending. rewrite Hp, Hq. exact (turns_S n st [cmd] os st1 q os' st2 E E2).
Qed.

Lemma top_handles st l :
  async_inv st l → as_phase st = Top → no_shutdown (as_queue st) →
  panics_within (length (as_queue st) + 3) st ∨ handles_within (length (as_queue st) + 3) st.
Proof using Type*.
  intros Hinv Hp Hns.
  assert (E : turn st = Some ([], [], set_phase (if engine_has_work (as_core st) then Draining [] else Blocked) st))
    by (unfold turn; by rewrite Hp).
  destruct (turn_inv st l Hord Hinv) as [(hs & os & st1 & E1 & Hinv1)|[E1 _]]; [| congruence]. rewrite E in E1. simplify_eq.
  set (st1 := set_phase (if engine_has_work (as_core st) then Draining [] else Blocked) st) in *.
  assert (panics_within (length (as_queue st) + 2) st1 ∨ handles_within (length (as_queue st) + 2) st1)
    as [Hpan|(n & os' & st2 & Hn & E2 & Hq2)].
  { unfold st1 in *. destruct (engine_has_work (as_core st)).
    - exact (draining_handles (set_phase (Draining []) st) _ [] Hinv1 eq_refl Hns).
    - exact (blocked_handles (set_phase Blocked st) _ Hinv1 eq_refl Hns). }
  { left. rewrite Nat.add_succ_r. by apply (panics_later _ _ _ _ _ E). }
  right. exists (S n), os', st2. split_and!; [lia | | done]. unfold pending. rewrite Hp.
  refine (turns_S n st [] [] _ (as_queue st) os' st2 E _).
  unfold pending in E2. simpl in E2. by destruct (engine_has_work (as_core st)).
Qed.
End handles.

(** Liveness of the command channel: while no client sends, a task that has
    not returned handles every command it took and every command in the channel,
    in order, within four turns more than the channel is long, unless a Shutdown
    is among them or the step of the core in one of these turns panics. *)
Theorem async_handles_all `{!LawfulExecutor Value X} config cc nblocks maxlen c0 st l
    (Hbs : 0 < cc_block_size cc)
    (Hc0 : engine_reach value_to_string sha256 xxh3_64 config cc nblocks maxlen c0) (Hemp : ec_requests c0 = ∅)
    (Hord : LLMEngine.orders_ok sha256 xxh3_64 order_of affected_of)
    (Hreach : async_reach c0 st l) (Hrun : as_phase st ≠ Stopped) (Hns : Shutdown ∉ as_queue st) :
  panics_within (length (as_queue st) + 4) st
  ∨ ∃ n os st', n ≤ length (as_queue st) + 4
    ∧ turns n st = Some (pending st ++ as_queue st, os, st') ∧ as_queue st' = [].
Proof using Type.
  pose proof (engine_reach_inv _ _ _ _ _ _ _ _ Hbs Hc0) as Hinv0.
  pose proof (async_reach_inv c0 st l Hord Hinv0 Hemp Hreach) as Hinv.
  assert (Hmono : ∀ k st, k ≤ length (as_queue st) + 4 → panics_within k st ∨ handles_within k st →
    panics_within (length (as_queue st) + 4) st ∨ handles_within (length (as_queue st) + 4) st).
  { intros k st0 Hk [Hpan|(n & os & st' & Hn & E)]; [left; by eapply panics_le | right]. exists n, os, st'. split; [lia | done]. }
  destruct (as_phase st) as [| |cmds|cmds|] eqn:Hp; [| | | | done].
  - eapply Hmono; [| by eapply top_handles]. lia.
  - eapply Hmono; [| by eapply blocked_handles]. lia.
  - eapply Hmono; [| by eapply draining_handles]. lia.
  - destruct (locked_inv st l cmds Hord Hinv Hp) as [(os & st1 & E & Hinv1)|[_ Hpan]];
      [| left; rewrite Nat.add_succ_r; by apply panics_now].
    destruct (turn_locked st cmds cmds os st1 Hp E) as [Hp1 Hq1].
    destruct (top_handles Hord st1 _ Hinv1 Hp1) as [Hpan|(n & os' & st2 & Hn & E2 & Hq2)]; [by rewrite Hq1 | |].
    { left. rewrite Nat.add_succ_r. apply (panics_later _ _ _ _ _ E). by rewrite Hq1 in Hpan. }
    right.
    unfold pending in E2. rewrite Hp1, Hq1 in E2. rewrite Hq1 in Hn.
    exists (S n), (os ++ os'), st2. split_and!; [lia | | done].
    unfold pending. rewrite Hp. exact (turns_S n st cmds os st1 (as_queue st) os' st2 E E2).
Qed.
End turn.
End async.
End AsyncLLMEngine.

(** ** Concrete runs *)
Import AsyncLLMEngine.

Definition demo_turns (n : nat) (st : AsyncState (Value := unit) (X := bool)) :=
  turns unit_to_string (λ x, x) toy_digest demo_orders demo_affected n st.
Definition demo_reach := async_reach (Value := unit) (X := bool) unit_to_string (λ x, x) toy_digest demo_orders demo_affected.
Definition demo_cmd : EngineCommand := AddRequestStream (demo_request 7 [1; 2; 3]%N) 0.

(** The command sent to an idle task, and the task four turns later: the stop
    token of the executor has ended the request. *)
Definition demo_sent : AsyncState := set_queue [demo_cmd] (async_new demo_stop0).
Definition demo_done : AsyncState :=
  match demo_turns 4 demo_sent with Some (_, _, st) => st | None => demo_sent end.

Lemma demo_stop0_reach :
  engine_reach unit_to_string (λ x, x) toy_digest demo_config (demo_cache false) 5 16 demo_stop0.
Proof. apply engine_reach_new. vm_compute. reflexivity. Qed.

Lemma demo_sent_reach : demo_reach demo_stop0 demo_sent (mkLog [demo_cmd] [] []).
Proof.
  apply (AR_send _ _ _ _ _ demo_stop0 (async_new demo_stop0) (mkLog [] [] []) demo_cmd demo_sent);
    [constructor | reflexivity | | reflexivity].
  split; intros ? _; apply not_elem_of_nil.
Qed.

Lemma demo_turn_reach c0 st l n hs os st' :
  demo_reach c0 st l → demo_turns n st = Some (hs, os, st') →
  demo_reach c0 st' (mkLog (log_sent l) (log_handled l ++ hs) (log_outputs l ++ os)).
Proof.
  revert st l hs os. induction n as [|n IH]; intros st l hs os Hr E.
  - injection E as <- <- <-. rewrite !app_nil_r. by destruct l.
  - unfold demo_turns in E. cbn [turns] in E.
    destruct (turn _ _ _ _ _ st) as [[[hs1 os1] st1]|] eqn:E1; simpl in E; [| done].
    destruct (turns _ _ _ _ _ n st1) as [[[hs2 os2] st2]|] eqn:E2; simpl in E; [| done].
    injection E as <- <- <-. pose proof (AR_turn _ _ _ _ _ c0 st l hs1 os1 st1 Hr E1) as H1.
    specialize (IH st1 _ hs2 os2 H1 E2). simpl in IH. by rewrite <- !app_assoc in IH.
Qed.

Definition demo_output : RequestOutput :=
  mkRequestOutput 7%N [mkCompletionOutput 0 "" [5%N] (Some FR_Stop) None] true (mkUsage 3 1 4).

Lemma demo_done_reach : demo_reach demo_stop0 demo_done (mkLog [demo_cmd] [demo_cmd] [demo_output]).
Proof.
  apply (demo_turn_reach demo_stop0 demo_sent (mkLog [demo_cmd] [] []) 4 [demo_cmd] [demo_output]);
    [apply demo_sent_reach | vm_compute; reflexivity].
Qed.

Lemma async_commands_fifo_witness :
  (∃ lost, [demo_cmd] = [demo_cmd] ++ lost ++ as_queue demo_done
     ∧ (as_phase demo_done ≠ Stopped → lost = pending demo_done))
  ∧ Shutdown ∉ [demo_cmd].
Proof.
  destruct (async_commands_fifo unit_to_string (λ x, x) toy_digest demo_orders demo_affected
    demo_config (demo_cache false) 5 16 demo_stop0 demo_done (mkLog [demo_cmd] [demo_cmd] [demo_output]))
    as (H1 & H2 & _);
    [simpl; lia | apply demo_stop0_reach | reflexivity | apply demo_orders_ok | apply demo_done_reach |].
  split; [exact H1 | exact H2].
Defined.

Lemma async_streams_lossless_witness :
  stream demo_done 0 = [demo_output] ∧ as_senders demo_done !! 7%N = None.
Proof.
  destruct (async_streams_lossless unit_to_string (λ x, x) toy_digest demo_orders demo_affected
    demo_config (demo_cache false) 5 16 demo_stop0 demo_done (mkLog [demo_cmd] [demo_cmd] [demo_output])
    (demo_request 7 [1; 2; 3]%N) 0)
    as (H1 & H2 & _);
    [simpl; lia | apply demo_stop0_reach | reflexivity | apply demo_orders_ok | apply demo_done_reach | by left |].
  split; [exact H1 |]. apply (H2 [] demo_output []); [exact H1 | reflexivity].
Defined.

Lemma async_handles_all_witness :
  ∃ n os st', n ≤ 5 ∧ demo_turns n demo_sent = Some ([demo_cmd], os, st') ∧ as_queue st' = [].
Proof.
  destruct (async_handles_all unit_to_string (λ x, x) toy_digest demo_orders demo_affected
    demo_config (demo_cache false) 5 16 demo_stop0 demo_sent (mkLog [demo_cmd] [] []))
    as [(n & hs & os & st' & Hn & E & cmds & c & m & Hp & Hh & Hw & He)|(n & os & st' & Hn & E & Hq)];
    [simpl; lia | apply demo_stop0_reach | reflexivity | apply demo_orders_ok
    | apply demo_sent_reach | discriminate
    | by intros ?%list_elem_of_singleton | |].
  { exfalso. assert (Ht : turn unit_to_string (λ x, x) toy_digest demo_orders demo_affected st' = None)
      by (unfold turn, locked_block; rewrite Hp, Hh; cbn [mbind option_bind]; by rewrite Hw, He).
    destruct n as [|[|[|[|[|n]]]]]; [| | | | | cbn in Hn; lia];
      vm_compute in E; injection E as <- <- <-; vm_compute in Ht; discriminate Ht. }
  exists n, os, st'. split_and!; [exact Hn | exact E | exact Hq].
Defined.

(** Commands taken from the channel in the same drain as a Shutdown are dropped. *)
Example shutdown_drops_commands :
  match demo_turns 5 (set_queue [AbortRequest 9%N; demo_cmd; Shutdown] (async_new demo_stop0)) with
  | Some (hs, os, st) => hs = [AbortRequest 9%N] ∧ os = [] ∧ as_phase st = Stopped ∧ as_senders st = ∅
  | None => False
  end.
Proof. vm_compute. by repeat split. Qed.
