(* ===== verification/BatchQueue.v ===== *)
(** * The batch queue (rllm-engine/src/batch_queue.rs)

    A bounded FIFO of requests between the server and the engine, with its
    batching strategies and counters.  A [Duration] is a number of nanoseconds;
    [drain] does not read it.  The counters are not bounded here. *)
From S2P Require Import Prelude F32 CoreTypes Request.

Inductive BatchingStrategy : Type :=
  | FixedSize (batch_size : nat)
  | Timeout (max_batch_size : nat) (max_latency : N)
  | Immediate.

Module BatchQueue.
Section queue.
Context {Value : Type}.

Record BatchQueue : Type := mkBatchQueue {
  q_pending : list (InferenceRequest Value);
  q_max_capacity : nat;
  q_strategy : BatchingStrategy;
  q_total_enqueued : nat;
  q_total_drained : nat;
}.

Definition with_strategy (strategy : BatchingStrategy) : BatchQueue := mkBatchQueue [] 4096 strategy 0 0.
Definition new : BatchQueue := with_strategy Immediate.
Definition with_fixed_batch (batch_size : nat) : BatchQueue := with_strategy (FixedSize batch_size).
Definition with_timeout (max_batch_size : nat) (max_latency : N) : BatchQueue :=
  with_strategy (Timeout max_batch_size max_latency).
Definition default : BatchQueue := new.

Definition set_max_capacity (q : BatchQueue) (capacity : nat) : BatchQueue :=
  mkBatchQueue (q_pending q) capacity (q_strategy q) (q_total_enqueued q) (q_total_drained q).
Definition set_strategy (q : BatchQueue) (strategy : BatchingStrategy) : BatchQueue :=
  mkBatchQueue (q_pending q) (q_max_capacity q) strategy (q_total_enqueued q) (q_total_drained q).

Definition enqueue (q : BatchQueue) (request : InferenceRequest Value) : bool * BatchQueue :=
  if q_max_capacity q <=? length (q_pending q) then (false, q)
  else (true, mkBatchQueue (q_pending q ++ [request]) (q_max_capacity q) (q_strategy q)
                (q_total_enqueued q + 1) (q_total_drained q)).

Fixpoint enqueue_all (q : BatchQueue) (requests : list (InferenceRequest Value)) : nat * BatchQueue :=
  match requests with
  | [] => (0, q)
  | req :: requests =>
      match enqueue q req with
      | (true, q) => let '(added, q) := enqueue_all q requests in (added + 1, q)
      | (false, q) => (0, q)
      end
  end.

Definition batch_size (q : BatchQueue) : nat :=
  match q_strategy q with
  | Immediate => 1
  | FixedSize n => Nat.min n (length (q_pending q))
  | Timeout n _ => Nat.min n (length (q_pending q))
  end.

(** [self.pending.drain(..n)], which panics past the end. *)
Definition drain_front (n : nat) (q : BatchQueue) : option (list (InferenceRequest Value) * BatchQueue) :=
  if n <=? length (q_pending q)
  then Some (take n (q_pending q),
             mkBatchQueue (drop n (q_pending q)) (q_max_capacity q) (q_strategy q) (q_total_enqueued q)
               (q_total_drained q + length (take n (q_pending q))))
  else None.

Definition drain (q : BatchQueue) : option (list (InferenceRequest Value) * BatchQueue) :=
  match q_pending q with
  | [] => Some ([], q)
  | _ => drain_front (batch_size q) q
  end.

Definition drain_all (q : BatchQueue) : list (InferenceRequest Value) * BatchQueue :=
  (q_pending q, mkBatchQueue [] (q_max_capacity q) (q_strategy q) (q_total_enqueued q)
                  (q_total_drained q + length (q_pending q))).

Definition peek (q : BatchQueue) : option (InferenceRequest Value) := head (q_pending q).

Definition remove (q : BatchQueue) (id : RequestId) : option (InferenceRequest Value) * BatchQueue :=
  match list_find (λ r, request_id r = id) (q_pending q) with
  | Some (pos, req) =>
      (Some req, mkBatchQueue (delete pos (q_pending q)) (q_max_capacity q) (q_strategy q)
                   (q_total_enqueued q) (q_total_drained q + 1))
  | None => (None, q)
  end.

Definition len (q : BatchQueue) : nat := length (q_pending q).
Definition is_empty (q : BatchQueue) : bool := bool_decide (q_pending q = []).
Definition is_full (q : BatchQueue) : bool := q_max_capacity q <=? length (q_pending q).
Definition clear (q : BatchQueue) : BatchQueue :=
  mkBatchQueue [] (q_max_capacity q) (q_strategy q) (q_total_enqueued q)
    (q_total_drained q + length (q_pending q)).
Definition total_enqueued (q : BatchQueue) : nat := q_total_enqueued q.
Definition total_drained (q : BatchQueue) : nat := q_total_drained q.

(** ** Histories *)
Inductive Op : Type :=
  | OEnqueue (request : InferenceRequest Value)
  | OEnqueueAll (requests : list (InferenceRequest Value))
  | ODrain
  | ODrainAll
  | ORemove (id : RequestId)
  | OClear
  | OSetStrategy (strategy : BatchingStrategy)
  | OSetCapacity (capacity : nat).

(** Requests accepted, requests that left, and the queue after an operation. *)
Definition apply (q : BatchQueue) (op : Op) :
    option (list (InferenceRequest Value) * list (InferenceRequest Value) * BatchQueue) :=
  match op with
  | OEnqueue r => let '(ok, q') := enqueue q r in Some (if ok then [r] else [], [], q')
  | OEnqueueAll l => let '(n, q') := enqueue_all q l in Some (take n l, [], q')
  | ODrain => '(b, q') ← drain q; Some ([], b, q')
  | ODrainAll => let '(b, q') := drain_all q in Some ([], b, q')
  | ORemove id => let '(r, q') := remove q id in Some ([], option_list r, q')
  | OClear => Some ([], q_pending q, clear q)
  | OSetStrategy s => Some ([], [], set_strategy q s)
  | OSetCapacity n => Some ([], [], set_max_capacity q n)
  end.

Fixpoint run (q : BatchQueue) (ops : list Op) :
    option (list (InferenceRequest Value) * list (InferenceRequest Value) * BatchQueue) :=
  match ops with
  | [] => Some ([], [], q)
  | op :: ops =>
      '(ins, outs, q) ← apply q op;
      '(ins', outs', q) ← run q ops;
      Some (ins ++ ins', outs ++ outs', q)
  end.

Definition fifo_op (op : Op) : bool := match op with ORemove _ => false | _ => true end.

Lemma enqueue_spec q r :
  (enqueue q r).2 = mkBatchQueue (q_pending q ++ (if (enqueue q r).1 then [r] else [])) (q_max_capacity q)
    (q_strategy q) (q_total_enqueued q + length (if (enqueue q r).1 then [r] else [])) (q_total_drained q).
Proof.
  unfold enqueue. destruct (_ <=? _); simpl; [| done]. destruct q. simpl. by rewrite app_nil_r, Nat.add_0_r.
Qed.

Lemma enqueue_all_spec l : ∀ q, let '(n, q') := enqueue_all q l in
  n ≤ length l ∧ q_pending q' = q_pending q ++ take n l ∧ q_max_capacity q' = q_max_capacity q
  ∧ q_total_enqueued q' = q_total_enqueued q + n ∧ q_total_drained q' = q_total_drained q
  ∧ n = Nat.min (length l) (q_max_capacity q - length (q_pending q)).
Proof.
  induction l as [|r l IH]; intros q; [simpl; rewrite app_nil_r; split_and!; done || lia |].
  cbn [enqueue_all]. unfold enqueue. destruct (Nat.leb_spec (q_max_capacity q) (length (q_pending q))).
  - rewrite take_0, app_nil_r. split_and!; try done; cbn [length]; lia.
  - specialize (IH (mkBatchQueue (q_pending q ++ [r]) (q_max_capacity q) (q_strategy q)
                     (q_total_enqueued q + 1) (q_total_drained q))).
    destruct (enqueue_all _ l) as [n q']. simpl in IH. destruct IH as (H1 & H2 & H3 & H4 & H5 & H6).
    rewrite length_app in H6. cbn [length] in H6. rewrite Nat.add_1_r. cbn [take firstn length].
    split_and!; [lia | by rewrite H2, <- app_assoc | done | lia | done | lia].
Qed.

(** What every operation does: it does not panic, requests are neither lost nor
    duplicated, those that leave keep the order of the queue, and the counters
    count them. *)
Lemma apply_spec q op : ∃ ins outs q', apply q op = Some (ins, outs, q')
  ∧ q_pending q ++ ins ≡ₚ outs ++ q_pending q'
  ∧ (fifo_op op = true → q_pending q ++ ins = outs ++ q_pending q')
  ∧ q_total_enqueued q' = q_total_enqueued q + length ins
  ∧ q_total_drained q' = q_total_drained q + length outs
  ∧ (length (q_pending q') ≤ Nat.max (length (q_pending q)) (q_max_capacity q))
  ∧ (length (q_pending q) ≤ q_max_capacity q → (∀ n, op ≠ OSetCapacity n) → length (q_pending q') ≤ q_max_capacity q').
Proof.
  destruct op as [r|l| | |id| |s|n]; cbn [apply].
  - pose proof (enqueue_spec q r) as E. unfold enqueue in *. destruct (Nat.leb_spec (q_max_capacity q) (length (q_pending q)));
      simpl in *; eexists _, _, _; (split; [done |]); simpl; rewrite ?app_nil_r, ?length_app; simpl;
      split_and!; try done; lia.
  - pose proof (enqueue_all_spec l q) as E. destruct (enqueue_all q l) as [n q'].
    destruct E as (H1 & H2 & H3 & H4 & H5 & H6). eexists _, _, _. split; [done |].
    rewrite H2, H4, H5, H3, length_app, length_take, Nat.add_0_r. simpl. split_and!; try done; lia.
  - unfold drain. destruct (q_pending q) as [|r0 l] eqn:Hq.
    + eexists _, _, _. split; [done |]. rewrite Hq. simpl. split_and!; try done; lia.
    + unfold drain_front. rewrite (proj2 (Nat.leb_le _ _)).
      2: { unfold batch_size. rewrite Hq. destruct (q_strategy q); simpl; lia. }
      simpl mbind. eexists _, _, _. split; [done |]. cbn [q_pending q_total_enqueued q_total_drained q_max_capacity].
      rewrite Hq, app_nil_r, take_drop, length_drop. split_and!; try done; simpl length; lia.
  - eexists _, _, _. split; [done |]. simpl. rewrite !app_nil_r. split_and!; try done; lia.
  - unfold remove. destruct (list_find _ _) as [[i r]|] eqn:Hf; eexists _, _, _; (split; [done |]); simpl.
    + apply list_find_Some in Hf as (Hi & Hr & _). rewrite app_nil_r. split_and!; try done; try lia.
      * rewrite delete_take_drop. rewrite <- (take_drop_middle _ _ _ Hi) at 1. solve_Permutation.
      * rewrite length_delete by done. lia.
      * rewrite length_delete by done. lia.
    + rewrite app_nil_r. split_and!; try done; lia.
  - eexists _, _, _. split; [done |]. simpl. rewrite !app_nil_r. split_and!; try done; lia.
  - eexists _, _, _. split; [done |]. simpl. rewrite !app_nil_r. split_and!; try done; lia.
  - eexists _, _, _. split; [done |]. simpl. rewrite !app_nil_r. split_and!; try done; try lia. intros _ H. by destruct (H n).
Qed.

(** Over any history of the queue no operation panics, the accepted requests
    are exactly those that left and those still queued, the counters are the
    numbers of both, and without removals requests leave in the order in which
    they were accepted. *)
Theorem batch_queue_fifo q ops :
  ∃ ins outs q', run q ops = Some (ins, outs, q')
    ∧ q_pending q ++ ins ≡ₚ outs ++ q_pending q'
    ∧ (forallb fifo_op ops = true → q_pending q ++ ins = outs ++ q_pending q')
    ∧ total_enqueued q' = total_enqueued q + length ins
    ∧ total_drained q' = total_drained q + length outs
    ∧ len q' + length outs = len q + length ins.
Proof.
  assert (Hlen : ∀ (l1 l2 l3 l4 : list (InferenceRequest Value)), l1 ++ l2 ≡ₚ l3 ++ l4 →
    length l4 + length l3 = length l1 + length l2).
  { intros l1 l2 l3 l4 H%Permutation_length. rewrite !length_app in H. lia. }
  revert q. induction ops as [|op ops IH]; intros q.
  - exists [], [], q. split; [done |]. rewrite app_nil_r. simpl. split_and!; try done; lia.
  - destruct (apply_spec q op) as (i1 & o1 & q1 & E1 & P1 & F1 & A1 & B1 & _ & _).
    destruct (IH q1) as (i2 & o2 & q2 & E2 & P2 & F2 & A2 & B2 & L2).
    exists (i1 ++ i2), (o1 ++ o2), q2. cbn [run]. rewrite E1. simpl. rewrite E2. simpl.
    assert (P : q_pending q ++ i1 ++ i2 ≡ₚ (o1 ++ o2) ++ q_pending q2).
    { by rewrite app_assoc, P1, <- !app_assoc, P2. }
    unfold total_enqueued, total_drained in *. split_and!; [done | done | | | |].
    + intros [H1 H2]%andb_true_iff. rewrite app_assoc, F1, <- !app_assoc by done. by rewrite F2.
    + rewrite A2, A1, length_app. lia.
    + rewrite B2, B1, length_app. lia.
    + apply Hlen in P. unfold len. lia.
Qed.
End queue.
End BatchQueue.

(** [FixedSize] does not wait for its batch size: one queued request is drained
    at once. *)
Example fixed_size_does_not_wait :
  let r := mkInferenceRequest (Value := unit) 7%N None None None SamplingParams_default 0 0 false None in
  let q := (BatchQueue.enqueue (BatchQueue.with_fixed_batch 4) r).2 in
  fst <$> BatchQueue.drain q = Some [r].
Proof. reflexivity. Qed.
