(* ===== verification/Sorting.v ===== *)
(** * Stable sorting

    [sort_by] models the Standard Library's [sort_by]: [le a b] says that [a] need
    not come after [b] ([cmp a b] is not [Greater]).  The unstable sorts and
    [select_nth_unstable_by] fix less of the result; the definitions that use
    them here read only what they fix, up to the order of equal elements. *)
From S2P Require Import Prelude.

Section sort.
Context {A : Type} (le : A → A → bool).

Fixpoint insert_by (a : A) (l : list A) : list A :=
  match l with
  | [] => [a]
  | b :: l => if le a b then a :: b :: l else b :: insert_by a l
  end.

Definition sort_by (l : list A) : list A := foldr insert_by [] l.

Lemma insert_by_perm a l : insert_by a l ≡ₚ a :: l.
Proof.
  induction l as [|b l IH]; simpl; [done |]. destruct (le a b); [done |].
  rewrite IH. apply Permutation_swap.
Qed.

Lemma sort_by_perm l : sort_by l ≡ₚ l.
Proof. induction l as [|a l IH]; simpl; [done |]. by rewrite insert_by_perm, IH. Qed.

Lemma sort_by_length l : length (sort_by l) = length l.
Proof. by rewrite sort_by_perm. Qed.

(** Sortedness on a set of elements on which [le] is a total preorder. *)
Section sorted.
Context (P : A → Prop).
Context (le_total : ∀ a b, P a → P b → le a b = true ∨ le b a = true).
Context (le_trans : ∀ a b c, P a → P b → P c → le a b = true → le b c = true → le a c = true).

Definition sorted_by (l : list A) : Prop := StronglySorted (λ a b, le a b = true) l.

Lemma insert_by_sorted a l : P a → Forall P l → sorted_by l → sorted_by (insert_by a l).
Proof using Type*.
  intros Ha. induction l as [|b l IH]; simpl; intros HP Hs; [by repeat constructor |].
  apply Forall_cons in HP as [Hb HP]. apply StronglySorted_inv in Hs as [Hs Hall].
  destruct (le a b) eqn:E.
  - constructor; [by constructor |]. constructor; [done |].
    rewrite Forall_forall in *. intros x Hx. by apply (le_trans a b x); auto.
  - constructor; [by apply IH |]. rewrite insert_by_perm. constructor; [| done].
    destruct (le_total a b Ha Hb); congruence.
Qed.

Lemma sort_by_sorted l : Forall P l → sorted_by (sort_by l).
Proof using Type*.
  induction l as [|a l IH]; simpl; intros HP; [constructor |].
  apply Forall_cons in HP as [Ha HP]. apply insert_by_sorted; [done | by rewrite sort_by_perm | by apply IH].
Qed.
End sorted.

Lemma sorted_by_lookup l i j a b :
  sorted_by l → i < j → l !! i = Some a → l !! j = Some b → le a b = true.
Proof.
  intros Hs. revert i j. induction Hs as [|x l _ IH Hx]; intros i j Hij Ha Hb; [done |].
  destruct i as [|i], j as [|j]; simplify_eq/=; try lia.
  - rewrite Forall_forall in Hx. apply Hx. by eapply list_elem_of_lookup_2.
  - apply (IH i j); [lia | done | done].
Qed.
End sort.
