(* ===== verification/Logits.v ===== *)
(** * Logit processors (rllm-sampling/src/{logits,logprobs}.rs)

    Each processor maps the logits of one request.  [expf] and [lnf] are the
    platform's [f32::exp] and [f32::ln].  A [HashMap] or [HashSet] is a [gmap] or
    [gset], walked in the order of its elements; the source's order does not
    matter, since each key changes its own logit. *)
From S2P Require Import Prelude F32 CoreTypes Request Sorting.

Abbreviation neg_inf := F32.neg_infinity (only parsing).

(** [if idx < logits.len() { logits[idx] = f(logits[idx]) }] *)
Definition update_logit (f : f32 → f32) (tid : TokenId) (logits : list f32) : list f32 :=
  alter f (N.to_nat tid) logits.

Definition apply_temperature (logits : list f32) (temperature : f32) : list f32 :=
  if F32.leb temperature F32.zero
     || F32.ltb (F32.abs (F32.sub temperature F32.one)) F32.epsilon
  then logits
  else (λ l, F32.mul l (F32.div F32.one temperature)) <$> logits.

(** Keep the logits that are not below the threshold. *)
Definition cut_below (threshold : f32) (logits : list f32) : list f32 :=
  (λ l, if F32.ltb l threshold then neg_inf else l) <$> logits.

(** [b.partial_cmp(a).unwrap_or(Equal)] is not [Greater]: descending order. *)
Definition desc_le (a b : f32) : bool := negb (bool_decide (F32.cmp_or_eq b a = Gt)).

(** [select_nth_unstable_by(k, ..)] puts at [k] the value a full sort would. *)
Definition apply_top_k (logits : list f32) (k : Z) : list f32 :=
  if (k <=? 0)%Z then logits
  else
    let k := Z.to_nat k in
    if length logits <=? k then logits
    else match sort_by desc_le logits !! k with
         | Some threshold => cut_below threshold logits
         | None => logits
         end.

Section libm.
Context (expf lnf : f32 → f32).

(** The loop that looks for the cutoff; [None] when the sum never reaches [p]. *)
Fixpoint find_cutoff (p sum cumsum : f32) (i : nat) (exps : list f32) : option nat :=
  match exps with
  | [] => None
  | e :: exps =>
      let cumsum := F32.add cumsum (F32.div e sum) in
      if F32.geb cumsum p then Some (i + 1) else find_cutoff p sum cumsum (i + 1) exps
  end.

(** [logits.iter().enumerate()] *)
Definition enumerate (logits : list f32) : list (nat * f32) := imap pair logits.

Definition pair_desc_le (a b : nat * f32) : bool := desc_le a.2 b.2.

Definition mask_at (logits : list f32) (i : nat) : list f32 := <[i := neg_inf]> logits.

Definition apply_top_p (logits : list f32) (p : f32) : list f32 :=
  if F32.geb p F32.one || F32.leb p F32.zero || bool_decide (logits = []) then logits
  else
    let indexed := sort_by pair_desc_le (filter (λ iv, F32.eqb iv.2 neg_inf = false) (enumerate logits)) in
    match indexed with
    | [] => logits
    | (_, max_val) :: _ =>
        let exps := (λ iv, expf (F32.sub iv.2 max_val)) <$> indexed in
        let sum := F32.sum exps in
        if F32.eqb sum F32.zero then logits
        else
          let cutoff := default (length indexed) (find_cutoff p sum F32.zero 0 exps) in
          foldl mask_at logits (fst <$> drop cutoff indexed)
    end.

Definition apply_min_p (logits : list f32) (min_p : f32) : list f32 :=
  if F32.leb min_p F32.zero || bool_decide (logits = []) then logits
  else
    let max_logit := F32.fold_max logits in
    if F32.eqb max_logit neg_inf then logits
    else cut_below (F32.add (lnf min_p) max_logit) logits.

Definition penalize (penalty l : f32) : f32 :=
  if F32.gtb l F32.zero then F32.div l penalty else F32.mul l penalty.

Definition apply_repetition_penalty (logits : list f32) (token_ids : list TokenId) (penalty : f32) : list f32 :=
  if F32.eqb penalty F32.one || bool_decide (token_ids = []) then logits
  else foldl (λ ls tid, update_logit (penalize penalty) tid ls) logits token_ids.

(** The counts, as a list of (token, count). *)
Definition token_counts (token_ids : list TokenId) : gmap TokenId N :=
  foldl (λ m tid, <[tid := (default 0 (m !! tid) + 1)%N]> m) ∅ token_ids.

Definition apply_frequency_penalty (logits : list f32) (token_ids : list TokenId) (penalty : f32) : list f32 :=
  if F32.eqb penalty F32.zero || bool_decide (token_ids = []) then logits
  else foldl (λ ls tc, update_logit (λ l, F32.sub l (F32.mul penalty (F32.of_N tc.2))) tc.1 ls) logits
         (map_to_list (token_counts token_ids)).

Definition apply_presence_penalty (logits : list f32) (token_ids : list TokenId) (penalty : f32) : list f32 :=
  if F32.eqb penalty F32.zero || bool_decide (token_ids = []) then logits
  else foldl (λ ls tid, update_logit (λ l, F32.sub l penalty) tid ls) logits
         (elements (list_to_set token_ids : gset TokenId)).

Definition apply_logit_bias (logits : list f32) (bias : gmap TokenId f32) : list f32 :=
  foldl (λ ls tb, update_logit (λ l, F32.add l tb.2) tb.1 ls) logits (map_to_list bias).

(** [i as u32] truncates the index. *)
Definition apply_allowed_token_ids (logits : list f32) (allowed : gset TokenId) : list f32 :=
  if bool_decide (allowed = ∅) then logits
  else imap (λ i l, if bool_decide (as_u32 (N.of_nat i) ∈ allowed) then l else neg_inf) logits.

Definition mask_token (tid : TokenId) (logits : list f32) : list f32 := update_logit (λ _, neg_inf) tid logits.

Definition apply_eos_suppression (logits : list f32) (eos_token_id : TokenId) (num_generated min_tokens : N) : list f32 :=
  if (num_generated <? min_tokens)%N then mask_token eos_token_id logits else logits.

Definition apply_bad_token_ids (logits : list f32) (bad_token_ids : list TokenId) : list f32 :=
  foldl (λ ls tid, mask_token tid ls) logits bad_token_ids.

(** The first loop of [softmax_in_place]: exponentials and their running sum. *)
Fixpoint exp_sum (max sum : f32) (logits : list f32) : list f32 * f32 :=
  match logits with
  | [] => ([], sum)
  | l :: logits =>
      let e := expf (F32.sub l max) in
      let '(es, sum) := exp_sum max (F32.add sum e) logits in
      (e :: es, sum)
  end.

Definition softmax_in_place (logits : list f32) : list f32 * f32 :=
  if bool_decide (logits = []) then (logits, F32.zero)
  else
    let max := F32.fold_max logits in
    if F32.eqb max neg_inf then (logits, max)
    else
      let '(es, sum) := exp_sum max F32.zero logits in
      ((λ e, F32.div e sum) <$> es, F32.add max (lnf sum)).

(** *** logprobs.rs *)
Definition log_sum_exp (max : f32) (logits : list f32) : f32 :=
  F32.add max (lnf (F32.sum ((λ l, expf (F32.sub l max)) <$> logits))).

Definition compute_logprob (logits : list f32) (token_id : TokenId) : f32 * f32 :=
  if bool_decide (logits = []) then (F32.zero, F32.zero)
  else
    let max := F32.fold_max logits in
    if F32.eqb max neg_inf then (neg_inf, max)
    else match logits !! N.to_nat token_id with
         | None => (neg_inf, max)
         | Some logit_val => (F32.sub logit_val (log_sum_exp max logits), max)
         end.

Definition compute_top_n_logprobs (logits : list f32) (n : nat) : list (TokenId * f32) :=
  if bool_decide (logits = []) || (n =? 0) then []
  else
    let max := F32.fold_max logits in
    if F32.eqb max neg_inf then []
    else
      let lse := log_sum_exp max logits in
      let indexed := (λ iv, (iv.1, F32.sub iv.2 lse))
                       <$> filter (λ iv, F32.eqb iv.2 neg_inf = false) (enumerate logits) in
      (λ iv, (as_u32 (N.of_nat iv.1), iv.2)) <$> take (Nat.min n (length indexed)) (sort_by pair_desc_le indexed).
End libm.
