(* ===== verification/Sampler.v ===== *)
(** * Sampling (rllm-sampling/src/sampler.rs, rllm-executor/src/uniproc.rs)

    Logit preparation, greedy and random choice.  A random generator is a state
    with [next : R → f32 * R] ([rand]'s [random::<f32>], in [0, 1)); a sampler
    without one takes its value [entropy] from the thread's generator. *)
From S2P Require Import Prelude F32 CoreTypes Request Sorting Logits.

Section sampler.
Context {Value R : Type}.

Record SamplingInput : Type := mkSamplingInput {
  si_logits : list f32;
  si_params : SamplingParams Value;
  si_context_token_ids : list TokenId;
  si_num_generated : N;
  si_eos_token_id : TokenId;
  si_bad_word_token_ids : list (list TokenId);
}.

Record SamplingOutput : Type := mkSamplingOutput {
  so_token_id : TokenId;
  so_logprob : option f32;
  so_top_logprobs : option (list (TokenId * f32));
}.

Record Sampler : Type := mkSampler { rng : option R }.

Definition sampler_new : Sampler := mkSampler None.
Definition from_seed (seed_from_u64 : N → R) (seed : N) : Sampler := mkSampler (Some (seed_from_u64 seed)).

(** [slice.split_last()] *)
Definition split_last (l : list TokenId) : option (TokenId * list TokenId) :=
  match reverse l with [] => None | x :: l => Some (x, reverse l) end.

(** [slice.ends_with(suffix)] *)
Definition ends_with (l suffix : list TokenId) : bool :=
  bool_decide (drop (length l - length suffix) l = suffix).

(** One bad word: its last token is masked when the context ends with the rest. *)
Definition block_bad_word (context : list TokenId) (logits : list f32) (word : list TokenId) : list f32 :=
  match split_last word with
  | Some (last_token_id, prefix) =>
      if bool_decide (prefix = []) || ends_with context prefix
      then apply_bad_token_ids logits [last_token_id] else logits
  | None => logits
  end.

(** The penalties on the tokens of the context. *)
Definition apply_penalties (p : SamplingParams Value) (context : list TokenId) (logits : list f32) : list f32 :=
  match context with
  | [] => logits
  | _ =>
      let logits := if F32.eqb (repetition_penalty p) F32.one then logits
                    else apply_repetition_penalty logits context (repetition_penalty p) in
      let logits := if F32.eqb (frequency_penalty p) F32.zero then logits
                    else apply_frequency_penalty logits context (frequency_penalty p) in
      if F32.eqb (presence_penalty p) F32.zero then logits
      else apply_presence_penalty logits context (presence_penalty p)
  end.

(** The masks: bad words, allowed tokens, EOS before [min_tokens]. *)
Definition apply_masks (i : SamplingInput) (logits : list f32) : list f32 :=
  let p := si_params i in
  let logits := foldl (block_bad_word (si_context_token_ids i)) logits (si_bad_word_token_ids i) in
  let logits := match allowed_token_ids p with
                | Some allowed => apply_allowed_token_ids logits allowed
                | None => logits
                end in
  if (0 <? min_tokens p)%N
  then apply_eos_suppression logits (si_eos_token_id i) (si_num_generated i) (min_tokens p)
  else logits.

Section libm.
Context (expf lnf : f32 → f32).

Definition apply_truncations (p : SamplingParams Value) (logits : list f32) : list f32 :=
  let logits := if (0 <? top_k p)%Z then apply_top_k logits (top_k p) else logits in
  let logits := if F32.ltb (top_p p) F32.one then apply_top_p expf logits (top_p p) else logits in
  if F32.gtb (min_p p) F32.zero then apply_min_p lnf logits (min_p p) else logits.

Definition prepare_logits (i : SamplingInput) (temperature_on truncation_on : bool) : list f32 :=
  let p := si_params i in
  let logits := if bool_decide (logit_bias p = ∅) then si_logits i
                else apply_logit_bias (si_logits i) (logit_bias p) in
  let logits := apply_penalties p (si_context_token_ids i) logits in
  let logits := apply_masks i logits in
  let logits := if temperature_on && F32.gtb (temperature p) F32.zero
                then apply_temperature logits (temperature p) else logits in
  if truncation_on then apply_truncations p logits else logits.

(** [iter().enumerate().max_by(..)] keeps the later of two equal maxima. *)
Fixpoint max_by_last (best : nat * f32) (l : list (nat * f32)) : nat * f32 :=
  match l with
  | [] => best
  | y :: l => max_by_last (match F32.cmp_or_eq best.2 y.2 with Gt => best | _ => y end) l
  end.

(** [argmax_impl] of the executor is the same search. *)
Definition argmax_impl (logits : list f32) : nat :=
  match enumerate logits with
  | [] => 0
  | x :: l => (max_by_last x l).1
  end.

Definition greedy_sample (logits : list f32) : TokenId := as_u32 (N.of_nat (argmax_impl logits)).

(** The first index whose cumulative probability reaches [r]. *)
Fixpoint pick (r cumsum : f32) (i : nat) (probs : list f32) : option nat :=
  match probs with
  | [] => None
  | p :: probs =>
      let cumsum := F32.add cumsum p in
      if F32.geb cumsum r then Some i else pick r cumsum (i + 1) probs
  end.

Definition random_token (r : f32) (probs : list f32) : TokenId :=
  as_u32 (N.of_nat (default (length probs - 1) (pick r F32.zero 0 probs))).

Context (next : R → f32 * R).

Definition random_sample (logits : list f32) (g : option R) (entropy : f32) : TokenId * option R :=
  match logits with
  | [] => (0%N, g)
  | _ =>
      let '(r, g) := match g with
                     | Some g => let '(r, g) := next g in (r, Some g)
                     | None => (entropy, None)
                     end in
      (random_token r (softmax_in_place expf lnf logits).1, g)
  end.

Definition is_greedy (p : SamplingParams Value) : bool :=
  F32.leb (temperature p) F32.zero || (top_k p =? 1)%Z.

Definition report_logprobs (i : SamplingInput) (token : TokenId) : option f32 * option (list (TokenId * f32)) :=
  match logprobs (si_params i) with
  | None => (None, None)
  | Some top_n =>
      (Some (compute_logprob expf lnf (si_logits i) token).1,
       if (0 <? top_n)%N then Some (compute_top_n_logprobs expf lnf (si_logits i) (N.to_nat top_n)) else None)
  end.

Definition sample (s : Sampler) (i : SamplingInput) (entropy : f32) : SamplingOutput * Sampler :=
  match si_logits i with
  | [] => (mkSamplingOutput 0 None None, s)
  | _ =>
      let greedy := is_greedy (si_params i) in
      let logits := prepare_logits i (negb greedy) (negb greedy) in
      let '(token, g) := if greedy then (greedy_sample logits, rng s)
                         else random_sample logits (rng s) entropy in
      let '(lp, top) := report_logprobs i token in
      (mkSamplingOutput token lp top, mkSampler g)
  end.

(** [entropies]: one value per input. *)
Fixpoint sample_batch (s : Sampler) (inputs : list (SamplingInput * f32)) : list SamplingOutput * Sampler :=
  match inputs with
  | [] => ([], s)
  | (i, entropy) :: inputs =>
      let '(o, s) := sample s i entropy in
      let '(os, s) := sample_batch s inputs in
      (o :: os, s)
  end.
End libm.

(** ** Lengths and masks *)
Definition masked (logits : list f32) (i : nat) : Prop := logits !! i = Some neg_inf.

(** A processor that keeps the length and the masked positions. *)
Definition keeps (f : list f32 → list f32) : Prop :=
  ∀ ls, length (f ls) = length ls ∧ ∀ i, masked ls i → masked (f ls) i.

Lemma keeps_id : keeps (λ ls, ls).
Proof. intros ls. by split. Qed.

Lemma keeps_compose f g : keeps f → keeps g → keeps (λ ls, f (g ls)).
Proof. intros Hf Hg ls. destruct (Hf (g ls)), (Hg ls). split; [congruence | auto]. Qed.

Lemma keeps_foldl {B} (f : list f32 → B → list f32) (l : list B) :
  (∀ b, keeps (λ ls, f ls b)) → keeps (λ ls, foldl f ls l).
Proof.
  intros Hf. induction l as [|b l IH]; [apply keeps_id |].
  exact (keeps_compose (λ ls, foldl f ls l) (λ ls, f ls b) IH (Hf b)).
Qed.

Lemma keeps_if (b : bool) f g : keeps f → keeps g → keeps (λ ls, if b then f ls else g ls).
Proof. intros Hf Hg. by destruct b. Qed.

Lemma mask_token_keeps tid : keeps (mask_token tid).
Proof.
  intros ls. unfold mask_token, update_logit, masked. split; [apply length_alter |].
  intros i Hi. destruct (decide (i = N.to_nat tid)) as [->|Hne].
  - by rewrite list_lookup_alter_eq, Hi.
  - by rewrite list_lookup_alter_ne.
Qed.

Lemma mask_at_keeps i : keeps (λ ls, mask_at ls i).
Proof.
  intros ls. unfold mask_at, masked. split; [apply length_insert |].
  intros j Hj. destruct (decide (i = j)) as [->|Hne]; [| by rewrite list_lookup_insert_ne].
  apply list_lookup_insert_eq. by eapply lookup_lt_Some.
Qed.

Lemma map_keeps (f : f32 → f32) : f neg_inf = neg_inf → keeps (fmap f).
Proof.
  intros Hf ls. unfold masked. split; [apply length_fmap |].
  intros i Hi. rewrite list_lookup_fmap, Hi. simpl. by rewrite Hf.
Qed.

Lemma cut_below_keeps threshold : keeps (cut_below threshold).
Proof. apply map_keeps. by destruct (F32.ltb _ _). Qed.

Lemma cut_top_k_keeps k : keeps (λ ls, apply_top_k ls k).
Proof.
  intros ls. unfold apply_top_k. destruct (_ <=? _)%Z; [apply keeps_id |].
  destruct (_ <=? _); [apply keeps_id |]. destruct (_ !! _); [apply cut_below_keeps | apply keeps_id].
Qed.

Lemma top_p_keeps expf p : keeps (λ ls, apply_top_p expf ls p).
Proof.
  intros ls. unfold apply_top_p. destruct (_ || _); [apply keeps_id |].
  destruct (sort_by _ _) as [|[i v] l]; [apply keeps_id |]. destruct (F32.eqb _ _); [apply keeps_id |].
  apply (keeps_foldl mask_at). intros j. apply mask_at_keeps.
Qed.

Lemma min_p_keeps lnf p : keeps (λ ls, apply_min_p lnf ls p).
Proof.
  intros ls. unfold apply_min_p. destruct (_ || _); [apply keeps_id |].
  destruct (F32.eqb _ _); [apply keeps_id | apply cut_below_keeps].
Qed.

Lemma truncations_keep expf lnf p : keeps (apply_truncations expf lnf p).
Proof.
  unfold apply_truncations.
  apply (keeps_compose
    (λ ls, if F32.gtb (min_p p) F32.zero then apply_min_p lnf ls (min_p p) else ls)
    (λ ls, if F32.ltb (top_p p) F32.one
           then apply_top_p expf (if (0 <? top_k p)%Z then apply_top_k ls (top_k p) else ls) (top_p p)
           else if (0 <? top_k p)%Z then apply_top_k ls (top_k p) else ls)).
  - apply (keeps_if _ (λ ls, apply_min_p lnf ls (min_p p)) (λ ls, ls)); [apply min_p_keeps | apply keeps_id].
  - apply (keeps_compose (λ ls, if F32.ltb (top_p p) F32.one then apply_top_p expf ls (top_p p) else ls)
      (λ ls, if (0 <? top_k p)%Z then apply_top_k ls (top_k p) else ls)).
    + apply (keeps_if _ (λ ls, apply_top_p expf ls (top_p p)) (λ ls, ls)); [apply top_p_keeps | apply keeps_id].
    + apply (keeps_if _ (λ ls, apply_top_k ls (top_k p)) (λ ls, ls)); [apply cut_top_k_keeps | apply keeps_id].
Qed.

(** Scaling keeps masked logits when the factor is a positive number. *)
Lemma temperature_keeps t : F32.gtb (F32.div F32.one t) F32.zero = true → keeps (λ ls, apply_temperature ls t).
Proof.
  intros Ht. unfold apply_temperature.
  apply (keeps_if _ (λ ls, ls) (fmap (λ l, F32.mul l (F32.div F32.one t)))); [apply keeps_id |].
  apply map_keeps. unfold F32.gtb, SFltb in Ht. by destruct (F32.div F32.one t) as [[]|[]| |[] m e].
Qed.

Lemma update_logit_length f tid ls : length (update_logit f tid ls) = length ls.
Proof. apply length_alter. Qed.

Lemma foldl_length {B} (f : list f32 → B → list f32) (l : list B) : ∀ ls,
  (∀ ls b, length (f ls b) = length ls) → length (foldl f ls l) = length ls.
Proof. induction l as [|b l IH]; intros ls Hf; simpl; [done |]. by rewrite IH, Hf. Qed.

Lemma apply_penalties_length (p : SamplingParams Value) context ls : length (apply_penalties p context ls) = length ls.
Proof.
  unfold apply_penalties. destruct context as [|c context]; [done |].
  unfold apply_repetition_penalty, apply_frequency_penalty, apply_presence_penalty.
  repeat (destruct (F32.eqb _ _)); repeat case_bool_decide; simpl orb; cbv iota;
    rewrite ?foldl_length; try done; intros; apply update_logit_length.
Qed.

(** ** What the masks mask *)

(** A token the request may not produce now. *)
Definition forbidden (i : SamplingInput) (tok : nat) : Prop :=
  (∃ allowed, allowed_token_ids (si_params i) = Some allowed ∧ allowed ≠ ∅ ∧ as_u32 (N.of_nat tok) ∉ allowed)
  ∨ (tok = N.to_nat (si_eos_token_id i) ∧ (si_num_generated i < min_tokens (si_params i))%N)
  ∨ (∃ prefix, (prefix ++ [N.of_nat tok]) ∈ si_bad_word_token_ids i
       ∧ ∃ before, si_context_token_ids i = before ++ prefix).

Lemma mask_token_masks tid ls : N.to_nat tid < length ls → masked (mask_token tid ls) (N.to_nat tid).
Proof.
  intros Hlt. unfold masked, mask_token, update_logit. rewrite list_lookup_alter_eq.
  by destruct (lookup_lt_is_Some_2 ls (N.to_nat tid) Hlt) as [x ->].
Qed.

Lemma block_bad_word_keeps context word : keeps (λ ls, block_bad_word context ls word).
Proof.
  intros ls. unfold block_bad_word. destruct (split_last word) as [[tid prefix]|]; [| apply keeps_id].
  destruct (_ || _); [apply mask_token_keeps | apply keeps_id].
Qed.

Lemma split_last_snoc prefix tid : split_last (prefix ++ [tid]) = Some (tid, prefix).
Proof. unfold split_last. by rewrite reverse_snoc, reverse_involutive. Qed.

Lemma ends_with_app before suffix : ends_with (before ++ suffix) suffix = true.
Proof.
  unfold ends_with. rewrite length_app, Nat.add_sub, drop_app_length. by apply bool_decide_eq_true.
Qed.

Lemma bad_words_mask context words prefix before tok : ∀ ls,
  prefix ++ [N.of_nat tok] ∈ words → context = before ++ prefix → tok < length ls →
  masked (foldl (block_bad_word context) ls words) tok.
Proof.
  intros ls Hin Hctx Htok. revert ls Htok. induction words as [|w words IH]; intros ls Htok; [by apply not_elem_of_nil in Hin |].
  simpl. apply elem_of_cons in Hin as [<-|Hin].
  - apply (keeps_foldl (block_bad_word context) words (block_bad_word_keeps context)).
    unfold block_bad_word. rewrite split_last_snoc, Hctx, ends_with_app, orb_true_r. simpl.
    rewrite <- (Nat2N.id tok) at 2. apply mask_token_masks. by rewrite Nat2N.id.
  - apply IH; [done |]. by rewrite (proj1 (block_bad_word_keeps context w ls)).
Qed.

Lemma allowed_keeps allowed : keeps (λ ls, apply_allowed_token_ids ls allowed).
Proof.
  intros ls. unfold apply_allowed_token_ids, masked. case_bool_decide; [by split |].
  split; [apply length_imap |]. intros i Hi. rewrite list_lookup_imap, Hi. simpl. by case_bool_decide.
Qed.

Lemma eos_keeps eos g n : keeps (λ ls, apply_eos_suppression ls eos g n).
Proof. unfold apply_eos_suppression. apply (keeps_if _ (mask_token eos) (λ ls, ls)); [apply mask_token_keeps | apply keeps_id]. Qed.

Lemma apply_masks_forbidden (i : SamplingInput) ls tok :
  forbidden i tok → tok < length ls → masked (apply_masks i ls) tok.
Proof.
  intros Hf Htok. unfold apply_masks. set (p := si_params i).
  set (ls1 := foldl _ ls _).
  assert (Hlen1 : length ls1 = length ls) by apply (keeps_foldl _ _ (block_bad_word_keeps _)).
  set (ls2 := match allowed_token_ids p with Some _ => _ | None => _ end).
  assert (H12 : length ls2 = length ls ∧ ∀ j, masked ls1 j → masked ls2 j).
  { subst ls2. destruct (allowed_token_ids p); [| done]. rewrite <- Hlen1. apply allowed_keeps. }
  assert (H23 : ∀ j, masked ls2 j → masked (if (0 <? min_tokens p)%N
    then apply_eos_suppression ls2 (si_eos_token_id i) (si_num_generated i) (min_tokens p) else ls2) j).
  { destruct (0 <? min_tokens p)%N; [apply eos_keeps | done]. }
  destruct Hf as [(allowed & Ha & Hne & Hnin) | [(-> & Hmin) | (prefix & Hin & before & Hctx)]].
  - apply H23. subst ls2. fold p in Ha. rewrite Ha. unfold apply_allowed_token_ids, masked.
    rewrite bool_decide_eq_false_2 by done. rewrite list_lookup_imap.
    destruct (lookup_lt_is_Some_2 ls1 tok) as [x ->]; [by rewrite Hlen1 |]. simpl.
    by rewrite bool_decide_eq_false_2.
  - fold p in Hmin. rewrite (proj2 (N.ltb_lt _ _)) by lia. unfold apply_eos_suppression.
    rewrite (proj2 (N.ltb_lt _ _)) by lia. apply mask_token_masks. by rewrite (proj1 H12).
  - apply H23, H12. subst ls1. by eapply bad_words_mask.
Qed.

(** ** The greedy choice *)
Definition all_num (logits : list f32) : Prop := ∀ j l, logits !! j = Some l → num l.

Lemma max_by_last_spec l : ∀ best,
  num best.2 → (∀ x, x ∈ l → num x.2) → StronglySorted (λ a b, a.1 < b.1) (best :: l) →
  max_by_last best l ∈ best :: l
  ∧ (∀ x, x ∈ best :: l → F32.ltb (max_by_last best l).2 x.2 = false)
  ∧ (∀ x, x ∈ best :: l → (max_by_last best l).1 < x.1 → F32.ltb x.2 (max_by_last best l).2 = true).
Proof.
  induction l as [|y l IH]; intros best Hb Hl Hs; simpl.
  - split_and!; [by left | |]; intros x ->%list_elem_of_singleton; [apply ltb_irrefl | lia].
  - assert (Hy : num y.2) by (apply Hl; by left).
    apply StronglySorted_inv in Hs as [Hs Hbl]. apply Forall_cons in Hbl as [Hby Hbl].
    pose proof Hs as Hs0. apply StronglySorted_inv in Hs as [Hs Hyl].
    pose proof (cmp_gt best.2 y.2 Hb Hy) as Hc.
    destruct (F32.ltb y.2 best.2) eqn:E.
    + assert (F32.cmp_or_eq best.2 y.2 = Gt) as -> by (by apply Hc).
      destruct (IH best) as (H1 & H2 & H3); [done | intros; apply Hl; by right | by constructor |].
      set (m := max_by_last best l) in *. split_and!.
      * apply elem_of_cons in H1 as [->|H1]; [by left | by do 2 right].
      * intros x [->|[->|Hx]%elem_of_cons]%elem_of_cons; [apply H2; by left | | apply H2; by right].
        assert (num m.2) as Hm by (apply elem_of_cons in H1 as [->|H1]; [done | apply Hl; by right]).
        apply (nltb_trans _ best.2); [done | done | done | apply H2; by left | by apply ltb_asym].
      * intros x [->|[->|Hx]%elem_of_cons]%elem_of_cons Hlt; [by apply H3; [left |] | | by apply H3; [right |]].
        apply elem_of_cons in H1 as [H1|H1]; [by rewrite H1 |].
        rewrite Forall_forall in Hyl. specialize (Hyl m H1). lia.
    + assert ((match F32.cmp_or_eq best.2 y.2 with Gt => best | _ => y end) = y) as ->.
      { destruct (F32.cmp_or_eq best.2 y.2); try done. destruct Hc as [Hc _]. by specialize (Hc eq_refl). }
      destruct (IH y) as (H1 & H2 & H3); [done | intros; apply Hl; by right | done |].
      set (m := max_by_last y l) in *. split_and!.
      * by right.
      * intros x [->|Hx]%elem_of_cons; [| by apply H2].
        assert (num m.2) as Hm by (apply elem_of_cons in H1 as [->|H1]; [done | apply Hl; by right]).
        apply (nltb_trans _ y.2); [done | done | done | apply H2; by left | done].
      * intros x [->|Hx]%elem_of_cons Hlt; [| by apply H3].
        assert (y.1 ≤ m.1); [| lia]. apply elem_of_cons in H1 as [->|H1]; [done |].
        rewrite Forall_forall in Hyl. specialize (Hyl m H1). lia.
Qed.

Lemma enumerate_elem ls i (l : f32) : (i, l) ∈ enumerate ls ↔ ls !! i = Some l.
Proof.
  unfold enumerate. rewrite list_elem_of_lookup. setoid_rewrite list_lookup_imap. split.
  - intros (j & Hj). destruct (ls !! j) eqn:E; simplify_eq/=. done.
  - intros Hl. exists i. by rewrite Hl.
Qed.

Lemma enumerate_sorted ls : StronglySorted (λ a b : nat * f32, a.1 < b.1) (enumerate ls).
Proof.
  unfold enumerate. assert (H : ∀ k, StronglySorted (λ a b : nat * f32, a.1 < b.1) (imap (λ i, pair (k + i)) ls)).
  { induction ls as [|l ls IH]; intros k; simpl; [constructor |]. constructor.
    - specialize (IH (S k)). erewrite imap_ext; [exact IH |]. intros. simpl. f_equal. lia.
    - rewrite Forall_forall. intros [j x] Hx. apply list_elem_of_lookup in Hx as [n Hn].
      rewrite list_lookup_imap in Hn. destruct (ls !! n); simplify_eq/=. lia. }
  apply (H 0).
Qed.

Lemma argmax_spec ls :
  ls ≠ [] → all_num ls →
  ∃ m, ls !! argmax_impl ls = Some m
    ∧ (∀ j l, ls !! j = Some l → F32.ltb m l = false)
    ∧ (∀ j l, ls !! j = Some l → argmax_impl ls < j → F32.ltb l m = true).
Proof.
  intros Hne Hnum. unfold argmax_impl. pose proof (enumerate_sorted ls) as Hs.
  destruct (enumerate ls) as [|x l] eqn:E; [by destruct ls |].
  assert (Hx : ∀ y, y ∈ x :: l → num y.2).
  { intros [j y] Hy. rewrite <- E in Hy. apply enumerate_elem in Hy. by apply (Hnum j). }
  destruct (max_by_last_spec l x) as (H1 & H2 & H3); [by apply Hx; left | intros; apply Hx; by right | done |].
  set (m := max_by_last x l) in *. exists m.2. rewrite <- E in *.
  assert (Hm : ls !! m.1 = Some m.2) by (apply enumerate_elem; by destruct m).
  split_and!; [done | |].
  - intros j y Hy. by apply (H2 (j, y)), enumerate_elem.
  - intros j y Hy Hlt. by apply (H3 (j, y)); [apply enumerate_elem |].
Qed.

(** [as u32] of an index of a list no longer than 2^32. *)
Lemma as_u32_index k n : k < n → (N.of_nat n <= u32_max + 1)%N → as_u32 (N.of_nat k) = N.of_nat k.
Proof. intros Hk Hn. unfold as_u32. apply N.mod_small. unfold u32_max in Hn. lia. Qed.

Lemma apply_logit_bias_length ls (bias : gmap TokenId f32) : length (apply_logit_bias ls bias) = length ls.
Proof. unfold apply_logit_bias. apply foldl_length. intros. apply update_logit_length. Qed.

(** Preparation keeps the length, and forbidden tokens end up masked. *)
Lemma prepare_logits_spec expf lnf (i : SamplingInput) (t_on tr_on : bool) :
  (t_on = true → F32.gtb (temperature (si_params i)) F32.zero = true →
     F32.gtb (F32.div F32.one (temperature (si_params i))) F32.zero = true) →
  length (prepare_logits expf lnf i t_on tr_on) = length (si_logits i)
  ∧ ∀ tok, forbidden i tok → tok < length (si_logits i) → masked (prepare_logits expf lnf i t_on tr_on) tok.
Proof.
  intros Ht. unfold prepare_logits. set (p := si_params i).
  set (ls0 := if bool_decide (logit_bias p = ∅) then si_logits i else apply_logit_bias (si_logits i) (logit_bias p)).
  assert (H0 : length ls0 = length (si_logits i)).
  { subst ls0. case_bool_decide; [done | apply apply_logit_bias_length]. }
  set (ls1 := apply_penalties p _ ls0).
  assert (H1 : length ls1 = length (si_logits i)) by (subst ls1; by rewrite apply_penalties_length).
  set (ls2 := apply_masks i ls1).
  assert (H2 : length ls2 = length (si_logits i)).
  { subst ls2. rewrite <- H1. unfold apply_masks. generalize ls1. intros l.
    pose proof (keeps_foldl _ (si_bad_word_token_ids i) (block_bad_word_keeps (si_context_token_ids i)) l) as [Hb _].
    rewrite <- Hb. set (l1 := foldl _ l _). destruct (0 <? _)%N; destruct (allowed_token_ids (si_params i));
      rewrite ?(proj1 (eos_keeps _ _ _ _)); try done; apply allowed_keeps. }
  assert (Hkeep : keeps (λ ls, let l := if t_on && F32.gtb (temperature p) F32.zero then apply_temperature ls (temperature p) else ls in
    if tr_on then apply_truncations expf lnf p l else l)).
  { simpl. apply (keeps_compose (λ l, if tr_on then apply_truncations expf lnf p l else l)
      (λ ls, if t_on && F32.gtb (temperature p) F32.zero then apply_temperature ls (temperature p) else ls)).
    - apply (keeps_if tr_on (apply_truncations expf lnf p) (λ l, l)); [apply truncations_keep | apply keeps_id].
    - destruct (t_on && F32.gtb (temperature p) F32.zero) eqn:E; [| apply keeps_id].
      apply andb_true_iff in E as [E1 E2]. apply temperature_keeps. by apply Ht. }
  destruct (Hkeep ls2) as [Hl Hm]. split; [etrans; [exact Hl | done] |].
  intros tok Hf Htok. apply Hm. subst ls2. apply apply_masks_forbidden; [done | by rewrite H1].
Qed.

(** What greedy sampling returns: the position of a largest prepared logit. *)
Lemma greedy_draw expf lnf next s (i : SamplingInput) entropy :
  si_logits i ≠ [] → (N.of_nat (length (si_logits i)) <= u32_max + 1)%N → is_greedy (si_params i) = true →
  all_num (prepare_logits expf lnf i false false) →
  ∃ k m, so_token_id (sample expf lnf next s i entropy).1 = N.of_nat k ∧ k < length (si_logits i)
    ∧ prepare_logits expf lnf i false false !! k = Some m
    ∧ (∀ j l, prepare_logits expf lnf i false false !! j = Some l →
         F32.ltb m l = false ∧ (k < j → F32.ltb l m = true))
    ∧ (sample expf lnf next s i entropy).2 = s.
Proof.
  intros Hne Hlen Hgreedy Hnum.
  destruct (prepare_logits_spec expf lnf i false false) as [Hl _]; [done |].
  destruct (argmax_spec (prepare_logits expf lnf i false false)) as (m & Hk & Hmax & Hlast); [| done |].
  { intros E. rewrite E in Hl. by destruct (si_logits i). }
  set (k := argmax_impl _) in *. exists k, m.
  assert (Hklt : k < length (si_logits i)) by (rewrite <- Hl; by eapply lookup_lt_Some).
  split_and!; [| done | done | |].
  - unfold sample. destruct (si_logits i) as [|l0 ls0] eqn:E; [done |]. rewrite Hgreedy. simpl negb.
    destruct (report_logprobs _ _ _ _). simpl. unfold greedy_sample. fold k.
    by apply (as_u32_index k (length (l0 :: ls0))).
  - intros j l Hj. split; [by apply (Hmax j) | by apply Hlast].
  - unfold sample. destruct (si_logits i); [done |]. rewrite Hgreedy. simpl negb.
    destruct (report_logprobs _ _ _ _). simpl. by destruct s.
Qed.

(** Greedy sampling: when the prepared logits are numbers, the token is the
    position of a largest one, the last of equal ones; it is a token of the
    vocabulary, and if any token is left unmasked it is not one that the allowed
    set, the bad words or [min_tokens] forbid. *)
Theorem greedy_respects_masks expf lnf next s (i : SamplingInput) entropy
    (Hne : si_logits i ≠ []) (Hlen : (N.of_nat (length (si_logits i)) <= u32_max + 1)%N)
    (Hgreedy : is_greedy (si_params i) = true)
    (Hnum : all_num (prepare_logits expf lnf i false false))
    (Hsome : ∃ j l, prepare_logits expf lnf i false false !! j = Some l ∧ F32.ltb neg_inf l = true) :
  ∃ k m, so_token_id (sample expf lnf next s i entropy).1 = N.of_nat k ∧ k < length (si_logits i)
    ∧ prepare_logits expf lnf i false false !! k = Some m
    ∧ (∀ j l, prepare_logits expf lnf i false false !! j = Some l →
         F32.ltb m l = false ∧ (k < j → F32.ltb l m = true))
    ∧ ¬ forbidden i k
    ∧ (sample expf lnf next s i entropy).2 = s.
Proof.
  destruct (greedy_draw expf lnf next s i entropy Hne Hlen Hgreedy Hnum) as (k & m & Htok & Hk & Hm & Hmax & Hs).
  exists k, m. split_and!; try done. intros Hf.
  pose proof (proj2 (prepare_logits_spec expf lnf i false false ltac:(done)) k Hf Hk) as Hmask.
  unfold masked in Hmask. rewrite Hm in Hmask. injection Hmask as ->.
  destruct Hsome as (j & l & Hj & Hlt). by rewrite (proj1 (Hmax j l Hj)) in Hlt.
Qed.

(** ** The random choice *)
Lemma pick_spec r probs : ∀ cumsum i k,
  F32.geb cumsum r = false → pick r cumsum i probs = Some k →
  i ≤ k ∧ ∃ c p, probs !! (k - i) = Some p ∧ F32.geb c r = false ∧ F32.geb (F32.add c p) r = true.
Proof.
  induction probs as [|p probs IH]; intros cumsum i k Hc Hp; simpl in Hp; [done |].
  destruct (F32.geb (F32.add cumsum p) r) eqn:E.
  - injection Hp as <-. split; [done |]. exists cumsum, p. by rewrite Nat.sub_diag.
  - destruct (IH _ _ _ E Hp) as (Hle & c & p' & Hl & H1 & H2). split; [lia |]. exists c, p'.
    replace (k - i) with (S (k - (i + 1))) by lia. done.
Qed.

Lemma max_num a b : num a → num (F32.max a b).
Proof. unfold num, F32.max. intros Ha. rewrite Ha. destruct (F32.is_nan b) eqn:E; [done |]. by destruct (F32.ltb a b). Qed.

Lemma fold_max_num ls : num (F32.fold_max ls).
Proof.
  unfold F32.fold_max. assert (H : ∀ a, num a → num (foldl F32.max a ls)); [| by apply H].
  induction ls as [|l ls IH]; intros a Ha; simpl; [done |]. by apply IH, max_num.
Qed.

Lemma exp_sum_lookup expf max ls : ∀ sum i l, ls !! i = Some l →
  (exp_sum expf max sum ls).1 !! i = Some (expf (F32.sub l max)).
Proof.
  induction ls as [|l0 ls IH]; intros sum [|i] l Hl; simplify_eq/=.
  - by destruct (exp_sum _ _ _ _).
  - specialize (IH (F32.add sum (expf (F32.sub l0 max))) i l Hl). by destruct (exp_sum _ _ _ _).
Qed.

Lemma exp_sum_length expf max ls : ∀ sum, length (exp_sum expf max sum ls).1 = length ls.
Proof.
  induction ls as [|l0 ls IH]; intros sum; simpl; [done |].
  specialize (IH (F32.add sum (expf (F32.sub l0 max)))). destruct (exp_sum _ _ _ _). simpl in *. by rewrite IH.
Qed.

Lemma softmax_length expf lnf ls : length (softmax_in_place expf lnf ls).1 = length ls.
Proof.
  unfold softmax_in_place. case_bool_decide; [done |]. destruct (F32.eqb _ _); [done |].
  pose proof (exp_sum_length expf (F32.fold_max ls) ls F32.zero). destruct (exp_sum _ _ _ _). simpl in *.
  by rewrite length_fmap.
Qed.

(** A masked logit never makes the cumulative sum reach a positive draw. *)
Lemma masked_never_reaches expf lnf ls k r c p :
  expf neg_inf = F32.zero → F32.gtb r F32.zero = true →
  ls !! k = Some neg_inf → (softmax_in_place expf lnf ls).1 !! k = Some p →
  F32.geb c r = false → F32.geb (F32.add c p) r = false.
Proof.
  intros Hexp Hr Hk Hp Hc. unfold softmax_in_place in Hp. rewrite bool_decide_eq_false_2 in Hp by (by intros ->).
  destruct (F32.eqb (F32.fold_max ls) neg_inf) eqn:Em.
  - simpl in Hp. rewrite Hk in Hp. injection Hp as <-.
    destruct r as [[]|[]| |[] ? ?], c as [[]|[]| |[] ? ?]; done.
  - pose proof (exp_sum_lookup expf (F32.fold_max ls) ls F32.zero k _ Hk) as He.
    destruct (exp_sum _ _ _ _) as [es sum]. cbn [fst] in He, Hp. rewrite list_lookup_fmap, He in Hp.
    rewrite sub_neg_infinity, Hexp in Hp by (apply fold_max_num || done).
    change (Some (F32.div F32.zero sum) = Some p) in Hp. apply Some_inj in Hp. subst p.
    destruct (div_zero false sum) as [E|[s' E]]; fold F32.zero in E; rewrite E.
    + rewrite add_nan_r. apply geb_nan.
    + by rewrite geb_add_zero.
Qed.

(** The random number a call to [sample] draws. *)
Definition drawn (next : R → f32 * R) (s : Sampler) (entropy : f32) : f32 :=
  match rng s with Some g => (next g).1 | None => entropy end.

(** What random sampling returns: the first position whose cumulative probability
    reaches the draw, and it is not masked. *)
Lemma random_draw expf lnf next s (i : SamplingInput) entropy k :
  expf neg_inf = F32.zero → si_logits i ≠ [] → (N.of_nat (length (si_logits i)) <= u32_max + 1)%N →
  is_greedy (si_params i) = false → F32.gtb (F32.div F32.one (temperature (si_params i))) F32.zero = true →
  F32.gtb (drawn next s entropy) F32.zero = true →
  pick (drawn next s entropy) F32.zero 0 (softmax_in_place expf lnf (prepare_logits expf lnf i true true)).1 = Some k →
  so_token_id (sample expf lnf next s i entropy).1 = N.of_nat k ∧ k < length (si_logits i)
  ∧ ¬ masked (prepare_logits expf lnf i true true) k.
Proof.
  intros Hexp Hne Hlen Hrandom Htemp Hdraw Hpick.
  destruct (prepare_logits_spec expf lnf i true true) as [Hl _]; [done |].
  set (ls := prepare_logits expf lnf i true true) in *.
  assert (Hz : F32.geb F32.zero (drawn next s entropy) = false).
  { unfold F32.geb. unfold F32.gtb in Hdraw. by destruct (drawn next s entropy) as [[]|[]| |[] ? ?]. }
  destruct (pick_spec _ _ _ _ _ Hz Hpick) as (_ & c & p & Hp & Hc & Hcp). rewrite Nat.sub_0_r in Hp.
  assert (Hk : k < length (si_logits i)).
  { rewrite <- Hl, <- (softmax_length expf lnf ls). by eapply lookup_lt_Some. }
  split_and!; [| done |].
  - unfold sample. destruct (si_logits i) as [|l0 ls0] eqn:E; [done |]. rewrite Hrandom. simpl negb. fold ls.
    assert (random_sample expf lnf next ls (rng s) entropy = (N.of_nat k,
      match rng s with Some g => Some (next g).2 | None => None end)) as ->.
    { unfold random_sample. unfold drawn in Hpick. destruct ls as [|l1 ls1]; [done |].
      assert (Hu : as_u32 (N.of_nat k) = N.of_nat k) by (by apply (as_u32_index k (length (l0 :: ls0)))).
      destruct (rng s) as [g|]; [destruct (next g) as [r g'] |]; unfold random_token; cbn [fst snd] in *;
        rewrite Hpick; cbn [from_option]; unfold id; by rewrite Hu. }
    by destruct (report_logprobs _ _ _ _).
  - intros Hmask. by rewrite (masked_never_reaches expf lnf ls k (drawn next s entropy) c p) in Hcp.
Qed.

(** Random sampling: when the draw is positive and the cumulative
    probabilities reach it, the token is the first at which they do, and it is
    not one that the allowed set, the bad words or [min_tokens] forbid.  [expf]
    gives 0 at minus infinity, and the temperature's inverse is positive. *)
Theorem random_respects_masks expf lnf next s (i : SamplingInput) entropy k
    (Hexp : expf neg_inf = F32.zero)
    (Hne : si_logits i ≠ []) (Hlen : (N.of_nat (length (si_logits i)) <= u32_max + 1)%N)
    (Hrandom : is_greedy (si_params i) = false)
    (Htemp : F32.gtb (F32.div F32.one (temperature (si_params i))) F32.zero = true)
    (Hdraw : F32.gtb (drawn next s entropy) F32.zero = true)
    (Hpick : pick (drawn next s entropy) F32.zero 0
               (softmax_in_place expf lnf (prepare_logits expf lnf i true true)).1 = Some k) :
  so_token_id (sample expf lnf next s i entropy).1 = N.of_nat k ∧ k < length (si_logits i) ∧ ¬ forbidden i k.
Proof.
  destruct (random_draw expf lnf next s i entropy k) as (Htok & Hk & Hmask); try done.
  split_and!; [done | done |]. intros Hf. apply Hmask.
  by apply (proj2 (prepare_logits_spec expf lnf i true true ltac:(done))).
Qed.
End sampler.

(** ** Top-k *)
Lemma desc_le_num a b : num a → num b → desc_le a b = negb (F32.ltb a b).
Proof.
  intros Ha Hb. unfold desc_le. f_equal. pose proof (cmp_gt b a Hb Ha) as Hc.
  destruct (F32.ltb a b); [apply bool_decide_eq_true; by apply Hc | apply bool_decide_eq_false].
  intros E. by apply Hc in E.
Qed.

Lemma desc_sorted ls : all_num ls → sorted_by desc_le (sort_by desc_le ls).
Proof.
  intros Hn. apply (sort_by_sorted desc_le num).
  - intros a b Ha Hb. rewrite !desc_le_num by done. destruct (F32.ltb a b) eqn:E; [right | by left].
    by rewrite ltb_asym.
  - intros a b c Ha Hb Hc. rewrite !desc_le_num, !negb_true_iff by done. by apply nltb_trans.
  - rewrite Forall_lookup. exact Hn.
Qed.

(** Top-k on numbers: the processor cuts below the (k+1)-th largest logit, so
    at least k+1 logits are left unchanged, at most k of them larger than the
    threshold, and all others become minus infinity. *)
Theorem top_k_threshold ls k
    (Hk : 0 < k < length ls) (Hn : all_num ls) :
  ∃ threshold, apply_top_k ls (Z.of_nat k) = cut_below threshold ls ∧ threshold ∈ ls
    ∧ k + 1 ≤ length (filter (λ l, F32.ltb l threshold = false) ls)
    ∧ length (filter (λ l, F32.ltb threshold l = true) ls) ≤ k.
Proof.
  pose proof (desc_sorted ls Hn) as Hs. pose proof (sort_by_perm desc_le ls) as Hp.
  set (S := sort_by desc_le ls) in *.
  assert (Hlen : length S = length ls) by (by rewrite Hp).
  destruct (lookup_lt_is_Some_2 S k ltac:(lia)) as [t Ht]. exists t.
  assert (HnS : ∀ j x, S !! j = Some x → num x).
  { intros j x Hx. assert (x ∈ ls) as Hin by (rewrite <- Hp; by eapply list_elem_of_lookup_2).
    apply list_elem_of_lookup in Hin as [n Hx']. by apply (Hn n). }
  assert (Hord : ∀ i j a b, i ≤ j → S !! i = Some a → S !! j = Some b → F32.ltb a b = false).
  { intros i j a b Hij Ha Hb. destruct (decide (i = j)) as [->|Hne].
    - simplify_eq. apply ltb_irrefl.
    - pose proof (sorted_by_lookup desc_le S i j a b Hs ltac:(lia) Ha Hb) as Hd.
      by rewrite desc_le_num, negb_true_iff in Hd by eauto. }
  split_and!.
  - unfold apply_top_k. rewrite (proj2 (Z.leb_gt _ _)), Nat2Z.id, (proj2 (Nat.leb_gt _ _)) by lia. fold S. by rewrite Ht.
  - rewrite <- Hp. by eapply list_elem_of_lookup_2.
  - rewrite <- Hp. rewrite <- (take_drop (k + 1) S), filter_app, length_app.
    rewrite (filter_id _ (take (k + 1) S)).
    + rewrite length_take. lia.
    + intros x Hx. apply list_elem_of_lookup in Hx as [j Hj]. apply lookup_take_Some in Hj as [Hj Hlt].
      apply (Hord j k x t); [lia | done | done].
  - rewrite <- Hp. rewrite <- (take_drop k S), filter_app, length_app.
    assert (filter (λ l, F32.ltb t l = true) (drop k S) = []) as ->.
    { destruct (filter _ (drop k S)) as [|x l] eqn:E; [done |]. exfalso.
      assert (x ∈ filter (λ l, F32.ltb t l = true) (drop k S)) as Hx by (rewrite E; by left).
      apply list_elem_of_filter in Hx as [Hx Hin]. apply list_elem_of_lookup in Hin as [j Hj]. rewrite lookup_drop in Hj.
      by rewrite (Hord k (k + j) t x ltac:(lia) Ht Hj) in Hx. }
    simpl. pose proof (length_filter (λ l, F32.ltb t l = true) (take k S)) as Hl. rewrite length_take in Hl. lia.
Qed.

(** ** Concrete runs *)
Lemma all_num_check ls : forallb (λ l, negb (F32.is_nan l)) ls = true → all_num ls.
Proof.
  intros H j l Hj. rewrite forallb_forall in H. apply list_elem_of_lookup_2, list_elem_of_In in Hj.
  by apply H, negb_true_iff in Hj.
Qed.

Definition demo_params (t : f32) (allowed : list TokenId) : SamplingParams unit :=
  let d := SamplingParams_default (Value := unit) in
  mkSamplingParams (sp_n d) (best_of d) (presence_penalty d) (frequency_penalty d) (repetition_penalty d)
    t (top_p d) (top_k d) (min_p d) (seed d) (stop d) (stop_token_ids d) (ignore_eos d) (max_tokens d)
    (min_tokens d) (logprobs d) (prompt_logprobs d) (detokenize d) (skip_special_tokens d)
    (spaces_between_special_tokens d) (include_stop_str_in_output d) (output_kind d) (logit_bias d)
    (Some (list_to_set allowed)) (bad_words d) (structured_outputs d) (skip_reading_prefix_cache d)
    (speculative_decoding d).

Definition demo_input (t : f32) (allowed : list TokenId) : SamplingInput (Value := unit) :=
  mkSamplingInput (F32.of_Z <$> [1; 2; 3]%Z) (demo_params t allowed) [] 0 9 [].

(** Flat probabilities over the unmasked tokens. *)
Definition demo_exp (x : f32) : f32 := if F32.eqb x neg_inf then F32.zero else F32.one.
Definition demo_ln (_ : f32) : f32 := F32.zero.
Definition demo_next (g : f32) : f32 * f32 := (g, g).
Definition half : f32 := F32.div F32.one F32.two.

Lemma greedy_respects_masks_witness :
  ∃ k m, so_token_id (sample demo_exp demo_ln demo_next sampler_new (demo_input F32.zero [0; 1]%N) F32.zero).1 = N.of_nat k
    ∧ prepare_logits demo_exp demo_ln (demo_input F32.zero [0; 1]%N) false false !! k = Some m
    ∧ ¬ forbidden (demo_input F32.zero [0; 1]%N) k.
Proof.
  destruct (greedy_respects_masks demo_exp demo_ln demo_next sampler_new (demo_input F32.zero [0; 1]%N) F32.zero)
    as (k & m & H1 & _ & H2 & _ & H3 & _).
  - discriminate.
  - vm_compute. discriminate.
  - reflexivity.
  - apply all_num_check. vm_compute. reflexivity.
  - exists 1. eexists. split; vm_compute; reflexivity.
  - exists k, m. split_and!; [exact H1 | exact H2 | exact H3].
Defined.

Lemma random_respects_masks_witness :
  so_token_id (sample demo_exp demo_ln demo_next sampler_new (demo_input F32.one [1; 2]%N) half).1 = 1%N
  ∧ ¬ forbidden (demo_input F32.one [1; 2]%N) 1.
Proof.
  destruct (random_respects_masks demo_exp demo_ln demo_next sampler_new (demo_input F32.one [1; 2]%N) half 1)
    as (H1 & _ & H2);
    [vm_compute; reflexivity | discriminate | vm_compute; discriminate | reflexivity
    | vm_compute; reflexivity | vm_compute; reflexivity | vm_compute; reflexivity |].
  split; [exact H1 | exact H2].
Defined.

Lemma top_k_threshold_witness :
  ∃ threshold, apply_top_k (F32.of_Z <$> [4; 3; 2; 1]%Z) 2 = cut_below threshold (F32.of_Z <$> [4; 3; 2; 1]%Z)
    ∧ 3 ≤ length (filter (λ l, F32.ltb l threshold = false) (F32.of_Z <$> [4; 3; 2; 1]%Z)).
Proof.
  destruct (top_k_threshold (F32.of_Z <$> [4; 3; 2; 1]%Z) 2) as (t & H1 & _ & H2 & _).
  - simpl. lia.
  - apply all_num_check. vm_compute. reflexivity.
  - exists t. split; [exact H1 | exact H2].
Defined.

(** Top-2 of four different logits leaves three. *)
Example top_k_keeps_one_more :
  apply_top_k (F32.of_Z <$> [4; 3; 2; 1]%Z) 2 = (F32.of_Z <$> [4; 3; 2]%Z) ++ [neg_inf].
Proof. vm_compute. reflexivity. Qed.

(** A draw of 0 picks token 0, allowed or not. *)
Example zero_draw_ignores_masks :
  so_token_id (sample demo_exp demo_ln demo_next sampler_new (demo_input F32.one [1; 2]%N) F32.zero).1 = 0%N
  ∧ forbidden (demo_input F32.one [1; 2]%N) 0.
Proof.
  split; [vm_compute; reflexivity |]. left. exists (list_to_set [1; 2]%N). split_and!; [reflexivity | |].
  - intros H. assert (1%N ∈ (list_to_set [1; 2]%N : gset N)) as H1 by set_solver. rewrite H in H1. set_solver.
  - change (as_u32 (N.of_nat 0)) with 0%N. set_solver.
Qed.
