(* ===== verification/Utf8.v ===== *)
(** * UTF-8 strings

    What the detokenizer uses of Rust's [str]: a string is its list of bytes (each
    below 256).  [from_utf8_lossy] replaces every maximal part that cannot
    continue to a character by U+FFFD; slicing panics inside a character. *)
From S2P Require Import Prelude.

Abbreviation bytes := (list N) (only parsing).

Definition in_range (lo hi b : N) : bool := (lo <=? b)%N && (b <=? hi)%N.
Definition is_cont (b : N) : bool := in_range 128 191 b.

(** The bytes that may follow a lead byte: the range of the second byte and the
    number of further continuation bytes. *)
Definition lead_info (b : N) : option (N * N * nat) :=
  if in_range 194 223 b then Some (128%N, 191%N, 0)
  else if (b =? 224)%N then Some (160%N, 191%N, 1)
  else if in_range 225 236 b then Some (128%N, 191%N, 1)
  else if (b =? 237)%N then Some (128%N, 159%N, 1)
  else if in_range 238 239 b then Some (128%N, 191%N, 1)
  else if (b =? 240)%N then Some (144%N, 191%N, 2)
  else if in_range 241 243 b then Some (128%N, 191%N, 2)
  else if (b =? 244)%N then Some (128%N, 143%N, 2)
  else None.

(** Continuation bytes at the front, at most [k]. *)
Fixpoint take_cont (k : nat) (l : bytes) : bytes :=
  match k, l with
  | S k, b :: l => if is_cont b then b :: take_cont k l else []
  | _, _ => []
  end.

(** The first part of a non-empty byte string: how long it is and whether it is
    a character. *)
Definition first_part (b : N) (l : bytes) : nat * bool :=
  if (b <? 128)%N then (1, true)
  else match lead_info b with
       | None => (1, false)
       | Some (lo, hi, k) =>
           match l with
           | c :: l =>
               if in_range lo hi c
               then let n := length (take_cont k l) in (2 + n, n =? k)
               else (1, false)
           | [] => (1, false)
           end
       end.

Definition replacement : bytes := [239; 191; 189]%N.

Fixpoint lossy (fuel : nat) (l : bytes) : bytes :=
  match fuel, l with
  | S fuel, b :: rest =>
      let '(n, ok) := first_part b rest in
      (if ok then take n l else replacement) ++ lossy fuel (drop n l)
  | _, _ => []
  end.

Definition from_utf8_lossy (l : bytes) : bytes := lossy (length l) l.

(** One encoded character. *)
Definition is_char (c : bytes) : bool :=
  match c with
  | [] => false
  | b :: l => let '(n, ok) := first_part b l in ok && (n =? length c)
  end.

Definition utf8 (s : bytes) : Prop := ∃ cs, Forall (λ c, is_char c = true) cs ∧ s = concat cs.

Definition ascii (s : bytes) : Prop := Forall (λ b, (b < 128)%N) s.

(** [s.is_char_boundary(n)] *)
Definition is_char_boundary (s : bytes) (n : nat) : bool :=
  (n =? 0) || (n =? length s)
  || match s !! n with Some b => negb (is_cont b) | None => false end.

(** [&s[..n]] and [&s[n..]] *)
Definition slice_to (s : bytes) (n : nat) : option bytes :=
  if is_char_boundary s n then Some (take n s) else None.
Definition slice_from (s : bytes) (n : nat) : option bytes :=
  if is_char_boundary s n then Some (drop n s) else None.

(** [s.find(pat)], the first position where [pat] occurs, and [s.rfind(pat)]. *)
Definition starts_with (s pat : bytes) : bool := bool_decide (take (length pat) s = pat).
Fixpoint find (s pat : bytes) : option nat :=
  if starts_with s pat then Some 0
  else match s with
       | [] => None
       | _ :: s => S <$> find s pat
       end.
Definition contains (s pat : bytes) : bool := match find s pat with Some _ => true | None => false end.
Fixpoint rfind (s pat : bytes) : option nat :=
  match s with
  | [] => if starts_with s pat then Some 0 else None
  | _ :: s' =>
      match rfind s' pat with
      | Some i => Some (S i)
      | None => if starts_with s pat then Some 0 else None
      end
  end.

(** ** Lemmas *)
Lemma take_cont_app k l r : length (take_cont k l) = k → take_cont k (l ++ r) = take_cont k l.
Proof.
  revert l. induction k as [|k IH]; intros [|b l]; simpl; try done.
  destruct (is_cont b); simpl; [| done]. intros [= H]. by rewrite IH.
Qed.

Lemma take_cont_le k l : length (take_cont k l) ≤ length l.
Proof.
  revert l. induction k as [|k IH]; intros [|b l]; simpl; try lia.
  destruct (is_cont b); simpl; [| lia]. specialize (IH l). lia.
Qed.

Lemma first_part_app b l r n : first_part b l = (n, true) → first_part b (l ++ r) = (n, true).
Proof.
  unfold first_part. destruct (b <? 128)%N; [done |]. destruct (lead_info b) as [[[lo hi] k]|]; [| done].
  destruct l as [|c l]; simpl; [done |]. destruct (in_range lo hi c); [| done].
  intros [= <- Hk]. apply Nat.eqb_eq in Hk. rewrite take_cont_app by done. by rewrite Hk, Nat.eqb_refl.
Qed.

Lemma is_char_inv c : is_char c = true → ∃ b l, c = b :: l ∧ first_part b l = (length c, true).
Proof.
  destruct c as [|b l]; [done |]. unfold is_char. destruct (first_part b l) as [n ok] eqn:E.
  rewrite andb_true_iff, Nat.eqb_eq. intros [-> ->]. eauto.
Qed.

Lemma lossy_char fuel c r : is_char c = true → lossy (S fuel) (c ++ r) = c ++ lossy fuel r.
Proof.
  intros (b & l & -> & Hf)%is_char_inv. cbn [lossy app]. rewrite (first_part_app b l r _ Hf).
  rewrite app_comm_cons, take_app_length, drop_app_length. done.
Qed.

Lemma lossy_concat cs : ∀ fuel, Forall (λ c, is_char c = true) cs → length (concat cs) ≤ fuel →
  lossy fuel (concat cs) = concat cs.
Proof.
  induction cs as [|c cs IH]; intros fuel Hcs Hf; [by destruct fuel |].
  apply Forall_cons in Hcs as [Hc Hcs]. cbn [concat] in *. rewrite length_app in Hf.
  assert (0 < length c) by (destruct c; [done | simpl; lia]).
  destruct fuel as [|fuel]; [lia |]. rewrite lossy_char by done. f_equal. apply IH; [done | lia].
Qed.

(** A valid string decodes to itself. *)
Lemma from_utf8_lossy_valid s : utf8 s → from_utf8_lossy s = s.
Proof. intros (cs & Hcs & ->). by apply lossy_concat. Qed.

Lemma ascii_utf8 s : ascii s → utf8 s.
Proof.
  intros Hs. exists ((λ b, [b]) <$> s). split.
  - apply Forall_fmap. eapply Forall_impl; [exact Hs |]. intros b Hb. simpl.
    unfold first_part. by rewrite (proj2 (N.ltb_lt _ _)).
  - induction s as [|b s IH]; [done |]. apply Forall_cons in Hs as [_ Hs]. simpl. f_equal. by apply IH.
Qed.

Lemma utf8_app s t : utf8 s → utf8 t → utf8 (s ++ t).
Proof.
  intros (cs & Hc & ->) (ds & Hd & ->). exists (cs ++ ds). split; [by apply Forall_app | by rewrite concat_app].
Qed.

Lemma ascii_boundary s n : ascii s → n ≤ length s → is_char_boundary s n = true.
Proof.
  intros Hs Hn. unfold is_char_boundary. destruct (Nat.eqb_spec n 0); [done |].
  destruct (Nat.eqb_spec n (length s)); [done |]. simpl.
  destruct (lookup_lt_is_Some_2 s n ltac:(lia)) as [b Hb]. rewrite Hb.
  pose proof (proj1 (Forall_lookup _ _) Hs) as Hs1. specialize (Hs1 n b Hb). unfold is_cont, in_range.
  by rewrite (proj2 (N.leb_gt 128 b)).
Qed.

Lemma starts_with_spec s pat : starts_with s pat = true ↔ pat `prefix_of` s.
Proof.
  unfold starts_with. rewrite bool_decide_eq_true. split.
  - intros <-. exists (drop (length (take (length pat) s)) s). rewrite length_take.
    destruct (decide (length pat ≤ length s)).
    + rewrite Nat.min_l by done. by rewrite take_drop.
    + rewrite Nat.min_r by lia. rewrite drop_ge, app_nil_r by done. rewrite take_ge by lia. done.
  - intros [k ->]. by rewrite take_app_length.
Qed.

(** [pat] occurs at [i]. *)
Definition occurs_at (s pat : bytes) (i : nat) : Prop := i ≤ length s ∧ pat `prefix_of` drop i s.

Lemma find_spec s pat :
  match find s pat with
  | Some i => occurs_at s pat i ∧ ∀ j, j < i → ¬ occurs_at s pat j
  | None => ∀ j, ¬ occurs_at s pat j
  end.
Proof.
  induction s as [|b s IH]; simpl.
  - destruct (starts_with [] pat) eqn:E.
    + split; [| lia]. split; [done |]. by apply starts_with_spec.
    + intros j [Hj Hp]. simpl in Hj. assert (j = 0) as -> by lia. apply starts_with_spec in Hp. simpl in Hp. congruence.
  - destruct (starts_with (b :: s) pat) eqn:E.
    + split; [| lia]. split; [simpl; lia |]. by apply starts_with_spec.
    + assert (H0 : ¬ occurs_at (b :: s) pat 0).
      { intros [_ Hp]. apply starts_with_spec in Hp. simpl in Hp. congruence. }
      destruct (find s pat) as [i|]; simpl.
      * destruct IH as [[Hi Hp] Hmin]. split; [split; [simpl; lia | done] |].
        intros [|j] Hj; [done |]. intros [Hj1 Hj2]. apply (Hmin j); [lia |]. split; [simpl in Hj1; lia | done].
      * intros [|j]; [done |]. intros [Hj1 Hj2]. apply (IH j). split; [simpl in Hj1; lia | done].
Qed.

Lemma contains_spec s pat : contains s pat = true ↔ ∃ i, occurs_at s pat i.
Proof.
  unfold contains. pose proof (find_spec s pat) as H. destruct (find s pat) as [i|].
  - split; [intros _; exists i; apply H | done].
  - split; [done |]. intros [i Hi]. by apply H in Hi.
Qed.
