(* ===== verification/Text.v ===== *)
(** * Text

    What the server uses of Rust's [str] beyond UTF-8 itself: the bytes of a
    string, trimming, prefixes and suffixes, and where an ASCII pattern can
    occur in valid UTF-8. *)
From S2P Require Import Prelude Utf8.
#[local] Open Scope list_scope.
#[local] Open Scope nat_scope.

Fixpoint bytes_of (s : string) : bytes :=
  match s with
  | EmptyString => []
  | String a s => Ascii.N_of_ascii a :: bytes_of s
  end.

Fixpoint string_of (l : bytes) : string :=
  match l with
  | [] => EmptyString
  | b :: l => String (Ascii.ascii_of_N b) (string_of l)
  end.

(** [&s[a..b]] *)
Definition slice_range (s : bytes) (a b : nat) : option bytes :=
  if (a <=? b) && is_char_boundary s a && is_char_boundary s b then Some (take (b - a) (drop a s)) else None.

(** [s.strip_prefix(pat)] and [s.strip_suffix(pat)] *)
Definition strip_prefix (s pat : bytes) : option bytes :=
  if starts_with s pat then Some (drop (length pat) s) else None.
Definition strip_suffix (s pat : bytes) : option bytes :=
  if (length pat <=? length s) && bool_decide (drop (length s - length pat) s = pat)
  then Some (take (length s - length pat) s) else None.

(** The characters with the Unicode property White_Space, encoded. *)
Definition whitespace : list bytes :=
  [[9]; [10]; [11]; [12]; [13]; [32]; [194; 133]; [194; 160]; [225; 154; 128]]%N
  ++ ((λ k, [226; 128; 128 + N.of_nat k]%N) <$> seq 0 11)
  ++ [[226; 128; 168]; [226; 128; 169]; [226; 128; 175]; [226; 129; 159]; [227; 128; 128]]%N.

(** The first of the patterns that strips. *)
Fixpoint strip_any (strip : bytes → bytes → option bytes) (pats : list bytes) (s : bytes) : option bytes :=
  match pats with
  | [] => None
  | p :: pats => match strip s p with Some t => Some t | None => strip_any strip pats s end
  end.

Fixpoint trim_with (strip : bytes → bytes → option bytes) (fuel : nat) (s : bytes) : bytes :=
  match fuel with
  | 0 => s
  | S fuel => match strip_any strip whitespace s with Some t => trim_with strip fuel t | None => s end
  end.

(** [s.trim()]; every step removes at least a byte, so the length is fuel enough. *)
Definition trim_start (s : bytes) : bytes := trim_with strip_prefix (length s) s.
Definition trim_end (s : bytes) : bytes := trim_with strip_suffix (length s) s.
Definition trim (s : bytes) : bytes := trim_end (trim_start s).

(** ** Strings and bytes *)
Lemma string_of_bytes s : string_of (bytes_of s) = s.
Proof. induction s as [|a s IH]; cbn; [done |]. by rewrite Ascii.ascii_N_embedding, IH. Qed.

Lemma bytes_of_string l : Forall (λ b, (b < 256)%N) l → bytes_of (string_of l) = l.
Proof. induction 1 as [|b l Hb _ IH]; cbn; [done |]. by rewrite Ascii.N_ascii_embedding, IH. Qed.

Lemma bytes_of_length s : length (bytes_of s) = String.length s.
Proof. induction s; cbn; congruence. Qed.

Lemma bytes_of_inj s t : bytes_of s = bytes_of t → s = t.
Proof. intros H%(f_equal string_of). by rewrite !string_of_bytes in H. Qed.

Lemma bytes_of_app s t : bytes_of (s +:+ t) = bytes_of s ++ bytes_of t.
Proof. induction s as [|a s IH]; [done |]. change (Ascii.N_of_ascii a :: bytes_of (s +:+ t) = Ascii.N_of_ascii a :: (bytes_of s ++ bytes_of t)). by rewrite IH. Qed.

(** ** Splitting valid UTF-8 at an ASCII byte *)
Lemma ascii_char c b : is_char c = true → b ∈ c → (b < 128)%N → c = [b].
Proof.
  intros (x & l & -> & H)%is_char_inv Hb Hlt. unfold first_part in H.
  destruct (N.ltb_spec x 128).
  { injection H as H. destruct l; [| done]. by apply list_elem_of_singleton in Hb as ->. }
  exfalso. destruct (lead_info x) as [[[lo hi] k]|] eqn:Elead; [| done]. destruct l as [|y l]; [done |].
  destruct (in_range lo hi y) eqn:Ey; [| done]. injection H as Hlen Hk.
  assert (Hlo : (128 <= lo)%N).
  { unfold lead_info in Elead. repeat (case_match; [simplify_eq; lia |]). done. }
  apply elem_of_cons in Hb as [->|Hb]; [lia |].
  unfold in_range in Ey. apply andb_true_iff in Ey as [Ey%N.leb_le _].
  apply elem_of_cons in Hb as [->|Hb]; [lia |].
  cbn [length] in Hlen. assert (Hall : Forall (λ z, is_cont z = true) l).
  { assert (E : length (take_cont k l) = length l) by lia. clear -E. revert k E.
    induction l as [|z l IH]; intros [|k]; cbn; [constructor.. | done |].
    destruct (is_cont z) eqn:Ez; [| done]. cbn. intros E. constructor; [done |]. by apply (IH k); lia. }
  rewrite Forall_forall in Hall. apply Hall in Hb. unfold is_cont, in_range in Hb.
  apply andb_true_iff in Hb as [Hb%N.leb_le _]. lia.
Qed.

Lemma utf8_split l b r : utf8 (l ++ b :: r) → (b < 128)%N → utf8 l ∧ utf8 (b :: r) ∧ utf8 r.
Proof.
  intros (cs & Hcs & E) Hb. revert l E. induction Hcs as [|c cs Hc Hcs IH]; intros l E; cbn in E; [by destruct l |].
  destruct (decide (length c ≤ length l)) as [Hle|Hgt].
  - assert (El : l = c ++ drop (length c) l).
    { rewrite <- (take_drop (length c) l) at 1. f_equal.
      rewrite <- (take_app_le l (b :: r)), E by done. apply take_app_length. }
    rewrite El, <- app_assoc in E. apply app_inv_head in E.
    destruct (IH _ E) as (H1 & H2 & H3). split_and!; [| done | done].
    rewrite El. apply utf8_app; [| done]. exists [c]. split; [by constructor |]. cbn. by rewrite app_nil_r.
  - assert (Hbc : b ∈ c).
    { apply (list_elem_of_lookup_2 _ (length l)). rewrite <- (lookup_app_l c (concat cs)), <- E by lia.
      by rewrite lookup_app_r, Nat.sub_diag by lia. }
    pose proof (ascii_char c b Hc Hbc Hb) as ->. destruct l as [|x l]; [| cbn in Hgt; lia]. cbn in E. injection E as ->.
    assert (Hr : utf8 (concat cs)) by (by exists cs).
    split_and!; [by exists [] | | done]. exists ([b] :: cs). split; [| done].
    constructor; [| done]. unfold is_char, first_part. by rewrite (proj2 (N.ltb_lt _ _) Hb).
Qed.

Lemma char_head c b l : is_char c = true → c = b :: l → is_cont b = false.
Proof.
  intros Hc ->. destruct (is_cont b) eqn:E; [exfalso | done]. unfold is_cont, in_range in E.
  apply andb_true_iff in E as [H1%N.leb_le H2%N.leb_le]. cbn [is_char] in Hc. unfold first_part in Hc.
  rewrite (proj2 (N.ltb_ge _ _)) in Hc by lia.
  assert (lead_info b = None) as E. { unfold lead_info, in_range. repeat (rewrite (proj2 (N.leb_gt _ _)) by lia; cbn [andb]). rewrite !(proj2 (N.eqb_neq _ _)) by lia. done. }
  by rewrite E in Hc.
Qed.

(** A position where valid UTF-8 starts is a boundary. *)
Lemma utf8_boundary l r : utf8 r → is_char_boundary (l ++ r) (length l) = true.
Proof.
  intros (cs & Hcs & ->). unfold is_char_boundary. apply orb_true_iff.
  destruct cs as [|c cs].
  { left. apply orb_true_iff. right. cbn. rewrite app_nil_r. apply Nat.eqb_refl. }
  inversion Hcs as [|? ? Hc _]; subst. destruct (is_char_inv c Hc) as (b & t & -> & _).
  right. rewrite lookup_app_r, Nat.sub_diag by lia. cbn. by rewrite (char_head _ _ _ Hc eq_refl).
Qed.

(** An ASCII pattern that occurs in valid UTF-8 splits it into valid pieces. *)
Lemma utf8_around l pat r : utf8 (l ++ pat ++ r) → ascii pat → pat ≠ [] → utf8 l ∧ utf8 r.
Proof.
  intros H Ha Hne. destruct pat as [|b pat]; [done |]. inversion Ha as [|? ? Hb Hp]; subst. cbn in H.
  destruct (utf8_split _ _ _ H Hb) as (Hl & _ & Hr). split; [done |]. clear Hne Ha Hb H.
  induction Hp as [|c pat Hc Hp IH]; [done |]. cbn in Hr.
  destruct (utf8_split [] _ _ Hr Hc) as (_ & _ & Hr'). by apply IH.
Qed.

(** ** The first occurrence of a pattern *)
Definition free (s pat : bytes) : Prop := contains s pat = false.

Lemma free_spec s pat : free s pat ↔ ∀ i, ¬ occurs_at s pat i.
Proof.
  unfold free. rewrite <- not_true_iff_false, contains_spec. split; [intros H i Hi; by apply H; exists i | by intros H [i Hi%H]].
Qed.

Lemma find_free s pat : free s pat ↔ find s pat = None.
Proof. unfold free, contains. by destruct (find s pat). Qed.

Lemma find_split s pat i : pat ≠ [] → find s pat = Some i →
  ∃ l r, s = l ++ pat ++ r ∧ length l = i ∧ free l pat.
Proof.
  intros Hne H. pose proof (find_spec s pat) as Hs. rewrite H in Hs. destruct Hs as [[Hi [r Hr]] Hmin].
  exists (take i s), r. split; [by rewrite <- Hr, take_drop |]. split; [rewrite length_take; lia |].
  apply free_spec. intros j [Hj [t Ht]]. rewrite length_take in Hj. rewrite Nat.min_l in Hj by lia.
  assert (j < i).
  { destruct (decide (j = i)) as [->|]; [| lia]. rewrite drop_ge in Ht by (rewrite length_take; lia). by destruct pat. }
  apply (Hmin j); [done |]. split; [lia |]. exists (t ++ drop i s).
  rewrite <- (take_drop i s) at 1. rewrite drop_app_le by (rewrite length_take; lia). by rewrite Ht, <- app_assoc.
Qed.

(** A pattern whose first byte does not come back in it cannot overlap itself. *)
Lemma find_first b p l r : b ∉ p → free l (b :: p) → find (l ++ (b :: p) ++ r) (b :: p) = Some (length l).
Proof.
  intros Hb Hl. pose proof (find_spec (l ++ (b :: p) ++ r) (b :: p)) as Hs.
  assert (Hocc : occurs_at (l ++ (b :: p) ++ r) (b :: p) (length l)).
  { split; [rewrite length_app; lia |]. rewrite drop_app_length. by exists r. }
  destruct (find _ _) as [i|]; [| by apply Hs in Hocc]. destruct Hs as [[Hi [t Ht]] Hmin].
  destruct (lt_eq_lt_dec i (length l)) as [[Hlt| ->]|Hgt]; [exfalso | done | by apply Hmin in Hgt].
  rewrite drop_app_le in Ht by lia.
  destruct (decide (length (b :: p) ≤ length (drop i l))) as [Hle|Hgt].
  - apply (proj1 (free_spec _ _) Hl i). split; [lia |]. exists (drop (length (b :: p)) (drop i l)).
    rewrite <- (take_drop (length (b :: p)) (drop i l)) at 1. f_equal.
    rewrite <- (take_app_le _ ((b :: p) ++ r)), Ht by done. by rewrite take_app_length.
  - assert (E : (drop i l ++ (b :: p) ++ r) !! length (drop i l) = Some b) by (by rewrite lookup_app_r, Nat.sub_diag by lia).
    rewrite Ht, lookup_app_l in E by lia. rewrite length_drop in *. destruct (length l - i) as [|k] eqn:Ek; [lia |].
    cbn in E. by apply Hb, (list_elem_of_lookup_2 _ _ _ E).
Qed.
