(* ===== verification/OpenAi.v ===== *)
(** * The OpenAI protocol layer (rllm-server/src/openai.rs)

    Requests and responses, the validation of structured outputs, tools and
    messages, the conversion to sampling parameters and to the chat template's
    inputs, and the extraction of tool calls from a model's text.

    Reading and writing JSON text is serde_json's: parameters.  The fields a
    derived [Serialize] writes are those of the declarations, keys sorted as in
    serde_json's default map.  Random UUIDs are a parameter: the identifier of the
    [k]-th call of a response is [call_] followed by [uuid k]. *)
From S2P Require Import Prelude F32 CoreTypes Request Json Utf8 Text.
#[local] Open Scope string_scope.
#[local] Open Scope list_scope.
#[local] Open Scope nat_scope.
#[local] Open Scope rllm_scope.

(** ** Requests *)
Record FunctionCall : Type := mkFunctionCall { fc_name : string; fc_arguments : string }.
Record ToolCall : Type := mkToolCall { tc_id : string; tc_type : string; tc_function : FunctionCall }.

Record ChatMessage : Type := mkMessage {
  cm_role : string;
  cm_content : option string;
  cm_name : option string;
  cm_tool_call_id : option string;
  cm_tool_calls : option (list ToolCall);
}.

Record FunctionDefinition : Type := mkFunctionDefinition {
  fd_name : string;
  fd_description : option string;
  fd_parameters : option Json;
  fd_strict : option bool;
}.
Record ChatCompletionTool : Type := mkTool { tool_type : string; tool_function : FunctionDefinition }.

Inductive ToolChoiceMode : Type := TC_None | TC_Auto | TC_Required.
Record NamedToolChoice : Type := mkNamedToolChoice { nc_type : string; nc_name : string }.
Inductive ToolChoice : Type :=
  | Mode (m : ToolChoiceMode)
  | Named (c : NamedToolChoice).

Inductive StopSequence : Type :=
  | StopSingle (s : string)
  | StopMultiple (l : list string).

Record ResponseFormatJsonSchema : Type := mkResponseFormatJsonSchema {
  rf_name : string;
  rf_description : option string;
  rf_schema : Json;
  rf_strict : option bool;
}.
Inductive ResponseFormat : Type :=
  | RF_Text
  | RF_JsonObject
  | RF_JsonSchema (s : ResponseFormatJsonSchema).

Record ChatCompletionRequest : Type := mkChatRequest {
  cr_model : string;
  cr_messages : list ChatMessage;
  cr_temperature : option f32;
  cr_top_p : option f32;
  cr_max_tokens : option N;
  cr_stream : option bool;
  cr_stop : option StopSequence;
  cr_n : option N;
  cr_logprobs : option bool;
  cr_top_logprobs : option N;
  cr_presence_penalty : option f32;
  cr_frequency_penalty : option f32;
  cr_seed : option N;
  cr_structured_outputs : option (StructuredOutputParams Json);
  cr_response_format : option ResponseFormat;
  cr_tools : option (list ChatCompletionTool);
  cr_tool_choice : option ToolChoice;
  cr_parallel_tool_calls : option bool;
}.

Inductive PromptInput : Type :=
  | PromptSingle (s : string)
  | PromptMultiple (l : list string).

Record CompletionRequest : Type := mkCompletionRequest {
  pr_model : string;
  pr_prompt : PromptInput;
  pr_suffix : option string;
  pr_temperature : option f32;
  pr_top_p : option f32;
  pr_max_tokens : option N;
  pr_stream : option bool;
  pr_stop : option StopSequence;
  pr_n : option N;
  pr_logprobs : option N;
  pr_presence_penalty : option f32;
  pr_frequency_penalty : option f32;
  pr_seed : option N;
  pr_structured_outputs : option (StructuredOutputParams Json);
  pr_response_format : option ResponseFormat;
}.

(** ** Responses *)
Record UsageInfo : Type := mkUsageInfo { ui_prompt_tokens : N; ui_completion_tokens : N; ui_total_tokens : N }.

Record ChatResponseMessage : Type := mkResponseMessage {
  rm_role : string;
  rm_content : option string;
  rm_tool_calls : option (list ToolCall);
}.
Record ChatChoice : Type := mkChatChoice {
  cc_index : N;
  cc_message : ChatResponseMessage;
  cc_finish_reason : option string;
}.
Record CompletionChoice : Type := mkCompletionChoice {
  pc_index : N;
  pc_text : string;
  pc_finish_reason : option string;
}.

Record FunctionCallDelta : Type := mkFunctionCallDelta { fcd_name : option string; fcd_arguments : option string }.
Record ToolCallDelta : Type := mkToolCallDelta {
  td_index : N;
  td_id : option string;
  td_type : option string;
  td_function : option FunctionCallDelta;
}.
Record ChunkDelta : Type := mkChunkDelta {
  cd_role : option string;
  cd_content : option string;
  cd_tool_calls : option (list ToolCallDelta);
}.
Record ChunkChoice : Type := mkChunkChoice {
  ck_index : N;
  ck_delta : ChunkDelta;
  ck_finish_reason : option string;
}.

Record ParsedChatOutput : Type := mkParsed {
  po_content : option string;
  po_tool_calls : option (list ToolCall);
}.

(** ** Sampling parameters *)
Definition extract_stop_strings (stop : option StopSequence) : list string :=
  match stop with
  | Some (StopSingle s) => [s]
  | Some (StopMultiple v) => v
  | None => []
  end.

Definition request_structured_outputs (so : option (StructuredOutputParams Json)) (rf : option ResponseFormat) :
    option (StructuredOutputParams Json) :=
  match so with
  | Some p => Some p
  | None =>
      match rf with
      | Some RF_JsonObject => Some (mkStructuredOutputParams None (Some true) None None None None)
      | Some (RF_JsonSchema s) => Some (mkStructuredOutputParams (Some (rf_schema s)) None None None None None)
      | Some RF_Text | None => None
      end
  end.

(** The fields both endpoints set over the defaults. *)
Definition sampling_with (t p pp fp : option f32) (mt sd n lp : option N) (st : list string)
    (so : option (StructuredOutputParams Json)) : SamplingParams Json :=
  let d : SamplingParams Json := SamplingParams_default in
  {| sp_n := default (sp_n d) n; best_of := best_of d;
     presence_penalty := default (presence_penalty d) pp; frequency_penalty := default (frequency_penalty d) fp;
     repetition_penalty := repetition_penalty d; temperature := default (temperature d) t;
     top_p := default (top_p d) p; top_k := top_k d; min_p := min_p d;
     seed := match sd with Some s => Some s | None => seed d end; stop := st; stop_token_ids := stop_token_ids d;
     ignore_eos := ignore_eos d;
     max_tokens := match mt with Some m => Some m | None => max_tokens d end;
     min_tokens := min_tokens d; logprobs := lp; prompt_logprobs := prompt_logprobs d;
     detokenize := detokenize d; skip_special_tokens := skip_special_tokens d;
     spaces_between_special_tokens := spaces_between_special_tokens d;
     include_stop_str_in_output := include_stop_str_in_output d; output_kind := output_kind d;
     logit_bias := logit_bias d; allowed_token_ids := allowed_token_ids d; bad_words := bad_words d;
     structured_outputs := so; skip_reading_prefix_cache := skip_reading_prefix_cache d;
     speculative_decoding := speculative_decoding d |}.

Definition chat_request_to_sampling_params (req : ChatCompletionRequest) : SamplingParams Json :=
  sampling_with (cr_temperature req) (cr_top_p req) (cr_presence_penalty req) (cr_frequency_penalty req)
    (cr_max_tokens req) (cr_seed req) (cr_n req)
    (match cr_logprobs req with
     | Some true => match cr_top_logprobs req with Some k => Some k | None => Some 1%N end
     | _ => None
     end)
    (extract_stop_strings (cr_stop req))
    (request_structured_outputs (cr_structured_outputs req) (cr_response_format req)).

Definition completion_request_to_sampling_params (req : CompletionRequest) : SamplingParams Json :=
  sampling_with (pr_temperature req) (pr_top_p req) (pr_presence_penalty req) (pr_frequency_penalty req)
    (pr_max_tokens req) (pr_seed req) (pr_n req) (pr_logprobs req)
    (extract_stop_strings (pr_stop req))
    (request_structured_outputs (pr_structured_outputs req) (pr_response_format req)).

(** ** Validation *)

(** The messages of the errors, each with what it mentions. *)
Inductive RequestError : Type :=
  | EBothFormats
  | EToolsEmpty
  | ETooManyTools
  | EToolType
  | ENameLength
  | EInvalidName (name : string)
  | EDuplicateName (name : string)
  | EParameters (name : string)
  | EToolsUnset
  | EChoiceType
  | EChoiceUnknown
  | ERequiresContent (role : string)
  | EToolFields (role : string)
  | EAssistantContent
  | EAssistantToolCallId
  | ECallId
  | ECallType
  | EArgumentsJson
  | EToolCallId
  | EToolCalls
  | ERole (role : string).

Definition validate_structured_output_request (so : option (StructuredOutputParams Json)) (rf : option ResponseFormat) :
    result unit RequestError :=
  require negb (is_some so && is_some rf) else EBothFormats;
  Ok ().

(** [byte.is_ascii_alphanumeric() || matches!(byte, b'_' | b'-')] *)
Definition name_byte (b : N) : bool :=
  ((48 <=? b) && (b <=? 57) || (65 <=? b) && (b <=? 90) || (97 <=? b) && (b <=? 122) || (b =? 95) || (b =? 45))%N.

Definition validate_function_name (name : string) : result unit RequestError :=
  require negb (str_is_empty name || (64 <? str_len name)%N) else ENameLength;
  require forallb name_byte (bytes_of name) else EInvalidName name;
  Ok ().

(** A loop whose body may return an error. *)
Fixpoint try_each {A E} (f : A → result unit E) (l : list A) : result unit E :=
  match l with
  | [] => Ok ()
  | x :: l => _ <-? f x; try_each f l
  end.

(** The loop over the tools, with the names inserted so far. *)
Fixpoint validate_tools (tools : list ChatCompletionTool) (names : gset string) : result (gset string) RequestError :=
  match tools with
  | [] => Ok names
  | tool :: tools =>
      let f := tool_function tool in
      require String.eqb (tool_type tool) "function" else EToolType;
      _ <-? validate_function_name (fd_name f);
      require negb (bool_decide (fd_name f ∈ names)) else EDuplicateName (fd_name f);
      require negb (is_some_and (λ p, negb (is_some (json_object p))) (fd_parameters f)) else EParameters (fd_name f);
      validate_tools tools ({[fd_name f]} ∪ names)
  end.

Definition validate_tool_choice (choice : option ToolChoice) (tools : list ChatCompletionTool) (names : gset string) :
    result unit RequestError :=
  match choice with
  | None | Some (Mode TC_None) => Ok ()
  | Some (Mode (TC_Auto | TC_Required)) =>
      require negb (length tools =? 0) else EToolsUnset; Ok ()
  | Some (Named c) =>
      require String.eqb (nc_type c) "function" else EChoiceType;
      _ <-? validate_function_name (nc_name c);
      require bool_decide (nc_name c ∈ names) else EChoiceUnknown;
      Ok ()
  end.

Section serde.
(** [serde_json::from_str], [serde_json::to_string], and the collected stream of
    [Deserializer::into_iter]. *)
Context (from_str : string → option Json) (to_string : Json → option string)
        (read_stream : bytes → option (list Json)).

Definition validate_call (c : ToolCall) : result unit RequestError :=
  require negb (str_is_empty (tc_id c)) else ECallId;
  require String.eqb (tc_type c) "function" else ECallType;
  _ <-? validate_function_name (fc_name (tc_function c));
  require is_some (from_str (fc_arguments (tc_function c))) else EArgumentsJson;
  Ok ().

Definition no_calls (m : ChatMessage) : bool :=
  match cm_tool_calls m with None | Some [] => true | Some _ => false end.

Definition validate_tool_message (m : ChatMessage) : result unit RequestError :=
  if String.eqb (cm_role m) "system" || String.eqb (cm_role m) "user" then
    require is_some (cm_content m) else ERequiresContent (cm_role m);
    require negb (is_some (cm_tool_calls m) || is_some (cm_tool_call_id m)) else EToolFields (cm_role m);
    Ok ()
  else if String.eqb (cm_role m) "assistant" then
    require negb (negb (is_some (cm_content m)) && no_calls m) else EAssistantContent;
    require negb (is_some (cm_tool_call_id m)) else EAssistantToolCallId;
    try_each validate_call (default [] (cm_tool_calls m))
  else if String.eqb (cm_role m) "tool" then
    require is_some (cm_content m) else ERequiresContent "tool";
    require negb (match cm_tool_call_id m with None => true | Some i => str_is_empty i end) else EToolCallId;
    require negb (is_some (cm_tool_calls m)) else EToolCalls;
    Ok ()
  else Err (ERole (cm_role m)).

Definition validate_tool_call_request (req : ChatCompletionRequest) : result unit RequestError :=
  let tools := default [] (cr_tools req) in
  require negb (bool_decide (length <$> cr_tools req = Some 0)) else EToolsEmpty;
  require negb (128 <? length tools) else ETooManyTools;
  names <-? validate_tools tools ∅;
  _ <-? validate_tool_choice (cr_tool_choice req) tools names;
  try_each validate_tool_message (cr_messages req).

(** ** Inputs of the chat template *)

(** [skip_serializing_if = "Option::is_none"] *)
Definition opt_field {A} (key : string) (f : A → Json) (o : option A) : list (string * Json) :=
  match o with Some a => [(key, f a)] | None => [] end.

Definition tool_value (t : ChatCompletionTool) : Json :=
  let f := tool_function t in
  JObject [("function", JObject (opt_field "description" JString (fd_description f) ++ [("name", JString (fd_name f))]
              ++ opt_field "parameters" id (fd_parameters f) ++ opt_field "strict" JBool (fd_strict f)));
           ("type", JString (tool_type t))].

Definition call_value (c : ToolCall) : Json :=
  JObject [("function", JObject [("arguments", JString (fc_arguments (tc_function c))); ("name", JString (fc_name (tc_function c)))]);
           ("id", JString (tc_id c)); ("type", JString (tc_type c))].

Definition message_value (m : ChatMessage) : Json :=
  JObject ([("content", match cm_content m with Some c => JString c | None => JNull end)]
           ++ opt_field "name" JString (cm_name m) ++ [("role", JString (cm_role m))]
           ++ opt_field "tool_call_id" JString (cm_tool_call_id m)
           ++ opt_field "tool_calls" (λ l, JArray (call_value <$> l)) (cm_tool_calls m)).

Definition choice_value (c : ToolChoice) : Json :=
  match c with
  | Mode TC_None => JString "none"
  | Mode TC_Auto => JString "auto"
  | Mode TC_Required => JString "required"
  | Named c => JObject [("function", JObject [("name", JString (nc_name c))]); ("type", JString (nc_type c))]
  end.

Definition tools_for_chat_template (req : ChatCompletionRequest) : result (option (list Json)) RequestError :=
  _ <-? validate_tool_call_request req;
  match cr_tools req with
  | None => Ok None
  | Some tools =>
      match cr_tool_choice req with
      | Some (Mode TC_None) => Ok None
      | choice =>
          let keep tool := match choice with Some (Named c) => String.eqb (fd_name (tool_function tool)) (nc_name c) | _ => true end in
          Ok (Some (tool_value <$> filter (λ t, keep t = true) tools))
      end
  end.

(** The arguments of a call in a message value, decoded in place. *)
Definition decode_arguments (call : Json) : result Json RequestError :=
  match call, json_get call "function" with
  | JObject entries, Some (JObject f) =>
      match json_assoc "arguments" f with
      | Some (JString encoded) =>
          match from_str encoded with
          | Some v => Ok (JObject (json_update "function" (JObject (json_update "arguments" v f)) entries))
          | None => Err EArgumentsJson
          end
      | _ => Ok call
      end
  | _, _ => Ok call
  end.

Definition template_message (m : ChatMessage) : result Json RequestError :=
  match message_value m with
  | JObject entries as value =>
      match json_assoc "tool_calls" entries with
      | Some (JArray calls) => calls <-? try_map decode_arguments calls; Ok (JObject (json_update "tool_calls" (JArray calls) entries))
      | _ => Ok value
      end
  | value => Ok value
  end.

Definition messages_for_chat_template (req : ChatCompletionRequest) : result (list Json) RequestError :=
  _ <-? validate_tool_call_request req;
  try_map template_message (cr_messages req).

Definition tool_choice_for_chat_template (req : ChatCompletionRequest) : result (option Json) RequestError :=
  _ <-? validate_tool_call_request req;
  match cr_tools req with
  | None => Ok None
  | Some _ => Ok (Some (choice_value (default (Mode TC_Auto) (cr_tool_choice req))))
  end.

(** ** Tool calls in a model's text *)
Definition OPEN_TAG : bytes := bytes_of "<tool_call>".
Definition CLOSE_TAG : bytes := bytes_of "</tool_call>".
Definition PYTHON_TAG : bytes := bytes_of "<|python_tag|>".

Definition parse_json_sequence (text : bytes) : option (list Json) :=
  match read_stream text with
  | Some [] | None => None
  | Some values => Some values
  end.

Definition nonempty_content (text : bytes) : option string :=
  match trim text with [] => None | content => Some (string_of content) end.

Definition strip_json_code_fence (text : bytes) : bytes :=
  match (match strip_prefix text (bytes_of "```json") with Some rest => Some rest | None => strip_prefix text (bytes_of "```") end) with
  | None => text
  | Some rest => trim (match strip_suffix rest (bytes_of "```") with Some body => body | None => rest end)
  end.

(** The loop over the tagged calls.  The outer [option] is a panic (a slice off a
    character boundary), the inner one the [?]s; the cursor grows by both tags,
    so the text's length is fuel enough. *)
Fixpoint tag_loop (fuel : nat) (text : bytes) (cursor : nat) (values : list Json) (remaining : bytes) :
    option (option (list Json * bytes)) :=
  match fuel with
  | 0 => None
  | S fuel =>
      rest ← slice_from text cursor;
      match find rest OPEN_TAG with
      | None => Some (Some (values, remaining ++ rest))
      | Some relative_start =>
          let start := cursor + relative_start in
          before ← slice_range text cursor start;
          let body_start := start + length OPEN_TAG in
          body ← slice_from text body_start;
          match find body CLOSE_TAG with
          | None => Some None
          | Some relative_end =>
              let end_ := body_start + relative_end in
              json ← slice_range text body_start end_;
              match parse_json_sequence json with
              | None => Some None
              | Some vs => tag_loop fuel text (end_ + length CLOSE_TAG) (values ++ vs) (remaining ++ before)
              end
          end
      end
  end.

Definition tool_call_json_values (text : bytes) : option (option (list Json * option string)) :=
  if contains text OPEN_TAG then
    r ← tag_loop (S (length text)) text 0 [] [];
    Some (match r with Some (values, remaining) => Some (values, nonempty_content remaining) | None => None end)
  else
    match find text PYTHON_TAG with
    | Some start =>
        before ← slice_to text start;
        after ← slice_from text (start + length PYTHON_TAG);
        Some (match parse_json_sequence after with Some values => Some (values, nonempty_content before) | None => None end)
    | None =>
        Some (match parse_json_sequence (strip_json_code_fence (trim text)) with Some values => Some (values, None) | None => None end)
    end.

Fixpoint collect_calls (values : list Json) : option (list Json) :=
  match values with
  | [] => Some []
  | JArray items :: values => app items <$> collect_calls values
  | JObject object :: values =>
      let calls := match json_assoc "tool_calls" object with
                   | Some (JArray items) => items
                   | _ => [JObject (map_remove "tool_calls" object)]
                   end in
      app calls <$> collect_calls values
  | _ => None
  end.

Definition values_to_tool_calls (values : list Json) : option (list Json) :=
  match collect_calls values with
  | Some [] | None => None
  | Some calls => Some calls
  end.

Definition normalize_tool_call (value : Json) : option (option string * string * string) :=
  object ← json_object value;
  let id := json_assoc "id" object ≫= json_str in
  let call := default object (json_assoc "function" object ≫= json_object) in
  name ← json_assoc "name" call ≫= json_str;
  let arguments := match json_assoc "arguments" call with
                   | Some a => a
                   | None => default (JObject []) (json_assoc "parameters" call)
                   end in
  arguments ← match arguments with
              | JString encoded => _ ← from_str encoded; Some encoded
              | JObject _ | JArray _ => to_string arguments
              | _ => None
              end;
  Some (match id with Some i => if str_is_empty i then None else Some i | None => None end, name, arguments).

Definition generate_tool_call_id (uuid : string) : string := "call_" +:+ uuid.

(** The loop over the raw calls; [next] counts the identifiers generated. *)
Section parse.
Context (uuid : nat → string).

Fixpoint build_calls (allowed : gset string) (raw_calls : list Json) (next : nat) : option (list ToolCall) :=
  match raw_calls with
  | [] => Some []
  | raw :: raw_calls =>
      '(id, name, arguments) ← normalize_tool_call raw;
      if negb (bool_decide (name ∈ allowed)) then None
      else
        let '(id, next) := match id with Some i => (i, next) | None => (generate_tool_call_id (uuid next), S next) end in
        calls ← build_calls allowed raw_calls next;
        Some (mkToolCall id "function" (mkFunctionCall name arguments) :: calls)
  end.

Definition allowed_names (tools : list ChatCompletionTool) : gset string :=
  list_to_set ((λ t, fd_name (tool_function t)) <$> tools).

Definition parse_chat_output (text : string) (tools : option (list ChatCompletionTool)) : option ParsedChatOutput :=
  let plain := mkParsed (Some text) None in
  match tools with
  | None | Some [] => Some plain
  | Some tools =>
      r ← tool_call_json_values (bytes_of text);
      Some (match r with
            | None => plain
            | Some (values, content) =>
                match values_to_tool_calls values with
                | None => plain
                | Some raw_calls =>
                    match build_calls (allowed_names tools) raw_calls 0 with
                    | None | Some [] => plain
                    | Some calls => mkParsed content (Some calls)
                    end
                end
            end)
  end.
End parse.

Definition tool_calls_to_deltas (tool_calls : list ToolCall) : list ToolCallDelta :=
  imap (λ index c, mkToolCallDelta (as_u32 (N.of_nat index)) (Some (tc_id c)) (Some (tc_type c))
          (Some (mkFunctionCallDelta (Some (fc_name (tc_function c))) (Some (fc_arguments (tc_function c)))))) tool_calls.

(** ** Responses *)
Definition converted_reason (r : FinishReason) : string :=
  match r with FR_Stop => "stop" | FR_Length => "length" | FR_Aborted => "stop" | FR_Error => "stop" end.

Definition usage_info (u : Usage) : UsageInfo := mkUsageInfo (prompt_tokens u) (completion_tokens u) (total_tokens u).

(** One choice per completion, and the usage; identifier, time and model are copied
    in by the caller. *)
Definition request_output_to_chat_completion_with_tools (uuid : nat → nat → string) (output : RequestOutput)
    (tools : option (list ChatCompletionTool)) : option (list ChatChoice * UsageInfo) :=
  choices ← mapM (λ '(i, co),
    parsed ← parse_chat_output (uuid i) (co_text co) tools;
    let finish_reason := if is_some (po_tool_calls parsed) then Some "tool_calls" else converted_reason <$> co_finish_reason co in
    Some (mkChatChoice (as_u32 (N.of_nat i)) (mkResponseMessage "assistant" (po_content parsed) (po_tool_calls parsed)) finish_reason))
    (imap pair (ro_outputs output));
  Some (choices, usage_info (ro_usage output)).

Definition request_output_to_completion (output : RequestOutput) : list CompletionChoice * UsageInfo :=
  (imap (λ i co, mkCompletionChoice (as_u32 (N.of_nat i)) (co_text co) (converted_reason <$> co_finish_reason co)) (ro_outputs output),
   usage_info (ro_usage output)).
End serde.

(** ** The grammar of tagged text

    [tagged_text t bodies outside closed]: the tags split [t] into the calls'
    bodies and the text outside; unless [closed], the last opening tag has no
    closing one. *)
Inductive tagged_text : bytes → list bytes → bytes → bool → Prop :=
  | tt_end t : free t OPEN_TAG → tagged_text t [] t true
  | tt_open a t : free a OPEN_TAG → free t CLOSE_TAG → tagged_text (a ++ OPEN_TAG ++ t) [] a false
  | tt_call a body t bodies outside closed :
      free a OPEN_TAG → free body CLOSE_TAG → tagged_text t bodies outside closed →
      tagged_text (a ++ OPEN_TAG ++ body ++ CLOSE_TAG ++ t) (body :: bodies) (a ++ outside) closed.

Lemma find_open a t : free a OPEN_TAG → find (a ++ OPEN_TAG ++ t) OPEN_TAG = Some (length a).
Proof. apply find_first. by apply (bool_decide_unpack _); vm_compute. Qed.

Lemma find_close a t : free a CLOSE_TAG → find (a ++ CLOSE_TAG ++ t) CLOSE_TAG = Some (length a).
Proof. apply find_first. by apply (bool_decide_unpack _); vm_compute. Qed.

Lemma tags_ascii : ascii OPEN_TAG ∧ ascii CLOSE_TAG ∧ ascii PYTHON_TAG.
Proof. split_and!; apply (bool_decide_unpack _); by vm_compute. Qed.

(** Every text is of the grammar. *)
Lemma tagged_total t : ∃ bodies outside closed, tagged_text t bodies outside closed.
Proof.
  remember (length t) as n eqn:Hn. revert t Hn. induction (lt_wf n) as [n _ IH]. intros t ->.
  destruct (find t OPEN_TAG) as [i|] eqn:E; [| by exists [], t, true; constructor; apply find_free].
  apply find_split in E as (a & r & -> & _ & Ha); [| done].
  destruct (find r CLOSE_TAG) as [j|] eqn:E; [| by exists [], a, false; constructor; [| apply find_free]].
  apply find_split in E as (body & t' & -> & _ & Hb); [| done].
  destruct (IH (length t')) with (t := t') as (bodies & outside & closed & H); [rewrite !length_app; cbn; lia | done |].
  exists (body :: bodies), (a ++ outside), closed. by constructor.
Qed.

Section parsing.
Context (from_str : string → option Json) (to_string : Json → option string) (read_stream : bytes → option (list Json)).
#[local] Abbreviation parse := (parse_json_sequence read_stream).

(** What the loop over the tags computes on a text of the grammar. *)
Definition tagged_result (bodies : list bytes) (outside : bytes) (closed : bool) : option (list Json * bytes) :=
  match mapM parse bodies with
  | Some vss => if closed then Some (concat vss, outside) else None
  | None => None
  end.

Lemma slice_from_app l r : utf8 r → slice_from (l ++ r) (length l) = Some r.
Proof. intros Hr. unfold slice_from. by rewrite utf8_boundary, drop_app_length by done. Qed.

Lemma slice_range_app l m r : utf8 (m ++ r) → utf8 r → slice_range (l ++ m ++ r) (length l) (length l + length m) = Some m.
Proof.
  intros Hm Hr. unfold slice_range. rewrite (proj2 (Nat.leb_le _ _)), utf8_boundary by (done || lia). cbn [andb].
  rewrite <- length_app, app_assoc, utf8_boundary by done. rewrite length_app, <- app_assoc, drop_app_length.
  by replace (length l + length m - length l) with (length m) by lia; rewrite take_app_length.
Qed.

Lemma tag_loop_spec t bodies outside closed : tagged_text t bodies outside closed →
  ∀ fuel pre values remaining, utf8 t → length t < fuel →
  tag_loop read_stream fuel (pre ++ t) (length pre) values remaining
  = Some ('(vs, out) ← tagged_result bodies outside closed; Some (values ++ vs, remaining ++ out)).
Proof.
  destruct tags_ascii as (Ho & Hc & _).
  induction 1 as [t Ht | a t Ha Ht | a body t bodies outside closed Ha Hb Ht IH]; intros [|fuel] pre values remaining Hu Hf; try lia; cbn [tag_loop].
  - rewrite slice_from_app by done. cbn [mbind option_bind]. rewrite (proj1 (find_free _ _) Ht). cbn. by rewrite app_nil_r.
  - rewrite slice_from_app by done. cbn [mbind option_bind]. rewrite find_open by done.
    destruct (utf8_around _ _ _ Hu Ho ltac:(done)) as [_ Hut].
    rewrite slice_range_app; [| done | by apply utf8_app, Hut; apply ascii_utf8]. cbn [mbind option_bind].
    rewrite app_assoc, app_assoc, <- !length_app, slice_from_app by done. cbn [mbind option_bind].
    rewrite (proj1 (find_free _ _) Ht). done.
  - destruct (utf8_around _ _ _ Hu Ho ltac:(done)) as [_ Hub]. destruct (utf8_around _ _ _ Hub Hc ltac:(done)) as [_ Hut].
    rewrite slice_from_app by done. cbn [mbind option_bind]. rewrite find_open by done.
    rewrite slice_range_app; [| done | by apply utf8_app; [apply ascii_utf8 |]]. cbn [mbind option_bind].
    rewrite (app_assoc pre), (app_assoc (pre ++ a)), <- !length_app, slice_from_app by done. cbn [mbind option_bind].
    rewrite find_close by done. rewrite slice_range_app; [| done | by apply utf8_app; [apply ascii_utf8 |]]. cbn [mbind option_bind].
    unfold tagged_result. cbn [mapM]. destruct (parse body) as [vs|]; [| done].
    rewrite (app_assoc _ body), (app_assoc _ CLOSE_TAG), <- !length_app, IH; [| done | rewrite !length_app in Hf; cbn in Hf; lia].
    unfold tagged_result. cbn [mbind option_bind]. destruct (mapM parse bodies) as [vss|]; [| done]. cbn [mbind option_bind mret option_ret].
    destruct closed; [| done]. cbn [mbind option_bind concat]. by rewrite !app_assoc.
Qed.

Lemma tagged_contains t bodies outside closed : tagged_text t bodies outside closed →
  contains t OPEN_TAG = negb (bool_decide (bodies = []) && closed).
Proof.
  intros [t' Ht | a t' Ha _ | a body t' bs out cl Ha _ _].
  - exact Ht.
  - unfold contains. by rewrite find_open.
  - unfold contains. by rewrite find_open.
Qed.

Lemma tagged_values t bodies outside closed : utf8 t → tagged_text t bodies outside closed → bodies ≠ [] ∨ closed = false →
  tool_call_json_values read_stream t
  = Some ('(vs, out) ← tagged_result bodies outside closed; Some (vs, nonempty_content out)).
Proof.
  intros Hu Ht Hne. unfold tool_call_json_values. rewrite (tagged_contains _ _ _ _ Ht).
  replace (negb _) with true; [| destruct Hne as [H| ->]; [by rewrite bool_decide_eq_false_2 | by rewrite andb_false_r]].
  pose proof (tag_loop_spec _ _ _ _ Ht (S (length t)) [] [] [] Hu ltac:(lia)) as E. cbn [app length] in E. rewrite E.
  cbn [mbind option_bind]. destruct (tagged_result _ _ _) as [[vs out]|]; done.
Qed.

(** No slice of valid UTF-8 panics. *)
Lemma values_total t : utf8 t → is_Some (tool_call_json_values read_stream t).
Proof.
  intros Hu. destruct (tagged_total t) as (bodies & outside & closed & Ht).
  destruct (decide (bodies = [] ∧ closed = true)) as [[-> ->]|Hne].
  - unfold tool_call_json_values. rewrite (tagged_contains _ _ _ _ Ht). cbn [negb andb bool_decide].
    destruct (find t PYTHON_TAG) as [i|] eqn:E; [| by eexists].
    destruct tags_ascii as (_ & _ & Hp). apply find_split in E as (l & r & -> & <- & _); [| done].
    destruct (utf8_around _ _ _ Hu Hp ltac:(done)) as [_ Hr].
    unfold slice_to. rewrite utf8_boundary by (apply utf8_app; [by apply ascii_utf8 | done]). cbn [mbind option_bind].
    rewrite app_assoc, <- length_app, slice_from_app by done. by eexists.
  - rewrite (tagged_values _ _ _ _ Hu Ht); [by eexists |]. destruct closed; [left; intros ->; by apply Hne | by right]. 
Qed.

(** ** What is extracted *)
Lemma normalize_ok v id name arguments :
  (∀ v s, to_string v = Some s → is_Some (from_str s)) →
  normalize_tool_call from_str to_string v = Some (id, name, arguments) →
  is_Some (from_str arguments) ∧ id ≠ Some "".
Proof.
  intros Hlaw. unfold normalize_tool_call. destruct (json_object v) as [object|]; [| done]. cbn [mbind option_bind].
  destruct (json_assoc "name" _ ≫= json_str) as [n|]; cbn [mbind option_bind]; [| done].
  set (a := match json_assoc "arguments" _ with Some a => a | None => _ end). clearbody a. intros H.
  apply bind_Some in H as (args & Ha & [= <- <- <-]). split.
  - destruct a; try done; try (by apply Hlaw in Ha). apply bind_Some in Ha as (x & Hx & [= <-]). by exists x.
  - destruct (json_assoc "id" object ≫= json_str) as [i|]; [| done]. unfold str_is_empty. destruct (String.length i =? 0) eqn:E; [done |].
    by intros [= ->].
Qed.

Lemma build_calls_ok uuid allowed raw next calls :
  (∀ v s, to_string v = Some s → is_Some (from_str s)) →
  build_calls from_str to_string uuid allowed raw next = Some calls →
  Forall (λ c, tc_type c = "function" ∧ tc_id c ≠ "" ∧ fc_name (tc_function c) ∈ allowed
               ∧ is_Some (from_str (fc_arguments (tc_function c)))) calls.
Proof.
  intros Hlaw. revert next calls. induction raw as [|v raw IH]; intros next calls; cbn [build_calls]; [by intros [= <-] |].
  destruct (normalize_tool_call _ _ v) as [[[id name] arguments]|] eqn:En; [| done]. cbn [mbind option_bind].
  apply normalize_ok in En as [Hargs Hid]; [| done]. destruct (bool_decide_reflect (name ∈ allowed)) as [Hn|]; [| done]. cbn [negb].
  destruct id as [i|]; intros (cs & Hcs & [= <-])%bind_Some; apply IH in Hcs; constructor; try done; cbn; split_and!; try done.
  intros ->. by apply Hid.
Qed.
End parsing.

(** ** Validation, declaratively *)
Definition name_ok (name : string) : Prop :=
  name ≠ "" ∧ (str_len name <= 64)%N ∧ Forall (λ b, name_byte b = true) (bytes_of name).

Record tool_ok (t : ChatCompletionTool) : Prop := {
  to_type : tool_type t = "function";
  to_name : name_ok (fd_name (tool_function t));
  to_parameters : ∀ p, fd_parameters (tool_function t) = Some p → is_Some (json_object p);
}.

Definition tool_names (tools : list ChatCompletionTool) : list string := (λ t, fd_name (tool_function t)) <$> tools.

Definition choice_ok (choice : option ToolChoice) (tools : list ChatCompletionTool) : Prop :=
  match choice with
  | None | Some (Mode TC_None) => True
  | Some (Mode _) => tools ≠ []
  | Some (Named c) => nc_type c = "function" ∧ nc_name c ∈ tool_names tools
  end.

Lemma require_ok {A E} (b : bool) (e : E) (k : result A E) a : (require b else e; k) = Ok a ↔ b = true ∧ k = Ok a.
Proof. destruct b; naive_solver. Qed.

Lemma bind_ok {A B E} (m : result A E) (k : A → result B E) b : (x <-? m; k x) = Ok b ↔ ∃ a, m = Ok a ∧ k a = Ok b.
Proof. destruct m; cbn; naive_solver. Qed.

Lemma ok_ok {A E} (a b : A) : (Ok a : result A E) = Ok b ↔ a = b.
Proof. naive_solver. Qed.

Lemma bind_unit_ok {B E} (m : result unit E) (k : result B E) b : (_ <-? m; k) = Ok b ↔ m = Ok () ∧ k = Ok b.
Proof. destruct m as [[]|]; cbn; naive_solver. Qed.

Lemma is_some_Some {A} (o : option A) : is_some o = true ↔ is_Some o.
Proof. destruct o; naive_solver. Qed.

Lemma is_some_None {A} (o : option A) : is_some o = false ↔ o = None.
Proof. by destruct o. Qed.

Lemma str_is_empty_false s : str_is_empty s = false ↔ s ≠ "".
Proof. unfold str_is_empty. by destruct s. Qed.

Lemma try_each_ok {A E} (f : A → result unit E) l : try_each f l = Ok () ↔ Forall (λ x, f x = Ok ()) l.
Proof.
  induction l as [|x l IH]; cbn [try_each]; [by split |].
  by rewrite Forall_cons, bind_unit_ok, IH.
Qed.

Lemma forallb_Forall {A} (f : A → bool) l : forallb f l = true ↔ Forall (λ x, f x = true) l.
Proof. rewrite forallb_forall, Forall_forall. setoid_rewrite list_elem_of_In. done. Qed.

Create HintDb openai.
Create Rewrite HintDb openai.
#[local] Hint Rewrite @require_ok @bind_unit_ok negb_true_iff orb_false_iff andb_false_iff @is_some_Some @is_some_None
  str_is_empty_false N.ltb_ge Nat.ltb_ge Nat.eqb_neq String.eqb_eq bool_decide_eq_true bool_decide_eq_false
  @forallb_Forall @try_each_ok negb_false_iff : openai.

Lemma name_valid name : validate_function_name name = Ok () ↔ name_ok name.
Proof. unfold validate_function_name, name_ok. autorewrite with openai. naive_solver. Qed.

Section valid.
Context (from_str : string → option Json).

Record call_ok (c : ToolCall) : Prop := {
  ca_id : tc_id c ≠ "";
  ca_type : tc_type c = "function";
  ca_name : name_ok (fc_name (tc_function c));
  ca_arguments : is_Some (from_str (fc_arguments (tc_function c)));
}.

(** What each role requires. *)
Definition message_ok (m : ChatMessage) : Prop :=
  (cm_role m = "system" ∨ cm_role m = "user")
    ∧ is_Some (cm_content m) ∧ cm_tool_calls m = None ∧ cm_tool_call_id m = None
  ∨ cm_role m = "assistant"
    ∧ (is_Some (cm_content m) ∨ default [] (cm_tool_calls m) ≠ []) ∧ cm_tool_call_id m = None
    ∧ Forall call_ok (default [] (cm_tool_calls m))
  ∨ cm_role m = "tool"
    ∧ is_Some (cm_content m) ∧ (∃ i, cm_tool_call_id m = Some i ∧ i ≠ "") ∧ cm_tool_calls m = None.

Record tool_request_valid (req : ChatCompletionRequest) : Prop := {
  tv_nonempty : cr_tools req ≠ Some [];
  tv_many : length (default [] (cr_tools req)) ≤ 128;
  tv_tools : Forall tool_ok (default [] (cr_tools req));
  tv_names : NoDup (tool_names (default [] (cr_tools req)));
  tv_choice : choice_ok (cr_tool_choice req) (default [] (cr_tools req));
  tv_messages : Forall message_ok (cr_messages req);
}.

Lemma call_valid c : validate_call from_str c = Ok () ↔ call_ok c.
Proof.
  unfold validate_call. autorewrite with openai. rewrite name_valid. split; [intros (H1 & H2 & H3 & H4 & _); by split | by intros [H1 H2 H3 H4]].
Qed.

Lemma Forall_valid {A} (P Q : A → Prop) l : (∀ x, P x ↔ Q x) → Forall P l ↔ Forall Q l.
Proof. intros H. split; intros F; eapply Forall_impl; try exact F; intros x; apply H. Qed.

Lemma no_calls_false m : no_calls m = false ↔ default [] (cm_tool_calls m) ≠ [].
Proof using. unfold no_calls. destruct (cm_tool_calls m) as [[|c l]|]; naive_solver. Qed.

Lemma message_valid m : validate_tool_message from_str m = Ok () ↔ message_ok m.
Proof.
  unfold validate_tool_message, message_ok.
  destruct (String.eqb_spec (cm_role m) "system") as [E1|E1], (String.eqb_spec (cm_role m) "user") as [E2|E2]; cbn [orb];
    [congruence | | |].
  1, 2: autorewrite with openai; rewrite ?E1, ?E2; naive_solver.
  destruct (String.eqb_spec (cm_role m) "assistant") as [E3|E3].
  { autorewrite with openai. rewrite (Forall_valid _ _ _ call_valid), no_calls_false.
    split; [intros H; right; left; by split | intros [[[?|?] _]|[[_ H]|[? _]]]; (congruence || exact H)]. }
  destruct (String.eqb_spec (cm_role m) "tool") as [E4|E4]; [| naive_solver].
  autorewrite with openai. destruct (cm_tool_call_id m) as [i|]; autorewrite with openai; naive_solver.
Qed.

Lemma tools_valid tools names ns :
  validate_tools tools names = Ok ns
  ↔ Forall tool_ok tools ∧ NoDup (tool_names tools) ∧ (∀ n, n ∈ tool_names tools → n ∉ names)
    ∧ ns = list_to_set (tool_names tools) ∪ names.
Proof.
  clear from_str. revert names. induction tools as [|t tools IH]; intros names; cbn [validate_tools].
  - rewrite ok_ok. cbn. split; [intros <- | intros (_ & _ & _ & ->); set_solver].
    split_and!; [constructor | constructor | set_solver | set_solver].
  - unfold tool_names in *. rewrite fmap_cons. autorewrite with openai. rewrite IH, name_valid, Forall_cons, NoDup_cons, list_to_set_cons. clear IH.
    assert (Hp : is_some_and (λ p, negb (is_some (json_object p))) (fd_parameters (tool_function t)) = false
                 ↔ ∀ p, fd_parameters (tool_function t) = Some p → is_Some (json_object p)).
    { rewrite is_some_and_false. setoid_rewrite negb_false_iff. by setoid_rewrite is_some_Some. }
    rewrite Hp. set (n := fd_name (tool_function t)). set (ns' := (λ t, fd_name (tool_function t)) <$> tools).
    split.
    + intros (H1 & H2 & H3 & H4 & H5 & H6 & H7 & ->). split_and!; [by split | done | | done | | set_solver].
      * intros Hin. by apply H7 in Hin; set_solver.
      * set_solver.
    + intros ([[H1 H2 H3] H4] & [H5 H6] & H7 & ->). split_and!; try done; set_solver.
Qed.

Lemma choice_valid choice tools : Forall tool_ok tools →
  validate_tool_choice choice tools (list_to_set (tool_names tools) ∪ ∅) = Ok () ↔ choice_ok choice tools.
Proof.
  clear from_str. intros Ht. destruct choice as [[[]|c]|]; cbn [validate_tool_choice choice_ok]; try done.
  1, 2: rewrite require_ok, negb_true_iff, Nat.eqb_neq; destruct tools; cbn; naive_solver.
  autorewrite with openai. rewrite name_valid, union_empty_r_L, elem_of_list_to_set.
  split; [naive_solver |]. intros [Hc Hn]. split_and!; try done.
  apply list_elem_of_fmap in Hn as (t & -> & Hin). rewrite Forall_forall in Ht. by destruct (Ht t Hin).
Qed.

Lemma tool_request_valid_iff req : validate_tool_call_request from_str req = Ok () ↔ tool_request_valid req.
Proof.
  unfold validate_tool_call_request. autorewrite with openai. rewrite bind_ok. split.
  - intros (H1 & H2 & ns & Hns & H3). apply tools_valid in Hns as (Ht & Hn & _ & ->).
    apply bind_unit_ok in H3 as [Hc Hm]. rewrite choice_valid in Hc by done.
    apply try_each_ok in Hm. rewrite (Forall_valid _ _ _ message_valid) in Hm.
    split; [| done | done | done | done | done]. by intros E; rewrite E in H1.
  - intros [H1 H2 H3 H4 H5 H6]. split_and!; [| done |].
    + destruct (cr_tools req) as [[|]|]; cbn; congruence.
    + eexists. split; [apply tools_valid; split_and!; [done | done | set_solver | done] |].
      rewrite bind_unit_ok, choice_valid, try_each_ok, (Forall_valid _ _ _ message_valid) by done. done.
Qed.

(** Tool requests.  A chat request is accepted exactly when: the tools, if given,
    are between 1 and 128 functions with distinct valid names and object
    parameters; the choice needs tools, or names one of them; and every message
    has the fields its role requires, with valid, complete tool calls. *)
Theorem tool_request_exact req : validate_tool_call_request from_str req = Ok () ↔ tool_request_valid req.
Proof. apply tool_request_valid_iff. Qed.

(** ** The template's inputs *)
Definition decoded_call (c : ToolCall) : Json :=
  JObject [("function", JObject [("arguments", default JNull (from_str (fc_arguments (tc_function c)))); ("name", JString (fc_name (tc_function c)))]);
           ("id", JString (tc_id c)); ("type", JString (tc_type c))].

(** A message as the template sees it. *)
Definition template_value (m : ChatMessage) : Json :=
  JObject ([("content", match cm_content m with Some c => JString c | None => JNull end)]
           ++ opt_field "name" JString (cm_name m) ++ [("role", JString (cm_role m))]
           ++ opt_field "tool_call_id" JString (cm_tool_call_id m)
           ++ opt_field "tool_calls" (λ l, JArray (decoded_call <$> l)) (cm_tool_calls m)).

Definition offered (choice : option ToolChoice) (t : ChatCompletionTool) : Prop :=
  match choice with Some (Named c) => fd_name (tool_function t) = nc_name c | _ => True end.

Lemma decode_calls l : Forall call_ok l → try_map (decode_arguments from_str) (call_value <$> l) = Ok (decoded_call <$> l).
Proof.
  induction 1 as [|c l Hc _ IH]; [done |]. rewrite fmap_cons. cbn [try_map]. unfold decode_arguments at 1.
  destruct (ca_arguments c Hc) as [v Hv]. cbn. rewrite Hv. cbn [result_bind]. rewrite IH. cbn. unfold decoded_call at 2. by rewrite Hv.
Qed.

Lemma template_message_ok m : message_ok m → template_message from_str m = Ok (template_value m).
Proof.
  intros Hm. assert (Hc : Forall call_ok (default [] (cm_tool_calls m))).
  { destruct Hm as [(_ & _ & -> & _)|[(_ & _ & _ & H)|(_ & _ & _ & ->)]]; [constructor | done | constructor]. }
  unfold template_message, message_value, template_value, opt_field.
  destruct (cm_tool_calls m) as [l|], (cm_name m), (cm_tool_call_id m); cbn [app default] in *; cbn -[fmap decode_arguments]; try done.
  all: by rewrite decode_calls.
Qed.

Lemma template_messages_ok l : Forall message_ok l → try_map (template_message from_str) l = Ok (template_value <$> l).
Proof.
  induction 1 as [|m l Hm _ IH]; [done |]. cbn [try_map]. rewrite template_message_ok by done. cbn [result_bind]. by rewrite IH.
Qed.

(** Distinct names: at most one tool has a given one. *)
Lemma named_single tools n : NoDup (tool_names tools) → n ∈ tool_names tools →
  ∃ t, fd_name (tool_function t) = n ∧ filter (λ t, String.eqb (fd_name (tool_function t)) n = true) tools = [t].
Proof.
  clear from_str. induction tools as [|t tools IH]; intros Hnd Hin; [by apply elem_of_nil in Hin |].
  unfold tool_names in *. rewrite fmap_cons in *. apply NoDup_cons in Hnd as [Ht Hnd].
  destruct (decide (fd_name (tool_function t) = n)) as [<-|Hne].
  - exists t. split; [done |]. rewrite filter_cons_True by apply String.eqb_refl. f_equal.
    destruct (filter _ tools) as [|x l] eqn:E; [done |]. exfalso. apply Ht.
    assert (Hx : x ∈ x :: l) by left. rewrite <- E in Hx. apply list_elem_of_filter in Hx as [<-%String.eqb_eq Hx]. by apply (list_elem_of_fmap_2 (λ t, fd_name (tool_function t))).
  - apply elem_of_cons in Hin as [->|Hin]; [done |]. rewrite filter_cons_False by (by intros ?%String.eqb_eq). by apply IH.
Qed.

(** Template inputs.  The three inputs of the chat template fail exactly when the
    validation fails, with its error.  Otherwise the messages are those of the
    request with every call's arguments decoded; no tools are shown for the choice
    none, all of them for the others, and exactly the named one for a named
    choice. *)
Theorem template_inputs_exact req :
  match validate_tool_call_request from_str req with
  | Err e => messages_for_chat_template from_str req = Err e ∧ tools_for_chat_template from_str req = Err e
             ∧ tool_choice_for_chat_template from_str req = Err e
  | Ok _ =>
      messages_for_chat_template from_str req = Ok (template_value <$> cr_messages req)
      ∧ tool_choice_for_chat_template from_str req = Ok (_ ← cr_tools req; Some (choice_value (default (Mode TC_Auto) (cr_tool_choice req))))
      ∧ (cr_tools req = None ∨ cr_tool_choice req = Some (Mode TC_None) → tools_for_chat_template from_str req = Ok None)
      ∧ ∀ tools, cr_tools req = Some tools → cr_tool_choice req ≠ Some (Mode TC_None) →
          ∃ shown, tools_for_chat_template from_str req = Ok (Some (tool_value <$> shown)) ∧ shown ≠ []
            ∧ (∀ t, t ∈ shown ↔ t ∈ tools ∧ offered (cr_tool_choice req) t)
            ∧ (∀ c, cr_tool_choice req = Some (Named c) → length shown = 1)
  end.
Proof.
  unfold messages_for_chat_template, tools_for_chat_template, tool_choice_for_chat_template.
  destruct (validate_tool_call_request from_str req) as [[]|e] eqn:Hv; cbn [result_bind]; [| done].
  apply tool_request_valid_iff in Hv as [H1 _ _ H4 H5 H6]. split_and!.
  - by apply template_messages_ok.
  - by destruct (cr_tools req).
  - intros [-> | ->]; [done | by destruct (cr_tools req)].
  - intros tools Et Hne. rewrite Et in *. cbn [default] in *. unfold offered.
    destruct (cr_tool_choice req) as [[[]|c]|] eqn:Ec; cbn [choice_ok] in H5.
    1: done.
    1, 2, 4: exists tools; rewrite filter_id by done; split_and!; [done | congruence | tauto | done].
    destruct H5 as [_ Hin]. destruct (named_single tools (nc_name c) H4 Hin) as (t & Hn & E). cbn beta iota.
    eexists. split; [reflexivity |]. split_and!; [by rewrite E | | by rewrite E].
    intros x. rewrite list_elem_of_filter, String.eqb_eq. tauto.
Qed.
End valid.

(** ** The extraction of tool calls *)
Section extraction.
Context (from_str : string → option Json) (to_string : Json → option string) (read_stream : bytes → option (list Json)) (uuid : nat → string).
#[local] Abbreviation parse_output := (parse_chat_output from_str to_string read_stream uuid).

(** C26. Extraction is safe.  When the text written for a JSON value can be read
    back, extracting calls from a valid text never panics: the whole text stays
    the content and there are no calls, or tools were supplied and there is at
    least one call, each with an identifier, the name of a supplied tool and
    arguments that are valid JSON. *)
Theorem parse_chat_output_safe text tools :
  (∀ v s, to_string v = Some s → is_Some (from_str s)) → utf8 (bytes_of text) →
  ∃ out, parse_output text tools = Some out
    ∧ (out = mkParsed (Some text) None
       ∨ ∃ supplied calls, tools = Some supplied ∧ po_tool_calls out = Some calls ∧ calls ≠ []
           ∧ ∀ c, c ∈ calls → tc_type c = "function" ∧ tc_id c ≠ ""
               ∧ fc_name (tc_function c) ∈ tool_names supplied ∧ is_Some (from_str (fc_arguments (tc_function c)))).
Proof.
  intros Hlaw Hu. unfold parse_chat_output. destruct tools as [[|t supplied]|]; [by eauto | | by eauto].
  set (tools := t :: supplied). destruct (values_total read_stream _ Hu) as [r ->]. cbn [mbind option_bind].
  eexists. split; [done |].
  destruct r as [[values content]|]; [| by left]. destruct (values_to_tool_calls values) as [raw|]; [| by left].
  destruct (build_calls _ _ _ _ raw 0) as [[|c calls]|] eqn:E; [by left | | by left].
  right. exists tools, (c :: calls). split_and!; [done | done | done |].
  apply build_calls_ok in E; [| done]. intros x Hx. rewrite Forall_forall in E. destruct (E x Hx) as (H1 & H2 & H3 & H4).
  split_and!; [done | done | | done]. unfold allowed_names in H3. by apply elem_of_list_to_set in H3.
Qed.

(** The object of a call, as a model writes it. *)
Definition call_object (c : ToolCall) (arguments : Json) : Json :=
  JObject [("arguments", arguments); ("id", JString (tc_id c)); ("name", JString (fc_name (tc_function c)))].

Definition is_container (v : Json) : Prop := match v with JObject _ | JArray _ => True | _ => False end.

(** [body] is the text of the call [c]. *)
Record encodes (tools : list ChatCompletionTool) (body : bytes) (c : ToolCall) : Prop := {
  en_id : tc_id c ≠ "";
  en_type : tc_type c = "function";
  en_name : fc_name (tc_function c) ∈ tool_names tools;
  en_body : ∃ a, is_container a ∧ to_string a = Some (fc_arguments (tc_function c)) ∧ read_stream body = Some [call_object c a];
}.

Lemma encoded_values tools bodies calls : Forall2 (encodes tools) bodies calls →
  ∃ vss, mapM (parse_json_sequence read_stream) bodies = Some vss
    ∧ collect_calls (concat vss) = Some (concat vss) ∧ (calls ≠ [] → concat vss ≠ [])
    ∧ ∀ next, build_calls from_str to_string uuid (allowed_names tools) (concat vss) next = Some calls.
Proof.
  induction 1 as [|body c bodies calls [Hid Ht Hn (a & Ha & Hs & Hr)] _ (vss & IH1 & IH2 & _ & IH4)]; [by exists [] |].
  exists ([call_object c a] :: vss). 
  assert (Ep : parse_json_sequence read_stream body = Some [call_object c a]) by (unfold parse_json_sequence; by rewrite Hr).
  cbn [mapM concat app]. rewrite Ep. cbn [mbind option_bind].
  rewrite IH1. split; [done |]. split; [by cbn; rewrite IH2 |]. split; [done |]. intros next. cbn [build_calls].
  assert (En : normalize_tool_call from_str to_string (call_object c a)
               = Some (Some (tc_id c), fc_name (tc_function c), fc_arguments (tc_function c))).
  { unfold normalize_tool_call, call_object. cbn -[str_is_empty].
    rewrite (proj2 (str_is_empty_false _) Hid). destruct a; try done; by rewrite Hs. }
  rewrite En. cbn [mbind option_bind]. rewrite bool_decide_eq_true_2 by (by apply elem_of_list_to_set). cbn [negb].
  rewrite IH4. cbn [mbind option_bind]. destruct c as [id ty [n args]]. cbn in *. by subst.
Qed.

(** C27. Round trip of tool calls.  A text whose tagged bodies encode calls to supplied
    tools, in order, gives back exactly those calls, and its content is the text
    outside the tags, trimmed, or none when that is blank. *)
Theorem tool_calls_round_trip text tools bodies outside calls :
  utf8 (bytes_of text) → tagged_text (bytes_of text) bodies outside true → calls ≠ [] →
  Forall2 (encodes tools) bodies calls →
  parse_output text (Some tools) = Some (mkParsed (nonempty_content outside) (Some calls)).
Proof.
  intros Hu Ht Hne Hb. destruct (encoded_values _ _ _ Hb) as (vss & E1 & E2 & E3 & E4).
  assert (Hbodies : bodies ≠ []) by (intros ->; by inversion Hb; subst).
  assert (Htools : tools ≠ []).
  { intros ->. inversion Hb as [|? ? ? ? [_ _ Hn _] _]; subst; [done |]. by apply elem_of_nil in Hn. }
  unfold parse_chat_output. destruct tools as [|t tools]; [done |].
  rewrite (tagged_values read_stream _ _ _ _ Hu Ht) by (by left). unfold tagged_result. rewrite E1. cbn [mbind option_bind].
  unfold values_to_tool_calls. rewrite E2. destruct (concat vss) eqn:Ec; [by destruct E3 |]. rewrite E4. by destruct calls.
Qed.
End extraction.

(** ** Concrete texts

    A toy of serde_json's three functions: a table of texts and values. *)
Definition toy_arguments : Json := JObject [("city", JString "Oslo")].
Definition toy_call (id name : string) (arguments : Json) : Json :=
  JObject [("arguments", arguments); ("id", JString id); ("name", JString name)].
Definition toy_table : list (string * Json) :=
  [("{}", JObject []); ("{city:Oslo}", toy_arguments);
   ("weather", toy_call "a" "get_weather" toy_arguments); ("time", toy_call "b" "get_time" (JObject []))].
Definition toy_from_str (s : string) : option Json := json_assoc s toy_table.
Definition toy_to_string (v : Json) : option string :=
  match v with
  | JObject [] => Some "{}"
  | JObject [(k, JString c)] => if String.eqb k "city" && String.eqb c "Oslo" then Some "{city:Oslo}" else None
  | _ => None
  end.
Definition toy_stream (b : bytes) : option (list Json) := v ← toy_from_str (string_of b); Some [v].
Definition toy_tool (name : string) : ChatCompletionTool := mkTool "function" (mkFunctionDefinition name None None None).
Definition toy_tools : list ChatCompletionTool := [toy_tool "get_weather"; toy_tool "get_time"].
Definition toy_calls : list ToolCall :=
  [mkToolCall "a" "function" (mkFunctionCall "get_weather" "{city:Oslo}"); mkToolCall "b" "function" (mkFunctionCall "get_time" "{}")].
Definition toy_text : string := " Both: <tool_call>weather</tool_call><tool_call>time</tool_call> ".

Lemma toy_law v s : toy_to_string v = Some s → is_Some (toy_from_str s).
Proof.
  destruct v as [| | | | |[|[k []] []]]; cbn; try done; [intros [= <-]; by eexists |].
  destruct (_ && _); [| done]. intros [= <-]. by eexists.
Qed.

Lemma toy_text_utf8 : utf8 (bytes_of toy_text).
Proof. apply ascii_utf8, (bool_decide_unpack _). by vm_compute. Qed.

Lemma parse_chat_output_safe_witness :
  ∃ out, parse_chat_output toy_from_str toy_to_string toy_stream (λ _, "0") toy_text (Some toy_tools) = Some out
    ∧ po_tool_calls out = Some toy_calls.
Proof.
  destruct (parse_chat_output_safe toy_from_str toy_to_string toy_stream (λ _, "0") toy_text (Some toy_tools) toy_law toy_text_utf8)
    as (out & E & _).
  exists out. split; [exact E |]. vm_compute in E. injection E as <-. reflexivity.
Defined.

Lemma tool_calls_round_trip_witness :
  parse_chat_output toy_from_str toy_to_string toy_stream (λ _, "0") toy_text (Some toy_tools)
  = Some (mkParsed (Some "Both:") (Some toy_calls)).
Proof.
  apply (tool_calls_round_trip toy_from_str toy_to_string toy_stream (λ _, "0") toy_text toy_tools
           [bytes_of "weather"; bytes_of "time"] (bytes_of " Both:  ") toy_calls).
  - exact toy_text_utf8.
  - refine (tt_call (bytes_of " Both: ") (bytes_of "weather") (bytes_of "<tool_call>time</tool_call> ") _ (bytes_of " ") true _ _ _);
      [by vm_compute | by vm_compute |].
    refine (tt_call [] (bytes_of "time") (bytes_of " ") [] (bytes_of " ") true _ _ _); [by vm_compute | by vm_compute |].
    constructor. by vm_compute.
  - done.
  - repeat constructor; try (cbn; set_solver); try done.
    + exists toy_arguments. by split_and!.
    + exists (JObject []). by split_and!.
Defined.

(** An unclosed tag, and a call of a tool that was not supplied, leave the text. *)
Example malformed_calls_kept :
  parse_chat_output toy_from_str toy_to_string toy_stream (λ _, "0") "<tool_call>weather" (Some toy_tools)
    = Some (mkParsed (Some "<tool_call>weather") None)
  ∧ parse_chat_output toy_from_str toy_to_string toy_stream (λ _, "0") toy_text (Some [toy_tool "get_time"])
    = Some (mkParsed (Some toy_text) None).
Proof. by split; vm_compute. Qed.

(** The content is trimmed as [str::trim] does, and the code fence is optional. *)
Example fenced_call :
  parse_chat_output toy_from_str toy_to_string toy_stream (λ k, "x") " ```json weather``` " (Some toy_tools)
    = Some (mkParsed None (Some [mkToolCall "a" "function" (mkFunctionCall "get_weather" "{city:Oslo}")]))
  ∧ trim (bytes_of "  a b ") = bytes_of "a b".
Proof. by split; vm_compute. Qed.

(** The converters of engine outputs report an executor error as a normal stop. *)
Example executor_error_is_stop :
  pc_finish_reason <$> (request_output_to_completion (mkRequestOutput 1 [mkCompletionOutput 0 "" [] (Some FR_Error) None] true (mkUsage 1 0 1))).1
  = [Some "stop"].
Proof. done. Qed.
