(* ===== verification/Server.v ===== *)
(** * The HTTP server (rllm-server/src/server.rs, auth.rs)

    The handlers of the OpenAI endpoints: the checks of a request, its submission
    to the engine, and the collection of the engine's outputs into one response
    or a stream of chunks.

    The tokenizer and chat template are parameters, and so is the engine's answer
    to a submission: the outputs that arrive on the stream and how it ends.
    Identifiers, timestamps and the metrics are left out of the responses. *)
From S2P Require Import Prelude F32 CoreTypes Request Json Utf8 Text OpenAi.
#[local] Open Scope string_scope.
#[local] Open Scope list_scope.
#[local] Open Scope nat_scope.
#[local] Open Scope rllm_scope.

(** ** Environment *)

(** The calls of the tokenizer pool; [None] is an error. *)
Record Tokenizer : Type := mkTokenizer {
  tk_render : list Json → option (list Json) → option Json → bool → bool → option string;
  tk_encode : string → bool → option (list TokenId);
  tk_decode : list TokenId → bool → option string;
}.

(** What arrives on the stream of a request before it is closed, or before
    nothing more arrives in time. *)
Inductive StreamEnd : Type := Closed | Silent.
Record Received : Type := mkReceived { rc_outputs : list RequestOutput; rc_end : StreamEnd }.

Record ModelRuntime : Type := mkRuntime {
  rt_tokenizer : Tokenizer;
  rt_add_request_stream : InferenceRequest Json → option Received;
}.

Record AppState : Type := mkAppState {
  as_model_name : string;
  as_runtime : option ModelRuntime;
  as_api_key : option string;
  as_max_input_messages : nat;
}.

(** ** Authentication (auth.rs): the [Authorization] header, if it is text. *)
Definition auth_middleware (st : AppState) (header : option string) : bool :=
  match as_api_key st with
  | None => true
  | Some key =>
      match header ≫= (λ v, strip_prefix (bytes_of v) (bytes_of "Bearer ")) with
      | Some token => bool_decide (token = bytes_of key)
      | None => false
      end
  end.

(** ** Responses *)
Inductive ApiError : Type :=
  | A_Request (e : RequestError)
  | A_Sampling (e : CoreError)
  | A_Feature
  | A_Structured (message : string)
  | A_NoMessages
  | A_TooManyMessages (max : nat)
  | A_TooManyPrompts
  | A_Render
  | A_Tokenize
  | A_Submit
  | A_Internal.

Inductive Event : Type :=
  | E_Chunk (c : ChunkChoice)
  | E_Done.

(** A stream keeps the connection open until [E_Done]. *)
Inductive Response : Type :=
  | R_Error (status : N) (error : ApiError) (error_type : string)
  | R_Chat (choices : list ChatChoice) (usage : UsageInfo)
  | R_Completion (choices : list CompletionChoice) (usage : UsageInfo)
  | R_Stream (events : list Event).

Definition bad_request (e : ApiError) : Response := R_Error 400 e "invalid_request_error".
Definition internal (e : ApiError) : Response := R_Error 500 e "internal_error".
Definition error_response : Response := R_Error 500 A_Internal "server_error".

Definition finish_reason_to_openai (r : FinishReason) : string :=
  match r with FR_Stop => "stop" | FR_Length => "length" | FR_Aborted => "stop" | FR_Error => "error" end.

Definition no_usage : UsageInfo := mkUsageInfo 0 0 0.
Definition assistant (content : option string) (calls : option (list ToolCall)) : ChatResponseMessage :=
  mkResponseMessage "assistant" content calls.
Definition placeholder_chat_response : Response :=
  R_Chat [mkChatChoice 0 (assistant (Some "") None) (Some "stop")] no_usage.
Definition placeholder_completion_response : Response := R_Completion [mkCompletionChoice 0 "" (Some "stop")] no_usage.
Definition role_chunk (finish_reason : option string) : ChunkChoice :=
  mkChunkChoice 0 (mkChunkDelta (Some "assistant") None None) finish_reason.
Definition placeholder_chat_stream_response : Response := R_Stream [E_Chunk (role_chunk (Some "stop")); E_Done].

(** ** Collecting a request *)
Inductive CollectError : Type := CE_Submit | CE_Executor | CE_Closed | CE_Timeout | CE_Decode | CE_Tokenize | CE_Sampling (e : CoreError).

Record EngineCompletion : Type := mkCompletion {
  ec_text : string;
  ec_usage : UsageInfo;
  ec_finish_reason : string;
}.

(** The completions of one output. *)
Fixpoint take_completions (outputs : list CompletionOutput) (ids : list TokenId) (reason : string) :
    result (list TokenId * string) CollectError :=
  match outputs with
  | [] => Ok (ids, reason)
  | co :: outputs =>
      let ids := ids ++ co_token_ids co in
      match co_finish_reason co with
      | Some FR_Error => Err CE_Executor
      | Some r => take_completions outputs ids (finish_reason_to_openai r)
      | None => take_completions outputs ids reason
      end
  end.

Fixpoint collect (outputs : list RequestOutput) (ends : StreamEnd) (ids : list TokenId) (reason : string) :
    result (list TokenId * string) CollectError :=
  match outputs with
  | [] => Err (match ends with Closed => CE_Closed | Silent => CE_Timeout end)
  | output :: outputs =>
      p <-? take_completions (ro_outputs output) ids reason;
      if ro_finished output then Ok p else collect outputs ends p.1 p.2
  end.

(** Identifier and arrival time are drawn by the caller. *)
Definition inference_request (id now : N) (prompt : option string) (token_ids : list TokenId)
    (sampling_params : SamplingParams Json) (stream : bool) : InferenceRequest Json :=
  mkInferenceRequest id prompt (Some token_ids) None sampling_params now 0 stream None.

Definition usage_of (prompt_ids generated_ids : list TokenId) : UsageInfo :=
  let p := u32_try_from_or_max (N.of_nat (length prompt_ids)) in
  let g := u32_try_from_or_max (N.of_nat (length generated_ids)) in
  mkUsageInfo p g (u32_saturating_add p g).

Definition submit_and_collect (rt : ModelRuntime) (r : InferenceRequest Json) (token_ids : list TokenId) :
    result EngineCompletion CollectError :=
  match rt_add_request_stream rt r with
  | None => Err CE_Submit
  | Some rc =>
      p <-? collect (rc_outputs rc) (rc_end rc) [] "length";
      match tk_decode (rt_tokenizer rt) p.1 true with
      | None => Err CE_Decode
      | Some text => Ok (mkCompletion text (usage_of token_ids p.1) p.2)
      end
  end.

(** ** Streaming a request *)

(** The text of one output's chunk; an error of the tokenizer drops its text. *)
Definition chunk_text (tk : Tokenizer) (outputs : list CompletionOutput) : string :=
  foldl (λ text co,
    match co_token_ids co with
    | [] => text
    | ids => match tk_decode tk ids true with Some t => text +:+ t | None => text end
    end) "" outputs.

Definition engine_finish_reason (output : RequestOutput) : option string :=
  finish_reason_to_openai <$> (head (ro_outputs output) ≫= co_finish_reason).

Definition content_chunk (content : option string) (calls : option (list ToolCallDelta)) (reason : option string) : Event :=
  E_Chunk (mkChunkChoice 0 (mkChunkDelta None content calls) reason).

Section serve.
Context (from_str : string → option Json) (to_string : Json → option string) (read_stream : bytes → option (list Json)) (uuid : nat → string).

(** The event of a finished output when tools were supplied: the whole buffered
    text is decoded and parsed. *)
Definition tools_event (tk : Tokenizer) (tools : list ChatCompletionTool) (buffered : list TokenId) (reason : option string) : option Event :=
  let text := default "" (tk_decode tk buffered true) in
  parsed ← parse_chat_output from_str to_string read_stream uuid text (Some tools);
  Some (content_chunk (po_content parsed) (tool_calls_to_deltas <$> po_tool_calls parsed)
          (if is_some (po_tool_calls parsed) then Some "tool_calls" else reason)).

(** The loop over the outputs; [None] is a panic.  With [Closed] or a finished
    output the stream ends in [E_Done]; otherwise it stays open. *)
Fixpoint stream_loop (tk : Tokenizer) (tools : option (list ChatCompletionTool)) (outputs : list RequestOutput) (ends : StreamEnd)
    (buffered : list TokenId) : option (list Event) :=
  match outputs with
  | [] => Some (match ends with Closed => [E_Done] | Silent => [] end)
  | output :: outputs =>
      let reason := engine_finish_reason output in
      let buffered := match tools with
                      | Some _ => buffered ++ concat (co_token_ids <$> ro_outputs output)
                      | None => buffered
                      end in
      events ← match tools with
               | Some tools => if ro_finished output then e ← tools_event tk tools buffered reason; Some [e] else Some []
               | None =>
                   let text := chunk_text tk (ro_outputs output) in
                   Some (if negb (str_is_empty text) || is_some reason then [content_chunk (Some text) None reason] else [])
               end;
      rest ← if ro_finished output then Some [E_Done] else stream_loop tk tools outputs ends buffered;
      Some (events ++ rest)
  end.

(** ** The chat endpoint *)

(** The build with structured outputs checks them; without, it refuses them. *)
Context (validate_structured : option (StructuredOutputParams Json → result unit string)) (json_text : Json → string).

Definition sampling_checks (params : SamplingParams Json) : result unit Response :=
  match validate json_text params with
  | Err e => Err (bad_request (A_Sampling e))
  | Ok _ =>
      match structured_outputs params, validate_structured with
      | None, _ => Ok ()
      | Some _, None => Err (bad_request A_Feature)
      | Some p, Some check => match check p with Ok _ => Ok () | Err m => Err (bad_request (A_Structured m)) end
      end
  end.

Definition or_bad_request {A} (m : result A RequestError) : result A Response :=
  match m with Ok a => Ok a | Err e => Err (bad_request (A_Request e)) end.
Definition or_internal {A} (e : ApiError) (m : option A) : result A Response :=
  match m with Some a => Ok a | None => Err (internal e) end.

Definition chat_checks (st : AppState) (req : ChatCompletionRequest) : result unit Response :=
  _ <-? or_bad_request (validate_structured_output_request (cr_structured_outputs req) (cr_response_format req));
  _ <-? or_bad_request (validate_tool_call_request from_str req);
  _ <-? sampling_checks (chat_request_to_sampling_params req);
  require negb (length (cr_messages req) =? 0) else bad_request A_NoMessages;
  require negb (as_max_input_messages st <? length (cr_messages req)) else bad_request (A_TooManyMessages (as_max_input_messages st));
  Ok ().

(** The prompt and its tokens. *)
Definition chat_prompt (tk : Tokenizer) (req : ChatCompletionRequest) : result (string * list TokenId) Response :=
  messages <-? or_bad_request (messages_for_chat_template from_str req);
  tools <-? or_bad_request (tools_for_chat_template from_str req);
  tool_choice <-? or_bad_request (tool_choice_for_chat_template from_str req);
  prompt <-? or_internal A_Render (tk_render tk messages tools tool_choice (default true (cr_parallel_tool_calls req)) true);
  token_ids <-? or_internal A_Tokenize (tk_encode tk prompt false);
  match validate json_text (chat_request_to_sampling_params req) with
  | Err e => Err (bad_request (A_Sampling e))
  | Ok _ => Ok (prompt, token_ids)
  end.

Definition response_tools (req : ChatCompletionRequest) : option (list ChatCompletionTool) :=
  match cr_tool_choice req with Some (Mode TC_None) => None | _ => cr_tools req end.

Definition is_stream (o : option bool) : bool := default false o.

(** A handler's response, with what it submitted to the engine; [None] is a panic. *)
Definition Handled : Type := option (Response * option (InferenceRequest Json)).

Definition chat_response (c : EngineCompletion) (tools : option (list ChatCompletionTool)) : option Response :=
  parsed ← parse_chat_output from_str to_string read_stream uuid (ec_text c) tools;
  let finish_reason := if is_some (po_tool_calls parsed) then "tool_calls" else ec_finish_reason c in
  Some (R_Chat [mkChatChoice 0 (assistant (po_content parsed) (po_tool_calls parsed)) (Some finish_reason)] (ec_usage c)).

Definition chat_completions_handler (id now : N) (st : AppState) (req : ChatCompletionRequest) : Handled :=
  match chat_checks st req with
  | Err r => Some (r, None)
  | Ok _ =>
      match as_runtime st with
      | None => Some (if is_stream (cr_stream req) then placeholder_chat_stream_response else placeholder_chat_response, None)
      | Some rt =>
          match chat_prompt (rt_tokenizer rt) req with
          | Err r => Some (r, None)
          | Ok (prompt, token_ids) =>
              let params := chat_request_to_sampling_params req in
              if is_stream (cr_stream req) then
                let r := inference_request id now (Some prompt) token_ids params true in
                match rt_add_request_stream rt r with
                | None => Some (internal A_Submit, Some r)
                | Some rc =>
                    events ← stream_loop (rt_tokenizer rt) (response_tools req) (rc_outputs rc) (rc_end rc) [];
                    Some (R_Stream (E_Chunk (role_chunk None) :: events), Some r)
                end
              else
                let r := inference_request id now (Some prompt) token_ids params false in
                match submit_and_collect rt r token_ids with
                | Err _ => Some (error_response, Some r)
                | Ok c => response ← chat_response c (response_tools req); Some (response, Some r)
                end
          end
      end
  end.

(** ** The completions endpoint *)
Definition newline : string := string_of [10%N].

Definition prompt_text (p : PromptInput) : string :=
  match p with PromptSingle s => s | PromptMultiple items => String.concat newline items end.

Definition completion_checks (req : CompletionRequest) : result unit Response :=
  _ <-? or_bad_request (validate_structured_output_request (pr_structured_outputs req) (pr_response_format req));
  _ <-? sampling_checks (completion_request_to_sampling_params req);
  require negb (match pr_prompt req with PromptMultiple items => 16 <? length items | PromptSingle _ => false end)
    else bad_request A_TooManyPrompts;
  Ok ().

Definition run_text_completion (id now : N) (rt : ModelRuntime) (req : CompletionRequest) :
    result EngineCompletion CollectError * option (InferenceRequest Json) :=
  let prompt := prompt_text (pr_prompt req) in
  match tk_encode (rt_tokenizer rt) prompt true with
  | None => (Err CE_Tokenize, None)
  | Some token_ids =>
      let params := completion_request_to_sampling_params req in
      match validate json_text params with
      | Err e => (Err (CE_Sampling e), None)
      | Ok _ =>
          let r := inference_request id now (Some prompt) token_ids params false in
          (submit_and_collect rt r token_ids, Some r)
      end
  end.

Definition completions_handler (id now : N) (st : AppState) (req : CompletionRequest) : Handled :=
  match completion_checks req with
  | Err r => Some (r, None)
  | Ok _ =>
      match as_runtime st with
      | None => Some (placeholder_completion_response, None)
      | Some rt =>
          let '(result, r) := run_text_completion id now rt req in
          Some (match result with
                | Ok c => R_Completion [mkCompletionChoice 0 (ec_text c) (Some (ec_finish_reason c))] (ec_usage c)
                | Err _ => error_response
                end, r)
      end
  end.
End serve.

(** ** Authentication *)

(** Authentication.  With a key set, exactly the requests whose header is
    [Bearer] and that key pass; without one, all do. *)
Theorem auth_exact st header :
  auth_middleware st header = true
  ↔ ∀ key, as_api_key st = Some key → header = Some ("Bearer " +:+ key).
Proof.
  unfold auth_middleware. destruct (as_api_key st) as [key|]; [| by split].
  unfold strip_prefix. destruct header as [v|]; cbn [mbind option_bind].
  - destruct (starts_with (bytes_of v) (bytes_of "Bearer ")) eqn:E.
    + apply starts_with_spec in E as [t Et]. rewrite Et, drop_app_length, bool_decide_eq_true. split.
      * intros -> ? [= <-]. f_equal. apply bytes_of_inj. by rewrite Et, bytes_of_app.
      * intros H. specialize (H key eq_refl). injection H as ->. rewrite bytes_of_app in Et. by apply app_inv_head in Et.
    + split; [done |]. intros H. specialize (H key eq_refl). injection H as ->.
      assert (starts_with (bytes_of ("Bearer " +:+ key)) (bytes_of "Bearer ") = true); [| congruence].
      apply starts_with_spec. rewrite bytes_of_app. by eexists.
  - split; [done |]. intros H. by specialize (H key eq_refl).
Qed.

(** ** What the engine sends *)

(** Every output of the engine carries one completion, which has a finish reason
    exactly when the output ends the request. *)
Definition one_completion (o : RequestOutput) : Prop :=
  ∃ co, ro_outputs o = [co] ∧ ro_finished o = bool_decide (is_Some (co_finish_reason co)).

Definition output_ids (o : RequestOutput) : list TokenId := concat (co_token_ids <$> ro_outputs o).
Definition output_reason (o : RequestOutput) : option FinishReason := head (ro_outputs o) ≫= co_finish_reason.

(** The outputs up to the one that ends the request, and how it ends. *)
Inductive ends_with_reason : list RequestOutput → list TokenId → FinishReason → Prop :=
  | er_last o rest r : output_reason o = Some r → ends_with_reason (o :: rest) (output_ids o) r
  | er_more o rest ids r : output_reason o = None → ends_with_reason rest ids r → ends_with_reason (o :: rest) (output_ids o ++ ids) r.

Lemma one_completion_shape o : one_completion o →
  ∃ co, ro_outputs o = [co] ∧ output_ids o = co_token_ids co ∧ output_reason o = co_finish_reason co
    ∧ ro_finished o = bool_decide (is_Some (co_finish_reason co)).
Proof.
  intros (co & E & Hf). exists co. unfold output_ids, output_reason. rewrite E. cbn. by rewrite app_nil_r.
Qed.

Lemma collect_ends outputs ends ids r : Forall one_completion outputs → ends_with_reason outputs ids r →
  ∀ acc reason, collect outputs ends acc reason
  = match r with FR_Error => Err CE_Executor | _ => Ok (acc ++ ids, finish_reason_to_openai r) end.
Proof.
  intros Hall. induction 1 as [o rest r Ho | o rest ids r Ho _ IH]; intros acc reason; cbn [collect];
    inversion Hall as [|? ? (co & E & Ei & Er & Hf)%one_completion_shape Hrest]; subst; rewrite E, Ei; rewrite Er in Ho; cbn [take_completions].
  - rewrite Ho in *. rewrite Hf, bool_decide_eq_true_2 by by eexists. by destruct r.
  - rewrite Ho in *. cbn [result_bind]. rewrite Hf, bool_decide_eq_false_2 by by intros []. cbn [fst snd].
    rewrite IH by done. destruct r; by rewrite ?app_assoc.
Qed.

Lemma collect_unfinished outputs ends : Forall one_completion outputs → (∀ o, o ∈ outputs → output_reason o = None) →
  ∀ acc reason, collect outputs ends acc reason = Err (match ends with Closed => CE_Closed | Silent => CE_Timeout end).
Proof.
  induction 1 as [|o outputs (co & E & Ei & Er & Hf)%one_completion_shape _ IH]; intros Hn acc reason; cbn [collect]; [done |].
  assert (Ho : co_finish_reason co = None) by (rewrite <- Er; apply Hn; by left).
  rewrite E. cbn [take_completions]. rewrite Ho in *. cbn [result_bind].
  rewrite Hf, bool_decide_eq_false_2 by by intros []. apply IH. intros o' Ho'. apply Hn. by right.
Qed.

Lemma ends_or_not outputs : (∃ ids r, ends_with_reason outputs ids r) ∨ ∀ o, o ∈ outputs → output_reason o = None.
Proof.
  induction outputs as [|o outputs IH]; [right; by intros o ?%elem_of_nil |].
  destruct (output_reason o) as [r|] eqn:E; [left; eexists _, r; by constructor |].
  destruct IH as [(ids & r & H)|H]; [left; eexists _, r; by apply er_more |].
  right. intros o' [->|Ho']%elem_of_cons; [done | by apply H].
Qed.

(** ** Streams and responses *)

(** What a client of the stream puts together: text, calls and finish reasons. *)
Definition event_text (e : Event) : string :=
  match e with E_Chunk c => default "" (cd_content (ck_delta c)) | E_Done => "" end.
Definition stream_text (events : list Event) : string := foldr (λ e s, event_text e +:+ s) "" events.
Definition stream_deltas (events : list Event) : list ToolCallDelta :=
  events ≫= λ e, match e with E_Chunk c => default [] (cd_tool_calls (ck_delta c)) | E_Done => [] end.
Definition stream_finish (events : list Event) : list string :=
  events ≫= λ e, match e with E_Chunk c => option_list (ck_finish_reason c) | E_Done => [] end.

(** The events carry the calls and the finish reason of the choice. *)
Definition agrees (events : list Event) (choice : ChatChoice) : Prop :=
  stream_deltas events = default [] (tool_calls_to_deltas <$> rm_tool_calls (cc_message choice))
  ∧ stream_finish events = option_list (cc_finish_reason choice).

(** The outputs up to the one that ends the request, the tokens they carry, and
    their texts, each decoded on its own. *)
Fixpoint upto_end (outputs : list RequestOutput) : list RequestOutput :=
  match outputs with
  | [] => []
  | o :: outputs => o :: (if ro_finished o then [] else upto_end outputs)
  end.
Definition sent_ids (outputs : list RequestOutput) : list TokenId := upto_end outputs ≫= output_ids.
Definition decoded_apart (tk : Tokenizer) (outputs : list RequestOutput) : string :=
  foldr (λ o s, chunk_text tk (ro_outputs o) +:+ s) "" (upto_end outputs).

Lemma ends_sent outputs ids r : Forall one_completion outputs → ends_with_reason outputs ids r → sent_ids outputs = ids.
Proof.
  intros Hall. induction 1 as [o rest r Ho | o rest ids r Ho _ IH];
    inversion Hall as [|? ? (co & E & Ei & Er & Hf)%one_completion_shape Hrest]; subst; rewrite Er in Ho;
    unfold sent_ids in *; cbn [upto_end].
  - rewrite Hf, bool_decide_eq_true_2 by (rewrite Ho; by eexists). cbn. by rewrite app_nil_r.
  - rewrite Hf, bool_decide_eq_false_2 by (rewrite Ho; by intros []). cbn [mbind list_bind]. f_equal. by apply IH.
Qed.

Definition with_stream (b : bool) (req : ChatCompletionRequest) : ChatCompletionRequest :=
  mkChatRequest (cr_model req) (cr_messages req) (cr_temperature req) (cr_top_p req) (cr_max_tokens req) (Some b)
    (cr_stop req) (cr_n req) (cr_logprobs req) (cr_top_logprobs req) (cr_presence_penalty req) (cr_frequency_penalty req)
    (cr_seed req) (cr_structured_outputs req) (cr_response_format req) (cr_tools req) (cr_tool_choice req)
    (cr_parallel_tool_calls req).

Lemma str_app_nil s : s +:+ "" = s.
Proof. induction s as [|a s IH]; [done |]. change (String a (s +:+ "") = String a s). by rewrite IH. Qed.

Lemma str_app_assoc s t u : s +:+ (t +:+ u) = (s +:+ t) +:+ u.
Proof. induction s as [|a s IH]; [done |]. change (String a (s +:+ (t +:+ u)) = String a ((s +:+ t) +:+ u)). by rewrite IH. Qed.

Lemma engine_reason o co : ro_outputs o = [co] → engine_finish_reason o = finish_reason_to_openai <$> co_finish_reason co.
Proof. unfold engine_finish_reason. by intros ->. Qed.

Section agreement.
Context (from_str : string → option Json) (to_string : Json → option string) (read_stream : bytes → option (list Json)) (uuid : nat → string).
#[local] Abbreviation loop := (stream_loop from_str to_string read_stream uuid).

(** The event of an output without tools. *)
Lemma plain_events_ok t reason :
  let events := if negb (str_is_empty t) || is_some reason then [content_chunk (Some t) None reason] else [] in
  stream_text events = t ∧ stream_deltas events = [] ∧ stream_finish events = option_list reason.
Proof.
  destruct t as [|a t], reason as [r|]; cbn; try done; by rewrite str_app_nil.
Qed.

Lemma stream_text_app e1 e2 : stream_text (e1 ++ e2) = stream_text e1 +:+ stream_text e2.
Proof.
  induction e1 as [|e e1 IH]; [done |]. unfold stream_text in *. cbn [app foldr]. rewrite IH.
  by rewrite str_app_assoc.
Qed.

Lemma stream_plain tk outputs ends ids r : Forall one_completion outputs → ends_with_reason outputs ids r →
  ∃ events, loop tk None outputs ends [] = Some (events ++ [E_Done])
    ∧ stream_text events = decoded_apart tk outputs ∧ stream_deltas events = [] ∧ stream_finish events = [finish_reason_to_openai r].
Proof.
  intros Hall He. revert Hall.
  induction He as [o rest r Ho | o rest ids r Ho _ IH]; intros Hall; cbn [stream_loop];
    inversion Hall as [|? ? (co & E & Ei & Er & Hf)%one_completion_shape Hrest]; subst; rewrite Er in Ho;
    unfold decoded_apart; cbn [upto_end foldr].
  - rewrite Hf, bool_decide_eq_true_2 by (rewrite Ho; by eexists). rewrite E, (engine_reason _ _ E), Ho. cbn [foldr]. rewrite str_app_nil.
    cbn [mbind option_bind fmap option_fmap option_map].
    destruct (plain_events_ok (chunk_text tk [co]) (Some (finish_reason_to_openai r))) as (H1 & H2 & H3).
    eexists. split; [done |]. split_and!; [exact H1 | exact H2 | exact H3].
  - rewrite Hf, bool_decide_eq_false_2 by (rewrite Ho; by intros []). rewrite E, (engine_reason _ _ E), Ho. cbn [foldr].
    cbn [mbind option_bind fmap option_fmap option_map]. destruct (IH Hrest) as (events & -> & T & D & F). cbn [mbind option_bind].
    destruct (plain_events_ok (chunk_text tk [co]) None) as (H1 & H2 & H3). eexists (_ ++ events). rewrite <- app_assoc. split; [done |].
    rewrite stream_text_app, H1, T. unfold stream_deltas, stream_finish in *. by rewrite !bind_app, H2, H3, D, F.
Qed.

Lemma stream_tools tk tools outputs ends ids r : Forall one_completion outputs → ends_with_reason outputs ids r →
  ∀ b, loop tk (Some tools) outputs ends b
  = (e ← tools_event from_str to_string read_stream uuid tk tools (b ++ ids) (Some (finish_reason_to_openai r)); Some [e; E_Done]).
Proof.
  intros Hall. induction 1 as [o rest r Ho | o rest ids r Ho _ IH]; intros b; cbn [stream_loop];
    inversion Hall as [|? ? (co & E & Ei & Er & Hf)%one_completion_shape Hrest]; subst; fold (output_ids o); rewrite Er in Ho.
  - rewrite Hf, bool_decide_eq_true_2 by (rewrite Ho; by eexists). rewrite (engine_reason _ _ E), Ho. cbn [fmap option_fmap option_map].
    destruct (tools_event _ _ _ _ _ _ _ _) as [e|]; done.
  - rewrite Hf, bool_decide_eq_false_2 by (rewrite Ho; by intros []). cbn [mbind option_bind]. rewrite IH, <- app_assoc by done.
    destruct (tools_event _ _ _ _ _ _ _ _) as [e|]; done.
Qed.
End agreement.

Section endpoints.
Context (from_str : string → option Json) (to_string : Json → option string) (read_stream : bytes → option (list Json)) (uuid : nat → string).
Context (validate_structured : option (StructuredOutputParams Json → result unit string)) (json_text : Json → string).
#[local] Abbreviation chat := (chat_completions_handler from_str to_string read_stream uuid validate_structured json_text).

#[local] Ltac split_checks H :=
  repeat match type of H with
    | result_bind ?m _ = _ => destruct m as [?|?] eqn:?; cbn [result_bind] in H
    | (if ?b then _ else _) = _ => destruct b eqn:?
    | Ok _ = Err _ => discriminate H
    | Err _ = Ok _ => discriminate H
    end.

Lemma or_bad_request_Err {A} (m : result A RequestError) r : or_bad_request m = Err r → ∃ e, m = Err e ∧ r = bad_request (A_Request e).
Proof. destruct m; cbn; intros [= <-]; by eexists. Qed.

Lemma or_bad_request_Ok {A} (m : result A RequestError) a : or_bad_request m = Ok a → m = Ok a.
Proof. by destruct m; cbn; intros [= <-]. Qed.

Lemma or_internal_Err {A} e (m : option A) r : or_internal e m = Err r → m = None ∧ r = internal e.
Proof. by destruct m; cbn; intros [= <-]. Qed.

Lemma or_internal_Ok {A} e (m : option A) a : or_internal e m = Ok a → m = Some a.
Proof. by destruct m; cbn; intros [= <-]. Qed.

Lemma sampling_checks_Err params r : sampling_checks validate_structured json_text params = Err r → ∃ e, r = bad_request e.
Proof.
  unfold sampling_checks. intros H. repeat case_match; simplify_eq; by eexists.
Qed.

Lemma chat_checks_Err st req r : chat_checks from_str validate_structured json_text st req = Err r → ∃ e, r = bad_request e.
Proof.
  unfold chat_checks. intros H. split_checks H; simplify_eq;
    repeat match goal with
      | E : or_bad_request _ = Err _ |- _ => apply or_bad_request_Err in E as (? & _ & ->)
      | E : sampling_checks _ _ _ = Err _ |- _ => apply sampling_checks_Err in E as [? ->]
      end; by eexists.
Qed.

Lemma chat_prompt_Err tk req r : chat_prompt from_str json_text tk req = Err r → ∃ status e ty, r = R_Error status e ty.
Proof.
  unfold chat_prompt. intros H. split_checks H; repeat case_match; simplify_eq;
    repeat match goal with
      | E : or_bad_request _ = Err _ |- _ => apply or_bad_request_Err in E as (? & _ & ->)
      | E : or_internal _ _ = Err _ |- _ => apply or_internal_Err in E as [_ ->]
      end; by do 3 eexists.
Qed.

(** C28. Streaming.  When the engine answers the same, a streamed chat gives the client
    the tool calls and the finish reason of the single response, then the end mark.
    With tools its text is that of the response too.  Without, the response holds
    the decoding of all the tokens up to the end of the request, and the stream the
    texts of the outputs that carry them, each decoded on its own: the same text
    exactly when the tokenizer decodes these outputs as it decodes their
    concatenation ([stream_splits_character] is a run where it does not). *)
Theorem stream_agrees_with_response id now st req rt rc choices usage sub :
  as_runtime st = Some rt → (∀ r, rt_add_request_stream rt r = Some rc) → Forall one_completion (rc_outputs rc) →
  chat id now st (with_stream false req) = Some (R_Chat choices usage, sub) →
  ∃ events choice sub', chat id now st (with_stream true req) = Some (R_Stream (E_Chunk (role_chunk None) :: events ++ [E_Done]), sub')
    ∧ choices = [choice] ∧ agrees events choice
    ∧ match response_tools req with
      | Some _ => stream_text events = default "" (rm_content (cc_message choice))
      | None => rm_content (cc_message choice) = tk_decode (rt_tokenizer rt) (sent_ids (rc_outputs rc)) true
                ∧ stream_text events = decoded_apart (rt_tokenizer rt) (rc_outputs rc)
      end.
Proof.
  intros Hrt Hadd Hall. unfold chat_completions_handler.
  change (chat_checks from_str validate_structured json_text st (with_stream true req))
    with (chat_checks from_str validate_structured json_text st (with_stream false req)).
  destruct (chat_checks _ _ _ _ _) as [?|e] eqn:Ec; [| apply chat_checks_Err in Ec as [? ->]; discriminate]. rewrite Hrt.
  change (chat_prompt from_str json_text (rt_tokenizer rt) (with_stream true req))
    with (chat_prompt from_str json_text (rt_tokenizer rt) (with_stream false req)).
  destruct (chat_prompt _ _ _ _) as [[prompt token_ids]|e] eqn:Ep; [| apply chat_prompt_Err in Ep as (? & ? & ? & ->); discriminate].
  change (is_stream (cr_stream (with_stream false req))) with false. change (is_stream (cr_stream (with_stream true req))) with true.
  change (response_tools (with_stream ?b req)) with (response_tools req). cbn iota. unfold submit_and_collect. rewrite !Hadd.
  destruct (ends_or_not (rc_outputs rc)) as [(ids & r & He)|Hn]; [| rewrite collect_unfinished by done; by destruct (rc_end rc)].
  rewrite (collect_ends _ _ _ _ Hall He). cbn [app].
  destruct (decide (r = FR_Error)) as [->|Hr]; [done |].
  replace (match r with FR_Error => Err CE_Executor | _ => Ok (ids, finish_reason_to_openai r) end)
    with (@Ok _ CollectError (ids, finish_reason_to_openai r)) by (by destruct r).
  cbn [result_bind fst snd]. destruct (tk_decode (rt_tokenizer rt) ids true) as [text|] eqn:Ed; [| done].
  unfold chat_response. cbn [ec_text ec_usage ec_finish_reason]. unfold chat_response.
  destruct (response_tools req) as [tools|] eqn:Et.
  - rewrite (stream_tools _ _ _ _ _ _ _ _ _ _ Hall He). cbn [app]. unfold tools_event. rewrite Ed. change (default "" (Some text)) with text.
    destruct (parse_chat_output _ _ _ _ text (Some tools)) as [parsed|]; [| done]. cbn [mbind option_bind]. intros [= <- <- <-].
    eexists [_], _, _. split; [done |]. split; [done |]. unfold agrees. cbn. rewrite str_app_nil.
    split_and!; [by destruct (po_tool_calls parsed); cbn; rewrite ?app_nil_r | by destruct (po_tool_calls parsed) | done].
  - destruct (stream_plain from_str to_string read_stream uuid (rt_tokenizer rt) _ (rc_end rc) _ _ Hall He) as (events & -> & H1 & H2 & H3).
    intros [= <- <- <-]. eexists events, _, _. split; [done |]. split; [done |]. rewrite (ends_sent _ _ _ Hall He), Ed. by split_and!.
Qed.

(** ** What is submitted *)
Record acceptable (st : AppState) (req : ChatCompletionRequest) : Prop := {
  ac_formats : cr_structured_outputs req = None ∨ cr_response_format req = None;
  ac_tools : tool_request_valid from_str req;
  ac_sampling : validate json_text (chat_request_to_sampling_params req) = Ok ();
  ac_structured : ∀ p, structured_outputs (chat_request_to_sampling_params req) = Some p →
                    ∃ check, validate_structured = Some check ∧ check p = Ok ();
  ac_messages : 0 < length (cr_messages req) ≤ as_max_input_messages st;
}.

Lemma or_bad_request_iff (m : result unit RequestError) : or_bad_request m = Ok () ↔ m = Ok ().
Proof. destruct m as [[]|]; cbn; naive_solver. Qed.

Lemma sampling_checks_iff params : sampling_checks validate_structured json_text params = Ok ()
  ↔ validate json_text params = Ok () ∧ ∀ p, structured_outputs params = Some p → ∃ check, validate_structured = Some check ∧ check p = Ok ().
Proof.
  unfold sampling_checks. destruct (validate json_text params) as [[]|e]; [| naive_solver].
  destruct (structured_outputs params) as [p|], validate_structured as [check|]; cbn; [| naive_solver..].
  destruct (check p) as [[]|] eqn:E; [naive_solver |]. split; [done |]. intros [_ H]. destruct (H p eq_refl) as (? & [= <-] & ?). congruence.
Qed.

Lemma chat_checks_iff st req : chat_checks from_str validate_structured json_text st req = Ok () ↔ acceptable st req.
Proof.
  unfold chat_checks. rewrite !bind_unit_ok, !or_bad_request_iff, sampling_checks_iff, tool_request_valid_iff, !require_ok, !negb_true_iff.
  rewrite Nat.eqb_neq, Nat.ltb_ge. unfold validate_structured_output_request. rewrite require_ok, negb_true_iff, andb_false_iff, !is_some_None.
  split.
  - intros ([H1 _] & H2 & [H3 H4] & H5 & H6 & _). split; try done. lia.
  - intros [H1 H2 H3 H4 H5]. split_and!; try done; lia.
Qed.

(** The gate.  A chat request that is not acceptable gets an error 400 and
    submits nothing.  What is submitted comes from an acceptable request: its
    prompt is the template's rendering of the request's messages and shown tools,
    its tokens are the prompt's, and its sampling parameters are those asked for. *)
Theorem chat_handler_gate id now st req resp submitted :
  chat id now st req = Some (resp, submitted) →
  (¬ acceptable st req → submitted = None ∧ ∃ e, resp = bad_request e)
  ∧ ∀ r, submitted = Some r →
      acceptable st req
      ∧ ∃ rt tools choice prompt ids, as_runtime st = Some rt
          ∧ tools_for_chat_template from_str req = Ok tools ∧ tool_choice_for_chat_template from_str req = Ok choice
          ∧ tk_render (rt_tokenizer rt) (template_value from_str <$> cr_messages req) tools choice (default true (cr_parallel_tool_calls req)) true = Some prompt
          ∧ tk_encode (rt_tokenizer rt) prompt false = Some ids
          ∧ r = inference_request id now (Some prompt) ids (chat_request_to_sampling_params req) (is_stream (cr_stream req)).
Proof.
  unfold chat_completions_handler. destruct (chat_checks _ _ _ st req) as [[]|e] eqn:Ec; intros H.
  2: { injection H as <- <-. apply chat_checks_Err in Ec as [e' ->]. split; [intros _; split; [done | by eexists] | done]. }
  apply chat_checks_iff in Ec. split; [done |]. intros r ->. split; [done |].
  destruct (as_runtime st) as [rt|]; [| by destruct (is_stream _)].
  destruct (chat_prompt _ _ _ req) as [[prompt ids]|e] eqn:Ep; [| done].
  assert (Hr : r = inference_request id now (Some prompt) ids (chat_request_to_sampling_params req) (is_stream (cr_stream req))).
  { destruct (is_stream (cr_stream req)).
    - destruct (rt_add_request_stream rt _) as [rc|]; [| by injection H]. by apply bind_Some in H as (ev & _ & [= _ <-]).
    - destruct (submit_and_collect rt _ ids) as [c|]; [| by injection H]. by apply bind_Some in H as (re & _ & [= _ <-]). }
  clear H. unfold chat_prompt in Ep. apply bind_ok in Ep as (ms & Hm%or_bad_request_Ok & Ep). apply bind_ok in Ep as (tools & Ht%or_bad_request_Ok & Ep).
  apply bind_ok in Ep as (choice & Hc%or_bad_request_Ok & Ep). apply bind_ok in Ep as (p & Hp%or_internal_Ok & Ep).
  apply bind_ok in Ep as (ts & Hts%or_internal_Ok & Ep). case_match; simplify_eq.
  assert (ms = template_value from_str <$> cr_messages req) as ->.
  { unfold messages_for_chat_template in Hm. rewrite (proj2 (tool_request_valid_iff _ _) (ac_tools _ _ Ec)) in Hm. cbn [result_bind] in Hm.
    rewrite template_messages_ok in Hm by apply (ac_tools _ _ Ec). by injection Hm. }
  by exists rt, tools, choice, prompt, ids.
Qed.
End endpoints.

(** ** A concrete server

    A tokenizer with one token per byte, decoded as such, and one that decodes
    bytes as UTF-8. *)
Lemma string_of_app a b : string_of (a ++ b) = string_of a +:+ string_of b.
Proof. induction a as [|x a IH]; [done |]. cbn. by rewrite IH. Qed.

Definition demo_tokenizer : Tokenizer :=
  mkTokenizer (λ _ _ _ _ _, Some "prompt") (λ s _, Some (bytes_of s)) (λ ids _, Some (string_of ids)).
Definition utf8_tokenizer : Tokenizer :=
  mkTokenizer (λ _ _ _ _ _, Some "prompt") (λ s _, Some (bytes_of s)) (λ ids _, Some (string_of (from_utf8_lossy ids))).

Definition demo_output (ids : list TokenId) (reason : option FinishReason) : RequestOutput :=
  mkRequestOutput 7 [mkCompletionOutput 0 "" ids reason None] (bool_decide (is_Some reason)) (mkUsage 0 0 0).

(** The engine answers every request with the text, one byte per output. *)
Definition demo_outputs (text : bytes) : list RequestOutput :=
  ((λ b, demo_output [b] None) <$> text) ++ [demo_output [] (Some FR_Stop)].
Definition demo_received (text : bytes) : Received := mkReceived (demo_outputs text) Closed.
Definition demo_state (tk : Tokenizer) (text : bytes) : AppState :=
  mkAppState "model" (Some (mkRuntime tk (λ _, Some (demo_received text)))) (Some "key") 4.

Definition demo_chat : ChatCompletionRequest :=
  mkChatRequest "model" [mkMessage "user" (Some "hi") None None None] None None None None None None None None None None None
    None None None None None.
Definition demo_completion : CompletionRequest :=
  mkCompletionRequest "model" (PromptMultiple ["one"; "two"]) None None None None (Some true) (Some (StopSingle "b")) None None None None None
    None None.

#[local] Abbreviation demo_handler := (chat_completions_handler toy_from_str toy_to_string toy_stream (λ _, "0") None (λ _, "")).

Lemma demo_one_completion text : Forall one_completion (demo_outputs text).
Proof.
  apply Forall_app. split; [| repeat constructor; by eexists].
  apply Forall_fmap, Forall_true. intros b. by eexists.
Qed.

Lemma stream_agrees_with_response_witness :
  ∃ events, stream_text events = "abc"
    ∧ ∃ sub, demo_handler 1 2 (demo_state demo_tokenizer (bytes_of "abc")) (with_stream true demo_chat)
             = Some (R_Stream (E_Chunk (role_chunk None) :: events ++ [E_Done]), sub).
Proof.
  destruct (stream_agrees_with_response toy_from_str toy_to_string toy_stream (λ _, "0") None (λ _, "") 1 2
    (demo_state demo_tokenizer (bytes_of "abc")) demo_chat (mkRuntime demo_tokenizer (λ _, Some (demo_received (bytes_of "abc"))))
    (demo_received (bytes_of "abc")) [mkChatChoice 0 (assistant (Some "abc") None) (Some "stop")] (mkUsageInfo 6 3 9)
    (Some (inference_request 1 2 (Some "prompt") (bytes_of "prompt") (chat_request_to_sampling_params demo_chat) false)))
    as (events & choice & sub & E & Hc & _ & _ & H);
    [reflexivity | reflexivity | apply demo_one_completion | by vm_compute |].
  exists events. split; [exact H | by exists sub].
Defined.

Lemma chat_handler_gate_witness :
  acceptable toy_from_str None (λ _, "") (demo_state demo_tokenizer (bytes_of "abc")) demo_chat.
Proof.
  destruct (chat_handler_gate toy_from_str toy_to_string toy_stream (λ _, "0") None (λ _, "") 1 2
    (demo_state demo_tokenizer (bytes_of "abc")) demo_chat
    (R_Chat [mkChatChoice 0 (assistant (Some "abc") None) (Some "stop")] (mkUsageInfo 6 3 9))
    (Some (inference_request 1 2 (Some "prompt") (bytes_of "prompt") (chat_request_to_sampling_params demo_chat) false))) as [_ H];
    [by vm_compute |].
  by destruct (H _ eq_refl) as [Ha _].
Defined.

(** Chunks are decoded one by one: a character whose bytes arrive in two outputs
    reaches a streaming client as two replacement characters, while the single
    response holds the character. *)
Example stream_splits_character :
  demo_handler 1 2 (demo_state utf8_tokenizer [195; 169]%N) (with_stream false demo_chat)
    = Some (R_Chat [mkChatChoice 0 (assistant (Some (string_of [195; 169]%N)) None) (Some "stop")] (mkUsageInfo 6 2 8),
            Some (inference_request 1 2 (Some "prompt") (bytes_of "prompt") (chat_request_to_sampling_params demo_chat) false))
  ∧ match demo_handler 1 2 (demo_state utf8_tokenizer [195; 169]%N) (with_stream true demo_chat) with
    | Some (R_Stream events, _) => stream_text events = string_of (replacement ++ replacement)
    | _ => False
    end.
Proof. by split; vm_compute. Qed.

(** The completions endpoint answers a request for a stream with a single response,
    joins its prompts into one, and returns text past its stop string. *)
Example completion_options_ignored :
  match completions_handler None (λ _, "") 1 2 (demo_state demo_tokenizer (bytes_of "abc")) demo_completion with
  | Some (R_Completion [c] _, Some r) => pc_text c = "abc" ∧ prompt r = Some (string_of (bytes_of "one" ++ [10%N] ++ bytes_of "two"))
  | _ => False
  end.
Proof. by split; vm_compute. Qed.

(** A stream that closes before the request is finished loses the text buffered for
    tool calls. *)
Example closed_stream_loses_buffer :
  stream_loop toy_from_str toy_to_string toy_stream (λ _, "0") demo_tokenizer (Some toy_tools) [demo_output (bytes_of "abc") None] Closed []
  = Some [E_Done].
Proof. by vm_compute. Qed.
