(* ===== verification/Grpc.v ===== *)
(** * The gRPC server (rllm-server/src/grpc.rs, proto/rllm/v1/inference.proto)

    The messages, their conversion to the OpenAI requests, and the handlers, which
    share the engine and the collection of its outputs with the HTTP server.  The
    main theorem: on the same request both servers answer the same. *)
From S2P Require Import Prelude F32 CoreTypes Request Json Utf8 Text OpenAi Server.
#[local] Open Scope string_scope.
#[local] Open Scope list_scope.
#[local] Open Scope nat_scope.
#[local] Open Scope rllm_scope.

(** ** Messages *)
Module Pb.
Record FunctionCall : Type := mkFunctionCall { fc_name : string; fc_arguments : string }.
Record ToolCall : Type := mkToolCall { tc_id : string; tc_type : string; tc_function : option FunctionCall }.
Record ChatMessage : Type := mkChatMessage {
  cm_role : string;
  cm_content : option string;
  cm_name : option string;
  cm_tool_call_id : option string;
  cm_tool_calls : list ToolCall;
}.
Record FunctionDefinition : Type := mkFunctionDefinition {
  fd_name : string;
  fd_description : option string;
  fd_parameters_json : option string;
  fd_strict : option bool;
}.
Record ChatCompletionTool : Type := mkTool { tool_type : string; tool_function : option FunctionDefinition }.
Inductive Choice : Type :=
  | Mode (mode : string)
  | Named (type function_name : string).
Record ToolChoice : Type := mkToolChoice { choice : option Choice }.
Record ChatCompletionRequest : Type := mkChatRequest {
  cr_model : string;
  cr_messages : list ChatMessage;
  cr_temperature : option f32;
  cr_top_p : option f32;
  cr_max_tokens : option N;
  cr_stop : list string;
  cr_n : option N;
  cr_logprobs : option bool;
  cr_top_logprobs : option N;
  cr_presence_penalty : option f32;
  cr_frequency_penalty : option f32;
  cr_seed : option N;
  cr_tools : list ChatCompletionTool;
  cr_tool_choice : option ToolChoice;
  cr_parallel_tool_calls : option bool;
}.
Record CompletionRequest : Type := mkCompletionRequest {
  pr_model : string;
  pr_prompt : string;
  pr_temperature : option f32;
  pr_top_p : option f32;
  pr_max_tokens : option N;
  pr_stop : list string;
  pr_n : option N;
  pr_logprobs : option N;
  pr_presence_penalty : option f32;
  pr_frequency_penalty : option f32;
  pr_seed : option N;
}.
Record ChatChoice : Type := mkChatChoice {
  cc_index : N;
  cc_role : string;
  cc_content : option string;
  cc_tool_calls : list ToolCall;
  cc_finish_reason : option string;
}.
Record ChunkChoice : Type := mkChunkChoice {
  ck_index : N;
  ck_role : option string;
  ck_content : option string;
  ck_tool_calls : list ToolCallDelta;
  ck_finish_reason : option string;
}.
Record CompletionChunk : Type := mkCompletionChunk {
  ch_choice : CompletionChoice;
  ch_usage : UsageInfo;
  ch_finished : bool;
}.
End Pb.

(** ** Status *)
Inductive InvalidArgument : Type :=
  | I_CallFunction
  | I_ToolFunction
  | I_Parameters
  | I_Mode
  | I_NoMessages
  | I_TooManyMessages (max : nat)
  | I_Request (e : RequestError)
  | I_Sampling (e : CoreError).

Inductive Status : Type :=
  | Unauthenticated
  | Invalid (e : InvalidArgument)
  | Internal.

(** ** Authentication: the metadata values that are text *)
Definition metadata_value_matches (value : option string) (expected : string) : bool :=
  match value with Some actual => bool_decide (actual = expected) | None => false end.

Definition bearer_matches (value : option string) (expected : string) : bool :=
  match value ≫= (λ v, strip_prefix (bytes_of v) (bytes_of "Bearer ")) with
  | Some token => bool_decide (token = bytes_of expected)
  | None => false
  end.

Definition auth_error (st : AppState) (x_api_key authorization : option string) : option Status :=
  match as_api_key st with
  | None => None
  | Some expected =>
      if metadata_value_matches x_api_key expected || bearer_matches authorization expected then None
      else Some Unauthenticated
  end.

(** ** Conversions *)
Section conversions.
Context (from_str : string → option Json).

Definition proto_to_tool_call (c : Pb.ToolCall) : result ToolCall InvalidArgument :=
  match Pb.tc_function c with
  | None => Err I_CallFunction
  | Some f => Ok (mkToolCall (Pb.tc_id c) (Pb.tc_type c) (mkFunctionCall (Pb.fc_name f) (Pb.fc_arguments f)))
  end.

Definition proto_to_message (m : Pb.ChatMessage) : result ChatMessage InvalidArgument :=
  tool_calls <-? match Pb.cm_tool_calls m with
                 | [] => Ok None
                 | calls => calls <-? try_map proto_to_tool_call calls; Ok (Some calls)
                 end;
  Ok (mkMessage (Pb.cm_role m) (Pb.cm_content m) (Pb.cm_name m) (Pb.cm_tool_call_id m) tool_calls).

Definition proto_to_tool (t : Pb.ChatCompletionTool) : result ChatCompletionTool InvalidArgument :=
  match Pb.tool_function t with
  | None => Err I_ToolFunction
  | Some f =>
      parameters <-? match Pb.fd_parameters_json f with
                     | None => Ok None
                     | Some json => match from_str json with Some v => Ok (Some v) | None => Err I_Parameters end
                     end;
      Ok (mkTool (Pb.tool_type t) (mkFunctionDefinition (Pb.fd_name f) (Pb.fd_description f) parameters (Pb.fd_strict f)))
  end.

Definition proto_to_choice (c : Pb.Choice) : result ToolChoice InvalidArgument :=
  match c with
  | Pb.Mode mode =>
      if String.eqb mode "none" then Ok (Mode TC_None)
      else if String.eqb mode "auto" then Ok (Mode TC_Auto)
      else if String.eqb mode "required" then Ok (Mode TC_Required)
      else Err I_Mode
  | Pb.Named ty name => Ok (Named (mkNamedToolChoice ty name))
  end.

Definition stop_sequence (stop : list string) : option StopSequence :=
  match stop with [] => None | _ => Some (StopMultiple stop) end.

Definition proto_to_chat_request (req : Pb.ChatCompletionRequest) : result ChatCompletionRequest InvalidArgument :=
  messages <-? try_map proto_to_message (Pb.cr_messages req);
  tools <-? match Pb.cr_tools req with
            | [] => Ok None
            | tools => tools <-? try_map proto_to_tool tools; Ok (Some tools)
            end;
  tool_choice <-? match Pb.cr_tool_choice req ≫= Pb.choice with
                  | None => Ok None
                  | Some c => c <-? proto_to_choice c; Ok (Some c)
                  end;
  Ok (mkChatRequest (Pb.cr_model req) messages (Pb.cr_temperature req) (Pb.cr_top_p req) (Pb.cr_max_tokens req) (Some false)
        (stop_sequence (Pb.cr_stop req)) (Pb.cr_n req) (Pb.cr_logprobs req) (Pb.cr_top_logprobs req)
        (Pb.cr_presence_penalty req) (Pb.cr_frequency_penalty req) (Pb.cr_seed req) None None tools tool_choice
        (Pb.cr_parallel_tool_calls req)).

Definition proto_to_completion_request (req : Pb.CompletionRequest) : CompletionRequest :=
  mkCompletionRequest (Pb.pr_model req) (PromptSingle (Pb.pr_prompt req)) None (Pb.pr_temperature req) (Pb.pr_top_p req)
    (Pb.pr_max_tokens req) (Some false) (stop_sequence (Pb.pr_stop req)) (Pb.pr_n req) (Pb.pr_logprobs req)
    (Pb.pr_presence_penalty req) (Pb.pr_frequency_penalty req) (Pb.pr_seed req) None None.
End conversions.

Definition tool_calls_to_proto (calls : list ToolCall) : list Pb.ToolCall :=
  (λ c, Pb.mkToolCall (tc_id c) (tc_type c) (Some (Pb.mkFunctionCall (fc_name (tc_function c)) (fc_arguments (tc_function c))))) <$> calls.

Definition tool_call_deltas_to_proto (calls : list ToolCall) : list ToolCallDelta :=
  imap (λ index c, mkToolCallDelta (as_u32 (N.of_nat index)) (Some (tc_id c)) (Some (tc_type c))
          (Some (mkFunctionCallDelta (Some (fc_name (tc_function c))) (Some (fc_arguments (tc_function c)))))) calls.

(** ** Handlers *)
Section handlers.
Context (from_str : string → option Json) (to_string : Json → option string) (read_stream : bytes → option (list Json)) (uuid : nat → string)
        (json_text : Json → string).

Definition invalid {A E} (f : E → InvalidArgument) (m : result A E) : result A Status :=
  match m with Ok a => Ok a | Err e => Err (Invalid (f e)) end.
Definition or_status {A} (m : option A) : result A Status := match m with Some a => Ok a | None => Err Internal end.

(** Up to the submission, for both kinds of chat calls. *)
Definition grpc_chat_prompt (tk : Tokenizer) (req : ChatCompletionRequest) : result (string * list TokenId) Status :=
  _ <-? invalid I_Request (validate_tool_call_request from_str req);
  messages <-? invalid I_Request (messages_for_chat_template from_str req);
  tools <-? invalid I_Request (tools_for_chat_template from_str req);
  tool_choice <-? invalid I_Request (tool_choice_for_chat_template from_str req);
  prompt <-? or_status (tk_render tk messages tools tool_choice (default true (cr_parallel_tool_calls req)) true);
  token_ids <-? or_status (tk_encode tk prompt false);
  _ <-? invalid I_Sampling (validate json_text (chat_request_to_sampling_params req));
  Ok (prompt, token_ids).

Definition run_chat_completion (id now : N) (rt : ModelRuntime) (req : ChatCompletionRequest) : result EngineCompletion Status :=
  p <-? grpc_chat_prompt (rt_tokenizer rt) req;
  match submit_and_collect rt (inference_request id now (Some p.1) p.2 (chat_request_to_sampling_params req) false) p.2 with
  | Ok c => Ok c
  | Err _ => Err Internal
  end.

Definition start_chat_stream (id now : N) (rt : ModelRuntime) (req : ChatCompletionRequest) : result Received Status :=
  p <-? grpc_chat_prompt (rt_tokenizer rt) req;
  or_status (rt_add_request_stream rt (inference_request id now (Some p.1) p.2 (chat_request_to_sampling_params req) true)).

Definition chat_completion_response (c : EngineCompletion) (tools : option (list ChatCompletionTool)) : option (Pb.ChatChoice * UsageInfo) :=
  parsed ← parse_chat_output from_str to_string read_stream uuid (ec_text c) tools;
  Some (Pb.mkChatChoice 0 "assistant" (po_content parsed) (tool_calls_to_proto (default [] (po_tool_calls parsed)))
          (Some (if is_some (po_tool_calls parsed) then "tool_calls" else ec_finish_reason c)), ec_usage c).

Definition empty_chat_response : Pb.ChatChoice * UsageInfo := (Pb.mkChatChoice 0 "assistant" (Some "") [] (Some "stop"), no_usage).
Definition empty_completion_response : CompletionChoice * UsageInfo := (mkCompletionChoice 0 "" (Some "stop"), no_usage).

(** Authentication, conversion and the limits on messages. *)
Definition accept_chat (st : AppState) (key bearer : option string) (req : Pb.ChatCompletionRequest) : result ChatCompletionRequest Status :=
  match auth_error st key bearer with
  | Some e => Err e
  | None =>
      r <-? invalid id (proto_to_chat_request from_str req);
      require negb (length (cr_messages r) =? 0) else Invalid I_NoMessages;
      require negb (as_max_input_messages st <? length (cr_messages r)) else Invalid (I_TooManyMessages (as_max_input_messages st));
      Ok r
  end.

(** A response, or [None] for a panic. *)
Definition chat_completion (id now : N) (st : AppState) (key bearer : option string) (req : Pb.ChatCompletionRequest) :
    option (result (Pb.ChatChoice * UsageInfo) Status) :=
  match accept_chat st key bearer req with
  | Err e => Some (Err e)
  | Ok r =>
      match as_runtime st with
      | None => Some (Ok empty_chat_response)
      | Some rt =>
          match run_chat_completion id now rt r with
          | Err e => Some (Err e)
          | Ok c => response ← chat_completion_response c (response_tools r); Some (Ok response)
          end
      end
  end.

(** The text of one output; here an error of the tokenizer ends the stream. *)
Fixpoint grpc_chunk_text (tk : Tokenizer) (outputs : list CompletionOutput) (text : string) : result string Status :=
  match outputs with
  | [] => Ok text
  | co :: outputs =>
      match co_token_ids co with
      | [] => grpc_chunk_text tk outputs text
      | ids => t <-? or_status (tk_decode tk ids true); grpc_chunk_text tk outputs (text +:+ t)
      end
  end.

(** The stream: its chunks, and the status that ended it, if one did; [None] is a
    panic. *)
Definition Chunks (A : Type) : Type := option (list A * option Status).

Definition grpc_tools_chunk (tk : Tokenizer) (tools : list ChatCompletionTool) (buffered : list TokenId) (reason : option string) :
    option (result Pb.ChunkChoice Status) :=
  match tk_decode tk buffered true with
  | None => Some (Err Internal)
  | Some text =>
      parsed ← parse_chat_output from_str to_string read_stream uuid text (Some tools);
      Some (Ok (Pb.mkChunkChoice 0 None (po_content parsed) (default [] (tool_call_deltas_to_proto <$> po_tool_calls parsed))
                  (if is_some (po_tool_calls parsed) then Some "tool_calls" else reason)))
  end.

Definition chunk_of_output (tk : Tokenizer) (tools : option (list ChatCompletionTool)) (output : RequestOutput) (buffered : list TokenId) :
    option (result (list Pb.ChunkChoice) Status) :=
  let reason := engine_finish_reason output in
  match tools with
  | Some tools =>
      if ro_finished output then
        r ← grpc_tools_chunk tk tools buffered reason; Some (c <-? r; Ok [c])
      else Some (Ok [])
  | None =>
      Some (text <-? grpc_chunk_text tk (ro_outputs output) "";
            Ok (if negb (str_is_empty text) || is_some reason then [Pb.mkChunkChoice 0 None (Some text) [] reason] else []))
  end.

Fixpoint grpc_stream_loop (tk : Tokenizer) (tools : option (list ChatCompletionTool)) (outputs : list RequestOutput)
    (buffered : list TokenId) : Chunks Pb.ChunkChoice :=
  match outputs with
  | [] => Some ([], None)
  | output :: outputs =>
      let buffered := match tools with
                      | Some _ => buffered ++ concat (co_token_ids <$> ro_outputs output)
                      | None => buffered
                      end in
      r ← chunk_of_output tk tools output buffered;
      match r with
      | Err e => Some ([], Some e)
      | Ok chunks =>
          rest ← if ro_finished output then Some ([], None) else grpc_stream_loop tk tools outputs buffered;
          Some (chunks ++ rest.1, rest.2)
      end
  end.

Definition pb_role_chunk (reason : option string) : Pb.ChunkChoice := Pb.mkChunkChoice 0 (Some "assistant") None [] reason.

(** An early error is the call's status; a later one ends the stream. *)
Definition stream_chat_completion (id now : N) (st : AppState) (key bearer : option string) (req : Pb.ChatCompletionRequest) :
    result (Chunks Pb.ChunkChoice) Status :=
  r <-? accept_chat st key bearer req;
  Ok (match as_runtime st with
      | None => Some ([pb_role_chunk (Some "stop")], None)
      | Some rt =>
          match start_chat_stream id now rt r with
          | Err e => Some ([], Some e)
          | Ok rc =>
              chunks ← grpc_stream_loop (rt_tokenizer rt) (response_tools r) (rc_outputs rc) [];
              Some (pb_role_chunk None :: chunks.1, chunks.2)
          end
      end).

Definition completion (id now : N) (st : AppState) (key bearer : option string) (req : Pb.CompletionRequest) :
    result (CompletionChoice * UsageInfo) Status :=
  match auth_error st key bearer with
  | Some e => Err e
  | None =>
      match as_runtime st with
      | None => Ok empty_completion_response
      | Some rt =>
          match (run_text_completion json_text id now rt (proto_to_completion_request req)).1 with
          | Ok c => Ok (mkCompletionChoice 0 (ec_text c) (Some (ec_finish_reason c)), ec_usage c)
          | Err _ => Err Internal
          end
      end
  end.

Fixpoint completion_stream_loop (tk : Tokenizer) (outputs : list RequestOutput) : list Pb.CompletionChunk * option Status :=
  match outputs with
  | [] => ([], None)
  | output :: outputs =>
      match grpc_chunk_text tk (ro_outputs output) "" with
      | Err e => ([], Some e)
      | Ok text =>
          let chunk := Pb.mkCompletionChunk (mkCompletionChoice 0 text (engine_finish_reason output)) (usage_info (ro_usage output)) (ro_finished output) in
          let rest := if ro_finished output then ([], None) else completion_stream_loop tk outputs in
          (chunk :: rest.1, rest.2)
      end
  end.

Definition stream_completion (id now : N) (st : AppState) (key bearer : option string) (req : Pb.CompletionRequest) :
    result (list Pb.CompletionChunk * option Status) Status :=
  match auth_error st key bearer with
  | Some e => Err e
  | None =>
      let r := proto_to_completion_request req in
      Ok (match as_runtime st with
          | None => ([Pb.mkCompletionChunk (mkCompletionChoice 0 "" (Some "stop")) no_usage true], None)
          | Some rt =>
              let prompt := prompt_text (pr_prompt r) in
              let started :=
                token_ids <-? or_status (tk_encode (rt_tokenizer rt) prompt true);
                let params := completion_request_to_sampling_params r in
                _ <-? invalid I_Sampling (validate json_text params);
                or_status (rt_add_request_stream rt (inference_request id now (Some prompt) token_ids params true)) in
              match started with
              | Err e => ([], Some e)
              | Ok rc => completion_stream_loop (rt_tokenizer rt) (rc_outputs rc)
              end
          end)
  end.
End handlers.

(** ** The two servers agree *)
Definition proto_choice (c : ChatChoice) : Pb.ChatChoice :=
  Pb.mkChatChoice (cc_index c) (rm_role (cc_message c)) (rm_content (cc_message c))
    (tool_calls_to_proto (default [] (rm_tool_calls (cc_message c)))) (cc_finish_reason c).

Definition proto_event (e : Event) : option Pb.ChunkChoice :=
  match e with
  | E_Chunk c => Some (Pb.mkChunkChoice (ck_index c) (cd_role (ck_delta c)) (cd_content (ck_delta c))
                         (default [] (cd_tool_calls (ck_delta c))) (ck_finish_reason c))
  | E_Done => None
  end.

(** Converting a call there and back. *)
Lemma tool_call_round_trip c : try_map proto_to_tool_call (tool_calls_to_proto [c]) = Ok [c].
Proof. by destruct c as [? ? []]. Qed.

Lemma deltas_agree : tool_call_deltas_to_proto = tool_calls_to_deltas.
Proof. done. Qed.

Section agreement.
Context (from_str : string → option Json) (json_text : Json → string).

Lemma proto_request_plain p r : proto_to_chat_request from_str p = Ok r →
  cr_structured_outputs r = None ∧ cr_response_format r = None ∧ cr_stream r = Some false.
Proof.
  unfold proto_to_chat_request. intros (ms & _ & H)%bind_ok. apply bind_ok in H as (ts & _ & H). apply bind_ok in H as (c & _ & [= <-]). done.
Qed.

Lemma invalid_ok {A E} (f : E → InvalidArgument) (m : result A E) a : invalid f m = Ok a ↔ m = Ok a.
Proof. destruct m; cbn; naive_solver. Qed.

Lemma or_status_ok {A} (m : option A) a : or_status m = Ok a ↔ m = Some a.
Proof. destruct m; cbn; naive_solver. Qed.

Lemma or_internal_ok {A} e (m : option A) a : or_internal e m = Ok a ↔ m = Some a.
Proof. destruct m; cbn; naive_solver. Qed.

Lemma or_bad_request_ok {A} (m : result A RequestError) a : or_bad_request m = Ok a ↔ m = Ok a.
Proof. destruct m; cbn; naive_solver. Qed.

(** Both build the same prompt, or none. *)
Lemma prompts_agree tk r p : grpc_chat_prompt from_str json_text tk r = Ok p ↔ chat_prompt from_str json_text tk r = Ok p.
Proof.
  unfold grpc_chat_prompt, chat_prompt. repeat setoid_rewrite bind_ok.
  repeat setoid_rewrite invalid_ok. repeat setoid_rewrite or_bad_request_ok. repeat setoid_rewrite or_status_ok. repeat setoid_rewrite or_internal_ok.
  destruct (validate json_text _) as [[]|e] eqn:Ev; [| naive_solver].
  split; [naive_solver |]. intros (ms & Hm & H). exists (). split; [| naive_solver].
  unfold messages_for_chat_template in Hm. by apply bind_ok in Hm as ([] & ? & _).
Qed.

Lemma prompt_validates tk r p : chat_prompt from_str json_text tk r = Ok p →
  tool_request_valid from_str r ∧ validate json_text (chat_request_to_sampling_params r) = Ok ().
Proof.
  intros Hp%prompts_agree. unfold grpc_chat_prompt in Hp. apply bind_ok in Hp as ([] & Hv%invalid_ok & Hp).
  split; [by apply tool_request_valid_iff |].
  do 5 (apply bind_ok in Hp as (? & _ & Hp)). by apply bind_ok in Hp as ([] & ?%invalid_ok & _).
Qed.

Context (to_string : Json → option string) (read_stream : bytes → option (list Json)) (uuid : nat → string).
Context (validate_structured : option (StructuredOutputParams Json → result unit string)).
#[local] Abbreviation chat := (chat_completions_handler from_str to_string read_stream uuid validate_structured json_text).
Context (id now : N) (st : AppState) (rt : ModelRuntime) (key bearer : option string) (p : Pb.ChatCompletionRequest) (r : ChatCompletionRequest).
Context (Hrt : as_runtime st = Some rt) (Hauth : auth_error st key bearer = None) (Hp : proto_to_chat_request from_str p = Ok r).

Lemma accept_ok r' : accept_chat from_str st key bearer p = Ok r' ↔ r' = r ∧ 0 < length (cr_messages r) ≤ as_max_input_messages st.
Proof using Hauth Hp.
  unfold accept_chat. rewrite Hauth, Hp. cbn [invalid result_bind]. rewrite !require_ok, !negb_true_iff, Nat.eqb_neq, Nat.ltb_ge, ok_ok.
  split; [intros (? & ? & <-); split; [done | lia] | intros [-> ?]; split_and!; (done || lia)].
Qed.

(** A prompt is built for accepted messages exactly when the HTTP checks pass and it
    is built there. *)
Lemma checks_agree q : accept_chat from_str st key bearer p = Ok r ∧ grpc_chat_prompt from_str json_text (rt_tokenizer rt) r = Ok q
  ↔ chat_checks from_str validate_structured json_text st r = Ok () ∧ chat_prompt from_str json_text (rt_tokenizer rt) r = Ok q.
Proof using Hauth Hp.
  rewrite accept_ok, prompts_agree, chat_checks_iff. split.
  - intros [[_ Hm] Hq]. destruct (prompt_validates _ _ _ Hq) as [Ht Hv]. destruct (proto_request_plain _ _ Hp) as (Hs & Hf & _).
    split; [| done]. split; [by left | done | done | | done].
    intros so. unfold chat_request_to_sampling_params. cbn. by rewrite Hs, Hf.
  - intros [[_ _ _ _ Hm] Hq]. by split.
Qed.

Lemma responses_agree c tools choice usage :
  chat_completion_response from_str to_string read_stream uuid c tools = Some (choice, usage)
  ↔ ∃ c', chat_response from_str to_string read_stream uuid c tools = Some (R_Chat [c'] usage) ∧ choice = proto_choice c'.
Proof.
  unfold chat_completion_response, chat_response. destruct (parse_chat_output _ _ _ _ _ _) as [parsed|]; cbn; [| naive_solver].
  split; [intros [= <- <-]; by eexists | by intros (c' & [= <- <-] & ->)].
Qed.

(** C30. HTTP and gRPC.  On a request that converts, with a model loaded and the caller
    authenticated, the gRPC call returns a response exactly when the HTTP endpoint
    does, and it is the same choice and usage. *)
Theorem grpc_agrees_with_http choice usage :
  chat_completion from_str to_string read_stream uuid json_text id now st key bearer p = Some (Ok (choice, usage))
  ↔ ∃ c sub, chat id now st r = Some (R_Chat [c] usage, sub) ∧ choice = proto_choice c.
Proof using All.
  assert (Hs : is_stream (cr_stream r) = false) by (by destruct (proto_request_plain _ _ Hp) as (_ & _ & ->)).
  trans (∃ q c, (accept_chat from_str st key bearer p = Ok r ∧ grpc_chat_prompt from_str json_text (rt_tokenizer rt) r = Ok q)
      ∧ submit_and_collect rt (inference_request id now (Some q.1) q.2 (chat_request_to_sampling_params r) false) q.2 = Ok c
      ∧ chat_completion_response from_str to_string read_stream uuid c (response_tools r) = Some (choice, usage)).
  - unfold chat_completion, run_chat_completion. split.
    + destruct (accept_chat _ _ _ _ p) as [r'|e] eqn:Ea; [| done]. apply accept_ok in Ea as [-> Hm]; [| done..]. rewrite Hrt.
      destruct (grpc_chat_prompt _ _ _ r) as [q|e] eqn:Eq; [| done]. cbn [result_bind].
      destruct (submit_and_collect _ _ _) as [c|e] eqn:Ec; [| done]. intros ([ch us] & Hr & [= <- <-])%bind_Some.
      exists q, c. split_and!; [done | done | done | done].
    + intros (q & c & [-> Hq] & Hc & Hr). rewrite Hrt, Hq. cbn [result_bind]. rewrite Hc, Hr. done.
  - setoid_rewrite checks_agree. setoid_rewrite responses_agree. unfold chat_completions_handler. rewrite Hs. split.
    + intros (q & c & [-> Hq] & Hc & c' & Hr & ->). rewrite Hrt, Hq. destruct q as [prompt ids]. cbn [fst snd] in *. rewrite Hc, Hr.
      by do 2 eexists.
    + intros (c' & sub & H & ->). destruct (chat_checks _ _ _ st r) as [[]|e] eqn:Ec; [| apply chat_checks_Err in Ec as [? ->]; discriminate].
      rewrite Hrt in H. destruct (chat_prompt _ _ _ r) as [[prompt ids]|e] eqn:Eq; [| apply chat_prompt_Err in Eq as (? & ? & ? & ->); discriminate].
      destruct (submit_and_collect _ _ ids) as [c|e] eqn:Es; [| done]. apply bind_Some in H as (resp & Hr & [= -> <-]).
      exists (prompt, ids), c. split_and!; [done | done | done |]. by exists c'.
Qed.

Lemma grpc_text_ok tk outputs text : (∀ ids, is_Some (tk_decode tk ids true)) →
  grpc_chunk_text tk outputs text
  = Ok (foldl (λ text co, match co_token_ids co with [] => text | ids => match tk_decode tk ids true with Some t => text +:+ t | None => text end end) text outputs).
Proof using.
  intros Ht. revert text. induction outputs as [|co outputs IH]; intros text; cbn [grpc_chunk_text foldl]; [done |].
  destruct (co_token_ids co) as [|i ids]; [apply IH |]. destruct (Ht (i :: ids)) as [t ->]. cbn [or_status result_bind]. apply IH.
Qed.

Lemma loops_agree tk tools outputs ends : (∀ ids, is_Some (tk_decode tk ids true)) → ∀ buffered events,
  stream_loop from_str to_string read_stream uuid tk tools outputs ends buffered = Some events →
  grpc_stream_loop from_str to_string read_stream uuid tk tools outputs buffered = Some (omap proto_event events, None).
Proof using.
  intros Ht. induction outputs as [|o outputs IH]; intros b events; cbn [stream_loop grpc_stream_loop].
  - intros [= <-]. by destruct ends.
  - set (b' := match tools with Some _ => b ++ _ | None => b end). clearbody b'.
    intros (es & He & H)%bind_Some. apply bind_Some in H as (rest & Hrest & [= <-]).
    assert (Hc : chunk_of_output from_str to_string read_stream uuid tk tools o b' = Some (Ok (omap proto_event es))).
    { unfold chunk_of_output. destruct tools as [tools|].
      - destruct (ro_finished o); [| by injection He as <-]. apply bind_Some in He as (e & He & [= <-]).
        unfold tools_event, grpc_tools_chunk in *. destruct (Ht b') as [text Et]. rewrite Et in *. change (default "" (Some text)) with text in He.
        apply bind_Some in He as (parsed & Hp' & [= <-]). rewrite Hp'. reflexivity.
      - rewrite grpc_text_ok by done. cbn [result_bind]. fold (chunk_text tk (ro_outputs o)). injection He as <-. destruct (negb _ || _); reflexivity. }
    rewrite Hc. cbn [mbind option_bind].
    destruct (ro_finished o).
    + injection Hrest as <-. cbn. by rewrite omap_app.
    + rewrite (IH _ _ Hrest). cbn. by rewrite omap_app.
Qed.

(** The streams of HTTP and gRPC.  When decoding does not fail, the gRPC stream of
    a chat has exactly the chunks of the HTTP stream, without its end mark. *)
Theorem grpc_streams_http events sub :
  (∀ ids, is_Some (tk_decode (rt_tokenizer rt) ids true)) →
  chat id now st (with_stream true r) = Some (R_Stream events, sub) →
  stream_chat_completion from_str to_string read_stream uuid json_text id now st key bearer p
  = Ok (Some (omap proto_event events, None)).
Proof using All.
  intros Ht. unfold chat_completions_handler, stream_chat_completion, start_chat_stream.
  change (chat_checks from_str validate_structured json_text st (with_stream true r))
    with (chat_checks from_str validate_structured json_text st r).
  destruct (chat_checks _ _ _ st r) as [[]|e] eqn:Ec; [| apply chat_checks_Err in Ec as [? ->]; discriminate]. rewrite Hrt.
  change (chat_prompt from_str json_text (rt_tokenizer rt) (with_stream true r)) with (chat_prompt from_str json_text (rt_tokenizer rt) r).
  destruct (chat_prompt _ _ _ r) as [[prompt ids]|e] eqn:Eq; [| apply chat_prompt_Err in Eq as (? & ? & ? & ->); discriminate].
  destruct (proj2 (checks_agree (prompt, ids)) (conj Ec Eq)) as [-> Hg]. cbn [result_bind]. rewrite Hg. cbn [result_bind fst snd].
  change (is_stream (cr_stream (with_stream true r))) with true. cbn iota.
  change (chat_request_to_sampling_params (with_stream true r)) with (chat_request_to_sampling_params r).
  change (response_tools (with_stream true r)) with (response_tools r).
  destruct (rt_add_request_stream rt _) as [rc|]; [| done]. cbn [or_status].
  intros (es & He & [= <- <-])%bind_Some. by rewrite (loops_agree _ _ _ _ Ht _ _ He).
Qed.
End agreement.

(** ** A concrete call *)
Definition demo_proto : Pb.ChatCompletionRequest :=
  Pb.mkChatRequest "model" [Pb.mkChatMessage "user" (Some "hi") None None []] None None None [] None None None None None None [] None None.
Definition demo_proto_completion (top_p : option f32) : Pb.CompletionRequest :=
  Pb.mkCompletionRequest "model" "hi" None top_p None [] None None None None None.

Lemma grpc_agrees_with_http_witness :
  ∃ c sub, chat_completions_handler toy_from_str toy_to_string toy_stream (λ _, "0") None (λ _, "") 1 2
             (demo_state demo_tokenizer (bytes_of "abc")) (with_stream false demo_chat) = Some (R_Chat [c] (mkUsageInfo 6 3 9), sub)
    ∧ Pb.mkChatChoice 0 "assistant" (Some "abc") [] (Some "stop") = proto_choice c.
Proof.
  apply (grpc_agrees_with_http toy_from_str (λ _, "") toy_to_string toy_stream (λ _, "0") None 1 2
    (demo_state demo_tokenizer (bytes_of "abc")) (mkRuntime demo_tokenizer (λ _, Some (demo_received (bytes_of "abc"))))
    None (Some "Bearer key") demo_proto); [reflexivity | by vm_compute | reflexivity | by vm_compute].
Defined.

Lemma grpc_streams_http_witness :
  ∃ events, stream_chat_completion toy_from_str toy_to_string toy_stream (λ _, "0") (λ _, "") 1 2
    (demo_state demo_tokenizer (bytes_of "abc")) None (Some "Bearer key") demo_proto = Ok (Some (omap proto_event events, None))
    ∧ stream_text events = "abc".
Proof.
  eexists. split.
  - eapply (grpc_streams_http toy_from_str (λ _, "") toy_to_string toy_stream (λ _, "0") None 1 2
      (demo_state demo_tokenizer (bytes_of "abc")) (mkRuntime demo_tokenizer (λ _, Some (demo_received (bytes_of "abc"))))
      None (Some "Bearer key") demo_proto (with_stream false demo_chat)); [reflexivity | by vm_compute | reflexivity | by eexists |].
    vm_compute. reflexivity.
  - vm_compute. reflexivity.
Defined.

(** Invalid sampling parameters of a completion are reported as an internal error,
    while the stream of the same request names the argument. *)
Example invalid_sampling_is_internal :
  let st := demo_state demo_tokenizer (bytes_of "abc") in
  let req := demo_proto_completion (Some F32.two) in
  completion (λ _, "") 1 2 st None (Some "Bearer key") req = Err Internal
  ∧ match stream_completion (λ _, "") 1 2 st None (Some "Bearer key") req with
    | Ok ([], Some (Invalid (I_Sampling _))) => True
    | _ => False
    end.
Proof. by split; vm_compute. Qed.
