(* ===== verification/Serving.v ===== *)
(** * Serving a request end to end

    The composition of the server's collection (server.rs) with the engine's task
    (async_engine.rs) and core (engine_core.rs): what a client gets for a request
    is what the engine produced for it. *)
From S2P Require Import Prelude F32 CoreTypes Request FreeQueue BlockPool KVSpec Prefix CacheManager Policy Scheduler Executor EngineCore SyncEngine AsyncEngine Server.
Import AsyncLLMEngine.

Section serving.
Context {Value X : Type} `{!Executor Value X}.
Context (value_to_string : Value → string) (sha256 : list byte → list byte) (xxh3_64 : list byte → N).
Context (order_of affected_of : EngineCore (Value := Value) (X := X) → list RequestId).
#[local] Abbreviation reach := (async_reach value_to_string sha256 xxh3_64 order_of affected_of).

(** ** The engine's outputs have one completion each *)
Lemma made_output id r tokens finished : one_completion (make_output (Value := Value) id r tokens finished).
Proof. eexists. split; [done |]. by destruct finished. Qed.

Lemma processed_outputs stops l : ∀ m : gmap RequestId EngineRequest, Forall one_completion (process_outputs (Value := Value) stops m l).2.
Proof.
  induction l as [|p l IH]; intros m; [constructor |]. cbn [process_outputs]. unfold process_output.
  destruct (token_loop stops m _ _) as [m1 finished]. specialize (IH m1). destruct (process_outputs stops m1 l) as [m2 os].
  cbn [snd] in *. apply Forall_app. split; [| done]. destruct (m1 !! _); [| constructor].
  constructor; [apply made_output | constructor].
Qed.

Lemma failed_outputs ids : ∀ (c c' : EngineCore) os, fail_all c ids = Some (os, c') → Forall one_completion os.
Proof.
  induction ids as [|id ids IH]; intros c c' os; cbn [fail_all]; [intros [= <- <-]; constructor |].
  intros (c1 & _ & H)%bind_Some. apply bind_Some in H as ([os' c2] & Hf%IH & [= <- <-]).
  apply Forall_app. split; [| done]. destruct (ec_requests c !! id); repeat constructor. apply made_output.
Qed.

Lemma step_outputs order affected (c c' : EngineCore) os :
  engine_step sha256 xxh3_64 order affected c = Some (os, c') → Forall one_completion os.
Proof.
  unfold engine_step. intros ([out s] & _ & H)%bind_Some. case_match; [injection H as <- <-; constructor |].
  apply bind_Some in H as ([r x] & _ & H). destruct r as [exec|e]; [| by eapply failed_outputs].
  destruct (process_outputs _ _ _) as [m outputs] eqn:E. apply bind_Some in H as (c1 & _ & [= <- <-]).
  pose proof (processed_outputs (ec_stop_token_ids (with_executor x (with_scheduler s c))) (per_request_outputs exec)
    (ec_requests (with_executor x (with_scheduler s c)))) as Hp. by rewrite E in Hp.
Qed.

Lemma turn_outputs st hs os st' : turn value_to_string sha256 xxh3_64 order_of affected_of st = Some (hs, os, st') → Forall one_completion os.
Proof.
  unfold turn. destruct (as_phase st) as [| |cmds|cmds|].
  - intros [= _ <- _]. constructor.
  - destruct (as_queue st) as [|[] q]; try (intros [= _ <- _]; constructor);
      intros ([c m] & _ & [= _ <- _])%bind_Some; constructor.
  - destruct (as_queue st) as [|[] q]; intros [= _ <- _]; constructor.
  - intros ([os' st1] & H & [= _ <- _])%bind_Some. unfold locked_block in H.
    apply bind_Some in H as ([c m] & _ & H). case_match; [| injection H as <- _; constructor].
    apply bind_Some in H as ([os'' c'] & Hs%step_outputs & H). case_bool_decide; injection H as <- _; [constructor | done].
  - intros [= _ <- _]. constructor.
Qed.

Lemma reached_outputs c0 st l : reach c0 st l → Forall one_completion (log_outputs l).
Proof.
  induction 1 as [| | |st l hs os st' _ IH Ht%turn_outputs]; [constructor | done | done |].
  by apply Forall_app.
Qed.

(** ** What the server collects *)
Lemma ends_split outputs ids r : ends_with_reason outputs ids r →
  ∃ l1 o l2, outputs = l1 ++ o :: l2 ∧ output_reason o = Some r ∧ ids = concat (output_ids <$> l1) ++ output_ids o.
Proof.
  induction 1 as [o rest r Ho | o rest ids r Ho _ (l1 & o' & l2 & -> & Hr & ->)]; [by exists [], o, rest |].
  exists (o :: l1), o', l2. split_and!; [done | done |]. cbn. by rewrite app_assoc.
Qed.

(** C29. End to end.  Let a request's stream be opened in the engine's task.  If the
    engine has not ended the request, the server's collection fails (the stream is
    closed, or the time is up).  Once it has, the collection returns every token of
    every output the engine produced for the request, in order, with the reason of
    the last one, unless that reason is an error. *)
Theorem collects_engine_tokens `{!LawfulExecutor Value X} config cc nblocks maxlen c0 st l req sid ends :
  0 < cc_block_size cc → engine_reach value_to_string sha256 xxh3_64 config cc nblocks maxlen c0 → ec_requests c0 = ∅ →
  LLMEngine.orders_ok sha256 xxh3_64 order_of affected_of → reach c0 st l → AddRequestStream req sid ∈ log_handled l →
  let produced := outputs_for (request_id req) (log_outputs l) in
  ((∀ o, o ∈ produced → output_reason o = None)
     ∧ ∀ acc reason, collect (stream st sid) ends acc reason = Err (match ends with Closed => CE_Closed | Silent => CE_Timeout end))
  ∨ ∃ r, (output_reason <$> last produced) = Some (Some r)
     ∧ ∀ acc reason, collect (stream st sid) ends acc reason
       = match r with FR_Error => Err CE_Executor | _ => Ok (acc ++ concat (output_ids <$> produced), finish_reason_to_openai r) end.
Proof.
  intros Hbs Hc0 Hemp Hord Hreach Hreq produced.
  pose proof (engine_reach_inv _ _ _ _ _ _ _ _ Hbs Hc0) as Hinv0.
  pose proof (async_reach_inv _ _ _ _ _ c0 st l Hord Hinv0 Hemp Hreach) as [[_ _ _ _ Ss _ _ Sf _ _] _ _].
  unfold stream. rewrite (Ss req sid Hreq). fold produced.
  assert (Hall : Forall one_completion produced).
  { pose proof (reached_outputs _ _ _ Hreach) as H. rewrite Forall_forall in *. intros o [_ Ho]%list_elem_of_filter. by apply H. }
  destruct (ends_or_not produced) as [(ids & r & He)|Hn].
  - right. exists r. destruct (ends_split _ _ _ He) as (l1 & o & l2 & Ep & Ho & ->).
    assert (Hfin : ro_finished o = true).
    { rewrite Ep in Hall. apply Forall_app in Hall as [_ Hall]. inversion Hall as [|? ? (co & _ & _ & Er & Hf)%one_completion_shape _]; subst.
      rewrite Hf, <- Er, Ho. done. }
    destruct (Sf _ _ _ _ Ep Hfin) as [-> _]. split; [rewrite Ep, last_snoc; cbn; by rewrite Ho |].
    intros acc reason. rewrite (collect_ends _ _ _ _ Hall He), Ep, fmap_app, concat_app. cbn. by rewrite app_nil_r.
  - left. split; [done |]. intros acc reason. by apply collect_unfinished.
Qed.
End serving.

(** The run of the asynchronous engine's file, collected. *)
Lemma collects_engine_tokens_witness :
  collect (stream demo_done 0) Closed [] "length" = Ok ([5%N], "stop").
Proof.
  destruct (collects_engine_tokens unit_to_string (λ x, x) toy_digest demo_orders demo_affected
    demo_config (demo_cache false) 5 16 demo_stop0 demo_done (mkLog [demo_cmd] [demo_cmd] [AsyncEngine.demo_output])
    (demo_request 7 [1; 2; 3]%N) 0 Closed) as [[H _]|(r & Hr & ->)];
    [simpl; lia | apply demo_stop0_reach | reflexivity | apply demo_orders_ok | apply demo_done_reach | by left | |].
  - exfalso. specialize (H AsyncEngine.demo_output). cbn in H. discriminate H. by left.
  - cbn in Hr. by injection Hr as <-.
Defined.
