(* ===== verification/ServerConfig.v ===== *)
(** * The server's configuration (rllm-server/src/server.rs, cli.rs)

    From the command line and the model's configuration to the configurations of
    the cache, the scheduler and the engine. *)
From S2P Require Import Prelude F32 CoreTypes Request FreeQueue BlockPool KVSpec Prefix CacheManager Optimizations Policy Scheduler Executor EngineCore SyncEngine.
#[local] Open Scope string_scope.
#[local] Open Scope list_scope.
#[local] Open Scope nat_scope.
#[local] Open Scope rllm_scope.

Definition BLOCK_SIZE : nat := 16.

(** The command line (cli.rs). *)
Record ServeArgs : Type := mkServeArgs {
  sa_model : string;
  sa_tokenizer : option string;
  sa_host : string;
  sa_port : N;
  sa_dtype : string;
  sa_max_model_len : option nat;
  sa_max_num_seqs : nat;
  sa_max_num_batched_tokens : nat;
  sa_gpu_memory_utilization : f32;
  sa_enable_prefix_caching : bool;
  sa_api_key : option string;
  sa_cors_allowed_origins : string;
  sa_enable_debug_endpoints : bool;
  sa_max_input_messages : nat;
  sa_max_input_chars : nat;
  sa_max_concurrent_requests : nat;
  sa_request_timeout_secs : N;
  sa_log_level : string;
  sa_quantization : string;
  sa_quant_bits : option N;
  sa_quant_group_size : option N;
  sa_kv_cache_dtype : string;
  sa_enable_grpc : bool;
  sa_grpc_host : option string;
  sa_grpc_port : N;
}.

(** [0.01f32], and the range check on the parsed number. *)
Definition f32_0_01 : f32 := binary_normalize 24 128 10737418 (-30) false.
Definition parse_gpu_utilization (parse : string → option f32) (s : string) : option f32 :=
  val ← parse s;
  if F32.leb f32_0_01 val && F32.leb val F32.one then Some val else None.

(** [to_lowercase], on ASCII: no other character has a lower case in the names
    compared below. *)
Definition lower_char (a : Ascii.ascii) : Ascii.ascii :=
  let n := Ascii.N_of_ascii a in
  if (65 <=? n)%N && (n <=? 90)%N then Ascii.ascii_of_N (n + 32) else a.
Fixpoint to_lowercase (s : string) : string :=
  match s with EmptyString => EmptyString | String a s => String (lower_char a) (to_lowercase s) end.

Definition one_of (s : string) (names : list string) : bool := existsb (String.eqb s) names.

Definition parse_dtype (dtype : string) : option DType :=
  if String.eqb dtype "auto" then None
  else if one_of dtype ["float16"; "fp16"; "f16"] then Some DT_F16
  else if one_of dtype ["bfloat16"; "bf16"] then Some DT_BF16
  else if one_of dtype ["float32"; "fp32"; "f32"] then Some DT_F32
  else None.

Inductive ConfigError : Type :=
  | UnsupportedQuantization (name : string)
  | Int8Bits.

Definition quantization_kind (name : string) : option QuantizationKind :=
  if String.eqb name "fp8" then Some QK_FP8
  else if String.eqb name "mxfp8" then Some QK_MXFP8
  else if String.eqb name "mxfp4" then Some QK_MXFP4
  else if String.eqb name "nvfp4" then Some QK_NVFP4
  else if String.eqb name "int8" then Some QK_Int8
  else if String.eqb name "int4" then Some QK_Int4
  else if String.eqb name "gptq" then Some QK_GPTQ
  else if String.eqb name "awq" then Some QK_AWQ
  else if String.eqb name "gguf" then Some QK_Gguf
  else if one_of name ["compressed-tensors"; "compressed_tensors"] then Some QK_CompressedTensors
  else if String.eqb name "modelopt" then Some QK_ModelOpt
  else if String.eqb name "torchao" then Some QK_TorchAO
  else None.

Definition parse_quantization (quant_str : string) (bits group_size : option N) : result (option QuantizationConfig) ConfigError :=
  let name := to_lowercase quant_str in
  if String.eqb name "none" then Ok None
  else match quantization_kind name with
       | None => Err (UnsupportedQuantization quant_str)
       | Some kind =>
           require negb (bool_decide (kind = QK_Int8) && negb (bool_decide (bits = Some 8%N))) else Int8Bits;
           Ok (Some (mkQuantizationConfig kind group_size bits))
       end.

(** [QuantizationPlan::from_config(q).unwrap_or_default()] *)
Definition plan_or_default (q : QuantizationConfig) : QuantizationPlan :=
  match Optimizations.from_config q with Ok plan => plan | Err _ => QuantizationPlan_default end.

Definition saturating_mul (a b : nat) : nat := N.to_nat (N.min (N.of_nat a * N.of_nat b) u64_max).

Definition num_cache_blocks (args : ServeArgs) (max_model_len : nat) : nat :=
  let blocks_per_seq := Nat.max (cdiv max_model_len BLOCK_SIZE) 1 in
  Nat.max (saturating_mul (sa_max_num_seqs args) blocks_per_seq) 1.

Definition cache_config (args : ServeArgs) (mc : ModelConfig) : CacheConfig :=
  let name := to_lowercase (sa_kv_cache_dtype args) in
  let cache_dtype :=
    if String.eqb name "f16" then DT_F16
    else if String.eqb name "bf16" then DT_BF16
    else if one_of name ["fp8_e4m3"; "fp8-e4m3"; "e4m3"] then FP8E4M3
    else if one_of name ["fp8_e5m2"; "fp8-e5m2"; "e5m2"] then FP8E5M2
    else if one_of name ["int8"; "i8"] then DT_INT8
    else match mc_quantization mc with
         | Some q => kv_cache_dtype (plan_or_default q)
         | None => mc_dtype mc
         end in
  mkCacheConfig BLOCK_SIZE BLOCK_SIZE (sa_gpu_memory_utilization args) 0 cache_dtype
    (num_cache_blocks args (mc_max_model_len mc)) (sa_enable_prefix_caching args) Sha256Cbor None.

Definition scheduler_config (args : ServeArgs) : SchedulerConfig :=
  mkSchedulerConfig (sa_max_num_seqs args) (sa_max_num_batched_tokens args) (sa_max_num_batched_tokens args) 2048 true FCFS 1 false.

(** The match on the name of the type is written out a second time in the source,
    and here: that the two give the same type is a theorem. *)
Definition kv_cache_config (mc : ModelConfig) (args : ServeArgs) : KVCacheConfig :=
  let name := to_lowercase (sa_kv_cache_dtype args) in
  let cache_dtype :=
    if String.eqb name "f16" then DT_F16
    else if String.eqb name "bf16" then DT_BF16
    else if one_of name ["fp8_e4m3"; "fp8-e4m3"; "e4m3"] then FP8E4M3
    else if one_of name ["fp8_e5m2"; "fp8-e5m2"; "e5m2"] then FP8E5M2
    else if one_of name ["int8"; "i8"] then DT_INT8
    else match mc_quantization mc with
         | Some q => kv_cache_dtype (plan_or_default q)
         | None => mc_dtype mc
         end in
  mkKVCacheConfig (num_cache_blocks args (mc_max_model_len mc))
    (mkKVCacheSpec BLOCK_SIZE (N.of_nat (mc_num_layers mc)) (N.of_nat (mc_num_kv_heads mc)) (N.of_nat (mc_head_dim mc))
       cache_dtype None).

(** ** From the model to the engine (build_runtime_blocking)

    The parsed model configuration and the tokenizer's ids come from files; the
    number of blocks from the executor. *)
Record Configured : Type := mkConfigured {
  cf_model : ModelConfig;
  cf_eos : N;
  cf_stops : list N;
  cf_kv : KVCacheConfig;
  cf_cache : CacheConfig;
  cf_scheduler : SchedulerConfig;
}.

Definition adjust_model (args : ServeArgs) (model_dir : string) (mc : ModelConfig) : result ModelConfig ConfigError :=
  quantization <-? if String.eqb (to_lowercase (sa_quantization args)) "auto" then Ok (mc_quantization mc)
                   else parse_quantization (sa_quantization args) (sa_quant_bits args) (sa_quant_group_size args);
  Ok (mkModelConfig model_dir (mc_architecture mc) (mc_vocab_size mc) (mc_hidden_size mc) (mc_intermediate_size mc)
        (mc_num_layers mc) (mc_num_attention_heads mc) (mc_num_kv_heads mc) (mc_head_dim mc)
        (default (mc_max_model_len mc) (sa_max_model_len args)) (mc_rope_theta mc) (mc_rope_scaling mc)
        (default (mc_dtype mc) (parse_dtype (sa_dtype args))) quantization (mc_tokenizer_mode mc)).

Definition configure (args : ServeArgs) (model_dir : string) (parsed : ModelConfig) (tokenizer_eos : option N) (tokenizer_stops : list N) :
    result Configured ConfigError :=
  mc <-? adjust_model args model_dir parsed;
  let eos := default (as_u32 (N.of_nat (mc_vocab_size mc))) tokenizer_eos in
  let stops := if bool_decide (eos ∈ tokenizer_stops) then tokenizer_stops else eos :: tokenizer_stops in
  Ok (mkConfigured mc eos stops (kv_cache_config mc args) (cache_config args mc) (scheduler_config args)).

Section engine.
Context {Value X : Type} `{!Executor Value X}.

Definition build_engine (c : Configured) (executor : X) (num_gpu_blocks : nat) : option (EngineCore (Value := Value) (X := X)) :=
  s ← scheduler_new (cf_scheduler c) (cf_cache c) num_gpu_blocks (mc_max_model_len (cf_model c));
  Some (with_stop_token_ids (engine_new executor s (cf_eos c)) (cf_stops c)).

Lemma saturating_mul_le a b : (N.of_nat (a * b) <= u64_max)%N → saturating_mul a b = a * b.
Proof. intros H. unfold saturating_mul. rewrite N.min_l by lia. lia. Qed.

(** Block 0 is never handed out, so the blocks asked for are one short of what all
    sequences need at full length. *)
Lemma num_cache_blocks_capacity args n : (N.of_nat (sa_max_num_seqs args * Nat.max (cdiv n BLOCK_SIZE) 1) <= u64_max)%N →
  0 < sa_max_num_seqs args → num_cache_blocks args n - 1 = sa_max_num_seqs args * Nat.max (cdiv n BLOCK_SIZE) 1 - 1.
Proof. intros H Hs. unfold num_cache_blocks. rewrite saturating_mul_le by done. lia. Qed.

Lemma scheduler_new_pool config cc n maxlen (s : Scheduler (Value := Value)) :
  scheduler_new config cc n maxlen = Some s → BlockPool.new n = Some (block_pool (s_kv s)).
Proof.
  unfold scheduler_new, KVCacheManager.new. cbn [num_blocks]. destruct (BlockPool.new n) as [p|]; [| done].
  cbn [mbind option_bind]. by intros [= <-].
Qed.

Lemma pool_ids n p i b : BlockPool.new n = Some p → bp_blocks p !! i = Some b → i < S (n - 1) ∧ blk_id b = i.
Proof.
  intros E Hb. destruct (new_rep_pool n) as (p' & E' & Hrep & _ & Hl & _). rewrite E in E'. injection E' as <-.
  pose proof (lookup_lt_Some _ _ _ Hb) as Hi. unfold BlockPool.num_blocks in Hl. split; [lia |].
  destruct (pool_block p _ Hrep i Hi) as (b' & Hb' & (Hid & _) & _). congruence.
Qed.

(** C31. The served engine.  From an accepted command line, and for a number of
    blocks that ids of 32 bits can number, the engine is built without a panic in a
    state from which all the engine's theorems hold: it is the initial state of its
    configuration, blocks are not empty, each has its index for id, and there are no
    requests.  It stops exactly at the tokenizer's stop ids and the end-of-sequence
    id.  The configurations of the cache and of the executor, derived by two
    functions, agree on the number of blocks, their size and the data type, and
    unless their number overflows the blocks that can be handed out (all but block
    0) are one fewer than what [max_num_seqs] sequences of the greatest length need
    together. *)
Theorem server_engine_ready (value_to_string : Value → string) (sha256 : list byte → list byte) (xxh3_64 : list byte → N)
    args model_dir parsed eos stops c executor n :
  configure args model_dir parsed eos stops = Ok c → (N.of_nat n <= u32_max + 1)%N →
  (∃ core, build_engine c executor n = Some core
     ∧ engine_reach value_to_string sha256 xxh3_64 (cf_scheduler c) (cf_cache c) n (mc_max_model_len (cf_model c)) core
     ∧ 0 < cc_block_size (cf_cache c) ∧ ec_requests core = ∅
     ∧ (∀ i b, bp_blocks (block_pool (s_kv (ec_scheduler core))) !! i = Some b → N.of_nat (blk_id b) = as_u32 (N.of_nat i))
     ∧ ∀ t, t ∈ ec_stop_token_ids core ↔ t ∈ stops ∨ t = default (as_u32 (N.of_nat (mc_vocab_size parsed))) eos)
  ∧ num_blocks (cf_kv c) = cc_num_gpu_blocks (cf_cache c) ∧ block_size (kv_spec (cf_kv c)) = cc_block_size (cf_cache c)
  ∧ spec_dtype (kv_spec (cf_kv c)) = cc_cache_dtype (cf_cache c)
  ∧ (let per_seq := Nat.max (cdiv (mc_max_model_len (cf_model c)) (block_size (kv_spec (cf_kv c)))) 1 in
     (N.of_nat (sa_max_num_seqs args * per_seq) <= u64_max)%N → 0 < sa_max_num_seqs args →
     num_blocks (cf_kv c) - 1 = sa_max_num_seqs args * per_seq - 1).
Proof.
  unfold configure, adjust_model. intros H Hn.
  destruct (if String.eqb _ "auto" then _ else _) as [q|e]; [| done]. cbn [result_bind mc_vocab_size] in H. injection H as <-.
  cbn [cf_scheduler cf_cache cf_model cf_kv cf_eos cf_stops mc_max_model_len].
  split; [| split_and!; [done | done | done |]; intros Hfit Hpos; exact (num_cache_blocks_capacity args _ Hfit Hpos)].
  unfold build_engine. cbn [cf_scheduler cf_cache cf_model cf_eos cf_stops mc_max_model_len].
  match goal with |- context [scheduler_new ?a ?b n ?m] =>
    destruct (scheduler_new_inv (Value := Value) a b n m ltac:(cbn; unfold BLOCK_SIZE; lia)) as (s & E & _ & _) end.
  rewrite E. cbn [mbind option_bind]. eexists. split; [done |]. split; [by apply engine_reach_new |].
  split; [cbn; unfold BLOCK_SIZE; lia |]. split; [done |]. split.
  { intros i b Hb. destruct (pool_ids n _ i b (scheduler_new_pool _ _ _ _ _ E) Hb) as [Hi ->].
    unfold as_u32, u32_max in *. rewrite N.mod_small; lia. }
  intros t. cbn [with_stop_token_ids engine_new ec_stop_token_ids ec_eos_token_id].
  rewrite !elem_of_union, !elem_of_singleton, elem_of_list_to_set. case_bool_decide; set_solver.
Qed.
End engine.

(** ** A concrete command line *)
Definition demo_args : ServeArgs :=
  mkServeArgs "model" None "0.0.0.0" 8000 "bf16" (Some 100) 2 64 F32.one true None "*" false 256 1000 64 120 "info" "INT8"
    (Some 8%N) None "auto" false None 50051.
Definition demo_model : ModelConfig :=
  mkModelConfig "" "LlamaForCausalLM" 128 8 16 2 4 2 2 4096 F32.one None DT_F16 None TM_Auto.

Lemma server_engine_ready_witness :
  ∃ c core, configure demo_args "dir" demo_model None [5%N] = Ok c
    ∧ build_engine (Value := unit) c true 9 = Some core ∧ (128%N ∈ ec_stop_token_ids core) ∧ num_blocks (cf_kv c) = 14.
Proof.
  destruct (configure demo_args "dir" demo_model None [5%N]) as [c|e] eqn:E; [| vm_compute in E; discriminate E].
  destruct (server_engine_ready (Value := unit) (X := bool) unit_to_string (λ x, x) toy_digest demo_args "dir" demo_model None [5%N] c true 9 E)
    as ((core & Ec & _ & _ & _ & _ & Hs) & _); [vm_compute; discriminate |].
  exists c, core. split; [done |]. split; [done |]. split; [apply Hs; by right | vm_compute in E; by injection E as <-].
Defined.

(** With one sequence at a time, the blocks that can be handed out never hold a
    sequence of the greatest length. *)
Lemma one_sequence_one_block_short args n :
  sa_max_num_seqs args = 1 → (N.of_nat (Nat.max (cdiv n BLOCK_SIZE) 1) <= u64_max)%N → 0 < n →
  num_cache_blocks args n - 1 < cdiv n BLOCK_SIZE.
Proof.
  intros Hs Hfit Hn. rewrite num_cache_blocks_capacity; rewrite ?Hs, ?Nat.mul_1_l; [| done | lia].
  pose proof (cdiv_pos n BLOCK_SIZE ltac:(unfold BLOCK_SIZE; lia) Hn). lia.
Qed.
