(* ===== verification/Detokenizer.v ===== *)
(** * The streaming detokenizer (rllm-tokenizer/src/detokenizer.rs)

    Token texts go in, text deltas come out; text that may be the start of a stop
    string is held back.  A panic (slicing inside a character) is [None]. *)
From S2P Require Import Prelude CoreTypes Utf8.

Inductive OutputMode : Type := Delta | Cumulative | FinalOnly.

#[global] Instance OutputMode_eq_dec : EqDecision OutputMode.
Proof. solve_decision. Defined.

Record StreamingDetokenizer : Type := mkDetok {
  partial_bytes : bytes;
  stop_buffer : bytes;
  stop_strings : list bytes;
  d_stop_token_ids : list TokenId;
  d_eos_token_id : option TokenId;
  d_min_tokens : N;
  d_tokens_generated : N;
  output_mode : OutputMode;
  d_cumulative_text : bytes;
}.

Inductive StopResult : Type :=
  | Continue
  | StoppedByEos
  | StoppedByTokenId (id : TokenId)
  | StoppedByString (s : bytes).

Definition detok_new (stops : list bytes) : StreamingDetokenizer :=
  mkDetok [] [] stops [] None 0 0 Delta [].

Definition with_stop_ids (ids : list TokenId) (d : StreamingDetokenizer) : StreamingDetokenizer :=
  mkDetok (partial_bytes d) (stop_buffer d) (stop_strings d) ids (d_eos_token_id d) (d_min_tokens d)
    (d_tokens_generated d) (output_mode d) (d_cumulative_text d).
Definition with_eos_token_id (id : option TokenId) (d : StreamingDetokenizer) : StreamingDetokenizer :=
  mkDetok (partial_bytes d) (stop_buffer d) (stop_strings d) (d_stop_token_ids d) id (d_min_tokens d)
    (d_tokens_generated d) (output_mode d) (d_cumulative_text d).
Definition with_min_tokens (n : N) (d : StreamingDetokenizer) : StreamingDetokenizer :=
  mkDetok (partial_bytes d) (stop_buffer d) (stop_strings d) (d_stop_token_ids d) (d_eos_token_id d) n
    (d_tokens_generated d) (output_mode d) (d_cumulative_text d).
Definition with_output_mode (m : OutputMode) (d : StreamingDetokenizer) : StreamingDetokenizer :=
  mkDetok (partial_bytes d) (stop_buffer d) (stop_strings d) (d_stop_token_ids d) (d_eos_token_id d) (d_min_tokens d)
    (d_tokens_generated d) m (d_cumulative_text d).

(** The texts and the undecoded bytes. *)
Definition set_texts (partial buffer cumulative : bytes) (d : StreamingDetokenizer) : StreamingDetokenizer :=
  mkDetok partial buffer (stop_strings d) (d_stop_token_ids d) (d_eos_token_id d) (d_min_tokens d)
    (d_tokens_generated d) (output_mode d) cumulative.

Definition check_stop_token (d : StreamingDetokenizer) (token_id : TokenId) : StopResult * StreamingDetokenizer :=
  let n := (d_tokens_generated d + 1)%N in
  let d' := mkDetok (partial_bytes d) (stop_buffer d) (stop_strings d) (d_stop_token_ids d) (d_eos_token_id d)
              (d_min_tokens d) n (output_mode d) (d_cumulative_text d) in
  (if bool_decide (d_eos_token_id d = Some token_id) && (d_min_tokens d <? n)%N then StoppedByEos
   else if (d_min_tokens d <? n)%N && bool_decide (token_id ∈ d_stop_token_ids d) then StoppedByTokenId token_id
   else Continue, d').

(** *** UTF-8 at token boundaries *)
Definition utf8_sequence_length (first_byte : N) : nat :=
  if (first_byte <? 128)%N then 1 else if (first_byte <? 224)%N then 2 else if (first_byte <? 240)%N then 3 else 4.

Definition is_clean_utf8_boundary (l : bytes) : bool :=
  match last l with
  | None => true
  | Some b => negb (in_range 128 191 b) && negb (in_range 192 247 b)
  end.

(** The walk back from position [i]. *)
Fixpoint safe_walk (l : bytes) (i : nat) : nat :=
  match i with
  | 0 => 0
  | S j =>
      match l !! j with
      | None => 0
      | Some b =>
          if (b <? 128)%N then S j
          else if (192 <=? b)%N then
            (if utf8_sequence_length b <=? length l - j then length l else j)
          else safe_walk l j
      end
  end.

Definition find_safe_utf8_boundary (l : bytes) : nat := safe_walk l (length l).

(** Returns the decoded text and the bytes kept. *)
Definition decode_utf8_partial (partial new_bytes : bytes) : bytes * bytes :=
  if bool_decide (partial = []) && is_clean_utf8_boundary new_bytes then (from_utf8_lossy new_bytes, partial)
  else
    let partial := partial ++ new_bytes in
    let safe_end := find_safe_utf8_boundary partial in
    (from_utf8_lossy (take safe_end partial), drop safe_end partial).

(** *** Text *)
Definition max_stop_len (stops : list bytes) : nat := foldr (λ s n, Nat.max (length s) n) 0 stops.

(** The first stop string of the list that the buffer contains. *)
Definition find_stop (buffer : bytes) (stops : list bytes) : option bytes :=
  head (filter (λ s, contains buffer s = true) stops).

(** What is returned when [stop] is found. *)
Definition stopped_text (mode : OutputMode) (buffer cumulative stop : bytes) : option (option bytes) :=
  match mode with
  | Delta =>
      match find buffer stop with
      | Some idx => Some <$> slice_to buffer idx
      | None => None
      end
  | Cumulative =>
      match rfind cumulative stop with
      | Some pos => Some <$> slice_to cumulative pos
      | None => Some (Some cumulative)
      end
  | FinalOnly => Some None
  end.

Definition emit (mode : OutputMode) (delta cumulative : bytes) : option bytes :=
  match mode with Delta => Some delta | Cumulative => Some cumulative | FinalOnly => None end.

Definition decode_token (d : StreamingDetokenizer) (token_text : bytes) :
    option (option bytes * StreamingDetokenizer) :=
  let '(decoded, partial) := decode_utf8_partial (partial_bytes d) token_text in
  let cumulative := d_cumulative_text d ++ decoded in
  if bool_decide (output_mode d = FinalOnly) then
    Some (None, set_texts partial (stop_buffer d) cumulative d)
  else if bool_decide (stop_strings d = []) then
    Some (emit (output_mode d) decoded cumulative, set_texts partial (stop_buffer d) cumulative d)
  else
    let buffer := stop_buffer d ++ decoded in
    let max_len := max_stop_len (stop_strings d) in
    match find_stop buffer (stop_strings d) with
    | Some stop =>
        out ← stopped_text (output_mode d) buffer cumulative stop;
        Some (out, set_texts partial [] cumulative d)
    | None =>
        if max_len <? length buffer then
          let safe_len := length buffer - max_len in
          delta ← slice_to buffer safe_len;
          rest ← slice_from buffer safe_len;
          Some (emit (output_mode d) delta cumulative, set_texts partial rest cumulative d)
        else Some (None, set_texts partial buffer cumulative d)
    end.

Definition flush (d : StreamingDetokenizer) : bytes * StreamingDetokenizer :=
  let remaining := if bool_decide (partial_bytes d = []) then [] else from_utf8_lossy (partial_bytes d) in
  let buffer := stop_buffer d ++ remaining in
  let cumulative := d_cumulative_text d ++ remaining in
  match output_mode d with
  | Delta => (buffer, set_texts [] [] cumulative d)
  | _ => (cumulative, set_texts [] [] [] d)
  end.

Definition cumulative_text (d : StreamingDetokenizer) : bytes := d_cumulative_text d.
Definition tokens_generated (d : StreamingDetokenizer) : N := d_tokens_generated d.

(** ** Decoding valid text *)
Lemma is_char_cases b l :
  is_char (b :: l) = true →
  ((b < 128)%N ∧ l = [])
  ∨ ((192 <= b < 248)%N ∧ Forall (λ c, is_cont c = true) l ∧ l ≠ [] ∧ utf8_sequence_length b = S (length l)).
Proof.
  unfold is_char, first_part. destruct (N.ltb_spec b 128).
  { cbn [andb length]. rewrite Nat.eqb_eq. intros [= Hl]. left. split; [done |]. by apply length_zero_iff_nil. }
  intros Hc. right. destruct (lead_info b) as [[[lo hi] k]|] eqn:El; [| done].
  destruct l as [|c l]; [done |]. destruct (in_range lo hi c) eqn:Ec; [| done].
  rewrite andb_true_iff, !Nat.eqb_eq in Hc. destruct Hc as [Hk Hl]. simpl in Hl.
  assert (Hall : Forall (λ c, is_cont c = true) l).
  { assert (Htl : take_cont k l = l).
    { assert (H1 : ∀ k l, length (take_cont k l) = length l → take_cont k l = l).
      { clear. induction k as [|k IH]; intros [|b l]; simpl; try done.
        destruct (is_cont b); simpl; [| done]. intros [= H]. by rewrite IH. }
      apply H1. lia. }
    rewrite <- Htl. clear. revert l. induction k as [|k IH]; intros [|b l]; simpl; try constructor.
    destruct (is_cont b) eqn:E; constructor; [done | apply IH]. }
  assert (Hlen : length l = k) by lia.
  unfold lead_info, in_range in El. repeat case_match; simplify_eq;
    rewrite ?andb_true_iff, ?N.leb_le, ?N.eqb_eq in *;
    (split_and!; [lia | lia | constructor; [| done] | done |
      unfold utf8_sequence_length;
      repeat match goal with |- context [(b <? ?n)%N] => destruct (N.ltb_spec b n) end; simpl; lia]);
    unfold is_cont, in_range in *; rewrite ?andb_true_iff, ?N.leb_le in *; lia.
Qed.

Lemma safe_walk_conts pre l : ∀ n, n ≤ length l → Forall (λ c, is_cont c = true) l →
  safe_walk (pre ++ l) (length pre + n) = safe_walk (pre ++ l) (length pre).
Proof.
  induction n as [|n IH]; intros Hn Hl; [by rewrite Nat.add_0_r |].
  rewrite Nat.add_succ_r. cbn [safe_walk]. rewrite lookup_app_r by lia.
  replace (length pre + n - length pre) with n by lia.
  destruct (lookup_lt_is_Some_2 l n ltac:(lia)) as [b Hb]. rewrite Hb.
  pose proof (proj1 (Forall_lookup _ _) Hl n b Hb) as Hc. simpl in Hc. unfold is_cont, in_range in Hc.
  rewrite andb_true_iff, !N.leb_le in Hc.
  rewrite (proj2 (N.ltb_ge _ _)), (proj2 (N.leb_gt _ _)) by lia. apply IH; [lia | done].
Qed.

Lemma find_safe_valid s : utf8 s → find_safe_utf8_boundary s = length s.
Proof.
  intros (cs & Hcs & ->). destruct cs as [|c cs _] using rev_ind; [done |].
  apply Forall_app in Hcs as [_ Hc]. apply Forall_cons in Hc as [Hc _].
  rewrite concat_app. simpl. rewrite app_nil_r. set (pre := concat cs).
  destruct c as [|b l]; [done |]. unfold find_safe_utf8_boundary.
  destruct (is_char_cases b l Hc) as [[Hb ->] | (Hb & Hl & _ & Hn)].
  - rewrite length_app. simpl length. rewrite Nat.add_1_r. cbn [safe_walk].
    rewrite lookup_app_r, Nat.sub_diag by lia. simpl. by rewrite (proj2 (N.ltb_lt _ _)).
  - rewrite (cons_middle b pre l), (app_assoc pre [b] l).
    assert (Hlen : length ((pre ++ [b]) ++ l) = length (pre ++ [b]) + length l) by (by rewrite length_app).
    rewrite Hlen at 1. rewrite safe_walk_conts by done.
    rewrite length_app. simpl length. rewrite Nat.add_1_r. cbn [safe_walk].
    rewrite <- app_assoc, lookup_app_r, Nat.sub_diag by lia. simpl.
    rewrite (proj2 (N.ltb_ge _ _)), (proj2 (N.leb_le _ _)), (proj2 (Nat.leb_le _ _)) by (rewrite ?length_app; simpl; lia).
    rewrite !length_app. simpl. lia.
Qed.

(** A valid token text is decoded to itself and leaves nothing behind. *)
Lemma decode_valid s : utf8 s → decode_utf8_partial [] s = (s, []).
Proof.
  intros Hs. unfold decode_utf8_partial. simpl. destruct (is_clean_utf8_boundary s).
  - by rewrite from_utf8_lossy_valid.
  - rewrite find_safe_valid by done. by rewrite firstn_all, drop_all, from_utf8_lossy_valid.
Qed.

(** ** Streams of tokens *)
Fixpoint feed (d : StreamingDetokenizer) (tokens : list bytes) : option (list (option bytes) * StreamingDetokenizer) :=
  match tokens with
  | [] => Some ([], d)
  | t :: tokens =>
      '(out, d) ← decode_token d t;
      '(outs, d) ← feed d tokens;
      Some (out :: outs, d)
  end.

Definition emitted (outs : list (option bytes)) : bytes := concat (default [] <$> outs).

Lemma max_stop_len_ge (stops : list bytes) s : s ∈ stops → length s ≤ max_stop_len stops.
Proof.
  induction stops as [|a stops IH]; [by intros ?%not_elem_of_nil |].
  simpl. intros [->|Hs]%elem_of_cons; [lia |]. specialize (IH Hs). lia.
Qed.

Lemma occurs_app_l s t pat i : occurs_at s pat i → occurs_at (s ++ t) pat i.
Proof.
  intros [Hi [k Hk]]. split; [rewrite length_app; lia |]. exists (k ++ t).
  by rewrite drop_app_le, Hk, <- app_assoc by done.
Qed.

Lemma occurs_app_r e s pat i : occurs_at (e ++ s) pat (length e + i) ↔ occurs_at s pat i.
Proof.
  unfold occurs_at. rewrite length_app, drop_app_ge by lia. replace (length e + i - length e) with i by lia.
  split; intros [H1 H2]; (split; [lia | done]).
Qed.

(** An occurrence that ends inside [s] is an occurrence in [s]. *)
Lemma occurs_within s t pat i :
  occurs_at (s ++ t) pat i → i + length pat ≤ length s → occurs_at s pat i.
Proof.
  intros [Hi [k Hk]] Hle. split; [lia |].
  assert (take (length pat) (drop i (s ++ t)) = pat) as Ht by (rewrite Hk; by rewrite take_app_length).
  rewrite drop_app_le, take_app_le in Ht by (rewrite ?length_drop; lia).
  exists (drop (length pat) (drop i s)). rewrite <- Ht at 1. by rewrite take_drop.
Qed.

(** The text seen so far is what was emitted and what is held back: the last
    [max_stop_len] bytes. *)
Record holds (stops : list bytes) (text e : bytes) (d : StreamingDetokenizer) : Prop := {
  ho_mode : output_mode d = Delta;
  ho_stops : stop_strings d = stops;
  ho_partial : partial_bytes d = [];
  ho_text : text = e ++ stop_buffer d;
  ho_len : length (stop_buffer d) = Nat.min (length text) (max_stop_len stops);
  ho_cumulative : d_cumulative_text d = text;
  ho_ascii : ascii text;
  ho_clean : ∀ s i, s ∈ stops → ¬ occurs_at text s i;
}.

(** A stop string that appears with the new token lies in the held text and the token. *)
Lemma window stops text e d t s i :
  holds stops text e d → s ∈ stops → occurs_at (text ++ t) s i →
  ∃ j, i = length e + j ∧ occurs_at (stop_buffer d ++ t) s j.
Proof.
  intros [_ _ _ Ht Hl _ _ Hc] Hs Ho. pose proof (max_stop_len_ge stops s Hs) as Hm.
  assert (length text < i + length s) as Hend.
  { destruct (decide (i + length s ≤ length text)); [| lia]. exfalso. apply (Hc s i Hs). by eapply occurs_within. }
  assert (length text = length e + length (stop_buffer d)) as Htl by (rewrite Ht at 1; apply length_app).
  assert (length e ≤ i) as Hge by lia.
  exists (i - length e). split; [lia |].
  rewrite Ht, <- app_assoc in Ho. replace i with (length e + (i - length e)) in Ho by lia.
  by apply occurs_app_r in Ho.
Qed.

(** What a token does to a stream that holds [text]. *)
Inductive token_result (stops : list bytes) (text e : bytes) (t : bytes) : option bytes → StreamingDetokenizer → Prop :=
  | TR_more out d' :
      holds stops (text ++ t) (e ++ default [] out) d' → token_result stops text e t out d'
  | TR_stop s p before d' :
      s ∈ stops → occurs_at (text ++ t) s p → (∀ j, j < p → ¬ occurs_at (text ++ t) s j) →
      (∀ k s', stops !! k = Some s' → (∃ i, occurs_at (text ++ t) s' i) →
         ∃ k0, stops !! k0 = Some s ∧ k0 ≤ k) →
      e ++ before = take p (text ++ t) → stop_buffer d' = [] →
      token_result stops text e t (Some before) d'.

Lemma find_stop_spec buffer stops :
  match find_stop buffer stops with
  | Some s => ∃ k0, stops !! k0 = Some s ∧ contains buffer s = true
                ∧ ∀ k s', stops !! k = Some s' → contains buffer s' = true → k0 ≤ k
  | None => ∀ s, s ∈ stops → contains buffer s = false
  end.
Proof.
  unfold find_stop. induction stops as [|a stops IH]; simpl; [by intros s ?%not_elem_of_nil |].
  rewrite filter_cons. destruct (decide (contains buffer a = true)) as [E|E]; simpl.
  - exists 0. split_and!; [done | done | lia].
  - apply not_true_is_false in E. destruct (head _) as [s|].
    + destruct IH as (k0 & H1 & H2 & H3). exists (S k0). split_and!; [done | done |].
      intros [|k] s' Hk Hc; simplify_eq/=; [congruence |]. specialize (H3 k s' Hk Hc). lia.
    + intros s [->|Hs]%elem_of_cons; [done | by apply IH].
Qed.

Lemma decode_token_holds stops text e d t :
  stops ≠ [] → holds stops text e d → ascii t →
  ∃ out d', decode_token d t = Some (out, d') ∧ token_result stops text e t out d'.
Proof.
  intros Hne Hh Ht. pose proof Hh as [Hm Hst Hp Htx Hl Hcu Ha Hc].
  unfold decode_token. rewrite Hp, (decode_valid t (ascii_utf8 t Ht)), Hm, Hst, Hcu.
  rewrite bool_decide_eq_false_2, (bool_decide_eq_false_2 (stops = [])) by done.
  set (buffer := stop_buffer d ++ t). set (mx := max_stop_len stops) in *.
  assert (Hbuf : text ++ t = e ++ buffer) by (subst buffer; by rewrite Htx, <- app_assoc).
  assert (Hascii : ascii (text ++ t)) by (by apply Forall_app).
  assert (Hbascii : ascii buffer) by (rewrite Hbuf in Hascii; by apply Forall_app in Hascii as [_ ?]).
  pose proof (find_stop_spec buffer stops) as Hfs.
  destruct (find_stop buffer stops) as [s|].
  - destruct Hfs as (k0 & Hk0 & Hcs & Hfirst). unfold stopped_text.
    pose proof (find_spec buffer s) as Hf. unfold contains in Hcs.
    destruct (find buffer s) as [idx|]; [| done]. destruct Hf as [Hocc Hmin].
    unfold slice_to. rewrite ascii_boundary by (done || apply Hocc). simpl.
    eexists _, _. split; [done |]. assert (s ∈ stops) as Hs by (by eapply list_elem_of_lookup_2).
    apply (TR_stop stops text e t s (length e + idx)); try done.
    + rewrite Hbuf. by apply occurs_app_r.
    + intros j Hj Ho. destruct (window stops text e d t s j Hh Hs Ho) as (j' & -> & Ho').
      apply (Hmin j'); [lia | done].
    + intros k s' Hk [i Hi]. exists k0. split; [done |]. apply (Hfirst k s' Hk).
      destruct (window stops text e d t s' i Hh) as (j & _ & Hj); [by eapply list_elem_of_lookup_2 | done |].
      apply contains_spec. by exists j.
    + rewrite Hbuf, take_app_ge by lia. f_equal. f_equal. lia.
  - assert (Hclean : ∀ s i, s ∈ stops → ¬ occurs_at (text ++ t) s i).
    { intros s i Hs Ho. destruct (window stops text e d t s i Hh Hs Ho) as (j & _ & Hj).
      specialize (Hfs s Hs). apply not_true_iff_false in Hfs. apply Hfs, contains_spec. by exists j. }
    assert (Hlb : length buffer = length (stop_buffer d) + length t) by apply length_app.
    assert (Hlt : length (text ++ t) = length e + length buffer) by (rewrite Hbuf; apply length_app).
    destruct (Nat.ltb_spec mx (length buffer)) as [Hlong|Hshort].
    + unfold slice_to, slice_from. rewrite ascii_boundary by (done || lia). simpl.
      eexists _, _. split; [done |]. apply TR_more. simpl. split; simpl; try done.
      * by rewrite Hbuf, <- app_assoc, take_drop.
      * rewrite length_drop, Hlt. fold mx. lia.
    + eexists _, _. split; [done |]. apply TR_more. simpl. rewrite app_nil_r. split; simpl; try done.
      fold buffer mx. rewrite Hlt. destruct (decide (length text ≤ mx)) as [Hle|Hgt].
      * assert (length text = length e + length (stop_buffer d)) by (rewrite Htx at 1; apply length_app). lia.
      * lia.
Qed.

Lemma holds_new stops : (∀ s, s ∈ stops → s ≠ []) → holds stops [] [] (detok_new stops).
Proof.
  intros Hne. split; try done; [constructor |]. intros s i Hs [Hi [k Hk]]. rewrite drop_nil in Hk.
  apply (Hne s Hs). by destruct s.
Qed.

Lemma occurs_prefix_clean (stops : list bytes) text t :
  (∀ s i, s ∈ stops → ¬ occurs_at (text ++ t) s i) → ∀ s i, s ∈ stops → ¬ occurs_at text s i.
Proof. intros H s i Hs Ho. by apply (H s i Hs), occurs_app_l. Qed.

Lemma feed_holds stops tokens : ∀ text e d,
  stops ≠ [] → holds stops text e d → Forall ascii tokens →
  (∀ s i, s ∈ stops → ¬ occurs_at (text ++ concat tokens) s i) →
  ∃ outs d', feed d tokens = Some (outs, d') ∧ holds stops (text ++ concat tokens) (e ++ emitted outs) d'.
Proof.
  induction tokens as [|t tokens IH]; intros text e d Hne Hh Ha Hc.
  - exists [], d. unfold emitted. simpl. by rewrite !app_nil_r.
  - apply Forall_cons in Ha as [Ht Ha]. cbn [concat] in Hc. rewrite app_assoc in Hc.
    destruct (decode_token_holds stops text e d t Hne Hh Ht) as (out & d1 & E & Hr).
    inversion Hr as [out' d1' Hh1 | s p before d1' Hs Ho]; subst.
    2: { exfalso. by apply (occurs_prefix_clean stops (text ++ t) (concat tokens) Hc s p). }
    destruct (IH _ _ d1 Hne Hh1 Ha Hc) as (outs & d2 & E2 & Hh2).
    exists (out :: outs), d2. cbn [feed]. rewrite E. simpl. rewrite E2. simpl. split; [done |].
    unfold emitted in *. simpl. by rewrite (app_assoc text), (app_assoc e).
Qed.

(** C20. Stop strings on a stream of deltas, for ASCII text: while the text holds
    no stop string nothing panics, the deltas and the text held back (at most the
    longest stop string's length) make up the text, and flushing returns the held
    text.  The next token either keeps this so, or completes a stop string: then
    the deltas are exactly the text before that string's first occurrence, where
    the string is the first of the list of stop strings that occurs at all (one
    that comes later in the list may occur earlier in the text). *)
Theorem stop_strings_exact stops tokens t
    (Hne : stops ≠ []) (Hstops : ∀ s, s ∈ stops → s ≠ []) (Htokens : Forall ascii tokens) (Ht : ascii t)
    (Hclean : ∀ s i, s ∈ stops → ¬ occurs_at (concat tokens) s i) :
  ∃ outs d, feed (detok_new stops) tokens = Some (outs, d)
    ∧ emitted outs ++ stop_buffer d = concat tokens
    ∧ (flush d).1 = stop_buffer d ∧ length (stop_buffer d) ≤ max_stop_len stops
    ∧ ∃ out d', decode_token d t = Some (out, d') ∧ token_result stops (concat tokens) (emitted outs) t out d'.
Proof.
  destruct (feed_holds stops tokens [] [] _ Hne (holds_new stops Hstops) Htokens Hclean) as (outs & d & E & Hh).
  simpl in Hh. exists outs, d. pose proof Hh as [Hm Hst Hp Htx Hl Hcu Ha Hc]. split_and!; [done | done | | lia |].
  - unfold flush. rewrite Hm, Hp. simpl. by rewrite app_nil_r.
  - by apply decode_token_holds.
Qed.

(** Without stop strings every valid UTF-8 stream passes through: no token
    panics; Delta returns each token's text, Cumulative the text so far,
    FinalOnly nothing until the flush, which returns all of it. *)
Theorem detok_passthrough mode tokens
    (Htokens : Forall utf8 tokens) :
  ∃ outs d, feed (with_output_mode mode (detok_new [])) tokens = Some (outs, d)
    ∧ cumulative_text d = concat tokens ∧ partial_bytes d = []
    ∧ (flush d).1 = (match mode with Delta => [] | _ => concat tokens end)
    ∧ (∀ k t, tokens !! k = Some t → outs !! k = Some (match mode with
         | Delta => Some t
         | Cumulative => Some (concat (take (S k) tokens))
         | FinalOnly => None
         end)).
Proof.
  assert (H : ∀ text d, Forall utf8 tokens → partial_bytes d = [] → stop_buffer d = [] → stop_strings d = [] →
    output_mode d = mode → d_cumulative_text d = text →
    ∃ outs d', feed d tokens = Some (outs, d') ∧ d_cumulative_text d' = text ++ concat tokens ∧ partial_bytes d' = []
      ∧ stop_buffer d' = [] ∧ output_mode d' = mode
      ∧ ∀ k t, tokens !! k = Some t → outs !! k = Some (match mode with
         | Delta => Some t
         | Cumulative => Some (text ++ concat (take (S k) tokens))
         | FinalOnly => None
         end)).
  { clear Htokens. induction tokens as [|t tokens IH]; intros text d Hv Hp Hb Hs Hm Hc.
    - exists [], d. rewrite app_nil_r. split_and!; try done.
    - apply Forall_cons in Hv as [Ht Hv].
      assert (E : decode_token d t = Some (match mode with
          | Delta => Some t | Cumulative => Some (text ++ t) | FinalOnly => None end,
          set_texts [] [] (text ++ t) d)).
      { unfold decode_token. rewrite Hp, (decode_valid t Ht), Hm, Hs, Hb, Hc. by destruct mode. }
      destruct (IH (text ++ t) (set_texts [] [] (text ++ t) d)) as (outs & d' & E2 & R1 & R2 & R3 & R4 & R5); try done.
      eexists (_ :: outs), d'. cbn [feed]. rewrite E. simpl. rewrite E2. simpl.
      split_and!; [done | by rewrite R1, <- app_assoc | done | done | done |].
      intros [|k] t' Hk; simpl in Hk.
      + injection Hk as <-. simpl. destruct mode; try done. simpl. by rewrite app_nil_r.
      + simpl. rewrite (R5 k t' Hk). destruct mode; try done. simpl. by rewrite <- app_assoc. }
  destruct (H [] (with_output_mode mode (detok_new []))) as (outs & d & E & R1 & R2 & R3 & R4 & R5); try done.
  exists outs, d. split_and!; try done. unfold flush. rewrite R2, R3, R4, R1. simpl.
  destruct mode; try done; simpl; by rewrite app_nil_r.
Qed.

(** ** Concrete runs *)

(** "hel", "lo E" and "ND" with the stop string "END". *)
Definition demo_hel : bytes := [104; 101; 108]%N.
Definition demo_loE : bytes := [108; 111; 32; 69]%N.
Definition demo_ND : bytes := [78; 68]%N.
Definition demo_END : bytes := [69; 78; 68]%N.

Lemma stop_strings_exact_witness :
  ∃ outs d out d', feed (detok_new [demo_END]) [demo_hel; demo_loE] = Some (outs, d)
    ∧ decode_token d demo_ND = Some (out, d') ∧ emitted outs ++ stop_buffer d = demo_hel ++ demo_loE.
Proof.
  destruct (stop_strings_exact [demo_END] [demo_hel; demo_loE] demo_ND) as (outs & d & E & H1 & _ & _ & out & d' & E2 & _).
  - discriminate.
  - intros s ->%list_elem_of_singleton. discriminate.
  - repeat constructor; lia.
  - repeat constructor; lia.
  - intros s i ->%list_elem_of_singleton Ho. assert (contains (concat [demo_hel; demo_loE]) demo_END = false) as H by reflexivity.
    apply not_true_iff_false in H. apply H, contains_spec. exists i. exact Ho.
  - exists outs, d, out, d'. split_and!; [exact E | exact E2 | rewrite H1; reflexivity].
Defined.

Lemma detok_passthrough_witness :
  ∃ outs d, feed (with_output_mode FinalOnly (detok_new [])) [demo_hel; demo_loE] = Some (outs, d)
    ∧ (flush d).1 = demo_hel ++ demo_loE.
Proof.
  destruct (detok_passthrough FinalOnly [demo_hel; demo_loE]) as (outs & d & E & _ & _ & H & _).
  - repeat constructor; apply ascii_utf8; repeat constructor; lia.
  - exists outs, d. split; [exact E | exact H].
Defined.

(** The boundary between emitted and held text is a byte count: with a two-byte
    character (U+00E9) and a one-byte stop string the slice panics. *)
Example held_text_splits_character :
  utf8 [195; 169]%N ∧ decode_token (detok_new [[33%N]]) [195; 169]%N = None.
Proof. split; [exists [[195; 169]%N]; split; [by repeat constructor | done] | vm_compute; reflexivity]. Qed.

(** Cumulative output includes the text that is being held back: here the start
    "E" of the stop string "END". *)
Example cumulative_leaks_held_text :
  fst <$> decode_token (with_output_mode Cumulative (detok_new [demo_END])) demo_loE = Some (Some demo_loE).
Proof. vm_compute. reflexivity. Qed.
