(* ===== verification/BeamSearch.v ===== *)
(** * Beam search (rllm-sampling/src/beam_search.rs)

    The decoder's state, one expansion step and the ranking of hypotheses.
    [expf], [lnf] and [powf] are the platform's functions. *)
From S2P Require Import Prelude F32 CoreTypes Request Sorting Logits Sampler.

Record BeamSearchConfig : Type := mkBeamConfig {
  beam_width : nat;
  bs_max_tokens : nat;
  length_penalty : f32;
  early_stopping : bool;
  bs_ignore_eos : bool;
}.

Definition BeamSearchConfig_default : BeamSearchConfig := mkBeamConfig 1 16 F32.one false false.

Inductive BeamSearchError : Type :=
  | BE_InvalidConfig (msg : string)
  | BE_InvalidSamplingParams (msg : string)
  | LogitBatchSize (expected actual : nat)
  | EmptyVocabulary (beam_index : nat)
  | VocabularyTooLarge (beam_index : nat)
  | NoFiniteCandidates (beam_index : nat)
  | AlreadyFinished.

Inductive BeamFinishReason : Type := BF_Eos | BF_StopToken | BF_Length.

#[global] Instance BeamFinishReason_eq_dec : EqDecision BeamFinishReason.
Proof. solve_decision. Defined.

Record Beam : Type := mkBeam {
  b_token_ids : list TokenId;
  cumulative_logprob : f32;
  b_finish_reason : option BeamFinishReason;
}.

Record BeamSearchStep : Type := mkStep {
  step_active_beams : list Beam;
  active_parent_indices : list nat;
  step_completed_beams : list Beam;
  step_finished : bool;
}.

Record BeamSearch : Type := mkBeamSearch {
  bs_config : BeamSearchConfig;
  bs_prompt_token_ids : list TokenId;
  active_beams : list Beam;
  completed_beams : list Beam;
  bs_finished : bool;
}.

Record Candidate : Type := mkCandidate {
  c_beam : Beam;
  c_parent_index : nat;
  c_token_id : TokenId;
}.

#[local] Open Scope rllm_scope.

Definition config_validate (c : BeamSearchConfig) : result unit BeamSearchError :=
  require negb (beam_width c =? 0) else BE_InvalidConfig "beam_width must be at least 1";
  require negb (bs_max_tokens c =? 0) else BE_InvalidConfig "max_tokens must be at least 1";
  require F32.is_finite (length_penalty c) else BE_InvalidConfig "length_penalty must be finite";
  require (N.of_nat (beam_width c) * 2 <=? u64_max)%N else BE_InvalidConfig "beam_width is too large";
  Ok ().

Definition beam_is_finished (b : Beam) : bool := match b_finish_reason b with Some _ => true | None => false end.

Definition beam_search_new (config : BeamSearchConfig) (prompt_token_ids : list TokenId) :
    result BeamSearch BeamSearchError :=
  _ <-? config_validate config;
  Ok (mkBeamSearch config prompt_token_ids [mkBeam [] F32.zero None] [] false).

Section beam.
Context {Value : Type} (value_to_string : Value → string).
Context (expf lnf : f32 → f32) (powf : f32 → f32 → f32).

Definition score (b : Beam) (length_penalty : f32) : f32 :=
  F32.div (cumulative_logprob b)
    (powf (F32.of_N (N.of_nat (Nat.max (length (b_token_ids b)) 1))) length_penalty).

(** The lexicographic order of token lists. *)
Fixpoint cmp_tokens (l1 l2 : list TokenId) : comparison :=
  match l1, l2 with
  | [], [] => Eq
  | [], _ :: _ => Lt
  | _ :: _, [] => Gt
  | a :: l1, b :: l2 => match N.compare a b with Eq => cmp_tokens l1 l2 | c => c end
  end.

(** [Ordering::then_with] *)
Definition then_with (c1 c2 : comparison) : comparison := match c1 with Eq => c2 | _ => c1 end.
Definition not_greater (c : comparison) : bool := match c with Gt => false | _ => true end.

Definition compare_candidates (a b : Candidate) : comparison :=
  then_with (F32.total_cmp (cumulative_logprob (c_beam b)) (cumulative_logprob (c_beam a)))
    (then_with (Nat.compare (c_parent_index a) (c_parent_index b)) (N.compare (c_token_id a) (c_token_id b))).

Definition compare_final (p : f32) (a b : Beam) : comparison :=
  then_with (F32.total_cmp (score b p) (score a p)) (cmp_tokens (b_token_ids a) (b_token_ids b)).

Definition sort_final_beams (p : f32) (beams : list Beam) : list Beam :=
  sort_by (λ a b, not_greater (compare_final p a b)) beams.

Definition validate_supported_sampling_params (p : SamplingParams Value) : result unit BeamSearchError :=
  require (sp_n p =? 1)%N
    else BE_InvalidSamplingParams "n must be 1; beam_width controls the number of hypotheses";
  require negb (is_some (best_of p))
    else BE_InvalidSamplingParams "best_of is not used by beam search; configure beam_width instead";
  require bool_decide (stop p = [])
    else BE_InvalidSamplingParams "string stop conditions require detokenization; use stop_token_ids";
  require negb (is_some (structured_outputs p))
    else BE_InvalidSamplingParams "structured outputs require grammar state that beam search does not own";
  require negb (speculative_enabled p)
    else BE_InvalidSamplingParams "speculative decoding cannot be combined with beam search";
  Ok ().

(** [max_by(f32::total_cmp)]: the last of the greatest. *)
Fixpoint total_max (best : f32) (l : list f32) : f32 :=
  match l with
  | [] => best
  | x :: l => total_max (match F32.total_cmp best x with Gt => best | _ => x end) l
  end.

Definition score_le (a b : TokenId * f32) : bool :=
  not_greater (then_with (F32.total_cmp b.2 a.2) (N.compare a.1 b.1)).

Definition top_logprobs (logits : list f32) (limit beam_index : nat) :
    result (list (TokenId * f32)) BeamSearchError :=
  match filter (λ v, F32.is_finite v = true) logits with
  | [] => Err (NoFiniteCandidates beam_index)
  | v :: vs =>
      let max := total_max v vs in
      let normalizer := F32.sum ((λ x, expf (F32.sub x max)) <$> v :: vs) in
      if negb (F32.is_finite normalizer) || F32.leb normalizer F32.zero then Err (NoFiniteCandidates beam_index)
      else
        let log_normalizer := F32.add max (lnf normalizer) in
        let scores := (λ iv, (as_u32 (N.of_nat iv.1), F32.sub iv.2 log_normalizer))
                        <$> filter (λ iv, F32.is_finite iv.2 = true) (enumerate logits) in
        Ok (take (Nat.min limit (length scores)) (sort_by score_le scores))
  end.

(** The message of a [CoreError]. *)
Definition error_message (e : CoreError) : string :=
  match e with
  | InvalidConfig m => "invalid configuration: " +:+ m
  | InvalidSamplingParams m => "invalid sampling parameters: " +:+ m
  | RequestNotFound m => "request " +:+ m +:+ " not found"
  | InvalidStatusTransition a b => "invalid request status transition from " +:+ a +:+ " to " +:+ b
  end.

(** The candidates of one beam. *)
Definition expand_beam (s : BeamSearch) (params : SamplingParams Value) (eos : TokenId)
    (bad_words : list (list TokenId)) (index : nat) (beam : Beam) (logits : list f32) :
    result (list Candidate) BeamSearchError :=
  require negb (bool_decide (logits = [])) else EmptyVocabulary index;
  require (N.of_nat (length logits) <=? u32_max)%N else VocabularyTooLarge index;
  let input := mkSamplingInput logits params (bs_prompt_token_ids s ++ b_token_ids beam)
                 (as_u32 (N.of_nat (length (b_token_ids beam)))) eos bad_words in
  let processed := prepare_logits expf lnf input (F32.gtb (temperature params) F32.zero) true in
  let processed := if (N.of_nat (length (b_token_ids beam)) <? min_tokens params)%N
                   then apply_bad_token_ids processed (stop_token_ids params) else processed in
  scored <-? top_logprobs processed (beam_width (bs_config s) * 2) index;
  Ok ((λ tl, mkCandidate (mkBeam (b_token_ids beam ++ [tl.1]) (F32.add (cumulative_logprob beam) tl.2) None)
               index tl.1) <$> scored).

(** The loop over the beams and their logits. *)
Fixpoint expand_all (s : BeamSearch) (params : SamplingParams Value) (eos : TokenId)
    (bad_words : list (list TokenId)) (index : nat) (beams : list (Beam * list f32)) :
    result (list Candidate) BeamSearchError :=
  match beams with
  | [] => Ok []
  | (beam, logits) :: beams =>
      cs <-? expand_beam s params eos bad_words index beam logits;
      rest <-? expand_all s params eos bad_words (S index) beams;
      Ok (cs ++ rest)
  end.

Definition finish_reason_of (s : BeamSearch) (params : SamplingParams Value) (eos : TokenId) (c : Candidate) :
    option BeamFinishReason :=
  if (c_token_id c =? eos)%N && negb (bs_ignore_eos (bs_config s)) && negb (ignore_eos params) then Some BF_Eos
  else if bool_decide (c_token_id c ∈ stop_token_ids params) then Some BF_StopToken
  else if bs_max_tokens (bs_config s) <=? length (b_token_ids (c_beam c)) then Some BF_Length
  else None.

Definition set_reason (r : option BeamFinishReason) (b : Beam) : Beam :=
  mkBeam (b_token_ids b) (cumulative_logprob b) r.

(** The loop that sorts candidates into completed and active beams. *)
Fixpoint place (s : BeamSearch) (params : SamplingParams Value) (eos : TokenId) (cs : list Candidate)
    (active : list Beam) (parents : list nat) (completed : list Beam) : list Beam * list nat * list Beam :=
  match cs with
  | [] => (active, parents, completed)
  | c :: cs =>
      match finish_reason_of s params eos c with
      | Some r => place s params eos cs active parents (completed ++ [set_reason (Some r) (c_beam c)])
      | None =>
          if length active <? beam_width (bs_config s)
          then place s params eos cs (active ++ [set_reason None (c_beam c)]) (parents ++ [c_parent_index c]) completed
          else place s params eos cs active parents completed
      end
  end.

Definition advance (s : BeamSearch) (logits_batch : list (list f32)) (params : SamplingParams Value)
    (eos : TokenId) (bad_words : list (list TokenId)) : result BeamSearchStep BeamSearchError * BeamSearch :=
  if bs_finished s then (Err AlreadyFinished, s)
  else
    let candidates :=
      _ <-? match validate value_to_string params with
            | Ok _ => Ok ()
            | Err e => Err (BE_InvalidSamplingParams (error_message e))
            end;
      _ <-? validate_supported_sampling_params params;
      require (length logits_batch =? length (active_beams s))
        else LogitBatchSize (length (active_beams s)) (length logits_batch);
      expand_all s params eos bad_words 0 (zip (active_beams s) logits_batch) in
    match candidates with
    | Err e => (Err e, s)
    | Ok cs =>
        let w := beam_width (bs_config s) in
        let cs := take (w * 2) (sort_by (λ a b, not_greater (compare_candidates a b)) cs) in
        let '(active, parents, completed) := place s params eos cs [] [] (completed_beams s) in
        let completed := take w (sort_final_beams (length_penalty (bs_config s)) completed) in
        let finished := bool_decide (active = []) || (early_stopping (bs_config s) && (w <=? length completed)) in
        (Ok (mkStep active parents completed finished),
         mkBeamSearch (bs_config s) (bs_prompt_token_ids s) active completed finished)
    end.

Definition best_beams (s : BeamSearch) : list Beam :=
  let w := beam_width (bs_config s) in
  let beams := if length (completed_beams s) <? w then completed_beams s ++ active_beams s else completed_beams s in
  take w (sort_final_beams (length_penalty (bs_config s)) beams).

(** ** Candidates *)

(** [c] extends beam [c_parent_index c] of [beams] by its token. *)
Definition extends (beams : list Beam) (c : Candidate) : Prop :=
  ∃ parent, beams !! c_parent_index c = Some parent ∧ b_token_ids (c_beam c) = b_token_ids parent ++ [c_token_id c].

Lemma expand_beam_spec s params eos bw index beam logits cs :
  expand_beam s params eos bw index beam logits = Ok cs →
  ∀ c, c ∈ cs → c_parent_index c = index ∧ b_token_ids (c_beam c) = b_token_ids beam ++ [c_token_id c].
Proof.
  unfold expand_beam. destruct (negb _); [| done]. destruct (_ <=? _)%N; [| done].
  destruct (top_logprobs _ _ _) as [l|e]; simpl; [| done]. intros [= <-] c (x & -> & _)%list_elem_of_fmap. done.
Qed.

Lemma expand_all_spec s params eos bw beams : ∀ index cs (done : list Beam),
  length done = index → expand_all s params eos bw index beams = Ok cs →
  ∀ c, c ∈ cs → extends (done ++ beams.*1) c.
Proof.
  induction beams as [|[beam logits] beams IH]; intros index cs done Hd E c Hc.
  - injection E as <-. by apply not_elem_of_nil in Hc.
  - cbn [expand_all] in E. destruct (expand_beam _ _ _ _ _ _ _) as [cs1|e] eqn:E1; simpl in E; [| done].
    destruct (expand_all _ _ _ _ _ _) as [cs2|e] eqn:E2; simpl in E; [| done]. injection E as <-.
    apply elem_of_app in Hc as [Hc|Hc].
    + destruct (expand_beam_spec _ _ _ _ _ _ _ _ E1 c Hc) as [Hp Ht]. exists beam. split; [| done].
      rewrite Hp, <- Hd, lookup_app_r, Nat.sub_diag by lia. done.
    + specialize (IH (S index) cs2 (done ++ [beam])). rewrite length_app in IH. simpl in IH.
      destruct (IH ltac:(lia) E2 c Hc) as (parent & Hl & Ht). exists parent. by rewrite <- app_assoc in Hl.
Qed.

(** What [place] adds to the three lists. *)
Lemma place_spec s params eos beams cs : ∀ active parents completed,
  (∀ c, c ∈ cs → extends beams c) →
  let '(active', parents', completed') := place s params eos cs active parents completed in
  (length active' ≤ Nat.max (length active) (beam_width (bs_config s)))
  ∧ (∃ la lp, active' = active ++ la ∧ parents' = parents ++ lp
     ∧ Forall2 (λ b p, ∃ c, extends beams c ∧ finish_reason_of s params eos c = None
         ∧ p = c_parent_index c ∧ b = set_reason None (c_beam c)) la lp)
  ∧ (∃ lc, completed' = completed ++ lc
     ∧ Forall (λ b, ∃ c r, extends beams c ∧ finish_reason_of s params eos c = Some r
         ∧ b = set_reason (Some r) (c_beam c)) lc).
Proof.
  induction cs as [|c cs IH]; intros active parents completed Hc; cbn [place].
  - split_and!; [lia | exists [], []; rewrite !app_nil_r; by split_and! | exists []; by rewrite app_nil_r].
  - destruct (finish_reason_of s params eos c) as [r|] eqn:Er; [| destruct (Nat.ltb_spec (length active) (beam_width (bs_config s)))].
    + specialize (IH active parents (completed ++ [set_reason (Some r) (c_beam c)]) ltac:(intros; apply Hc; by right)).
      destruct (place _ _ _ cs _ _ _) as [[a p] d]. destruct IH as (H1 & H2 & lc & -> & H3).
      split_and!; [done | done |]. exists (set_reason (Some r) (c_beam c) :: lc). rewrite <- app_assoc. split; [done |].
      constructor; [| done]. exists c, r. split_and!; [apply Hc; by left | done | done].
    + specialize (IH (active ++ [set_reason None (c_beam c)]) (parents ++ [c_parent_index c]) completed ltac:(intros; apply Hc; by right)).
      destruct (place _ _ _ cs _ _ _) as [[a p] d]. destruct IH as (H1 & (la & lp & -> & -> & H2) & H3).
      rewrite !length_app in H1. cbn [length] in H1. split_and!; [rewrite !length_app; cbn [length]; lia | | done].
      exists (set_reason None (c_beam c) :: la), (c_parent_index c :: lp). rewrite <- !app_assoc. split_and!; [done | done |].
      constructor; [| done]. exists c. split_and!; [apply Hc; by left | done | done | done].
    + apply IH. intros; apply Hc; by right.
Qed.

Lemma finish_reason_None s params eos c :
  finish_reason_of s params eos c = None → length (b_token_ids (c_beam c)) < bs_max_tokens (bs_config s).
Proof.
  unfold finish_reason_of. destruct (_ && _); [done |]. case_bool_decide; [done |].
  destruct (Nat.leb_spec (bs_max_tokens (bs_config s)) (length (b_token_ids (c_beam c)))); [done | lia].
Qed.

Lemma finish_reason_Length s params eos c :
  finish_reason_of s params eos c = Some BF_Length → bs_max_tokens (bs_config s) ≤ length (b_token_ids (c_beam c)).
Proof.
  unfold finish_reason_of. destruct (_ && _); [done |]. case_bool_decide; [done |].
  by destruct (Nat.leb_spec (bs_max_tokens (bs_config s)) (length (b_token_ids (c_beam c)))).
Qed.

(** ** Reachable searches *)

(** [beam_reach config prompt n s]: [s] after [n] successful steps. *)
Inductive beam_reach (config : BeamSearchConfig) (prompt : list TokenId) : nat → BeamSearch → Prop :=
  | beam_reach_new s : beam_search_new config prompt = Ok s → beam_reach config prompt 0 s
  | beam_reach_step n s logits params eos bw r s' :
      beam_reach config prompt n s → advance s logits params eos bw = (r, s') →
      beam_reach config prompt (if is_ok r then S n else n) s'.

Record beam_inv (config : BeamSearchConfig) (n : nat) (s : BeamSearch) : Prop := {
  bi_config : bs_config s = config ∧ 0 < beam_width config ∧ 0 < bs_max_tokens config;
  bi_active : ∀ b, b ∈ active_beams s →
    b_finish_reason b = None ∧ length (b_token_ids b) = n ∧ n < bs_max_tokens config;
  bi_completed : ∀ b, b ∈ completed_beams s → ∃ r, b_finish_reason b = Some r
    ∧ 0 < length (b_token_ids b) ≤ bs_max_tokens config
    ∧ (r = BF_Length → length (b_token_ids b) = bs_max_tokens config);
  bi_widths : length (active_beams s) ≤ beam_width config ∧ length (completed_beams s) ≤ beam_width config;
  bi_finished : bs_finished s = bool_decide (active_beams s = [])
    || (early_stopping config && (beam_width config <=? length (completed_beams s)));
  bi_steps : n ≤ bs_max_tokens config;
}.

Lemma beam_new_inv config prompt s : beam_search_new config prompt = Ok s → beam_inv config 0 s.
Proof.
  unfold beam_search_new, config_validate.
  destruct (Nat.eqb_spec (beam_width config) 0); [done |]. destruct (Nat.eqb_spec (bs_max_tokens config) 0); [done |].
  simpl. destruct (F32.is_finite _); [| done]. destruct (_ <=? _)%N; [| done]. simpl. intros [= <-].
  split; simpl; [split_and!; [done | lia | lia] | | by intros b ?%not_elem_of_nil | lia | | lia].
  - intros b ->%list_elem_of_singleton. simpl. split_and!; [done | done | lia].
  - destruct (Nat.leb_spec (beam_width config) 0); [lia |]. by rewrite andb_false_r.
Qed.

(** A successful step, and a failed one. *)
Lemma advance_inv config n s logits params eos bw :
  beam_inv config n s →
  match advance s logits params eos bw with
  | (Err _, s') => s' = s
  | (Ok step, s') => bs_finished s = false ∧ beam_inv config (S n) s'
      ∧ step_active_beams step = active_beams s' ∧ step_completed_beams step = completed_beams s'
      ∧ step_finished step = bs_finished s'
      ∧ Forall2 (λ b p, ∃ parent t, active_beams s !! p = Some parent ∧ b_token_ids b = b_token_ids parent ++ [t])
          (active_beams s') (active_parent_indices step)
  end.
Proof.
  intros [Hcfg Hact Hcomp Hw Hfin Hn]. unfold advance. destruct (bs_finished s) eqn:Ef; [done |].
  destruct (match validate _ _ with Ok _ => _ | Err _ => _ end) as [[]|e]; simpl; [| done].
  destruct (validate_supported_sampling_params params) as [[]|e]; simpl; [| done].
  destruct (Nat.eqb_spec (length logits) (length (active_beams s))) as [Hlen|]; [| done].
  destruct (expand_all _ _ _ _ _ _) as [cs|e] eqn:Ee; [| done].
  pose proof (expand_all_spec s params eos bw _ 0 cs [] eq_refl Ee) as Hext. simpl in Hext.
  rewrite fst_zip in Hext by lia.
  set (cs' := take _ _). pose proof (place_spec s params eos (active_beams s) cs' [] [] (completed_beams s)) as Hp.
  destruct (place _ _ _ _ _ _ _) as [[active parents] completed]. simpl in Hp.
  destruct Hp as (P1 & (la & lp & -> & -> & P2) & lc & -> & P3).
  { intros c Hc. apply Hext. subst cs'. apply elem_of_take in Hc as (i & Hc & _).
    eapply list_elem_of_lookup_2 in Hc. by rewrite sort_by_perm in Hc. }
  destruct Hcfg as (Hc1 & Hc2 & Hc3).
  assert (Hlenc : ∀ c, extends (active_beams s) c → length (b_token_ids (c_beam c)) = S n ∧ n < bs_max_tokens config).
  { intros c (parent & Hl & ->). apply list_elem_of_lookup_2, Hact in Hl as (_ & Hl & Hlt).
    rewrite length_app, Hl. simpl. split; [lia | done]. }
  rewrite Hc1 in *. split; [done |]. split_and!; try done.
  2: { eapply Forall2_impl; [exact P2 |]. intros b p (c & (parent & Hl & Ht) & _ & -> & ->). by exists parent, (c_token_id c). }
  assert (Hsteps : S n ≤ bs_max_tokens config).
  { assert (∃ b, b ∈ active_beams s) as [b Hb].
    { destruct (active_beams s) as [|b l] eqn:Eb; [| exists b; by left].
      rewrite bool_decide_eq_true_2 in Hfin by done. done. }
    destruct (Hact b Hb) as (_ & _ & ?). lia. }
  split; simpl.
  - done.
  - intros b Hb. apply list_elem_of_lookup in Hb as [k Hk]. destruct (Forall2_lookup_l _ _ _ _ _ P2 Hk) as (p & _ & c & Hx & Hr & _ & ->).
    simpl. destruct (Hlenc c Hx) as [Hl _]. pose proof (finish_reason_None _ _ _ _ Hr) as Hm. rewrite Hc1 in Hm.
    split_and!; [done | done | lia].
  - intros b Hb. apply elem_of_take in Hb as (i & Hb & _). apply list_elem_of_lookup_2 in Hb.
    unfold sort_final_beams in Hb. rewrite sort_by_perm, elem_of_app in Hb. destruct Hb as [Hb|Hb]; [by apply Hcomp |].
    rewrite Forall_forall in P3. apply P3 in Hb as (c & r & Hx & Hr & ->). exists r. simpl.
    destruct (Hlenc c Hx) as [Hl Hlt]. split_and!; [done | lia | lia |]. intros ->.
    pose proof (finish_reason_Length _ _ _ _ Hr) as Hm. rewrite Hc1 in Hm. lia.
  - rewrite length_take. lia.
  - done.
  - done.
Qed.

(** C34. Beam search, in every reachable state: at most [beam_width] active and
    completed hypotheses; after [n] successful steps every active one has [n]
    tokens, fewer than [max_tokens], and no finish reason; every completed one
    has a reason, and reason Length exactly at [max_tokens]; the search is
    finished just when no hypothesis is active or early stopping applies, hence
    after at most [max_tokens] steps.  A failed step changes nothing; a
    successful one extends, for every active hypothesis, the parent it names. *)
Theorem beam_search_invariant config prompt n s
    (Hreach : beam_reach config prompt n s) :
  length (active_beams s) ≤ beam_width config ∧ length (completed_beams s) ≤ beam_width config
  ∧ (∀ b, b ∈ active_beams s → b_finish_reason b = None ∧ length (b_token_ids b) = n ∧ n < bs_max_tokens config)
  ∧ (∀ b, b ∈ completed_beams s → ∃ r, b_finish_reason b = Some r
       ∧ 0 < length (b_token_ids b) ≤ bs_max_tokens config
       ∧ (r = BF_Length → length (b_token_ids b) = bs_max_tokens config))
  ∧ (bs_finished s = false → active_beams s ≠ []) ∧ n ≤ bs_max_tokens config
  ∧ (∀ logits params eos bw, match advance s logits params eos bw with
       | (Err _, s') => s' = s
       | (Ok step, s') => bs_finished s = false ∧ step_active_beams step = active_beams s'
           ∧ step_finished step = bs_finished s'
           ∧ Forall2 (λ b p, ∃ parent t, active_beams s !! p = Some parent
               ∧ b_token_ids b = b_token_ids parent ++ [t]) (active_beams s') (active_parent_indices step)
       end).
Proof.
  assert (Hinv : beam_inv config n s).
  { induction Hreach as [s Hs | n s logits params eos bw r s' _ IH E]; [by eapply beam_new_inv |].
    pose proof (advance_inv config n s logits params eos bw IH) as Ha. rewrite E in Ha.
    destruct r as [step|e]; simpl; [by destruct Ha as (_ & ? & _) | by subst]. }
  pose proof Hinv as [Hcfg Hact Hcomp [Hw1 Hw2] Hfin Hn]. split_and!; try done.
  - intros Hf He. rewrite He, bool_decide_eq_true_2 in Hfin by done. simpl in Hfin. congruence.
  - intros logits params eos bw. pose proof (advance_inv config n s logits params eos bw Hinv) as Ha.
    destruct (advance _ _ _ _ _) as [[step|e] s']; [| done]. destruct Ha as (A & _ & B & _ & C & D). by split_and!.
Qed.
End beam.

Definition demo_beam_config : BeamSearchConfig := mkBeamConfig 2 2 F32.one false false.
Definition demo_pow (_ _ : f32) : f32 := F32.one.
Definition demo_advance (s : BeamSearch) : result BeamSearchStep BeamSearchError * BeamSearch :=
  advance (λ _ : unit, EmptyString) demo_exp demo_ln demo_pow s
    [F32.of_Z <$> [1; 2; 3]%Z] (demo_params F32.zero []) 9 [].
Definition demo_search : BeamSearch := mkBeamSearch demo_beam_config [5%N] [mkBeam [] F32.zero None] [] false.

(** The first step of a search of width two keeps the two best tokens. *)
Example demo_advance_tokens :
  is_ok (demo_advance demo_search).1 = true
  ∧ b_token_ids <$> active_beams (demo_advance demo_search).2 = [[2]; [1]]%N.
Proof. split; vm_compute; reflexivity. Qed.

(** A concrete search of width two, after its first step. *)
Lemma beam_search_invariant_witness :
  beam_search_new demo_beam_config [5%N] = Ok demo_search
  ∧ length (active_beams (demo_advance demo_search).2) ≤ 2
  ∧ active_beams (demo_advance demo_search).2 ≠ [].
Proof.
  assert (Hnew : beam_search_new demo_beam_config [5%N] = Ok demo_search) by (vm_compute; reflexivity).
  split; [exact Hnew |].
  assert (Hr : beam_reach (λ _ : unit, EmptyString) demo_exp demo_ln demo_pow demo_beam_config [5%N] 1
                 (demo_advance demo_search).2).
  { assert (Hok : is_ok (demo_advance demo_search).1 = true) by (vm_compute; reflexivity).
    pose proof (beam_reach_step (λ _ : unit, EmptyString) demo_exp demo_ln demo_pow demo_beam_config [5%N] 0 demo_search
      [F32.of_Z <$> [1; 2; 3]%Z] (demo_params F32.zero []) 9 [] (demo_advance demo_search).1 (demo_advance demo_search).2
      (beam_reach_new _ _ _ _ _ _ _ Hnew) (surjective_pairing _)) as H. by rewrite Hok in H. }
  destruct (beam_search_invariant _ _ _ _ _ _ _ _ Hr) as (H1 & _ & _ & _ & H5 & _). split; [exact H1 |].
  apply H5. vm_compute. reflexivity.
Defined.
