(* ===== verification/KvLayout.v ===== *)
(** * Physical layouts of the paged K/V cache (rllm-kernels/src/backend/layout.rs)

    [offset] flattens (block, slot, head, d); sizes and indices are [usize]. *)
From S2P Require Import Prelude.

Inductive KvLayout : Type := Legacy | Nhd | Hnd.

#[global] Instance KvLayout_eq_dec : EqDecision KvLayout.
Proof. solve_decision. Defined.

Module KvLayout.

Definition offset (l : KvLayout) (block slot head d block_size num_kv_heads head_dim : nat) : nat :=
  match l with
  | Legacy => ((block * num_kv_heads + head) * head_dim + d) * block_size + slot
  | Nhd => ((block * block_size + slot) * num_kv_heads + head) * head_dim + d
  | Hnd => ((block * num_kv_heads + head) * block_size + slot) * head_dim + d
  end.

Definition shape (l : KvLayout) (num_blocks block_size num_kv_heads head_dim : nat) : list nat :=
  match l with
  | Legacy => [num_blocks; num_kv_heads; head_dim; block_size]
  | Nhd => [num_blocks; block_size; num_kv_heads; head_dim]
  | Hnd => [num_blocks; num_kv_heads; block_size; head_dim]
  end.

End KvLayout.

(** The elements of a tensor of the given shape. *)
Definition volume (dims : list nat) : nat := foldr Nat.mul 1 dims.

(** ** Mixed-radix indices *)
Lemma radix_lt a b m n : a < m → b < n → a * n + b < m * n.
Proof. nia. Qed.

Lemma radix_inj a b a' b' n : b < n → b' < n → a * n + b = a' * n + b' → a = a' ∧ b = b'.
Proof. intros. assert (a = a') by nia. subst. split; [done | lia]. Qed.

Lemma radix_split i m n : i < m * n → ∃ a b, a < m ∧ b < n ∧ i = a * n + b.
Proof.
  intros Hi. assert (n ≠ 0) by lia. exists (i / n), (i mod n). split_and!.
  - apply Nat.Div0.div_lt_upper_bound. lia.
  - by apply Nat.mod_upper_bound.
  - pose proof (Nat.div_mod_eq i n). lia.
Qed.

(** ** The offset is a bijection *)
Section geometry.
Context (l : KvLayout) (num_blocks block_size num_kv_heads head_dim : nat).

Definition in_range (block slot head d : nat) : Prop :=
  block < num_blocks ∧ slot < block_size ∧ head < num_kv_heads ∧ d < head_dim.
#[local] Notation off := (λ block slot head d, KvLayout.offset l block slot head d block_size num_kv_heads head_dim).

Lemma volume_shape :
  volume (KvLayout.shape l num_blocks block_size num_kv_heads head_dim)
  = num_blocks * block_size * num_kv_heads * head_dim.
Proof. destruct l; unfold volume; simpl; lia. Qed.

Lemma offset_lt block slot head d :
  in_range block slot head d → off block slot head d < num_blocks * block_size * num_kv_heads * head_dim.
Proof.
  intros (Hb & Hs & Hh & Hd). destruct l; simpl.
  - pose proof (radix_lt _ _ _ _ (radix_lt _ _ _ _ (radix_lt _ _ _ _ Hb Hh) Hd) Hs). lia.
  - pose proof (radix_lt _ _ _ _ (radix_lt _ _ _ _ (radix_lt _ _ _ _ Hb Hs) Hh) Hd). lia.
  - pose proof (radix_lt _ _ _ _ (radix_lt _ _ _ _ (radix_lt _ _ _ _ Hb Hh) Hs) Hd). lia.
Qed.

(** The inner three coordinates need not be compared with the number of blocks. *)
Lemma offset_inj block slot head d block' slot' head' d' :
  slot < block_size → head < num_kv_heads → d < head_dim →
  slot' < block_size → head' < num_kv_heads → d' < head_dim →
  off block slot head d = off block' slot' head' d' →
  block = block' ∧ slot = slot' ∧ head = head' ∧ d = d'.
Proof.
  intros ? ? ? ? ? ?. destruct l; simpl; intros E;
    repeat match goal with
    | E : _ * ?n + _ = _ * ?n + _ |- _ => apply radix_inj in E as [E ?]; [| done | done]
    end; done.
Qed.

Lemma offset_surj i :
  i < num_blocks * block_size * num_kv_heads * head_dim →
  ∃ block slot head d, in_range block slot head d ∧ off block slot head d = i.
Proof.
  intros Hi. unfold in_range. destruct l; simpl.
  - destruct (radix_split i (num_blocks * num_kv_heads * head_dim) block_size ltac:(lia)) as (x & s & Hx & Hs & ->).
    destruct (radix_split x (num_blocks * num_kv_heads) head_dim Hx) as (y & d & Hy & Hd & ->).
    destruct (radix_split y num_blocks num_kv_heads Hy) as (b & h & Hb & Hh & ->). by exists b, s, h, d.
  - destruct (radix_split i (num_blocks * block_size * num_kv_heads) head_dim ltac:(lia)) as (x & d & Hx & Hd & ->).
    destruct (radix_split x (num_blocks * block_size) num_kv_heads Hx) as (y & h & Hy & Hh & ->).
    destruct (radix_split y num_blocks block_size Hy) as (b & s & Hb & Hs & ->). by exists b, s, h, d.
  - destruct (radix_split i (num_blocks * num_kv_heads * block_size) head_dim ltac:(lia)) as (x & d & Hx & Hd & ->).
    destruct (radix_split x (num_blocks * num_kv_heads) block_size Hx) as (y & s & Hy & Hs & ->).
    destruct (radix_split y num_blocks num_kv_heads Hy) as (b & h & Hb & Hh & ->). by exists b, s, h, d.
Qed.
End geometry.

(** In every layout the offset is a bijection between the coordinates inside
    the geometry and the indices below the volume of the layout's shape: two
    different coordinates never share an element and no element is unused. *)
Theorem offset_bijection l num_blocks block_size num_kv_heads head_dim :
  let off := λ x : nat * nat * nat * nat,
    KvLayout.offset l x.1.1.1 x.1.1.2 x.1.2 x.2 block_size num_kv_heads head_dim in
  let inside := λ x : nat * nat * nat * nat,
    in_range num_blocks block_size num_kv_heads head_dim x.1.1.1 x.1.1.2 x.1.2 x.2 in
  let n := volume (KvLayout.shape l num_blocks block_size num_kv_heads head_dim) in
  (∀ x, inside x → off x < n)
  ∧ (∀ x y, inside x → inside y → off x = off y → x = y)
  ∧ (∀ i, i < n → ∃ x, inside x ∧ off x = i).
Proof.
  cbv zeta. rewrite volume_shape. split_and!.
  - intros x. apply offset_lt.
  - intros [[[b s] h] d] [[[b' s'] h'] d'] (_ & ? & ? & ?) (_ & ? & ? & ?) E. simpl in *.
    by destruct (offset_inj l block_size num_kv_heads head_dim b s h d b' s' h' d') as (-> & -> & -> & ->).
  - intros i Hi. destruct (offset_surj l num_blocks block_size num_kv_heads head_dim i Hi) as (b & s & h & d & Hr & E).
    by exists (b, s, h, d).
Qed.
