(* ===== verification/AttentionMeta.v ===== *)
(** * Attention metadata (rllm-kernels/src/attention.rs, backend/metadata.rs)

    What a batch tells the attention kernels: [AttentionMetadata] with its
    constructors, and the page lists [StepMetadata] built from it.  A [u32] is
    an [N], an [i32] or [i64] a [Z]; [as_i32] is the wrapping cast. *)
From S2P Require Import Prelude F32.

(** [x as i32]. *)
Definition as_i32 (x : Z) : Z := let m := (x mod 2 ^ 32)%Z in if (m <? 2 ^ 31)%Z then m else (m - 2 ^ 32)%Z.
Definition i32_max : Z := 2147483647.
Definition i64_max : Z := 9223372036854775807.

(** [x as usize] of an [i32]: a negative number becomes a huge one. *)
Definition i32_as_usize (x : Z) : nat := Z.to_nat (x mod 2 ^ 64).

(** [a + b] on [u32] and [i32], which panic on overflow. *)
Definition u32_add (a b : N) : option N := if (a + b <=? u32_max)%N then Some (a + b)%N else None.
Definition i32_add (a b : Z) : option Z := if (a + b <=? i32_max)%Z then Some (a + b)%Z else None.

Record AttentionParams : Type := mkAttentionParams {
  ap_num_q_heads : nat;
  ap_num_kv_heads : nat;
  ap_head_dim : nat;
  ap_block_size : nat;
  ap_scale : f32;
}.

Module AttentionParams.

Definition new (num_q_heads num_kv_heads head_dim block_size : nat) : AttentionParams :=
  mkAttentionParams num_q_heads num_kv_heads head_dim block_size
    (F32.div F32.one (F32.sqrt (F32.of_N (N.of_nat head_dim)))).

Definition gqa_ratio (p : AttentionParams) : option nat :=
  if ap_num_kv_heads p =? 0 then None else Some (ap_num_q_heads p / ap_num_kv_heads p).

Definition kv_head_for_q_head (p : AttentionParams) (q_head : nat) : option nat :=
  if ap_num_q_heads p =? 0 then None else Some (q_head * ap_num_kv_heads p / ap_num_q_heads p).

Definition num_blocks_for_seq_len (p : AttentionParams) (seq_len : nat) : option nat :=
  div_ceil seq_len (ap_block_size p).

End AttentionParams.

Record AttentionMetadata : Type := mkAttentionMetadata {
  am_seq_lens : list N;
  am_query_start_loc : list N;
  am_block_tables : list (list Z);
  am_slot_mapping : list Z;
  am_num_prefill_tokens : nat;
  am_num_decode_tokens : nat;
  am_max_num_blocks_per_seq : nat;
  am_common_prefix_blocks : nat;
  am_sliding_window : option nat;
}.

Module AttentionMetadata.

Definition new : AttentionMetadata := mkAttentionMetadata [] [0%N] [] [] 0 0 0 0 None.

Definition for_decode (seq_lens : list N) (block_tables : list (list Z)) (max_num_blocks_per_seq : nat) :
    AttentionMetadata :=
  let num_seqs := length seq_lens in
  mkAttentionMetadata seq_lens ((λ i, as_u32 (N.of_nat i)) <$> seq 0 (num_seqs + 1)) block_tables []
    0 num_seqs max_num_blocks_per_seq 0 None.

Definition for_decode_with_options (seq_lens : list N) (block_tables : list (list Z))
    (max_num_blocks_per_seq common_prefix_blocks : nat) (sliding_window : option nat) : AttentionMetadata :=
  let m := for_decode seq_lens block_tables max_num_blocks_per_seq in
  mkAttentionMetadata (am_seq_lens m) (am_query_start_loc m) (am_block_tables m) (am_slot_mapping m)
    (am_num_prefill_tokens m) (am_num_decode_tokens m) (am_max_num_blocks_per_seq m)
    common_prefix_blocks sliding_window.

(** The running sums pushed after the first zero. *)
Fixpoint cumulate (cumulative : N) (counts : list N) : option (list N) :=
  match counts with
  | [] => Some []
  | count :: counts =>
      cumulative ← u32_add cumulative count;
      rest ← cumulate cumulative counts;
      Some (cumulative :: rest)
  end.

Definition for_prefill (seq_lens prompt_tokens_per_seq : list N) (block_tables : list (list Z))
    (max_num_blocks_per_seq : nat) : option AttentionMetadata :=
  sums ← cumulate 0 prompt_tokens_per_seq;
  Some (mkAttentionMetadata seq_lens (0%N :: sums) block_tables []
    (N.to_nat (default 0%N (last sums))) 0 max_num_blocks_per_seq 0 None).

(** The loop over the block tables; a row outside the buffer panics. *)
Fixpoint flatten_rows (width seq_idx : nat) (tables : list (list Z)) (flat : list Z) : option (list Z) :=
  match tables with
  | [] => Some flat
  | bt :: tables =>
      let start := seq_idx * width in
      let len := Nat.min (length bt) width in
      if start + len <=? length flat
      then flatten_rows width (S seq_idx) tables (list_inserts start (take len bt) flat)
      else None
  end.

Definition flatten_block_tables (m : AttentionMetadata) : option (list Z) :=
  let width := am_max_num_blocks_per_seq m in
  flatten_rows width 0 (am_block_tables m) (replicate (length (am_seq_lens m) * width) (-1)%Z).

Definition num_seqs (m : AttentionMetadata) : nat := length (am_seq_lens m).
Definition num_tokens (m : AttentionMetadata) : nat := am_num_prefill_tokens m + am_num_decode_tokens m.

(** How many leading blocks of the two tables agree. *)
Fixpoint matching_blocks (a b : list Z) : nat :=
  match a, b with
  | x :: a, y :: b => if (x =? y)%Z then S (matching_blocks a b) else 0
  | _, _ => 0
  end.

Definition common_blocks (tables : list (list Z)) : nat :=
  match tables with
  | first :: ((_ :: _) as rest) => foldl (λ common bt, Nat.min common (matching_blocks first bt)) (length first) rest
  | _ => 0
  end.

Definition detect_common_prefix_blocks (m : AttentionMetadata) : AttentionMetadata :=
  mkAttentionMetadata (am_seq_lens m) (am_query_start_loc m) (am_block_tables m) (am_slot_mapping m)
    (am_num_prefill_tokens m) (am_num_decode_tokens m) (am_max_num_blocks_per_seq m)
    (common_blocks (am_block_tables m)) (am_sliding_window m).

Definition sliding_window_ranges (m : AttentionMetadata) : list (N * N) :=
  match am_sliding_window m with
  | None => (λ len, (0%N, len)) <$> am_seq_lens m
  | Some w =>
      let window := as_u32 (N.of_nat w) in
      (λ len, if (len <=? window)%N then (0%N, len) else ((len - window)%N, len)) <$> am_seq_lens m
  end.

Definition num_window_tokens (m : AttentionMetadata) : nat :=
  match am_sliding_window m with
  | Some w => sum_list_with (λ len, Nat.min (N.to_nat len) w) (am_seq_lens m)
  | None => sum_list_with N.to_nat (am_seq_lens m)
  end.

End AttentionMetadata.

(** ** Step metadata *)
Inductive MetadataError : Type :=
  | InvalidBlockSize
  | QueryStartLocNotZero
  | QueryStartLocNotMonotonic
  | QueryStartLocLength (len expected : nat)
  | BlockTablesLength (len expected : nat)
  | QueryLongerThanSeq (seq q_len seq_len : nat)
  | NotEnoughBlocks (seq len needed seq_len : nat)
  | NegativeBlockId (seq index : nat) (block : Z).

Record StepMetadata : Type := mkStepMetadata {
  sm_base : AttentionMetadata;
  sm_qo_indptr : list Z;
  sm_kv_indptr : list Z;
  sm_kv_indices : list Z;
  sm_kv_last_page_len : list Z;
  sm_max_q_len : nat;
  sm_max_kv_len : nat;
  sm_is_pure_decode : bool;
}.

#[local] Open Scope rllm_scope.

Module StepMetadata.

(** The local variables of the loop over the sequences. *)
Record Csr : Type := mkCsr {
  c_qo_indptr : list Z;
  c_kv_indptr : list Z;
  c_kv_indices : list Z;
  c_kv_last_page_len : list Z;
  c_max_q_len : nat;
  c_max_kv_len : nat;
  c_is_pure_decode : bool;
  c_kv_pages : Z;
}.

Definition csr_start : Csr := mkCsr [0%Z] [0%Z] [] [] 0 0 true 0.

(** [windows(2).any(|w| w[1] < w[0])] *)
Fixpoint decreases (l : list N) : bool :=
  match l with
  | a :: ((b :: _) as l) => (b <? a)%N || decreases l
  | _ => false
  end.

Fixpoint first_negative (index : nat) (row : list Z) : option (nat * Z) :=
  match row with
  | [] => None
  | block :: row => if (block <? 0)%Z then Some (index, block) else first_negative (S index) row
  end.

(** The body of the loop: [None] is a panic. *)
Definition csr_seq (base : AttentionMetadata) (block_size seq : nat) (c : Csr) :
    option (result Csr MetadataError) :=
  len ← am_seq_lens base !! seq;
  q_begin ← am_query_start_loc base !! seq;
  q_end ← am_query_start_loc base !! S seq;
  row ← am_block_tables base !! seq;
  let seq_len := N.to_nat len in
  let q_len := N.to_nat q_end - N.to_nat q_begin in
  if seq_len <? q_len then Some (Err (QueryLongerThanSeq seq q_len seq_len))
  else
    let needed := cdiv seq_len block_size in
    if length row <? needed then Some (Err (NotEnoughBlocks seq (length row) needed seq_len))
    else
      match first_negative 0 (take needed row) with
      | Some (index, block) => Some (Err (NegativeBlockId seq index block))
      | None =>
          let rem := as_i32 (Z.of_nat (seq_len mod block_size)) in
          let last := if seq_len =? 0 then 0%Z
                      else if (rem =? 0)%Z then as_i32 (Z.of_nat block_size) else rem in
          pages ← i32_add (c_kv_pages c) (as_i32 (Z.of_nat needed));
          Some (Ok (mkCsr (c_qo_indptr c ++ [as_i32 (Z.of_N q_end)]) (c_kv_indptr c ++ [pages])
            (c_kv_indices c ++ take needed row) (c_kv_last_page_len c ++ [last])
            (Nat.max (c_max_q_len c) q_len) (Nat.max (c_max_kv_len c) seq_len)
            (c_is_pure_decode c && (q_len =? 1)) pages))
      end.

Fixpoint csr_loop (base : AttentionMetadata) (block_size : nat) (seqs : list nat) (c : Csr) :
    option (result Csr MetadataError) :=
  match seqs with
  | [] => Some (Ok c)
  | seq :: seqs =>
      r ← csr_seq base block_size seq c;
      match r with Ok c => csr_loop base block_size seqs c | Err e => Some (Err e) end
  end.

Definition from_attention_metadata (base : AttentionMetadata) (block_size : nat) :
    option (result StepMetadata MetadataError) :=
  let num_seqs := AttentionMetadata.num_seqs base in
  let checks :=
    require negb (block_size =? 0) else InvalidBlockSize;
    require length (am_query_start_loc base) =? num_seqs + 1
      else QueryStartLocLength (length (am_query_start_loc base)) (num_seqs + 1);
    require bool_decide (head (am_query_start_loc base) = Some 0%N) else QueryStartLocNotZero;
    require length (am_block_tables base) =? num_seqs
      else BlockTablesLength (length (am_block_tables base)) num_seqs;
    require negb (decreases (am_query_start_loc base)) else QueryStartLocNotMonotonic;
    Ok () in
  match checks with
  | Err e => Some (Err e)
  | Ok _ =>
      r ← csr_loop base block_size (seq 0 num_seqs) csr_start;
      Some (c <-? r;
            Ok (mkStepMetadata base (c_qo_indptr c) (c_kv_indptr c) (c_kv_indices c) (c_kv_last_page_len c)
                  (c_max_q_len c) (c_max_kv_len c) (c_is_pure_decode c)))
  end.

End StepMetadata.

(** ** Integers and running sums *)
Lemma as_i32_small x : (0 <= x <= i32_max)%Z → as_i32 x = x.
Proof.
  unfold i32_max, as_i32. intros Hx. rewrite Z.mod_small by lia. cbv zeta.
  destruct (Z.ltb_spec x (2 ^ 31)); lia.
Qed.

Lemma i32_add_small a b : (a + b <= i32_max)%Z → i32_add a b = Some (a + b)%Z.
Proof. unfold i32_add. destruct (Z.leb_spec (a + b) i32_max); [done | lia]. Qed.

(** [0] and the running sums of [l], from [acc]. *)
Fixpoint psums (acc : nat) (l : list nat) : list nat :=
  match l with
  | [] => [acc]
  | x :: l => acc :: psums (acc + x) l
  end.

Lemma psums_snoc acc l x : psums acc (l ++ [x]) = psums acc l ++ [acc + sum_list (l ++ [x])].
Proof.
  revert acc. induction l as [|y l IH]; intros acc; simpl; [do 2 f_equal; lia |].
  rewrite IH. f_equal. f_equal. f_equal. lia.
Qed.

Lemma sum_list_app l k : sum_list (l ++ k) = sum_list l + sum_list k.
Proof. induction l as [|x l IH]; simpl; [done | lia]. Qed.

Lemma psums_length acc l : length (psums acc l) = S (length l).
Proof. revert acc. induction l as [|x l IH]; intros acc; simpl; [done | by rewrite IH]. Qed.

Lemma psums_lookup acc l i : i ≤ length l → psums acc l !! i = Some (acc + sum_list (take i l)).
Proof.
  revert acc i. induction l as [|x l IH]; intros acc [|i] Hi; simpl in *; try lia; try (f_equal; lia).
  rewrite IH by lia. f_equal. lia.
Qed.

(** A segment of a concatenation, by the running sums of the lengths. *)
Lemma concat_segment {A} (ls : list (list A)) i l :
  ls !! i = Some l → take (length l) (drop (sum_list (length <$> take i ls)) (concat ls)) = l.
Proof.
  revert i. induction ls as [|m ls IH]; intros [|i] Hi; simplify_eq/=.
  - by rewrite drop_0, take_app_length.
  - rewrite <- drop_drop, drop_app_length. by apply IH.
Qed.

Lemma concat_lookup_segment {A} (ls : list (list A)) i l k :
  ls !! i = Some l → k < length l → concat ls !! (sum_list (length <$> take i ls) + k) = l !! k.
Proof.
  intros Hi Hk. pose proof (f_equal (λ l, l !! k) (concat_segment ls i l Hi)) as E. simpl in E.
  by rewrite lookup_take_lt, lookup_drop in E by done.
Qed.

Lemma sum_list_take_le (l : list nat) i : sum_list (take i l) ≤ sum_list l.
Proof. revert i. induction l as [|x l IH]; intros [|i]; simpl; [lia .. |]. specialize (IH i). lia. Qed.

(** ** Which batches have step metadata *)
Section step_metadata.
Context (base : AttentionMetadata) (block_size : nat).
#[local] Notation lens := (N.to_nat <$> am_seq_lens base).
#[local] Notation n := (length (am_seq_lens base)).

Definition pages_of (len : nat) : nat := cdiv len block_size.

(** The length of each sequence's query. *)
Definition q_lens : list nat :=
  zip_with (λ a b, N.to_nat b - N.to_nat a) (am_query_start_loc base) (tail (am_query_start_loc base)).

(** The physical blocks that sequence after sequence uses. *)
Definition used_pages : list (list Z) := zip_with (λ len row, take (pages_of len) row) lens (am_block_tables base).

Definition last_page (len : nat) : Z :=
  if len =? 0 then 0%Z else Z.of_nat (len - (pages_of len - 1) * block_size).

(** What the loop asks of sequence [i]. *)
Definition seq_ok (i : nat) : Prop := ∀ len q row,
  lens !! i = Some len → q_lens !! i = Some q → am_block_tables base !! i = Some row →
  q ≤ len ∧ pages_of len ≤ length row ∧ Forall (λ b, (0 <= b)%Z) (take (pages_of len) row).

Definition nondecreasing (l : list N) : Prop := ∀ i a b, l !! i = Some a → l !! S i = Some b → (a <= b)%N.

Definition well_formed : Prop :=
  0 < block_size ∧ length (am_query_start_loc base) = S n ∧ head (am_query_start_loc base) = Some 0%N
  ∧ length (am_block_tables base) = n ∧ nondecreasing (am_query_start_loc base) ∧ (∀ i, i < n → seq_ok i).

Lemma decreases_spec l : StepMetadata.decreases l = false ↔ nondecreasing l.
Proof.
  unfold nondecreasing. induction l as [|a [|b l] IH]; simpl; [by split | split; [| done] |].
  - intros _ [|i] x y Hx Hy; simplify_eq/=.
  - rewrite orb_false_iff, IH. destruct (N.ltb_spec b a); split.
    + by intros [].
    + intros Hnd. specialize (Hnd 0 a b eq_refl eq_refl). lia.
    + intros [_ Hnd] [|i] x y Hx Hy; simplify_eq/=; [done |]. by apply (Hnd i).
    + intros Hnd. split; [done |]. intros i x y Hx Hy. by apply (Hnd (S i)).
Qed.

Lemma first_negative_spec row : ∀ index,
  StepMetadata.first_negative index row = None ↔ Forall (λ b, (0 <= b)%Z) row.
Proof.
  induction row as [|b row IH]; intros index; simpl; [by split |].
  rewrite Forall_cons. destruct (Z.ltb_spec b 0); [split; [done | lia] |]. rewrite IH. naive_solver lia.
Qed.

Lemma last_page_value len :
  0 < block_size → (Z.of_nat block_size <= i32_max)%Z →
  (if len =? 0 then 0%Z else
     if (as_i32 (Z.of_nat (len mod block_size)) =? 0)%Z then as_i32 (Z.of_nat block_size)
     else as_i32 (Z.of_nat (len mod block_size))) = last_page len.
Proof.
  intros Hb Hmax. unfold last_page, pages_of. destruct (Nat.eqb_spec len 0); [done |].
  pose proof (Nat.mod_upper_bound len block_size ltac:(lia)) as Hmod.
  rewrite !as_i32_small by lia.
  unfold cdiv. pose proof (Nat.div_mod_eq len block_size) as Hdiv.
  destruct (Z.eqb_spec (Z.of_nat (len mod block_size)) 0) as [Hz|Hz]; destruct (Nat.ltb_spec 0 (len mod block_size)); try lia.
  assert (0 < len / block_size) by nia. f_equal. nia.
Qed.

(** The state of the loop after the first [k] sequences. *)
Record csr_inv (k : nat) (c : StepMetadata.Csr) : Prop := {
  ci_qo : StepMetadata.c_qo_indptr c = 0%Z :: (as_i32 ∘ Z.of_N <$> take k (tail (am_query_start_loc base)));
  ci_kv : StepMetadata.c_kv_indptr c = Z.of_nat <$> psums 0 (pages_of <$> take k lens);
  ci_indices : StepMetadata.c_kv_indices c = concat (take k used_pages);
  ci_last : StepMetadata.c_kv_last_page_len c = last_page <$> take k lens;
  ci_max_q : StepMetadata.c_max_q_len c = max_list (take k q_lens);
  ci_max_kv : StepMetadata.c_max_kv_len c = max_list (take k lens);
  ci_pure : StepMetadata.c_is_pure_decode c = forallb (λ q, q =? 1) (take k q_lens);
  ci_pages : StepMetadata.c_kv_pages c = Z.of_nat (sum_list (pages_of <$> take k lens));
}.

Lemma max_list_snoc l x : max_list (l ++ [x]) = Nat.max (max_list l) x.
Proof. induction l as [|y l IH]; simpl; [lia |]. rewrite IH. lia. Qed.

Context (Hqsl : length (am_query_start_loc base) = S n) (Htables : length (am_block_tables base) = n)
  (Hpos : 0 < block_size) (Hbs : (Z.of_nat block_size <= i32_max)%Z)
  (Hfit : (Z.of_nat (sum_list (pages_of <$> lens)) <= i32_max)%Z).

Lemma q_lens_lookup i a b :
  am_query_start_loc base !! i = Some a → am_query_start_loc base !! S i = Some b →
  q_lens !! i = Some (N.to_nat b - N.to_nat a).
Proof.
  intros Ha Hb. unfold q_lens. rewrite lookup_zip_with, Ha, lookup_tail, Hb. done.
Qed.

Lemma csr_seq_spec k c :
  k < n → csr_inv k c →
  ∃ r, StepMetadata.csr_seq base block_size k c = Some r
    ∧ match r with Ok c' => seq_ok k ∧ csr_inv (S k) c' | Err _ => ¬ seq_ok k end.
Proof using All.
  intros Hk [I1 I2 I3 I4 I5 I6 I7 I8]. unfold StepMetadata.csr_seq.
  destruct (lookup_lt_is_Some_2 (am_seq_lens base) k Hk) as [len Hlen].
  destruct (lookup_lt_is_Some_2 (am_query_start_loc base) k ltac:(lia)) as [a Ha].
  destruct (lookup_lt_is_Some_2 (am_query_start_loc base) (S k) ltac:(lia)) as [b Hb].
  destruct (lookup_lt_is_Some_2 (am_block_tables base) k ltac:(lia)) as [row Hrow].
  pose proof (q_lens_lookup k a b Ha Hb) as Hq.
  assert (Hlens : lens !! k = Some (N.to_nat len)) by (by rewrite list_lookup_fmap, Hlen).
  assert (Hused : used_pages !! k = Some (take (pages_of (N.to_nat len)) row)).
  { unfold used_pages. by rewrite lookup_zip_with, Hlens, Hrow. }
  assert (Htb : tail (am_query_start_loc base) !! k = Some b) by (by rewrite lookup_tail).
  rewrite Hlen, Ha, Hb, Hrow. cbn [mbind option_bind]. fold (pages_of (N.to_nat len)).
  destruct (Nat.ltb_spec (N.to_nat len) (N.to_nat b - N.to_nat a)) as [Hlt|Hle].
  { eexists. split; [done |]. intros Hok. destruct (Hok _ _ _ Hlens Hq Hrow). lia. }
  destruct (Nat.ltb_spec (length row) (pages_of (N.to_nat len))) as [Hlt|Hpages].
  { eexists. split; [done |]. intros Hok. destruct (Hok _ _ _ Hlens Hq Hrow) as (_ & ? & _). lia. }
  pose proof (first_negative_spec (take (pages_of (N.to_nat len)) row) 0) as Hneg.
  destruct (StepMetadata.first_negative _ _) as [[index block]|].
  { eexists. split; [done |]. intros Hok. destruct (Hok _ _ _ Hlens Hq Hrow) as (_ & _ & Hall).
    apply Hneg in Hall. done. }
  assert (Hsum : sum_list (pages_of <$> take (S k) lens) = sum_list (pages_of <$> take k lens) + pages_of (N.to_nat len)).
  { rewrite (take_S_r _ _ _ Hlens), fmap_app, sum_list_app.
    simpl. lia. }
  pose proof (sum_list_take_le (pages_of <$> lens) (S k)) as Hle2. rewrite <- fmap_take, Hsum in Hle2.
  rewrite last_page_value by done. rewrite I8, (as_i32_small (Z.of_nat _)), i32_add_small by lia.
  eexists. split; [done |]. split.
  { intros len' q row' E1 E2 E3. simplify_eq. split_and!; [lia | done | by apply Hneg]. }
  split; cbn.
  - by rewrite I1, (take_S_r _ _ _ Htb), fmap_app.
  - rewrite I2, (take_S_r _ _ _ Hlens), fmap_app. change (pages_of <$> [N.to_nat len]) with [pages_of (N.to_nat len)].
    rewrite psums_snoc, fmap_app, sum_list_app. simpl. do 2 f_equal. lia.
  - by rewrite I3, (take_S_r _ _ _ Hused), concat_app, concat_cons, concat_nil, app_nil_r.
  - by rewrite I4, (take_S_r _ _ _ Hlens), fmap_app.
  - by rewrite I5, (take_S_r _ _ _ Hq), max_list_snoc.
  - by rewrite I6, (take_S_r _ _ _ Hlens), max_list_snoc.
  - by rewrite I7, (take_S_r _ _ _ Hq), forallb_app; simpl; rewrite andb_true_r.
  - rewrite Hsum. lia.
Qed.

Lemma csr_loop_spec k m c :
  k + m = n → csr_inv k c →
  ∃ r, StepMetadata.csr_loop base block_size (seq k m) c = Some r
    ∧ match r with
      | Ok c' => (∀ i, k ≤ i < n → seq_ok i) ∧ csr_inv n c'
      | Err _ => ∃ i, k ≤ i < n ∧ ¬ seq_ok i
      end.
Proof using All.
  revert k c. induction m as [|m IH]; intros k c Hkm Hinv; simpl.
  - eexists. split; [done |]. replace n with k by lia. split; [intros; lia | done].
  - destruct (csr_seq_spec k c ltac:(lia) Hinv) as (r & -> & Hr). simpl.
    destruct r as [c'|e]; [| eexists; split; [done | exists k; split; [lia | done]]].
    destruct Hr as [Hok Hinv']. destruct (IH (S k) c' ltac:(lia) Hinv') as (r & -> & Hr).
    eexists. split; [done |]. destruct r as [c''|e].
    + destruct Hr as [Hall Hend]. split; [| done]. intros i Hi.
      destruct (decide (i = k)) as [->|]; [done | apply Hall; lia].
    + destruct Hr as (i & Hi & Hbad). exists i. split; [lia | done].
Qed.
End step_metadata.

(** What the step metadata of a batch is. *)
Record step_metadata_of (base : AttentionMetadata) (block_size : nat) (m : StepMetadata) : Prop := {
  smo_base : sm_base m = base;
  smo_qo : sm_qo_indptr m = as_i32 ∘ Z.of_N <$> am_query_start_loc base;
  smo_kv : sm_kv_indptr m = Z.of_nat <$> psums 0 (length <$> used_pages base block_size);
  smo_indices : sm_kv_indices m = concat (used_pages base block_size);
  smo_last : sm_kv_last_page_len m = last_page block_size <$> (N.to_nat <$> am_seq_lens base);
  smo_max_q : sm_max_q_len m = max_list (q_lens base);
  smo_max_kv : sm_max_kv_len m = max_list (N.to_nat <$> am_seq_lens base);
  smo_pure : sm_is_pure_decode m = true ↔ Forall (λ q, q = 1) (q_lens base);
}.

Lemma used_pages_lengths base block_size :
  well_formed base block_size →
  length <$> used_pages base block_size = pages_of block_size <$> (N.to_nat <$> am_seq_lens base).
Proof.
  intros (_ & Hq & _ & Ht & _ & Hok). apply list_eq. intros i. rewrite !list_lookup_fmap.
  unfold used_pages. rewrite lookup_zip_with, list_lookup_fmap.
  destruct (am_seq_lens base !! i) as [len|] eqn:El; simpl; [| done].
  pose proof (lookup_lt_Some _ _ _ El) as Hi.
  destruct (lookup_lt_is_Some_2 (am_block_tables base) i ltac:(lia)) as [row Hrow]. rewrite Hrow. simpl.
  destruct (lookup_lt_is_Some_2 (am_query_start_loc base) i ltac:(lia)) as [a Ha].
  destruct (lookup_lt_is_Some_2 (am_query_start_loc base) (S i) ltac:(lia)) as [b Hb].
  destruct (Hok i Hi _ _ _ ltac:(by rewrite list_lookup_fmap, El) (q_lens_lookup base i a b Ha Hb) Hrow) as (_ & Hlen & _).
  rewrite length_take. f_equal. lia.
Qed.

(** The result of the constructor, for every batch whose pages an [i32] counts. *)
Lemma from_attention_metadata_spec base block_size :
  (Z.of_nat block_size <= i32_max)%Z →
  (Z.of_nat (sum_list (pages_of block_size <$> (N.to_nat <$> am_seq_lens base))) <= i32_max)%Z →
  ∃ r, StepMetadata.from_attention_metadata base block_size = Some r
    ∧ match r with
      | Ok m => well_formed base block_size ∧ step_metadata_of base block_size m
      | Err _ => ¬ well_formed base block_size
      end.
Proof.
  intros Hbs Hfit. unfold StepMetadata.from_attention_metadata, AttentionMetadata.num_seqs.
  set (n := length (am_seq_lens base)).
  destruct (Nat.eqb_spec block_size 0) as [->|Hpos]; simpl.
  { eexists. split; [done |]. intros (? & _). lia. }
  destruct (Nat.eqb_spec (length (am_query_start_loc base)) (n + 1)) as [Hq|]; simpl.
  2: { eexists. split; [done |]. intros (_ & ? & _). lia. }
  case_bool_decide as Hz; simpl; [| eexists; split; [done |]; by intros (_ & _ & ? & _)].
  destruct (Nat.eqb_spec (length (am_block_tables base)) n) as [Ht|]; simpl.
  2: { eexists. split; [done |]. by intros (_ & _ & _ & ? & _). }
  pose proof (decreases_spec (am_query_start_loc base)) as Hdec.
  destruct (StepMetadata.decreases _) eqn:Ed; simpl.
  { eexists. split; [done |]. intros (_ & _ & _ & _ & Hnd & _). by apply Hdec in Hnd. }
  destruct (csr_loop_spec base block_size ltac:(lia) Ht ltac:(lia) Hbs Hfit 0 n StepMetadata.csr_start eq_refl)
    as (r & -> & Hr).
  { split; simpl; try done. }
  simpl. eexists. split; [done |]. destruct r as [c|e]; simpl.
  2: { destruct Hr as (i & Hi & Hbad). intros (_ & _ & _ & _ & _ & Hok). apply Hbad, Hok. lia. }
  destruct Hr as [Hok [I1 I2 I3 I4 I5 I6 I7 _]].
  assert (Hwf : well_formed base block_size).
  { split_and!; [lia | lia | done | done | by apply Hdec | intros i Hi; apply Hok; lia]. }
  assert (Hql : length (q_lens base) = n) by (unfold q_lens; rewrite length_zip_with; destruct (am_query_start_loc base); cbn [length tail] in *; lia).
  split; [done |]. split; simpl; rewrite ?I1, ?I2, ?I3, ?I4, ?I5, ?I6, ?I7; fold n.
  - done.
  - destruct (am_query_start_loc base) as [|x l] eqn:El; [done |]. simplify_eq/=. rewrite take_ge by lia. done.
  - rewrite used_pages_lengths, take_ge by (done || rewrite length_fmap; lia). done.
  - rewrite take_ge; [done |]. unfold used_pages. rewrite length_zip_with, length_fmap. fold n. lia.
  - rewrite take_ge; [done |]. rewrite length_fmap. fold n. lia.
  - rewrite take_ge by lia. done.
  - rewrite take_ge; [done |]. rewrite length_fmap. fold n. lia.
  - rewrite take_ge by lia. rewrite forallb_forall, Forall_forall. split.
    + intros H x Hx. apply Nat.eqb_eq, H. by apply list_elem_of_In.
    + intros H x Hx. apply Nat.eqb_eq, H. by apply list_elem_of_In.
Qed.

(** The pages of sequence [i] in the flat list are its block table. *)
Lemma step_page_lookup base block_size m i len row p :
  well_formed base block_size → step_metadata_of base block_size m →
  (N.to_nat <$> am_seq_lens base) !! i = Some len → am_block_tables base !! i = Some row → p < len →
  ∃ page_base block, sm_kv_indptr m !! i = Some (Z.of_nat page_base)
    ∧ sm_kv_indices m !! (page_base + p / block_size) = Some block
    ∧ row !! (p / block_size) = Some block ∧ (0 <= block)%Z.
Proof.
  intros Hwf Hm Hlen Hrow Hp. pose proof (used_pages_lengths base block_size Hwf) as Hul.
  destruct Hwf as (Hpos & Hq & _ & Ht & _ & Hok). destruct Hm as [_ _ Hkv Hidx _ _ _ _].
  pose proof (lookup_lt_Some _ _ _ Hlen) as Hi. rewrite length_fmap in Hi.
  assert (Hu : used_pages base block_size !! i = Some (take (pages_of block_size len) row)).
  { unfold used_pages. by rewrite lookup_zip_with, Hlen, Hrow. }
  destruct (lookup_lt_is_Some_2 (am_query_start_loc base) i ltac:(lia)) as [a Ha].
  destruct (lookup_lt_is_Some_2 (am_query_start_loc base) (S i) ltac:(lia)) as [b Hb].
  destruct (Hok i Hi _ _ _ Hlen (q_lens_lookup base i a b Ha Hb) Hrow) as (_ & Hn & Hall).
  assert (Hpp : p / block_size < pages_of block_size len).
  { unfold pages_of. pose proof (cdiv_bounds len block_size Hpos). apply Nat.Div0.div_lt_upper_bound. nia. }
  destruct (lookup_lt_is_Some_2 row (p / block_size) ltac:(lia)) as [block Hblock].
  exists (sum_list (length <$> take i (used_pages base block_size))), block. split_and!.
  - rewrite Hkv, list_lookup_fmap, psums_lookup; [by rewrite fmap_take |].
    apply lookup_lt_Some in Hu. rewrite length_fmap. lia.
  - rewrite Hidx, (concat_lookup_segment _ _ _ _ Hu); [by rewrite lookup_take_lt |]. rewrite length_take. lia.
  - done.
  - rewrite Forall_forall in Hall. apply Hall, list_elem_of_lookup. exists (p / block_size). by rewrite lookup_take_lt.
Qed.

(** Step metadata is built exactly for the well-formed batches: a positive
    block size, query starts of the right number that begin at zero and never
    decrease, one block table per sequence, no query longer than its sequence,
    and enough non-negative blocks for every sequence; any other batch is
    refused with an error and nothing panics, as long as an [i32] counts the
    pages.  The metadata then lists, sequence after sequence, exactly the blocks
    the sequence uses, with their running counts, the fill of each last page and
    the maxima; and the page of any position of any sequence is found there. *)
Theorem step_metadata_exact base block_size
    (Hbs : (Z.of_nat block_size <= i32_max)%Z)
    (Hfit : (Z.of_nat (sum_list (pages_of block_size <$> (N.to_nat <$> am_seq_lens base))) <= i32_max)%Z) :
  ∃ r, StepMetadata.from_attention_metadata base block_size = Some r
    ∧ (is_ok r = true ↔ well_formed base block_size)
    ∧ ∀ m, r = Ok m → step_metadata_of base block_size m
        ∧ ∀ i len row p, (N.to_nat <$> am_seq_lens base) !! i = Some len → am_block_tables base !! i = Some row →
            p < len → ∃ page_base block, sm_kv_indptr m !! i = Some (Z.of_nat page_base)
              ∧ sm_kv_indices m !! (page_base + p / block_size) = Some block
              ∧ row !! (p / block_size) = Some block ∧ (0 <= block)%Z.
Proof.
  destruct (from_attention_metadata_spec base block_size Hbs Hfit) as (r & -> & Hr).
  exists r. split; [done |]. destruct r as [m|e]; simpl; [| by split].
  destruct Hr as [Hwf Hm]. split; [by split |]. intros m' [= <-]. split; [done |].
  intros i len row p. by apply step_page_lookup.
Qed.

(** ** Views of the block tables *)

(** Cell [c] of row [r] of the flat table. *)
Definition table_cell (tables : list (list Z)) (r c : nat) : Z := default (-1)%Z (tables !! r ≫= (.!! c)).

Lemma flatten_rows_spec width rows tables : ∀ seq_idx flat,
  length flat = rows * width → seq_idx + length tables ≤ rows →
  ∃ flat', AttentionMetadata.flatten_rows width seq_idx tables flat = Some flat' ∧ length flat' = rows * width
    ∧ ∀ r c, c < width → flat' !! (r * width + c) =
        if decide (seq_idx ≤ r < seq_idx + length tables ∧ is_Some (tables !! (r - seq_idx) ≫= (.!! c)))
        then Some (table_cell tables (r - seq_idx) c) else flat !! (r * width + c).
Proof.
  induction tables as [|bt tables IH]; intros seq_idx flat Hlen Hrows; simpl in *.
  { exists flat. split_and!; [done | done |]. intros r c _. rewrite decide_False; [done |]. lia. }
  rewrite (proj2 (Nat.leb_le _ _)) by nia.
  set (row := take _ bt). assert (Hrl : length row = Nat.min (length bt) width) by (subst row; rewrite length_take; lia).
  destruct (IH (S seq_idx) (list_inserts (seq_idx * width) row flat)) as (flat' & -> & Hl' & Hcell);
    [by rewrite length_inserts | lia |].
  exists flat'. split_and!; [done | done |]. intros r c Hc. rewrite Hcell by done. unfold table_cell.
  destruct (decide (r = seq_idx)) as [->|Hne].
  - rewrite decide_False by lia. rewrite Nat.sub_diag. simpl.
    destruct (bt !! c) as [b|] eqn:Eb.
    + pose proof (lookup_lt_Some _ _ _ Eb). rewrite decide_True by (split; [lia | by eexists]).
      rewrite list_lookup_inserts by (rewrite ?Hrl, ?Hlen; nia). subst row.
      by rewrite lookup_take_lt, Nat.add_comm, Nat.add_sub by lia.
    + apply lookup_ge_None in Eb. rewrite decide_False by (by intros [_ []]).
      rewrite list_lookup_inserts_ge by lia. done.
  - destruct (decide (seq_idx < r)) as [Hgt|Hlt].
    + replace (r - seq_idx) with (S (r - S seq_idx)) by lia. simpl.
      assert (Hins : list_inserts (seq_idx * width) row flat !! (r * width + c) = flat !! (r * width + c))
        by (apply list_lookup_inserts_ge; nia).
      rewrite Hins. destruct (decide (is_Some (tables !! (r - S seq_idx) ≫= (.!! c)))) as [Hs|Hs];
        [destruct (decide (S seq_idx ≤ r < S seq_idx + length tables)) |].
      * rewrite !decide_True by (split; [lia | done]). done.
      * rewrite !decide_False by (intros [? _]; lia). done.
      * rewrite !decide_False by (by intros [_ ?]). done.
    + rewrite !decide_False by (intros [? _]; lia). apply list_lookup_inserts_lt. nia.
Qed.

Lemma matching_blocks_spec a b :
  take (AttentionMetadata.matching_blocks a b) a = take (AttentionMetadata.matching_blocks a b) b
  ∧ AttentionMetadata.matching_blocks a b ≤ Nat.min (length a) (length b)
  ∧ ∀ k, k ≤ length a → k ≤ length b → take k a = take k b → k ≤ AttentionMetadata.matching_blocks a b.
Proof.
  revert b. induction a as [|x a IH]; intros [|y b]; simpl; try (split_and!; [done | lia | simpl; intros; lia]).
  destruct (Z.eqb_spec x y) as [->|Hne].
  - destruct (IH b) as (H1 & H2 & H3). simpl. split_and!; [by rewrite H1 | lia |].
    intros [|k] Hka Hkb E; [lia |]. simpl in E. injection E as E. specialize (H3 k ltac:(lia) ltac:(lia) E). lia.
  - split_and!; [done | lia |]. intros [|k] _ _ E; [lia |]. by injection E.
Qed.

(** The tables that agree with [first] on [k] blocks. *)
Lemma common_fold first rest : ∀ common,
  let k := foldl (λ common bt, Nat.min common (AttentionMetadata.matching_blocks first bt)) common rest in
  k ≤ common ∧ (∀ bt, bt ∈ rest → k ≤ AttentionMetadata.matching_blocks first bt)
  ∧ ∀ j, j ≤ common → (∀ bt, bt ∈ rest → j ≤ AttentionMetadata.matching_blocks first bt) → j ≤ k.
Proof.
  induction rest as [|bt rest IH]; intros common; simpl.
  { split_and!; [lia | by intros ? ?%not_elem_of_nil | auto]. }
  destruct (IH (Nat.min common (AttentionMetadata.matching_blocks first bt))) as (H1 & H2 & H3).
  split_and!; [lia | |].
  - intros bt' [->|Hin]%elem_of_cons; [lia | by apply H2].
  - intros j Hj Hall. apply H3; [| intros; apply Hall; by right]. specialize (Hall bt ltac:(by left)). lia.
Qed.

(** The two views of a batch's block tables.  Flattening tables that are as
    many as the sequences never panics and yields a matrix of one row per
    sequence whose cell is the block of the table, or -1 past its end; blocks
    beyond the row width are cut.  The number of common prefix blocks of two or
    more tables is the length of their longest common prefix. *)
Theorem block_table_views m
    (Hlen : length (am_block_tables m) = length (am_seq_lens m)) (Hmany : 2 ≤ length (am_block_tables m)) :
  (∃ flat, AttentionMetadata.flatten_block_tables m = Some flat
     ∧ length flat = length (am_seq_lens m) * am_max_num_blocks_per_seq m
     ∧ ∀ r c, r < length (am_seq_lens m) → c < am_max_num_blocks_per_seq m →
         flat !! (r * am_max_num_blocks_per_seq m + c) = Some (table_cell (am_block_tables m) r c))
  ∧ let k := am_common_prefix_blocks (AttentionMetadata.detect_common_prefix_blocks m) in
    (∀ a b, a ∈ am_block_tables m → b ∈ am_block_tables m → k ≤ length a ∧ take k a = take k b)
    ∧ ∀ j, (∀ a b, a ∈ am_block_tables m → b ∈ am_block_tables m → j ≤ length a ∧ take j a = take j b) → j ≤ k.
Proof.
  split.
  - unfold AttentionMetadata.flatten_block_tables.
    set (w := am_max_num_blocks_per_seq m). set (n := length (am_seq_lens m)).
    destruct (flatten_rows_spec w n (am_block_tables m) 0 (replicate (n * w) (-1)%Z)) as (flat & -> & Hl & Hcell);
      [by rewrite length_replicate | lia |].
    exists flat. split_and!; [done | done |]. intros r c Hr Hc. rewrite Hcell by done. rewrite Nat.sub_0_r.
    case_decide as Hd; [done |]. rewrite lookup_replicate_2 by nia. unfold table_cell.
    destruct (am_block_tables m !! r ≫= _) as [x|] eqn:E; [| done]. destruct Hd. split; [lia | by eexists].
  - cbv zeta. simpl. destruct (am_block_tables m) as [|first [|t rest]]; simpl in Hmany; [lia | lia |].
    unfold AttentionMetadata.common_blocks. set (others := t :: rest).
    destruct (common_fold first others (length first)) as (H1 & H2 & H3). cbv zeta in *.
    set (k := foldl _ _ _) in *.
    assert (Hfirst : ∀ a, a ∈ first :: others → k ≤ length a ∧ take k a = take k first).
    { intros a [->|Ha]%elem_of_cons; [by split |]. specialize (H2 a Ha).
      destruct (matching_blocks_spec first a) as (E & Hm & _). split; [lia |].
      apply (f_equal (take k)) in E. rewrite !take_take, Nat.min_l in E by lia. done. }
    split.
    + intros a b Ha Hb. destruct (Hfirst a Ha) as [? ->], (Hfirst b Hb) as [_ ->]. done.
    + intros j Hall. apply H3; [by destruct (Hall first first ltac:(by left) ltac:(by left)) |].
      intros bt Hbt. destruct (Hall first bt ltac:(by left) ltac:(by right)) as [Hj Ej].
      destruct (Hall bt first ltac:(by right) ltac:(by left)) as [Hj' _].
      by apply (matching_blocks_spec first bt).
Qed.

(** ** Examples *)
Definition demo_meta : AttentionMetadata :=
  mkAttentionMetadata [5; 3]%N [0; 1; 4]%N [[7; 2]; [7; 4]]%Z [] 3 1 3 0 None.

Example demo_step_metadata :
  StepMetadata.from_attention_metadata demo_meta 4
  = Some (Ok (mkStepMetadata demo_meta [0; 1; 4]%Z [0; 2; 3]%Z [7; 2; 7]%Z [1; 3]%Z 3 5 false)).
Proof. vm_compute. reflexivity. Qed.

Lemma step_metadata_exact_witness :
  (∃ m, StepMetadata.from_attention_metadata demo_meta 4 = Some (Ok m) ∧ step_metadata_of demo_meta 4 m)
  ∧ well_formed demo_meta 4.
Proof.
  destruct (step_metadata_exact demo_meta 4) as (r & E & Hiff & Hok); [vm_compute; congruence .. |].
  assert (Hr : is_ok r = true).
  { rewrite demo_step_metadata in E. by injection E as <-. }
  split; [| by apply Hiff]. destruct r as [m|e]; [| done]. exists m. split; [done |]. by apply Hok.
Defined.

Lemma block_table_views_witness :
  ∃ flat, AttentionMetadata.flatten_block_tables demo_meta = Some flat ∧ flat !! 4 = Some 4%Z ∧ flat !! 2 = Some (-1)%Z.
Proof.
  destruct (block_table_views demo_meta eq_refl (le_n 2)) as ((flat & E & _ & Hc) & _).
  exists flat. split_and!; [done | |].
  - exact (Hc 1 1 ltac:(simpl; lia) ltac:(simpl; lia)).
  - exact (Hc 0 2 ltac:(simpl; lia) ltac:(simpl; lia)).
Defined.

(** The comment of [num_window_tokens] promises zero without a window; the code
    returns the total length. *)
Example num_window_tokens_without_window : AttentionMetadata.num_window_tokens demo_meta = 8.
Proof. reflexivity. Qed.

(** A head's key-value head by the two formulas of the crate. *)
Lemma kv_head_for_q_head_gqa p q_head ratio :
  ap_num_q_heads p ≠ 0 → ap_num_q_heads p mod ap_num_kv_heads p = 0 →
  AttentionParams.gqa_ratio p = Some ratio →
  AttentionParams.kv_head_for_q_head p q_head = Some (q_head / ratio).
Proof.
  unfold AttentionParams.gqa_ratio, AttentionParams.kv_head_for_q_head. intros Hq Hdiv.
  destruct (Nat.eqb_spec (ap_num_kv_heads p) 0) as [|Hkv]; [done |]. intros [= <-].
  destruct (Nat.eqb_spec (ap_num_q_heads p) 0) as [|_]; [done |]. f_equal.
  pose proof (Nat.div_mod_eq (ap_num_q_heads p) (ap_num_kv_heads p)) as E. rewrite Hdiv, Nat.add_0_r in E.
  set (r := ap_num_q_heads p / ap_num_kv_heads p) in *.
  assert (r ≠ 0) by (intros Hr; rewrite Hr in E; lia).
  rewrite E, (Nat.mul_comm q_head). by rewrite Nat.Div0.div_mul_cancel_l.
Qed.
