(* ===== verification/CpuRef.v ===== *)
(** * The CPU reference attention backend (rllm-kernels/src/backend/{mod,cpu_ref}.rs)

    Paged attention on host memory: [run_host] reads keys and values through the
    page lists of [StepMetadata] in any [KvLayout], [write_kv_host] writes them
    at the slots of a slot mapping.  [None] is a panic.  [expf] and [tanhf] are
    the platform's binary64 functions. *)
From S2P Require Import Prelude F32 CoreTypes KvLayout AttentionMeta.

Inductive BackendKind : Type := BK_CpuRef | PagedNaive | FlashAttn | FlashInfer | TrtllmGen | Metal.

(** [str::to_ascii_lowercase] and [str::replace('-', "_")], on the bytes. *)
Definition ascii_lowercase (c : Ascii.ascii) : Ascii.ascii :=
  let n := Ascii.N_of_ascii c in
  if (65 <=? n)%N && (n <=? 90)%N then Ascii.ascii_of_N (n + 32) else c.
Definition dash_to_underscore (c : Ascii.ascii) : Ascii.ascii :=
  if (Ascii.N_of_ascii c =? 45)%N then Ascii.ascii_of_N 95 else c.
Fixpoint map_string (f : Ascii.ascii → Ascii.ascii) (s : string) : string :=
  match s with String.EmptyString => String.EmptyString | String.String c s => String.String (f c) (map_string f s) end.

Module BackendKind.

Definition as_str (k : BackendKind) : string :=
  match k with
  | BK_CpuRef => "cpu_ref" | PagedNaive => "paged_naive" | FlashAttn => "flash_attn"
  | FlashInfer => "flashinfer" | TrtllmGen => "trtllm_gen" | Metal => "metal"
  end.

Definition from_str (s : string) : result BackendKind string :=
  let t := map_string dash_to_underscore (map_string ascii_lowercase s) in
  if bool_decide (t = "cpu_ref") then Ok BK_CpuRef
  else if bool_decide (t = "paged_naive") then Ok PagedNaive
  else if bool_decide (t = "flash_attn") then Ok FlashAttn
  else if bool_decide (t = "flashinfer") then Ok FlashInfer
  else if bool_decide (t = "trtllm_gen") then Ok TrtllmGen
  else if bool_decide (t = "metal") then Ok Metal
  else Err s.

Lemma from_as_str k : from_str (as_str k) = Ok k.
Proof. by destruct k. Qed.

(** A name is accepted exactly when its normal form is the name of a backend. *)
Lemma from_str_Ok s k : from_str s = Ok k ↔ map_string dash_to_underscore (map_string ascii_lowercase s) = as_str k.
Proof.
  unfold from_str. set (t := map_string _ _). split.
  - intros H. repeat (case_bool_decide; [injection H as <-; done |]). done.
  - intros ->. by destruct k.
Qed.

End BackendKind.

Record AttnSpec : Type := mkAttnSpec {
  as_num_q_heads : nat;
  as_num_kv_heads : nat;
  as_head_dim : nat;
  as_block_size : nat;
  as_q_dtype : DType;
  as_kv_dtype : DType;
  as_sliding_window : option nat;
  as_scale : f32;
  as_soft_cap : option f32;
  as_compute_capability : option (N * N);
}.

Record Unsupported : Type := mkUnsupported {
  un_backend : string;
  un_reason : string;
}.

Record HostKvLayer : Type := mkHostKvLayer {
  kv_k : list f32;
  kv_v : list f32;
  kv_layout_ : KvLayout;
  kv_num_blocks : nat;
  kv_block_size : nat;
  kv_num_kv_heads : nat;
  kv_head_dim : nat;
  kv_k_scale : f32;
  kv_v_scale : f32;
}.

(** The trait.  [plan] defaults to doing nothing. *)
Class AttentionBackend (B : Type) : Type := {
  kind : B → BackendKind;
  kv_layout : B → KvLayout;
  supports : B → AttnSpec → result unit Unsupported;
  plan : B → StepMetadata → AttnSpec → result unit string * B;
}.

#[local] Open Scope rllm_scope.

Inductive CpuRefBackend : Type := mkCpuRef.

Definition cpu_ref_supports (spec : AttnSpec) : result unit Unsupported :=
  require negb (as_head_dim spec =? 0) else mkUnsupported "cpu_ref" "head_dim must be greater than 0";
  require negb (as_num_kv_heads spec =? 0) else mkUnsupported "cpu_ref" "num_kv_heads must be greater than 0";
  require as_num_q_heads spec mod as_num_kv_heads spec =? 0
    else mkUnsupported "cpu_ref" ("num_q_heads (" +:+ pretty.pretty (as_num_q_heads spec)
      +:+ ") must be a multiple of num_kv_heads (" +:+ pretty.pretty (as_num_kv_heads spec) +:+ ")");
  Ok ().

#[global] Instance cpu_ref_backend : AttentionBackend CpuRefBackend := {
  kind _ := BK_CpuRef;
  kv_layout _ := Hnd;
  supports _ := cpu_ref_supports;
  plan b _ _ := (Ok (), b);
}.

(** [v[i] = x], which panics out of range. *)
Definition vec_set {A} (i : nat) (x : A) (v : list A) : option (list A) :=
  if i <? length v then Some (<[i := x]> v) else None.

Section run.
Context (expf tanhf : f64 → f64).

(** The physical block and slot of position [p] of the sequence whose pages
    begin at [page_base]. *)
Definition page_of (meta : StepMetadata) (block_size page_base p : nat) : option (nat * nat) :=
  if block_size =? 0 then None
  else
    block ← sm_kv_indices meta !! (page_base + p / block_size);
    Some (i32_as_usize block, p mod block_size).

(** One dequantized element of a cache. *)
Definition read_kv (kv : HostKvLayer) (buffer : list f32) (scale : f32) (at_ : nat * nat) (kv_head d : nat) :
    option f64 :=
  x ← buffer !! KvLayout.offset (kv_layout_ kv) at_.1 at_.2 kv_head d (kv_block_size kv) (kv_num_kv_heads kv) (kv_head_dim kv);
  Some (F64.mul (F64.of_f32 x) (F64.of_f32 scale)).

(** The dot product of a query row with the key at a page. *)
Fixpoint dot_loop (q : list f32) (q_base : nat) (kv : HostKvLayer) (at_ : nat * nat) (kv_head : nat)
    (ds : list nat) (dot : f64) : option f64 :=
  match ds with
  | [] => Some dot
  | d :: ds =>
      qv ← q !! (q_base + d);
      kval ← read_kv kv (kv_k kv) (kv_k_scale kv) at_ kv_head d;
      dot_loop q q_base kv at_ kv_head ds (F64.add dot (F64.mul (F64.of_f32 qv) kval))
  end.

Definition cap_logit (spec : AttnSpec) (dot : f64) : f64 :=
  let logit := F64.mul dot (F64.of_f32 (as_scale spec)) in
  match as_soft_cap spec with
  | Some cap => F64.mul (F64.of_f32 cap) (tanhf (F64.div logit (F64.of_f32 cap)))
  | None => logit
  end.

Definition logit_at (spec : AttnSpec) (q : list f32) (q_base : nat) (kv : HostKvLayer) (meta : StepMetadata)
    (page_base kv_head p : nat) : option f64 :=
  at_ ← page_of meta (kv_block_size kv) page_base p;
  dot ← dot_loop q q_base kv at_ kv_head (seq 0 (as_head_dim spec)) F64.zero;
  Some (cap_logit spec dot).

(** The stable softmax: exponentials and their sum. *)
Definition softmax_weights (logits : list f64) : list f64 * f64 :=
  let max_logit := foldl F64.max F64.neg_infinity logits in
  let exps := (λ l, expf (F64.sub l max_logit)) <$> logits in
  (exps, foldl F64.add F64.zero exps).

(** Adds one weighted value row to the accumulator. *)
Definition accumulate_row (kv : HostKvLayer) (at_ : nat * nat) (kv_head : nat) (weight : f64) (acc : list f64) :
    option (list f64) :=
  mapM (λ da, v ← read_kv kv (kv_v kv) (kv_v_scale kv) at_ kv_head da.1;
              Some (F64.add da.2 (F64.mul weight v))) (zip (seq 0 (length acc)) acc).

Fixpoint accumulate (kv : HostKvLayer) (meta : StepMetadata) (page_base kv_head win_start : nat) (exp_sum : f64)
    (i : nat) (ws : list f64) (acc : list f64) : option (list f64) :=
  match ws with
  | [] => Some acc
  | w :: ws =>
      at_ ← page_of meta (kv_block_size kv) page_base (win_start + i);
      acc ← accumulate_row kv at_ kv_head (F64.div w exp_sum) acc;
      accumulate kv meta page_base kv_head win_start exp_sum (S i) ws acc
  end.

(** [out[base + d] = a as f32] for each element of the accumulator. *)
Fixpoint store_row (base : nat) (acc : list f64) (out : list f32) : option (list f32) :=
  match acc with
  | [] => Some out
  | a :: acc => out ← vec_set base (F64.to_f32 a) out; store_row (S base) acc out
  end.

(** The body of the loop over the query heads. *)
Definition attend_head (spec : AttnSpec) (q : list f32) (kv : HostKvLayer) (meta : StepMetadata)
    (page_base win_start pos q_row q_head : nat) (out : list f32) : option (list f32) :=
  let gqa := as_num_q_heads spec / kv_num_kv_heads kv in
  if gqa =? 0 then None
  else
    let kv_head := q_head / gqa in
    logits ← mapM (logit_at spec q (q_row + q_head * as_head_dim spec) kv meta page_base kv_head)
               (seq win_start (S pos - win_start));
    let '(ws, exp_sum) := softmax_weights logits in
    if F64.eqb exp_sum F64.zero then Some out
    else
      acc ← accumulate kv meta page_base kv_head win_start exp_sum 0 ws (replicate (as_head_dim spec) F64.zero);
      store_row (q_row + q_head * as_head_dim spec) acc out.

(** A loop that threads the output buffer. *)
Fixpoint loop_out (body : nat → list f32 → option (list f32)) (ks : list nat) (out : list f32) : option (list f32) :=
  match ks with
  | [] => Some out
  | k :: ks => out ← body k out; loop_out body ks out
  end.

(** The body of the loop over the query tokens of a sequence. *)
Definition attend_token (spec : AttnSpec) (q : list f32) (kv : HostKvLayer) (meta : StepMetadata)
    (q_begin q_len kv_len page_base j : nat) (out : list f32) : option (list f32) :=
  before ← sub_checked kv_len q_len;
  let pos := before + j in
  let win_start := match as_sliding_window spec with Some w => S pos - w | None => 0 end in
  let q_row := (q_begin + j) * as_num_q_heads spec * as_head_dim spec in
  loop_out (attend_head spec q kv meta page_base win_start pos q_row) (seq 0 (as_num_q_heads spec)) out.

(** The body of the loop over the sequences. *)
Definition attend_seq (spec : AttnSpec) (q : list f32) (kv : HostKvLayer) (meta : StepMetadata)
    (seq_ : nat) (out : list f32) : option (list f32) :=
  q_begin ← i32_as_usize <$> sm_qo_indptr meta !! seq_;
  q_end ← i32_as_usize <$> sm_qo_indptr meta !! S seq_;
  q_len ← sub_checked q_end q_begin;
  kv_len ← N.to_nat <$> am_seq_lens (sm_base meta) !! seq_;
  page_base ← i32_as_usize <$> sm_kv_indptr meta !! seq_;
  loop_out (attend_token spec q kv meta q_begin q_len kv_len page_base) (seq 0 q_len) out.

Definition run_host (q : list f32) (kv : HostKvLayer) (meta : StepMetadata) (spec : AttnSpec) : option (list f32) :=
  if negb ((as_block_size spec =? kv_block_size kv) && (as_num_kv_heads spec =? kv_num_kv_heads kv)
      && (as_head_dim spec =? kv_head_dim kv) && (0 <? kv_num_kv_heads kv)
      && (as_num_q_heads spec mod kv_num_kv_heads kv =? 0)) then None
  else
    let num_tokens := i32_as_usize (default 0%Z (last (sm_qo_indptr meta))) in
    if negb (length q =? num_tokens * as_num_q_heads spec * as_head_dim spec) then None
    else
      let out := replicate (length q) F32.zero in
      if num_tokens =? 0 then Some out
      else loop_out (attend_seq spec q kv meta) (seq 0 (AttentionMetadata.num_seqs (sm_base meta))) out.

End run.

(** ** Writing the cache *)
Section write.
Context (layout : KvLayout) (block_size num_kv_heads head_dim : nat) (k v : list f32).

(** One element of a token's row; a destination outside a cache is skipped. *)
Definition write_elem (token block slot head d : nat) (c : list f32 * list f32) : option (list f32 * list f32) :=
  let dst := KvLayout.offset layout block slot head d block_size num_kv_heads head_dim in
  if (length c.1 <=? dst) || (length c.2 <=? dst) then Some c
  else
    let src := token * (num_kv_heads * head_dim) + head * head_dim + d in
    x ← k !! src;
    y ← v !! src;
    Some (<[dst := x]> c.1, <[dst := y]> c.2).

Fixpoint loop_cache (body : nat → list f32 * list f32 → option (list f32 * list f32)) (ks : list nat)
    (c : list f32 * list f32) : option (list f32 * list f32) :=
  match ks with
  | [] => Some c
  | i :: ks => c ← body i c; loop_cache body ks c
  end.

Definition write_token (token : nat) (slot : Z) (c : list f32 * list f32) : option (list f32 * list f32) :=
  if (slot <? 0)%Z then Some c
  else
    let slot := Z.to_nat slot in
    loop_cache (λ head, loop_cache (write_elem token (slot / block_size) (slot mod block_size) head) (seq 0 head_dim))
      (seq 0 num_kv_heads) c.

Fixpoint write_tokens (token : nat) (slots : list Z) (c : list f32 * list f32) : option (list f32 * list f32) :=
  match slots with
  | [] => Some c
  | slot :: slots => c ← write_token token slot c; write_tokens (S token) slots c
  end.

Definition write_kv_host (k_cache v_cache : list f32) (slot_mapping : list Z) : option (list f32 * list f32) :=
  if block_size =? 0 then None
  else if negb (length k =? length slot_mapping * (num_kv_heads * head_dim)) then None
  else if negb (length v =? length slot_mapping * (num_kv_heads * head_dim)) then None
  else write_tokens 0 slot_mapping (k_cache, v_cache).

End write.

(** ** Loops over the output buffer *)

(** A predicate on the buffer that reads only [lo, hi). *)
Definition local_to (lo hi : nat) (Q : list f32 → Prop) : Prop :=
  ∀ o1 o2, (∀ i, lo ≤ i < hi → o1 !! i = o2 !! i) → Q o1 → Q o2.

Definition zeros (lo hi : nat) (out : list f32) : Prop := ∀ i, lo ≤ i < hi → out !! i = Some F32.zero.

(** A write confined to [lo, hi) that establishes [Q]. *)
Record effect (lo hi : nat) (Q : list f32 → Prop) (out out' : list f32) : Prop := {
  ef_length : length out' = length out;
  ef_frame : ∀ i, ¬ lo ≤ i < hi → out' !! i = out !! i;
  ef_post : Q out';
}.

Lemma bounds_mono (b : nat → nat) i j : (∀ k, k < j → b k ≤ b (S k)) → i ≤ j → b i ≤ b j.
Proof.
  intros Hb Hij. induction j as [|j IH]; [by replace i with 0 by lia |].
  destruct (decide (i = S j)) as [->|]; [done |].
  pose proof (IH ltac:(intros; apply Hb; lia) ltac:(lia)). specialize (Hb j ltac:(lia)). lia.
Qed.

Lemma loop_out_spec body (b : nat → nat) (Q : nat → list f32 → Prop) n :
  (∀ k, k < n → b k ≤ b (S k)) →
  (∀ k, k < n → local_to (b k) (b (S k)) (Q k)) →
  (∀ k out, k < n → zeros (b k) (b (S k)) out → ∃ out', body k out = Some out' ∧ effect (b k) (b (S k)) (Q k) out out') →
  ∀ out, zeros (b 0) (b n) out →
  ∃ out', loop_out body (seq 0 n) out = Some out' ∧ effect (b 0) (b n) (λ o, ∀ k, k < n → Q k o) out out'.
Proof.
  intros Hb Hloc Hbody.
  assert (Hgen : ∀ m k out, k + m = n → zeros (b k) (b n) out →
    ∃ out', loop_out body (seq k m) out = Some out' ∧ effect (b k) (b n) (λ o, ∀ i, k ≤ i < n → Q i o) out out').
  { induction m as [|m IH]; intros k out Hkm Hz; simpl.
    { exists out. split; [done |]. split; [done | done | intros; lia]. }
    assert (Hk : k < n) by lia.
    assert (Hmono : b k ≤ b (S k) ∧ b (S k) ≤ b n) by (split; [by apply Hb | by apply bounds_mono; [| lia]]).
    destruct (Hbody k out Hk ltac:(intros i Hi; apply Hz; lia)) as (out1 & -> & [L1 F1 P1]). simpl.
    destruct (IH (S k) out1 ltac:(lia)) as (out2 & -> & [L2 F2 P2]).
    { intros i Hi. rewrite F1 by lia. apply Hz. lia. }
    exists out2. split; [done |]. split.
    - congruence.
    - intros i Hi. rewrite F2, F1 by lia. done.
    - intros i Hi. destruct (decide (i = k)) as [->|]; [| apply P2; lia].
      apply (Hloc k Hk out1); [| done]. intros x Hx. rewrite F2 by lia. done. }
  intros out Hz. destruct (Hgen n 0 out eq_refl Hz) as (out' & E & [H1 H2 H3]).
  exists out'. split; [done |]. split; [done | done |]. intros k Hk. apply H3. lia.
Qed.

Lemma mapM_pointwise {A B} (f : A → option B) (g : A → B) l :
  (∀ x, x ∈ l → f x = Some (g x)) → mapM f l = Some (g <$> l).
Proof.
  induction l as [|x l IH]; intros Hf; [done |]. simpl. rewrite (Hf x) by (by left). simpl.
  rewrite IH; [done |]. intros y Hy. apply Hf. by right.
Qed.

Lemma replicate_seq {A} k n (x : A) : replicate n x = (λ _ : nat, x) <$> seq k n.
Proof. revert k. induction n as [|n IH]; intros k; simpl; [done | by rewrite (IH (S k))]. Qed.

Lemma store_row_spec acc : ∀ base out, base + length acc ≤ length out →
  store_row base acc out = Some (list_inserts base (F64.to_f32 <$> acc) out).
Proof.
  induction acc as [|a acc IH]; intros base out Hlen; simpl in *; [done |].
  unfold vec_set. rewrite (proj2 (Nat.ltb_lt _ _)) by lia. simpl.
  rewrite IH by (rewrite length_insert; lia). by rewrite list_insert_inserts_lt by lia.
Qed.

(** ** Dense attention

    The reference: causal attention of a query token over the whole history of
    its sequence, given as functions of position, head and dimension. *)
Section dense.
Context (expf tanhf : f64 → f64) (spec : AttnSpec) (num_kv_heads : nat).
#[local] Notation hd := (as_head_dim spec).
#[local] Notation nq := (as_num_q_heads spec).

Definition window_start (pos : nat) : nat :=
  match as_sliding_window spec with Some w => S pos - w | None => 0 end.

Definition dense_logit (qf : nat → f64) (K : nat → nat → nat → f64) (kv_head p : nat) : f64 :=
  cap_logit tanhf spec (foldl (λ a d, F64.add a (F64.mul (qf d) (K p kv_head d))) F64.zero (seq 0 hd)).

Definition dense_out (qf : nat → f64) (K V : nat → nat → nat → f64) (pos kv_head d : nat) : f32 :=
  let ps := seq (window_start pos) (S pos - window_start pos) in
  let '(ws, exp_sum) := softmax_weights expf (dense_logit qf K kv_head <$> ps) in
  if F64.eqb exp_sum F64.zero then F32.zero
  else F64.to_f32 (foldl (λ a pw, F64.add a (F64.mul (F64.div pw.2 exp_sum) (V pw.1 kv_head d))) F64.zero (zip ps ws)).

(** The query row of a token and head. *)
Definition query_row (q : list f32) (token q_head d : nat) : f64 :=
  F64.of_f32 (default F32.zero (q !! ((token * nq + q_head) * hd + d))).

End dense.

(** The cache holds the keys [K] and values [V] of the first [len] positions of a
    sequence with block table [row]. *)
Definition cache_holds (kv : HostKvLayer) (row : list Z) (len : nat) (K V : nat → nat → nat → f64) : Prop :=
  ∀ p h d, p < len → h < kv_num_kv_heads kv → d < kv_head_dim kv →
  ∃ b, row !! (p / kv_block_size kv) = Some b ∧ (0 <= b <= i32_max)%Z
    ∧ read_kv kv (kv_k kv) (kv_k_scale kv) (Z.to_nat b, p mod kv_block_size kv) h d = Some (K p h d)
    ∧ read_kv kv (kv_v kv) (kv_v_scale kv) (Z.to_nat b, p mod kv_block_size kv) h d = Some (V p h d).

Lemma i32_as_usize_nonneg b : (0 <= b <= i32_max)%Z → i32_as_usize b = Z.to_nat b.
Proof. unfold i32_as_usize, i32_max. intros. by rewrite Z.mod_small by lia. Qed.

Lemma i32_as_usize_nat n : (Z.of_nat n <= i32_max)%Z → i32_as_usize (Z.of_nat n) = n.
Proof. intros. rewrite i32_as_usize_nonneg by lia. apply Nat2Z.id. Qed.

(** ** One head *)
Section head.
Context (expf tanhf : f64 → f64) (spec : AttnSpec) (q : list f32) (kv : HostKvLayer) (meta : StepMetadata).
Context (K V : nat → nat → nat → f64) (page_base len : nat).
#[local] Notation hd := (as_head_dim spec).
#[local] Notation nq := (as_num_q_heads spec).
#[local] Notation gqa := (nq / kv_num_kv_heads kv).
(** Every position of the sequence is found through the pages. *)
Context (Hpages : ∀ p, p < len → ∃ at_, page_of meta (kv_block_size kv) page_base p = Some at_
  ∧ ∀ h d, h < kv_num_kv_heads kv → d < hd →
      read_kv kv (kv_k kv) (kv_k_scale kv) at_ h d = Some (K p h d)
      ∧ read_kv kv (kv_v kv) (kv_v_scale kv) at_ h d = Some (V p h d)).

Lemma dot_loop_spec q_base at_ kv_head (qf kf : nat → f64) ds : ∀ dot,
  (∀ d, d ∈ ds → F64.of_f32 <$> q !! (q_base + d) = Some (qf d)
     ∧ read_kv kv (kv_k kv) (kv_k_scale kv) at_ kv_head d = Some (kf d)) →
  dot_loop q q_base kv at_ kv_head ds dot = Some (foldl (λ a d, F64.add a (F64.mul (qf d) (kf d))) dot ds).
Proof.
  induction ds as [|d ds IH]; intros dot Hd; [done |].
  cbn [dot_loop foldl]. destruct (Hd d ltac:(by left)) as [Eq Ek].
  destruct (q !! (q_base + d)) as [qv|]; [| done]. rewrite Ek. cbn [mbind option_bind]. simpl in Eq. injection Eq as <-.
  rewrite IH; [done |]. intros d' Hd'. apply Hd. by right.
Qed.

Lemma logit_at_spec token q_head kv_head p :
  p < len → kv_head < kv_num_kv_heads kv → (∀ d, d < hd → is_Some (q !! ((token * nq + q_head) * hd + d))) →
  logit_at tanhf spec q ((token * nq + q_head) * hd) kv meta page_base kv_head p
  = Some (dense_logit tanhf spec (query_row spec q token q_head) K kv_head p).
Proof using All.
  intros Hp Hh Hq. unfold logit_at. destruct (Hpages p Hp) as (at_ & -> & Hread). cbn [mbind option_bind].
  rewrite (dot_loop_spec _ _ _ (query_row spec q token q_head) (K p kv_head)); [done |].
  intros d Hd%elem_of_seq. split; [| by apply Hread; [| lia]].
  unfold query_row. destruct (Hq d ltac:(lia)) as [x ->]. done.
Qed.

Lemma accumulate_row_spec at_ kv_head weight (vf A : nat → f64) :
  (∀ d, d < hd → read_kv kv (kv_v kv) (kv_v_scale kv) at_ kv_head d = Some (vf d)) →
  accumulate_row kv at_ kv_head weight (A <$> seq 0 hd)
  = Some ((λ d, F64.add (A d) (F64.mul weight (vf d))) <$> seq 0 hd).
Proof.
  intros Hv. unfold accumulate_row. rewrite length_fmap, length_seq.
  assert (Hzip : zip (seq 0 hd) (A <$> seq 0 hd) = (λ d, (d, A d)) <$> seq 0 hd).
  { generalize (seq 0 hd) as l. induction l as [|d l IH]; [done |]. cbn. f_equal. exact IH. }
  rewrite Hzip, (mapM_pointwise _ (λ da, F64.add da.2 (F64.mul weight (vf da.1)))).
  - f_equal. rewrite <- list_fmap_compose. done.
  - intros [d a] (d' & [= -> ->] & Hd%elem_of_seq)%list_elem_of_fmap. simpl. rewrite Hv by lia. done.
Qed.

Lemma accumulate_spec kv_head win_start exp_sum : kv_head < kv_num_kv_heads kv →
  ∀ ws i (A : nat → f64), win_start + i + length ws ≤ len →
  accumulate kv meta page_base kv_head win_start exp_sum i ws (A <$> seq 0 hd)
  = Some ((λ d, foldl (λ a pw, F64.add a (F64.mul (F64.div pw.2 exp_sum) (V pw.1 kv_head d))) (A d)
             (zip (seq (win_start + i) (length ws)) ws)) <$> seq 0 hd).
Proof using All.
  intros Hh. induction ws as [|w ws IH]; intros i A Hi; [done |]. cbn [accumulate length] in *.
  destruct (Hpages (win_start + i) ltac:(lia)) as (at_ & -> & Hread). cbn [mbind option_bind].
  rewrite (accumulate_row_spec _ _ _ (V (win_start + i) kv_head)) by (intros; by apply Hread).
  cbn [mbind option_bind]. rewrite IH by lia. cbn [seq zip zip_with foldl fst snd]. by rewrite Nat.add_succ_r.
Qed.

(** The row one head writes. *)
Lemma attend_head_spec token q_head pos out :
  let q_row := token * nq * hd in
  q_head < nq → nq mod kv_num_kv_heads kv = 0 → 0 < kv_num_kv_heads kv → pos < len →
  (∀ d, d < hd → is_Some (q !! ((token * nq + q_head) * hd + d))) →
  zeros (q_row + q_head * hd) (q_row + S q_head * hd) out →
  ∃ out', attend_head expf tanhf spec q kv meta page_base (window_start spec pos) pos q_row q_head out = Some out'
    ∧ effect (q_row + q_head * hd) (q_row + S q_head * hd)
        (λ o, ∀ d, d < hd → o !! ((token * nq + q_head) * hd + d)
           = Some (dense_out expf tanhf spec (query_row spec q token q_head) K V pos (q_head / gqa) d)) out out'.
Proof using All.
  cbv zeta. intros Hqh Hmod Hnkv Hpos Hq Hz.
  assert (Hgqa : nq = kv_num_kv_heads kv * gqa) by (pose proof (Nat.div_mod_eq nq (kv_num_kv_heads kv)); lia).
  assert (Hkvh : q_head / gqa < kv_num_kv_heads kv).
  { apply Nat.Div0.div_lt_upper_bound. rewrite Nat.mul_comm. lia. }
  assert (Hrow : token * nq * hd + q_head * hd = (token * nq + q_head) * hd) by lia.
  set (ws0 := window_start spec pos).
  assert (Hws : ws0 ≤ S pos) by (subst ws0; unfold window_start; destruct (as_sliding_window spec); lia).
  unfold attend_head. destruct (Nat.eqb_spec gqa 0) as [Hg|_]; [rewrite Hg, Nat.mul_0_r in Hgqa; lia |].
  rewrite Hrow, (mapM_pointwise _ (dense_logit tanhf spec (query_row spec q token q_head) K (q_head / gqa))).
  2: { intros p Hp%elem_of_seq. apply logit_at_spec; [lia | done | done]. }
  cbn [mbind option_bind]. unfold dense_out. fold ws0. cbv zeta.
  set (lg := _ <$> seq ws0 _). destruct (softmax_weights expf lg) as [ws s] eqn:Esm.
  assert (Hwl : length ws = S pos - ws0).
  { unfold softmax_weights in Esm. injection Esm as <- _. subst lg. by rewrite !length_fmap, length_seq. }
  destruct (F64.eqb s F64.zero) eqn:Es.
  { exists out. split; [done |]. split; [done | done |]. intros d Hd. apply Hz. nia. }
  rewrite (replicate_seq 0), accumulate_spec by (done || lia). rewrite Nat.add_0_r, Hwl. cbn [mbind option_bind].
  assert (Hbound : (token * nq + q_head) * hd + hd ≤ length out).
  { destruct (decide (hd = 0)) as [E0|].
    - rewrite E0. lia.
    - pose proof (lookup_lt_Some out _ _ (Hz ((token * nq + q_head) * hd + (hd - 1)) ltac:(nia))). lia. }
  rewrite store_row_spec by (rewrite length_fmap, length_seq; lia).
  eexists. split; [done |]. split.
  - by rewrite length_inserts.
  - intros i Hi. destruct (decide (i < (token * nq + q_head) * hd)).
    + by apply list_lookup_inserts_lt.
    + apply list_lookup_inserts_ge. rewrite !length_fmap, length_seq. nia.
  - intros d Hd. rewrite list_lookup_inserts by (rewrite ?length_fmap, ?length_seq; lia).
    replace (_ + d - _) with d by lia. rewrite !list_lookup_fmap, lookup_seq_lt by done. done.
Qed.
End head.

(** ** The whole batch *)
Section batch.
Context (expf tanhf : f64 → f64) (spec : AttnSpec) (q : list f32) (kv : HostKvLayer)
  (base : AttentionMetadata) (meta : StepMetadata).
Context (K V : nat → nat → nat → nat → f64).
#[local] Notation hd := (as_head_dim spec).
#[local] Notation nq := (as_num_q_heads spec).
#[local] Notation gqa := (nq / kv_num_kv_heads kv).
#[local] Notation bs := (kv_block_size kv).
#[local] Notation starts := (N.to_nat <$> am_query_start_loc base).
#[local] Notation lens := (N.to_nat <$> am_seq_lens base).

(** The number of query tokens of the batch. *)
Definition total_tokens : nat := default 0 (last starts).

(** Geometry, metadata and cache belong together: the assertions of [run_host],
    metadata built from a well-formed batch that fits an [i32], and for every
    sequence [i] a cache that holds its keys [K i] and values [V i]. *)
Record attention_input : Prop := {
  in_block_size : as_block_size spec = bs;
  in_heads : as_num_kv_heads spec = kv_num_kv_heads kv;
  in_dim : hd = kv_head_dim kv;
  in_kv_heads : 0 < kv_num_kv_heads kv;
  in_gqa : nq mod kv_num_kv_heads kv = 0;
  in_wf : well_formed base bs;
  in_meta : step_metadata_of base bs meta;
  in_tokens_fit : (Z.of_nat total_tokens <= i32_max)%Z;
  in_pages_fit : (Z.of_nat (sum_list (length <$> used_pages base bs)) <= i32_max)%Z;
  in_query : length q = total_tokens * nq * hd;
  in_cache : ∀ i len row, lens !! i = Some len → am_block_tables base !! i = Some row →
    cache_holds kv row len (K i) (V i);
}.

(** The row of token [j] of sequence [i], which starts at token [start]. *)
Definition token_done (i start ql len j : nat) (o : list f32) : Prop := ∀ h d, h < nq → d < hd →
  o !! (((start + j) * nq + h) * hd + d)
  = Some (dense_out expf tanhf spec (query_row spec q (start + j) h) (K i) (V i) (len - ql + j) (h / gqa) d).

Context (Hin : attention_input).

Lemma starts_mono i j a b : starts !! i = Some a → starts !! j = Some b → i ≤ j → a ≤ b.
Proof using Hin.
  intros Ha Hb Hij. destruct (in_wf Hin) as (_ & _ & _ & _ & Hnd & _).
  revert b Hb. induction Hij as [|j Hij IH]; intros b Hb; [by simplify_eq |].
  destruct (lookup_lt_is_Some_2 starts j) as [c Hc].
  { apply lookup_lt_Some in Hb. lia. }
  specialize (IH c Hc). rewrite !list_lookup_fmap in Hc, Hb.
  destruct (am_query_start_loc base !! j) as [x|] eqn:Ex; [| done].
  destruct (am_query_start_loc base !! S j) as [y|] eqn:Ey; [| done]. simplify_eq/=.
  specialize (Hnd _ _ _ Ex Ey). lia.
Qed.

Lemma starts_total i a : starts !! i = Some a → a ≤ total_tokens.
Proof using Hin.
  intros Ha. unfold total_tokens. rewrite last_lookup.
  pose proof (lookup_lt_Some _ _ _ Ha) as Hi.
  destruct (lookup_lt_is_Some_2 starts (pred (length starts)) ltac:(lia)) as [b Hb].
  rewrite Hb. apply (starts_mono i (pred (length starts))); [done | done | lia].
Qed.

Lemma qo_lookup i a : starts !! i = Some a → i32_as_usize <$> sm_qo_indptr meta !! i = Some a.
Proof using Hin.
  intros Ha. pose proof (starts_total i a Ha) as Hle. pose proof (in_tokens_fit Hin).
  rewrite (smo_qo _ _ _ (in_meta Hin)), list_lookup_fmap. rewrite list_lookup_fmap in Ha.
  destruct (am_query_start_loc base !! i) as [x|]; [| done]. simpl in *. injection Ha as Ha. f_equal.
  rewrite as_i32_small by lia. rewrite i32_as_usize_nonneg by lia. lia.
Qed.

(** The facts about sequence [i] that its loop body uses. *)
Lemma batch_seq i : i < AttentionMetadata.num_seqs base →
  ∃ start ql len page_base, starts !! i = Some start ∧ starts !! S i = Some (start + ql)
    ∧ q_lens base !! i = Some ql ∧ lens !! i = Some len ∧ ql ≤ len ∧ start + ql ≤ total_tokens
    ∧ i32_as_usize <$> sm_kv_indptr meta !! i = Some page_base
    ∧ ∀ p, p < len → ∃ at_, page_of meta bs page_base p = Some at_
        ∧ ∀ h d, h < kv_num_kv_heads kv → d < hd →
            read_kv kv (kv_k kv) (kv_k_scale kv) at_ h d = Some (K i p h d)
            ∧ read_kv kv (kv_v kv) (kv_v_scale kv) at_ h d = Some (V i p h d).
Proof using Hin.
  intros Hi. unfold AttentionMetadata.num_seqs in Hi. pose proof (in_wf Hin) as Hwf.
  destruct Hwf as (Hpos & Hq & _ & Ht & Hnd & Hok).
  destruct (lookup_lt_is_Some_2 (am_query_start_loc base) i ltac:(lia)) as [a Ha].
  destruct (lookup_lt_is_Some_2 (am_query_start_loc base) (S i) ltac:(lia)) as [b Hb].
  destruct (lookup_lt_is_Some_2 lens i ltac:(by rewrite length_fmap)) as [len Hlen].
  destruct (lookup_lt_is_Some_2 (am_block_tables base) i ltac:(lia)) as [row Hrow].
  pose proof (q_lens_lookup base i a b Ha Hb) as Hql. specialize (Hnd i a b Ha Hb).
  destruct (Hok i Hi _ _ _ Hlen Hql Hrow) as (Hle & _ & _).
  assert (Hsa : starts !! i = Some (N.to_nat a)) by (by rewrite list_lookup_fmap, Ha).
  assert (Hsb : starts !! S i = Some (N.to_nat a + (N.to_nat b - N.to_nat a))).
  { rewrite list_lookup_fmap, Hb. simpl. f_equal. lia. }
  exists (N.to_nat a), (N.to_nat b - N.to_nat a), len.
  assert (Hkvl : is_Some (sm_kv_indptr meta !! i)).
  { rewrite (smo_kv _ _ _ (in_meta Hin)). apply lookup_lt_is_Some_2.
    rewrite length_fmap, psums_length, (used_pages_lengths _ _ (in_wf Hin)), !length_fmap. lia. }
  assert (Hpb : ∃ page_base, sm_kv_indptr meta !! i = Some (Z.of_nat page_base) ∧ (Z.of_nat page_base <= i32_max)%Z).
  { destruct Hkvl as [x Hx]. rewrite (smo_kv _ _ _ (in_meta Hin)), list_lookup_fmap in Hx |- *.
    rewrite psums_lookup in Hx |- * by (rewrite (used_pages_lengths _ _ (in_wf Hin)), !length_fmap; lia).
    eexists. split; [done |]. pose proof (in_pages_fit Hin).
    pose proof (sum_list_take_le (length <$> used_pages base bs) i). simpl. lia. }
  destruct Hpb as (page_base & Epb & Hfit). exists page_base.
  pose proof (starts_total _ _ Hsb). split_and!; try done.
  { rewrite Epb. simpl. by rewrite i32_as_usize_nat. }
  intros p Hp.
  destruct (step_page_lookup base bs meta i len row p (in_wf Hin) (in_meta Hin) Hlen Hrow Hp)
    as (pb & block & Epb' & Eidx & Erow & Hnn).
  assert (pb = page_base) as -> by (rewrite Epb in Epb'; simplify_eq; lia).
  exists (i32_as_usize block, p mod bs). split.
  { unfold page_of. destruct (Nat.eqb_spec bs 0); [lia |]. by rewrite Eidx. }
  intros h d Hh Hd. destruct (in_cache Hin i len row Hlen Hrow p h d Hp Hh ltac:(rewrite <- (in_dim Hin); done))
    as (b' & Eb & Hb' & HK & HV).
  assert (b' = block) as -> by congruence. rewrite i32_as_usize_nonneg by done. done.
Qed.

Lemma token_cell token h d :
  h < nq → d < hd → token * nq * hd ≤ (token * nq + h) * hd + d < S token * nq * hd.
Proof. intros. split; [nia |]. assert (h * hd + d < nq * hd) by nia. lia. Qed.

Lemma token_done_local i start ql len j :
  local_to ((start + j) * nq * hd) (S (start + j) * nq * hd) (token_done i start ql len j).
Proof.
  intros o1 o2 Heq Hd h d Hh Hdd. rewrite <- Heq by (by apply token_cell). by apply Hd.
Qed.

Lemma attend_token_spec i start ql len page_base j out :
  start + ql ≤ total_tokens → ql ≤ len → j < ql →
  (∀ p, p < len → ∃ at_, page_of meta bs page_base p = Some at_
     ∧ ∀ h d, h < kv_num_kv_heads kv → d < hd →
         read_kv kv (kv_k kv) (kv_k_scale kv) at_ h d = Some (K i p h d)
         ∧ read_kv kv (kv_v kv) (kv_v_scale kv) at_ h d = Some (V i p h d)) →
  zeros ((start + j) * nq * hd) (S (start + j) * nq * hd) out →
  ∃ out', attend_token expf tanhf spec q kv meta start ql len page_base j out = Some out'
    ∧ effect ((start + j) * nq * hd) (S (start + j) * nq * hd) (token_done i start ql len j) out out'.
Proof using Hin.
  intros Htot Hql Hj Hpages Hz. unfold attend_token. rewrite sub_checked_Some by done. cbn [mbind option_bind].
  fold (window_start spec (len - ql + j)).
  assert (Hqin : ∀ h d, h < nq → d < hd → is_Some (q !! (((start + j) * nq + h) * hd + d))).
  { intros h d Hh Hd. apply lookup_lt_is_Some_2. rewrite (in_query Hin).
    pose proof (token_cell (start + j) h d Hh Hd). nia. }
  set (b := λ h, (start + j) * nq * hd + h * hd).
  destruct (loop_out_spec
    (attend_head expf tanhf spec q kv meta page_base (window_start spec (len - ql + j)) (len - ql + j) ((start + j) * nq * hd))
    b (λ h o, ∀ d, d < hd → o !! (((start + j) * nq + h) * hd + d)
         = Some (dense_out expf tanhf spec (query_row spec q (start + j) h) (K i) (V i) (len - ql + j) (h / gqa) d)) nq)
    with (out := out) as (out' & -> & [H1 H2 H3]).
  - intros h Hh. subst b. simpl. lia.
  - intros h Hh o1 o2 Heq Hd d Hdd. rewrite <- Heq; [by apply Hd |]. subst b. simpl. nia.
  - intros h o Hh Hzo. subst b. simpl in *.
    apply (attend_head_spec expf tanhf spec q kv meta (K i) (V i) page_base len Hpages (start + j) h); try done.
    + apply (in_gqa Hin).
    + apply (in_kv_heads Hin).
    + lia.
    + intros d Hd. by apply Hqin.
  - intros x Hx. apply Hz. subst b. simpl in Hx. lia.
  - exists out'. split; [done |]. split; [done | | ].
    + intros x Hx. apply H2. subst b. simpl. lia.
    + intros h d Hh Hd. by apply H3.
Qed.

(** What a sequence's rows hold in the end. *)
Definition seq_done (i : nat) (o : list f32) : Prop := ∀ start ql len j,
  starts !! i = Some start → q_lens base !! i = Some ql → lens !! i = Some len → j < ql →
  token_done i start ql len j o.

Lemma attend_seq_spec i start stop out :
  i < AttentionMetadata.num_seqs base → starts !! i = Some start → starts !! S i = Some stop →
  zeros (start * nq * hd) (stop * nq * hd) out →
  ∃ out', attend_seq expf tanhf spec q kv meta i out = Some out'
    ∧ effect (start * nq * hd) (stop * nq * hd) (seq_done i) out out'.
Proof using Hin.
  intros Hi Hs He Hz.
  destruct (batch_seq i Hi) as (s & ql & len & pb & Es & Ee & Eq & El & Hle & Htot & Epb & Hpages).
  assert (s = start) as -> by congruence. assert (stop = start + ql) as -> by congruence.
  unfold attend_seq. rewrite (qo_lookup i start Hs), (qo_lookup (S i) (start + ql) He). cbn [mbind option_bind].
  rewrite sub_checked_Some, (Nat.add_comm start ql), Nat.add_sub by lia. cbn [mbind option_bind].
  rewrite (smo_base _ _ _ (in_meta Hin)). rewrite list_lookup_fmap in El. rewrite El. cbn [mbind option_bind].
  rewrite <- list_lookup_fmap in El. rewrite Epb. cbn [mbind option_bind].
  destruct (loop_out_spec (attend_token expf tanhf spec q kv meta start ql len pb)
    (λ j, (start + j) * nq * hd) (token_done i start ql len) ql) with (out := out) as (out' & -> & [H1 H2 H3]).
  - intros j Hj. simpl. lia.
  - intros j Hj. simpl. rewrite Nat.add_succ_r. apply token_done_local.
  - intros j o Hj Hzo. simpl in *. rewrite Nat.add_succ_r in *. by apply attend_token_spec.
  - intros x Hx. apply Hz. simpl in Hx. rewrite Nat.add_0_r in Hx. lia.
  - exists out'. split; [done |]. split; [done | |].
    + intros x Hx. apply H2. simpl. rewrite Nat.add_0_r. lia.
    + intros start' ql' len' j Hs' Hq' Hl' Hj. simplify_eq. by apply H3.
Qed.

Lemma run_host_spec :
  ∃ out, run_host expf tanhf q kv meta spec = Some out ∧ length out = length q
    ∧ ∀ i, i < AttentionMetadata.num_seqs base → seq_done i out.
Proof using Hin.
  pose proof Hin as [H1 H2 H3 H4 H5 Hwf Hm Hfit _ Hq _]. pose proof Hwf as (Hpos & Hql & Hhead & _).
  unfold run_host. rewrite H1, H2, H3, H5, !Nat.eqb_refl, (proj2 (Nat.ltb_lt _ _) H4). cbn [andb negb Nat.eqb].
  set (n := AttentionMetadata.num_seqs base).
  assert (Hlast : i32_as_usize (default 0%Z (last (sm_qo_indptr meta))) = total_tokens).
  { rewrite last_lookup. destruct (lookup_lt_is_Some_2 starts n) as [a Ha].
    { rewrite length_fmap, Hql. unfold n, AttentionMetadata.num_seqs. lia. }
    assert (Hpl : pred (length (sm_qo_indptr meta)) = n).
    { rewrite (smo_qo _ _ _ Hm), length_fmap, Hql. done. }
    pose proof (qo_lookup n a Ha) as E. rewrite Hpl. destruct (sm_qo_indptr meta !! n) as [z|]; [| done].
    simpl in *. unfold total_tokens. rewrite last_lookup, length_fmap, Hql. simpl. fold n. unfold n in Ha.
    unfold AttentionMetadata.num_seqs in Ha. rewrite Ha. simpl. congruence. }
  rewrite Hlast, <- H3. rewrite <- Hq, Nat.eqb_refl. cbn [negb].
  rewrite (smo_base _ _ _ Hm). fold n.
  assert (H0 : starts !! 0 = Some 0).
  { rewrite list_lookup_fmap. destruct (am_query_start_loc base); [done |]. simpl in *. by simplify_eq/=. }
  destruct (Nat.eqb_spec total_tokens 0) as [Hz|Hnz].
  { eexists. split; [done |]. split; [by rewrite length_replicate |].
    intros i Hi start ql len j Hs Hqi Hl Hj.
    destruct (batch_seq i Hi) as (s & ql' & len' & pb & _ & _ & Eq & _ & _ & Htot & _). simplify_eq. lia. }
  set (b := λ i, default 0 (starts !! i) * nq * hd).
  assert (Hb : ∀ i, i < n → b i = default 0 (starts !! i) * nq * hd ∧ b i ≤ b (S i)).
  { intros i Hi. split; [done |]. destruct (batch_seq i Hi) as (s & ql & len & pb & Es & Ee & _).
    subst b. simpl. rewrite Es, Ee. simpl. nia. }
  destruct (loop_out_spec (attend_seq expf tanhf spec q kv meta) b seq_done n)
    with (out := replicate (length q) F32.zero) as (out & -> & [L1 L2 L3]).
  - intros i Hi. apply Hb, Hi.
  - intros i Hi o1 o2 Heq Hd start ql len j Hs Hqi Hl Hj h d Hh Hdd.
    rewrite <- Heq; [by apply (Hd start ql len j) |].
    destruct (batch_seq i Hi) as (s & ql' & len' & pb & Es & Ee & Eq & _).
    assert (s = start) as -> by congruence. assert (ql' = ql) as -> by congruence.
    subst b. simpl. rewrite Es, Ee. simpl. pose proof (token_cell (start + j) h d Hh Hdd). nia.
  - intros i o Hi Hzo. destruct (batch_seq i Hi) as (s & ql & len & pb & Es & Ee & _).
    subst b. simpl in *. rewrite Es, Ee in *. simpl in *. by apply attend_seq_spec.
  - intros x Hx. apply lookup_replicate_2. rewrite Hq. subst b. simpl in Hx.
    destruct (lookup_lt_is_Some_2 starts n) as [a Ha].
    { rewrite length_fmap, Hql. unfold n, AttentionMetadata.num_seqs. lia. }
    rewrite Ha in Hx. simpl in Hx. pose proof (starts_total n a Ha). nia.
  - exists out. split; [done |]. split; [by rewrite L1, length_replicate |]. done.
Qed.

(** Every query token belongs to a sequence. *)
Lemma token_seq t : t < total_tokens →
  ∃ i start ql j, i < AttentionMetadata.num_seqs base ∧ starts !! i = Some start ∧ q_lens base !! i = Some ql
    ∧ j < ql ∧ t = start + j.
Proof using Hin.
  intros Ht. pose proof (in_wf Hin) as (_ & Hql & Hhead & _).
  set (n := AttentionMetadata.num_seqs base).
  assert (Hgen : ∀ k stop, k ≤ n → starts !! k = Some stop → t < stop →
    ∃ i start ql j, i < n ∧ starts !! i = Some start ∧ q_lens base !! i = Some ql ∧ j < ql ∧ t = start + j).
  { induction k as [|k IH]; intros stop Hk Hs Hlt.
    - rewrite list_lookup_fmap in Hs. destruct (am_query_start_loc base); [done |]. simpl in *. simplify_eq/=. lia.
    - destruct (batch_seq k ltac:(unfold n in Hk; lia)) as (s & ql & len & pb & Es & Ee & Eq & _). simplify_eq.
      destruct (decide (t < s)); [by apply (IH s); [lia | |] |].
      exists k, s, ql, (t - s). split_and!; [lia | done | done | lia | lia]. }
  destruct (lookup_lt_is_Some_2 starts n) as [a Ha].
  { rewrite length_fmap, Hql. unfold n, AttentionMetadata.num_seqs. lia. }
  apply (Hgen n a); [done | done |]. revert Ht. unfold total_tokens. rewrite last_lookup, length_fmap, Hql.
  simpl. unfold n, AttentionMetadata.num_seqs in Ha. rewrite Ha. done.
Qed.
End batch.

(** C5. Paged attention equals dense attention.  On every batch whose geometry,
    metadata and cache belong together, [run_host] does not panic, and the
    output row of every query token and head is, bit for bit, causal attention
    over the keys and values that the sequence's pages hold: over all earlier
    positions or the last [sliding_window] ones, with the token at its absolute
    position, so chunks of a prefill and single decode tokens mix freely. *)
Theorem run_host_dense expf tanhf spec q kv base meta K V
    (Hin : attention_input spec q kv base meta K V) :
  ∃ out, run_host expf tanhf q kv meta spec = Some out ∧ length out = length q
    ∧ ∀ i start ql len j h d,
        (N.to_nat <$> am_query_start_loc base) !! i = Some start → q_lens base !! i = Some ql →
        (N.to_nat <$> am_seq_lens base) !! i = Some len → j < ql →
        h < as_num_q_heads spec → d < as_head_dim spec →
        out !! (((start + j) * as_num_q_heads spec + h) * as_head_dim spec + d)
        = Some (dense_out expf tanhf spec (query_row spec q (start + j) h) (K i) (V i) (len - ql + j)
                  (h / (as_num_q_heads spec / kv_num_kv_heads kv)) d).
Proof.
  destruct (run_host_spec expf tanhf spec q kv base meta K V Hin) as (out & E & Hl & Hdone).
  exists out. split_and!; [done | done |]. intros i start ql len j h d Hs Hq Hlen Hj Hh Hd.
  apply (Hdone i); try done. apply lookup_lt_Some in Hlen. by rewrite length_fmap in Hlen.
Qed.

(** Where the keys and values lie does not matter: two caches in any two
    layouts, with any block tables and any physical blocks, give the same output
    for the same query as soon as they hold the same history of every sequence. *)
Theorem attention_layout_independent expf tanhf spec q kv1 kv2 base1 base2 meta1 meta2 K V
    (Hin1 : attention_input spec q kv1 base1 meta1 K V) (Hin2 : attention_input spec q kv2 base2 meta2 K V)
    (Hlens : am_seq_lens base1 = am_seq_lens base2) (Hstarts : am_query_start_loc base1 = am_query_start_loc base2) :
  run_host expf tanhf q kv1 meta1 spec = run_host expf tanhf q kv2 meta2 spec.
Proof.
  destruct (run_host_spec expf tanhf spec q kv1 base1 meta1 K V Hin1) as (o1 & -> & L1 & D1).
  destruct (run_host_spec expf tanhf spec q kv2 base2 meta2 K V Hin2) as (o2 & -> & L2 & D2).
  f_equal. apply list_eq_same_length with (n := length q); [done | congruence |].
  intros idx x y Hidx Hx Hy. rewrite (in_query _ _ _ _ _ _ _ Hin1) in Hidx.
  destruct (radix_split idx (total_tokens base1 * as_num_q_heads spec) (as_head_dim spec) Hidx) as (th & d & Hth & Hd & ->).
  destruct (radix_split th _ _ Hth) as (t & h & Ht & Hh & ->).
  destruct (token_seq spec q kv1 base1 meta1 K V Hin1 t Ht) as (i & start & ql & j & Hi & Hs & Hq & Hj & ->).
  destruct (lookup_lt_is_Some_2 (N.to_nat <$> am_seq_lens base1) i) as [len Hlen].
  { rewrite length_fmap. exact Hi. }
  rewrite (D1 i Hi start ql len j Hs Hq Hlen Hj h d Hh Hd) in Hx.
  unfold q_lens, AttentionMetadata.num_seqs in *. rewrite Hstarts in Hs, Hq. rewrite Hlens in Hlen, Hi.
  rewrite (D2 i Hi start ql len j Hs Hq Hlen Hj h d Hh Hd) in Hy.
  pose proof (in_heads _ _ _ _ _ _ _ Hin1) as E1. rewrite (in_heads _ _ _ _ _ _ _ Hin2) in E1. rewrite E1 in Hy. congruence.
Qed.

(** ** The written cache *)
Section written.
Context (layout : KvLayout) (block_size num_kv_heads head_dim num_blocks : nat) (k v : list f32).
#[local] Notation volume := (num_blocks * block_size * num_kv_heads * head_dim).
#[local] Notation off := (λ b s h d, KvLayout.offset layout b s h d block_size num_kv_heads head_dim).
#[local] Notation src := (λ token h d, token * (num_kv_heads * head_dim) + h * head_dim + d).

Definition sized (c : list f32 * list f32) : Prop := length c.1 = volume ∧ length c.2 = volume.

(** Cell [(b, s, h, d)] of both caches. *)
Definition cell (c : list f32 * list f32) (b s h d : nat) : option f32 * option f32 := (c.1 !! off b s h d, c.2 !! off b s h d).

(** [c'] is [c] with the elements of [token] written to the cells of [(b, s)]
    that [S] selects. *)
Record row_written (token b s : nat) (S : nat → nat → Prop) (c c' : list f32 * list f32) : Prop := {
  rw_sized : sized c';
  rw_new : ∀ h d, h < num_kv_heads → d < head_dim → S h d → cell c' b s h d = (k !! src token h d, v !! src token h d);
  rw_old : ∀ b' s' h d, s' < block_size → h < num_kv_heads → d < head_dim →
    ¬ (b' = b ∧ s' = s ∧ S h d) → cell c' b' s' h d = cell c b' s' h d;
}.

Lemma row_written_trans token b s (S1 S2 : nat → nat → Prop) c1 c2 c3 :
  (∀ h d, Decision (S2 h d)) → s < block_size →
  row_written token b s S1 c1 c2 → row_written token b s S2 c2 c3 →
  row_written token b s (λ h d, S1 h d ∨ S2 h d) c1 c3.
Proof.
  intros HS Hs [A1 A2 A3] [B1 B2 B3]. split; [done | |].
  - intros h d Hh Hd HSS. destruct (HS h d) as [|Hn]; [by apply B2 |].
    rewrite B3 by (done || tauto). apply A2; [done.. |]. by destruct HSS.
  - intros b' s' h d Hs' Hh Hd Hn. rewrite B3, A3 by (done || tauto). done.
Qed.

Lemma row_written_weaken token b s (S1 S2 : nat → nat → Prop) c c' :
  (∀ h d, h < num_kv_heads → d < head_dim → (S1 h d ↔ S2 h d)) →
  row_written token b s S1 c c' → row_written token b s S2 c c'.
Proof.
  intros HS [A1 A2 A3]. split; [done | |].
  - intros h d Hh Hd H. apply A2; [done.. |]. by apply HS.
  - intros b' s' h d Hs' Hh Hd H. apply A3; [done.. |]. intros (? & ? & ?). apply H. split_and!; [done.. |]. by apply HS.
Qed.

Lemma row_written_nothing token b s c : sized c → row_written token b s (λ _ _, False) c c.
Proof. by split. Qed.

Lemma write_elem_spec token b s h d c :
  b < num_blocks → s < block_size → h < num_kv_heads → d < head_dim → sized c →
  (token + 1) * (num_kv_heads * head_dim) ≤ length k → length v = length k →
  ∃ c', write_elem layout block_size num_kv_heads head_dim k v token b s h d c = Some c'
    ∧ row_written token b s (λ h' d', h' = h ∧ d' = d) c c'.
Proof.
  intros Hb Hs Hh Hd [L1 L2] Hk Hv. unfold write_elem.
  pose proof (offset_lt layout num_blocks block_size num_kv_heads head_dim b s h d ltac:(by split_and!)) as Hoff.
  destruct (Nat.leb_spec (length c.1) (off b s h d)); [lia |].
  destruct (Nat.leb_spec (length c.2) (off b s h d)); [lia |]. cbn [orb].
  assert (Hsrc : src token h d < length k).
  { assert (h * head_dim + d < num_kv_heads * head_dim) by nia. lia. }
  destruct (lookup_lt_is_Some_2 k _ Hsrc) as [x Hx]. destruct (lookup_lt_is_Some_2 v (src token h d) ltac:(lia)) as [y Hy].
  rewrite Hx, Hy. cbn [mbind option_bind]. eexists. split; [done |]. split; unfold cell; cbn [fst snd].
  - split; cbn [fst snd]; by rewrite length_insert.
  - intros h' d' _ _ [-> ->]. rewrite !list_lookup_insert_eq by lia. by rewrite Hx, Hy.
  - intros b' s' h' d' Hs' Hh' Hd' Hn. rewrite !list_lookup_insert_ne; [done | |];
      (intros E; apply Hn; symmetry in E;
       destruct (offset_inj layout block_size num_kv_heads head_dim b' s' h' d' b s h d) as (-> & -> & -> & ->); done).
Qed.

Lemma loop_cache_spec (T : nat → nat → nat → Prop) token b s body n :
  (∀ i h d, Decision (T i h d)) → s < block_size →
  (∀ i c, i < n → sized c → ∃ c', body i c = Some c' ∧ row_written token b s (T i) c c') →
  ∀ m i c, i + m = n → sized c →
  ∃ c', loop_cache body (seq i m) c = Some c' ∧ row_written token b s (λ h d, ∃ x, i ≤ x < n ∧ T x h d) c c'.
Proof.
  intros HT Hs Hbody. induction m as [|m IH]; intros i c Him Hc; simpl.
  - exists c. split; [done |]. eapply row_written_weaken; [| by apply row_written_nothing].
    intros h d _ _. split; [done | intros (x & Hx & _); lia].
  - destruct (Hbody i c ltac:(lia) Hc) as (c1 & -> & H1). cbn [mbind option_bind].
    destruct (IH (S i) c1 ltac:(lia) (rw_sized _ _ _ _ _ _ H1)) as (c2 & -> & H2).
    exists c2. split; [done |].
    assert (HD : ∀ h d, Decision (∃ x, S i ≤ x < n ∧ T x h d)).
    { intros h d. destruct (decide (Exists (λ x, T x h d) (seq (S i) (n - S i)))) as [He|He].
      - left. rewrite Exists_exists in He. destruct He as (x & Hx%elem_of_seq & ?). exists x. split; [lia | done].
      - right. intros (x & Hx & ?). apply He, Exists_exists. exists x. split; [apply elem_of_seq; lia | done]. }
    eapply row_written_weaken; [| by apply (row_written_trans _ _ _ _ _ _ _ _ HD Hs H1 H2)].
    intros h d _ _. split.
    + intros [?|(x & ? & ?)]; [exists i; split; [lia | done] | exists x; split; [lia | done]].
    + intros (x & Hx & ?). destruct (decide (x = i)) as [->|]; [by left | right; exists x; split; [lia | done]].
Qed.

Lemma write_row_spec token b s c :
  b < num_blocks → s < block_size → sized c →
  (token + 1) * (num_kv_heads * head_dim) ≤ length k → length v = length k →
  ∃ c', loop_cache (λ head, loop_cache (write_elem layout block_size num_kv_heads head_dim k v token b s head)
            (seq 0 head_dim)) (seq 0 num_kv_heads) c = Some c'
    ∧ row_written token b s (λ _ _, True) c c'.
Proof.
  intros Hb Hs Hc Hk Hv.
  destruct (loop_cache_spec (λ i h d, h = i) token b s
    (λ head, loop_cache (write_elem layout block_size num_kv_heads head_dim k v token b s head) (seq 0 head_dim))
    num_kv_heads ltac:(intros; simpl; apply _) Hs) with (m := num_kv_heads) (i := 0) (c := c) as (c' & E & H); [| done | done |].
  - intros head c1 Hhead Hc1.
    destruct (loop_cache_spec (λ i h d, h = head ∧ d = i) token b s
      (write_elem layout block_size num_kv_heads head_dim k v token b s head) head_dim ltac:(intros; simpl; apply _) Hs)
      with (m := head_dim) (i := 0) (c := c1) as (c2 & E & H); [| done | done |].
    + intros d c2 Hd Hc2. by apply write_elem_spec.
    + exists c2. split; [exact E |]. eapply row_written_weaken; [| exact H].
      intros h d Hh Hd. simpl. split; [by intros (x & _ & -> & _) | intros ->; exists d; split; [lia | done]].
  - exists c'. split; [exact E |]. eapply row_written_weaken; [| exact H].
    intros h d Hh Hd. simpl. split; [done | intros _; exists h; split; [lia | done]].
Qed.

(** A destination block outside the cache is skipped. *)
Lemma write_elem_outside token b s h d c :
  num_blocks ≤ b → sized c → write_elem layout block_size num_kv_heads head_dim k v token b s h d c = Some c.
Proof.
  intros Hb [L1 L2]. unfold write_elem.
  assert (length c.1 ≤ off b s h d).
  { rewrite L1. pose proof (Nat.mul_le_mono_r _ _ (block_size * num_kv_heads * head_dim) Hb). destruct layout; simpl; nia. }
  rewrite (proj2 (Nat.leb_le _ _)) by done. done.
Qed.

Lemma loop_cache_id body ks c : (∀ i, body i c = Some c) → loop_cache body ks c = Some c.
Proof. intros Hb. induction ks as [|i ks IH]; simpl; [done |]. by rewrite Hb. Qed.

(** The last token written to slot [target]. *)
Fixpoint last_writer (token : nat) (slots : list Z) (target : nat) : option nat :=
  match slots with
  | [] => None
  | slot :: slots =>
      match last_writer (S token) slots target with
      | Some t => Some t
      | None => if decide (slot = Z.of_nat target) then Some token else None
      end
  end.

Lemma slot_cell slot b s : s < block_size → (b * block_size + s = slot ↔ b = slot / block_size ∧ s = slot mod block_size).
Proof.
  intros Hs. split.
  - intros <-. rewrite Nat.div_add_l, Nat.div_small, Nat.add_0_r by lia. split; [done |].
    by rewrite Nat.add_comm, Nat.Div0.mod_add, Nat.mod_small.
  - intros [-> ->]. pose proof (Nat.div_mod_eq slot block_size). lia.
Qed.

Context (Hbs : 0 < block_size).

Lemma write_token_spec token slot c :
  sized c → (token + 1) * (num_kv_heads * head_dim) ≤ length k → length v = length k →
  ∃ c', write_token layout block_size num_kv_heads head_dim k v token slot c = Some c' ∧ sized c'
    ∧ ∀ b s h d, in_range num_blocks block_size num_kv_heads head_dim b s h d →
        cell c' b s h d = if decide (slot = Z.of_nat (b * block_size + s))
                          then (k !! src token h d, v !! src token h d) else cell c b s h d.
Proof using Hbs.
  intros Hc Hk Hv. unfold write_token. destruct (Z.ltb_spec slot 0) as [Hneg|Hpos].
  { exists c. split_and!; [done | done |]. intros. by rewrite decide_False by lia. }
  set (n := Z.to_nat slot). assert (Hslot : slot = Z.of_nat n) by lia. rewrite Hslot. clearbody n.
  pose proof (Nat.mod_upper_bound n block_size ltac:(lia)) as Hmod.
  destruct (decide (n / block_size < num_blocks)) as [Hb|Hb].
  - destruct (write_row_spec token (n / block_size) (n mod block_size) c Hb Hmod Hc Hk Hv) as (c' & E & [R1 R2 R3]).
    exists c'. split_and!; [exact E | done |]. intros b s h d (Hbb & Hs & Hh & Hd).
    pose proof (slot_cell n b s Hs) as Hsc. case_decide as Hd'.
    + assert (b * block_size + s = n) as Hn by lia. apply Hsc in Hn as [-> ->]. by apply R2.
    + apply R3; [done.. |]. intros (-> & -> & _). apply Hd'. f_equal. symmetry. by apply Hsc.
  - exists c. split_and!; [| done |].
    + apply loop_cache_id. intros head. apply loop_cache_id. intros d. apply write_elem_outside; [lia | done].
    + intros b s h d (Hbb & Hs & Hh & Hd). rewrite decide_False; [done |]. intros E.
      assert (b * block_size + s = n) as Hn by lia. apply slot_cell in Hn as [-> _]; [lia | done].
Qed.

Lemma write_tokens_spec slots : ∀ token c,
  sized c → (token + length slots) * (num_kv_heads * head_dim) ≤ length k → length v = length k →
  ∃ c', write_tokens layout block_size num_kv_heads head_dim k v token slots c = Some c' ∧ sized c'
    ∧ ∀ b s h d, in_range num_blocks block_size num_kv_heads head_dim b s h d →
        cell c' b s h d = match last_writer token slots (b * block_size + s) with
                          | Some t => (k !! src t h d, v !! src t h d)
                          | None => cell c b s h d
                          end.
Proof using Hbs.
  induction slots as [|slot slots IH]; intros token c Hc Hk Hv; simpl in *.
  { by exists c. }
  destruct (write_token_spec token slot c Hc ltac:(nia) Hv) as (c1 & -> & Hc1 & Hcell1). cbn [mbind option_bind].
  destruct (IH (S token) c1 Hc1 ltac:(lia) Hv) as (c2 & -> & Hc2 & Hcell2).
  exists c2. split_and!; [done | done |]. intros b s h d Hr. rewrite Hcell2 by done.
  destruct (last_writer (S token) slots _) as [t|]; [done |]. rewrite Hcell1 by done. by case_decide.
Qed.
End written.

(** Writing the cache.  For a cache of [num_blocks] blocks and one row of keys
    and values per slot, [write_kv_host] does not panic, and afterwards every
    cell of every block holds the element of the last token that was mapped to
    its slot, or its old content when no token was; negative slots and slots
    beyond the cache change nothing.  This holds in all three layouts. *)
Theorem write_kv_host_exact layout block_size num_kv_heads head_dim num_blocks k v k_cache v_cache slots
    (Hbs : 0 < block_size) (Hk : length k = length slots * (num_kv_heads * head_dim)) (Hv : length v = length k)
    (Hkc : length k_cache = num_blocks * block_size * num_kv_heads * head_dim) (Hvc : length v_cache = length k_cache) :
  ∃ c', write_kv_host layout block_size num_kv_heads head_dim k v k_cache v_cache slots = Some c'
    ∧ sized block_size num_kv_heads head_dim num_blocks c'
    ∧ ∀ b s h d, in_range num_blocks block_size num_kv_heads head_dim b s h d →
        cell layout block_size num_kv_heads head_dim c' b s h d
        = match last_writer 0 slots (b * block_size + s) with
          | Some t => (k !! (t * (num_kv_heads * head_dim) + h * head_dim + d),
                       v !! (t * (num_kv_heads * head_dim) + h * head_dim + d))
          | None => cell layout block_size num_kv_heads head_dim (k_cache, v_cache) b s h d
          end.
Proof.
  unfold write_kv_host. destruct (Nat.eqb_spec block_size 0); [lia |].
  rewrite Hv, Hk, Nat.eqb_refl. cbn [negb].
  apply write_tokens_spec; [done | split; simpl; congruence | lia | done].
Qed.

(** ** Examples *)
Definition demo_attn_spec : AttnSpec := mkAttnSpec 1 1 2 2 DT_F32 DT_F32 None F32.one None None.
Definition demo_history : nat → nat → nat → nat → f64 :=
  λ _ p _ d, F64.mul (F64.of_f32 (F32.of_Z (Z.of_nat (2 * p + d + 1)))) (F64.of_f32 F32.one).

(** Three positions: in the layout [Hnd] over blocks 1 and 0, and in the layout
    [Legacy] over blocks 0 and 1. *)
Definition demo_kv_hnd : HostKvLayer :=
  let c := F32.of_Z <$> [5; 6; 0; 0; 1; 2; 3; 4]%Z in mkHostKvLayer c c Hnd 2 2 1 2 F32.one F32.one.
Definition demo_kv_legacy : HostKvLayer :=
  let c := F32.of_Z <$> [1; 3; 2; 4; 5; 0; 6; 0]%Z in mkHostKvLayer c c Legacy 2 2 1 2 F32.one F32.one.
Definition demo_base (table : list Z) : AttentionMetadata :=
  mkAttentionMetadata [3%N] [0; 1]%N [table] [] 0 1 2 0 None.
Definition demo_step (table : list Z) : StepMetadata :=
  mkStepMetadata (demo_base table) [0; 1]%Z [0; 2]%Z table [1%Z] 1 3 true.
Definition demo_query : list f32 := F32.of_Z <$> [1; 1]%Z.
Definition demo_fn (x : f64) : f64 := if F64.eqb x F64.zero then F64.of_N 1 else F64.zero.

Lemma demo_base_wf b1 b2 : (0 <= b1)%Z → (0 <= b2)%Z → well_formed (demo_base [b1; b2]) 2.
Proof.
  intros H1 H2. split_and!; try done; [lia | |].
  - intros [|[|]] a b Ha Hb; simplify_eq/=. lia.
  - intros [|i] Hi; [| simpl in Hi; lia]. intros len q row Hl Hq Hr.
    cbn in Hl, Hq, Hr. injection Hl as <-. injection Hq as <-. injection Hr as <-.
    split_and!; [vm_compute; lia | vm_compute; lia | by repeat constructor].
Qed.

Lemma demo_step_of b1 b2 : step_metadata_of (demo_base [b1; b2]) 2 (demo_step [b1; b2]).
Proof. split; try reflexivity. split; [intros _; by repeat constructor | done]. Qed.

Lemma demo_input_ok kv b1 b2 :
  (0 <= b1)%Z → (0 <= b2)%Z → kv_block_size kv = 2 → kv_num_kv_heads kv = 1 → kv_head_dim kv = 2 →
  cache_holds kv [b1; b2] 3 (demo_history 0) (demo_history 0) →
  attention_input demo_attn_spec demo_query kv (demo_base [b1; b2]) (demo_step [b1; b2]) demo_history demo_history.
Proof.
  intros H1 H2 Hb Hh Hd Hc. split; rewrite ?Hb, ?Hh, ?Hd.
  1-3: reflexivity.
  - lia.
  - reflexivity.
  - by apply demo_base_wf.
  - apply demo_step_of.
  - vm_compute. congruence.
  - vm_compute. congruence.
  - reflexivity.
  - intros [|i] len row Hl Hr; [| done]. cbn in Hl, Hr. injection Hl as <-. injection Hr as <-. exact Hc.
Qed.

Lemma demo_holds_hnd : cache_holds demo_kv_hnd [1; 0]%Z 3 (demo_history 0) (demo_history 0).
Proof.
  intros p h d Hp Hh Hd. change (h < 1) in Hh. change (d < 2) in Hd. assert (h = 0) as -> by lia.
  destruct p as [|[|[|p]]]; [.. | lia]; (destruct d as [|[|d]]; [.. | lia]);
    eexists; (split; [reflexivity | split; [unfold i32_max; lia | split; vm_compute; reflexivity]]).
Qed.

Lemma demo_holds_legacy : cache_holds demo_kv_legacy [0; 1]%Z 3 (demo_history 0) (demo_history 0).
Proof.
  intros p h d Hp Hh Hd. change (h < 1) in Hh. change (d < 2) in Hd. assert (h = 0) as -> by lia.
  destruct p as [|[|[|p]]]; [.. | lia]; (destruct d as [|[|d]]; [.. | lia]);
    eexists; (split; [reflexivity | split; [unfold i32_max; lia | split; vm_compute; reflexivity]]).
Qed.

Lemma run_host_dense_witness :
  ∃ out, run_host demo_fn demo_fn demo_query demo_kv_hnd (demo_step [1; 0]%Z) demo_attn_spec = Some out
    ∧ out !! 0 = Some (F32.of_Z 5) ∧ out !! 1 = Some (F32.of_Z 6).
Proof.
  destruct (run_host_dense demo_fn demo_fn demo_attn_spec demo_query demo_kv_hnd (demo_base [1; 0]%Z) (demo_step [1; 0]%Z)
    demo_history demo_history) as (out & E & _ & Hout).
  { apply demo_input_ok; [lia | lia | done | done | done | exact demo_holds_hnd]. }
  exists out. split; [exact E |].
  assert (H0 := Hout 0 0 1 3 0 0 0 eq_refl eq_refl eq_refl ltac:(lia) ltac:(simpl; lia) ltac:(simpl; lia)).
  assert (H1 := Hout 0 0 1 3 0 0 1 eq_refl eq_refl eq_refl ltac:(lia) ltac:(simpl; lia) ltac:(simpl; lia)).
  split; [transitivity (Some (F32.of_Z 5)) | transitivity (Some (F32.of_Z 6))]; try reflexivity;
    [refine (eq_trans H0 _) | refine (eq_trans H1 _)]; vm_compute; reflexivity.
Defined.

Lemma attention_layout_independent_witness :
  run_host demo_fn demo_fn demo_query demo_kv_hnd (demo_step [1; 0]%Z) demo_attn_spec
  = run_host demo_fn demo_fn demo_query demo_kv_legacy (demo_step [0; 1]%Z) demo_attn_spec.
Proof.
  apply (attention_layout_independent demo_fn demo_fn demo_attn_spec demo_query demo_kv_hnd demo_kv_legacy
    (demo_base [1; 0]%Z) (demo_base [0; 1]%Z) (demo_step [1; 0]%Z) (demo_step [0; 1]%Z) demo_history demo_history);
    [| | reflexivity | reflexivity].
  - apply demo_input_ok; [lia | lia | done | done | done | exact demo_holds_hnd].
  - apply demo_input_ok; [lia | lia | done | done | done | exact demo_holds_legacy].
Defined.

(** Two tokens written to the slots 3 and 0 of a cache of two blocks. *)
Lemma write_kv_host_exact_witness :
  ∃ c', write_kv_host Legacy 2 1 2 (F32.of_Z <$> [1; 2; 3; 4]%Z) (F32.of_Z <$> [1; 2; 3; 4]%Z)
      (replicate 8 F32.zero) (replicate 8 F32.zero) [3; 0]%Z = Some c'
    ∧ cell Legacy 2 1 2 c' 1 1 0 1 = (Some (F32.of_Z 2), Some (F32.of_Z 2))
    ∧ cell Legacy 2 1 2 c' 1 0 0 1 = (Some F32.zero, Some F32.zero).
Proof.
  destruct (write_kv_host_exact Legacy 2 1 2 2 (F32.of_Z <$> [1; 2; 3; 4]%Z) (F32.of_Z <$> [1; 2; 3; 4]%Z)
    (replicate 8 F32.zero) (replicate 8 F32.zero) [3; 0]%Z) as (c' & E & _ & Hc); [lia | reflexivity .. |].
  exists c'. split; [exact E |]. split.
  - rewrite (Hc 1 1 0 1) by (unfold in_range; lia). reflexivity.
  - rewrite (Hc 1 0 0 1) by (unfold in_range; lia). reflexivity.
Defined.
