(* ===== verification/ModelRunner.v ===== *)
(** * The model runner (rllm-worker/src/{model_runner,batch}.rs)

    Per-request token state across steps, the flat input batch built from a
    scheduler output, the slots its tokens are cached in, and the attention
    metadata of the batch.  [HashMap]s are finite maps; a [usize] is a [nat], a
    [u32] an [N], an [i64] a [Z]; [None] is a panic.  [KV] is the per-layer
    key-value tensor of the model backend. *)
From S2P Require Import Prelude F32 CoreTypes Request FreeQueue KVSpec Scheduler Executor Sampler KvLayout AttentionMeta.
#[local] Open Scope string_scope.
#[local] Open Scope list_scope.
#[local] Open Scope nat_scope.
#[local] Open Scope rllm_scope.

Record InputBatch : Type := mkInputBatch {
  ib_request_ids : list RequestId;
  ib_token_ids : list TokenId;
  ib_positions : list N;
  ib_seq_lens : list N;
  ib_block_tables : list (list N);
  ib_slot_mappings : list Z;
  ib_num_prefill_tokens : nat;
  ib_num_decode_tokens : nat;
  ib_num_seqs : nat;
  ib_max_num_blocks_per_seq : nat;
  ib_tokens_per_seq : list nat;
  ib_is_prefill : list bool;
}.

Definition batch_empty : InputBatch := mkInputBatch [] [] [] [] [] [] 0 0 0 0 [] [].

(** [u32::try_from(n).context(msg)?] *)
Definition u32_try_from (msg : string) (n : nat) : result N Error :=
  if (N.of_nat n <=? u32_max)%N then Ok (N.of_nat n) else Err (EMsg msg).

(** A map into a result, left to right, stopping at the first error. *)
Fixpoint collect {A B E} (f : A → result B E) (l : list A) : result (list B) E :=
  match l with
  | [] => Ok []
  | a :: l => b <-? f a; bs <-? collect f l; Ok (b :: bs)
  end.

(** The slot of one position; [-1] outside the block table or past an [i64]. *)
Definition slot_of (block_size : N) (block_table : list N) (pos : N) : Z :=
  let block_idx := (pos / block_size)%N in
  let offset := (pos mod block_size)%N in
  match block_table !! N.to_nat block_idx with
  | Some bt =>
      if (Z.of_N (bt * block_size) <=? i64_max)%Z && (Z.of_N (bt * block_size + offset) <=? i64_max)%Z
      then Z.of_N (bt * block_size + offset) else (-1)%Z
  | None => (-1)%Z
  end.

Definition compute_slot_mappings (positions : list N) (block_table : list N) (block_size : nat) : option (list Z) :=
  if (N.of_nat block_size <=? u32_max)%N then
    match positions with
    | [] => Some []
    | _ => if block_size =? 0 then None else Some (slot_of (N.of_nat block_size) block_table <$> positions)
    end
  else Some (replicate (length positions) (-1)%Z).

Section runner.
Context {Value R KV : Type}.

Record RunnerRequestState : Type := mkRunnerState {
  rs_prompt_token_ids : list TokenId;
  rs_generated_token_ids : list TokenId;
  rs_num_computed_tokens : nat;
  rs_kv_cache : list (option KV);
}.

Definition runner_state_new (prompt : list TokenId) (num_layers : nat) : RunnerRequestState :=
  mkRunnerState prompt [] 0 (replicate num_layers None).

Record ModelRunner : Type := mkModelRunner {
  mr_model_config : ModelConfig;
  mr_block_size : nat;
  mr_request_states : gmap RequestId RunnerRequestState;
  mr_output_buffer : nat;
  mr_cached_sampled_ids : list TokenId;
  mr_sampler : Sampler (R := R);
  mr_cached_logits : gmap RequestId (list f32);
  mr_sampling_params : gmap RequestId (SamplingParams Value);
  mr_eos_token_id : TokenId;
  mr_speculative_drafts : gmap RequestId (list TokenId);
}.

Definition runner_new (c : ModelConfig) (block_size : nat) : ModelRunner :=
  mkModelRunner c block_size ∅ (4096 * 4) [] sampler_new ∅ ∅ 0%N ∅.

Definition with_states (m : gmap RequestId RunnerRequestState) (r : ModelRunner) : ModelRunner :=
  mkModelRunner (mr_model_config r) (mr_block_size r) m (mr_output_buffer r) (mr_cached_sampled_ids r)
    (mr_sampler r) (mr_cached_logits r) (mr_sampling_params r) (mr_eos_token_id r) (mr_speculative_drafts r).
Definition with_drafts (m : gmap RequestId (list TokenId)) (r : ModelRunner) : ModelRunner :=
  mkModelRunner (mr_model_config r) (mr_block_size r) (mr_request_states r) (mr_output_buffer r)
    (mr_cached_sampled_ids r) (mr_sampler r) (mr_cached_logits r) (mr_sampling_params r) (mr_eos_token_id r) m.
Definition with_params (m : gmap RequestId (SamplingParams Value)) (r : ModelRunner) : ModelRunner :=
  mkModelRunner (mr_model_config r) (mr_block_size r) (mr_request_states r) (mr_output_buffer r)
    (mr_cached_sampled_ids r) (mr_sampler r) (mr_cached_logits r) m (mr_eos_token_id r) (mr_speculative_drafts r).
Definition with_logits (m : gmap RequestId (list f32)) (r : ModelRunner) : ModelRunner :=
  mkModelRunner (mr_model_config r) (mr_block_size r) (mr_request_states r) (mr_output_buffer r)
    (mr_cached_sampled_ids r) (mr_sampler r) m (mr_sampling_params r) (mr_eos_token_id r) (mr_speculative_drafts r).

(** The prompt is stored without any check that the identifier is new. *)
Definition runner_add_request (r : ModelRunner) (id : RequestId) (prompt : list TokenId) : ModelRunner :=
  with_states (<[id := runner_state_new prompt (mc_num_layers (mr_model_config r))]> (mr_request_states r)) r.

Definition set_speculative_drafts (r : ModelRunner) (id : RequestId) (drafts : list TokenId) : ModelRunner :=
  with_drafts (<[id := drafts]> (mr_speculative_drafts r)) r.

Definition take_speculative_drafts (r : ModelRunner) (id : RequestId) : option (list TokenId) * ModelRunner :=
  (mr_speculative_drafts r !! id, with_drafts (delete id (mr_speculative_drafts r)) r).

Definition has_speculative_drafts (r : ModelRunner) (id : RequestId) : bool :=
  bool_decide (is_Some (mr_speculative_drafts r !! id)).

Definition remove_request (r : ModelRunner) (id : RequestId) : ModelRunner :=
  with_drafts (delete id (mr_speculative_drafts r))
    (with_params (delete id (mr_sampling_params r))
      (with_logits (delete id (mr_cached_logits r))
        (with_states (delete id (mr_request_states r)) r))).

(** [format!("request {:?} not found", id)]; how an identifier prints is left to
    [show]. *)
Context (show : RequestId → string).

Definition store_generated_token (r : ModelRunner) (id : RequestId) (t : TokenId) : result unit Error * ModelRunner :=
  match mr_request_states r !! id with
  | None => (Err (EMsg ("request " +:+ show id +:+ " not found")), r)
  | Some s =>
      (Ok (), with_states (<[id := mkRunnerState (rs_prompt_token_ids s) (rs_generated_token_ids s ++ [t])
                                (rs_num_computed_tokens s) (rs_kv_cache s)]> (mr_request_states r)) r)
  end.

Definition advance_computed (r : ModelRunner) (id : RequestId) (n : nat) : result unit Error * ModelRunner :=
  match mr_request_states r !! id with
  | None => (Err (EMsg ("request " +:+ show id +:+ " not found")), r)
  | Some s =>
      (Ok (), with_states (<[id := mkRunnerState (rs_prompt_token_ids s) (rs_generated_token_ids s)
                                (rs_num_computed_tokens s + n) (rs_kv_cache s)]> (mr_request_states r)) r)
  end.

Definition num_computed (r : ModelRunner) (id : RequestId) : nat :=
  from_option rs_num_computed_tokens 0 (mr_request_states r !! id).

Definition has_request (r : ModelRunner) (id : RequestId) : bool := bool_decide (is_Some (mr_request_states r !! id)).

Definition get_context_token_ids (r : ModelRunner) (id : RequestId) : option (list TokenId * list TokenId) :=
  (λ s, (rs_prompt_token_ids s, rs_generated_token_ids s)) <$> mr_request_states r !! id.

Definition get_sampling_params (r : ModelRunner) (id : RequestId) : option (SamplingParams Value) := mr_sampling_params r !! id.
Definition set_sampling_params (r : ModelRunner) (id : RequestId) (p : SamplingParams Value) : ModelRunner :=
  with_params (<[id := p]> (mr_sampling_params r)) r.
Definition runner_vocab_size (r : ModelRunner) : nat := mc_vocab_size (mr_model_config r).
Definition return_logits (r : ModelRunner) (id : RequestId) : list f32 := default [] (mr_cached_logits r !! id).
Definition store_logits (r : ModelRunner) (id : RequestId) (l : list f32) : ModelRunner :=
  with_logits (<[id := l]> (mr_cached_logits r)) r.

Definition cache_execute_model_state (r : ModelRunner) (ids : list TokenId) : ModelRunner :=
  mkModelRunner (mr_model_config r) (mr_block_size r) (mr_request_states r) (mr_output_buffer r) ids
    (mr_sampler r) (mr_cached_logits r) (mr_sampling_params r) (mr_eos_token_id r) (mr_speculative_drafts r).

(** The copy through the pinned buffer, which grows when it is too small. *)
Definition async_output_copy (r : ModelRunner) (ids : list TokenId) : list TokenId * ModelRunner :=
  match ids with
  | [] => ([], r)
  | _ =>
      let needed := 4 * length ids in
      (ids,
       if mr_output_buffer r <? needed
       then mkModelRunner (mr_model_config r) (mr_block_size r) (mr_request_states r)
              (Nat.max (length ids) 4096 * 4) (mr_cached_sampled_ids r) (mr_sampler r) (mr_cached_logits r)
              (mr_sampling_params r) (mr_eos_token_id r) (mr_speculative_drafts r)
       else r)
  end.

(** ** Building the batch *)

(** The tokens and first position of one prefill request; [None] skips it. *)
Definition prefill_input (s : RunnerRequestState) (n_scheduled : nat) : option (list TokenId) :=
  let start := rs_num_computed_tokens s in
  let stop := Nat.min (start + n_scheduled) (length (rs_prompt_token_ids s)) in
  if length (rs_prompt_token_ids s) <=? start then None
  else Some (take (stop - start) (drop start (rs_prompt_token_ids s))).

Definition last_token (s : RunnerRequestState) : TokenId :=
  match last (rs_generated_token_ids s) with
  | Some t => t
  | None => default 0%N (last (rs_prompt_token_ids s))
  end.

Definition positions_from (computed n : nat) : result (list N) Error :=
  collect (λ j, u32_try_from "position exceeds u32" (computed + j)) (seq 0 n).

(** What the loop pushes for one request. *)
Definition push_seq (b : InputBatch) (id : RequestId) (tokens : list TokenId) (positions : list N) (seq_len : N)
    (bt : list N) (slots : list Z) (is_pref : bool) : InputBatch :=
  let n := length tokens in
  mkInputBatch (ib_request_ids b ++ [id]) (ib_token_ids b ++ tokens) (ib_positions b ++ positions)
    (ib_seq_lens b ++ [seq_len]) (ib_block_tables b ++ [bt]) (ib_slot_mappings b ++ slots)
    (ib_num_prefill_tokens b + if is_pref then n else 0) (ib_num_decode_tokens b + if is_pref then 0 else n)
    (ib_num_seqs b + 1) (Nat.max (ib_max_num_blocks_per_seq b) (length bt))
    (ib_tokens_per_seq b ++ [n]) (ib_is_prefill b ++ [is_pref]).

(** The loop over the requests.  The drafts of a decode request are taken out of
    the map and put back unless they are empty. *)
Fixpoint build_loop (out : SchedulerOutput) (ids : list RequestId) (r : ModelRunner) (b : InputBatch) :
    option (result InputBatch Error * ModelRunner) :=
  match ids with
  | [] => Some (Ok b, r)
  | id :: ids =>
      match mr_request_states r !! id with
      | None => build_loop out ids r b
      | Some s =>
          let n_scheduled := default 0 (num_scheduled_tokens out !! id) in
          if n_scheduled =? 0 then build_loop out ids r b
          else
            let is_pref := bool_decide (id ∈ scheduled_new out) in
            let computed := rs_num_computed_tokens s in
            let input :=
              if is_pref then prefill_input s n_scheduled
              else Some (last_token s :: default [] (mr_speculative_drafts r !! id)) in
            match input with
            | None => build_loop out ids r b
            | Some tokens =>
                match positions_from computed (length tokens) with
                | Err e => Some (Err e, if is_pref then r else with_drafts (delete id (mr_speculative_drafts r)) r)
                | Ok positions =>
                    let r := if is_pref then r
                             else if bool_decide (mr_speculative_drafts r !! id = Some [])
                                  then with_drafts (delete id (mr_speculative_drafts r)) r else r in
                    match u32_try_from "seq_len exceeds u32" (computed + length tokens) with
                    | Err e => Some (Err e, r)
                    | Ok seq_len =>
                        let bt := N.of_nat <$> default [] (block_tables out !! id) in
                        slots ← compute_slot_mappings positions bt (mr_block_size r);
                        build_loop out ids r (push_seq b id tokens positions seq_len bt slots is_pref)
                    end
                end
            end
      end
  end.

Definition build_tensors (r : ModelRunner) (out : SchedulerOutput) : option (result InputBatch Error * ModelRunner) :=
  let r := foldl remove_request r (finished_ids out) in
  let r := foldl remove_request r (preempted out) in
  if num_scheduled out =? 0 then Some (Ok batch_empty, r)
  else build_loop out (scheduled_new out ++ scheduled_running out) r batch_empty.

End runner.

(** ** Attention metadata of a batch *)

(** The two groups of sequences: lengths, query tokens and tables. *)
Record Groups : Type := mkGroups {
  g_prefill_lens : list N;
  g_prefill_tokens : list N;
  g_prefill_tables : list (list Z);
  g_decode_lens : list N;
  g_decode_tables : list (list Z);
}.

Fixpoint split_batch (b : InputBatch) (idxs : list nat) (g : Groups) : option Groups :=
  match idxs with
  | [] => Some g
  | i :: idxs =>
      bt ← ib_block_tables b !! i;
      let bt := (λ x, as_i32 (Z.of_N x)) <$> bt in
      pref ← ib_is_prefill b !! i;
      len ← ib_seq_lens b !! i;
      if pref : bool then
        n ← ib_tokens_per_seq b !! i;
        split_batch b idxs (mkGroups (g_prefill_lens g ++ [len]) (g_prefill_tokens g ++ [as_u32 (N.of_nat n)])
          (g_prefill_tables g ++ [bt]) (g_decode_lens g) (g_decode_tables g))
      else
        split_batch b idxs (mkGroups (g_prefill_lens g) (g_prefill_tokens g) (g_prefill_tables g)
          (g_decode_lens g ++ [len]) (g_decode_tables g ++ [bt]))
  end.

Definition with_slots (slots : list Z) (m : AttentionMetadata) : AttentionMetadata :=
  mkAttentionMetadata (am_seq_lens m) (am_query_start_loc m) (am_block_tables m) slots (am_num_prefill_tokens m)
    (am_num_decode_tokens m) (am_max_num_blocks_per_seq m) (am_common_prefix_blocks m) (am_sliding_window m).

Definition build_attention_metadata (b : InputBatch) : option AttentionMetadata :=
  if ib_num_seqs b =? 0 then Some AttentionMetadata.new
  else
    g ← split_batch b (seq 0 (ib_num_seqs b)) (mkGroups [] [] [] [] []);
    let max_blocks := ib_max_num_blocks_per_seq b in
    match g_prefill_lens g, g_decode_lens g with
    | [], [] => Some AttentionMetadata.new
    | [], _ =>
        Some (with_slots (ib_slot_mappings b) (AttentionMetadata.for_decode (g_decode_lens g) (g_decode_tables g) max_blocks))
    | _, [] =>
        m ← AttentionMetadata.for_prefill (g_prefill_lens g) (g_prefill_tokens g) (g_prefill_tables g) max_blocks;
        Some (with_slots (ib_slot_mappings b) m)
    | _, _ =>
        sums ← AttentionMetadata.cumulate 0 (g_prefill_tokens g ++ replicate (length (g_decode_lens g)) 1%N);
        Some (AttentionMetadata.detect_common_prefix_blocks
          (mkAttentionMetadata (g_prefill_lens g ++ g_decode_lens g) (0%N :: sums)
            (g_prefill_tables g ++ g_decode_tables g) (ib_slot_mappings b)
            (sum_list_with N.to_nat (g_prefill_tokens g)) (length (g_decode_lens g)) max_blocks 0 None))
    end.

(** ** Batches as lists of entries *)

(** One sequence of a batch: its tokens from position [e_start] on. *)
Record Entry : Type := mkEntry {
  e_id : RequestId;
  e_tokens : list TokenId;
  e_start : nat;
  e_table : list BlockId;
  e_prefill : bool;
}.

Definition e_count (e : Entry) : nat := length (e_tokens e).
Definition e_len (e : Entry) : nat := e_start e + e_count e.
Definition e_positions (e : Entry) : list N := N.of_nat <$> seq (e_start e) (e_count e).
Definition e_slots (block_size : nat) (e : Entry) : list Z :=
  slot_of (N.of_nat block_size) (N.of_nat <$> e_table e) <$> e_positions e.

(** The batch of a list of entries. *)
Definition batch_of (block_size : nat) (es : list Entry) : InputBatch :=
  mkInputBatch (e_id <$> es) (concat (e_tokens <$> es)) (concat (e_positions <$> es)) (N.of_nat ∘ e_len <$> es)
    ((λ e, N.of_nat <$> e_table e) <$> es) (concat (e_slots block_size <$> es))
    (sum_list ((λ e, if e_prefill e then e_count e else 0) <$> es))
    (sum_list ((λ e, if e_prefill e then 0 else e_count e) <$> es))
    (length es) (max_list ((λ e, length (e_table e)) <$> es)) (e_count <$> es) (e_prefill <$> es).

Section entries.
Context {Value R KV : Type}.
#[local] Notation Runner := (ModelRunner (Value := Value) (R := R) (KV := KV)).

(** The entry of a scheduled request: nothing for a request the runner does not
    know, without tokens to compute, or whose prompt is already computed; the
    next slice of the prompt for a new request; the last token and the drafts
    for a running one. *)
Definition entry_of (r : Runner) (out : SchedulerOutput) (id : RequestId) : option Entry :=
  s ← mr_request_states r !! id;
  let n_scheduled := default 0 (num_scheduled_tokens out !! id) in
  if n_scheduled =? 0 then None
  else
    let is_pref := bool_decide (id ∈ scheduled_new out) in
    tokens ← (if is_pref then prefill_input s n_scheduled
              else Some (last_token s :: default [] (mr_speculative_drafts r !! id)));
    Some (mkEntry id tokens (rs_num_computed_tokens s) (default [] (block_tables out !! id)) is_pref).

(** Runners that differ at most in empty draft lists. *)
Definition same_runner (r1 r2 : Runner) : Prop :=
  mr_request_states r1 = mr_request_states r2 ∧ mr_block_size r1 = mr_block_size r2
  ∧ mr_sampling_params r1 = mr_sampling_params r2 ∧ mr_model_config r1 = mr_model_config r2
  ∧ ∀ id, default [] (mr_speculative_drafts r1 !! id) = default [] (mr_speculative_drafts r2 !! id).

Lemma same_runner_refl r : same_runner r r.
Proof. by split_and!. Qed.

Lemma same_runner_trans r1 r2 r3 : same_runner r1 r2 → same_runner r2 r3 → same_runner r1 r3.
Proof.
  intros (A1 & A2 & A3 & A4 & A5) (B1 & B2 & B3 & B4 & B5).
  split_and!; [congruence .. |]. intros id. by rewrite A5, B5.
Qed.

Lemma same_runner_entry r1 r2 out id : same_runner r1 r2 → entry_of r1 out id = entry_of r2 out id.
Proof. intros (H1 & _ & _ & _ & H5). unfold entry_of. by rewrite H1, H5. Qed.

Lemma collect_Ok {A B E} (f : A → result B E) (g : A → B) l :
  (∀ x, x ∈ l → f x = Ok (g x)) → collect f l = Ok (g <$> l).
Proof.
  induction l as [|x l IH]; intros Hf; simpl; [done |]. rewrite Hf by (by left). simpl.
  rewrite IH; [done |]. intros y Hy. apply Hf. by right.
Qed.

Lemma positions_from_Ok computed n :
  (N.of_nat (computed + n) <= u32_max)%N → positions_from computed n = Ok (N.of_nat <$> seq computed n).
Proof.
  intros Hfit. unfold positions_from. rewrite (collect_Ok _ (λ j, N.of_nat (computed + j))).
  - f_equal. pose proof (fmap_add_seq computed 0 n) as E. rewrite Nat.add_0_r in E. by rewrite <- E, <- list_fmap_compose.
  - intros j Hj%elem_of_seq. unfold u32_try_from. destruct (N.leb_spec (N.of_nat (computed + j)) u32_max); [done | lia].
Qed.

Lemma compute_slot_mappings_Some positions bt bs :
  0 < bs → (N.of_nat bs <= u32_max)%N →
  compute_slot_mappings positions bt bs = Some (slot_of (N.of_nat bs) bt <$> positions).
Proof.
  intros H0 Hmax. unfold compute_slot_mappings. rewrite (proj2 (N.leb_le _ _)) by done.
  destruct positions; [done |]. destruct (Nat.eqb_spec bs 0); [lia | done].
Qed.

Lemma sum_list_snoc l x : sum_list (l ++ [x]) = sum_list l + x.
Proof. rewrite sum_list_app. simpl. lia. Qed.

(** Pushing an entry. *)
Lemma push_entry bs es e :
  push_seq (batch_of bs es) (e_id e) (e_tokens e) (e_positions e) (N.of_nat (e_len e)) (N.of_nat <$> e_table e)
    (e_slots bs e) (e_prefill e) = batch_of bs (es ++ [e]).
Proof.
  unfold push_seq, batch_of. rewrite !fmap_app, !concat_app, !sum_list_app, length_app. cbn [fmap list_fmap concat length].
  rewrite !app_nil_r. rewrite max_list_snoc, length_fmap. cbn. unfold e_count.
  f_equal; destruct (e_prefill e); simpl; lia.
Qed.

(** Forgetting requests. *)
Lemma removed_states (r : Runner) ids :
  (∀ id, mr_request_states (foldl remove_request r ids) !! id =
     if decide (id ∈ ids) then None else mr_request_states r !! id)
  ∧ mr_block_size (foldl remove_request r ids) = mr_block_size r.
Proof.
  revert r. induction ids as [|i ids IH]; intros r; cbn [foldl].
  { split; [| done]. intros id. rewrite decide_False; [done | apply not_elem_of_nil]. }
  destruct (IH (remove_request r i)) as [H1 H2]. split; [| exact H2]. intros id. rewrite H1.
  change (mr_request_states (remove_request r i)) with (delete i (mr_request_states r)).
  destruct (decide (id ∈ ids)); [by rewrite decide_True by (by right) |].
  destruct (decide (id = i)) as [->|].
  - by rewrite lookup_delete_eq, decide_True by (by left).
  - rewrite lookup_delete_ne by done. rewrite decide_False; [done |]. by rewrite elem_of_cons; intros [].
Qed.

(** Every entry's positions fit a [u32]. *)
Definition entries_fit (es : list Entry) : Prop := ∀ e, e ∈ es → (N.of_nat (e_len e) <= u32_max)%N.

Lemma build_loop_spec out ids : ∀ (r : Runner) es,
  0 < mr_block_size r → (N.of_nat (mr_block_size r) <= u32_max)%N →
  entries_fit (omap (entry_of r out) ids) →
  ∃ r', build_loop out ids r (batch_of (mr_block_size r) es)
        = Some (Ok (batch_of (mr_block_size r) (es ++ omap (entry_of r out) ids)), r') ∧ same_runner r r'.
Proof.
  induction ids as [|id ids IH]; intros r es Hpos Hmax Hfit; cbn [build_loop omap list_omap].
  { exists r. rewrite app_nil_r. split; [done | apply same_runner_refl]. }
  cbn [omap list_omap] in Hfit.
  assert (Hskip : entry_of r out id = None → ∃ r', build_loop out ids r (batch_of (mr_block_size r) es)
    = Some (Ok (batch_of (mr_block_size r) (es ++ omap (entry_of r out) ids)), r') ∧ same_runner r r').
  { intros E. rewrite E in Hfit. by apply IH. }
  unfold entry_of at 1. destruct (mr_request_states r !! id) as [s|] eqn:Es; cbn [mbind option_bind];
    [| apply Hskip; unfold entry_of; by rewrite Es].
  destruct (default 0 (num_scheduled_tokens out !! id) =? 0) eqn:En;
    [apply Hskip; unfold entry_of; rewrite Es; simpl; by rewrite En |].
  cbv zeta. set (pref := bool_decide (id ∈ scheduled_new out)).
  set (input := if pref then prefill_input s _ else _).
  destruct input as [tokens|] eqn:Ein; cbn [mbind option_bind];
    [| apply Hskip; unfold entry_of; rewrite Es; cbn [mbind option_bind]; rewrite En; fold pref input; by rewrite Ein].
  set (e := mkEntry id tokens (rs_num_computed_tokens s) (default [] (block_tables out !! id)) pref).
  assert (He : entry_of r out id = Some e).
  { unfold entry_of. rewrite Es. cbn [mbind option_bind]. rewrite En. fold pref input. by rewrite Ein. }
  rewrite He in Hfit. assert (Hle : (N.of_nat (e_len e) <= u32_max)%N) by (apply Hfit; by left).
  rewrite positions_from_Ok by (unfold e_len, e_count in Hle; done).
  unfold u32_try_from at 1. rewrite (proj2 (N.leb_le _ _)) by (unfold e_len, e_count in Hle; done).
  set (r1 := if pref then r else _).
  assert (Hsame : same_runner r r1).
  { subst r1. destruct pref; [apply same_runner_refl |]. case_bool_decide as Hd; [| apply same_runner_refl].
    split_and!; [done .. |]. intros id'. simpl. destruct (decide (id' = id)) as [->|].
    - by rewrite Hd, lookup_delete_eq.
    - by rewrite lookup_delete_ne. }
  assert (Hbs : mr_block_size r1 = mr_block_size r) by (by destruct Hsame as (_ & -> & _)).
  rewrite Hbs, compute_slot_mappings_Some by done. cbn [mbind option_bind].
  change (push_seq _ _ _ _ _ _ _ _) with
    (push_seq (batch_of (mr_block_size r) es) (e_id e) (e_tokens e) (e_positions e) (N.of_nat (e_len e))
       (N.of_nat <$> e_table e) (e_slots (mr_block_size r) e) (e_prefill e)).
  rewrite push_entry, <- Hbs.
  assert (Homap : omap (entry_of r out) ids = omap (entry_of r1 out) ids).
  { apply list_omap_ext. apply Forall_Forall2_diag, Forall_forall. intros id' _. by apply same_runner_entry. }
  destruct (IH r1 (es ++ [e])) as (r' & -> & Hr'); [by rewrite Hbs | by rewrite Hbs | |].
  { rewrite <- Homap. intros e' He'. apply Hfit. by right. }
  exists r'. rewrite <- Homap, <- app_assoc. split; [done |]. by eapply same_runner_trans.
Qed.
End entries.

(** ** Metadata of a batch of entries *)
Lemma cumulate_psums counts : ∀ acc,
  (N.of_nat (acc + sum_list counts) <= u32_max)%N →
  AttentionMetadata.cumulate (N.of_nat acc) (N.of_nat <$> counts) = Some (N.of_nat <$> tail (psums acc counts)).
Proof.
  induction counts as [|c counts IH]; intros acc Hfit; [done |]. cbn [fmap list_fmap AttentionMetadata.cumulate] in *.
  simpl in Hfit. unfold u32_add. rewrite (proj2 (N.leb_le _ _)) by lia. cbn [mbind option_bind].
  replace (N.of_nat acc + N.of_nat c)%N with (N.of_nat (acc + c)) by lia. rewrite IH by lia. cbn [mbind option_bind psums tail].
  do 2 f_equal. by destruct counts.
Qed.

Lemma psums_cons acc l : psums acc l = acc :: tail (psums acc l).
Proof. by destruct l. Qed.

Lemma as_u32_small n : (n <= u32_max)%N → as_u32 n = n.
Proof. unfold as_u32, u32_max. intros. by apply N.mod_small; lia. Qed.

Lemma psums_ones n : ∀ acc, psums acc (replicate n 1) = seq acc (n + 1).
Proof.
  induction n as [|n IH]; intros acc; [done |]. cbn [replicate psums]. rewrite IH.
  replace (acc + 1) with (S acc) by lia. done.
Qed.

Lemma sum_list_fmap_of_nat l : sum_list_with N.to_nat (N.of_nat <$> l) = sum_list l.
Proof. induction l as [|x l IH]; [done |]. cbn. rewrite Nat2N.id. f_equal. exact IH. Qed.

Lemma match_nonempty {A B} (l : list A) (a b : B) : l ≠ [] → match l with [] => a | _ :: _ => b end = b.
Proof. by destruct l. Qed.

Lemma fmap_nil_iff {A B} (f : A → B) l : f <$> l = [] ↔ l = [].
Proof. by destruct l. Qed.

(** The last running sum is the sum. *)
Lemma last_sum l : N.to_nat (default 0%N (last (N.of_nat <$> tail (psums 0 l)))) = sum_list l.
Proof.
  rewrite fmap_last. destruct l as [|x l]; [done |]. cbn [psums tail].
  rewrite last_lookup, psums_length. cbn [pred]. rewrite psums_lookup by done. rewrite take_ge by done. simpl. lia.
Qed.

Section metadata.
Context (bs : nat).

Definition table_i32 (e : Entry) : list Z := Z.of_nat <$> e_table e.

(** The tables of the sequences hold block numbers that fit an [i32], and cover
    their positions. *)
Record tables_cover (es : list Entry) : Prop := {
  tc_blocks : ∀ e b, e ∈ es → b ∈ e_table e → (Z.of_nat b <= i32_max)%Z;
  tc_cover : ∀ e, e ∈ es → cdiv (e_len e) bs ≤ length (e_table e);
}.

Lemma table_as_i32 e es :
  tables_cover es → e ∈ es → (λ x, as_i32 (Z.of_N x)) <$> (N.of_nat <$> e_table e) = table_i32 e.
Proof.
  intros Ht He. unfold table_i32. rewrite <- list_fmap_compose. apply list_fmap_ext. intros i b Hb. simpl.
  rewrite nat_N_Z. apply as_i32_small. split; [lia |].
  apply (tc_blocks _ Ht e b He). by eapply list_elem_of_lookup_2.
Qed.

(** The two groups of a batch, entry by entry. *)
Definition groups_of (es : list Entry) : Groups :=
  let ps := filter (λ e, e_prefill e = true) es in
  let ds := filter (λ e, e_prefill e = false) es in
  mkGroups (N.of_nat ∘ e_len <$> ps) (N.of_nat ∘ e_count <$> ps) (table_i32 <$> ps) (N.of_nat ∘ e_len <$> ds) (table_i32 <$> ds).

Lemma groups_of_snoc es e :
  groups_of (es ++ [e]) =
  let g := groups_of es in
  if e_prefill e
  then mkGroups (g_prefill_lens g ++ [N.of_nat (e_len e)]) (g_prefill_tokens g ++ [N.of_nat (e_count e)])
         (g_prefill_tables g ++ [table_i32 e]) (g_decode_lens g) (g_decode_tables g)
  else mkGroups (g_prefill_lens g) (g_prefill_tokens g) (g_prefill_tables g)
         (g_decode_lens g ++ [N.of_nat (e_len e)]) (g_decode_tables g ++ [table_i32 e]).
Proof.
  unfold groups_of. rewrite !filter_app, !filter_cons, !filter_nil. destruct (e_prefill e); simpl;
    by rewrite !fmap_app, ?app_nil_r.
Qed.

Lemma split_batch_spec es : tables_cover es → entries_fit es →
  split_batch (batch_of bs es) (seq 0 (length es)) (mkGroups [] [] [] [] []) = Some (groups_of es).
Proof.
  intros Ht Hfit.
  assert (Hgen : ∀ m k, k + m = length es →
    split_batch (batch_of bs es) (seq k m) (groups_of (take k es)) = Some (groups_of es)).
  { induction m as [|m IH]; intros k Hkm; cbn [seq split_batch].
    { by rewrite take_ge by lia. }
    destruct (lookup_lt_is_Some_2 es k ltac:(lia)) as [e He]. pose proof (list_elem_of_lookup_2 _ _ _ He) as Hin.
    cbn [batch_of ib_block_tables ib_is_prefill ib_seq_lens ib_tokens_per_seq].
    rewrite !list_lookup_fmap, He. cbn [fmap option_fmap option_map mbind option_bind].
    rewrite (table_as_i32 e es Ht Hin).
    rewrite as_u32_small by (pose proof (Hfit e Hin); unfold e_len in *; lia).
    specialize (IH (S k) ltac:(lia)). rewrite (take_S_r _ _ _ He), groups_of_snoc in IH. cbv zeta in IH.
    destruct (e_prefill e); exact IH. }
  exact (Hgen (length es) 0 eq_refl).
Qed.

(** Prefill entries first, decode entries after them. *)
Definition prefill_first (es : list Entry) : Prop :=
  ∃ ps ds, es = ps ++ ds ∧ Forall (λ e, e_prefill e = true) ps ∧ Forall (λ e, e_prefill e = false) ds.

(** A decode entry has one token: no drafts. *)
Definition no_drafts (es : list Entry) : Prop := ∀ e, e ∈ es → e_prefill e = false → e_count e = 1.

Lemma filter_all {A} (P : A → Prop) `{!∀ x, Decision (P x)} l : Forall P l → filter P l = l.
Proof. intros HP. apply filter_id. by apply Forall_forall. Qed.

Lemma filter_none {A} (P Q : A → Prop) `{!∀ x, Decision (P x)} l : (∀ x, Q x → ¬ P x) → Forall Q l → filter P l = [].
Proof.
  intros HPQ HQ. induction HQ as [|x l Hx _ IH]; [done |]. rewrite filter_cons_False; [done | by apply HPQ].
Qed.

Lemma groups_of_split ps ds :
  Forall (λ e, e_prefill e = true) ps → Forall (λ e, e_prefill e = false) ds →
  groups_of (ps ++ ds) = mkGroups (N.of_nat ∘ e_len <$> ps) (N.of_nat ∘ e_count <$> ps) (table_i32 <$> ps)
                           (N.of_nat ∘ e_len <$> ds) (table_i32 <$> ds).
Proof.
  intros Hp Hd. unfold groups_of. rewrite !filter_app.
  rewrite (filter_all (λ e, e_prefill e = true) ps Hp), (filter_all (λ e, e_prefill e = false) ds Hd).
  rewrite (filter_none (λ e, e_prefill e = false) (λ e, e_prefill e = true) ps),
    (filter_none (λ e, e_prefill e = true) (λ e, e_prefill e = false) ds);
    [by rewrite app_nil_r | by intros e -> | done | by intros e -> | done].
Qed.

(** What the metadata of a batch must say. *)
Record metadata_of (es : list Entry) (m : AttentionMetadata) : Prop := {
  mo_lens : am_seq_lens m = N.of_nat ∘ e_len <$> es;
  mo_starts : am_query_start_loc m = N.of_nat <$> psums 0 (e_count <$> es);
  mo_tables : am_block_tables m = table_i32 <$> es;
  mo_slots : am_slot_mapping m = concat (e_slots bs <$> es);
  mo_tokens : AttentionMetadata.num_tokens m = sum_list (e_count <$> es);
  mo_window : am_sliding_window m = None;
}.

Lemma decode_counts ds : no_drafts ds → Forall (λ e, e_prefill e = false) ds → e_count <$> ds = replicate (length ds) 1.
Proof.
  intros Hn Hd. induction Hd as [|e ds He _ IH]; [done |]. simpl.
  rewrite (Hn e) by (by left || done). f_equal. apply IH. intros e' H'. apply Hn. by right.
Qed.

Lemma build_attention_metadata_spec es :
  tables_cover es → entries_fit es → prefill_first es → no_drafts es →
  (N.of_nat (sum_list (e_count <$> es)) <= u32_max)%N →
  ∃ m, build_attention_metadata (batch_of bs es) = Some m ∧ metadata_of es m.
Proof.
  intros Ht Hfit (ps & ds & -> & Hp & Hd) Hn Hsum. unfold build_attention_metadata.
  cbn [batch_of ib_num_seqs ib_max_num_blocks_per_seq ib_slot_mappings]. fold (batch_of bs (ps ++ ds)).
  destruct (Nat.eqb_spec (length (ps ++ ds)) 0) as [Hz|Hnz].
  { apply nil_length_inv in Hz. rewrite Hz. eexists. split; [done |]. by split. }
  rewrite split_batch_spec, groups_of_split by done. cbn [mbind option_bind g_prefill_lens g_prefill_tokens g_prefill_tables g_decode_lens g_decode_tables].
  rewrite fmap_app, sum_list_app in Hsum.
  assert (Hdc : e_count <$> ds = replicate (length ds) 1).
  { apply decode_counts; [| done]. intros e He. apply Hn. set_solver. }
  assert (Hds : sum_list (replicate (length ds) 1) = length ds).
  { clear. induction (length ds) as [|n IH]; simpl; lia. }
  rewrite Hdc, Hds in Hsum.
  set (pl := N.of_nat ∘ e_len <$> ps). set (dl := N.of_nat ∘ e_len <$> ds).
  assert (Hpl : pl = [] ↔ ps = []) by (subst pl; apply fmap_nil_iff).
  assert (Hdl : dl = [] ↔ ds = []) by (subst dl; apply fmap_nil_iff).
  assert (Hdlen : length dl = length ds) by (subst dl; by rewrite length_fmap).
  destruct (decide (ps = [])) as [->|Hps]; [| destruct (decide (ds = [])) as [->|Hds']].
  - rewrite (proj2 Hpl) by done. rewrite match_nonempty by (rewrite Hdl; by intros ->).
    eexists. split; [done |]. unfold AttentionMetadata.for_decode, with_slots. rewrite app_nil_l.
    split; cbn [am_seq_lens am_query_start_loc am_block_tables am_slot_mapping am_sliding_window]; try done.
    + rewrite Hdc, psums_ones, Hdlen. apply list_fmap_ext. intros i x Hx%lookup_seq. apply as_u32_small. lia.
    + unfold AttentionMetadata.num_tokens. cbn [am_num_prefill_tokens am_num_decode_tokens]. rewrite Hdc, Hds. lia.
  - rewrite match_nonempty by (by rewrite Hpl). rewrite (proj2 Hdl) by done.
    unfold AttentionMetadata.for_prefill. rewrite list_fmap_compose.
    rewrite (cumulate_psums _ 0) by (rewrite Nat.add_0_l; lia). cbn [mbind option_bind].
    eexists. split; [done |]. rewrite app_nil_r.
    split; cbn [with_slots am_seq_lens am_query_start_loc am_block_tables am_slot_mapping am_sliding_window]; try done.
    + by rewrite (psums_cons 0).
    + unfold AttentionMetadata.num_tokens. cbn [with_slots am_num_prefill_tokens am_num_decode_tokens].
      by rewrite Nat.add_0_r, last_sum.
  - rewrite match_nonempty by (by rewrite Hpl). rewrite match_nonempty by (by rewrite Hdl).
    assert (Hall : (N.of_nat ∘ e_count <$> ps) ++ replicate (length dl) 1%N = N.of_nat <$> (e_count <$> ps ++ ds)).
    { by rewrite !fmap_app, Hdc, list_fmap_compose, Hdlen, fmap_replicate. }
    rewrite Hall, (cumulate_psums _ 0) by (rewrite fmap_app, sum_list_app, Hdc, Hds; lia).
    cbn [mbind option_bind]. eexists. split; [done |]. unfold AttentionMetadata.detect_common_prefix_blocks.
    split; cbn [am_seq_lens am_query_start_loc am_block_tables am_slot_mapping am_sliding_window]; try done.
    + by rewrite fmap_app.
    + by rewrite (psums_cons 0 (e_count <$> ps ++ ds)).
    + by rewrite fmap_app.
    + unfold AttentionMetadata.num_tokens. cbn [am_num_prefill_tokens am_num_decode_tokens].
      by rewrite fmap_app, sum_list_app, Hdc, Hds, list_fmap_compose, sum_list_fmap_of_nat, Hdlen.
Qed.

Lemma metadata_q_lens es m : metadata_of es m → q_lens m = e_count <$> es.
Proof.
  intros [_ Hs _ _ _ _]. unfold q_lens. rewrite Hs. apply list_eq. intros i.
  rewrite lookup_zip_with, lookup_tail, !list_lookup_fmap.
  destruct (es !! i) as [e|] eqn:Ee; simpl.
  - pose proof (lookup_lt_Some _ _ _ Ee). rewrite !psums_lookup by (rewrite length_fmap; lia). simpl.
    assert (Hc : (e_count <$> es) !! i = Some (e_count e)) by (by rewrite list_lookup_fmap, Ee).
    rewrite (take_S_r _ _ _ Hc), sum_list_snoc. f_equal. lia.
  - apply lookup_ge_None in Ee. destruct (psums 0 _ !! i) as [x|]; simpl; [| done].
    rewrite (lookup_ge_None_2 (psums 0 (e_count <$> es)) (S i)) by (rewrite psums_length, length_fmap; lia). done.
Qed.

Lemma metadata_well_formed es m : 0 < bs → tables_cover es → metadata_of es m → well_formed m bs.
Proof.
  intros Hpos Ht Hm. pose proof (metadata_q_lens es m Hm) as Hq. destruct Hm as [Hl Hs Htab _ _ _].
  unfold well_formed. rewrite Hs, Hl, Htab, !length_fmap, psums_length, length_fmap. split_and!; try done.
  - by rewrite psums_cons.
  - intros i a b Ha Hb. rewrite list_lookup_fmap in Ha, Hb.
    destruct (psums 0 (e_count <$> es) !! i) as [x|] eqn:Ex; [| done].
    destruct (psums 0 (e_count <$> es) !! S i) as [y|] eqn:Ey; [| done]. simplify_eq/=.
    pose proof (lookup_lt_Some _ _ _ Ey) as Hlt. rewrite psums_length in Hlt.
    rewrite psums_lookup in Ex, Ey by lia. simplify_eq.
    destruct (lookup_lt_is_Some_2 (e_count <$> es) i ltac:(lia)) as [c Hc].
    rewrite (take_S_r _ _ _ Hc), sum_list_snoc. lia.
  - intros i Hi len q row H1 H2 H3. rewrite Hq in H2. rewrite Hl in H1. rewrite Htab in H3.
    rewrite !list_lookup_fmap in H1. rewrite list_lookup_fmap in H2; rewrite list_lookup_fmap in H3.
    destruct (es !! i) as [e|] eqn:Ee; [| done]. simpl in *. rewrite Nat2N.id in H1. simplify_eq.
    apply list_elem_of_lookup_2 in Ee. split_and!.
    + unfold e_len. lia.
    + unfold table_i32. rewrite length_fmap. by apply (tc_cover _ Ht).
    + apply Forall_take, Forall_forall. unfold table_i32. intros b (x & -> & _)%list_elem_of_fmap. lia.
Qed.
End metadata.

Lemma build_tensors_spec {Value R KV} (r : ModelRunner (Value := Value) (R := R) (KV := KV)) out
    (Hpos : 0 < mr_block_size r) (Hmax : (N.of_nat (mr_block_size r) <= u32_max)%N) :
  let r0 := foldl remove_request (foldl remove_request r (finished_ids out)) (preempted out) in
  let es := omap (entry_of r0 out) (scheduled_new out ++ scheduled_running out) in
  entries_fit es →
  ∃ r', build_tensors r out = Some (Ok (batch_of (mr_block_size r) es), r') ∧ same_runner r0 r'
    ∧ (∀ id, mr_request_states r' !! id =
         if decide (id ∈ finished_ids out ∨ id ∈ preempted out) then None else mr_request_states r !! id).
Proof.
  cbv zeta. intros Hfit. unfold build_tensors.
  set (r0 := foldl remove_request (foldl remove_request r (finished_ids out)) (preempted out)) in *.
  destruct (removed_states r (finished_ids out)) as [S1 B1].
  destruct (removed_states (foldl remove_request r (finished_ids out)) (preempted out)) as [S2 B2]. fold r0 in S2, B2.
  assert (Hstates : ∀ id, mr_request_states r0 !! id =
    if decide (id ∈ finished_ids out ∨ id ∈ preempted out) then None else mr_request_states r !! id).
  { intros id. rewrite S2, S1. repeat case_decide; tauto. }
  rewrite B1 in B2. rewrite <- B2 in Hpos, Hmax |- *.
  destruct (Nat.eqb_spec (num_scheduled out) 0) as [Hz|Hnz].
  - unfold num_scheduled in Hz. exists r0.
    rewrite (nil_length_inv (scheduled_new out)), (nil_length_inv (scheduled_running out)) by lia.
    split_and!; [done | apply same_runner_refl | exact Hstates].
  - destruct (build_loop_spec out (scheduled_new out ++ scheduled_running out) r0 [] Hpos Hmax Hfit) as (r' & E & Hs).
    exists r'. split_and!; [exact E | done |]. intros id. destruct Hs as (<- & _). apply Hstates.
Qed.

(** What the worker feeds to the model.  [build_tensors] forgets the finished
    and preempted requests and then succeeds, when no position exceeds a [u32];
    the batch is the concatenation of exactly one entry for each scheduled
    request it knows and that has tokens to compute, new ones first and in the
    scheduler's order: the slice of the prompt after the computed tokens for a
    new request, the last token followed by the drafts for a running one, with
    consecutive positions from the computed count and one cache slot each.  The
    request states are left as they are. *)
Theorem build_tensors_exact {Value R KV} (r : ModelRunner (Value := Value) (R := R) (KV := KV)) out
    (Hpos : 0 < mr_block_size r) (Hmax : (N.of_nat (mr_block_size r) <= u32_max)%N) :
  let r0 := foldl remove_request (foldl remove_request r (finished_ids out)) (preempted out) in
  let es := omap (entry_of r0 out) (scheduled_new out ++ scheduled_running out) in
  entries_fit es →
  ∃ r', build_tensors r out = Some (Ok (batch_of (mr_block_size r) es), r') ∧ same_runner r0 r'
    ∧ (∀ id, mr_request_states r' !! id =
         if decide (id ∈ finished_ids out ∨ id ∈ preempted out) then None else mr_request_states r !! id).
Proof. exact (build_tensors_spec r out Hpos Hmax). Qed.

(** The attention metadata of a batch is always acceptable to the kernels.
    For entries with prefills first, one token per decode (no drafts) and block
    tables that cover their positions, [build_attention_metadata] does not panic,
    its sequence lengths, query starts, tables, slots and token count are those
    of the entries, and the step metadata is built from it without error; the
    query lengths the kernels read are the token counts of the batch. *)
Theorem batch_metadata_accepted block_size es
    (Hpos : 0 < block_size) (Hbs : (Z.of_nat block_size <= i32_max)%Z)
    (Htables : tables_cover block_size es) (Hfit : entries_fit es)
    (Horder : prefill_first es) (Hdrafts : no_drafts es)
    (Htokens : (N.of_nat (sum_list (e_count <$> es)) <= u32_max)%N)
    (Hpages : (Z.of_nat (sum_list ((λ e, cdiv (e_len e) block_size) <$> es)) <= i32_max)%Z) :
  ∃ m sm, build_attention_metadata (batch_of block_size es) = Some m ∧ metadata_of block_size es m
    ∧ StepMetadata.from_attention_metadata m block_size = Some (Ok sm) ∧ step_metadata_of m block_size sm
    ∧ q_lens m = ib_tokens_per_seq (batch_of block_size es).
Proof.
  destruct (build_attention_metadata_spec block_size es Htables Hfit Horder Hdrafts Htokens) as (m & E & Hm).
  destruct (from_attention_metadata_spec m block_size Hbs) as (r & Er & Hr).
  { rewrite (mo_lens _ _ _ Hm), <- !list_fmap_compose. erewrite list_fmap_ext; [exact Hpages |].
    intros i e _. simpl. unfold pages_of. by rewrite Nat2N.id. }
  pose proof (metadata_well_formed block_size es m Hpos Htables Hm) as Hwf.
  destruct r as [sm|e]; [| done]. destruct Hr as [_ Hsm].
  exists m, sm. split_and!; [done .. |]. by rewrite (metadata_q_lens _ _ _ Hm).
Qed.

(** ** Examples *)
Definition demo_model : ModelConfig :=
  mkModelConfig "m" "LlamaForCausalLM" 10 8 8 1 1 1 8 64 F32.one None DT_F32 None TM_Auto.

(** A new request 1 and a running request 2 that has one generated token. *)
Definition demo_runner : ModelRunner (Value := unit) (R := unit) (KV := unit) :=
  with_states (<[1%N := mkRunnerState [1; 2; 3]%N [] 0 [None]]> (<[2%N := mkRunnerState [4; 5]%N [6%N] 2 [None]]> ∅))
    (runner_new demo_model 4).

Definition demo_sched_out (new running : list RequestId) (n : gmap RequestId nat) (pre : list RequestId) : SchedulerOutput :=
  mkOutput new [] running n (<[1%N := [0; 3]]> (<[2%N := [1]]> ∅)) 0 pre [] stats_default.
Definition demo_out : SchedulerOutput := demo_sched_out [1%N] [2%N] (<[1%N := 3]> (<[2%N := 1]> ∅)) [].

Definition demo_entries : list Entry :=
  [mkEntry 1 [1; 2; 3]%N 0 [0; 3] true; mkEntry 2 [6]%N 2 [1] false].

Lemma build_tensors_exact_witness :
  ∃ r', build_tensors demo_runner demo_out = Some (Ok (batch_of 4 demo_entries), r')
    ∧ same_runner demo_runner r'.
Proof.
  destruct (build_tensors_exact demo_runner demo_out) as (r' & E & Hs & _); [simpl; lia | vm_compute; congruence | |].
  - intros e He. repeat (apply elem_of_cons in He as [->|He]; [vm_compute; congruence |]). by apply not_elem_of_nil in He.
  - exists r'. split; [exact E | exact Hs].
Defined.

Lemma demo_cover : tables_cover 4 demo_entries.
Proof.
  split.
  - intros e b He Hb. unfold i32_max.
    repeat (apply elem_of_cons in He as [->|He]; [simpl in Hb; repeat (apply elem_of_cons in Hb as [->|Hb]; [lia |]); by apply not_elem_of_nil in Hb |]).
    by apply not_elem_of_nil in He.
  - intros e He. repeat (apply elem_of_cons in He as [->|He]; [vm_compute; lia |]). by apply not_elem_of_nil in He.
Qed.

Lemma batch_metadata_accepted_witness :
  ∃ m sm, build_attention_metadata (batch_of 4 demo_entries) = Some m
    ∧ StepMetadata.from_attention_metadata m 4 = Some (Ok sm) ∧ q_lens m = [3; 1].
Proof.
  destruct (batch_metadata_accepted 4 demo_entries) as (m & sm & E1 & _ & E2 & _ & E3).
  - lia.
  - vm_compute. congruence.
  - exact demo_cover.
  - intros e He. repeat (apply elem_of_cons in He as [->|He]; [vm_compute; congruence |]). by apply not_elem_of_nil in He.
  - exists [mkEntry 1 [1; 2; 3]%N 0 [0; 3] true], [mkEntry 2 [6]%N 2 [1] false]. by repeat constructor.
  - intros e He Hp. repeat (apply elem_of_cons in He as [->|He]; [by simpl in * |]). by apply not_elem_of_nil in He.
  - vm_compute. congruence.
  - vm_compute. congruence.
  - exists m, sm. split_and!; [exact E1 | exact E2 | exact E3].
Defined.

(** A preempted request is forgotten, so when the scheduler admits it again as a
    new request it is skipped: the batch is empty, and stays so. *)
Example preempted_request_lost :
  let step1 := default (Ok batch_empty, demo_runner)
    (build_tensors demo_runner (demo_sched_out [] [2%N] (<[2%N := 1]> ∅) [1%N])) in
  build_tensors step1.2 (demo_sched_out [1%N] [] (<[1%N := 3]> ∅) []) = Some (Ok batch_empty, step1.2).
Proof. vm_compute. reflexivity. Qed.

(** With a prefix hit the scheduler asks for the tokens after the cached ones;
    the runner has computed none and feeds the first tokens of the prompt. *)
Example cached_prefix_computes_wrong_tokens :
  entry_of demo_runner (demo_sched_out [1%N] [] (<[1%N := 1]> ∅) []) 1%N
  = Some (mkEntry 1 [1]%N 0 [0; 3] true).
Proof. vm_compute. reflexivity. Qed.

(** With draft tokens the metadata counts one query token where the batch has
    three. *)
Example drafts_break_query_counts :
  let r := set_speculative_drafts demo_runner 2%N [7; 8]%N in
  let b := match build_tensors r (demo_sched_out [] [2%N] (<[2%N := 3]> ∅) []) with Some (Ok b, _) => b | _ => batch_empty end in
  ib_tokens_per_seq b = [3] ∧ q_lens (default AttentionMetadata.new (build_attention_metadata b)) = [1].
Proof. vm_compute. split; reflexivity. Qed.
