(* ===== verification/WorkerStep.v ===== *)
(** * One step of the worker over the paged cache

    The model runner's batch, its slot mapping and its attention metadata, run
    through the reference backend: the keys and values of the new tokens are
    written at their slots and attention reads them back through the pages.
    The definitions are those of [ModelRunner] and [CpuRef]; this file composes
    them (rllm-worker/src/model_runner.rs with
    rllm-kernels/src/backend/cpu_ref.rs). *)
From S2P Require Import Prelude F32 CoreTypes FreeQueue KvLayout AttentionMeta CpuRef ModelRunner.

(** The layer after a write. *)
Definition written (kv : HostKvLayer) (c : list f32 * list f32) : HostKvLayer :=
  mkHostKvLayer c.1 c.2 (kv_layout_ kv) (kv_num_blocks kv) (kv_block_size kv) (kv_num_kv_heads kv) (kv_head_dim kv)
    (kv_k_scale kv) (kv_v_scale kv).

(** The first token of entry [i] in the flat batch. *)
Definition token_index (es : list Entry) (i : nat) : nat := sum_list (take i (e_count <$> es)).

(** No slot that the step writes belongs to another position of any sequence of
    the batch. *)
Definition exclusive (bs : nat) (es : list Entry) : Prop := ∀ i i' e e' p p' b,
  es !! i = Some e → es !! i' = Some e' → e_start e ≤ p < e_len e → p' < e_len e' →
  e_table e !! (p / bs) = Some b → e_table e' !! (p' / bs) = Some b → p mod bs = p' mod bs → i = i' ∧ p = p'.

(** ** Slots *)

Lemma concat_index {A} (ls : list (list A)) k :
  k < length (concat ls) → ∃ i l j, ls !! i = Some l ∧ j < length l ∧ k = sum_list (length <$> take i ls) + j.
Proof.
  revert k. induction ls as [|l ls IH]; intros k Hk; simpl in *; [lia |]. rewrite length_app in Hk.
  destruct (decide (k < length l)) as [Hlt|Hge].
  - exists 0, l, k. by split_and!.
  - destruct (IH (k - length l) ltac:(lia)) as (i & m & j & Hi & Hj & E). exists (S i), m, j. split_and!; [done | done |]. change (sum_list (length <$> take (S i) (l :: ls))) with (length l + sum_list (length <$> take i ls)). lia.
Qed.

Lemma last_writer_Some slots target : ∀ token t,
  last_writer token slots target = Some t → token ≤ t ∧ slots !! (t - token) = Some (Z.of_nat target).
Proof.
  induction slots as [|s slots IH]; intros token t Hl; simpl in *; [done |].
  destruct (last_writer (S token) slots target) as [t'|] eqn:E.
  - simplify_eq. destruct (IH _ _ E) as [Hle Hlk]. split; [lia |].
    replace (t - token) with (S (t - S token)) by lia. done.
  - case_decide; [| done]. simplify_eq. rewrite Nat.sub_diag. by split.
Qed.

Lemma last_writer_None slots target : ∀ token, last_writer token slots target = None → ∀ j, slots !! j ≠ Some (Z.of_nat target).
Proof.
  induction slots as [|s slots IH]; intros token Hl j; simpl in *; [done |].
  destruct (last_writer (S token) slots target) as [t'|] eqn:E; [done |]. case_decide; [done |].
  destruct j as [|j]; simpl; [congruence | by apply (IH (S token))].
Qed.

Section step.
Context (bs : nat) (es : list Entry).
Context (Hpos : 0 < bs) (Hbs : (Z.of_nat bs <= i32_max)%Z) (Ht : tables_cover bs es).

Lemma e_slots_length e : length (e_slots bs e) = e_count e.
Proof. unfold e_slots, e_positions. by rewrite !length_fmap, length_seq. Qed.

Lemma slot_lengths : length <$> (e_slots bs <$> es) = e_count <$> es.
Proof. rewrite <- list_fmap_compose. apply list_fmap_ext. intros i e _. apply e_slots_length. Qed.

Lemma slots_total : length (concat (e_slots bs <$> es)) = sum_list (e_count <$> es).
Proof.
  rewrite <- slot_lengths. induction (e_slots bs <$> es) as [|l ls IH]; simpl; [done |].
  rewrite length_app. f_equal. exact IH.
Qed.

(** The block of a position of an entry. *)
Lemma entry_block e p : e ∈ es → p < e_len e → ∃ b, e_table e !! (p / bs) = Some b ∧ (Z.of_nat b <= i32_max)%Z.
Proof using Hpos Ht.
  intros He Hp. destruct (lookup_lt_is_Some_2 (e_table e) (p / bs)) as [b Hb].
  - pose proof (tc_cover _ _ Ht e He). pose proof (cdiv_bounds (e_len e) bs Hpos).
    assert (p / bs < cdiv (e_len e) bs) by (apply Nat.Div0.div_lt_upper_bound; nia). lia.
  - exists b. split; [done |]. apply (tc_blocks _ _ Ht e b He). by eapply list_elem_of_lookup_2.
Qed.

Lemma slot_of_position e p b :
  e_table e !! (p / bs) = Some b → (Z.of_nat b <= i32_max)%Z →
  slot_of (N.of_nat bs) (N.of_nat <$> e_table e) (N.of_nat p) = Z.of_nat (b * bs + p mod bs).
Proof using Hpos Hbs.
  intros Hb Hmax. unfold slot_of. rewrite <- Nat2N.inj_div, Nat2N.id, list_lookup_fmap, Hb. cbn [fmap option_fmap option_map].
  rewrite <- Nat2N.inj_mod, <- Nat2N.inj_mul, <- Nat2N.inj_add, !nat_N_Z.
  pose proof (Nat.mod_upper_bound p bs ltac:(lia)). unfold i32_max, i64_max in *.
  assert (Z.of_nat (b * bs) <= 2147483647 * 2147483647)%Z by (rewrite Nat2Z.inj_mul; nia).
  rewrite !(proj2 (Z.leb_le _ _)) by lia. done.
Qed.

(** Token [j] of entry [i] in the slot mapping. *)
Lemma slot_lookup i e j b :
  es !! i = Some e → j < e_count e → e_table e !! ((e_start e + j) / bs) = Some b →
  concat (e_slots bs <$> es) !! (token_index es i + j) = Some (Z.of_nat (b * bs + (e_start e + j) mod bs)).
Proof using Hpos Hbs Ht.
  intros He Hj Hb. unfold token_index. rewrite <- slot_lengths, <- fmap_take.
  rewrite (concat_lookup_segment _ i (e_slots bs e)); [| by rewrite list_lookup_fmap, He | by rewrite e_slots_length].
  unfold e_slots, e_positions. rewrite !list_lookup_fmap, lookup_seq_lt by done. simpl. f_equal.
  apply slot_of_position; [done |]. apply (tc_blocks _ _ Ht e); by eapply list_elem_of_lookup_2.
Qed.

(** Every slot of the mapping is that of a written position. *)
Lemma slot_inv t z :
  concat (e_slots bs <$> es) !! t = Some z →
  ∃ i e j b, es !! i = Some e ∧ j < e_count e ∧ e_table e !! ((e_start e + j) / bs) = Some b
    ∧ t = token_index es i + j ∧ z = Z.of_nat (b * bs + (e_start e + j) mod bs).
Proof using Hpos Hbs Ht.
  intros Hz. destruct (concat_index _ t (lookup_lt_Some _ _ _ Hz)) as (i & l & j & Hl & Hj & Et).
  rewrite list_lookup_fmap in Hl. destruct (es !! i) as [e|] eqn:Ee; [| done]. simpl in Hl. injection Hl as <-.
  rewrite e_slots_length in Hj.
  destruct (entry_block e (e_start e + j)) as (b & Hb & _); [by eapply list_elem_of_lookup_2 | unfold e_len; lia |].
  exists i, e, j, b. rewrite fmap_take, slot_lengths in Et. split_and!; try done.
  pose proof (slot_lookup i e j b Ee Hj Hb) as Hs. unfold token_index in Hs. rewrite <- Et, Hz in Hs. by injection Hs.
Qed.

Lemma same_slot b b' o o' : o < bs → o' < bs → Z.of_nat (b * bs + o) = Z.of_nat (b' * bs + o') → b = b' ∧ o = o'.
Proof. intros H1 H2 E. apply (radix_inj b o b' o' bs); [done | done | by apply Nat2Z.inj]. Qed.

(** Who writes the slot of a position of the batch. *)
Lemma writer_of i e p b : exclusive bs es → es !! i = Some e → p < e_len e → e_table e !! (p / bs) = Some b →
  last_writer 0 (concat (e_slots bs <$> es)) (b * bs + p mod bs)
  = if decide (e_start e ≤ p) then Some (token_index es i + (p - e_start e)) else None.
Proof using Hpos Hbs Ht.
  intros Hex He Hp Hb. pose proof (Nat.mod_upper_bound p bs ltac:(lia)) as Hm.
  destruct (last_writer _ _ _) as [t|] eqn:El.
  - apply last_writer_Some in El as [_ El]. rewrite Nat.sub_0_r in El.
    apply slot_inv in El as (i' & e' & j & b' & He' & Hj & Hb' & -> & Ez).
    pose proof (Nat.mod_upper_bound (e_start e' + j) bs ltac:(lia)).
    apply same_slot in Ez as [<- Eo]; [| done | done].
    destruct (Hex i' i e' e (e_start e' + j) p b) as [-> <-]; [done.. | unfold e_len; lia | done | done | done | done |].
    simplify_eq. rewrite decide_True by lia. do 2 f_equal. lia.
  - case_decide as Hd; [| done]. exfalso.
    apply (last_writer_None _ _ _ El (token_index es i + (p - e_start e))).
    rewrite (slot_lookup i e _ b He); [do 2 f_equal; f_equal; f_equal; lia | unfold e_len in Hp; lia |].
    by replace (e_start e + (p - e_start e)) with p by lia.
Qed.
End step.

(** ** The step *)
Section attention.
Context (expf tanhf : f64 → f64) (spec : AttnSpec) (kv : HostKvLayer) (es : list Entry).
Context (q k v : list f32) (K V : nat → nat → nat → nat → f64).
#[local] Notation bs := (kv_block_size kv).
#[local] Notation nkv := (kv_num_kv_heads kv).
#[local] Notation hd := (kv_head_dim kv).
#[local] Notation row := (nkv * hd).

(** The history of entry [i] after the step: the old one up to the entry's
    start, then the rows of its tokens. *)
Definition extend (new : list f32) (scale : f32) (old : nat → nat → nat → nat → f64) (i p h d : nat) : f64 :=
  if p <? from_option e_start 0 (es !! i) then old i p h d
  else F64.mul (F64.of_f32 (default F32.zero
         (new !! ((token_index es i + (p - from_option e_start 0 (es !! i))) * row + h * hd + d)))) (F64.of_f32 scale).

Record step_input : Prop := {
  st_block_size : as_block_size spec = bs;
  st_heads : as_num_kv_heads spec = nkv;
  st_dim : as_head_dim spec = hd;
  st_kv_heads : 0 < nkv;
  st_gqa : as_num_q_heads spec mod nkv = 0;
  st_k_size : length (kv_k kv) = kv_num_blocks kv * bs * nkv * hd;
  st_v_size : length (kv_v kv) = length (kv_k kv);
  st_pos : 0 < bs;
  st_bs : (Z.of_nat bs <= i32_max)%Z;
  st_tables : tables_cover bs es;
  st_fit : entries_fit es;
  st_order : prefill_first es;
  st_drafts : no_drafts es;
  st_tokens : (Z.of_nat (sum_list (e_count <$> es)) <= i32_max)%Z;
  st_pages : (Z.of_nat (sum_list ((λ e, cdiv (e_len e) bs) <$> es)) <= i32_max)%Z;
  st_blocks : ∀ e b, e ∈ es → b ∈ e_table e → b < kv_num_blocks kv;
  st_exclusive : exclusive bs es;
  st_k : length k = sum_list (e_count <$> es) * row;
  st_v : length v = length k;
  st_q : length q = sum_list (e_count <$> es) * as_num_q_heads spec * hd;
  st_history : ∀ i e, es !! i = Some e → cache_holds kv (table_i32 e) (e_start e) (K i) (V i);
}.

Context (Hin : step_input).

Lemma slots_length : length (concat (e_slots bs <$> es)) = sum_list (e_count <$> es).
Proof. apply slots_total. Qed.

Lemma read_cell c b s h d x y :
  cell (kv_layout_ kv) bs nkv hd c b s h d = (Some x, Some y) →
  read_kv (written kv c) (kv_k (written kv c)) (kv_k_scale kv) (b, s) h d = Some (F64.mul (F64.of_f32 x) (F64.of_f32 (kv_k_scale kv)))
  ∧ read_kv (written kv c) (kv_v (written kv c)) (kv_v_scale kv) (b, s) h d = Some (F64.mul (F64.of_f32 y) (F64.of_f32 (kv_v_scale kv))).
Proof. unfold cell, read_kv. cbn. intros [= E1 E2]. by rewrite E1, E2. Qed.

Lemma read_old c b s h d : cell (kv_layout_ kv) bs nkv hd c b s h d = cell (kv_layout_ kv) bs nkv hd (kv_k kv, kv_v kv) b s h d →
  read_kv (written kv c) (kv_k (written kv c)) (kv_k_scale kv) (b, s) h d = read_kv kv (kv_k kv) (kv_k_scale kv) (b, s) h d
  ∧ read_kv (written kv c) (kv_v (written kv c)) (kv_v_scale kv) (b, s) h d = read_kv kv (kv_v kv) (kv_v_scale kv) (b, s) h d.
Proof. unfold cell, read_kv. cbn. intros [= E1 E2]. by rewrite E1, E2. Qed.

(** The token of a position that the step writes lies in the new rows. *)
Lemma token_bound i e j : es !! i = Some e → j < e_count e → token_index es i + j < sum_list (e_count <$> es).
Proof.
  intros He Hj. assert (Hc : (e_count <$> es) !! i = Some (e_count e)) by (by rewrite list_lookup_fmap, He).
  pose proof (sum_list_take_le (e_count <$> es) (S i)) as Hle. rewrite (take_S_r _ _ _ Hc), sum_list_snoc in Hle.
  unfold token_index. lia.
Qed.

Lemma write_step :
  ∃ c', write_kv_host (kv_layout_ kv) bs nkv hd k v (kv_k kv) (kv_v kv) (concat (e_slots bs <$> es)) = Some c'
    ∧ sized bs nkv hd (kv_num_blocks kv) c'
    ∧ ∀ b s h d, in_range (kv_num_blocks kv) bs nkv hd b s h d →
        cell (kv_layout_ kv) bs nkv hd c' b s h d
        = match last_writer 0 (concat (e_slots bs <$> es)) (b * bs + s) with
          | Some t => (k !! (t * row + h * hd + d), v !! (t * row + h * hd + d))
          | None => cell (kv_layout_ kv) bs nkv hd (kv_k kv, kv_v kv) b s h d
          end.
Proof using Hin.
  unfold write_kv_host. pose proof (st_pos Hin). destruct (Nat.eqb_spec bs 0); [lia |].
  rewrite (st_v Hin), (st_k Hin), slots_length, Nat.eqb_refl. cbn [negb].
  apply write_tokens_spec; [done | | rewrite slots_length, (st_k Hin); lia | exact (st_v Hin)].
  split; cbn [fst snd]; [exact (st_k_size Hin) | rewrite (st_v_size Hin); exact (st_k_size Hin)].
Qed.

(** The new history of the sequences of the batch. *)
Lemma history_extended c' i e :
  (∀ b s h d, in_range (kv_num_blocks kv) bs nkv hd b s h d →
     cell (kv_layout_ kv) bs nkv hd c' b s h d
     = match last_writer 0 (concat (e_slots bs <$> es)) (b * bs + s) with
       | Some t => (k !! (t * row + h * hd + d), v !! (t * row + h * hd + d))
       | None => cell (kv_layout_ kv) bs nkv hd (kv_k kv, kv_v kv) b s h d
       end) →
  es !! i = Some e →
  cache_holds (written kv c') (table_i32 e) (e_len e) (extend k (kv_k_scale kv) K i) (extend v (kv_v_scale kv) V i).
Proof using Hin.
  intros Hcell He p h d Hp Hh Hd. cbn [written kv_block_size kv_num_kv_heads kv_head_dim kv_k_scale kv_v_scale] in *.
  pose proof (list_elem_of_lookup_2 _ _ _ He) as Hel. pose proof (st_pos Hin) as Hpos.
  destruct (entry_block bs es Hpos (st_tables Hin) e p Hel Hp) as (b & Hb & Hmax).
  assert (Hbn : b < kv_num_blocks kv) by (apply (st_blocks Hin e); [done | by eapply list_elem_of_lookup_2]).
  pose proof (Nat.mod_upper_bound p bs ltac:(lia)) as Hm.
  specialize (Hcell b (p mod bs) h d ltac:(by split_and!)).
  rewrite (writer_of bs es Hpos (st_bs Hin) (st_tables Hin) i e p b (st_exclusive Hin) He Hp Hb) in Hcell.
  exists (Z.of_nat b). unfold table_i32. rewrite list_lookup_fmap, Hb, Nat2Z.id. split; [done |]. split; [lia |].
  unfold extend. rewrite He. cbn [from_option]. case_decide as Hs.
  - rewrite (proj2 (Nat.ltb_ge _ _)) by done.
    set (src := (token_index es i + (p - e_start e)) * row + h * hd + d) in *.
    assert (Hsrc : src < length k).
    { rewrite (st_k Hin). pose proof (token_bound i e (p - e_start e) He ltac:(unfold e_len in Hp; lia)).
      subst src. assert (h * hd + d < row) by nia. nia. }
    destruct (lookup_lt_is_Some_2 k src Hsrc) as [x Hx].
    destruct (lookup_lt_is_Some_2 v src ltac:(rewrite (st_v Hin); done)) as [y Hy].
    rewrite Hx, Hy in Hcell |- *. by apply read_cell.
  - rewrite (proj2 (Nat.ltb_lt _ _)) by lia.
    destruct (read_old c' b (p mod bs) h d Hcell) as [-> ->].
    destruct (st_history Hin i e He p h d ltac:(lia) Hh Hd) as (b' & Eb & _ & HK & HV).
    unfold table_i32 in Eb. rewrite list_lookup_fmap, Hb in Eb. injection Eb as <-. by rewrite Nat2Z.id in HK, HV.
Qed.

(** Sequences whose slots the step does not write keep their history. *)
Lemma history_kept c' table len K' V' :
  (∀ b s h d, in_range (kv_num_blocks kv) bs nkv hd b s h d →
     cell (kv_layout_ kv) bs nkv hd c' b s h d
     = match last_writer 0 (concat (e_slots bs <$> es)) (b * bs + s) with
       | Some t => (k !! (t * row + h * hd + d), v !! (t * row + h * hd + d))
       | None => cell (kv_layout_ kv) bs nkv hd (kv_k kv, kv_v kv) b s h d
       end) →
  (∀ p b, p < len → table !! (p / bs) = Some (Z.of_nat b) → b < kv_num_blocks kv
     ∧ Z.of_nat (b * bs + p mod bs) ∉ concat (e_slots bs <$> es)) →
  cache_holds kv table len K' V' → cache_holds (written kv c') table len K' V'.
Proof using Hin.
  intros Hcell Hfree Hold p h d Hp Hh Hd. pose proof (st_pos Hin).
  destruct (Hold p h d Hp Hh Hd) as (b & Eb & Hb & HK & HV). exists b.
  cbn [written kv_block_size kv_k_scale kv_v_scale]. split; [done |]. split; [done |].
  destruct (Hfree p (Z.to_nat b) Hp ltac:(rewrite Z2Nat.id by lia; done)) as [Hbn Hns].
  specialize (Hcell (Z.to_nat b) (p mod bs) h d ltac:(split_and!; [done | apply Nat.mod_upper_bound; lia | done | done])).
  destruct (last_writer _ _ _) as [t|] eqn:El.
  { apply last_writer_Some in El as [_ El]. destruct Hns. by eapply list_elem_of_lookup_2. }
  destruct (read_old c' _ _ h d Hcell) as [-> ->]. done.
Qed.

Lemma total_tokens_metadata m : metadata_of bs es m → total_tokens m = sum_list (e_count <$> es).
Proof.
  intros Hm. unfold total_tokens. rewrite (mo_starts _ _ _ Hm), <- list_fmap_compose.
  rewrite last_lookup, length_fmap, psums_length, length_fmap. cbn [pred].
  rewrite list_lookup_fmap, psums_lookup by (by rewrite length_fmap). rewrite take_ge by (by rewrite length_fmap).
  simpl. by rewrite Nat2N.id.
Qed.
End attention.

(** C2. One step of the worker computes attention over the whole history.  Take a
    batch of entries with covering block tables, prefills first and no drafts,
    whose written slots belong to nothing else, and a cache that holds the
    history of every entry up to its start.  Then the attention metadata of the
    batch is accepted, writing the rows of the new tokens at the batch's slots
    succeeds, the cache then holds every history extended by the new rows, in
    any layout, and keeps the history of every sequence whose slots are not
    written; and the output of every token is, bit for bit, dense causal
    attention over the extended history at the token's absolute position.
    Hence chunked prefills and decode steps over pages compute what attention
    over the contiguous sequence would. *)
Theorem worker_step_attention expf tanhf spec kv es q k v K V
    (Hin : step_input spec kv es q k v K V) :
  let bs := kv_block_size kv in
  ∃ m sm c' out, build_attention_metadata (batch_of bs es) = Some m
    ∧ StepMetadata.from_attention_metadata m bs = Some (Ok sm)
    ∧ write_kv_host (kv_layout_ kv) bs (kv_num_kv_heads kv) (kv_head_dim kv) k v (kv_k kv) (kv_v kv)
        (ib_slot_mappings (batch_of bs es)) = Some c'
    ∧ run_host expf tanhf q (written kv c') sm spec = Some out
    ∧ (∀ i e, es !! i = Some e →
         cache_holds (written kv c') (table_i32 e) (e_len e) (extend kv es k (kv_k_scale kv) K i) (extend kv es v (kv_v_scale kv) V i))
    ∧ (∀ table len K' V',
         (∀ p b, p < len → table !! (p / bs) = Some (Z.of_nat b) → b < kv_num_blocks kv
            ∧ Z.of_nat (b * bs + p mod bs) ∉ ib_slot_mappings (batch_of bs es)) →
         cache_holds kv table len K' V' → cache_holds (written kv c') table len K' V')
    ∧ ∀ i e j h d, es !! i = Some e → j < e_count e → h < as_num_q_heads spec → d < as_head_dim spec →
        out !! (((token_index es i + j) * as_num_q_heads spec + h) * as_head_dim spec + d)
        = Some (dense_out expf tanhf spec (query_row spec q (token_index es i + j) h)
                  (extend kv es k (kv_k_scale kv) K i) (extend kv es v (kv_v_scale kv) V i) (e_start e + j)
                  (h / (as_num_q_heads spec / kv_num_kv_heads kv)) d).
Proof.
  cbv zeta. pose proof (st_pos _ _ _ _ _ _ _ _ Hin) as Hpos. pose proof (st_tokens _ _ _ _ _ _ _ _ Hin) as Htok.
  set (bs := kv_block_size kv) in *.
  destruct (build_attention_metadata_spec bs es (st_tables _ _ _ _ _ _ _ _ Hin) (st_fit _ _ _ _ _ _ _ _ Hin)
    (st_order _ _ _ _ _ _ _ _ Hin) (st_drafts _ _ _ _ _ _ _ _ Hin)) as (m & Em & Hm).
  { unfold u32_max, i32_max in *. lia. }
  pose proof (metadata_well_formed bs es m Hpos (st_tables _ _ _ _ _ _ _ _ Hin) Hm) as Hwf.
  assert (Hpages : (Z.of_nat (sum_list (pages_of bs <$> (N.to_nat <$> am_seq_lens m))) <= i32_max)%Z).
  { rewrite (mo_lens _ _ _ Hm), <- !list_fmap_compose. erewrite list_fmap_ext; [exact (st_pages _ _ _ _ _ _ _ _ Hin) |].
    intros i e _. simpl. unfold pages_of. by rewrite Nat2N.id. }
  destruct (from_attention_metadata_spec m bs (st_bs _ _ _ _ _ _ _ _ Hin) Hpages) as (r & Er & Hr).
  destruct r as [sm|err]; [| done]. destruct Hr as [_ Hsm].
  destruct (write_step spec kv es q k v K V Hin) as (c' & Ec & Hsz & Hcell).
  pose proof (total_tokens_metadata kv es m Hm) as Htt.
  assert (Hatt : attention_input spec q (written kv c') m sm (extend kv es k (kv_k_scale kv) K) (extend kv es v (kv_v_scale kv) V)).
  { split; rewrite ?Htt; try exact Hwf; try exact Hsm; try apply Hin.
    - rewrite used_pages_lengths by exact Hwf. exact Hpages.
    - rewrite (st_dim _ _ _ _ _ _ _ _ Hin). apply Hin.
    - intros i len row Hl Hrow. rewrite (mo_lens _ _ _ Hm) in Hl. rewrite (mo_tables _ _ _ Hm) in Hrow.
      rewrite !list_lookup_fmap in Hl. rewrite list_lookup_fmap in Hrow.
      destruct (es !! i) as [e|] eqn:Ee; [| done]. simpl in *. rewrite Nat2N.id in Hl. simplify_eq.
      by apply (history_extended spec kv es q k v K V Hin c' i e Hcell). }
  destruct (run_host_spec expf tanhf spec q (written kv c') m sm _ _ Hatt) as (out & Eo & _ & Hdone).
  exists m, sm, c', out. split_and!; try done.
  - intros i e He. by apply (history_extended spec kv es q k v K V Hin c' i e Hcell).
  - intros table len K' V' Hfree Hold. by apply (history_kept spec kv es q k v K V Hin c' table len K' V' Hcell Hfree Hold).
  - intros i e j h d He Hj Hh Hd.
    assert (Hlen : length (am_seq_lens m) = length es) by (rewrite (mo_lens _ _ _ Hm); apply length_fmap).
    pose proof (lookup_lt_Some _ _ _ He) as Hi.
    assert (E := Hdone i ltac:(unfold AttentionMetadata.num_seqs; lia) (token_index es i) (e_count e) (e_len e) j).
    replace (e_start e + j) with (e_len e - e_count e + j) by (unfold e_len; lia).
    apply E; [| | | done | done | done].
    + rewrite (mo_starts _ _ _ Hm), <- list_fmap_compose, list_lookup_fmap, psums_lookup by (rewrite length_fmap; lia).
      simpl. by rewrite Nat2N.id.
    + by rewrite (metadata_q_lens _ _ _ Hm), list_lookup_fmap, He.
    + rewrite (mo_lens _ _ _ Hm), <- list_fmap_compose, list_lookup_fmap, He. simpl. by rewrite Nat2N.id.
Qed.

(** Tables without a common block are exclusive: what the scheduler's tables are
    when no prefix is shared. *)
Lemma disjoint_exclusive bs es : 0 < bs → NoDup (concat (e_table <$> es)) → exclusive bs es.
Proof.
  intros Hpos Hnd i i' e e' p p' b He He' _ _ Hb Hb' Hm.
  assert (Hl : (e_table <$> es) !! i = Some (e_table e)) by (by rewrite list_lookup_fmap, He).
  assert (Hl' : (e_table <$> es) !! i' = Some (e_table e')) by (by rewrite list_lookup_fmap, He').
  pose proof (concat_lookup_segment _ _ _ (p / bs) Hl (lookup_lt_Some _ _ _ Hb)) as E.
  pose proof (concat_lookup_segment _ _ _ (p' / bs) Hl' (lookup_lt_Some _ _ _ Hb')) as E'.
  rewrite Hb in E. rewrite Hb' in E'. pose proof (NoDup_lookup _ _ _ _ Hnd E E') as Eq.
  assert (i = i' ∧ p / bs = p' / bs) as [-> Ep].
  { apply lookup_lt_Some in Hb, Hb'.
    set (S_ := λ j, sum_list (length <$> take j (e_table <$> es))) in *.
    assert (Hmono : ∀ j l, (e_table <$> es) !! j = Some l → S_ (S j) = S_ j + length l).
    { intros j l Hj. unfold S_. by rewrite (take_S_r _ _ _ Hj), fmap_app, sum_list_app; simpl; rewrite Nat.add_0_r. }
    assert (Hle : ∀ j1 j2, j1 ≤ j2 → S_ j1 ≤ S_ j2).
    { intros j1 j2 Hj. unfold S_. rewrite <- (Nat.min_l j1 j2 Hj) at 1. rewrite <- take_take, fmap_take. apply sum_list_take_le. }
    destruct (lt_eq_lt_dec i i') as [[Hlt| ->]|Hgt].
    - specialize (Hle (S i) i' ltac:(lia)). rewrite (Hmono _ _ Hl) in Hle. fold (S_ i) (S_ i') in Eq. lia.
    - split; [done | lia].
    - specialize (Hle (S i') i ltac:(lia)). rewrite (Hmono _ _ Hl') in Hle. fold (S_ i) (S_ i') in Eq. lia. }
  split; [done |]. pose proof (Nat.div_mod_eq p bs). pose proof (Nat.div_mod_eq p' bs). lia.
Qed.

(** ** Example: the prefill of two tokens and one decode token *)
Definition step_kv : HostKvLayer :=
  let c := F32.of_Z <$> [5; 6; 0; 0; 1; 2; 3; 4; 0; 0; 0; 0]%Z in mkHostKvLayer c c Hnd 3 2 1 2 F32.one F32.one.
Definition step_entries : list Entry := [mkEntry 1 [8; 9]%N 0 [2] true; mkEntry 2 [7]%N 3 [1; 0] false].
Definition step_rows : list f32 := F32.of_Z <$> [1; 1; 2; 2; 3; 3]%Z.

Lemma step_history : cache_holds step_kv [1; 0]%Z 3 (demo_history 0) (demo_history 0).
Proof.
  intros p h d Hp Hh Hd. change (h < 1) in Hh. change (d < 2) in Hd. assert (h = 0) as -> by lia.
  destruct p as [|[|[|p]]]; [.. | lia]; (destruct d as [|[|d]]; [.. | lia]);
    eexists; (split; [reflexivity | split; [unfold i32_max; lia | split; vm_compute; reflexivity]]).
Qed.

Lemma step_entries_all (P : Entry → Prop) :
  P (mkEntry 1 [8; 9]%N 0 [2] true) → P (mkEntry 2 [7]%N 3 [1; 0] false) → ∀ e, e ∈ step_entries → P e.
Proof. intros H1 H2 e [->|[->|[]%not_elem_of_nil]%elem_of_cons]%elem_of_cons; done. Qed.

Lemma step_input_ok : step_input demo_attn_spec step_kv step_entries step_rows step_rows step_rows demo_history demo_history.
Proof.
  assert (Hblk : ∀ e, e ∈ step_entries → ∀ b, b ∈ e_table e → b < 3).
  { apply (step_entries_all (λ e, ∀ b, b ∈ e_table e → b < 3)); simpl; intros b Hb; repeat (apply elem_of_cons in Hb as [->|Hb]; [lia |]); by apply not_elem_of_nil in Hb. }
  split.
  1-3, 5-7: reflexivity.
  - simpl. lia.
  - simpl. lia.
  - vm_compute. congruence.
  - split.
    + intros e b He Hb. specialize (Hblk e He b Hb). unfold i32_max. lia.
    + apply (step_entries_all (λ e, cdiv (e_len e) 2 ≤ length (e_table e))); vm_compute; lia.
  - unfold entries_fit. apply (step_entries_all (λ e, (N.of_nat (e_len e) <= u32_max)%N)); vm_compute; congruence.
  - exists [mkEntry 1 [8; 9]%N 0 [2] true], [mkEntry 2 [7]%N 3 [1; 0] false]. by repeat constructor.
  - unfold no_drafts. apply (step_entries_all (λ e, e_prefill e = false → e_count e = 1)); done.
  - vm_compute. congruence.
  - vm_compute. congruence.
  - intros e b He Hb. by apply (Hblk e).
  - apply disjoint_exclusive; [simpl; lia |]. apply (bool_decide_unpack _). vm_compute. exact I.
  - reflexivity.
  - reflexivity.
  - reflexivity.
  - intros [|[|i]] e He; [| | done]; injection He as <-.
    + intros p h d Hp. simpl in Hp. lia.
    + exact step_history.
Qed.

Lemma worker_step_attention_witness :
  ∃ sm c' out, write_kv_host Hnd 2 1 2 step_rows step_rows (kv_k step_kv) (kv_v step_kv) [4; 5; 1]%Z = Some c'
    ∧ run_host demo_fn demo_fn step_rows (written step_kv c') sm demo_attn_spec = Some out
    ∧ out !! 4 = Some (F32.of_Z 5) ∧ out !! 2 = Some (F32.of_Z 2).
Proof.
  destruct (worker_step_attention demo_fn demo_fn demo_attn_spec step_kv step_entries step_rows step_rows step_rows
    demo_history demo_history step_input_ok) as (m & sm & c' & out & _ & _ & Ec & Eo & _ & _ & Hout).
  exists sm, c', out. split; [exact Ec |]. split; [exact Eo |]. split.
  - refine (eq_trans (Hout 1 _ 0 0 0 eq_refl _ _ _) _); [vm_compute; lia | simpl; lia | simpl; lia | vm_compute; reflexivity].
  - refine (eq_trans (Hout 0 _ 1 0 0 eq_refl _ _ _) _); [vm_compute; lia | simpl; lia | simpl; lia | vm_compute; reflexivity].
Defined.
