(* ===== verification/Speculative.v ===== *)
(** * Speculative decoding (rllm-sampling/src/speculative.rs)

    The n-gram proposer and the check of a draft against the target's tokens.
    The two other proposers are placeholders that propose nothing. *)
From S2P Require Import Prelude CoreTypes.

Record DraftProposal : Type := mkDraft { dp_token_ids : list TokenId }.

Definition draft_empty : DraftProposal := mkDraft [].

(** The trait of the proposers. *)
Class SpeculativeProposer (P : Type) : Type := propose : P → list TokenId → nat → DraftProposal.

Record NGramProposer : Type := mkNGram {
  min_ngram : nat;
  max_ngram : nat;
}.

(** The constructor asserts its arguments. *)
Definition ngram_new (min_ngram max_ngram : nat) : option NGramProposer :=
  if (0 <? min_ngram) && (min_ngram <=? max_ngram) then Some (mkNGram min_ngram max_ngram) else None.

Definition ngram_default : option NGramProposer := ngram_new 2 4.

(** [a..b] reversed. *)
Definition rev_range (a b : nat) : list nat := reverse (seq a (b - a)).

(** The inner loop over the starts, the latest first. *)
Fixpoint scan_starts (ctx : list TokenId) (max_tokens n : nat) (starts : list nat) : option (list TokenId) :=
  match starts with
  | [] => None
  | start :: starts =>
      if bool_decide (take n (drop start ctx) = drop (length ctx - n) ctx) then
        let continuation_start := start + n in
        let continuation_end := Nat.min (continuation_start + max_tokens) (length ctx) in
        if continuation_start <? continuation_end
        then Some (take (continuation_end - continuation_start) (drop continuation_start ctx))
        else scan_starts ctx max_tokens n starts
      else scan_starts ctx max_tokens n starts
  end.

(** The outer loop over the n-gram lengths, the longest first. *)
Fixpoint scan_ngrams (ctx : list TokenId) (max_tokens : nat) (ns : list nat) : list TokenId :=
  match ns with
  | [] => []
  | n :: ns =>
      match scan_starts ctx max_tokens n (rev_range 0 (length ctx - n)) with
      | Some tokens => tokens
      | None => scan_ngrams ctx max_tokens ns
      end
  end.

#[global] Instance ngram_propose : SpeculativeProposer NGramProposer := λ p ctx max_tokens,
  if (max_tokens =? 0) || (length ctx <=? min_ngram p) then draft_empty
  else
    let max_n := Nat.min (max_ngram p) (length ctx - 1) in
    mkDraft (scan_ngrams ctx max_tokens (rev_range (min_ngram p) (S max_n))).

Record DraftModelProposer : Type := mkDraftModel {
  dm_model_id : string;
  dm_max_draft_tokens : nat;
}.
#[global] Instance draft_model_propose : SpeculativeProposer DraftModelProposer := λ _ _ _, draft_empty.

Inductive EagleProposer : Type := mkEagle.
#[global] Instance eagle_propose : SpeculativeProposer EagleProposer := λ _ _ _, draft_empty.

Fixpoint accept_matching_prefix (draft target : list TokenId) : list TokenId :=
  match draft, target with
  | a :: draft, b :: target => if (a =? b)%N then a :: accept_matching_prefix draft target else []
  | _, _ => []
  end.

Record SpeculativeState : Type := mkSpecState { ss_drafts : gmap N (list TokenId) }.
Definition set_draft (s : SpeculativeState) (key : N) (tokens : list TokenId) : SpeculativeState :=
  mkSpecState (<[key := tokens]> (ss_drafts s)).
Definition take_draft (s : SpeculativeState) (key : N) : option (list TokenId) * SpeculativeState :=
  (ss_drafts s !! key, mkSpecState (delete key (ss_drafts s))).

(** ** The proposal *)

(** The last [n] tokens occur earlier, at [start]. *)
Definition occurs_at (ctx : list TokenId) (n start : nat) : Prop :=
  start + n < length ctx ∧ take n (drop start ctx) = drop (length ctx - n) ctx.

(** What a match at [start] proposes. *)
Definition continuation (ctx : list TokenId) (max_tokens n start : nat) : list TokenId :=
  take max_tokens (drop (start + n) ctx).

Lemma elem_of_rev_range x a b : x ∈ rev_range a b ↔ a ≤ x < b.
Proof. unfold rev_range. rewrite elem_of_reverse, elem_of_seq. lia. Qed.

Lemma rev_range_snoc a b : a ≤ b → rev_range a (S b) = b :: rev_range a b.
Proof.
  intros H. unfold rev_range. replace (S b - a) with (S (b - a)) by lia.
  rewrite seq_S, reverse_snoc. f_equal. lia.
Qed.

Lemma scan_starts_spec ctx max_tokens n : 0 < max_tokens → n ≤ length ctx →
  ∀ k, k ≤ length ctx - n →
  match scan_starts ctx max_tokens n (rev_range 0 k) with
  | Some tokens => ∃ start, start < k ∧ occurs_at ctx n start ∧ tokens = continuation ctx max_tokens n start
      ∧ ∀ later, start < later < k → ¬ occurs_at ctx n later
  | None => ∀ start, start < k → ¬ occurs_at ctx n start
  end.
Proof.
  intros Hmax Hn. induction k as [|k IH]; intros Hk; [simpl; lia |].
  rewrite rev_range_snoc by lia. cbn [scan_starts]. specialize (IH ltac:(lia)). case_bool_decide as Heq.
  - rewrite (proj2 (Nat.ltb_lt _ _)) by lia. exists k. split_and!; [lia | split; [lia | done] | | lia].
    unfold continuation. destruct (decide (max_tokens ≤ length ctx - (k + n))) as [Hle|Hgt].
    + f_equal. lia.
    + rewrite !take_ge by (rewrite ?length_drop; lia). done.
  - destruct (scan_starts ctx max_tokens n (rev_range 0 k)) as [tokens|].
    + destruct IH as (start & Hs & Ho & Ht & Hl). exists start. split_and!; [lia | done | done |].
      intros later Hlater. destruct (decide (later = k)) as [->|]; [by intros [_ ?] | apply Hl; lia].
    + intros start Hs. destruct (decide (start = k)) as [->|]; [by intros [_ ?] | apply IH; lia].
Qed.

Lemma scan_ngrams_spec ctx max_tokens lo : 0 < max_tokens →
  ∀ hi, hi < length ctx →
  (∃ n start, lo ≤ n ≤ hi ∧ occurs_at ctx n start
     ∧ (∀ later, start < later → ¬ occurs_at ctx n later)
     ∧ (∀ m s, n < m ≤ hi → ¬ occurs_at ctx m s)
     ∧ scan_ngrams ctx max_tokens (rev_range lo (S hi)) = continuation ctx max_tokens n start)
  ∨ ((∀ n start, lo ≤ n ≤ hi → ¬ occurs_at ctx n start) ∧ scan_ngrams ctx max_tokens (rev_range lo (S hi)) = []).
Proof.
  intros Hmax. induction hi as [|hi IH]; intros Hhi.
  - destruct (decide (lo = 0)) as [->|].
    + rewrite rev_range_snoc by lia. cbn [scan_ngrams].
      pose proof (scan_starts_spec ctx max_tokens 0 Hmax ltac:(lia) (length ctx - 0) ltac:(lia)) as Hs.
      destruct (scan_starts _ _ _ _) as [tokens|].
      * left. destruct Hs as (start & Hst & Ho & -> & Hl). exists 0, start. split_and!; [lia | lia | done | | | done].
        -- intros later Hlt [H1 H2]. by apply (Hl later); [lia | split].
        -- intros; lia.
      * right. split; [| done]. intros n start Hn [H1 H2]. assert (n = 0) as -> by lia. apply (Hs start); [lia | done].
    + right. unfold rev_range. replace (1 - lo) with 0 by lia. split; [intros; lia | done].
  - destruct (decide (lo ≤ S hi)) as [Hlo|Hlo].
    2: { right. unfold rev_range. replace (S (S hi) - lo) with 0 by lia. split; [intros; lia | done]. }
    rewrite rev_range_snoc by lia. cbn [scan_ngrams].
    pose proof (scan_starts_spec ctx max_tokens (S hi) Hmax ltac:(lia) (length ctx - S hi) ltac:(lia)) as Hs.
    destruct (scan_starts _ _ _ _) as [tokens|].
    + left. destruct Hs as (start & Hst & Ho & -> & Hl). exists (S hi), start. split_and!; [lia | lia | done | | | done].
      * intros later Hlt [H1 H2]. by apply (Hl later); [lia | split].
      * intros; lia.
    + destruct (IH ltac:(lia)) as [(n & start & Hn & Ho & Hl & Hm & E)|[Hno E]].
      * left. exists n, start. split_and!; [lia | lia | done | done | | done].
        intros m s Hms. destruct (decide (m = S hi)) as [->|]; [| apply Hm; lia].
        intros [H1 H2]. by apply (Hs s); [lia |].
      * right. split; [| done]. intros n start Hn. destruct (decide (n = S hi)) as [->|]; [| apply Hno; lia].
        intros [H1 H2]. by apply (Hs start); [lia |].
Qed.

(** A draft is accepted up to its longest common prefix with the target. *)
Lemma accept_matching_prefix_spec draft : ∀ target,
  let k := length (accept_matching_prefix draft target) in
  accept_matching_prefix draft target = take k draft ∧ take k draft = take k target ∧ k ≤ length target
  ∧ (∀ a b, draft !! k = Some a → target !! k = Some b → a ≠ b).
Proof.
  cbv zeta. induction draft as [|a draft IH]; intros [|b target]; simpl; try by split_and!; try lia.
  destruct (N.eqb_spec a b) as [->|Hne]; simpl.
  - destruct (IH target) as (H1 & H2 & H3 & H4). split_and!; [by f_equal | by f_equal | lia | done].
  - split_and!; [done | done | lia |]. intros x y [= <-] [= <-]. done.
Qed.

(** The n-gram proposer.  A proposal is never longer than asked.  It is the
    continuation of the latest earlier occurrence of the longest suffix of the
    context, among the lengths from [min_ngram] to [max_ngram], that occurs
    earlier at all, and it is empty exactly when no such suffix does or nothing
    was asked; and a draft is accepted up to its longest common prefix with the
    target. *)
Theorem ngram_proposal_exact p ctx max_tokens :
  let draft := dp_token_ids (propose p ctx max_tokens) in
  let hi := Nat.min (max_ngram p) (length ctx - 1) in
  length draft ≤ max_tokens
  ∧ (draft = [] ↔ max_tokens = 0 ∨ ∀ n start, min_ngram p ≤ n ≤ hi → ¬ occurs_at ctx n start)
  ∧ (draft ≠ [] → ∃ n start, min_ngram p ≤ n ≤ hi ∧ occurs_at ctx n start
       ∧ (∀ later, start < later → ¬ occurs_at ctx n later) ∧ (∀ m s, n < m ≤ hi → ¬ occurs_at ctx m s)
       ∧ draft = continuation ctx max_tokens n start)
  ∧ ∀ target, let k := length (accept_matching_prefix draft target) in
      accept_matching_prefix draft target = take k draft ∧ take k draft = take k target ∧ k ≤ length target
      ∧ (∀ a b, draft !! k = Some a → target !! k = Some b → a ≠ b).
Proof.
  cbv zeta. set (hi := Nat.min (max_ngram p) (length ctx - 1)).
  enough (Hprop : length (dp_token_ids (propose p ctx max_tokens)) ≤ max_tokens
      ∧ (dp_token_ids (propose p ctx max_tokens) = []
         ↔ max_tokens = 0 ∨ ∀ n start, min_ngram p ≤ n ≤ hi → ¬ occurs_at ctx n start)
      ∧ (dp_token_ids (propose p ctx max_tokens) ≠ [] → ∃ n start, min_ngram p ≤ n ≤ hi ∧ occurs_at ctx n start
           ∧ (∀ later, start < later → ¬ occurs_at ctx n later) ∧ (∀ m s, n < m ≤ hi → ¬ occurs_at ctx m s)
           ∧ dp_token_ids (propose p ctx max_tokens) = continuation ctx max_tokens n start)).
  { destruct Hprop as (H1 & H2 & H3). split; [exact H1 |]. split; [exact H2 |]. split; [exact H3 |].
    intros target. apply accept_matching_prefix_spec. }
  unfold propose, ngram_propose. fold hi.
  destruct (Nat.eqb_spec max_tokens 0) as [->|Hmax].
  { cbn. split; [lia |]. split; [split; [by left | done] | done]. }
  destruct (Nat.leb_spec (length ctx) (min_ngram p)) as [Hlen|Hlen].
  { cbn. split; [lia |]. split; [| done].
    split; [| done]. intros _. right. intros n start Hn [H1 _]. lia. }
  cbn [orb dp_token_ids].
  destruct (scan_ngrams_spec ctx max_tokens (min_ngram p) ltac:(lia) hi ltac:(lia))
    as [(n & start & Hn & Ho & Hl & Hm & ->)|[Hno ->]].
  - split; [unfold continuation; rewrite length_take; lia |]. split; cycle 1.
    { intros _. exists n, start. split_and!; [lia | lia | done ..]. }
    { split; [| intros [?|Hnone]; [done | by destruct (Hnone n start Hn)]].
      unfold continuation. intros E. apply (f_equal length) in E. rewrite length_take, length_drop in E.
      destruct Ho as [? _]. simpl in E. lia. }
  - split; [simpl; lia |]. split; [split; [by right | done] | done].
Qed.

(** The latest occurrence wins, and the longest suffix before it. *)
Example propose_continuation :
  dp_token_ids (propose (mkNGram 2 3) [1; 2; 3; 4; 2; 3]%N 2) = [4; 2]%N
  ∧ accept_matching_prefix [1; 2; 3]%N [1; 2; 9]%N = [1; 2]%N.
Proof. split; vm_compute; reflexivity. Qed.

(** A request whose [min_ngram] is zero panics the proposer. *)
Example zero_min_ngram_panics : ngram_new 0 4 = None.
Proof. reflexivity. Qed.
