(* ===== verification/GpuCache.v ===== *)
(** * The device KV cache (rllm-kernels/src/cache_ops.rs, rllm-worker/src/calibration.rs)

    Allocation of the per-layer key and value tensors, their INT8 scales and the
    calibration of those, slots, and the two INT8 oracles.  The device's memory
    is a parameter: a state with the runtime's allocation, clearing and freeing
    calls. *)
From S2P Require Import Prelude F32 CoreTypes Executor FreeQueue KVSpec AttentionMeta ModelRunner.
#[local] Open Scope string_scope.
#[local] Open Scope list_scope.
#[local] Open Scope nat_scope.
#[local] Open Scope rllm_scope.

(** The runtime's calls; [live] is the set of pointers in use, which only the
    laws mention. *)
Class DeviceMemory (Mem Ptr : Type) : Type := {
  gpu_alloc : Mem → N → result Ptr Error * Mem;
  gpu_free : Mem → Ptr → Mem;
  cache_zero : Mem → Ptr → N → result unit Error * Mem;
}.
Arguments gpu_alloc {Mem Ptr _}.
Arguments gpu_free {Mem Ptr _}.
Arguments cache_zero {Mem Ptr _}.

Class LawfulMemory (Mem Ptr : Type) `{!DeviceMemory Mem Ptr, !EqDecision Ptr, !Countable Ptr} : Type := {
  live : Mem → gset Ptr;
  alloc_ok : ∀ m n p m', gpu_alloc m n = (Ok p, m') → p ∉ live m ∧ live m' = {[p]} ∪ live m;
  alloc_err : ∀ m n e m', gpu_alloc m n = (Err e, m') → live m' = live m;
  zero_live : ∀ m p n r m', cache_zero m p n = (r, m') → live m' = live m;
  free_live : ∀ m p, live (gpu_free m p) = live m ∖ {[p]};
}.

Section gpu_cache.
Context {Mem Ptr : Type} `{!DeviceMemory Mem Ptr}.

Record GpuKVCache : Type := mkGpuKVCache {
  gc_layer_ptrs : list (Ptr * Ptr);
  gc_layer_sizes : list (N * N);
  gc_num_blocks : nat;
  gc_num_kv_heads : nat;
  gc_head_dim : nat;
  gc_block_size : nat;
  gc_element_size : N;
  gc_dtype : DType;
  gc_k_scales : list f32;
  gc_v_scales : list f32;
}.

(** The allocations of the layers, in order; an error leaves the earlier ones
    allocated. *)
Fixpoint alloc_layers (m : Mem) (bytes : N) (n : nat) : result (list (Ptr * Ptr)) Error * Mem :=
  match n with
  | 0 => (Ok [], m)
  | S n =>
      match gpu_alloc m bytes with
      | (Err e, m) => (Err e, m)
      | (Ok key_ptr, m) =>
          match gpu_alloc m bytes with
          | (Err e, m) => (Err e, m)
          | (Ok value_ptr, m) =>
              match cache_zero m key_ptr bytes with
              | (Err e, m) => (Err e, m)
              | (Ok _, m) =>
                  match cache_zero m value_ptr bytes with
                  | (Err e, m) => (Err e, m)
                  | (Ok _, m) =>
                      match alloc_layers m bytes n with
                      | (Err e, m) => (Err e, m)
                      | (Ok ptrs, m) => (Ok ((key_ptr, value_ptr) :: ptrs), m)
                      end
                  end
              end
          end
      end
  end.

(** [GpuKVCache::new] of a build with CUDA; the byte count overflows to [None]. *)
Definition gpu_cache_new (m : Mem) (num_blocks num_layers num_kv_heads head_dim block_size : nat) (dtype : DType) :
    option (result GpuKVCache Error * Mem) :=
  let element_size := bytes_per_scalar dtype in
  bytes ← usize_product (N.of_nat num_blocks)
            [N.of_nat num_kv_heads; N.of_nat head_dim; N.of_nat block_size; element_size];
  Some match alloc_layers m bytes num_layers with
       | (Err e, m) => (Err e, m)
       | (Ok ptrs, m) =>
           (Ok (mkGpuKVCache ptrs (replicate num_layers (bytes, bytes)) num_blocks num_kv_heads head_dim block_size
                  element_size dtype (replicate num_layers F32.one) (replicate num_layers F32.one)), m)
       end.

Definition key_ptr (c : GpuKVCache) (layer : nat) : option Ptr := fst <$> gc_layer_ptrs c !! layer.
Definition value_ptr (c : GpuKVCache) (layer : nat) : option Ptr := snd <$> gc_layer_ptrs c !! layer.
Definition gpu_key_shape (c : GpuKVCache) : list nat := [gc_num_blocks c; gc_num_kv_heads c; gc_head_dim c; gc_block_size c].
Definition gpu_value_shape (c : GpuKVCache) : list nat := gpu_key_shape c.
Definition k_scale (c : GpuKVCache) (layer : nat) : option f32 := gc_k_scales c !! layer.
Definition v_scale (c : GpuKVCache) (layer : nat) : option f32 := gc_v_scales c !! layer.
Definition gpu_num_layers (c : GpuKVCache) : nat := length (gc_layer_ptrs c).
Definition total_bytes (c : GpuKVCache) : N := foldr (λ s t, s.1 + s.2 + t)%N 0%N (gc_layer_sizes c).

Definition with_scales (ks vs : list f32) (c : GpuKVCache) : GpuKVCache :=
  mkGpuKVCache (gc_layer_ptrs c) (gc_layer_sizes c) (gc_num_blocks c) (gc_num_kv_heads c) (gc_head_dim c)
    (gc_block_size c) (gc_element_size c) (gc_dtype c) ks vs.

Definition valid_scale (s : f32) : bool := F32.is_finite s && F32.gtb s F32.zero.

(** [l[i] = x] *)
Definition list_set (l : list f32) (i : nat) (x : f32) : option (list f32) :=
  if i <? length l then Some (<[i := x]> l) else None.

Definition set_kv_scales (c : GpuKVCache) (layer : nat) (k v : f32) : option GpuKVCache :=
  ks ← (if valid_scale k then list_set (gc_k_scales c) layer k else Some (gc_k_scales c));
  vs ← (if valid_scale v then list_set (gc_v_scales c) layer v else Some (gc_v_scales c));
  Some (with_scales ks vs c).

Fixpoint set_scales_loop (c : GpuKVCache) (i : nat) (l : list (f32 * f32)) : option GpuKVCache :=
  match l with
  | [] => Some c
  | (k, v) :: l => c ← set_kv_scales c i k v; set_scales_loop c (S i) l
  end.

Definition set_all_kv_scales (c : GpuKVCache) (ks vs : list f32) : option GpuKVCache :=
  if negb (length ks =? length (gc_k_scales c)) || negb (length vs =? length (gc_v_scales c)) then Some c
  else set_scales_loop c 0 (zip ks vs).

(** One slot: [(block_id as i64) * (block_size as i64) + (offset as i64)], with
    the overflow of [i64] a panic. *)
Definition i64_fits (z : Z) : bool := (- i64_max - 1 <=? z)%Z && (z <=? i64_max)%Z.
Definition as_i64 (x : nat) : Z := ((Z.of_nat x + 2 ^ 63) mod 2 ^ 64 - 2 ^ 63)%Z.
Definition compute_slot (c : GpuKVCache) (pos : BlockId * nat) : option Z :=
  let prod := (as_i64 pos.1 * as_i64 (gc_block_size c))%Z in
  if i64_fits prod && i64_fits (prod + as_i64 pos.2) then Some (prod + as_i64 pos.2)%Z else None.
Definition compute_slots (c : GpuKVCache) (positions : list (BlockId * nat)) : option (list Z) :=
  mapM (compute_slot c) positions.

(** [Drop] frees the tensors of every layer. *)
Definition gpu_cache_drop (m : Mem) (c : GpuKVCache) : Mem :=
  foldl (λ m p, gpu_free (gpu_free m p.1) p.2) m (gc_layer_ptrs c).

End gpu_cache.
Arguments GpuKVCache : clear implicits.

(** ** The INT8 oracles *)

Definition quantize_kv_i8_reference (val scale : f32) : Z :=
  F32.to_i8 (F32.clamp (F32.of_Z (-127)) (F32.of_Z 127) (F32.round (F32.div val scale))).

Section i8_attention.
Context (expf : f32 → f32).

Fixpoint i8_dot (query : list f32) (key_i8 : list Z) (base : nat) (k_scale : f32) (ds : list nat) (dot : f32) :
    option f32 :=
  match ds with
  | [] => Some dot
  | d :: ds =>
      kq ← key_i8 !! (base + d);
      x ← query !! d;
      i8_dot query key_i8 base k_scale ds (F32.add dot (F32.mul x (F32.mul (F32.of_Z kq) k_scale)))
  end.

Fixpoint i8_exps (max_logit : f32) (logits : list f32) (exp_sum : f32) : list f32 * f32 :=
  match logits with
  | [] => ([], exp_sum)
  | l :: logits =>
      let e := expf (F32.sub l max_logit) in
      let '(es, s) := i8_exps max_logit logits (F32.add exp_sum e) in (e :: es, s)
  end.

Fixpoint i8_accumulate (value_i8 : list Z) (head_dim : nat) (v_scale exp_sum : f32) (t : nat) (ws out : list f32) :
    option (list f32) :=
  match ws with
  | [] => Some out
  | w :: ws =>
      let weight := if F32.gtb exp_sum F32.zero then F32.div w exp_sum else F32.zero in
      out ← mapM (λ dout, vq ← value_i8 !! (t * head_dim + dout.1);
                          Some (F32.add dout.2 (F32.mul weight (F32.mul (F32.of_Z vq) v_scale))))
              (zip (seq 0 (length out)) out);
      i8_accumulate value_i8 head_dim v_scale exp_sum (S t) ws out
  end.

(** The asserts on the lengths are panics. *)
Definition paged_attention_i8_reference (query : list f32) (key_i8 value_i8 : list Z) (kv_len head_dim : nat)
    (k_scale v_scale scale : f32) : option (list f32) :=
  if (length query =? head_dim) && (length key_i8 =? kv_len * head_dim) && (length value_i8 =? kv_len * head_dim) then
    if kv_len =? 0 then Some (replicate head_dim F32.zero)
    else
      logits ← mapM (λ t, dot ← i8_dot query key_i8 (t * head_dim) k_scale (seq 0 head_dim) F32.zero;
                          Some (F32.mul dot scale)) (seq 0 kv_len);
      let max_logit := F32.fold_max logits in
      let '(ws, exp_sum) := i8_exps max_logit logits F32.zero in
      i8_accumulate value_i8 head_dim v_scale exp_sum 0 ws (replicate head_dim F32.zero)
  else None.

End i8_attention.

(** ** Calibration *)

Definition DEFAULT_CALIBRATION_TOKENS : nat := 128.
Definition DEFAULT_CALIBRATION_TOKEN_ID : TokenId := 1%N.

Definition int8_scale (absmax : f32) : result f32 Error :=
  if negb (F32.is_finite absmax) || F32.ltb absmax F32.zero
  then Err (EMsg "INT8 KV calibration produced invalid activation magnitude")
  else if F32.eqb absmax F32.zero then Ok F32.one
  else Ok (F32.max (F32.div absmax (F32.of_Z 127)) F32.min_positive).

(** The scales of the layers from the key and value tensors of the calibration
    pass; [absmax] is the reduction of a tensor, which can fail. *)
Section calibration.
Context {KV : Type} (absmax : KV → result (f32 * f32) Error).

Fixpoint calibrated_scales (kv_cache : list (option KV)) : result (list (f32 * f32)) Error :=
  match kv_cache with
  | [] => Ok []
  | None :: _ => Err (EMsg "calibration forward did not populate KV cache")
  | Some kv :: kv_cache =>
      m <-? absmax kv;
      k_scale <-? int8_scale m.1;
      v_scale <-? int8_scale m.2;
      l <-? calibrated_scales kv_cache;
      Ok ((k_scale, v_scale) :: l)
  end.

(** [forward tokens positions kv_cache]: the model's non-paged pass, [None] when
    no model is loaded. *)
Definition calibrate_kv_cache {Ptr} (forward : option (list TokenId → list nat → list (option KV) → result (list (option KV)) Error))
    (gpu_kv_cache : option (GpuKVCache Ptr)) : option (result (option (GpuKVCache Ptr)) Error) :=
  match gpu_kv_cache with
  | Some c =>
      if bool_decide (gc_dtype c = DT_INT8) then
        match forward with
        | None => Some (Err (EMsg "cannot calibrate KV cache: model not loaded"))
        | Some forward =>
            match forward (replicate DEFAULT_CALIBRATION_TOKENS DEFAULT_CALIBRATION_TOKEN_ID)
                    (seq 0 DEFAULT_CALIBRATION_TOKENS) (replicate (gpu_num_layers c) None) with
            | Err e => Some (Err e)
            | Ok kv_cache =>
                match calibrated_scales kv_cache with
                | Err e => Some (Err e)
                | Ok l => c ← set_all_kv_scales c l.*1 l.*2; Some (Ok (Some c))
                end
            end
        end
      else Some (Ok gpu_kv_cache)
  | None => Some (Ok None)
  end.

End calibration.

(** ** Lifetime *)

Section lifetime.
Context {Mem Ptr : Type} `{!DeviceMemory Mem Ptr, !EqDecision Ptr, !Countable Ptr, !LawfulMemory Mem Ptr}.

(** The pointers of the layers. *)
Definition pointers (l : list (Ptr * Ptr)) : list Ptr := l ≫= λ p, [p.1; p.2].

Lemma alloc_layers_live bytes n : ∀ (m m' : Mem) ptrs,
  alloc_layers m bytes n = (Ok ptrs, m') →
  length ptrs = n ∧ NoDup (pointers ptrs) ∧ list_to_set (pointers ptrs) ## live m
  ∧ live m' = list_to_set (pointers ptrs) ∪ live m.
Proof.
  induction n as [|n IH]; intros m m' ptrs; cbn [alloc_layers].
  { intros [= <- <-]. cbn. split_and!; [done | constructor | set_solver | set_solver]. }
  destruct (gpu_alloc m bytes) as [[k|] m1] eqn:E1; [| done].
  destruct (gpu_alloc m1 bytes) as [[v|] m2] eqn:E2; [| done].
  destruct (cache_zero m2 k bytes) as [[[]|] m3] eqn:E3; [| done].
  destruct (cache_zero m3 v bytes) as [[[]|] m4] eqn:E4; [| done].
  destruct (alloc_layers m4 bytes n) as [[l|] m5] eqn:E5; [| done]. intros [= <- <-].
  apply alloc_ok in E1 as [F1 L1], E2 as [F2 L2]. apply zero_live in E3, E4.
  destruct (IH _ _ _ E5) as (Hlen & Hnd & Hdis & Hlive).
  change (pointers ((k, v) :: l)) with (k :: v :: pointers l).
  rewrite E4, E3, L2, L1 in Hdis, Hlive. rewrite L1 in F2. rewrite !list_to_set_cons.
  set (P := list_to_set (pointers l)) in *.
  assert (HP : ∀ p, p ∈ pointers l → p ∈ P) by (intros p; unfold P; by rewrite elem_of_list_to_set).
  assert (Hm : live m5 = {[k]} ∪ ({[v]} ∪ P) ∪ live m) by (rewrite Hlive; clear; set_solver).
  assert (Hd : {[k]} ∪ ({[v]} ∪ P) ## live m) .
  { clear -F1 F2 Hdis. clearbody P. generalize dependent (live m). intros L F1 F2 Hdis x.
    rewrite !elem_of_union, !elem_of_singleton. intros [->|[->|Hx]] Hl; [done | apply F2, elem_of_union; by right |].
    apply (Hdis x Hx). rewrite !elem_of_union. tauto. }
  clear E5 IH Hlive. split_and!; [simpl; lia | | exact Hd | exact Hm].
  constructor; [| constructor; [| done]].
  - intros [->|Hk%HP]%elem_of_cons; [apply F2; apply elem_of_union; left; by apply elem_of_singleton |].
    apply (Hdis k Hk). rewrite !elem_of_union, !elem_of_singleton. tauto.
  - intros Hv%HP. apply (Hdis v Hv). apply elem_of_union. left. by apply elem_of_singleton.
Qed.

Lemma drop_live (l : list (Ptr * Ptr)) : ∀ m : Mem,
  live (foldl (λ m p, gpu_free (gpu_free m p.1) p.2) m l) = live m ∖ list_to_set (pointers l).
Proof.
  induction l as [|[k v] l IH]; intros m; cbn [foldl]; [set_solver |].
  rewrite IH, !free_live. change (pointers ((k, v) :: l)) with (k :: v :: pointers l). set_solver.
Qed.

Lemma total_bytes_replicate n b : foldr (λ s t, s.1 + s.2 + t)%N 0%N (replicate n (b, b)) = (2 * N.of_nat n * b)%N.
Proof. induction n as [|n IH]; [done |]. cbn [replicate foldr fst snd]. rewrite IH. lia. Qed.

(** The lifetime of the device cache.  A cache that was built holds two fresh
    and distinct pointers per layer, takes exactly the bytes the geometry says a
    cache of that many blocks needs, gives one unit scale per layer, and its
    [Drop] releases what it took and nothing else. *)
Theorem gpu_cache_lifetime (m m' : Mem) c spec num_blocks b
    (Hnew : gpu_cache_new m num_blocks (N.to_nat (num_layers spec)) (N.to_nat (num_kv_heads spec))
              (N.to_nat (head_dim spec)) (block_size spec) (spec_dtype spec) = Some (Ok c, m'))
    (Hb : bytes_per_block spec = Some b) :
  gpu_num_layers c = N.to_nat (num_layers spec)
  ∧ NoDup (pointers (gc_layer_ptrs c))
  ∧ (∀ p, p ∈ pointers (gc_layer_ptrs c) → p ∉ live m ∧ p ∈ live m')
  ∧ live (gpu_cache_drop m' c) = live m
  ∧ total_bytes c = (N.of_nat num_blocks * b)%N
  ∧ (∀ layer, layer < gpu_num_layers c →
       is_Some (key_ptr c layer) ∧ is_Some (value_ptr c layer)
       ∧ k_scale c layer = Some F32.one ∧ v_scale c layer = Some F32.one).
Proof.
  unfold gpu_cache_new in Hnew. destruct (usize_product _ _) as [bytes|] eqn:Eb; [| done].
  apply usize_product_Some in Eb. cbn [mbind option_bind] in Hnew.
  destruct (alloc_layers m bytes _) as [[ptrs|] m1] eqn:E; [| done]. injection Hnew as <- <-.
  apply alloc_layers_live in E as (Hlen & Hnd & Hdis & Hlive). apply bytes_per_block_value in Hb.
  unfold gpu_num_layers, total_bytes, gpu_cache_drop, key_ptr, value_ptr, k_scale, v_scale. cbn.
  split_and!; [done | done | set_solver | | |].
  - rewrite drop_live, Hlive. set_solver.
  - rewrite total_bytes_replicate, Eb, Hb. unfold block_size_N. simpl. lia.
  - intros layer Hl. destruct (lookup_lt_is_Some_2 ptrs layer Hl) as [p ->]. rewrite Hlen in Hl.
    rewrite !lookup_replicate_2 by done. split_and!; [by eexists | by eexists | reflexivity | reflexivity].
Qed.

End lifetime.

(** A memory of five allocations. *)
#[local] Instance demo_memory : DeviceMemory (gset nat) nat := {|
  gpu_alloc := λ m _, if size m <? 5 then let p := fresh m in (Ok p, {[p]} ∪ m) else (Err (EMsg "out of memory"), m);
  gpu_free := λ m p, m ∖ {[p]};
  cache_zero := λ m _ _, (Ok (), m);
|}.

#[local] Instance demo_memory_lawful : LawfulMemory (gset nat) nat.
Proof.
  refine {| live := id |}; cbn.
  - intros m n p m'. case_match; intros [= <- <-]. split; [apply is_fresh | done].
  - intros m n e m'. by case_match; intros [= <- <-].
  - by intros m p n r m' [= <- <-].
  - done.
Defined.

Definition demo_gpu_cache (num_layers : nat) : result (GpuKVCache nat) Error * gset nat :=
  default (Err (EMsg ""), ∅) (gpu_cache_new (∅ : gset nat) 10 num_layers 4 64 16 DT_F16).

Lemma gpu_cache_lifetime_witness :
  match demo_gpu_cache 2 with
  | (Ok c, m') => live (gpu_cache_drop m' c) = live (∅ : gset nat) ∧ total_bytes c = (10 * 32768)%N
  | (Err _, _) => False
  end.
Proof.
  destruct (demo_gpu_cache 2) as [[c|e] m'] eqn:E; [| vm_compute in E; discriminate].
  destruct (gpu_cache_lifetime (∅ : gset nat) m' c (mkKVCacheSpec 16 2 4 64 DT_F16 None) 10 32768) as (_ & _ & _ & H1 & H2 & _).
  - unfold demo_gpu_cache in E. destruct (gpu_cache_new _ _ _ _ _ _ _) as [p|] eqn:En; [| done].
    cbn [default from_option id] in E. by rewrite <- E.
  - reflexivity.
  - split; [exact H1 | exact H2].
Defined.

(** A failed construction keeps the layers it had allocated: nothing frees them,
    since the value whose [Drop] would was never built. *)
Example failed_construction_leaks :
  match demo_gpu_cache 3 with (Err _, m') => size m' = 5 | (Ok _, _) => False end.
Proof. vm_compute. reflexivity. Qed.

(** ** Scales *)

Section scales.
Context {Ptr : Type}.
Implicit Types c : GpuKVCache Ptr.

(** One valid scale of each kind per layer. *)
Definition scales_ok c : Prop :=
  length (gc_k_scales c) = gpu_num_layers c ∧ length (gc_v_scales c) = gpu_num_layers c
  ∧ Forall valid_scale (gc_k_scales c) ∧ Forall valid_scale (gc_v_scales c).

Lemma set_kv_scales_ok c layer k v c' :
  scales_ok c → set_kv_scales c layer k v = Some c' → scales_ok c' ∧ gc_layer_ptrs c' = gc_layer_ptrs c.
Proof.
  intros (H1 & H2 & H3 & H4). unfold set_kv_scales, list_set. intros E.
  assert (Hset : ∀ (l : list f32) x l', Forall valid_scale l →
    (if valid_scale x then if layer <? length l then Some (<[layer := x]> l) else None else Some l) = Some l' →
    length l' = length l ∧ Forall valid_scale l').
  { intros l x l' Hl. destruct (valid_scale x) eqn:Ex; [| by intros [= <-]].
    destruct (layer <? length l); [| done]. intros [= <-].
    split; [apply length_insert | apply Forall_insert; [done | by rewrite Ex]]. }
  destruct (if valid_scale k then _ else _) as [ks|] eqn:Ek; [| done].
  cbn [mbind option_bind] in E. destruct (if valid_scale v then _ else _) as [vs|] eqn:Ev; [| done].
  injection E as <-. apply Hset in Ek as [A1 A2], Ev as [B1 B2]; [| done ..].
  unfold scales_ok, gpu_num_layers in *. cbn. split_and!; [lia | lia | done | done | done].
Qed.

(** In range, the call returns. *)
Lemma set_kv_scales_total c layer k v :
  scales_ok c → layer < gpu_num_layers c → is_Some (set_kv_scales c layer k v).
Proof.
  intros (H1 & H2 & _ & _) Hl. unfold set_kv_scales, list_set.
  rewrite (proj2 (Nat.ltb_lt layer (length (gc_k_scales c)))) by lia.
  rewrite (proj2 (Nat.ltb_lt layer (length (gc_v_scales c)))) by lia.
  destruct (valid_scale k), (valid_scale v); by eexists.
Qed.

Lemma set_scales_loop_ok l : ∀ c i, scales_ok c → i + length l ≤ gpu_num_layers c →
  ∃ c', set_scales_loop c i l = Some c' ∧ scales_ok c' ∧ gc_layer_ptrs c' = gc_layer_ptrs c.
Proof.
  induction l as [|[k v] l IH]; intros c i Hok Hlen; cbn [set_scales_loop length] in *; [by exists c |].
  destruct (set_kv_scales_total c i k v Hok ltac:(lia)) as [c1 E]. rewrite E. cbn [mbind option_bind].
  destruct (set_kv_scales_ok _ _ _ _ _ Hok E) as [Hok1 Hp].
  destruct (IH c1 (S i) Hok1) as (c' & E' & Hok' & Hp'); [unfold gpu_num_layers in *; rewrite Hp; lia |].
  exists c'. split_and!; [done | done | congruence].
Qed.

Lemma set_all_kv_scales_ok c ks vs : scales_ok c →
  ∃ c', set_all_kv_scales c ks vs = Some c' ∧ scales_ok c' ∧ gc_layer_ptrs c' = gc_layer_ptrs c.
Proof.
  intros Hok. unfold set_all_kv_scales.
  destruct (Nat.eqb_spec (length ks) (length (gc_k_scales c))) as [Hk|]; [| by exists c].
  destruct (Nat.eqb_spec (length vs) (length (gc_v_scales c))) as [Hv|]; [| by exists c].
  cbn [negb orb]. apply set_scales_loop_ok; [done |]. destruct Hok as (H1 & H2 & _).
  rewrite length_zip. lia.
Qed.

Lemma calibrate_ok {KV} (absmax : KV → result (f32 * f32) Error) forward (g : option (GpuKVCache Ptr)) :
  (∀ c, g = Some c → scales_ok c) →
  ∃ r, calibrate_kv_cache absmax forward g = Some r ∧ ∀ g', r = Ok g' →
    (is_Some g' ↔ is_Some g) ∧ ∀ c, g' = Some c → scales_ok c.
Proof.
  intros Hg. unfold calibrate_kv_cache. destruct g as [c|]; [| eexists; split; [done |]; intros g' [= <-]; done].
  case_bool_decide; [| eexists; split; [done |]; intros g' [= <-]; done].
  destruct forward as [f|]; [| by eexists].
  destruct (f _ _ _) as [kv|e]; [| by eexists]. destruct (calibrated_scales absmax kv) as [l|e]; [| by eexists].
  destruct (set_all_kv_scales_ok c l.*1 l.*2 (Hg c eq_refl)) as (c' & E & Hok & _). rewrite E. cbn [mbind option_bind].
  eexists. split; [done |]. intros g' [= <-]. split; [by split; intros; eexists |]. by intros ? [= <-].
Qed.

(** A call that sets scales. *)
Inductive ScaleOp : Type :=
  | SetLayer (layer : nat) (k v : f32)
  | SetAll (ks vs : list f32).
Definition run_op c (op : ScaleOp) : option (GpuKVCache Ptr) :=
  match op with
  | SetLayer layer k v => set_kv_scales c layer k v
  | SetAll ks vs => set_all_kv_scales c ks vs
  end.

End scales.

(** The INT8 scales of the device cache are typed: from construction on, every
    sequence of scale updates on layers the cache has, with whatever values, and
    the calibration after it, return without a panic and leave exactly one scale
    per layer for keys and one for values, each finite and positive, so a
    dequantisation never multiplies by zero, an infinity or NaN. *)
Theorem gpu_cache_scales_valid {Mem Ptr KV} `{!DeviceMemory Mem Ptr} (absmax : KV → result (f32 * f32) Error) forward
    (m m' : Mem) nb nl nkv hd bs dtype (c : GpuKVCache Ptr) ops
    (Hnew : gpu_cache_new m nb nl nkv hd bs dtype = Some (Ok c, m'))
    (Hops : ∀ layer k v, SetLayer layer k v ∈ ops → layer < nl) :
  ∃ c1, foldl (λ c op, c ← c; run_op c op) (Some c) ops = Some c1
  ∧ gpu_num_layers c1 = nl ∧ scales_ok c1
  ∧ (∀ layer, layer < nl → ∃ k v, k_scale c1 layer = Some k ∧ v_scale c1 layer = Some v
       ∧ valid_scale k ∧ valid_scale v)
  ∧ ∃ r, calibrate_kv_cache absmax forward (Some c1) = Some r ∧
      ∀ g, r = Ok g → ∃ c2, g = Some c2 ∧ scales_ok c2.
Proof.
  assert (Hc : gpu_num_layers c = nl ∧ scales_ok c).
  { unfold gpu_cache_new in Hnew. destruct (usize_product _ _); [| done]. cbn [mbind option_bind] in Hnew.
    destruct (alloc_layers m _ nl) as [[ptrs|] m1] eqn:E; [| done]. injection Hnew as <- <-.
    assert (length ptrs = nl) as Hlen.
    { clear -E. revert m ptrs m1 E. induction nl as [|nl IH]; intros m ptrs m1; cbn [alloc_layers]; [by intros [= <- <-] |].
      repeat (case_match; try done). intros [= <- <-]. simpl. f_equal. by eapply IH. }
    unfold scales_ok, gpu_num_layers. cbn. rewrite !length_replicate.
    split_and!; [done .. | apply Forall_replicate; done | apply Forall_replicate; done]. }
  destruct Hc as [Hnl Hok]. clear Hnew.
  assert (Hrun : ∃ c1, foldl (λ c op, c ← c; run_op c op) (Some c) ops = Some c1 ∧ gpu_num_layers c1 = nl ∧ scales_ok c1).
  { revert c Hnl Hok. induction ops as [|op ops IH]; intros c Hnl Hok; [by exists c |]. cbn [foldl mbind option_bind].
    assert (∃ c', run_op c op = Some c' ∧ scales_ok c' ∧ gc_layer_ptrs c' = gc_layer_ptrs c) as (c' & -> & Hok' & Hp).
    { destruct op as [layer k v|ks vs]; cbn [run_op]; [| by apply set_all_kv_scales_ok].
      destruct (set_kv_scales_total c layer k v Hok) as [c' E]; [rewrite Hnl; eapply Hops; by left |].
      exists c'. split; [done | by eapply set_kv_scales_ok]. }
    apply IH; [intros; eapply Hops; by right | unfold gpu_num_layers in *; by rewrite Hp | done]. }
  destruct Hrun as (c1 & E1 & Hnl1 & Hok1). exists c1. split_and!; [done | done | done | |].
  - intros layer Hl. destruct Hok1 as (L1 & L2 & F1 & F2). unfold k_scale, v_scale.
    destruct (lookup_lt_is_Some_2 (gc_k_scales c1) layer ltac:(lia)) as [k Ek].
    destruct (lookup_lt_is_Some_2 (gc_v_scales c1) layer ltac:(lia)) as [v Ev].
    exists k, v. rewrite Forall_lookup in F1, F2. split_and!; [done | done | by eapply F1 | by eapply F2].
  - destruct (calibrate_ok absmax forward (Some c1)) as (r & Er & Hr); [by intros ? [= <-] |].
    exists r. split; [done |]. intros g ->. destruct (Hr g eq_refl) as [Hs Hg]. destruct g as [c2|]; [eauto |].
    destruct (proj2 Hs (ex_intro _ c1 eq_refl)) as [? [=]].
Qed.

Lemma gpu_cache_scales_valid_witness :
  match demo_gpu_cache 2 with
  | (Ok c, _) => ∃ c1, foldl (λ c op, c ← c; run_op c op) (Some c)
       [SetAll [F32.two; F32.zero] [S754_nan; F32.two]; SetLayer 1 F32.neg_infinity F32.one] = Some c1 ∧ scales_ok c1
  | (Err _, _) => False
  end.
Proof.
  destruct (demo_gpu_cache 2) as [[c|e] m'] eqn:E; [| vm_compute in E; discriminate].
  destruct (gpu_cache_scales_valid (λ x : f32 * f32, Ok x) None (∅ : gset nat) m' 10 2 4 64 16 DT_F16 c
    [SetAll [F32.two; F32.zero] [S754_nan; F32.two]; SetLayer 1 F32.neg_infinity F32.one]) as (c1 & H1 & _ & H2 & _).
  - unfold demo_gpu_cache in E. destruct (gpu_cache_new _ _ _ _ _ _ _) as [p|] eqn:En; [| done].
    cbn [default from_option id] in E. by rewrite <- E.
  - intros layer k v Hin. rewrite !elem_of_cons in Hin. destruct Hin as [?|[[= -> _ _]|?%not_elem_of_nil]]; [done | lia | done].
  - by exists c1.
Defined.

(** ** Slots and codes *)

(** The cache's slots are those the runner computes for its batches. *)
Lemma compute_slot_agrees {Ptr} (c : GpuKVCache Ptr) table pos (b : BlockId) :
  0 < gc_block_size c → (Z.of_nat (gc_block_size c) <= i64_max)%Z →
  table !! (N.to_nat pos / gc_block_size c) = Some (N.of_nat b) →
  (Z.of_nat b * Z.of_nat (gc_block_size c) + Z.of_nat (gc_block_size c) <= i64_max)%Z →
  compute_slot c (b, N.to_nat pos mod gc_block_size c) = Some (slot_of (N.of_nat (gc_block_size c)) table pos).
Proof.
  intros Hbs Hmax Ht Hfit. unfold compute_slot, slot_of. set (bs := gc_block_size c) in *.
  replace (N.to_nat (pos / N.of_nat bs)) with (N.to_nat pos / bs) by (rewrite N2Nat.inj_div; by rewrite Nat2N.id).
  rewrite Ht. cbn [fst snd].
  assert (Hmod : N.to_nat pos mod bs < bs) by (apply Nat.mod_upper_bound; lia).
  assert (E : (pos mod N.of_nat bs)%N = N.of_nat (N.to_nat pos mod bs)) by (rewrite Nat2N.inj_mod; by rewrite N2Nat.id).
  rewrite E. set (off := N.to_nat pos mod bs) in *.
  assert (Hid : ∀ n, (Z.of_nat n <= i64_max)%Z → as_i64 n = Z.of_nat n).
  { intros n Hn. unfold as_i64, i64_max in *. rewrite Z.mod_small by lia. lia. }
  assert (Hb : (Z.of_nat b <= i64_max)%Z) by nia.
  rewrite !Hid by lia. unfold i64_fits.
  replace (Z.of_N (N.of_nat b * N.of_nat bs + N.of_nat off)) with (Z.of_nat b * Z.of_nat bs + Z.of_nat off)%Z by lia.
  replace (Z.of_N (N.of_nat b * N.of_nat bs)) with (Z.of_nat b * Z.of_nat bs)%Z by lia.
  rewrite (proj2 (Z.leb_le _ _)) by (unfold i64_max; nia). rewrite (proj2 (Z.leb_le _ _)) by nia.
  rewrite (proj2 (Z.leb_le _ _)) by (unfold i64_max; nia). rewrite (proj2 (Z.leb_le _ _)) by lia. done.
Qed.

Definition i8_codes : list Z := (λ n, Z.of_nat n - 127)%Z <$> seq 0 255.

(** Every code survives dequantisation and quantisation, at a unit scale and at
    the scale of an activation range of one. *)
Example i8_codes_round_trip :
  (λ q, quantize_kv_i8_reference (F32.of_Z q) F32.one) <$> i8_codes = i8_codes
  ∧ ∀ s, int8_scale F32.one = Ok s →
      (λ q, quantize_kv_i8_reference (F32.mul (F32.of_Z q) s) s) <$> i8_codes = i8_codes.
Proof.
  split; [vm_compute; reflexivity |]. intros s Hs. vm_compute in Hs. injection Hs as <-. vm_compute. reflexivity.
Qed.

Lemma i8_exps_length expf m l : ∀ s, length (i8_exps expf m l s).1 = length l.
Proof.
  induction l as [|x l IH]; intros s; [done |]. cbn [i8_exps].
  specialize (IH (F32.add s (expf (F32.sub x m)))). destruct (i8_exps _ _ _ _). simpl in *. lia.
Qed.

Lemma i8_dot_total q ks base scale ds : ∀ dot,
  (∀ d, d ∈ ds → base + d < length ks ∧ d < length q) → is_Some (i8_dot q ks base scale ds dot).
Proof.
  induction ds as [|d ds IH]; intros dot Hd; [by eexists |]. cbn [i8_dot].
  destruct (Hd d ltac:(by left)) as [H1 H2].
  destruct (lookup_lt_is_Some_2 ks _ H1) as [x ->], (lookup_lt_is_Some_2 q _ H2) as [y ->].
  apply IH. intros d' ?. apply Hd. by right.
Qed.

Lemma i8_accumulate_total vs hd scale s ws : ∀ t out,
  length out = hd → (t + length ws) * hd ≤ length vs →
  ∃ out', i8_accumulate vs hd scale s t ws out = Some out' ∧ length out' = hd.
Proof.
  induction ws as [|w ws IH]; intros t out Hout Hlen; [by exists out |]. cbn [i8_accumulate length] in *.
  match goal with |- context [mapM ?f ?l] => assert (Hm : is_Some (mapM f l)) end.
  { apply mapM_is_Some_2. apply Forall_forall. intros [d o] Hin. apply elem_of_zip_l, elem_of_seq in Hin. cbn [compose fst snd].
    destruct (lookup_lt_is_Some_2 vs (t * hd + d)) as [x ->]; [nia | by eexists]. }
  destruct Hm as [out1 Em]. rewrite Em. cbn [mbind option_bind].
  apply length_mapM in Em. rewrite length_zip, length_seq in Em. apply IH; [lia | nia].
Qed.

(** The oracle returns on every input its asserts accept. *)
Lemma i8_reference_total expf q ks vs kv_len hd ksc vsc sc :
  length q = hd → length ks = kv_len * hd → length vs = kv_len * hd →
  ∃ out, paged_attention_i8_reference expf q ks vs kv_len hd ksc vsc sc = Some out ∧ length out = hd.
Proof.
  intros Hq Hk Hv. unfold paged_attention_i8_reference. rewrite Hq, Hk, Hv, !Nat.eqb_refl. cbn [andb].
  destruct (Nat.eqb_spec kv_len 0); [eexists; split; [done | apply length_replicate] |].
  match goal with |- context [mapM ?f ?l] => assert (Hm : is_Some (mapM f l)) end.
  { apply mapM_is_Some_2. apply Forall_forall. intros t Ht%elem_of_seq.
    cbn [compose]. destruct (i8_dot_total q ks (t * hd) ksc (seq 0 hd) F32.zero) as [d ->]; [| by eexists].
    intros d Hd%elem_of_seq. nia. }
  destruct Hm as [logits Em]. rewrite Em. cbn [mbind option_bind].
  apply length_mapM in Em. rewrite length_seq in Em.
  pose proof (i8_exps_length expf (F32.fold_max logits) logits F32.zero) as Hl.
  destruct (i8_exps _ _ _ _) as [ws s]. simpl in Hl. apply i8_accumulate_total; [apply length_replicate | nia].
Qed.
