(* ===== verification/CudaGraph.v ===== *)
(** * CUDA graphs and batch overlap (rllm-worker/src/{model_runner,overlap}.rs)

    The capture manager, whose capture runs the closure and records nothing that
    makes a graph ready; the split of a mixed batch into a prefill and a decode
    half; the queue of staged output copies. *)
From S2P Require Import Prelude F32 CoreTypes Executor ModelRunner.
#[local] Open Scope string_scope.
#[local] Open Scope list_scope.
#[local] Open Scope nat_scope.
#[local] Open Scope rllm_scope.

Section graphs.
(** [Tensor] is the backend's tensor. *)
Context {Tensor : Type}.

Record CudaGraphInstance : Type := mkGraph {
  g_batch_size : nat;
  g_is_captured : bool;
  g_capture_duration_ns : N;
  g_input_ids : option Tensor;
  g_logits : option Tensor;
}.

Definition graph_new (batch_size : nat) : CudaGraphInstance := mkGraph batch_size false 0 None None.

(** The closure's result, and the time it took. *)
Definition capture (g : CudaGraphInstance) (run : result (Tensor * Tensor) Error) (elapsed : N) :
    result (Tensor * Tensor) Error * CudaGraphInstance :=
  match run with
  | Err e => (Err e, g)
  | Ok t => (Ok t, mkGraph (g_batch_size g) (g_is_captured g) (elapsed mod 2 ^ 64)%N (g_input_ids g) (g_logits g))
  end.

Definition replay (g : CudaGraphInstance) : result unit Error :=
  Err (EMsg "CUDA graph replay is not implemented for batch size").

Definition is_ready (g : CudaGraphInstance) : bool := g_is_captured g.

Record CudaGraphCapture : Type := mkCapture {
  graphs : list CudaGraphInstance;
  graphs_enabled : bool;
}.

Definition with_batch_sizes (sizes : list nat) : CudaGraphCapture := mkCapture (graph_new <$> sizes) true.
Definition capture_new : CudaGraphCapture := with_batch_sizes [1; 2; 4; 8; 16; 32; 64].
Definition set_enabled (c : CudaGraphCapture) (enabled : bool) : CudaGraphCapture := mkCapture (graphs c) enabled.

(** The loop over the graphs; [run_fn] keeps a state of its own, and an error
    leaves the later graphs as they were. *)
Fixpoint capture_loop {S} (run_fn : S → nat → result (Tensor * Tensor) Error * N * S) (s : S)
    (gs : list CudaGraphInstance) : result unit Error * list CudaGraphInstance * S :=
  match gs with
  | [] => (Ok (), [], s)
  | g :: gs =>
      let '(run, elapsed, s) := run_fn s (g_batch_size g) in
      match capture g run elapsed with
      | (Err e, g) => (Err e, g :: gs, s)
      | (Ok (inp, logi), g) =>
          let g := mkGraph (g_batch_size g) (g_is_captured g) (g_capture_duration_ns g) (Some inp) (Some logi) in
          let '(r, gs, s) := capture_loop run_fn s gs in (r, g :: gs, s)
      end
  end.

Definition capture_all {S} (c : CudaGraphCapture) (run_fn : S → nat → result (Tensor * Tensor) Error * N * S) (s : S) :
    result unit Error * CudaGraphCapture * S :=
  if graphs_enabled c then
    let '(r, gs, s) := capture_loop run_fn s (graphs c) in (r, mkCapture gs (graphs_enabled c), s)
  else (Ok (), c, s).

(** [max_by_key] keeps the last of equal maxima. *)
Fixpoint max_by_size (best : option CudaGraphInstance) (gs : list CudaGraphInstance) : option CudaGraphInstance :=
  match gs with
  | [] => best
  | g :: gs =>
      max_by_size (match best with
                   | Some b => if g_batch_size g <? g_batch_size b then Some b else Some g
                   | None => Some g
                   end) gs
  end.

Definition fitting (c : CudaGraphCapture) (batch_size : nat) : option CudaGraphInstance :=
  max_by_size None (filter (λ g, is_ready g && (g_batch_size g <=? batch_size)) (graphs c)).

Definition replay_for_batch (c : CudaGraphCapture) (batch_size : nat) : result bool Error :=
  if graphs_enabled c then
    match fitting c batch_size with
    | Some g => _ <-? replay g; Ok true
    | None => Ok false
    end
  else Ok false.

Definition get_graph_for_batch (c : CudaGraphCapture) (batch_size : nat) : option CudaGraphInstance :=
  if graphs_enabled c then
    snd <$> list_find (λ g, is_ready g && (g_batch_size g =? batch_size)) (graphs c)
  else None.

Definition has_graph_for (c : CudaGraphCapture) (batch_size : nat) : bool :=
  existsb (λ g, (g_batch_size g =? batch_size) && is_ready g) (graphs c).

Definition num_captured (c : CudaGraphCapture) : nat := length (filter is_ready (graphs c)).

(** ** No graph is ever ready *)

Definition none_ready (c : CudaGraphCapture) : Prop := Forall (λ g, is_ready g = false) (graphs c).

Lemma none_ready_new sizes : none_ready (with_batch_sizes sizes).
Proof. unfold none_ready. cbn. apply Forall_fmap, Forall_true. done. Qed.

Lemma capture_loop_spec {S} (run_fn : S → nat → result (Tensor * Tensor) Error * N * S) gs : ∀ s r gs' s',
  capture_loop run_fn s gs = (r, gs', s') →
  g_batch_size <$> gs' = g_batch_size <$> gs ∧ is_ready <$> gs' = is_ready <$> gs.
Proof.
  induction gs as [|g gs IH]; intros s r gs' s'; cbn [capture_loop]; [by intros [= <- <- <-] |].
  destruct (run_fn s (g_batch_size g)) as [[run el] s1]. destruct run as [[inp logi]|e]; cbn [capture].
  - destruct (capture_loop run_fn s1 gs) as [[r1 gs1] s2] eqn:E. intros [= <- <- <-].
    destruct (IH _ _ _ _ E) as [H1 H2]. cbn. split; f_equal; done.
  - by intros [= <- <- <-].
Qed.

(** Whatever was captured, the batches run eagerly: no graph is found and
    [replay_for_batch], which would fail, never reaches a graph. *)
Lemma capture_runs_eagerly {S} (c : CudaGraphCapture) (run_fn : S → nat → result (Tensor * Tensor) Error * N * S) s r c' s' :
  none_ready c → capture_all c run_fn s = (r, c', s') →
  none_ready c' ∧ g_batch_size <$> graphs c' = g_batch_size <$> graphs c ∧ num_captured c' = 0
  ∧ ∀ n, replay_for_batch c' n = Ok false ∧ get_graph_for_batch c' n = None ∧ has_graph_for c' n = false.
Proof.
  intros Hn Hc. assert (H : none_ready c' ∧ g_batch_size <$> graphs c' = g_batch_size <$> graphs c).
  { unfold capture_all in Hc. destruct (graphs_enabled c); [| by injection Hc as <- <- <-].
    destruct (capture_loop run_fn s (graphs c)) as [[r1 gs] s1] eqn:E. injection Hc as <- <- <-.
    apply capture_loop_spec in E as [H1 H2]. split; [| done]. unfold none_ready in *. cbn.
    apply (Forall_fmap is_ready (λ b, b = false)). rewrite H2. by apply Forall_fmap. }
  destruct H as [Hr Hs]. split; [done |]. split; [done |].
  assert (Hf : ∀ P : CudaGraphInstance → bool, (∀ g, P g = true → is_ready g = true) → filter P (graphs c') = []).
  { intros P HP. apply elem_of_nil_inv. intros g [Hg Hin]%list_elem_of_filter. unfold none_ready in Hr. rewrite Forall_forall in Hr.
    apply Is_true_true, HP in Hg. by rewrite (Hr g Hin) in Hg. }
  split; [unfold num_captured; by rewrite Hf |]. intros n. split_and!.
  - unfold replay_for_batch, fitting. rewrite Hf by (intros g ?%andb_prop; naive_solver). by destruct (graphs_enabled c').
  - unfold get_graph_for_batch. destruct (graphs_enabled c'); [| done].
    destruct (list_find _ _) as [[i g]|] eqn:E; [| done]. apply list_find_Some in E as (Hi & Hg & _).
    apply list_elem_of_lookup_2 in Hi. unfold none_ready in Hr. rewrite Forall_forall in Hr. rewrite (Hr g Hi) in Hg. done.
  - unfold has_graph_for. apply not_true_is_false. rewrite existsb_exists. intros (g & Hin & Hg).
    apply list_elem_of_In in Hin. unfold none_ready in Hr. rewrite Forall_forall in Hr. rewrite (Hr g Hin), andb_false_r in Hg. done.
Qed.

End graphs.

(** Were a graph ready, a batch of three would be replayed with the graph of two:
    the search takes the largest graph that is not larger than the batch. *)
Example replay_picks_a_smaller_graph :
  g_batch_size <$> fitting (mkCapture ((λ n, mkGraph (Tensor := unit) n true 0 None None) <$> [1; 2; 4]) true) 3 = Some 2.
Proof. reflexivity. Qed.

(** ** Overlap *)

Record DualBatchPlan : Type := mkPlan {
  prefill_request_ids : list RequestId;
  decode_request_ids : list RequestId;
  plan_prefill_tokens : nat;
  plan_decode_tokens : nat;
}.
Definition plan_default : DualBatchPlan := mkPlan [] [] 0 0.
Definition has_overlap (p : DualBatchPlan) : bool := (0 <? plan_prefill_tokens p) && (0 <? plan_decode_tokens p).

Fixpoint plan_loop (b : InputBatch) (idxs : list nat) (p : DualBatchPlan) : option DualBatchPlan :=
  match idxs with
  | [] => Some p
  | i :: idxs =>
      pref ← ib_is_prefill b !! i;
      id ← ib_request_ids b !! i;
      n ← ib_tokens_per_seq b !! i;
      plan_loop b idxs
        (if pref : bool
         then mkPlan (prefill_request_ids p ++ [id]) (decode_request_ids p) (plan_prefill_tokens p + n) (plan_decode_tokens p)
         else mkPlan (prefill_request_ids p) (decode_request_ids p ++ [id]) (plan_prefill_tokens p) (plan_decode_tokens p + n))
  end.

Definition dual_batch_plan (enabled : bool) (b : InputBatch) : option DualBatchPlan :=
  if negb enabled || (ib_num_seqs b =? 0) then Some plan_default else plan_loop b (seq 0 (ib_num_seqs b)) plan_default.

Lemma plan_loop_spec bs es : ∀ k p, k ≤ length es →
  plan_loop (batch_of bs es) (seq k (length es - k)) p =
  Some (mkPlan (prefill_request_ids p ++ (e_id <$> filter e_prefill (drop k es)))
               (decode_request_ids p ++ (e_id <$> filter (λ e, negb (e_prefill e)) (drop k es)))
               (plan_prefill_tokens p + sum_list_with e_count (filter e_prefill (drop k es)))
               (plan_decode_tokens p + sum_list_with e_count (filter (λ e, negb (e_prefill e)) (drop k es)))).
Proof.
  intros k p Hk. remember (length es - k) as n eqn:En. revert k p Hk En. induction n as [|n IH]; intros k p Hk En.
  - rewrite drop_ge by lia. cbn. rewrite !app_nil_r, !Nat.add_0_r. by destruct p.
  - destruct (lookup_lt_is_Some_2 es k ltac:(lia)) as [e He]. cbn [seq plan_loop batch_of ib_is_prefill ib_request_ids ib_tokens_per_seq].
    rewrite !list_lookup_fmap, He. cbn [fmap option_fmap option_map mbind option_bind]. rewrite IH by lia.
    rewrite (drop_S es e k He), !filter_cons. destruct (e_prefill e) eqn:Ep; cbn.
    all: f_equal; f_equal; rewrite <- ?app_assoc; try reflexivity;
      rewrite decide_True by done; simpl; lia.
Qed.

(** The plan of a batch partitions its sequences, each half in batch order, and
    its token counts are the batch's. *)
Lemma dual_batch_plan_partitions bs es :
  ∃ p, dual_batch_plan true (batch_of bs es) = Some p
  ∧ prefill_request_ids p = e_id <$> filter e_prefill es
  ∧ decode_request_ids p = e_id <$> filter (λ e, negb (e_prefill e)) es
  ∧ prefill_request_ids p ++ decode_request_ids p ≡ₚ ib_request_ids (batch_of bs es)
  ∧ plan_prefill_tokens p = ib_num_prefill_tokens (batch_of bs es)
  ∧ plan_decode_tokens p = ib_num_decode_tokens (batch_of bs es).
Proof.
  assert (Hsum : sum_list_with e_count (filter e_prefill es) = ib_num_prefill_tokens (batch_of bs es)
    ∧ sum_list_with e_count (filter (λ e, negb (e_prefill e)) es) = ib_num_decode_tokens (batch_of bs es)
    ∧ (e_id <$> filter e_prefill es) ++ (e_id <$> filter (λ e, negb (e_prefill e)) es) ≡ₚ e_id <$> es).
  { unfold batch_of. cbn. induction es as [|e es (IH1 & IH2 & IH3)]; [done |]. rewrite !filter_cons.
    destruct (e_prefill e) eqn:Ep; cbn [negb];
      [rewrite (decide_True (P := true)), (decide_False (P := false)) by auto
      | rewrite (decide_False (P := false)), (decide_True (P := true)) by auto];
      cbn; rewrite ?Ep; split_and!; try lia; [by constructor |].
    rewrite <- Permutation_middle. by constructor. }
  destruct Hsum as (H1 & H2 & H3). unfold dual_batch_plan. cbn [negb orb].
  destruct (Nat.eqb_spec (ib_num_seqs (batch_of bs es)) 0) as [E0|].
  - destruct es; [| done]. exists plan_default. by split_and!.
  - replace (ib_num_seqs (batch_of bs es)) with (length es - 0) by (cbn; lia).
    rewrite plan_loop_spec by lia. eexists. split; [done |]. cbn [prefill_request_ids decode_request_ids plan_prefill_tokens plan_decode_tokens plan_default app Nat.add].
    rewrite drop_0. by split_and!.
Qed.

(** Staged copies: submitted at the back, drained in order. *)
Record AsyncTokenOutputQueue : Type := mkTokenQueue { tq_pending : list (list TokenId) }.
Definition token_queue_new : AsyncTokenOutputQueue := mkTokenQueue [].
Definition submit (q : AsyncTokenOutputQueue) (token_ids : list TokenId) : AsyncTokenOutputQueue :=
  mkTokenQueue (tq_pending q ++ [token_ids]).
Fixpoint drain_loop (pending out : list (list TokenId)) : list (list TokenId) :=
  match pending with [] => out | c :: pending => drain_loop pending (out ++ [c]) end.
Definition drain_ready (q : AsyncTokenOutputQueue) : list (list TokenId) * AsyncTokenOutputQueue :=
  (drain_loop (tq_pending q) [], mkTokenQueue []).

Lemma drain_ready_fifo copies : drain_ready (foldl submit token_queue_new copies) = (copies, token_queue_new).
Proof.
  assert (Hs : ∀ l q, foldl submit q l = mkTokenQueue (tq_pending q ++ l)).
  { induction l as [|c l IH]; intros [p]; cbn [foldl]; [by rewrite app_nil_r |]. rewrite IH. cbn. by rewrite <- app_assoc. }
  assert (Hd : ∀ p out, drain_loop p out = out ++ p).
  { induction p as [|c p IH]; intros out; cbn; [by rewrite app_nil_r |]. rewrite IH. by rewrite <- app_assoc. }
  rewrite Hs. unfold drain_ready. cbn. by rewrite Hd.
Qed.
