(* ===== verification/Worker.v ===== *)
(** * The worker (rllm-worker/src/worker.rs, rllm-tensor/src/device.rs)

    The owner of the runner, the loaded model and the device cache.  The model is
    an interface: what the worker asks of a Candle model and of its tensors.  The
    build is described by two flags, [cuda] (the feature) and [has_cuda] (the
    toolkit was found), and has the [candle-backend] feature. *)
From S2P Require Import Prelude F32 CoreTypes Request KVSpec FreeQueue Executor Sampler AttentionMeta ModelRunner GpuCache CudaGraph.
#[local] Open Scope string_scope.
#[local] Open Scope list_scope.
#[local] Open Scope nat_scope.
#[local] Open Scope rllm_scope.

Inductive Device : Type :=
  | Cpu
  | Cuda (index : nat) (stream : option nat).

Definition is_cuda (d : Device) : bool := match d with Cuda _ _ => true | Cpu => false end.
Definition is_cpu (d : Device) : bool := match d with Cpu => true | Cuda _ _ => false end.
Definition cuda_index (d : Device) : option nat := match d with Cuda i _ => Some i | Cpu => None end.
Definition device_stream (d : Device) : option nat := match d with Cuda _ s => s | Cpu => None end.

(** 4 GiB *)
Definition DEFAULT_GPU_MEMORY : N := 4 * 1024 * 1024 * 1024.

(** What the worker and the executor use of a loaded model and its tensors.  The
    paged pass writes the device's memory; both passes may fail after writing. *)
Class CausalModel (Model Ids Tensor KV Mem Ptr : Type) : Type := {
  from_model_ref : string → ModelConfig → result Model Error;
  model_is_cuda : Model → bool;
  model_config : Model → ModelConfig;
  input_tensor : Model → list TokenId → result Ids Error;
  forward : Model → Ids → list nat → list (option KV) → result Tensor Error * list (option KV);
  forward_paged : Model → Ids → list nat → GpuKVCache Ptr → AttentionMetadata → Mem → result Tensor Error * Mem;
  generate : Model → list TokenId → nat → result (list TokenId) Error;
  kv_absmax : KV → result (f32 * f32) Error;
  tensor_dim : Tensor → nat → result nat Error;
  tensor_row : Tensor → nat → result (list f32) Error;
}.

Section worker.
Context {Value R Model Ids Tensor KV Mem Ptr : Type}.
Context `{!DeviceMemory Mem Ptr, !CausalModel Model Ids Tensor KV Mem Ptr}.
Context (cuda has_cuda : bool) (mem_get_info : Mem → result (N * N) Error) (seed_from_u64 : N → R).
#[local] Abbreviation Runner := (ModelRunner (Value := Value) (R := R) (KV := KV)).

Record Worker : Type := mkWorker {
  w_id : N;
  w_model_config : ModelConfig;
  w_device : Device;
  w_block_size : nat;
  w_model_runner : Runner;
  w_cache_config : option KVCacheConfig;
  w_sampler : option (Sampler (R := R));
  w_candle_model : option Model;
  w_gpu_kv_cache : option (GpuKVCache Ptr);
  w_cuda_graphs : CudaGraphCapture (Tensor := Tensor);
  w_memory : Mem;
}.

Definition worker_new (id : N) (c : ModelConfig) (device : Device) (block_size : nat) (m : Mem) : Worker :=
  mkWorker id c device block_size (runner_new c block_size) None None None None capture_new m.

Definition with_runner (r : Runner) (w : Worker) : Worker :=
  mkWorker (w_id w) (w_model_config w) (w_device w) (w_block_size w) r (w_cache_config w) (w_sampler w)
    (w_candle_model w) (w_gpu_kv_cache w) (w_cuda_graphs w) (w_memory w).
Definition with_sampler (s : option (Sampler (R := R))) (w : Worker) : Worker :=
  mkWorker (w_id w) (w_model_config w) (w_device w) (w_block_size w) (w_model_runner w) (w_cache_config w) s
    (w_candle_model w) (w_gpu_kv_cache w) (w_cuda_graphs w) (w_memory w).
Definition with_memory (m : Mem) (w : Worker) : Worker :=
  mkWorker (w_id w) (w_model_config w) (w_device w) (w_block_size w) (w_model_runner w) (w_cache_config w) (w_sampler w)
    (w_candle_model w) (w_gpu_kv_cache w) (w_cuda_graphs w) m.
Definition with_cache (c : option KVCacheConfig) (g : option (GpuKVCache Ptr)) (w : Worker) : Worker :=
  mkWorker (w_id w) (w_model_config w) (w_device w) (w_block_size w) (w_model_runner w) c (w_sampler w)
    (w_candle_model w) g (w_cuda_graphs w) (w_memory w).

Definition initialize_cuda_device (w : Worker) : result unit Error := Ok ().

Definition initialize_rng_seed (w : Worker) (seed : N) : Worker := with_sampler (Some (from_seed seed_from_u64 seed)) w.

(** Loading replaces the configuration and starts a fresh runner. *)
Definition load_model_weights (w : Worker) : result unit Error * Worker :=
  match from_model_ref (mc_model_id (w_model_config w)) (w_model_config w) with
  | Err e => (Err e, w)
  | Ok loaded =>
      if is_cuda (w_device w) && negb (model_is_cuda loaded) then
        (Err (EMsg "Candle loaded model on CPU, not CUDA. Refusing to serve because true GPU inference was requested."), w)
      else
        let c := model_config loaded in
        (Ok (), mkWorker (w_id w) c (w_device w) (w_block_size w) (runner_new c (w_block_size w)) (w_cache_config w)
                  (w_sampler w) (Some loaded) (w_gpu_kv_cache w) (w_cuda_graphs w) (w_memory w))
  end.

Definition has_loaded_model (w : Worker) : bool := bool_decide (is_Some (w_candle_model w)).

Definition generate_next_token (w : Worker) (context_token_ids : list TokenId) : result (option TokenId) Error :=
  match w_candle_model w with
  | None => Ok None
  | Some model =>
      match context_token_ids with
      | [] => Err (EMsg "cannot generate from an empty token context")
      | _ =>
          generated <-? generate model context_token_ids (length context_token_ids + 1);
          match generated !! length context_token_ids with
          | Some token => Ok (Some token)
          | None => Err (EMsg "model did not return a next token")
          end
      end
  end.

Definition get_kv_cache_mut (r : Runner) (id : RequestId) : option (list (option KV)) :=
  rs_kv_cache <$> mr_request_states r !! id.
Definition set_kv_cache (r : Runner) (id : RequestId) (kv : list (option KV)) : Runner :=
  with_states (alter (λ s, mkRunnerState (rs_prompt_token_ids s) (rs_generated_token_ids s) (rs_num_computed_tokens s) kv)
                 id (mr_request_states r)) r.

Definition execute_model_step (w : Worker) (id : RequestId) (input_tokens : list TokenId) (positions : list nat) :
    result (option Tensor) Error * Worker :=
  match w_candle_model w with
  | None => (Ok None, w)
  | Some model =>
      match get_kv_cache_mut (w_model_runner w) id with
      | None => (Err (EMsg "request state not found"), w)
      | Some kv_cache =>
          match input_tensor model input_tokens with
          | Err e => (Err e, w)
          | Ok ids =>
              let '(r, kv_cache) := forward model ids positions kv_cache in
              (logits <-? r; Ok (Some logits), with_runner (set_kv_cache (w_model_runner w) id kv_cache) w)
          end
      end
  end.

Definition worker_available_memory (w : Worker) : result N Error :=
  match w_device w with
  | Cuda _ _ =>
      if cuda then
        match mem_get_info (w_memory w) with
        | Ok (free, _) => Ok free
        | Err _ => Ok DEFAULT_GPU_MEMORY
        end
      else Ok DEFAULT_GPU_MEMORY
  | Cpu => Ok 0%N
  end.

(** ** Sizing the cache *)

Definition MIN_GPU_BLOCKS : nat := 256.
(** 0.95 as an [f64]; 0.01 as an [f32]. *)
Definition KV_SAFETY_FRACTION : f64 := F64.div (F64.of_N 95) (F64.of_N 100).
Definition MIN_UTILIZATION : f32 := F32.div (F32.of_N 1) (F32.of_N 100).

(** The bytes the cache may take. *)
Definition kv_budget (free total : N) (gpu_memory_utilization : f32) : N :=
  let util := F64.of_f32 (F32.clamp MIN_UTILIZATION F32.one gpu_memory_utilization) in
  let budget := F64.to_usize (F64.mul (F64.of_N total) util) in
  let already_used := (total - free)%N in
  let kv_budget := (budget - already_used)%N in
  F64.to_usize (F64.mul (F64.of_N kv_budget) KV_SAFETY_FRACTION).

Definition fit_kv_blocks (w : Worker) (s : KVCacheSpec) (gpu_memory_utilization : f32) (max_blocks : nat) :
    option (result nat Error) :=
  bytes ← bytes_per_block s;
  if (bytes =? 0)%N then Some (Err (EMsg "KV cache spec has zero bytes per block"))
  else
    match worker_available_memory w with
    | Err e => Some (Err e)
    | Ok free =>
        let '(free, total) :=
          if cuda then
            match w_device w with
            | Cuda _ _ => match mem_get_info (w_memory w) with Ok ft => ft | Err _ => (free, free) end
            | Cpu => (free, free)
            end
          else (free, free) in
        let mem_blocks := (kv_budget free total gpu_memory_utilization / bytes)%N in
        let num_blocks := N.min mem_blocks (N.of_nat max_blocks) in
        if (num_blocks <? N.of_nat MIN_GPU_BLOCKS)%N
        then Some (Err (EMsg "insufficient GPU memory for KV cache"))
        else Some (Ok (N.to_nat num_blocks))
    end.

(** The byte count, computed for the log, overflows to [None]. *)
Definition initialize_kv_cache (w : Worker) (c : KVCacheConfig) : option (result unit Error * Worker) :=
  let s := kv_spec c in
  _ ← usize_product (num_layers s) [N.of_nat (num_blocks c); block_size_N s; num_kv_heads s; head_dim s; 2%N;
                                     bytes_per_scalar (spec_dtype s)];
  if has_cuda then
    r ← gpu_cache_new (w_memory w) (num_blocks c) (N.to_nat (num_layers s)) (N.to_nat (num_kv_heads s))
          (N.to_nat (head_dim s)) (block_size s) (spec_dtype s);
    match r with
    | (Err e, m) => Some (Err e, with_memory m w)
    | (Ok cache, m) =>
        let m := match w_gpu_kv_cache w with Some old => gpu_cache_drop m old | None => m end in
        Some (Ok (), with_cache (Some c) (Some cache) (with_memory m w))
    end
  else Some (Ok (), with_cache (Some c) (w_gpu_kv_cache w) w).

Definition worker_calibrate (w : Worker) : option (result unit Error * Worker) :=
  let pass := (λ model tokens positions kv,
                 ids <-? input_tensor model tokens;
                 let '(r, kv) := forward model ids positions kv in
                 _ <-? r; Ok kv) <$> w_candle_model w in
  r ← calibrate_kv_cache kv_absmax pass (w_gpu_kv_cache w);
  match r with
  | Err e => Some (Err e, w)
  | Ok g => Some (Ok (), with_cache (w_cache_config w) g w)
  end.

Definition warm_up (w : Worker) : result unit Error := Ok ().

(** The device and model of the batched pass. *)
Definition forward_paged_batch (w : Worker) (ids : Ids) (positions : list nat) (meta : AttentionMetadata) :
    result Tensor Error * Worker :=
  match w_gpu_kv_cache w with
  | None => (Err (EMsg "GPU KV cache not initialized"), w)
  | Some cache =>
      match w_candle_model w with
      | None => (Err (EMsg "model not loaded"), w)
      | Some model =>
          let '(r, m) := forward_paged model ids positions cache meta (w_memory w) in (r, with_memory m w)
      end
  end.

(** A dummy decode batch; [None] is the remainder by a zero block size. *)
Definition execute_dummy_decode (w : Worker) (batch_size : nat) : option (result unit Error * Worker) :=
  match w_candle_model w with
  | None => Some (Err (EMsg "model device not found"), w)
  | Some model =>
      match input_tensor model (replicate batch_size 0%N) with
      | Err e => Some (Err e, w)
      | Ok ids =>
          let meta := AttentionMetadata.for_decode (replicate batch_size 1%N) (replicate batch_size [0%Z]) 1 in
          if (w_block_size w =? 0) && negb (batch_size =? 0) then None
          else
            let slots := (λ i, Z.of_nat (i mod w_block_size w)) <$> seq 0 batch_size in
            let '(r, w) := forward_paged_batch w ids (replicate batch_size 0) (with_slots slots meta) in
            Some (_ <-? r; Ok (), w)
      end
  end.

Definition sleep (w : Worker) (level : N) : Worker :=
  match level with
  | 1%N | 2%N => with_cache None (w_gpu_kv_cache w) w
  | _ => w
  end.
Definition wake_up (w : Worker) : Worker := w.

Definition take_sampler (w : Worker) : option (Sampler (R := R)) * Worker := (w_sampler w, with_sampler None w).

(** ** Properties *)

(** What [fit_kv_blocks] reads as free and total memory. *)
Definition memory_view (w : Worker) : N * N :=
  match w_device w with
  | Cpu => (0, 0)%N
  | Cuda _ _ =>
      if cuda then match mem_get_info (w_memory w) with Ok ft => ft | Err _ => (DEFAULT_GPU_MEMORY, DEFAULT_GPU_MEMORY) end
      else (DEFAULT_GPU_MEMORY, DEFAULT_GPU_MEMORY)
  end.

Lemma fit_kv_blocks_unfold w s util max_blocks b :
  bytes_per_block s = Some b → (0 < b)%N →
  fit_kv_blocks w s util max_blocks =
  let n := N.min (kv_budget (memory_view w).1 (memory_view w).2 util / b)%N (N.of_nat max_blocks) in
  if (n <? N.of_nat MIN_GPU_BLOCKS)%N then Some (Err (EMsg "insufficient GPU memory for KV cache"))
  else Some (Ok (N.to_nat n)).
Proof.
  intros Hb Hpos. unfold fit_kv_blocks, memory_view, worker_available_memory. rewrite Hb. cbn [mbind option_bind].
  rewrite (proj2 (N.eqb_neq b 0)) by lia.
  destruct (w_device w); destruct cuda; try done. by destruct (mem_get_info (w_memory w)) as [[free total]|].
Qed.

(** Sizing the device cache.  A size that is returned is between 256 and the
    limit asked for, its tensors fit the bytes left for the cache, and one more
    block, if the limit allows it, would not; an error means that fewer than 256
    blocks fit or are allowed. *)
Theorem fit_kv_blocks_exact w s util max_blocks layout b
    (Hb : bytes_per_block s = Some b) (Hpos : (0 < b)%N) :
  ∃ r, fit_kv_blocks w s util max_blocks = Some r ∧
  let budget := kv_budget (memory_view w).1 (memory_view w).2 util in
  match r with
  | Ok n => 256 ≤ n ≤ max_blocks ∧ (kv_tensor_bytes s (N.of_nat n) layout <= budget)%N
      ∧ (n < max_blocks → (budget < kv_tensor_bytes s (N.of_nat n + 1) layout)%N)
  | Err _ => max_blocks < 256 ∨ (budget < kv_tensor_bytes s 256 layout)%N
  end.
Proof.
  rewrite (fit_kv_blocks_unfold w s util max_blocks b Hb Hpos). cbv zeta.
  set (budget := kv_budget _ _ _). rewrite !(kv_tensor_bytes_value s _ layout b Hb).
  assert (Hdiv : (b * (budget / b) <= budget)%N) by (apply N.Div0.mul_div_le).
  assert (Hlt : (budget < b * N.succ (budget / b))%N) by (apply N.mul_succ_div_gt; lia).
  unfold MIN_GPU_BLOCKS. destruct (N.ltb_spec (N.min (budget / b) (N.of_nat max_blocks)) (N.of_nat 256)) as [H|H]; eexists; (split; [done |]).
  - destruct (decide (max_blocks < 256)); [by left | right]. nia.
  - cbv beta iota. rewrite !(kv_tensor_bytes_value s _ layout b Hb), !N2Nat.id.
    split_and!; [lia | lia | nia |]. intros Hn. nia.
Qed.

(** On a CPU nothing is ever free, so sizing always fails. *)
Lemma fit_kv_blocks_cpu w s util max_blocks b :
  w_device w = Cpu → bytes_per_block s = Some b → (0 < b)%N →
  ∃ e, fit_kv_blocks w s util max_blocks = Some (Err e).
Proof.
  intros Hd Hb Hpos. rewrite (fit_kv_blocks_unfold w s util max_blocks b Hb Hpos). unfold memory_view. rewrite Hd. cbn [fst snd].
  assert (kv_budget 0 0 util = 0%N) as ->.
  { unfold kv_budget. rewrite N.sub_diag, N.sub_0_r.
    assert (∀ x, F64.to_usize (F64.mul (F64.of_N 0) x) = 0%N) as Hz by (by intros [[]|[]| |[] ? ?]).
    rewrite Hz. apply Hz. }
  rewrite N.Div0.div_0_l, N.min_0_l. by eexists.
Qed.

(** A worker starts without a model; loading one resets the requests. *)
Lemma load_model_weights_spec w w' :
  load_model_weights w = (Ok (), w') →
  has_loaded_model w' = true ∧ mr_request_states (w_model_runner w') = ∅
  ∧ mr_block_size (w_model_runner w') = w_block_size w
  ∧ (is_cuda (w_device w) = true → ∀ m, w_candle_model w' = Some m → model_is_cuda m = true).
Proof.
  unfold load_model_weights. destruct (from_model_ref _ _) as [m|e]; [| done].
  destruct (is_cuda (w_device w)) eqn:Ec, (model_is_cuda m) eqn:Em; cbn [andb negb]; intros [= <-];
    (split; [done |]; split; [done |]; split; [done |]; intros ? ? [= <-]; done).
Qed.

End worker.
Arguments Worker : clear implicits.

(** ** A toy model

    A vocabulary of four; each position predicts the successor of its token. *)
Definition toy_row (t : TokenId) : list f32 :=
  (λ i, if (N.of_nat i =? (t + 1) mod 4)%N then F32.one else F32.zero) <$> seq 0 4.

#[global] Instance toy_model : CausalModel ModelConfig (list TokenId) (list (list f32)) (list TokenId) (gset nat) nat := {|
  from_model_ref := λ _ c, Ok c;
  model_is_cuda := λ _, true;
  model_config := id;
  input_tensor := λ _ tokens, Ok tokens;
  forward := λ _ tokens _ kv, (Ok (toy_row <$> tokens), kv);
  forward_paged := λ _ tokens _ _ _ m, (Ok (toy_row <$> tokens), m);
  generate := λ _ tokens _, Ok (tokens ++ [((default 0 (last tokens) + 1) mod 4)%N]);
  kv_absmax := λ _, Ok (F32.one, F32.one);
  tensor_dim := λ t d, if d =? 1 then Ok (length t) else Ok 4;
  tensor_row := λ t i, match t !! i with Some row => Ok row | None => Err (EMsg "narrow") end;
|}.

Definition toy_config : ModelConfig :=
  mkModelConfig "toy" "Toy" 4 8 8 1 1 1 8 64 F32.one None DT_F32 None TM_Auto.

Definition toy_worker : Worker unit f32 ModelConfig (list (list f32)) (list TokenId) (gset nat) nat :=
  mkWorker 0 toy_config (Cuda 0 None) 16 (runner_new toy_config 16) None None (Some toy_config) None capture_new ∅.

(** 4 GiB hold all the 1000 blocks of 32 KiB asked for. *)
Lemma fit_kv_blocks_exact_witness :
  let s := mkKVCacheSpec 16 2 4 64 DT_F16 None in
  fit_kv_blocks false (λ _, Err (EMsg "")) toy_worker s F32.one 1000 = Some (Ok 1000)
  ∧ ∃ r, fit_kv_blocks false (λ _, Err (EMsg "")) toy_worker s F32.one 1000 = Some r
      ∧ match r with Ok n => 256 ≤ n ≤ 1000 | Err _ => False end.
Proof.
  split; [vm_compute; reflexivity |].
  destruct (fit_kv_blocks_exact false (λ _, Err (EMsg "")) toy_worker (mkKVCacheSpec 16 2 4 64 DT_F16 None) F32.one 1000 NHD 32768)
    as (r & E & H); [reflexivity | lia |].
  exists r. split; [exact E |]. destruct r as [n|e]; [exact (proj1 H) |].
  vm_compute in E. discriminate E.
Defined.
