(* ===== verification/UniProc.v ===== *)
(** * The in-process executor (rllm-executor/src/uniproc.rs)

    One worker and one sampler: draft proposal, batch, forward pass, sampling or
    verification of drafts, and the update of the runner.  The build has the
    [candle-backend] feature and not [structured-outputs].  [None] is a panic; an
    error keeps the state changes made before it. *)
From S2P Require Import Prelude F32 CoreTypes Request KVSpec FreeQueue Scheduler Executor Sampler AttentionMeta ModelRunner GpuCache CudaGraph Worker Speculative.
#[local] Open Scope string_scope.
#[local] Open Scope list_scope.
#[local] Open Scope nat_scope.
#[local] Open Scope rllm_scope.

Section uniproc.
Context {Value R Ent Model Ids Tensor KV Mem Ptr : Type}.
Context `{!DeviceMemory Mem Ptr, !CausalModel Model Ids Tensor KV Mem Ptr}.
Context (cuda has_cuda : bool) (mem_get_info : Mem → result (N * N) Error) (show : RequestId → string).
(** The floating-point functions, the sampler's generator and the thread's. *)
Context (expf lnf : f32 → f32) (next : R → f32 * R) (thread_next : Ent → f32 * Ent).
#[local] Abbreviation Runner := (ModelRunner (Value := Value) (R := R) (KV := KV)).
#[local] Abbreviation Work := (Worker Value R Model Tensor KV Mem Ptr).

Record UniProcExecutor : Type := mkUniProc {
  ux_worker : Work;
  ux_sampler : Sampler (R := R);
  ux_eos_token_id : TokenId;
  ux_thread_rng : Ent;
}.

Definition uniproc_new (w : Work) (rng : Ent) : UniProcExecutor :=
  let '(s, w') := take_sampler w in
  mkUniProc w' (default sampler_new s) (as_u32 (N.of_nat (mc_vocab_size (w_model_config w)))) rng.

Definition set_eos_token_id (x : UniProcExecutor) (eos : TokenId) : UniProcExecutor :=
  mkUniProc (ux_worker x) (ux_sampler x) eos (ux_thread_rng x).
Definition with_worker (w : Work) (x : UniProcExecutor) : UniProcExecutor :=
  mkUniProc w (ux_sampler x) (ux_eos_token_id x) (ux_thread_rng x).
Definition runner (x : UniProcExecutor) : Runner := w_model_runner (ux_worker x).
Definition update_runner (f : Runner → Runner) (x : UniProcExecutor) : UniProcExecutor :=
  with_worker (with_runner (f (runner x)) (ux_worker x)) x.

(** ** A state, error and panic monad *)

Definition M (A : Type) : Type := UniProcExecutor → option (result A Error * UniProcExecutor).
Definition m_ret {A} (a : A) : M A := λ x, Some (Ok a, x).
Definition m_bind {A B} (m : M A) (k : A → M B) : M B := λ x,
  r ← m x; match r with (Ok a, x) => k a x | (Err e, x) => Some (Err e, x) end.
#[local] Notation "a <-! m ; k" := (m_bind m (λ a, k)) (at level 100, m at level 99, k at level 200, right associativity).
Definition m_panic {A} (o : option A) : M A := λ x, a ← o; Some (Ok a, x).
Definition m_result {A} (r : result A Error) : M A := λ x, Some (r, x).
Definition m_get {A} (f : UniProcExecutor → A) : M A := λ x, Some (Ok (f x), x).
Definition m_put (f : UniProcExecutor → UniProcExecutor) : M unit := λ x, Some (Ok (), f x).
Definition m_runner {A} (f : Runner → result A Error * Runner) : M A := λ x,
  let '(r, rn) := f (runner x) in Some (r, update_runner (λ _, rn) x).
Definition m_worker {A} (f : Work → result A Error * Work) : M A := λ x,
  let '(r, w) := f (ux_worker x) in Some (r, with_worker w x).

(** ** Sampling *)

(** What the loop reads about one request. *)
Record SeqInfo : Type := mkSeqInfo {
  sq_params : SamplingParams Value;
  sq_context : list TokenId;
  sq_num_generated : N;
}.

Definition seq_info (r : Runner) (id : RequestId) : SeqInfo :=
  let '(prompt_ids, generated_ids) := default ([], []) (get_context_token_ids r id) in
  mkSeqInfo (default SamplingParams_default (get_sampling_params r id)) (prompt_ids ++ generated_ids)
    (as_u32 (N.of_nat (length generated_ids))).

Definition sampling_input (x : UniProcExecutor) (q : SeqInfo) (logits : list f32) (num_generated : N) :
    SamplingInput (Value := Value) :=
  mkSamplingInput logits (sq_params q) (sq_context q) num_generated (ux_eos_token_id x) [].

(** [self.sampler.sample(&input)], with a fresh value of the thread's generator. *)
Definition draw (x : UniProcExecutor) (q : SeqInfo) (logits : list f32) (num_generated : N) :
    (TokenId * option f32) * UniProcExecutor :=
  let '(entropy, rng) := thread_next (ux_thread_rng x) in
  let '(o, s) := sample expf lnf next (ux_sampler x) (sampling_input x q logits num_generated) entropy in
  ((so_token_id o, so_logprob o), mkUniProc (ux_worker x) s (ux_eos_token_id x) rng).

(** [(num_generated as usize + accepted_tokens.len()) as u32] *)
Definition cur_generated (q : SeqInfo) (accepted : nat) : N := as_u32 (sq_num_generated q + N.of_nat accepted).

(** The loop over the drafts: matches are accepted, the first mismatch is
    replaced by a sample and ends the loop, as does a missing row. *)
Fixpoint verify_loop (q : SeqInfo) (rows : list (list f32)) (j : nat) (drafts : list TokenId)
    (acc : list (TokenId * option f32)) (x : UniProcExecutor) : list (TokenId * option f32) * UniProcExecutor :=
  match drafts with
  | [] => (acc, x)
  | d :: drafts =>
      match rows !! j with
      | None => (acc, x)
      | Some row =>
          let predicted := as_u32 (N.of_nat (argmax_impl row)) in
          if (predicted =? d)%N then verify_loop q rows (S j) drafts (acc ++ [(d, None)]) x
          else let '(o, x) := draw x q row (cur_generated q (length acc)) in (acc ++ [o], x)
      end
  end.

(** Verification: the loop, the bonus token and the fallback. *)
Definition verify (q : SeqInfo) (rows : list (list f32)) (drafts : list TokenId) (n_tokens : nat) :
    M (list (TokenId * option f32)) := λ x,
  let k := length drafts in
  let '(accepted, x) := verify_loop q rows 0 drafts [] x in
  let '(accepted, x) :=
    if (length accepted =? k) && (0 <? k) && (k <? length rows) then
      let bonus_idx := Nat.min k (length rows - 1) in
      let '(o, x) := draw x q (default [] (rows !! bonus_idx)) (cur_generated q (length accepted)) in
      (accepted ++ [o], x)
    else (accepted, x) in
  match accepted with
  | [] =>
      let last_idx := Nat.min (n_tokens - 1) (length rows - 1) in
      row ← rows !! last_idx;
      let '(o, x) := draw x q row (sq_num_generated q) in
      Some (Ok [o], x)
  | _ => Some (Ok accepted, x)
  end.

(** ** The forward pass *)

Definition is_ok_row (t : Tensor) (i : nat) : option (list f32) :=
  match tensor_row t i with Ok row => Some row | Err _ => None end.

(** The batched paged pass, when a model and a device cache are there; an error
    of the pass itself is dropped. *)
Definition batched_forward (b : InputBatch) (meta : AttentionMetadata) : M (option Tensor) := λ x,
  match w_candle_model (ux_worker x), w_gpu_kv_cache (ux_worker x) with
  | Some model, Some _ =>
      match input_tensor model (ib_token_ids b) with
      | Err e => Some (Err e, x)
      | Ok ids =>
          let '(r, w) := forward_paged_batch (ux_worker x) ids (N.to_nat <$> ib_positions b) meta in
          Some (Ok match r with Ok t => Some t | Err _ => None end, with_worker w x)
      end
  | _, _ => Some (Ok None, x)
  end.

(** Rows of the batched logits at the positions of one sequence, zeros where one
    cannot be read. *)
Definition batched_rows (logits : option Tensor) (token_offset n_tokens vocab_size : nat) :
    result (list (list f32)) Error :=
  match logits with
  | None => Ok []
  | Some t =>
      _ <-? tensor_dim t 2;
      Ok ((λ j, default (replicate vocab_size F32.zero) (is_ok_row t (token_offset + j))) <$> seq 0 n_tokens)
  end.

(** The request's own pass when rows are missing; its errors are dropped. *)
Definition legacy_rows (b : InputBatch) (id : RequestId) (token_offset n_tokens : nat) (rows : list (list f32)) :
    M (list (list f32)) := λ x,
  if (length rows <? n_tokens) && has_loaded_model (ux_worker x) then
    let tokens_to_run := default [] (slice (ib_token_ids b) token_offset (token_offset + n_tokens)) in
    match tokens_to_run with
    | [] => Some (Ok rows, x)
    | _ =>
        let start_pos := num_computed (runner x) id in
        let '(r, w) := execute_model_step (ux_worker x) id tokens_to_run ((λ j, start_pos + j) <$> seq 0 (length tokens_to_run)) in
        let more := match r with
                    | Ok (Some t) =>
                        match tensor_dim t 1, tensor_dim t 2 with
                        | Ok seq_len, Ok _ => omap (is_ok_row t) (seq 0 seq_len)
                        | _, _ => []
                        end
                    | _ => []
                    end in
        Some (Ok (rows ++ more), with_worker w x)
    end
  else Some (Ok rows, x).

Definition pad_rows (rows : list (list f32)) (n_tokens vocab_size : nat) : list (list f32) :=
  rows ++ replicate (n_tokens - length rows) (replicate vocab_size F32.zero).

(** The tokens the request's own pass runs on the normal path. *)
Definition tokens_to_run (r : Runner) (id : RequestId) (is_prefill : bool) (n_tokens : nat) : option (list TokenId) :=
  if is_prefill then
    let start := num_computed r id in
    slice (default [] (fst <$> get_context_token_ids r id)) start (start + n_tokens)
  else
    Some [match get_context_token_ids r id ≫= λ pg, last pg.2 with
          | Some t => t
          | None => default 0%N (get_context_token_ids r id ≫= λ pg, last pg.1)
          end].

(** The logits of the last position of one sequence. *)
Definition last_logits (batched : option Tensor) (id : RequestId) (is_prefill : bool) (token_offset n_tokens vocab_size : nat) :
    M (list f32) := λ x,
  let from_batch := t ← batched; is_ok_row t (token_offset + n_tokens - 1) in
  match from_batch with
  | Some l => Some (Ok l, x)
  | None =>
      if has_loaded_model (ux_worker x) then
        tokens ← tokens_to_run (runner x) id is_prefill n_tokens;
        let positions := (λ j, num_computed (runner x) id + j) <$> seq 0 (length tokens) in
        let '(r, w) := execute_model_step (ux_worker x) id tokens positions in
        let x := with_worker w x in
        match r with
        | Err e => Some (Err e, x)
        | Ok None => Some (Ok (replicate vocab_size F32.zero), x)
        | Ok (Some t) =>
            match tensor_dim t 1, tensor_dim t 2 with
            | Ok seq_len, Ok _ =>
                if seq_len =? 0 then None else Some (tensor_row t (seq_len - 1), x)
            | Err e, _ | _, Err e => Some (Err e, x)
            end
        end
      else Some (Ok (replicate vocab_size F32.zero), x)
  end.

(** ** One request of the batch *)

Fixpoint store_tokens (id : RequestId) (tokens : list TokenId) : M unit :=
  match tokens with
  | [] => m_ret ()
  | t :: tokens => _ <-! m_runner (λ r, store_generated_token show r id t); store_tokens id tokens
  end.

Definition speculative_step (b : InputBatch) (batched : option Tensor) (drafts : list TokenId) (id : RequestId)
    (token_offset n_tokens vocab_size : nat) (q : SeqInfo) : M PerRequestOutput :=
  rows <-! m_result (batched_rows batched token_offset n_tokens vocab_size);
  rows <-! legacy_rows b id token_offset n_tokens rows;
  accepted <-! verify q (pad_rows rows n_tokens vocab_size) drafts n_tokens;
  _ <-! store_tokens id accepted.*1;
  _ <-! m_runner (λ r, advance_computed show r id n_tokens);
  m_ret (mkPerRequestOutput id accepted.*1 accepted.*2).

Definition normal_step (batched : option Tensor) (id : RequestId) (is_prefill : bool) (token_offset n_tokens vocab_size : nat)
    (q : SeqInfo) : M PerRequestOutput :=
  logits <-! last_logits batched id is_prefill token_offset n_tokens vocab_size;
  o <-! (λ x, let '(o, x) := draw x q logits (sq_num_generated q) in Some (Ok o, x));
  _ <-! (if is_prefill then
           _ <-! m_runner (λ r, advance_computed show r id n_tokens);
           m_runner (λ r, store_generated_token show r id o.1)
         else
           _ <-! m_runner (λ r, store_generated_token show r id o.1);
           m_runner (λ r, advance_computed show r id 1));
  m_ret (mkPerRequestOutput id [o.1] [o.2]).

(** The loop over the sequences of the batch. *)
Fixpoint sequences_loop (b : InputBatch) (batched : option Tensor) (draft_map : gmap RequestId (list TokenId))
    (vocab_size : nat) (idxs : list nat) (token_offset : nat) (outs : list PerRequestOutput) : M (list PerRequestOutput) :=
  match idxs with
  | [] => m_ret outs
  | i :: idxs =>
      id <-! m_panic (ib_request_ids b !! i);
      n_tokens <-! m_panic (ib_tokens_per_seq b !! i);
      is_prefill <-! m_panic (ib_is_prefill b !! i);
      q <-! m_get (λ x, seq_info (runner x) id);
      out <-! (match draft_map !! id, is_prefill with
               | Some drafts, false => speculative_step b batched drafts id token_offset n_tokens vocab_size q
               | _, _ => normal_step batched id is_prefill token_offset n_tokens vocab_size q
               end);
      sequences_loop b batched draft_map vocab_size idxs (token_offset + n_tokens) (outs ++ [out])
  end.

(** ** The step *)

(** Drafts for the running requests that ask for them. *)
Fixpoint propose_loop (ids : list RequestId) (draft_map : gmap RequestId (list TokenId)) : M (gmap RequestId (list TokenId)) :=
  match ids with
  | [] => m_ret draft_map
  | rid :: ids =>
      cfg <-! m_get (λ x, get_sampling_params (runner x) rid ≫= speculative_decoding);
      match cfg with
      | Some cfg =>
          if sd_enabled cfg && (0 <? sd_num_speculative_tokens cfg) && bool_decide (sd_proposer cfg = "ngram") then
            context <-! m_get (λ x, let '(p, g) := default ([], []) (get_context_token_ids (runner x) rid) in p ++ g);
            proposer <-! m_panic (ngram_new (sd_min_ngram cfg) (sd_max_ngram cfg));
            match dp_token_ids (propose proposer context (sd_num_speculative_tokens cfg)) with
            | [] => propose_loop ids draft_map
            | drafts =>
                _ <-! m_put (update_runner (λ r, set_speculative_drafts r rid drafts));
                propose_loop ids (<[rid := drafts]> draft_map)
            end
          else propose_loop ids draft_map
      | None => propose_loop ids draft_map
      end
  end.

Definition m_build (out : SchedulerOutput) : M InputBatch := λ x,
  r ← build_tensors (runner x) out; Some (r.1, update_runner (λ _, r.2) x).

Definition uniproc_execute (out : SchedulerOutput) : M ExecutorOutput :=
  draft_map <-! propose_loop (scheduled_running out) ∅;
  b <-! m_build out;
  if ib_num_seqs b =? 0 then m_ret ExecutorOutput.empty
  else
    meta <-! m_panic (build_attention_metadata b);
    vocab_size <-! m_get (λ x, runner_vocab_size (runner x));
    batched <-! batched_forward b meta;
    outs <-! sequences_loop b batched draft_map vocab_size (seq 0 (ib_num_seqs b)) 0 [];
    copied <-! m_runner (λ r, let '(ids, r) := async_output_copy r (outs ≫= pro_token_ids) in (Ok ids, r));
    _ <-! m_put (update_runner (λ r, cache_execute_model_state r copied));
    m_ret (mkExecutorOutput outs).

Definition m_worker_panic {A} (f : Work → option (result A Error * Work)) : M A := λ x,
  r ← f (ux_worker x); Some (r.1, with_worker r.2 x).

(** Initialization: on a CPU the block count is taken as asked. *)
Definition uniproc_initialize (kv_cache_configs : list KVCacheConfig) (gpu_memory_utilization : f32) : M nat :=
  _ <-! m_get (λ x, initialize_cuda_device (ux_worker x));
  _ <-! m_worker load_model_weights;
  match kv_cache_configs with
  | [] => m_ret 0
  | config :: _ =>
      fitted <-! m_worker_panic (λ w,
        if is_cpu (w_device w) then Some (Ok (num_blocks config), w)
        else r ← fit_kv_blocks cuda mem_get_info w (kv_spec config) gpu_memory_utilization (num_blocks config); Some (r, w));
      _ <-! m_worker_panic (λ w, initialize_kv_cache has_cuda w (mkKVCacheConfig fitted (kv_spec config)));
      _ <-! m_worker_panic worker_calibrate;
      m_ret fitted
  end.

Definition uniproc_add_request (x : UniProcExecutor) (id : RequestId) (prompt : list TokenId) (p : SamplingParams Value) :
    result unit Error * UniProcExecutor :=
  match structured_outputs p with
  | Some _ => (Err (EMsg "structured output support requires the structured-outputs feature"), x)
  | None => (Ok (), update_runner (λ r, set_sampling_params (runner_add_request r id prompt) id p) x)
  end.

#[global] Instance uniproc_executor : Executor Value UniProcExecutor := {
  initialize x configs util := uniproc_initialize configs util x;
  determine_available_memory x := worker_available_memory cuda mem_get_info (ux_worker x);
  execute_model x out := uniproc_execute out x;
  executor_add_request := uniproc_add_request;
  executor_abort_request x id := update_runner (λ r, remove_request r id) x;
  shutdown x := x;
}.

(** ** Inverting the monad *)

Lemma m_bind_Ok {A B} (m : M A) (k : A → M B) x b x' :
  m_bind m k x = Some (Ok b, x') → ∃ a x1, m x = Some (Ok a, x1) ∧ k a x1 = Some (Ok b, x').
Proof.
  unfold m_bind. destruct (m x) as [[[a|e] x1]|]; cbn [mbind option_bind]; [eauto | done | done].
Qed.

Lemma m_bind_step {A B} (m : M A) (k : A → M B) x a x1 : m x = Some (Ok a, x1) → m_bind m k x = k a x1.
Proof. unfold m_bind. by intros ->. Qed.

(** ** The shape of a batch *)

(** Every list of the batch has one entry per sequence. *)
Definition batch_aligned (b : InputBatch) : Prop :=
  length (ib_request_ids b) = ib_num_seqs b ∧ length (ib_tokens_per_seq b) = ib_num_seqs b
  ∧ length (ib_is_prefill b) = ib_num_seqs b.

Lemma build_loop_shape out ids : ∀ (r : Runner) b b' r',
  batch_aligned b → build_loop out ids r b = Some (Ok b', r') →
  batch_aligned b' ∧ ∃ sub, ib_request_ids b' = ib_request_ids b ++ sub ∧ sub `sublist_of` ids.
Proof.
  induction ids as [|id ids IH]; intros r b b' r' Hb; cbn [build_loop].
  { intros [= <- <-]. split; [done |]. exists []. by rewrite app_nil_r. }
  assert (Hskip : build_loop out ids r b = Some (Ok b', r') →
    batch_aligned b' ∧ ∃ sub, ib_request_ids b' = ib_request_ids b ++ sub ∧ sub `sublist_of` id :: ids).
  { intros E. destruct (IH _ _ _ _ Hb E) as (H1 & sub & H2 & H3). split; [done |]. exists sub. split; [done | by constructor]. }
  destruct (mr_request_states r !! id); [| exact Hskip]. case_match; [exact Hskip |].
  destruct (if bool_decide (id ∈ scheduled_new out) then _ else _) as [tokens|]; [| exact Hskip].
  destruct (positions_from _ _) as [positions|]; [| done]. destruct (u32_try_from _ _) as [seq_len|]; [| done].
  destruct (compute_slot_mappings _ _ _) as [slots|]; [| done]. cbn [mbind option_bind]. intros E.
  apply IH in E as (H1 & sub & H2 & H3).
  - split; [done |]. exists (id :: sub). split; [| by constructor].
    rewrite H2. unfold push_seq. cbn [ib_request_ids]. by rewrite <- app_assoc.
  - destruct Hb as (L1 & L2 & L3). unfold batch_aligned, push_seq.
    cbn [ib_request_ids ib_tokens_per_seq ib_is_prefill ib_num_seqs]. rewrite !length_app. simpl. lia.
Qed.

Lemma build_tensors_shape (r : Runner) out b r' :
  build_tensors r out = Some (Ok b, r') →
  batch_aligned b ∧ ib_request_ids b `sublist_of` scheduled_new out ++ scheduled_running out.
Proof.
  unfold build_tensors. case_match.
  - intros [= <- <-]. split; [done |]. cbn [ib_request_ids batch_empty]. apply sublist_nil_l.
  - intros E. apply build_loop_shape in E as (H1 & sub & H2 & H3); [| done]. split; [done |]. by rewrite H2.
Qed.

(** ** Every request of the batch is answered *)

Lemma verify_loop_extends q rows drafts : ∀ j acc x l x',
  verify_loop q rows j drafts acc x = (l, x') → ∃ more, l = acc ++ more.
Proof.
  induction drafts as [|d drafts IH]; intros j acc x l x'; cbn [verify_loop].
  { intros [= <- <-]. exists []. by rewrite app_nil_r. }
  destruct (rows !! j); [| intros [= <- <-]; exists []; by rewrite app_nil_r].
  case_match.
  - intros (more & ->)%IH. exists ((d, None) :: more). by rewrite <- app_assoc.
  - destruct (draw _ _ _ _) as [o x1]. intros [= <- <-]. by eexists.
Qed.

Lemma verify_nonempty q rows drafts n x l x' : verify q rows drafts n x = Some (Ok l, x') → l ≠ [].
Proof.
  unfold verify. destruct (verify_loop _ _ _ _ _ _) as [acc x1]. destruct (_ && _).
  - destruct (draw _ _ _ _) as [o x2]. destruct (acc ++ [o]) eqn:E; [by destruct acc | by intros [= <- <-]].
  - destruct acc; [| by intros [= <- <-]]. destruct (rows !! _); [| done]. cbn [mbind option_bind].
    destruct (draw _ _ _ _) as [o x2]. by intros [= <- <-].
Qed.

Lemma speculative_step_shape b batched drafts id off n vs q x o x' :
  speculative_step b batched drafts id off n vs q x = Some (Ok o, x') →
  pro_request_id o = id ∧ pro_token_ids o ≠ [].
Proof.
  unfold speculative_step.
  intros (rows & x1 & _ & (rows2 & x2 & _ & (acc & x3 & Hv & (u1 & x4 & _ & (u2 & x5 & _ & [= <- <-])%m_bind_Ok)%m_bind_Ok)%m_bind_Ok)%m_bind_Ok)%m_bind_Ok.
  apply verify_nonempty in Hv. split; [done |]. cbn [pro_token_ids]. by destruct acc.
Qed.

Lemma normal_step_shape batched id pref off n vs q x o x' :
  normal_step batched id pref off n vs q x = Some (Ok o, x') → pro_request_id o = id ∧ pro_token_ids o ≠ [].
Proof.
  unfold normal_step.
  by intros (logits & x1 & _ & (t & x2 & _ & (u1 & x4 & _ & [= <- <-])%m_bind_Ok)%m_bind_Ok)%m_bind_Ok.
Qed.

Lemma sequences_loop_shape b batched dm vs idxs : ∀ off outs x outs' x',
  sequences_loop b batched dm vs idxs off outs x = Some (Ok outs', x') →
  ∃ new, outs' = outs ++ new ∧ Forall2 (λ i o, ib_request_ids b !! i = Some (pro_request_id o) ∧ pro_token_ids o ≠ []) idxs new.
Proof.
  induction idxs as [|i idxs IH]; intros off outs x outs' x'; cbn [sequences_loop].
  { intros [= <- <-]. exists []. rewrite app_nil_r. split; [done | constructor]. }
  intros (id & x1 & Hid & (n & x2 & _ & (pref & x3 & _ & (q & x4 & _ & (o & x5 & Ho & Hrest)%m_bind_Ok)%m_bind_Ok)%m_bind_Ok)%m_bind_Ok)%m_bind_Ok.
  assert (ib_request_ids b !! i = Some id) as Hi.
  { unfold m_panic in Hid. destruct (ib_request_ids b !! i); [| done]. by injection Hid as -> _. }
  assert (pro_request_id o = id ∧ pro_token_ids o ≠ []) as [Hoid Hne].
  { destruct (dm !! id), pref; first [by apply speculative_step_shape in Ho | by apply normal_step_shape in Ho]. }
  apply IH in Hrest as (new & -> & Hnew). exists (o :: new). rewrite <- app_assoc. split; [done |].
  constructor; [by rewrite Hoid | done].
Qed.

Lemma Forall2_lookup_seq {A} (l : list A) (l' : list A) :
  Forall2 (λ i y, l !! i = Some y) (seq 0 (length l)) l' → l' = l.
Proof.
  intros H. apply list_eq. intros i. destruct (l' !! i) as [y|] eqn:E.
  - destruct (Forall2_lookup_r _ _ _ _ _ H E) as (k & Hk & Hl). apply lookup_seq in Hk as [-> _]. simpl in Hl. by rewrite Hl.
  - apply lookup_ge_None in E. apply Forall2_length in H. rewrite length_seq in H. symmetry. apply lookup_ge_None. lia.
Qed.

Lemma uniproc_execute_shape out x o x' :
  uniproc_execute out x = Some (Ok o, x') →
  (pro_request_id <$> per_request_outputs o) `sublist_of` scheduled_new out ++ scheduled_running out
  ∧ ∀ p, p ∈ per_request_outputs o → pro_token_ids p ≠ [].
Proof.
  unfold uniproc_execute.
  intros (dm & x1 & _ & (b & x2 & Hb & H)%m_bind_Ok)%m_bind_Ok. unfold m_build in Hb.
  destruct (build_tensors (runner x1) out) as [[rb rn]|] eqn:Eb; [| done]. cbn [mbind option_bind fst snd] in Hb.
  injection Hb as -> <-. apply build_tensors_shape in Eb as [(L1 & L2 & L3) Hsub].
  case_match; [injection H as <- <-; split; [apply sublist_nil_l | by intros p ?%not_elem_of_nil] |].
  apply m_bind_Ok in H as (meta & x3 & _ & (vs & x4 & _ & (batched & x5 & _ & (outs & x6 & Hl & (copied & x7 & _ & (u & x8 & _ & [= <- <-])%m_bind_Ok)%m_bind_Ok)%m_bind_Ok)%m_bind_Ok)%m_bind_Ok).
  apply sequences_loop_shape in Hl as (new & -> & Hnew). cbn [per_request_outputs app]. split.
  - assert (pro_request_id <$> new = ib_request_ids b) as ->; [| done]. apply Forall2_lookup_seq.
    rewrite L1. apply Forall2_fmap_r. eapply Forall2_impl; [exact Hnew |]. by intros i o' [Hi _].
  - intros p [i Hp]%list_elem_of_lookup_1. destruct (Forall2_lookup_r _ _ _ _ _ Hnew Hp) as (k & _ & _ & Hne). exact Hne.
Qed.

(** The executor keeps the engine's contract. *)
#[global] Instance uniproc_lawful : LawfulExecutor Value UniProcExecutor.
Proof.
  split; intros x x' out o.
  - intros [Hs _]%uniproc_execute_shape Hnd. by eapply sublist_NoDup.
  - intros p [Hs _]%uniproc_execute_shape Hp. eapply elem_of_submseteq; [| by apply sublist_submseteq].
    by apply list_elem_of_fmap_2.
  - intros p [_ Hne]%uniproc_execute_shape Hp. by apply Hne.
Qed.

(** The executor implements its interface ([uniproc_execute] is the instance's
    [execute_model]).  Every successful call answers only
    requests that were scheduled, each at most once and in the scheduler's order,
    and each with at least one token. *)
Theorem uniproc_contract x out o x' :
  uniproc_execute out x = Some (Ok o, x') →
  (pro_request_id <$> per_request_outputs o) `sublist_of` scheduled_new out ++ scheduled_running out
  ∧ (NoDup (scheduled_new out ++ scheduled_running out) → NoDup (pro_request_id <$> per_request_outputs o))
  ∧ ∀ p, p ∈ per_request_outputs o → pro_token_ids p ≠ [].
Proof.
  intros [Hs Hne]%uniproc_execute_shape. split_and!; [done | intros; by eapply sublist_NoDup | done].
Qed.

(** ** Verification of drafts *)

(** The model's own choice at each row. *)
Definition targets (rows : list (list f32)) : list TokenId := greedy_sample <$> rows.

(** A draft token that was accepted reports no log probability. *)
Definition accepted (d : TokenId) : TokenId * option f32 := (d, None).

Lemma verify_loop_spec q rows drafts : ∀ j acc x,
  j + length drafts ≤ length rows →
  let m := length (accept_matching_prefix drafts (drop j (targets rows))) in
  match rows !! (j + m) with
  | Some row =>
      if m <? length drafts then
        verify_loop q rows j drafts acc x =
          let '(o, x1) := draw x q row (cur_generated q (length acc + m)) in
          (acc ++ (accepted <$> take m drafts) ++ [o], x1)
      else m = length drafts ∧ verify_loop q rows j drafts acc x = (acc ++ (accepted <$> drafts), x)
  | None => m = length drafts ∧ verify_loop q rows j drafts acc x = (acc ++ (accepted <$> drafts), x)
  end.
Proof.
  cbv zeta. induction drafts as [|d drafts IH]; intros j acc x Hlen; cbn [accept_matching_prefix length verify_loop] in *.
  { rewrite app_nil_r. by destruct (rows !! _). }
  destruct (lookup_lt_is_Some_2 rows j ltac:(lia)) as [row Hrow]. rewrite Hrow.
  assert (Htgt : drop j (targets rows) = greedy_sample row :: drop (S j) (targets rows)).
  { apply drop_S. unfold targets. by rewrite list_lookup_fmap, Hrow. }
  rewrite Htgt. change (as_u32 (N.of_nat (argmax_impl row))) with (greedy_sample row).
  rewrite (N.eqb_sym d). destruct (N.eqb_spec (greedy_sample row) d) as [Hd|Hd]; cbn [length].
  - specialize (IH (S j) (acc ++ [(d, None)]) x ltac:(lia)).
    rewrite length_app in IH. cbn [length] in IH. rewrite Nat.add_succ_r, <- Nat.add_succ_l.
    set (m := length (accept_matching_prefix drafts (drop (S j) (targets rows)))) in *.
    change (S m <? S (length drafts)) with (m <? length drafts).
    destruct (rows !! _) as [row'|].
    + destruct (m <? length drafts) eqn:Em.
      * rewrite IH. replace (length acc + 1 + m) with (length acc + S m) by lia.
        destruct (draw x q row' (cur_generated q (length acc + S m))) as [o x1].
        cbn [take]. rewrite fmap_cons, <- app_assoc. done.
      * destruct IH as [<- ->]. split; [done |]. by rewrite <- app_assoc.
    + destruct IH as [<- ->]. split; [done |]. by rewrite <- app_assoc.
  - rewrite Nat.add_0_r, Hrow. cbn [Nat.ltb Nat.leb take fmap list_fmap app]. rewrite Nat.add_0_r. by destruct (draw _ _ _ _).
Qed.

(** Verification of drafts, exactly.  With one row of logits per draft and one
    more, the request gets the drafts up to the first that differs from the
    model's own choice, then a token sampled from the row at that place (the row
    after the last draft when all agree); and when it is the last draft that is
    rejected one more token, sampled from the row after it. *)
Theorem verify_exact q rows drafts n x (Hne : drafts ≠ []) (Hrows : length rows = S (length drafts)) :
  let k := length drafts in
  let m := length (accept_matching_prefix drafts (targets rows)) in
  m ≤ k ∧ take m drafts = take m (targets rows)
  ∧ (∀ d t, drafts !! m = Some d → targets rows !! m = Some t → d ≠ t)
  ∧ ∃ row last_row, rows !! m = Some row ∧ rows !! k = Some last_row ∧
    let '(o, x1) := draw x q row (cur_generated q m) in
    verify q rows drafts n x =
      if S m =? k then
        let '(o2, x2) := draw x1 q last_row (cur_generated q k) in
        Some (Ok ((accepted <$> take m drafts) ++ [o; o2]), x2)
      else Some (Ok ((accepted <$> take m drafts) ++ [o]), x1).
Proof.
  cbv zeta. pose proof (verify_loop_spec q rows drafts 0 [] x ltac:(lia)) as Hl.
  destruct (accept_matching_prefix_spec drafts (targets rows)) as (H1 & H2 & H3 & H4).
  rewrite drop_0 in Hl. set (m := length (accept_matching_prefix drafts (targets rows))) in *.
  assert (Hmk : m ≤ length drafts) by (apply (f_equal length) in H1; rewrite length_take in H1; fold m in H1; lia).
  cbv zeta in Hl. cbn [length app Nat.add] in Hl. split; [done |]. split; [done |]. split; [done |].
  destruct (lookup_lt_is_Some_2 rows m ltac:(lia)) as [row Hrow].
  destruct (lookup_lt_is_Some_2 rows (length drafts) ltac:(lia)) as [lrow Hlrow].
  exists row, lrow. split; [done |]. split; [done |]. rewrite Hrow in Hl.
  assert (Hlast : Nat.min (length drafts) (length rows - 1) = length drafts) by lia.
  assert (Hpos : 0 < length drafts) by (destruct drafts; [done | simpl; lia]).
  unfold verify. rewrite Hlast, Hlrow. cbn [default from_option id].
  rewrite (proj2 (Nat.ltb_lt 0 (length drafts))), (proj2 (Nat.ltb_lt (length drafts) (length rows))) by lia.
  destruct (Nat.ltb_spec m (length drafts)) as [Hm|Hm].
  - rewrite Hl. clear Hl. destruct (draw x q row (cur_generated q m)) as [o x1].
    assert (Hlen : length ((accepted <$> take m drafts) ++ [o]) = S m) by (rewrite length_app, length_fmap, length_take; simpl; lia).
    rewrite Hlen, !andb_true_r. destruct (Nat.eqb_spec (S m) (length drafts)) as [Hk|Hk].
    + rewrite Hk. destruct (draw x1 q lrow (cur_generated q (length drafts))) as [o2 x2]. rewrite <- app_assoc. cbn [app].
      by destruct (accepted <$> take m drafts).
    + by destruct (accepted <$> take m drafts).
  - destruct Hl as [Hk Hl]. rewrite Hl, length_fmap, Nat.eqb_refl, !andb_true_r. rewrite <- Hk in *.
    assert (lrow = row) as -> by congruence.
    destruct (draw x q row (cur_generated q m)) as [o x1]. rewrite (proj2 (Nat.eqb_neq (S m) m)) by lia.
    rewrite take_ge by lia. by destruct (accepted <$> drafts).
Qed.

(** ** Speculation and greedy decoding *)

(** Parameters whose sampled token is the best of the raw logits. *)
Definition plain (p : SamplingParams Value) : Prop :=
  is_greedy p = true ∧ logit_bias p = ∅ ∧ F32.eqb (repetition_penalty p) F32.one = true
  ∧ F32.eqb (frequency_penalty p) F32.zero = true ∧ F32.eqb (presence_penalty p) F32.zero = true
  ∧ allowed_token_ids p = None ∧ min_tokens p = 0%N.

Lemma draw_plain x q row n : plain (sq_params q) → (draw x q row n).1.1 = greedy_sample row.
Proof.
  intros (Hg & Hb & Hr & Hf & Hp & Ha & Hm). unfold draw. destruct (thread_next (ux_thread_rng x)) as [entropy rng].
  unfold sample. cbn [sampling_input si_logits si_params]. destruct row as [|l row]; [done |]. rewrite Hg. cbn [negb].
  assert (E : prepare_logits expf lnf (sampling_input x q (l :: row) n) false false = l :: row).
  { unfold prepare_logits, apply_masks, apply_penalties. cbn [sampling_input si_logits si_params si_context_token_ids si_bad_word_token_ids].
    rewrite Hb, Hr, Hf, Hp, Ha, Hm, bool_decide_eq_true_2 by done. cbn [foldl andb].
    by destruct (sq_context q). }
  rewrite E. by destruct (report_logprobs _ _ _ _) as [lp top].
Qed.

(** Decoding one token at a time with the model [lm], taking the best each time. *)
Fixpoint greedy_decode (lm : list TokenId → list f32) (n : nat) (ctx : list TokenId) : list TokenId :=
  match n with
  | 0 => []
  | S n => let t := greedy_sample (lm ctx) in t :: greedy_decode lm n (ctx ++ [t])
  end.

(** Rows of a causal model: each depends on the tokens before it only. *)
Definition causal_rows (lm : list TokenId → list f32) (ctx drafts : list TokenId) (rows : list (list f32)) : Prop :=
  length rows = S (length drafts) ∧ ∀ j, j ≤ length drafts → rows !! j = Some (lm (ctx ++ take j drafts)).

Lemma greedy_decode_drafts lm ds : ∀ ctx,
  (∀ j d, ds !! j = Some d → d = greedy_sample (lm (ctx ++ take j ds))) →
  greedy_decode lm (S (length ds)) ctx = ds ++ [greedy_sample (lm (ctx ++ ds))].
Proof.
  induction ds as [|d ds IH]; intros ctx Hd; [cbn; by rewrite app_nil_r |].
  cbn [length]. change (greedy_decode lm (S (S (length ds))) ctx) with
    (greedy_sample (lm ctx) :: greedy_decode lm (S (length ds)) (ctx ++ [greedy_sample (lm ctx)])).
  assert (greedy_sample (lm ctx) = d) as -> by (rewrite (Hd 0 d eq_refl); cbn; by rewrite app_nil_r).
  rewrite IH; [by rewrite <- app_assoc |]. intros j e He. rewrite (Hd (S j) e He). cbn [take]. by rewrite <- app_assoc.
Qed.

(** C13. Speculation does not change what greedy decoding says.  For a plain
    request (temperature zero and neither bias, penalties, allowed tokens nor a
    minimum length: [plain]; with any of them see [drafts_skip_penalties]), and rows that a causal model computed
    for the context and the drafts, the step's tokens up to the first correction
    (or the bonus token) are exactly what decoding one token at a time would
    give, and there are no others, except when it is the last draft that is
    rejected: one more token then follows. *)
Theorem speculation_is_greedy lm q rows drafts n x
    (Hne : drafts ≠ []) (Hplain : plain (sq_params q)) (Hlm : causal_rows lm (sq_context q) drafts rows) :
  let k := length drafts in
  let m := length (accept_matching_prefix drafts (targets rows)) in
  ∃ l x', verify q rows drafts n x = Some (Ok l, x')
  ∧ take (S m) l.*1 = greedy_decode lm (S m) (sq_context q)
  ∧ length l = S m + (if S m =? k then 1 else 0).
Proof.
  destruct Hlm as [Hlen Hrow].
  cbv zeta. pose proof (verify_loop_spec q rows drafts 0 [] x ltac:(lia)) as Hl.
  destruct (accept_matching_prefix_spec drafts (targets rows)) as (H1 & H2 & H3 & _).
  rewrite drop_0 in Hl. set (m := length (accept_matching_prefix drafts (targets rows))) in *.
  assert (Hmk : m ≤ length drafts) by (apply (f_equal length) in H1; rewrite length_take in H1; fold m in H1; lia).
  cbv zeta in Hl. cbn [length app Nat.add] in Hl. rewrite (Hrow m Hmk) in Hl.
  assert (Hdec : greedy_decode lm (S m) (sq_context q) = take m drafts ++ [greedy_sample (lm (sq_context q ++ take m drafts))]).
  { assert (length (take m drafts) = m) as Em by (rewrite length_take; lia).
    rewrite <- Em at 1. apply greedy_decode_drafts. intros j d Hj. pose proof (lookup_lt_Some _ _ _ Hj) as Hjm. rewrite Em in Hjm.
    rewrite H2, lookup_take_lt in Hj by done. unfold targets in Hj. rewrite list_lookup_fmap, Hrow in Hj by lia.
    injection Hj as <-. rewrite take_take, Nat.min_l by lia. done. }
  assert (Hfst : ∀ ds, (accepted <$> ds).*1 = ds) by (intros ds; rewrite <- list_fmap_compose; apply list_fmap_id).
  assert (Hpos : 0 < length drafts) by (destruct drafts; [done | simpl; lia]).
  assert (Htake : ∀ (o : TokenId * option f32) rest, o.1 = greedy_sample (lm (sq_context q ++ take m drafts)) →
    take (S m) ((accepted <$> take m drafts) ++ o :: rest).*1 = greedy_decode lm (S m) (sq_context q)).
  { intros o rest Ho. rewrite Hdec, fmap_app, Hfst, take_app, length_take, Nat.min_l by lia.
    rewrite (take_ge (take m drafts)) by (rewrite length_take; lia). replace (S m - m) with 1 by lia. cbn. by rewrite Ho. }
  unfold verify. rewrite (proj2 (Nat.ltb_lt 0 (length drafts))), (proj2 (Nat.ltb_lt (length drafts) (length rows))) by lia.
  pose proof (draw_plain x q (lm (sq_context q ++ take m drafts)) (cur_generated q m) Hplain) as Hd.
  destruct (Nat.ltb_spec m (length drafts)) as [Hm|Hm].
  - rewrite Hl. clear Hl. destruct (draw x q _ (cur_generated q m)) as [o x1]. cbn [fst] in Hd.
    assert (Hlo : length ((accepted <$> take m drafts) ++ [o]) = S m) by (rewrite length_app, length_fmap, length_take; simpl; lia).
    rewrite Hlo, !andb_true_r. destruct (Nat.eqb_spec (S m) (length drafts)) as [Hk|Hk].
    + destruct (draw x1 q _ _) as [o2 x2]. rewrite <- app_assoc. cbn [app].
      exists ((accepted <$> take m drafts) ++ [o; o2]), x2. split_and!; [by destruct (accepted <$> take m drafts) | by apply Htake |].
      rewrite length_app, length_fmap, length_take. simpl. lia.
    + exists ((accepted <$> take m drafts) ++ [o]), x1. split_and!; [by destruct (accepted <$> take m drafts) | by apply Htake | lia].
  - destruct Hl as [Hk Hl]. rewrite Hl, length_fmap, Nat.eqb_refl, !andb_true_r.
    replace (Nat.min (length drafts) (length rows - 1)) with (length drafts) by lia. rewrite <- Hk, Hrow by lia. cbn [default from_option id].
    destruct (draw x q _ (cur_generated q m)) as [o x1]. cbn [fst] in Hd.
    assert (Hall : take m drafts = drafts) by (apply take_ge; lia). rewrite (proj2 (Nat.eqb_neq (S m) m)) by lia.
    exists ((accepted <$> drafts) ++ [o]), x1. split_and!; [by destruct (accepted <$> drafts) | |].
    + rewrite <- Hall. by apply Htake.
    + rewrite length_app, length_fmap. simpl. lia.
Qed.

(** ** A step without speculation *)

(** A request's state after the step: one more token, and its tokens computed. *)
Definition after_step (is_prefill : bool) (n_tokens : nat) (t : TokenId) (s : RunnerRequestState (KV := KV)) :
    RunnerRequestState (KV := KV) :=
  mkRunnerState (rs_prompt_token_ids s) (rs_generated_token_ids s ++ [t])
    (rs_num_computed_tokens s + if is_prefill then n_tokens else 1) (rs_kv_cache s).

Lemma runner_draw x q row n : runner (draw x q row n).2 = runner x.
Proof.
  unfold draw. destruct (thread_next (ux_thread_rng x)). by destruct (sample _ _ _ _ _ _).
Qed.

Lemma normal_step_spec t id pref off n vs row s x :
  mr_request_states (runner x) !! id = Some s →
  tensor_row t (off + n - 1) = Ok row → plain (sq_params (seq_info (runner x) id)) →
  ∃ lp x', normal_step (Some t) id pref off n vs (seq_info (runner x) id) x
      = Some (Ok (mkPerRequestOutput id [greedy_sample row] [lp]), x')
    ∧ runner x' = with_states (<[id := after_step pref n (greedy_sample row) s]> (mr_request_states (runner x))) (runner x).
Proof.
  intros Hs Ht Hp. set (q := seq_info (runner x) id) in *. unfold normal_step.
  erewrite m_bind_step; cycle 1.
  { unfold last_logits. cbn [mbind option_bind]. unfold is_ok_row. by rewrite Ht. }
  pose proof (draw_plain x q row (sq_num_generated q) Hp) as Hd. pose proof (runner_draw x q row (sq_num_generated q)) as Hr.
  unfold m_bind at 1. destruct (draw x q row (sq_num_generated q)) as [[tok lp] x1]. cbn [fst snd] in Hd, Hr. subst tok.
  cbn [mbind option_bind fst snd].
  exists lp. destruct pref; unfold m_bind, m_runner; rewrite Hr.
  - unfold advance_computed at 1. rewrite Hs. cbn [mbind option_bind fst snd].
    unfold update_runner, with_worker, runner. cbn [ux_worker with_runner w_model_runner].
    unfold store_generated_token. cbn [with_states mr_request_states]. rewrite lookup_insert_eq. cbn [mbind option_bind].
    eexists. split; [reflexivity |]. cbn. by rewrite insert_insert_eq.
  - unfold store_generated_token at 1. rewrite Hs. cbn [mbind option_bind fst snd].
    unfold update_runner, with_worker, runner. cbn [ux_worker with_runner w_model_runner].
    unfold advance_computed. cbn [with_states mr_request_states]. rewrite lookup_insert_eq. cbn [mbind option_bind].
    eexists. split; [reflexivity |]. cbn. by rewrite insert_insert_eq.
Qed.

(** The row of logits after the last token of the [i]th sequence. *)
Definition last_row (es : list Entry) (i : nat) : nat := sum_list (e_count <$> take (S i) es) - 1.

Definition plain_requests (r : Runner) (es : list Entry) : Prop :=
  ∀ e, e ∈ es → plain (default SamplingParams_default (get_sampling_params r (e_id e))).

Lemma sequences_loop_spec t bs es vs (row : nat → list f32) :
  (∀ i, i < length es → tensor_row t (last_row es i) = Ok (row i)) →
  ∀ n k outs x, k + n = length es → length outs = k →
  (∀ e, e ∈ drop k es → is_Some (mr_request_states (runner x) !! e_id e)) →
  plain_requests (runner x) es → NoDup (e_id <$> drop k es) →
  ∃ outs' x', sequences_loop (batch_of bs es) (Some t) ∅ vs (seq k n) (sum_list (e_count <$> take k es)) outs x
      = Some (Ok (outs ++ outs'), x')
    ∧ (∀ i e, es !! (k + i) = Some e →
         ∃ lp, outs' !! i = Some (mkPerRequestOutput (e_id e) [greedy_sample (row (k + i))] [lp]))
    ∧ length outs' = n
    ∧ (∀ i e, es !! (k + i) = Some e → ∃ s, mr_request_states (runner x) !! e_id e = Some s
         ∧ mr_request_states (runner x') !! e_id e = Some (after_step (e_prefill e) (e_count e) (greedy_sample (row (k + i))) s))
    ∧ (∀ id, id ∉ e_id <$> drop k es → mr_request_states (runner x') !! id = mr_request_states (runner x) !! id).
Proof.
  intros Hrow. induction n as [|n IH]; intros k outs x Hkn Houts Hsome Hplain Hnd.
  { exists [], x. cbn [seq sequences_loop]. rewrite app_nil_r. split_and!; try done;
      intros i e He; apply lookup_lt_Some in He; lia. }
  cbn [seq sequences_loop]. destruct (lookup_lt_is_Some_2 es k ltac:(lia)) as [e He].
  rewrite (drop_S es e k He) in Hsome, Hnd |- *. cbn [fmap list_fmap] in Hnd. apply NoDup_cons in Hnd as [Hfresh Hnd].
  assert (Hpanic : ∀ {A} (f : Entry → A), m_panic ((f <$> es) !! k) x = Some (Ok (f e), x)).
  { intros A f. unfold m_panic. by rewrite list_lookup_fmap, He. }
  cbn [batch_of ib_request_ids ib_tokens_per_seq ib_is_prefill].
  erewrite m_bind_step by apply Hpanic. erewrite m_bind_step by apply Hpanic. erewrite m_bind_step by apply Hpanic.
  unfold m_get at 1. erewrite m_bind_step by reflexivity. rewrite lookup_empty.
  destruct (Hsome e ltac:(by left)) as [s Hs].
  assert (Hoff : sum_list (e_count <$> take (S k) es) = sum_list (e_count <$> take k es) + e_count e).
  { rewrite (take_S_r _ _ _ He), fmap_app, sum_list_app. cbn. lia. }
  destruct (normal_step_spec t (e_id e) (e_prefill e) (sum_list (e_count <$> take k es)) (e_count e) vs (row k) s x Hs) as (lp & x1 & E1 & R1).
  { rewrite <- Hoff. apply (Hrow k). lia. }
  { unfold seq_info. destruct (default _ _) as [p g]. apply Hplain. by eapply list_elem_of_lookup_2. }
  erewrite m_bind_step by exact E1. rewrite <- Hoff.
  assert (Hother : ∀ id, id ≠ e_id e → mr_request_states (runner x1) !! id = mr_request_states (runner x) !! id).
  { intros id Hid. rewrite R1. cbn [with_states mr_request_states]. by rewrite lookup_insert_ne. }
  destruct (IH (S k) (outs ++ [mkPerRequestOutput (e_id e) [greedy_sample (row k)] [lp]]) x1) as (outs' & x' & E & Ho & Hlen & Hst & Hun).
  { lia. }
  { rewrite length_app. simpl. lia. }
  { intros e' He'. rewrite Hother; [apply Hsome; by right |]. intros Eid. apply Hfresh. rewrite <- Eid. by apply list_elem_of_fmap_2. }
  { intros e' He'. unfold get_sampling_params. rewrite R1. by apply Hplain. }
  { done. }
  exists (mkPerRequestOutput (e_id e) [greedy_sample (row k)] [lp] :: outs'), x'. rewrite E, <- app_assoc. split; [done |].
  split_and!.
  - intros [|i] e' He'.
    + rewrite Nat.add_0_r in He' |- *. simplify_eq. by exists lp.
    + rewrite Nat.add_succ_r in He' |- *. apply (Ho i e' He').
  - simpl. lia.
  - intros [|i] e' He'.
    + rewrite Nat.add_0_r in He' |- *. simplify_eq. exists s. split; [done |]. rewrite Hun by done. rewrite R1.
      cbn [with_states mr_request_states]. by rewrite lookup_insert_eq.
    + rewrite Nat.add_succ_r in He' |- *. destruct (Hst i e' He') as (s' & Hs' & Hs''). exists s'. split; [| done].
      rewrite <- Hs'. symmetry. apply Hother. intros Eid. apply Hfresh. rewrite <- Eid. apply list_elem_of_fmap_2.
      apply list_elem_of_lookup. exists i. by rewrite lookup_drop.
  - intros id Hid. cbn [fmap list_fmap] in Hid. apply not_elem_of_cons in Hid as [H1 H2]. rewrite Hun by done. by apply Hother.
Qed.

(** Parameters that ask for drafts. *)
Definition asks_drafts (p : SamplingParams Value) : bool :=
  match speculative_decoding p with
  | Some cfg => sd_enabled cfg && (0 <? sd_num_speculative_tokens cfg) && bool_decide (sd_proposer cfg = "ngram")
  | None => false
  end.

Lemma propose_loop_none ids dm x :
  (∀ id p, id ∈ ids → get_sampling_params (runner x) id = Some p → asks_drafts p = false) →
  propose_loop ids dm x = Some (Ok dm, x).
Proof.
  induction ids as [|id ids IH]; intros H; [done |]. cbn [propose_loop]. unfold m_get at 1.
  erewrite m_bind_step by reflexivity.
  assert (IH' : propose_loop ids dm x = Some (Ok dm, x)) by (apply IH; intros; eapply H; [by right | done]).
  destruct (get_sampling_params (runner x) id) as [p|] eqn:Ep; cbn [mbind option_bind]; [| exact IH'].
  specialize (H id p ltac:(by left) Ep). unfold asks_drafts in H.
  destruct (speculative_decoding p) as [cfg|]; [| exact IH']. by rewrite H.
Qed.

Lemma entries_of_scheduled (r : Runner) out (ids : list RequestId) e : e ∈ omap (entry_of r out) ids →
  e_id e ∈ ids ∧ ∃ s, mr_request_states r !! e_id e = Some s ∧ entry_of r out (e_id e) = Some e.
Proof.
  intros (id & Hid & He)%list_elem_of_omap. assert (e_id e = id ∧ ∃ s, mr_request_states r !! id = Some s) as [-> [s Hs]].
  { unfold entry_of in He. destruct (mr_request_states r !! id) as [s|]; [| done]. cbn [mbind option_bind] in He.
    case_match; [done |]. destruct (if bool_decide (id ∈ scheduled_new out) then _ else _); [| done].
    cbn [mbind option_bind] in He. injection He as <-. split; [done | by exists s]. }
  split; [done | by exists s].
Qed.

Lemma entries_NoDup (r : Runner) out (ids : list RequestId) : NoDup ids → NoDup (e_id <$> omap (entry_of r out) ids).
Proof.
  induction 1 as [|id ids Hid _ IH]; [constructor |]. cbn [omap list_omap].
  destruct (entry_of r out id) as [e|] eqn:E; [| exact IH]. cbn [fmap list_fmap]. constructor; [| exact IH].
  intros (e' & Eid & He')%list_elem_of_fmap. apply entries_of_scheduled in He' as [Hin _].
  assert (e_id e = id) as Ee.
  { unfold entry_of in E. destruct (mr_request_states r !! id); [| done]. cbn [mbind option_bind] in E. case_match; [done |].
    destruct (if bool_decide (id ∈ scheduled_new out) then _ else _); [| done]. cbn [mbind option_bind] in E. by injection E as <-. }
  apply Hid. by rewrite <- Ee, Eid.
Qed.

Lemma entries_prefill_first (r : Runner) out :
  NoDup (scheduled_new out ++ scheduled_running out) →
  prefill_first (omap (entry_of r out) (scheduled_new out ++ scheduled_running out)).
Proof.
  intros (_ & Hdis & _)%NoDup_app.
  assert (Hpre : ∀ id e, entry_of r out id = Some e → e_prefill e = bool_decide (id ∈ scheduled_new out)).
  { intros id e E. unfold entry_of in E. destruct (mr_request_states r !! id); [| done]. cbn [mbind option_bind] in E.
    case_match; [done |]. destruct (if bool_decide (id ∈ scheduled_new out) then _ else _); [| done].
    cbn [mbind option_bind] in E. by injection E as <-. }
  eexists _, _. split; [apply omap_app |].
  split; apply Forall_forall; intros e (id & Hid & He)%list_elem_of_omap; rewrite (Hpre _ _ He).
  - by apply bool_decide_eq_true.
  - apply bool_decide_eq_false. intros Hn. by apply (Hdis id).
Qed.

(** C17. One step of the executor.  When nobody asks for drafts and the paged pass
    returns logits for the batch it was given, and every request of the batch is plain
    (temperature zero and no processor of the logits: [plain_requests]), a step
    succeeds and answers every sequence of the batch, in batch order, with one
    token, the best of the row after the sequence's own last token, whatever else
    is in the batch; each of these requests then has that
    token appended and its scheduled tokens counted as computed, the finished and
    preempted requests are gone, and every other request is untouched. *)
Theorem uniproc_step_exact x out model cache (t : Tensor) (row : nat → list f32)
    (Hmodel : w_candle_model (ux_worker x) = Some model) (Hcache : w_gpu_kv_cache (ux_worker x) = Some cache)
    (Hpos : 0 < mr_block_size (runner x)) (Hmax : (N.of_nat (mr_block_size (runner x)) <= u32_max)%N)
    (Hnd : NoDup (scheduled_new out ++ scheduled_running out))
    (Hspec : ∀ id p, id ∈ scheduled_running out → get_sampling_params (runner x) id = Some p → asks_drafts p = false) :
  let bs := mr_block_size (runner x) in
  let r0 := foldl remove_request (foldl remove_request (runner x) (finished_ids out)) (preempted out) in
  let es := omap (entry_of r0 out) (scheduled_new out ++ scheduled_running out) in
  es ≠ [] → entries_fit es → tables_cover bs es → no_drafts es →
  (N.of_nat (sum_list (e_count <$> es)) <= u32_max)%N →
  plain_requests r0 es →
  (∀ meta, metadata_of bs es meta → ∃ ids mem, input_tensor model (concat (e_tokens <$> es)) = Ok ids
     ∧ forward_paged model ids (N.to_nat <$> concat (e_positions <$> es)) cache meta (w_memory (ux_worker x)) = (Ok t, mem)) →
  (∀ i, i < length es → tensor_row t (last_row es i) = Ok (row i)) →
  ∃ o x', uniproc_execute out x = Some (Ok o, x')
  ∧ length (per_request_outputs o) = length es
  ∧ (∀ i e, es !! i = Some e →
       ∃ lp, per_request_outputs o !! i = Some (mkPerRequestOutput (e_id e) [greedy_sample (row i)] [lp]))
  ∧ (∀ i e, es !! i = Some e → ∃ s, mr_request_states (runner x) !! e_id e = Some s
       ∧ mr_request_states (runner x') !! e_id e = Some (after_step (e_prefill e) (e_count e) (greedy_sample (row i)) s))
  ∧ (∀ id, id ∉ e_id <$> es → mr_request_states (runner x') !! id =
       if decide (id ∈ finished_ids out ∨ id ∈ preempted out) then None else mr_request_states (runner x) !! id).
Proof.
  cbv zeta. set (bs := mr_block_size (runner x)).
  set (r0 := foldl remove_request (foldl remove_request (runner x) (finished_ids out)) (preempted out)).
  set (es := omap (entry_of r0 out) (scheduled_new out ++ scheduled_running out)).
  intros Hne Hfit Htab Hnodr Hsum Hplain Hfwd Hrow.
  pose proof (entries_prefill_first r0 out Hnd : prefill_first es) as Hfirst.
  destruct (build_tensors_spec (runner x) out Hpos Hmax Hfit) as (r' & Eb & Hsame & Hst).
  fold r0 es bs in Eb, Hsame, Hst.
  destruct (build_attention_metadata_spec bs es Htab Hfit Hfirst Hnodr Hsum) as (meta & Em & Hmeta).
  destruct (Hfwd meta Hmeta) as (ids & mem & Ei & Ef).
  unfold uniproc_execute. erewrite m_bind_step by (apply propose_loop_none; exact Hspec).
  erewrite m_bind_step by (unfold m_build; rewrite Eb; reflexivity). cbn [fst snd].
  set (x1 := update_runner (λ _, r') x).
  destruct (Nat.eqb_spec (ib_num_seqs (batch_of bs es)) 0) as [Hz|_]; [cbn in Hz; by apply nil_length_inv in Hz |].
  erewrite m_bind_step by (unfold m_panic; rewrite Em; reflexivity).
  erewrite m_bind_step by reflexivity.
  erewrite m_bind_step; cycle 1.
  { unfold batched_forward. subst x1. unfold update_runner, with_worker. cbn [ux_worker with_runner w_candle_model w_gpu_kv_cache].
    rewrite Hmodel, Hcache. cbn [batch_of ib_token_ids ib_positions]. rewrite Ei. unfold forward_paged_batch.
    unfold with_runner. cbn [ux_worker w_gpu_kv_cache w_candle_model w_memory]. rewrite ?Hcache, ?Hmodel, Ef. reflexivity. }
  match goal with |- context [sequences_loop _ _ _ _ _ _ _ _] => idtac | |- context [m_bind _ _ ?y] => set (x2 := y) end.
  assert (R2 : runner x2 = r') by done.
  destruct Hsame as (Hs1 & _ & Hs3 & _ & _).
  destruct (sequences_loop_spec t bs es (runner_vocab_size (runner x1)) row Hrow (length es) 0 [] x2) as (outs & x3 & El & Ho & Hlen & Hst3 & Hun).
  { done. }
  { done. }
  { intros e He. rewrite drop_0 in He. apply entries_of_scheduled in He as (_ & s & Hs & _). rewrite R2, <- Hs1, Hs. by eexists. }
  { intros e He. unfold get_sampling_params. rewrite R2, <- Hs3. by apply Hplain. }
  { rewrite drop_0. by apply entries_NoDup. }
  cbn [take fmap list_fmap sum_list Nat.add app] in El, Ho, Hst3. rewrite drop_0 in Hun.
  cbn [batch_of ib_num_seqs]. fold (batch_of bs es).
  erewrite m_bind_step by exact El.
  destruct (async_output_copy (runner x3) (outs ≫= pro_token_ids)) as [copied r3] eqn:Ec.
  assert (Hcopy : mr_request_states r3 = mr_request_states (runner x3)).
  { unfold async_output_copy in Ec. destruct (outs ≫= pro_token_ids); [by injection Ec as _ <- |].
    injection Ec as _ <-. by case_match. }
  erewrite m_bind_step by (unfold m_runner; rewrite Ec; reflexivity).
  erewrite m_bind_step by reflexivity.
  eexists _, _. split; [reflexivity |]. cbn [per_request_outputs].
  change (mr_request_states (runner (update_runner _ _))) with (mr_request_states r3). rewrite Hcopy.
  assert (Hrun : ∀ id, mr_request_states (runner x2) !! id =
    if decide (id ∈ finished_ids out ∨ id ∈ preempted out) then None else mr_request_states (runner x) !! id).
  { intros id. rewrite R2. apply Hst. }
  split_and!; [done | exact Ho | |].
  - intros i e He. destruct (Hst3 i e He) as (s & Hs & Hs'). exists s. split; [| exact Hs'].
    rewrite Hrun in Hs. by destruct (decide _).
  - intros id Hid. rewrite Hun by done. apply Hrun.
Qed.

End uniproc.

(** ** Concrete runs *)

(** Greedy parameters, with [n] drafts when positive and n-grams from [lo]. *)
Definition greedy_params (n lo : nat) : SamplingParams unit :=
  let d := SamplingParams_default (Value := unit) in
  mkSamplingParams (sp_n d) (best_of d) (presence_penalty d) (frequency_penalty d) (repetition_penalty d)
    F32.zero (top_p d) (top_k d) (min_p d) (seed d) (stop d) (stop_token_ids d) (ignore_eos d) (max_tokens d)
    (min_tokens d) (logprobs d) (prompt_logprobs d) (detokenize d) (skip_special_tokens d)
    (spaces_between_special_tokens d) (include_stop_str_in_output d) (output_kind d) (logit_bias d)
    (allowed_token_ids d) (bad_words d) (structured_outputs d) (skip_reading_prefix_cache d)
    (if n =? 0 then None else Some (mkSpeculativeDecodingConfig true "ngram" n lo 4)).

(** The toy model on a device cache, in blocks of four. *)
Definition ToyExec : Type :=
  UniProcExecutor (Value := unit) (R := f32) (Ent := unit) (Model := ModelConfig) (Tensor := list (list f32))
    (KV := list TokenId) (Mem := gset nat) (Ptr := nat).

Definition toy_exec (states : list (RequestId * RunnerRequestState (KV := list TokenId)))
    (params : list (RequestId * SamplingParams unit)) : ToyExec :=
  mkUniProc
    (with_cache None (Some (mkGpuKVCache [] [] 8 1 8 4 4 DT_F32 [] []))
      (with_runner (with_params (list_to_map params) (with_states (list_to_map states) (runner_new toy_config 4))) toy_worker))
    sampler_new 4%N ().

Definition toy_show (_ : RequestId) : string := "r".
Definition toy_rng (e : unit) : f32 * unit := (half, e).

Definition toy_run (out : SchedulerOutput) (x : ToyExec) : option (result ExecutorOutput Error * ToyExec) :=
  uniproc_execute toy_show demo_exp demo_ln demo_next toy_rng out x.

Definition toy_plain : ToyExec :=
  toy_exec [(1%N, mkRunnerState [1; 2; 3]%N [] 0 [None]); (2%N, mkRunnerState [4; 5]%N [6%N] 2 [None])]
    [(1%N, greedy_params 0 2); (2%N, greedy_params 0 2)].

Lemma uniproc_step_exact_witness :
  ∃ o x', toy_run demo_out toy_plain = Some (Ok o, x')
    ∧ ∀ i e, demo_entries !! i = Some e → ∃ lp,
        per_request_outputs o !! i =
          Some (mkPerRequestOutput (e_id e) [greedy_sample (toy_row (nth i [3; 6]%N 0%N))] [lp]).
Proof.
  destruct (uniproc_step_exact toy_show demo_exp demo_ln demo_next toy_rng toy_plain demo_out toy_config
    (mkGpuKVCache [] [] 8 1 8 4 4 DT_F32 [] []) (toy_row <$> [1; 2; 3; 6]%N) (λ i, toy_row (nth i [3; 6]%N 0%N)))
    as (o & x' & E & _ & Ho & _).
  - reflexivity.
  - reflexivity.
  - vm_compute. lia.
  - vm_compute. congruence.
  - exact (bool_decide_unpack (NoDup [1%N; 2%N]) I).
  - intros id p Hid Hp. apply list_elem_of_singleton in Hid as ->. vm_compute in Hp. by injection Hp as <-.
  - discriminate.
  - intros e He. repeat (apply elem_of_cons in He as [->|He]; [vm_compute; congruence |]). by apply not_elem_of_nil in He.
  - exact demo_cover.
  - intros e He Hp. repeat (apply elem_of_cons in He as [->|He]; [by vm_compute in * |]). by apply not_elem_of_nil in He.
  - vm_compute. congruence.
  - intros e He. repeat (apply elem_of_cons in He as [->|He]; [by repeat split |]). by apply not_elem_of_nil in He.
  - intros meta _. eexists _, _. split; reflexivity.
  - intros [|[|i]] Hi; [reflexivity | reflexivity | vm_compute in Hi; lia].
  - exists o, x'. split; [exact E | exact Ho].
Defined.

#[local] Existing Instance demo_memory.

Lemma uniproc_contract_witness :
  ∃ o x', toy_run demo_out toy_plain = Some (Ok o, x')
    ∧ (pro_request_id <$> per_request_outputs o) `sublist_of` [1; 2]%N.
Proof.
  destruct (toy_run demo_out toy_plain) as [[[o|e] x']|] eqn:E; [| vm_compute in E; discriminate E ..].
  exists o, x'. split; [done |].
  exact (proj1 (uniproc_contract toy_show demo_exp demo_ln demo_next toy_rng toy_plain demo_out o x' E)).
Defined.

Definition toy_lm (ctx : list TokenId) : list f32 := toy_row (default 0%N (last ctx)).
Definition toy_seq (ctx : list TokenId) : SeqInfo := mkSeqInfo (greedy_params 0 2) ctx 0.
Definition toy_verify (ctx drafts : list TokenId) (rows : list (list f32)) (x : ToyExec) :
    option (result (list (TokenId * option f32)) Error * ToyExec) :=
  verify demo_exp demo_ln demo_next toy_rng (toy_seq ctx) rows drafts (S (length drafts)) x.

(** Two drafts, the second rejected. *)
Lemma verify_exact_witness :
  ∃ x', toy_verify [0]%N [1; 3]%N (toy_row <$> [0; 1; 3]%N) toy_plain
        = Some (Ok ((accepted <$> [1]%N) ++ [(2%N, None); (0%N, None)]), x').
Proof.
  destruct (verify_exact demo_exp demo_ln demo_next toy_rng (toy_seq [0]%N) (toy_row <$> [0; 1; 3]%N) [1; 3]%N 3 toy_plain)
    as (_ & _ & _ & row & lrow & Hrow & Hlrow & H); [discriminate | reflexivity |].
  vm_compute in Hrow, Hlrow. injection Hrow as <-. injection Hlrow as <-.
  eexists. etransitivity; [exact H |]. vm_compute. reflexivity.
Defined.

(** Both drafts accepted, and the bonus token. *)
Lemma speculation_is_greedy_witness :
  ∃ l x', toy_verify [0]%N [1; 2]%N (toy_row <$> [0; 1; 2]%N) toy_plain = Some (Ok l, x')
    ∧ take 3 l.*1 = greedy_decode toy_lm 3 [0]%N ∧ greedy_decode toy_lm 3 [0]%N = [1; 2; 3]%N.
Proof.
  destruct (speculation_is_greedy demo_exp demo_ln demo_next toy_rng toy_lm (toy_seq [0]%N) (toy_row <$> [0; 1; 2]%N) [1; 2]%N 3 toy_plain)
    as (l & x' & H & Ht & _).
  - discriminate.
  - by repeat split.
  - split; [reflexivity |]. intros [|[|[|j]]] Hj; [reflexivity | reflexivity | reflexivity | simpl in Hj; lia].
  - exists l, x'. split; [exact H |]. split; [exact Ht | vm_compute; reflexivity].
Defined.

(** When the last draft is rejected, the token after the correction is chosen from
    the row computed after the rejected draft: greedy decoding says 2 there. *)
Example last_draft_rejected :
  (match toy_verify [0]%N [2]%N (toy_row <$> [0; 2]%N) toy_plain with Some (Ok l, _) => l.*1 | _ => [] end) = [1; 3]%N
  ∧ causal_rows toy_lm [0]%N [2]%N (toy_row <$> [0; 2]%N)
  ∧ greedy_decode toy_lm 2 [0]%N = [1; 2]%N.
Proof.
  split; [vm_compute; reflexivity |]. split; [| vm_compute; reflexivity].
  split; [reflexivity |]. intros [|[|j]] Hj; [reflexivity | reflexivity | simpl in Hj; lia].
Qed.

(** A draft is accepted when it is the best of the raw logits, whatever the
    request's bias and penalties say: here the bias moves the next token from 1 to
    3, which is what the step without drafts answers, and the draft 1 is taken. *)
Definition with_bias (b : gmap N f32) (d : SamplingParams unit) : SamplingParams unit :=
  mkSamplingParams (sp_n d) (best_of d) (presence_penalty d) (frequency_penalty d) (repetition_penalty d)
    (temperature d) (top_p d) (top_k d) (min_p d) (seed d) (stop d) (stop_token_ids d) (ignore_eos d) (max_tokens d)
    (min_tokens d) (logprobs d) (prompt_logprobs d) (detokenize d) (skip_special_tokens d)
    (spaces_between_special_tokens d) (include_stop_str_in_output d) (output_kind d) b
    (allowed_token_ids d) (bad_words d) (structured_outputs d) (skip_reading_prefix_cache d) (speculative_decoding d).

Definition biased_seq : SeqInfo := mkSeqInfo (with_bias (<[1%N := F32.of_Z (-9)]> ∅) (greedy_params 0 2)) [0%N] 0.

Example drafts_skip_penalties :
  (draw demo_exp demo_ln demo_next toy_rng toy_plain biased_seq (toy_row 0) 0).1.1 = 3%N
  ∧ (match verify demo_exp demo_ln demo_next toy_rng biased_seq (toy_row <$> [0; 1]%N) [1%N] 2 toy_plain with
     | Some (Ok l, _) => take 1 l.*1 | _ => [] end) = [1%N].
Proof. split; vm_compute; reflexivity. Qed.

Definition toy_out (new running : list RequestId) (n : nat) : SchedulerOutput :=
  demo_sched_out new running (<[1%N := n]> ∅) [].

(** What a run answered, and the state of request 1 after it. *)
Definition answer (r : option (result ExecutorOutput Error * ToyExec)) : list (list TokenId) :=
  match r with Some (Ok o, _) => pro_token_ids <$> per_request_outputs o | _ => [] end.
Definition state_of (r : option (result ExecutorOutput Error * ToyExec)) : option (list TokenId * nat) :=
  '(_, x) ← r; s ← mr_request_states (runner x) !! 1%N; Some (rs_generated_token_ids s, rs_num_computed_tokens s).
Definition and_then (r : option (result ExecutorOutput Error * ToyExec)) (out : SchedulerOutput) :=
  '(_, x) ← r; toy_run out x.

(** Drafts outlive the step that verified them.  The first step proposes [3] and
    accepts it; the second finds no n-gram and proposes nothing, but the batch
    still holds the old draft after the last token 0, and the token is chosen
    after the draft: 0, where the model says 1 after 0. *)
Definition toy_speculating : ToyExec :=
  toy_exec [(1%N, mkRunnerState [1; 2; 3; 1]%N [2%N] 4 [None])] [(1%N, greedy_params 1 2)].

Example stale_drafts :
  let step1 := toy_run (toy_out [] [1%N] 1) toy_speculating in
  answer step1 = [[3; 0]]%N ∧ answer (and_then step1 (toy_out [] [1%N] 1)) = [[0]]%N
  ∧ greedy_sample (toy_lm [1; 2; 3; 1; 2; 3; 0]%N) = 1%N.
Proof. vm_compute. split_and!; reflexivity. Qed.

(** Rejected drafts count as computed: one token is stored and four are counted. *)
Definition toy_rejecting : ToyExec :=
  toy_exec [(1%N, mkRunnerState [0; 1; 3; 3; 3; 0]%N [1%N] 6 [None])] [(1%N, greedy_params 3 2)].

Example rejected_drafts_counted :
  let step1 := toy_run (toy_out [] [1%N] 1) toy_rejecting in
  answer step1 = [[2]]%N ∧ state_of step1 = Some ([1; 2]%N, 10).
Proof. vm_compute. split; reflexivity. Qed.

(** A request whose [min_ngram] is zero panics the executor's step. *)
Example zero_min_ngram_panics_step :
  toy_run (toy_out [] [1%N] 1) (toy_exec [(1%N, mkRunnerState [1; 2]%N [3%N] 2 [None])] [(1%N, greedy_params 1 0)]) = None.
Proof. vm_compute. reflexivity. Qed.

(** A chunk of a prompt is answered like a whole prompt, and the next step decodes
    after that answer: the third prompt token is never fed. *)
Example chunked_prefill_skips_prompt :
  let step1 := toy_run (toy_out [1%N] [] 2) (toy_exec [(1%N, mkRunnerState [1; 2; 0]%N [] 0 [None])] [(1%N, greedy_params 0 2)]) in
  let step2 := and_then step1 (toy_out [] [1%N] 1) in
  answer step1 = [[3]]%N ∧ answer step2 = [[0]]%N ∧ state_of step2 = Some ([3; 0]%N, 3).
Proof. vm_compute. split_and!; reflexivity. Qed.
