(* ===== verification/Tensors.v ===== *)
(** * Tensors, and loops over a buffer

    The tensor library (candle) as an interface: the calls the quantized layers
    make, with the laws its documentation states (a tensor built from a vector
    has that vector, shape and type; reading needs the right type; flattening
    and converting to the type it already has change no value).  Devices are
    left out: every tensor is on the host.  A list-backed instance shows the
    laws can hold.

    Then the counted loop of the layers, with its invariant rule, and buffers
    that are filled in index order. *)
From S2P Require Import Prelude F32 CoreTypes.
#[local] Open Scope list_scope.
#[local] Open Scope nat_scope.
#[local] Open Scope rllm_scope.

(** ** The tensor library *)
Inductive TDType : Type := T_F32 | T_F16 | T_BF16 | T_F64 | T_U8 | T_U32 | T_I32 | T_F8E4M3 | T_Other.

#[global] Instance TDType_eq_dec : EqDecision TDType.
Proof. solve_decision. Defined.

(** candle's errors are their messages. *)
Abbreviation TensorError := string (only parsing).

Class TensorLib (T : Type) : Type := {
  t_dims : T → list nat;
  t_dtype : T → TDType;
  t_to_dtype : T → TDType → result T TensorError;
  t_flatten_all : T → result T TensorError;
  t_to_vec1_f32 : T → result (list f32) TensorError;
  t_to_vec1_u8 : T → result (list N) TensorError;
  (** The bits of each 8-bit float. *)
  t_to_vec1_f8 : T → result (list N) TensorError;
  t_to_vec2_f32 : T → result (list (list f32)) TensorError;
  t_from_f32 : list f32 → list nat → result T TensorError;
  t_from_u8 : list N → list nat → result T TensorError;
  t_reshape : T → list nat → result T TensorError;
  t_t : T → result T TensorError;
  t_matmul : T → T → result T TensorError;
  t_broadcast_sub : T → T → result T TensorError;
  t_broadcast_mul : T → T → result T TensorError;
}.

Definition nprod (l : list nat) : nat := foldr Nat.mul 1 l.

(** The values of a tensor as [f32]. *)
Definition f32_values {T} `{!TensorLib T} (t : T) : result (list f32) TensorError :=
  t <-? t_to_dtype t T_F32;
  t <-? t_flatten_all t;
  t_to_vec1_f32 t.

Definition u8_values {T} `{!TensorLib T} (t : T) : result (list N) TensorError :=
  t <-? t_flatten_all t;
  t_to_vec1_u8 t.

(** Rows of a flat buffer. *)
Fixpoint rows_of {A} (width n : nat) (l : list A) : list (list A) :=
  match n with
  | 0 => []
  | S n => take width l :: rows_of width n (drop width l)
  end.

Class LawfulTensors (T : Type) `{!TensorLib T} : Prop := {
  from_f32_ok : ∀ v d, length v = nprod d →
    ∃ t, t_from_f32 v d = Ok t ∧ t_dims t = d ∧ t_dtype t = T_F32 ∧ f32_values t = Ok v;
  from_u8_ok : ∀ v d, length v = nprod d →
    ∃ t, t_from_u8 v d = Ok t ∧ t_dims t = d ∧ t_dtype t = T_U8 ∧ u8_values t = Ok v;
  to_same_dtype : ∀ t, t_to_dtype t (t_dtype t) = Ok t;
  f32_values_length : ∀ t v, f32_values t = Ok v → length v = nprod (t_dims t);
  to_dtype_dims : ∀ t d t', t_to_dtype t d = Ok t' → t_dims t' = t_dims t ∧ t_dtype t' = d;
  to_vec2_rows : ∀ t v r c, f32_values t = Ok v → t_dims t = [r; c] →
    ∃ t', t_to_dtype t T_F32 = Ok t' ∧ t_to_vec2_f32 t' = Ok (rows_of c r v);
  reshape_ok : ∀ t v d, t_dtype t = T_F32 → f32_values t = Ok v → nprod d = nprod (t_dims t) →
    ∃ t', t_reshape t d = Ok t' ∧ t_dims t' = d ∧ t_dtype t' = T_F32 ∧ f32_values t' = Ok v;
  (** A column of one value per row multiplies the rows. *)
  column_mul_ok : ∀ a b v s r c, t_dtype a = T_F32 → t_dtype b = T_F32 → t_dims a = [r; c] → t_dims b = [r; 1] →
    f32_values a = Ok v → f32_values b = Ok s →
    ∃ t, t_broadcast_mul a b = Ok t ∧ t_dims t = [r; c] ∧ t_dtype t = T_F32
      ∧ f32_values t = Ok (imap (λ i x, F32.mul x (default F32.zero (s !! (i / c)))) v);
  (** One value multiplies everything. *)
  scalar_mul_ok : ∀ a b v s, t_dtype a = T_F32 → t_dtype b = T_F32 → t_dims b = [1] →
    f32_values a = Ok v → f32_values b = Ok [s] →
    ∃ t, t_broadcast_mul a b = Ok t ∧ t_dims t = t_dims a ∧ t_dtype t = T_F32
      ∧ f32_values t = Ok ((λ x, F32.mul x s) <$> v);
}.

Lemma rows_of_seq {A} c r : ∀ (v : list A), rows_of c r v = (λ k, take c (drop (k * c) v)) <$> seq 0 r.
Proof.
  induction r as [|r IH]; intros v; [done |]. cbn [rows_of seq fmap list_fmap]. rewrite Nat.mul_0_l, drop_0. f_equal.
  rewrite IH, <- fmap_S_seq, <- list_fmap_compose. apply list_fmap_ext. intros _ k _. cbn [compose].
  by rewrite drop_drop.
Qed.

(** A function of each row and each of its elements, over all rows. *)
Lemma rows_bind {A B} (g : list A → A → B) (d : A) c r (v : list A) : r * c ≤ length v →
  rows_of c r v ≫= (λ row, g row <$> row)
  = (λ i, g (take c (drop (i / c * c) v)) (default d (v !! i))) <$> seq 0 (r * c).
Proof.
  rewrite rows_of_seq. induction r as [|r IH]; intros Hl; [done |].
  rewrite seq_S, fmap_app, bind_app, IH by lia. replace (S r * c) with (r * c + c) by lia.
  rewrite seq_app, fmap_app. f_equal. cbn [fmap list_fmap mbind list_bind app]. rewrite app_nil_r.
  apply list_eq. intros i. rewrite !list_lookup_fmap. destruct (decide (i < c)) as [Hi|Hi].
  - rewrite lookup_take_lt, lookup_drop, lookup_seq_lt by lia. cbn [fmap option_fmap option_map].
    destruct (lookup_lt_is_Some_2 v (r * c + i) ltac:(lia)) as [x Ex]. rewrite !Nat.add_0_l, Ex. cbn.
    replace ((r * c + i) / c) with r by (apply (Nat.div_unique _ _ _ i); lia). done.
  - rewrite !lookup_ge_None_2; [done | rewrite length_seq; lia | rewrite length_take; lia].
Qed.

(** ** A list-backed instance *)
Inductive HostData : Type := HD_f32 (v : list f32) | HD_u8 (v : list N) | HD_f8 (v : list N).
Record HostTensor : Type := mkHost { h_dims : list nat; h_data : HostData }.

Definition h_dtype (t : HostTensor) : TDType :=
  match h_data t with HD_f32 _ => T_F32 | HD_u8 _ => T_U8 | HD_f8 _ => T_F8E4M3 end.
Definition h_len (t : HostTensor) : nat :=
  match h_data t with HD_f32 v => length v | HD_u8 v => length v | HD_f8 v => length v end.

(** A tensor whose data does not fill its shape reads as an error. *)
Definition h_read {A} (t : HostTensor) (x : result A string) : result A string :=
  if h_len t =? nprod (h_dims t) then x else Err "shape mismatch"%string.

Definition h_to_dtype (t : HostTensor) (d : TDType) : result HostTensor string :=
  if decide (d = h_dtype t) then Ok t
  else match d, h_data t with
       | T_F32, HD_u8 v => Ok (mkHost (h_dims t) (HD_f32 (F32.of_N <$> v)))
       | _, _ => Err "unsupported conversion"%string
       end.

Definition h_zip (f : f32 → f32 → f32) (a b : HostTensor) : result HostTensor string :=
  match h_data a, h_data b with
  | HD_f32 v, HD_f32 w =>
      let at_ i := match h_dims b with
                   | [_; 1] => w !! (i / List.last (h_dims a) 1)
                   | _ => w !! 0
                   end in
      Ok (mkHost (h_dims a) (HD_f32 (imap (λ i x, f x (default F32.zero (at_ i))) v)))
  | _, _ => Err "dtype"%string
  end.

Definition h_matmul (a b : HostTensor) : result HostTensor string :=
  match h_dims a, h_data a, h_dims b, h_data b with
  | [n; k], HD_f32 v, [k'; m], HD_f32 w =>
      if k =? k' then
        Ok (mkHost [n; m] (HD_f32 (r ← seq 0 n; c ← seq 0 m;
          [foldl (λ acc i, F32.add acc (F32.mul (default F32.zero (v !! (r * k + i)))
                                                (default F32.zero (w !! (i * m + c)))))
             F32.zero (seq 0 k)])))
      else Err "shape"%string
  | _, _, _, _ => Err "shape"%string
  end.

Definition h_t (a : HostTensor) : result HostTensor string :=
  match h_dims a, h_data a with
  | [n; k], HD_f32 v =>
      Ok (mkHost [k; n] (HD_f32 (c ← seq 0 k; r ← seq 0 n; [default F32.zero (v !! (r * k + c))])))
  | _, _ => Err "shape"%string
  end.

#[local] Instance host_tensors : TensorLib HostTensor := {
  t_dims := h_dims;
  t_dtype := h_dtype;
  t_to_dtype := h_to_dtype;
  t_flatten_all t := h_read t (Ok (mkHost [h_len t] (h_data t)));
  t_to_vec1_f32 t := match h_dims t, h_data t with [_], HD_f32 v => h_read t (Ok v) | _, _ => Err "dtype"%string end;
  t_to_vec1_u8 t := match h_dims t, h_data t with [_], HD_u8 v => h_read t (Ok v) | _, _ => Err "dtype"%string end;
  t_to_vec1_f8 t := match h_dims t, h_data t with [_], HD_f8 v => h_read t (Ok v) | _, _ => Err "dtype"%string end;
  t_to_vec2_f32 t := match h_dims t, h_data t with
                     | [r; c], HD_f32 v => h_read t (Ok (rows_of c r v)) | _, _ => Err "dtype"%string end;
  t_from_f32 v d := if length v =? nprod d then Ok (mkHost d (HD_f32 v)) else Err "shape"%string;
  t_from_u8 v d := if length v =? nprod d then Ok (mkHost d (HD_u8 v)) else Err "shape"%string;
  t_reshape t d := if h_len t =? nprod d then Ok (mkHost d (h_data t)) else Err "shape"%string;
  t_t := h_t;
  t_matmul := h_matmul;
  t_broadcast_sub := h_zip F32.sub;
  t_broadcast_mul := h_zip F32.mul;
}.

Lemma h_read_full {A} t (x : A) : h_len t = nprod (h_dims t) → h_read t (Ok x) = Ok x.
Proof. intros E. unfold h_read. by rewrite E, Nat.eqb_refl. Qed.

Lemma h_read_Ok {A} t (x : result A string) y : h_read t x = Ok y → h_len t = nprod (h_dims t) ∧ x = Ok y.
Proof. unfold h_read. by destruct (Nat.eqb_spec (h_len t) (nprod (h_dims t))). Qed.

Lemma h_to_dtype_Ok t d t' : h_to_dtype t d = Ok t' → h_dims t' = h_dims t ∧ h_dtype t' = d ∧ h_len t' = h_len t.
Proof.
  unfold h_to_dtype. case_decide; [by intros [= <-] |].
  destruct d, t as [ds [v|v|v]]; try done. intros [= <-]. unfold h_len. cbn. by rewrite length_fmap.
Qed.

Lemma h_values_Ok (t : HostTensor) v :
  f32_values t = Ok v → ∃ t', h_to_dtype t T_F32 = Ok t' ∧ h_data t' = HD_f32 v ∧ h_len t' = nprod (h_dims t').
Proof.
  unfold f32_values. cbn. destruct (h_to_dtype t T_F32) as [t'|] eqn:E; [| done]. cbn. unfold h_read at 1.
  destruct (Nat.eqb_spec (h_len t') (nprod (h_dims t'))) as [Hl|]; [| done]. cbn.
  destruct (h_data t') as [w| |] eqn:Ed; [| done | done]. intros [_ [= ->]]%h_read_Ok. by exists t'.
Qed.

Lemma h_values_f32 d v : length v = nprod d → f32_values (mkHost d (HD_f32 v)) = Ok v.
Proof.
  intros E. unfold f32_values. change (t_to_dtype (mkHost d (HD_f32 v)) T_F32) with (@Ok _ string (mkHost d (HD_f32 v))).
  cbn [result_bind]. unfold t_flatten_all, host_tensors. rewrite h_read_full by done. cbn [result_bind].
  unfold t_to_vec1_f32. cbn [h_dims h_data]. apply h_read_full. cbn. lia.
Qed.

Lemma h_values_u8 d v : length v = nprod d → u8_values (mkHost d (HD_u8 v)) = Ok v.
Proof.
  intros E. unfold u8_values, t_flatten_all, host_tensors. rewrite h_read_full by done. cbn [result_bind].
  unfold t_to_vec1_u8. cbn [h_dims h_data]. apply h_read_full. cbn. lia.
Qed.

Lemma h_f32_shape t v : h_dtype t = T_F32 → f32_values t = Ok v →
  t = mkHost (h_dims t) (HD_f32 v) ∧ length v = nprod (h_dims t).
Proof.
  intros Ht (t' & E & Hd & Hl)%h_values_Ok. unfold h_to_dtype in E. rewrite decide_True in E by done. injection E as <-.
  destruct t as [d x]. cbn in *. subst x. split; [done | exact Hl].
Qed.

#[local] Instance host_lawful : LawfulTensors HostTensor.
Proof.
  split.
  - intros v d E. exists (mkHost d (HD_f32 v)). cbn. rewrite E, Nat.eqb_refl.
    split_and!; [done | done | done | by apply h_values_f32].
  - intros v d E. exists (mkHost d (HD_u8 v)). cbn. rewrite E, Nat.eqb_refl.
    split_and!; [done | done | done | by apply h_values_u8].
  - intros t. cbn. unfold h_to_dtype. by rewrite decide_True.
  - intros t v (t' & E & Hd & Hl)%h_values_Ok. apply h_to_dtype_Ok in E as (E & _ & _).
    change (length v = nprod (h_dims t)). rewrite <- E, <- Hl. unfold h_len. by rewrite Hd.
  - intros t d t' (E1 & E2 & _)%h_to_dtype_Ok. done.
  - intros t v r c (t' & E & Hd & Hl)%h_values_Ok Hdims. exists t'. split; [done |]. cbn.
    apply h_to_dtype_Ok in E as (E & _ & _). cbn in Hdims. rewrite E, Hdims, Hd. by apply h_read_full.
  - intros [ds x] v d Ht Hv Hn. destruct (h_f32_shape _ v Ht Hv) as [[= ->] Hl]. change (nprod d = nprod ds) in Hn.
    change (length v = nprod ds) in Hl. exists (mkHost d (HD_f32 v)). unfold t_reshape, host_tensors.
    assert (E : (h_len (mkHost ds (HD_f32 v)) =? nprod d) = true) by (apply Nat.eqb_eq; cbn [h_len h_data]; lia).
    rewrite E. split_and!; [done | done | done | apply h_values_f32; lia].
  - intros a b v s r c Ha Hb Da Db Va Vb. destruct (h_f32_shape a v Ha Va) as [Ea La], (h_f32_shape b s Hb Vb) as [Eb Lb].
    change (h_dims a = [r; c]) in Da. change (h_dims b = [r; 1]) in Db. rewrite Da in La.
    exists (mkHost [r; c] (HD_f32 (imap (λ i x, F32.mul x (default F32.zero (s !! (i / c)))) v))).
    split_and!; [| done | done | apply h_values_f32; by rewrite length_imap].
    unfold t_broadcast_mul, host_tensors, h_zip. rewrite Ea, Eb. cbn [h_data h_dims]. by rewrite Da, Db.
  - intros a b v s Ha Hb Db Va Vb. destruct (h_f32_shape a v Ha Va) as [Ea La], (h_f32_shape b [s] Hb Vb) as [Eb _].
    change (h_dims b = [1]) in Db. exists (mkHost (h_dims a) (HD_f32 ((λ x, F32.mul x s) <$> v))).
    split_and!; [| done | done | apply h_values_f32; by rewrite length_fmap].
    unfold t_broadcast_mul, host_tensors, h_zip. rewrite Ea, Eb. cbn [h_data h_dims]. rewrite Db. do 3 f_equal.
    clear. induction v as [|x v IH]; [done |]. cbn. f_equal. exact IH.
Qed.

(** ** Counted loops *)
Section for_each.
Context {S : Type}.

(** [for k in ks { body }] on a state, stopping at a panic. *)
Fixpoint for_each (body : nat → S → option S) (ks : list nat) (s : S) : option S :=
  match ks with
  | [] => Some s
  | k :: ks => s ← body k s; for_each body ks s
  end.

(** The invariant rule. *)
Lemma for_each_inv (I : nat → S → Prop) body n s :
  (∀ k s, k < n → I k s → ∃ s', body k s = Some s' ∧ I (Datatypes.S k) s') →
  I 0 s → ∃ s', for_each body (seq 0 n) s = Some s' ∧ I n s'.
Proof.
  intros Hbody H0.
  assert (Hgen : ∀ m k s, k + m = n → I k s → ∃ s', for_each body (seq k m) s = Some s' ∧ I n s').
  { induction m as [|m IH]; intros k s1 Hkm Hk; simpl.
    - exists s1. split; [done |]. by replace n with k by lia.
    - destruct (Hbody k s1 ltac:(lia) Hk) as (s2 & -> & H2). simpl. apply IH; [lia | done]. }
  exact (Hgen n 0 s eq_refl H0).
Qed.

(** A property of the state alone, kept by every step. *)
Lemma for_each_mem (J : S → Prop) body ks s :
  J s → (∀ k s, k ∈ ks → J s → ∃ s', body k s = Some s' ∧ J s') → ∃ s', for_each body ks s = Some s' ∧ J s'.
Proof.
  revert s. induction ks as [|k ks IH]; intros s Hs Hb; cbn; [by exists s |].
  destruct (Hb k s ltac:(by left) Hs) as (s1 & -> & H1). apply (IH s1 H1). intros k' s' Hk. apply Hb. by right.
Qed.

(** Two nested loops, with an invariant on the number of inner turns done. *)
Lemma for_each_grid (I : nat → S → Prop) (body : nat → nat → S → option S) n m s :
  (∀ i j s, i < n → j < m → I (i * m + j) s → ∃ s', body i j s = Some s' ∧ I (Datatypes.S (i * m + j)) s') →
  I 0 s → ∃ s', for_each (λ i, for_each (body i) (seq 0 m)) (seq 0 n) s = Some s' ∧ I (n * m) s'.
Proof.
  intros Hbody H0. apply (for_each_inv (λ i, I (i * m))); [| by rewrite Nat.mul_0_l].
  intros i s1 Hi H1. destruct (for_each_inv (λ j, I (i * m + j)) (body i) m s1) as (s2 & E & H2).
  - intros j s2 Hj H2. destruct (Hbody i j s2 Hi Hj H2) as (s3 & E & H3). exists s3. split; [done |].
    by replace (i * m + Datatypes.S j) with (Datatypes.S (i * m + j)) by lia.
  - by replace (i * m + 0) with (i * m) by lia.
  - exists s2. split; [done |]. by replace (Datatypes.S i * m) with (i * m + m) by lia.
Qed.

Lemma for_each_map (g : nat → nat) body ks s : for_each body (g <$> ks) s = for_each (λ k, body (g k)) ks s.
Proof. revert s. induction ks as [|k ks IH]; intros s; [done |]. cbn. destruct (body (g k) s); [apply IH | done]. Qed.

Lemma for_each_ext body1 body2 ks (s : S) :
  (∀ k s, k ∈ ks → body1 k s = body2 k s) → for_each body1 ks s = for_each body2 ks s.
Proof.
  revert s. induction ks as [|k ks IH]; intros s Hb; [done |]. cbn. rewrite Hb by (by left).
  destruct (body2 k s); [| done]. apply IH. intros k' s' Hk. apply Hb. by right.
Qed.

Lemma for_each_foldl (f : S → nat → S) body ks s :
  (∀ k s, k ∈ ks → body k s = Some (f s k)) → for_each body ks s = Some (foldl f s ks).
Proof.
  revert s. induction ks as [|k ks IH]; intros s Hb; simpl; [done |].
  rewrite Hb by (by left). simpl. apply IH. intros k' s' Hk. apply Hb. by right.
Qed.
End for_each.

(** ** Loops that can fail

    A step can panic ([None]), return an error, or go on. *)
Definition bind_r {A B E} (m : option (result A E)) (k : A → option (result B E)) : option (result B E) :=
  match m with
  | None => None
  | Some (Err e) => Some (Err e)
  | Some (Ok a) => k a
  end.
Definition ok_r {A E} (m : option A) : option (result A E) := Ok <$> m.

Fixpoint for_each_r {S E} (body : nat → S → option (result S E)) (ks : list nat) (s : S) : option (result S E) :=
  match ks with
  | [] => Some (Ok s)
  | k :: ks => bind_r (body k s) (for_each_r body ks)
  end.

(** The outcomes a step may have: a panic only under [Bad], an error in [Fail], a
    result in [J]. *)
Definition outcome {S E} (Bad : Prop) (Fail : E → Prop) (J : S → Prop) (r : option (result S E)) : Prop :=
  match r with None => Bad | Some (Err e) => Fail e | Some (Ok s) => J s end.

Lemma outcome_bind {A B E} Bad (Fail : E → Prop) (J : A → Prop) (K : B → Prop) m k :
  outcome Bad Fail J m → (∀ a, J a → outcome Bad Fail K (k a)) → outcome Bad Fail K (bind_r m k).
Proof. destruct m as [[a|e]|]; cbn; auto. Qed.

Lemma outcome_weaken {A E} Bad (Fail : E → Prop) (J K : A → Prop) m :
  outcome Bad Fail J m → (∀ a, J a → K a) → outcome Bad Fail K m.
Proof. destruct m as [[a|e]|]; cbn; auto. Qed.

Lemma outcome_ok {A E} Bad (Fail : E → Prop) (J : A → Prop) (m : option A) :
  (∃ a, m = Some a ∧ J a) → outcome Bad Fail J (ok_r m).
Proof. by intros (a & -> & H). Qed.

Lemma for_each_r_inv {S E} Bad (Fail : E → Prop) (I : nat → S → Prop) body n s :
  (∀ k s, k < n → I k s → outcome Bad Fail (I (Datatypes.S k)) (body k s)) →
  I 0 s → outcome Bad Fail (I n) (for_each_r body (seq 0 n) s).
Proof.
  intros Hbody H0.
  assert (Hgen : ∀ m k s, k + m = n → I k s → outcome Bad Fail (I n) (for_each_r body (seq k m) s)).
  { induction m as [|m IH]; intros k s1 Hkm Hk; cbn [seq for_each_r].
    - cbn. by replace n with k by lia.
    - eapply outcome_bind; [apply (Hbody k s1); [lia | done] |]. intros s2 H2. apply IH; [lia | done]. }
  exact (Hgen n 0 s eq_refl H0).
Qed.

Lemma for_each_r_snoc {S E} (body : nat → S → option (result S E)) ks k s :
  for_each_r body (ks ++ [k]) s = bind_r (for_each_r body ks s) (body k).
Proof.
  revert s. induction ks as [|k' ks IH]; intros s; cbn; [destruct (body k s) as [[]|]; done |].
  destruct (body k' s) as [[s'|e]|]; [apply IH | done | done].
Qed.

(** The same rule, with the run that led to each step. *)
Lemma for_each_r_run {S E} Bad (Fail : E → Prop) (I : nat → S → Prop) body n s0 :
  (∀ k s, k < n → for_each_r body (seq 0 k) s0 = Some (Ok s) → I k s → outcome Bad Fail (I (Datatypes.S k)) (body k s)) →
  I 0 s0 → outcome Bad Fail (I n) (for_each_r body (seq 0 n) s0).
Proof.
  intros Hbody H0. eapply outcome_weaken; [apply (for_each_r_inv _ _ (λ k s, for_each_r body (seq 0 k) s0 = Some (Ok s) ∧ I k s)) |].
  - intros k s Hk [Hrun Hs]. pose proof (Hbody k s Hk Hrun Hs) as Hout. rewrite seq_S, for_each_r_snoc, Hrun. cbn [bind_r Nat.add].
    destruct (body k s) as [[s'|e]|]; done.
  - done.
  - by intros s [_ Hs].
Qed.

(** ** Buffers filled in order

    The first [p] cells of a buffer of [n] hold [f]. *)
Definition filled {A} (n : nat) (f : nat → A) (p : nat) (l : list A) : Prop :=
  length l = n ∧ ∀ i, i < p → l !! i = Some (f i).

Lemma filled_0 {A} n (f : nat → A) x : filled n f 0 (replicate n x).
Proof. split; [apply length_replicate | lia]. Qed.

Lemma filled_push {A} n (f : nat → A) p l :
  filled n f p l → p < n → filled n f (S p) (<[p := f p]> l) ∧ p < length l.
Proof.
  intros [Hl Hf] Hp. split; [| lia]. split; [by rewrite length_insert |]. intros i Hi.
  destruct (decide (i = p)) as [->|]; [apply list_lookup_insert_eq; lia |].
  rewrite list_lookup_insert_ne by done. apply Hf. lia.
Qed.

Lemma filled_all {A} n (f : nat → A) l : filled n f n l → l = f <$> seq 0 n.
Proof.
  intros [Hl Hf]. apply list_eq. intros i. rewrite list_lookup_fmap. destruct (decide (i < n)) as [Hi|Hi].
  - by rewrite Hf, lookup_seq_lt by done.
  - rewrite !lookup_ge_None_2; [done | rewrite length_seq; lia | lia].
Qed.
