(* ===== verification/IntFloat.v ===== *)
(** * Integers in binary64

    Arithmetic of [f64] on values it represents exactly.  A positive value is
    taken in units of 2^-200: [nf v] is the float of value [v / 2^200].  Sums,
    products and quotients by powers of two of such values are again the float
    of the exact result, when that has at most 53 significant bits.  From this
    follows what the dequantizers rely on: on 32-bit integers, dividing by a
    power of two and rounding down is a shift. *)
From S2P Require Import Prelude F32.
#[local] Open Scope Z_scope.

(** [f64::floor]. *)
Definition floor64 (a : f64) : f64 :=
  match a with
  | S754_finite s m e =>
      if 0 <=? e then a
      else let q := if s then - ((Z.pos m + 2 ^ (- e) - 1) / 2 ^ (- e)) else Z.pos m / 2 ^ (- e) in
           binary_normalize 53 1024 q 0 s
  | _ => a
  end.

Definition D (v : Z) : Z := Zdigits2 v.

Lemma D_bounds p : 2 ^ (D (Z.pos p) - 1) <= Z.pos p < 2 ^ D (Z.pos p).
Proof.
  unfold D, Zdigits2. split; [| apply digits2_bound].
  induction p as [p IH|p IH|]; cbn [digits2_pos]; rewrite ?Pos2Z.inj_succ; [| | cbn; lia];
    replace (Z.succ (Z.pos (digits2_pos p)) - 1) with (Z.succ (Z.pos (digits2_pos p) - 1)) by lia;
    rewrite Z.pow_succ_r by lia; lia.
Qed.

Lemma D_pos p : 0 < D (Z.pos p).
Proof. unfold D, Zdigits2. lia. Qed.

Lemma D_unique v d : 0 < d → 2 ^ (d - 1) <= v < 2 ^ d → D v = d.
Proof.
  intros Hd Hv. assert (0 < 2 ^ (d - 1)) by (apply Z.pow_pos_nonneg; lia). destruct v as [|p|p]; [lia | | lia].
  pose proof (D_bounds p) as Hb. pose proof (D_pos p) as Hp.
  destruct (Z.lt_trichotomy (D (Z.pos p)) d) as [H1|[H1|H1]]; [| done |].
  - assert (2 ^ D (Z.pos p) <= 2 ^ (d - 1)) by (apply Z.pow_le_mono_r; lia). lia.
  - assert (2 ^ d <= 2 ^ (D (Z.pos p) - 1)) by (apply Z.pow_le_mono_r; lia). lia.
Qed.

Lemma D_mul_pow v k : 0 < v → 0 <= k → D (v * 2 ^ k) = D v + k.
Proof.
  intros Hv Hk. destruct v as [|p|p]; [lia | | lia]. pose proof (D_bounds p) as Hb. pose proof (D_pos p) as Hp.
  apply D_unique; [lia |]. replace (D (Z.pos p) + k - 1) with (D (Z.pos p) - 1 + k) by lia.
  rewrite !Z.pow_add_r by lia. pose proof (Z.pow_pos_nonneg 2 k). nia.
Qed.

Lemma D_le v k : 0 < v → 0 <= k → v < 2 ^ k → D v <= k.
Proof.
  intros Hv Hk Hlt. destruct v as [|p|p]; [lia | | lia]. pose proof (D_bounds p) as Hb. pose proof (D_pos p).
  destruct (Z.le_gt_cases (D (Z.pos p)) k); [done |].
  assert (2 ^ k <= 2 ^ (D (Z.pos p) - 1)) by (apply Z.pow_le_mono_r; lia). lia.
Qed.

(** At most 53 significant bits. *)
Definition exact (v : Z) : Prop := 53 <= D v → (2 ^ (D v - 53) | v).

Lemma exact_mul v c k : v = c * 2 ^ k → 0 < c < 2 ^ 53 → 0 <= k → exact v.
Proof.
  intros -> Hc Hk. unfold exact. rewrite D_mul_pow by lia. intros H53.
  pose proof (D_le c 53 ltac:(lia) ltac:(lia) ltac:(lia)).
  exists (c * 2 ^ (53 - D c)). rewrite <- Z.mul_assoc, <- Z.pow_add_r by lia. do 2 f_equal. lia.
Qed.

Definition nf (v : Z) : f64 := S754_finite false (Z.to_pos (Z.shiftl v (53 - D v))) (D v - 253).

Lemma iter_shr_exact n : ∀ m, 0 <= m →
  iter_pos shr_1 n (Build_shr_record (m * 2 ^ Z.pos n) false false) = Build_shr_record m false false.
Proof.
  induction n as [n IH|n IH|]; intros m Hm; cbn [iter_pos].
  - replace (m * 2 ^ Z.pos n~1) with (2 * ((m * 2 ^ Z.pos n) * 2 ^ Z.pos n))
      by (rewrite (Pos2Z.inj_xI n); replace (2 * Z.pos n + 1) with (1 + Z.pos n + Z.pos n) by lia; rewrite !Z.pow_add_r by lia; ring).
    assert (H1 : ∀ x, 0 <= x → shr_1 (Build_shr_record (2 * x) false false) = Build_shr_record x false false)
      by (intros [|x|x] ?; [done | done | lia]).
    rewrite H1 by (pose proof (Z.pow_pos_nonneg 2 (Z.pos n)); nia).
    rewrite IH by (pose proof (Z.pow_pos_nonneg 2 (Z.pos n)); nia). by apply IH.
  - replace (m * 2 ^ Z.pos n~0) with ((m * 2 ^ Z.pos n) * 2 ^ Z.pos n)
      by (rewrite (Pos2Z.inj_xO n), <- (Z.add_diag (Z.pos n)), Z.pow_add_r by lia; ring).
    rewrite IH by (pose proof (Z.pow_pos_nonneg 2 (Z.pos n)); nia). by apply IH.
  - rewrite Z.mul_comm, Z.pow_1_r. destruct m; [done | done | lia].
Qed.

Lemma shr_fexp_exact m e : 0 < m → 53 <= D m → -1000 <= e → exact m →
  shr_fexp 53 1024 m e loc_Exact = (Build_shr_record (m / 2 ^ (D m - 53)) false false, e + (D m - 53)).
Proof.
  intros Hm Hd He [c Hc]; [done |]. assert (0 < 2 ^ (D m - 53)) by (apply Z.pow_pos_nonneg; lia).
  assert (0 <= c) by nia. unfold shr_fexp. replace (fexp 53 1024 (Zdigits2 m + e) - e) with (D m - 53)
    by (unfold fexp, emin, D in *; lia).
  rewrite Hc at 1 3. rewrite Z.div_mul by lia. cbn [shr_record_of_loc]. unfold shr.
  destruct (D m - 53) as [|n|n] eqn:En; [| by rewrite iter_shr_exact | lia].
  rewrite Z.pow_0_r, Z.mul_1_r, Z.add_0_r. done.
Qed.

Lemma aux_nf m e : 0 < m → 53 <= D m → -200 <= e → D m + e <= 500 → exact m →
  binary_round_aux 53 1024 false m e loc_Exact = nf (m * 2 ^ (e + 200)).
Proof.
  intros Hm Hd He Hmax Hex. unfold binary_round_aux. rewrite (shr_fexp_exact m e) by (done || lia).
  cbn [shr_m loc_of_shr_record round_nearest_even]. destruct (Hex Hd) as [c Hc].
  assert (0 < 2 ^ (D m - 53)) as Hpow by (apply Z.pow_pos_nonneg; lia). assert (0 < c) as Hcp by nia.
  assert (m / 2 ^ (D m - 53) = c) as -> by (rewrite Hc at 1; apply Z.div_mul; lia).
  assert (HDc : D c = 53).
  { assert (D m = D c + (D m - 53)) by (rewrite Hc at 1; apply D_mul_pow; lia). lia. }
  rewrite (shr_fexp_exact c) by (done || lia || (intros _; rewrite HDc; exists c; cbn; lia)).
  rewrite HDc. change (2 ^ (53 - 53)) with 1. rewrite Z.div_1_r. cbn [shr_m].
  destruct c as [|c|c]; [lia | | lia]. unfold nf. rewrite D_mul_pow by lia.
  replace (53 - (D m + (e + 200))) with (- (D m - 53 + (e + 200))) by lia. rewrite Z.shiftl_opp_r, Z.shiftr_div_pow2 by lia.
  assert (m * 2 ^ (e + 200) = Z.pos c * 2 ^ (D m - 53 + (e + 200))) as ->
    by (rewrite (Z.pow_add_r 2 (D m - 53)) by lia; rewrite Z.mul_assoc; by rewrite <- Hc).
  rewrite Z.div_mul by (apply Z.pow_nonzero; lia).
  rewrite (proj2 (Z.leb_le _ _)) by lia. cbn [Z.to_pos]. f_equal. lia.
Qed.

Lemma iter_xO p n : Z.pos (Pos.iter xO p n) = Z.pos p * 2 ^ Z.pos n.
Proof.
  induction n as [|n IH] using Pos.peano_ind; [cbn; lia |].
  rewrite Pos.iter_succ, Pos2Z.inj_succ, Z.pow_succ_r, (Pos2Z.inj_xO (Pos.iter xO p n)), IH by lia. ring.
Qed.

Lemma round_nf p e : -100 <= e → D (Z.pos p) + e <= 400 → exact (Z.pos p) →
  binary_round 53 1024 false p e = nf (Z.pos p * 2 ^ (e + 200)).
Proof.
  intros He Hmax Hex. pose proof (D_pos p) as Hp. unfold binary_round, shl_align.
  replace (fexp 53 1024 (Z.pos (digits2_pos p) + e) - e) with (D (Z.pos p) - 53) by (unfold fexp, emin, D, Zdigits2 in *; lia).
  destruct (D (Z.pos p) - 53) as [|n|n] eqn:En; [apply aux_nf; (done || lia) | apply aux_nf; (done || lia) |].
  assert (Hfe : fexp 53 1024 (Z.pos (digits2_pos p) + e) = e - Z.pos n) by (unfold fexp, emin, D, Zdigits2 in *; lia).
  rewrite Hfe. assert (HD : D (Z.pos p * 2 ^ Z.pos n) = 53) by (rewrite D_mul_pow; lia).
  rewrite iter_xO, aux_nf; [| lia | lia | lia | lia | intros _; rewrite HD; apply Z.divide_1_l].
  f_equal. rewrite <- Z.mul_assoc, <- Z.pow_add_r by lia. do 2 f_equal. lia.
Qed.

(** The parts of [nf v]. *)
Lemma nf_parts v : 0 < v → exact v → ∃ m, nf v = S754_finite false m (D v - 253) ∧ D (Z.pos m) = 53 ∧ Z.pos m * 2 ^ D v = v * 2 ^ 53.
Proof.
  intros Hv Hex. assert (HD : 0 < D v) by (destruct v; [lia | apply D_pos | lia]). unfold nf.
  assert (H : ∃ c, Z.shiftl v (53 - D v) = c ∧ c * 2 ^ D v = v * 2 ^ 53).
  { destruct (Z.le_gt_cases 53 (D v)) as [H53|H53].
    - replace (53 - D v) with (- (D v - 53)) by lia. rewrite Z.shiftl_opp_r, Z.shiftr_div_pow2 by lia.
      eexists. split; [done |]. destruct (Hex H53) as [c Hc]. assert (v / 2 ^ (D v - 53) = c) as ->
        by (rewrite Hc at 1; apply Z.div_mul, Z.pow_nonzero; lia).
      rewrite Hc at 2. rewrite <- Z.mul_assoc, <- Z.pow_add_r by lia. do 2 f_equal. lia.
    - rewrite Z.shiftl_mul_pow2 by lia. eexists. split; [done |]. rewrite <- Z.mul_assoc, <- Z.pow_add_r by lia. do 2 f_equal. lia. }
  destruct H as (c & -> & Hc). assert (0 < 2 ^ D v) by (apply Z.pow_pos_nonneg; lia). assert (Hcp : 0 < c) by nia.
  exists (Z.to_pos c). rewrite Z2Pos.id by done. split; [done |]. split; [| done].
  assert (D c + D v = D v + 53); [| lia]. rewrite <- D_mul_pow by lia. rewrite Hc. apply D_mul_pow; lia.
Qed.

Lemma exact_small v c k : v = c * 2 ^ k → 0 < c < 2 ^ 53 → 0 <= k → 0 < v ∧ exact v.
Proof. intros H Hc Hk. split; [pose proof (Z.pow_pos_nonneg 2 k); nia | by apply (exact_mul v c k)]. Qed.

Lemma of_Z_nf n : 0 < n < 2 ^ 53 → F64.of_Z n = nf (n * 2 ^ 200).
Proof.
  intros Hn. destruct n as [|p|p]; [lia | | lia]. unfold F64.of_Z, binary_normalize.
  pose proof (D_le (Z.pos p) 53 ltac:(lia) ltac:(lia) ltac:(lia)).
  rewrite round_nf; [done | lia | lia | apply (exact_mul _ (Z.pos p) 0); lia].
Qed.

Lemma D_int n : 0 < n < 2 ^ 53 → 200 < D (n * 2 ^ 200) <= 253.
Proof.
  intros Hn. rewrite D_mul_pow by lia. pose proof (D_le n 53 ltac:(lia) ltac:(lia) ltac:(lia)).
  destruct n; [lia | pose proof (D_pos p); lia | lia].
Qed.

Lemma of_Z_parts n : 0 < n < 2 ^ 53 → ∃ m d, F64.of_Z n = S754_finite false m (d - 253) ∧ D (Z.pos m) = 53
  ∧ 200 < d <= 253 ∧ Z.pos m * 2 ^ d = n * 2 ^ 253.
Proof.
  intros Hn. rewrite of_Z_nf by done. destruct (exact_small (n * 2 ^ 200) n 200 eq_refl Hn ltac:(lia)) as [Hp Hex].
  destruct (nf_parts _ Hp Hex) as (m & E & Hm & Hv). exists m, (D (n * 2 ^ 200)). split; [done |]. split; [done |].
  split; [by apply D_int |]. rewrite Hv, <- Z.mul_assoc, <- Z.pow_add_r by lia. done.
Qed.

(** [a * 2 ^ x = b * 2 ^ y] gives [a] as a shift of [b]. *)
Lemma pow_cancel a b x y : a * 2 ^ x = b * 2 ^ y → 0 <= x <= y → a = b * 2 ^ (y - x).
Proof.
  intros H Hx. apply (Z.mul_reg_r _ _ (2 ^ x)); [apply Z.pow_nonzero; lia |].
  rewrite H, <- Z.mul_assoc, <- Z.pow_add_r by lia. do 2 f_equal. lia.
Qed.

Lemma pow_cancel' a b x y : a * 2 ^ x = b * 2 ^ y → 0 <= y <= x → a * 2 ^ (x - y) = b.
Proof. intros H Hx. symmetry. by apply pow_cancel. Qed.

Lemma div_pow2 n k : 0 < n < 2 ^ 53 → 0 <= k <= 52 →
  F64.div (F64.of_Z n) (F64.of_Z (2 ^ k)) = nf (n * 2 ^ (200 - k)).
Proof.
  intros Hn Hk. destruct (of_Z_parts n Hn) as (m & d & -> & Hm & Hd & Hv).
  assert (Hb : F64.of_Z (2 ^ k) = S754_finite false (2 ^ 52)%positive (k - 52)).
  { assert (0 < 2 ^ k < 2 ^ 53) by (split; [apply Z.pow_pos_nonneg; lia | apply Z.pow_lt_mono_r; lia]).
    rewrite of_Z_nf by done. rewrite <- Z.pow_add_r by lia. unfold nf.
    assert (D (2 ^ (k + 200)) = k + 201) as -> by (apply D_unique; [lia |]; split; [apply Z.pow_le_mono_r; lia | apply Z.pow_lt_mono_r; lia]).
    replace (53 - (k + 201)) with (- (k + 148)) by lia. rewrite Z.shiftl_opp_r, Z.shiftr_div_pow2 by lia.
    rewrite <- Z.pow_sub_r by lia. replace (k + 200 - (k + 148)) with 52 by lia. f_equal. lia. }
  rewrite Hb. unfold F64.div, SFdiv, SFdiv_core_binary. cbn [xorb].
  replace (fexp 53 1024 _) with (d - 253 - (k - 52) - 53) by (unfold fexp, emin, D in *; change (Zdigits2 (Z.pos (2 ^ 52))) with 53; lia).
  rewrite Z.min_l by lia. replace (d - 253 - (k - 52) - (d - 253 - (k - 52) - 53)) with 53 by lia. cbv iota.
  rewrite Z.shiftl_mul_pow2 by lia.
  pose proof (Z_div_mod (Z.pos m * 2 ^ 53) (Z.pos (2 ^ 52)) ltac:(lia)) as Hdm.
  destruct (Z.div_eucl (Z.pos m * 2 ^ 53) (Z.pos (2 ^ 52))) as [q r]. change (Z.pos (2 ^ 52)) with (2 ^ 52) in Hdm.
  assert (q = 2 * Z.pos m ∧ r = 0) as [-> ->] by lia.
  change (new_location (Z.pos (2 ^ 52)) 0) with loc_Exact.
  rewrite aux_nf; [| lia | | lia | | ].
  - f_equal. replace (d - 253 - (k - 52) - 53 + 200) with (d - 53 - k - 1) by lia.
    assert (0 <= d - 54 - k) by lia.
    apply (Z.mul_reg_r _ _ (2 ^ (53 + k))); [apply Z.pow_nonzero; lia |].
    rewrite <- !Z.mul_assoc, <- !Z.pow_add_r by lia. replace (200 - k + (53 + k)) with 253 by lia. rewrite <- Hv.
    replace (d - 53 - k - 1 + (53 + k)) with (d - 1) by lia. replace d with (d - 1 + 1) at 2 by lia. rewrite Z.pow_add_r by lia. ring.
  - replace (2 * Z.pos m) with (Z.pos m * 2 ^ 1) by lia. rewrite D_mul_pow; lia.
  - replace (2 * Z.pos m) with (Z.pos m * 2 ^ 1) by lia. rewrite D_mul_pow by lia. lia.
  - apply (exact_mul _ (Z.pos m) 1); [lia | | lia]. pose proof (D_bounds m) as Hb'. rewrite Hm in Hb'. lia.
Qed.

Lemma floor_nf v : 0 < v → exact v → D v < 253 → floor64 (nf v) = F64.of_Z (v / 2 ^ 200).
Proof.
  intros Hv Hex Hd. destruct (nf_parts v Hv Hex) as (m & -> & Hm & Hmv).
  assert (HD : 0 < D v) by (destruct v; [lia | apply D_pos | lia]). unfold floor64. rewrite (proj2 (Z.leb_gt 0 _)) by lia. cbv zeta iota.
  unfold F64.of_Z. f_equal. replace (- (D v - 253)) with (253 - D v) by lia.
  rewrite <- (Z.div_mul_cancel_r _ (2 ^ (253 - D v)) (2 ^ D v)) by (apply Z.pow_nonzero; lia).
  rewrite Hmv, <- Z.pow_add_r by lia. replace (253 - D v + D v) with (200 + 53) by lia. rewrite Z.pow_add_r by lia.
  by rewrite Z.div_mul_cancel_r.
Qed.

(** Dividing by a power of two and rounding down. *)
Lemma floor_div_pow2 n k : 0 <= n < 2 ^ 52 → 0 <= k <= 52 →
  floor64 (F64.div (F64.of_Z n) (F64.of_Z (2 ^ k))) = F64.of_Z (n / 2 ^ k).
Proof.
  intros Hn Hk. assert (0 < 2 ^ k < 2 ^ 53) as Hpk by (split; [apply Z.pow_pos_nonneg; lia | apply Z.pow_lt_mono_r; lia]).
  destruct (decide (n = 0)) as [->|Hn0].
  - rewrite Z.div_0_l by lia. destruct (of_Z_parts (2 ^ k) Hpk) as (m & d & -> & _). done.
  - rewrite div_pow2 by lia. destruct (exact_small (n * 2 ^ (200 - k)) n (200 - k) eq_refl ltac:(lia) ltac:(lia)) as [Hp Hex].
    rewrite floor_nf; [| done | done |].
    + f_equal. replace 200 with (k + (200 - k)) at 2 by lia. rewrite Z.pow_add_r by lia.
      apply Z.div_mul_cancel_r; [lia | apply Z.pow_nonzero; lia].
    + rewrite D_mul_pow by lia. pose proof (D_le n 52 ltac:(lia) ltac:(lia) ltac:(lia)). lia.
Qed.

Lemma mul_int a b : 0 <= a → 0 <= b → a < 2 ^ 53 → b < 2 ^ 53 → a * b < 2 ^ 53 → F64.mul (F64.of_Z a) (F64.of_Z b) = F64.of_Z (a * b).
Proof.
  intros Ha Hb Hla Hlb Hab. destruct (decide (a = 0)) as [->|Ha0].
  { destruct (decide (b = 0)) as [->|Hb0]; [done |]. destruct (of_Z_parts b ltac:(lia)) as (m & d & -> & _). done. }
  destruct (decide (b = 0)) as [->|Hb0].
  { rewrite Z.mul_0_r. destruct (of_Z_parts a ltac:(lia)) as (m & d & -> & _). done. }
  rewrite (of_Z_nf (a * b)) by nia.
  destruct (of_Z_parts a ltac:(lia)) as (m & d & -> & Hm & Hd & Hv), (of_Z_parts b ltac:(lia)) as (m' & d' & -> & Hm' & Hd' & Hv').
  unfold F64.mul, SFmul. cbn [xorb]. apply pow_cancel in Hv; [| lia]. apply pow_cancel in Hv'; [| lia].
  assert (Hmm : Z.pos (m * m') = (a * b) * 2 ^ (506 - d - d')).
  { rewrite Pos2Z.inj_mul, Hv, Hv'. replace (506 - d - d') with (253 - d + (253 - d')) by lia. rewrite Z.pow_add_r by lia. ring. }
  assert (HD : 105 <= D (Z.pos (m * m')) <= 106).
  { pose proof (D_bounds m) as B. pose proof (D_bounds m') as B'. rewrite Hm in B. rewrite Hm' in B'.
    pose proof (D_bounds (m * m')) as B2. pose proof (D_pos (m * m')). split.
    - destruct (Z.le_gt_cases 105 (D (Z.pos (m * m')))); [done |].
      assert (2 ^ D (Z.pos (m * m')) <= 2 ^ 104) by (apply Z.pow_le_mono_r; lia). change (53 - 1) with 52 in *.
      change (2 ^ 104) with (2 ^ 52 * 2 ^ 52) in *. rewrite Pos2Z.inj_mul in *. nia.
    - apply D_le; [lia | lia |]. rewrite Pos2Z.inj_mul. change (2 ^ 106) with (2 ^ 53 * 2 ^ 53). nia. }
  rewrite aux_nf; [| lia | lia | lia | lia | apply (exact_mul _ (a * b) (506 - d - d')); [done | nia | lia]].
  f_equal. rewrite Hmm, <- Z.mul_assoc, <- Z.pow_add_r by lia. do 2 f_equal. lia.
Qed.

Lemma shl_align_fst m e e' : e' <= e → Z.pos (fst (shl_align m e e')) = Z.pos m * 2 ^ (e - e').
Proof.
  intros He. unfold shl_align. destruct (e' - e) as [|n|n] eqn:E; [| lia |].
  - replace (e - e') with 0 by lia. cbn. lia.
  - cbn [fst]. rewrite iter_xO. do 2 f_equal. lia.
Qed.

(** The aligned mantissas of two integers. *)
Lemma align_int a m d e : 200 < d <= 253 → Z.pos m * 2 ^ d = a * 2 ^ 253 → e <= d - 253 → -253 <= e →
  Z.pos (fst (shl_align m (d - 253) e)) = a * 2 ^ (- e).
Proof.
  intros Hd Hv He Hlow. rewrite shl_align_fst by done. apply pow_cancel in Hv; [| lia]. rewrite Hv.
  rewrite <- Z.mul_assoc, <- Z.pow_add_r by lia. do 2 f_equal. lia.
Qed.

Lemma normalize_int c e : 0 <= c < 2 ^ 53 → -53 < e <= 0 → binary_normalize 53 1024 (c * 2 ^ (- e)) e false = F64.of_Z c.
Proof.
  intros Hc He. destruct (decide (c = 0)) as [->|Hc0]; [done |]. rewrite of_Z_nf by lia.
  pose proof (Z.pow_pos_nonneg 2 (- e) ltac:(lia) ltac:(lia)) as Hp.
  destruct (c * 2 ^ (- e)) as [|p|p] eqn:E; [lia | | lia]. unfold binary_normalize.
  rewrite round_nf; [| lia | | apply (exact_mul _ c (- e)); lia].
  - f_equal. rewrite <- E, <- Z.mul_assoc, <- Z.pow_add_r by lia. do 2 f_equal. lia.
  - rewrite <- E, D_mul_pow by lia. pose proof (D_le c 53 ltac:(lia) ltac:(lia) ltac:(lia)). lia.
Qed.

Lemma sub_int a b : 0 <= b <= a → a < 2 ^ 53 → F64.sub (F64.of_Z a) (F64.of_Z b) = F64.of_Z (a - b).
Proof.
  intros Hb Ha. destruct (decide (b = 0)) as [->|Hb0].
  { rewrite Z.sub_0_r. destruct (decide (a = 0)) as [->|Ha0]; [done |].
    destruct (of_Z_parts a ltac:(lia)) as (m & d & -> & _). done. }
  destruct (of_Z_parts a ltac:(lia)) as (m & d & -> & Hm & Hd & Hv), (of_Z_parts b ltac:(lia)) as (m' & d' & -> & Hm' & Hd' & Hv').
  unfold F64.sub, SFsub. cbn [cond_Zopp]. cbv zeta. set (e := Z.min _ _).
  rewrite (align_int a m d e), (align_int b m' d' e) by (done || lia). rewrite <- Z.mul_sub_distr_r.
  apply normalize_int; lia.
Qed.

Lemma of_Z_opp p : F64.of_Z (Z.neg p) = F64.neg (F64.of_Z (Z.pos p)).
Proof.
  unfold F64.of_Z, binary_normalize, binary_round, F64.neg. destruct (shl_align _ _ _) as [mz ez]. unfold binary_round_aux.
  destruct (shr_fexp 53 1024 (Z.pos mz) ez loc_Exact) as [r1 e1]. destruct (shr_fexp 53 1024 _ e1 loc_Exact) as [r2 e2].
  destruct (shr_m r2); [done | | done]. by destruct (e2 <=? _).
Qed.

Lemma add_neg_int n a : 0 < n <= a → a < 2 ^ 53 → F64.add (F64.of_Z (- n)) (F64.of_Z a) = F64.of_Z (a - n).
Proof.
  intros Hn Ha. destruct n as [|p|p]; [lia | | lia]. change (- Z.pos p) with (Z.neg p). rewrite of_Z_opp.
  destruct (of_Z_parts a ltac:(lia)) as (m & d & -> & Hm & Hd & Hv), (of_Z_parts (Z.pos p) ltac:(lia)) as (m' & d' & -> & Hm' & Hd' & Hv').
  unfold F64.neg, SFopp, F64.add, SFadd. cbn [cond_Zopp negb]. cbv zeta. set (e := Z.min _ _).
  rewrite (align_int a m d e), (align_int (Z.pos p) m' d' e) by (done || lia). rewrite <- Z.mul_opp_l, <- Z.mul_add_distr_r.
  replace (- Z.pos p + a) with (a - Z.pos p) by lia. apply normalize_int; lia.
Qed.

(** The sign of a 32-bit integer. *)
Lemma of_Z_neg n : - 2 ^ 53 < n < 2 ^ 53 → F32.ltb (F64.of_Z n) F64.zero = (n <? 0).
Proof.
  intros Hn. destruct n as [|p|p]; [done | |].
  - destruct (of_Z_parts (Z.pos p) ltac:(lia)) as (m & d & -> & _). done.
  - rewrite of_Z_opp. destruct (of_Z_parts (Z.pos p) ltac:(lia)) as (m & d & -> & _). done.
Qed.

(** A nibble of a 32-bit word, the way the dequantizers take it. *)
Lemma nibble_f64 w k : 0 <= w < 2 ^ 52 → 0 <= k <= 52 →
  let shifted := floor64 (F64.div (F64.of_Z w) (F64.of_Z (2 ^ k))) in
  F64.sub shifted (F64.mul (floor64 (F64.div shifted (F64.of_Z 16))) (F64.of_Z 16)) = F64.of_Z ((w / 2 ^ k) mod 16).
Proof.
  intros Hw Hk. cbv zeta. rewrite floor_div_pow2 by done. set (s := w / 2 ^ k).
  assert (Hs : 0 <= s < 2 ^ 52).
  { pose proof (Z.pow_pos_nonneg 2 k ltac:(lia) ltac:(lia)). split; [apply Z.div_pos; lia |].
    apply Z.div_lt_upper_bound; nia. }
  change 16 with (2 ^ 4). rewrite floor_div_pow2 by lia. pose proof (Z.div_mod s (2 ^ 4) ltac:(lia)). pose proof (Z.mod_pos_bound s (2 ^ 4) ltac:(lia)).
  rewrite mul_int by lia. rewrite sub_int by lia. f_equal. lia.
Qed.
