(* ===== verification/NdTensor.v ===== *)
(** * Tensors of any rank

    The tensor library (candle) as the models use it: its calls, and the laws its
    documentation states.  A tensor has a shape, a type and a value of its
    elements: [n_flat] lists them with the last index varying fastest.  The
    laws say what each call computes from those values, through the scalar
    operations of [Scalars] (a dot product, a mean or a softmax is one operation
    on a list of elements: how the library orders its sums is left open).
    Devices are left out.  A list-backed instance shows that the laws can hold,
    and lets the models run. *)
From S2P Require Import Prelude F32 Tensors.
#[local] Open Scope list_scope.
#[local] Open Scope nat_scope.
#[local] Open Scope rllm_scope.

(** ** The calls *)
Class NdOps (T : Type) : Type := {
  n_dims : T → list nat;
  n_dtype : T → TDType;
  n_to_dtype : T → TDType → result T TensorError;
  n_reshape : T → list nat → result T TensorError;
  (** [transpose(1, 2)], and [t()], which swaps the last two dimensions. *)
  n_transpose_1_2 : T → result T TensorError;
  n_t : T → result T TensorError;
  n_contiguous : T → result T TensorError;
  n_narrow : T → nat → nat → nat → result T TensorError;
  n_cat : list T → nat → result T TensorError;
  n_stack : list T → nat → result T TensorError;
  n_unsqueeze : T → nat → result T TensorError;
  n_expand : T → list nat → result T TensorError;
  n_index_select_0 : T → T → result T TensorError;
  n_matmul : T → T → result T TensorError;
  n_add : T → T → result T TensorError;
  n_sub : T → T → result T TensorError;
  n_mul : T → T → result T TensorError;
  n_div : T → T → result T TensorError;
  (** One where the first is less, as [u8]. *)
  n_lt : T → T → result T TensorError;
  n_floor : T → result T TensorError;
  n_broadcast_add : T → T → result T TensorError;
  n_broadcast_mul : T → T → result T TensorError;
  n_broadcast_div : T → T → result T TensorError;
  (** [tensor + f64] *)
  n_add_scalar : T → f64 → result T TensorError;
  n_sqr : T → result T TensorError;
  n_sqrt : T → result T TensorError;
  n_neg : T → result T TensorError;
  n_silu : T → result T TensorError;
  n_cos : T → result T TensorError;
  n_sin : T → result T TensorError;
  (** Over the last dimension. *)
  n_mean_keepdim : T → result T TensorError;
  n_softmax : T → result T TensorError;
  n_flatten_all : T → result T TensorError;
  n_from_f32 : list f32 → list nat → result T TensorError;
  n_from_f64 : list f64 → list nat → result T TensorError;
  n_from_u32 : list N → list nat → result T TensorError;
  n_arange_u32 : N → N → result T TensorError;
  (** [Tensor::new(x, device)] *)
  n_scalar_f32 : f32 → result T TensorError;
  n_scalar_f64 : f64 → result T TensorError;
  n_to_vec1_u32 : T → result (list N) TensorError;
  n_to_vec2_f32 : T → result (list (list f32)) TensorError;
}.

(** [D::Minus1], and the size of that dimension. *)
Definition minus1 {T} `{!NdOps T} (t : T) : result nat TensorError :=
  match length (n_dims t) with 0 => Err "dimension out of range"%string | S r => Ok r end.
Definition n_dim {T} `{!NdOps T} (t : T) (k : nat) : result nat TensorError :=
  match n_dims t !! k with Some d => Ok d | None => Err "dimension out of range"%string end.
Definition dim_minus1 {T} `{!NdOps T} (t : T) : result nat TensorError := k <-? minus1 t; n_dim t k.
Definition dim_minus2 {T} `{!NdOps T} (t : T) : result nat TensorError :=
  match length (n_dims t) with S (S r) => n_dim t r | _ => Err "dimension out of range"%string end.

Definition dims2 {T} `{!NdOps T} (t : T) : result (nat * nat) TensorError :=
  match n_dims t with [a; b] => Ok (a, b) | _ => Err "unexpected rank"%string end.
Definition dims3 {T} `{!NdOps T} (t : T) : result (nat * nat * nat) TensorError :=
  match n_dims t with [a; b; c] => Ok (a, b, c) | _ => Err "unexpected rank"%string end.
Definition dims4 {T} `{!NdOps T} (t : T) : result (nat * nat * nat * nat) TensorError :=
  match n_dims t with [a; b; c; d] => Ok (a, b, c, d) | _ => Err "unexpected rank"%string end.

(** ** Indices *)
Section tab.
Context {E : Type}.

(** The elements of a shape, the last index varying fastest. *)
Fixpoint tab (d : list nat) (f : list nat → E) : list E :=
  match d with
  | [] => [f []]
  | n :: d => seq 0 n ≫= (λ i, tab d (λ ix, f (i :: ix)))
  end.

Fixpoint inb (d i : list nat) : Prop :=
  match d, i with
  | [], [] => True
  | n :: d, k :: i => k < n ∧ inb d i
  | _, _ => False
  end.

Fixpoint ravel (d i : list nat) : nat :=
  match d, i with
  | _ :: d, k :: i => k * nprod d + ravel d i
  | _, _ => 0
  end.

Lemma seq_bind_ext {A} (f g : nat → list A) n : (∀ i, i < n → f i = g i) → seq 0 n ≫= f = seq 0 n ≫= g.
Proof.
  induction n as [|n IH]; intros H; [done |]. rewrite seq_S, !bind_app, IH by (intros; apply H; lia). cbn.
  by rewrite (H n) by lia.
Qed.

Lemma tab_ext d : ∀ f g : list nat → E, (∀ i, inb d i → f i = g i) → tab d f = tab d g.
Proof.
  induction d as [|n d IH]; intros f g H; cbn [tab]; [by rewrite (H []) |].
  apply seq_bind_ext. intros i Hi. apply IH. intros ix Hix. by apply H.
Qed.

Lemma length_seq_bind {A} (f : nat → list A) w n : (∀ i, i < n → length (f i) = w) → length (seq 0 n ≫= f) = n * w.
Proof.
  induction n as [|n IH]; intros H; [done |]. rewrite seq_S, bind_app, length_app, IH by (intros; apply H; lia).
  cbn [mbind list_bind]. rewrite app_nil_r, H by lia. cbn. lia.
Qed.

Lemma length_tab d : ∀ f : list nat → E, length (tab d f) = nprod d.
Proof. induction d as [|n d IH]; intros f; [done |]. cbn [tab nprod foldr]. apply length_seq_bind. intros. apply IH. Qed.

Lemma lookup_seq_bind {A} (f : nat → list A) w n : ∀ i j, (∀ i, i < n → length (f i) = w) → i < n → j < w →
  (seq 0 n ≫= f) !! (i * w + j) = f i !! j.
Proof.
  induction n as [|n IH]; intros i j H Hi Hj; [lia |]. rewrite seq_S, bind_app.
  pose proof (length_seq_bind f w n ltac:(intros; apply H; lia)) as Hl.
  destruct (decide (i = n)) as [->|Hn].
  - rewrite lookup_app_r by (rewrite Hl; lia). cbn [mbind list_bind Nat.add]. rewrite app_nil_r, Hl. f_equal. lia.
  - rewrite lookup_app_l by (rewrite Hl; nia). apply IH; [intros; apply H; lia | lia | lia].
Qed.

Lemma ravel_lt d : ∀ i, inb d i → ravel d i < nprod d.
Proof.
  induction d as [|n d IH]; intros [|k i]; cbn [inb ravel nprod foldr]; try done; [lia |].
  intros [Hk Hi]. specialize (IH i Hi). unfold nprod in *. nia.
Qed.

Lemma tab_lookup d : ∀ (f : list nat → E) i, inb d i → tab d f !! ravel d i = Some (f i).
Proof.
  induction d as [|n d IH]; intros f [|k i]; cbn [inb]; try done. intros [Hk Hi]. cbn [tab ravel].
  rewrite (lookup_seq_bind _ (nprod d)); [exact (IH (λ ix, f (k :: ix)) i Hi) | intros; apply length_tab | done | by apply ravel_lt].
Qed.

(** A list in row-major order. *)
Lemma tab_ravel d : ∀ g : nat → E, tab d (λ i, g (ravel d i)) = g <$> seq 0 (nprod d).
Proof.
  induction d as [|n d IH]; intros g; [done |]. cbn [tab ravel nprod foldr]. fold (nprod d).
  rewrite (seq_bind_ext _ (λ i, (λ j, g (i * nprod d + j)) <$> seq 0 (nprod d))) by (intros i _; exact (IH (λ j, g (i * nprod d + j)))).
  induction n as [|n IHn]; [done |]. rewrite seq_S, bind_app, IHn. replace (S n * nprod d) with (n * nprod d + nprod d) by lia.
  rewrite seq_app, fmap_app. f_equal. cbn [mbind list_bind Nat.add]. rewrite app_nil_r.
  replace (seq (n * nprod d) (nprod d)) with (Nat.add (n * nprod d) <$> seq 0 (nprod d)) by (rewrite fmap_add_seq; f_equal; lia).
  by rewrite <- list_fmap_compose.
Qed.

Lemma tab_list d x (l : list E) : length l = nprod d → tab d (λ i, default x (l !! ravel d i)) = l.
Proof.
  intros Hl. rewrite (tab_ravel d (λ k, default x (l !! k))), <- Hl. apply list_eq. intros i. rewrite list_lookup_fmap.
  destruct (decide (i < length l)) as [Hi|Hi].
  - rewrite lookup_seq_lt by done. cbn. destruct (lookup_lt_is_Some_2 l i Hi) as [y Hy]. by rewrite Hy.
  - rewrite !lookup_ge_None_2; [done | lia | rewrite length_seq; lia].
Qed.

(** Elements of equal tabulations agree. *)
Lemma tab_inj d (f g : list nat → E) i : tab d f = tab d g → inb d i → f i = g i.
Proof. intros H Hi. pose proof (tab_lookup d f i Hi) as Hf. rewrite H, tab_lookup in Hf by done. by injection Hf. Qed.

(** Splitting one dimension, or merging two. *)
Lemma seq_mul_bind {A} (f : nat → list A) h d : seq 0 (h * d) ≫= f = seq 0 h ≫= (λ a, seq 0 d ≫= (λ b, f (a * d + b))).
Proof.
  induction h as [|h IH]; [done |]. replace (S h * d) with (h * d + d) by lia.
  rewrite seq_app, bind_app, IH, seq_S, bind_app. f_equal. cbn [mbind list_bind Nat.add]. rewrite app_nil_r.
  rewrite <- (Nat.add_0_r (h * d)) at 1. rewrite <- fmap_add_seq. generalize (seq 0 d) as l.
  induction l as [|x l IHl]; [done |]. cbn. by rewrite IHl.
Qed.

Lemma tab_split d h w post (f : list nat → E) g :
  (∀ p a b q, inb d p → a < h → b < w → inb post q → f (p ++ (a * w + b) :: q) = g (p ++ a :: b :: q)) →
  tab (d ++ h * w :: post) f = tab (d ++ h :: w :: post) g.
Proof.
  revert f g. induction d as [|n d IH]; intros f g H.
  - cbn [app tab]. rewrite seq_mul_bind. apply seq_bind_ext. intros a Ha. apply seq_bind_ext. intros b Hb.
    apply tab_ext. intros q Hq. by apply (H []).
  - cbn [app tab]. apply seq_bind_ext. intros i Hi. apply IH. intros p a b q Hp Ha Hb Hq. by apply (H (i :: p)).
Qed.
End tab.

(** Index maps: what each call does to a shape and to an index. *)
Definition swap12 {A} (l : list A) : list A :=
  match l with a :: b :: c :: r => a :: c :: b :: r | _ => l end.
Fixpoint swap_last {A} (l : list A) : list A :=
  match l with
  | [a; b] => [b; a]
  | x :: l => x :: swap_last l
  | [] => []
  end.
Definition set_last (i : list nat) (j : nat) : list nat := removelast i ++ [j].

(** The element of the smaller shape [d] that meets index [i]. *)
Definition bidx (d i : list nat) : list nat :=
  zip_with (λ n k, if n =? 1 then 0 else k) d (drop (length i - length d) i).
(** [d] broadcasts to [d']. *)
Definition bfits (d d' : list nat) : bool :=
  (length d <=? length d') && forallb (λ p, (p.1 =? 1) || (p.1 =? p.2)) (zip d (drop (length d' - length d) d')).
(** Neither broadcasts to the other, nor both to a third. *)
Definition clash (d d' : list nat) : Prop :=
  ∃ k x y, reverse d !! k = Some x ∧ reverse d' !! k = Some y ∧ x ≠ y ∧ x ≠ 1 ∧ y ≠ 1.

Lemma inb_length d : ∀ i, inb d i → length i = length d.
Proof. induction d as [|n d IH]; intros [|k i]; cbn; try done. intros [_ H]. by rewrite (IH i H). Qed.

Lemma inb_app d i : ∀ d' i', length d' = length i' → inb (d' ++ d) (i' ++ i) ↔ inb d' i' ∧ inb d i.
Proof.
  induction d' as [|n d' IH]; intros [|k i']; cbn; try (intros; lia); [tauto |].
  intros [= H]. rewrite IH by done. tauto.
Qed.

(** An index of a shape ending in [n]. *)
Lemma inb_last d n i : inb (d ++ [n]) i → ∃ p j, i = p ++ [j] ∧ inb d p ∧ j < n.
Proof.
  intros H. pose proof (inb_length _ _ H) as Hl. rewrite length_app in Hl. cbn in Hl.
  destruct i as [|j p _] using rev_ind; [cbn in Hl; lia |]. rewrite length_app in Hl. cbn in Hl.
  apply inb_app in H as [H1 [H2 _]]; [| lia]. by exists p, j.
Qed.

Lemma set_last_app p x j : set_last (p ++ [x]) j = p ++ [j].
Proof. unfold set_last. by rewrite removelast_last. Qed.

Lemma inb_swap12 d i : inb (swap12 d) i → inb d (swap12 i).
Proof. destruct d as [|a [|b [|c d]]], i as [|x [|y [|z i]]]; cbn; tauto. Qed.

Lemma swap_last_app {A} p (a b : A) : swap_last (p ++ [a; b]) = p ++ [b; a].
Proof. induction p as [|x p IH]; [done |]. cbn [app swap_last]. rewrite IH. destruct p as [|? [|? ?]]; done. Qed.

Lemma list_last2 {A} (l : list A) : 2 ≤ length l → ∃ p a b, l = p ++ [a; b].
Proof.
  intros H. destruct l as [|b l _] using rev_ind; [cbn in H; lia |].
  destruct l as [|a p _] using rev_ind; [cbn in H; lia |]. exists p, a, b. by rewrite <- app_assoc.
Qed.

Lemma inb_swap_last d i : 2 ≤ length d → inb (swap_last d) i → inb d (swap_last i).
Proof.
  intros (p & a & b & ->)%list_last2. rewrite swap_last_app. intros H. pose proof (inb_length _ _ H) as Hl.
  rewrite length_app in Hl. cbn in Hl. destruct (list_last2 i ltac:(lia)) as (q & x & y & ->).
  rewrite swap_last_app. rewrite length_app in Hl. cbn in Hl. apply inb_app in H as [H1 H2]; [| lia].
  apply inb_app; [lia |]. cbn in *. tauto.
Qed.

Lemma bfits_le d d' : bfits d d' = true → length d ≤ length d'.
Proof. unfold bfits. intros [H _]%andb_true_iff. by apply Nat.leb_le. Qed.

Lemma inb_bidx_same d : ∀ d' i, length d = length d' →
  forallb (λ p, (p.1 =? 1) || (p.1 =? p.2)) (zip d d') = true → inb d' i →
  inb d (zip_with (λ n k, if n =? 1 then 0 else k) d i).
Proof.
  induction d as [|n d IH]; intros [|n' d'] [|k i] Hl; try done. cbn. intros [Hn Hd]%andb_true_iff [Hk Hi].
  split; [| apply (IH d'); [by injection Hl | done | done]].
  apply orb_true_iff in Hn as [Hn|Hn]; apply Nat.eqb_eq in Hn; subst; [cbn; lia |]. destruct (_ =? 1) eqn:E; [lia | done].
Qed.

Lemma inb_bidx d d' i : bfits d d' = true → inb d' i → inb d (bidx d i).
Proof.
  intros Hf Hi. pose proof (bfits_le _ _ Hf) as Hl. apply andb_true_iff in Hf as [_ Hf]. unfold bidx.
  rewrite (inb_length _ _ Hi). rewrite <- (take_drop (length d' - length d) d') in Hi.
  rewrite <- (take_drop (length d' - length d) i) in Hi.
  pose proof (inb_length _ _ Hi) as Hli. rewrite !length_app, !length_take, !length_drop in Hli.
  apply inb_app in Hi as [_ Hi]; [| rewrite !length_take; lia].
  apply (inb_bidx_same _ (drop (length d' - length d) d')); [rewrite length_drop; lia | done | done].
Qed.

Lemma inb_alter (g : nat → nat) : ∀ k d i n n', d !! k = Some n → (∀ x, x < n' → g x < n) → inb (<[k:=n']> d) i → inb d (alter g k i).
Proof.
  induction k as [|k IH]; intros [|n0 d] [|x i] n n' Hn Hg; cbn; try done; simplify_eq/=; intros [Hx Hi]; split; auto.
  by apply (IH d i n n').
Qed.

Lemma inb_insert k : ∀ d i n n' x, d !! k = Some n → i !! k = Some x → x < n → inb (<[k:=n']> d) i → inb d i.
Proof.
  induction k as [|k IH]; intros [|n0 d] [|x0 i] n n' x Hn Hx Hlt; cbn; try done; simplify_eq/=; intros [H1 H2]; split; auto.
  by apply (IH d i n n' x).
Qed.

Lemma inb_insert_both k : ∀ d i n n' x, x < n' → inb (<[k:=n]> d) i → inb (<[k:=n']> d) (<[k:=x]> i).
Proof.
  induction k as [|k IH]; intros [|n0 d] [|x0 i] n n' x Hx; cbn; try done; [tauto |].
  intros [H1 H2]. split; [done |]. by apply (IH d i n n').
Qed.

Lemma inb_lookup k : ∀ d i n, d !! k = Some n → inb d i → ∃ x, i !! k = Some x ∧ x < n.
Proof.
  induction k as [|k IH]; intros [|n0 d] [|x0 i] n Hn; cbn; try done; simplify_eq/=; intros [H1 H2]; [by exists x0 |].
  by apply (IH d i n).
Qed.

Lemma inb_stack k : ∀ d i n, k ≤ length d → inb (take k d ++ n :: drop k d) i →
  ∃ x, i !! k = Some x ∧ x < n ∧ inb d (take k i ++ drop (S k) i).
Proof.
  induction k as [|k IH]; intros [|n0 d] [|x i] n Hk; cbn in *; try done; try lia.
  - intros [H1 H2]. exists x. by rewrite drop_0.
  - intros [H1 H2]. exists x. by rewrite drop_0.
  - intros [H1 H2]. destruct (IH d i n ltac:(lia) H2) as (y & Hy & Hlt & Hb). by exists y.
Qed.

Lemma inb_unsqueeze k : ∀ d i, k ≤ length d → inb (take k d ++ 1 :: drop k d) i → inb d (take k i ++ drop (S k) i).
Proof.
  induction k as [|k IH]; intros [|n d] [|x i] Hk; cbn in *; try done; try lia; [tauto | tauto |].
  intros [H1 H2]. split; [done |]. apply IH; [lia | done].
Qed.

(** ** Elements and laws *)
Class Scalars (E : Type) : Type := {
  e_add : E → E → E;
  e_sub : E → E → E;
  e_mul : E → E → E;
  e_lt : E → E → E;
  e_floor : E → E;
  e_div : E → E → E;
  e_sqr : E → E;
  e_sqrt : E → E;
  e_neg : E → E;
  e_silu : E → E;
  e_cos : E → E;
  e_sin : E → E;
  e_dot : list E → list E → E;
  e_mean : list E → E;
  e_softmax : list E → list E;
  (** The conversion from one type to another. *)
  e_cast : TDType → TDType → E → E;
  e_f32 : f32 → E;
  e_f64 : f64 → E;
  e_u32 : N → E;
  e_i32 : Z → E;
  e_u8 : N → E;
  e_to_f32 : E → f32;
  e_to_u32 : E → N;
}.

Definition e_zero {E} `{!Scalars E} : E := e_f32 F32.zero.

Class LawfulScalars (E : Type) `{!Scalars E} : Prop := {
  e_cast_same : ∀ ty x, e_cast ty ty x = x;
  e_to_u32_of : ∀ n, (n <= u32_max)%N → e_to_u32 (e_u32 n) = n;
  length_e_softmax : ∀ l, length (e_softmax l) = length l;
}.

Class Elements (T E : Type) : Type := n_flat : T → list E.

Definition is_float (ty : TDType) : Prop := ty = T_F32 ∨ ty = T_F64.

Section laws.
Context {T E : Type} `{!NdOps T, !Scalars E, !Elements T E}.

(** [t] has type [ty], shape [d] and elements [f]. *)
Definition den (t : T) (ty : TDType) (d : list nat) (f : list nat → E) : Prop :=
  n_dims t = d ∧ n_dtype t = ty ∧ n_flat t = tab d f.

Definition gives (r : result T TensorError) (ty : TDType) (d : list nat) (f : list nat → E) : Prop :=
  ∃ t, r = Ok t ∧ den t ty d f.

Definition row_at (f : list nat → E) (i : list nat) (n : nat) : list E := (λ j, f (set_last i j)) <$> seq 0 n.

Lemma den_ext t ty d f g : den t ty d f → (∀ i, inb d i → f i = g i) → den t ty d g.
Proof. intros (H1 & H2 & H3) H. split_and!; [done | done |]. rewrite H3. by apply tab_ext. Qed.

(** A tensor that holds the values [l]. *)
Lemma den_list {A} (e : A → E) (x : A) (t : T) ty d l : n_dims t = d → n_dtype t = ty → n_flat t = e <$> l → length l = nprod d →
  den t ty d (λ i, e (default x (l !! ravel d i))).
Proof.
  intros H1 H2 H3 Hl. split_and!; [done | done |]. rewrite H3. symmetry.
  rewrite <- (tab_list d (e x) (e <$> l)) by (by rewrite length_fmap). apply tab_ext. intros i _. rewrite list_lookup_fmap.
  by destruct (l !! ravel d i).
Qed.

Lemma gives_ext r ty d f g : gives r ty d f → (∀ i, inb d i → f i = g i) → gives r ty d g.
Proof. intros (t & E1 & H1) H. exists t. split; [done |]. by apply (den_ext _ _ _ f). Qed.
End laws.

Class LawfulNd (T E : Type) `{!NdOps T, !Scalars E, !Elements T E} : Prop := {
  to_dtype_ok : ∀ (t : T) ty ty' d (f : list nat → E), den t ty d f → gives (n_to_dtype t ty') ty' d (λ i, e_cast ty ty' (f i));
  nd_reshape_ok : ∀ (t : T) ty d d' (f g : list nat → E), den t ty d f → nprod d' = nprod d → tab d f = tab d' g →
    gives (n_reshape t d') ty d' g;
  transpose_ok : ∀ (t : T) ty d (f : list nat → E), den t ty d f → 3 ≤ length d →
    gives (n_transpose_1_2 t) ty (swap12 d) (λ i, f (swap12 i));
  t_ok : ∀ (t : T) ty d (f : list nat → E), den t ty d f → 2 ≤ length d → gives (n_t t) ty (swap_last d) (λ i, f (swap_last i));
  contiguous_ok : ∀ (t : T) ty d (f : list nat → E), den t ty d f → gives (n_contiguous t) ty d f;
  narrow_ok : ∀ (t : T) ty d (f : list nat → E) k start len n, den t ty d f → d !! k = Some n → start + len ≤ n →
    gives (n_narrow t k start len) ty (<[k:=len]> d) (λ i, f (alter (Nat.add start) k i));
  cat_ok : ∀ (a b : T) ty d (f g : list nat → E) k n m, den a ty d f → den b ty (<[k:=m]> d) g → d !! k = Some n →
    gives (n_cat [a; b] k) ty (<[k:=n + m]> d)
      (λ i, let x := default 0 (i !! k) in if x <? n then f i else g (<[k:=x - n]> i));
  stack_ok : ∀ (l : list T) ty d (F : nat → list nat → E) k, l ≠ [] → (∀ j t, l !! j = Some t → den t ty d (F j)) → k ≤ length d →
    gives (n_stack l k) ty (take k d ++ length l :: drop k d) (λ i, F (default 0 (i !! k)) (take k i ++ drop (S k) i));
  unsqueeze_ok : ∀ (t : T) ty d (f : list nat → E) k, den t ty d f → k ≤ length d →
    gives (n_unsqueeze t k) ty (take k d ++ 1 :: drop k d) (λ i, f (take k i ++ drop (S k) i));
  expand_ok : ∀ (t : T) ty d d' (f : list nat → E), den t ty d f → bfits d d' = true → gives (n_expand t d') ty d' (λ i, f (bidx d i));
  index_select_ok : ∀ (t ids : T) ty n d m (f g : list nat → E), den t ty (n :: d) f → den ids T_U32 [m] g →
    (∀ k, k < m → N.to_nat (e_to_u32 (g [k])) < n) →
    gives (n_index_select_0 t ids) ty (m :: d)
      (λ i, match i with k :: i => f (N.to_nat (e_to_u32 (g [k])) :: i) | [] => f [] end);
  matmul2_ok : ∀ (a b : T) ty n k m (f g : list nat → E), is_float ty → den a ty [n; k] f → den b ty [k; m] g →
    gives (n_matmul a b) ty [n; m] (λ i, match i with
      | [x; y] => e_dot ((λ l, f [x; l]) <$> seq 0 k) ((λ l, g [l; y]) <$> seq 0 k) | _ => e_zero end);
  matmul4_ok : ∀ (a b : T) ty p q n k m (f g : list nat → E), is_float ty → den a ty [p; q; n; k] f → den b ty [p; q; k; m] g →
    gives (n_matmul a b) ty [p; q; n; m] (λ i, match i with
      | [u; v; x; y] => e_dot ((λ l, f [u; v; x; l]) <$> seq 0 k) ((λ l, g [u; v; l; y]) <$> seq 0 k) | _ => e_zero end);
  add_ok : ∀ (a b : T) ty d (f g : list nat → E), is_float ty → den a ty d f → den b ty d g →
    gives (n_add a b) ty d (λ i, e_add (f i) (g i));
  sub_ok : ∀ (a b : T) ty d (f g : list nat → E), is_float ty → den a ty d f → den b ty d g →
    gives (n_sub a b) ty d (λ i, e_sub (f i) (g i));
  mul_ok : ∀ (a b : T) ty d (f g : list nat → E), is_float ty → den a ty d f → den b ty d g →
    gives (n_mul a b) ty d (λ i, e_mul (f i) (g i));
  div_ok : ∀ (a b : T) ty d (f g : list nat → E), is_float ty → den a ty d f → den b ty d g →
    gives (n_div a b) ty d (λ i, e_div (f i) (g i));
  lt_ok : ∀ (a b : T) ty d (f g : list nat → E), is_float ty → den a ty d f → den b ty d g →
    gives (n_lt a b) T_U8 d (λ i, e_lt (f i) (g i));
  floor_ok : ∀ (t : T) ty d (f : list nat → E), is_float ty → den t ty d f → gives (n_floor t) ty d (λ i, e_floor (f i));
  broadcast_add_ok : ∀ (a b : T) ty d d' (f g : list nat → E), is_float ty → den a ty d f → den b ty d' g → bfits d' d = true →
    gives (n_broadcast_add a b) ty d (λ i, e_add (f i) (g (bidx d' i)));
  broadcast_mul_ok : ∀ (a b : T) ty d d' (f g : list nat → E), is_float ty → den a ty d f → den b ty d' g → bfits d' d = true →
    gives (n_broadcast_mul a b) ty d (λ i, e_mul (f i) (g (bidx d' i)));
  broadcast_div_ok : ∀ (a b : T) ty d d' (f g : list nat → E), is_float ty → den a ty d f → den b ty d' g → bfits d' d = true →
    gives (n_broadcast_div a b) ty d (λ i, e_div (f i) (g (bidx d' i)));
  broadcast_add_clash : ∀ (a b : T), clash (n_dims a) (n_dims b) → ∃ e, n_broadcast_add a b = Err e;
  add_scalar_ok : ∀ (t : T) ty d (f : list nat → E) x, is_float ty → den t ty d f →
    gives (n_add_scalar t x) ty d (λ i, e_add (f i) (e_cast T_F64 ty (e_f64 x)));
  sqr_ok : ∀ (t : T) ty d (f : list nat → E), is_float ty → den t ty d f → gives (n_sqr t) ty d (λ i, e_sqr (f i));
  sqrt_ok : ∀ (t : T) ty d (f : list nat → E), is_float ty → den t ty d f → gives (n_sqrt t) ty d (λ i, e_sqrt (f i));
  neg_ok : ∀ (t : T) ty d (f : list nat → E), is_float ty → den t ty d f → gives (n_neg t) ty d (λ i, e_neg (f i));
  silu_ok : ∀ (t : T) ty d (f : list nat → E), is_float ty → den t ty d f → gives (n_silu t) ty d (λ i, e_silu (f i));
  cos_ok : ∀ (t : T) ty d (f : list nat → E), is_float ty → den t ty d f → gives (n_cos t) ty d (λ i, e_cos (f i));
  sin_ok : ∀ (t : T) ty d (f : list nat → E), is_float ty → den t ty d f → gives (n_sin t) ty d (λ i, e_sin (f i));
  mean_ok : ∀ (t : T) ty d n (f : list nat → E), is_float ty → den t ty (d ++ [n]) f →
    gives (n_mean_keepdim t) ty (d ++ [1]) (λ i, e_mean (row_at f i n));
  softmax_ok : ∀ (t : T) ty d n (f : list nat → E), is_float ty → den t ty (d ++ [n]) f →
    gives (n_softmax t) ty (d ++ [n]) (λ i, default e_zero (e_softmax (row_at f i n) !! List.last i 0));
  nd_flatten_ok : ∀ (t : T) ty d (f : list nat → E) g, den t ty d f → tab d f = tab [nprod d] g → gives (n_flatten_all t) ty [nprod d] g;
  nd_from_f32_ok : ∀ v d g, length v = nprod d → e_f32 <$> v = tab d g → gives (T := T) (E := E) (n_from_f32 v d) T_F32 d g;
  nd_from_f64_ok : ∀ v d g, length v = nprod d → e_f64 <$> v = tab d g → gives (T := T) (E := E) (n_from_f64 v d) T_F64 d g;
  nd_from_u32_ok : ∀ v d g, length v = nprod d → e_u32 <$> v = tab d g → gives (T := T) (E := E) (n_from_u32 v d) T_U32 d g;
  arange_ok : ∀ a b, gives (T := T) (E := E) (n_arange_u32 a b) T_U32 [N.to_nat (b - a)]
    (λ i, e_u32 (a + N.of_nat (List.last i 0%nat))%N);
  scalar_ok : ∀ x, gives (T := T) (E := E) (n_scalar_f32 x) T_F32 [] (λ _, e_f32 x);
  scalar_f64_ok : ∀ x, gives (T := T) (E := E) (n_scalar_f64 x) T_F64 [] (λ _, e_f64 x);
  to_vec1_u32_ok : ∀ (t : T) n (f : list nat → E), den t T_U32 [n] f → n_to_vec1_u32 t = Ok (e_to_u32 <$> n_flat t);
  nd_to_vec2_ok : ∀ (t : T) r c (f : list nat → E), den t T_F32 [r; c] f →
    n_to_vec2_f32 t = Ok (rows_of c r (e_to_f32 <$> n_flat t));
}.

(** ** A list-backed instance *)
Record NdHost (E : Type) : Type := mkNdHost { nh_dims : list nat; nh_dtype : TDType; nh_data : list E }.
Arguments mkNdHost {E}.
Arguments nh_dims {E}.
Arguments nh_dtype {E}.
Arguments nh_data {E}.

Section host.
Context {E : Type} `{!Scalars E}.
#[local] Abbreviation H := (NdHost E).

Definition nh_at (t : H) (i : list nat) : E := default e_zero (nh_data t !! ravel (nh_dims t) i).
Definition nh_mk (d : list nat) (ty : TDType) (f : list nat → E) : H := mkNdHost d ty (tab d f).
Definition nh_if (b : bool) (t : H) : result H TensorError := if b then Ok t else Err "shape mismatch"%string.
Definition nh_map (u : E → E) (t : H) : result H TensorError := Ok (nh_mk (nh_dims t) (nh_dtype t) (λ i, u (nh_at t i))).
Definition nh_zip_to (ty : TDType) (op : E → E → E) (a b : H) : result H TensorError :=
  nh_if (bfits (nh_dims b) (nh_dims a))
    (nh_mk (nh_dims a) ty (λ i, op (nh_at a i) (nh_at b (bidx (nh_dims b) i)))).
Definition nh_zip (op : E → E → E) (a b : H) : result H TensorError := nh_zip_to (nh_dtype a) op a b.
Definition nh_vec {A} (e : A → E) (ty : TDType) (v : list A) (d : list nat) : result H TensorError :=
  nh_if (length v =? nprod d) (mkNdHost d ty (e <$> v)).
Definition nh_row (t : H) (i : list nat) : list E := row_at (nh_at t) i (List.last (nh_dims t) 0).

Definition nh_matmul (a b : H) : result H TensorError :=
  match nh_dims a, nh_dims b with
  | [n; k], [_; m] => Ok (nh_mk [n; m] (nh_dtype a) (λ i, match i with
      | [x; y] => e_dot ((λ l, nh_at a [x; l]) <$> seq 0 k) ((λ l, nh_at b [l; y]) <$> seq 0 k) | _ => e_zero end))
  | [p; q; n; k], [_; _; _; m] => Ok (nh_mk [p; q; n; m] (nh_dtype a) (λ i, match i with
      | [u; v; x; y] => e_dot ((λ l, nh_at a [u; v; x; l]) <$> seq 0 k) ((λ l, nh_at b [u; v; l; y]) <$> seq 0 k)
      | _ => e_zero end))
  | _, _ => Err "shape mismatch"%string
  end.

Definition nh_stack (l : list H) (k : nat) : result H TensorError :=
  match l with
  | a :: _ => nh_if (k <=? length (nh_dims a)) (nh_mk (take k (nh_dims a) ++ length l :: drop k (nh_dims a)) (nh_dtype a)
      (λ i, nh_at (default a (l !! default 0 (i !! k))) (take k i ++ drop (S k) i)))
  | [] => Err "empty"%string
  end.

Definition nh_cat (l : list H) (k : nat) : result H TensorError :=
  match l with
  | [a; b] =>
      match nh_dims a !! k, nh_dims b !! k with
      | Some n, Some m => Ok (nh_mk (<[k:=n + m]> (nh_dims a)) (nh_dtype a)
          (λ i, let x := default 0 (i !! k) in if x <? n then nh_at a i else nh_at b (<[k:=x - n]> i)))
      | _, _ => Err "shape mismatch"%string
      end
  | _ => Err "shape mismatch"%string
  end.

#[local] Instance host_nd : NdOps H := {
  n_dims := nh_dims;
  n_dtype := nh_dtype;
  n_to_dtype t ty := Ok (nh_mk (nh_dims t) ty (λ i, e_cast (nh_dtype t) ty (nh_at t i)));
  n_reshape t d := nh_if (nprod d =? nprod (nh_dims t)) (mkNdHost d (nh_dtype t) (nh_data t));
  n_transpose_1_2 t := nh_if (3 <=? length (nh_dims t)) (nh_mk (swap12 (nh_dims t)) (nh_dtype t) (λ i, nh_at t (swap12 i)));
  n_t t := nh_if (2 <=? length (nh_dims t)) (nh_mk (swap_last (nh_dims t)) (nh_dtype t) (λ i, nh_at t (swap_last i)));
  n_contiguous t := Ok t;
  n_narrow t k start len :=
    match nh_dims t !! k with
    | Some n => nh_if (start + len <=? n) (nh_mk (<[k:=len]> (nh_dims t)) (nh_dtype t) (λ i, nh_at t (alter (Nat.add start) k i)))
    | None => Err "dimension"%string
    end;
  n_cat := nh_cat;
  n_stack := nh_stack;
  n_unsqueeze t k := nh_if (k <=? length (nh_dims t))
    (nh_mk (take k (nh_dims t) ++ 1 :: drop k (nh_dims t)) (nh_dtype t) (λ i, nh_at t (take k i ++ drop (S k) i)));
  n_expand t d := nh_if (bfits (nh_dims t) d) (nh_mk d (nh_dtype t) (λ i, nh_at t (bidx (nh_dims t) i)));
  n_index_select_0 t ids :=
    match nh_dims t, nh_dims ids with
    | n :: d, [m] => nh_if (forallb (λ e, N.to_nat (e_to_u32 e) <? n) (nh_data ids))
        (nh_mk (m :: d) (nh_dtype t)
          (λ i, match i with k :: i => nh_at t (N.to_nat (e_to_u32 (nh_at ids [k])) :: i) | [] => nh_at t [] end))
    | _, _ => Err "shape mismatch"%string
    end;
  n_matmul := nh_matmul;
  n_add := nh_zip e_add;
  n_sub := nh_zip e_sub;
  n_mul := nh_zip e_mul;
  n_div := nh_zip e_div;
  n_lt := nh_zip_to T_U8 e_lt;
  n_floor := nh_map e_floor;
  n_broadcast_add := nh_zip e_add;
  n_broadcast_mul := nh_zip e_mul;
  n_broadcast_div := nh_zip e_div;
  n_add_scalar t x := nh_map (λ e, e_add e (e_cast T_F64 (nh_dtype t) (e_f64 x))) t;
  n_sqr := nh_map e_sqr;
  n_sqrt := nh_map e_sqrt;
  n_neg := nh_map e_neg;
  n_silu := nh_map e_silu;
  n_cos := nh_map e_cos;
  n_sin := nh_map e_sin;
  n_mean_keepdim t := Ok (nh_mk (removelast (nh_dims t) ++ [1]) (nh_dtype t) (λ i, e_mean (nh_row t i)));
  n_softmax t := Ok (nh_mk (nh_dims t) (nh_dtype t) (λ i, default e_zero (e_softmax (nh_row t i) !! List.last i 0)));
  n_flatten_all t := Ok (mkNdHost [nprod (nh_dims t)] (nh_dtype t) (nh_data t));
  n_from_f32 := nh_vec e_f32 T_F32;
  n_from_f64 := nh_vec e_f64 T_F64;
  n_from_u32 := nh_vec e_u32 T_U32;
  n_arange_u32 a b := Ok (nh_mk [N.to_nat (b - a)] T_U32 (λ i, e_u32 (a + N.of_nat (List.last i 0%nat))%N));
  n_scalar_f32 x := Ok (nh_mk [] T_F32 (λ _, e_f32 x));
  n_scalar_f64 x := Ok (nh_mk [] T_F64 (λ _, e_f64 x));
  n_to_vec1_u32 t := Ok (e_to_u32 <$> nh_data t);
  n_to_vec2_f32 t := match nh_dims t with
                     | [r; c] => Ok (rows_of c r (e_to_f32 <$> nh_data t)) | _ => Err "unexpected rank"%string end;
}.

#[local] Instance host_elements : Elements H E := nh_data.

Lemma nh_at_den t ty d f i : den t ty d f → inb d i → nh_at t i = f i.
Proof. intros (H1 & _ & H3) Hi. cbn in H1, H3. unfold n_flat, host_elements in H3. unfold nh_at. by rewrite H1, H3, tab_lookup. Qed.

Lemma nh_mk_gives d ty (f g : list nat → E) : (∀ i, inb d i → f i = g i) → gives (Ok (nh_mk d ty f)) ty d g.
Proof. intros H. exists (nh_mk d ty f). split; [done |]. split_and!; [done | done |]. by apply tab_ext. Qed.

Lemma nh_if_gives b t ty d (g : list nat → E) : b = true → gives (Ok t) ty d g → gives (nh_if b t) ty d g.
Proof. by intros ->. Qed.

Lemma nh_map_gives u t ty d (f : list nat → E) : den t ty d f → gives (nh_map u t) ty d (λ i, u (f i)).
Proof.
  intros H. pose proof H as (H1 & H2 & _). unfold nh_map. cbn in H1, H2. rewrite H1, H2. apply nh_mk_gives.
  intros i Hi. by rewrite (nh_at_den t ty d f).
Qed.

Lemma nh_zip_to_gives ty' op a b ty d d' (f g : list nat → E) : den a ty d f → den b ty d' g → bfits d' d = true →
  gives (nh_zip_to ty' op a b) ty' d (λ i, op (f i) (g (bidx d' i))).
Proof.
  intros Ha Hb Hf. pose proof Ha as (H1 & _ & _). pose proof Hb as (H3 & _ & _). cbn in H1, H3. unfold nh_zip_to. rewrite H1, H3.
  apply nh_if_gives; [done |]. apply nh_mk_gives. intros i Hi. rewrite (nh_at_den a ty d f), (nh_at_den b ty d' g); try done.
  by apply (inb_bidx _ d).
Qed.

Lemma nh_zip_gives op a b ty d d' (f g : list nat → E) : den a ty d f → den b ty d' g → bfits d' d = true →
  gives (nh_zip op a b) ty d (λ i, op (f i) (g (bidx d' i))).
Proof. intros Ha. pose proof Ha as (_ & H2 & _). cbn in H2. unfold nh_zip. rewrite H2. by apply nh_zip_to_gives. Qed.

Lemma nh_vec_gives {A} (e : A → E) ty v d g : length v = nprod d → e <$> v = tab d g → gives (nh_vec e ty v d) ty d g.
Proof. intros Hl Hv. apply nh_if_gives; [by apply Nat.eqb_eq |]. eexists. split; [done |]. by split_and!. Qed.

Lemma bfits_refl d : bfits d d = true.
Proof.
  unfold bfits. rewrite Nat.leb_refl, Nat.sub_diag, drop_0. cbn. induction d as [|n d IH]; [done |]. cbn.
  by rewrite Nat.eqb_refl, orb_true_r, IH.
Qed.

Lemma bidx_same_aux d : ∀ i, inb d i → zip_with (λ n k, if n =? 1 then 0 else k) d i = i.
Proof.
  induction d as [|n d IH]; intros [|k i]; cbn; try done. intros [Hk Hi]. rewrite IH by done.
  destruct (Nat.eqb_spec n 1); [| done]. f_equal. lia.
Qed.

Lemma bidx_same d i : inb d i → bidx d i = i.
Proof. intros H. unfold bidx. rewrite (inb_length _ _ H), Nat.sub_diag, drop_0. by apply bidx_same_aux. Qed.

Lemma nh_zip_same ty' op a b ty d (f g : list nat → E) : den a ty d f → den b ty d g →
  gives (nh_zip_to ty' op a b) ty' d (λ i, op (f i) (g i)).
Proof.
  intros Ha Hb. eapply gives_ext; [apply (nh_zip_to_gives ty' op a b ty d d f g Ha Hb), bfits_refl |].
  intros i Hi. cbn. by rewrite bidx_same.
Qed.

Lemma clash_bfits d d' : clash d d' → bfits d' d = false.
Proof.
  intros (k & x & y & Hx & Hy & Hne & H1 & H2). apply not_true_iff_false. intros Hf. pose proof (bfits_le _ _ Hf) as Hl.
  apply andb_true_iff in Hf as [_ Hf]. rewrite forallb_forall in Hf.
  pose proof (lookup_lt_Some _ _ _ Hx) as Hkx. pose proof (lookup_lt_Some _ _ _ Hy) as Hky. rewrite length_reverse in Hkx, Hky.
  rewrite reverse_lookup in Hx by lia. rewrite reverse_lookup in Hy by lia.
  assert (Hz : zip d' (drop (length d - length d') d) !! (length d' - S k) = Some (y, x)).
  { rewrite lookup_zip_with, Hy. cbn. rewrite lookup_drop. replace (length d - length d' + (length d' - S k)) with (length d - S k) by lia.
    by rewrite Hx. }
  apply list_elem_of_lookup_2 in Hz. apply list_elem_of_In in Hz. apply Hf in Hz. cbn in Hz.
  apply orb_true_iff in Hz as [Hz|Hz]; apply Nat.eqb_eq in Hz; congruence.
Qed.

#[local] Ltac den_facts H :=
  let H1 := fresh "Hd" in let H2 := fresh "Hty" in
  pose proof H as (H1 & H2 & _); cbn in H1, H2; rewrite ?H1, ?H2.

#[local] Instance host_nd_lawful : LawfulNd H E.
Proof.
  split; cbn [n_dims n_dtype n_to_dtype n_reshape n_transpose_1_2 n_t n_contiguous n_narrow n_cat n_stack n_unsqueeze n_expand
    n_index_select_0 n_matmul n_add n_sub n_mul n_div n_lt n_floor n_broadcast_add n_broadcast_mul n_broadcast_div n_add_scalar n_sqr n_sqrt n_neg n_silu
    n_cos n_sin n_mean_keepdim n_softmax n_flatten_all n_from_f32 n_from_f64 n_from_u32 n_arange_u32 n_scalar_f32 n_scalar_f64
    n_to_vec1_u32 n_to_vec2_f32 host_nd].
  - intros t ty ty' d f Hd. den_facts Hd. apply nh_mk_gives. intros i Hi. by rewrite (nh_at_den t ty d f).
  - intros t ty d d' f g (H1 & H2 & H3) Hn Ht. cbn in H1, H2, H3. rewrite H1, H2.
    apply nh_if_gives; [by apply Nat.eqb_eq |]. eexists. split; [done |]. split_and!; [done | done |].
    unfold n_flat, host_elements in *. cbn. congruence.
  - intros t ty d f Hd Hl. den_facts Hd. apply nh_if_gives; [by apply Nat.leb_le |]. apply nh_mk_gives.
    intros i Hi. apply (nh_at_den t ty d f); [done | by apply inb_swap12].
  - intros t ty d f Hd Hl. den_facts Hd. apply nh_if_gives; [by apply Nat.leb_le |]. apply nh_mk_gives.
    intros i Hi. apply (nh_at_den t ty d f); [done | by apply inb_swap_last].
  - intros t ty d f Hd. by exists t.
  - intros t ty d f k start len n Hd Hk Hle. den_facts Hd. rewrite Hk. apply nh_if_gives; [by apply Nat.leb_le |].
    apply nh_mk_gives. intros i Hi. apply (nh_at_den t ty d f); [done |]. apply (inb_alter _ k d i n len); [done | lia | done].
  - intros a b ty d f g k n m Ha Hb Hk. pose proof Ha as (A1 & A2 & _). pose proof Hb as (B1 & _ & _). cbn in A1, A2, B1.
    unfold nh_cat. rewrite A1, A2, B1, Hk. rewrite list_lookup_insert_eq by (by eapply lookup_lt_Some).
    apply nh_mk_gives. intros i Hi.
    destruct (inb_lookup k _ _ (n + m) ltac:(apply list_lookup_insert_eq; by eapply lookup_lt_Some) Hi) as (x & Hx & Hlt).
    rewrite Hx. change (default 0 (Some x)) with x. cbv zeta. destruct (Nat.ltb_spec x n).
    + apply (nh_at_den a ty d f); [done |]. by apply (inb_insert k d i n (n + m) x).
    + apply (nh_at_den b ty (<[k:=m]> d) g); [done |]. apply (inb_insert_both k d i (n + m)); [lia | done].
  - intros [|a l] ty d F k Hne HF Hk; [done |]. unfold nh_stack. pose proof (HF 0 a eq_refl) as Ha. den_facts Ha.
    apply nh_if_gives; [by apply Nat.leb_le |]. apply nh_mk_gives. intros i Hi.
    destruct (inb_stack k d i _ Hk Hi) as (x & Hx & Hlt & Hb). rewrite Hx. change (default 0 (Some x)) with x.
    destruct (lookup_lt_is_Some_2 (a :: l) x Hlt) as [t Et]. rewrite Et. change (default a (Some t)) with t.
    by apply (nh_at_den t ty d (F x)); [apply HF |].
  - intros t ty d f k Hd Hk. den_facts Hd. apply nh_if_gives; [by apply Nat.leb_le |]. apply nh_mk_gives.
    intros i Hi. apply (nh_at_den t ty d f); [done | by apply inb_unsqueeze].
  - intros t ty d d' f Hd Hf. den_facts Hd. apply nh_if_gives; [done |]. apply nh_mk_gives.
    intros i Hi. apply (nh_at_den t ty d f); [done | by apply (inb_bidx _ d')].
  - intros t ids ty n d m f g Hd Hids Hlt. den_facts Hd. pose proof Hids as (I1 & _ & I3). cbn in I1. rewrite I1.
    unfold n_flat, host_elements in I3. apply nh_if_gives; [rewrite I3 |].
    + apply forallb_forall. intros e He%list_elem_of_In. apply list_elem_of_lookup in He as [k Hk].
      pose proof (lookup_lt_Some _ _ _ Hk) as Hkm. rewrite length_tab in Hkm. cbn in Hkm.
      pose proof (tab_lookup [m] g [k] ltac:(cbn; lia)) as Hg. cbn [ravel nprod foldr] in Hg.
      replace (k * 1 + 0) with k in Hg by lia. rewrite Hg in Hk. injection Hk as <-. apply Nat.ltb_lt, Hlt. lia.
    + apply nh_mk_gives. intros [|k i]; [done |]. cbn [inb]. intros [Hk Hi].
      rewrite (nh_at_den ids T_U32 [m] g) by (try done; cbn; lia). apply (nh_at_den t ty (n :: d) f); [done |].
      cbn. split; [by apply Hlt | done].
  - intros a b ty n k m f g _ Ha Hb. pose proof Ha as (A1 & A2 & _). pose proof Hb as (B1 & _ & _). cbn in A1, A2, B1.
    unfold nh_matmul. rewrite A1, A2, B1. apply nh_mk_gives. intros [|x [|y [|? ?]]]; cbn [inb]; try tauto.
    intros (Hx & Hy & _). f_equal; apply list_fmap_ext; intros ? l [-> Hl]%lookup_seq.
    + apply (nh_at_den a ty [n; k] f); [done | cbn; lia].
    + apply (nh_at_den b ty [k; m] g); [done | cbn; lia].
  - intros a b ty p q n k m f g _ Ha Hb. pose proof Ha as (A1 & A2 & _). pose proof Hb as (B1 & _ & _). cbn in A1, A2, B1.
    unfold nh_matmul. rewrite A1, A2, B1. apply nh_mk_gives. intros [|u [|v [|x [|y [|? ?]]]]]; cbn [inb]; try tauto.
    intros (Hu & Hv & Hx & Hy & _). f_equal; apply list_fmap_ext; intros ? l [-> Hl]%lookup_seq.
    + apply (nh_at_den a ty [p; q; n; k] f); [done | cbn; lia].
    + apply (nh_at_den b ty [p; q; k; m] g); [done | cbn; lia].
  - intros a b ty d f g _ Ha Hb. pose proof Ha as (_ & A2 & _). cbn in A2. unfold nh_zip. rewrite A2. by apply (nh_zip_same ty _ a b ty).
  - intros a b ty d f g _ Ha Hb. pose proof Ha as (_ & A2 & _). cbn in A2. unfold nh_zip. rewrite A2. by apply (nh_zip_same ty _ a b ty).
  - intros a b ty d f g _ Ha Hb. pose proof Ha as (_ & A2 & _). cbn in A2. unfold nh_zip. rewrite A2. by apply (nh_zip_same ty _ a b ty).
  - intros a b ty d f g _ Ha Hb. pose proof Ha as (_ & A2 & _). cbn in A2. unfold nh_zip. rewrite A2. by apply (nh_zip_same ty _ a b ty).
  - intros a b ty d f g _ Ha Hb. by apply (nh_zip_same T_U8 _ a b ty).
  - intros t ty d f _. apply nh_map_gives.
  - intros a b ty d d' f g _. apply nh_zip_gives.
  - intros a b ty d d' f g _. apply nh_zip_gives.
  - intros a b ty d d' f g _. apply nh_zip_gives.
  - intros a b Hc. unfold nh_zip, nh_zip_to. rewrite (clash_bfits _ _ Hc). by eexists.
  - intros t ty d f x _ Hd. pose proof Hd as (_ & H2 & _). cbn in H2. rewrite H2.
    by apply (nh_map_gives (λ e, e_add e (e_cast T_F64 ty (e_f64 x))) t ty d f).
  - intros t ty d f _. apply nh_map_gives.
  - intros t ty d f _. apply nh_map_gives.
  - intros t ty d f _. apply nh_map_gives.
  - intros t ty d f _. apply nh_map_gives.
  - intros t ty d f _. apply nh_map_gives.
  - intros t ty d f _. apply nh_map_gives.
  - intros t ty d n f _ Hd. den_facts Hd. rewrite removelast_last. apply nh_mk_gives. intros i Hi.
    unfold nh_row. rewrite Hd0, List.last_last. f_equal. unfold row_at. apply list_fmap_ext. intros ? j [-> Hj]%lookup_seq.
    destruct (inb_last _ _ _ Hi) as (p & x & -> & Hp & Hx). rewrite set_last_app.
    apply (nh_at_den t ty (d ++ [n]) f); [done |]. apply inb_app; [by rewrite (inb_length _ _ Hp) | split; [done | cbn; lia]].
  - intros t ty d n f _ Hd. den_facts Hd. apply nh_mk_gives. intros i Hi. unfold nh_row. rewrite Hd0, List.last_last.
    do 3 f_equal. unfold row_at. apply list_fmap_ext. intros ? j [-> Hj]%lookup_seq.
    destruct (inb_last _ _ _ Hi) as (p & x & -> & Hp & Hx). rewrite set_last_app.
    apply (nh_at_den t ty (d ++ [n]) f); [done |]. apply inb_app; [by rewrite (inb_length _ _ Hp) | split; [done | cbn; lia]].
  - intros t ty d f g (H1 & H2 & H3) Ht. cbn in H1, H2. rewrite H1, H2. eexists. split; [done |]. split_and!; [done | done |].
    etrans; [exact H3 | exact Ht].
  - intros v d g. apply nh_vec_gives.
  - intros v d g. apply nh_vec_gives.
  - intros v d g. apply nh_vec_gives.
  - intros a b. apply nh_mk_gives. done.
  - intros x. apply nh_mk_gives. done.
  - intros x. apply nh_mk_gives. done.
  - done.
  - intros t r c f (H1 & _ & _). cbn in H1. by rewrite H1.
Qed.
End host.
