(* ===== verification/Mxfp.v ===== *)
(** * MXFP weights (rllm-quant/src/mxfp.rs)

    4- and 8-bit block floating point: online quantization in groups that share
    a power-of-two scale, packing two 4-bit codes in a byte, validation of a
    packed weight, and its dequantization.  nvfp.rs repeats the 4-bit table,
    [find_closest_fp4] and the two loops; Nvfp.v uses the ones here.

    A panic is [None].  [log2], [exp2] and [powi], whose precision Rust leaves
    unspecified, and the 8-bit float codec (the float8 crate) are parameters. *)
From S2P Require Import Prelude F32 CoreTypes CpuRef Tensors.
#[local] Open Scope string_scope.
#[local] Open Scope list_scope.
#[local] Open Scope nat_scope.
#[local] Open Scope rllm_scope.

(** The errors of the quantized layers, one per message of the source; a
    message carries the values it prints. *)
Inductive QError : Type :=
  | QTensor (e : string)
  | QRank (dims : list nat)
  | QBits (bits : N)
  | QDtype (d : TDType)
  | QGroupSize (group_size in_features : nat)
  | QScaleShape (rows cols : nat) (got : list nat)
  | QScaleValues
  | QReservedExponent
  | QMissing (name : string)
  | QStrategy (strategy : string)
  | QZeroPointMissing
  | QChannelScale (got want : nat)
  | QTensorScale (got : nat)
  | QChannelZeroPoint (got want : nat)
  | QTensorZeroPoint (got : nat)
  | QLength (got want : nat)
  | QNoInt8Tensor (name : string)
  | QCompressed
  | QKind (k : QuantizationKind).

(** [?] on a call of the tensor library. *)
Definition lift {A} (r : result A TensorError) : result A QError :=
  match r with Ok a => Ok a | Err e => Err (QTensor e) end.

(** ** Four-bit codes *)
Definition half : f32 := binary_normalize 24 128 1 (-1) false.

Definition FP4_VALUES : list f32 :=
  let f z := binary_normalize 24 128 z (-1) false in
  [F32.zero; f 1; f 2; f 3; f 4; f 6; f 8; f 12;
   S754_zero true; f (-1); f (-2); f (-3); f (-4); f (-6); f (-8); f (-12)]%Z.

(** [f32::MAX] *)
Definition f32_max : f32 := S754_finite false 16777215 104.

(** The scan for the closest value: the index so far, and its distance. *)
Fixpoint closest_loop (val : f32) (idx : nat) (values : list f32) (best : nat * f32) : nat * f32 :=
  match values with
  | [] => best
  | v :: values =>
      let diff := F32.abs (F32.sub val v) in
      closest_loop val (S idx) values (if F32.ltb diff best.2 then (idx, diff) else best)
  end.

Definition find_closest_fp4 (val : f32) : N := N.of_nat (closest_loop val 0 FP4_VALUES (0, f32_max)).1.

(** [code0 | (code1 << 4)] on bytes. *)
Definition pack (code0 code1 : N) : N := N.lor code0 (as_u8 (N.shiftl code1 4)).

(** The code of element [i] in its byte. *)
Definition unpack (i : nat) (byte : N) : N :=
  if i mod 2 =? 0 then N.land byte 15 else N.shiftr byte 4.

(** [(0..n).step_by(2)] *)
Definition step_by_2 (n : nat) : list nat := (λ j, 2 * j) <$> seq 0 (cdiv n 2).

(** The largest magnitude of a group. *)
Definition group_absmax (w_data : list f32) (base group_size : nat) : option f32 :=
  for_each (λ k abs_max, val ← w_data !! (base + k); Some (F32.max abs_max (F32.abs val))) (seq 0 group_size) F32.zero.

(** One group of the 4-bit quantizers: its scale, and its packed codes. *)
Definition quantize4_group (scale_of : f32 → f32) (w_data : list f32) (in_features group_size num_groups o g : nat)
    (s : list N * list f32) : option (list N * list f32) :=
  abs_max ← group_absmax w_data (o * in_features + g * group_size) group_size;
  let scale := scale_of abs_max in
  scales ← vec_set (o * num_groups + g) scale s.2;
  q_data ← for_each (λ k q_data,
    let i0 := g * group_size + k in
    let i1 := g * group_size + k + 1 in
    w0 ← w_data !! (o * in_features + i0);
    w1 ← w_data !! (o * in_features + i1);
    let code0 := find_closest_fp4 (F32.div w0 scale) in
    let code1 := find_closest_fp4 (F32.div w1 scale) in
    vec_set (o * (in_features / 2) + i0 / 2) (pack code0 code1) q_data) (step_by_2 group_size) s.1;
  Some (q_data, scales).

Definition quantize4 (scale_of : f32 → f32) (w_data : list f32) (out_features in_features group_size : nat) :
    option (list N * list f32) :=
  let num_groups := in_features / group_size in
  for_each (λ o, for_each (quantize4_group scale_of w_data in_features group_size num_groups o) (seq 0 num_groups))
    (seq 0 out_features)
    (replicate (out_features * (in_features / 2)) 0%N, replicate (out_features * num_groups) F32.zero).

(** One group of the dequantizers; [value] reads the unscaled element. *)
Definition dequantize_group (value : nat → nat → option f32) (scales_data : list f32)
    (in_features group_size num_groups o g : nat) (dequant : list f32) : option (list f32) :=
  scale ← scales_data !! (o * num_groups + g);
  for_each (λ k dequant,
    let i := g * group_size + k in
    val ← value o i;
    vec_set (o * in_features + i) (F32.mul val scale) dequant) (seq 0 group_size) dequant.

Definition dequantize_with (value : nat → nat → option f32) (scales_data : list f32)
    (out_features in_features group_size : nat) : option (list f32) :=
  let num_groups := in_features / group_size in
  for_each (λ o, for_each (dequantize_group value scales_data in_features group_size num_groups o) (seq 0 num_groups))
    (seq 0 out_features) (replicate (out_features * in_features) F32.zero).

(** An element of a packed weight. *)
Definition fp4_value (q_data : list N) (in_features o i : nat) : option f32 :=
  byte ← q_data !! (o * (in_features / 2) + i / 2);
  FP4_VALUES !! N.to_nat (unpack i byte).

(** ** The product of a layer

    [apply] of every layer ends this way: the input as rows, times the transposed
    weight, with the last dimension replaced. *)
Section linear.
Context {T : Type} `{!TensorLib T}.

Definition linear_rows (x weight : T) (in_features out_features : nat) : result T TensorError :=
  let x_shape := t_dims x in
  let trailing := length x_shape - 1 in
  let batch := nprod (take trailing x_shape) in
  x_2d <-? t_reshape x [batch; in_features];
  w_t <-? t_t weight;
  out <-? t_matmul x_2d w_t;
  t_reshape out (take trailing x_shape ++ [out_features]).
End linear.

Module Mxfp.
Section mxfp.
Context {T : Type} `{!TensorLib T}.
Context (log2 exp2 : f32 → f32) (powi : f32 → Z → f32) (f8_from_f32 : f32 → N) (f8_to_f32 : N → f32).

(** Bytes of exponents become powers of two; other scales stay. *)
Definition decode_e8m0_scales (scales : T) : result T QError :=
  if decide (t_dtype scales ≠ T_U8) then Ok scales
  else
    bytes <-? lift (u8_values scales);
    if decide (255%N ∈ bytes) then Err QReservedExponent
    else lift (t_from_f32 ((λ exponent, powi F32.two (Z.of_N exponent - 127)) <$> bytes) (t_dims scales)).

Definition power_of_two_scale (absmax max_value : f32) : f32 :=
  if F32.eqb absmax F32.zero then F32.one else exp2 (F32.ceil (log2 (F32.div absmax max_value))).

Record MxfpLinear : Type := mkMxfp {
  qweight : T;
  scales : T;
  bits : N;
  group_size : nat;
  in_features : nat;
  out_features : nat;
  dequantized : option T;
}.

(** [!scale.is_finite() || scale <= 0.0] *)
Definition bad_scale (s : f32) : bool := negb (F32.is_finite s) || F32.leb s F32.zero.

Definition new (qweight scales : T) (bits : N) (group_size : nat) : result MxfpLinear QError :=
  match t_dims qweight with
  | [rows; cols] =>
      require negb ((rows =? 0) || (cols =? 0)) else QRank [rows; cols];
      require (bits =? 4)%N || (bits =? 8)%N else QBits bits;
      require bool_decide (t_dtype qweight = T_U8) else QDtype (t_dtype qweight);
      let out_features := rows in
      let in_features := if (bits =? 4)%N then cols * 2 else cols in
      require negb ((group_size =? 0) || negb (in_features mod group_size =? 0)
                    || ((bits =? 4)%N && negb (group_size mod 2 =? 0))) else QGroupSize group_size in_features;
      require bool_decide (t_dims scales = [out_features; in_features / group_size])
        else QScaleShape out_features (in_features / group_size) (t_dims scales);
      scale_values <-? lift (f32_values scales);
      require negb (existsb bad_scale scale_values) else QScaleValues;
      Ok (mkMxfp qweight scales bits group_size in_features out_features None)
  | dims => Err (QRank dims)
  end.

Definition dequantize_mxfp8_cpu (l : MxfpLinear) : option (result T QError) :=
  match lift (u8_values (qweight l)), lift (f32_values (scales l)) with
  | Err e, _ | _, Err e => Some (Err e)
  | Ok q_data_u8, Ok scales_data =>
      let q_data := f8_to_f32 <$> q_data_u8 in
      dequant ← dequantize_with (λ o i, q_data !! (o * in_features l + i)) scales_data
                  (out_features l) (in_features l) (group_size l);
      Some (lift (t_from_f32 dequant [out_features l; in_features l]))
  end.

Definition dequantize_mxfp4_cpu (l : MxfpLinear) : option (result T QError) :=
  match lift (q <-? t_to_dtype (qweight l) T_U8; u8_values q), lift (f32_values (scales l)) with
  | Err e, _ | _, Err e => Some (Err e)
  | Ok q_data, Ok scales_data =>
      dequant ← dequantize_with (fp4_value q_data (in_features l)) scales_data
                  (out_features l) (in_features l) (group_size l);
      Some (lift (t_from_f32 dequant [out_features l; in_features l]))
  end.

Definition with_dequantized (l : MxfpLinear) (t : T) : MxfpLinear :=
  mkMxfp (qweight l) (scales l) (bits l) (group_size l) (in_features l) (out_features l) (Some t).

(** The weight at the type of the input, computed once. *)
Definition get_or_dequantize (l : MxfpLinear) (target_dtype : TDType) : option (result T QError * MxfpLinear) :=
  match dequantized l with
  | Some t => Some (lift (t_to_dtype t target_dtype), l)
  | None =>
      r ← (if (bits l =? 8)%N then dequantize_mxfp8_cpu l else dequantize_mxfp4_cpu l);
      match r with
      | Err e => Some (Err e, l)
      | Ok t => Some (lift (t_to_dtype t target_dtype), with_dequantized l t)
      end
  end.

Definition apply (l : MxfpLinear) (x : T) : option (result T QError * MxfpLinear) :=
  '(r, l) ← get_or_dequantize l (t_dtype x);
  Some (weight <-? r; lift (linear_rows x weight (in_features l) (out_features l)), l).

Definition validate_online_shape (dims : list nat) (group_size : nat) (packed : bool) : result unit QError :=
  match dims with
  | [rows; cols] =>
      require negb ((rows =? 0) || (cols =? 0)) else QRank dims;
      require negb ((group_size =? 0) || negb (cols mod group_size =? 0)
                    || (packed && negb (group_size mod 2 =? 0))) else QGroupSize group_size cols;
      Ok ()
  | _ => Err (QRank dims)
  end.

Definition quantize8_group (w_data : list f32) (in_features group_size num_groups o g : nat)
    (s : list N * list f32) : option (list N * list f32) :=
  abs_max ← group_absmax w_data (o * in_features + g * group_size) group_size;
  let scale := power_of_two_scale abs_max (F32.of_Z 448) in
  scales ← vec_set (o * num_groups + g) scale s.2;
  q_data ← for_each (λ k q_data,
    let idx := o * in_features + g * group_size + k in
    val ← w_data !! idx;
    vec_set idx (f8_from_f32 (F32.div val scale)) q_data) (seq 0 group_size) s.1;
  Some (q_data, scales).

Definition quantize8 (w_data : list f32) (out_features in_features group_size : nat) : option (list N * list f32) :=
  let num_groups := in_features / group_size in
  for_each (λ o, for_each (quantize8_group w_data in_features group_size num_groups o) (seq 0 num_groups))
    (seq 0 out_features)
    (replicate (out_features * in_features) 0%N, replicate (out_features * num_groups) F32.zero).

(** The two tensors of a quantized weight. *)
Definition packed_tensors (q_data : list N) (scales : list f32) (rows cols num_groups : nat) : result (T * T) QError :=
  qweight <-? lift (t_from_u8 q_data [rows; cols]);
  scale_tensor <-? lift (t_from_f32 scales [rows; num_groups]);
  Ok (qweight, scale_tensor).

(** The start of the online quantizers: the rows, columns and values of a weight
    of valid shape. *)
Definition online_source (weight : T) (group_size : nat) (packed : bool) : result (nat * nat * list f32) QError :=
  weight_cpu <-? lift (t_to_dtype weight T_F32);
  _ <-? validate_online_shape (t_dims weight_cpu) group_size packed;
  w_data <-? lift (flat <-? t_flatten_all weight_cpu; t_to_vec1_f32 flat);
  Ok (nth 0 (t_dims weight_cpu) 0, nth 1 (t_dims weight_cpu) 0, w_data).

Definition quantize_mxfp8_cpu (weight : T) (group_size : nat) : option (result (T * T) QError) :=
  match online_source weight group_size false with
  | Err e => Some (Err e)
  | Ok (out_features, in_features, w_data) =>
      '(q_data, scales) ← quantize8 w_data out_features in_features group_size;
      Some (packed_tensors q_data scales out_features in_features (in_features / group_size))
  end.

Definition quantize_mxfp4_cpu (weight : T) (group_size : nat) : option (result (T * T) QError) :=
  match online_source weight group_size true with
  | Err e => Some (Err e)
  | Ok (out_features, in_features, w_data) =>
      '(q_data, scales) ← quantize4 (λ m, power_of_two_scale m (F32.of_Z 6)) w_data out_features in_features group_size;
      Some (packed_tensors q_data scales out_features (in_features / 2) (in_features / group_size))
  end.

End mxfp.
Arguments MxfpLinear T : clear implicits.
End Mxfp.

(** ** What the loops compute *)
Definition absmax (l : list f32) : f32 := foldl (λ m v, F32.max m (F32.abs v)) F32.zero l.

Section flat.
(** A weight as its flat values; its groups are consecutive runs of [gs]. *)
Context (w : list f32) (gs : nat) (scale_of : f32 → f32).

Definition scale_at (G : nat) : f32 := scale_of (absmax (take gs (drop (G * gs) w))).
Definition scaled (i : nat) : f32 := F32.div (default F32.zero (w !! i)) (scale_at (i / gs)).
Definition byte_at (j : nat) : N := pack (find_closest_fp4 (scaled (2 * j))) (find_closest_fp4 (scaled (2 * j + 1))).
End flat.

Lemma group_absmax_spec w base gs :
  base + gs ≤ length w → group_absmax w base gs = Some (absmax (take gs (drop base w))).
Proof.
  intros Hlen. unfold group_absmax, absmax.
  destruct (for_each_inv (λ k m, m = foldl (λ m v, F32.max m (F32.abs v)) F32.zero (take k (drop base w)))
    (λ k abs_max, val ← w !! (base + k); Some (F32.max abs_max (F32.abs val))) gs F32.zero) as (m & E & ->); [| done | exact E].
  intros k m Hk ->. destruct (lookup_lt_is_Some_2 w (base + k) ltac:(lia)) as [v Hv]. rewrite Hv.
  eexists. split; [done |]. rewrite (take_S_r _ _ v) by (by rewrite lookup_drop). by rewrite foldl_app.
Qed.

Lemma closest_loop_lt val values : ∀ idx best,
  best.1 < idx + length values → 0 < length values → (closest_loop val idx values best).1 < idx + length values.
Proof.
  induction values as [|v values IH]; intros idx best Hb Hl; [simpl in Hl; lia |]. cbn [closest_loop length] in *.
  destruct values as [|v' values]; [cbn in *; case_match; cbn; lia |].
  replace (idx + S (length (v' :: values))) with (S idx + length (v' :: values)) by lia.
  apply IH; [cbn in *; case_match; cbn; lia | cbn; lia].
Qed.

Lemma find_closest_lt val : (find_closest_fp4 val < 16)%N.
Proof.
  unfold find_closest_fp4. pose proof (closest_loop_lt val FP4_VALUES 0 (0, f32_max) ltac:(cbn; lia) ltac:(cbn; lia)) as H.
  change (0 + length FP4_VALUES) with 16 in H. lia.
Qed.

Lemma pack_unpack c0 c1 i : (c0 < 16)%N → (c1 < 16)%N →
  unpack i (pack c0 c1) = (if i mod 2 =? 0 then c0 else c1) ∧ (pack c0 c1 < 256)%N.
Proof.
  intros H0 H1.
  assert (Hall : forallb (λ a, forallb (λ b,
    (N.land (pack a b) 15 =? a)%N && (N.shiftr (pack a b) 4 =? b)%N && (pack a b <? 256)%N)
    (N.of_nat <$> seq 0 16)) (N.of_nat <$> seq 0 16) = true) by (vm_compute; reflexivity).
  assert (Hin : ∀ c, (c < 16)%N → In c (N.of_nat <$> seq 0 16)).
  { intros c Hc. apply list_elem_of_In, list_elem_of_fmap. exists (N.to_nat c). split; [lia | apply elem_of_seq; lia]. }
  rewrite forallb_forall in Hall. specialize (Hall c0 (Hin c0 H0)). rewrite forallb_forall in Hall.
  specialize (Hall c1 (Hin c1 H1)). apply andb_true_iff in Hall as [[E0%N.eqb_eq E1%N.eqb_eq]%andb_true_iff E2%N.ltb_lt].
  split; [| done]. unfold unpack. by case_match.
Qed.

Lemma vec_set_filled {A} n (f : nat → A) p l : filled n f p l → p < n →
  vec_set p (f p) l = Some (<[p := f p]> l) ∧ filled n f (S p) (<[p := f p]> l).
Proof.
  intros Hf Hp. destruct (filled_push n f p l Hf Hp) as [H1 H2]. split; [| done].
  unfold vec_set. by rewrite (proj2 (Nat.ltb_lt _ _) H2).
Qed.

(** The loop over one group's bytes. *)
Lemma quantize4_bytes w scale_of p e n q :
  0 < e → 2 * (p * e + e) ≤ length w → p * e + e ≤ n →
  filled n (byte_at w (2 * e) scale_of) (p * e) q →
  ∃ q', for_each (λ j q, w0 ← w !! (2 * (p * e + j)); w1 ← w !! (2 * (p * e + j) + 1);
          vec_set (p * e + j) (pack (find_closest_fp4 (F32.div w0 (scale_at w (2 * e) scale_of p)))
                                    (find_closest_fp4 (F32.div w1 (scale_at w (2 * e) scale_of p)))) q) (seq 0 e) q = Some q'
    ∧ filled n (byte_at w (2 * e) scale_of) (S p * e) q'.
Proof.
  intros He Hw Hn Hq.
  match goal with |- ∃ y, for_each ?b _ _ = _ ∧ _ =>
    destruct (for_each_inv (λ j q, filled n (byte_at w (2 * e) scale_of) (p * e + j) q) b e q) as (q' & E & H) end;
    [| by rewrite Nat.add_0_r | exists q'; split; [exact E | by replace (S p * e) with (p * e + e) by lia]].
  intros j q1 Hj H1. cbn beta.
  destruct (lookup_lt_is_Some_2 w (2 * (p * e + j)) ltac:(lia)) as [w0 E0].
  destruct (lookup_lt_is_Some_2 w (2 * (p * e + j) + 1) ltac:(lia)) as [w1 E1]. rewrite E0, E1. cbn [mbind option_bind].
  destruct (vec_set_filled _ _ _ _ H1 ltac:(lia)) as [E H2].
  assert (Hb : byte_at w (2 * e) scale_of (p * e + j)
    = pack (find_closest_fp4 (F32.div w0 (scale_at w (2 * e) scale_of p))) (find_closest_fp4 (F32.div w1 (scale_at w (2 * e) scale_of p)))).
  { unfold byte_at, scaled. rewrite E0, E1. cbn [default].
    replace (2 * (p * e + j) / (2 * e)) with p by (apply (Nat.div_unique _ _ _ (2 * j)); lia).
    by replace ((2 * (p * e + j) + 1) / (2 * e)) with p by (apply (Nat.div_unique _ _ _ (2 * j + 1)); lia). }
  rewrite <- Hb, E. eexists. split; [done |]. by replace (p * e + S j) with (S (p * e + j)) by lia.
Qed.

Lemma quantize4_spec scale_of w out ng e :
  0 < e → length w = out * (ng * (2 * e)) →
  quantize4 scale_of w out (ng * (2 * e)) (2 * e)
  = Some (byte_at w (2 * e) scale_of <$> seq 0 (out * (ng * e)), scale_at w (2 * e) scale_of <$> seq 0 (out * ng)).
Proof.
  intros He Hw. unfold quantize4. rewrite Nat.div_mul by lia.
  replace (ng * (2 * e) / 2) with (ng * e) by (apply Nat.div_unique_exact; lia).
  set (I p (s : list N * list f32) := filled (out * (ng * e)) (byte_at w (2 * e) scale_of) (p * e) s.1
    ∧ filled (out * ng) (scale_at w (2 * e) scale_of) p s.2).
  destruct (for_each_grid I (quantize4_group scale_of w (ng * (2 * e)) (2 * e) ng) out ng
    (replicate (out * (ng * e)) 0%N, replicate (out * ng) F32.zero)) as ([q s] & E & Hq & Hs).
  2: { split; [apply filled_0 | apply filled_0]. }
  2: { rewrite E. f_equal. f_equal; apply filled_all; [| exact Hs].
       by replace (out * (ng * e)) with (out * ng * e) in * by lia. }
  intros o g [q s] Ho Hg [Hq Hs]. set (p := o * ng + g) in *. cbn [fst snd] in Hq, Hs.
  assert (Hp : p < out * ng) by (unfold p; nia).
  assert (Hpe : (p + 1) * e ≤ out * ng * e) by (apply Nat.mul_le_mono_r; lia).
  assert (Ep : o * (ng * (2 * e)) + g * (2 * e) = p * (2 * e)) by (unfold p; lia).
  unfold quantize4_group. rewrite Ep, group_absmax_spec by lia. cbn [mbind option_bind snd fst].
  destruct (vec_set_filled _ _ _ _ Hs Hp) as [E1 H1]. fold p. fold (scale_at w (2 * e) scale_of p).
  rewrite E1. cbn [mbind option_bind].
  destruct (quantize4_bytes w scale_of p e (out * (ng * e)) q He ltac:(lia) ltac:(lia) Hq) as (q' & E2 & H2).
  unfold step_by_2. rewrite for_each_map. replace (cdiv (2 * e) 2) with e by (symmetry; apply cdiv_unique; lia).
  erewrite (for_each_ext _ _ (seq 0 e)); [rewrite E2; by eexists |].
  intros j s1 [_ Hj]%elem_of_seq. cbn beta.
  replace (o * (ng * (2 * e)) + (g * (2 * e) + 2 * j)) with (2 * (p * e + j)) by (unfold p; lia).
  replace (o * (ng * (2 * e)) + (g * (2 * e) + 2 * j + 1)) with (2 * (p * e + j) + 1) by (unfold p; lia).
  replace (ng * (2 * e) / 2) with (ng * e) by (apply Nat.div_unique_exact; lia).
  replace ((g * (2 * e) + 2 * j) / 2) with (g * e + j) by (apply Nat.div_unique_exact; lia).
  by replace (o * (ng * e) + (g * e + j)) with (p * e + j) by (unfold p; lia).
Qed.

Lemma quantize8_bytes {A} (w : list f32) (code : f32 → A) p gs n (q : list A) (f : nat → A) :
  p * gs + gs ≤ length w → p * gs + gs ≤ n →
  (∀ k x, k < gs → w !! (p * gs + k) = Some x → f (p * gs + k) = code x) →
  filled n f (p * gs) q →
  ∃ q', for_each (λ k q, val ← w !! (p * gs + k); vec_set (p * gs + k) (code val) q) (seq 0 gs) q = Some q'
    ∧ filled n f (S p * gs) q'.
Proof.
  intros Hw Hn Hf Hq.
  match goal with |- ∃ y, for_each ?b _ _ = _ ∧ _ =>
    destruct (for_each_inv (λ k q, filled n f (p * gs + k) q) b gs q) as (q' & E & H) end;
    [| by rewrite Nat.add_0_r | exists q'; split; [exact E | by replace (S p * gs) with (p * gs + gs) by lia]].
  intros k q1 Hk H1. cbn beta. destruct (lookup_lt_is_Some_2 w (p * gs + k) ltac:(lia)) as [x Ex]. rewrite Ex.
  cbn [mbind option_bind]. rewrite <- (Hf k x Hk Ex). destruct (vec_set_filled _ _ _ _ H1 ltac:(lia)) as [-> H2].
  eexists. split; [done |]. by replace (p * gs + S k) with (S (p * gs + k)) by lia.
Qed.

Lemma quantize8_spec log2 exp2 f8_from w out ng gs :
  0 < gs → length w = out * (ng * gs) →
  let sc m := Mxfp.power_of_two_scale log2 exp2 m (F32.of_Z 448) in
  Mxfp.quantize8 log2 exp2 f8_from w out (ng * gs) gs
  = Some ((λ i, f8_from (scaled w gs sc i)) <$> seq 0 (out * (ng * gs)), scale_at w gs sc <$> seq 0 (out * ng)).
Proof.
  intros Hgs Hw sc. unfold Mxfp.quantize8. rewrite Nat.div_mul by lia.
  set (f i := f8_from (scaled w gs sc i)).
  set (I p (s : list N * list f32) := filled (out * (ng * gs)) f (p * gs) s.1 ∧ filled (out * ng) (scale_at w gs sc) p s.2).
  destruct (for_each_grid I (Mxfp.quantize8_group log2 exp2 f8_from w (ng * gs) gs ng) out ng
    (replicate (out * (ng * gs)) 0%N, replicate (out * ng) F32.zero)) as ([q s] & E & Hq & Hs).
  2: { split; [apply filled_0 | apply filled_0]. }
  2: { rewrite E. f_equal. f_equal; apply filled_all; [| exact Hs]. by replace (out * (ng * gs)) with (out * ng * gs) in * by lia. }
  intros o g [q s] Ho Hg [Hq Hs]. set (p := o * ng + g) in *. cbn [fst snd] in Hq, Hs.
  assert (Hp : p < out * ng) by (unfold p; nia).
  assert (Hpe : (p + 1) * gs ≤ out * ng * gs) by (apply Nat.mul_le_mono_r; lia).
  assert (Ep : o * (ng * gs) + g * gs = p * gs) by (unfold p; lia).
  unfold Mxfp.quantize8_group. rewrite Ep, group_absmax_spec by lia. cbn [mbind option_bind snd fst].
  destruct (vec_set_filled _ _ _ _ Hs Hp) as [E1 H1]. fold p. fold (sc (absmax (take gs (drop (p * gs) w)))).
  fold (scale_at w gs sc p). rewrite E1. cbn [mbind option_bind].
  destruct (quantize8_bytes w (λ v, f8_from (F32.div v (scale_at w gs sc p))) p gs (out * (ng * gs)) q f) as (q' & E2 & H2);
    [lia | lia | | done | rewrite E2; by eexists].
  intros k x Hk Ex. unfold f, scaled. rewrite Ex. cbn [default].
  by replace ((p * gs + k) / gs) with p by (apply (Nat.div_unique _ _ _ k); lia).
Qed.

(** The dequantizers multiply each element by the scale of its group. *)
Lemma dequantize_with_spec value (v s : nat → f32) scales out ng gs :
  0 < gs → (∀ o i, o < out → i < ng * gs → value o i = Some (v (o * (ng * gs) + i))) →
  (∀ G, G < out * ng → scales !! G = Some (s G)) →
  dequantize_with value scales out (ng * gs) gs = Some ((λ i, F32.mul (v i) (s (i / gs))) <$> seq 0 (out * (ng * gs))).
Proof.
  intros Hgs Hv Hs. unfold dequantize_with. rewrite Nat.div_mul by lia. set (f i := F32.mul (v i) (s (i / gs))).
  destruct (for_each_grid (λ p d, filled (out * (ng * gs)) f (p * gs) d)
    (dequantize_group value scales (ng * gs) gs ng) out ng (replicate (out * (ng * gs)) F32.zero)) as (d & E & H).
  2: apply filled_0.
  2: { rewrite E. f_equal. apply filled_all. by replace (out * (ng * gs)) with (out * ng * gs) in * by lia. }
  intros o g d Ho Hg Hd. set (p := o * ng + g) in *. assert (Hp : p < out * ng) by (unfold p; nia).
  assert (Hpe : (p + 1) * gs ≤ out * ng * gs) by (apply Nat.mul_le_mono_r; lia).
  unfold dequantize_group. fold p. rewrite (Hs p Hp). cbn [mbind option_bind].
  match goal with |- ∃ y, for_each ?b _ _ = _ ∧ _ =>
    destruct (for_each_inv (λ k d, filled (out * (ng * gs)) f (p * gs + k) d) b gs d) as (q' & E & H) end;
    [| by rewrite Nat.add_0_r | exists q'; split; [exact E | by replace (S p * gs) with (p * gs + gs) by lia]].
  intros k d1 Hk H1. cbn beta. rewrite Hv by nia. cbn [mbind option_bind].
  replace (o * (ng * gs) + (g * gs + k)) with (p * gs + k) by (unfold p; lia).
  destruct (vec_set_filled _ _ _ _ H1 ltac:(lia)) as [E2 H2].
  assert (Ef : f (p * gs + k) = F32.mul (v (p * gs + k)) (s p)).
  { unfold f. by replace ((p * gs + k) / gs) with p by (apply (Nat.div_unique _ _ _ k); lia). }
  rewrite <- Ef, E2. eexists. split; [done |]. by replace (p * gs + S k) with (S (p * gs + k)) by lia.
Qed.

(** ** The closest code *)
Lemma ltb_num a b : F32.ltb a b = true → num a ∧ num b.
Proof. unfold num. by destruct a as [[]|[]| |[] ? ?], b as [[]|[]| |[] ? ?]. Qed.

(** What the scan has found after some distances [ds]: an index is the first of
    the smallest; without one below the largest float, index 0. *)
Definition first_closest (ds : list f32) (best : nat * f32) : Prop :=
  (best = (0, f32_max) ∧ ∀ d, d ∈ ds → F32.ltb d f32_max = false)
  ∨ (ds !! best.1 = Some best.2 ∧ F32.ltb best.2 f32_max = true
     ∧ (∀ d, d ∈ ds → F32.ltb d best.2 = false)
     ∧ ∀ j d, ds !! j = Some d → j < best.1 → F32.ltb d f32_max = true → F32.ltb best.2 d = true).

Lemma first_closest_step ds best x : first_closest ds best →
  first_closest (ds ++ [x]) (if F32.ltb x best.2 then (length ds, x) else best).
Proof.
  intros H. destruct (F32.ltb x best.2) eqn:E.
  - right. cbn [fst snd]. destruct (ltb_num _ _ E) as [Hx Hb].
    split_and!; [by rewrite lookup_app_r, Nat.sub_diag by lia | | |].
    + destruct H as [[-> _]|(_ & H & _)]; [exact E | eapply ltb_trans; [.. | exact H]; [done | done | done | exact E]].
    + intros d [Hd| ->%list_elem_of_singleton]%elem_of_app; [| apply ltb_irrefl].
      destruct (F32.ltb d x) eqn:Ed; [| done]. destruct (ltb_num _ _ Ed) as [Hd' _].
      pose proof (ltb_trans _ _ _ Hd' Hx Hb Ed E). destruct H as [[-> H]|(_ & _ & H & _)]; specialize (H d Hd); cbn [snd] in *; congruence.
    + intros j d Hj Hlt Hm. rewrite lookup_app_l in Hj by lia. apply list_elem_of_lookup_2 in Hj.
      destruct (ltb_num _ _ Hm) as [Hd' _].
      destruct (F32.ltb x d) eqn:Ed; [done |]. assert (F32.ltb d best.2 = false) as Hdb.
      { destruct H as [[-> H]|(_ & _ & H & _)]; [by apply H | by apply H]. }
      rewrite (nltb_trans x d best.2) in E by done. done.
  - destruct H as [[-> H]|(H1 & H2 & H3 & H4)].
    + left. split; [done |]. intros d [Hd| ->%list_elem_of_singleton]%elem_of_app; [by apply H | exact E].
    + right. split_and!; [by apply lookup_app_l_Some | done | |].
      * intros d [Hd| ->%list_elem_of_singleton]%elem_of_app; [by apply H3 | exact E].
      * intros j d Hj Hlt. rewrite lookup_app_l in Hj; [by apply (H4 j) |]. apply lookup_lt_Some in H1. lia.
Qed.

Lemma closest_loop_spec val values : ∀ ds idx best, length ds = idx → first_closest ds best →
  first_closest (ds ++ ((λ v, F32.abs (F32.sub val v)) <$> values)) (closest_loop val idx values best).
Proof.
  induction values as [|v values IH]; intros ds idx best Hl H; cbn [closest_loop fmap list_fmap].
  - by rewrite app_nil_r.
  - rewrite cons_middle, app_assoc. apply IH; [rewrite length_app; cbn; lia |]. subst idx. by apply first_closest_step.
Qed.

(** [find_closest_fp4] returns the first of the codes whose values are closest,
    and code 0 for a number whose distances all reach the largest float (NaN and
    the infinities). *)
Lemma find_closest_fp4_first val :
  let dist := λ v, F32.abs (F32.sub val v) in
  let c := N.to_nat (find_closest_fp4 val) in
  (c = 0 ∧ ∀ v, v ∈ FP4_VALUES → F32.ltb (dist v) f32_max = false)
  ∨ ∃ b, FP4_VALUES !! c = Some b ∧ F32.ltb (dist b) f32_max = true
    ∧ (∀ v, v ∈ FP4_VALUES → F32.ltb (dist v) (dist b) = false)
    ∧ ∀ j v, FP4_VALUES !! j = Some v → j < c → F32.ltb (dist v) f32_max = true → F32.ltb (dist b) (dist v) = true.
Proof.
  cbn zeta. unfold find_closest_fp4. rewrite Nat2N.id.
  assert (Hs := closest_loop_spec val FP4_VALUES [] 0 (0, f32_max) eq_refl
    (or_introl (conj eq_refl (λ d H, False_ind _ (not_elem_of_nil d H))))).
  cbn [app] in Hs. destruct (closest_loop val 0 FP4_VALUES (0, f32_max)) as [c dmin]. cbn [fst].
  destruct Hs as [[[= -> ->] H]|(H1 & H2 & H3 & H4)]; cbn [fst snd] in *.
  - left. split; [done |]. intros v Hv. apply H, list_elem_of_fmap. by exists v.
  - right. apply list_lookup_fmap_Some in H1 as (b & -> & Hb). exists b.
    split; [exact Hb |]. split; [exact H2 |]. split.
    + intros v Hv. apply H3, list_elem_of_fmap. by exists v.
    + intros j v Hj Hlt. apply (H4 j); [by rewrite list_lookup_fmap, Hj | done].
Qed.

(** Every representable value keeps its code; negative zero becomes zero. *)
Lemma fp4_codes_stable : find_closest_fp4 <$> FP4_VALUES = [0; 1; 2; 3; 4; 5; 6; 7; 0; 9; 10; 11; 12; 13; 14; 15]%N.
Proof. vm_compute. reflexivity. Qed.
