(* ===== verification/Nvfp.v ===== *)
(** * NVFP4 weights (rllm-quant/src/nvfp.rs), and the round trip of both formats

    Four-bit codes in groups of 16 whose scale is a sixth of the group's largest
    magnitude.  Then what quantizing, validating and dequantizing give together,
    for MXFP (Mxfp.v) and NVFP4. *)
From S2P Require Import Prelude F32 CoreTypes CpuRef Tensors Mxfp.
#[local] Open Scope string_scope.
#[local] Open Scope list_scope.
#[local] Open Scope nat_scope.
#[local] Open Scope rllm_scope.

Module Nvfp.
Section nvfp.
Context {T : Type} `{!TensorLib T}.

Definition validate_group_size (in_features group_size : nat) : result unit QError :=
  require (group_size =? 16) && (in_features mod group_size =? 0) else QGroupSize group_size in_features;
  Ok ().

Record NvfpLinear : Type := mkNvfp {
  qweight : T;
  scales : T;
  group_size : nat;
  in_features : nat;
  out_features : nat;
  dequantized : option T;
}.

Definition new (qweight scales : T) (group_size : nat) : result NvfpLinear QError :=
  match t_dims qweight with
  | [rows; cols] =>
      require negb ((rows =? 0) || (cols =? 0)) else QRank [rows; cols];
      require bool_decide (t_dtype qweight = T_U8) else QDtype (t_dtype qweight);
      let out_features := rows in
      let in_features := cols * 2 in
      _ <-? validate_group_size in_features group_size;
      require bool_decide (t_dims scales = [out_features; in_features / group_size])
        else QScaleShape out_features (in_features / group_size) (t_dims scales);
      scale_values <-? lift (f32_values scales);
      require negb (existsb Mxfp.bad_scale scale_values) else QScaleValues;
      Ok (mkNvfp qweight scales group_size in_features out_features None)
  | dims => Err (QRank dims)
  end.

Definition dequantize_nvfp4_cpu (l : NvfpLinear) : option (result T QError) :=
  match lift (q <-? t_to_dtype (qweight l) T_U8; u8_values q), lift (f32_values (scales l)) with
  | Err e, _ | _, Err e => Some (Err e)
  | Ok q_data, Ok scales_data =>
      dequant ← dequantize_with (fp4_value q_data (in_features l)) scales_data
                  (out_features l) (in_features l) (group_size l);
      Some (lift (t_from_f32 dequant [out_features l; in_features l]))
  end.

Definition get_or_dequantize (l : NvfpLinear) (target_dtype : TDType) : option (result T QError * NvfpLinear) :=
  match dequantized l with
  | Some t => Some (lift (t_to_dtype t target_dtype), l)
  | None =>
      r ← dequantize_nvfp4_cpu l;
      match r with
      | Err e => Some (Err e, l)
      | Ok t =>
          Some (lift (t_to_dtype t target_dtype),
                mkNvfp (qweight l) (scales l) (group_size l) (in_features l) (out_features l) (Some t))
      end
  end.

Definition apply (l : NvfpLinear) (x : T) : option (result T QError * NvfpLinear) :=
  '(r, l) ← get_or_dequantize l (t_dtype x);
  Some (weight <-? r; lift (linear_rows x weight (in_features l) (out_features l)), l).

(** [LinearMethod::weight]: the dequantized weight, once there is one. *)
Definition weight (l : NvfpLinear) : option T := dequantized l.

(** The scale of a group. *)
Definition group_scale (abs_max : f32) : f32 :=
  if F32.gtb abs_max F32.zero then F32.div abs_max (F32.of_Z 6) else F32.one.

Definition quantize_nvfp4_cpu (weight : T) (group_size : nat) : option (result (T * T) QError) :=
  match lift (t_to_dtype weight T_F32) with
  | Err e => Some (Err e)
  | Ok weight_cpu =>
      match t_dims weight_cpu with
      | [out_features; in_features] =>
          if (out_features =? 0) || (in_features =? 0) then Some (Err (QRank [out_features; in_features]))
          else match validate_group_size in_features group_size with
          | Err e => Some (Err e)
          | Ok _ =>
              match lift (flat <-? t_flatten_all weight_cpu; t_to_vec1_f32 flat) with
              | Err e => Some (Err e)
              | Ok w_data =>
                  '(q_data, scales) ← quantize4 group_scale w_data out_features in_features group_size;
                  Some (Mxfp.packed_tensors q_data scales out_features (in_features / 2) (in_features / group_size))
              end
          end
      | dims => Some (Err (QRank dims))
      end
  end.

End nvfp.
Arguments NvfpLinear T : clear implicits.
End Nvfp.

(** ** Round trips *)
Section round_trip.
Context {T : Type} `{!TensorLib T, !LawfulTensors T}.
Context (w : list f32) (gs : nat) (scale_of : f32 → f32).

(** The scales of [n] groups, and the values of [n] elements after a round trip:
    the value of the closest code, times the scale of the group. *)
Definition group_scales (n : nat) : list f32 := scale_at w gs scale_of <$> seq 0 n.
Definition fp4_rounded (n : nat) : list f32 :=
  (λ i, F32.mul (default F32.zero (FP4_VALUES !! N.to_nat (find_closest_fp4 (scaled w gs scale_of i))))
                (scale_at w gs scale_of (i / gs))) <$> seq 0 n.

Lemma values_cpu (weight : T) v d : f32_values weight = Ok v → t_dims weight = d →
  ∃ t, t_to_dtype weight T_F32 = Ok t ∧ t_dims t = d ∧ (flat <-? t_flatten_all t; t_to_vec1_f32 flat) = Ok v.
Proof using LawfulTensors0.
  intros Hv <-. unfold f32_values in Hv. destruct (t_to_dtype weight T_F32) as [t|] eqn:E; [| done].
  exists t. split; [done |]. split; [by apply to_dtype_dims in E as [-> _] | exact Hv].
Qed.

(** Both tensors of a quantized weight are built, and read back. *)
Lemma packed_tensors_ok q s rows cols groups : length q = rows * cols → length s = rows * groups →
  ∃ (qt st : T), Mxfp.packed_tensors q s rows cols groups = Ok (qt, st)
    ∧ t_dims qt = [rows; cols] ∧ t_dtype qt = T_U8 ∧ u8_values qt = Ok q
    ∧ t_dims st = [rows; groups] ∧ f32_values st = Ok s.
Proof using LawfulTensors0.
  intros Hq Hs. destruct (from_u8_ok q [rows; cols]) as (qt & E1 & D1 & Y1 & V1); [cbn; lia |].
  destruct (from_f32_ok s [rows; groups]) as (st & E2 & D2 & _ & V2); [cbn; lia |].
  exists qt, st. unfold Mxfp.packed_tensors. rewrite E1. cbn. by rewrite E2.
Qed.

(** The element of a packed weight is the value of its code. *)
Lemma fp4_value_packed out ng e o i :
  gs = 2 * e → o < out → i < ng * gs →
  fp4_value (byte_at w gs scale_of <$> seq 0 (out * (ng * e))) (ng * gs) o i
  = Some (default F32.zero (FP4_VALUES !! N.to_nat (find_closest_fp4 (scaled w gs scale_of (o * (ng * gs) + i))))).
Proof.
  intros -> Ho Hi. unfold fp4_value. replace (ng * (2 * e) / 2) with (ng * e) by (apply Nat.div_unique_exact; lia).
  pose proof (Nat.div_mod_eq i 2) as Hdm. pose proof (Nat.mod_upper_bound i 2 ltac:(lia)) as Hm.
  assert (Hj : o * (ng * e) + i / 2 < out * (ng * e)) by nia.
  rewrite list_lookup_fmap, lookup_seq_lt by done. cbn [fmap option_fmap option_map mbind option_bind].
  unfold byte_at. set (j := o * (ng * e) + i / 2). set (f := scaled w (2 * e) scale_of).
  destruct (pack_unpack (find_closest_fp4 (f (2 * (0 + j)))) (find_closest_fp4 (f (2 * (0 + j) + 1))) i) as [-> _]; [apply find_closest_lt ..|].
  assert (Hcode : (if i mod 2 =? 0 then find_closest_fp4 (f (2 * (0 + j))) else find_closest_fp4 (f (2 * (0 + j) + 1)))
    = find_closest_fp4 (f (o * (ng * (2 * e)) + i))).
  { destruct (Nat.eqb_spec (i mod 2) 0); do 2 f_equal; unfold j; lia. }
  rewrite Hcode. destruct (lookup_lt_is_Some_2 FP4_VALUES (N.to_nat (find_closest_fp4 (f (o * (ng * (2 * e)) + i))))) as [x Hx].
  { pose proof (find_closest_lt (f (o * (ng * (2 * e)) + i))). change (length FP4_VALUES) with 16. lia. }
  by rewrite Hx.
Qed.

(** Dequantizing the packed bytes gives the rounded values. *)
Lemma dequantize_packed out ng e : 0 < e → gs = 2 * e →
  dequantize_with (fp4_value (byte_at w gs scale_of <$> seq 0 (out * (ng * e))) (ng * gs)) (group_scales (out * ng))
    out (ng * gs) gs = Some (fp4_rounded (out * (ng * gs))).
Proof.
  intros He Hgs. erewrite (dequantize_with_spec _
    (λ i, default F32.zero (FP4_VALUES !! N.to_nat (find_closest_fp4 (scaled w gs scale_of i)))) (scale_at w gs scale_of));
    [done | lia | intros o i Ho Hi; by apply (fp4_value_packed out ng e) |].
  intros G HG. unfold group_scales. by rewrite list_lookup_fmap, lookup_seq_lt.
Qed.

End round_trip.

Lemma forallb_negb_existsb {A} (f : A → bool) l : existsb f l = false → forallb (λ x, negb (f x)) l = true.
Proof. induction l as [|x l IH]; [done |]. cbn. intros [-> H]%orb_false_iff. by apply IH. Qed.

(** The scales of a weight of [n] groups that a layer accepts. *)
Definition scales_accepted (l : list f32) : bool := forallb (λ s, negb (Mxfp.bad_scale s)) l.

(** The NVFP4 round trip.  A weight of valid shape is always quantized, without a
    panic; the layer built from the result is accepted exactly when every group
    scale is finite and positive, and rejected for its scales otherwise; and it
    dequantizes, element by element in the weight's own order, to the value of the
    closest 4-bit code times the scale of the element's group. *)
Theorem nvfp4_round_trip {T} `{!TensorLib T, !LawfulTensors T} (weight : T) w out inf :
  f32_values weight = Ok w → t_dims weight = [out; inf] → 0 < out → 0 < inf → inf mod 16 = 0 →
  ∃ qt st, Nvfp.quantize_nvfp4_cpu weight 16 = Some (Ok (qt, st))
    ∧ match Nvfp.new qt st 16 with
      | Ok l =>
          scales_accepted (group_scales w 16 Nvfp.group_scale (out * (inf / 16))) = true
          ∧ Nvfp.out_features l = out ∧ Nvfp.in_features l = inf
          ∧ ∃ t, Nvfp.dequantize_nvfp4_cpu l = Some (Ok t) ∧ t_dims t = [out; inf]
              ∧ f32_values t = Ok (fp4_rounded w 16 Nvfp.group_scale (out * inf))
      | Err e => e = QScaleValues ∧ scales_accepted (group_scales w 16 Nvfp.group_scale (out * (inf / 16))) = false
      end.
Proof.
  intros Hv Hd Ho Hi Hmod.
  assert (∃ ng, inf = ng * 16) as [ng ->] by (exists (inf / 16); pose proof (Nat.div_mod_eq inf 16); lia).
  replace (ng * 16 / 16) with ng by (apply Nat.div_unique_exact; lia). assert (Hng : 0 < ng) by lia.
  assert (Hlen : length w = out * (ng * 16)) by (rewrite (f32_values_length _ _ Hv), Hd; cbn; lia).
  destruct (values_cpu weight w _ Hv Hd) as (wc & E1 & D1 & V1).
  assert (Hval : Nvfp.validate_group_size (ng * 16) 16 = Ok ()) by (unfold Nvfp.validate_group_size; by rewrite Hmod).
  assert (Hh : ng * 16 / 2 = ng * 8) by (symmetry; apply Nat.div_unique_exact; lia).
  assert (Hg : ng * 16 / 16 = ng) by (symmetry; apply Nat.div_unique_exact; lia).
  destruct (packed_tensors_ok (T := T) (byte_at w 16 Nvfp.group_scale <$> seq 0 (out * (ng * 8)))
    (group_scales w 16 Nvfp.group_scale (out * ng)) out (ng * 8) ng) as (qt & st & Ep & Q1 & Q2 & Q3 & S1 & S2);
    [by rewrite length_fmap, length_seq | unfold group_scales; by rewrite length_fmap, length_seq |].
  exists qt, st. split.
  { unfold Nvfp.quantize_nvfp4_cpu. rewrite E1. cbn [lift]. rewrite D1.
    rewrite (proj2 (Nat.eqb_neq out 0)), (proj2 (Nat.eqb_neq (ng * 16) 0)) by lia. cbn [orb]. rewrite Hval, V1. cbn [lift].
    pose proof (quantize4_spec Nvfp.group_scale w out ng 8 ltac:(lia) Hlen) as Hq. change (2 * 8) with 16 in Hq.
    rewrite Hq. cbn [mbind option_bind]. rewrite Hh, Hg. f_equal. exact Ep. }
  assert (Hnew : ∀ r, r = Nvfp.new qt st 16 → r = if existsb Mxfp.bad_scale (group_scales w 16 Nvfp.group_scale (out * ng))
    then Err QScaleValues else Ok (Nvfp.mkNvfp qt st 16 (ng * 16) out None)).
  { intros r ->. unfold Nvfp.new. rewrite Q1, Q2, S1, S2.
    rewrite (proj2 (Nat.eqb_neq out 0)), (proj2 (Nat.eqb_neq (ng * 8) 0)) by lia. cbn [orb negb].
    rewrite bool_decide_eq_true_2 by done. replace (ng * 8 * 2) with (ng * 16) by lia. rewrite Hval, Hg. cbn [result_bind].
    rewrite bool_decide_eq_true_2 by done. cbn [lift result_bind]. by destruct (existsb _ _). }
  rewrite (Hnew _ eq_refl). unfold scales_accepted. destruct (existsb Mxfp.bad_scale _) eqn:Eb; cbn [negb].
  { split; [done |]. apply not_true_is_false. rewrite forallb_forall. intros Hall.
    apply existsb_exists in Eb as (x & Hx & Hbad). specialize (Hall x Hx). by rewrite Hbad in Hall. }
  split; [by apply forallb_negb_existsb |]. split; [done |]. split; [done |].
  destruct (from_f32_ok (fp4_rounded w 16 Nvfp.group_scale (out * (ng * 16))) [out; ng * 16]) as (t & Et & Dt & _ & Vt);
    [unfold fp4_rounded; rewrite length_fmap, length_seq; cbn; lia |].
  exists t. split; [| done]. unfold Nvfp.dequantize_nvfp4_cpu.
  cbn [Nvfp.qweight Nvfp.scales Nvfp.in_features Nvfp.out_features Nvfp.group_size].
  rewrite <- Q2, to_same_dtype. cbn [result_bind]. rewrite Q3, S2. cbn [lift].
  rewrite (dequantize_packed w 16 Nvfp.group_scale out ng 8) by lia. cbn [mbind option_bind]. by rewrite Et.
Qed.

(** ** MXFP *)
Section mxfp_round_trip.
Context {T : Type} `{!TensorLib T, !LawfulTensors T}.
Context (log2 exp2 : f32 → f32) (f8_from_f32 : f32 → N) (f8_to_f32 : N → f32).

Definition mxfp_scale (bits : N) (abs_max : f32) : f32 :=
  Mxfp.power_of_two_scale log2 exp2 abs_max (F32.of_Z (if (bits =? 4)%N then 6 else 448)).

(** The values after a round trip through [bits] bits. *)
Definition mxfp_rounded (bits : N) (w : list f32) (gs n : nat) : list f32 :=
  if (bits =? 4)%N then fp4_rounded w gs (mxfp_scale bits) n
  else (λ i, F32.mul (f8_to_f32 (f8_from_f32 (scaled w gs (mxfp_scale bits) i))) (scale_at w gs (mxfp_scale bits) (i / gs))) <$> seq 0 n.

Definition quantize_mxfp (bits : N) (weight : T) (gs : nat) : option (result (T * T) QError) :=
  if (bits =? 4)%N then Mxfp.quantize_mxfp4_cpu log2 exp2 weight gs else Mxfp.quantize_mxfp8_cpu log2 exp2 f8_from_f32 weight gs.
Definition dequantize_mxfp (l : Mxfp.MxfpLinear T) : option (result T QError) :=
  if (Mxfp.bits l =? 8)%N then Mxfp.dequantize_mxfp8_cpu f8_to_f32 l else Mxfp.dequantize_mxfp4_cpu l.

Lemma online_source_ok (weight : T) w out inf gs packed :
  f32_values weight = Ok w → t_dims weight = [out; inf] → 0 < out → 0 < inf → 0 < gs → inf mod gs = 0 →
  (packed = true → gs mod 2 = 0) → Mxfp.online_source weight gs packed = Ok (out, inf, w).
Proof using LawfulTensors0.
  intros Hv Hd Ho Hi Hgs Hmod Heven. destruct (values_cpu weight w _ Hv Hd) as (wc & E1 & D1 & V1).
  unfold Mxfp.online_source. rewrite E1. cbn [lift result_bind]. rewrite D1, V1. unfold Mxfp.validate_online_shape.
  rewrite (proj2 (Nat.eqb_neq out 0)), (proj2 (Nat.eqb_neq inf 0)), (proj2 (Nat.eqb_neq gs 0)), Hmod by lia.
  destruct packed; [by rewrite Heven | done].
Qed.

(** [new] on a built pair of tensors looks at the scales only. *)
Lemma mxfp_new_scales (qt st : T) bits cols gs out ng s :
  bits = 4%N ∧ cols * 2 = ng * gs ∧ gs mod 2 = 0 ∨ bits = 8%N ∧ cols = ng * gs →
  t_dims qt = [out; cols] → t_dtype qt = T_U8 → t_dims st = [out; ng] → f32_values st = Ok s →
  0 < out → 0 < cols → 0 < gs →
  Mxfp.new qt st bits gs = if existsb Mxfp.bad_scale s then Err QScaleValues
    else Ok (Mxfp.mkMxfp qt st bits gs (ng * gs) out None).
Proof.
  intros Hb Q1 Q2 S1 S2 Ho Hc Hgs. unfold Mxfp.new. rewrite Q1, Q2, S1, S2.
  rewrite (proj2 (Nat.eqb_neq out 0)), (proj2 (Nat.eqb_neq cols 0)), (proj2 (Nat.eqb_neq gs 0)) by lia.
  assert (Hg : ng * gs / gs = ng) by (apply Nat.div_mul; lia). assert (Hm : (ng * gs) mod gs = 0) by (apply Nat.Div0.mod_mul).
  destruct Hb as [(-> & -> & He)|(-> & ->)]; cbn [N.eqb orb andb negb Pos.eqb];
    rewrite ?He, Hm, Hg, (bool_decide_eq_true_2 (T_U8 = T_U8)) by done; cbn [negb orb Nat.eqb];
    rewrite bool_decide_eq_true_2 by done; cbn [lift result_bind]; by destruct (existsb _ _).
Qed.

(** Quantized with one scale per group, a weight of valid shape gives a layer
    exactly when its scales are finite and positive, whose dequantized weight is
    the rounded one. *)
Lemma mxfp_round_trip bits (weight : T) w out ng gs :
  bits = 4%N ∧ gs mod 2 = 0 ∨ bits = 8%N →
  f32_values weight = Ok w → t_dims weight = [out; ng * gs] → 0 < out → 0 < ng → 0 < gs →
  let scales := group_scales w gs (mxfp_scale bits) (out * ng) in
  ∃ qt st, quantize_mxfp bits weight gs = Some (Ok (qt, st))
    ∧ if existsb Mxfp.bad_scale scales then Mxfp.new qt st bits gs = Err QScaleValues
      else ∃ l t, Mxfp.new qt st bits gs = Ok l ∧ dequantize_mxfp l = Some (Ok t)
        ∧ t_dims t = [out; ng * gs] ∧ f32_values t = Ok (mxfp_rounded bits w gs (out * (ng * gs))).
Proof using LawfulTensors0.
  intros Hb Hv Hd Ho Hn Hgs scales.
  assert (Hlen : length w = out * (ng * gs)) by (rewrite (f32_values_length _ _ Hv), Hd; cbn; lia).
  assert (Hg : ng * gs / gs = ng) by (apply Nat.div_mul; lia). assert (Hm : (ng * gs) mod gs = 0) by (apply Nat.Div0.mod_mul).
  assert (Hls : length scales = out * ng) by (unfold scales, group_scales; by rewrite length_fmap, length_seq).
  set (cols := if (bits =? 4)%N then ng * gs / 2 else ng * gs).
  set (q := if (bits =? 4)%N then byte_at w gs (mxfp_scale bits) <$> seq 0 (out * cols)
            else (λ i, f8_from_f32 (scaled w gs (mxfp_scale bits) i)) <$> seq 0 (out * cols)).
  assert (Hq : length q = out * cols) by (unfold q; case_match; by rewrite length_fmap, length_seq).
  destruct (packed_tensors_ok (T := T) q scales out cols ng Hq Hls) as (qt & st & Ep & Q1 & Q2 & Q3 & S1 & S2).
  assert (Hcols : bits = 4%N ∧ cols * 2 = ng * gs ∧ gs mod 2 = 0 ∨ bits = 8%N ∧ cols = ng * gs).
  { destruct Hb as [[-> He]| ->]; [left | by right]. unfold cols. cbn [N.eqb Pos.eqb]. split_and!; [done | | done].
    pose proof (Nat.div_mod_eq gs 2). replace (ng * gs / 2) with (ng * (gs / 2)) by (apply Nat.div_unique_exact; nia). nia. }
  assert (Hc0 : 0 < cols) by (destruct Hcols as [(_ & H & _)|(_ & ->)]; nia).
  exists qt, st. split.
  - unfold quantize_mxfp, Mxfp.quantize_mxfp4_cpu, Mxfp.quantize_mxfp8_cpu.
    destruct Hcols as [(-> & Hc & He)|(-> & Hc)]; cbn [N.eqb Pos.eqb] in *; rewrite (online_source_ok weight w out (ng * gs)) by (done || nia).
    + assert (∃ e, gs = 2 * e) as [e ->] by (exists (gs / 2); pose proof (Nat.div_mod_eq gs 2); lia).
      rewrite (quantize4_spec _ w out ng e) by (done || lia). cbn [mbind option_bind]. fold cols. rewrite Hg.
      replace (ng * e) with cols by lia. f_equal. exact Ep.
    + rewrite (quantize8_spec _ _ _ w out ng gs Hgs Hlen). cbn [mbind option_bind]. rewrite Hg. f_equal. exact Ep.
  - rewrite (mxfp_new_scales qt st bits cols gs out ng scales) by done. destruct (existsb _ _) eqn:Eb; [done |].
    destruct (from_f32_ok (mxfp_rounded bits w gs (out * (ng * gs))) [out; ng * gs]) as (t & Et & Dt & _ & Vt).
    { unfold mxfp_rounded, fp4_rounded. case_match; rewrite length_fmap, length_seq; cbn; lia. }
    eexists _, t. split; [done |]. split; [| done]. unfold dequantize_mxfp, Mxfp.dequantize_mxfp4_cpu, Mxfp.dequantize_mxfp8_cpu.
    cbn [Mxfp.qweight Mxfp.scales Mxfp.in_features Mxfp.out_features Mxfp.group_size Mxfp.bits].
    rewrite S2. unfold mxfp_rounded in Et. destruct Hcols as [(-> & Hc & He)|(-> & Hc)]; cbn [N.eqb Pos.eqb] in *.
    + rewrite <- Q2, to_same_dtype. cbn [result_bind]. rewrite Q3. cbn [lift].
      assert (∃ e, gs = 2 * e) as [e Ee] by (exists (gs / 2); pose proof (Nat.div_mod_eq gs 2); lia).
      unfold q, scales. cbn [N.eqb Pos.eqb]. replace cols with (ng * e) by nia.
      rewrite (dequantize_packed w gs (mxfp_scale 4) out ng e) by lia. cbn [mbind option_bind]. by rewrite Et.
    + rewrite Q3. cbn [lift]. rewrite (dequantize_with_spec _ (λ i, f8_to_f32 (f8_from_f32 (scaled w gs (mxfp_scale 8) i)))
        (scale_at w gs (mxfp_scale 8)) scales out ng gs Hgs);
        [cbn [mbind option_bind]; by rewrite Et | |].
      * intros o i Ho' Hi. unfold q, cols. rewrite list_lookup_fmap, list_lookup_fmap, lookup_seq_lt by nia. done.
      * intros G HG. unfold scales, group_scales. by rewrite list_lookup_fmap, lookup_seq_lt.
Qed.

End mxfp_round_trip.

(** ** A concrete weight, and a weight that is refused *)
#[local] Existing Instance host_tensors.
#[local] Existing Instance host_lawful.

Definition demo_row : list f32 := F32.of_Z <$> [1; -2; 3; -4; 5; -6; 1; -2; 1; -2; 3; -4; 5; -6; 1; -2]%Z.
Definition demo_weight : HostTensor := mkHost [1; 16] (HD_f32 demo_row).

(** The scale is 1; every value but 5 has a code, and 5 lies between 4 and 6 and
    goes to the first. *)
Lemma nvfp4_round_trip_witness :
  ∃ qt st l t, Nvfp.quantize_nvfp4_cpu demo_weight 16 = Some (Ok (qt, st)) ∧ Nvfp.new qt st 16 = Ok l
    ∧ Nvfp.dequantize_nvfp4_cpu l = Some (Ok t)
    ∧ f32_values t = Ok (F32.of_Z <$> [1; -2; 3; -4; 4; -6; 1; -2; 1; -2; 3; -4; 4; -6; 1; -2]%Z).
Proof.
  destruct (nvfp4_round_trip demo_weight demo_row 1 16) as (qt & st & E & H); [reflexivity | reflexivity | lia | lia | reflexivity |].
  exists qt, st. destruct (Nvfp.new qt st 16) as [l|e]; [| destruct H as [_ H]; vm_compute in H; discriminate H].
  destruct H as (_ & _ & _ & t & Et & _ & Vt). exists l, t. split; [exact E |]. split; [reflexivity |]. split; [exact Et |].
  rewrite Vt. vm_compute. reflexivity.
Defined.

(** A group of subnormal values has a sixth that rounds to zero: the weight is
    quantized, and its own layer then refuses the scale. *)
Definition tiny_weight : HostTensor := mkHost [1; 16] (HD_f32 (replicate 16 (binary_normalize 24 128 1 (-149) false))).

Example tiny_weight_refused :
  ∃ qt st, Nvfp.quantize_nvfp4_cpu tiny_weight 16 = Some (Ok (qt, st)) ∧ Nvfp.new qt st 16 = Err QScaleValues.
Proof.
  destruct (Nvfp.quantize_nvfp4_cpu tiny_weight 16) as [[[qt st]|e]|] eqn:E; vm_compute in E; try discriminate E.
  injection E as <- <-. eexists _, _. split; [done | vm_compute; reflexivity].
Qed.
