(* ===== verification/Int8.v ===== *)
(** * INT8 weights (rllm-quant/src/qtensor.rs, int8.rs)

    Raw signed-byte tensors and their dequantization, the per-channel weight
    quantizer, the layer's validation, and the CPU oracle of the matrix product
    with quantized activations.  The CUDA half of int8.rs is not modelled. *)
From S2P Require Import Prelude F32 CoreTypes CpuRef Tensors Mxfp Nvfp.
#[local] Open Scope string_scope.
#[local] Open Scope list_scope.
#[local] Open Scope nat_scope.
#[local] Open Scope rllm_scope.

(** ** Raw tensors (qtensor.rs) *)
Record QuantTensor : Type := mkQuantTensor {
  qt_data : list Z;
  qt_shape : list nat;
}.

Definition qt_new (data : list Z) (shape : list nat) : result QuantTensor QError :=
  require length data =? nprod shape else QLength (length data) (nprod shape);
  Ok (mkQuantTensor data shape).

(** [byte as i8] *)
Definition as_i8 (byte : N) : Z := if (byte <? 128)%N then Z.of_N byte else (Z.of_N byte - 256)%Z.
(** [x as u8] of an [i8] *)
Definition i8_as_u8 (x : Z) : N := Z.to_N (x mod 256).

Definition from_i8_bytes (bytes : list N) (shape : list nat) : result QuantTensor QError :=
  qt_new (as_i8 <$> bytes) shape.

Definition num_bytes (q : QuantTensor) : nat := length (qt_data q).

(** [{:?}] of a shape. *)
Definition show_dims (l : list nat) : string := "[" +:+ String.concat ", " (pretty.pretty <$> l) +:+ "]".

Section qtensor.
Context {T : Type} `{!TensorLib T}.

(** A scale or a zero point, shaped to multiply the rows of a weight. *)
Definition row_factor (what : string) (shape : list nat) (t : T) : result T TensorError :=
  t <-? t_to_dtype t T_F32;
  let unsupported dims :=
    Err ("unsupported INT8 " +:+ what +:+ " shape " +:+ show_dims dims +:+ " for weight shape " +:+ show_dims shape) in
  match t_dims t, shape with
  | [], _ | [1], _ => Ok t
  | [1; 1], [_; _] => Ok t
  | [out], [rows; _] => if out =? rows then t_reshape t [out; 1] else unsupported [out]
  | [out; 1], [rows; _] => if out =? rows then Ok t else unsupported [out; 1]
  | dims, _ => unsupported dims
  end.

Definition qt_dequantize (q : QuantTensor) (scale : T) (zero_point : option T) (out_dtype : TDType) : result T TensorError :=
  w <-? t_from_f32 (F32.of_Z <$> qt_data q) (qt_shape q);
  w <-? match zero_point with
        | Some zp => zp <-? row_factor "zero_point" (qt_shape q) zp; t_broadcast_sub w zp
        | None => Ok w
        end;
  scale <-? row_factor "scale" (qt_shape q) scale;
  w <-? t_broadcast_mul w scale;
  t_to_dtype w out_dtype.

(** ** The layer (int8.rs) *)
Record Int8Linear : Type := mkInt8 {
  i8_qweight : QuantTensor;
  i8_scale : T;
  i8_zero_point : option T;
  i8_symmetric : bool;
  i8_strategy : string;
  i8_dequantized : option T;
  i8_in_features : nat;
  i8_out_features : nat;
}.

Definition int8_new (qweight : QuantTensor) (scale : T) (zero_point : option T) (symmetric : bool) (strategy : string) :
    result Int8Linear QError :=
  match qt_shape qweight with
  | [out_features; in_features] =>
      require String.eqb strategy "channel" || String.eqb strategy "tensor" else QStrategy strategy;
      scale_values <-? lift (f32_values scale);
      require negb (existsb Mxfp.bad_scale scale_values) else QScaleValues;
      require symmetric || bool_decide (is_Some zero_point) else QZeroPointMissing;
      require negb (String.eqb strategy "channel" && negb (length scale_values =? out_features))
        else QChannelScale (length scale_values) out_features;
      require negb (String.eqb strategy "tensor" && negb (length scale_values =? 1)) else QTensorScale (length scale_values);
      _ <-? match zero_point with
            | Some zp =>
                zp_values <-? lift (f32_values zp);
                require negb (String.eqb strategy "channel" && negb (length zp_values =? out_features))
                  else QChannelZeroPoint (length zp_values) out_features;
                require negb (String.eqb strategy "tensor" && negb (length zp_values =? 1))
                  else QTensorZeroPoint (length zp_values);
                Ok ()
            | None => Ok ()
            end;
      Ok (mkInt8 qweight scale zero_point symmetric strategy None in_features out_features)
  | dims => Err (QRank dims)
  end.

(** [apply] on the host. *)
Definition int8_apply (l : Int8Linear) (x : T) : result T TensorError * Int8Linear :=
  match match i8_dequantized l with
        | Some w => Ok (w, l)
        | None =>
            w <-? qt_dequantize (i8_qweight l) (i8_scale l) (i8_zero_point l) T_F32;
            Ok (w, mkInt8 (i8_qweight l) (i8_scale l) (i8_zero_point l) (i8_symmetric l) (i8_strategy l) (Some w)
                     (i8_in_features l) (i8_out_features l))
        end with
  | Err e => (Err e, l)
  | Ok (w, l) => (weight <-? t_to_dtype w (t_dtype x); linear_rows x weight (i8_in_features l) (i8_out_features l), l)
  end.

(** The symmetric code of a value. *)
Definition code_i8 (x : f32) : Z := F32.to_i8 (F32.clamp (F32.of_Z (-127)) (F32.of_Z 127) (F32.round x)).

Definition row_scale (absmax : f32) : f32 :=
  if F32.gtb absmax F32.zero then F32.div absmax (F32.of_Z 127) else F32.one.

Definition quantize_weight_per_channel (weight : T) : result (QuantTensor * T) QError :=
  match t_dims weight with
  | [out_features; in_features] =>
      rows <-? lift (w <-? t_to_dtype weight T_F32; t_to_vec2_f32 w);
      let scales := (λ row, row_scale (absmax row)) <$> rows in
      let qdata := row ← rows; (λ value, code_i8 (F32.div value (row_scale (absmax row)))) <$> row in
      qweight <-? qt_new qdata [out_features; in_features];
      scale <-? lift (t_from_f32 scales [out_features]);
      Ok (qweight, scale)
  | dims => Err (QRank dims)
  end.

End qtensor.
Arguments Int8Linear T : clear implicits.

(** ** The oracle of the quantized product *)

(** An [i32] result, which panics when it does not fit. *)
Definition i32_checked (z : Z) : option Z :=
  if ((-2147483648 <=? z) && (z <=? 2147483647))%Z then Some z else None.

Definition code_i32 (x : f32) : Z := F32.to_i32 (F32.clamp (F32.of_Z (-127)) (F32.of_Z 127) (F32.round x)).

(** [acc += qx[k] * w_row[k] as i32] over a row. *)
Definition dot_i32 (qx w_row : list Z) (in_features : nat) : option Z :=
  for_each (λ k acc, a ← qx !! k; b ← w_row !! k; p ← i32_checked (a * b); i32_checked (acc + p)) (seq 0 in_features) 0%Z.

Definition w8a8_row (x : list f32) (in_features : nat) (qweight : list Z) (weight_scale : list f32) (out_features r : nat)
    (output : list f32) : option (list f32) :=
  x_row ← slice x (r * in_features) ((r + 1) * in_features);
  let act_scale := row_scale (absmax x_row) in
  let inv_act_scale := F32.div F32.one act_scale in
  let qx := (λ v, code_i32 (F32.mul v inv_act_scale)) <$> x_row in
  for_each (λ o output,
    w_row ← slice qweight (o * in_features) ((o + 1) * in_features);
    acc ← dot_i32 qx w_row in_features;
    ws ← weight_scale !! o;
    vec_set (r * out_features + o) (F32.mul (F32.mul (F32.of_Z acc) act_scale) ws) output) (seq 0 out_features) output.

Definition w8a8_matmul_reference_f32 (x : list f32) (rows in_features : nat) (qweight : list Z)
    (weight_scale : list f32) (out_features : nat) : option (list f32) :=
  for_each (w8a8_row x in_features qweight weight_scale out_features) (seq 0 rows)
    (replicate (rows * out_features) F32.zero).

(** ** Lemmas *)
Lemma code_range x : small x → (-127 <= code_i8 x <= 127)%Z ∧ (-127 <= code_i32 x <= 127)%Z.
Proof. intros Hx. apply small_round in Hx. split; apply clamp_code; (done || lia). Qed.

Lemma i32_checked_Some z : (-2147483648 <= z <= 2147483647)%Z → i32_checked z = Some z.
Proof. intros H. unfold i32_checked. by rewrite (proj2 (Z.leb_le _ _)), (proj2 (Z.leb_le _ _)) by lia. Qed.

(** The exact dot product of two rows of integers. *)
Fixpoint dot_Z (a b : list Z) : Z :=
  match a, b with x :: a, y :: b => (x * y + dot_Z a b)%Z | _, _ => 0%Z end.

Lemma dot_Z_snoc a b x y : length a = length b → dot_Z (a ++ [x]) (b ++ [y]) = (dot_Z a b + x * y)%Z.
Proof.
  revert b. induction a as [|x' a IH]; intros [|y' b] Hl; simpl in *; try lia.
  rewrite IH by lia. lia.
Qed.

Definition code_row (l : list Z) : Prop := ∀ a, a ∈ l → (-127 <= a <= 127)%Z.
Definition byte_row (l : list Z) : Prop := ∀ a, a ∈ l → (-128 <= a <= 127)%Z.

Lemma dot_Z_bound a b : code_row a → byte_row b → (Z.abs (dot_Z a b) <= 16256 * Z.of_nat (length a))%Z.
Proof.
  revert b. induction a as [|x a IH]; intros [|y b] Ha Hb; cbn [dot_Z length]; try lia.
  pose proof (Ha x ltac:(by left)). pose proof (Hb y ltac:(by left)).
  pose proof (IH b (λ z Hz, Ha z ltac:(by right)) (λ z Hz, Hb z ltac:(by right))). nia.
Qed.

Lemma dot_Z_take_bound a b k : code_row a → byte_row b →
  (Z.abs (dot_Z (take k a) (take k b)) <= 16256 * Z.of_nat (Nat.min k (length a)))%Z.
Proof.
  intros Ha Hb. rewrite <- length_take. apply dot_Z_bound.
  - intros z Hz. apply Ha. by eapply elem_of_take in Hz as (i & Hz%list_elem_of_lookup_2 & _).
  - intros z Hz. apply Hb. by eapply elem_of_take in Hz as (i & Hz%list_elem_of_lookup_2 & _).
Qed.

(** Up to 132104 terms the accumulation stays in 32 bits. *)
Lemma dot_i32_exact qx w n : code_row qx → byte_row w → length qx = n → length w = n → (Z.of_nat n <= 132104)%Z →
  dot_i32 qx w n = Some (dot_Z qx w).
Proof.
  intros Hq Hw Lq Lw Hn. unfold dot_i32.
  match goal with |- for_each ?b _ _ = _ =>
    destruct (for_each_inv (λ k acc, acc = dot_Z (take k qx) (take k w)) b n 0%Z) as (acc & -> & ->) end;
    [| done | by rewrite !take_ge by lia].
  intros k acc Hk ->. destruct (lookup_lt_is_Some_2 qx k ltac:(lia)) as [a Ea], (lookup_lt_is_Some_2 w k ltac:(lia)) as [b Eb].
  rewrite Ea, Eb. cbn [mbind option_bind].
  pose proof (Hq a ltac:(by eapply list_elem_of_lookup_2)). pose proof (Hw b ltac:(by eapply list_elem_of_lookup_2)).
  rewrite i32_checked_Some by nia. cbn [mbind option_bind].
  assert (Es : dot_Z (take (S k) qx) (take (S k) w) = (dot_Z (take k qx) (take k w) + a * b)%Z).
  { rewrite (take_S_r _ _ a), (take_S_r _ _ b) by done. apply dot_Z_snoc. rewrite !length_take. lia. }
  exists (dot_Z (take (S k) qx) (take (S k) w)). split; [| done].
  pose proof (dot_Z_take_bound qx w (S k) Hq Hw). rewrite <- Es. apply i32_checked_Some. lia.
Qed.

(** ** The oracle computes the exact integer product *)

(** The scale and the codes of row [r] of the activations. *)
Definition act_row (x : list f32) (n r : nat) : list f32 := take n (drop (r * n) x).
Definition act_scale (x : list f32) (n r : nat) : f32 := row_scale (absmax (act_row x n r)).
Definition act_codes (x : list f32) (n r : nat) : list Z :=
  (λ v, code_i32 (F32.mul v (F32.div F32.one (act_scale x n r)))) <$> act_row x n r.
Definition weight_row (q : list Z) (n o : nat) : list Z := take n (drop (o * n) q).

(** C38. The W8A8 oracle.  With complete inputs, signed-byte weights and at most 132104
    input features, it never overflows an [i32] or indexes out of range: every
    activation code is in [-127, 127], and each output is the exact integer dot
    product of the codes of its rows, times the activation scale, times the
    channel's scale. *)
Theorem w8a8_exact x rows n q ws out :
  rows * n ≤ length x → out * n ≤ length q → out ≤ length ws → byte_row q → (Z.of_nat n <= 132104)%Z →
  (∀ r, r < rows → code_row (act_codes x n r))
  ∧ w8a8_matmul_reference_f32 x rows n q ws out
    = Some ((λ i, let r := i / out in let o := i mod out in
              F32.mul (F32.mul (F32.of_Z (dot_Z (act_codes x n r) (weight_row q n o))) (act_scale x n r))
                (default F32.zero (ws !! o))) <$> seq 0 (rows * out)).
Proof.
  intros Hx Hq Hws Hb Hn.
  assert (Hcodes : ∀ r, code_row (act_codes x n r)).
  { intros r a Ha. apply list_elem_of_fmap in Ha as (v & -> & _). apply code_range, small_mul. }
  split; [by intros r _ |]. unfold w8a8_matmul_reference_f32.
  set (f := λ i, let r := i / out in let o := i mod out in _).
  destruct (for_each_inv (λ r buf, filled (rows * out) f (r * out) buf)
    (w8a8_row x n q ws out) rows (replicate (rows * out) F32.zero)) as (buf & -> & Hbuf); [| apply filled_0 | f_equal; by apply filled_all].
  intros r buf Hr Hbuf. assert (Hrn : (r + 1) * n ≤ rows * n) by (apply Nat.mul_le_mono_r; lia).
  assert (Hro1 : (r + 1) * out ≤ rows * out) by (apply Nat.mul_le_mono_r; lia).
  unfold w8a8_row. rewrite slice_Some by lia.
  replace ((r + 1) * n - r * n) with n by lia. cbn [mbind option_bind]. fold (act_row x n r). fold (act_scale x n r).
  fold (act_codes x n r).
  match goal with |- ∃ y, for_each ?b _ _ = _ ∧ _ =>
    destruct (for_each_inv (λ o buf, filled (rows * out) f (r * out + o) buf) b out buf) as (buf' & E & H) end;
    [| by rewrite Nat.add_0_r | exists buf'; split; [exact E | by replace (S r * out) with (r * out + out) by lia]].
  intros o b1 Ho H1. cbn beta. assert (Hon : (o + 1) * n ≤ out * n) by (apply Nat.mul_le_mono_r; lia).
  rewrite slice_Some by lia. replace ((o + 1) * n - o * n) with n by lia.
  cbn [mbind option_bind]. fold (weight_row q n o). rewrite dot_i32_exact; [| apply Hcodes | | | | done].
  - cbn [mbind option_bind]. destruct (lookup_lt_is_Some_2 ws o ltac:(lia)) as [s Es]. rewrite Es. cbn [mbind option_bind].
    assert (Hro : r * out + o < rows * out) by lia.
    assert (Ef : f (r * out + o) = F32.mul (F32.mul (F32.of_Z (dot_Z (act_codes x n r) (weight_row q n o))) (act_scale x n r)) s).
    { unfold f. replace ((r * out + o) / out) with r by (apply (Nat.div_unique _ _ _ o); lia).
      replace ((r * out + o) mod out) with o by (apply (Nat.mod_unique _ _ r); lia). by rewrite Es. }
    destruct (vec_set_filled _ _ _ _ H1 Hro) as [E2 H2]. rewrite <- Ef, E2. eexists. split; [done |].
    by replace (r * out + S o) with (S (r * out + o)) by lia.
  - intros a Ha. apply Hb. apply elem_of_take in Ha as (i & Ha & _). rewrite lookup_drop in Ha. by eapply list_elem_of_lookup_2.
  - unfold act_codes, act_row. rewrite length_fmap, length_take, length_drop. lia.
  - unfold weight_row. rewrite length_take, length_drop. lia.
Qed.

(** ** Quantizing a weight *)
Section per_channel.
Context {T : Type} `{!TensorLib T, !LawfulTensors T}.
Context (w : list f32) (out inf : nat).

(** The scale of a channel and the code of an element. *)
Definition channel_scale (o : nat) : f32 := row_scale (absmax (take inf (drop (o * inf) w))).
Definition channel_code (i : nat) : Z := code_i8 (F32.div (default F32.zero (w !! i)) (channel_scale (i / inf))).
Definition channel_scales : list f32 := channel_scale <$> seq 0 out.
Definition channel_codes : list Z := channel_code <$> seq 0 (out * inf).

Lemma channel_code_row : code_row channel_codes.
Proof. intros a Ha. apply list_elem_of_fmap in Ha as (i & -> & _). apply code_range, small_div. Qed.

Lemma quantize_weight_spec (weight : T) : f32_values weight = Ok w → t_dims weight = [out; inf] →
  ∃ st, quantize_weight_per_channel weight = Ok (mkQuantTensor channel_codes [out; inf], st)
    ∧ t_dims st = [out] ∧ t_dtype st = T_F32 ∧ f32_values st = Ok channel_scales.
Proof using LawfulTensors0.
  intros Hv Hd. assert (Hlen : length w = out * inf) by (rewrite (f32_values_length _ _ Hv), Hd; cbn; lia).
  destruct (to_vec2_rows weight w out inf Hv Hd) as (wc & E1 & E2).
  destruct (from_f32_ok channel_scales [out]) as (st & E3 & H3); [unfold channel_scales; rewrite length_fmap, length_seq; cbn; lia |].
  exists st. split; [| by destruct H3]. unfold quantize_weight_per_channel. rewrite Hd, E1. cbn [result_bind].
  rewrite E2. cbn [lift result_bind].
  rewrite (rows_bind (λ row value, code_i8 (F32.div value (row_scale (absmax row)))) F32.zero) by lia.
  fold channel_code. change ((λ i, code_i8 (F32.div (default F32.zero (w !! i)) (row_scale (absmax (take inf (drop (i / inf * inf) w))))))
    <$> seq 0 (out * inf)) with channel_codes.
  unfold qt_new. assert (Hl : (length channel_codes =? nprod [out; inf]) = true).
  { unfold channel_codes. rewrite length_fmap, length_seq. cbn. apply Nat.eqb_eq. lia. }
  rewrite Hl. cbn [result_bind]. rewrite rows_of_seq, <- list_fmap_compose.
  change ((λ row, row_scale (absmax row)) ∘ (λ k, take inf (drop (k * inf) w)) <$> seq 0 out) with channel_scales.
  by rewrite E3.
Qed.

(** The scale tensor multiplies each row by its channel's scale. *)
Lemma dequantize_channels (st : T) : t_dims st = [out] → t_dtype st = T_F32 → f32_values st = Ok channel_scales →
  ∃ t, qt_dequantize (mkQuantTensor channel_codes [out; inf]) st None T_F32 = Ok t ∧ t_dims t = [out; inf]
    ∧ f32_values t = Ok ((λ i, F32.mul (F32.of_Z (channel_code i)) (channel_scale (i / inf))) <$> seq 0 (out * inf)).
Proof using LawfulTensors0.
  intros Hd Ht Hv. unfold qt_dequantize. cbn [qt_data qt_shape].
  destruct (from_f32_ok (F32.of_Z <$> channel_codes) [out; inf]) as (qf & E1 & D1 & Y1 & V1).
  { unfold channel_codes. rewrite !length_fmap, length_seq. cbn. lia. }
  rewrite E1. cbn [result_bind]. unfold row_factor. rewrite <- Ht, to_same_dtype. cbn [result_bind]. rewrite Hd.
  assert (Es : ∀ X : result T string, (match out with 1 => Ok st | _ => X end) = if decide (out = 1) then Ok st else X) by (by destruct out as [|[|]]).
  rewrite Es. destruct (decide (out = 1)) as [Ho|Ho].
  - assert (Hv1 : f32_values st = Ok [channel_scale 0]) by (rewrite Hv; unfold channel_scales; by rewrite Ho).
    assert (Hd1 : t_dims st = [1]) by (by rewrite Hd, Ho).
    cbn [result_bind]. destruct (scalar_mul_ok qf st _ (channel_scale 0) Y1 Ht Hd1 V1 Hv1) as (t & E & Dt & Yt & Vt).
    rewrite E. cbn [result_bind]. rewrite Ht, <- Yt, to_same_dtype. exists t. split; [done |]. split; [congruence |].
    rewrite Vt. unfold channel_codes. rewrite <- !list_fmap_compose, Ho. f_equal. apply list_fmap_ext. intros k i Hi.
    apply lookup_seq in Hi as [-> Hi]. cbn [compose]. by rewrite Nat.div_small by lia.
  - destruct (reshape_ok st _ [out; 1] Ht Hv) as (col & E2 & D2 & Y2 & V2); [rewrite Hd; done |].
    rewrite Nat.eqb_refl, E2. cbn [result_bind].
    destruct (column_mul_ok qf col _ _ out inf Y1 Y2 D1 D2 V1 V2) as (t & E & Dt & Yt & Vt).
    rewrite E. cbn [result_bind]. rewrite Ht, <- Yt, to_same_dtype. exists t. split; [done |]. split; [done |].
    rewrite Vt. f_equal. apply list_eq. intros i. rewrite list_lookup_imap. unfold channel_codes, channel_scales.
    rewrite !list_lookup_fmap. destruct (decide (i < out * inf)) as [Hi|Hi].
    + assert (Hq : i / inf < out) by (apply Nat.Div0.div_lt_upper_bound; lia).
      rewrite !(lookup_seq_lt 0 (out * inf)), (lookup_seq_lt 0 out) by done. done.
    + by rewrite (lookup_ge_None_2 (seq 0 (out * inf))) by (rewrite length_seq; lia).
Qed.

End per_channel.

(** The INT8 weight round trip.  A rank-2 weight is always quantized: the codes
    are in [-127, 127], one scale per output channel; the layer built from the
    result is accepted exactly when every scale is finite and positive, and it
    dequantizes to code times channel scale, in the weight's own order. *)
Theorem int8_round_trip {T} `{!TensorLib T, !LawfulTensors T} (weight : T) w out inf :
  f32_values weight = Ok w → t_dims weight = [out; inf] →
  ∃ q st, quantize_weight_per_channel weight = Ok (q, st)
    ∧ qt_shape q = [out; inf] ∧ qt_data q = channel_codes w out inf ∧ code_row (qt_data q)
    ∧ match int8_new q st None true "channel" with
      | Ok l => scales_accepted (channel_scales w out inf) = true
          ∧ ∃ t, qt_dequantize (i8_qweight l) (i8_scale l) (i8_zero_point l) T_F32 = Ok t ∧ t_dims t = [out; inf]
            ∧ f32_values t = Ok ((λ i, F32.mul (F32.of_Z (channel_code w inf i)) (channel_scale w inf (i / inf))) <$> seq 0 (out * inf))
      | Err e => e = QScaleValues ∧ scales_accepted (channel_scales w out inf) = false
      end.
Proof.
  intros Hv Hd. destruct (quantize_weight_spec w out inf weight Hv Hd) as (st & Eq & Ds & Ys & Vs).
  eexists _, st. split; [exact Eq |]. cbn [qt_shape qt_data]. split_and!; [done | done | apply channel_code_row |].
  unfold int8_new. cbn [qt_shape]. rewrite Vs. cbn [lift result_bind String.eqb Ascii.eqb Bool.eqb orb].
  unfold scales_accepted. destruct (existsb Mxfp.bad_scale _) eqn:Eb; cbn [negb].
  - split; [done |]. apply not_true_is_false. rewrite forallb_forall. intros Hall.
    apply existsb_exists in Eb as (x & Hx & Hbad). specialize (Hall x Hx). by rewrite Hbad in Hall.
  - assert (Hl : (length (channel_scales w out inf) =? out) = true)
      by (unfold channel_scales; rewrite length_fmap, length_seq; apply Nat.eqb_refl).
    rewrite Hl. cbn [orb negb andb result_bind]. split; [by apply forallb_negb_existsb |].
    cbn [i8_qweight i8_scale i8_zero_point]. exact (dequantize_channels w out inf st Ds Ys Vs).
Qed.

(** ** Concrete inputs *)
#[local] Existing Instance host_tensors.
#[local] Existing Instance host_lawful.

Lemma w8a8_exact_witness :
  w8a8_matmul_reference_f32 (F32.of_Z <$> [127; -254; 127; 0]%Z) 2 2 [2; -4; 8; 3]%Z [F32.one; F32.two] 2
  = Some (F32.of_Z <$> [1272; 524; 254; 2032]%Z).
Proof.
  destruct (w8a8_exact (F32.of_Z <$> [127; -254; 127; 0]%Z) 2 2 [2; -4; 8; 3]%Z [F32.one; F32.two] 2) as [_ ->];
    [cbn; lia | cbn; lia | cbn; lia | | lia | vm_compute; reflexivity].
  intros a Ha. repeat (apply elem_of_cons in Ha as [-> | Ha]; [lia |]). by apply elem_of_nil in Ha.
Defined.

Definition demo_channels : HostTensor := mkHost [2; 2] (HD_f32 (F32.of_Z <$> [127; -254; 0; 0]%Z)).

Lemma int8_round_trip_witness :
  ∃ q st l, quantize_weight_per_channel demo_channels = Ok (q, st) ∧ qt_data q = [64; -127; 0; 0]%Z
    ∧ int8_new q st None true "channel" = Ok l.
Proof.
  destruct (int8_round_trip demo_channels (F32.of_Z <$> [127; -254; 0; 0]%Z) 2 2) as (q & st & E & _ & Ed & _ & H); [reflexivity | reflexivity |].
  exists q, st. destruct (int8_new q st None true "channel") as [l|e]; [| destruct H as [_ H]; vm_compute in H; discriminate H].
  exists l. split; [exact E |]. split; [rewrite Ed; vm_compute; reflexivity | reflexivity].
Defined.

(** The validation counts the scales and does not look at their shape: a row of
    scales is accepted, and every use of the layer then fails. *)
Example row_of_scales_accepted :
  let q := mkQuantTensor [1; 2; 3; 4]%Z [2; 2] in
  let scale := mkHost [1; 2] (HD_f32 [F32.one; F32.two]) in
  ∃ l, int8_new q scale None true "channel" = Ok l
    ∧ (int8_apply l (mkHost [1; 2] (HD_f32 [F32.one; F32.one]))).1
      = Err "unsupported INT8 scale shape [1, 2] for weight shape [2, 2]".
Proof. eexists. split; vm_compute; reflexivity. Qed.

(** A row of subnormal activations: the inverse of the rounded scale is infinite,
    and the smallest value gets the largest code. *)
Example tiny_activations_saturate :
  act_codes [binary_normalize 24 128 1 (-149) false; F32.zero] 2 0 = [127; 0]%Z.
Proof. vm_compute. reflexivity. Qed.
