(* ===== verification/QuantMethod.v ===== *)
(** * Weight formats of a checkpoint (rllm-quant/src/schema.rs, method.rs, unquant.rs, gguf.rs)

    The quantization schema a checkpoint declares, the choice of a factory, and
    the factories: each takes a layer's tensors out of the loaded maps and
    builds the layer.  GGUF tensors
    and their matrix product are parameters.  The main theorem: a factory reads
    and removes only the names of its own layer, so layers load in any order. *)
From S2P Require Import Prelude F32 Json CoreTypes CpuRef Tensors Mxfp Nvfp Int8.
#[local] Open Scope string_scope.
#[local] Open Scope list_scope.
#[local] Open Scope nat_scope.
#[local] Open Scope rllm_scope.

(** ** The schema (schema.rs) *)

Record QuantSchema : Type := mkQuantSchema {
  qs_quant_method : option string;
  qs_format : option string;
  qs_weight_num_bits : option N;
  qs_weight_strategy : option string;
  qs_weight_symmetric : option bool;
  qs_ignore : list string;
}.

(** [find_map] over the groups. *)
Fixpoint find_weights (groups : list (string * Json)) : option Json :=
  match groups with
  | [] => None
  | (_, group) :: groups => match json_get group "weights" with Some w => Some w | None => find_weights groups end
  end.

(** [v.get(key).and_then(read)] *)
Definition get_as {A} (read : Json → option A) (v : Json) (key : string) : option A :=
  match json_get v key with Some x => read x | None => None end.

Definition first_weights_config (value : Json) : option Json :=
  match get_as json_object value "config_groups" ≫= find_weights with
  | Some w => Some w
  | None => json_get value "weights"
  end.

(** [filter_map(Value::as_str)] *)
Fixpoint strings_of (l : list Json) : list string :=
  match l with
  | [] => []
  | v :: l => match json_str v with Some s => s :: strings_of l | None => strings_of l end
  end.

Definition from_hf_value (value : Json) : QuantSchema :=
  let from_weights {A} (read : Json → option A) key :=
    match first_weights_config value with Some w => get_as read w key | None => None end in
  mkQuantSchema
    (get_as json_str value "quant_method")
    (get_as json_str value "format")
    (from_weights json_u64 "num_bits")
    (from_weights json_str "strategy")
    (from_weights json_bool "symmetric")
    (match get_as json_array value "ignore" with Some l => strings_of l | None => [] end).

Definition opt_is (o : option string) (P : string → bool) : bool := match o with Some s => P s | None => false end.

Definition is_compressed_tensors_int8 (s : QuantSchema) : bool :=
  opt_is (qs_quant_method s) (λ m, String.eqb (map_string ascii_lowercase m) "compressed-tensors")
  || opt_is (qs_format s) (String.eqb "int-quantized").

Definition known_strategy (strategy : string) : bool := String.eqb strategy "channel" || String.eqb strategy "tensor".

Definition is_int8_weight_only (s : QuantSchema) : bool :=
  is_compressed_tensors_int8 s && (default 8 (qs_weight_num_bits s) =? 8)%N
  && match qs_weight_strategy s with Some strategy => known_strategy strategy | None => true end.

Definition unsupported_int8_strategy (s : QuantSchema) : option string :=
  if negb (is_compressed_tensors_int8 s) || negb (default 8 (qs_weight_num_bits s) =? 8)%N then None
  else match qs_weight_strategy s with
       | Some strategy => if known_strategy strategy then None else Some strategy
       | None => None
       end.

Definition to_core_config (s : QuantSchema) : option QuantizationConfig :=
  if is_int8_weight_only s then Some (mkQuantizationConfig QK_Int8 None (Some 8%N)) else None.

(** ** Names

    A name without a dot after its last one determines what precedes it. *)
Definition dot_char : Ascii.ascii := Ascii.ascii_of_nat 46.

Fixpoint has_dot (s : string) : bool :=
  match s with EmptyString => false | String c s => Ascii.eqb c dot_char || has_dot s end.

Lemma has_dot_app p s : has_dot (p +:+ String dot_char s) = true.
Proof.
  induction p as [|c p IH]; [done |].
  change (Ascii.eqb c dot_char || has_dot (p +:+ String dot_char s) = true). rewrite IH. apply orb_true_r.
Qed.

Lemma last_dot p p' a b :
  has_dot a = false → has_dot b = false → p +:+ String dot_char a = p' +:+ String dot_char b → p = p'.
Proof.
  intros Ha Hb. revert p'. induction p as [|c p IH]; intros [|c' p'] E; [done | | |].
  - injection E as _ E. rewrite E in Ha. by rewrite (has_dot_app p' b) in Ha.
  - injection E as _ E. rewrite <- E in Hb. by rewrite (has_dot_app p a) in Hb.
  - injection E as -> E. f_equal. by apply IH.
Qed.

(** ** Factories (method.rs) *)
Inductive QuantFactory : Type :=
  | UnquantizedFactory
  | Int8WeightOnlyFactory (ignore : list string) (strict symmetric : bool) (strategy : string)
  | MxfpWeightOnlyFactory (bits : N) (group_size : nat)
  | NvfpWeightOnlyFactory (group_size : nat)
  | GgufMethodFactory.

Definition kv_cache_dtype (f : QuantFactory) : DType :=
  match f with Int8WeightOnlyFactory _ _ _ _ => DT_INT8 | _ => DT_F16 end.

Definition factory_from_config (config : option QuantizationConfig) (checkpoint_schema : option QuantSchema) :
    result QuantFactory QError :=
  let by_config :=
    match config with
    | None => Ok UnquantizedFactory
    | Some config =>
        match qc_kind config with
        | QK_None | QK_GPTQ | QK_AWQ => Ok UnquantizedFactory
        | QK_Int8 | QK_CompressedTensors => Ok (Int8WeightOnlyFactory [] false true "channel")
        | QK_MXFP8 => Ok (MxfpWeightOnlyFactory 8 (N.to_nat (default 32%N (qc_group_size config))))
        | QK_MXFP4 => Ok (MxfpWeightOnlyFactory 4 (N.to_nat (default 32%N (qc_group_size config))))
        | QK_NVFP4 => Ok (NvfpWeightOnlyFactory (N.to_nat (default 16%N (qc_group_size config))))
        | QK_Gguf => Ok GgufMethodFactory
        | other => Err (QKind other)
        end
    end in
  match checkpoint_schema with
  | None => by_config
  | Some schema =>
      if is_int8_weight_only schema then
        Ok (Int8WeightOnlyFactory (qs_ignore schema) true (default true (qs_weight_symmetric schema))
              (default "channel" (qs_weight_strategy schema)))
      else match unsupported_int8_strategy schema with
           | Some strategy => Err (QStrategy strategy)
           | None => if is_compressed_tensors_int8 schema then Err QCompressed else by_config
           end
  end.

Section factories.
Context {T G Q : Type} `{!TensorLib T}.
(** A GGUF tensor's shape, its product operator, and the float functions. *)
Context (g_dims : G → list nat) (from_arc : G → result Q string).
Context (log2 exp2 : f32 → f32) (powi : f32 → Z → f32) (f8_from_f32 : f32 → N) (f8_from_bits : N → f32).

Record WeightSource : Type := mkWeightSource {
  weights : gmap string T;
  quantized : gmap string QuantTensor;
  gguf_weights : option (gmap string G);
}.

Definition source_new (weights : gmap string T) (quantized : gmap string QuantTensor) : WeightSource :=
  mkWeightSource weights quantized None.
Definition with_gguf (s : WeightSource) (g : gmap string G) : WeightSource :=
  mkWeightSource (weights s) (quantized s) (Some g).

(** A step of a factory: it can panic ([None]), fail, and take tensors out. *)
Definition Load (A : Type) : Type := WeightSource → option (result A QError * WeightSource).
Definition l_ret {A} (a : A) : Load A := λ s, Some (Ok a, s).
Definition l_fail {A} (e : QError) : Load A := λ s, Some (Err e, s).
Definition l_panic {A} : Load A := λ _, None.
Definition l_bind {A B} (m : Load A) (k : A → Load B) : Load B := λ s,
  match m s with
  | None => None
  | Some (Err e, s) => Some (Err e, s)
  | Some (Ok a, s) => k a s
  end.
Definition l_try {A} (r : result A QError) : Load A := match r with Ok a => l_ret a | Err e => l_fail e end.

Definition remove_tensor (name : string) : Load T := λ s,
  match weights s !! name with
  | Some t => Some (Ok t, mkWeightSource (delete name (weights s)) (quantized s) (gguf_weights s))
  | None => Some (Err (QMissing name), s)
  end.
Definition remove_quant_tensor (name : string) : Load QuantTensor := λ s,
  match quantized s !! name with
  | Some t => Some (Ok t, mkWeightSource (weights s) (delete name (quantized s)) (gguf_weights s))
  | None => Some (Err (QMissing name), s)
  end.
Definition remove_gguf_tensor (name : string) : Load G := λ s,
  match gguf_weights s ≫= lookup name with
  | Some t => Some (Ok t, mkWeightSource (weights s) (quantized s) (delete name <$> gguf_weights s))
  | None => Some (Err (QMissing name), s)
  end.
Definition has_tensor (name : string) : Load bool := λ s, Some (Ok (bool_decide (is_Some (weights s !! name))), s).
Definition has_quant_tensor (name : string) : Load bool := λ s, Some (Ok (bool_decide (is_Some (quantized s !! name))), s).
Definition has_gguf_tensor (name : string) : Load bool := λ s, Some (Ok (bool_decide (is_Some (gguf_weights s ≫= lookup name))), s).

(** The layers behind [Box<dyn LinearMethod>]. *)
Inductive Linear : Type :=
  | LUnquantized (weight : T) (in_features out_features : nat)
  | LInt8 (l : Int8Linear T)
  | LMxfp (l : Mxfp.MxfpLinear T)
  | LNvfp (l : Nvfp.NvfpLinear T)
  | LGguf (qmatmul : Q) (in_features out_features : nat).

Definition linear_in_features (l : Linear) : nat :=
  match l with
  | LUnquantized _ i _ | LGguf _ i _ => i
  | LInt8 l => i8_in_features l
  | LMxfp l => Mxfp.in_features l
  | LNvfp l => Nvfp.in_features l
  end.
Definition linear_out_features (l : Linear) : nat :=
  match l with
  | LUnquantized _ _ o | LGguf _ _ o => o
  | LInt8 l => i8_out_features l
  | LMxfp l => Mxfp.out_features l
  | LNvfp l => Nvfp.out_features l
  end.
Definition linear_weight (l : Linear) : option T :=
  match l with LUnquantized w _ _ => Some w | LNvfp l => Nvfp.weight l | _ => None end.
Definition linear_is_quantized (l : Linear) : bool := match l with LUnquantized _ _ _ => false | _ => true end.

(** [UnquantizedLinear::new]: the last two dimensions; fewer panic. *)
Definition unquantized_new (weight : T) : Load Linear :=
  match rev (t_dims weight) with
  | in_features :: out_features :: _ => l_ret (LUnquantized weight in_features out_features)
  | _ => l_panic
  end.

Definition unquantized_apply (weight : T) (in_features out_features : nat) (x : T) : result T TensorError :=
  linear_rows x weight in_features out_features.

Definition build_unquantized (prefix : string) : Load Linear :=
  l_bind (remove_tensor (prefix +:+ ".weight")) unquantized_new.

Definition build_gguf (prefix : string) : Load Linear :=
  l_bind (remove_gguf_tensor (prefix +:+ ".weight")) (λ qtensor,
  match g_dims qtensor with
  | out_features :: in_features :: _ =>
      l_bind (l_try (lift (from_arc qtensor))) (λ qmatmul, l_ret (LGguf qmatmul in_features out_features))
  | _ => l_panic
  end).

(** [str::ends_with] *)
Definition str_ends_with (s suffix : string) : bool :=
  bool_decide (String.list_ascii_of_string suffix `suffix_of` String.list_ascii_of_string s).
Definition is_ignored (ignore : list string) (prefix : string) : bool :=
  existsb (λ name, String.eqb prefix name || str_ends_with prefix ("." +:+ name)) ignore.

(** The first of two names that is loaded, else the second. *)
Definition pick_name (first second : string) : Load string :=
  l_bind (has_tensor first) (λ b, l_ret (if b : bool then first else second)).

Definition build_int8 (ignore : list string) (strict symmetric : bool) (strategy prefix : string) : Load Linear :=
  let weight_name := prefix +:+ ".weight" in
  if is_ignored ignore prefix then l_bind (remove_tensor weight_name) unquantized_new
  else
    l_bind (pick_name (prefix +:+ ".weight_scale") (prefix +:+ ".scale")) (λ scale_name,
    l_bind (pick_name (prefix +:+ ".weight_zero_point") (prefix +:+ ".zero_point")) (λ zero_point_name,
    l_bind (has_quant_tensor weight_name) (λ has_quant,
    if negb has_quant then
      if strict then l_fail (QNoInt8Tensor weight_name)
      else
        l_bind (remove_tensor weight_name) (λ weight,
        l_bind (l_try (quantize_weight_per_channel weight)) (λ '(qweight, scale),
        l_bind (l_try (int8_new qweight scale None true "channel")) (λ l, l_ret (LInt8 l))))
    else
      l_bind (remove_quant_tensor weight_name) (λ qweight,
      l_bind (remove_tensor scale_name) (λ scale,
      l_bind (if symmetric then l_ret None
              else l_bind (has_tensor zero_point_name) (λ has_zero_point,
                   if has_zero_point : bool then l_bind (remove_tensor zero_point_name) (λ zp, l_ret (Some zp))
                   else l_ret None)) (λ zero_point,
      l_bind (l_try (int8_new qweight scale zero_point symmetric strategy)) (λ l, l_ret (LInt8 l)))))))).

(** A packed weight from a raw tensor, [data as u8]. *)
Definition raw_bytes (q : QuantTensor) : result T QError :=
  lift (t_from_u8 (i8_as_u8 <$> qt_data q) (qt_shape q)).

(** [Option<Result>] of an online quantizer, as a step. *)
Definition l_online {A} (r : option (result A QError)) : Load A :=
  match r with Some r => l_try r | None => l_panic end.

Definition build_mxfp (bits : N) (group_size : nat) (prefix : string) : Load Linear :=
  let weight_name := prefix +:+ ".weight" in
  let scale_name := prefix +:+ ".weight_scale" in
  let finish qweight scales := l_bind (l_try (Mxfp.new qweight scales bits group_size)) (λ l, l_ret (LMxfp l)) in
  l_bind (has_tensor weight_name) (λ has_weight,
  if has_weight : bool then
    l_bind (remove_tensor weight_name) (λ weight,
    l_bind (has_tensor scale_name) (λ has_scale,
    if has_scale : bool then
      l_bind (remove_tensor scale_name) (λ scale,
      l_bind (l_try (Mxfp.decode_e8m0_scales powi scale)) (λ scales,
      l_bind (if (bits =? 8)%N && bool_decide (t_dtype weight = T_F8E4M3)
              then l_try (lift (flat <-? t_flatten_all weight;
                                bytes <-? t_to_vec1_f8 flat;
                                t_from_u8 bytes (t_dims weight)))
              else l_ret weight) (λ packed, finish packed scales)))
    else
      l_bind (l_online (if (bits =? 8)%N then Mxfp.quantize_mxfp8_cpu log2 exp2 f8_from_f32 weight group_size
                        else Mxfp.quantize_mxfp4_cpu log2 exp2 weight group_size)) (λ '(qweight, scales),
      finish qweight scales)))
  else
    l_bind (has_quant_tensor weight_name) (λ has_quant,
    if has_quant : bool then
      l_bind (remove_quant_tensor weight_name) (λ q,
      l_bind (remove_tensor scale_name) (λ scale,
      l_bind (l_try (Mxfp.decode_e8m0_scales powi scale)) (λ scales,
      l_bind (l_try (raw_bytes q)) (λ qweight, finish qweight scales))))
    else l_fail (QMissing prefix))).

Definition build_nvfp (group_size : nat) (prefix : string) : Load Linear :=
  let weight_name := prefix +:+ ".weight" in
  let scale_name := prefix +:+ ".weight_scale" in
  let finish qweight scales := l_bind (l_try (Nvfp.new qweight scales group_size)) (λ l, l_ret (LNvfp l)) in
  l_bind (has_tensor weight_name) (λ has_weight,
  if has_weight : bool then
    l_bind (remove_tensor weight_name) (λ weight,
    l_bind (has_tensor scale_name) (λ has_scale,
    if has_scale : bool then l_bind (remove_tensor scale_name) (λ scales, finish weight scales)
    else l_bind (l_online (Nvfp.quantize_nvfp4_cpu weight group_size)) (λ '(qweight, scales), finish qweight scales)))
  else
    l_bind (has_quant_tensor weight_name) (λ has_quant,
    if has_quant : bool then
      l_bind (remove_quant_tensor weight_name) (λ q,
      l_bind (remove_tensor scale_name) (λ scales,
      l_bind (l_try (raw_bytes q)) (λ qweight, finish qweight scales)))
    else l_fail (QMissing prefix))).

(** [QuantMethodFactory::build_linear]. *)
Definition build_linear (f : QuantFactory) (prefix : string) : Load Linear :=
  match f with
  | UnquantizedFactory => build_unquantized prefix
  | Int8WeightOnlyFactory ignore strict symmetric strategy => build_int8 ignore strict symmetric strategy prefix
  | MxfpWeightOnlyFactory bits group_size => build_mxfp bits group_size prefix
  | NvfpWeightOnlyFactory group_size => build_nvfp group_size prefix
  | GgufMethodFactory => build_gguf prefix
  end.

(** ** Locality *)
Definition gguf_at (n : string) (s : WeightSource) : option G := gguf_weights s ≫= lookup n.

(** Two sources with the same tensors under a name. *)
Definition same_at (n : string) (s s' : WeightSource) : Prop :=
  weights s !! n = weights s' !! n ∧ quantized s !! n = quantized s' !! n ∧ gguf_at n s = gguf_at n s'.
Definition agree (N : list string) (s s' : WeightSource) : Prop := ∀ n, n ∈ N → same_at n s s'.

(** A step that depends on the tensors named in [N] only, and changes no others. *)
Record local_step {A} (N : list string) (m : Load A) : Prop := {
  ls_reads : ∀ s s', agree N s s' →
    match m s, m s' with
    | None, None => True
    | Some (r, t), Some (r', t') => r = r' ∧ agree N t t'
    | _, _ => False
    end;
  ls_frame : ∀ s r t, m s = Some (r, t) →
    (∀ n, n ∉ N → same_at n s t) ∧ (is_Some (gguf_weights s) ↔ is_Some (gguf_weights t));
}.

Lemma same_at_refl n s : same_at n s s.
Proof. done. Qed.

Lemma same_at_trans n s1 s2 s3 : same_at n s1 s2 → same_at n s2 s3 → same_at n s1 s3.
Proof. intros (?&?&?) (?&?&?). split_and!; congruence. Qed.

Lemma same_at_sym n s s' : same_at n s s' → same_at n s' s.
Proof. intros (?&?&?). by split_and!. Qed.

(** A step that leaves the source as it is. *)
Lemma local_pure {A} N (r : result A QError) : local_step N (λ s, Some (r, s)).
Proof. split; [done |]. intros s r' t [= _ <-]. done. Qed.

Lemma local_panic {A} N : local_step N (l_panic (A := A)).
Proof. split; [done | intros ? ? ? [=]]. Qed.

Lemma local_try {A} N (r : result A QError) : local_step N (l_try r).
Proof. destruct r; apply local_pure. Qed.

Lemma local_online {A} N (r : option (result A QError)) : local_step N (l_online r).
Proof. destruct r; [apply local_try | apply local_panic]. Qed.

Lemma local_bind {A B} N (m : Load A) (k : A → Load B) :
  local_step N m → (∀ a, local_step N (k a)) → local_step N (l_bind m k).
Proof.
  intros [R1 F1] Hk. split.
  - intros s s' Hs. specialize (R1 s s' Hs). unfold l_bind.
    destruct (m s) as [[r t]|], (m s') as [[r' t']|]; try done. destruct R1 as [<- Ht].
    destruct r as [a|e]; [by apply (ls_reads _ _ (Hk a)) | done].
  - intros s r t. unfold l_bind. destruct (m s) as [[[a|e] t1]|] eqn:E; [| intros [= _ <-]; by apply (F1 s (Err e)) | done].
    intros Ht. destruct (F1 _ _ _ E) as [H1 G1], (ls_frame _ _ (Hk a) _ _ _ Ht) as [H2 G2].
    split; [intros n Hn; eapply same_at_trans; eauto | tauto].
Qed.

Lemma local_has_tensor N n : n ∈ N → local_step N (has_tensor n).
Proof.
  intros Hn. split; [| intros s r t [= _ <-]; done]. intros s s' Hs. unfold has_tensor. by destruct (Hs n Hn) as (-> & _).
Qed.

Lemma local_has_quant N n : n ∈ N → local_step N (has_quant_tensor n).
Proof.
  intros Hn. split; [| intros s r t [= _ <-]; done]. intros s s' Hs. unfold has_quant_tensor. by destruct (Hs n Hn) as (_ & -> & _).
Qed.

Lemma local_remove_tensor N n : n ∈ N → local_step N (remove_tensor n).
Proof.
  intros Hn. split; unfold remove_tensor.
  - intros s s' Hs. destruct (Hs n Hn) as (-> & _). destruct (weights s' !! n); [| done]. split; [done |].
    intros k Hk. destruct (Hs k Hk) as (E1 & E2 & E3). split_and!; cbn; [| done | done].
    destruct (decide (k = n)) as [->|]; [by rewrite !lookup_delete_eq | by rewrite !lookup_delete_ne].
  - intros s r t. destruct (weights s !! n); intros [= _ <-]; [| done]. split; [| done].
    intros k Hk. split_and!; cbn; [| done | done]. rewrite lookup_delete_ne; [done | by intros ->].
Qed.

Lemma local_remove_quant N n : n ∈ N → local_step N (remove_quant_tensor n).
Proof.
  intros Hn. split; unfold remove_quant_tensor.
  - intros s s' Hs. destruct (Hs n Hn) as (_ & -> & _). destruct (quantized s' !! n); [| done]. split; [done |].
    intros k Hk. destruct (Hs k Hk) as (E1 & E2 & E3). split_and!; cbn; [done | | done].
    destruct (decide (k = n)) as [->|]; [by rewrite !lookup_delete_eq | by rewrite !lookup_delete_ne].
  - intros s r t. destruct (quantized s !! n); intros [= _ <-]; [| done]. split; [| done].
    intros k Hk. split_and!; cbn; [done | | done]. rewrite lookup_delete_ne; [done | by intros ->].
Qed.

Lemma local_ext {A} N (m m' : Load A) : (∀ s, m s = m' s) → local_step N m' → local_step N m.
Proof.
  intros E [R F]. split.
  - intros s s' Hs. rewrite !E. by apply R.
  - intros s r t. rewrite E. apply F.
Qed.

Lemma local_pick {A} N n1 n2 (k : string → Load A) :
  n1 ∈ N → local_step N (k n1) → local_step N (k n2) → local_step N (l_bind (pick_name n1 n2) k).
Proof.
  intros Hn H1 H2. apply (local_ext _ _ (l_bind (has_tensor n1) (λ b : bool, k (if b then n1 else n2)))); [done |].
  apply local_bind; [by apply local_has_tensor | by intros []].
Qed.

(** Deleting a name from the optional map. *)
Lemma gguf_at_delete n k s :
  gguf_at k (mkWeightSource (weights s) (quantized s) (delete n <$> gguf_weights s)) = if decide (k = n) then None else gguf_at k s.
Proof.
  unfold gguf_at. cbn. destruct (gguf_weights s) as [g|]; cbn; [| by case_decide].
  case_decide as E; [subst; apply lookup_delete_eq | by apply lookup_delete_ne].
Qed.

Lemma local_remove_gguf N n : n ∈ N → local_step N (remove_gguf_tensor n).
Proof.
  intros Hn. split; unfold remove_gguf_tensor; fold gguf_at.
  - intros s s' Hs. destruct (Hs n Hn) as (_ & _ & E). unfold gguf_at in E. rewrite E.
    destruct (gguf_weights s' ≫= lookup n); [| done]. split; [done |].
    intros k Hk. destruct (Hs k Hk) as (E1 & E2 & E3). split_and!; [done | done |]. rewrite !gguf_at_delete. by case_decide.
  - intros s r t. destruct (gguf_weights s ≫= lookup n); intros [= _ <-]; [| done].
    split; [| cbn; by rewrite fmap_is_Some]. intros k Hk. split_and!; [done | done |].
    rewrite gguf_at_delete, decide_False by (by intros ->). done.
Qed.

#[local] Ltac own_name Hin := apply Hin; repeat first [by left | right].

(** The names of a layer. *)
Definition own_names (prefix : string) : list string :=
  (λ suffix, prefix +:+ suffix) <$> [".weight"; ".weight_scale"; ".scale"; ".weight_zero_point"; ".zero_point"].

Lemma build_linear_local f prefix : local_step (own_names prefix) (build_linear f prefix).
Proof.
  assert (Hin : ∀ suffix, suffix ∈ [".weight"; ".weight_scale"; ".scale"; ".weight_zero_point"; ".zero_point"] →
    prefix +:+ suffix ∈ own_names prefix) by (intros; by apply list_elem_of_fmap_2).
  assert (Hun : ∀ w, local_step (own_names prefix) (unquantized_new w)).
  { intros w. unfold unquantized_new. destruct (rev (t_dims w)) as [|? [|? ?]]; first [apply local_panic | apply local_pure]. }
  destruct f; unfold build_linear, build_unquantized, build_int8, build_mxfp, build_nvfp, build_gguf.
  all: repeat first
    [ apply local_pure | apply local_panic | apply local_try | apply local_online | apply Hun
    | apply local_pick; [own_name Hin | |] | apply local_bind; [| intros ?]
    | apply local_has_tensor; own_name Hin | apply local_has_quant; own_name Hin
    | apply local_remove_tensor; own_name Hin | apply local_remove_quant; own_name Hin | apply local_remove_gguf; own_name Hin
    | case_match ].
Qed.

Lemma own_names_disjoint p p' n : n ∈ own_names p → n ∈ own_names p' → p = p'.
Proof.
  assert (H : ∀ q, n ∈ own_names q → ∃ a, has_dot a = false ∧ n = q +:+ String dot_char a).
  { intros q (suffix & -> & Hs)%list_elem_of_fmap.
    assert (Hall : Forall (λ x, ∃ a, has_dot a = false ∧ x = String dot_char a)
      [".weight"; ".weight_scale"; ".scale"; ".weight_zero_point"; ".zero_point"])
      by (repeat (apply Forall_cons; split; [eexists; split; [| reflexivity]; reflexivity |]); apply Forall_nil; done).
    rewrite Forall_forall in Hall. destruct (Hall suffix Hs) as (a & Ha & ->). by exists a. }
  intros (a & Ha & ->)%H (b & Hb & E)%H. by apply (last_dot p p' a b).
Qed.

(** Two layers, one after the other. *)
Definition load_two (f : QuantFactory) (p : string) (f' : QuantFactory) (p' : string) (s : WeightSource) :
    option (result Linear QError * result Linear QError * WeightSource) :=
  '(r, s) ← build_linear f p s;
  '(r', s) ← build_linear f' p' s;
  Some (r, r', s).

Lemma same_source s s' : (∀ n, same_at n s s') → (is_Some (gguf_weights s) ↔ is_Some (gguf_weights s')) → s = s'.
Proof.
  intros H Hg. destruct s as [w q g], s' as [w' q' g']. cbn in Hg. f_equal.
  - apply map_eq. intros n. apply (H n).
  - apply map_eq. intros n. apply (H n).
  - destruct g as [g|], g' as [g'|]; [| by destruct Hg as [Hg _]; destruct (Hg ltac:(by eexists)) |
      by destruct Hg as [_ Hg]; destruct (Hg ltac:(by eexists)) | done].
    f_equal. apply map_eq. intros n. apply (H n).
Qed.

(** One side of the exchange: the second layer sees its names as they were. *)
Lemma load_second f p f' p' s r s1 : p ≠ p' → build_linear f p s = Some (r, s1) →
  match build_linear f' p' s, build_linear f' p' s1 with
  | None, None => True
  | Some (r', t), Some (r'', t') => r' = r'' ∧ agree (own_names p') t t'
  | _, _ => False
  end.
Proof.
  intros Hp E. apply (ls_reads _ _ (build_linear_local f' p')). intros n Hn.
  apply (ls_frame _ _ (build_linear_local f p) _ _ _ E). intros Hn'. by apply Hp, (own_names_disjoint p p' n).
Qed.

(** Loading is local.  Whatever their formats, two layers with different prefixes
    load in either order with the same results (layers, errors or a panic) and
    leave the same tensors behind; and loading a layer takes nothing outside its
    own five names. *)
Theorem layers_load_independently f p f' p' s :
  p ≠ p' →
  load_two f p f' p' s = (λ '(r', r, t), (r, r', t)) <$> load_two f' p' f p s
  ∧ ∀ r t n, build_linear f p s = Some (r, t) → n ∉ own_names p →
      weights t !! n = weights s !! n ∧ quantized t !! n = quantized s !! n ∧ gguf_at n t = gguf_at n s.
Proof.
  intros Hp. split.
  2: { intros r t n E Hn. by apply same_at_sym, (ls_frame _ _ (build_linear_local f p) _ _ _ E). }
  unfold load_two.
  destruct (build_linear f p s) as [[r s1]|] eqn:E1; destruct (build_linear f' p' s) as [[r' s1']|] eqn:E1'.
  - pose proof (load_second f p f' p' s r s1 Hp E1) as H. pose proof (load_second f' p' f p s r' s1' (not_eq_sym Hp) E1') as H'.
    rewrite E1' in H. rewrite E1 in H'. cbn [mbind option_bind].
    destruct (build_linear f' p' s1) as [[r2 s2]|] eqn:E2; [| done].
    destruct (build_linear f p s1') as [[r2' s2']|] eqn:E2'; [| done]. destruct H as [<- H], H' as [<- H'].
    cbn. do 2 f_equal.
    destruct (ls_frame _ _ (build_linear_local f p) _ _ _ E1) as [F1 G1], (ls_frame _ _ (build_linear_local f' p') _ _ _ E1') as [F1' G1'].
    destruct (ls_frame _ _ (build_linear_local f' p') _ _ _ E2) as [F2 G2], (ls_frame _ _ (build_linear_local f p) _ _ _ E2') as [F2' G2'].
    apply same_source; [| tauto]. intros n. destruct (decide (n ∈ own_names p)) as [Hn|Hn].
    + eapply same_at_trans; [| by apply H'].
      apply same_at_sym, F2. intros Hn'. by apply Hp, (own_names_disjoint p p' n).
    + destruct (decide (n ∈ own_names p')) as [Hn'|Hn'].
      * eapply same_at_trans; [apply same_at_sym; by apply H | by apply F2'].
      * eapply same_at_trans; [apply same_at_sym; eapply same_at_trans; [by apply F1 | by apply F2] |].
        eapply same_at_trans; [by apply F1' | by apply F2'].
  - pose proof (load_second f p f' p' s r s1 Hp E1) as H. rewrite E1' in H. cbn [mbind option_bind].
    by destruct (build_linear f' p' s1) as [[? ?]|].
  - pose proof (load_second f' p' f p s r' s1' (not_eq_sym Hp) E1') as H. rewrite E1 in H. cbn [mbind option_bind].
    by destruct (build_linear f p s1') as [[? ?]|].
  - done.
Qed.

End factories.

(** The three INT8 outcomes of a compressed-tensors checkpoint: the configuration
    is not consulted. *)
Lemma compressed_schema_decides config s : is_compressed_tensors_int8 s = true →
  factory_from_config config (Some s) =
    if (default 8 (qs_weight_num_bits s) =? 8)%N then
      match qs_weight_strategy s with
      | Some strategy =>
          if known_strategy strategy
          then Ok (Int8WeightOnlyFactory (qs_ignore s) true (default true (qs_weight_symmetric s)) strategy)
          else Err (QStrategy strategy)
      | None => Ok (Int8WeightOnlyFactory (qs_ignore s) true (default true (qs_weight_symmetric s)) "channel")
      end
    else Err QCompressed.
Proof.
  intros H. unfold factory_from_config, is_int8_weight_only, unsupported_int8_strategy. rewrite H. cbn [andb orb negb].
  destruct (default 8 (qs_weight_num_bits s) =? 8)%N; cbn [andb negb]; [| done].
  destruct (qs_weight_strategy s) as [strategy|]; cbn [andb default]; [| done]. by destruct (known_strategy strategy).
Qed.

(** ** Concrete checkpoints *)
Definition demo_config : Json :=
  JObject [("quant_method", JString "compressed-tensors"); ("format", JString "int-quantized");
           ("ignore", JArray [JString "lm_head"]);
           ("config_groups", JObject [("group_0", JObject [("weights",
              JObject [("num_bits", JNumber (PosInt 8)); ("strategy", JString "channel"); ("symmetric", JBool true)])])])].

Example demo_config_factory :
  factory_from_config None (Some (from_hf_value demo_config)) = Ok (Int8WeightOnlyFactory ["lm_head"] true true "channel").
Proof. vm_compute. reflexivity. Qed.

#[local] Existing Instance host_tensors.

Definition demo_source : WeightSource (T := HostTensor) (G := unit) :=
  source_new {[ "mlp.up.weight" := demo_weight; "lm_head.weight" := demo_weight ]} ∅.

Lemma layers_load_independently_witness :
  let load := load_two (Q := unit) (λ _, []) (λ _, Ok ()) id id (λ x _, x) (λ _, 0%N) in
  ∃ l l' t, load (NvfpWeightOnlyFactory 16) "mlp.up" UnquantizedFactory "lm_head" demo_source = Some (Ok l, Ok l', t)
    ∧ load UnquantizedFactory "lm_head" (NvfpWeightOnlyFactory 16) "mlp.up" demo_source = Some (Ok l', Ok l, t)
    ∧ linear_in_features l = 16 ∧ linear_is_quantized l' = false ∧ weights t = ∅.
Proof.
  intros load.
  destruct (layers_load_independently (Q := unit) (λ _, []) (λ _, Ok ()) id id (λ x _, x) (λ _, 0%N)
    (NvfpWeightOnlyFactory 16) "mlp.up" UnquantizedFactory "lm_head" demo_source ltac:(discriminate)) as [H _].
  fold load in H. rewrite H.
  assert (E : ∃ l l' t, load UnquantizedFactory "lm_head" (NvfpWeightOnlyFactory 16) "mlp.up" demo_source = Some (Ok l', Ok l, t)
    ∧ linear_in_features l = 16 ∧ linear_is_quantized l' = false ∧ weights t = ∅).
  { destruct (load UnquantizedFactory "lm_head" (NvfpWeightOnlyFactory 16) "mlp.up" demo_source) as [[[[l'|e] [l|e2]] t]|] eqn:E;
      vm_compute in E; try discriminate E. injection E as <- <- <-. eexists _, _, _. split; [done |]. split_and!; vm_compute; reflexivity. }
  destruct E as (l & l' & t & E & R). exists l, l', t. rewrite E. split; [reflexivity |]. split; [reflexivity | exact R].
Defined.
