(* ===== verification/Gptq.v ===== *)
(** * GPTQ quantization (rllm-model/src/gptq.rs)

    Calibration, the damped and permuted Hessian, its Cholesky factors, the
    column loop that quantizes and spreads the error, and the packing of codes
    and zero points, with the reference dequantizer of the tests.  Arithmetic is
    IEEE binary64; a panic is [None]. *)
From S2P Require Import Prelude F32 CoreTypes CpuRef Tensors Sorting Int8.
#[local] Open Scope string_scope.
#[local] Open Scope list_scope.
#[local] Open Scope nat_scope.
#[local] Open Scope rllm_scope.

(** [1e-8] and [1e-12]. *)
Definition f64_1em8 : f64 := binary_normalize 53 1024 6044629098073146 (-79) false.
Definition f64_1em12 : f64 := binary_normalize 53 1024 4951760157141521 (-92) false.

Definition GPTQ_SUPPORTED_BITS : nat := 4.
Definition PACK_FACTOR : nat := 8.

Record GptqConfig : Type := mkGptqConfig {
  gq_bits : nat;
  gq_group_size : nat;
  gq_damp_percent : f32;
  gq_act_order : bool;
}.

Inductive GptqError : Type :=
  | GBits (bits : nat)
  | GGroupSize
  | GDampPercent
  | GEmptyDims
  | GInFeatures (n : nat)
  | GOutFeatures (n : nat)
  | GWeights (got want : nat)
  | GSampleWidth (want got : nat)
  | GCalibrationWidth (want got : nat)
  | GNoSamples
  | GDamping
  | GNotPositive
  | GEmptyGroup
  | GZerosWidth (n : nat).

Definition gptq_config_validate (c : GptqConfig) : result unit GptqError :=
  require gq_bits c =? GPTQ_SUPPORTED_BITS else GBits (gq_bits c);
  require negb (gq_group_size c =? 0) else GGroupSize;
  require F32.leb F32.zero (gq_damp_percent c) && F32.ltb (gq_damp_percent c) F32.one else GDampPercent;
  Ok ().

Definition GptqConfig_default : GptqConfig :=
  mkGptqConfig GPTQ_SUPPORTED_BITS 128 (binary_normalize 24 128 10737418 (-30) false) false.

(** ** Calibration *)
Record GptqCalibration : Type := mkCalibration {
  cal_in_features : nat;
  cal_hessian : list f64;
  cal_nsamples : nat;
}.

Definition calibration_new (in_features : nat) : GptqCalibration :=
  mkCalibration in_features (replicate (in_features * in_features) F64.zero) 0.

(** The outer product of a sample added to the Hessian. *)
Definition add_outer (n : nat) (sample : list f32) (hessian : list f64) : option (list f64) :=
  for_each (λ row hessian,
    a ← sample !! row;
    for_each (λ col hessian,
      b ← sample !! col;
      h ← hessian !! (row * n + col);
      vec_set (row * n + col) (F64.add h (F64.mul (F64.of_f32 a) (F64.of_f32 b))) hessian) (seq 0 n) hessian)
    (seq 0 n) hessian.

Definition observe_sample (sample : list f32) (c : GptqCalibration) : option (result unit GptqError * GptqCalibration) :=
  let n := cal_in_features c in
  if negb (length sample =? n) then Some (Err (GSampleWidth n (length sample)), c)
  else
    hessian ← add_outer n sample (cal_hessian c);
    Some (Ok (), mkCalibration n hessian (S (cal_nsamples c))).

Fixpoint observe (batch : list (list f32)) (c : GptqCalibration) : option (result unit GptqError * GptqCalibration) :=
  match batch with
  | [] => Some (Ok (), c)
  | sample :: batch =>
      '(r, c) ← observe_sample sample c;
      match r with Err e => Some (Err e, c) | Ok _ => observe batch c end
  end.

Definition mean_diag (c : GptqCalibration) : option f64 :=
  let n := cal_in_features c in
  if n =? 0 then Some F64.zero
  else
    diag ← mapM (λ i, cal_hessian c !! (i * n + i)) (seq 0 n);
    Some (F64.div (F64.sum diag) (F64.of_N (N.of_nat n))).

(** ** The Hessian and its factors *)
(** The comparator calls numbers that do not compare equal, which is no order when a
    diagonal element is NaN; [sort_by] promises nothing then and may panic, which
    is the outcome taken here ([None]). *)
Definition diagonal (c : GptqCalibration) (i : nat) : f64 :=
  default F64.zero (cal_hessian c !! (i * cal_in_features c + i)).
Definition column_order (c : GptqCalibration) (act_order : bool) : option (list nat) :=
  let order := seq 0 (cal_in_features c) in
  if act_order then
    if existsb (λ i, F32.is_nan (diagonal c i)) order then None
    else Some (sort_by (λ a b, negb (bool_decide (F32.cmp_or_eq (diagonal c b) (diagonal c a) = Gt))) order)
  else Some order.

Definition damped_permuted_hessian (c : GptqCalibration) (order : list nat) (damp_percent : f32) :
    option (result (list f64) GptqError) :=
  let n := cal_in_features c in
  h ← for_each (λ perm_row h,
        src_row ← order !! perm_row;
        for_each (λ perm_col h,
          src_col ← order !! perm_col;
          v ← cal_hessian c !! (src_row * n + src_col);
          vec_set (perm_row * n + perm_col) v h) (seq 0 n) h)
      (seq 0 n) (replicate (n * n) F64.zero);
  mean ← mean_diag c;
  let damp := F64.mul mean (F64.of_f32 damp_percent) in
  if negb (F32.is_finite damp) then Some (Err GDamping)
  else
    h ← for_each (λ i h,
          v ← h !! (i * n + i);
          vec_set (i * n + i) (F64.add v (F64.max damp f64_1em8)) h) (seq 0 n) h;
    Some (Ok h).

(** [m[i][j] -= ...] accumulations: a fold over indices that reads. *)
Definition sub_dot (a b : nat → option f64) (ks : list nat) (sum : f64) : option f64 :=
  for_each (λ k sum, x ← a k; y ← b k; Some (F64.sub sum (F64.mul x y))) ks sum.

Definition cholesky_cell (matrix : list f64) (n i j : nat) (l : list f64) : option (result (list f64) GptqError) :=
  sum ← matrix !! (i * n + j);
  sum ← sub_dot (λ k, l !! (i * n + k)) (λ k, l !! (j * n + k)) (seq 0 j) sum;
  if i =? j then
    if F32.leb sum F64.zero || negb (F32.is_finite sum) then Some (Err GNotPositive)
    else ok_r (vec_set (i * n + j) (F64.sqrt sum) l)
  else
    d ← l !! (j * n + j);
    ok_r (vec_set (i * n + j) (F64.div sum d) l).

Definition cholesky (matrix : list f64) (n : nat) : option (result (list f64) GptqError) :=
  for_each_r (λ i, for_each_r (cholesky_cell matrix n i) (seq 0 (S i))) (seq 0 n) (replicate (n * n) F64.zero).

(** One column of the inverse: forward, then backward substitution. *)
Definition invert_column (chol : list f64) (n col : nat) (inv : list f64) : option (list f64) :=
  y ← for_each (λ row y,
        sum ← sub_dot (λ k, chol !! (row * n + k)) (λ k, y !! k) (seq 0 row)
                (if row =? col then F64.of_N 1 else F64.zero);
        d ← chol !! (row * n + row);
        vec_set row (F64.div sum d) y) (seq 0 n) (replicate n F64.zero);
  x ← for_each (λ row x,
        sum ← y !! row;
        sum ← sub_dot (λ k, chol !! (k * n + row)) (λ k, x !! k) (seq (S row) (n - S row)) sum;
        d ← chol !! (row * n + row);
        vec_set row (F64.div sum d) x) (rev (seq 0 n)) (replicate n F64.zero);
  for_each (λ row inv, v ← x !! row; vec_set (row * n + col) v inv) (seq 0 n) inv.

Definition invert_spd (matrix : list f64) (n : nat) : option (result (list f64) GptqError) :=
  bind_r (cholesky matrix n) (λ chol,
  ok_r (for_each (invert_column chol n) (seq 0 n) (replicate (n * n) F64.zero))).

(** ** Columns *)
Record QuantParams : Type := mkQuantParams { qp_scale : f32; qp_zero : N }.
Record QuantizedValue : Type := mkQuantizedValue { qv_q : Z; qv_dequant : f64; qv_error : f64 }.

Definition validate_layer_dims (weights : list f32) (out_features in_features : nat) : result unit GptqError :=
  require negb ((in_features =? 0) || (out_features =? 0)) else GEmptyDims;
  require in_features mod PACK_FACTOR =? 0 else GInFeatures in_features;
  require out_features mod PACK_FACTOR =? 0 else GOutFeatures out_features;
  require length weights =? out_features * in_features else GWeights (length weights) (out_features * in_features);
  Ok ().

Definition make_group_index (in_features group_size : nat) (order : list nat) : option (list N) :=
  if group_size =? 0 then None
  else for_each (λ perm_i g_idx,
         orig_i ← order !! perm_i;
         vec_set orig_i (as_u32 (N.of_nat (perm_i / group_size))) g_idx)
       (seq 0 (length order)) (replicate in_features 0%N).

(** [x as u8] of an [f64] clamped between 1 and 16: the truncation. *)
Definition f64_as_u8 (x : f64) : N := Z.to_N (F32.to_int 0 255 x).

Definition quant_params (group : list f64) (qmax : Z) : result QuantParams GptqError :=
  match group with
  | [] => Err GEmptyGroup
  | _ =>
      let min_v := foldl F64.min F64.infinity group in
      let max_v := foldl F64.max F64.neg_infinity group in
      if F32.ltb (F64.abs (F64.sub max_v min_v)) f64_1em12 then Ok (mkQuantParams F32.one (Z.to_N ((qmax + 2) / 2)))
      else
        let scale := F64.to_f32 (F64.max (F64.div (F64.sub max_v min_v) (F64.of_Z qmax)) f64_1em8) in
        let zero := f64_as_u8 (F32.clamp (F64.of_Z 1) (F64.of_Z (qmax + 1))
                      (F64.round (F64.div (F64.neg min_v) (F64.of_f32 scale)))) in
        Ok (mkQuantParams scale zero)
  end.

(** [None] when the rounded quotient plus the zero point overflows an [i32]. *)
Definition quantize_value (value : f64) (scale : f32) (zero : N) (qmax : Z) : option QuantizedValue :=
  q ← i32_checked (F32.to_i32 (F64.round (F64.div value (F64.of_f32 scale))) + Z.of_N zero);
  let q := Z.min (Z.max q 0) qmax in
  let dequant := F64.mul (F64.of_Z (q - Z.of_N zero)) (F64.of_f32 scale) in
  Some (mkQuantizedValue q dequant (F64.sub value dequant)).

(** What the column loop writes: codes by input, scales and zero points by group. *)
Record Columns : Type := mkColumns { cl_q : list N; cl_scales : list f32; cl_zeros : list N }.

(** The state of one output column: the working row, and the parameters of the
    current group ([None] is the initial [usize::MAX]). *)
Record ColumnState : Type := mkColumnState {
  cs_work : list f64;
  cs_group : option nat;
  cs_params : QuantParams;
  cs_columns : Columns;
}.

Section columns.
Context (order : list nat) (g_idx : list N) (h_inv_chol : list f64) (in_features out_features group_size : nat) (qmax : Z).

(** New parameters at the start of a group. *)
Definition enter_group (out_col perm_i group : nat) (s : ColumnState) : option (result ColumnState GptqError) :=
  if bool_decide (cs_group s = Some group) then Some (Ok s)
  else
    let group_end := Nat.min ((group + 1) * group_size) in_features in
    group_slice ← slice (cs_work s) perm_i group_end;
    match quant_params group_slice qmax with
    | Err e => Some (Err e)
    | Ok params =>
        scales ← vec_set (group * out_features + out_col) (qp_scale params) (cl_scales (cs_columns s));
        zeros ← vec_set (group * out_features + out_col) (qp_zero params) (cl_zeros (cs_columns s));
        Some (Ok (mkColumnState (cs_work s) (Some group) params (mkColumns (cl_q (cs_columns s)) scales zeros)))
    end.

(** One input of the column: its code, and its error spread over the rest. *)
Definition quantize_input (out_col perm_i : nat) (s : ColumnState) : option (result ColumnState GptqError) :=
  orig_i ← order !! perm_i;
  group ← N.to_nat <$> g_idx !! orig_i;
  bind_r (enter_group out_col perm_i group s) (λ s,
  value ← cs_work s !! perm_i;
  d ← quantize_value value (qp_scale (cs_params s)) (qp_zero (cs_params s)) qmax;
  q ← vec_set (orig_i * out_features + out_col) (Z.to_N (qv_q d mod 256)) (cl_q (cs_columns s));
  work ← vec_set perm_i (qv_dequant d) (cs_work s);
  denom ← h_inv_chol !! (perm_i * in_features + perm_i);
  work ← (if F32.ltb (F64.abs denom) f64_1em12 then Some work
          else
            let coeff := F64.div (qv_error d) denom in
            for_each (λ perm_j work,
              w ← work !! perm_j;
              h ← h_inv_chol !! (perm_i * in_features + perm_j);
              vec_set perm_j (F64.sub w (F64.mul coeff h)) work) (seq (S perm_i) (in_features - S perm_i)) work);
  Some (Ok (mkColumnState work (cs_group s) (cs_params s)
              (mkColumns q (cl_scales (cs_columns s)) (cl_zeros (cs_columns s)))))).

Definition quantize_column (weights : list f32) (out_col : nat) (c : Columns) : option (result Columns GptqError) :=
  row ← slice weights (out_col * in_features) (out_col * in_features + in_features);
  work ← mapM (λ idx, F64.of_f32 <$> row !! idx) order;
  bind_r (for_each_r (quantize_input out_col) (seq 0 in_features) (mkColumnState work None (mkQuantParams F32.one 0) c))
    (λ s, Some (Ok (cs_columns s))).

Definition quantize_columns (weights : list f32) (num_groups : nat) : option (result Columns GptqError) :=
  for_each_r (quantize_column weights) (seq 0 out_features)
    (mkColumns (replicate (in_features * out_features) 0%N) (replicate (num_groups * out_features) F32.zero)
       (replicate (num_groups * out_features) 0%N)).
End columns.

(** ** Packing *)

(** [x as i32] of a [u32], and back. *)
Definition u32_as_i32 (x : N) : Z := if (x <? 2147483648)%N then Z.of_N x else (Z.of_N x - 4294967296)%Z.
Definition i32_as_u32 (x : Z) : N := Z.to_N (x mod 4294967296).

(** [acc |= v << (4 * nibble)] on [u32]. *)
Definition or_nibble (acc v : N) (nibble : nat) : N := N.lor acc (as_u32 (N.shiftl v (N.of_nat (4 * nibble)))).
Definition nibble_at (word : N) (nibble : nat) : N := N.land (N.shiftr word (N.of_nat (4 * nibble))) 15.

(** A word of eight values. *)
Definition pack_word (value : nat → option N) : option Z :=
  acc ← for_each (λ nibble acc, v ← value nibble; Some (or_nibble acc v nibble)) (seq 0 PACK_FACTOR) 0%N;
  Some (u32_as_i32 acc).

Definition pack_qweight (q_by_input : list N) (in_features out_features : nat) : option (list Z) :=
  let packed_rows := in_features / PACK_FACTOR in
  for_each (λ packed_row, for_each (λ out_col packed,
    word ← pack_word (λ nibble, q_by_input !! ((packed_row * PACK_FACTOR + nibble) * out_features + out_col));
    vec_set (packed_row * out_features + out_col) word packed) (seq 0 out_features))
    (seq 0 packed_rows) (replicate (packed_rows * out_features) 0%Z).

Definition pack_qzeros (zeros : list N) (num_groups out_features : nat) : option (result (list Z) GptqError) :=
  if negb (out_features mod PACK_FACTOR =? 0) then Some (Err (GZerosWidth out_features))
  else
    let packed_cols := out_features / PACK_FACTOR in
    ok_r (for_each (λ group, for_each (λ packed_col packed,
      word ← pack_word (λ nibble, zero ← zeros !! (group * out_features + (packed_col * PACK_FACTOR + nibble)); Some (zero - 1)%N);
      vec_set (group * packed_cols + packed_col) word packed) (seq 0 packed_cols))
      (seq 0 num_groups) (replicate (num_groups * packed_cols) 0%Z)).

(** ** The layer *)
Record QuantizedGptqLayer : Type := mkGptqLayer {
  gl_qweight : list Z;
  gl_qzeros : list Z;
  gl_scales : list f32;
  gl_g_idx : list N;
  gl_in_features : nat;
  gl_out_features : nat;
  gl_num_groups : nat;
  gl_bits : nat;
  gl_group_size : nat;
}.

Definition qweight_shape (l : QuantizedGptqLayer) : nat * nat := (gl_in_features l / PACK_FACTOR, gl_out_features l).
Definition qzeros_shape (l : QuantizedGptqLayer) : nat * nat := (gl_num_groups l, gl_out_features l / PACK_FACTOR).
Definition scales_shape (l : QuantizedGptqLayer) : nat * nat := (gl_num_groups l, gl_out_features l).

Definition count_groups (g_idx : list N) : nat := foldl Nat.max 0 ((λ g, S (N.to_nat g)) <$> g_idx).

(** [l_inv] transposed. *)
Definition transpose (m : list f64) (n : nat) : option (list f64) :=
  for_each (λ r, for_each (λ c h, v ← m !! (c * n + r); vec_set (r * n + c) v h) (seq 0 n))
    (seq 0 n) (replicate (n * n) F64.zero).

(** The transposed Cholesky factor of the inverse of the damped Hessian. *)
Definition inverse_factor (calibration : GptqCalibration) (order : list nat) (config : GptqConfig) (in_features : nat) :
    option (result (list f64) GptqError) :=
  bind_r (damped_permuted_hessian calibration order (gq_damp_percent config)) (λ hessian,
  bind_r (invert_spd hessian in_features) (λ hessian_inv,
  bind_r (cholesky hessian_inv in_features) (λ l_inv, ok_r (transpose l_inv in_features)))).

(** The checks before the factorization. *)
Definition gptq_checks (weights : list f32) (out_features in_features : nat) (calibration : GptqCalibration) (config : GptqConfig) :
    result unit GptqError :=
  _ <-? gptq_config_validate config;
  _ <-? validate_layer_dims weights out_features in_features;
  require cal_in_features calibration =? in_features else GCalibrationWidth in_features (cal_in_features calibration);
  require negb (cal_nsamples calibration =? 0) else GNoSamples;
  Ok ().

Definition quantize_gptq (weights : list f32) (out_features in_features : nat) (calibration : GptqCalibration)
    (config : GptqConfig) : option (result QuantizedGptqLayer GptqError) :=
  match gptq_checks weights out_features in_features calibration config with
  | Err e => Some (Err e)
  | Ok _ =>
      order ← column_order calibration (gq_act_order config);
      bind_r (inverse_factor calibration order config in_features) (λ h_inv_chol,
      g_idx ← make_group_index in_features (gq_group_size config) order;
      let num_groups := count_groups g_idx in
      let qmax := (2 ^ Z.of_nat (gq_bits config) - 1)%Z in
      bind_r (quantize_columns order g_idx h_inv_chol in_features out_features (gq_group_size config) qmax weights num_groups) (λ c,
      qweight ← pack_qweight (cl_q c) in_features out_features;
      bind_r (pack_qzeros (cl_zeros c) num_groups out_features) (λ qzeros,
      Some (Ok (mkGptqLayer qweight qzeros (cl_scales c) g_idx in_features out_features num_groups
                  (gq_bits config) (gq_group_size config))))))
  end.

(** The reference dequantizer of the tests: element [out_col, in_idx]. *)
Definition dequantize_cell (layer : QuantizedGptqLayer) (out_col in_idx : nat) : option f32 :=
  packed ← i32_as_u32 <$> gl_qweight layer !! (in_idx / PACK_FACTOR * gl_out_features layer + out_col);
  let q := Z.of_N (nibble_at packed (in_idx mod PACK_FACTOR)) in
  group ← N.to_nat <$> gl_g_idx layer !! in_idx;
  scale ← gl_scales layer !! (group * gl_out_features layer + out_col);
  packed_zero ← i32_as_u32 <$> gl_qzeros layer !! (group * (gl_out_features layer / PACK_FACTOR) + out_col / PACK_FACTOR);
  let zero := (Z.of_N (nibble_at packed_zero (out_col mod PACK_FACTOR)) + 1)%Z in
  Some (F32.mul (F32.of_Z (q - zero)) scale).

(** ** Packing and unpacking *)
Lemma i32_u32_round_trip x : (x < 4294967296)%N → i32_as_u32 (u32_as_i32 x) = x.
Proof.
  intros Hx. unfold i32_as_u32, u32_as_i32. destruct (N.ltb_spec x 2147483648).
  - rewrite Z.mod_small by lia. lia.
  - replace (Z.of_N x - 4294967296)%Z with (Z.of_N x + (-1) * 4294967296)%Z by lia.
    rewrite Z.mod_add, Z.mod_small by lia. lia.
Qed.

Lemma nibble_mod word k : nibble_at word k = ((word / 16 ^ N.of_nat k) mod 16)%N.
Proof.
  unfold nibble_at. change 15%N with (N.ones 4). rewrite N.land_ones, N.shiftr_div_pow2. change (2 ^ 4)%N with 16%N. do 2 f_equal.
  rewrite Nat2N.inj_mul. change (N.of_nat 4) with 4%N. by rewrite N.pow_mul_r.
Qed.

(** Adding a nibble above the ones written. *)
Lemma or_nibble_spec acc v k : k < 8 → (acc < 16 ^ N.of_nat k)%N → (v < 16)%N →
  (or_nibble acc v k < 16 ^ N.of_nat (S k))%N
  ∧ ∀ j, nibble_at (or_nibble acc v k) j = if decide (j = k) then v else nibble_at acc j.
Proof.
  intros Hk Hacc Hv. set (P := (16 ^ N.of_nat k)%N) in *.
  assert (HP : (2 ^ N.of_nat (4 * k) = P)%N).
  { unfold P. rewrite Nat2N.inj_mul. change (N.of_nat 4) with 4%N. by rewrite N.pow_mul_r. }
  assert (Hsp : (16 ^ N.of_nat (S k) = 16 * P)%N) by (unfold P; rewrite Nat2N.inj_succ; apply N.pow_succ_r').
  assert (HP8 : (16 * P <= 4294967296)%N).
  { rewrite <- Hsp. change 4294967296%N with (16 ^ 8)%N. apply N.pow_le_mono_r; lia. }
  assert (Hor : or_nibble acc v k = (acc + v * P)%N).
  { unfold or_nibble, as_u32. rewrite N.shiftl_mul_pow2, HP, N.mod_small by nia.
    assert (Hz : N.land acc (v * P) = 0%N); [| by rewrite N.add_nocarry_lxor, N.lxor_lor].
    apply N.bits_inj. intros n. rewrite N.land_spec, N.bits_0. destruct (N.lt_ge_cases n (N.of_nat (4 * k))) as [Hn|Hn].
    - rewrite <- HP, N.mul_pow2_bits_low by done. apply andb_false_r.
    - destruct (decide (acc = 0%N)) as [->|Hne]; [by rewrite N.bits_0 |]. rewrite N.bits_above_log2; [done |].
      apply N.lt_le_trans with (N.of_nat (4 * k)); [| done]. apply N.log2_lt_pow2; [lia | by rewrite HP]. }
  rewrite Hor, Hsp. split; [nia |]. intros j. rewrite !nibble_mod. case_decide as E.
  - subst j. fold P. rewrite N.div_add, N.div_small, N.add_0_l, N.mod_small by lia. done.
  - destruct (decide (j < k)) as [Hj|Hj].
    + assert (HPj : (P = 16 ^ N.of_nat (k - j - 1) * 16 * 16 ^ N.of_nat j)%N).
      { unfold P. replace k with (k - j - 1 + 1 + j) at 1 by lia. by rewrite !Nat2N.inj_add, !N.pow_add_r. }
      rewrite HPj, !N.mul_assoc, N.div_add by (apply N.pow_nonzero; lia). by rewrite N.Div0.mod_add.
    + assert (Hle : (16 * P <= 16 ^ N.of_nat j)%N) by (rewrite <- Hsp; apply N.pow_le_mono_r; lia).
      rewrite !N.div_small by nia. done.
Qed.

(** Eight values below 16 are read back from their word. *)
Lemma pack_word_spec value v : (∀ k, k < 8 → value k = Some (v k) ∧ (v k < 16)%N) →
  ∃ w, pack_word value = Some w ∧ ∀ k, k < 8 → nibble_at (i32_as_u32 w) k = v k.
Proof.
  intros Hv. unfold pack_word, PACK_FACTOR.
  match goal with |- context [for_each ?b _ _] =>
    destruct (for_each_inv (λ k acc, (acc < 16 ^ N.of_nat k)%N ∧ ∀ j, j < k → nibble_at acc j = v j) b 8 0%N) as (acc & -> & Hlt & Hn) end.
  - intros k acc Hk [Hlt Hn]. destruct (Hv k Hk) as [-> Hk16]. cbn [mbind option_bind].
    destruct (or_nibble_spec acc (v k) k Hk Hlt Hk16) as [H1 H2]. eexists. split; [done |]. split; [done |].
    intros j Hj. rewrite H2. case_decide; [by subst | apply Hn; lia].
  - split; [done | lia].
  - cbn [mbind option_bind]. eexists. split; [done |]. intros k Hk. rewrite i32_u32_round_trip by (change (16 ^ N.of_nat 8)%N with 4294967296%N in Hlt; done).
    by apply Hn.
Qed.

(** Buffers filled in order with values that satisfy a predicate. *)
Definition filledP {A} (n : nat) (P : nat → A → Prop) (p : nat) (l : list A) : Prop :=
  length l = n ∧ ∀ i, i < p → ∃ x, l !! i = Some x ∧ P i x.

Lemma vec_set_filledP {A} n (P : nat → A → Prop) p l x : filledP n P p l → p < n → P p x →
  ∃ l', vec_set p x l = Some l' ∧ filledP n P (S p) l'.
Proof.
  intros [Hl Hf] Hp Hx. unfold vec_set. rewrite (proj2 (Nat.ltb_lt _ _)) by lia. eexists. split; [done |].
  split; [by rewrite length_insert |]. intros i Hi. destruct (decide (i = p)) as [->|].
  - exists x. split; [apply list_lookup_insert_eq; lia | done].
  - rewrite list_lookup_insert_ne by done. apply Hf. lia.
Qed.

(** A grid of words, each of eight values. *)
Lemma grid_words n m (value : nat → nat → nat → option N) (v : nat → nat → nat → N) :
  (∀ r c k, r < n → c < m → k < 8 → value r c k = Some (v r c k) ∧ (v r c k < 16)%N) →
  ∃ packed, for_each (λ r, for_each (λ c packed, word ← pack_word (value r c); vec_set (r * m + c) word packed) (seq 0 m))
              (seq 0 n) (replicate (n * m) 0%Z) = Some packed
    ∧ length packed = n * m
    ∧ ∀ r c, r < n → c < m → ∃ word, packed !! (r * m + c) = Some word ∧ ∀ k, k < 8 → nibble_at (i32_as_u32 word) k = v r c k.
Proof.
  intros Hv. set (P p word := ∀ k, k < 8 → nibble_at (i32_as_u32 word) k = v (p / m) (p mod m) k).
  assert (Hdm : ∀ r c, c < m → (r * m + c) / m = r ∧ (r * m + c) mod m = c).
  { intros r c Hc. split; [symmetry; apply (Nat.div_unique _ _ _ c); lia | symmetry; apply (Nat.mod_unique _ _ r); lia]. }
  match goal with |- context [for_each (λ r, for_each (@?b r) _) _ _] =>
    destruct (for_each_grid (filledP (n * m) P) b n m (replicate (n * m) 0%Z)) as (packed & -> & Hlen & Hp) end.
  - intros r c packed Hr Hc Hf. cbn beta. destruct (pack_word_spec (value r c) (v r c)) as (w & -> & Hw); [intros k Hk; by apply Hv |].
    cbn [mbind option_bind]. apply vec_set_filledP; [done | nia |]. intros k Hk.
    destruct (Hdm r c Hc) as [-> ->]. by apply Hw.
  - split; [apply length_replicate | lia].
  - exists packed. split; [done |]. split; [done |]. intros r c Hr Hc. destruct (Hp (r * m + c) ltac:(nia)) as (word & Hw & HP).
    exists word. split; [done |]. unfold P in HP. destruct (Hdm r c Hc) as [E1 E2]. by rewrite E1, E2 in HP.
Qed.

(** The codes of a packed weight are read back. *)
Lemma pack_qweight_spec q rows out : length q = rows * 8 * out → (∀ c, c ∈ q → (c < 16)%N) →
  ∃ packed, pack_qweight q (rows * 8) out = Some packed ∧ length packed = rows * out
    ∧ ∀ i o, i < rows * 8 → o < out →
        ∃ word, packed !! (i / 8 * out + o) = Some word ∧ Some (nibble_at (i32_as_u32 word) (i mod 8)) = q !! (i * out + o).
Proof.
  intros Hl Hq. unfold pack_qweight, PACK_FACTOR. rewrite Nat.div_mul by lia.
  assert (Hat : ∀ r o k, r < rows → o < out → k < 8 → ∃ c, q !! ((r * 8 + k) * out + o) = Some c).
  { intros r o k Hr Ho Hk. destruct (lookup_lt_is_Some_2 q ((r * 8 + k) * out + o) ltac:(nia)) as [c Hc]. by exists c. }
  destruct (grid_words rows out (λ r o k, q !! ((r * 8 + k) * out + o)) (λ r o k, default 0%N (q !! ((r * 8 + k) * out + o))))
    as (packed & E & Hlen & Hp).
  { intros r o k Hr Ho Hk. destruct (Hat r o k Hr Ho Hk) as [c Hc]. rewrite Hc. split; [done |]. by eapply Hq, list_elem_of_lookup_2. }
  exists packed. split; [exact E |]. split; [done |]. intros i o Hi Ho. pose proof (Nat.div_mod_eq i 8) as Hdm.
  pose proof (Nat.mod_upper_bound i 8 ltac:(lia)) as Hm. assert (Hr : i / 8 < rows) by (apply Nat.Div0.div_lt_upper_bound; lia).
  destruct (Hp (i / 8) o Hr Ho) as (word & Hw & HP). exists word. split; [done |]. rewrite (HP _ Hm).
  destruct (Hat (i / 8) o (i mod 8) Hr Ho Hm) as [c Hc]. rewrite Hc. change (Some c = q !! (i * out + o)). rewrite <- Hc. do 2 f_equal. lia.
Qed.

(** The zero points are stored minus one, and are read back. *)
Lemma pack_qzeros_spec zeros groups cols : length zeros = groups * (cols * 8) → (∀ z, z ∈ zeros → (z <= 16)%N) →
  ∃ packed, pack_qzeros zeros groups (cols * 8) = Some (Ok packed) ∧ length packed = groups * cols
    ∧ ∀ g o, g < groups → o < cols * 8 →
        ∃ word z, packed !! (g * cols + o / 8) = Some word ∧ zeros !! (g * (cols * 8) + o) = Some z
          ∧ nibble_at (i32_as_u32 word) (o mod 8) = (z - 1)%N.
Proof.
  intros Hl Hz. unfold pack_qzeros, PACK_FACTOR. rewrite Nat.Div0.mod_mul, Nat.div_mul by lia. cbn [Nat.eqb negb].
  assert (Hat : ∀ g c k, g < groups → c < cols → k < 8 → ∃ z, zeros !! (g * (cols * 8) + (c * 8 + k)) = Some z).
  { intros g c k Hg Hc Hk. destruct (lookup_lt_is_Some_2 zeros (g * (cols * 8) + (c * 8 + k)) ltac:(nia)) as [z E]. by exists z. }
  destruct (grid_words groups cols (λ g c k, zero ← zeros !! (g * (cols * 8) + (c * 8 + k)); Some (zero - 1)%N)
    (λ g c k, N.sub (default 0%N (zeros !! (g * (cols * 8) + (c * 8 + k)))) 1)) as (packed & E & Hlen & Hp).
  { intros g c k Hg Hc Hk. destruct (Hat g c k Hg Hc Hk) as [z Ez]. rewrite Ez. split; [done |].
    pose proof (Hz z ltac:(by eapply list_elem_of_lookup_2)). cbn. lia. }
  exists packed. rewrite E. split; [done |]. split; [done |]. intros g o Hg Ho. pose proof (Nat.div_mod_eq o 8) as Hdm.
  pose proof (Nat.mod_upper_bound o 8 ltac:(lia)) as Hm. assert (Hc : o / 8 < cols) by (apply Nat.Div0.div_lt_upper_bound; lia).
  destruct (Hp g (o / 8) Hg Hc) as (word & Hw & HP). destruct (Hat g (o / 8) (o mod 8) Hg Hc Hm) as [z Ez].
  exists word, z. split; [done |]. replace (g * (cols * 8) + o) with (g * (cols * 8) + (o / 8 * 8 + o mod 8)) by lia.
  split; [done |]. by rewrite (HP _ Hm), Ez.
Qed.

(** ** The column loop *)
(** A number not above another has a smaller exponent or mantissa. *)
Lemma ltb_bound k ek m e : F32.ltb (S754_finite false k ek) (S754_finite false m e) = false →
  (e <= ek ∧ (e = ek → Z.pos m <= Z.pos k))%Z.
Proof.
  unfold F32.ltb, SFltb, SFcompare. destruct (Z.compare_spec ek e); [| discriminate | split; lia].
  intros L. split; [lia |]. intros _. change (Pos.compare_cont Eq k m) with (k ?= m)%positive in L.
  destruct (Pos.compare_spec k m); [lia | discriminate | lia].
Qed.

Lemma clamped_zero y : small_prec 53 y → (f64_as_u8 (F32.clamp (F64.of_Z 1) (F64.of_Z 16) y) <= 16)%N.
Proof.
  intros Hy. assert (E1 : F64.of_Z 1 = S754_finite false 4503599627370496 (-52)) by reflexivity.
  assert (E16 : F64.of_Z 16 = S754_finite false 4503599627370496 (-48)) by reflexivity.
  unfold F32.clamp. rewrite E1, E16. destruct (F32.ltb y _) eqn:L1.
  { change (F32.ltb (S754_finite false 4503599627370496 (-48)) (S754_finite false 4503599627370496 (-52))) with false. vm_compute. discriminate. }
  destruct (F32.ltb (S754_finite false 4503599627370496 (-48)) y) eqn:L2; [vm_compute; discriminate |].
  unfold f64_as_u8. destruct y as [s|[]| |s m e]; try (cbn; lia); try discriminate.
  destruct s; [discriminate L1 |].
  pose proof (ltb_bound _ _ _ _ L2) as Hb.
  cbn [small_prec] in Hy. unfold F32.to_int. rewrite (proj2 (Z.leb_gt 0 e)) by lia.
  assert (Hq : (0 <= Z.pos m / 2 ^ (- e) <= 16)%Z); [| lia].
  split; [apply Z.div_pos; lia |]. destruct (decide (e = -48)%Z) as [->|He].
  - apply (Z.div_le_upper_bound _ _ 16); [lia |]. change (2 ^ (- -48))%Z with 281474976710656%Z. lia.
  - assert (Z.pos m / 2 ^ (- e) <= Z.pos m / 2 ^ 49)%Z by (apply Z.div_le_compat_l; [lia | split; [lia | apply Z.pow_le_mono_r; lia]]).
    assert (Z.pos m / 2 ^ 49 < 16)%Z by (apply Z.div_lt_upper_bound; lia). lia.
Qed.

Lemma small_round64 a : small_prec 53 a → small_prec 53 (F64.round a).
Proof. destruct a as [| | |s m e]; try done. intros Ha. unfold F64.round. destruct (0 <=? e)%Z; [done | by apply small_normalize]. Qed.

Lemma quant_params_ok group : group ≠ [] → ∃ p, quant_params group 15 = Ok p ∧ (qp_zero p <= 16)%N.
Proof.
  intros Hne. unfold quant_params. destruct group as [|x group]; [done |]. set (l := x :: group). clearbody l.
  destruct (F32.ltb _ _); [eexists; split; [done |]; vm_compute; discriminate |].
  eexists. split; [done |]. cbn [qp_zero]. change (15 + 1)%Z with 16%Z. apply clamped_zero, small_round64, small_SFdiv. lia.
Qed.

Lemma quantize_value_range v s z d : quantize_value v s z 15 = Some d → (0 <= qv_q d <= 15)%Z.
Proof.
  unfold quantize_value. destruct (i32_checked _) as [q|]; cbn; [| done]. intros [= <-]. cbn. lia.
Qed.

(** A write keeps the length and what holds of the elements. *)
Lemma vec_set_forall {A} (P : A → Prop) i x l n : length l = n → i < n → (∀ a, a ∈ l → P a) → P x →
  ∃ l', vec_set i x l = Some l' ∧ length l' = n ∧ ∀ a, a ∈ l' → P a.
Proof.
  intros Hl Hi Hall Hx. unfold vec_set. rewrite (proj2 (Nat.ltb_lt _ _)) by lia. eexists. split; [done |].
  split; [by rewrite length_insert |]. intros a (j & Hj)%list_elem_of_lookup_1.
  destruct (decide (j = i)) as [->|]; [rewrite list_lookup_insert_eq in Hj by lia; by simplify_eq |].
  rewrite list_lookup_insert_ne in Hj by done. by eapply Hall, list_elem_of_lookup_2.
Qed.

Section column_loop.
Context (order : list nat) (g_idx : list N) (h_inv_chol : list f64) (n out gs groups : nat).
Context (Hperm : order ≡ₚ seq 0 n) (Hgs : 0 < gs) (Hchol : length h_inv_chol = n * n).
Context (Hg : ∀ p i, order !! p = Some i → g_idx !! i = Some (N.of_nat (p / gs))).
Context (Hgroups : ∀ p, p < n → p / gs < groups).

Record columns_ok (c : Columns) : Prop := {
  co_q : length (cl_q c) = n * out;
  co_codes : ∀ x, x ∈ cl_q c → (x < 16)%N;
  co_scales : length (cl_scales c) = groups * out;
  co_zeros : length (cl_zeros c) = groups * out;
  co_points : ∀ z, z ∈ cl_zeros c → (z <= 16)%N;
}.

Definition state_ok (s : ColumnState) : Prop := length (cs_work s) = n ∧ columns_ok (cs_columns s).

(** The only way the quantizer panics: the loop, run up to input [p] of column
    [o], meets a value whose rounded quotient does not fit an [i32] once the zero
    point is added. *)
Definition code_overflow (weights : list f32) : Prop := ∃ o p c work s s' value,
  for_each_r (quantize_column order g_idx h_inv_chol n out gs 15 weights) (seq 0 o)
    (mkColumns (replicate (n * out) 0%N) (replicate (groups * out) F32.zero) (replicate (groups * out) 0%N)) = Some (Ok c)
  ∧ mapM (λ i, F64.of_f32 <$> weights !! (o * n + i)) order = Some work
  ∧ for_each_r (quantize_input order g_idx h_inv_chol n out gs 15 o) (seq 0 p) (mkColumnState work None (mkQuantParams F32.one 0) c) = Some (Ok s)
  ∧ enter_group n out gs 15 o p (p / gs) s = Some (Ok s')
  ∧ cs_work s' !! p = Some value
  ∧ quantize_value value (qp_scale (cs_params s')) (qp_zero (cs_params s')) 15 = None.

Lemma order_lookup p : p < n → ∃ i, order !! p = Some i ∧ i < n.
Proof using All.
  intros Hp. assert (Hl : length order = n) by (rewrite Hperm; apply length_seq).
  destruct (lookup_lt_is_Some_2 order p ltac:(lia)) as [i Hi]. exists i. split; [done |].
  apply list_elem_of_lookup_2 in Hi. rewrite Hperm in Hi. apply elem_of_seq in Hi. lia.
Qed.

Lemma enter_group_ok {Bad : Prop} o p s : o < out → p < n → state_ok s →
  outcome Bad (λ _ : GptqError, False) state_ok (enter_group n out gs 15 o p (p / gs) s).
Proof using All.
  intros Ho Hp [Hw Hc]. unfold enter_group. case_match; [done |].
  pose proof (Nat.div_mod_eq p gs) as Hdm. pose proof (Nat.mod_upper_bound p gs ltac:(lia)) as Hm.
  set (e := Nat.min ((p / gs + 1) * gs) n). assert (He : p < e ≤ n) by (unfold e; nia).
  rewrite slice_Some by lia. cbn [mbind option_bind].
  destruct (quant_params_ok (take (e - p) (drop p (cs_work s)))) as (q & -> & Hz).
  { intros E%(f_equal length). rewrite length_take, length_drop in E. cbn in E. lia. }
  pose proof (Hgroups p Hp) as HG. destruct Hc as [C1 C2 C3 C4 C5].
  assert (Hi : p / gs * out + o < groups * out) by nia.
  destruct (vec_set_forall (λ _, True) (p / gs * out + o) (qp_scale q) _ _ C3 Hi) as (scales & -> & L1 & _); [done | done |].
  destruct (vec_set_forall (λ z, (z <= 16)%N) _ _ _ _ C4 Hi C5 Hz) as (zeros & -> & L2 & L3).
  cbn. split; [done |]. by split.
Qed.

Lemma quantize_input_ok (Bad : Prop) o p s : o < out → p < n → state_ok s →
  (∀ s' value, enter_group n out gs 15 o p (p / gs) s = Some (Ok s') → cs_work s' !! p = Some value →
    quantize_value value (qp_scale (cs_params s')) (qp_zero (cs_params s')) 15 = None → Bad) →
  outcome Bad (λ _ : GptqError, False) state_ok (quantize_input order g_idx h_inv_chol n out gs 15 o p s).
Proof using All.
  intros Ho Hp Hs Hbad. destruct (order_lookup p Hp) as (i & Hi & Hin). unfold quantize_input. rewrite Hi. cbn [mbind option_bind].
  rewrite (Hg p i Hi). cbn [fmap option_fmap option_map mbind option_bind]. rewrite Nat2N.id.
  pose proof (enter_group_ok (Bad := Bad) o p s Ho Hp Hs) as He.
  destruct (enter_group n out gs 15 o p (p / gs) s) as [[s1|e]|]; [| done | done]. destruct He as [Hw [C1 C2 C3 C4 C5]]. cbn [bind_r].
  destruct (lookup_lt_is_Some_2 (cs_work s1) p ltac:(lia)) as [v Ev]. rewrite Ev. cbn [mbind option_bind].
  destruct (quantize_value v (qp_scale (cs_params s1)) (qp_zero (cs_params s1)) 15) as [d|] eqn:Ed;
    [| by apply (Hbad s1 v)].
  cbn [mbind option_bind]. pose proof (quantize_value_range _ _ _ _ Ed) as Hd.
  destruct (vec_set_forall (λ x, (x < 16)%N) (i * out + o) (Z.to_N (qv_q d mod 256)) _ _ C1) as (q & -> & L1 & L2);
    [nia | done | rewrite Z.mod_small by lia; lia |]. cbn [mbind option_bind].
  destruct (vec_set_forall (λ _, True) p (qv_dequant d) _ _ Hw Hp) as (work & -> & L3 & _); [done | done |]. cbn [mbind option_bind].
  destruct (lookup_lt_is_Some_2 h_inv_chol (p * n + p) ltac:(nia)) as [denom ->]. cbn [mbind option_bind].
  assert (Hspread : ∃ w', (if F32.ltb (F64.abs denom) f64_1em12 then Some work
          else for_each (λ perm_j work, w ← work !! perm_j; h ← h_inv_chol !! (p * n + perm_j);
              vec_set perm_j (F64.sub w (F64.mul (F64.div (qv_error d) denom) h)) work) (seq (S p) (n - S p)) work) = Some w' ∧ length w' = n).
  { case_match; [by eexists |]. replace (seq (S p) (n - S p)) with (Nat.add (S p) <$> seq 0 (n - S p)) by (rewrite fmap_add_seq; f_equal; lia).
    rewrite for_each_map.
    match goal with |- context [for_each ?b _ _] =>
      destruct (for_each_inv (λ _ w, length w = n) b (n - S p) work) as (w' & -> & Hw'); [| done | by exists w'] end.
    intros k w Hk Hlw. cbn beta. destruct (lookup_lt_is_Some_2 w (S p + k) ltac:(lia)) as [x ->].
    destruct (lookup_lt_is_Some_2 h_inv_chol (p * n + (S p + k)) ltac:(nia)) as [h ->]. cbn [mbind option_bind].
    destruct (vec_set_forall (λ _, True) (S p + k) (F64.sub x (F64.mul (F64.div (qv_error d) denom) h)) w n Hlw ltac:(lia)) as (w2 & -> & L & _);
      [done | done | by exists w2]. }
  destruct Hspread as (w' & -> & Hw'). cbn. split; [done |]. by split.
Qed.

Lemma quantize_columns_ok weights : length weights = out * n →
  outcome (code_overflow weights) (λ _ : GptqError, False) columns_ok
    (quantize_columns order g_idx h_inv_chol n out gs 15 weights groups).
Proof using All.
  intros Hl. unfold quantize_columns. apply (for_each_r_run _ _ (λ _, columns_ok)).
  - intros o c Ho Hrun Hc. unfold quantize_column. rewrite slice_Some by nia. cbn [mbind option_bind].
    replace (o * n + n - o * n) with n by lia. set (row := take n (drop (o * n) weights)).
    assert (Hrow : length row = n) by (unfold row; rewrite length_take, length_drop; nia).
    assert (Hat : ∀ i, i ∈ order → row !! i = weights !! (o * n + i)).
    { intros i Hi. rewrite Hperm in Hi. apply elem_of_seq in Hi. unfold row. rewrite lookup_take_lt by lia. apply lookup_drop. }
    set (work i := default F64.zero (F64.of_f32 <$> row !! i)).
    assert (Hsome : ∀ i, i ∈ order → F64.of_f32 <$> row !! i = Some (work i)).
    { intros i Hi. unfold work. rewrite Hperm in Hi. apply elem_of_seq in Hi.
      destruct (lookup_lt_is_Some_2 row i ltac:(lia)) as [x Hx]. by rewrite Hx. }
    rewrite (mapM_pointwise _ work) by exact Hsome.
    cbn [mbind option_bind]. eapply outcome_bind.
    + apply (for_each_r_run _ _ (λ _, state_ok)).
      * intros p s Hp Hrun' Hs. apply quantize_input_ok; [done | done | done |]. intros s' v He Hv Hov.
        exists o, p, c, (work <$> order), s, s', v. split; [exact Hrun |]. split; [| done].
        apply mapM_pointwise. intros i Hi. rewrite <- Hat by done. by apply Hsome.
      * split; [cbn; rewrite length_fmap, Hperm; apply length_seq | done].
    + intros s [_ Hcs]. exact Hcs.
  - split; cbn; rewrite ?length_replicate; try done; intros x Hx; apply list_elem_of_In, repeat_spec in Hx || (apply elem_of_replicate in Hx as [-> _]; lia).
Qed.

End column_loop.

(** ** The factorization never indexes out of range *)
Section factors.
Context (n : nat).

Definition square (h : list f64) : Prop := length h = n * n.
Definition gptq_failure (e : GptqError) : Prop := e = GDamping ∨ e = GNotPositive.

Lemma square_at h i j : square h → i < n → j < n → ∃ v, h !! (i * n + j) = Some v.
Proof. intros Hh Hi Hj. destruct (lookup_lt_is_Some_2 h (i * n + j)) as [v Hv]; [rewrite Hh; nia | by exists v]. Qed.

Lemma square_set h i j v : square h → i < n → j < n → ∃ h', vec_set (i * n + j) v h = Some h' ∧ square h'.
Proof.
  intros Hh Hi Hj. destruct (vec_set_forall (λ _, True) (i * n + j) v h (n * n) Hh ltac:(nia)) as (h' & E & L & _); [done | done | by exists h'].
Qed.

Lemma square_zeros : square (replicate (n * n) F64.zero).
Proof. apply length_replicate. Qed.

(** A loop over all cells, or over the diagonal, that writes cell by cell. *)
Lemma square_grid body h :
  (∀ i j h, i < n → j < n → square h → ∃ h', body i j h = Some h' ∧ square h') →
  square h → ∃ h', for_each (λ i, for_each (body i) (seq 0 n)) (seq 0 n) h = Some h' ∧ square h'.
Proof. intros Hb Hh. apply (for_each_grid (λ _, square)); [| done]. intros i j h1 Hi Hj. by apply Hb. Qed.

Lemma sub_dot_total a b m sum : (∀ k, k < m → is_Some (a k) ∧ is_Some (b k)) → is_Some (sub_dot a b (seq 0 m) sum).
Proof.
  intros Hab. destruct (for_each_inv (λ _ _, True) (λ k sum, x ← a k; y ← b k; Some (F64.sub sum (F64.mul x y))) m sum)
    as (s & E & _); [| done | by exists s].
  intros k s Hk _. destruct (Hab k Hk) as [[x ->] [y ->]]. by eexists.
Qed.

Lemma cholesky_ok {Bad : Prop} matrix : square matrix → outcome Bad gptq_failure square (cholesky matrix n).
Proof.
  intros Hm. apply (for_each_r_inv _ _ (λ _, square)); [| apply square_zeros].
  intros i l Hi Hl. apply (for_each_r_inv _ _ (λ _, square)); [| done]. intros j l1 Hj H1. unfold cholesky_cell.
  destruct (square_at matrix i j Hm Hi ltac:(lia)) as [v ->]. cbn [mbind option_bind].
  destruct (sub_dot_total (λ k, l1 !! (i * n + k)) (λ k, l1 !! (j * n + k)) j v) as [sum ->].
  { intros k Hk. destruct (square_at l1 i k H1 Hi ltac:(lia)) as [x ->], (square_at l1 j k H1 ltac:(lia) ltac:(lia)) as [y ->]. by split; eexists. }
  cbn [mbind option_bind]. destruct (Nat.eqb_spec i j).
  - case_match; [by right |]. apply outcome_ok, square_set; [done | done | lia].
  - destruct (square_at l1 j j H1 ltac:(lia) ltac:(lia)) as [d ->]. cbn [mbind option_bind]. apply outcome_ok, square_set; [done | done | lia].
Qed.

Lemma invert_column_ok chol col inv : square chol → col < n → square inv →
  ∃ inv', invert_column chol n col inv = Some inv' ∧ square inv'.
Proof.
  intros Hc Hcol Hinv. unfold invert_column.
  match goal with |- context [for_each ?b (seq 0 n) (replicate n F64.zero)] =>
    destruct (for_each_inv (λ _ y, length y = n) b n (replicate n F64.zero)) as (y & -> & Hy) end; [| apply length_replicate |].
  { intros row y Hr Hy. cbn beta.
    destruct (sub_dot_total (λ k, chol !! (row * n + k)) (λ k, y !! k) row (if row =? col then F64.of_N 1 else F64.zero)) as [sum ->].
    { intros k Hk. destruct (square_at chol row k Hc Hr ltac:(lia)) as [x ->], (lookup_lt_is_Some_2 y k ltac:(lia)) as [z ->]. by split; eexists. }
    cbn [mbind option_bind]. destruct (square_at chol row row Hc Hr Hr) as [d ->]. cbn [mbind option_bind].
    destruct (vec_set_forall (λ _, True) row (F64.div sum d) y n Hy Hr) as (y' & -> & L & _); [done | done | by exists y']. }
  cbn [mbind option_bind].
  assert (Hback : ∃ x, for_each (λ row x, sum ← y !! row;
        sum ← sub_dot (λ k, chol !! (k * n + row)) (λ k, x !! k) (seq (S row) (n - S row)) sum;
        d ← chol !! (row * n + row);
        vec_set row (F64.div sum d) x) (rev (seq 0 n)) (replicate n F64.zero) = Some x ∧ length x = n).
  { apply for_each_mem; [apply length_replicate |]. intros row x Hr%list_elem_of_In%in_rev%list_elem_of_In%elem_of_seq Hx.
    destruct (lookup_lt_is_Some_2 y row ltac:(lia)) as [v ->]. cbn [mbind option_bind]. unfold sub_dot.
    replace (seq (S row) (n - S row)) with (Nat.add (S row) <$> seq 0 (n - S row)) by (rewrite fmap_add_seq; f_equal; lia).
    rewrite for_each_map.
    destruct (sub_dot_total (λ k, chol !! ((S row + k) * n + row)) (λ k, x !! (S row + k)) (n - S row) v) as [sum E].
    { intros k Hk. destruct (square_at chol (S row + k) row Hc ltac:(lia) ltac:(lia)) as [a ->], (lookup_lt_is_Some_2 x (S row + k) ltac:(lia)) as [b ->].
      by split; eexists. }
    unfold sub_dot in E. rewrite E. cbn [mbind option_bind]. destruct (square_at chol row row Hc ltac:(lia) ltac:(lia)) as [d ->]. cbn [mbind option_bind].
    destruct (vec_set_forall (λ _, True) row (F64.div sum d) x n Hx ltac:(lia)) as (x' & -> & L & _); [done | done | by exists x']. }
  destruct Hback as (x & -> & Hx). cbn [mbind option_bind].
  apply (for_each_inv (λ _, square)); [| done]. intros row inv1 Hr H1. destruct (lookup_lt_is_Some_2 x row ltac:(lia)) as [v ->].
  by apply square_set.
Qed.

Lemma invert_spd_ok {Bad : Prop} matrix : square matrix → outcome Bad gptq_failure square (invert_spd matrix n).
Proof.
  intros Hm. eapply outcome_bind; [by apply cholesky_ok |]. intros chol Hc. apply outcome_ok.
  apply (for_each_inv (λ _, square)); [| apply square_zeros]. intros col inv Hcol Hinv. by apply invert_column_ok.
Qed.

Lemma transpose_ok m : square m → ∃ h, transpose m n = Some h ∧ square h.
Proof.
  intros Hm. apply square_grid; [| apply square_zeros]. intros r c h Hr Hc Hh.
  destruct (square_at m c r Hm Hc Hr) as [v ->]. by apply square_set.
Qed.

Context (cal : GptqCalibration) (Hn : cal_in_features cal = n) (Hcal : square (cal_hessian cal)).

Lemma mean_diag_total : is_Some (mean_diag cal).
Proof using Hn Hcal.
  unfold mean_diag. rewrite Hn. case_match; [by eexists |].
  rewrite (mapM_pointwise _ (λ i, default F64.zero (cal_hessian cal !! (i * n + i)))); [by eexists |].
  intros i Hi%elem_of_seq. by destruct (square_at _ i i Hcal ltac:(lia) ltac:(lia)) as [v ->].
Qed.

Lemma damped_ok {Bad : Prop} order damp : order ≡ₚ seq 0 n →
  outcome Bad gptq_failure square (damped_permuted_hessian cal order damp).
Proof using Hn Hcal.
  intros Hperm. unfold damped_permuted_hessian. rewrite Hn.
  assert (Hord : ∀ p, p < n → ∃ i, order !! p = Some i ∧ i < n).
  { intros p Hp. assert (Hl : length order = n) by (rewrite Hperm; apply length_seq).
    destruct (lookup_lt_is_Some_2 order p ltac:(lia)) as [i Hi]. exists i. split; [done |].
    apply list_elem_of_lookup_2 in Hi. rewrite Hperm in Hi. apply elem_of_seq in Hi. lia. }
  assert (Hfill : ∃ h, for_each (λ perm_row h, src_row ← order !! perm_row;
        for_each (λ perm_col h, src_col ← order !! perm_col; v ← cal_hessian cal !! (src_row * n + src_col);
          vec_set (perm_row * n + perm_col) v h) (seq 0 n) h) (seq 0 n) (replicate (n * n) F64.zero) = Some h ∧ square h).
  { apply (for_each_inv (λ _, square)); [| apply square_zeros]. intros r h Hr Hh. destruct (Hord r Hr) as (i & -> & Hi). cbn [mbind option_bind].
    apply (for_each_inv (λ _, square)); [| done]. intros c h1 Hc H1. destruct (Hord c Hc) as (j & -> & Hj). cbn [mbind option_bind].
    destruct (square_at _ i j Hcal Hi Hj) as [v ->]. by apply square_set. }
  destruct Hfill as (h & -> & Hh). cbn [mbind option_bind]. destruct mean_diag_total as [mean ->]. cbn [mbind option_bind].
  case_match; [by left |].
  match goal with |- context [for_each ?b (seq 0 n) h] =>
    destruct (for_each_inv (λ _, square) b n h) as (h' & -> & Hh') end; [| done | exact Hh'].
  intros i h1 Hi H1. destruct (square_at h1 i i H1 Hi Hi) as [v ->]. by apply square_set.
Qed.

Lemma inverse_factor_ok {Bad : Prop} order cfg : order ≡ₚ seq 0 n →
  outcome Bad gptq_failure square (inverse_factor cal order cfg n).
Proof using Hn Hcal.
  intros Hperm. eapply outcome_bind; [by apply damped_ok |]. intros h Hh.
  eapply outcome_bind; [by apply invert_spd_ok |]. intros inv Hinv.
  eapply outcome_bind; [by apply cholesky_ok |]. intros l Hl. by apply outcome_ok, transpose_ok.
Qed.
End factors.

(** ** The group index *)
Lemma make_group_index_ok n gs order : 0 < gs → order ≡ₚ seq 0 n → (N.of_nat n <= u32_max)%N →
  ∃ g_idx, make_group_index n gs order = Some g_idx ∧ length g_idx = n
    ∧ ∀ p i, order !! p = Some i → g_idx !! i = Some (N.of_nat (p / gs)).
Proof.
  intros Hgs Hperm Hn. assert (Hl : length order = n) by (rewrite Hperm; apply length_seq).
  assert (Hnd : NoDup order) by (rewrite Hperm; apply NoDup_seq).
  unfold make_group_index. rewrite (proj2 (Nat.eqb_neq gs 0)), Hl by lia.
  match goal with |- context [for_each ?b _ _] =>
    destruct (for_each_inv (λ k g, length g = n ∧ ∀ p i, p < k → order !! p = Some i → g !! i = Some (N.of_nat (p / gs)))
      b n (replicate n 0%N)) as (g & -> & Hg & Hgi) end.
  - intros k g Hk [Hg Hgi]. destruct (lookup_lt_is_Some_2 order k ltac:(lia)) as [i Hi]. rewrite Hi. cbn [mbind option_bind].
    assert (Hin : i < n) by (apply list_elem_of_lookup_2 in Hi; rewrite Hperm in Hi; apply elem_of_seq in Hi; lia).
    unfold vec_set. rewrite (proj2 (Nat.ltb_lt _ _)) by lia. eexists. split; [done |]. split; [by rewrite length_insert |].
    intros p j Hp Hj. destruct (decide (p = k)) as [->|Hne].
    + replace j with i by congruence. rewrite list_lookup_insert_eq by lia. f_equal. unfold as_u32. apply N.mod_small.
      pose proof (Nat.Div0.div_le_upper_bound k gs k ltac:(nia)). unfold u32_max in Hn. lia.
    + rewrite list_lookup_insert_ne; [apply Hgi; [lia | done] |]. intros ->. by apply Hne, (NoDup_lookup order p k j).
  - split; [apply length_replicate | lia].
  - exists g. split; [done |]. split; [done |]. intros p i Hp. apply Hgi; [| done]. apply lookup_lt_Some in Hp. lia.
Qed.

Lemma count_groups_gt g_idx g : g ∈ g_idx → N.to_nat g < count_groups g_idx.
Proof.
  intros Hg. unfold count_groups. set (l := (λ g, S (N.to_nat g)) <$> g_idx).
  assert (Hin : S (N.to_nat g) ∈ l) by (apply list_elem_of_fmap; by exists g). clearbody l.
  assert (Hge : ∀ m, m ≤ foldl Nat.max m l ∧ ∀ x, x ∈ l → x ≤ foldl Nat.max m l).
  { clear. induction l as [|y l IH]; intros m; cbn; [split; [done | by intros x ?%elem_of_nil] |].
    destruct (IH (Nat.max m y)) as [H1 H2]. split; [lia |]. intros x [->|Hx]%elem_of_cons; [lia | by apply H2]. }
  pose proof (proj2 (Hge 0) _ Hin). lia.
Qed.

Lemma column_order_perm c act order : column_order c act = Some order → order ≡ₚ seq 0 (cal_in_features c).
Proof. unfold column_order. destruct act; [case_match; [done |] |]; intros [= <-]; [apply sort_by_perm | done]. Qed.

(** An order that is asked for puts the columns by falling diagonal. *)
Lemma column_order_falls c order i j a b : column_order c true = Some order → i < j → order !! i = Some a → order !! j = Some b →
  F32.cmp_or_eq (diagonal c b) (diagonal c a) ≠ Gt.
Proof.
  unfold column_order. destruct (existsb _ _) eqn:En; [done |]. intros [= <-] Hij Ha Hb.
  assert (Hnum : Forall (λ i, F32.num (diagonal c i)) (seq 0 (cal_in_features c))).
  { apply Forall_forall. intros k Hk. destruct (F32.is_nan (diagonal c k)) eqn:E; [| done].
    assert (existsb (λ i, F32.is_nan (diagonal c i)) (seq 0 (cal_in_features c)) = true) as Ht; [| congruence].
    apply existsb_exists. exists k. split; [by apply list_elem_of_In | done]. }
  set (le := λ a b, negb (bool_decide (F32.cmp_or_eq (diagonal c b) (diagonal c a) = Gt))).
  assert (Hle : ∀ x y, F32.num (diagonal c x) → F32.num (diagonal c y) → le x y = true ↔ F32.ltb (diagonal c x) (diagonal c y) = false).
  { intros x y Hx Hy. unfold le. rewrite negb_true_iff, bool_decide_eq_false, (F32.cmp_gt _ _ Hy Hx). apply not_true_iff_false. }
  assert (Hs : sorted_by le (sort_by le (seq 0 (cal_in_features c)))).
  { apply (sort_by_sorted le (λ i, F32.num (diagonal c i))); [| | exact Hnum].
    - intros x y Hx Hy. rewrite !Hle by done. destruct (F32.ltb (diagonal c x) (diagonal c y)) eqn:E; [right | by left].
      apply F32.ltb_asym in E; done.
    - intros x y z Hx Hy Hz. rewrite !Hle by done. by apply (F32.nltb_trans _ _ _ Hx Hy Hz). }
  pose proof (sorted_by_lookup le _ i j a b Hs Hij Ha Hb) as H. unfold le in H. by apply negb_true_iff, bool_decide_eq_false in H.
Qed.

Lemma column_order_None c act : column_order c act = None ↔
  act = true ∧ ∃ i, i < cal_in_features c ∧ F32.is_nan (diagonal c i) = true.
Proof.
  unfold column_order. destruct act; [| split; [done | by intros [? _]]].
  destruct (existsb _ _) eqn:E; (split; [intros H; try done | intros [_ (i & Hi & Hn)]; try done]).
  - split; [done |]. apply existsb_exists in E as (i & Hi & Hn). exists i. split; [| done]. apply list_elem_of_In, elem_of_seq in Hi. lia.
  - exfalso. apply not_true_iff_false in E. apply E, existsb_exists. exists i. split; [apply list_elem_of_In, elem_of_seq; lia | done].
Qed.

Lemma gptq_checks_Ok w out n cal cfg : gptq_checks w out n cal cfg = Ok () →
  gq_bits cfg = 4 ∧ 0 < gq_group_size cfg ∧ n mod 8 = 0 ∧ out mod 8 = 0 ∧ length w = out * n ∧ cal_in_features cal = n.
Proof.
  unfold gptq_checks, gptq_config_validate, validate_layer_dims. intros H.
  repeat match goal with
         | H : context [if ?b then _ else _] |- _ => let E := fresh "E" in destruct b eqn:E; cbn [result_bind] in H; try discriminate H
         end.
  repeat match goal with
         | E : (_ =? _) = true |- _ => apply Nat.eqb_eq in E
         | E : negb _ = true |- _ => apply negb_true_iff in E
         | E : (_ =? _) = false |- _ => apply Nat.eqb_neq in E
         end.
  unfold PACK_FACTOR, GPTQ_SUPPORTED_BITS in *. split_and!; (done || lia).
Qed.

(** What a successful run made: the layer is packed from the columns of the loop,
    grouped by the column order. *)
Record made (weights : list f32) (out n : nat) (cal : GptqCalibration) (cfg : GptqConfig) (order : list nat) (h_inv_chol : list f64) (c : Columns)
    (layer : QuantizedGptqLayer) : Prop := {
  md_factor : inverse_factor cal order cfg n = Some (Ok h_inv_chol);
  md_loop : quantize_columns order (gl_g_idx layer) h_inv_chol n out (gq_group_size cfg) 15 weights
    (gl_num_groups layer) = Some (Ok c);
  md_columns : columns_ok n out (gl_num_groups layer) c;
  md_qweight : pack_qweight (cl_q c) n out = Some (gl_qweight layer);
  md_qzeros : pack_qzeros (cl_zeros c) (gl_num_groups layer) out = Some (Ok (gl_qzeros layer));
  md_scales : gl_scales layer = cl_scales c;
  md_sizes : gl_in_features layer = n ∧ gl_out_features layer = out ∧ gl_bits layer = 4 ∧ gl_group_size layer = gq_group_size cfg;
  md_g_idx : length (gl_g_idx layer) = n
    ∧ (∀ p i, order !! p = Some i → gl_g_idx layer !! i = Some (N.of_nat (p / gq_group_size cfg)));
  md_groups : ∀ p, p < n → p / gq_group_size cfg < gl_num_groups layer;
}.

Lemma column_order_checked weights out n cal cfg order : gptq_checks weights out n cal cfg = Ok () →
  column_order cal (gq_act_order cfg) = Some order → order ≡ₚ seq 0 n.
Proof. intros (_ & _ & _ & _ & _ & Hin)%gptq_checks_Ok H%column_order_perm. by rewrite H, Hin. Qed.

Lemma quantize_gptq_order weights out n cal cfg layer : quantize_gptq weights out n cal cfg = Some (Ok layer) →
  gptq_checks weights out n cal cfg = Ok () ∧ ∃ order, column_order cal (gq_act_order cfg) = Some order.
Proof.
  unfold quantize_gptq. destruct (gptq_checks weights out n cal cfg) as [[]|]; [| done].
  destruct (column_order _ _) as [order|]; [| done]. intros _. split; [done | by exists order].
Qed.

Lemma quantize_gptq_made weights out n cal cfg order :
  gptq_checks weights out n cal cfg = Ok () → length (cal_hessian cal) = n * n → (N.of_nat n <= u32_max)%N →
  column_order cal (gq_act_order cfg) = Some order →
  outcome (∃ g_idx h_inv_chol, make_group_index n (gq_group_size cfg) order = Some g_idx
      ∧ inverse_factor cal order cfg n = Some (Ok h_inv_chol)
      ∧ code_overflow order g_idx h_inv_chol n out (gq_group_size cfg) (count_groups g_idx) weights) gptq_failure
    (λ layer, ∃ h_inv_chol c, made weights out n cal cfg order h_inv_chol c layer) (quantize_gptq weights out n cal cfg).
Proof.
  intros Hc Hcal Hn Hord. pose proof (column_order_checked _ _ _ _ _ _ Hc Hord) as Hperm. unfold quantize_gptq. rewrite Hc, Hord.
  cbn [mbind option_bind]. destruct (gptq_checks_Ok _ _ _ _ _ Hc) as (Hbits & Hgs & Hn8 & Ho8 & Hw & Hin). rewrite Hbits.
  change (2 ^ Z.of_nat 4 - 1)%Z with 15%Z.
  pose proof (inverse_factor_ok (Bad := False) n cal Hin Hcal order cfg Hperm) as Hfac.
  destruct (inverse_factor cal order cfg n) as [[hc|e]|] eqn:Efac; cbn [outcome bind_r] in *; [rename Hfac into Hhc | exact Hfac | done].
  destruct (make_group_index_ok n _ order Hgs Hperm Hn) as (g_idx & Egi0 & Lg & Hg). rewrite Egi0. cbn [mbind option_bind].
  set (groups := count_groups g_idx).
  assert (Hol : length order = n) by (rewrite Hperm; apply length_seq).
  assert (Hgr : ∀ p, p < n → p / gq_group_size cfg < groups).
  { intros p Hp. destruct (lookup_lt_is_Some_2 order p ltac:(lia)) as [i Hi].
    pose proof (count_groups_gt g_idx _ (list_elem_of_lookup_2 _ _ _ (Hg p i Hi))) as H. by rewrite Nat2N.id in H. }
  pose proof (quantize_columns_ok order g_idx hc n out (gq_group_size cfg) groups Hperm Hgs Hhc Hg Hgr weights Hw) as Hcols.
  destruct (quantize_columns _ _ _ _ _ _ _ _ _) as [[c|e]|] eqn:Ecols; cbn [outcome bind_r] in *; [| done | by exists g_idx, hc].
  assert (Ein : n = n / 8 * 8) by (pose proof (Nat.div_mod_eq n 8); lia). assert (Eout : out = out / 8 * 8) by (pose proof (Nat.div_mod_eq out 8); lia).
  destruct (pack_qweight_spec (cl_q c) (n / 8) out) as (qw & Eq & _); [rewrite <- Ein; apply Hcols | apply Hcols |]. rewrite <- Ein in Eq.
  destruct (pack_qzeros_spec (cl_zeros c) groups (out / 8)) as (qz & Ez & _); [rewrite <- Eout; apply Hcols | apply Hcols |]. rewrite <- Eout in Ez.
  rewrite Eq. cbn [mbind option_bind]. rewrite Ez. cbn [bind_r outcome]. exists hc, c. by split.
Qed.

(** C36. GPTQ.  On a layer that passes the checks the columns get an order, unless one
    by activation is asked for and a diagonal element of the Hessian is NaN (the
    sort may then panic); the order is a permutation, by falling diagonal when asked
    for.  With it, quantization ends in a layer or in one of the two factorization
    errors, and panics only when the column loop, run on these weights, meets a
    quotient that overflows an [i32].  In the layer
    every input's group is that of its place in the column order, and unpacking
    the words gives back exactly the codes and the zero points the column loop
    chose: each element dequantizes to (code - zero point) times its group's
    scale. *)
Theorem gptq_layer_exact weights out n cal cfg :
  gptq_checks weights out n cal cfg = Ok () → length (cal_hessian cal) = n * n → (N.of_nat n <= u32_max)%N →
  (column_order cal (gq_act_order cfg) = None →
     gq_act_order cfg = true ∧ ∃ i, i < n ∧ F32.is_nan (diagonal cal i) = true)
  ∧ ∀ order, column_order cal (gq_act_order cfg) = Some order →
  order ≡ₚ seq 0 n
  ∧ (gq_act_order cfg = true → ∀ i j a b, i < j → order !! i = Some a → order !! j = Some b →
       F32.cmp_or_eq (diagonal cal b) (diagonal cal a) ≠ Gt)
  ∧ outcome (∃ g_idx h_inv_chol, make_group_index n (gq_group_size cfg) order = Some g_idx
      ∧ inverse_factor cal order cfg n = Some (Ok h_inv_chol)
      ∧ code_overflow order g_idx h_inv_chol n out (gq_group_size cfg) (count_groups g_idx) weights) gptq_failure
    (λ layer, ∃ h_inv_chol c,
      inverse_factor cal order cfg n = Some (Ok h_inv_chol)
      ∧ quantize_columns order (gl_g_idx layer) h_inv_chol n out (gq_group_size cfg) 15 weights (gl_num_groups layer) = Some (Ok c)
      ∧ (∀ p i, order !! p = Some i → gl_g_idx layer !! i = Some (N.of_nat (p / gq_group_size cfg)))
      ∧ ∀ i o, i < n → o < out →
          ∃ g q z s, gl_g_idx layer !! i = Some g ∧ cl_q c !! (i * out + o) = Some q
            ∧ cl_zeros c !! (N.to_nat g * out + o) = Some z ∧ cl_scales c !! (N.to_nat g * out + o) = Some s
            ∧ (q < 16)%N ∧ (z <= 16)%N
            ∧ dequantize_cell layer o i = Some (F32.mul (F32.of_Z (Z.of_N q - Z.max 1 (Z.of_N z))) s))
    (quantize_gptq weights out n cal cfg).
Proof.
  intros Hc Hcal Hn. split.
  { intros (Ha & i & Hi & Hnan)%column_order_None. destruct (gptq_checks_Ok _ _ _ _ _ Hc) as (_ & _ & _ & _ & _ & <-).
    split; [done | by exists i]. }
  intros order Hord. pose proof (column_order_checked _ _ _ _ _ _ Hc Hord) as Hperm. split; [exact Hperm |]. split.
  { intros Ha. rewrite Ha in Hord. intros i j a b. by apply column_order_falls. }
  eapply outcome_weaken; [by apply quantize_gptq_made |].
  intros [qw qz scales g_idx n' out' groups bits gs] (hc & c & [Hfac Hloop [C1 C2 C3 C4 C5] Eq Ez Hs (H1 & H2 & H3 & H4) [Lg Hg] Hgr]).
  cbn [gl_qweight gl_qzeros gl_scales gl_g_idx gl_in_features gl_out_features gl_num_groups gl_bits gl_group_size] in *. subst n' out' bits gs scales.
  destruct (gptq_checks_Ok _ _ _ _ _ Hc) as (_ & _ & Hn8 & Ho8 & _ & _).
  assert (Ein : n = n / 8 * 8) by (pose proof (Nat.div_mod_eq n 8); lia). assert (Eout : out = out / 8 * 8) by (pose proof (Nat.div_mod_eq out 8); lia).
  destruct (pack_qweight_spec (cl_q c) (n / 8) out) as (qw' & Eq' & _ & Hqw); [by rewrite <- Ein | done |]. rewrite <- Ein in Eq', Hqw.
  destruct (pack_qzeros_spec (cl_zeros c) groups (out / 8)) as (qz' & Ez' & _ & Hqz); [by rewrite <- Eout | done |]. rewrite <- Eout in Ez', Hqz.
  rewrite Eq in Eq'. injection Eq' as <-. rewrite Ez in Ez'. injection Ez' as <-.
  exists hc, c. split; [done |]. split; [exact Hloop |]. split; [exact Hg |].
  assert (Hol : length order = n) by (rewrite Hperm; apply length_seq). intros i o Hi Ho.
  assert (Hp : ∃ p, order !! p = Some i) by (apply list_elem_of_lookup_1; rewrite Hperm; apply elem_of_seq; lia).
  destruct Hp as [p Hp]. assert (Hpn : p < n) by (apply lookup_lt_Some in Hp; lia). pose proof (Hg p i Hp) as Egi.
  destruct (Hqw i o Hi Ho) as (word & Ew & Hword). destruct (Hqz (p / gq_group_size cfg) o (Hgr p Hpn) Ho) as (zw & z & Ezw & Ezz & Hz).
  destruct (lookup_lt_is_Some_2 (cl_scales c) (p / gq_group_size cfg * out + o)) as [s Es]; [pose proof (Hgr p Hpn); nia |].
  symmetry in Hword. exists (N.of_nat (p / gq_group_size cfg)), (nibble_at (i32_as_u32 word) (i mod 8)), z, s. rewrite !Nat2N.id.
  assert (Hz16 : (z <= 16)%N) by (by eapply C5, list_elem_of_lookup_2).
  split_and!; [done | done | done | done | by eapply C2, list_elem_of_lookup_2 | done |].
  unfold dequantize_cell, PACK_FACTOR. cbn [gl_qweight gl_g_idx gl_scales gl_qzeros gl_out_features]. rewrite Ew.
  cbn [fmap option_fmap option_map mbind option_bind]. rewrite Egi. cbn [fmap option_fmap option_map mbind option_bind]. rewrite Nat2N.id, Es.
  cbn [mbind option_bind]. rewrite Ezw. cbn [fmap option_fmap option_map mbind option_bind]. rewrite Hz. do 3 f_equal. lia.
Qed.

(** ** Concrete layers *)
Definition demo_gptq_config : GptqConfig := mkGptqConfig 4 4 (F32.div F32.one (F32.of_Z 16)) true.
Definition demo_sample (k : Z) : list f32 := F32.of_Z <$> [k; 1; -k; 0; 2; -1; 0; 1]%Z.
Definition demo_gptq_weights : list f32 := (λ i : nat, F32.of_Z (Z.of_nat (i * 7 mod 31) - 15)) <$> seq 0 64.
Definition demo_calibration : GptqCalibration :=
  match observe [demo_sample 4; demo_sample (-3); demo_sample 2] (calibration_new 8) with
  | Some (_, c) => c
  | None => calibration_new 8
  end.

Lemma gptq_layer_exact_witness :
  ∃ layer, quantize_gptq demo_gptq_weights 8 8 demo_calibration demo_gptq_config = Some (Ok layer)
    ∧ gl_g_idx layer = [0; 0; 0; 1; 0; 1; 1; 1]%N ∧ is_Some (dequantize_cell layer 3 5).
Proof.
  pose proof (gptq_layer_exact demo_gptq_weights 8 8 demo_calibration demo_gptq_config) as H.
  destruct (quantize_gptq demo_gptq_weights 8 8 demo_calibration demo_gptq_config) as [[layer|e]|] eqn:E;
    [| vm_compute in E; discriminate E | vm_compute in E; discriminate E].
  exists layer. split; [reflexivity |].
  destruct H as [_ H]; [vm_compute; reflexivity | vm_compute; reflexivity | vm_compute; discriminate |].
  destruct (column_order demo_calibration (gq_act_order demo_gptq_config)) as [order|] eqn:Eo; [| vm_compute in Eo; discriminate Eo].
  destruct (H order eq_refl) as (_ & _ & hc & c & _ & _ & _ & H'). clear H. rename H' into H.
  destruct (H 5 3 ltac:(lia) ltac:(lia)) as (g & q & z & s & _ & _ & _ & _ & _ & _ & ->).
  split; [| by eexists]. vm_compute in E. injection E as <-. reflexivity.
Defined.

(** A group without spread gets scale 1 and zero point 8, whatever its value: a
    group of quarters becomes zeros. *)
Example constant_group_vanishes :
  let v := F64.div (F64.of_Z 1) (F64.of_Z 4) in
  quant_params [v; v; v; v] 15 = Ok (mkQuantParams F32.one 8)
  ∧ qv_dequant <$> quantize_value v F32.one 8 15 = Some F64.zero.
Proof. by split; vm_compute. Qed.

(** The range of a group need not contain zero, but its zero point is clamped to
    it: in a group of 1 and 2 both get code 15, and dequantize to the same value. *)
Example positive_group_saturates :
  match quant_params [F64.of_Z 1; F64.of_Z 2] 15 with
  | Ok p => qv_q <$> quantize_value (F64.of_Z 1) (qp_scale p) (qp_zero p) 15 = Some 15%Z
            ∧ qv_q <$> quantize_value (F64.of_Z 2) (qp_scale p) (qp_zero p) 15 = Some 15%Z
  | Err _ => False
  end.
Proof. by split; vm_compute. Qed.

(** A constant group of a value past the [i32] range overflows the sum with the
    zero point. *)
Example large_constant_group_overflows :
  let v := F64.of_Z 4294967296 in
  quant_params [v; v] 15 = Ok (mkQuantParams F32.one 8) ∧ quantize_value v F32.one 8 15 = None.
Proof. by split; vm_compute. Qed.
