(* ===== verification/Dequant.v ===== *)
(** * Packed four-bit weights (layers.rs)

    [dequantize_gptq] and [dequantize_awq] turn the packed words of a checkpoint
    into a weight matrix, with arithmetic on [f64] tensors: a word is made
    unsigned, each nibble is taken by dividing by a power of 16 and rounding
    down, and what is left is (code - zero point) times the scale of its group.
    The theorems say that this gives exactly the codes of the words: for GPTQ,
    the matrix the quantizer's own reading of its layer gives. *)
From S2P Require Import Prelude F32 CpuRef Tensors NdTensor IntFloat Gptq.
#[local] Open Scope list_scope.
#[local] Open Scope nat_scope.
#[local] Open Scope rllm_scope.

Section dequant.
Context {T : Type} `{!NdOps T} (show : nat → string).

(** [Tensor::new(x, device)?.broadcast_as(shape)], for [f64] and [f32]. *)
Definition broadcast_f64 (x : f64) (t : T) : result T TensorError := c <-? n_scalar_f64 x; n_expand c (n_dims t).
Definition broadcast_f32 (x : f32) (t : T) : result T TensorError := c <-? n_scalar_f32 x; n_expand c (n_dims t).

(** Signed words as unsigned [f64]: a negative one has 2^32 added. *)
Definition unsigned_f64 (words : T) : result T TensorError :=
  f <-? n_to_dtype words T_F64;
  zero <-? broadcast_f64 F64.zero f;
  is_neg <-? n_lt f zero;
  offset <-? broadcast_f64 (F64.of_Z 4294967296) f;
  neg <-? n_to_dtype is_neg T_F64;
  shift <-? n_mul neg offset;
  n_add f shift.

(** Nibble [i] of each word. *)
Definition unpack_nibble (u : T) (i : nat) : result T TensorError :=
  c16 <-? broadcast_f64 (F64.of_Z 16) u;
  divisor <-? broadcast_f64 (F64.of_Z (2 ^ Z.of_nat (4 * i))) u;
  q <-? n_div u divisor;
  shifted <-? n_floor q;
  q16 <-? n_div shifted c16;
  low <-? n_floor q16;
  temp <-? n_mul low c16;
  n_sub shifted temp.

(** A nibble of the packed zero points, plus one. *)
Definition unpack_zero (u : T) (i : nat) : result T TensorError :=
  one <-? broadcast_f32 F32.one u;
  masked <-? unpack_nibble u i;
  m <-? n_to_dtype masked T_F32;
  n_add m one.

Definition dequantize_gptq (qweight qzeros scales g_idx : T) (bits : nat) : result T TensorError :=
  require bits =? 4 else ("Only 4-bit GPTQ is supported, got " +:+ show bits)%string;
  d <-? dims2 qweight;
  let in_features := d.1 * 8 in
  let out_features := d.2 in
  qweight_u64 <-? unsigned_f64 qweight;
  w_unpacked <-? try_map (unpack_nibble qweight_u64) (seq 0 8);
  w_stacked <-? n_stack w_unpacked 1;
  w_reshaped <-? n_reshape w_stacked [in_features; out_features];
  w_raw <-? n_to_dtype w_reshaped T_F32;
  qzeros_u64 <-? unsigned_f64 qzeros;
  z_unpacked <-? try_map (unpack_zero qzeros_u64) (seq 0 8);
  z_stacked <-? n_stack z_unpacked 2;
  groups <-? n_dim qzeros 0;
  z_raw <-? n_reshape z_stacked [groups; out_features];
  g_idx_u32 <-? n_to_dtype g_idx T_U32;
  select_scales <-? n_index_select_0 scales g_idx_u32;
  select_zeros <-? n_index_select_0 z_raw g_idx_u32;
  centered <-? n_sub w_raw select_zeros;
  scales_f32 <-? n_to_dtype select_scales T_F32;
  w_dequant <-? n_mul centered scales_f32;
  w_dequant <-? n_to_dtype w_dequant (n_dtype scales);
  n_t w_dequant.

Definition awq_reverse_order : list nat := [0; 4; 1; 5; 2; 6; 3; 7].

(** The nibbles in the order of the columns they hold. *)
Definition reordered (l : list T) : option (list T) := mapM (λ idx, l !! idx) awq_reverse_order.

(** Words of the rows, one column of eight outputs per word. *)
Definition unpack_columns (words : T) (rows out_features : nat) (dtype : TDType) : option (result T TensorError) :=
  match (u <-? unsigned_f64 words; try_map (unpack_nibble u) (seq 0 8)) with
  | Err e => Some (Err e)
  | Ok unpacked =>
      l ← reordered unpacked;
      Some (stacked <-? n_stack l 2; raw <-? n_reshape stacked [rows; out_features]; n_to_dtype raw dtype)
  end.

(** One row per group, repeated over the group. *)
Definition expand_groups (t : T) (num_groups group_size out_features in_features : nat) : result T TensorError :=
  u <-? n_unsqueeze t 1;
  e <-? n_expand u [num_groups; group_size; out_features];
  n_reshape e [in_features; out_features].

(** [None] is the panic of a division by a zero group size. *)
Definition dequantize_awq (qweight qzeros scales : T) (bits group_size : nat) : option (result T TensorError) :=
  match (require bits =? 4 else ("Only 4-bit AWQ is supported, got " +:+ show bits)%string; dims2 qweight) with
  | Err e => Some (Err e)
  | Ok d =>
      let in_features := d.1 in
      let out_features := d.2 * 8 in
      if group_size =? 0 then None
      else
        let num_groups := in_features / group_size in
        bind_r (unpack_columns qweight in_features out_features (n_dtype scales)) (λ w_raw,
        bind_r (unpack_columns qzeros num_groups out_features (n_dtype scales)) (λ z_raw,
        Some (scales_expanded <-? expand_groups scales num_groups group_size out_features in_features;
              z_expanded <-? expand_groups z_raw num_groups group_size out_features in_features;
              centered <-? n_sub w_raw z_expanded;
              w_dequant <-? n_mul centered scales_expanded;
              n_t w_dequant)))
  end.
End dequant.

(** ** IEEE elements

    Elements of an [f32] or [f64] tensor are Rust floats: the library's
    elementwise operations are Rust's. *)
Class IeeeScalars (E : Type) `{!Scalars E} : Prop := {
  ieee_same : ∀ ty x, e_cast ty ty x = x;
  ieee_i32_f64 : ∀ z, e_cast T_I32 T_F64 (e_i32 z) = e_f64 (F64.of_Z z);
  ieee_u8_f64 : ∀ n, e_cast T_U8 T_F64 (e_u8 n) = e_f64 (F64.of_N n);
  ieee_f64_f32 : ∀ x, e_cast T_F64 T_F32 (e_f64 x) = e_f32 (F64.to_f32 x);
  ieee_lt : ∀ x y, e_lt (e_f64 x) (e_f64 y) = e_u8 (if F32.ltb x y then 1 else 0);
  ieee_add64 : ∀ x y, e_add (e_f64 x) (e_f64 y) = e_f64 (F64.add x y);
  ieee_sub64 : ∀ x y, e_sub (e_f64 x) (e_f64 y) = e_f64 (F64.sub x y);
  ieee_mul64 : ∀ x y, e_mul (e_f64 x) (e_f64 y) = e_f64 (F64.mul x y);
  ieee_div64 : ∀ x y, e_div (e_f64 x) (e_f64 y) = e_f64 (F64.div x y);
  ieee_floor64 : ∀ x, e_floor (e_f64 x) = e_f64 (floor64 x);
  ieee_add32 : ∀ x y, e_add (e_f32 x) (e_f32 y) = e_f32 (F32.add x y);
  ieee_sub32 : ∀ x y, e_sub (e_f32 x) (e_f32 y) = e_f32 (F32.sub x y);
  ieee_mul32 : ∀ x y, e_mul (e_f32 x) (e_f32 y) = e_f32 (F32.mul x y);
  ieee_u32 : ∀ n, (n <= u32_max)%N → e_to_u32 (e_u32 n) = n;
}.

Definition i32_range (z : Z) : Prop := (-2147483648 <= z < 2147483648)%Z.

Lemma nibble_at_lt w i : (nibble_at w i < 16)%N.
Proof. rewrite nibble_mod. apply N.mod_upper_bound. lia. Qed.

(** A property of two nibbles, by trying them all. *)
Lemma nibble_forall (P : N → N → bool) :
  forallb (λ k, forallb (λ j, P (N.of_nat k) (N.of_nat j)) (seq 0 16)) (seq 0 16) = true →
  ∀ x y, (x < 16)%N → (y < 16)%N → P x y = true.
Proof.
  intros Hall x y Hx Hy. rewrite forallb_forall in Hall. specialize (Hall (N.to_nat x) ltac:(apply in_seq; lia)).
  rewrite forallb_forall in Hall. specialize (Hall (N.to_nat y) ltac:(apply in_seq; lia)). by rewrite !N2Nat.id in Hall.
Qed.

#[local] Ltac by_nibbles f x y Hx Hy :=
  refine (bool_decide_eq_true_1 _ (nibble_forall f _ x y Hx Hy)); vm_compute; reflexivity.

Lemma nibble_f32 x : (x < 16)%N → F64.to_f32 (F64.of_N x) = F32.of_Z (Z.of_N x).
Proof. intros Hx. by_nibbles (λ x _ : N, bool_decide (F64.to_f32 (F64.of_N x) = F32.of_Z (Z.of_N x))) x x Hx Hx. Qed.

Lemma nibble_succ x : (x < 16)%N → F32.add (F32.of_Z (Z.of_N x)) F32.one = F32.of_Z (Z.of_N x + 1).
Proof. intros Hx. by_nibbles (λ x _ : N, bool_decide (F32.add (F32.of_Z (Z.of_N x)) F32.one = F32.of_Z (Z.of_N x + 1))) x x Hx Hx. Qed.

Lemma nibble_sub_succ x y : (x < 16)%N → (y < 16)%N →
  F32.sub (F32.of_Z (Z.of_N x)) (F32.of_Z (Z.of_N y + 1)) = F32.of_Z (Z.of_N x - (Z.of_N y + 1)).
Proof.
  intros Hx Hy. by_nibbles (λ x y : N, bool_decide (F32.sub (F32.of_Z (Z.of_N x)) (F32.of_Z (Z.of_N y + 1))
    = F32.of_Z (Z.of_N x - (Z.of_N y + 1)))) x y Hx Hy.
Qed.

Lemma nibble_sub x y : (x < 16)%N → (y < 16)%N →
  F32.sub (F32.of_Z (Z.of_N x)) (F32.of_Z (Z.of_N y)) = F32.of_Z (Z.of_N x - Z.of_N y).
Proof.
  intros Hx Hy. by_nibbles (λ x y : N, bool_decide (F32.sub (F32.of_Z (Z.of_N x)) (F32.of_Z (Z.of_N y))
    = F32.of_Z (Z.of_N x - Z.of_N y))) x y Hx Hy.
Qed.

Section values.
Context {T E : Type} `{!NdOps T, !Scalars E, !Elements T E, !LawfulNd T E, !IeeeScalars E}.
#[local] Abbreviation gives := (gives (T := T) (E := E)).

Lemma f64_float : is_float T_F64.
Proof. by right. Qed.
Lemma f32_float : is_float T_F32.
Proof. by left. Qed.
#[local] Hint Resolve f64_float f32_float : core.

Lemma broadcast_f64_gives x (t : T) ty d (f : list nat → E) : den t ty d f → gives (broadcast_f64 x t) T_F64 d (λ _, e_f64 x).
Proof using All.
  intros (Hd & _ & _). unfold broadcast_f64. destruct (scalar_f64_ok (T := T) (E := E) x) as (c & -> & Hc). cbn [result_bind].
  rewrite Hd. apply (expand_ok c T_F64 [] d (λ _, e_f64 x) Hc). unfold bfits. cbn. done.
Qed.

Lemma broadcast_f32_gives x (t : T) ty d (f : list nat → E) : den t ty d f → gives (broadcast_f32 x t) T_F32 d (λ _, e_f32 x).
Proof using All.
  intros (Hd & _ & _). unfold broadcast_f32. destruct (scalar_ok (T := T) (E := E) x) as (c & -> & Hc). cbn [result_bind].
  rewrite Hd. apply (expand_ok c T_F32 [] d (λ _, e_f32 x) Hc). unfold bfits. cbn. done.
Qed.

(** A word, unsigned. *)
Lemma unsigned_value z : i32_range z →
  F64.add (F64.of_Z z) (F64.mul (F64.of_N (if F32.ltb (F64.of_Z z) F64.zero then 1 else 0)) (F64.of_Z 4294967296))
  = F64.of_Z (Z.of_N (i32_as_u32 z)).
Proof.
  intros Hz. unfold i32_range, i32_as_u32 in *. rewrite of_Z_neg by lia.
  pose proof (Z.mod_pos_bound z 4294967296 ltac:(lia)). rewrite Z2N.id by lia. destruct (Z.ltb_spec z 0).
  - change (F64.mul (F64.of_N 1) (F64.of_Z 4294967296)) with (F64.of_Z 4294967296).
    replace (F64.of_Z z) with (F64.of_Z (- - z)) by (f_equal; lia). rewrite add_neg_int by lia. f_equal.
    assert ((z mod 4294967296)%Z = (z + 4294967296)%Z) as -> by (symmetry; apply (Z.mod_unique_pos z _ (-1)); lia). lia.
  - change (F64.mul (F64.of_N 0) (F64.of_Z 4294967296)) with F64.zero. rewrite Z.mod_small by lia.
    destruct (decide (z = 0)%Z) as [->|]; [done |]. destruct (of_Z_parts z ltac:(lia)) as (m & d & -> & _). done.
Qed.

Lemma unsigned_f64_gives (t : T) d (w : list nat → Z) :
  den t T_I32 d (λ i, e_i32 (w i)) → (∀ i, inb d i → i32_range (w i)) →
  gives (unsigned_f64 t) T_F64 d (λ i, e_f64 (F64.of_Z (Z.of_N (i32_as_u32 (w i))))).
Proof using All.
  intros Ht Hw. unfold unsigned_f64.
  destruct (to_dtype_ok t T_I32 T_F64 d _ Ht) as (f & -> & Hf). cbn [result_bind].
  apply (den_ext _ _ _ _ (λ i, e_f64 (F64.of_Z (w i)))) in Hf; [| intros; apply ieee_i32_f64].
  destruct (broadcast_f64_gives F64.zero f _ _ _ Hf) as (z & -> & Hz). cbn [result_bind].
  destruct (lt_ok f z T_F64 d _ _ f64_float Hf Hz) as (n & -> & Hn). cbn [result_bind].
  destruct (broadcast_f64_gives (F64.of_Z 4294967296) f _ _ _ Hf) as (o & -> & Ho). cbn [result_bind].
  destruct (to_dtype_ok n T_U8 T_F64 d _ Hn) as (n' & -> & Hn'). cbn [result_bind].
  apply (den_ext _ _ _ _ (λ i, e_f64 (F64.of_N (if F32.ltb (F64.of_Z (w i)) F64.zero then 1 else 0)))) in Hn';
    [| intros; cbn; by rewrite ieee_lt, ieee_u8_f64].
  destruct (mul_ok n' o T_F64 d _ _ f64_float Hn' Ho) as (s & -> & Hs). cbn [result_bind].
  eapply gives_ext; [apply (add_ok f s T_F64 d _ _ f64_float Hf Hs) |]. intros i Hi. cbn.
  by rewrite ieee_mul64, ieee_add64, unsigned_value by (by apply Hw).
Qed.

Lemma unpack_nibble_gives (u : T) d (w : list nat → N) i : i < 8 →
  den u T_F64 d (λ k, e_f64 (F64.of_Z (Z.of_N (w k)))) → (∀ k, inb d k → (w k < 4294967296)%N) →
  gives (unpack_nibble u i) T_F64 d (λ k, e_f64 (F64.of_N (nibble_at (w k) i))).
Proof using All.
  intros Hi Hu Hw. unfold unpack_nibble.
  destruct (broadcast_f64_gives (F64.of_Z 16) u _ _ _ Hu) as (c & -> & Hc). cbn [result_bind].
  destruct (broadcast_f64_gives (F64.of_Z (2 ^ Z.of_nat (4 * i))) u _ _ _ Hu) as (v & -> & Hv). cbn [result_bind].
  destruct (div_ok u v T_F64 d _ _ f64_float Hu Hv) as (q & -> & Hq). cbn [result_bind].
  destruct (floor_ok q T_F64 d _ f64_float Hq) as (s & -> & Hs). cbn [result_bind].
  destruct (div_ok s c T_F64 d _ _ f64_float Hs Hc) as (q16 & -> & Hq16). cbn [result_bind].
  destruct (floor_ok q16 T_F64 d _ f64_float Hq16) as (l & -> & Hl). cbn [result_bind].
  destruct (mul_ok l c T_F64 d _ _ f64_float Hl Hc) as (m & -> & Hm). cbn [result_bind].
  eapply gives_ext; [apply (sub_ok s m T_F64 d _ _ f64_float Hs Hm) |]. intros k Hk. cbn beta.
  rewrite !ieee_div64, !ieee_floor64, ieee_div64, ieee_floor64, ieee_mul64, ieee_sub64. do 1 f_equal.
  rewrite nibble_f64 by (pose proof (Hw k Hk); lia). unfold F64.of_N, F64.of_Z. f_equal. rewrite nibble_mod.
  rewrite N2Z.inj_mod, N2Z.inj_div, N2Z.inj_pow. do 2 f_equal. rewrite nat_N_Z. change (Z.of_N 16) with (2 ^ 4)%Z.
  rewrite <- Z.pow_mul_r by lia. f_equal. lia.
Qed.

Lemma unpack_zero_gives (u : T) d (w : list nat → N) i : i < 8 →
  den u T_F64 d (λ k, e_f64 (F64.of_Z (Z.of_N (w k)))) → (∀ k, inb d k → (w k < 4294967296)%N) →
  gives (unpack_zero u i) T_F32 d (λ k, e_f32 (F32.of_Z (Z.of_N (nibble_at (w k) i) + 1))).
Proof using All.
  intros Hi Hu Hw. unfold unpack_zero.
  destruct (broadcast_f32_gives F32.one u _ _ _ Hu) as (o & -> & Ho). cbn [result_bind].
  destruct (unpack_nibble_gives u d w i Hi Hu Hw) as (m & -> & Hm). cbn [result_bind].
  destruct (to_dtype_ok m T_F64 T_F32 d _ Hm) as (m' & -> & Hm'). cbn [result_bind].
  eapply gives_ext; [apply (add_ok m' o T_F32 d _ _ f32_float Hm' Ho) |]. intros k Hk. cbn beta.
  by rewrite ieee_f64_f32, nibble_f32, ieee_add32, nibble_succ by apply nibble_at_lt.
Qed.

Lemma try_map_gives (f : nat → result T TensorError) ty d (F : nat → list nat → E) n : ∀ k,
  (∀ i, k ≤ i < k + n → gives (f i) ty d (F i)) →
  ∃ l, try_map f (seq k n) = Ok l ∧ length l = n ∧ ∀ j t, l !! j = Some t → den t ty d (F (k + j)).
Proof.
  induction n as [|n IH]; intros k Hf; cbn [seq try_map]; [by exists [] |].
  destruct (Hf k ltac:(lia)) as (t & -> & Ht). cbn [result_bind]. destruct (IH (S k)) as (l & -> & Hl & Hd); [intros; apply Hf; lia |].
  cbn [result_bind]. exists (t :: l). split; [done |]. split; [cbn; lia |]. intros [|j] t' Ej; cbn in Ej.
  - injection Ej as <-. by rewrite Nat.add_0_r.
  - replace (k + S j) with (S k + j) by lia. by apply Hd.
Qed.

(** Eight tensors of nibbles, spread over the dimension that held the words. *)
Lemma stack_merge (l : list T) ty p r q d0 (F : nat → list nat → E) :
  length l = 8 → (∀ j t, l !! j = Some t → den t ty (p ++ r :: q) (F j)) → d0 = p ++ r * 8 :: q →
  gives (s <-? n_stack l (S (length p)); n_reshape s d0) ty d0
    (λ i, let k := default 0 (i !! length p) in F (k mod 8) (<[length p := k / 8]> i)).
Proof using All.
  intros Hl Hd ->.
  destruct (stack_ok l ty (p ++ r :: q) F (S (length p))) as (s & -> & Hs); [by intros -> | exact Hd | rewrite length_app; cbn; lia |].
  cbn [result_bind]. rewrite Hl in Hs.
  assert (Edims : take (S (length p)) (p ++ r :: q) ++ 8 :: drop (S (length p)) (p ++ r :: q) = p ++ r :: 8 :: q).
  { rewrite take_app_ge, drop_app_ge by lia. replace (S (length p) - length p) with 1 by lia. cbn. by rewrite drop_0, <- app_assoc. }
  rewrite Edims in Hs. apply (nd_reshape_ok s ty _ (p ++ r * 8 :: q) _ _ Hs).
  { clear. induction p as [|x p IH]; cbn in *; [lia |]. unfold nprod in *. by rewrite IH. }
  symmetry. apply (tab_split p r 8 q). intros i a b j Hi Ha Hb Hj. pose proof (inb_length _ _ Hi) as Hlen. rewrite <- Hlen.
  rewrite list_lookup_middle by done. change (default 0 (Some (a * 8 + b))) with (a * 8 + b).
  rewrite insert_app_r_alt, Nat.sub_diag by lia. cbn [insert list_insert].
  replace ((a * 8 + b) / 8) with a by (apply (Nat.div_unique _ _ _ b); lia).
  replace ((a * 8 + b) mod 8) with b by (apply (Nat.mod_unique _ _ a); lia).
  replace (S (length i)) with (length (i ++ [a])) by (rewrite length_app; cbn; lia).
  replace (i ++ a :: b :: j) with ((i ++ [a]) ++ b :: j) by (by rewrite <- app_assoc).
  rewrite list_lookup_middle by done. change (default 0 (Some b)) with b. f_equal.
  rewrite take_app_length. replace (S (length (i ++ [a]))) with (length (i ++ [a]) + 1) by lia. rewrite drop_app_add. cbn [drop].
  by rewrite drop_0, <- app_assoc.
Qed.

Lemma unpack_stack (f : nat → result T TensorError) ty p r q d0 (F : nat → list nat → E) :
  (∀ i, i < 8 → gives (f i) ty (p ++ r :: q) (F i)) → d0 = p ++ r * 8 :: q →
  ∃ l, try_map f (seq 0 8) = Ok l ∧ gives (s <-? n_stack l (S (length p)); n_reshape s d0) ty d0
    (λ i, let k := default 0 (i !! length p) in F (k mod 8) (<[length p := k / 8]> i)).
Proof using All.
  intros Hf Hd0. destruct (try_map_gives f ty (p ++ r :: q) F 8 0) as (l & -> & Hl & Hd); [intros; apply Hf; lia |].
  exists l. split; [done |]. by apply (stack_merge l ty p r q).
Qed.

(** The words of a checkpoint tensor, unsigned. *)
Definition word_at (d : list nat) (l : list Z) (i : list nat) : N := i32_as_u32 (default 0%Z (l !! ravel d i)).

Lemma i32_as_u32_lt z : (i32_as_u32 z < 4294967296)%N.
Proof. unfold i32_as_u32. pose proof (Z.mod_pos_bound z 4294967296 ltac:(lia)). lia. Qed.

Lemma words_unsigned (t : T) d l : n_dims t = d → n_dtype t = T_I32 → n_flat t = e_i32 <$> l → length l = nprod d → Forall i32_range l →
  gives (unsigned_f64 t) T_F64 d (λ i, e_f64 (F64.of_Z (Z.of_N (word_at d l i)))).
Proof using All.
  intros H1 H2 H3 Hl Hr. apply (unsigned_f64_gives t d (λ i, default 0%Z (l !! ravel d i))); [by apply den_list |].
  intros i Hi. destruct (lookup_lt_is_Some_2 l (ravel d i) ltac:(rewrite Hl; by apply ravel_lt)) as [z Hz]. rewrite Hz.
  by apply (Forall_lookup_1 _ _ _ _ Hr Hz).
Qed.

(** The checkpoint tensors of a quantized layer. *)
Definition holds_layer (qweight qzeros scales g_idx : T) (layer : QuantizedGptqLayer) : Prop :=
  let '(rows, out) := qweight_shape layer in
  (n_dims qweight = [rows; out] ∧ n_dtype qweight = T_I32 ∧ n_flat qweight = e_i32 <$> gl_qweight layer)
  ∧ (n_dims qzeros = [(qzeros_shape layer).1; (qzeros_shape layer).2] ∧ n_dtype qzeros = T_I32 ∧ n_flat qzeros = e_i32 <$> gl_qzeros layer)
  ∧ (n_dims scales = [(scales_shape layer).1; (scales_shape layer).2] ∧ n_dtype scales = T_F32 ∧ n_flat scales = e_f32 <$> gl_scales layer)
  ∧ (n_dims g_idx = [gl_in_features layer] ∧ n_dtype g_idx = T_U32 ∧ n_flat g_idx = e_u32 <$> gl_g_idx layer).

(** What the packing promises of a layer. *)
Record layer_ok (layer : QuantizedGptqLayer) : Prop := {
  lo_in : gl_in_features layer = gl_in_features layer / 8 * 8;
  lo_out : gl_out_features layer = gl_out_features layer / 8 * 8;
  lo_qweight : length (gl_qweight layer) = gl_in_features layer / 8 * gl_out_features layer ∧ Forall i32_range (gl_qweight layer);
  lo_qzeros : length (gl_qzeros layer) = gl_num_groups layer * (gl_out_features layer / 8) ∧ Forall i32_range (gl_qzeros layer);
  lo_scales : length (gl_scales layer) = gl_num_groups layer * gl_out_features layer;
  lo_g_idx : length (gl_g_idx layer) = gl_in_features layer
    ∧ Forall (λ g, N.to_nat g < gl_num_groups layer ∧ (g <= u32_max)%N) (gl_g_idx layer);
}.

Lemma dequantize_gptq_gives show (qweight qzeros scales g_idx : T) layer :
  layer_ok layer → holds_layer qweight qzeros scales g_idx layer →
  gives (dequantize_gptq show qweight qzeros scales g_idx 4) T_F32 [gl_out_features layer; gl_in_features layer]
    (λ i, match i with [o; j] => e_f32 (default F32.zero (dequantize_cell layer o j)) | _ => e_zero end).
Proof using All.
  intros [Hin Hout [Lw Rw] [Lz Rz] Ls [Lg Rg]].
  destruct layer as [qw qz sc gi n out groups bits gs]. unfold holds_layer, qweight_shape, qzeros_shape, scales_shape, PACK_FACTOR.
  cbn [gl_qweight gl_qzeros gl_scales gl_g_idx gl_in_features gl_out_features gl_num_groups fst snd] in *.
  intros ((W1 & W2 & W3) & (Z1 & Z2 & Z3) & (S1 & S2 & S3) & (G1 & G2 & G3)).
  set (p := n / 8) in *. set (c := out / 8) in *. clearbody p c. unfold dequantize_gptq, dims2. rewrite W1. cbn [Nat.eqb result_bind fst snd].
  rewrite <- Hin.
  destruct (words_unsigned qweight [p; out] qw W1 W2 W3 ltac:(cbn; lia) Rw) as (u & -> & Hu). cbn [result_bind].
  destruct (unpack_stack (unpack_nibble u) T_F64 [] p [out] [n; out]
    (λ i k, e_f64 (F64.of_N (nibble_at (word_at [p; out] qw k) i)))) as (l & -> & Hl); [| by cbn; rewrite <- Hin |].
  { intros i Hi. apply unpack_nibble_gives; [done | exact Hu | intros; apply i32_as_u32_lt]. }
  cbn [result_bind length] in Hl |- *. destruct Hl as (wr & Ew & Hwr). destruct (n_stack l 1) as [ws|]; [| done]. cbn [result_bind] in Ew |- *.
  rewrite Ew. cbn [result_bind]. clear Ew ws l.
  destruct (to_dtype_ok wr T_F64 T_F32 _ _ Hwr) as (w & -> & Hw). cbn [result_bind].
  destruct (words_unsigned qzeros [groups; c] qz Z1 Z2 Z3 ltac:(cbn; lia) Rz) as (v & -> & Hv). cbn [result_bind].
  destruct (unpack_stack (unpack_zero v) T_F32 [groups] c [] [groups; out]
    (λ i k, e_f32 (F32.of_Z (Z.of_N (nibble_at (word_at [groups; c] qz k) i) + 1)))) as (l & -> & Hl); [| by cbn; rewrite <- Hout |].
  { intros i Hi. apply unpack_zero_gives; [done | exact Hv | intros; apply i32_as_u32_lt]. }
  cbn [result_bind length] in Hl |- *. destruct Hl as (zr & Ez & Hzr). destruct (n_stack l 2) as [zs|]; [| done]. cbn [result_bind] in Ez |- *.
  unfold n_dim. rewrite Z1. cbn [lookup list_lookup result_bind]. rewrite Ez. cbn [result_bind]. clear Ez zs l.
  pose proof (den_list e_f32 F32.zero scales T_F32 [groups; out] sc S1 S2 S3 ltac:(cbn; lia)) as Hsc.
  pose proof (den_list e_u32 0%N g_idx T_U32 [n] gi G1 G2 G3 ltac:(cbn; lia)) as Hgi.
  destruct (to_dtype_ok g_idx T_U32 T_U32 _ _ Hgi) as (g & -> & Hg). cbn [result_bind].
  set (grp k := default 0%N (gi !! k)).
  assert (Hgrp : ∀ k, k < n → N.to_nat (grp k) < groups ∧ (grp k <= u32_max)%N).
  { intros k Hk. destruct (lookup_lt_is_Some_2 gi k ltac:(lia)) as [x Hx]. unfold grp. rewrite Hx.
    exact (Forall_lookup_1 _ _ _ _ Rg Hx). }
  apply (den_ext _ _ _ _ (λ i, e_u32 (grp (default 0 (i !! 0))))) in Hg.
  2: { intros [|k [|? ?]]; cbn [inb]; try tauto. intros _. rewrite ieee_same. cbn [ravel]. rewrite Nat.mul_1_r, Nat.add_0_r. done. }
  assert (Hidx : ∀ k, k < n → N.to_nat (e_to_u32 (e_u32 (grp (default 0 ([k] !! 0))) : E)) < groups).
  { intros k Hk. cbn. rewrite ieee_u32 by (by apply Hgrp). by apply Hgrp. }
  destruct (index_select_ok scales g T_F32 groups [out] n _ _ Hsc Hg Hidx) as (ss & -> & Hss). cbn [result_bind].
  destruct (index_select_ok zr g T_F32 groups [out] n _ _ Hzr Hg Hidx) as (sz & -> & Hsz). cbn [result_bind].
  destruct (sub_ok w sz T_F32 _ _ _ f32_float Hw Hsz) as (ce & -> & Hce). cbn [result_bind].
  destruct (to_dtype_ok ss T_F32 T_F32 _ _ Hss) as (sf & -> & Hsf). cbn [result_bind].
  destruct (mul_ok ce sf T_F32 _ _ _ f32_float Hce Hsf) as (m & -> & Hm). cbn [result_bind]. rewrite S2.
  destruct (to_dtype_ok m T_F32 T_F32 _ _ Hm) as (m' & -> & Hm'). cbn [result_bind].
  eapply gives_ext; [apply (t_ok m' T_F32 _ _ Hm'); cbn; lia |].
  intros [|o [|j [|? ?]]]; cbn [swap_last inb]; try tauto. intros (Ho & Hj & _).
  cbn [lookup list_lookup default]. change (default 0 (Some j)) with j. change (default 0 (Some o)) with o.
  rewrite !ieee_same, ieee_f64_f32, nibble_f32 by apply nibble_at_lt.
  rewrite ieee_u32 by (by apply Hgrp). cbn [length insert list_insert app lookup list_lookup].
  change (default 0 (Some o)) with o. unfold word_at. cbn [ravel nprod foldr]. rewrite !Nat.mul_1_r, !Nat.add_0_r.
  rewrite ieee_sub32, nibble_sub_succ, ieee_mul32 by apply nibble_at_lt. f_equal.
  unfold dequantize_cell, PACK_FACTOR. cbn [gl_qweight gl_qzeros gl_scales gl_g_idx gl_in_features gl_out_features].
  assert (out / 8 = c) as -> by (rewrite Hout; apply Nat.div_mul; lia). unfold id.
  pose proof (Hgrp j Hj) as [Hg1 Hg2]. assert (o / 8 < c) by (apply Nat.Div0.div_lt_upper_bound; lia).
  assert (j / 8 < p) by (apply Nat.Div0.div_lt_upper_bound; lia).
  destruct (lookup_lt_is_Some_2 qw (j / 8 * out + o) ltac:(nia)) as [x1 E1].
  destruct (lookup_lt_is_Some_2 gi j ltac:(lia)) as [x2 E2]. assert (grp j = x2) as Egrp by (unfold grp; by rewrite E2).
  destruct (lookup_lt_is_Some_2 sc (N.to_nat (grp j) * out + o) ltac:(nia)) as [x3 E3].
  destruct (lookup_lt_is_Some_2 qz (N.to_nat (grp j) * c + o / 8) ltac:(nia)) as [x4 E4].
  rewrite E1, E3, E4, E2. cbn [fmap option_fmap option_map mbind option_bind]. rewrite <- Egrp, E3.
  cbn [fmap option_fmap option_map mbind option_bind]. rewrite E4. done.
Qed.

(** The nibble of a word that holds column [j] of its eight. *)
Definition awq_nibble (w : N) (j : nat) : N := nibble_at w (default 0 ([0; 4; 1; 5; 2; 6; 3; 7] !! j)).

Lemma unpack_columns_gives (t : T) rows c l : n_dims t = [rows; c] → n_dtype t = T_I32 → n_flat t = e_i32 <$> l →
  length l = rows * c → Forall i32_range l →
  ∃ r, unpack_columns t rows (c * 8) T_F32 = Some r
    ∧ gives r T_F32 [rows; c * 8] (λ i, match i with
        | [a; o] => e_f32 (F32.of_Z (Z.of_N (awq_nibble (word_at [rows; c] l [a; o / 8]) (o mod 8)))) | _ => e_zero end).
Proof using All.
  intros H1 H2 H3 Hl Hr. unfold unpack_columns.
  destruct (words_unsigned t [rows; c] l H1 H2 H3 ltac:(cbn; lia) Hr) as (u & -> & Hu). cbn [result_bind].
  destruct (try_map_gives (unpack_nibble u) T_F64 [rows; c] (λ i k, e_f64 (F64.of_N (nibble_at (word_at [rows; c] l k) i))) 8 0)
    as (us & -> & Hlen & Hd).
  { intros i Hi. apply unpack_nibble_gives; [lia | exact Hu | intros; apply i32_as_u32_lt]. }
  do 8 (destruct us as [|? us]; [discriminate Hlen |]). destruct us; [| discriminate Hlen].
  unfold reordered, awq_reverse_order. cbn [mapM lookup list_lookup mbind option_bind mret option_ret].
  eexists. split; [reflexivity |].
  match goal with |- context [n_stack ?L 2] =>
    destruct (stack_merge L T_F64 [rows] c [] [rows; c * 8]
      (λ j k, e_f64 (F64.of_N (awq_nibble (word_at [rows; c] l k) j)))) as (raw & Er & Hraw); [done | | done |] end.
  { intros j x Ej. do 8 (destruct j as [|j]; [injection Ej as <-; first [exact (Hd 0 _ eq_refl) | exact (Hd 1 _ eq_refl) | exact (Hd 2 _ eq_refl)
      | exact (Hd 3 _ eq_refl) | exact (Hd 4 _ eq_refl) | exact (Hd 5 _ eq_refl) | exact (Hd 6 _ eq_refl) | exact (Hd 7 _ eq_refl)] |]). done. }
  cbn [length] in Er, Hraw. destruct (n_stack _ 2) as [s|]; [| done]. cbn [result_bind] in Er |- *. rewrite Er. cbn [result_bind].
  eapply gives_ext; [apply (to_dtype_ok raw T_F64 T_F32 _ _ Hraw) |].
  intros [|a [|o [|? ?]]]; cbn [inb]; try tauto. intros _. cbn [lookup list_lookup insert list_insert]. change (default 0 (Some o)) with o.
  by rewrite ieee_f64_f32, nibble_f32 by apply nibble_at_lt.
Qed.

Lemma expand_groups_gives (t : T) groups gs out n (f : list nat → E) : 0 < gs → n = groups * gs → den t T_F32 [groups; out] f →
  gives (expand_groups t groups gs out n) T_F32 [n; out] (λ i, match i with [a; o] => f [a / gs; o] | _ => e_zero end).
Proof using All.
  intros Hgs -> Ht. unfold expand_groups. destruct (unsqueeze_ok t T_F32 _ f 1 Ht ltac:(cbn; lia)) as (u & -> & Hu). cbn [result_bind take drop app] in *.
  destruct (expand_ok u T_F32 _ [groups; gs; out] _ Hu) as (e & -> & He); [unfold bfits; cbn; by rewrite !Nat.eqb_refl, !orb_true_r |].
  cbn [result_bind]. apply (nd_reshape_ok e T_F32 _ _ _ _ He); [cbn; lia |]. symmetry. apply (tab_split [] groups gs [out]).
  intros [|? ?] a b q; [| done]. intros _ Ha Hb Hq. destruct q as [|o [|? ?]]; cbn [inb] in Hq; try tauto. cbn [app].
  replace ((a * gs + b) / gs) with a by (apply (Nat.div_unique _ _ _ b); lia). cbn [bidx length drop zip_with take app].
  unfold bidx. cbn [length Nat.sub drop zip_with take app]. f_equal. destruct (Nat.eqb_spec groups 1), (Nat.eqb_spec out 1); repeat f_equal; lia.
Qed.
End values.

(** ** The layers the quantizer makes *)
Lemma for_each_keep {S} (J : S → Prop) body ks : ∀ s s',
  J s → (∀ k s s', body k s = Some s' → J s → J s') → for_each body ks s = Some s' → J s'.
Proof.
  induction ks as [|k ks IH]; intros s s' Hs Hb; cbn; [by intros [= <-] |].
  destruct (body k s) as [s1|] eqn:E; [| done]. cbn. apply IH; [by eapply Hb | done].
Qed.

Lemma lor_lt a b k : (a < 2 ^ k)%N → (b < 2 ^ k)%N → (N.lor a b < 2 ^ k)%N.
Proof.
  intros Ha Hb. rewrite <- (N.mod_small a (2 ^ k)), <- (N.mod_small b (2 ^ k)) by done.
  rewrite <- !N.land_ones, <- N.land_lor_distr_l, N.land_ones. apply N.mod_upper_bound. apply N.pow_nonzero. lia.
Qed.

Lemma pack_word_range v w : pack_word v = Some w → i32_range w.
Proof.
  unfold pack_word. match goal with |- context [for_each ?b ?ks ?s] => destruct (for_each b ks s) as [acc|] eqn:E end; [| done].
  cbn. intros [= <-]. apply (for_each_keep (λ acc, (acc < 2 ^ 32)%N)) in E; [| done |].
  - unfold i32_range, u32_as_i32. change (2 ^ 32)%N with 4294967296%N in E. destruct (N.ltb_spec acc 2147483648); lia.
  - intros k s s'. destruct (v k); [| done]. cbn. intros [= <-] Hs. apply lor_lt; [done |].
    unfold as_u32. change (2 ^ 32)%N with 4294967296%N. apply N.mod_upper_bound. lia.
Qed.

(** A grid of packed words. *)
Lemma grid_range (v : nat → nat → nat → option N) (at_ : nat → nat → nat) rows cols l l' :
  Forall i32_range l →
  for_each (λ r, for_each (λ c packed, word ← pack_word (v r c); vec_set (at_ r c) word packed) (seq 0 cols)) (seq 0 rows) l = Some l' →
  Forall i32_range l'.
Proof.
  intros Hl. apply for_each_keep; [done |]. intros r s s' Hr Hs. revert Hr. apply for_each_keep; [done |].
  intros c t t'. destruct (pack_word (v r c)) as [w|] eqn:Ew; [| done]. cbn. unfold vec_set.
  destruct (_ <? _); [| done]. intros [= <-] Ht. apply Forall_insert; [done | by eapply pack_word_range].
Qed.

Lemma pack_qweight_range q n out l : pack_qweight q n out = Some l → Forall i32_range l.
Proof.
  unfold pack_qweight. apply (grid_range (λ r o k, q !! ((r * PACK_FACTOR + k) * out + o)) (λ r o, r * out + o)).
  apply Forall_replicate. unfold i32_range. lia.
Qed.

Lemma pack_qzeros_range z groups out l : pack_qzeros z groups out = Some (Ok l) → Forall i32_range l.
Proof.
  unfold pack_qzeros. destruct (negb _); [done |]. cbv zeta. unfold ok_r.
  match goal with |- context [for_each ?b ?ks ?s] => destruct (for_each b ks s) as [l'|] eqn:E end; [| done].
  cbn. intros [= <-]. revert E.
  apply (grid_range (λ g c k, zero ← z !! (g * out + (c * PACK_FACTOR + k)); Some (zero - 1)%N) (λ g c, g * (out / PACK_FACTOR) + c)).
  apply Forall_replicate. unfold i32_range. lia.
Qed.

Lemma made_layer_ok weights out n cal cfg order h c layer :
  gptq_checks weights out n cal cfg = Ok () → column_order cal (gq_act_order cfg) = Some order → (N.of_nat n <= u32_max)%N → made weights out n cal cfg order h c layer → layer_ok layer.
Proof.
  intros Hc Hord Hn [_ _ [C1 C2 C3 C4 C5] Eq Ez Hs (H1 & H2 & _) [Lg Hg] Hgr].
  destruct (gptq_checks_Ok _ _ _ _ _ Hc) as (_ & Hgs & Hn8 & Ho8 & _ & _).
  pose proof (column_order_checked _ _ _ _ _ _ Hc Hord) as Hperm.
  assert (Ein : n = n / 8 * 8) by (pose proof (Nat.div_mod_eq n 8); lia). assert (Eout : out = out / 8 * 8) by (pose proof (Nat.div_mod_eq out 8); lia).
  pose proof (pack_qweight_range _ _ _ _ Eq) as Rw. pose proof (pack_qzeros_range _ _ _ _ Ez) as Rz.
  destruct (pack_qweight_spec (cl_q c) (n / 8) out) as (qw & Eq' & Lw & _); [by rewrite <- Ein | done |]. rewrite <- Ein in Eq'.
  destruct (pack_qzeros_spec (cl_zeros c) (gl_num_groups layer) (out / 8)) as (qz & Ez' & Lz & _); [by rewrite <- Eout | done |].
  rewrite <- Eout in Ez'. rewrite Eq in Eq'. injection Eq' as <-. rewrite Ez in Ez'. injection Ez' as <-.
  split; rewrite ?H1, ?H2, ?Hs; try done. split; [done |]. apply Forall_lookup. intros i g Hi.
  assert (Hin : i < n) by (apply lookup_lt_Some in Hi; lia).
  destruct (list_elem_of_lookup_1 order i) as [p Hp]; [rewrite Hperm; apply elem_of_seq; lia |].
  assert (Hpn : p < n) by (apply lookup_lt_Some in Hp; rewrite Hperm, length_seq in Hp; lia).
  rewrite (Hg p i Hp) in Hi. injection Hi as <-. rewrite Nat2N.id. split; [by apply Hgr |].
  assert (p / gq_group_size cfg ≤ p) by (apply Nat.Div0.div_le_upper_bound; nia). lia.
Qed.

Section export.
Context {T E : Type} `{!NdOps T, !Scalars E, !Elements T E, !LawfulNd T E, !IeeeScalars E}.

(** Quantized layers load as they were quantized.  Whatever layer the quantizer
    makes of a weight matrix, when its words, zero points, scales and group
    indices are read back as checkpoint tensors, the dequantizer of the model's
    linear layers does not fail, and gives a matrix of the original shape whose
    element at output o and input i is bit for bit the quantizer's own reading of
    the layer, (code - zero point) times the scale of the input's group. *)
Theorem quantized_layer_loads show weights out n cal cfg layer (qweight qzeros scales g_idx : T) :
  quantize_gptq weights out n cal cfg = Some (Ok layer) → length (cal_hessian cal) = n * n → (N.of_nat n <= u32_max)%N →
  holds_layer (E := E) qweight qzeros scales g_idx layer →
  gives (E := E) (dequantize_gptq show qweight qzeros scales g_idx (gl_bits layer)) T_F32 [out; n]
    (λ i, match i with [o; j] => e_f32 (default F32.zero (dequantize_cell layer o j)) | _ => e_zero end)
  ∧ ∀ o i, o < out → i < n → is_Some (dequantize_cell layer o i).
Proof using All.
  intros Hq Hcal Hn Hh.
  destruct (quantize_gptq_order _ _ _ _ _ _ Hq) as (Hc & order & Hord).
  pose proof (quantize_gptq_made weights out n cal cfg order Hc Hcal Hn Hord) as Hm. rewrite Hq in Hm. cbn [outcome] in Hm.
  destruct Hm as (h & c & Hm). pose proof (made_layer_ok _ _ _ _ _ _ _ _ _ Hc Hord Hn Hm) as Hok.
  destruct (md_sizes _ _ _ _ _ _ _ _ _ Hm) as (E1 & E2 & E3 & _). rewrite E3. split.
  - rewrite <- E1, <- E2. by apply dequantize_gptq_gives.
  - intros o i Ho Hi. destruct Hok as [Hin Hout [Lw _] [Lz _] Ls [Lg Rg]]. rewrite E1, E2 in *. unfold dequantize_cell, PACK_FACTOR.
    rewrite E2. assert (i / 8 < n / 8) by (apply Nat.Div0.div_lt_upper_bound; lia).
    assert (o / 8 < out / 8) by (apply Nat.Div0.div_lt_upper_bound; lia).
    destruct (lookup_lt_is_Some_2 (gl_qweight layer) (i / 8 * out + o) ltac:(nia)) as [x1 ->].
    destruct (lookup_lt_is_Some_2 (gl_g_idx layer) i ltac:(lia)) as [g Eg]. rewrite Eg.
    destruct (Forall_lookup_1 _ _ _ _ Rg Eg) as [Hg _].
    cbn [fmap option_fmap option_map mbind option_bind].
    destruct (lookup_lt_is_Some_2 (gl_scales layer) (N.to_nat g * out + o) ltac:(nia)) as [x3 ->].
    destruct (lookup_lt_is_Some_2 (gl_qzeros layer) (N.to_nat g * (out / 8) + o / 8) ltac:(nia)) as [x4 ->]. by eexists.
Qed.
End export.

(** ** AWQ *)
Section awq.
Context {T E : Type} `{!NdOps T, !Scalars E, !Elements T E, !LawfulNd T E, !IeeeScalars E}.

(** AWQ weights.  On packed tensors of fitting shapes the AWQ dequantizer does not
    fail, and gives the transposed matrix whose element at output o and input i is
    (code - zero point) times the scale of the input's group: the codes of eight
    consecutive outputs are the nibbles 0, 4, 1, 5, 2, 6, 3, 7 of one word, and
    the zero points those of the group's word. *)
Theorem awq_dequantized show (qweight qzeros scales : T) qw qz sc groups gs c :
  0 < gs → let n := groups * gs in let out := c * 8 in
  n_dims qweight = [n; c] → n_dtype qweight = T_I32 → n_flat qweight = e_i32 <$> qw → length qw = n * c → Forall i32_range qw →
  n_dims qzeros = [groups; c] → n_dtype qzeros = T_I32 → n_flat qzeros = e_i32 <$> qz → length qz = groups * c → Forall i32_range qz →
  n_dims scales = [groups; out] → n_dtype scales = T_F32 → n_flat scales = e_f32 <$> sc → length sc = groups * out →
  ∃ r, dequantize_awq show qweight qzeros scales 4 gs = Some r
    ∧ gives (E := E) r T_F32 [out; n] (λ i, match i with
        | [o; j] =>
            let q := awq_nibble (word_at [n; c] qw [j; o / 8]) (o mod 8) in
            let z := awq_nibble (word_at [groups; c] qz [j / gs; o / 8]) (o mod 8) in
            e_f32 (F32.mul (F32.of_Z (Z.of_N q - Z.of_N z)) (default F32.zero (sc !! (j / gs * out + o))))
        | _ => e_zero end).
Proof using All.
  intros Hgs n out W1 W2 W3 Lw Rw Z1 Z2 Z3 Lz Rz S1 S2 S3 Ls. unfold dequantize_awq, dims2. rewrite W1.
  cbn [Nat.eqb result_bind fst snd]. fold out. rewrite (proj2 (Nat.eqb_neq gs 0)), S2 by lia.
  assert (n / gs = groups) as -> by (unfold n; apply Nat.div_mul; lia).
  destruct (unpack_columns_gives qweight n c qw W1 W2 W3 Lw Rw) as (rw & Ew & w & -> & Hw). fold out in Ew, Hw. rewrite Ew. cbn [bind_r].
  destruct (unpack_columns_gives qzeros groups c qz Z1 Z2 Z3 Lz Rz) as (rz & Ez & z & -> & Hz). fold out in Ez, Hz. rewrite Ez. cbn [bind_r].
  eexists. split; [reflexivity |].
  pose proof (den_list e_f32 F32.zero scales T_F32 [groups; out] sc S1 S2 S3 ltac:(cbn; lia)) as Hsc.
  destruct (expand_groups_gives scales groups gs out n _ Hgs eq_refl Hsc) as (se & -> & Hse). cbn [result_bind].
  destruct (expand_groups_gives z groups gs out n _ Hgs eq_refl Hz) as (ze & -> & Hze). cbn [result_bind].
  destruct (sub_ok w ze T_F32 _ _ _ ltac:(by left) Hw Hze) as (ce & -> & Hce). cbn [result_bind].
  destruct (mul_ok ce se T_F32 _ _ _ ltac:(by left) Hce Hse) as (m & -> & Hm). cbn [result_bind].
  eapply gives_ext; [apply (t_ok m T_F32 _ _ Hm); cbn; lia |].
  intros [|o [|j [|? ?]]]; cbn [swap_last inb]; try tauto. intros _. cbv zeta.
  rewrite ieee_sub32, ieee_mul32, nibble_sub by apply nibble_at_lt. do 3 f_equal. cbn [ravel nprod foldr]. f_equal. lia.
Qed.
End awq.

(** ** Elements that are Rust numbers

    The library's sums and transcendental functions are left to the caller. *)
Inductive Value : Type := V32 (x : f32) | V64 (x : f64) | VI32 (z : Z) | VU32 (n : N) | VU8 (n : N).

Definition lift2 (f g : spec_float → spec_float → spec_float) (a b : Value) : Value :=
  match a, b with V32 x, V32 y => V32 (f x y) | V64 x, V64 y => V64 (g x y) | _, _ => a end.
Definition lift1 (f g : spec_float → spec_float) (a : Value) : Value :=
  match a with V32 x => V32 (f x) | V64 x => V64 (g x) | _ => a end.
Definition value_cast (from to : TDType) (a : Value) : Value :=
  match a, to with
  | VI32 z, T_F64 => V64 (F64.of_Z z)
  | VU8 n, T_F64 => V64 (F64.of_N n)
  | VU32 n, T_F64 => V64 (F64.of_N n)
  | V64 x, T_F32 => V32 (F64.to_f32 x)
  | V32 x, T_F64 => V64 (F64.of_f32 x)
  | _, _ => a
  end.

#[local] Instance value_scalars : Scalars Value := {
  e_add := lift2 F32.add F64.add;
  e_sub := lift2 F32.sub F64.sub;
  e_mul := lift2 F32.mul F64.mul;
  e_div := lift2 F32.div F64.div;
  e_lt a b := match a, b with V64 x, V64 y => VU8 (if F32.ltb x y then 1 else 0) | _, _ => VU8 0 end;
  e_floor := lift1 id floor64;
  e_sqr a := lift2 F32.mul F64.mul a a;
  e_sqrt := lift1 F32.sqrt F64.sqrt;
  e_neg := lift1 SFopp F64.neg;
  e_silu := id;
  e_cos := id;
  e_sin := id;
  e_dot l m := foldl (lift2 F32.add F64.add) (V32 F32.zero) (zip_with (lift2 F32.mul F64.mul) l m);
  e_mean l := foldl (lift2 F32.add F64.add) (V32 F32.zero) l;
  e_softmax := id;
  e_cast from to a := if decide (from = to) then a else value_cast from to a;
  e_f32 := V32;
  e_f64 := V64;
  e_u32 := VU32;
  e_i32 := VI32;
  e_u8 := VU8;
  e_to_f32 a := match a with V32 x => x | _ => F32.zero end;
  e_to_u32 a := match a with VU32 n => n | _ => 0%N end;
}.

#[local] Instance value_ieee : IeeeScalars Value.
Proof. split; try done. intros ty x. cbn. by rewrite decide_True. Qed.

#[local] Existing Instances host_nd host_elements host_nd_lawful.

(** The checkpoint tensors of a layer. *)
Definition layer_tensors (layer : QuantizedGptqLayer) : NdHost Value * NdHost Value * NdHost Value * NdHost Value :=
  (mkNdHost [(qweight_shape layer).1; (qweight_shape layer).2] T_I32 (VI32 <$> gl_qweight layer),
   mkNdHost [(qzeros_shape layer).1; (qzeros_shape layer).2] T_I32 (VI32 <$> gl_qzeros layer),
   mkNdHost [(scales_shape layer).1; (scales_shape layer).2] T_F32 (V32 <$> gl_scales layer),
   mkNdHost [gl_in_features layer] T_U32 (VU32 <$> gl_g_idx layer)).

Lemma quantized_layer_loads_witness :
  ∃ layer t, quantize_gptq demo_gptq_weights 8 8 demo_calibration demo_gptq_config = Some (Ok layer)
    ∧ dequantize_gptq (λ _, "") (layer_tensors layer).1.1.1 (layer_tensors layer).1.1.2 (layer_tensors layer).1.2 (layer_tensors layer).2
        (gl_bits layer) = Ok t
    ∧ nh_dims t = [8; 8] ∧ is_Some (dequantize_cell layer 3 5).
Proof.
  destruct (quantize_gptq demo_gptq_weights 8 8 demo_calibration demo_gptq_config) as [[layer|e]|] eqn:Eq;
    [| vm_compute in Eq; discriminate Eq | vm_compute in Eq; discriminate Eq].
  destruct (quantized_layer_loads (E := Value) (λ _, ""%string) demo_gptq_weights 8 8 demo_calibration demo_gptq_config layer
    (layer_tensors layer).1.1.1 (layer_tensors layer).1.1.2 (layer_tensors layer).1.2 (layer_tensors layer).2 Eq) as [(t & Et & Hd & _) Hs];
    [vm_compute; reflexivity | vm_compute; discriminate | by split_and! |].
  exists layer, t. split; [reflexivity |]. split; [exact Et |]. split; [exact Hd |]. apply Hs; lia.
Defined.

Lemma awq_dequantized_witness :
  ∃ t : NdHost Value, dequantize_awq (λ _, "") (mkNdHost [8; 1] T_I32 (VI32 <$> replicate 8 1985229328%Z))
      (mkNdHost [1; 1] T_I32 [VI32 858993459]) (mkNdHost [1; 8] T_F32 (V32 <$> replicate 8 F32.one)) 4 8 = Some (Ok t)
    ∧ nh_dims t = [8; 8].
Proof.
  destruct (awq_dequantized (T := NdHost Value) (E := Value) (λ _, ""%string) (mkNdHost [8; 1] T_I32 (VI32 <$> replicate 8 1985229328%Z))
    (mkNdHost [1; 1] T_I32 [VI32 858993459]) (mkNdHost [1; 8] T_F32 (V32 <$> replicate 8 F32.one))
    (replicate 8 1985229328%Z) [858993459%Z] (replicate 8 F32.one) 1 8 1) as (r & Er & t & -> & Hd & _);
    try reflexivity; try lia; try (repeat constructor; unfold i32_range; lia).
  exists t. split; [exact Er | exact Hd].
Defined.

(** The words of the source's own test: 0x76543210 with zero point 3. *)
Example awq_test_row :
  match dequantize_awq (λ _, ""%string) (mkNdHost [8; 1] T_I32 (VI32 <$> replicate 8 1985229328%Z))
      (mkNdHost [1; 1] T_I32 [VI32 858993459]) (mkNdHost [1; 8] T_F32 (V32 <$> replicate 8 F32.one)) 4 8 with
  | Some (Ok t) => omap (λ o, nh_data t !! (o * 8)) (seq 0 8) = (λ z, V32 (F32.of_Z z)) <$> [-3; 1; -2; 2; -1; 3; 0; 4]%Z
  | _ => False
  end.
Proof. vm_compute. reflexivity. Qed.
