(* ===== verification/Rope.v ===== *)
(** * Rotary position embeddings (rope.rs)

    The tables of cosines and sines, one row per position, and their application
    to queries and keys.  [powf] is the platform's. *)
From S2P Require Import Prelude F32 Tensors NdTensor.
#[local] Open Scope list_scope.
#[local] Open Scope nat_scope.
#[local] Open Scope rllm_scope.

Section rope.
Context {T : Type} `{!NdOps T} (powf : f64 → f64 → f64).

Record RotaryEmbedding : Type := mkRope { cos_cache : T; sin_cache : T }.

(** [1.0 / theta.powf(i / dim)] for the even [i] below [dim]. *)
Definition inv_freqs (dim : nat) (theta : f32) : list f64 :=
  (λ k, F64.div (F64.of_Z 1)
          (powf (F64.of_f32 theta) (F64.div (F64.of_N (N.of_nat (2 * k))) (F64.of_N (N.of_nat dim))))) <$> seq 0 (cdiv dim 2).

Definition rope_new (dim max_seq_len : nat) (theta : f32) : result RotaryEmbedding TensorError :=
  let inv_freq := inv_freqs dim theta in
  let inv_freq_len := length inv_freq in
  v <-? n_from_f64 inv_freq [1; inv_freq_len];
  inv_freq <-? n_to_dtype v T_F64;
  range <-? n_arange_u32 0 (as_u32 (N.of_nat max_seq_len));
  p <-? n_to_dtype range T_F64;
  positions <-? n_reshape p [max_seq_len; 1];
  inv_freq <-? n_reshape inv_freq [1; inv_freq_len];
  freqs <-? n_matmul positions inv_freq;
  c <-? n_cos freqs;
  cos_cache <-? n_to_dtype c T_F32;
  s <-? n_sin freqs;
  sin_cache <-? n_to_dtype s T_F32;
  Ok (mkRope cos_cache sin_cache).

Definition gather_cache (cache : T) (positions : list nat) : result T TensorError :=
  match positions with
  | [] => n_narrow cache 0 0 0
  | _ =>
      indices <-? n_from_u32 ((λ p, as_u32 (N.of_nat p)) <$> positions) [length positions];
      n_index_select_0 cache indices
  end.

Definition apply_rotary_emb (x cos sin : T) : result T TensorError :=
  last <-? minus1 x;
  dim <-? dim_minus1 x;
  let half_dim := dim / 2 in
  x1 <-? n_narrow x last 0 half_dim;
  x2 <-? n_narrow x last half_dim half_dim;
  let dtype := n_dtype x in
  cos <-? n_to_dtype cos dtype;
  sin <-? n_to_dtype sin dtype;
  last_cos <-? minus1 cos;
  cos <-? n_cat [cos; cos] last_cos;
  cos <-? n_unsqueeze cos 0;
  cos <-? n_unsqueeze cos 0;
  last_sin <-? minus1 sin;
  sin <-? n_cat [sin; sin] last_sin;
  sin <-? n_unsqueeze sin 0;
  sin <-? n_unsqueeze sin 0;
  n <-? n_neg x2;
  last_n <-? minus1 n;
  rotated <-? n_cat [n; x1] last_n;
  a <-? n_broadcast_mul x cos;
  b <-? n_broadcast_mul rotated sin;
  n_add a b.

(** [apply] *)
Definition rope_apply (r : RotaryEmbedding) (q k : T) (positions : list nat) : result (T * T) TensorError :=
  cos <-? gather_cache (cos_cache r) positions;
  sin <-? gather_cache (sin_cache r) positions;
  q_rot <-? apply_rotary_emb q cos sin;
  k_rot <-? apply_rotary_emb k cos sin;
  Ok (q_rot, k_rot).
End rope.
Arguments RotaryEmbedding : clear implicits.
Arguments mkRope {T}.
Arguments cos_cache {T}.
Arguments sin_cache {T}.

(** ** What is computed *)
Section values.
Context {T E : Type} `{!NdOps T, !Scalars E, !Elements T E, !LawfulNd T E, !LawfulScalars E}.
#[local] Abbreviation gives := (gives (T := T) (E := E)).
#[local] Abbreviation den := (den (T := T) (E := E)).

(** The tables hold [c] and [s], for the positions below [max] and the [half]
    frequencies. *)
Record rope_holds (r : RotaryEmbedding T) (max half : nat) (c s : nat → nat → E) : Prop := {
  rope_cos : den (cos_cache r) T_F32 [max; half] (λ i, c (default 0 (i !! 0)) (default 0 (i !! 1)));
  rope_sin : den (sin_cache r) T_F32 [max; half] (λ i, s (default 0 (i !! 0)) (default 0 (i !! 1)));
}.

(** The rotation of a vector of [2 * half] numbers at position [p]. *)
Definition rotate (half : nat) (c s : nat → nat → E) (p : nat) (x : nat → E) (d : nat) : E :=
  let k := if d <? half then d else d - half in
  e_add (e_mul (x d) (c p k))
        (e_mul (if d <? half then e_neg (x (half + d)) else x (d - half)) (s p k)).

(** A vector is rotated by looking at its own numbers only. *)
Lemma rotate_ext half c s p x y d : d < half + half → (∀ k, k < half + half → x k = y k) →
  rotate half c s p x d = rotate half c s p y d.
Proof.
  intros Hd Hxy. unfold rotate. rewrite (Hxy d Hd). destruct (Nat.ltb_spec d half); rewrite Hxy by lia; done.
Qed.

Lemma gather_gives (cache : T) max half (c : nat → nat → E) positions :
  den cache T_F32 [max; half] (λ i, c (default 0 (i !! 0)) (default 0 (i !! 1))) →
  positions ≠ [] → Forall (λ p, p < max) positions → (N.of_nat max <= u32_max)%N →
  gives (gather_cache cache positions) T_F32 [length positions; half]
    (λ i, c (default 0 (positions !! default 0 (i !! 0))) (default 0 (i !! 1))).
Proof using All.
  intros Hc Hne Hp Hmax. unfold gather_cache. destruct positions as [|p0 ps] eqn:Eps; [done |]. rewrite <- Eps in *. clear p0 ps Hne Eps.
  assert (Hsmall : ∀ k x, positions !! k = Some x → as_u32 (N.of_nat x) = N.of_nat x ∧ x < max).
  { intros k x Hx. pose proof (Forall_lookup_1 _ _ _ _ Hp Hx) as Hlt. cbn in Hlt. split; [| done]. unfold as_u32, u32_max in *. apply N.mod_small. lia. }
  destruct (nd_from_u32_ok (T := T) (E := E) ((λ p, as_u32 (N.of_nat p)) <$> positions) [length positions]
    (λ i, e_u32 (N.of_nat (default 0 (positions !! default 0 (i !! 0)))))) as (ids & -> & Hids).
  { rewrite length_fmap. cbn. lia. }
  { rewrite <- list_fmap_compose. rewrite (tab_ext [length positions] _ (λ i, e_u32 (N.of_nat (default 0 (positions !! ravel [length positions] i))))).
    2: { intros [|k [|? ?]]; cbn [inb]; try tauto. intros _. cbn [ravel nprod foldr lookup list_lookup]. by rewrite Nat.mul_1_r, Nat.add_0_r. }
    rewrite (tab_ravel [length positions] (λ k, e_u32 (N.of_nat (default 0 (positions !! k))))). cbn [nprod foldr]. rewrite Nat.mul_1_r.
    apply list_eq. intros k. rewrite !list_lookup_fmap. destruct (positions !! k) as [x|] eqn:Ek.
    - rewrite lookup_seq_lt by (by eapply lookup_lt_Some). cbn. rewrite Ek. cbn. by destruct (Hsmall k x Ek) as [-> _].
    - apply lookup_ge_None in Ek. rewrite lookup_ge_None_2; [done |]. by rewrite length_seq. }
  cbn [result_bind]. eapply gives_ext.
  - apply (index_select_ok cache ids T_F32 max [half] (length positions) _ _ Hc Hids). intros k Hk. cbn [lookup list_lookup].
    change (default 0 (Some k)) with k. destruct (lookup_lt_is_Some_2 positions k Hk) as [x Hx]. rewrite Hx. cbn.
    destruct (Hsmall k x Hx) as [E1 Hlt]. rewrite e_to_u32_of by (unfold u32_max in *; lia). lia.
  - intros [|k [|j [|? ?]]]; cbn [inb]; try tauto. intros (Hk & Hj & _). cbn [lookup list_lookup].
    change (default 0 (Some k)) with k. destruct (lookup_lt_is_Some_2 positions k Hk) as [x Hx]. rewrite Hx. cbn.
    destruct (Hsmall k x Hx) as [E1 Hlt]. rewrite e_to_u32_of by (unfold u32_max in *; lia). by rewrite Nat2N.id.
Qed.

(** A 4-dimensional index. *)
Definition ix4 (f : nat → nat → nat → nat → E) (i : list nat) : E :=
  match i with [a; b; c; d] => f a b c d | _ => e_zero end.

Lemma table_doubled (t : T) n half (c : nat → nat → E) :
  den t T_F32 [n; half] (λ i, c (default 0 (i !! 0)) (default 0 (i !! 1))) →
  gives (l <-? minus1 t; d <-? n_cat [t; t] l; u <-? n_unsqueeze d 0; n_unsqueeze u 0) T_F32 [1; 1; n; half + half]
    (ix4 (λ _ _ i j, c i (if j <? half then j else j - half))).
Proof using All.
  intros Ht. pose proof Ht as (Hd & _ & _). unfold minus1. rewrite Hd. cbn [length result_bind].
  destruct (cat_ok t t T_F32 [n; half] _ _ 1 half half Ht Ht eq_refl) as (d & -> & Hdd). cbn [result_bind insert list_insert] in *.
  destruct (unsqueeze_ok d T_F32 _ _ 0 Hdd ltac:(lia)) as (u & -> & Hu). cbn [result_bind take drop app] in *.
  eapply gives_ext; [apply (unsqueeze_ok u T_F32 _ _ 0 Hu); lia |].
  intros [|a [|b [|i [|j [|? ?]]]]]; cbn [inb take drop app ix4]; try tauto. intros _. cbn [lookup list_lookup insert list_insert].
  change (default 0 (Some j)) with j. change (default 0 (Some i)) with i. by destruct (j <? half).
Qed.

Lemma apply_rotary_gives (x cos sin : T) b h n half (f : nat → nat → nat → nat → E) (c s : nat → nat → E) (pos : list nat) :
  den x T_F32 [b; h; n; half + half] (ix4 f) →
  den cos T_F32 [n; half] (λ i, c (default 0 (pos !! default 0 (i !! 0))) (default 0 (i !! 1))) →
  den sin T_F32 [n; half] (λ i, s (default 0 (pos !! default 0 (i !! 0))) (default 0 (i !! 1))) →
  gives (apply_rotary_emb x cos sin) T_F32 [b; h; n; half + half]
    (ix4 (λ a k i, rotate half c s (default 0 (pos !! i)) (f a k i))).
Proof using All.
  intros Hx Hc Hs. pose proof Hx as (Hd & Hty & _). unfold apply_rotary_emb, dim_minus1, n_dim, minus1 at 1 2. rewrite Hd, Hty.
  cbn [length result_bind lookup list_lookup].
  replace ((half + half) / 2) with half by (apply (Nat.div_unique _ _ _ 0); lia).
  destruct (narrow_ok x T_F32 _ _ 3 0 half (half + half) Hx eq_refl ltac:(lia)) as (x1 & -> & Hx1). cbn [result_bind insert list_insert] in *.
  destruct (narrow_ok x T_F32 _ _ 3 half half (half + half) Hx eq_refl ltac:(lia)) as (x2 & -> & Hx2). cbn [result_bind insert list_insert] in *.
  destruct (to_dtype_ok cos T_F32 T_F32 _ _ Hc) as (cos1 & -> & Hc1). cbn [result_bind].
  destruct (to_dtype_ok sin T_F32 T_F32 _ _ Hs) as (sin1 & -> & Hs1). cbn [result_bind].
  apply (den_ext _ _ _ _ (λ i, c (default 0 (pos !! default 0 (i !! 0))) (default 0 (i !! 1)))) in Hc1;
    [| intros; apply e_cast_same].
  apply (den_ext _ _ _ _ (λ i, s (default 0 (pos !! default 0 (i !! 0))) (default 0 (i !! 1)))) in Hs1; [| intros; apply e_cast_same].
  destruct (table_doubled cos1 n half (λ i, c (default 0 (pos !! i))) Hc1) as (cos2 & Ec & Hc2).
  destruct (minus1 cos1) as [lc|]; [| done]. cbn [result_bind] in *. destruct (n_cat [cos1; cos1] lc) as [cc|]; [| done]. cbn [result_bind] in *.
  destruct (n_unsqueeze cc 0) as [cu|]; [| done]. cbn [result_bind] in *. rewrite Ec. cbn [result_bind]. clear Ec cc cu lc.
  destruct (table_doubled sin1 n half (λ i, s (default 0 (pos !! i))) Hs1) as (sin2 & Es & Hs2).
  destruct (minus1 sin1) as [lc|]; [| done]. cbn [result_bind] in *. destruct (n_cat [sin1; sin1] lc) as [cc|]; [| done]. cbn [result_bind] in *.
  destruct (n_unsqueeze cc 0) as [cu|]; [| done]. cbn [result_bind] in *. rewrite Es. cbn [result_bind]. clear Es cc cu lc.
  destruct (neg_ok x2 T_F32 _ _ ltac:(by left) Hx2) as (ng & -> & Hng). cbn [result_bind].
  pose proof Hng as (Dng & _ & _). unfold minus1. rewrite Dng. cbn [length result_bind].
  destruct (cat_ok ng x1 T_F32 _ _ _ 3 half half Hng Hx1 eq_refl) as (ro & -> & Hro). cbn [result_bind insert list_insert] in *.
  assert (Hfit : bfits [1; 1; n; half + half] [b; h; n; half + half] = true) by (unfold bfits; cbn; by rewrite !Nat.eqb_refl, !orb_true_r).
  destruct (broadcast_mul_ok x cos2 T_F32 _ _ _ _ ltac:(by left) Hx Hc2 Hfit) as (m1 & -> & Hm1). cbn [result_bind].
  destruct (broadcast_mul_ok ro sin2 T_F32 _ _ _ _ ltac:(by left) Hro Hs2 Hfit) as (m2 & -> & Hm2). cbn [result_bind].
  eapply gives_ext; [apply (add_ok m1 m2 T_F32 _ _ _ ltac:(by left) Hm1 Hm2) |].
  intros [|a [|k [|i [|j [|? ?]]]]]; cbn [inb]; try tauto. intros (Ha & Hk & Hi & Hj & _).
  unfold bidx. cbn [length Nat.sub drop zip_with Nat.eqb ix4 lookup list_lookup alter list_alter insert list_insert].
  change (default 0 (Some j)) with j. unfold rotate.
  assert (Ei : (if n =? 1 then 0 else i) = i) by (destruct (Nat.eqb_spec n 1); lia). rewrite Ei.
  assert (Ej : (if half + half =? 1 then 0 else j) = j) by (destruct (Nat.eqb_spec (half + half) 1); lia). rewrite Ej.
  by destruct (j <? half).
Qed.

(** The rotation of the queries and the keys. *)
Lemma rope_apply_gives r max half c s (q k : T) b h h' n f g positions :
  rope_holds r max half c s → (N.of_nat max <= u32_max)%N → length positions = n → positions ≠ [] → Forall (λ p, p < max) positions →
  den q T_F32 [b; h; n; half + half] (ix4 f) → den k T_F32 [b; h'; n; half + half] (ix4 g) →
  ∃ q' k', rope_apply r q k positions = Ok (q', k')
    ∧ den q' T_F32 [b; h; n; half + half] (ix4 (λ a j i, rotate half c s (default 0 (positions !! i)) (f a j i)))
    ∧ den k' T_F32 [b; h'; n; half + half] (ix4 (λ a j i, rotate half c s (default 0 (positions !! i)) (g a j i))).
Proof using All.
  intros [Hc Hs] Hmax <- Hne Hp Hq Hk. unfold rope_apply.
  destruct (gather_gives _ max half c positions Hc Hne Hp Hmax) as (cs & -> & Hcs). cbn [result_bind].
  destruct (gather_gives _ max half s positions Hs Hne Hp Hmax) as (sn & -> & Hsn). cbn [result_bind].
  destruct (apply_rotary_gives q cs sn b h _ half f c s positions Hq Hcs Hsn) as (q' & -> & Hq'). cbn [result_bind].
  destruct (apply_rotary_gives k cs sn b h' _ half g c s positions Hk Hcs Hsn) as (k' & -> & Hk'). cbn [result_bind].
  by exists q', k'.
Qed.

(** The angle of position [p] and frequency [k], and the table of its cosine or sine. *)
Definition angle (powf : f64 → f64 → f64) (dim : nat) (theta : f32) (p k : nat) : E :=
  e_dot [e_cast T_U32 T_F64 (e_u32 (N.of_nat p))] [e_f64 (default F64.zero (inv_freqs powf dim theta !! k))].

Lemma rope_new_holds powf half max theta : (N.of_nat max <= u32_max)%N →
  ∃ r : RotaryEmbedding T, rope_new powf (half + half) max theta = Ok r
    ∧ rope_holds r max half (λ p k, e_cast T_F64 T_F32 (e_cos (angle powf (half + half) theta p k)))
        (λ p k, e_cast T_F64 T_F32 (e_sin (angle powf (half + half) theta p k))).
Proof using All.
  intros Hmax. unfold rope_new. set (v := inv_freqs powf (half + half) theta).
  assert (Hv : length v = half).
  { unfold v, inv_freqs. rewrite length_fmap, length_seq. apply cdiv_unique; lia. }
  rewrite Hv. set (fr k := e_f64 (default F64.zero (v !! k))).
  destruct (nd_from_f64_ok (T := T) (E := E) v [1; half] (λ i, fr (ravel [1; half] i))) as (t & -> & Ht); [rewrite Hv; cbn; lia | |].
  { rewrite (tab_ravel [1; half] fr). cbn [nprod foldr]. rewrite Nat.mul_1_r, Nat.mul_1_l. apply list_eq. intros k.
    rewrite !list_lookup_fmap. destruct (v !! k) as [x|] eqn:Ek.
    - rewrite lookup_seq_lt by (rewrite <- Hv; by eapply lookup_lt_Some). cbn. unfold fr. by rewrite Ek.
    - apply lookup_ge_None in Ek. rewrite lookup_ge_None_2; [done |]. rewrite length_seq. lia. }
  cbn [result_bind]. destruct (to_dtype_ok t T_F64 T_F64 _ _ Ht) as (t1 & -> & Ht1). cbn [result_bind].
  assert (as_u32 (N.of_nat max) = N.of_nat max) as -> by (unfold as_u32, u32_max in *; apply N.mod_small; lia).
  destruct (arange_ok (T := T) (E := E) 0 (N.of_nat max)) as (a & -> & Ha). cbn [result_bind]. rewrite N.sub_0_r, Nat2N.id in Ha.
  destruct (to_dtype_ok a T_U32 T_F64 _ _ Ha) as (p & -> & Hp). cbn [result_bind].
  set (ps p := e_cast T_U32 T_F64 (e_u32 (N.of_nat p)) : E).
  destruct (nd_reshape_ok p T_F64 _ [max; 1] _ (λ i, ps (default 0 (i !! 0))) Hp) as (pp & -> & Hpp); [cbn; lia | |].
  { rewrite (tab_ext [max] _ (λ i, ps (ravel [max] i))), (tab_ravel [max] ps).
    2: { intros [|k [|? ?]]; cbn [inb]; try tauto. intros _. unfold ps. rewrite N.add_0_l. cbn [ravel nprod foldr List.last].
         by rewrite Nat.mul_1_r, Nat.add_0_r. }
    rewrite (tab_ext [max; 1] _ (λ i, ps (ravel [max; 1] i))), (tab_ravel [max; 1] ps).
    2: { intros [|k [|j [|? ?]]]; cbn [inb]; try tauto. intros (_ & Hj & _). cbn [ravel nprod foldr lookup list_lookup].
         change (default 0 (Some k)) with k. f_equal. lia. }
    cbn [nprod foldr]. by rewrite !Nat.mul_1_r. }
  cbn [result_bind]. destruct (nd_reshape_ok t1 T_F64 _ [1; half] _ (λ i, fr (ravel [1; half] i)) Ht1 eq_refl) as (t2 & -> & Ht2).
  { apply tab_ext. intros i _. apply e_cast_same. }
  cbn [result_bind]. destruct (matmul2_ok pp t2 T_F64 max 1 half _ _ ltac:(by right) Hpp Ht2) as (fq & -> & Hfq). cbn [result_bind].
  destruct (cos_ok fq T_F64 _ _ ltac:(by right) Hfq) as (co & -> & Hco). cbn [result_bind].
  destruct (to_dtype_ok co T_F64 T_F32 _ _ Hco) as (co1 & -> & Hco1). cbn [result_bind].
  destruct (sin_ok fq T_F64 _ _ ltac:(by right) Hfq) as (si & -> & Hsi). cbn [result_bind].
  destruct (to_dtype_ok si T_F64 T_F32 _ _ Hsi) as (si1 & -> & Hsi1). cbn [result_bind].
  eexists. split; [reflexivity |].
  assert (Hang : ∀ p k, e_dot ((λ l, ps (default 0 ([p; l] !! 0))) <$> seq 0 1) ((λ l, fr (ravel [1; half] [l; k])) <$> seq 0 1)
    = angle powf (half + half) theta p k).
  { intros p' k. cbn. unfold angle, ps, fr. fold v. by rewrite Nat.mul_1_r, Nat.add_0_r. }
  split; cbn [cos_cache sin_cache]; [apply (den_ext _ _ _ _ _ Hco1) | apply (den_ext _ _ _ _ _ Hsi1)];
    (intros [|p' [|k [|? ?]]]; cbn [inb]; try tauto; intros _; cbn [lookup list_lookup]; change (default 0 (Some p')) with p';
     change (default 0 (Some k)) with k; by rewrite <- Hang).
Qed.
End values.
