(* ===== verification/Layers.v ===== *)
(** * The layers of a transformer (layers.rs)

    Root-mean-square normalization, linear projections with dense, packed or
    pluggable weights, the gated perceptron, grouped-query attention with its
    growing key/value cache, and the decoder layer.  Every call of the source is
    a call of the tensor library.  A forward pass returns a result, or [None]
    when it panics; the pass through attention also returns the cache, which is
    extended before the scores are computed, whatever happens afterwards.

    The once-computed dense form of packed weights ([OnceLock]) is a field that
    starts empty: filling it changes no result ([memo_same]).  The fused CUDA
    matrix products are left out, and the paged CUDA attention is one operation
    given by the caller. *)
From S2P Require Import Prelude F32 Tensors NdTensor Gptq Dequant Rope.
#[local] Open Scope list_scope.
#[local] Open Scope nat_scope.
#[local] Open Scope rllm_scope.

Notation "x <-! m ; k" := (bind_r m (λ x, k))
  (at level 100, m at level 99, k at level 200, right associativity) : rllm_scope.

Section layers.
Context {T : Type} `{!NdOps T} (show : nat → string).

(** ** Normalization *)
Record RmsNorm : Type := mkRmsNorm { rn_weight : T; rn_eps : f64 }.

Definition rms_forward (n : RmsNorm) (x : T) : result T TensorError :=
  let dtype := n_dtype x in
  x <-? n_to_dtype x T_F32;
  sq <-? n_sqr x;
  mean <-? n_mean_keepdim sq;
  variance <-? n_add_scalar mean (rn_eps n);
  sd <-? n_sqrt variance;
  x_norm <-? n_broadcast_div x sd;
  w <-? n_to_dtype (rn_weight n) T_F32;
  out <-? n_broadcast_mul x_norm w;
  n_to_dtype out dtype.

(** ** Linear projections *)
Record LinearMethod : Type := mkLinearMethod {
  lm_apply : T → option (result T TensorError);
  lm_weight : option T;
  lm_is_quantized : bool;
}.

Inductive LinearWeight : Type :=
  | LW_Fp (weight : T)
  | LW_Gptq (qweight qzeros scales g_idx : T) (bits group_size : nat) (dequantized : option T)
  | LW_Awq (qweight qzeros scales : T) (bits group_size : nat) (dequantized : option T)
  | LW_Method (method : LinearMethod).

Record Linear : Type := mkLinear { li_weight : LinearWeight; li_bias : option T }.

Definition linear_new (weight : T) : Linear := mkLinear (LW_Fp weight) None.
Definition from_method (m : LinearMethod) : Linear := mkLinear (LW_Method m) None.
Definition with_bias (l : Linear) (bias : T) : Linear := mkLinear (li_weight l) (Some bias).
Definition new_awq (qweight qzeros scales : T) (bits group_size : nat) : Linear :=
  mkLinear (LW_Awq qweight qzeros scales bits group_size None) None.
Definition new_gptq (qweight qzeros scales g_idx : T) (bits group_size : nat) : Linear :=
  mkLinear (LW_Gptq qweight qzeros scales g_idx bits group_size None) None.

(** The dense form of packed weights. *)
Definition dense (dequantized : option T) (compute : option (result T TensorError)) : option (result T TensorError) :=
  match dequantized with Some w => Some (Ok w) | None => compute end.

(** [weight()] *)
Definition linear_weight (l : Linear) : option (result T TensorError) :=
  match li_weight l with
  | LW_Fp w => Some (Ok w)
  | LW_Method m => Some (match lm_weight m with Some w => Ok w | None => Err "method weight not available"%string end)
  | LW_Gptq qweight qzeros scales g_idx bits _ d => dense d (Some (dequantize_gptq show qweight qzeros scales g_idx bits))
  | LW_Awq qweight qzeros scales bits group_size d => dense d (dequantize_awq show qweight qzeros scales bits group_size)
  end.

Definition is_quantized (l : Linear) : bool :=
  match li_weight l with
  | LW_Gptq _ _ _ _ _ _ _ | LW_Awq _ _ _ _ _ _ => true
  | LW_Method m => lm_is_quantized m
  | LW_Fp _ => false
  end.

Definition add_bias (l : Linear) (output : T) : result T TensorError :=
  match li_bias l with Some bias => n_broadcast_add output bias | None => Ok output end.

Definition forward_fp (x weight : T) : result T TensorError :=
  in_features <-? dim_minus1 weight;
  out_features <-? dim_minus2 weight;
  let x_shape := n_dims x in
  let trailing := length x_shape - 1 in
  let batch := nprod (take trailing x_shape) in
  x_2d <-? n_reshape x [batch; in_features];
  wt <-? n_t weight;
  out <-? n_matmul x_2d wt;
  n_reshape out (take trailing x_shape ++ [out_features]).

Definition linear_forward (l : Linear) (x : T) : option (result T TensorError) :=
  output <-! match li_weight l with
             | LW_Method m => lm_apply m x
             | _ => w <-! linear_weight l; Some (forward_fp x w)
             end;
  Some (add_bias l output).

(** ** The gated perceptron *)
Record LlamaMLP : Type := mkMLP { gate_proj : Linear; up_proj : Linear; down_proj : Linear }.

Definition mlp_forward (m : LlamaMLP) (x : T) : option (result T TensorError) :=
  gate <-! linear_forward (gate_proj m) x;
  up <-! linear_forward (up_proj m) x;
  h <-! Some (gate <-? n_silu gate; n_broadcast_mul gate up);
  linear_forward (down_proj m) h.

(** ** Attention *)
Record LlamaAttention : Type := mkAttention {
  q_proj : Linear;
  k_proj : Linear;
  v_proj : Linear;
  o_proj : Linear;
  at_num_heads : nat;
  at_num_kv_heads : nat;
  at_head_dim : nat;
  q_norm : option RmsNorm;
  k_norm : option RmsNorm;
}.

Definition from_linears (q k v o : Linear) (num_heads num_kv_heads head_dim : nat) : LlamaAttention :=
  mkAttention q k v o num_heads num_kv_heads head_dim None None.
Definition with_qk_norm (a : LlamaAttention) (q_norm k_norm : RmsNorm) : LlamaAttention :=
  mkAttention (q_proj a) (k_proj a) (v_proj a) (o_proj a) (at_num_heads a) (at_num_kv_heads a) (at_head_dim a)
    (Some q_norm) (Some k_norm).

(** One projection, split into heads. *)
Definition project (l : Linear) (x : T) (bsz seq_len heads head_dim : nat) : option (result T TensorError) :=
  y <-! linear_forward l x;
  Some (n_reshape y [bsz; seq_len; heads; head_dim]).

Definition normed (n : option RmsNorm) (x : T) : result T TensorError :=
  match n with Some n => rms_forward n x | None => Ok x end.

Definition project_qkv (a : LlamaAttention) (x : T) : option (result (T * T * T) TensorError) :=
  d <-! Some (dims3 x);
  let '(bsz, seq_len, _) := d in
  q <-! project (q_proj a) x bsz seq_len (at_num_heads a) (at_head_dim a);
  k <-! project (k_proj a) x bsz seq_len (at_num_kv_heads a) (at_head_dim a);
  v <-! project (v_proj a) x bsz seq_len (at_num_kv_heads a) (at_head_dim a);
  Some (q <-? normed (q_norm a) q;
        k <-? normed (k_norm a) k;
        q <-? n_transpose_1_2 q;
        k <-? n_transpose_1_2 k;
        v <-? n_transpose_1_2 v;
        Ok (q, k, v)).

Definition repeat_kv (x : T) (n_rep : nat) : result T TensorError :=
  if n_rep =? 1 then Ok x
  else
    d <-? dims4 x;
    let '(batch, num_kv_heads, seq_len, head_dim) := d in
    u <-? n_unsqueeze x 2;
    e <-? n_expand u [batch; num_kv_heads; n_rep; seq_len; head_dim];
    n_reshape e [batch; num_kv_heads * n_rep; seq_len; head_dim].

(** Negative infinity where a query would see a later key. *)
Definition causal_mask (seq_len : nat) : result T TensorError :=
  let mask := seq 0 seq_len ≫= (λ i, (λ j, if i <? j then F32.neg_infinity else F32.zero) <$> seq 0 seq_len) in
  m <-? n_from_f32 mask [seq_len; seq_len];
  n_reshape m [1; 1; seq_len; seq_len].

(** Keys and values repeated for the query heads; [None] is the panic of dividing
    by no key heads. *)
Definition grouped (a : LlamaAttention) (k v : T) : option (result (T * T) TensorError) :=
  if at_num_kv_heads a <? at_num_heads a then
    if at_num_kv_heads a =? 0 then None
    else
      let n_rep := at_num_heads a / at_num_kv_heads a in
      Some (k <-? repeat_kv k n_rep; v <-? repeat_kv v n_rep; Ok (k, v))
  else Some (Ok (k, v)).

Definition attention_scale (head_dim : nat) : f32 := F32.div F32.one (F32.sqrt (F32.of_N (N.of_nat head_dim))).

(** Scores, mask, softmax and the weighted sum.  [contiguous] is the call that
    copies an operand, or nothing in the fallback of the paged pass. *)
Definition scaled_attention (contiguous : T → result T TensorError) (a : LlamaAttention) (q k v : T) (bsz seq_len : nat) :
    result T TensorError :=
  q_contig <-? contiguous q;
  kt <-? n_t k;
  k_t <-? contiguous kt;
  scores <-? n_matmul q_contig k_t;
  sc <-? n_scalar_f32 (attention_scale (at_head_dim a));
  sc <-? n_to_dtype sc (n_dtype q);
  attn_weights <-? n_broadcast_mul scores sc;
  attn_weights <-? (if 1 <? seq_len then
                      mask <-? causal_mask seq_len;
                      mask <-? n_to_dtype mask (n_dtype q);
                      n_broadcast_add attn_weights mask
                    else Ok attn_weights);
  attn_weights <-? n_softmax attn_weights;
  v_contig <-? contiguous v;
  attn_output <-? n_matmul attn_weights v_contig;
  t <-? n_transpose_1_2 attn_output;
  n_reshape t [bsz; seq_len; at_num_heads a * at_head_dim a].

#[local] Abbreviation KvCache := (option (T * T)).

(** The keys and values so far, followed by the new ones. *)
Definition extend_cache (cache : KvCache) (k v : T) : result (T * T) TensorError :=
  match cache with
  | Some (cached_k, cached_v) =>
      k <-? n_cat [cached_k; k] 2;
      v <-? n_cat [cached_v; v] 2;
      Ok (k, v)
  | None => Ok (k, v)
  end.

Definition attention_forward (a : LlamaAttention) (x : T) (positions : list nat) (cache : KvCache) (rope : RotaryEmbedding T) :
    option (result T TensorError * KvCache) :=
  let prepared :=
    d <-! Some (dims3 x);
    p <-! project_qkv a x;
    let '(q, k, v) := p in
    r <-! Some (rope_apply rope q k positions);
    kv <-! Some (extend_cache cache r.2 v);
    Some (Ok (d, r.1, kv)) in
  match prepared with
  | None => None
  | Some (Err e) => Some (Err e, cache)
  | Some (Ok (bsz, seq_len, _, q, (k, v))) =>
      out ← (g <-! grouped a k v;
             o <-! Some (scaled_attention n_contiguous a q g.1 g.2 bsz seq_len);
             linear_forward (o_proj a) o);
      Some (out, Some (k, v))
  end.

(** The paged pass: disabled unless asked for on a CUDA build, and attending to the
    tokens of the batch alone on the others. *)
Context (has_cuda paged_attention_enabled : bool) (paged_op : nat → T → T → T → nat → nat → bool → result T TensorError).

Definition token_major (t : T) (num_tokens heads head_dim : nat) : result T TensorError :=
  t <-? n_transpose_1_2 t;
  t <-? n_reshape t [num_tokens; heads; head_dim];
  t <-? n_contiguous t;
  n_to_dtype t T_F16.

Definition attention_forward_paged (a : LlamaAttention) (x : T) (positions : list nat) (layer_idx : nat) (rope : RotaryEmbedding T) :
    option (result T TensorError) :=
  d <-! Some (dims3 x);
  let '(bsz, seq_len, _) := d in
  p <-! project_qkv a x;
  let '(q, k, v) := p in
  r <-! Some (rope_apply rope q k positions);
  let '(q, k) := r in
  if has_cuda then
    if negb paged_attention_enabled then
      Some (Err "paged-attention disabled (set RLLM_PAGED_ATTENTION=1 to enable); using legacy forward"%string)
    else
      let num_tokens := bsz * seq_len in
      o <-! Some (q_tok <-? token_major q num_tokens (at_num_heads a) (at_head_dim a);
                  k_tok <-? token_major k num_tokens (at_num_kv_heads a) (at_head_dim a);
                  v_tok <-? token_major v num_tokens (at_num_kv_heads a) (at_head_dim a);
                  attn_output <-? paged_op layer_idx q_tok k_tok v_tok num_tokens seq_len (1 <? seq_len);
                  attn_output <-? n_to_dtype attn_output (n_dtype x);
                  n_reshape attn_output [bsz; seq_len; at_num_heads a * at_head_dim a]);
      linear_forward (o_proj a) o
  else
    g <-! grouped a k v;
    o <-! Some (scaled_attention Ok a q g.1 g.2 bsz seq_len);
    linear_forward (o_proj a) o.

(** ** The decoder layer *)
Record LlamaDecoderLayer : Type := mkDecoderLayer {
  self_attn : LlamaAttention;
  mlp : LlamaMLP;
  input_layernorm : RmsNorm;
  post_attention_layernorm : RmsNorm;
}.

(** The perceptron with its residual. *)
Definition mlp_block (l : LlamaDecoderLayer) (x : T) : option (result T TensorError) :=
  n <-! Some (rms_forward (post_attention_layernorm l) x);
  y <-! mlp_forward (mlp l) n;
  Some (n_add x y).

Definition layer_forward (l : LlamaDecoderLayer) (x : T) (positions : list nat) (cache : KvCache) (rope : RotaryEmbedding T) :
    option (result T TensorError * KvCache) :=
  match rms_forward (input_layernorm l) x with
  | Err e => Some (Err e, cache)
  | Ok n =>
      '(r, cache) ← attention_forward (self_attn l) n positions cache rope;
      out ← (y <-! Some r; h <-! Some (n_add x y); mlp_block l h);
      Some (out, cache)
  end.

Definition layer_forward_paged (l : LlamaDecoderLayer) (x : T) (positions : list nat) (layer_idx : nat) (rope : RotaryEmbedding T) :
    option (result T TensorError) :=
  n <-! Some (rms_forward (input_layernorm l) x);
  y <-! attention_forward_paged (self_attn l) n positions layer_idx rope;
  h <-! Some (n_add x y);
  mlp_block l h.

(** Filling the once-computed field changes nothing. *)
Definition memoized (l : Linear) (w : T) : Linear :=
  mkLinear (match li_weight l with
            | LW_Gptq a b c d bits g _ => LW_Gptq a b c d bits g (Some w)
            | LW_Awq a b c bits g _ => LW_Awq a b c bits g (Some w)
            | x => x
            end) (li_bias l).

Lemma memo_same l w x : linear_weight l = Some (Ok w) →
  linear_weight (memoized l w) = linear_weight l ∧ linear_forward (memoized l w) x = linear_forward l x.
Proof.
  destruct l as [[]]; unfold linear_weight, linear_forward, memoized; cbn [li_weight li_bias dense]; intros Hw; try done;
    unfold linear_weight; cbn [li_weight dense]; by rewrite Hw.
Qed.
End layers.

(** ** The layers of a model *)
Section loop.
Context {T L : Type} (step : L → T → list nat → option (T * T) → option (result T TensorError * option (T * T))).
Context (wrap : nat → TensorError → TensorError).

(** From the [i]th on, each on its own cache slot; a missing slot panics.  The caches
    keep what the layers that ran left in them, also when a later one fails. *)
Fixpoint layers_loop (i : nat) (ls : list L) (x : T) (positions : list nat) (kv_cache : list (option (T * T))) :
    option (result T TensorError * list (option (T * T))) :=
  match ls with
  | [] => Some (Ok x, kv_cache)
  | l :: ls =>
      c ← kv_cache !! i;
      '(r, c) ← step l x positions c;
      let kv_cache := <[i := c]> kv_cache in
      match r with
      | Err e => Some (Err (wrap i e), kv_cache)
      | Ok x => layers_loop (S i) ls x positions kv_cache
      end
  end.
End loop.
