(* ===== verification/LayerRows.v ===== *)
(** * What the layers compute, row by row

    A hidden state is a tensor of one row per token.  Normalization, dense
    projections, the perceptron and the residual act on each row alone: these
    lemmas say what they make of it.  Attention, where the row of a token sees
    the keys and values of others, is in AttentionRows.v. *)
From S2P Require Import Prelude F32 Tensors NdTensor Rope Layers.
#[local] Open Scope list_scope.
#[local] Open Scope nat_scope.
#[local] Open Scope rllm_scope.

Section rows.
Context {T E : Type} `{!NdOps T, !Scalars E, !Elements T E, !LawfulNd T E, !LawfulScalars E}.
#[local] Abbreviation gives := (gives (T := T) (E := E)).
#[local] Abbreviation den := (den (T := T) (E := E)).

(** ** Tensors of rows *)
Definition at_ (l : list E) (j : nat) : E := default e_zero (l !! j).

Definition ix3 (f : nat → nat → nat → E) (i : list nat) : E := match i with [a; b; c] => f a b c | _ => e_zero end.

(** [n] rows of [w] elements, in a batch of one. *)
Definition tensor_rows (t : T) (n w : nat) (R : nat → list E) : Prop :=
  den t T_F32 [1; n; w] (ix3 (λ _ i j, at_ (R i) j)) ∧ ∀ i, i < n → length (R i) = w.

Lemma tensor_rows_ext t n w R R' : tensor_rows t n w R → (∀ i, i < n → R i = R' i) → tensor_rows t n w R'.
Proof.
  intros [Ht Hl] H. split; [| intros i Hi; rewrite <- H by done; by apply Hl]. apply (den_ext _ _ _ _ _ Ht).
  intros [|u [|i [|j [|? ?]]]]; cbn [inb ix3]; try tauto. intros (_ & Hi & _). by rewrite H.
Qed.

Lemma list_of_at (l : list E) w : length l = w → at_ l <$> seq 0 w = l.
Proof.
  intros <-. apply list_eq. intros j. rewrite list_lookup_fmap. destruct (l !! j) as [x|] eqn:Ej.
  - rewrite lookup_seq_lt by (by eapply lookup_lt_Some). cbn. unfold at_. by rewrite Ej.
  - apply lookup_ge_None in Ej. rewrite lookup_ge_None_2; [done |]. by rewrite length_seq.
Qed.

Lemma at_fmap (f : nat → E) n j : j < n → at_ (f <$> seq 0 n) j = f j.
Proof. intros Hj. unfold at_. rewrite list_lookup_fmap, lookup_seq_lt by done. done. Qed.

Lemma at_zip (op : E → E → E) l m j w : length l = w → length m = w → j < w → at_ (zip_with op l m) j = op (at_ l j) (at_ m j).
Proof.
  intros Hl Hm Hj. unfold at_. rewrite lookup_zip_with. destruct (lookup_lt_is_Some_2 l j ltac:(lia)) as [x ->].
  destruct (lookup_lt_is_Some_2 m j ltac:(lia)) as [y ->]. done.
Qed.

Lemma at_map (u : E → E) l j w : length l = w → j < w → at_ (u <$> l) j = u (at_ l j).
Proof. intros Hl Hj. unfold at_. rewrite list_lookup_fmap. by destruct (lookup_lt_is_Some_2 l j ltac:(lia)) as [x ->]. Qed.

(** An operation that acts on each row of the last dimension. *)
Definition rowwise (op : T → result T TensorError) (a b : nat) (F : list E → list E) : Prop :=
  (∀ l, length l = a → length (F l) = b)
  ∧ ∀ x d f, den x T_F32 (d ++ [a]) f → gives (op x) T_F32 (d ++ [b]) (λ i, at_ (F (row_at f i a)) (List.last i 0)).

Lemma row_at_rows (R : nat → list E) w n i j : length (R i) = w → row_at (ix3 (λ _ i j, at_ (R i) j)) [n; i; j] w = R i.
Proof. intros Hl. transitivity (at_ (R i) <$> seq 0 w); [| by apply list_of_at]. apply list_fmap_ext. intros _ k _. done. Qed.

(** A vector of the last dimension, broadcast. *)
Lemma bfits_last d a : bfits [a] (d ++ [a]) = true.
Proof.
  unfold bfits. rewrite length_app. cbn [length]. replace (length d + 1 - 1) with (length d) by lia. rewrite drop_app_length. cbn.
  rewrite Nat.eqb_refl, orb_true_r, andb_true_r. destruct (length d + 1) eqn:El; [lia | done].
Qed.

Lemma bidx_last p a j : j < a → bidx [a] (p ++ [j]) = [j].
Proof.
  intros Hj. unfold bidx. rewrite length_app. cbn [length]. replace (length p + 1 - 1) with (length p) by lia.
  rewrite drop_app_length. cbn. destruct (Nat.eqb_spec a 1); [f_equal; lia | done].
Qed.

(** ** Normalization *)
Definition rms_row (w : list E) (eps : f64) (l : list E) : list E :=
  let sd := e_sqrt (e_add (e_mean (e_sqr <$> l)) (e_cast T_F64 T_F32 (e_f64 eps))) in
  zip_with e_mul ((λ x, e_div x sd) <$> l) w.

Lemma rms_rowwise (n : RmsNorm) a w : length w = a → den (rn_weight n) T_F32 [a] (λ i, at_ w (default 0 (i !! 0))) →
  rowwise (rms_forward n) a a (rms_row w (rn_eps n)).
Proof using All.
  intros Hw Hn. split.
  { intros l Hl. unfold rms_row. rewrite length_zip_with, length_fmap. lia. }
  intros x d f Hx. pose proof Hx as (_ & Hty & _). unfold rms_forward. rewrite Hty.
  destruct (to_dtype_ok x T_F32 T_F32 _ _ Hx) as (x1 & -> & Hx1). cbn [result_bind].
  apply (den_ext _ _ _ _ f) in Hx1; [| intros; apply e_cast_same].
  destruct (sqr_ok x1 T_F32 _ _ ltac:(by left) Hx1) as (sq & -> & Hsq). cbn [result_bind].
  destruct (mean_ok sq T_F32 _ _ _ ltac:(by left) Hsq) as (m & -> & Hm). cbn [result_bind].
  destruct (add_scalar_ok m T_F32 _ _ (rn_eps n) ltac:(by left) Hm) as (v & -> & Hv). cbn [result_bind].
  destruct (sqrt_ok v T_F32 _ _ ltac:(by left) Hv) as (sd & -> & Hsd). cbn [result_bind].
  assert (Hf1 : bfits (d ++ [1]) (d ++ [a]) = true).
  { unfold bfits. rewrite !length_app, Nat.leb_refl, Nat.sub_diag, drop_0. cbn.
    clear. induction d as [|k d IH]; cbn; [done |]. by rewrite Nat.eqb_refl, orb_true_r, IH. }
  destruct (broadcast_div_ok x1 sd T_F32 _ _ _ _ ltac:(by left) Hx1 Hsd Hf1) as (xn & -> & Hxn). cbn [result_bind].
  destruct (to_dtype_ok (rn_weight n) T_F32 T_F32 _ _ Hn) as (w1 & -> & Hw1). cbn [result_bind].
  destruct (broadcast_mul_ok xn w1 T_F32 _ _ _ _ ltac:(by left) Hxn Hw1 (bfits_last d a)) as (o & -> & Ho). cbn [result_bind].
  eapply gives_ext; [apply (to_dtype_ok o T_F32 T_F32 _ _ Ho) |].
  intros i Hi. destruct (inb_last _ _ _ Hi) as (p & j & -> & Hp & Hj). pose proof (inb_length _ _ Hp) as Hlp.
  rewrite e_cast_same, List.last_last.
  assert (Hb1 : bidx (d ++ [1]) (p ++ [j]) = p ++ [0]).
  { unfold bidx. rewrite !length_app, Hlp, Nat.sub_diag, drop_0. rewrite zip_with_app by done. cbn. f_equal. by apply bidx_same_aux. }
  rewrite Hb1, bidx_last, e_cast_same by done. cbn [lookup list_lookup]. change (default 0 (Some j)) with j.
  assert (Hrow : row_at (λ i, e_sqr (f i)) (p ++ [0]) a = e_sqr <$> row_at f (p ++ [j]) a).
  { unfold row_at. rewrite <- list_fmap_compose. apply list_fmap_ext. intros _ k _. cbn. by rewrite !set_last_app. }
  rewrite Hrow. unfold rms_row.
  assert (Hlen : length (row_at f (p ++ [j]) a) = a) by (unfold row_at; by rewrite length_fmap, length_seq).
  rewrite (at_zip _ _ _ _ a) by (done || by rewrite length_fmap). rewrite (at_map _ _ _ a) by done. do 2 f_equal.
  unfold row_at. rewrite at_fmap by done. by rewrite set_last_app.
Qed.

(** ** Projections *)

(** A pass that may panic, acting on each row. *)
Definition acts (fw : T → option (result T TensorError)) (a b : nat) (F : list E → list E) : Prop :=
  (∀ l, length l = a → length (F l) = b)
  ∧ ∀ x d f, den x T_F32 (d ++ [a]) f →
      ∃ y, fw x = Some (Ok y) ∧ den y T_F32 (d ++ [b]) (λ i, at_ (F (row_at f i a)) (List.last i 0)).

Lemma rowwise_acts op a b F : rowwise op a b F → acts (λ x, Some (op x)) a b F.
Proof. intros [HF H]. split; [done |]. intros x d f Hx. destruct (H x d f Hx) as (y & -> & Hy). by exists y. Qed.

Lemma acts_rows fw a b F x n R : acts fw a b F → tensor_rows x n a R →
  ∃ y, fw x = Some (Ok y) ∧ tensor_rows y n b (λ i, F (R i)).
Proof.
  intros [HF Hop] [Hx Hl]. destruct (Hop x [1; n] _ Hx) as (y & -> & Hy). exists y. split; [done |].
  split; [| intros i Hi; apply HF, Hl, Hi]. apply (den_ext _ _ _ _ _ Hy).
  intros [|u [|i [|j [|? ?]]]]; cbn [inb app]; try tauto. intros (_ & Hi & Hj & _). cbn [ix3 List.last].
  by rewrite row_at_rows by (by apply Hl).
Qed.

Definition dense_row (w : nat → list E) (b : nat) (x : list E) : list E := (λ o, e_dot x (w o)) <$> seq 0 b.

Lemma nprod_app d d' : nprod (d ++ d') = nprod d * nprod d'.
Proof.
  induction d as [|n d IH]; [symmetry; apply Nat.mul_1_l |]. change (n * nprod (d ++ d') = n * nprod d * nprod d'). rewrite IH. lia.
Qed.

(** Merging all leading dimensions into one. *)
Lemma tab_flatten_rows d n : ∀ f g : list nat → E,
  (∀ p j, inb d p → j < n → f (p ++ [j]) = g [ravel d p; j]) → tab (d ++ [n]) f = tab [nprod d; n] g.
Proof.
  induction d as [|m d IH]; intros f g H.
  - cbn [app tab nprod foldr]. cbn [seq mbind list_bind]. rewrite app_nil_r. apply seq_bind_ext. intros j Hj.
    cbn [tab]. f_equal. by apply (H []).
  - change (tab ((m :: d) ++ [n]) f) with (seq 0 m ≫= (λ a, tab (d ++ [n]) (λ ix, f (a :: ix)))).
    change (tab [nprod (m :: d); n] g) with (seq 0 (m * nprod d) ≫= (λ r, tab [n] (λ ix, g (r :: ix)))).
    rewrite seq_mul_bind. apply seq_bind_ext. intros a Ha.
    apply (IH _ (λ i, match i with r :: ix => g (a * nprod d + r :: ix) | [] => g [] end)).
    intros p j Hp Hj. by apply (H (a :: p)).
Qed.

Fixpoint unravel (d : list nat) (r : nat) : list nat :=
  match d with [] => [] | _ :: d => r / nprod d :: unravel d (r mod nprod d) end.

Lemma unravel_ravel d : ∀ p, inb d p → unravel d (ravel d p) = p.
Proof.
  induction d as [|n d IH]; intros [|k p]; cbn [inb]; try done. intros [Hk Hp]. cbn [ravel unravel].
  pose proof (ravel_lt d p Hp) as Hlt. rewrite (Nat.add_comm (k * nprod d)), Nat.div_add, Nat.Div0.mod_add by lia.
  rewrite Nat.div_small, Nat.mod_small by done. by rewrite IH.
Qed.

(** The leading dimensions merged, and split again after a product with the rows of a weight. *)
Lemma merge_leading (x : T) d a f : den x T_F32 (d ++ [a]) f →
  gives (n_reshape x [nprod d; a]) T_F32 [nprod d; a] (λ i, match i with [r; j] => f (unravel d r ++ [j]) | _ => e_zero end).
Proof using All.
  intros Hx. apply (nd_reshape_ok x T_F32 _ _ _ _ Hx); [by rewrite nprod_app |]. apply tab_flatten_rows.
  intros p j Hp _. by rewrite unravel_ravel.
Qed.

Lemma rows_matmul (x weight : T) d a b f (w : nat → list E) :
  den x T_F32 [nprod d; a] (λ i, match i with [r; j] => f (unravel d r ++ [j]) | _ => e_zero end) →
  den weight T_F32 [b; a] (λ i, match i with [o; j] => at_ (w o) j | _ => e_zero end) → (∀ o, o < b → length (w o) = a) →
  ∃ wt o, n_t weight = Ok wt ∧ n_matmul x wt = Ok o
    ∧ gives (n_reshape o (d ++ [b])) T_F32 (d ++ [b]) (λ i, at_ (dense_row w b (row_at f i a)) (List.last i 0)).
Proof using All.
  intros Hx Hw Hl. destruct (t_ok weight T_F32 _ _ Hw ltac:(cbn; lia)) as (wt & -> & Hwt). cbn [swap_last] in Hwt. exists wt.
  destruct (matmul2_ok x wt T_F32 (nprod d) a b _ _ ltac:(by left) Hx Hwt) as (o & -> & Ho). exists o. split; [done |]. split; [done |].
  eapply nd_reshape_ok; [exact Ho | by rewrite nprod_app |]. symmetry. apply tab_flatten_rows.
  intros p j Hp Hj. rewrite List.last_last. unfold dense_row. rewrite at_fmap by done. f_equal.
  - unfold row_at. apply list_fmap_ext. intros _ k _. by rewrite set_last_app, unravel_ravel.
  - etrans; [symmetry; by apply (list_of_at _ a), Hl |]. by apply list_fmap_ext.
Qed.

Lemma forward_fp_rowwise (weight : T) a b (w : nat → list E) :
  den weight T_F32 [b; a] (λ i, match i with [o; j] => at_ (w o) j | _ => e_zero end) → (∀ o, o < b → length (w o) = a) →
  rowwise (λ x, forward_fp x weight) a b (dense_row w b).
Proof using All.
  intros Hw Hl. split; [intros l _; unfold dense_row; by rewrite length_fmap, length_seq |].
  intros x d f Hx. pose proof Hx as (Dx & _ & _). pose proof Hw as (Dw & _ & _). unfold forward_fp, dim_minus1, dim_minus2, minus1, n_dim.
  rewrite Dx, Dw. cbn [length result_bind lookup list_lookup]. rewrite length_app. cbn [length].
  replace (length d + 1 - 1) with (length d) by lia. rewrite take_app_length.
  destruct (merge_leading x d a f Hx) as (x2 & -> & Hx2). cbn [result_bind].
  destruct (rows_matmul x2 weight d a b f w Hx2 Hw Hl) as (wt & o & -> & Eo & Ho). cbn [result_bind]. rewrite Eo. exact Ho.
Qed.

(** The row of a row. *)
Lemma row_at_length (f : list nat → E) i a : length (row_at f i a) = a.
Proof. unfold row_at. by rewrite length_fmap, length_seq. Qed.

Definition bias_row (b : option (list E)) (y : list E) : list E := match b with Some b => zip_with e_add y b | None => y end.

(** A dense projection, with or without a bias. *)
Lemma linear_dense_acts show (weight : T) (bias : option T) (bv : option (list E)) a b (w : nat → list E) :
  den weight T_F32 [b; a] (λ i, match i with [o; j] => at_ (w o) j | _ => e_zero end) → (∀ o, o < b → length (w o) = a) →
  match bias, bv with
  | Some t, Some l => length l = b ∧ den t T_F32 [b] (λ i, at_ l (default 0 (i !! 0)))
  | None, None => True
  | _, _ => False
  end →
  acts (linear_forward show (mkLinear (LW_Fp weight) bias)) a b (λ x, bias_row bv (dense_row w b x)).
Proof using All.
  intros Hw Hl Hb. destruct (forward_fp_rowwise weight a b w Hw Hl) as [HF H]. split.
  { intros l Hll. destruct bias, bv as [l'|]; try done; cbn; [rewrite length_zip_with, HF by done; lia | by apply HF]. }
  intros x d f Hx. unfold linear_forward, linear_weight, add_bias. cbn [li_weight li_bias bind_r].
  destruct (H x d f Hx) as (y & -> & Hy). cbn [bind_r]. destruct bias as [t|], bv as [l|]; try done; [| by exists y].
  destruct Hb as [Hlb Ht].
  destruct (broadcast_add_ok y t T_F32 _ _ _ _ ltac:(by left) Hy Ht (bfits_last d b)) as (z & -> & Hz). exists z. split; [done |].
  apply (den_ext _ _ _ _ _ Hz). intros i (p & j & -> & Hp & Hj)%inb_last. rewrite List.last_last. cbn [bias_row].
  rewrite (at_zip _ _ _ _ b) by (done || (by apply HF, row_at_length)). f_equal.
  by rewrite bidx_last.
Qed.

(** ** The perceptron *)
Definition mlp_row (G U D : list E → list E) (x : list E) : list E := D (zip_with e_mul (e_silu <$> G x) (U x)).

(** Two passes over a row, the first through SiLU, multiplied and passed on. *)
Lemma gated_acts fg fu fd h w G U D : acts fg h w G → acts fu h w U → acts fd w h D →
  acts (λ x, match fg x with
             | Some (Ok g) => match n_silu g with
                              | Ok s => match fu x with
                                        | Some (Ok u) => match n_broadcast_mul s u with Ok p => fd p | Err e => Some (Err e) end
                                        | r => r
                                        end
                              | Err e => Some (Err e)
                              end
             | r => r
             end) h h (mlp_row G U D).
Proof using All.
  intros [HG Hg] [HU Hu] [HD Hd].
  assert (Hlen : ∀ l, length l = h → length (zip_with e_mul (e_silu <$> G l) (U l)) = w).
  { intros l Hl. rewrite length_zip_with, length_fmap, HG, HU by done. lia. }
  split; [intros l Hl; by apply HD, Hlen |]. intros x d f Hx.
  destruct (Hg x d f Hx) as (g & -> & Hgt). destruct (silu_ok g T_F32 _ _ ltac:(by left) Hgt) as (s & -> & Hs).
  destruct (Hu x d f Hx) as (u & -> & Hut).
  destruct (broadcast_mul_ok s u T_F32 _ _ _ _ ltac:(by left) Hs Hut (bfits_refl _)) as (p & -> & Hp).
  destruct (Hd p d _ Hp) as (y & -> & Hy). exists y. split; [done |]. apply (den_ext _ _ _ _ _ Hy).
  intros i (q & j & -> & Hq & Hj)%inb_last. rewrite List.last_last. unfold mlp_row. do 2 f_equal.
  etrans; [| apply (list_of_at _ w), Hlen, row_at_length]. unfold row_at at 1. apply list_fmap_ext. intros k ? [-> Hk]%lookup_seq.
  rewrite set_last_app. assert (Hb : inb (d ++ [w]) (q ++ [0 + k])).
  { apply inb_app; [by rewrite (inb_length _ _ Hq) | split; [done | cbn; lia]]. }
  rewrite bidx_same by done. rewrite List.last_last. cbn [Nat.add].
  assert (Hr : row_at f (q ++ [k]) h = row_at f (q ++ [j]) h).
  { unfold row_at. apply list_fmap_ext. intros _ z _. by rewrite !set_last_app. }
  rewrite Hr, (at_zip _ _ _ _ w) by (rewrite ?length_fmap, ?HG, ?HU by apply row_at_length; done || lia).
  by rewrite (at_map _ _ _ w) by (done || by apply HG, row_at_length).
Qed.

(** A pass with the same results. *)
Lemma acts_ext fw fw' a b F : acts fw a b F → (∀ x y, fw x = Some (Ok y) → fw' x = Some (Ok y)) → acts fw' a b F.
Proof using All.
  intros [HF H] He. split; [done |]. intros x d f Hx. destruct (H x d f Hx) as (y & Ey & Hy). exists y. split; [by apply He | done].
Qed.

Lemma mlp_acts show (m : LlamaMLP) h w G U D :
  acts (linear_forward show (gate_proj m)) h w G → acts (linear_forward show (up_proj m)) h w U →
  acts (linear_forward show (down_proj m)) w h D → acts (mlp_forward show m) h h (mlp_row G U D).
Proof using All.
  intros HG HU HD. apply (acts_ext _ _ _ _ _ (gated_acts _ _ _ h w G U D HG HU HD)). intros x y. unfold mlp_forward.
  destruct (linear_forward show (gate_proj m) x) as [[g|]|]; try done. destruct (n_silu g) as [s|] eqn:Es; [| done].
  destruct (linear_forward show (up_proj m) x) as [[u|]|]; try done. cbn [bind_r]. rewrite Es. cbn [result_bind].
  by destruct (n_broadcast_mul s u).
Qed.

(** ** The residual *)
Lemma add_rows x y n w R R' : tensor_rows x n w R → tensor_rows y n w R' →
  ∃ z, n_add x y = Ok z ∧ tensor_rows z n w (λ i, zip_with e_add (R i) (R' i)).
Proof using All.
  intros [Hx Hl] [Hy Hl']. destruct (add_ok x y T_F32 _ _ _ ltac:(by left) Hx Hy) as (z & -> & Hz). exists z. split; [done |].
  split; [| intros i Hi; rewrite length_zip_with, Hl, Hl' by done; lia]. apply (den_ext _ _ _ _ _ Hz).
  intros [|u [|i [|j [|? ?]]]]; cbn [inb]; try tauto. intros (_ & Hi & Hj & _). cbn [ix3].
  symmetry. apply (at_zip _ _ _ _ w); auto.
Qed.
End rows.
