(* ===== verification/AttentionRows.v ===== *)
(** * What attention and a decoder layer compute, row by row

    Attention lets the row of a token see the keys and values of the tokens up
    to it.  [layer_row] says what a decoder layer makes of the row of one token
    and of the keys and values its cache holds, and [layer_rows] that the pass of
    the code over a whole prompt, or over one more token, computes that for each
    token, and leaves the cache with the new keys and values appended.

    The code masks by adding negative infinity to a score; the function of rows
    leaves the masked tokens out.  That the two agree needs two facts of exact
    arithmetic ([MaskLaws]): a score of negative infinity has probability zero and
    leaves the other probabilities alone, and a product with zero adds nothing to a
    sum.  Floats do not obey them to the last bit; Exact.v proves them of the real
    numbers, and what rests on them is stated there. *)
From S2P Require Import Prelude F32 Tensors NdTensor Rope Layers LayerRows.
#[local] Open Scope list_scope.
#[local] Open Scope nat_scope.
#[local] Open Scope rllm_scope.

(** Proved of the real numbers in Exact.v ([exact_mask]). *)
Class MaskLaws (E : Type) `{!Scalars E} : Prop := {
  mask_softmax : ∀ l k : list E, l ≠ [] →
    e_softmax (((λ x, e_add x e_zero) <$> l) ++ ((λ x, e_add x (e_f32 F32.neg_infinity)) <$> k))
    = e_softmax l ++ replicate (length k) e_zero;
  dot_zeros : ∀ p v w : list E, length p = length v → e_dot (p ++ replicate (length w) e_zero) (v ++ w) = e_dot p v;
}.

Section attention.
Context {T E : Type} `{!NdOps T, !Scalars E, !Elements T E, !LawfulNd T E, !LawfulScalars E}.
#[local] Abbreviation gives := (gives (T := T) (E := E)).
#[local] Abbreviation den := (den (T := T) (E := E)).

Definition vec (n : nat) (f : nat → E) : list E := f <$> seq 0 n.

Lemma at_vec n f j : j < n → at_ (vec n f) j = f j.
Proof. apply at_fmap. Qed.

(** ** Heads *)
Lemma split_heads (y : T) n h d R : tensor_rows y n (h * d) R →
  gives (n_reshape y [1; n; h; d]) T_F32 [1; n; h; d] (ix4 (λ _ i a j, at_ (R i) (a * d + j))).
Proof using All.
  intros [Hy _]. apply (nd_reshape_ok y T_F32 _ _ _ _ Hy); [cbn; lia |]. apply (tab_split [1; n] h d []).
  intros [|p [|q [|? ?]]] a b [|? ?]; cbn [inb]; tauto || done.
Qed.

Lemma merge_heads (t : T) n h d (f : nat → nat → nat → E) : den t T_F32 [1; n; h; d] (ix4 (λ _ i a j, f i a j)) →
  ∃ y, n_reshape t [1; n; h * d] = Ok y
    ∧ tensor_rows y n (h * d) (λ i, vec (h * d) (λ k, f i (k / d) (k mod d))).
Proof using All.
  intros Ht. destruct (nd_reshape_ok t T_F32 _ [1; n; h * d] _
    (ix3 (λ _ i j, at_ (vec (h * d) (λ k, f i (k / d) (k mod d))) j)) Ht) as (y & -> & Hy); [cbn; lia | |].
  - symmetry. apply (tab_split [1; n] h d []).
    intros [|p [|q [|? ?]]] a b [|? ?]; cbn [inb]; try tauto. intros _ Ha Hb _. cbn [app ix3 ix4].
    rewrite at_vec by nia. rewrite (Nat.add_comm (a * d)), Nat.div_add, Nat.Div0.mod_add by lia.
    by rewrite Nat.div_small, Nat.mod_small.
  - exists y. split; [done |]. split; [done |]. intros i _. unfold vec. by rewrite length_fmap, length_seq.
Qed.

Lemma norm_heads op (x : T) n h d F (f : nat → nat → nat → E) : rowwise op d d F → den x T_F32 [1; n; h; d] (ix4 (λ _ i a j, f i a j)) →
  gives (op x) T_F32 [1; n; h; d] (ix4 (λ _ i a j, at_ (F (vec d (f i a))) j)).
Proof using All.
  intros [_ Hop] Hx. eapply gives_ext; [apply (Hop x [1; n; h] _ Hx) |].
  intros [|u [|i [|a [|j [|? ?]]]]]; cbn [inb app]; tauto || done.
Qed.

Lemma norm_none d : rowwise (normed None : T → _) d d (λ l, l).
Proof using All.
  split; [done |]. intros x e f Hx. exists x. split; [done |]. apply (den_ext _ _ _ _ _ Hx).
  intros i (p & j & -> & Hp & Hj)%inb_last. rewrite List.last_last. unfold row_at. rewrite at_fmap by done. by rewrite set_last_app.
Qed.

Lemma swap_heads (x : T) n h d (f : nat → nat → nat → E) : den x T_F32 [1; n; h; d] (ix4 (λ _ i a j, f i a j)) →
  gives (n_transpose_1_2 x) T_F32 [1; h; n; d] (ix4 (λ _ a i j, f i a j)).
Proof using All.
  intros Hx. eapply gives_ext; [apply (transpose_ok x T_F32 _ _ Hx); cbn; lia |].
  intros [|u [|a [|i [|j [|? ?]]]]]; cbn [inb]; tauto || done.
Qed.

(** Each key head serves [rep] query heads. *)
Lemma repeat_kv_gives (x : T) h rep n d (f : nat → nat → nat → E) : rep ≠ 0 → den x T_F32 [1; h; n; d] (ix4 (λ _ a i j, f a i j)) →
  gives (repeat_kv x rep) T_F32 [1; h * rep; n; d] (ix4 (λ _ a i j, f (a / rep) i j)).
Proof using All.
  intros Hrep Hx. unfold repeat_kv. destruct (Nat.eqb_spec rep 1) as [->|Hne].
  { rewrite Nat.mul_1_r. exists x. split; [done |]. apply (den_ext _ _ _ _ _ Hx).
    intros [|u [|a [|i [|j [|? ?]]]]]; cbn [inb]; try tauto. intros _. cbn [ix4]. by rewrite Nat.div_1_r. }
  pose proof Hx as (Dx & _ & _). unfold dims4. rewrite Dx. cbn [result_bind].
  destruct (unsqueeze_ok x T_F32 _ _ 2 Hx ltac:(cbn; lia)) as (u & -> & Hu). cbn [result_bind take drop app] in *.
  destruct (expand_ok u T_F32 _ [1; h; rep; n; d] _ Hu) as (e & -> & He).
  { unfold bfits. cbn. by rewrite !Nat.eqb_refl, !orb_true_r. }
  cbn [result_bind]. apply (nd_reshape_ok e T_F32 _ _ _ _ He); [cbn; lia |]. symmetry. apply (tab_split [1] h rep [n; d]).
  intros [|p [|? ?]] a b [|i [|j [|? ?]]]; cbn [inb]; try tauto. intros [Hp _] Ha Hb (Hi & Hj & _).
  unfold bidx. cbn [app length Nat.sub drop zip_with Nat.eqb ix4]. rewrite Nat.div_add_l, (Nat.div_small b), Nat.add_0_r by lia.
  cbn [take app ix4].
  assert (∀ m k, k < m → (if m =? 1 then 0 else k) = k) as Hk by (intros m k Hk; destruct (Nat.eqb_spec m 1); lia).
  by rewrite !Hk.
Qed.

(** ** The cache *)

(** The key and the value of a token, by head and component. *)
#[local] Abbreviation KV := ((nat → nat → E) * (nat → nat → E))%type.

Definition kv_at (hist : list KV) (i : nat) : KV := default (λ _ _, e_zero, λ _ _, e_zero) (hist !! i).

Lemma fmap_kv_at {A} (f : KV → A) hist : (λ j, f (kv_at hist j)) <$> seq 0 (length hist) = f <$> hist.
Proof.
  apply list_eq. intros j. rewrite !list_lookup_fmap. destruct (hist !! j) as [x|] eqn:Ej.
  - rewrite lookup_seq_lt by (by eapply lookup_lt_Some). cbn. unfold kv_at. by rewrite Ej.
  - apply lookup_ge_None in Ej. rewrite lookup_ge_None_2; [done |]. by rewrite length_seq.
Qed.

Lemma kv_at_app l k i : kv_at (l ++ k) i = if i <? length l then kv_at l i else kv_at k (i - length l).
Proof. unfold kv_at. rewrite lookup_app. destruct (Nat.ltb_spec i (length l)) as [H|H].
  - by destruct (lookup_lt_is_Some_2 l i H) as [x ->].
  - by rewrite (lookup_ge_None_2 l).
Qed.

Definition kv_tensors (k v : T) (kvh d : nat) (hist : list KV) : Prop :=
  den k T_F32 [1; kvh; length hist; d] (ix4 (λ _ a i j, (kv_at hist i).1 a j))
  ∧ den v T_F32 [1; kvh; length hist; d] (ix4 (λ _ a i j, (kv_at hist i).2 a j)).

(** A cache slot holds the keys and values of [hist]. *)
Definition cache_holds (cache : option (T * T)) (kvh d : nat) (hist : list KV) : Prop :=
  match cache with
  | None => hist = []
  | Some (k, v) => hist ≠ [] ∧ kv_tensors k v kvh d hist
  end.

Lemma cat_heads (a b : T) kvh n m d (f g : nat → nat → nat → E) :
  den a T_F32 [1; kvh; n; d] (ix4 (λ _ a i j, f i a j)) → den b T_F32 [1; kvh; m; d] (ix4 (λ _ a i j, g i a j)) →
  gives (n_cat [a; b] 2) T_F32 [1; kvh; n + m; d] (ix4 (λ _ a i j, if i <? n then f i a j else g (i - n) a j)).
Proof using All.
  intros Ha Hb. eapply gives_ext; [apply (cat_ok a b T_F32 [1; kvh; n; d] _ _ 2 n m Ha Hb eq_refl) |].
  intros [|u [|h [|i [|j [|? ?]]]]]; cbn [inb insert list_insert lookup list_lookup]; tauto.
Qed.

Lemma extend_cache_holds cache kvh d hist (k v : T) new : cache_holds cache kvh d hist → new ≠ [] → kv_tensors k v kvh d new →
  ∃ k' v', extend_cache cache k v = Ok (k', v') ∧ kv_tensors k' v' kvh d (hist ++ new).
Proof using All.
  intros Hc Hne [Hk Hv]. destruct cache as [[ck cv]|]; cbn in *; [| by subst; exists k, v].
  destruct Hc as (_ & Hck & Hcv).
  destruct (cat_heads ck k kvh _ _ d (λ i, (kv_at hist i).1) (λ i, (kv_at new i).1) Hck Hk) as (k' & -> & Hk'). cbn [result_bind].
  destruct (cat_heads cv v kvh _ _ d (λ i, (kv_at hist i).2) (λ i, (kv_at new i).2) Hcv Hv) as (v' & -> & Hv'). cbn [result_bind].
  exists k', v'. split; [done |]. unfold kv_tensors. rewrite length_app.
  split; [apply (den_ext _ _ _ _ _ Hk') | apply (den_ext _ _ _ _ _ Hv')];
    (intros [|u [|a [|i [|j [|? ?]]]]]; cbn [inb ix4]; try tauto; intros _; rewrite kv_at_app; by destruct (i <? length hist)).
Qed.

(** ** Scores and weights *)
Lemma fmap_seq_bind {A B} (u : A → B) (f : nat → list A) l : u <$> (l ≫= f) = l ≫= (λ i, u <$> f i).
Proof. induction l as [|i l IH]; [done |]. cbn. by rewrite fmap_app, IH. Qed.

Lemma causal_mask_gives n : gives (causal_mask n) T_F32 [1; 1; n; n]
  (ix4 (λ _ _ i j, e_f32 (if i <? j then F32.neg_infinity else F32.zero))).
Proof using All.
  unfold causal_mask.
  set (f i := match i with [i; j] => e_f32 (if i <? j then F32.neg_infinity else F32.zero) | _ => e_zero end : E).
  destruct (nd_from_f32_ok (T := T) (E := E) (seq 0 n ≫= (λ i, (λ j, if i <? j then F32.neg_infinity else F32.zero) <$> seq 0 n)) [n; n] f)
    as (m & -> & Hm).
  - rewrite (length_seq_bind _ n) by (intros; by rewrite length_fmap, length_seq). cbn. lia.
  - change (tab [n; n] f) with (seq 0 n ≫= (λ i, seq 0 n ≫= (λ j, [f [i; j]]))). rewrite fmap_seq_bind.
    apply seq_bind_ext. intros i _. induction (seq 0 n) as [|j l IH]; [done |]. cbn. f_equal. exact IH.
  - cbn [result_bind]. apply (nd_reshape_ok m T_F32 _ _ _ _ Hm); [cbn; lia |]. symmetry. cbn [tab seq mbind list_bind]. by rewrite !app_nil_r.
Qed.

Definition score_scale (d : nat) : E := e_f32 (attention_scale d).

(** What token [q] gives to each key. *)
Definition score (d : nat) (q k : nat → E) : E := e_mul (e_dot (vec d q) (vec d k)) (score_scale d).

(** The weighted sum of the values seen. *)
Definition weigh (d : nat) (q : nat → E) (keys values : list (nat → E)) (j : nat) : E :=
  e_dot (e_softmax (score d q <$> keys)) ((λ v, v j) <$> values).

Lemma length_vec n (f : nat → E) : length (vec n f) = n.
Proof. unfold vec. by rewrite length_fmap, length_seq. Qed.

(** A masked row attends to the tokens up to its own. *)
Lemma masked_weigh `{!MaskLaws E} d q (k v : nat → nat → E) n i c : i < n →
  e_dot (e_softmax (vec n (λ j, e_add (score d q (k j)) (e_f32 (if i <? j then F32.neg_infinity else F32.zero))))) (vec n (λ j, v j c))
  = weigh d q (k <$> seq 0 (S i)) (v <$> seq 0 (S i)) c.
Proof using All.
  intros Hi. unfold vec, weigh. replace n with (S i + (n - S i)) by lia. rewrite seq_app, !fmap_app. cbn [Nat.add].
  set (l := seq 0 (S i)). set (r := seq (S i) (n - S i)).
  assert ((λ j, e_add (score d q (k j)) (e_f32 (if i <? j then F32.neg_infinity else F32.zero))) <$> l
          = (λ x, e_add x e_zero) <$> (score d q <$> (k <$> l))) as ->.
  { rewrite <- !list_fmap_compose. apply list_fmap_ext. intros j ? [-> Hj]%lookup_seq. cbn [Nat.add compose]. by destruct (Nat.ltb_spec i j); [lia |]. }
  assert ((λ j, e_add (score d q (k j)) (e_f32 (if i <? j then F32.neg_infinity else F32.zero))) <$> r
          = (λ x, e_add x (e_f32 F32.neg_infinity)) <$> (score d q <$> (k <$> r))) as ->.
  { rewrite <- !list_fmap_compose. apply list_fmap_ext. intros j ? [-> Hj]%lookup_seq. cbn [compose]. by destruct (Nat.ltb_spec i (S i + j)); [| lia]. }
  rewrite mask_softmax by done. rewrite !length_fmap, <- (length_fmap (λ j, v j c) r), dot_zeros.
  - f_equal. by rewrite <- list_fmap_compose.
  - by rewrite length_e_softmax, !length_fmap.
Qed.

(** The tokens seen from row [i]: those up to it when several rows are computed,
    and all of them for a single row. *)
Definition seen (n m i : nat) : nat := if 1 <? n then S i else m.

Lemma masked_scores (w : T) h n (f : nat → nat → nat → E) : den w T_F32 [1; h; n; n] (ix4 (λ _ a i j, f a i j)) →
  gives (mask <-? causal_mask n; mask <-? n_to_dtype mask T_F32; n_broadcast_add w mask) T_F32 [1; h; n; n]
    (ix4 (λ _ a i j, e_add (f a i j) (e_f32 (if i <? j then F32.neg_infinity else F32.zero)))).
Proof using All.
  intros Hw. destruct (causal_mask_gives n) as (m & -> & Hm). cbn [result_bind].
  destruct (to_dtype_ok m T_F32 T_F32 _ _ Hm) as (m1 & -> & Hm1). cbn [result_bind].
  eapply gives_ext; [apply (broadcast_add_ok w m1 T_F32 _ [1; 1; n; n] _ _ ltac:(by left) Hw Hm1) |].
  { unfold bfits. cbn. by rewrite !Nat.eqb_refl, !orb_true_r. }
  intros [|u [|a [|i [|j [|? ?]]]]]; cbn [inb]; try tauto. intros (_ & _ & Hi & Hj & _).
  unfold bidx. cbn [length Nat.sub drop zip_with Nat.eqb ix4]. rewrite e_cast_same.
  assert (∀ k, k < n → (if n =? 1 then 0 else k) = k) as Hk by (intros k Hk; destruct (Nat.eqb_spec n 1); lia).
  by rewrite !Hk.
Qed.

Lemma scaled_attention_gives `{!MaskLaws E} contiguous (a : LlamaAttention (T := T)) (q k v : T) n m (fq fk fv : nat → nat → nat → E) :
  (∀ t ty d f, den t ty d f → gives (contiguous t) ty d f) → (1 < n → m = n) →
  den q T_F32 [1; at_num_heads a; n; at_head_dim a] (ix4 (λ _ h i j, fq h i j)) →
  den k T_F32 [1; at_num_heads a; m; at_head_dim a] (ix4 (λ _ h i j, fk h i j)) →
  den v T_F32 [1; at_num_heads a; m; at_head_dim a] (ix4 (λ _ h i j, fv h i j)) →
  ∃ y, scaled_attention contiguous a q k v 1 n = Ok y
    ∧ tensor_rows y n (at_num_heads a * at_head_dim a) (λ i, vec (at_num_heads a * at_head_dim a) (λ t,
        weigh (at_head_dim a) (fq (t / at_head_dim a) i) (fk (t / at_head_dim a) <$> seq 0 (seen n m i))
          (fv (t / at_head_dim a) <$> seq 0 (seen n m i)) (t mod at_head_dim a))).
Proof using All.
  set (H := at_num_heads a). set (d := at_head_dim a). intros Hc Hnm Hq Hk Hv. pose proof Hq as (_ & Tq & _). unfold scaled_attention. rewrite Tq. fold H d.
  destruct (Hc q _ _ _ Hq) as (qc & -> & Hqc). cbn [result_bind].
  destruct (t_ok k T_F32 _ _ Hk ltac:(cbn; lia)) as (kt & -> & Hkt). cbn [result_bind swap_last] in *.
  destruct (Hc kt _ _ _ Hkt) as (kc & -> & Hkc). cbn [result_bind].
  destruct (matmul4_ok qc kc T_F32 1 H n d m _ _ ltac:(by left) Hqc Hkc) as (sc & -> & Hsc). cbn [result_bind].
  destruct (scalar_ok (T := T) (E := E) (attention_scale d)) as (x & -> & Hx). cbn [result_bind].
  destruct (to_dtype_ok x T_F32 T_F32 _ _ Hx) as (x1 & -> & Hx1). cbn [result_bind].
  destruct (broadcast_mul_ok sc x1 T_F32 _ [] _ _ ltac:(by left) Hsc Hx1 eq_refl) as (w & -> & Hw). cbn [result_bind].
  apply (den_ext _ _ _ _ (ix4 (λ _ h i j, score d (fq h i) (fk h j)))) in Hw.
  2: { intros [|u [|h [|i [|j [|? ?]]]]]; cbn [inb]; try tauto. intros _. cbn [ix4]. by rewrite e_cast_same. }
  set (w' h i j := if 1 <? n then e_add (score d (fq h i) (fk h j)) (e_f32 (if i <? j then F32.neg_infinity else F32.zero))
                   else score d (fq h i) (fk h j)).
  assert (gives (if 1 <? n then mask <-? causal_mask n; mask <-? n_to_dtype mask T_F32; n_broadcast_add w mask else Ok w)
            T_F32 [1; H; n; m] (ix4 (λ _ h i j, w' h i j))) as (w1 & -> & Hw1).
  { unfold w'. destruct (Nat.ltb_spec 1 n) as [Hn|Hn]; [| by exists w]. rewrite (Hnm Hn) in *. by apply masked_scores. }
  cbn [result_bind]. destruct (softmax_ok w1 T_F32 [1; H; n] m _ ltac:(by left) Hw1) as (p & -> & Hp). cbn [result_bind].
  destruct (Hc v _ _ _ Hv) as (vc & -> & Hvc). cbn [result_bind].
  destruct (matmul4_ok p vc T_F32 1 H n m d _ _ ltac:(by left) Hp Hvc) as (o & -> & Ho). cbn [result_bind].
  assert (Ho1 : den o T_F32 [1; H; n; d]
    (ix4 (λ _ h i j, weigh d (fq h i) (fk h <$> seq 0 (seen n m i)) (fv h <$> seq 0 (seen n m i)) j))).
  { apply (den_ext _ _ _ _ _ Ho). intros [|u [|h [|i [|j [|? ?]]]]]; cbn [inb]; try tauto. intros (_ & _ & Hi & _). cbn [ix4].
    transitivity (e_dot (e_softmax (vec m (w' h i))) (vec m (λ l, fv h l j))).
    { f_equal. etrans; [| apply (list_of_at _ m)]; [done |]. by rewrite length_e_softmax, length_vec. }
    unfold w', seen. destruct (Nat.ltb_spec 1 n) as [Hn|Hn]; [rewrite (Hnm Hn); by apply masked_weigh |].
    unfold weigh, vec. by rewrite <- !list_fmap_compose. }
  destruct (swap_heads o H n d (λ h i j, weigh d (fq h i) (fk h <$> seq 0 (seen n m i)) (fv h <$> seq 0 (seen n m i)) j) Ho1)
    as (t & -> & Ht). cbn [result_bind].
  by apply (merge_heads t n H d (λ i h j, weigh d (fq h i) (fk h <$> seq 0 (seen n m i)) (fv h <$> seq 0 (seen n m i)) j)).
Qed.

Lemma scaled_attention_clash (a : LlamaAttention (T := T)) (q k v : T) h n m d (fq fk : nat → nat → nat → E) : 1 < n → n < m →
  den q T_F32 [1; h; n; d] (ix4 (λ _ h i j, fq h i j)) → den k T_F32 [1; h; m; d] (ix4 (λ _ h i j, fk h i j)) →
  ∃ e, scaled_attention n_contiguous a q k v 1 n = Err e.
Proof using All.
  intros Hn Hm Hq Hk. pose proof Hq as (_ & Tq & _). unfold scaled_attention. rewrite Tq.
  destruct (contiguous_ok q T_F32 _ _ Hq) as (qc & -> & Hqc). cbn [result_bind].
  destruct (t_ok k T_F32 _ _ Hk ltac:(cbn; lia)) as (kt & -> & Hkt). cbn [result_bind swap_last] in *.
  destruct (contiguous_ok kt T_F32 _ _ Hkt) as (kc & -> & Hkc). cbn [result_bind].
  destruct (matmul4_ok qc kc T_F32 1 h n d m _ _ ltac:(by left) Hqc Hkc) as (sc & -> & Hsc). cbn [result_bind].
  destruct (scalar_ok (T := T) (E := E) (attention_scale (at_head_dim a))) as (x & -> & Hx). cbn [result_bind].
  destruct (to_dtype_ok x T_F32 T_F32 _ _ Hx) as (x1 & -> & Hx1). cbn [result_bind].
  destruct (broadcast_mul_ok sc x1 T_F32 _ [] _ _ ltac:(by left) Hsc Hx1 eq_refl) as (w & -> & Hw). cbn [result_bind].
  rewrite (proj2 (Nat.ltb_lt 1 n) Hn). destruct (causal_mask_gives n) as (mk & -> & Hmk). cbn [result_bind].
  destruct (to_dtype_ok mk T_F32 T_F32 _ _ Hmk) as (m1 & -> & Hm1). cbn [result_bind].
  destruct (broadcast_add_clash w m1) as (e & ->); [| by exists e].
  pose proof Hw as (-> & _). pose proof Hm1 as (-> & _). exists 0, m, n. split_and!; done || lia.
Qed.

(** ** One attention block, by rows *)

(** What the projections, the head norms and the rotary tables are as functions. *)
Record AttnRows : Type := mkAttnRows {
  aw_q : list E → list E;
  aw_k : list E → list E;
  aw_v : list E → list E;
  aw_o : list E → list E;
  aw_qn : list E → list E;
  aw_kn : list E → list E;
  aw_kv_heads : nat;
  aw_rep : nat;
  aw_half : nat;
  aw_cos : nat → nat → E;
  aw_sin : nat → nat → E;
}.
Definition aw_d (s : AttnRows) : nat := aw_half s + aw_half s.
Definition aw_heads (s : AttnRows) : nat := aw_kv_heads s * aw_rep s.

(** Head [a] of a projected row. *)
Definition head_of (d : nat) (l : list E) (a : nat) (j : nat) : E := at_ l (a * d + j).

Definition query (s : AttnRows) (p : nat) (x : list E) (a : nat) : nat → E :=
  rotate (aw_half s) (aw_cos s) (aw_sin s) p (at_ (aw_qn s (vec (aw_d s) (head_of (aw_d s) (aw_q s x) a)))).
(** What the cache keeps of a token. *)
Definition kv_row (s : AttnRows) (p : nat) (x : list E) : KV :=
  (λ a, rotate (aw_half s) (aw_cos s) (aw_sin s) p (at_ (aw_kn s (vec (aw_d s) (head_of (aw_d s) (aw_k s x) a)))),
   head_of (aw_d s) (aw_v s x)).

(** The row of a token at position [p], seeing the tokens of [hist]. *)
Definition attn_row (s : AttnRows) (p : nat) (x : list E) (hist : list KV) : list E :=
  aw_o s (vec (aw_heads s * aw_d s) (λ t,
    let a := t / aw_d s in
    weigh (aw_d s) (query s p x a) ((λ kv, kv.1 (a / aw_rep s)) <$> hist) ((λ kv, kv.2 (a / aw_rep s)) <$> hist) (t mod aw_d s))).

Record attn_is (show : nat → string) (a : LlamaAttention (T := T)) (s : AttnRows) (hidden : nat) : Prop := {
  ai_q : acts (linear_forward show (q_proj a)) hidden (aw_heads s * aw_d s) (aw_q s);
  ai_k : acts (linear_forward show (k_proj a)) hidden (aw_kv_heads s * aw_d s) (aw_k s);
  ai_v : acts (linear_forward show (v_proj a)) hidden (aw_kv_heads s * aw_d s) (aw_v s);
  ai_o : acts (linear_forward show (o_proj a)) (aw_heads s * aw_d s) hidden (aw_o s);
  ai_qn : rowwise (normed (q_norm a)) (aw_d s) (aw_d s) (aw_qn s);
  ai_kn : rowwise (normed (k_norm a)) (aw_d s) (aw_d s) (aw_kn s);
  ai_heads : at_num_heads a = aw_heads s;
  ai_kv_heads : at_num_kv_heads a = aw_kv_heads s;
  ai_head_dim : at_head_dim a = aw_d s;
  ai_some : aw_kv_heads s ≠ 0 ∧ aw_rep s ≠ 0;
}.

Lemma project_gives show (l : Linear (T := T)) x hidden h d F n R : acts (linear_forward show l) hidden (h * d) F → tensor_rows x n hidden R →
  ∃ y, project show l x 1 n h d = Some (Ok y) ∧ den y T_F32 [1; n; h; d] (ix4 (λ _ i a j, head_of d (F (R i)) a j)).
Proof using All.
  intros Hl Hx. unfold project. destruct (acts_rows _ _ _ _ x n R Hl Hx) as (y & -> & Hy). cbn [bind_r].
  destruct (split_heads y n h d _ Hy) as (z & -> & Hz). by exists z.
Qed.

Lemma project_qkv_gives show a s hidden x n R : attn_is show a s hidden → tensor_rows x n hidden R →
  ∃ q k v, project_qkv show a x = Some (Ok (q, k, v))
    ∧ den q T_F32 [1; aw_heads s; n; aw_d s] (ix4 (λ _ a i j, at_ (aw_qn s (vec (aw_d s) (head_of (aw_d s) (aw_q s (R i)) a))) j))
    ∧ den k T_F32 [1; aw_kv_heads s; n; aw_d s] (ix4 (λ _ a i j, at_ (aw_kn s (vec (aw_d s) (head_of (aw_d s) (aw_k s (R i)) a))) j))
    ∧ den v T_F32 [1; aw_kv_heads s; n; aw_d s] (ix4 (λ _ a i j, head_of (aw_d s) (aw_v s (R i)) a j)).
Proof using All.
  intros Ha Hx. pose proof Hx as [(Dx & _ & _) _]. unfold project_qkv, dims3. rewrite Dx. cbn [bind_r].
  rewrite (ai_heads _ _ _ _ Ha), (ai_kv_heads _ _ _ _ Ha), (ai_head_dim _ _ _ _ Ha).
  destruct (project_gives _ _ x _ _ _ _ n R (ai_q _ _ _ _ Ha) Hx) as (q & -> & Hq). cbn [bind_r].
  destruct (project_gives _ _ x _ _ _ _ n R (ai_k _ _ _ _ Ha) Hx) as (k & -> & Hk). cbn [bind_r].
  destruct (project_gives _ _ x _ _ _ _ n R (ai_v _ _ _ _ Ha) Hx) as (v & -> & Hv). cbn [bind_r].
  destruct (norm_heads _ q n _ _ _ (λ i, head_of (aw_d s) (aw_q s (R i))) (ai_qn _ _ _ _ Ha) Hq) as (q1 & -> & Hq1). cbn [result_bind].
  destruct (norm_heads _ k n _ _ _ (λ i, head_of (aw_d s) (aw_k s (R i))) (ai_kn _ _ _ _ Ha) Hk) as (k1 & -> & Hk1). cbn [result_bind].
  destruct (swap_heads q1 n _ _ (λ i a j, at_ (aw_qn s (vec (aw_d s) (head_of (aw_d s) (aw_q s (R i)) a))) j) Hq1) as (q2 & -> & Hq2).
  destruct (swap_heads k1 n _ _ (λ i a j, at_ (aw_kn s (vec (aw_d s) (head_of (aw_d s) (aw_k s (R i)) a))) j) Hk1) as (k2 & -> & Hk2).
  destruct (swap_heads v n _ _ (λ i, head_of (aw_d s) (aw_v s (R i))) Hv) as (v2 & -> & Hv2).
  by exists q2, k2, v2.
Qed.

Lemma grouped_gives show a s hidden k v hist : attn_is show a s hidden → kv_tensors k v (aw_kv_heads s) (aw_d s) hist →
  ∃ k' v', grouped a k v = Some (Ok (k', v'))
    ∧ den k' T_F32 [1; aw_heads s; length hist; aw_d s] (ix4 (λ _ a i j, (kv_at hist i).1 (a / aw_rep s) j))
    ∧ den v' T_F32 [1; aw_heads s; length hist; aw_d s] (ix4 (λ _ a i j, (kv_at hist i).2 (a / aw_rep s) j)).
Proof using All.
  intros Ha [Hk Hv]. unfold grouped. rewrite (ai_heads _ _ _ _ Ha), (ai_kv_heads _ _ _ _ Ha). destruct (ai_some _ _ _ _ Ha) as [Hkv Hrep].
  assert (Hd : aw_heads s / aw_kv_heads s = aw_rep s) by (unfold aw_heads; rewrite Nat.mul_comm; by apply Nat.div_mul).
  destruct (repeat_kv_gives k _ (aw_rep s) _ _ (λ a i, (kv_at hist i).1 a) Hrep Hk) as (k' & Ek & Hk').
  destruct (repeat_kv_gives v _ (aw_rep s) _ _ (λ a i, (kv_at hist i).2 a) Hrep Hv) as (v' & Ev & Hv').
  exists k', v'. split; [| done]. destruct (Nat.ltb_spec (aw_kv_heads s) (aw_heads s)) as [Hlt|Hge].
  - rewrite (proj2 (Nat.eqb_neq _ _) Hkv), Hd, Ek, Ev. done.
  - assert (aw_rep s = 1) as Hr by (unfold aw_heads in *; nia). unfold repeat_kv in *. rewrite Hr in *. cbn in Ek, Ev. by simplify_eq.
Qed.

Lemma fmap_kv_take {A} (f : KV → A) hist k : k ≤ length hist → (λ l, f (kv_at hist l)) <$> seq 0 k = f <$> take k hist.
Proof.
  intros Hk. rewrite <- (fmap_kv_at f (take k hist)). rewrite length_take_le by done. apply list_fmap_ext. intros l ? [-> Hl]%lookup_seq.
  cbn [Nat.add]. unfold kv_at. by rewrite lookup_take_lt.
Qed.

(** Row [i] sees the history and the new tokens up to its own. *)
Lemma seen_hist {A} (f : KV → A) hist new n i : length new = n → n = 1 ∨ hist = [] → i < n →
  (λ l, f (kv_at (hist ++ new) l)) <$> seq 0 (seen n (length (hist ++ new)) i) = f <$> (hist ++ take (S i) new).
Proof.
  intros Hn Hor Hi. unfold seen. destruct (Nat.ltb_spec 1 n) as [H1|H1].
  - destruct Hor as [-> | ->]; [lia |]. cbn [app]. rewrite fmap_kv_take by lia. done.
  - rewrite fmap_kv_take, take_ge by done. do 2 f_equal. symmetry. apply take_ge. lia.
Qed.

(** What the rows of a pass add to the cache. *)
Definition new_kvs (s : AttnRows) (positions : list nat) (R : nat → list E) : list KV :=
  (λ i, kv_row s (default 0 (positions !! i)) (R i)) <$> seq 0 (length positions).

Lemma new_kvs_at s positions R i : i < length positions → kv_at (new_kvs s positions R) i = kv_row s (default 0 (positions !! i)) (R i).
Proof. intros Hi. unfold kv_at, new_kvs. rewrite list_lookup_fmap, lookup_seq_lt by done. done. Qed.

Lemma new_kvs_nonempty s positions R : positions ≠ [] → new_kvs s positions R ≠ [].
Proof. by destruct positions. Qed.

Lemma new_kv_tensors s positions R k v :
  den k T_F32 [1; aw_kv_heads s; length positions; aw_d s] (ix4 (λ _ a i j, rotate (aw_half s) (aw_cos s) (aw_sin s)
    (default 0 (positions !! i)) (at_ (aw_kn s (vec (aw_d s) (head_of (aw_d s) (aw_k s (R i)) a)))) j)) →
  den v T_F32 [1; aw_kv_heads s; length positions; aw_d s] (ix4 (λ _ a i j, head_of (aw_d s) (aw_v s (R i)) a j)) →
  kv_tensors k v (aw_kv_heads s) (aw_d s) (new_kvs s positions R).
Proof using All.
  intros Hk Hv. unfold kv_tensors. assert (length (new_kvs s positions R) = length positions) as ->.
  { unfold new_kvs. by rewrite length_fmap, length_seq. }
  split; [apply (den_ext _ _ _ _ _ Hk) | apply (den_ext _ _ _ _ _ Hv)];
    (intros [|u [|h [|i [|j [|? ?]]]]]; cbn [inb ix4]; try tauto; intros (_ & _ & Hi & _); by rewrite new_kvs_at).
Qed.

(** Scores, weights and output projection over the keys and values [hist ++ new]. *)
Lemma attend_rows `{!MaskLaws E} show a s hidden contiguous q k v (positions : list nat) R hist :
  attn_is show a s hidden → (∀ t ty d f, den t ty d f → gives (contiguous t) ty d f) →
  positions ≠ [] → length positions = 1 ∨ hist = [] →
  den q T_F32 [1; aw_heads s; length positions; aw_d s] (ix4 (λ _ a i j, query s (default 0 (positions !! i)) (R i) a j)) →
  kv_tensors k v (aw_kv_heads s) (aw_d s) (hist ++ new_kvs s positions R) →
  ∃ y, (g <-! grouped a k v; o <-! Some (scaled_attention contiguous a q g.1 g.2 1 (length positions)); linear_forward show (o_proj a) o)
       = Some (Ok y)
    ∧ tensor_rows y (length positions) hidden
        (λ i, attn_row s (default 0 (positions !! i)) (R i) (hist ++ take (S i) (new_kvs s positions R))).
Proof using All.
  intros Ha Hcont Hne Hor Hq Hkv. set (n := length positions) in *. set (new := new_kvs s positions R) in *.
  assert (Hlen : length new = n) by (unfold new, new_kvs; by rewrite length_fmap, length_seq).
  destruct (grouped_gives show a s hidden k v _ Ha Hkv) as (gk & gv & -> & Hgk & Hgv). cbn [bind_r fst snd].
  rewrite <- (ai_heads _ _ _ _ Ha), <- (ai_head_dim _ _ _ _ Ha) in Hgk, Hgv.
  assert (Hq0 : den q T_F32 [1; at_num_heads a; n; at_head_dim a] (ix4 (λ _ a i j, query s (default 0 (positions !! i)) (R i) a j)))
    by (rewrite (ai_heads _ _ _ _ Ha), (ai_head_dim _ _ _ _ Ha); exact Hq).
  destruct (scaled_attention_gives contiguous a q gk gv n (length (hist ++ new)) (λ a i, query s (default 0 (positions !! i)) (R i) a)
    (λ a i, (kv_at (hist ++ new) i).1 (a / aw_rep s)) (λ a i, (kv_at (hist ++ new) i).2 (a / aw_rep s)) Hcont) as (o & -> & Ho);
    [| exact Hq0 | done | done |].
  { intros H1. destruct Hor as [| -> ]; [lia | done]. }
  cbn [bind_r]. rewrite (ai_heads _ _ _ _ Ha), (ai_head_dim _ _ _ _ Ha) in Ho.
  destruct (acts_rows _ _ _ _ o n _ (ai_o _ _ _ _ Ha) Ho) as (y & Ey & Hy). exists y. split; [exact Ey |].
  apply (tensor_rows_ext _ _ _ _ _ Hy). intros i Hi. unfold attn_row. f_equal. apply list_fmap_ext. intros _ t _. cbv zeta.
  f_equal; by apply (seen_hist (λ kv, _ kv _)).
Qed.

(** The pass over several tokens with nothing cached, or over one token. *)
Lemma attention_rows `{!MaskLaws E} show a s hidden rope max x positions R cache hist :
  attn_is show a s hidden → rope_holds rope max (aw_half s) (aw_cos s) (aw_sin s) → (N.of_nat max <= u32_max)%N →
  positions ≠ [] → Forall (λ p, p < max) positions → length positions = 1 ∨ hist = [] →
  tensor_rows x (length positions) hidden R → cache_holds cache (aw_kv_heads s) (aw_d s) hist →
  ∃ y cache', attention_forward show a x positions cache rope = Some (Ok y, cache')
    ∧ tensor_rows y (length positions) hidden
        (λ i, attn_row s (default 0 (positions !! i)) (R i) (hist ++ take (S i) (new_kvs s positions R)))
    ∧ cache_holds cache' (aw_kv_heads s) (aw_d s) (hist ++ new_kvs s positions R).
Proof using All.
  intros Ha Hrope Hmax Hne Hpos Hor Hx Hc. pose proof Hx as [(Dx & _ & _) _]. unfold attention_forward, dims3. rewrite Dx. cbn [bind_r].
  destruct (project_qkv_gives show a s hidden x _ R Ha Hx) as (q & k & v & -> & Hq & Hk & Hv). cbn [bind_r].
  destruct (rope_apply_gives rope max (aw_half s) _ _ q k 1 _ _ _ _ _ positions Hrope Hmax eq_refl Hne Hpos Hq Hk)
    as (q' & k' & -> & Hq' & Hk'). cbn [bind_r fst snd].
  destruct (extend_cache_holds cache _ _ hist k' v _ Hc (new_kvs_nonempty s _ R Hne) (new_kv_tensors s positions R k' v Hk' Hv))
    as (ck & cv & -> & Hkv'). cbn [bind_r].
  destruct (attend_rows show a s hidden n_contiguous q' ck cv positions R hist Ha) as (y & Ey & Hy); try done.
  { intros. by apply contiguous_ok. }
  cbn [bind_r] in Ey. rewrite Ey. eexists y, _. split; [reflexivity |]. split; [done |]. split; [| done].
  intros [_ E0]%app_eq_nil. by apply (new_kvs_nonempty s positions R Hne).
Qed.

(** Without CUDA the paged pass sees the tokens of its batch, and nothing cached. *)
Lemma attention_paged_rows `{!MaskLaws E} show enabled paged_op a s hidden rope max x positions R layer :
  attn_is show a s hidden → rope_holds rope max (aw_half s) (aw_cos s) (aw_sin s) → (N.of_nat max <= u32_max)%N →
  positions ≠ [] → Forall (λ p, p < max) positions → tensor_rows x (length positions) hidden R →
  ∃ y, attention_forward_paged show false enabled paged_op a x positions layer rope = Some (Ok y)
    ∧ tensor_rows y (length positions) hidden
        (λ i, attn_row s (default 0 (positions !! i)) (R i) (take (S i) (new_kvs s positions R))).
Proof using All.
  intros Ha Hrope Hmax Hne Hpos Hx. pose proof Hx as [(Dx & _ & _) _]. unfold attention_forward_paged, dims3. rewrite Dx. cbn [bind_r].
  destruct (project_qkv_gives show a s hidden x _ R Ha Hx) as (q & k & v & -> & Hq & Hk & Hv). cbn [bind_r].
  destruct (rope_apply_gives rope max (aw_half s) _ _ q k 1 _ _ _ _ _ positions Hrope Hmax eq_refl Hne Hpos Hq Hk)
    as (q' & k' & -> & Hq' & Hk'). cbn [bind_r fst snd].
  apply (attend_rows show a s hidden Ok q' k' v positions R [] Ha); [| done | by right | done | by apply new_kv_tensors].
  intros t ty d f Ht. by exists t.
Qed.
(** Several tokens on a cache that is not empty: the mask of the new tokens does
    not fit the scores over all of them, but the cache is already extended. *)
Lemma attention_clash show a s hidden rope max x positions R cache hist :
  attn_is show a s hidden → rope_holds rope max (aw_half s) (aw_cos s) (aw_sin s) → (N.of_nat max <= u32_max)%N →
  positions ≠ [] → Forall (λ p, p < max) positions → 1 < length positions → hist ≠ [] →
  tensor_rows x (length positions) hidden R → cache_holds cache (aw_kv_heads s) (aw_d s) hist →
  ∃ e cache', attention_forward show a x positions cache rope = Some (Err e, cache')
    ∧ cache_holds cache' (aw_kv_heads s) (aw_d s) (hist ++ new_kvs s positions R).
Proof using All.
  intros Ha Hrope Hmax Hne Hpos Hn Hhist Hx Hc. pose proof Hx as [(Dx & _ & _) _]. unfold attention_forward, dims3. rewrite Dx. cbn [bind_r].
  destruct (project_qkv_gives show a s hidden x _ R Ha Hx) as (q & k & v & -> & Hq & Hk & Hv). cbn [bind_r].
  destruct (rope_apply_gives rope max (aw_half s) _ _ q k 1 _ _ _ _ _ positions Hrope Hmax eq_refl Hne Hpos Hq Hk)
    as (q' & k' & -> & Hq' & Hk'). cbn [bind_r fst snd].
  destruct (extend_cache_holds cache _ _ hist k' v _ Hc (new_kvs_nonempty s _ R Hne) (new_kv_tensors s positions R k' v Hk' Hv))
    as (ck & cv & -> & Hkv'). cbn [bind_r].
  destruct (grouped_gives show a s hidden ck cv _ Ha Hkv') as (gk & gv & -> & Hgk & Hgv). cbn [bind_r fst snd].
  assert (∃ e, scaled_attention n_contiguous a q' gk gv 1 (length positions) = Err e) as (e & ->).
  { refine (scaled_attention_clash a q' gk gv (aw_heads s) (length positions) (length (hist ++ new_kvs s positions R)) (aw_d s)
      _ _ Hn _ Hq' Hgk).
    rewrite length_app. unfold new_kvs. rewrite length_fmap, length_seq. destruct hist; [done | cbn; lia]. }
  eexists e, _. split; [reflexivity |]. split; [| done]. intros [_ E0]%app_eq_nil. by apply (new_kvs_nonempty s positions R Hne).
Qed.

(** ** A decoder layer, by rows *)
Record LayerFn : Type := mkLayerFn {
  lr_attn : AttnRows;
  lr_mlp : list E → list E;
  lr_input_norm : list E → list E;
  lr_post_norm : list E → list E;
}.

Definition layer_kv (L : LayerFn) (p : nat) (x : list E) : KV := kv_row (lr_attn L) p (lr_input_norm L x).

Definition layer_row (L : LayerFn) (p : nat) (x : list E) (hist : list KV) : list E :=
  let h := zip_with e_add x (attn_row (lr_attn L) p (lr_input_norm L x) hist) in
  zip_with e_add h (lr_mlp L (lr_post_norm L h)).

Record layer_is (show : nat → string) (l : LlamaDecoderLayer (T := T)) (L : LayerFn) (hidden : nat) : Prop := {
  li_attn : attn_is show (self_attn l) (lr_attn L) hidden;
  li_mlp : acts (mlp_forward show (mlp l)) hidden hidden (lr_mlp L);
  li_input_norm : rowwise (rms_forward (input_layernorm l)) hidden hidden (lr_input_norm L);
  li_post_norm : rowwise (rms_forward (post_attention_layernorm l)) hidden hidden (lr_post_norm L);
}.

(** The cache of a layer. *)
Definition layer_cache (L : LayerFn) (cache : option (T * T)) (hist : list KV) : Prop :=
  cache_holds cache (aw_kv_heads (lr_attn L)) (aw_d (lr_attn L)) hist.

Lemma mlp_block_rows show l L hidden x n R : layer_is show l L hidden → tensor_rows x n hidden R →
  ∃ y, mlp_block show l x = Some (Ok y) ∧ tensor_rows y n hidden (λ i, zip_with e_add (R i) (lr_mlp L (lr_post_norm L (R i)))).
Proof using All.
  intros Hl Hx. unfold mlp_block.
  destruct (acts_rows _ _ _ _ x n R (rowwise_acts _ _ _ _ (li_post_norm _ _ _ _ Hl)) Hx) as (m & [= ->] & Hm). cbn [bind_r].
  destruct (acts_rows _ _ _ _ m n _ (li_mlp _ _ _ _ Hl) Hm) as (y & -> & Hy). cbn [bind_r].
  destruct (add_rows x y n hidden _ _ Hx Hy) as (z & -> & Hz). by exists z.
Qed.

(** The keys and values a pass adds. *)
Definition layer_kvs (L : LayerFn) (positions : list nat) (R : nat → list E) : list KV :=
  (λ i, layer_kv L (default 0 (positions !! i)) (R i)) <$> seq 0 (length positions).

Definition rope_for (rope : RotaryEmbedding T) (max : nat) (s : AttnRows) : Prop :=
  rope_holds rope max (aw_half s) (aw_cos s) (aw_sin s).

Lemma layer_rows `{!MaskLaws E} show l L hidden rope max x positions R cache hist :
  layer_is show l L hidden → rope_for rope max (lr_attn L) → (N.of_nat max <= u32_max)%N →
  positions ≠ [] → Forall (λ p, p < max) positions → length positions = 1 ∨ hist = [] →
  tensor_rows x (length positions) hidden R → layer_cache L cache hist →
  ∃ y cache', layer_forward show l x positions cache rope = Some (Ok y, cache')
    ∧ tensor_rows y (length positions) hidden
        (λ i, layer_row L (default 0 (positions !! i)) (R i) (hist ++ take (S i) (layer_kvs L positions R)))
    ∧ layer_cache L cache' (hist ++ layer_kvs L positions R).
Proof using All.
  intros Hl Hrope Hmax Hne Hpos Hor Hx Hc. unfold layer_forward.
  destruct (acts_rows _ _ _ _ x _ R (rowwise_acts _ _ _ _ (li_input_norm _ _ _ _ Hl)) Hx) as (m & [= ->] & Hm).
  destruct (attention_rows show _ _ hidden rope max m positions _ cache hist (li_attn _ _ _ _ Hl) Hrope Hmax Hne Hpos Hor Hm Hc)
    as (y & cache' & -> & Hy & Hc'). cbn [mbind option_bind bind_r].
  destruct (add_rows x y _ hidden _ _ Hx Hy) as (z & -> & Hz). cbn [bind_r].
  destruct (mlp_block_rows show l L hidden z _ _ Hl Hz) as (o & -> & Ho). cbn [mbind option_bind].
  by exists o, cache'.
Qed.

Lemma layer_clash show l L hidden rope max x positions R cache hist :
  layer_is show l L hidden → rope_for rope max (lr_attn L) → (N.of_nat max <= u32_max)%N →
  positions ≠ [] → Forall (λ p, p < max) positions → 1 < length positions → hist ≠ [] →
  tensor_rows x (length positions) hidden R → layer_cache L cache hist →
  ∃ e cache', layer_forward show l x positions cache rope = Some (Err e, cache') ∧ layer_cache L cache' (hist ++ layer_kvs L positions R).
Proof using All.
  intros Hl Hrope Hmax Hne Hpos Hn Hh Hx Hc. unfold layer_forward.
  destruct (acts_rows _ _ _ _ x _ R (rowwise_acts _ _ _ _ (li_input_norm _ _ _ _ Hl)) Hx) as (m & [= ->] & Hm).
  destruct (attention_clash show _ _ hidden rope max m positions _ cache hist (li_attn _ _ _ _ Hl) Hrope Hmax Hne Hpos Hn Hh Hm Hc)
    as (e & cache' & -> & Hc'). by exists e, cache'.
Qed.

Lemma layer_paged_rows `{!MaskLaws E} show enabled paged_op l L hidden rope max x positions R i0 :
  layer_is show l L hidden → rope_for rope max (lr_attn L) → (N.of_nat max <= u32_max)%N →
  positions ≠ [] → Forall (λ p, p < max) positions → tensor_rows x (length positions) hidden R →
  ∃ y, layer_forward_paged show false enabled paged_op l x positions i0 rope = Some (Ok y)
    ∧ tensor_rows y (length positions) hidden
        (λ i, layer_row L (default 0 (positions !! i)) (R i) (take (S i) (layer_kvs L positions R))).
Proof using All.
  intros Hl Hrope Hmax Hne Hpos Hx. unfold layer_forward_paged.
  destruct (acts_rows _ _ _ _ x _ R (rowwise_acts _ _ _ _ (li_input_norm _ _ _ _ Hl)) Hx) as (m & [= ->] & Hm). cbn [bind_r].
  destruct (attention_paged_rows show enabled paged_op _ _ hidden rope max m positions _ i0 (li_attn _ _ _ _ Hl) Hrope Hmax Hne Hpos Hm)
    as (y & -> & Hy). cbn [bind_r].
  destruct (add_rows x y _ hidden _ _ Hx Hy) as (z & -> & Hz). cbn [bind_r].
  destruct (mlp_block_rows show l L hidden z _ _ Hl Hz) as (o & -> & Ho). by exists o.
Qed.
End attention.
