(* ===== verification/Moe.v ===== *)
(** * Mixtures of experts

    The further calls of the tensor library that routing needs, with their laws,
    and the loop over the experts that the Qwen and the DeepSeek models share: the
    tokens routed to an expert are gathered, sent through it together, weighted and
    added to the output, expert after expert.  [mixture_rows] shows that this is,
    for each token alone, the sum over the experts in order of what the expert
    makes of its row, times its weight: which tokens share a batch changes nothing. *)
From S2P Require Import Prelude F32 Tensors NdTensor Rope Layers LayerRows.
#[local] Open Scope list_scope.
#[local] Open Scope nat_scope.
#[local] Open Scope rllm_scope.

(** ** The calls *)
Class MoeOps (T : Type) : Type := {
  m_softmax_last_dim : T → result T TensorError;
  (** The positions of a row, in decreasing order of its values. *)
  m_arg_sort_desc : T → result T TensorError;
  (** [gather] over the last dimension, and the sum over it, kept. *)
  m_gather_last : T → T → result T TensorError;
  m_sum_keepdim : T → result T TensorError;
  m_zeros_like : T → result T TensorError;
  (** Rows added at positions, one after the other. *)
  m_index_add_0 : T → T → T → result T TensorError;
  m_sigmoid : T → result T TensorError;
  m_to_vec2_u32 : T → result (list (list N)) TensorError;
}.

Section loop.
Context {T : Type} `{!NdOps T, !MoeOps T}.

(** The tokens whose routes name an expert, with the weights of those routes. *)
Definition routed_to (cpu_ids : list (list N)) (cpu_weights : list (list f32)) (tokens top_k expert_id : nat) :
    option (list (N * f32)) :=
  routes ← mapM (λ p : nat * nat,
    let '(token, route) := p in
    id ← cpu_ids !! token ≫= lookup route;
    if N.to_nat id =? expert_id then w ← cpu_weights !! token ≫= lookup route; Some [(as_u32 (N.of_nat token), w)]
    else Some []) (seq 0 tokens ≫= (λ token, pair token <$> seq 0 top_k));
  Some (concat routes).

(** What one expert adds to the output. *)
Definition add_expert (flat : T) (forward : T → option (result T TensorError)) (routes : list (N * f32)) (output : T) :
    option (result T TensorError) :=
  match routes with
  | [] => Some (Ok output)
  | _ =>
      indices <-! Some (n_from_u32 (fst <$> routes) [length routes]);
      x <-! Some (n_index_select_0 flat indices);
      selected <-! forward x;
      Some (weights <-? n_from_f32 (snd <$> routes) [nprod (n_dims indices); 1];
            weights <-? n_to_dtype weights (n_dtype selected);
            y <-? n_broadcast_mul selected weights;
            m_index_add_0 output indices y)
  end.

Fixpoint run_experts (flat : T) (cpu_ids : list (list N)) (cpu_weights : list (list f32)) (tokens top_k expert_id : nat)
    (experts : list (T → option (result T TensorError))) (output : T) : option (result T TensorError) :=
  match experts with
  | [] => Some (Ok output)
  | forward :: experts =>
      routes ← routed_to cpu_ids cpu_weights tokens top_k expert_id;
      output <-! add_expert flat forward routes output;
      run_experts flat cpu_ids cpu_weights tokens top_k (S expert_id) experts output
  end.
End loop.

(** ** Laws *)
Class MoeScalars (E : Type) : Type := {
  e_argsort : list E → list nat;
  e_sum : list E → E;
  e_sigmoid : E → E;
}.

Class LawfulMoe (T E : Type) `{!NdOps T, !MoeOps T, !Scalars E, !MoeScalars E, !Elements T E} : Prop := {
  argsort_perm : ∀ l : list E, e_argsort l ≡ₚ seq 0 (length l);
  softmax_last_ok : ∀ (t : T) ty d n (f : list nat → E), is_float ty → den t ty (d ++ [n]) f →
    gives (m_softmax_last_dim t) ty (d ++ [n]) (λ i, default e_zero (e_softmax (row_at f i n) !! List.last i 0));
  arg_sort_ok : ∀ (t : T) ty d n (f : list nat → E), is_float ty → den t ty (d ++ [n]) f →
    gives (E := E) (m_arg_sort_desc t) T_U32 (d ++ [n]) (λ i, e_u32 (N.of_nat (default 0 (e_argsort (row_at f i n) !! List.last i 0))));
  gather_ok : ∀ (t ids : T) ty d n k (f g : list nat → E), den t ty (d ++ [n]) f → den ids T_U32 (d ++ [k]) g →
    (∀ i, inb (d ++ [k]) i → N.to_nat (e_to_u32 (g i)) < n) →
    gives (m_gather_last t ids) ty (d ++ [k]) (λ i, f (set_last i (N.to_nat (e_to_u32 (g i)))));
  sum_keepdim_ok : ∀ (t : T) ty d n (f : list nat → E), is_float ty → den t ty (d ++ [n]) f →
    gives (m_sum_keepdim t) ty (d ++ [1]) (λ i, e_sum (row_at f i n));
  zeros_like_ok : ∀ (t : T) ty d (f : list nat → E), is_float ty → den t ty d f → gives (m_zeros_like t) ty d (λ _, e_zero);
  index_add_ok : ∀ (t ids src : T) ty n w m (f g h : list nat → E), is_float ty → den t ty [n; w] f → den ids T_U32 [m] g →
    den src ty [m; w] h → (∀ k, k < m → N.to_nat (e_to_u32 (g [k])) < n) →
    gives (m_index_add_0 t ids src) ty [n; w] (λ i, match i with
      | [x; j] => foldl (λ acc k, if N.to_nat (e_to_u32 (g [k])) =? x then e_add acc (h [k; j]) else acc) (f [x; j]) (seq 0 m)
      | _ => e_zero end);
  sigmoid_ok : ∀ (t : T) ty d (f : list nat → E), is_float ty → den t ty d f → gives (m_sigmoid t) ty d (λ i, e_sigmoid (f i));
  to_vec2_u32_ok : ∀ (t : T) r c (f : list nat → E), den t T_U32 [r; c] f →
    m_to_vec2_u32 t = Ok (rows_of c r (e_to_u32 <$> n_flat t));
}.

(** ** Folds *)
Lemma foldl_seq_list {A B} (step : A → B → A) (d : B) (l : list B) : ∀ acc,
  foldl step acc l = foldl (λ a k, step a (default d (l !! k))) acc (seq 0 (length l)).
Proof.
  induction l as [|b l IH]; intros acc; [done |]. cbn [length seq foldl lookup list_lookup]. rewrite IH.
  rewrite <- fmap_S_seq. change (default d (Some b)) with b. generalize (step acc b) as a. generalize (seq 0 (length l)) as m. clear.
  induction m as [|k m IH]; intros a; [done |]. cbn. apply IH.
Qed.

Lemma foldl_ext_in {A B} (f g : A → B → A) (l : list B) : (∀ a b, b ∈ l → f a b = g a b) → ∀ acc, foldl f acc l = foldl g acc l.
Proof.
  induction l as [|b l IH]; intros H acc; [done |]. cbn. rewrite H by set_solver. apply IH. intros a b' Hb. apply H. set_solver.
Qed.
(** ** Routes *)

(** The weights of the routes that name expert [e]. *)
Definition picked (ids : list N) (ws : list f32) (e : nat) : list f32 :=
  snd <$> filter (λ r : N * f32, N.to_nat r.1 = e) (zip ids ws).

(** One list of experts and one of weights per token. *)
Definition routing_is (cpu_ids : list (list N)) (cpu_weights : list (list f32)) (n top_k : nat) (I : nat → list N) (W : nat → list f32) : Prop :=
  ∀ t, t < n → cpu_ids !! t = Some (I t) ∧ cpu_weights !! t = Some (W t) ∧ length (I t) = top_k ∧ length (W t) = top_k.

Lemma mapM_app {A B} (f : A → option B) l k : mapM f (l ++ k) = (x ← mapM f l; y ← mapM f k; Some (x ++ y)).
Proof.
  induction l as [|a l IH]; cbn; [by destruct (mapM f k) |]. destruct (f a) as [b|]; [cbn | done]. rewrite IH.
  destruct (mapM f l) as [x|]; [cbn | done]. by destruct (mapM f k).
Qed.

Lemma routed_token cpu_ids cpu_weights n top_k I W e t : (N.of_nat n <= u32_max)%N → routing_is cpu_ids cpu_weights n top_k I W → t < n →
  ∃ rs, mapM (λ p : nat * nat,
      let '(token, route) := p in
      id ← cpu_ids !! token ≫= lookup route;
      if N.to_nat id =? e then w ← cpu_weights !! token ≫= lookup route; Some [(as_u32 (N.of_nat token), w)]
      else Some []) (pair t <$> seq 0 top_k) = Some rs
    ∧ concat rs = pair (N.of_nat t) <$> picked (I t) (W t) e.
Proof.
  intros Hn H Ht. destruct (H t Ht) as (Ei & Ew & Hl & Hl'). rewrite <- Hl.
  assert (Hgen : ∀ k ids ws, (∀ j, ids !! j = I t !! (k + j)) → (∀ j, ws !! j = W t !! (k + j)) → length ids = length ws →
    ∃ rs, mapM (λ p : nat * nat,
      let '(token, route) := p in
      id ← cpu_ids !! token ≫= lookup route;
      if N.to_nat id =? e then w ← cpu_weights !! token ≫= lookup route; Some [(as_u32 (N.of_nat token), w)]
      else Some []) (pair t <$> seq k (length ids)) = Some rs ∧ concat rs = pair (N.of_nat t) <$> picked ids ws e).
  { intros k ids. revert k. induction ids as [|i ids IH]; intros k [|w ws] Hi Hw Hlen; try done; [by exists [] |].
    destruct (IH (S k) ws) as (rs & Ers & Hrs); [intros j; rewrite Nat.add_succ_comm; apply (Hi (S j)) | intros j; rewrite Nat.add_succ_comm; apply (Hw (S j)) | by injection Hlen |].
    pose proof (Hi 0) as Hi0. pose proof (Hw 0) as Hw0. rewrite Nat.add_0_r in Hi0, Hw0.
    cbn [length seq fmap list_fmap mapM]. rewrite Ei, Ew. cbn [mbind option_bind]. rewrite <- Hi0, <- Hw0. cbn [lookup list_lookup mbind option_bind].
    unfold picked in *. cbn [zip zip_with]. rewrite filter_cons. cbn [fst].
    destruct (Nat.eqb_spec (N.to_nat i) e) as [Ee|Ee].
    - rewrite decide_True by done. cbn [mbind option_bind]. rewrite Ers. cbn [mbind option_bind]. eexists. split; [done |].
      cbn [concat app fmap list_fmap snd]. rewrite Hrs. do 2 f_equal. unfold as_u32, u32_max in *. rewrite N.mod_small by lia. done.
    - rewrite decide_False by done. cbn [mbind option_bind]. rewrite Ers. cbn [mbind option_bind]. eexists. split; [done |]. exact Hrs. }
  apply (Hgen 0 (I t) (W t)); [done | done | lia].
Qed.

Definition routes_of (I : nat → list N) (W : nat → list f32) (e n : nat) : list (N * f32) :=
  seq 0 n ≫= (λ t, pair (N.of_nat t) <$> picked (I t) (W t) e).

Lemma routed_to_value cpu_ids cpu_weights n top_k I W e : (N.of_nat n <= u32_max)%N → routing_is cpu_ids cpu_weights n top_k I W →
  routed_to cpu_ids cpu_weights n top_k e = Some (routes_of I W e n).
Proof.
  intros Hn H. unfold routed_to, routes_of.
  assert (Hgen : ∀ m, m ≤ n → ∃ rs, mapM (λ p : nat * nat,
      let '(token, route) := p in
      id ← cpu_ids !! token ≫= lookup route;
      if N.to_nat id =? e then w ← cpu_weights !! token ≫= lookup route; Some [(as_u32 (N.of_nat token), w)]
      else Some []) (seq 0 m ≫= (λ token, pair token <$> seq 0 top_k)) = Some rs
    ∧ concat rs = seq 0 m ≫= (λ t, pair (N.of_nat t) <$> picked (I t) (W t) e)).
  { induction m as [|m IH]; intros Hm; [by exists [] |]. destruct (IH ltac:(lia)) as (rs & Ers & Hrs).
    destruct (routed_token _ _ _ _ I W e m Hn H ltac:(lia)) as (r & Er & Hr).
    rewrite seq_S, !bind_app, mapM_app, Ers. cbn [mbind list_bind option_bind Nat.add]. rewrite !app_nil_r, Er. cbn [mbind option_bind].
    eexists. split; [done |]. rewrite concat_app. cbn [mbind list_bind] in Hrs. by rewrite Hrs, Hr. }
  destruct (Hgen n ltac:(lia)) as (rs & -> & Hrs). cbn [mbind option_bind]. by rewrite Hrs.
Qed.

(** The weight of each chosen expert. *)
Definition gates (ids : list nat) (ws : list f32) : gmap nat f32 := list_to_map (zip ids ws).

Lemma picked_gate ids ws e : NoDup ids → length ids = length ws →
  picked (N.of_nat <$> ids) ws e = match gates ids ws !! e with Some w => [w] | None => [] end.
Proof.
  unfold picked, gates. revert ws. induction ids as [|i ids IH]; intros [|w ws] Hnd Hl; try done. apply NoDup_cons in Hnd as [Hi Hnd].
  cbn [fmap list_fmap zip zip_with list_to_map foldr fst snd]. rewrite filter_cons. cbn [fst]. specialize (IH ws Hnd ltac:(by injection Hl)).
  destruct (decide (N.to_nat (N.of_nat i) = e)) as [He|He]; rewrite Nat2N.id in He.
  - subst. cbn [fmap list_fmap snd]. unfold list_fmap in IH. unfold fmap in IH.
    rewrite (lookup_insert_eq (M := gmap nat)). f_equal. etrans; [exact IH |].
    assert ((list_to_map (zip ids ws) : gmap nat f32) !! e = None) as Hn.
    { apply not_elem_of_list_to_map_1. intros ([i' w'] & -> & Hw')%list_elem_of_fmap. by apply elem_of_zip_l in Hw'. }
    by rewrite Hn.
  - rewrite (lookup_insert_ne (M := gmap nat)) by done. exact IH.
Qed.

Lemma rows_of_fmap {A B} (g : A → B) c r : ∀ l : list A, rows_of c r (g <$> l) = (λ row : list A, g <$> row) <$> rows_of c r l.
Proof. induction r as [|r IH]; intros l; [done |]. cbn [rows_of fmap list_fmap]. by rewrite <- IH, fmap_take, fmap_drop. Qed.

Lemma bfits_column m w : bfits [m; 1] [m; w] = true.
Proof. cbn. by rewrite Nat.eqb_refl, orb_true_r. Qed.

Lemma bidx_column m k j : k < m → bidx [m; 1] [k; j] = [k; 0].
Proof. intros Hk. unfold bidx. cbn. destruct (Nat.eqb_spec m 1); [f_equal; lia | done]. Qed.

(** ** Tables of rows *)
Section rows.
Context {T E : Type} `{!NdOps T, !MoeOps T, !Scalars E, !MoeScalars E, !Elements T E, !LawfulNd T E, !LawfulScalars E, !LawfulMoe T E}.
#[local] Abbreviation gives := (gives (T := T) (E := E)).
#[local] Abbreviation den := (den (T := T) (E := E)).

Definition ix2 (f : nat → nat → E) (i : list nat) : E := match i with [a; b] => f a b | _ => e_zero end.

Definition table (t : T) (n w : nat) (R : nat → list E) : Prop :=
  den t T_F32 [n; w] (ix2 (λ i j, at_ (R i) j)) ∧ ∀ i, i < n → length (R i) = w.

Lemma table_ext t n w R R' : table t n w R → (∀ i, i < n → R i = R' i) → table t n w R'.
Proof.
  intros [Ht Hl] H. split; [| intros i Hi; rewrite <- H by done; by apply Hl]. apply (den_ext _ _ _ _ _ Ht).
  intros [|i [|j [|? ?]]]; cbn [inb ix2]; try tauto. intros (Hi & _). by rewrite H.
Qed.

Lemma row_at_table (R : nat → list E) w i j : length (R i) = w → row_at (ix2 (λ i j, at_ (R i) j)) [i; j] w = R i.
Proof. intros Hl. transitivity (at_ (R i) <$> seq 0 w); [| by apply list_of_at]. apply list_fmap_ext. intros _ k _. done. Qed.

Lemma acts_table fw a b F x n R : acts fw a b F → table x n a R → ∃ y, fw x = Some (Ok y) ∧ table y n b (λ i, F (R i)).
Proof.
  intros [HF Hop] [Hx Hl]. destruct (Hop x [n] _ Hx) as (y & -> & Hy). exists y. split; [done |].
  split; [| intros i Hi; apply HF, Hl, Hi]. apply (den_ext _ _ _ _ _ Hy).
  intros [|i [|j [|? ?]]]; cbn [inb app]; try tauto. intros (Hi & Hj & _). cbn [ix2 List.last].
  by rewrite row_at_table by (by apply Hl).
Qed.

(** A batch of one, with and without its batch dimension. *)
Lemma flatten_rows x n w R : tensor_rows x n w R → ∃ y, n_reshape x [n; w] = Ok y ∧ table y n w R.
Proof using All.
  intros [Hx Hl]. destruct (nd_reshape_ok x T_F32 _ [n; w] _ (ix2 (λ i j, at_ (R i) j)) Hx) as (y & -> & Hy); [cbn; lia | |].
  - cbn [tab seq mbind list_bind]. by rewrite app_nil_r.
  - by exists y.
Qed.

Lemma unflatten_rows x n w R : table x n w R → ∃ y, n_reshape x [1; n; w] = Ok y ∧ tensor_rows y n w R.
Proof using All.
  intros [Hx Hl]. destruct (nd_reshape_ok x T_F32 _ [1; n; w] _ (ix3 (λ _ i j, at_ (R i) j)) Hx) as (y & -> & Hy); [cbn; lia | |].
  - symmetry. cbn [tab seq mbind list_bind]. by rewrite app_nil_r.
  - by exists y.
Qed.

(** A list as a vector. *)
Lemma from_u32_vec (l : list N) : gives (n_from_u32 l [length l]) T_U32 [length l] (λ i, e_u32 (default 0%N (l !! default 0 (i !! 0)))).
Proof using All.
  apply nd_from_u32_ok; [cbn; lia |]. cbn [tab]. apply list_eq. intros k. rewrite list_lookup_fmap.
  assert (H : ∀ n, seq 0 n ≫= (λ i, [(e_u32 (default 0%N (l !! default 0 ([i] !! 0))) : E)]) = (λ i, e_u32 (default 0%N (l !! i))) <$> seq 0 n).
  { intros n. generalize (seq 0 n) as m. induction m as [|i m IH]; [done |]. cbn. by rewrite <- IH. }
  rewrite H, list_lookup_fmap. destruct (l !! k) as [x|] eqn:Ek.
  - rewrite lookup_seq_lt by (by eapply lookup_lt_Some). cbn. by rewrite Ek.
  - apply lookup_ge_None in Ek. rewrite lookup_ge_None_2; [done |]. by rewrite length_seq.
Qed.

Lemma from_f32_column (l : list f32) :
  gives (n_from_f32 l [length l; 1]) T_F32 [length l; 1] (λ i, e_f32 (default F32.zero (l !! default 0 (i !! 0)))).
Proof using All.
  apply nd_from_f32_ok; [cbn; lia |]. cbn [tab]. apply list_eq. intros k. rewrite list_lookup_fmap.
  assert (H : ∀ n, seq 0 n ≫= (λ i, seq 0 1 ≫= (λ j, [(e_f32 (default F32.zero (l !! default 0 ([i; j] !! 0))) : E)]))
    = (λ i, e_f32 (default F32.zero (l !! i))) <$> seq 0 n).
  { intros n. generalize (seq 0 n) as m. induction m as [|i m IH]; [done |]. cbn. by rewrite <- IH. }
  rewrite H, list_lookup_fmap. destruct (l !! k) as [x|] eqn:Ek.
  - rewrite lookup_seq_lt by (by eapply lookup_lt_Some). cbn. by rewrite Ek.
  - apply lookup_ge_None in Ek. rewrite lookup_ge_None_2; [done |]. by rewrite length_seq.
Qed.

(** ** One expert *)
Definition add_weighted (acc y : list E) (w : f32) : list E := zip_with e_add acc ((λ v, e_mul v (e_f32 w)) <$> y).

(** What some routes add to the row of token [t]. *)
Definition add_routes (F : list E → list E) (x : list E) (t : nat) (routes : list (N * f32)) (acc : list E) : list E :=
  foldl (λ acc r, if N.to_nat r.1 =? t then add_weighted acc (F x) r.2 else acc) acc routes.

Lemma length_add_routes F x t w routes : length (F x) = w → ∀ acc, length acc = w → length (add_routes F x t routes acc) = w.
Proof.
  intros HF. unfold add_routes. induction routes as [|r routes IH]; intros acc Ha; [done |]. cbn [foldl].
  apply IH. destruct (_ =? t); [| done]. unfold add_weighted. rewrite length_zip_with, length_fmap, HF. lia.
Qed.

Lemma at_add_routes F x t w j routes : length (F x) = w → j < w → ∀ acc, length acc = w →
  at_ (add_routes F x t routes acc) j
  = foldl (λ a r, if N.to_nat r.1 =? t then e_add a (e_mul (at_ (F x) j) (e_f32 r.2)) else a) (at_ acc j) routes.
Proof.
  intros HF Hj. unfold add_routes. induction routes as [|r routes IH]; intros acc Ha; [done |]. cbn [foldl].
  destruct (_ =? t); [| by apply IH]. rewrite IH by (unfold add_weighted; rewrite length_zip_with, length_fmap, HF; lia).
  f_equal. unfold add_weighted. rewrite (at_zip _ _ _ _ w) by (done || by rewrite length_fmap). f_equal.
  exact (at_map (λ v, e_mul v (e_f32 r.2)) _ _ w HF Hj).
Qed.

Lemma add_expert_table fw F flat out n w X O routes : acts fw w w F → (N.of_nat n <= u32_max)%N →
  Forall (λ r, N.to_nat r.1 < n) routes → table flat n w X → table out n w O →
  ∃ out', add_expert flat fw routes out = Some (Ok out') ∧ table out' n w (λ t, add_routes F (X t) t routes (O t)).
Proof using All.
  intros HF Hn Hr Hflat Hout. destruct routes as [|r0 routes]; [by exists out |]. unfold add_expert. set (rs := r0 :: routes) in *.
  set (m := length rs). set (tok k := N.to_nat (default 0%N ((fst <$> rs) !! k))).
  assert (Htok : ∀ k, k < m → ∃ r, rs !! k = Some r ∧ tok k = N.to_nat r.1 ∧ N.to_nat r.1 < n).
  { intros k Hk. destruct (lookup_lt_is_Some_2 rs k Hk) as [r Er]. exists r. unfold tok. rewrite list_lookup_fmap, Er. split_and!; [done | done |].
    by apply (Forall_lookup_1 _ _ _ _ Hr) in Er. }
  destruct (from_u32_vec (fst <$> rs)) as (ix & Eix & Hix). rewrite length_fmap in Eix, Hix. fold m in Eix, Hix |- *. rewrite Eix. cbn [bind_r].
  assert (Hto : ∀ k, k < m → N.to_nat (e_to_u32 (E := E) (e_u32 (default 0%N ((fst <$> rs) !! default 0 ([k] !! 0))))) = tok k).
  { intros k Hk. destruct (Htok k Hk) as (r & Er & Ek & Hlt). cbn [lookup list_lookup]. change (default 0 (Some k)) with k.
    rewrite e_to_u32_of; [done |]. rewrite list_lookup_fmap, Er. change (r.1 <= u32_max)%N. lia. }
  destruct (index_select_ok flat ix T_F32 n [w] m _ _ (proj1 Hflat) Hix) as (sel & -> & Hsel).
  { intros k Hk. rewrite Hto by done. destruct (Htok k Hk) as (r & _ & -> & Hlt). done. }
  cbn [bind_r].
  assert (Hx : table sel m w (λ k, X (tok k))).
  { split; [| intros k Hk; apply Hflat; destruct (Htok k Hk) as (r & _ & -> & Hlt); exact Hlt].
    apply (den_ext _ _ _ _ _ Hsel). intros [|k [|j [|? ?]]]; cbn [inb]; try tauto. intros (Hk & _). cbn [ix2]. by rewrite Hto. }
  destruct (acts_table fw w w F sel m _ HF Hx) as (y & -> & Hy). cbn [bind_r].
  pose proof Hix as (Dix & _ & _). rewrite Dix. cbn [nprod foldr]. rewrite Nat.mul_1_r.
  destruct (from_f32_column (snd <$> rs)) as (wt & Ewt & Hwt). rewrite length_fmap in Ewt, Hwt. fold m in Ewt, Hwt. rewrite Ewt. cbn [result_bind].
  pose proof Hy as [(_ & Ty & _) _]. rewrite Ty. destruct (to_dtype_ok wt T_F32 T_F32 _ _ Hwt) as (wt' & -> & Hwt'). cbn [result_bind].
  destruct (broadcast_mul_ok y wt' T_F32 _ _ _ _ ltac:(by left) (proj1 Hy) Hwt' (bfits_column m w)) as (z & -> & Hz). cbn [result_bind].
  destruct (index_add_ok out ix z T_F32 n w m _ _ _ ltac:(by left) (proj1 Hout) Hix Hz) as (o & -> & Ho).
  { intros k Hk. rewrite Hto by done. destruct (Htok k Hk) as (r & _ & -> & Hlt). done. }
  exists o. split; [done |]. split; [| intros t Ht; apply length_add_routes; [by apply HF, Hflat | by apply Hout]].
  apply (den_ext _ _ _ _ _ Ho). intros [|t [|j [|? ?]]]; cbn [inb]; try tauto. intros (Ht & Hj & _). cbn [ix2].
  rewrite (at_add_routes F (X t) t w j rs) by (done || (by apply HF, Hflat) || (by apply Hout)).
  rewrite (foldl_seq_list _ r0 rs). apply foldl_ext_in. intros a k Hk%elem_of_seq.
  assert (Hkm : k < m) by (unfold m; lia). destruct (Htok k Hkm) as (r & Er & Ek & Hlt). rewrite Hto by done. rewrite Ek, Er. change (default r0 (Some r)) with r.
  destruct (Nat.eqb_spec (N.to_nat r.1) t) as [Et|]; [| done]. rewrite Et. f_equal. f_equal. rewrite e_cast_same. do 2 f_equal.
  rewrite bidx_column by done. cbn [lookup list_lookup]. change (default 0 (Some k)) with k. by rewrite list_lookup_fmap, Er.
Qed.

(** ** All experts *)
Lemma add_routes_of F x t I W e n acc : t < n →
  add_routes F x t (routes_of I W e n) acc = foldl (λ acc w, add_weighted acc (F x) w) acc (picked (I t) (W t) e).
Proof.
  intros Ht. unfold routes_of, add_routes. replace n with (t + S (n - S t)) by lia. rewrite seq_app, bind_app, foldl_app.
  cbn [seq mbind list_bind Nat.add]. rewrite foldl_app.
  assert (Hskip : ∀ a m acc, (∀ u, a ≤ u < a + m → u ≠ t) →
    foldl (λ acc r, if N.to_nat r.1 =? t then add_weighted acc (F x) r.2 else acc) acc
      (seq a m ≫= (λ u, pair (N.of_nat u) <$> picked (I u) (W u) e)) = acc).
  { intros a m. revert a. induction m as [|m IH]; intros a acc0 H; [done |]. cbn [seq mbind list_bind]. rewrite foldl_app.
    assert (Hone : ∀ ps acc1, foldl (λ acc r, if N.to_nat r.1 =? t then add_weighted acc (F x) r.2 else acc) acc1 (pair (N.of_nat a) <$> ps) = acc1).
    { induction ps as [|p ps IHp]; intros acc1; [done |]. cbn. rewrite Nat2N.id. rewrite (proj2 (Nat.eqb_neq a t)) by (apply H; lia). apply IHp. }
    rewrite Hone. apply IH. intros u Hu. apply H. lia. }
  rewrite (Hskip 0 t acc) by lia.
  assert (Hrest : ∀ acc1, foldl (λ acc r, if N.to_nat r.1 =? t then add_weighted acc (F x) r.2 else acc) acc1
      (seq (S t) (n - S t) ≫= (λ u, pair (N.of_nat u) <$> picked (I u) (W u) e)) = acc1) by (intros acc1; apply Hskip; lia).
  cbn [mbind list_bind] in Hrest. rewrite Hrest. clear. revert acc. generalize (picked (I t) (W t) e) as ps.
  induction ps as [|p ps IH]; intros acc; [done |]. cbn [fmap list_fmap foldl fst snd]. rewrite Nat2N.id, Nat.eqb_refl. apply IH.
Qed.

Lemma routes_of_valid I W e n : Forall (λ r, N.to_nat r.1 < n) (routes_of I W e n).
Proof.
  apply Forall_forall. intros r (t & Hr & Ht%elem_of_seq)%list_elem_of_bind. apply list_elem_of_fmap in Hr as (w & -> & _). cbn. lia.
Qed.

(** What all experts make of a row. *)
Fixpoint mix_from (e : nat) (Fs : list (list E → list E)) (x : list E) (ids : list N) (ws : list f32) (acc : list E) : list E :=
  match Fs with
  | [] => acc
  | F :: Fs => mix_from (S e) Fs x ids ws (foldl (λ acc w, add_weighted acc (F x) w) acc (picked ids ws e))
  end.

Lemma run_experts_table fws Fs flat n w top_k cpu_ids cpu_weights I W X : Forall2 (λ fw F, acts fw w w F) fws Fs →
  (N.of_nat n <= u32_max)%N → table flat n w X → routing_is cpu_ids cpu_weights n top_k I W → ∀ e out O, table out n w O →
  ∃ out', run_experts flat cpu_ids cpu_weights n top_k e fws out = Some (Ok out')
    ∧ table out' n w (λ t, mix_from e Fs (X t) (I t) (W t) (O t)).
Proof using All.
  intros HFs Hn Hflat Hr. induction HFs as [|fw F fws Fs HF _ IH]; intros e out O Hout; [by exists out |]. cbn [run_experts mix_from].
  rewrite (routed_to_value _ _ _ _ I W e Hn Hr). cbn [mbind option_bind].
  destruct (add_expert_table fw F flat out n w X O (routes_of I W e n) HF Hn (routes_of_valid I W e n) Hflat Hout) as (o & -> & Ho). cbn [bind_r].
  destruct (IH (S e) o _ Ho) as (o' & -> & Ho'). exists o'. split; [done |]. apply (table_ext _ _ _ _ _ Ho').
  intros t Ht. by rewrite (add_routes_of F (X t) t I W e n).
Qed.

(** ** At most once per expert *)

(** The sum over the chosen experts, in the order of their numbers. *)
Fixpoint mixture (e : nat) (Fs : list (list E → list E)) (x : list E) (gate : gmap nat f32) (acc : list E) : list E :=
  match Fs with
  | [] => acc
  | F :: Fs => mixture (S e) Fs x gate (match gate !! e with Some w => add_weighted acc (F x) w | None => acc end)
  end.

Lemma mix_is_mixture Fs x ids ws : NoDup ids → length ids = length ws → ∀ e acc,
  mix_from e Fs x (N.of_nat <$> ids) ws acc = mixture e Fs x (gates ids ws) acc.
Proof.
  intros Hnd Hl. induction Fs as [|F Fs IH]; intros e acc; [done |]. cbn [mix_from mixture]. rewrite picked_gate by done.
  rewrite IH. by destruct (gates ids ws !! e).
Qed.

Lemma mixture_length Fs x gate w : Forall (λ F : list E → list E, length (F x) = w) Fs → ∀ e acc, length acc = w →
  length (mixture e Fs x gate acc) = w.
Proof.
  induction 1 as [|F Fs HF _ IH]; intros e acc Ha; [done |]. cbn [mixture]. apply IH. destruct (gate !! e); [| done].
  unfold add_weighted. rewrite length_zip_with, length_fmap, HF. lia.
Qed.

(** An operation on up to [max] rows. *)
Definition on_rows (max : nat) (fw : T → option (result T TensorError)) (a b : nat) (F : list E → list E) : Prop :=
  ∀ x n R, n ≤ max → tensor_rows x n a R → ∃ y, fw x = Some (Ok y) ∧ tensor_rows y n b (λ i, F (R i)).

Lemma acts_on_rows max fw a b F : acts fw a b F → on_rows max fw a b F.
Proof. intros H x n R _ Hx. by apply (acts_rows fw a b). Qed.
End rows.

(** ** The calls on host tensors *)
Section host.
Context {E : Type} `{!Scalars E, !LawfulScalars E, !MoeScalars E} (Hperm : ∀ l : list E, e_argsort l ≡ₚ seq 0 (length l)).
#[local] Abbreviation H := (NdHost E).
#[local] Existing Instances host_nd host_elements host_nd_lawful.

Definition nh_index_add (t ids src : H) : result H TensorError :=
  match nh_dims t, nh_dims ids with
  | [n; w], [m] => Ok (nh_mk [n; w] (nh_dtype t) (λ i, match i with
      | [x; j] => foldl (λ acc k, if N.to_nat (e_to_u32 (nh_at ids [k])) =? x then e_add acc (nh_at src [k; j]) else acc) (nh_at t [x; j]) (seq 0 m)
      | _ => e_zero end))
  | _, _ => Err "shape mismatch"%string
  end.

#[local] Instance host_moe : MoeOps H := {
  m_softmax_last_dim := n_softmax;
  m_arg_sort_desc t := Ok (nh_mk (nh_dims t) T_U32 (λ i, e_u32 (N.of_nat (default 0 (e_argsort (nh_row t i) !! List.last i 0)))));
  m_gather_last t ids := Ok (nh_mk (nh_dims ids) (nh_dtype t) (λ i, nh_at t (set_last i (N.to_nat (e_to_u32 (nh_at ids i))))));
  m_sum_keepdim t := Ok (nh_mk (removelast (nh_dims t) ++ [1]) (nh_dtype t) (λ i, e_sum (nh_row t i)));
  m_zeros_like t := Ok (nh_mk (nh_dims t) (nh_dtype t) (λ _, e_zero));
  m_index_add_0 := nh_index_add;
  m_sigmoid := nh_map e_sigmoid;
  m_to_vec2_u32 t := match nh_dims t with
                     | [r; c] => Ok (rows_of c r (e_to_u32 <$> nh_data t)) | _ => Err "unexpected rank"%string end;
}.

Lemma nh_row_den t ty d n f i : den t ty (d ++ [n]) f → inb d (removelast i) → nh_row t i = row_at f i n.
Proof.
  intros Hd Hi. pose proof Hd as (Dt & _ & _). cbn in Dt. unfold nh_row. rewrite Dt, List.last_last. unfold row_at.
  apply list_fmap_ext. intros ? j [-> Hj]%lookup_seq. apply (nh_at_den t ty (d ++ [n]) f); [done |]. unfold set_last.
  apply inb_app; [by rewrite (inb_length _ _ Hi) | split; [done | cbn; lia]].
Qed.

Lemma inb_removelast d n i : inb (d ++ [n]) i → inb d (removelast i).
Proof. intros (p & j & -> & Hp & Hj)%inb_last. by rewrite removelast_last. Qed.

#[local] Instance host_moe_lawful : LawfulMoe H E.
Proof using All.
  split; cbn [m_softmax_last_dim m_arg_sort_desc m_gather_last m_sum_keepdim m_zeros_like m_index_add_0 m_sigmoid m_to_vec2_u32 host_moe].
  - exact Hperm.
  - intros t ty d n f. apply softmax_ok.
  - intros t ty d n f _ Hd. pose proof Hd as (Dt & _ & _). cbn in Dt. rewrite Dt. apply nh_mk_gives. intros i Hi.
    by rewrite (nh_row_den t ty d n f i Hd (inb_removelast _ _ _ Hi)).
  - intros t ids ty d n k f g Hd Hids Hlt. pose proof Hd as (_ & Ty & _). pose proof Hids as (Di & _ & _). cbn in Ty, Di. rewrite Ty, Di.
    apply nh_mk_gives. intros i Hi. rewrite (nh_at_den ids T_U32 (d ++ [k]) g i Hids Hi). apply (nh_at_den t ty (d ++ [n]) f); [done |].
    unfold set_last. pose proof (inb_removelast _ _ _ Hi) as Hr. apply inb_app; [by rewrite (inb_length _ _ Hr) | split; [done |]].
    cbn. split; [by apply Hlt | done].
  - intros t ty d n f _ Hd. pose proof Hd as (Dt & Ty & _). cbn in Dt, Ty. rewrite Dt, Ty, removelast_last. apply nh_mk_gives. intros i Hi.
    by rewrite (nh_row_den t ty d n f i Hd (inb_removelast _ _ _ Hi)).
  - intros t ty d f _ (Dt & Ty & _). cbn in Dt, Ty. rewrite Dt, Ty. by apply nh_mk_gives.
  - intros t ids src ty n w m f g h _ Ht Hids Hs Hlt. pose proof Ht as (Dt & Ty & _). pose proof Hids as (Di & _ & _). cbn in Dt, Ty, Di.
    unfold nh_index_add. rewrite Dt, Di, Ty. apply nh_mk_gives. intros [|x [|j [|? ?]]]; cbn [inb]; try tauto. intros (Hx & Hj & _).
    rewrite (nh_at_den t ty [n; w] f) by (done || (cbn; lia)). apply foldl_ext_in. intros a k Hk%elem_of_seq.
    rewrite (nh_at_den ids T_U32 [m] g) by (done || (cbn; lia)). by rewrite (nh_at_den src ty [m; w] h) by (done || (cbn; lia)).
  - intros t ty d f _. apply nh_map_gives.
  - intros t r c f (Dt & _ & _). cbn in Dt. by rewrite Dt.
Qed.
End host.
