(* ===== verification/Exact.v ===== *)
(** * Exact arithmetic

    The elements of a tensor read as real numbers, where the library's operations
    are the functions of mathematics and nothing is rounded.  Floats do not obey
    the algebra that makes a model's passes agree: a sum taken over a longer row,
    with zeros at its end, may be grouped otherwise and round otherwise.  What the
    models promise about their passes (a cache used or not, a prompt at once or in
    parts, a token alone or in a batch) is proved of this reading, and so up to
    rounding of the code.  The facts about masks it rests on ([MaskLaws]) are
    theorems here, of the exponential.

    An element is a real number, or [None], infinite.  The only infinite element the
    code makes is the negative infinity of a mask, so that is what comparisons and
    the softmax take [None] for; a product of it with zero is zero, the convention
    of measure theory. *)
From S2P Require Import Prelude F32 Tensors NdTensor Rope Layers LayerRows AttentionRows Moe.
From Stdlib Require Import Reals Lra.
#[local] Open Scope list_scope.
#[local] Open Scope nat_scope.
#[local] Open Scope rllm_scope.

Definition Exact : Type := option R.

(** An integer as an element. *)
Definition real (z : Z) : Exact := Some (IZR z).

(** How a real number is rounded to [f32] when the program reads elements back is
    left open. *)
Class Rounding : Type := to_binary32 : Exact → f32.

(** ** Operations *)
Definition x_add (a b : Exact) : Exact := x ← a; y ← b; Some (x + y)%R.
Definition x_sub (a b : Exact) : Exact := x ← a; y ← b; Some (x - y)%R.
Definition x_neg (a : Exact) : Exact := Ropp <$> a.

Definition x_mul (a b : Exact) : Exact :=
  match a, b with
  | Some x, Some y => Some (x * y)%R
  | Some x, None | None, Some x => if Req_dec_T x 0 then Some 0%R else None
  | None, None => None
  end.

(** Division by zero is left to the field's total function. *)
Definition x_div (a b : Exact) : Exact := x ← a; y ← b; Some (x / y)%R.

Definition x_lt (a b : Exact) : bool :=
  match a, b with
  | Some x, Some y => if Rlt_dec x y then true else false
  | None, Some _ => true
  | _, None => false
  end.

Definition x_sum (l : list Exact) : Exact := foldr x_add (Some 0%R) l.
Definition x_dot (l k : list Exact) : Exact := x_sum (zip_with x_mul l k).
Definition x_mean (l : list Exact) : Exact := x_div (x_sum l) (real (Z.of_nat (length l))).

(** The exponentials of a row, each divided by their sum. *)
Definition weight (a : Exact) : R := match a with Some x => exp x | None => 0%R end.
Definition total (l : list Exact) : R := foldr (λ a acc, weight a + acc)%R 0%R l.
Definition x_softmax (l : list Exact) : list Exact := (λ a, Some (weight a / total l)%R) <$> l.

Definition logistic (x : R) : R := (/ (1 + exp (- x)))%R.
Definition x_sigmoid (a : Exact) : Exact := Some (match a with Some x => logistic x | None => 0%R end).
Definition x_silu (a : Exact) : Exact := Some (match a with Some x => x * logistic x | None => 0 end)%R.

Definition x_floor (a : Exact) : Exact := (λ x, IZR (Int_part x)) <$> a.

(** Conversion to an integer type drops the fraction; every other one keeps the value. *)
Definition truncate (x : R) : R := if Rle_dec 0 x then IZR (Int_part x) else (- IZR (Int_part (- x)))%R.
Definition x_cast (from to : TDType) (a : Exact) : Exact :=
  if decide (from = to) then a
  else match to with T_U8 | T_U32 | T_I32 => truncate <$> a | _ => a end.

(** The value of a float. *)
Definition float_value (x : spec_float) : Exact :=
  match x with
  | S754_zero _ => Some 0%R
  | S754_finite s m e => let v := (IZR (Zpos m) * powerRZ 2 e)%R in Some (if s then - v else v)%R
  | S754_infinity _ | S754_nan => None
  end.

#[export] Instance exact_scalars `{!Rounding} : Scalars Exact := {
  e_add := x_add;
  e_sub := x_sub;
  e_mul := x_mul;
  e_lt a b := real (if x_lt a b then 1 else 0);
  e_floor := x_floor;
  e_div := x_div;
  e_sqr a := x_mul a a;
  e_sqrt a := sqrt <$> a;
  e_neg := x_neg;
  e_silu := x_silu;
  e_cos a := cos <$> a;
  e_sin a := sin <$> a;
  e_dot := x_dot;
  e_mean := x_mean;
  e_softmax := x_softmax;
  e_cast := x_cast;
  e_f32 := float_value;
  e_f64 := float_value;
  e_u32 n := real (Z.of_N n);
  e_i32 := real;
  e_u8 n := real (Z.of_N n);
  e_to_f32 := to_binary32;
  e_to_u32 a := match a with Some x => Z.to_N (Int_part x) | None => 0%N end;
}.

(** ** Laws *)
Lemma Int_part_IZR z : Int_part (IZR z) = z.
Proof. symmetry. apply Int_part_spec. lra. Qed.

#[export] Instance exact_lawful `{!Rounding} : LawfulScalars Exact.
Proof.
  split.
  - intros ty x. cbn. unfold x_cast. by rewrite decide_True.
  - intros n _. cbn. rewrite Int_part_IZR. lia.
  - intros l. cbn. unfold x_softmax. by rewrite length_fmap.
Qed.

Lemma x_add_zero_l a : x_add (Some 0%R) a = a.
Proof. destruct a as [x|]; [| done]. cbn. f_equal. lra. Qed.

Lemma x_add_zero_r a : x_add a (Some 0%R) = a.
Proof. destruct a as [x|]; [| done]. cbn. f_equal. lra. Qed.

Lemma x_mul_zero_l a : x_mul (Some 0%R) a = Some 0%R.
Proof. destruct a as [x|]; cbn; [f_equal; lra |]. destruct (Req_dec_T 0 0); done. Qed.

Lemma x_sum_app l k : x_sum (l ++ k) = x_add (x_sum l) (x_sum k).
Proof.
  unfold x_sum. induction l as [|a l IH]; cbn [app foldr]; [by rewrite x_add_zero_l |]. rewrite IH.
  destruct a as [x|]; [| done]. cbn. destruct (foldr _ _ l) as [y|]; [| done]. cbn. destruct (foldr _ _ k) as [z|]; [| done]. cbn. f_equal. lra.
Qed.

Lemma x_dot_zeros w : x_dot (replicate (length w) (Some 0%R)) w = Some 0%R.
Proof.
  unfold x_dot, x_sum. induction w as [|a w IH]; [done |]. cbn [length replicate zip_with foldr]. by rewrite IH, x_mul_zero_l, x_add_zero_l.
Qed.

Lemma total_app l k : total (l ++ k) = (total l + total k)%R.
Proof. unfold total. induction l as [|a l IH]; cbn [app foldr]; [lra |]. rewrite IH. lra. Qed.

Lemma total_masked n : total (replicate n None) = 0%R.
Proof. induction n as [|n IH]; [done |]. cbn. fold (total (replicate n None)). rewrite IH. lra. Qed.

(** What is masked has no weight, and takes none from the rest. *)
#[export] Instance exact_mask `{!Rounding} : MaskLaws Exact.
Proof.
  split.
  - intros l k _. change (x_softmax (((λ x, x_add x (Some 0%R)) <$> l) ++ ((λ x, x_add x None) <$> k))
      = x_softmax l ++ replicate (length k) (Some 0%R)).
    assert ((λ x, x_add x (Some 0%R)) <$> l = l) as ->.
    { rewrite <- (list_fmap_id l) at 2. apply list_fmap_ext. intros _ x _. apply x_add_zero_r. }
    assert ((λ x, x_add x None) <$> k = replicate (length k) None) as ->.
    { induction k as [|x k IH]; [done |]. cbn. f_equal; [by destruct x | exact IH]. }
    unfold x_softmax. rewrite total_app, total_masked, Rplus_0_r, fmap_app, fmap_replicate. do 2 f_equal.
    cbn. f_equal. lra.
  - intros p v w Hl. change (x_dot (p ++ replicate (length w) (Some 0%R)) (v ++ w) = x_dot p v). unfold x_dot at 1.
    rewrite zip_with_app by done. rewrite x_sum_app. change (x_add (x_dot p v) (x_dot (replicate (length w) (Some 0%R)) w) = x_dot p v).
    by rewrite x_dot_zeros, x_add_zero_r.
Qed.

(** ** Routing *)

(** The positions of a row, the greatest element first. *)
Definition x_before (l : list Exact) (i j : nat) : Prop := x_lt (default None (l !! i)) (default None (l !! j)) = false.
#[local] Instance x_before_dec l i j : Decision (x_before l i j).
Proof. unfold x_before. apply _. Defined.
Definition x_argsort (l : list Exact) : list nat := merge_sort (x_before l) (seq 0 (length l)).

#[export] Instance exact_moe : MoeScalars Exact := {
  e_argsort := x_argsort;
  e_sum := x_sum;
  e_sigmoid := x_sigmoid;
}.

Lemma x_argsort_perm (l : list Exact) : e_argsort l ≡ₚ seq 0 (length l).
Proof. apply merge_sort_Permutation. Qed.

(** ** Comparisons of the group-limited choice *)
#[export] Instance exact_eq_dec : EqDecision Exact.
Proof. unfold Exact. assert (EqDecision R) by (intros x y; exact (Req_dec_T x y)). apply _. Defined.

Definition x_max (l : list Exact) : Exact := foldr (λ a acc, if x_lt acc a then a else acc) None l.
Definition x_eq (a b : Exact) : Exact := real (if decide (a = b) then 1 else 0).
Definition x_true (a : Exact) : bool := match a with Some x => if Req_dec_T x 0 then false else true | None => true end.

Lemma x_true_eq a b : x_true (x_eq a b) = bool_decide (a = b).
Proof.
  unfold x_eq, real. cbn [x_true]. destruct (decide (a = b)) as [H|H].
  - rewrite bool_decide_eq_true_2 by done. destruct (Req_dec_T 1 0); [lra | done].
  - rewrite bool_decide_eq_false_2 by done. destruct (Req_dec_T 0 0); [done | lra].
Qed.

Lemma float_value_nonzero s m e : float_value (S754_finite s m e) ≠ Some 0%R.
Proof.
  assert (IZR (Zpos m) * powerRZ 2 e ≠ 0)%R as H.
  { apply Rmult_integral_contrapositive_currified; [apply IZR_neq; lia | apply powerRZ_NOR; lra]. }
  cbn [float_value]. intros [= E0]. destruct s; lra.
Qed.

(** Zero is zero; one is not. *)
Lemma x_zero_is_zero : x_true (x_eq (float_value F32.zero) (float_value F32.zero)) = true.
Proof. rewrite x_true_eq. by apply bool_decide_eq_true_2. Qed.

Lemma x_one_is_not : x_true (x_eq (x_add (float_value F32.zero) (float_value F32.one)) (float_value F32.zero)) = false.
Proof.
  rewrite x_true_eq. apply bool_decide_eq_false_2. change (float_value F32.zero) with (Some 0%R : Exact).
  rewrite x_add_zero_l. apply float_value_nonzero.
Qed.

(** ** Host tensors of real numbers *)
#[export] Instance exact_nd `{!Rounding} : NdOps (NdHost Exact) := host_nd.
#[export] Instance exact_elements : Elements (NdHost Exact) Exact := host_elements.
#[export] Instance exact_nd_lawful `{!Rounding} : LawfulNd (NdHost Exact) Exact := host_nd_lawful.
#[export] Instance exact_moe_ops `{!Rounding} : MoeOps (NdHost Exact) := host_moe.
#[export] Instance exact_moe_lawful `{!Rounding} : LawfulMoe (NdHost Exact) Exact := host_moe_lawful x_argsort_perm.

(** Rounding to the next integer, for the small models. *)
Definition up_rounding : Rounding := λ a, match a with Some x => F32.of_Z (up x) | None => F32.neg_infinity end.
