(* ===== verification/Llama.v ===== *)
(** * The Llama model (llama.rs)

    Token embedding, the decoder layers over their caches, the final norm and the
    head; greedy generation with a prefill and a decode loop; and the collection
    of calibration statistics, which runs the layers again without caches.  A
    forward pass takes one cache slot per layer and leaves in them what the
    layers that ran put there, also when a later layer fails. *)
From S2P Require Import Prelude F32 Tensors Sampler NdTensor Gptq Dequant Rope Layers.
#[local] Open Scope list_scope.
#[local] Open Scope nat_scope.
#[local] Open Scope rllm_scope.

Section llama.
Context {T : Type} `{!NdOps T} (show : nat → string).

#[local] Abbreviation KvCache := (option (T * T)).

Record LlamaModel : Type := mkLlamaModel {
  embed_tokens : Linear (T := T);
  layers : list (LlamaDecoderLayer (T := T));
  norm : RmsNorm (T := T);
  lm_head : Linear (T := T);
  rope : RotaryEmbedding T;
  quantized_layer_count : nat;
}.

Definition embedding_lookup (weight ids : T) : result T TensorError :=
  flat <-? n_flatten_all ids;
  id_vec <-? n_to_vec1_u32 flat;
  bsz <-? n_dim ids 0;
  seq <-? n_dim ids 1;
  hidden <-? dim_minus1 weight;
  indices <-? n_from_u32 id_vec [bsz * seq];
  embedded <-? n_index_select_0 weight indices;
  n_reshape embedded [bsz; seq; hidden].

(** ** The forward pass *)
Definition in_layer (i : nat) (e : TensorError) : TensorError := ("layer " +:+ show i +:+ ": " +:+ e)%string.

Definition layers_forward (i : nat) (ls : list (LlamaDecoderLayer (T := T))) (x : T) (positions : list nat)
    (rope : RotaryEmbedding T) (kv_cache : list KvCache) : option (result T TensorError * list KvCache) :=
  layers_loop (λ l x positions c, layer_forward show l x positions c rope) in_layer i ls x positions kv_cache.

Definition embed (m : LlamaModel) (input_ids : T) : option (result T TensorError) :=
  w <-! linear_weight show (embed_tokens m); Some (embedding_lookup w input_ids).

Definition model_forward (m : LlamaModel) (input_ids : T) (positions : list nat) (kv_cache : list KvCache) :
    option (result T TensorError * list KvCache) :=
  match embed m input_ids with
  | None => None
  | Some (Err e) => Some (Err e, kv_cache)
  | Some (Ok x) =>
      '(r, kv_cache) ← layers_forward 0 (layers m) x positions (rope m) kv_cache;
      Some (h <-? r; rms_forward (norm m) h, kv_cache)
  end.

(** [Model::forward]: the hidden states through the head. *)
Definition forward (m : LlamaModel) (input_ids : T) (positions : list nat) (kv_cache : list KvCache) :
    option (result T TensorError * list KvCache) :=
  '(r, kv_cache) ← model_forward m input_ids positions kv_cache;
  out ← (hidden <-! Some r; linear_forward show (lm_head m) hidden);
  Some (out, kv_cache).

Context (has_cuda paged_attention_enabled : bool) (paged_op : nat → T → T → T → nat → nat → bool → result T TensorError).

Fixpoint layers_forward_paged (i : nat) (ls : list (LlamaDecoderLayer (T := T))) (x : T) (positions : list nat)
    (rope : RotaryEmbedding T) : option (result T TensorError) :=
  match ls with
  | [] => Some (Ok x)
  | l :: ls =>
      match layer_forward_paged show has_cuda paged_attention_enabled paged_op l x positions i rope with
      | Some (Err e) => Some (Err (in_layer i e))
      | Some (Ok x) => layers_forward_paged (S i) ls x positions rope
      | None => None
      end
  end.

Definition forward_paged (m : LlamaModel) (input_ids : T) (positions : list nat) : option (result T TensorError) :=
  x <-! embed m input_ids;
  h <-! layers_forward_paged 0 (layers m) x positions (rope m);
  hidden <-! Some (rms_forward (norm m) h);
  linear_forward show (lm_head m) hidden.

(** ** Greedy generation *)

(** The last of the greatest logits of the first row; no row panics. *)
Definition argmax (logits : T) : option (result N TensorError) :=
  d <-! Some (dims3 logits);
  let '(batch, seq, vocab) := d in
  vals <-! Some (flat <-? n_reshape logits [batch * seq; vocab]; flat <-? n_to_dtype flat T_F32; n_to_vec2_f32 flat);
  row ← vals !! 0;
  Some (Ok (as_u32 (N.of_nat (argmax_impl row)))).

(** [Tensor::new(tokens)] as a batch of one row. *)
Definition ids_tensor (tokens : list N) : result T TensorError :=
  t <-? n_from_u32 tokens [length tokens];
  n_reshape t [1; length tokens].

Fixpoint decode_loop (m : LlamaModel) (steps : nat) (tokens : list N) (next_token : N) (kv_cache : list KvCache) :
    option (result (list N) TensorError) :=
  match steps with
  | 0 => Some (Ok tokens)
  | S steps =>
      input_ids <-! Some (ids_tensor [next_token]);
      pos ← sub_checked (length tokens) 1;
      '(r, kv_cache) ← forward m input_ids [pos] kv_cache;
      logits <-! Some r;
      next_token <-! argmax logits;
      decode_loop m steps (tokens ++ [next_token]) next_token kv_cache
  end.

Definition generate (m : LlamaModel) (num_layers : nat) (prompt : list N) (max_tokens : nat) : option (result (list N) TensorError) :=
  input_ids <-! Some (ids_tensor prompt);
  '(r, kv_cache) ← forward m input_ids (seq 0 (length prompt)) (replicate num_layers None);
  logits <-! Some r;
  seq_len <-! Some (dim_minus2 logits);
  last ← sub_checked seq_len 1;
  last_logits <-! Some (n_narrow logits (length (n_dims logits) - 2) last 1);
  next_token <-! argmax last_logits;
  if max_tokens <=? length prompt then Some (Ok prompt)
  else
    let tokens := prompt ++ [next_token] in
    decode_loop m (max_tokens - length tokens) tokens next_token kv_cache.

(** ** Calibration *)
Context (gptq_error : GptqError → TensorError).

#[local] Abbreviation Calibrations := (gmap string GptqCalibration).

(** A step that updates the statistics in place and may fail or panic. *)
Definition Cal (A : Type) : Type := Calibrations → option (result A TensorError * Calibrations).
Definition c_ret {A} (a : A) : Cal A := λ s, Some (Ok a, s).
Definition c_bind {A B} (m : Cal A) (k : A → Cal B) : Cal B := λ s,
  match m s with
  | None => None
  | Some (Err e, s) => Some (Err e, s)
  | Some (Ok a, s) => k a s
  end.
Definition c_run {A} (m : option (result A TensorError)) : Cal A := λ s, r ← m; Some (r, s).
Definition c_try {A} (r : result A TensorError) : Cal A := c_run (Some r).

Definition observe_linear_input (name : string) (linear : Linear) (input : T) : Cal unit :=
  c_bind (c_run (linear_weight show linear)) (λ weight,
  c_bind (c_try (dim_minus1 weight)) (λ in_features,
  c_bind (c_try (n_to_dtype input T_F32)) (λ input,
  let numel := nprod (n_dims input) in
  if in_features =? 0 then λ _, None
  else
    c_bind (c_try (t <-? n_reshape input [numel / in_features; in_features]; n_to_vec2_f32 t)) (λ samples s,
    let calib := default (calibration_new in_features) (s !! name) in
    '(r, calib) ← observe samples calib;
    Some (match r with Ok u => Ok u | Err e => Err (gptq_error e) end, <[name := calib]> s))))).

(** Observe the input of a projection and run it. *)
Definition observed_forward (name : string) (linear : Linear) (input : T) : Cal T :=
  c_bind (observe_linear_input name linear input) (λ _, c_run (linear_forward show linear input)).

Definition collect_attention_calibration (a : LlamaAttention) (x : T) (positions : list nat) (rope : RotaryEmbedding T)
    (prefix : string) : Cal T :=
  c_bind (c_try (dims3 x)) (λ '(bsz, seq_len, _),
  c_bind (observed_forward (prefix +:+ ".self_attn.q_proj") (q_proj a) x) (λ q,
  c_bind (observed_forward (prefix +:+ ".self_attn.k_proj") (k_proj a) x) (λ k,
  c_bind (observed_forward (prefix +:+ ".self_attn.v_proj") (v_proj a) x) (λ v,
  c_bind (c_try (q <-? n_reshape q [bsz; seq_len; at_num_heads a; at_head_dim a]; n_transpose_1_2 q)) (λ q,
  c_bind (c_try (k <-? n_reshape k [bsz; seq_len; at_num_kv_heads a; at_head_dim a]; n_transpose_1_2 k)) (λ k,
  c_bind (c_try (v <-? n_reshape v [bsz; seq_len; at_num_kv_heads a; at_head_dim a]; n_transpose_1_2 v)) (λ v,
  c_bind (c_try (rope_apply rope q k positions)) (λ '(q, k),
  c_bind (c_run (grouped a k v)) (λ '(k, v),
  c_bind (c_try (scaled_attention Ok a q k v bsz seq_len)) (λ attn_output,
  observed_forward (prefix +:+ ".self_attn.o_proj") (o_proj a) attn_output)))))))))).

Definition collect_mlp_calibration (m : LlamaMLP) (x : T) (prefix : string) : Cal T :=
  c_bind (observed_forward (prefix +:+ ".mlp.gate_proj") (gate_proj m) x) (λ gate,
  c_bind (observed_forward (prefix +:+ ".mlp.up_proj") (up_proj m) x) (λ up,
  c_bind (c_try (gate <-? n_silu gate; n_broadcast_mul gate up)) (λ down_input,
  observed_forward (prefix +:+ ".mlp.down_proj") (down_proj m) down_input))).

Definition collect_decoder_layer_calibration (l : LlamaDecoderLayer) (x : T) (positions : list nat) (rope : RotaryEmbedding T)
    (prefix : string) : Cal T :=
  c_bind (c_try (rms_forward (input_layernorm l) x)) (λ n,
  c_bind (collect_attention_calibration (self_attn l) n positions rope prefix) (λ attn_out,
  c_bind (c_try (n_add x attn_out)) (λ h,
  c_bind (c_try (rms_forward (post_attention_layernorm l) h)) (λ n,
  c_bind (collect_mlp_calibration (mlp l) n prefix) (λ mlp_out, c_try (n_add h mlp_out)))))).

Fixpoint collect_layers (i : nat) (ls : list LlamaDecoderLayer) (x : T) (positions : list nat) (rope : RotaryEmbedding T) : Cal T :=
  match ls with
  | [] => c_ret x
  | l :: ls => λ s,
      match collect_decoder_layer_calibration l x positions rope ("model.layers." +:+ show i) s with
      | Some (Err e, s) => Some (Err (in_layer i e), s)
      | Some (Ok x, s) => collect_layers (S i) ls x positions rope s
      | None => None
      end
  end.

(** [LlamaModel::collect_gptq_calibrations] *)
Definition collect_batch (m : LlamaModel) (input_ids : T) (positions : list nat) (include_lm_head : bool) : Cal unit :=
  c_bind (c_run (embed m input_ids)) (λ x,
  c_bind (collect_layers 0 (layers m) x positions (rope m)) (λ h,
  c_bind (c_try (rms_forward (norm m) h)) (λ hidden,
  if include_lm_head then observe_linear_input "lm_head" (lm_head m) hidden else c_ret ()))).

(** [LlamaForCausalLM::collect_gptq_calibrations] *)
Fixpoint collect_batches (m : LlamaModel) (batches : list (list N)) (include_lm_head : bool) : Cal unit :=
  match batches with
  | [] => c_ret ()
  | [] :: batches => collect_batches m batches include_lm_head
  | tokens :: batches =>
      c_bind (c_try (ids_tensor tokens)) (λ input_ids,
      c_bind (collect_batch m input_ids (seq 0 (length tokens)) include_lm_head) (λ _,
      collect_batches m batches include_lm_head))
  end.
Definition collect_gptq_calibrations (m : LlamaModel) (batches : list (list N)) (include_lm_head : bool) :
    option (result Calibrations TensorError) :=
  '(r, s) ← collect_batches m batches include_lm_head ∅;
  Some (match r with Ok _ => Ok s | Err e => Err e end).
End llama.
