(* ===== verification/Decoder.v ===== *)
(** * Decoders as language models

    What the model families share.  A decoder layer makes the row of a token out of
    the row below it and of what the tokens up to it left ([CausalFn]); a model is
    an embedding, such layers, a norm and a head ([ModelFn]), and [lm] is the row
    of logits that follows a list of tokens, with no caches and no batches.

    [computes] is what a layer of the code promises and [CausalModel] what the
    forward pass of a model does: a pass over some tokens, on the caches of those
    before, gives exactly their logits.  Whatever uses a forward pass is shown
    against that interface: decoding token by token, splitting a prompt in chunks,
    greedy generation.  The families discharge it. *)
From S2P Require Import Prelude F32 Tensors NdTensor Rope Layers LayerRows Llama.
#[local] Open Scope list_scope.
#[local] Open Scope nat_scope.
#[local] Open Scope rllm_scope.

Section ids.
Context {T E : Type} `{!NdOps T, !Scalars E, !Elements T E, !LawfulNd T E, !LawfulScalars E}.
#[local] Abbreviation gives := (gives (T := T) (E := E)).

(** ** Token ids *)
Lemma from_u32_list (toks : list N) d : nprod d = length toks →
  gives (n_from_u32 toks d) T_U32 d (λ i, e_u32 (default 0%N (toks !! ravel d i))).
Proof using All.
  intros Hd. apply nd_from_u32_ok; [done |]. symmetry. rewrite (tab_ravel d (λ k, e_u32 (default 0%N (toks !! k)))), Hd.
  apply list_eq. intros k. rewrite !list_lookup_fmap. destruct (toks !! k) as [t|] eqn:Ek.
  - rewrite lookup_seq_lt by (by eapply lookup_lt_Some). cbn. by rewrite Ek.
  - apply lookup_ge_None in Ek. rewrite lookup_ge_None_2; [done |]. by rewrite length_seq.
Qed.

Lemma ids_tensor_gives (toks : list N) :
  gives (ids_tensor toks) T_U32 [1; length toks] (λ i, e_u32 (default 0%N (toks !! ravel [1; length toks] i))).
Proof using All.
  unfold ids_tensor. destruct (from_u32_list toks [length toks]) as (t & -> & Ht); [cbn; lia |]. cbn [result_bind].
  apply (nd_reshape_ok t T_U32 _ _ _ _ Ht); [cbn; lia |].
  rewrite (tab_ravel [length toks] (λ k, e_u32 (default 0%N (toks !! k)))), (tab_ravel [1; length toks] (λ k, e_u32 (default 0%N (toks !! k)))).
  do 2 f_equal. cbn. lia.
Qed.

Lemma ids_values ids (toks : list N) : ids_tensor toks = Ok ids → Forall (λ t, (t <= u32_max)%N) toks →
  (flat <-? n_flatten_all ids; n_to_vec1_u32 flat) = Ok toks.
Proof using All.
  intros Eids Hv. destruct (ids_tensor_gives toks) as (t & Et & Ht). rewrite Eids in Et. injection Et as <-.
  set (g k := e_u32 (default 0%N (toks !! k)) : E). set (n := length toks) in *.
  assert (Hids : tab [1; n] (λ i, g (ravel [1; n] i)) = tab [n] (λ i, g (ravel [n] i))).
  { rewrite (tab_ravel [1; n] g), (tab_ravel [n] g). do 2 f_equal. cbn. lia. }
  destruct (nd_flatten_ok ids T_U32 [1; n] _ (λ i, g (ravel [n] i)) Ht) as (fl & -> & Hfl).
  { replace (nprod [1; n]) with n by (cbn; lia). exact Hids. }
  replace (nprod [1; n]) with n in Hfl by (cbn; lia). cbn [result_bind].
  rewrite (to_vec1_u32_ok fl n _ Hfl). pose proof Hfl as (_ & _ & ->). f_equal.
  rewrite (tab_ravel [n] g), <- list_fmap_compose. replace (nprod [n]) with n by (cbn; lia). apply list_eq. intros k.
  rewrite list_lookup_fmap. destruct (toks !! k) as [t|] eqn:Ek.
  - rewrite lookup_seq_lt by (by eapply lookup_lt_Some). cbn. unfold g. rewrite Ek. cbn. rewrite e_to_u32_of; [done |].
    by apply (Forall_lookup_1 _ _ _ _ Hv) in Ek.
  - apply lookup_ge_None in Ek. rewrite lookup_ge_None_2; [done |]. by rewrite length_seq.
Qed.

(** ** Rows of logits *)
Context (out : nat).

(** Row [i] of logits. *)
Definition row_of (t : T) (i : nat) : list E := take out (drop (i * out) (n_flat t)).

Lemma row_of_rows t n R i : tensor_rows t n out R → i < n → row_of t i = R i.
Proof using All.
  intros [(_ & _ & Ht) Hl] Hi. unfold row_of. rewrite Ht. transitivity (at_ (R i) <$> seq 0 out); [| by apply list_of_at, Hl].
  apply list_eq. intros j. rewrite list_lookup_fmap. destruct (decide (j < out)) as [Hj|Hj].
  - rewrite lookup_take_lt, lookup_drop, lookup_seq_lt by done.
    replace (i * out + j) with (ravel [1; n; out] [0; i; j]) by (cbn; lia). by rewrite tab_lookup by (cbn; lia).
  - rewrite !lookup_ge_None_2; [done | rewrite length_seq; lia | rewrite length_take; lia].
Qed.

(** The last row. *)
Lemma last_row logits n R : tensor_rows logits (S n) out R → ∃ lst, n_narrow logits 1 n 1 = Ok lst ∧ tensor_rows lst 1 out (λ _, R n).
Proof using All.
  intros [Hd Hlen]. destruct (narrow_ok logits T_F32 _ _ 1 n 1 (S n) Hd eq_refl ltac:(lia)) as (lst & -> & Hlst). cbn [insert list_insert] in *.
  exists lst. split; [done |]. split; [| intros _ _; apply Hlen; lia]. apply (den_ext _ _ _ _ _ Hlst).
  intros [|u [|i [|j [|? ?]]]]; cbn [inb]; try tauto. intros (_ & Hi & _). cbn [alter list_alter ix3]. do 2 f_equal. lia.
Qed.
End ids.

Section decoder.
Context {T E K : Type} `{!NdOps T, !Scalars E, !Elements T E, !LawfulNd T E, !LawfulScalars E}.
#[local] Abbreviation gives := (gives (T := T) (E := E)).
#[local] Abbreviation den := (den (T := T) (E := E)).
#[local] Abbreviation KvCache := (option (T * T)).

(** ** The rows of each token *)
Record CausalFn : Type := mkCausalFn {
  (** What a token at a position leaves, and its row from what the tokens up to it left. *)
  cf_kv : nat → list E → K;
  cf_row : nat → list E → list K → list E;
  (** The cache that holds what some tokens left. *)
  cf_cache : KvCache → list K → Prop;
}.

Definition kvs (L : CausalFn) (R : nat → list E) (a n : nat) := (λ j, cf_kv L j (R j)) <$> seq a n.
Definition through (L : CausalFn) (R : nat → list E) (i : nat) : list E := cf_row L i (R i) (kvs L R 0 (S i)).
Definition hidden_rows (Ls : list CausalFn) (R : nat → list E) : nat → list E := foldl (λ R L, through L R) R Ls.

(** The caches of the first [n] tokens. *)
Fixpoint caches_hold (Ls : list CausalFn) (R : nat → list E) (n : nat) (caches : list KvCache) : Prop :=
  match Ls, caches with
  | [], [] => True
  | L :: Ls, c :: cs => cf_cache L c (kvs L R 0 n) ∧ caches_hold Ls (through L R) n cs
  | _, _ => False
  end.

Lemma kvs_ext L R R' a n : (∀ j, j < a + n → R j = R' j) → kvs L R a n = kvs L R' a n.
Proof. intros H. apply list_fmap_ext. intros j ? [-> Hj]%lookup_seq. by rewrite H by lia. Qed.

Lemma kvs_app L R n m : kvs L R 0 (n + m) = kvs L R 0 n ++ kvs L R n m.
Proof. unfold kvs. by rewrite seq_app, fmap_app. Qed.

Lemma take_kvs L R n m i : i < m → kvs L R 0 n ++ take (S i) (kvs L R n m) = kvs L R 0 (S (n + i)).
Proof.
  intros Hi. replace (S (n + i)) with (n + S i) by lia. rewrite kvs_app. f_equal. unfold kvs. rewrite <- fmap_take. f_equal.
  rewrite take_seq. f_equal. lia.
Qed.

Lemma through_ext L R R' i : (∀ j, j ≤ i → R j = R' j) → through L R i = through L R' i.
Proof. intros H. unfold through. rewrite H by lia. by rewrite (kvs_ext L R R') by (intros; apply H; lia). Qed.

Lemma hidden_rows_ext Ls : ∀ R R' i, (∀ j, j ≤ i → R j = R' j) → hidden_rows Ls R i = hidden_rows Ls R' i.
Proof.
  induction Ls as [|L Ls IH]; intros R R' i H; [by apply H |]. apply (IH (through L R) (through L R')).
  intros j Hj. apply through_ext. intros k Hk. apply H. lia.
Qed.

Lemma caches_ext Ls : ∀ R R' n cs, (∀ j, j < n → R j = R' j) → caches_hold Ls R n cs → caches_hold Ls R' n cs.
Proof.
  induction Ls as [|L Ls IH]; intros R R' n [|c cs] H; try done. cbn [caches_hold]. intros [Hc Hcs]. split.
  - by rewrite <- (kvs_ext L R R') by (intros; apply H; lia).
  - apply (IH (through L R)); [| done]. intros j Hj. apply through_ext. intros k Hk. apply H. lia.
Qed.

Lemma caches_length Ls : ∀ R n cs, caches_hold Ls R n cs → length cs = length Ls.
Proof. induction Ls as [|L Ls IH]; intros R n [|c cs]; try done. intros [_ H]. cbn. f_equal. by apply (IH _ _ _ H). Qed.

Lemma seq_positions n m max : n + m ≤ max → Forall (λ p, p < max) (seq n m).
Proof. intros H. apply Forall_forall. intros p Hp%elem_of_seq. lia. Qed.

(** ** Layers *)

(** The passes a layer accepts: one token, a whole prompt, or, when [chunked], any. *)
Definition passable (chunked : bool) (n m : nat) : Prop := m = 1 ∨ n = 0 ∨ chunked = true.

Section layers.
Context (hidden max : nat) (chunked : bool).

(** Passes over tokens [n] to [n + m] give their rows, and leave the cache of them all. *)
Record computes (step : T → list nat → KvCache → option (result T TensorError * KvCache)) (L : CausalFn) : Prop := {
  co_fresh : cf_cache L None [];
  co_pass : ∀ R n m c x, m ≠ 0 → passable chunked n m → n + m ≤ max →
    tensor_rows x m hidden (λ i, R (n + i)) → cf_cache L c (kvs L R 0 n) →
    ∃ y c', step x (seq n m) c = Some (Ok y, c') ∧ tensor_rows y m hidden (λ i, through L R (n + i)) ∧ cf_cache L c' (kvs L R 0 (n + m));
}.

Section run.
Context {Lay : Type} (step : Lay → T → list nat → KvCache → option (result T TensorError * KvCache)) (wrap : nat → TensorError → TensorError).

Definition layers_are (ls : list Lay) (Ls : list CausalFn) : Prop := Forall2 (λ l L, computes (step l) L) ls Ls.

Lemma layers_loop_rows ls Ls : layers_are ls Ls → ∀ R n m pre cs x,
  m ≠ 0 → passable chunked n m → n + m ≤ max → tensor_rows x m hidden (λ i, R (n + i)) → caches_hold Ls R n cs →
  ∃ y cs', layers_loop step wrap (length pre) ls x (seq n m) (pre ++ cs) = Some (Ok y, pre ++ cs')
    ∧ tensor_rows y m hidden (λ i, hidden_rows Ls R (n + i)) ∧ caches_hold Ls R (n + m) cs'.
Proof using All.
  induction 1 as [|l L ls Ls Hl _ IH]; intros R n m pre cs x Hm Hor Hle Hx Hc.
  { exists x, cs. by destruct cs. }
  destruct cs as [|c cs]; [done |]. destruct Hc as [Hc Hcs]. cbn [layers_loop].
  rewrite lookup_app_r, Nat.sub_diag by done. cbn [lookup list_lookup mbind option_bind].
  destruct (co_pass _ _ Hl R n m c x Hm Hor Hle Hx Hc) as (y & c' & -> & Hy & Hc'). cbn [mbind option_bind].
  assert (<[length pre:=c']> (pre ++ c :: cs) = (pre ++ [c']) ++ cs) as ->.
  { rewrite <- app_assoc. rewrite insert_app_r_alt, Nat.sub_diag by done. done. }
  destruct (IH (through L R) n m (pre ++ [c']) cs y Hm Hor Hle Hy Hcs) as (z & cs' & Ez & Hz & Hcs').
  rewrite length_app, Nat.add_comm in Ez. cbn [length Nat.add] in Ez.
  exists z, (c' :: cs'). by rewrite Ez, <- app_assoc.
Qed.
End run.
End layers.

(** ** Models *)
Record ModelFn : Type := mkModelFn {
  mf_vocab : nat;
  mf_embed : nat → list E;
  mf_layers : list CausalFn;
  mf_norm : list E → list E;
  mf_head : list E → list E;
}.

(** Rows of the tokens of a list. *)
Definition token_rows (F : ModelFn) (toks : list N) (i : nat) : list E := mf_embed F (N.to_nat (default 0%N (toks !! i))).

(** The logits after a list of tokens. *)
Definition lm (F : ModelFn) (toks : list N) : list E :=
  mf_head F (mf_norm F (hidden_rows (mf_layers F) (token_rows F toks) (length toks - 1))).

Definition caches_for (F : ModelFn) (toks : list N) (caches : list KvCache) : Prop :=
  caches_hold (mf_layers F) (token_rows F toks) (length toks) caches.

Definition valid_tokens (F : ModelFn) : list N → Prop := Forall (λ t, N.to_nat t < mf_vocab F).

(** The rows of more tokens after a context, and the caches of the context among them. *)
Lemma token_rows_app F ctx ts x w : tensor_rows x (length ts) w (token_rows F ts) →
  tensor_rows x (length ts) w (λ i, token_rows F (ctx ++ ts) (length ctx + i)).
Proof using All.
  intros Hx. apply (tensor_rows_ext _ _ _ _ _ Hx). intros i Hi. unfold token_rows. rewrite lookup_app_r by lia. do 4 f_equal. lia.
Qed.

Lemma caches_app F ctx ts cs : caches_for F ctx cs → caches_hold (mf_layers F) (token_rows F (ctx ++ ts)) (length ctx) cs.
Proof. apply caches_ext. intros j Hj. unfold token_rows. by rewrite lookup_app_l. Qed.

(** The row that the layers make of token [i] of a pass is that of the list up to it. *)
Lemma lm_take F ctx ts i : i < length ts →
  mf_head F (mf_norm F (hidden_rows (mf_layers F) (token_rows F (ctx ++ ts)) (length ctx + i))) = lm F (ctx ++ take (S i) ts).
Proof.
  intros Hi. unfold lm. do 2 f_equal. rewrite length_app, length_take_le by lia. replace (length ctx + S i - 1) with (length ctx + i) by lia.
  apply hidden_rows_ext. intros j Hj. unfold token_rows. do 3 f_equal.
  destruct (decide (j < length ctx)); [by rewrite !lookup_app_l |]. rewrite !lookup_app_r by lia. by rewrite lookup_take_lt by lia.
Qed.

(** The embedding of a model: a table of rows. *)
Record table_is (w : T) (F : ModelFn) (hidden : nat) : Prop := {
  te_table : den w T_F32 [mf_vocab F; hidden] (λ i, match i with [t; j] => at_ (mf_embed F t) j | _ => e_zero end);
  te_length : ∀ t, t < mf_vocab F → length (mf_embed F t) = hidden;
  te_vocab : (N.of_nat (mf_vocab F) <= u32_max)%N;
}.

Lemma embedding_rows w F hidden ids toks : table_is w F hidden → toks ≠ [] → valid_tokens F toks → ids_tensor toks = Ok ids →
  ∃ x, embedding_lookup w ids = Ok x ∧ tensor_rows x (length toks) hidden (token_rows F toks).
Proof using All.
  intros Hw Hne Hv Eids. destruct (ids_tensor_gives toks) as (t & Et & Ht). rewrite Eids in Et. injection Et as <-.
  assert (Hu : Forall (λ t, (t <= u32_max)%N) toks).
  { apply (Forall_impl _ _ _ Hv). intros t Hlt. cbn in *. pose proof (te_vocab _ _ _ Hw). lia. }
  unfold embedding_lookup. pose proof (ids_values ids toks Eids Hu) as Hval.
  destruct (n_flatten_all ids) as [fl|]; [| done]. cbn [result_bind] in *. rewrite Hval. cbn [result_bind]. set (n := length toks) in *.
  pose proof Ht as (Di & _ & _). pose proof (te_table _ _ _ Hw) as (Dw & _ & _). unfold n_dim at 1 2. unfold dim_minus1, minus1, n_dim. rewrite Di, Dw.
  cbn [lookup list_lookup result_bind length]. rewrite Nat.mul_1_l.
  destruct (from_u32_list toks [n]) as (ix & -> & Hix); [apply Nat.mul_1_r |]. cbn [result_bind].
  assert (Hlt : ∀ k, k < n → N.to_nat (e_to_u32 (E := E) (e_u32 (default 0%N (toks !! ravel [n] [k])))) = N.to_nat (default 0%N (toks !! k))
    ∧ N.to_nat (default 0%N (toks !! k)) < mf_vocab F).
  { intros k Hk. cbn [ravel nprod foldr]. rewrite Nat.mul_1_r, Nat.add_0_r. destruct (lookup_lt_is_Some_2 toks k Hk) as [t Et].
    rewrite Et. pose proof (Forall_lookup_1 _ _ _ _ Hv Et) as Hlt. pose proof (te_vocab _ _ _ Hw). cbn in Hlt |- *.
    rewrite e_to_u32_of by lia. done. }
  destruct (index_select_ok w ix T_F32 (mf_vocab F) [hidden] n _ _ (te_table _ _ _ Hw) Hix) as (e & -> & He).
  { intros k Hk. destruct (Hlt k Hk) as [-> H]. done. }
  cbn [result_bind].
  destruct (nd_reshape_ok e T_F32 _ [1; n; hidden] _ (ix3 (λ _ i j, at_ (token_rows F toks i) j)) He) as (x & -> & Hx); [cbn; lia | |].
  - symmetry. cbn [tab seq mbind list_bind]. rewrite app_nil_r. apply seq_bind_ext. intros k Hk. apply seq_bind_ext. intros j Hj.
    cbn [ix3]. by rewrite (proj1 (Hlt k Hk)).
  - exists x. split; [done |]. split; [done |]. intros i Hi. apply (te_length _ _ _ Hw), Hlt, Hi.
Qed.

Lemma fresh_caches hidden max chunked {Lay} (step : Lay → T → list nat → KvCache → option (result T TensorError * KvCache)) ls F :
  layers_are hidden max chunked step ls (mf_layers F) → caches_for F [] (replicate (length ls) None).
Proof using All.
  intros H. unfold caches_for. generalize (token_rows F []) as R. induction H as [|l L ls Ls Hl _ IH]; intros R; [done |].
  cbn [length replicate caches_hold]. split; [apply (co_fresh _ _ _ _ _ Hl) | apply IH].
Qed.

(** ** What a forward pass promises *)
#[local] Abbreviation Forward := (T → list nat → list KvCache → option (result T TensorError * list KvCache)).

Class CausalModel (fwd : Forward) (F : ModelFn) (layers max out : nat) (chunked : bool) : Prop := {
  cm_vocab : (N.of_nat (mf_vocab F) <= u32_max)%N;
  cm_fresh : caches_for F [] (replicate layers None);
  cm_pass : ∀ ctx ts ids caches, valid_tokens F (ctx ++ ts) → ts ≠ [] → passable chunked (length ctx) (length ts) →
    length ctx + length ts ≤ max → ids_tensor ts = Ok ids → caches_for F ctx caches →
    ∃ logits caches', fwd ids (seq (length ctx) (length ts)) caches = Some (Ok logits, caches')
      ∧ tensor_rows logits (length ts) out (λ i, lm F (ctx ++ take (S i) ts)) ∧ caches_for F (ctx ++ ts) caches';
}.

Section client.
Context (fwd : Forward) (F : ModelFn) (layers max out : nat) (chunked : bool) `{!CausalModel fwd F layers max out chunked}.

(** A list of tokens in chunks, one pass each: the logits of every pass. *)
Fixpoint run_chunks (pos : nat) (chunks : list (list N)) (caches : list KvCache) : option (list T * list KvCache) :=
  match chunks with
  | [] => Some ([], caches)
  | ts :: chunks =>
      match ids_tensor ts with
      | Err _ => None
      | Ok ids =>
          '(r, caches) ← fwd ids (seq pos (length ts)) caches;
          match r with
          | Err _ => None
          | Ok o => '(os, caches) ← run_chunks (pos + length ts) chunks caches; Some (o :: os, caches)
          end
      end
  end.

(** All chunks are accepted. *)
Definition chunks_ok (pos : nat) (chunks : list (list N)) : Prop :=
  Forall (λ ts, ts ≠ []) chunks ∧ ∀ k ts, chunks !! k = Some ts → passable chunked (pos + length (concat (take k chunks))) (length ts).

Lemma chunks_ok_cons pos ts chunks : chunks_ok pos (ts :: chunks) →
  ts ≠ [] ∧ passable chunked pos (length ts) ∧ chunks_ok (pos + length ts) chunks.
Proof.
  intros [[Hts Hne]%Forall_cons Hp]. split; [done |]. split.
  - specialize (Hp 0 ts eq_refl). cbn in Hp. by rewrite Nat.add_0_r in Hp.
  - split; [done |]. intros k ts' Hk. specialize (Hp (S k) ts' Hk). cbn in Hp. rewrite length_app in Hp.
    by replace (pos + length ts + length (concat (take k chunks))) with (pos + (length ts + length (concat (take k chunks)))) by lia.
Qed.

(** However the list is split, each token gets the logits of the list up to it. *)
Lemma chunks_rows chunks : ∀ ctx caches, valid_tokens F (ctx ++ concat chunks) → length ctx + length (concat chunks) ≤ max →
  chunks_ok (length ctx) chunks → caches_for F ctx caches →
  ∃ os caches', run_chunks (length ctx) chunks caches = Some (os, caches') ∧ length os = length chunks
    ∧ caches_for F (ctx ++ concat chunks) caches'
    ∧ ∀ k ts o i, chunks !! k = Some ts → os !! k = Some o → i < length ts →
        row_of out o i = lm F (ctx ++ concat (take k chunks) ++ take (S i) ts).
Proof using All.
  induction chunks as [|ts chunks IH]; intros ctx caches Hv Hle Hok Hc.
  { exists [], caches. rewrite app_nil_r. by split_and!. }
  apply chunks_ok_cons in Hok as (Hne & Hp & Hok). cbn [concat] in Hv, Hle. rewrite length_app in Hle. rewrite app_assoc in Hv.
  destruct (ids_tensor_gives ts) as (ids & Eids & _).
  destruct (cm_pass ctx ts ids caches (proj1 (proj1 (Forall_app _ _ _) Hv)) Hne Hp ltac:(lia) Eids Hc) as (o & caches1 & Ef & Ho & Hc1).
  destruct (IH (ctx ++ ts) caches1 Hv) as (os & caches' & Eos & Hl & Hc' & Hos);
    [rewrite length_app; lia | by rewrite length_app | done |].
  rewrite length_app in Eos. cbn [run_chunks]. rewrite Eids, Ef. cbn [mbind option_bind]. rewrite Eos. cbn [mbind option_bind].
  exists (o :: os), caches'. split; [done |]. split; [cbn; lia |]. split; [by rewrite <- app_assoc in Hc' |].
  intros [|k] ts' o' i; cbn [lookup list_lookup take concat app].
  - intros [= <-] [= <-] Hi. by rewrite (row_of_rows out o _ _ i Ho Hi).
  - intros Hk Hk' Hi. rewrite (Hos k ts' o' i Hk Hk' Hi), <- !app_assoc. done.
Qed.

(** Passes over the chunks of a list give the logits of one pass over the list. *)
Lemma chunks_equal_full chunks ids : chunks_ok 0 chunks → concat chunks ≠ [] → valid_tokens F (concat chunks) →
  length (concat chunks) ≤ max → ids_tensor (concat chunks) = Ok ids →
  ∃ full cf os cs, fwd ids (seq 0 (length (concat chunks))) (replicate layers None) = Some (Ok full, cf)
    ∧ run_chunks 0 chunks (replicate layers None) = Some (os, cs) ∧ length os = length chunks
    ∧ ∀ k ts o i, chunks !! k = Some ts → os !! k = Some o → i < length ts →
        row_of out o i = row_of out full (length (concat (take k chunks)) + i).
Proof using All.
  intros Hok Hne Hv Hle Eids. pose proof (cm_fresh (fwd := fwd)) as Hf.
  destruct (cm_pass [] (concat chunks) ids _ Hv Hne ltac:(right; by left) Hle Eids Hf) as (full & cf & Ef & Hfull & _).
  destruct (chunks_rows chunks [] _ Hv Hle Hok Hf) as (os & cs & Eo & Hl & _ & Ho). exists full, cf, os, cs.
  split_and!; [exact Ef | exact Eo | exact Hl |]. intros k ts o i Hk Hk' Hi. rewrite (Ho k ts o i Hk Hk' Hi).
  rewrite <- (take_drop_middle chunks k ts Hk), concat_app in Hfull. cbn [concat] in Hfull.
  rewrite (row_of_rows out full _ _ (length (concat (take k chunks)) + i) Hfull) by (rewrite !length_app; lia). cbn [app]. f_equal.
  replace (S (length (concat (take k chunks)) + i)) with (length (concat (take k chunks)) + S i) by lia.
  rewrite take_app_add. by rewrite take_app_le by lia.
Qed.

Lemma lm_length ctx ts o : tensor_rows o (length ts) out (λ i, lm F (ctx ++ take (S i) ts)) → ts ≠ [] → length (lm F (ctx ++ ts)) = out.
Proof.
  intros [_ Hl] Hne. destruct (length ts) as [|n] eqn:En; [by destruct ts |].
  rewrite <- (Hl n) by lia. by rewrite take_ge by lia.
Qed.

(** A prompt on fresh caches, and one more token. *)
Lemma pass_prompt prompt ids : valid_tokens F prompt → prompt ≠ [] → length prompt ≤ max → ids_tensor prompt = Ok ids →
  ∃ logits caches, fwd ids (seq 0 (length prompt)) (replicate layers None) = Some (Ok logits, caches)
    ∧ tensor_rows logits (length prompt) out (λ i, lm F (take (S i) prompt)) ∧ caches_for F prompt caches.
Proof using All.
  intros Hv Hne Hle Eids.
  apply (cm_pass [] prompt ids (replicate layers None) Hv Hne ltac:(right; by left) Hle Eids (cm_fresh (fwd := fwd))).
Qed.

Lemma pass_token ctx t caches : valid_tokens F (ctx ++ [t]) → S (length ctx) ≤ max → caches_for F ctx caches →
  ∃ ids logits caches', ids_tensor [t] = Ok ids ∧ fwd ids [length ctx] caches = Some (Ok logits, caches')
    ∧ tensor_rows logits 1 out (λ _, lm F (ctx ++ [t])) ∧ length (lm F (ctx ++ [t])) = out ∧ caches_for F (ctx ++ [t]) caches'.
Proof using All.
  intros Hv Hle Hc. destruct (ids_tensor_gives [t]) as (ids & Eids & _).
  destruct (cm_pass ctx [t] ids caches Hv) as (logits & caches' & Ef & Hl & Hc'); [done | by left | cbn; lia | done | done |].
  exists ids, logits, caches'. split_and!; [done | exact Ef | | | done].
  - apply (tensor_rows_ext _ _ _ _ _ Hl). intros i Hi. f_equal. destruct i; [done | cbn in Hi; lia].
  - by apply (lm_length ctx [t] logits).
Qed.
(** ** Choosing tokens *)
Context (choose : list E → N).

Definition next_token (toks : list N) : N := choose (lm F toks).
Fixpoint greedy (k : nat) (toks : list N) : list N :=
  match k with 0 => toks | S k => greedy k (toks ++ [next_token toks]) end.

Lemma length_greedy k : ∀ toks, length (greedy k toks) = length toks + k.
Proof. induction k as [|k IH]; intros toks; cbn [greedy]; [lia |]. rewrite IH, length_app. cbn. lia. Qed.

(** The choice is a position of the row. *)
Definition chooses : Prop := ∀ l, length l = out → N.to_nat (choose l) < out.

Lemma next_valid toks : chooses → out ≤ mf_vocab F → length (lm F toks) = out → valid_tokens F [next_token toks].
Proof. intros Hch Hle Hl. apply Forall_singleton. pose proof (Hch _ Hl). unfold next_token. lia. Qed.

End client.
End decoder.
