(* ===== verification/LlamaRows.v ===== *)
(** * The Llama model computes a language model

    A decoder layer of the code is the layer of rows of AttentionRows.v
    ([layer_computes]), so the forward pass of the model keeps the promise of
    Decoder.v ([llama_causal]): a prefill, or one decode step over the caches of
    what came before, gives the logits of the language model of the weights.
    [cached_equals_full]: over the real numbers, caching changes no logit.  [generate_is_greedy]:
    generation appends the greatest of them each time.  [chunk_on_cache_fails]:
    what happens to several tokens on caches that are not empty. *)
From S2P Require Import Prelude F32 Logits Tensors Sampler NdTensor Rope Layers LayerRows AttentionRows Llama Decoder Moe Exact.
#[local] Open Scope list_scope.
#[local] Open Scope nat_scope.
#[local] Open Scope rllm_scope.

Section lm.
Context {T E : Type} `{!NdOps T, !Scalars E, !Elements T E, !LawfulNd T E, !LawfulScalars E}.
#[local] Abbreviation gives := (gives (T := T) (E := E)).
#[local] Abbreviation den := (den (T := T) (E := E)).
#[local] Abbreviation KV := ((nat → nat → E) * (nat → nat → E))%type.
#[local] Abbreviation ModelFn := (ModelFn (T := T) (E := E) (K := KV)).

(** ** The layers *)
Definition causal (L : LayerFn) : CausalFn (T := T) (E := E) (K := KV) := mkCausalFn (layer_kv L) (layer_row L) (layer_cache L).

Lemma layer_kvs_seq L n m R : layer_kvs L (seq n m) (λ i, R (n + i)) = kvs (causal L) R n m.
Proof.
  unfold layer_kvs. rewrite length_seq. transitivity ((λ j, layer_kv L j (R j)) <$> (Nat.add n <$> seq 0 m)).
  - rewrite <- list_fmap_compose. apply list_fmap_ext. intros i ? [-> Hi]%lookup_seq. cbn. by rewrite lookup_seq_lt.
  - by rewrite fmap_add_seq, Nat.add_0_r.
Qed.

Section layers.
Context (show : nat → string) (hidden max : nat) (rp : RotaryEmbedding T) (Hmax : (N.of_nat max <= u32_max)%N).

#[local] Abbreviation step := (λ l x positions c, layer_forward show l x positions c rp).

Lemma layer_computes `{!MaskLaws E} l L : layer_is show l L hidden → rope_for rp max (lr_attn L) → computes hidden max false (step l) (causal L).
Proof using All.
  intros Hl Hr. split; [done |]. intros R n m c x Hm Hor Hle Hx Hc.
  destruct (layer_rows show l L hidden rp max x (seq n m) (λ i, R (n + i)) c (kvs (causal L) R 0 n) Hl Hr Hmax) as (y & c' & E1 & Hy & Hc');
    [by destruct m | by apply seq_positions | rewrite length_seq; destruct Hor as [|[-> |]]; [by left | by right | done] | by rewrite length_seq | done |].
  exists y, c'. split; [exact E1 |]. rewrite length_seq, layer_kvs_seq in Hy. rewrite layer_kvs_seq, <- kvs_app in Hc'.
  split; [| exact Hc']. apply (tensor_rows_ext _ _ _ _ _ Hy). intros i Hi. rewrite lookup_seq_lt by done. cbn [default]. by rewrite take_kvs.
Qed.

Definition llama_layers (ls : list (LlamaDecoderLayer (T := T))) (Ls : list LayerFn) : Prop :=
  Forall2 (λ l L, layer_is show l L hidden ∧ rope_for rp max (lr_attn L)) ls Ls.

Lemma llama_layers_are `{!MaskLaws E} ls Ls : llama_layers ls Ls → layers_are hidden max false step ls (causal <$> Ls).
Proof using All. intros H. apply Forall2_fmap_r, (Forall2_impl _ _ _ _ H). intros l L [Hl Hr]. by apply layer_computes. Qed.

(** Several tokens on a history: the first layer's cache takes them, the others stay. *)
Lemma layers_forward_clash l ls L Ls : llama_layers (l :: ls) (L :: Ls) → ∀ R n m c cs x,
  1 < m → n ≠ 0 → n + m ≤ max → tensor_rows x m hidden (λ i, R (n + i)) → caches_hold (causal <$> L :: Ls) R n (c :: cs) →
  ∃ e c', layers_forward show 0 (l :: ls) x (seq n m) rp (c :: cs) = Some (Err (in_layer show 0 e), c' :: cs)
    ∧ layer_cache L c' (kvs (causal L) R 0 (n + m)).
Proof using All.
  intros [[Hl Hr] _]%Forall2_cons R n m c cs x Hm Hn Hle Hx [Hc Hcs]. unfold layers_forward. cbn [layers_loop lookup list_lookup mbind option_bind].
  destruct (layer_clash show l L hidden rp max x (seq n m) (λ i, R (n + i)) c (kvs (causal L) R 0 n) Hl Hr Hmax) as (e & c' & -> & Hc');
    [by destruct m; [lia |] | by apply seq_positions | by rewrite length_seq | by destruct n | by rewrite length_seq | done |].
  rewrite layer_kvs_seq, <- kvs_app in Hc'. by exists e, c'.
Qed.
End layers.

Section model.
Context (show : nat → string) (hidden max out : nat).

Record model_is (m : LlamaModel (T := T)) (F : ModelFn) : Prop := {
  mi_embed : ∃ w, linear_weight show (embed_tokens m) = Some (Ok w) ∧ table_is w F hidden;
  mi_max : (N.of_nat max <= u32_max)%N;
  mi_layers : ∃ Ls, mf_layers F = causal <$> Ls ∧ llama_layers show hidden max (rope m) (Llama.layers m) Ls;
  mi_norm : rowwise (rms_forward (norm m)) hidden hidden (mf_norm F);
  mi_head : acts (linear_forward show (lm_head m)) hidden out (mf_head F);
}.

Lemma mi_layers_are `{!MaskLaws E} m F : model_is m F →
  layers_are hidden max false (λ l x positions c, layer_forward show l x positions c (rope m)) (Llama.layers m) (mf_layers F).
Proof using All. intros HF. destruct (mi_layers _ _ HF) as (Ls & -> & Hls). refine (llama_layers_are _ _ _ _ (mi_max _ _ HF) _ _ Hls). Qed.

Lemma embed_rows m F ids toks : model_is m F → toks ≠ [] → valid_tokens F toks → ids_tensor toks = Ok ids →
  ∃ x, embed show m ids = Some (Ok x) ∧ tensor_rows x (length toks) hidden (token_rows F toks).
Proof using All.
  intros HF Hne Hv Eids. destruct (mi_embed _ _ HF) as (w & Ew & Hw). unfold embed. rewrite Ew. cbn [bind_r].
  destruct (embedding_rows w F hidden ids toks Hw Hne Hv Eids) as (x & -> & Hx). by exists x.
Qed.

Lemma llama_causal `{!MaskLaws E} m F : model_is m F → CausalModel (forward show m) F (length (Llama.layers m)) max out false.
Proof using All.
  intros HF. pose proof (mi_layers_are m F HF) as Hls. split.
  - by destruct (mi_embed _ _ HF) as (w & _ & [_ _ Hu]).
  - by apply (fresh_caches hidden max false _ _ F Hls).
  - intros ctx ts ids caches Hv Hne Hor Hle Eids Hc. unfold forward, model_forward.
    destruct (embed_rows m F ids ts HF Hne (proj2 (proj1 (Forall_app _ _ _) Hv)) Eids) as (x & -> & Hx).
    destruct (layers_loop_rows hidden max false _ (in_layer show) _ _ Hls (token_rows F (ctx ++ ts)) (length ctx) (length ts) [] caches x)
      as (h & caches' & E1 & Hh & Hc'); [by destruct ts | done | done | by apply token_rows_app | by apply caches_app |].
    cbn [length app] in E1. unfold layers_forward. rewrite E1. cbn [mbind option_bind result_bind].
    destruct (acts_rows _ _ _ _ h _ _ (rowwise_acts _ _ _ _ (mi_norm _ _ HF)) Hh) as (y & [= ->] & Hy). cbn [bind_r].
    destruct (acts_rows _ _ _ _ y _ _ (mi_head _ _ HF) Hy) as (z & -> & Hz). cbn [mbind option_bind].
    exists z, caches'. split; [done |]. split; [| unfold caches_for; by rewrite length_app].
    apply (tensor_rows_ext _ _ _ _ _ Hz). intros i Hi. by apply lm_take.
Qed.

(** ** Generation *)

(** The choice of [argmax] on a row. *)
Definition greedy_choice (l : list E) : N := greedy_sample (e_to_f32 <$> l).

Lemma argmax_gives (t : T) R : tensor_rows t 1 out R → argmax t = Some (Ok (greedy_choice (R 0))).
Proof using All.
  intros [Ht Hl]. pose proof Ht as (Dt & _ & _). unfold argmax, dims3. rewrite Dt. cbn [bind_r].
  assert (Hrow : vec out (at_ (R 0)) = R 0) by (apply list_of_at, Hl; lia).
  destruct (nd_reshape_ok t T_F32 _ [1 * 1; out] _ (λ i, match i with [_; j] => at_ (R 0) j | _ => e_zero end) Ht) as (f & -> & Hf);
    [done | cbn; by rewrite !app_nil_r |].
  cbn [result_bind]. destruct (to_dtype_ok f T_F32 T_F32 _ _ Hf) as (f1 & -> & Hf1). cbn [result_bind].
  rewrite (nd_to_vec2_ok f1 (1 * 1) out _ Hf1). pose proof Hf1 as (_ & _ & ->). cbn [bind_r Nat.mul Nat.add rows_of lookup list_lookup mbind option_bind].
  assert (tab [1; out] (λ i, e_cast T_F32 T_F32 (match i with [_; j] => at_ (R 0) j | _ => e_zero end)) = R 0) as ->.
  { transitivity (vec out (at_ (R 0))); [| exact Hrow]. cbn [tab seq mbind list_bind]. rewrite app_nil_r. unfold vec. generalize (seq 0 out) as l.
    induction l as [|j l IH]; [done |]. cbn. rewrite e_cast_same. f_equal. exact IH. }
  rewrite take_ge; [done |]. rewrite length_fmap, Hl by lia. done.
Qed.

Lemma max_by_last_in l : ∀ best, max_by_last best l ∈ best :: l.
Proof.
  induction l as [|y l IH]; intros best; cbn; [by left |]. destruct (F32.cmp_or_eq best.2 y.2).
  - right. apply IH.
  - right. apply IH.
  - specialize (IH best). rewrite elem_of_cons in *. destruct IH as [->|IH]; [by left | right; by right].
Qed.

Lemma argmax_impl_lt l : l ≠ [] → argmax_impl l < length l.
Proof.
  intros Hne. unfold argmax_impl. destruct (enumerate l) as [|x r] eqn:El; [by destruct l |].
  pose proof (max_by_last_in r x) as H. rewrite <- El in H. destruct (max_by_last x r) as [k y]. apply enumerate_elem in H.
  by apply lookup_lt_Some in H.
Qed.

Lemma greedy_chooses : out ≠ 0 → (N.of_nat out <= u32_max)%N → chooses out greedy_choice.
Proof.
  intros Ho Hu l Hl. unfold greedy_choice, greedy_sample. pose proof (argmax_impl_lt (e_to_f32 <$> l)) as Hlt. rewrite length_fmap, Hl in Hlt.
  assert (argmax_impl (e_to_f32 <$> l) < out) by (apply Hlt; intros E0%(f_equal length); rewrite length_fmap, Hl in E0; done).
  unfold as_u32, u32_max in *. rewrite N.mod_small by lia. lia.
Qed.

Section generation.
Context `{!MaskLaws E} (m : LlamaModel (T := T)) (F : ModelFn) (HF : model_is m F) (Ho : out ≠ 0) (Hvo : out ≤ mf_vocab F).
#[local] Instance: CausalModel (forward show m) F (length (Llama.layers m)) max out false := llama_causal m F HF.

Lemma next_ok toks : length (lm F toks) = out → valid_tokens F [next_token F greedy_choice toks].
Proof using All.
  apply (next_valid F out); [| done]. apply greedy_chooses; [done |]. pose proof (cm_vocab (fwd := forward show m)). lia.
Qed.

Lemma decode_loop_greedy steps : ∀ ctx t caches,
  valid_tokens F (ctx ++ [t]) → length ctx + steps ≤ max → caches_for F ctx caches →
  decode_loop show m steps (ctx ++ [t]) t caches = Some (Ok (greedy F greedy_choice steps (ctx ++ [t]))).
Proof using All.
  induction steps as [|steps IH]; intros ctx t caches Hv Hle Hc; [done |]. cbn [decode_loop greedy].
  destruct (pass_token (forward show m) F (length (Llama.layers m)) max out false ctx t caches Hv ltac:(lia) Hc)
    as (ids & logits & caches' & -> & Ef & Hr & Hl & Hc'). cbn [bind_r].
  rewrite length_app, sub_checked_Some by (cbn; lia). cbn [mbind option_bind length]. rewrite Nat.add_sub, Ef. cbn [mbind option_bind bind_r].
  rewrite (argmax_gives logits _ Hr). cbn [bind_r]. apply IH; [| rewrite length_app; cbn; lia | done]. apply Forall_app. split; [done |].
  by apply next_ok.
Qed.

(** Greedy generation.  For a non-empty prompt of known tokens that fits the
    rotary tables, [generate] returns without error or panic the prompt extended,
    one token at a time, by the last of the greatest logits of the language model,
    until there are [max_tokens] tokens in all: the prompt counts, and a prompt of
    at least [max_tokens] tokens comes back unchanged. *)
Lemma generate_is_greedy prompt max_tokens : prompt ≠ [] → valid_tokens F prompt → length prompt ≤ max → max_tokens ≤ max →
  generate show m (length (Llama.layers m)) prompt max_tokens
  = Some (Ok (greedy F greedy_choice (max_tokens - length prompt) prompt)).
Proof using All.
  intros Hne Hv Hle Hmt. unfold generate. destruct (ids_tensor_gives prompt) as (ids & Eids & _). rewrite Eids. cbn [bind_r].
  destruct (pass_prompt (forward show m) F (length (Llama.layers m)) max out false prompt ids Hv Hne Hle Eids)
    as (logits & caches & Ef & Hl & Hc). rewrite Ef. cbn [mbind option_bind bind_r]. pose proof Hl as [(Dl & _ & _) _].
  unfold dim_minus2, n_dim. rewrite Dl. cbn [length lookup list_lookup bind_r]. destruct (length prompt) as [|n] eqn:En; [by destruct prompt |].
  rewrite sub_checked_Some by lia. cbn [mbind option_bind Nat.sub]. rewrite Nat.sub_0_r.
  destruct (last_row out logits n _ Hl) as (lst & -> & Hlst). cbn [bind_r].
  rewrite (argmax_gives lst _ Hlst). cbn [bind_r]. rewrite take_ge by lia.
  destruct (Nat.leb_spec max_tokens (S n)) as [Hm|Hm].
  { replace (max_tokens - S n) with 0 by lia. done. }
  rewrite length_app, En. cbn [length]. replace (max_tokens - S n) with (S (max_tokens - (S n + 1))) by lia. cbn [greedy].
  apply decode_loop_greedy; [| lia | done]. apply Forall_app. split; [done |].
  apply next_ok. rewrite <- (proj2 Hlst 0) by lia. by rewrite take_ge by lia.
Qed.
End generation.

(** ** Caches and recomputation *)

Definition singles (ts : list N) : list (list N) := (λ t, [t]) <$> ts.

Lemma concat_singles ts : concat (singles ts) = ts.
Proof. induction ts as [|t ts IH]; [done |]. cbn. by rewrite <- IH at 2. Qed.

Lemma prompt_then_singles prompt ts : prompt ≠ [] → chunks_ok false 0 (prompt :: singles ts).
Proof.
  intros Hne. split.
  - apply Forall_cons. split; [done |]. apply Forall_fmap, Forall_true. done.
  - intros [|k] c Hk; [right; by left |]. left. cbn in Hk. apply list_lookup_fmap_Some in Hk as (t & -> & _). done.
Qed.

(** A prompt, then single tokens on the caches: the logits of one pass. *)
Lemma cached_is_full `{!MaskLaws E} m F prompt ts ids : model_is m F →
  valid_tokens F (prompt ++ ts) → prompt ≠ [] → length (prompt ++ ts) ≤ max → ids_tensor (prompt ++ ts) = Ok ids →
  let fresh := replicate (length (Llama.layers m)) None in
  ∃ full cf first os caches,
    forward show m ids (seq 0 (length (prompt ++ ts))) fresh = Some (Ok full, cf)
    ∧ run_chunks (forward show m) 0 (prompt :: singles ts) fresh = Some (first :: os, caches)
    ∧ length os = length ts ∧ (∀ i, i < length prompt → row_of out first i = row_of out full i)
    ∧ ∀ i o, os !! i = Some o → row_of out o 0 = row_of out full (length prompt + i).
Proof using All.
  intros HF Hv Hne Hle Ei fresh. pose proof (llama_causal m F HF) as Hm.
  assert (Ec : concat (prompt :: singles ts) = prompt ++ ts) by (cbn; by rewrite concat_singles).
  destruct (chunks_equal_full (forward show m) F _ max out false (prompt :: singles ts) ids (prompt_then_singles prompt ts Hne))
    as (full & cf & os & cs & Ef & Eo & Hl & Hr); rewrite ?Ec; [by destruct prompt | done | done | done |]. rewrite Ec in Ef.
  destruct os as [|first os]; [done |]. exists full, cf, first, os, cs. split_and!; [exact Ef | exact Eo | | |].
  - cbn in Hl. unfold singles in Hl. rewrite length_fmap in Hl. lia.
  - intros i Hi. exact (Hr 0 prompt first i eq_refl eq_refl Hi).
  - intros i o Hi. pose proof (lookup_lt_Some _ _ _ Hi) as Hlt. cbn in Hl. unfold singles in Hl. rewrite length_fmap in Hl.
    destruct (lookup_lt_is_Some_2 ts i ltac:(lia)) as [t Et].
    rewrite (Hr (S i) [t] o 0); [| change (singles ts !! i = Some [t]); unfold singles; by rewrite list_lookup_fmap, Et | done | cbn; lia].
    cbn [take concat]. rewrite length_app. f_equal. unfold singles. rewrite <- fmap_take. fold (singles (take i ts)).
    rewrite concat_singles, length_take. lia.
Qed.

(** Several tokens on caches that hold some already (a chunk of a longer prompt, or
    the draft of a speculative step) always fail: the causal mask covers the new
    tokens only.  By then the first layer's cache has taken the keys and values
    of the new tokens, which no other layer has. *)
Theorem chunk_on_cache_fails m F ctx ts ids caches : model_is m F → Llama.layers m ≠ [] →
  valid_tokens F (ctx ++ ts) → ctx ≠ [] → 1 < length ts → length ctx + length ts ≤ max →
  ids_tensor ts = Ok ids → caches_for F ctx caches →
  ∃ e L c c' cs, head (mf_layers F) = Some L ∧ caches = c :: cs
    ∧ forward show m ids (seq (length ctx) (length ts)) caches = Some (Err (in_layer show 0 e), c' :: cs)
    ∧ cf_cache L c (kvs L (token_rows F ctx) 0 (length ctx))
    ∧ cf_cache L c' (kvs L (token_rows F (ctx ++ ts)) 0 (length ctx + length ts)).
Proof using All.
  intros HF Hls Hv Hne Hn Hle Eids Hc. unfold forward, model_forward. destruct (mi_layers _ _ HF) as (Ls & EL & Hlay).
  destruct (embed_rows m F ids ts HF ltac:(intros ->; cbn in Hn; lia) (proj2 (proj1 (Forall_app _ _ _) Hv)) Eids) as (x & -> & Hx).
  pose proof (caches_app F ctx ts caches Hc) as Hc1. unfold caches_for in Hc. rewrite EL in *.
  destruct Hlay as [|l L ls Ls Hl Hlay]; [done |]. destruct caches as [|c cs]; [done |]. pose proof Hc as [Hc0 _].
  destruct (layers_forward_clash show hidden max (rope m) (mi_max _ _ HF) l ls L Ls (proj2 (Forall2_cons _ _ _ _ _) (conj Hl Hlay))
    (token_rows F (ctx ++ ts)) (length ctx) (length ts) c cs x Hn) as (e & c' & Ef & Hc'); [by destruct ctx | done | by apply token_rows_app | done |].
  rewrite Ef. cbn [mbind option_bind result_bind bind_r]. exists e, (causal L), c, c', cs. by split_and!.
Qed.
End model.
End lm.

(** ** In exact arithmetic *)
Section exact.
Context {T : Type} `{!Rounding, !NdOps T, !Elements T Exact, !LawfulNd T Exact}.
#[local] Abbreviation KV := ((nat → nat → Exact) * (nat → nat → Exact))%type.

(** C6. The key/value cache changes nothing, in exact arithmetic: when the tensor
    library's operations compute over the real numbers, a prompt in one pass and then
    each further token in a pass of its own, on the caches left by the passes before,
    gives for every token the logits that one pass over the whole list, with nothing
    cached, gives in that token's row.  (Floats may round the two differently.) *)
Theorem cached_equals_full show hidden max out m (F : ModelFn (T := T) (E := Exact) (K := KV)) prompt ts ids :
  model_is show hidden max out m F →
  valid_tokens F (prompt ++ ts) → prompt ≠ [] → length (prompt ++ ts) ≤ max → ids_tensor (prompt ++ ts) = Ok ids →
  let fresh := replicate (length (Llama.layers m)) None in
  ∃ full cf first os caches,
    forward show m ids (seq 0 (length (prompt ++ ts))) fresh = Some (Ok full, cf)
    ∧ run_chunks (forward show m) 0 (prompt :: singles ts) fresh = Some (first :: os, caches)
    ∧ length os = length ts ∧ (∀ i, i < length prompt → row_of (E := Exact) out first i = row_of out full i)
    ∧ ∀ i o, os !! i = Some o → row_of (E := Exact) out o 0 = row_of out full (length prompt + i).
Proof using All. exact (cached_is_full show hidden max out m F prompt ts ids). Qed.
End exact.

(** ** A small model *)

#[local] Existing Instance up_rounding.

Definition mat (b a : nat) (data : list Z) : NdHost Exact := mkNdHost [b; a] T_F32 (real <$> data).
Definition mat_row (a : nat) (data : list Z) (o : nat) : list Exact := real <$> take a (drop (o * a) data).
Definition gain (a : nat) (data : list Z) : RmsNorm (T := NdHost Exact) := mkRmsNorm (mkNdHost [a] T_F32 (real <$> data)) F64.zero.

Definition demo_rope : RotaryEmbedding (NdHost Exact) :=
  match rope_new (λ _ _, F64.of_Z 1) 2 8 F32.one with Ok r => r | Err _ => mkRope (mat 0 0 []) (mat 0 0 []) end.

Definition demo_layer : LlamaDecoderLayer (T := NdHost Exact) :=
  mkDecoderLayer
    (from_linears (linear_new (mat 4 2 [1; 0; 0; 1; 1; 1; 1; -1]%Z)) (linear_new (mat 2 2 [1; 0; 1; 1]%Z))
      (linear_new (mat 2 2 [0; 1; 1; 0]%Z)) (linear_new (mat 2 4 [1; 0; 0; 1; 0; 1; 1; 0]%Z)) 2 1 2)
    (mkMLP (linear_new (mat 1 2 [1; 1]%Z)) (linear_new (mat 1 2 [1; -1]%Z)) (linear_new (mat 2 1 [1; -1]%Z)))
    (gain 2 [1; 1]%Z) (gain 2 [1; 2]%Z).

Definition demo_llama : LlamaModel (T := NdHost Exact) :=
  mkLlamaModel (linear_new (mat 3 2 [1; 0; 0; 1; 1; 1]%Z)) [demo_layer] (gain 2 [1; 1]%Z)
    (linear_new (mat 3 2 [1; 0; 0; 1; -1; -1]%Z)) demo_rope 0.

Definition dense_fn (b a : nat) (data : list Z) : list Exact → list Exact := λ x, bias_row None (dense_row (mat_row a data) b x).
Definition gain_fn (data : list Z) : list Exact → list Exact := rms_row (real <$> data) F64.zero.

Definition demo_layer_fn : LayerFn :=
  mkLayerFn
    (mkAttnRows (dense_fn 4 2 [1; 0; 0; 1; 1; 1; 1; -1]%Z) (dense_fn 2 2 [1; 0; 1; 1]%Z) (dense_fn 2 2 [0; 1; 1; 0]%Z)
      (dense_fn 2 4 [1; 0; 0; 1; 0; 1; 1; 0]%Z) (λ l, l) (λ l, l) 1 2 1
      (λ p k, e_cast T_F64 T_F32 (e_cos (angle (λ _ _, F64.of_Z 1) 2 F32.one p k)))
      (λ p k, e_cast T_F64 T_F32 (e_sin (angle (λ _ _, F64.of_Z 1) 2 F32.one p k))))
    (mlp_row (dense_fn 1 2 [1; 1]%Z) (dense_fn 1 2 [1; -1]%Z) (dense_fn 2 1 [1; -1]%Z))
    (gain_fn [1; 1]%Z) (gain_fn [1; 2]%Z).

Definition demo_fn : ModelFn (T := NdHost Exact) :=
  mkModelFn 3 (mat_row 2 [1; 0; 0; 1; 1; 1]%Z) [causal demo_layer_fn] (gain_fn [1; 1]%Z) (dense_fn 3 2 [1; 0; 0; 1; -1; -1]%Z).

Definition no_show (_ : nat) : string := "".

Lemma dense_acts b a data : den (mat b a data) T_F32 [b; a] (λ i, match i with [o; j] => at_ (mat_row a data o) j | _ => e_zero end) →
  Forall (λ o, length (mat_row a data o) = a) (seq 0 b) →
  acts (T := NdHost Exact) (linear_forward no_show (linear_new (mat b a data))) a b (dense_fn b a data).
Proof.
  intros Hd Hl. apply linear_dense_acts; [exact Hd | | done]. intros o Ho.
  rewrite Forall_forall in Hl. apply Hl. apply elem_of_seq. lia.
Qed.

Lemma gain_rowwise a data : length data = a → den (T := NdHost Exact) (mkNdHost [a] T_F32 (real <$> data)) T_F32 [a]
    (λ i, at_ (real <$> data) (default 0 (i !! 0))) →
  rowwise (T := NdHost Exact) (rms_forward (gain a data)) a a (gain_fn data).
Proof. intros Hl Hd. apply rms_rowwise; [by rewrite length_fmap | exact Hd]. Qed.

#[local] Ltac toy_den := split_and!; vm_compute; reflexivity.
#[local] Ltac toy_dense := apply dense_acts; [toy_den | by repeat constructor].
#[local] Ltac toy_gain := apply gain_rowwise; [done | toy_den].

Lemma demo_layer_is : layer_is no_show demo_layer demo_layer_fn 2.
Proof.
  split; [split; cbn | cbn; apply (mlp_acts no_show _ 2 1); toy_dense | toy_gain | toy_gain];
    try done; try apply norm_none; toy_dense.
Qed.

Lemma demo_llama_is : model_is no_show 2 8 3 demo_llama demo_fn.
Proof.
  split.
  - exists (mat 3 2 [1; 0; 0; 1; 1; 1]%Z). split; [done |]. split; [toy_den | | done].
    intros [|[|[|t]]] Ht; cbn in Ht; done || lia.
  - done.
  - exists [demo_layer_fn]. split; [done |]. apply Forall2_cons. split; [| by apply Forall2_nil]. split; [apply demo_layer_is |].
    destruct (rope_new_holds (T := NdHost Exact) (E := Exact) (λ _ _, F64.of_Z 1) 1 8 F32.one ltac:(done)) as (r & Er & Hr).
    unfold demo_llama, demo_rope. cbn [rope]. cbn [Nat.add] in Er. rewrite Er. exact Hr.
  - toy_gain.
  - toy_dense.
Qed.

Lemma valid_check {K} (F : ModelFn (T := NdHost Exact) (E := Exact) (K := K)) l : forallb (λ t, N.to_nat t <? mf_vocab F) l = true → valid_tokens F l.
Proof. rewrite forallb_forall. intros H. apply Forall_forall. intros t Ht%list_elem_of_In. by apply Nat.ltb_lt, H. Qed.

#[local] Ltac demo_tokens := apply valid_check; reflexivity.

Lemma cached_equals_full_witness :
  ∃ full first os cf c,
    forward no_show demo_llama (mkNdHost [1; 5] T_U32 (real <$> [1; 0; 2; 2; 1]%Z)) (seq 0 5) [None] = Some (Ok full, cf)
    ∧ run_chunks (forward no_show demo_llama) 0 [[1%N; 0%N]; [2%N]; [2%N]; [1%N]] [None] = Some (first :: os, c)
    ∧ length os = 3 ∧ row_of 3 (default full (os !! 1)) 0 = row_of 3 full 3.
Proof.
  destruct (cached_equals_full no_show 2 8 3 demo_llama demo_fn [1%N; 0%N] [2%N; 2%N; 1%N]
    (mkNdHost [1; 5] T_U32 (real <$> [1; 0; 2; 2; 1]%Z)) demo_llama_is)
    as (full & cf & first & os & c & Ef & Eo & Hl & _ & Ho); [demo_tokens | done | cbn; lia | done |].
  exists full, first, os, cf, c. split_and!; [exact Ef | exact Eo | exact Hl |].
  destruct (lookup_lt_is_Some_2 os 1) as [o Eo1]; [cbn in Hl; lia |]. rewrite Eo1. exact (Ho 1 o Eo1).
Defined.

(** The caches after the prompt, and the failing draft. *)
Lemma chunk_on_cache_fails_witness :
  ∃ e c c', forward no_show demo_llama (mkNdHost [1; 2] T_U32 (real <$> [2; 1]%Z)) [2; 3] [c] = Some (Err e, [c'])
    ∧ (λ kv, nh_dims kv.1) <$> c = Some [1; 1; 2; 2] ∧ (λ kv, nh_dims kv.1) <$> c' = Some [1; 1; 4; 2].
Proof.
  destruct (pass_prompt (forward no_show demo_llama) demo_fn 1 8 3 false (CausalModel0 := llama_causal no_show 2 8 3 demo_llama demo_fn demo_llama_is)
    [1%N; 0%N] (mkNdHost [1; 2] T_U32 (real <$> [1; 0]%Z))) as (l & cs & _ & _ & Hcs); [demo_tokens | done | cbn; lia | done |].
  destruct (chunk_on_cache_fails no_show 2 8 3 demo_llama demo_fn [1%N; 0%N] [2%N; 1%N] (mkNdHost [1; 2] T_U32 (real <$> [2; 1]%Z)) cs demo_llama_is)
    as (e & L & c & c' & cs' & EL & -> & Ef & Hc & Hc'); [done | demo_tokens | done | cbn; lia | cbn; lia | done | done |].
  injection EL as <-. destruct cs' as [|? ?]; [| destruct Hcs as [_ []]]. exists (in_layer no_show 0 e), c, c'. split; [exact Ef |].
  destruct c as [[k v]|]; [| done]. destruct c' as [[k' v']|]; [| done]. destruct Hc as (_ & (D & _) & _), Hc' as (_ & (D' & _) & _).
  split; cbn [fmap option_fmap option_map fst]; f_equal; [exact D | exact D'].
Defined.
