(* ===== verification/LlamaLoad.v ===== *)
(** * Building the Llama model from a checkpoint (llama.rs)

    [load_linear] takes the tensors of one projection out of the weight map:
    packed GPTQ or AWQ tensors when there are any, or what the factory of the
    quantization method builds; [llama_new] takes the tensors of the whole model,
    by name.  Transfers between devices and logging are left out. *)
From S2P Require Import Prelude F32 CoreTypes Tensors Mxfp Int8 Nvfp NdTensor QuantMethod Rope Layers Llama.
#[local] Open Scope list_scope.
#[local] Open Scope nat_scope.
#[local] Open Scope rllm_scope.

Section load.
Context {T G Q : Type} `{!TensorLib T, !NdOps T}.
Context (g_dims : G → list nat) (from_arc : G → result Q string) (q_forward : Q → T → result T TensorError).
Context (log2 exp2 : f32 → f32) (powi : f32 → Z → f32) (f8_from_f32 : f32 → N) (f8_from_bits : N → f32).
Context (powf : f64 → f64 → f64) (show : nat → string) (q_show : QError → string).

#[local] Abbreviation Load := (Load (T := T) (G := G)).
#[local] Abbreviation Linear := (Layers.Linear (T := T)).

(** What [apply] of a [LinearMethod] does; the dense form it may keep is left out,
    as [apply] computes it again. *)
Definition said {A B} (r : option (result A QError * B)) : option (result A TensorError) :=
  '(r, _) ← r; Some (match r with Ok a => Ok a | Err e => Err (q_show e) end).
Definition method_apply (l : QuantMethod.Linear (T := T) (Q := Q)) (x : T) : option (result T TensorError) :=
  match l with
  | LUnquantized w i o => Some (unquantized_apply w i o x)
  | LInt8 l => Some (int8_apply l x).1
  | LMxfp l => said (Mxfp.apply f8_from_bits l x)
  | LNvfp l => said (Nvfp.apply l x)
  | LGguf q _ _ => Some (q_forward q x)
  end.
Definition method_of (l : QuantMethod.Linear (T := T) (Q := Q)) : LinearMethod (T := T) :=
  mkLinearMethod (method_apply l) (QuantMethod.linear_weight l) (linear_is_quantized l).

(** [remove] of a name that may be missing. *)
Definition take_tensor (name : string) : Load (option T) := λ s,
  match weights s !! name with
  | Some t => Some (Ok (Some t), mkWeightSource (delete name (weights s)) (quantized s) (gguf_weights s))
  | None => Some (Ok None, s)
  end.

(** One group index per input feature; a group size of zero panics. *)
Definition default_g_idx (in_features group_size : nat) : Load T :=
  if (group_size =? 0) && negb (in_features =? 0) then l_panic
  else l_try (lift (n_from_u32 ((λ r, as_u32 (N.of_nat (r / group_size))) <$> seq 0 in_features) [in_features])).

Definition bits_of (q : option QuantizationConfig) : nat := N.to_nat (default 4%N (q ≫= qc_bits)).
Definition group_size_of (q : option QuantizationConfig) : nat := N.to_nat (default 128%N (q ≫= qc_group_size)).

Definition load_linear (prefix : string) (q : option QuantizationConfig) (schema : option QuantSchema) : Load Linear :=
  l_bind (has_tensor (prefix +:+ ".qweight")) (λ packed,
  if packed : bool then
    l_bind (remove_tensor (prefix +:+ ".qweight")) (λ qweight,
    l_bind (remove_tensor (prefix +:+ ".qzeros")) (λ qzeros,
    l_bind (remove_tensor (prefix +:+ ".scales")) (λ scales,
    l_bind (l_try (lift (n_dim qweight 0))) (λ rows,
    let in_features := rows * 8 in
    if bool_decide (qc_kind <$> q = Some QK_AWQ) then l_ret (new_awq qweight qzeros scales (bits_of q) (group_size_of q))
    else
      l_bind (take_tensor (prefix +:+ ".g_idx")) (λ g,
      l_bind (match g with Some g => l_ret g | None => default_g_idx in_features (group_size_of q) end) (λ g_idx,
      l_ret (new_gptq qweight qzeros scales g_idx (bits_of q) (group_size_of q))))))))
  else
    l_bind (l_try (factory_from_config q schema)) (λ factory,
    l_bind (build_linear g_dims from_arc log2 exp2 powi f8_from_f32 factory prefix) (λ m,
    l_ret (from_method (method_of m))))).

(** [1e-6] *)
Definition rms_norm_eps : f64 := SpecFloat.S754_finite false 4722366482869645 (-72).

Definition load_norm (name : string) : Load (RmsNorm (T := T)) :=
  l_bind (remove_tensor name) (λ w, l_ret (mkRmsNorm w rms_norm_eps)).

Definition count_quantized (ls : list Linear) : nat := length (filter (λ l, is_quantized l = true) ls).

(** One decoder layer and how many of its projections are quantized. *)
Definition load_layer (config : ModelConfig) (schema : option QuantSchema) (i : nat) : Load (LlamaDecoderLayer (T := T) * nat) :=
  let prefix := ("model.layers." +:+ show i)%string in
  let load name := load_linear (prefix +:+ name) (mc_quantization config) schema in
  l_bind (load ".self_attn.q_proj") (λ q,
  l_bind (load ".self_attn.k_proj") (λ k,
  l_bind (load ".self_attn.v_proj") (λ v,
  l_bind (load ".self_attn.o_proj") (λ o,
  let attn := from_linears q k v o (mc_num_attention_heads config) (mc_num_kv_heads config) (mc_head_dim config) in
  l_bind (load ".mlp.gate_proj") (λ gate,
  l_bind (load ".mlp.up_proj") (λ up,
  l_bind (load ".mlp.down_proj") (λ down,
  l_bind (load_norm (prefix +:+ ".input_layernorm.weight")) (λ input_ln,
  l_bind (load_norm (prefix +:+ ".post_attention_layernorm.weight")) (λ post_ln,
  l_ret (mkDecoderLayer attn (mkMLP gate up down) input_ln post_ln, count_quantized [q; k; v; o; gate; up; down])))))))))).

Fixpoint load_layers (config : ModelConfig) (schema : option QuantSchema) (i n : nat) : Load (list (LlamaDecoderLayer (T := T)) * nat) :=
  match n with
  | 0 => l_ret ([], 0)
  | S n =>
      l_bind (load_layer config schema i) (λ '(l, c),
      l_bind (load_layers config schema (S i) n) (λ '(ls, cs), l_ret (l :: ls, c + cs)))
  end.

(** The head: its own weight, or the embedding's when the map has none by that name. *)
Definition load_head (config : ModelConfig) (schema : option QuantSchema) (embed_weight : T) : Load Linear :=
  l_bind (has_tensor "lm_head.qweight") (λ packed,
  l_bind (has_tensor "lm_head.weight") (λ plain,
  if (packed : bool) || plain then load_linear "lm_head" (mc_quantization config) schema else l_ret (linear_new embed_weight))).

(** [LlamaModel::new] *)
Definition llama_new (config : ModelConfig) (schema : option QuantSchema) : Load (LlamaModel (T := T)) :=
  l_bind (l_try (factory_from_config (mc_quantization config) schema)) (λ _,
  l_bind (remove_tensor "model.embed_tokens.weight") (λ embed_weight,
  l_bind (load_head config schema embed_weight) (λ head,
  l_bind (load_layers config schema 0 (mc_num_layers config)) (λ '(ls, quantized_linears),
  l_bind (load_norm "model.norm.weight") (λ norm,
  l_bind (l_try (lift (rope_new powf (mc_head_dim config) (mc_max_model_len config) (mc_rope_theta config)))) (λ rope,
  l_ret (mkLlamaModel (linear_new embed_weight) ls norm head rope (count_quantized [head] + quantized_linears)))))))).

(** The head is looked up among the plain tensors only: one that was kept quantized
    (as a GGUF tensor or as raw bytes) is passed over for the embedding. *)
Lemma quantized_head_ignored config schema w s :
  weights s !! "lm_head.qweight"%string = None → weights s !! "lm_head.weight"%string = None →
  load_head config schema w s = Some (Ok (linear_new w), s).
Proof. intros H1 H2. unfold load_head, l_bind, has_tensor. by rewrite H1, H2. Qed.

(** With a GGUF configuration a projection that is not quantized cannot be loaded. *)
Lemma plain_gguf_fails p q s : qc_kind q = QK_Gguf → weights s !! (p +:+ ".qweight")%string = None →
  gguf_weights s ≫= lookup (p +:+ ".weight")%string = None →
  load_linear p (Some q) None s = Some (Err (QMissing (p +:+ ".weight")), s).
Proof.
  intros Hk H1 H2. unfold load_linear, l_bind, has_tensor. rewrite H1. rewrite bool_decide_eq_false_2 by (by intros [? ?]).
  unfold factory_from_config. rewrite Hk. unfold l_try, l_ret, build_linear, build_gguf, l_bind, remove_gguf_tensor. by rewrite H2.
Qed.
End load.
