(* ===== verification/LlamaCheckpoint.v ===== *)
(** * From a checkpoint to tokens

    A checkpoint of dense weights describes a language model ([checkpoint_fn]):
    matrices for the projections, vectors for the norms, under the names of the
    Hugging Face layout.  [llama_new_is] shows that the model the loader builds
    from it computes that language model, whatever other tensors the checkpoint
    has, and takes exactly the tensors it names; [checkpoint_generates] that
    generation with the loaded model decodes it greedily. *)
From S2P Require Import Prelude F32 CoreTypes Tensors Mxfp Int8 Nvfp Sampler NdTensor QuantMethod Rope Layers LayerRows AttentionRows Llama Decoder LlamaRows LlamaLoad Exact.
#[local] Open Scope list_scope.
#[local] Open Scope nat_scope.
#[local] Open Scope rllm_scope.

(** The two interfaces of the tensor library are of the same tensors. *)
Class SameLib (T : Type) `{!TensorLib T, !NdOps T} : Prop := {
  same_dims : ∀ t : T, t_dims t = n_dims t;
  same_reshape : ∀ (t : T) d, t_reshape t d = n_reshape t d;
  same_t : ∀ t : T, t_t t = n_t t;
  same_matmul : ∀ a b : T, t_matmul a b = n_matmul a b;
}.

(** ** Names *)
Lemma first_dot a b p p' : has_dot a = false → has_dot b = false →
  (a +:+ String dot_char p = b +:+ String dot_char p')%string → a = b ∧ p = p'.
Proof.
  revert b. induction a as [|x a IH]; intros [|y b] Ha Hb E.
  - by injection E as ->.
  - injection E as <- _. cbn in Hb. done.
  - injection E as -> _. cbn in Ha. done.
  - cbn [has_dot] in Ha, Hb. apply orb_false_iff in Ha as [_ Ha], Hb as [_ Hb]. injection E as -> E.
    destruct (IH b Ha Hb E) as [-> ->]. done.
Qed.

Section names.
Context (show : nat → string) (show_inj : ∀ i j, show i = show j → i = j) (show_nodot : ∀ i, has_dot (show i) = false).

Definition layer_name (i : nat) (s : string) : string := "model.layers." +:+ (show i +:+ String dot_char s).

Lemma layer_name_inj i j s s' : layer_name i s = layer_name j s' → i = j ∧ s = s'.
Proof using All.
  intros E%string_app_inj. destruct (first_dot _ _ _ _ (show_nodot i) (show_nodot j) E) as [Hi Hs]. by apply show_inj in Hi.
Qed.
End names.

(** ** Steps of the loader *)
Section loader.
Context {T G : Type}.
#[local] Abbreviation Load := (Load (T := T) (G := G)).

(** On weights that agree with [w] on the names [N], the step succeeds with a
    result in [P], and changes no other name. *)
Definition loads {A} (m : Load A) (N : list string) (w : gmap string T) (P : A → Prop) : Prop :=
  ∀ s, (∀ n, n ∈ N → weights s !! n = w !! n) →
  ∃ a s', m s = Some (Ok a, s') ∧ P a ∧ ∀ n, n ∉ N → weights s' !! n = weights s !! n.

Lemma loads_ret {A} (a : A) w (P : A → Prop) : P a → loads (l_ret a) [] w P.
Proof. intros Ha s _. by exists a, s. Qed.

Lemma loads_bind {A B} (m : Load A) (k : A → Load B) N N' w (P : A → Prop) (R : B → Prop) :
  loads m N w P → (∀ a, P a → loads (k a) N' w R) → (∀ n, n ∈ N → n ∉ N') → loads (l_bind m k) (N ++ N') w R.
Proof.
  intros Hm Hk Hd s Hs. destruct (Hm s) as (a & s1 & E1 & Ha & Hf1); [intros n Hn; apply Hs; set_solver |].
  destruct (Hk a Ha s1) as (b & s2 & E2 & Hb & Hf2).
  { intros n Hn. rewrite Hf1 by (intros Hn'; by apply (Hd n)). apply Hs. set_solver. }
  exists b, s2. split; [unfold l_bind; by rewrite E1 |]. split; [done |]. intros n Hn.
  rewrite Hf2, Hf1 by set_solver. done.
Qed.

(** A step that reads and changes nothing. *)
Lemma loads_try {A B} (r : result A QError) a (k : A → Load B) N w (R : B → Prop) :
  r = Ok a → loads (k a) N w R → loads (l_bind (l_try r) k) N w R.
Proof. intros -> H s Hs. exact (H s Hs). Qed.

Lemma loads_weaken {A} (m : Load A) N w (P R : A → Prop) : (∀ a, P a → R a) → loads m N w P → loads m N w R.
Proof. intros HPR H s Hs. destruct (H s Hs) as (a & s' & ? & ? & ?). exists a, s'. auto. Qed.

Lemma loads_names {A} (m : Load A) N N' w (P : A → Prop) : N = N' → loads m N w P → loads m N' w P.
Proof. by intros ->. Qed.

Lemma loads_remove name w t : w !! name = Some t → loads (remove_tensor name) [name] w (λ x, x = t).
Proof.
  intros Ht s Hs. specialize (Hs name ltac:(set_solver)). rewrite Ht in Hs. unfold remove_tensor. rewrite Hs.
  eexists t, _. split; [done |]. split; [done |]. intros n Hn. cbn. apply lookup_delete_ne. set_solver.
Qed.

Lemma loads_has {B} name w (k : bool → Load B) N (R : B → Prop) :
  name ∈ N → loads (k (bool_decide (is_Some (w !! name)))) N w R → loads (l_bind (has_tensor name) k) N w R.
Proof. intros Hn H s Hs. unfold l_bind, has_tensor. rewrite (Hs name Hn). exact (H s Hs). Qed.
End loader.

Section checkpoint.
Context {T E G Q : Type} `{!TensorLib T, !NdOps T, !SameLib T, !Scalars E, !Elements T E, !LawfulNd T E, !LawfulScalars E, !MaskLaws E}.
#[local] Abbreviation den := (den (T := T) (E := E)).

(** ** What a dense projection computes *)
Definition mat_den (t : T) (b a : nat) (w : nat → list E) : Prop :=
  den t T_F32 [b; a] (λ i, match i with [o; j] => at_ (w o) j | _ => e_zero end) ∧ ∀ o, o < b → length (w o) = a.
Definition vec_den (t : T) (a : nat) (v : list E) : Prop :=
  den t T_F32 [a] (λ i, at_ v (default 0 (i !! 0))) ∧ length v = a.

Lemma unquantized_is_fp w b a x : n_dims w = [b; a] → unquantized_apply w a b x = forward_fp x w.
Proof using All.
  intros Hd. unfold unquantized_apply, linear_rows, forward_fp, dim_minus1, dim_minus2, minus1, n_dim. rewrite Hd.
  cbn [length lookup list_lookup result_bind]. rewrite same_dims, same_reshape, same_t. destruct (n_reshape x _) as [y|]; [| done].
  cbn [result_bind]. destruct (n_t w) as [z|]; [| done]. cbn [result_bind]. rewrite same_matmul. destruct (n_matmul y z) as [u|]; [| done].
  cbn [result_bind]. by rewrite same_reshape.
Qed.

(** ** Projections and norms *)
#[local] Abbreviation Load := (Load (T := T) (G := G)).
#[local] Abbreviation loads := (loads (T := T) (G := G)).
Context (g_dims : G → list nat) (from_arc : G → result Q string) (q_forward : Q → T → result T TensorError).
Context (log2 exp2 : f32 → f32) (powi : f32 → Z → f32) (f8_from_f32 : f32 → N) (f8_from_bits : N → f32).
Context (powf : f64 → f64 → f64) (show : nat → string) (q_show : QError → string).
#[local] Abbreviation load_linear := (load_linear (T := T) g_dims from_arc q_forward log2 exp2 powi f8_from_f32 f8_from_bits q_show).
#[local] Abbreviation load_layer := (load_layer (T := T) g_dims from_arc q_forward log2 exp2 powi f8_from_f32 f8_from_bits show q_show).

Definition has_mat (w : gmap string T) (name : string) (b a : nat) (W : nat → list E) : Prop :=
  ∃ t, w !! name = Some t ∧ mat_den t b a W.
Definition has_vec (w : gmap string T) (name : string) (a : nat) (v : list E) : Prop :=
  ∃ t, w !! name = Some t ∧ vec_den t a v.

(** A projection that computes the rows of the matrix. *)
Definition dense_linear (b a : nat) (W : nat → list E) (l : Linear) : Prop :=
  acts (linear_forward show l) a b (dense_row W b) ∧ is_quantized l = false.

Lemma method_dense w b a W : mat_den w b a W →
  dense_linear b a W (from_method (method_of q_forward f8_from_bits q_show (LUnquantized w a b))).
Proof using All.
  intros [Hw Hl]. split; [| done]. destruct (forward_fp_rowwise w a b W Hw Hl) as [HF H]. split; [done |]. intros x d f Hx.
  destruct (H x d f Hx) as (y & Ey & Hy). exists y. split; [| done]. unfold linear_forward. cbn [li_weight from_method].
  unfold method_of. cbn [lm_apply method_apply]. rewrite (unquantized_is_fp w b a x (proj1 Hw)), Ey. done.
Qed.

Lemma loads_linear w p q schema b a W : factory_from_config q schema = Ok UnquantizedFactory →
  w !! (p +:+ ".qweight") = None → has_mat w (p +:+ ".weight") b a W →
  loads (load_linear p q schema) [p +:+ ".qweight"; p +:+ ".weight"] w (dense_linear b a W).
Proof using All.
  intros Hf Hq (t & Ht & Hm). unfold LlamaLoad.load_linear. apply loads_has; [set_solver |]. rewrite Hq.
  rewrite bool_decide_eq_false_2 by (by intros [? ?]). apply (loads_try _ _ _ _ _ _ Hf). cbn [build_linear].
  intros s Hs. unfold l_bind, build_unquantized, l_bind. specialize (Hs (p +:+ ".weight") ltac:(set_solver)). rewrite Ht in Hs.
  unfold remove_tensor. rewrite Hs. pose proof Hm as [(Dt & _ & _) _]. unfold unquantized_new. rewrite same_dims, Dt. cbn [rev app].
  eexists _, _. split; [done |]. split; [by apply method_dense |]. intros n Hn. cbn. apply lookup_delete_ne. set_solver.
Qed.

Lemma loads_norm w name a v : has_vec w name a v →
  loads (load_norm name) [name] w (λ n, rowwise (rms_forward n) a a (rms_row v rms_norm_eps)).
Proof using All.
  intros (t & Ht & Hv & Hl). unfold load_norm. apply (loads_names _ ([name] ++ [])); [done |].
  apply (loads_bind _ _ _ _ _ _ _ (loads_remove name w t Ht)); [| set_solver]. intros x ->. apply loads_ret.
  by apply rms_rowwise.
Qed.

(** ** A layer *)
Context (show_inj : ∀ i j, show i = show j → i = j) (show_nodot : ∀ i, has_dot (show i) = false).

Record LayerWeights : Type := mkLayerWeights {
  ck_q : nat → list E;
  ck_k : nat → list E;
  ck_v : nat → list E;
  ck_o : nat → list E;
  ck_gate : nat → list E;
  ck_up : nat → list E;
  ck_down : nat → list E;
  ck_input : list E;
  ck_post : list E;
}.

Definition names_of (i : nat) (S : list string) : list string := layer_name show i <$> S.
Definition fresh_from (S S' : list string) : bool := forallb (λ s, negb (existsb (String.eqb s) S')) S.

Lemma names_fresh i S S' : fresh_from S S' = true → ∀ n, n ∈ names_of i S → n ∉ names_of i S'.
Proof using All.
  intros Hf n (s & -> & Hs)%list_elem_of_fmap (s' & E1 & Hs')%list_elem_of_fmap.
  apply (layer_name_inj show show_inj show_nodot) in E1 as [_ <-].
  unfold fresh_from in Hf. rewrite forallb_forall in Hf. specialize (Hf s (proj1 (list_elem_of_In _ _) Hs)).
  apply negb_true_iff in Hf. apply not_true_iff_false in Hf. apply Hf, existsb_exists. exists s.
  split; [by apply list_elem_of_In | by apply String.eqb_eq].
Qed.

Lemma loads_bind_layer {A B} i (m : Load A) (k : A → Load B) S S' w (P : A → Prop) (R : B → Prop) :
  loads m (names_of i S) w P → (∀ a, P a → loads (k a) (names_of i S') w R) → fresh_from S S' = true →
  loads (l_bind m k) (names_of i (S ++ S')) w R.
Proof using All.
  intros Hm Hk Hf. unfold names_of. rewrite fmap_app. apply (loads_bind _ _ _ _ _ _ _ Hm Hk). by apply names_fresh.
Qed.

(** The name of a projection in a layer, as the loader writes it. *)
Lemma name_eq i a b : (("model.layers." +:+ show i) +:+ String dot_char a) +:+ b = layer_name show i (a +:+ b).
Proof. unfold layer_name. by rewrite !string_app_assoc. Qed.

Definition proj_names (a : string) : list string := [a +:+ ".qweight"; a +:+ ".weight"].

Lemma loads_layer_linear w i a q schema r c W : factory_from_config q schema = Ok UnquantizedFactory →
  w !! layer_name show i (a +:+ ".qweight") = None → has_mat w (layer_name show i (a +:+ ".weight")) r c W →
  loads (load_linear (("model.layers." +:+ show i) +:+ String dot_char a) q schema) (names_of i (proj_names a)) w (dense_linear r c W).
Proof using All.
  intros Hf Hq Hm. eapply loads_names; [| apply (loads_linear w _ q schema r c W Hf); rewrite name_eq; done].
  by rewrite !name_eq.
Qed.

Lemma loads_layer_norm w i a v n : has_vec w (layer_name show i a) n v →
  loads (load_norm (("model.layers." +:+ show i) +:+ String dot_char a)) (names_of i [a]) w (λ x, rowwise (rms_forward x) n n (rms_row v rms_norm_eps)).
Proof using All.
  intros Hv. assert (("model.layers." +:+ show i) +:+ String dot_char a = layer_name show i a) as -> by (unfold layer_name; by rewrite string_app_assoc).
  by apply loads_norm.
Qed.

Section config.
Context (config : ModelConfig) (schema : option QuantSchema).
Let hidden := mc_hidden_size config.
Let kvh := mc_num_kv_heads config.
Let rep := mc_num_attention_heads config / kvh.
Let half := mc_head_dim config / 2.

(** The shape conditions of grouped attention and rotary embeddings. *)
Record config_ok : Prop := {
  ok_heads : mc_num_attention_heads config = kvh * rep;
  ok_kv : kvh ≠ 0;
  ok_rep : rep ≠ 0;
  ok_half : mc_head_dim config = half + half;
  ok_factory : factory_from_config (mc_quantization config) schema = Ok UnquantizedFactory;
  ok_vocab : (N.of_nat (mc_vocab_size config) <= u32_max)%N;
  ok_max : (N.of_nat (mc_max_model_len config) <= u32_max)%N;
}.

Definition layer_fn (ck : LayerWeights) : LayerFn (E := E) :=
  let d := mc_head_dim config in
  mkLayerFn
    (mkAttnRows (dense_row (ck_q ck) (kvh * rep * d)) (dense_row (ck_k ck) (kvh * d)) (dense_row (ck_v ck) (kvh * d))
      (dense_row (ck_o ck) hidden) (λ l, l) (λ l, l) kvh rep half
      (λ p k, e_cast T_F64 T_F32 (e_cos (angle powf d (mc_rope_theta config) p k)))
      (λ p k, e_cast T_F64 T_F32 (e_sin (angle powf d (mc_rope_theta config) p k))))
    (mlp_row (dense_row (ck_gate ck) (mc_intermediate_size config)) (dense_row (ck_up ck) (mc_intermediate_size config))
      (dense_row (ck_down ck) hidden))
    (rms_row (ck_input ck) rms_norm_eps) (rms_row (ck_post ck) rms_norm_eps).

(** The tensors of layer [i]. *)
Record holds_layer (w : gmap string T) (i : nat) (ck : LayerWeights) : Prop := {
  hl_unpacked : ∀ a, a ∈ ["self_attn.q_proj"; "self_attn.k_proj"; "self_attn.v_proj"; "self_attn.o_proj";
                          "mlp.gate_proj"; "mlp.up_proj"; "mlp.down_proj"] → w !! layer_name show i (a +:+ ".qweight") = None;
  hl_q : has_mat w (layer_name show i "self_attn.q_proj.weight") (kvh * rep * mc_head_dim config) hidden (ck_q ck);
  hl_k : has_mat w (layer_name show i "self_attn.k_proj.weight") (kvh * mc_head_dim config) hidden (ck_k ck);
  hl_v : has_mat w (layer_name show i "self_attn.v_proj.weight") (kvh * mc_head_dim config) hidden (ck_v ck);
  hl_o : has_mat w (layer_name show i "self_attn.o_proj.weight") hidden (kvh * rep * mc_head_dim config) (ck_o ck);
  hl_gate : has_mat w (layer_name show i "mlp.gate_proj.weight") (mc_intermediate_size config) hidden (ck_gate ck);
  hl_up : has_mat w (layer_name show i "mlp.up_proj.weight") (mc_intermediate_size config) hidden (ck_up ck);
  hl_down : has_mat w (layer_name show i "mlp.down_proj.weight") hidden (mc_intermediate_size config) (ck_down ck);
  hl_input : has_vec w (layer_name show i "input_layernorm.weight") hidden (ck_input ck);
  hl_post : has_vec w (layer_name show i "post_attention_layernorm.weight") hidden (ck_post ck);
}.

Definition layer_suffixes : list string :=
  proj_names "self_attn.q_proj" ++ proj_names "self_attn.k_proj" ++ proj_names "self_attn.v_proj" ++ proj_names "self_attn.o_proj"
  ++ proj_names "mlp.gate_proj" ++ proj_names "mlp.up_proj" ++ proj_names "mlp.down_proj"
  ++ ["input_layernorm.weight"] ++ ["post_attention_layernorm.weight"] ++ [].

Lemma bind_proj {B} w i a r c W (k : Linear → Load B) S (R : B → Prop) : config_ok →
  w !! layer_name show i (a +:+ ".qweight") = None → has_mat w (layer_name show i (a +:+ ".weight")) r c W →
  fresh_from (proj_names a) S = true → (∀ l, dense_linear r c W l → loads (k l) (names_of i S) w R) →
  loads (l_bind (load_linear (("model.layers." +:+ show i) +:+ String dot_char a) (mc_quantization config) schema) k)
    (names_of i (proj_names a ++ S)) w R.
Proof using All.
  intros Hc Hq Hm Hf Hk. apply (loads_bind_layer i _ _ _ _ w (dense_linear r c W)); [| done | done].
  by apply (loads_layer_linear w i a _ _ r c W (ok_factory Hc)).
Qed.

Lemma bind_norm {B} w i a n v (k : RmsNorm → Load B) S (R : B → Prop) : has_vec w (layer_name show i a) n v →
  fresh_from [a] S = true → (∀ x, rowwise (rms_forward x) n n (rms_row v rms_norm_eps) → loads (k x) (names_of i S) w R) →
  loads (l_bind (load_norm (("model.layers." +:+ show i) +:+ String dot_char a)) k) (names_of i ([a] ++ S)) w R.
Proof using All. intros Hv Hf Hk. apply (loads_bind_layer i _ _ _ _ w _ _ (loads_layer_norm w i a v n Hv)); done. Qed.

Lemma loads_layer w i ck : config_ok → holds_layer w i ck →
  loads (load_layer config schema i) (names_of i layer_suffixes) w (λ r, layer_is show r.1 (layer_fn ck) hidden ∧ r.2 = 0).
Proof using All.
  intros Hc Hw. assert (Hu := hl_unpacked _ _ _ Hw). unfold LlamaLoad.load_layer, layer_suffixes. cbv zeta.
  apply (bind_proj w i "self_attn.q_proj" _ _ _ _ _ _ Hc (Hu "self_attn.q_proj"%string ltac:(set_solver)) (hl_q _ _ _ Hw)); [done |]. intros q [Hq Eq].
  apply (bind_proj w i "self_attn.k_proj" _ _ _ _ _ _ Hc (Hu "self_attn.k_proj"%string ltac:(set_solver)) (hl_k _ _ _ Hw)); [done |]. intros k [Hk Ek].
  apply (bind_proj w i "self_attn.v_proj" _ _ _ _ _ _ Hc (Hu "self_attn.v_proj"%string ltac:(set_solver)) (hl_v _ _ _ Hw)); [done |]. intros v [Hv Ev].
  apply (bind_proj w i "self_attn.o_proj" _ _ _ _ _ _ Hc (Hu "self_attn.o_proj"%string ltac:(set_solver)) (hl_o _ _ _ Hw)); [done |]. intros o [Ho Eo].
  apply (bind_proj w i "mlp.gate_proj" _ _ _ _ _ _ Hc (Hu "mlp.gate_proj"%string ltac:(set_solver)) (hl_gate _ _ _ Hw)); [done |]. intros g [Hg Eg].
  apply (bind_proj w i "mlp.up_proj" _ _ _ _ _ _ Hc (Hu "mlp.up_proj"%string ltac:(set_solver)) (hl_up _ _ _ Hw)); [done |]. intros u [Hup Eu].
  apply (bind_proj w i "mlp.down_proj" _ _ _ _ _ _ Hc (Hu "mlp.down_proj"%string ltac:(set_solver)) (hl_down _ _ _ Hw)); [done |]. intros dn [Hd Ed].
  apply (bind_norm w i "input_layernorm.weight" _ _ _ _ _ (hl_input _ _ _ Hw)); [done |]. intros n1 Hn1.
  apply (bind_norm w i "post_attention_layernorm.weight" _ _ _ _ _ (hl_post _ _ _ Hw)); [done |]. intros n2 Hn2.
  apply loads_ret. split.
  - split; [| by apply (mlp_acts show _ hidden (mc_intermediate_size config)) | done | done].
    split; unfold aw_heads, aw_d; cbn [lr_attn layer_fn aw_q aw_k aw_v aw_o aw_qn aw_kn aw_kv_heads aw_rep aw_half self_attn fst
      from_linears q_proj k_proj v_proj o_proj q_norm k_norm at_num_heads at_num_kv_heads at_head_dim];
      rewrite <- ?(ok_half Hc); try done; try apply norm_none; [apply (ok_heads Hc) | split; [apply (ok_kv Hc) | apply (ok_rep Hc)]].
  - unfold count_quantized. cbn [snd]. by rewrite !filter_cons_False by congruence.
Qed.

(** ** The model *)
Record Checkpoint : Type := mkCheckpoint {
  cp_embed : nat → list E;
  cp_layers : list LayerWeights;
  cp_norm : list E;
  cp_head : option (nat → list E);
}.

(** The language model of the checkpoint; without a head of its own it uses the embedding. *)
Definition checkpoint_fn (cp : Checkpoint) : ModelFn (T := T) (E := E) :=
  mkModelFn (mc_vocab_size config) (cp_embed cp) (causal <$> (layer_fn <$> cp_layers cp)) (rms_row (cp_norm cp) rms_norm_eps)
    (dense_row (default (cp_embed cp) (cp_head cp)) (mc_vocab_size config)).

Record checkpoint_in (w : gmap string T) (cp : Checkpoint) : Prop := {
  ci_embed : has_mat w "model.embed_tokens.weight" (mc_vocab_size config) hidden (cp_embed cp);
  ci_unpacked : w !! "lm_head.qweight"%string = None;
  ci_head : match cp_head cp with
            | Some W => has_mat w "lm_head.weight" (mc_vocab_size config) hidden W
            | None => w !! "lm_head.weight"%string = None
            end;
  ci_layers : ∀ i ck, cp_layers cp !! i = Some ck → holds_layer w i ck;
  ci_num_layers : length (cp_layers cp) = mc_num_layers config;
  ci_norm : has_vec w "model.norm.weight" hidden (cp_norm cp);
}.

Fixpoint all_names (i n : nat) : list string :=
  match n with 0 => [] | S n => names_of i layer_suffixes ++ all_names (S i) n end.

Lemma all_names_elem n : ∀ i x, x ∈ all_names i n → ∃ j s, i ≤ j ∧ x = layer_name show j s.
Proof using All.
  induction n as [|n IH]; intros i x; cbn [all_names]; [by intros ?%not_elem_of_nil |].
  intros [(s & -> & _)%list_elem_of_fmap | (j & s & Hj & ->)%IH]%elem_of_app; [by exists i, s | exists j, s; split; [lia | done]].
Qed.

#[local] Abbreviation load_layers := (load_layers (T := T) g_dims from_arc q_forward log2 exp2 powi f8_from_f32 f8_from_bits show q_show).
#[local] Abbreviation load_head := (load_head (T := T) g_dims from_arc q_forward log2 exp2 powi f8_from_f32 f8_from_bits q_show).

Lemma loads_layers w : config_ok → ∀ cks i, (∀ k ck, cks !! k = Some ck → holds_layer w (i + k) ck) →
  loads (load_layers config schema i (length cks)) (all_names i (length cks)) w
    (λ r, Forall2 (λ l L, layer_is show l L hidden) r.1 (layer_fn <$> cks) ∧ r.2 = 0).
Proof using All.
  intros Hc. induction cks as [|ck cks IH]; intros i H; [by apply loads_ret |]. cbn [length LlamaLoad.load_layers all_names].
  eapply loads_bind; [apply (loads_layer w i ck Hc); rewrite <- (Nat.add_0_r i); by apply H | |].
  - intros [l c] [Hl Hc0]. cbn [fst snd] in *. apply (loads_names _ (all_names (S i) (length cks) ++ [])); [apply app_nil_r |].
    eapply loads_bind; [apply IH; intros k ck' Hk; rewrite Nat.add_succ_comm; by apply H | | intros; apply not_elem_of_nil].
    intros [ls cs] [Hls Hcs]. apply loads_ret. cbn [fst snd fmap list_fmap] in *. split; [by apply Forall2_cons | lia].
  - intros n (s & -> & _)%list_elem_of_fmap (j & s' & Hj & E1)%all_names_elem.
    apply (layer_name_inj show show_inj show_nodot) in E1 as [-> _]. lia.
Qed.

Lemma loads_head w cp t : config_ok → checkpoint_in w cp → mat_den t (mc_vocab_size config) hidden (cp_embed cp) →
  loads (load_head config schema t) ["lm_head.qweight"; "lm_head.weight"]%string w
    (dense_linear (mc_vocab_size config) hidden (default (cp_embed cp) (cp_head cp))).
Proof using All.
  intros Hc Hw Ht. unfold LlamaLoad.load_head. apply loads_has; [set_solver |]. apply loads_has; [set_solver |].
  rewrite (ci_unpacked _ _ Hw). rewrite bool_decide_eq_false_2 by (by intros [? ?]). cbn [orb].
  pose proof (ci_head _ _ Hw) as Hh. destruct (cp_head cp) as [W|].
  - pose proof Hh as (t' & Et & _). rewrite Et. rewrite bool_decide_eq_true_2 by (by eexists). cbn [default].
    apply (loads_linear w "lm_head" _ schema _ _ W (ok_factory Hc) (ci_unpacked _ _ Hw) Hh).
  - rewrite Hh. rewrite bool_decide_eq_false_2 by (by intros [? ?]). intros s _. eexists _, s. split; [done |]. split; [| done].
    split; [| done]. by apply (linear_dense_acts show t None None _ _ _ (proj1 Ht) (proj2 Ht)).
Qed.

#[local] Abbreviation llama_new := (llama_new (T := T) g_dims from_arc q_forward log2 exp2 powi f8_from_f32 f8_from_bits powf show q_show).

Definition model_names (n : nat) : list string :=
  ["model.embed_tokens.weight"] ++ ["lm_head.qweight"; "lm_head.weight"] ++ all_names 0 n ++ ["model.norm.weight"] ++ [].

Lemma not_layer_name n x : (∀ j s, x ≠ layer_name show j s) → x ∉ all_names 0 n.
Proof using All. intros H (j & s & _ & E1)%all_names_elem. by apply (H j s). Qed.

Lemma loads_model w cp : config_ok → checkpoint_in w cp →
  loads (llama_new config schema) (model_names (mc_num_layers config)) w (λ m,
    model_is show hidden (mc_max_model_len config) (mc_vocab_size config) m (checkpoint_fn cp)
    ∧ length (Llama.layers m) = mc_num_layers config ∧ quantized_layer_count m = 0).
Proof using All.
  intros Hc Hw. unfold LlamaLoad.llama_new, model_names. apply (loads_try _ _ _ _ _ _ (ok_factory Hc)).
  destruct (ci_embed _ _ Hw) as (et & Eet & Het).
  eapply loads_bind; [apply (loads_remove _ _ _ Eet) | |]; cycle 1.
  { intros n ->%list_elem_of_singleton. rewrite !not_elem_of_app. split; [set_solver | split; [by apply not_layer_name | set_solver]]. }
  intros x ->. eapply loads_bind; [by apply (loads_head w cp et Hc Hw) | |]; cycle 1.
  { intros n Hn. rewrite !not_elem_of_app. split; [apply not_layer_name | set_solver]. intros j s ->. set_solver. }
  intros head [Hhead Hhq]. rewrite <- (ci_num_layers _ _ Hw).
  eapply loads_bind; [apply (loads_layers w Hc (cp_layers cp) 0); intros k ck Hk; by apply (ci_layers _ _ Hw) | |]; cycle 1.
  { intros n (j & s & _ & ->)%all_names_elem. set_solver. }
  intros [ls cs] [Hls Hcs]. cbn [fst snd] in *. eapply loads_bind; [apply (loads_norm w _ _ _ (ci_norm _ _ Hw)) | |]; [| set_solver].
  intros nm Hnm.
  destruct (rope_new_holds (T := T) (E := E) powf half (mc_max_model_len config) (mc_rope_theta config) (ok_max Hc)) as (rp & Erp & Hrp).
  rewrite <- (ok_half Hc) in Erp, Hrp. eapply loads_try; [by rewrite Erp |]. apply loads_ret.
  split; [| split; [cbn; by rewrite (Forall2_length _ _ _ Hls), length_fmap |]].
  - split; cbn [embed_tokens Llama.layers norm lm_head rope checkpoint_fn mf_vocab mf_embed mf_layers mf_norm mf_head].
    + exists et. split; [done |]. split; [apply Het | apply Het | apply (ok_vocab Hc)].
    + apply (ok_max Hc).
    + exists (layer_fn <$> cp_layers cp). split; [done |]. apply Forall2_fmap_r in Hls. apply Forall2_fmap_r, (Forall2_impl _ _ _ _ Hls). intros l ck Hl. split; [exact Hl | exact Hrp].
    + exact Hnm.
    + exact Hhead.
  - cbn [quantized_layer_count]. unfold count_quantized. by rewrite filter_cons_False by congruence.
Qed.

(** From a checkpoint to tokens.  When the weights hold a dense checkpoint of the
    configured shapes, loading succeeds, touches no tensor outside the names of
    the layout, and the loaded model's greedy generation, from any prompt of
    known tokens that fits, extends the prompt token by token with the last of
    the greatest logits of the language model the checkpoint describes, up to
    [max_tokens] tokens in all, without error or panic. *)
Theorem checkpoint_generates s cp : config_ok → checkpoint_in (weights s) cp → mc_vocab_size config ≠ 0 →
  ∃ m s', llama_new config schema s = Some (Ok m, s')
    ∧ (∀ n, n ∉ model_names (mc_num_layers config) → weights s' !! n = weights s !! n)
    ∧ ∀ prompt max_tokens, prompt ≠ [] → Forall (λ t, N.to_nat t < mc_vocab_size config) prompt →
        length prompt ≤ mc_max_model_len config → max_tokens ≤ mc_max_model_len config →
        generate show m (mc_num_layers config) prompt max_tokens
        = Some (Ok (greedy (checkpoint_fn cp) greedy_choice (max_tokens - length prompt) prompt)).
Proof using All.
  intros Hc Hw Hv. destruct (loads_model _ cp Hc Hw s) as (m & s' & Em & (Hm & Hn & _) & Hs'); [done |].
  exists m, s'. split; [exact Em |]. split; [exact Hs' |]. intros prompt max_tokens Hne Hp Hl Hmt. rewrite <- Hn.
  by apply (generate_is_greedy show hidden (mc_max_model_len config) (mc_vocab_size config) m (checkpoint_fn cp)).
Qed.
End config.
End checkpoint.

(** ** A small checkpoint *)
#[local] Existing Instance up_rounding.

(** The other interface, over the same host tensors. *)
#[local] Instance exact_lib : TensorLib (NdHost Exact) := {
  t_dims := n_dims;
  t_dtype := n_dtype;
  t_to_dtype := n_to_dtype;
  t_flatten_all := n_flatten_all;
  t_to_vec1_f32 t := Ok (e_to_f32 <$> nh_data t);
  t_to_vec1_u8 t := Ok (e_to_u32 <$> nh_data t);
  t_to_vec1_f8 t := Ok (e_to_u32 <$> nh_data t);
  t_to_vec2_f32 := n_to_vec2_f32;
  t_from_f32 := n_from_f32;
  t_from_u8 := n_from_u32;
  t_reshape := n_reshape;
  t_t := n_t;
  t_matmul := n_matmul;
  t_broadcast_sub := n_sub;
  t_broadcast_mul := n_broadcast_mul;
}.

#[local] Instance exact_same : SameLib (NdHost Exact).
Proof. by split. Qed.

Fixpoint strokes (n : nat) : string := match n with 0 => "" | S n => ("1" +:+ strokes n)%string end.

Definition small_config : ModelConfig :=
  mkModelConfig "small" "LlamaForCausalLM" 3 2 1 2 2 1 2 8 F32.one None DT_F32 None TM_Auto.

Definition small_layer : LayerWeights (E := Exact) :=
  mkLayerWeights (mat_row 2 [1; 0; 0; 1; 1; 1; 1; -1]%Z) (mat_row 2 [1; 0; 1; 1]%Z) (mat_row 2 [0; 1; 1; 0]%Z)
    (mat_row 4 [1; 0; 0; 1; 0; 1; 1; 0]%Z) (mat_row 2 [1; 1]%Z) (mat_row 2 [1; -1]%Z) (mat_row 1 [1; -1]%Z)
    (real <$> [1; 1]%Z) (real <$> [1; 2]%Z).

(** Two layers with the same weights; the head is the embedding. *)
Definition small_checkpoint : Checkpoint (E := Exact) :=
  mkCheckpoint (mat_row 2 [1; 0; 0; 1; 1; 1]%Z) [small_layer; small_layer] (real <$> [1; 1]%Z) None.

(** Names, shapes and elements. *)
Definition small_layer_data (i : nat) : list (string * (list nat * list Z)) :=
  [(layer_name strokes i "self_attn.q_proj.weight", ([4; 2], [1; 0; 0; 1; 1; 1; 1; -1]%Z));
   (layer_name strokes i "self_attn.k_proj.weight", ([2; 2], [1; 0; 1; 1]%Z));
   (layer_name strokes i "self_attn.v_proj.weight", ([2; 2], [0; 1; 1; 0]%Z));
   (layer_name strokes i "self_attn.o_proj.weight", ([2; 4], [1; 0; 0; 1; 0; 1; 1; 0]%Z));
   (layer_name strokes i "mlp.gate_proj.weight", ([1; 2], [1; 1]%Z));
   (layer_name strokes i "mlp.up_proj.weight", ([1; 2], [1; -1]%Z));
   (layer_name strokes i "mlp.down_proj.weight", ([2; 1], [1; -1]%Z));
   (layer_name strokes i "input_layernorm.weight", ([2], [1; 1]%Z));
   (layer_name strokes i "post_attention_layernorm.weight", ([2], [1; 2]%Z))].
Definition small_data : list (string * (list nat * list Z)) :=
  [("model.embed_tokens.weight"%string, ([3; 2], [1; 0; 0; 1; 1; 1]%Z)); ("model.norm.weight"%string, ([2], [1; 1]%Z))]
  ++ small_layer_data 0 ++ small_layer_data 1.
Definition small_entries : list (string * NdHost Exact) :=
  (λ e : string * (list nat * list Z), (e.1, mkNdHost e.2.1 T_F32 (real <$> e.2.2))) <$> small_data.
Definition small_weights : gmap string (NdHost Exact) := list_to_map small_entries.

#[local] Ltac small_mat := eexists; split; [vm_compute; reflexivity | split; [split_and!; vm_compute; reflexivity |]];
  intros o Ho; do 4 (destruct o as [|o]; [first [vm_compute; reflexivity | vm_compute in Ho; lia] |]); vm_compute in Ho; lia.
#[local] Ltac small_vec := eexists; split; [vm_compute; reflexivity | split; [split_and!; vm_compute; reflexivity | vm_compute; reflexivity]].

Lemma small_layer_in i : i < 2 → holds_layer strokes small_config small_weights i small_layer.
Proof.
  intros Hi. assert (i = 0 ∨ i = 1) as [-> | ->] by lia; split; try small_mat; try small_vec;
    intros a Ha; repeat (apply elem_of_cons in Ha as [-> | Ha]; [vm_compute; reflexivity |]); by apply not_elem_of_nil in Ha.
Qed.

Lemma strokes_inj i : ∀ j, strokes i = strokes j → i = j.
Proof. induction i as [|i IH]; intros [|j] H; [done | done | done |]. injection H as H. by rewrite (IH j H). Qed.

Lemma strokes_nodot i : has_dot (strokes i) = false.
Proof. induction i as [|i IH]; [done |]. exact IH. Qed.

Lemma small_checkpoint_in : checkpoint_in strokes small_config small_weights small_checkpoint.
Proof.
  split; [small_mat | vm_compute; reflexivity | vm_compute; reflexivity | | reflexivity | small_vec].
  intros [|[|i]] ck Hck; cbn in Hck; [| | done]; injection Hck as <-; apply small_layer_in; lia.
Qed.

Lemma small_config_ok : config_ok small_config None.
Proof. split; vm_compute; (reflexivity || discriminate). Qed.

(** The loaded model generates three tokens. *)
Lemma checkpoint_generates_witness :
  ∃ m s', llama_new (Q := unit) (λ _ : unit, []) (λ _, Err ""%string) (λ _ t, Ok t) id id (λ x _, x) (λ _, 0%N) (λ _, F32.zero)
      (λ _ _, F64.of_Z 1) strokes (λ _, ""%string) small_config None (mkWeightSource small_weights ∅ (Some ∅)) = Some (Ok m, s')
    ∧ ∃ ts, generate strokes m 2 [1%N; 2%N] 5 = Some (Ok ts) ∧ length ts = 5.
Proof.
  destruct (checkpoint_generates (T := NdHost Exact) (E := Exact) (Q := unit) (λ _ : unit, []) (λ _, Err ""%string) (λ _ t, Ok t) id id (λ x _, x)
    (λ _, 0%N) (λ _, F32.zero) (λ _ _, F64.of_Z 1) strokes (λ _, ""%string) strokes_inj strokes_nodot small_config None
    (mkWeightSource small_weights ∅ (Some ∅)) small_checkpoint small_config_ok small_checkpoint_in) as (m & s' & Em & _ & Hg); [done |].
  exists m, s'. split; [exact Em |].
  exists (greedy (checkpoint_fn (T := NdHost Exact) (λ _ _, F64.of_Z 1) small_config small_checkpoint) greedy_choice 3 [1%N; 2%N]). split; [| by rewrite length_greedy].
  apply (Hg [1%N; 2%N] 5); [done | repeat constructor; cbn; lia | cbn; lia | cbn; lia].
Defined.
