(* ===== verification/HfConfig.v ===== *)
(** * Model configurations (hf_config.rs, registry.rs, runner.rs)

    The configuration of a checkpoint is read from its [config.json]: defaults,
    normalized architecture, checks, data type and quantization.  A panic is
    [None]: it comes from a division by the number of heads before that number is
    checked, or from a sum or product of sizes past [usize::MAX].  The text is
    parsed by the library; an object without repeated keys is assumed (the library
    would also take an array of the fields in order). *)
From S2P Require Import Prelude F32 CoreTypes Json QuantMethod ServerConfig LlamaCheckpoint.
#[local] Open Scope list_scope.
#[local] Open Scope nat_scope.
#[local] Open Scope rllm_scope.

(** ** Reading the fields *)

(** An optional field of a derived deserializer: missing or null, of its type, or an error. *)
Definition read_opt {A} (read : Json → option A) (v : Json) (key : string) : option (option A) :=
  match json_get v key with
  | None | Some JNull => Some None
  | Some x => Some <$> read x
  end.

Definition json_usize (v : Json) : option nat := N.to_nat <$> json_u64 v.
Definition json_f64 (v : Json) : option f64 :=
  match v with
  | JNumber (PosInt n) => Some (F64.of_N n)
  | JNumber (NegInt z) => Some (F64.of_Z z)
  | JNumber (Float x) => Some x
  | _ => None
  end.
Definition json_strings (v : Json) : option (list string) := l ← json_array v; mapM json_str l.

Record HfQuantizationConfigJson : Type := mkHfQuant {
  hq_quant_method : option string;
  hq_bits : option nat;
  hq_group_size : option nat;
}.

Definition decode_quant (v : Json) : option HfQuantizationConfigJson :=
  _ ← json_object v;
  m ← read_opt json_str v "quant_method";
  b ← read_opt json_usize v "bits";
  g ← read_opt json_usize v "group_size";
  Some (mkHfQuant m b g).

(** The fields that are used; the others are only checked for their types. *)
Record HfConfigJson : Type := mkHfConfig {
  hf_model_type : option string;
  hf_architectures : option (list string);
  hf_vocab_size : option nat;
  hf_hidden_size : option nat;
  hf_intermediate_size : option nat;
  hf_num_hidden_layers : option nat;
  hf_num_attention_heads : option nat;
  hf_num_key_value_heads : option nat;
  hf_max_position_embeddings : option nat;
  hf_rope_theta : option f64;
  hf_torch_dtype : option string;
  hf_head_dim : option nat;
  hf_qk_rope_head_dim : option nat;
  hf_qk_nope_head_dim : option nat;
  hf_quantization_config : option Json;
}.

Definition decode_config (v : Json) : option HfConfigJson :=
  _ ← json_object v;
  model_type ← read_opt json_str v "model_type";
  architectures ← read_opt json_strings v "architectures";
  vocab_size ← read_opt json_usize v "vocab_size";
  hidden_size ← read_opt json_usize v "hidden_size";
  intermediate_size ← read_opt json_usize v "intermediate_size";
  num_hidden_layers ← read_opt json_usize v "num_hidden_layers";
  num_attention_heads ← read_opt json_usize v "num_attention_heads";
  num_key_value_heads ← read_opt json_usize v "num_key_value_heads";
  max_position_embeddings ← read_opt json_usize v "max_position_embeddings";
  rope_theta ← read_opt json_f64 v "rope_theta";
  torch_dtype ← read_opt json_str v "torch_dtype";
  head_dim ← read_opt json_usize v "head_dim";
  _ ← read_opt json_str v "hidden_act";
  _ ← read_opt json_f64 v "rms_norm_eps";
  _ ← read_opt json_usize v "q_lora_rank";
  _ ← read_opt json_usize v "kv_lora_rank";
  qk_rope_head_dim ← read_opt json_usize v "qk_rope_head_dim";
  qk_nope_head_dim ← read_opt json_usize v "qk_nope_head_dim";
  _ ← read_opt json_usize v "v_head_dim";
  _ ← read_opt json_usize v "n_routed_experts";
  _ ← read_opt json_usize v "n_shared_experts";
  _ ← read_opt json_usize v "num_experts_per_tok";
  quantization_config ← read_opt Some v "quantization_config";
  Some (mkHfConfig model_type architectures vocab_size hidden_size intermediate_size num_hidden_layers num_attention_heads
    num_key_value_heads max_position_embeddings rope_theta torch_dtype head_dim qk_rope_head_dim qk_nope_head_dim quantization_config).

(** ** Names *)
Definition among (s : string) (l : list string) : bool := existsb (String.eqb s) l.

Definition normalize_architecture (a : string) : string :=
  if among a ["llama"; "LlamaModel"; "LLaMAForCausalLM"] then "LlamaForCausalLM"
  else if among a ["mistral"; "MistralModel"] then "MistralForCausalLM"
  else if among a ["deepseek"; "deepseek_llm"; "DeepSeekForCausalLM"] then "DeepseekForCausalLM"
  else if among a ["deepseek_v2"; "DeepSeekV2ForCausalLM"] then "DeepseekV2ForCausalLM"
  else if among a ["deepseek_v3"; "DeepSeekV3ForCausalLM"] then "DeepseekV3ForCausalLM"
  else if among a ["deepseek_r1"; "DeepSeekR1ForCausalLM"; "DeepseekR1ForCausalLM"] then "DeepseekR1ForCausalLM"
  else if String.eqb a "qwen2" then "Qwen2ForCausalLM"
  else if String.eqb a "qwen2_moe" then "Qwen2MoeForCausalLM"
  else if String.eqb a "qwen3" then "Qwen3ForCausalLM"
  else if String.eqb a "qwen3_moe" then "Qwen3MoeForCausalLM"
  else a.

Definition native_deepseek (a : string) : bool :=
  among a ["DeepseekV2ForCausalLM"; "DeepseekV3ForCausalLM"; "DeepseekR1ForCausalLM"].
Definition independent_head_dim (a : string) : bool := native_deepseek a || among a ["Qwen3ForCausalLM"; "Qwen3MoeForCausalLM"].

(** ** Checks *)
Inductive HfError : Type :=
  | HfJson
  | HfHiddenSize
  | HfHeads
  | HfKvHeads (num_attention_heads num_kv_heads : nat)
  | HfHiddenDivisible (hidden_size num_attention_heads : nat)
  | HfHeadsDivisible (num_attention_heads num_kv_heads : nat)
  | HfHeadDim (head_dim expected : nat).

Definition validate_config (architecture : string) (hidden_size num_attention_heads num_kv_heads head_dim : nat) : result unit HfError :=
  require negb (hidden_size =? 0) else HfHiddenSize;
  require negb (num_attention_heads =? 0) else HfHeads;
  require negb ((num_kv_heads =? 0) || (num_attention_heads <? num_kv_heads)) else HfKvHeads num_attention_heads num_kv_heads;
  require negb (negb (independent_head_dim architecture) && negb (hidden_size mod num_attention_heads =? 0))
    else HfHiddenDivisible hidden_size num_attention_heads;
  require num_attention_heads mod num_kv_heads =? 0 else HfHeadsDivisible num_attention_heads num_kv_heads;
  require negb (negb (independent_head_dim architecture) && negb (head_dim =? hidden_size / num_attention_heads))
    else HfHeadDim head_dim (hidden_size / num_attention_heads);
  Ok ().

Definition torch_dtype (t : option string) : DType :=
  match t with
  | None => DT_F16
  | Some t =>
      if among t ["float16"; "fp16"] then DT_F16
      else if among t ["bfloat16"; "bf16"] then DT_BF16
      else if among t ["float32"; "fp32"] then DT_F32
      else if String.eqb t "float8_e4m3fn" then FP8E4M3
      else if String.eqb t "float8_e5m2" then FP8E5M2
      else DT_F16
  end.

(** GPTQ and AWQ by their names, else what the schema makes of it. *)
Definition quantization_of (q_val : Json) : option QuantizationConfig :=
  let by_schema := to_core_config (from_hf_value q_val) in
  match decode_quant q_val with
  | Some q =>
      match hq_quant_method q with
      | Some quant_method =>
          let config kind := Some (mkQuantizationConfig kind (N.of_nat <$> hq_group_size q) (N.of_nat <$> hq_bits q)) in
          let m := to_lowercase quant_method in
          if String.eqb m "gptq" then config QK_GPTQ
          else if String.eqb m "awq" then config QK_AWQ
          else by_schema
      | None => by_schema
      end
  | None => by_schema
  end.

(** The sizes, or [None] for a division by no heads or an overflow. *)
Definition head_dim_of (native : bool) (hf : HfConfigJson) (hidden_size num_attention_heads : nat) : option nat :=
  if native then add_checked (default 0 (hf_qk_nope_head_dim hf)) (default 0 (hf_qk_rope_head_dim hf))
  else if num_attention_heads =? 0 then None
  else Some (default (hidden_size / num_attention_heads) (hf_head_dim hf)).

Definition config_of (hf : HfConfigJson) (dir : string) : option (result ModelConfig HfError) :=
  let architecture := normalize_architecture
    (default (default "unknown" (hf_model_type hf)) (hf_architectures hf ≫= head))%string in
  let hidden_size := default 4096 (hf_hidden_size hf) in
  let num_attention_heads := default 32 (hf_num_attention_heads hf) in
  let native := native_deepseek architecture in
  let num_kv_heads := if native then num_attention_heads else default num_attention_heads (hf_num_key_value_heads hf) in
  head_dim ← head_dim_of native hf hidden_size num_attention_heads;
  default_size ← usize_mul (N.of_nat hidden_size) 4; (* the argument of [unwrap_or], computed in any case *)
  let intermediate_size := default (N.to_nat default_size) (hf_intermediate_size hf) in
  Some (
    _ <-? validate_config architecture hidden_size num_attention_heads num_kv_heads head_dim;
    Ok (mkModelConfig dir architecture (default 32000 (hf_vocab_size hf)) hidden_size intermediate_size
      (default 32 (hf_num_hidden_layers hf)) num_attention_heads num_kv_heads head_dim
      (default 4096 (hf_max_position_embeddings hf)) (F64.to_f32 (default (F64.of_Z 10000) (hf_rope_theta hf))) None
      (torch_dtype (hf_torch_dtype hf)) (hf_quantization_config hf ≫= quantization_of) TM_Auto)).

(** [parse_hf_config], from the value of the file. *)
Definition parse_hf_config (v : Json) (dir : string) : option (result ModelConfig HfError) :=
  match decode_config v with
  | None => Some (Err HfJson)
  | Some hf => config_of hf dir
  end.

(** ** Dispatch *)

(** The model families, and what the runner makes of an architecture. *)
Inductive Family : Type := LlamaFamily | DeepseekFamily | QwenFamily.

Definition family (architecture : string) : option Family :=
  if among architecture ["LlamaForCausalLM"; "MistralForCausalLM"; "DeepseekForCausalLM"] then Some LlamaFamily
  else if native_deepseek architecture then Some DeepseekFamily
  else if among architecture ["Qwen2ForCausalLM"; "Qwen2MoeForCausalLM"; "Qwen3ForCausalLM"; "Qwen3MoeForCausalLM"] then Some QwenFamily
  else None.

(** The registry: a factory takes a configuration and, in this program, only says
    that weights are needed. *)
Definition ModelFactory (M : Type) : Type := ModelConfig → result M string.
Definition ModelRegistry (M : Type) : Type := gmap string (ModelFactory M).
Definition register {M} (r : ModelRegistry M) (architecture : string) (factory : ModelFactory M) : ModelRegistry M :=
  <[architecture := factory]> r.
Definition create {M} (r : ModelRegistry M) (architecture : string) (config : ModelConfig) : result M string :=
  match r !! architecture with
  | Some factory => factory config
  | None => Err ("unsupported architecture: " +:+ architecture)
  end.
Definition needs_weights {M} (name : string) : ModelFactory M := λ _, Err (name +:+ "::factory requires loaded weights").
Definition default_registry (M : Type) : ModelRegistry M :=
  foldl (λ r '(a, n), register r a (needs_weights n)) ∅
    [("LlamaForCausalLM", "LlamaForCausalLM"); ("MistralForCausalLM", "LlamaForCausalLM"); ("DeepseekForCausalLM", "LlamaForCausalLM");
     ("DeepseekV2ForCausalLM", "DeepseekForCausalLM"); ("DeepseekV3ForCausalLM", "DeepseekForCausalLM");
     ("DeepseekR1ForCausalLM", "DeepseekForCausalLM"); ("Qwen2ForCausalLM", "QwenForCausalLM"); ("Qwen2MoeForCausalLM", "QwenForCausalLM");
     ("Qwen3ForCausalLM", "QwenForCausalLM"); ("Qwen3MoeForCausalLM", "QwenForCausalLM")]%string.

(** No model is ever created through the default registry. *)
Lemma registry_creates_nothing M architecture config : ∃ e, create (default_registry M) architecture config = Err e.
Proof.
  assert (H : ∀ l (r : ModelRegistry M), (∀ a f, r !! a = Some f → ∃ n, f = needs_weights n) →
    ∀ a f, foldl (λ r '(a, n), register r a (needs_weights n)) r l !! a = Some f → ∃ n, f = needs_weights n).
  { induction l as [|[a n] l IH]; intros r Hr b f; cbn; [by apply Hr |]. apply IH. intros a' f'. unfold register.
    intros [[_ <-]|[_ H]]%(lookup_insert_Some (M := gmap string)); [by exists n | by apply (Hr a')]. }
  unfold create. destruct (default_registry M !! architecture) as [f|] eqn:Ef; [| by eexists].
  unfold default_registry in Ef. apply H in Ef as [n ->]; [by eexists | intros a g Hg; by apply (lookup_empty_Some (M := gmap string)) in Hg].
Qed.

(** ** What is accepted *)
Lemma validate_config_ok a hs h kv d : validate_config a hs h kv d = Ok () →
  hs ≠ 0 ∧ h ≠ 0 ∧ kv ≠ 0 ∧ h = kv * (h / kv) ∧ h / kv ≠ 0 ∧ (independent_head_dim a = false → hs = h * d).
Proof.
  unfold validate_config. destruct (Nat.eqb_spec hs 0) as [|Hhs]; [done |]. destruct (Nat.eqb_spec h 0) as [|Hh]; [done |].
  destruct (Nat.eqb_spec kv 0) as [|Hkv]; [done |]. destruct (Nat.ltb_spec h kv) as [|Hle]; [done |]. cbn [negb orb].
  destruct (independent_head_dim a) eqn:Ei; cbn [negb andb];
    [| destruct (Nat.eqb_spec (hs mod h) 0) as [Hm|]; cbn [negb]; [| done]];
    (destruct (Nat.eqb_spec (h mod kv) 0) as [Hk|]; [| done]);
    [intros _ | destruct (Nat.eqb_spec d (hs / h)) as [->|]; [intros _ | done]];
    pose proof (Nat.div_mod h kv Hkv) as Hdiv; split_and!; try done; try lia.
  all: try (intros E0; rewrite E0 in Hdiv; lia).
  intros _. pose proof (Nat.div_mod hs h Hh). lia.
Qed.

Definition requested_architecture (hf : HfConfigJson) : string :=
  normalize_architecture (default (default "unknown" (hf_model_type hf)) (hf_architectures hf ≫= head))%string.

(** A small grouped-query configuration. *)
Definition demo_config : Json := JObject
  [("architectures", JArray [JString "LlamaModel"]); ("hidden_size", JNumber (PosInt 64)); ("num_attention_heads", JNumber (PosInt 8));
   ("num_key_value_heads", JNumber (PosInt 2)); ("vocab_size", JNumber (PosInt 100)); ("rope_theta", JNumber (PosInt 500000));
   ("torch_dtype", JString "bfloat16")].
Definition demo_hf : HfConfigJson :=
  mkHfConfig None (Some ["LlamaModel"]) (Some 100) (Some 64) None None (Some 8) (Some 2) None (Some (F64.of_N 500000)) (Some "bfloat16")
    None None None None.

(** Model configurations.  Reading a configuration panics exactly when it sets the
    number of heads to zero for an architecture whose head size may be derived, or
    the sum of the two head sizes of the others, or four times the hidden size,
    leaves [usize].
    What is accepted has query heads in whole groups per key head and, for the
    architectures with derived heads, rows of exactly the heads; and, when it is
    dense with an even head size and the sizes fit 32 bits, it satisfies the
    conditions under which the checkpoint loads and generates. *)
Theorem hf_config_exact v dir hf : decode_config v = Some hf →
  (parse_hf_config v dir = None
   ↔ (native_deepseek (requested_architecture hf) = false ∧ hf_num_attention_heads hf = Some 0)
     ∨ (native_deepseek (requested_architecture hf) = true
        ∧ (u64_max < N.of_nat (default 0%nat (hf_qk_nope_head_dim hf) + default 0%nat (hf_qk_rope_head_dim hf)))%N)
     ∨ (u64_max < N.of_nat (default 4096%nat (hf_hidden_size hf)) * 4)%N)
  ∧ ∀ c, parse_hf_config v dir = Some (Ok c) →
      mc_architecture c = requested_architecture hf
      ∧ mc_num_kv_heads c ≠ 0 ∧ mc_num_attention_heads c = mc_num_kv_heads c * (mc_num_attention_heads c / mc_num_kv_heads c)
      ∧ (independent_head_dim (mc_architecture c) = false → mc_hidden_size c = mc_num_attention_heads c * mc_head_dim c)
      ∧ (mc_quantization c = None → mc_head_dim c = mc_head_dim c / 2 + mc_head_dim c / 2 →
         (N.of_nat (mc_vocab_size c) <= u32_max)%N → (N.of_nat (mc_max_model_len c) <= u32_max)%N → config_ok c None).
Proof.
  intros Ev. unfold parse_hf_config. rewrite Ev. unfold config_of. fold (requested_architecture hf).
  set (a := requested_architecture hf). set (hs := default 4096 (hf_hidden_size hf)). set (h := default 32 (hf_num_attention_heads hf)).
  set (kv := if native_deepseek a then h else default h (hf_num_key_value_heads hf)). unfold head_dim_of. split.
  - assert (Hm : ∀ R (g : N → option R), (∀ x, g x ≠ None) → (usize_mul (N.of_nat hs) 4 ≫= g = None ↔ (u64_max < N.of_nat hs * 4)%N)).
    { intros R g Hg. unfold usize_mul. destruct (N.leb_spec (N.of_nat hs * 4) u64_max); cbn; split; intros H1; try done; try lia.
      by apply Hg in H1. }
    destruct (native_deepseek a) eqn:En.
    { destruct (add_checked_case (default 0 (hf_qk_nope_head_dim hf)) (default 0 (hf_qk_rope_head_dim hf))) as [[Hs ->]|[Hs ->]]; cbn [mbind option_bind].
      - rewrite Hm by done. split; [by right; right | intros [[? _]|[[_ ?]|?]]; [done | lia | done]].
      - split; [by right; left | done]. }
    assert (Hz : h = 0 ↔ hf_num_attention_heads hf = Some 0).
    { unfold h. destruct (hf_num_attention_heads hf) as [n|]; cbn; split; intros E0; congruence. }
    destruct (Nat.eqb_spec h 0) as [E0|E0]; cbn [mbind option_bind].
    + split; [intros _; left; tauto | done].
    + rewrite Hm by done. split; [by right; right | intros [[_ ?]|[[? _]|?]]; [tauto | done | done]].
  - intros c. set (hd := if native_deepseek a then add_checked _ _ else _). destruct hd as [d|]; [| done]. cbn [mbind option_bind].
    destruct (usize_mul (N.of_nat hs) 4) as [ds|]; [| done]. cbn [mbind option_bind]. intros [= Hc].
    destruct (validate_config a hs h kv d) as [[]|e] eqn:Hv; [| done]. cbn [result_bind] in Hc. injection Hc as <-.
    destruct (validate_config_ok _ _ _ _ _ Hv) as (Hhs & Hh & Hkv & Hdiv & Hrep & Hind).
    cbn [mc_architecture mc_num_kv_heads mc_num_attention_heads mc_hidden_size mc_head_dim mc_quantization mc_vocab_size mc_max_model_len].
    split_and!; [done | done | exact Hdiv | exact Hind |]. intros Hq Hev Hvo Hma. split;
      cbn [mc_architecture mc_num_kv_heads mc_num_attention_heads mc_hidden_size mc_head_dim mc_quantization mc_vocab_size mc_max_model_len];
      try assumption. by rewrite Hq.
Qed.

Lemma hf_config_exact_witness :
  decode_config demo_config = Some demo_hf
  ∧ (∃ c, parse_hf_config demo_config "m" = Some (Ok c) ∧ mc_head_dim c = 8 ∧ mc_num_attention_heads c = mc_num_kv_heads c * 4
      ∧ mc_architecture c = "LlamaForCausalLM"%string ∧ config_ok c None)
  ∧ parse_hf_config demo_config "m" ≠ None.
Proof.
  assert (Hd : decode_config demo_config = Some demo_hf) by (vm_compute; reflexivity). split; [exact Hd |].
  destruct (hf_config_exact demo_config "m" demo_hf Hd) as [Hn Hc]. split; [| rewrite Hn; intros [[_ ?]|[[? _]|H]]; [done | done | by vm_compute in H]].
  eexists. split; [vm_compute; reflexivity |]. do 3 (split; [reflexivity |]).
  eapply (Hc _); [vm_compute; reflexivity | reflexivity | reflexivity | vm_compute; discriminate | vm_compute; discriminate].
Defined.
