(* ===== verification/QwenConfig.v ===== *)
(** * The configuration of the Qwen models (qwen.rs)

    The fields of a Qwen [config.json] or of the metadata of a GGUF file, and the
    checks of [validate_fields] and [validate_core] in the order of the code.  The
    JSON text and the GGUF file are parsed by libraries; a [usize] is a natural
    number, bounded where the code checks that a product does not overflow. *)
From S2P Require Import Prelude F32 CoreTypes Json HfConfig.
#[local] Open Scope list_scope.
#[local] Open Scope nat_scope.
#[local] Open Scope rllm_scope.

Inductive QwenArchitecture : Type := Qwen2 | Qwen2Moe | Qwen3 | Qwen3Moe.

#[export] Instance qwen_architecture_eq : EqDecision QwenArchitecture.
Proof. solve_decision. Defined.

Inductive QwenError : Type :=
  | QE_Json
  | QE_Unsupported (identifier : string)
  | QE_NoArchitecture
  | QE_GgufArchitecture
  | QE_GgufMissing (key : string)
  | QE_Zero (field : string)
  | QE_KvHeads (num_key_value_heads num_attention_heads : nat)
  | QE_NoHeads
  | QE_HeadDim (head_dim : nat)
  | QE_Overflow (field : string)
  | QE_HiddenSize (hidden_size num_attention_heads : nat)
  | QE_HiddenAct (hidden_act : string)
  | QE_RmsNormEps (x : f64)
  | QE_RopeTheta (x : f64)
  | QE_RopeScaling
  | QE_SlidingWindow (sliding_window : option nat)
  | QE_Dropout (x : f64)
  | QE_MoeMissing (field : string)
  | QE_Moe (experts top_k width : nat)
  | QE_SparseStep
  | QE_MlpOnly (num_hidden_layers : nat)
  | QE_CoreArchitecture (architecture : string)
  | QE_CoreField (field : string) (config_value core_value : nat).

(** [QwenArchitecture::resolve] *)
Definition resolve (identifier : string) : result QwenArchitecture QwenError :=
  if among identifier ["Qwen2ForCausalLM"; "qwen2"] then Ok Qwen2
  else if among identifier ["Qwen2MoeForCausalLM"; "qwen2_moe"] then Ok Qwen2Moe
  else if among identifier ["Qwen3ForCausalLM"; "qwen3"] then Ok Qwen3
  else if among identifier ["Qwen3MoeForCausalLM"; "qwen3_moe"] then Ok Qwen3Moe
  else Err (QE_Unsupported identifier).

Definition is_qwen3 (a : QwenArchitecture) : bool := match a with Qwen3 | Qwen3Moe => true | _ => false end.
Definition is_moe (a : QwenArchitecture) : bool := match a with Qwen2Moe | Qwen3Moe => true | _ => false end.

Record QwenCapabilities : Type := mkQwenCapabilities {
  paged_attention : bool;
  tensor_parallel : bool;
  pipeline_parallel : bool;
  lora : bool;
  moe : bool;
}.
Definition for_architecture (a : QwenArchitecture) : QwenCapabilities := mkQwenCapabilities true false false false (is_moe a).

Record QwenConfig : Type := mkQwenConfig {
  qn_architectures : list string;
  qn_model_type : option string;
  qn_vocab_size : nat;
  qn_hidden_size : nat;
  qn_intermediate_size : nat;
  qn_num_hidden_layers : nat;
  qn_num_attention_heads : nat;
  qn_num_key_value_heads : nat;
  qn_head_dim : option nat;
  qn_hidden_act : string;
  qn_rms_norm_eps : f64;
  qn_rope_theta : f64;
  qn_max_position_embeddings : nat;
  qn_rope_scaling : option Json;
  qn_attention_bias : option bool;
  qn_attention_dropout : f64;
  qn_use_sliding_window : bool;
  qn_sliding_window : option nat;
  qn_tie_word_embeddings : bool;
  qn_decoder_sparse_step : nat;
  qn_mlp_only_layers : list nat;
  qn_num_experts : option nat;
  qn_num_experts_per_tok : option nat;
  qn_moe_intermediate_size : option nat;
  qn_shared_expert_intermediate_size : option nat;
  qn_norm_topk_prob : bool;
}.

(** ** Reading *)

(** A required field, and one with a default: null is an error in both. *)
Definition read_req {A} (read : Json → option A) (v : Json) (key : string) : option A := json_get v key ≫= read.
Definition read_default {A} (d : A) (read : Json → option A) (v : Json) (key : string) : option A :=
  match json_get v key with None => Some d | Some x => read x end.
Definition json_usizes (v : Json) : option (list nat) := l ← json_array v; mapM json_usize l.

Definition decode_qwen (v : Json) : option QwenConfig :=
  _ ← json_object v;
  architectures ← read_default [] json_strings v "architectures";
  model_type ← read_opt json_str v "model_type";
  vocab_size ← read_req json_usize v "vocab_size";
  hidden_size ← read_req json_usize v "hidden_size";
  intermediate_size ← read_req json_usize v "intermediate_size";
  num_hidden_layers ← read_req json_usize v "num_hidden_layers";
  num_attention_heads ← read_req json_usize v "num_attention_heads";
  num_key_value_heads ← read_req json_usize v "num_key_value_heads";
  head_dim ← read_opt json_usize v "head_dim";
  hidden_act ← read_req json_str v "hidden_act";
  rms_norm_eps ← read_req json_f64 v "rms_norm_eps";
  rope_theta ← read_req json_f64 v "rope_theta";
  max_position_embeddings ← read_req json_usize v "max_position_embeddings";
  rope_scaling ← read_opt Some v "rope_scaling";
  attention_bias ← read_opt json_bool v "attention_bias";
  attention_dropout ← read_default F64.zero json_f64 v "attention_dropout";
  use_sliding_window ← read_default false json_bool v "use_sliding_window";
  sliding_window ← read_opt json_usize v "sliding_window";
  tie_word_embeddings ← read_default false json_bool v "tie_word_embeddings";
  decoder_sparse_step ← read_default 1 json_usize v "decoder_sparse_step";
  mlp_only_layers ← read_default [] json_usizes v "mlp_only_layers";
  num_experts ← read_opt json_usize v "num_experts";
  num_experts_per_tok ← read_opt json_usize v "num_experts_per_tok";
  moe_intermediate_size ← read_opt json_usize v "moe_intermediate_size";
  shared_expert_intermediate_size ← read_opt json_usize v "shared_expert_intermediate_size";
  norm_topk_prob ← read_default false json_bool v "norm_topk_prob";
  Some (mkQwenConfig architectures model_type vocab_size hidden_size intermediate_size num_hidden_layers num_attention_heads
    num_key_value_heads head_dim hidden_act rms_norm_eps rope_theta max_position_embeddings rope_scaling attention_bias attention_dropout
    use_sliding_window sliding_window tie_word_embeddings decoder_sparse_step mlp_only_layers num_experts num_experts_per_tok
    moe_intermediate_size shared_expert_intermediate_size norm_topk_prob).

(** ** Derived values *)
Definition architecture (c : QwenConfig) : result QwenArchitecture QwenError :=
  match head (qn_architectures c) with
  | Some identifier => resolve identifier
  | None => match qn_model_type c with Some identifier => resolve identifier | None => Err QE_NoArchitecture end
  end.

Definition head_dim (c : QwenConfig) : result nat QwenError :=
  match qn_head_dim c with
  | Some d => Ok d
  | None => if qn_num_attention_heads c =? 0 then Err QE_NoHeads else Ok (qn_hidden_size c / qn_num_attention_heads c)
  end.

Definition attention_bias (c : QwenConfig) (a : QwenArchitecture) : bool :=
  if bool_decide (a = Qwen2) || bool_decide (a = Qwen2Moe) then true else default false (qn_attention_bias c).

(** ** Checks *)
Definition positive_fields (c : QwenConfig) : list (string * nat) :=
  [("vocab_size", qn_vocab_size c); ("hidden_size", qn_hidden_size c); ("intermediate_size", qn_intermediate_size c);
   ("num_hidden_layers", qn_num_hidden_layers c); ("num_attention_heads", qn_num_attention_heads c);
   ("num_key_value_heads", qn_num_key_value_heads c); ("max_position_embeddings", qn_max_position_embeddings c)]%string.

Fixpoint check_positive (l : list (string * nat)) : result unit QwenError :=
  match l with
  | [] => Ok ()
  | (field, value) :: l => if value =? 0 then Err (QE_Zero field) else check_positive l
  end.

Definition checked_mul (a b : nat) : bool := (N.of_nat a * N.of_nat b <=? u64_max)%N.
Definition positive_finite (x : f64) : bool := F32.is_finite x && F32.ltb F64.zero x.

Definition validate_moe (c : QwenConfig) : result unit QwenError :=
  match qn_num_experts c with
  | None => Err (QE_MoeMissing "num_experts")
  | Some experts =>
      match qn_num_experts_per_tok c with
      | None => Err (QE_MoeMissing "num_experts_per_tok")
      | Some top_k =>
          match qn_moe_intermediate_size c with
          | None => Err (QE_MoeMissing "moe_intermediate_size")
          | Some width =>
              require negb ((experts =? 0) || (top_k =? 0) || (experts <? top_k) || (width =? 0)) else QE_Moe experts top_k width;
              require negb (qn_decoder_sparse_step c =? 0) else QE_SparseStep;
              require negb (existsb (λ layer, qn_num_hidden_layers c <=? layer) (qn_mlp_only_layers c))
                else QE_MlpOnly (qn_num_hidden_layers c);
              Ok ()
          end
      end
  end.

Definition validate_fields (c : QwenConfig) : result unit QwenError :=
  a <-? architecture c;
  _ <-? check_positive (positive_fields c);
  require negb ((qn_num_attention_heads c <? qn_num_key_value_heads c)
                || negb (qn_num_attention_heads c mod qn_num_key_value_heads c =? 0))
    else QE_KvHeads (qn_num_key_value_heads c) (qn_num_attention_heads c);
  d <-? head_dim c;
  require negb ((d =? 0) || negb (d mod 2 =? 0)) else QE_HeadDim d;
  require checked_mul (qn_num_attention_heads c) d else QE_Overflow "num_attention_heads";
  require checked_mul (qn_num_key_value_heads c) d else QE_Overflow "num_key_value_heads";
  require negb (negb (is_qwen3 a) && negb (qn_hidden_size c mod qn_num_attention_heads c =? 0))
    else QE_HiddenSize (qn_hidden_size c) (qn_num_attention_heads c);
  require String.eqb (qn_hidden_act c) "silu" else QE_HiddenAct (qn_hidden_act c);
  require positive_finite (qn_rms_norm_eps c) else QE_RmsNormEps (qn_rms_norm_eps c);
  require positive_finite (qn_rope_theta c) else QE_RopeTheta (qn_rope_theta c);
  require negb (bool_decide (is_Some (qn_rope_scaling c))) else QE_RopeScaling;
  require negb (qn_use_sliding_window c) else QE_SlidingWindow (qn_sliding_window c);
  require F64.eqb (qn_attention_dropout c) F64.zero else QE_Dropout (qn_attention_dropout c);
  if is_moe a then validate_moe c else Ok ().

(** [QwenConfig::from_json], from the parsed value. *)
Definition from_json (v : Json) : result QwenConfig QwenError :=
  match decode_qwen v with
  | None => Err QE_Json
  | Some c => _ <-? validate_fields c; Ok c
  end.

Fixpoint same_fields (l : list (string * nat * nat)) : result unit QwenError :=
  match l with
  | [] => Ok ()
  | (field, config_value, core_value) :: l =>
      if config_value =? core_value then same_fields l else Err (QE_CoreField field config_value core_value)
  end.

Definition validate_core (c : QwenConfig) (core : ModelConfig) : result unit QwenError :=
  a <-? architecture c;
  a' <-? resolve (mc_architecture core);
  require bool_decide (a = a') else QE_CoreArchitecture (mc_architecture core);
  d <-? head_dim c;
  same_fields
    [("vocab_size", qn_vocab_size c, mc_vocab_size core); ("hidden_size", qn_hidden_size c, mc_hidden_size core);
     ("intermediate_size", qn_intermediate_size c, mc_intermediate_size core);
     ("num_hidden_layers", qn_num_hidden_layers c, mc_num_layers core);
     ("num_attention_heads", qn_num_attention_heads c, mc_num_attention_heads core);
     ("num_key_value_heads", qn_num_key_value_heads c, mc_num_kv_heads core);
     ("head_dim", d, mc_head_dim core)]%string.

(** ** GGUF metadata *)
Section gguf.
(** The values of the metadata, and what the library reads from them. *)
Context {V : Type} (v_string : V → option string) (v_f32 : V → option f32) (v_f64 : V → option f64) (v_u64 : V → option N).

Record GgufContent : Type := mkGgufContent { metadata : gmap string V; tensor_infos : gset string }.

Definition metadata_usize (content : GgufContent) (gguf_arch suffix : string) : option nat :=
  N.to_nat <$> (metadata content !! (gguf_arch +:+ "." +:+ suffix)%string ≫= v_u64).

Definition from_gguf (content : GgufContent) (core : ModelConfig) : result QwenConfig QwenError :=
  a <-? resolve (mc_architecture core);
  match metadata content !! "general.architecture"%string ≫= v_string with
  | None => Err QE_GgufArchitecture
  | Some gguf_arch =>
      let rms_norm_key := (gguf_arch +:+ ".attention.layer_norm_rms_epsilon")%string in
      match metadata content !! rms_norm_key ≫= (λ v, match v_f32 v with Some x => Some (F64.of_f32 x) | None => v_f64 v end) with
      | None => Err (QE_GgufMissing rms_norm_key)
      | Some rms_norm_eps =>
          let get := metadata_usize content gguf_arch in
          let shared := w ← get "expert_shared_feed_forward_length"%string; if 0 <? w then Some w else None in
          let c := mkQwenConfig [mc_architecture core] None (mc_vocab_size core) (mc_hidden_size core) (mc_intermediate_size core)
            (mc_num_layers core) (mc_num_attention_heads core) (mc_num_kv_heads core) (Some (mc_head_dim core)) "silu" rms_norm_eps
            (F64.of_f32 (mc_rope_theta core)) (mc_max_model_len core) None None F64.zero false None
            (negb (bool_decide ("output.weight"%string ∈ tensor_infos content))) 1 [] (get "expert_count"%string)
            (get "expert_used_count"%string) (get "expert_feed_forward_length"%string) shared (bool_decide (a = Qwen3Moe)) in
          _ <-? validate_fields c; Ok c
      end
  end.
End gguf.

(** ** What is accepted *)
Record qwen_ok (c : QwenConfig) (a : QwenArchitecture) (d : nat) : Prop := {
  qo_architecture : architecture c = Ok a;
  qo_head_dim : head_dim c = Ok d;
  qo_groups : qn_num_attention_heads c = qn_num_key_value_heads c * (qn_num_attention_heads c / qn_num_key_value_heads c);
  qo_kv : qn_num_key_value_heads c ≠ 0 ∧ qn_num_attention_heads c / qn_num_key_value_heads c ≠ 0;
  qo_even : d = d / 2 + d / 2 ∧ d ≠ 0;
  qo_hidden : is_qwen3 a = false → qn_hidden_size c mod qn_num_attention_heads c = 0;
  qo_width : (N.of_nat (qn_num_attention_heads c) * N.of_nat d <= u64_max)%N;
  qo_positive : Forall (λ p, p.2 ≠ 0) (positive_fields c);
  qo_norm : F32.is_finite (qn_rms_norm_eps c) = true ∧ F32.ltb F64.zero (qn_rms_norm_eps c) = true;
  qo_routes : is_moe a = true → ∃ experts top_k width,
    qn_num_experts c = Some experts ∧ qn_num_experts_per_tok c = Some top_k ∧ qn_moe_intermediate_size c = Some width
    ∧ 0 < top_k ≤ experts ∧ width ≠ 0 ∧ qn_decoder_sparse_step c ≠ 0 ∧ Forall (λ i, i < qn_num_hidden_layers c) (qn_mlp_only_layers c);
}.

Lemma check_positive_ok l : check_positive l = Ok () → Forall (λ p, p.2 ≠ 0) l.
Proof.
  induction l as [|[f v] l IH]; cbn; [intros _; constructor |]. destruct (Nat.eqb_spec v 0) as [|Hv]; [done |].
  intros H. constructor; [done | by apply IH].
Qed.

Lemma validate_moe_ok c : validate_moe c = Ok () → ∃ experts top_k width,
  qn_num_experts c = Some experts ∧ qn_num_experts_per_tok c = Some top_k ∧ qn_moe_intermediate_size c = Some width
  ∧ 0 < top_k ≤ experts ∧ width ≠ 0 ∧ qn_decoder_sparse_step c ≠ 0 ∧ Forall (λ i, i < qn_num_hidden_layers c) (qn_mlp_only_layers c).
Proof.
  unfold validate_moe. destruct (qn_num_experts c) as [e|]; [| done]. destruct (qn_num_experts_per_tok c) as [k|]; [| done].
  destruct (qn_moe_intermediate_size c) as [w|]; [| done].
  destruct (Nat.eqb_spec e 0) as [|He]; [done |]. destruct (Nat.eqb_spec k 0) as [|Hk]; [done |]. destruct (Nat.ltb_spec e k) as [|Hle]; [done |].
  destruct (Nat.eqb_spec w 0) as [|Hw]; [done |]. cbn [orb negb]. destruct (Nat.eqb_spec (qn_decoder_sparse_step c) 0) as [|Hs]; [done |].
  cbn [negb]. destruct (existsb _ _) eqn:Ex; [done |]. intros _. exists e, k, w. split_and!; try done; try lia.
  apply Forall_forall. intros i Hi. destruct (decide (i < qn_num_hidden_layers c)) as [|Hlt]; [done |]. exfalso.
  assert (existsb (λ layer, qn_num_hidden_layers c <=? layer) (qn_mlp_only_layers c) = true); [| congruence].
  apply existsb_exists. exists i. split; [by apply list_elem_of_In | apply Nat.leb_le; lia].
Qed.

Lemma validate_fields_ok c : validate_fields c = Ok () → ∃ a d, qwen_ok c a d.
Proof.
  unfold validate_fields. destruct (architecture c) as [a|] eqn:Ea; [| done]. cbn [result_bind].
  destruct (check_positive _) as [[]|] eqn:Ep; [| done]. cbn [result_bind]. pose proof (check_positive_ok _ Ep) as Hp.
  assert (Hpos := Hp). unfold positive_fields in Hpos. rewrite !Forall_cons in Hpos. cbn [snd] in Hpos.
  destruct Hpos as (_ & Hh & _ & _ & Hn & Hkv & _).
  destruct (Nat.ltb_spec (qn_num_attention_heads c) (qn_num_key_value_heads c)) as [|Hle]; [done |]. cbn [orb].
  destruct (Nat.eqb_spec (qn_num_attention_heads c mod qn_num_key_value_heads c) 0) as [Hm|]; [cbn [negb] | done].
  destruct (head_dim c) as [d|] eqn:Ed; [| done]. cbn [result_bind].
  destruct (Nat.eqb_spec d 0) as [|Hd0]; [done |]. cbn [orb]. destruct (Nat.eqb_spec (d mod 2) 0) as [Hd2|]; [cbn [negb] | done].
  destruct (checked_mul (qn_num_attention_heads c) d) eqn:Em; [| done]. destruct (checked_mul (qn_num_key_value_heads c) d); [| done].
  destruct (negb (is_qwen3 a) && _) eqn:Ehs; [done |]. cbn [negb]. destruct (String.eqb _ _); [| done].
  destruct (positive_finite (qn_rms_norm_eps c)) eqn:Er; [| done]. destruct (positive_finite (qn_rope_theta c)); [| done].
  destruct (bool_decide (is_Some _)); [done |]. destruct (qn_use_sliding_window c); [done |]. cbn [negb]. destruct (F64.eqb _ _); [| done].
  intros Hmoe. exists a, d. apply andb_true_iff in Er. pose proof (Nat.div_mod (qn_num_attention_heads c) _ Hkv) as Hdiv.
  pose proof (Nat.div_mod d 2 ltac:(lia)) as Hdd.
  rewrite Hm, Nat.add_0_r in Hdiv. rewrite Hd2, Nat.add_0_r in Hdd. split; try done.
  - split; [done |]. intros E0. rewrite E0 in Hdiv. lia.
  - split; [lia | done].
  - intros Hq. rewrite Hq in Ehs. cbn [negb andb] in Ehs. by apply negb_false_iff, Nat.eqb_eq in Ehs.
  - by apply N.leb_le.
  - intros Ha. rewrite Ha in Hmoe. by apply validate_moe_ok.
Qed.

(** ** Two readers of one file *)

(** The fields that both readers take. *)
Record qwen_fields (v : Json) (c : QwenConfig) : Prop := {
  qf_architectures : read_default [] json_strings v "architectures" = Some (qn_architectures c);
  qf_model_type : read_opt json_str v "model_type" = Some (qn_model_type c);
  qf_vocab_size : read_req json_usize v "vocab_size" = Some (qn_vocab_size c);
  qf_hidden_size : read_req json_usize v "hidden_size" = Some (qn_hidden_size c);
  qf_intermediate_size : read_req json_usize v "intermediate_size" = Some (qn_intermediate_size c);
  qf_num_layers : read_req json_usize v "num_hidden_layers" = Some (qn_num_hidden_layers c);
  qf_heads : read_req json_usize v "num_attention_heads" = Some (qn_num_attention_heads c);
  qf_kv_heads : read_req json_usize v "num_key_value_heads" = Some (qn_num_key_value_heads c);
  qf_head_dim : read_opt json_usize v "head_dim" = Some (qn_head_dim c);
}.

Record hf_fields (v : Json) (hf : HfConfigJson) : Prop := {
  ff_architectures : read_opt json_strings v "architectures" = Some (hf_architectures hf);
  ff_model_type : read_opt json_str v "model_type" = Some (hf_model_type hf);
  ff_vocab_size : read_opt json_usize v "vocab_size" = Some (hf_vocab_size hf);
  ff_hidden_size : read_opt json_usize v "hidden_size" = Some (hf_hidden_size hf);
  ff_intermediate_size : read_opt json_usize v "intermediate_size" = Some (hf_intermediate_size hf);
  ff_num_layers : read_opt json_usize v "num_hidden_layers" = Some (hf_num_hidden_layers hf);
  ff_heads : read_opt json_usize v "num_attention_heads" = Some (hf_num_attention_heads hf);
  ff_kv_heads : read_opt json_usize v "num_key_value_heads" = Some (hf_num_key_value_heads hf);
  ff_head_dim : read_opt json_usize v "head_dim" = Some (hf_head_dim hf);
}.

#[local] Ltac bind_inv H := repeat (let x := fresh "x" in let E := fresh "E" in apply bind_Some in H as (x & E & H)).

Lemma decode_qwen_fields v c : decode_qwen v = Some c → qwen_fields v c.
Proof. intros H. unfold decode_qwen in H. bind_inv H. injection H as <-. by split. Qed.

Lemma decode_config_fields v hf : decode_config v = Some hf → hf_fields v hf.
Proof. intros H. unfold decode_config in H. bind_inv H. injection H as <-. by split. Qed.

Lemma req_is_opt {A} (read : Json → option A) v key x y : read JNull = None → read_req read v key = Some x → read_opt read v key = Some y → y = Some x.
Proof.
  unfold read_req, read_opt. intros Hn. destruct (json_get v key) as [j|]; [cbn [mbind option_bind] | done].
  intros Hx. destruct j; try (rewrite Hx; by intros [= <-]). congruence.
Qed.

Lemma architectures_agree v l y : read_default [] json_strings v "architectures" = Some l → read_opt json_strings v "architectures" = Some y →
  y ≫= head = head l.
Proof.
  unfold read_default, read_opt. destruct (json_get v _) as [j|]; [| intros [= <-] [= <-]; done].
  intros Hl. destruct j; rewrite ?Hl; try (intros [= <-]; done).
Qed.

Lemma resolve_normalize s a : resolve s = Ok a →
  resolve (normalize_architecture s) = Ok a ∧ native_deepseek (normalize_architecture s) = false
  ∧ independent_head_dim (normalize_architecture s) = is_qwen3 a.
Proof.
  unfold resolve, among. cbn [existsb]. rewrite !orb_false_r.
  repeat match goal with |- context [String.eqb s ?t] => destruct (String.eqb_spec s t) as [->|] end; cbn [orb]; intros [= <-]; done.
Qed.

Lemma default_Some {A} (d x : A) : default d (Some x) = x.
Proof. done. Qed.

Lemma same_fields_ok l : Forall (λ p : string * nat * nat, p.1.2 = p.2) l → same_fields l = Ok ().
Proof. induction 1 as [|[[f a] b] l H _ IH]; [done |]. cbn in *. by rewrite H, Nat.eqb_refl. Qed.

Lemma fields_agree v c hf : qwen_fields v c → hf_fields v hf →
  hf_vocab_size hf = Some (qn_vocab_size c) ∧ hf_hidden_size hf = Some (qn_hidden_size c)
  ∧ hf_intermediate_size hf = Some (qn_intermediate_size c) ∧ hf_num_hidden_layers hf = Some (qn_num_hidden_layers c)
  ∧ hf_num_attention_heads hf = Some (qn_num_attention_heads c) ∧ hf_num_key_value_heads hf = Some (qn_num_key_value_heads c)
  ∧ hf_model_type hf = qn_model_type c ∧ hf_head_dim hf = qn_head_dim c ∧ hf_architectures hf ≫= head = head (qn_architectures c).
Proof.
  intros Q F. split_and!; try (eapply (req_is_opt json_usize v); [done | apply Q | apply F]).
  - pose proof (qf_model_type _ _ Q). pose proof (ff_model_type _ _ F). congruence.
  - pose proof (qf_head_dim _ _ Q). pose proof (ff_head_dim _ _ F). congruence.
  - exact (architectures_agree v _ _ (qf_architectures _ _ Q) (ff_architectures _ _ F)).
Qed.

Lemma architecture_agrees c hf a : architecture c = Ok a → hf_model_type hf = qn_model_type c →
  hf_architectures hf ≫= head = head (qn_architectures c) →
  resolve (requested_architecture hf) = Ok a ∧ native_deepseek (requested_architecture hf) = false
  ∧ independent_head_dim (requested_architecture hf) = is_qwen3 a.
Proof.
  intros Ha Emt Earch. unfold requested_architecture. rewrite Earch, Emt. unfold architecture in Ha.
  destruct (head (qn_architectures c)) as [s|]; [by apply resolve_normalize |]. destruct (qn_model_type c) as [s|]; [| done].
  by apply resolve_normalize.
Qed.

(** The check of the general reader on what the Qwen reader accepts. *)
Lemma validate_config_qwen arch c a d : qwen_ok c a d → independent_head_dim arch = is_qwen3 a →
  validate_config arch (qn_hidden_size c) (qn_num_attention_heads c) (qn_num_key_value_heads c) d
  = if is_qwen3 a || (d =? qn_hidden_size c / qn_num_attention_heads c) then Ok ()
    else Err (HfHeadDim d (qn_hidden_size c / qn_num_attention_heads c)).
Proof.
  intros Hok Hind. pose proof (qo_positive _ _ _ Hok) as Hp. unfold positive_fields in Hp. rewrite !Forall_cons in Hp. cbn [snd] in Hp.
  destruct Hp as (_ & Hh & _ & _ & Hn & Hkv & _). pose proof (qo_groups _ _ _ Hok) as Hg. pose proof (proj2 (qo_kv _ _ _ Hok)) as Hrep.
  unfold validate_config. rewrite Hind, (proj2 (Nat.eqb_neq _ 0) Hh), (proj2 (Nat.eqb_neq _ 0) Hn), (proj2 (Nat.eqb_neq _ 0) Hkv).
  cbn [negb orb]. rewrite (proj2 (Nat.ltb_ge (qn_num_attention_heads c) (qn_num_key_value_heads c))) by nia.
  assert (Hmod : qn_num_attention_heads c mod qn_num_key_value_heads c = 0) by (rewrite Hg, Nat.mul_comm; apply Nat.Div0.mod_mul).
  rewrite Hmod. destruct (is_qwen3 a) eqn:Eq; [done |]. rewrite (qo_hidden _ _ _ Hok Eq). cbn [Nat.eqb negb andb orb].
  by destruct (d =? _).
Qed.

(** C32. One file, two readers.  When the Qwen reader accepts a configuration whose
    fields have types the general reader can decode, the general reader panics
    exactly when four times the hidden size leaves [usize] (it computes that default
    of the intermediate size even when the file gives one), and else accepts it too,
    except that for the Qwen2 families it insists on heads of the size it
    would derive; and what it then makes of it always passes the comparison of
    [validate_core], so that loading goes on to the weights. *)
Theorem readers_agree v dir c hf : from_json v = Ok c → decode_config v = Some hf →
  ∃ a d, qwen_ok c a d
    ∧ (if (u64_max <? N.of_nat (qn_hidden_size c) * 4)%N then parse_hf_config v dir = None
       else if is_qwen3 a || (d =? qn_hidden_size c / qn_num_attention_heads c) then
         ∃ core, parse_hf_config v dir = Some (Ok core) ∧ validate_core c core = Ok ()
       else ∃ e, parse_hf_config v dir = Some (Err e)).
Proof.
  unfold from_json. destruct (decode_qwen v) as [c'|] eqn:Ec; [| done]. destruct (validate_fields c') as [[]|] eqn:Ev; [| done].
  cbn [result_bind]. intros [= <-] Eh. destruct (validate_fields_ok c' Ev) as (a & d & Hok). exists a, d. split; [done |].
  destruct (fields_agree v c' hf (decode_qwen_fields v c' Ec) (decode_config_fields v hf Eh))
    as (Evoc & Ehid & Eint & Enum & Ehd & Ekv & Emt & Ehdim & Earch).
  destruct (architecture_agrees c' hf a (qo_architecture _ _ _ Hok) Emt Earch) as (Hres & Hnat & Hind).
  pose proof (qo_head_dim _ _ _ Hok) as Hd. unfold head_dim in Hd. destruct (Nat.eqb_spec (qn_num_attention_heads c') 0) as [E0|Hn].
  { pose proof (qo_positive _ _ _ Hok) as Hp. unfold positive_fields in Hp. rewrite !Forall_cons in Hp. by destruct Hp as (_ & _ & _ & _ & Hn & _). }
  assert (Hd' : default (qn_hidden_size c' / qn_num_attention_heads c') (qn_head_dim c') = d) by (destruct (qn_head_dim c'); by injection Hd).
  unfold parse_hf_config. rewrite Eh. unfold config_of. fold (requested_architecture hf). rewrite Ehid, Ehd, Ekv, Eint, Evoc, Enum, Hnat.
  rewrite !default_Some. unfold head_dim_of. rewrite (proj2 (Nat.eqb_neq _ 0) Hn), Ehdim, Hd'. cbn [mbind option_bind].
  unfold usize_mul. destruct (N.ltb_spec u64_max (N.of_nat (qn_hidden_size c') * 4)) as [Hov|Hov];
    [by rewrite (proj2 (N.leb_gt _ _) Hov) | rewrite (proj2 (N.leb_le _ _) Hov)]. cbn [mbind option_bind].
  rewrite (validate_config_qwen _ c' a d Hok Hind). destruct (is_qwen3 a || _); [| by eexists].
  eexists. split; [reflexivity |]. unfold validate_core. cbn [mc_architecture]. rewrite (qo_architecture _ _ _ Hok), Hres. cbn [result_bind].
  rewrite bool_decide_eq_true_2 by done. rewrite (qo_head_dim _ _ _ Hok). apply same_fields_ok. by repeat constructor.
Qed.

(** A sparse Qwen2 configuration, read by both. *)
Definition demo_qwen : Json := JObject
  [("architectures", JArray [JString "Qwen2MoeForCausalLM"]); ("vocab_size", JNumber (PosInt 100)); ("hidden_size", JNumber (PosInt 64));
   ("intermediate_size", JNumber (PosInt 128)); ("num_hidden_layers", JNumber (PosInt 4)); ("num_attention_heads", JNumber (PosInt 8));
   ("num_key_value_heads", JNumber (PosInt 2)); ("hidden_act", JString "silu"); ("rms_norm_eps", JNumber (PosInt 1));
   ("rope_theta", JNumber (PosInt 10000)); ("max_position_embeddings", JNumber (PosInt 512)); ("num_experts", JNumber (PosInt 4));
   ("num_experts_per_tok", JNumber (PosInt 2)); ("moe_intermediate_size", JNumber (PosInt 32)); ("mlp_only_layers", JArray [JNumber (PosInt 3)])].

Lemma readers_agree_witness :
  ∃ c hf core, from_json demo_qwen = Ok c ∧ decode_config demo_qwen = Some hf
    ∧ parse_hf_config demo_qwen "m" = Some (Ok core) ∧ validate_core c core = Ok ().
Proof.
  destruct (from_json demo_qwen) as [c|] eqn:Ec; [| by vm_compute in Ec]. pose proof Ec as Hc. destruct (decode_config demo_qwen) as [hf|] eqn:Eh; [| by vm_compute in Eh].
  destruct (readers_agree demo_qwen "m" c hf Ec Eh) as (a & d & Hok & Hif).
  vm_compute in Hc. injection Hc as <-.
  pose proof (qo_head_dim _ _ _ Hok) as Hd. vm_compute in Hd. injection Hd as <-. cbn [qn_hidden_size qn_num_attention_heads] in Hif.
  change (u64_max <? N.of_nat 64 * 4)%N with false in Hif. cbv iota in Hif.
  change (8 =? 64 / 8) with true in Hif. rewrite orb_true_r in Hif. destruct Hif as (core & Hp & Hv). eexists _, hf, core. split_and!; [reflexivity | done | exact Hp | exact Hv].
Defined.
