(* ===== verification/Qwen.v ===== *)
(** * The Qwen models (qwen.rs)

    The gated perceptron, the sparse layer that routes each token to a few experts,
    the decoder layer around the attention of layers.rs, the model, greedy
    generation, and the loader.  The fused CUDA layer of GGUF experts is one
    operation of the library.  Transfers between devices and logging are left out;
    [on_cuda] says whether the weights are on a CUDA device. *)
From S2P Require Import Prelude F32 CoreTypes Tensors Mxfp NdTensor QuantMethod HfConfig Rope Layers Llama LlamaLoad Moe QwenConfig.
#[local] Open Scope list_scope.
#[local] Open Scope nat_scope.
#[local] Open Scope rllm_scope.

Section qwen.
Context {T : Type} `{!NdOps T, !MoeOps T} (show : nat → string).
#[local] Abbreviation Linear := (Layers.Linear (T := T)).
#[local] Abbreviation KvCache := (option (T * T)).

(** ** Feed-forward layers *)
Record DenseMlp : Type := mkDenseMlp { dm_gate : Linear; dm_up : Linear; dm_down : Linear }.

Definition dense_forward (m : DenseMlp) (hidden : T) : option (result T TensorError) :=
  gate <-! linear_forward show (dm_gate m) hidden;
  gate <-! Some (n_silu gate);
  up <-! linear_forward show (dm_up m) hidden;
  h <-! Some (n_broadcast_mul gate up);
  linear_forward show (dm_down m) h.

Definition usize_from (b : bool) : nat := if b then 1 else 0.

Definition dense_quantized_count (m : DenseMlp) : nat :=
  usize_from (is_quantized (dm_gate m)) + usize_from (is_quantized (dm_up m)) + usize_from (is_quantized (dm_down m)).

Inductive QwenExperts : Type :=
  | QE_Dense (router : T) (experts : list DenseMlp) (top_k : nat) (normalize : bool)
  | QE_Gguf (fused : T → bool → result T TensorError).

Record QwenMoe : Type := mkQwenMoe {
  qm_experts : QwenExperts;
  qm_shared_expert : option DenseMlp;
  qm_shared_expert_gate : option Linear;
}.

(** [1e-20] *)
Definition route_eps : f64 := SpecFloat.S754_finite false 6646139978924579 (-119).

(** The experts of each token and their weights. *)
Definition route (flat router : T) (top_k : nat) (normalize : bool) : result (list (list N) * list (list f32)) TensorError :=
  x <-? n_to_dtype flat T_F32;
  r <-? n_to_dtype router T_F32;
  rt <-? n_t r;
  logits <-? n_matmul x rt;
  probabilities <-? m_softmax_last_dim logits;
  sorted <-? m_arg_sort_desc probabilities;
  k <-? minus1 sorted;
  ids <-? n_narrow sorted k 0 top_k;
  ids <-? n_contiguous ids;
  route_weights <-? m_gather_last probabilities ids;
  route_weights <-? (if normalize && (1 <? top_k) then
                       s <-? m_sum_keepdim route_weights;
                       s <-? n_add_scalar s route_eps;
                       n_broadcast_div route_weights s
                     else Ok route_weights);
  cpu_ids <-? m_to_vec2_u32 ids;
  w <-? n_to_dtype route_weights T_F32;
  cpu_weights <-? n_to_vec2_f32 w;
  Ok (cpu_ids, cpu_weights).

Definition shared_forward (shared : DenseMlp) (gate : option Linear) (hidden : T) : option (result T TensorError) :=
  shared_output <-! dense_forward shared hidden;
  match gate with
  | None => Some (Ok shared_output)
  | Some gate =>
      g <-! linear_forward show gate hidden;
      Some (g <-? m_sigmoid g; g <-? n_to_dtype g (n_dtype shared_output); n_broadcast_mul shared_output g)
  end.

(** No feature panics: the number of tokens is a quotient. *)
Definition moe_forward (m : QwenMoe) (hidden : T) : option (result T TensorError) :=
  width <-! Some (dim_minus1 hidden);
  if width =? 0 then None
  else
    let tokens := nprod (n_dims hidden) / width in
    flat <-! Some (n_reshape hidden [tokens; width]);
    output <-! match qm_experts m with
               | QE_Gguf fused => Some (fused hidden (64 <? tokens))
               | QE_Dense router experts top_k normalize =>
                   routes <-! Some (route flat router top_k normalize);
                   zeros <-! Some (m_zeros_like flat);
                   routed <-! run_experts flat routes.1 routes.2 tokens top_k 0 (dense_forward <$> experts) zeros;
                   Some (n_reshape routed (n_dims hidden))
               end;
    match qm_shared_expert m with
    | None => Some (Ok output)
    | Some shared =>
        shared_output <-! shared_forward shared (qm_shared_expert_gate m) hidden;
        Some (n_add output shared_output)
    end.

Definition moe_quantized_count (m : QwenMoe) : nat :=
  match qm_experts m with QE_Dense _ experts _ _ => sum_list (dense_quantized_count <$> experts) | QE_Gguf _ => 3 end
  + default 0 (dense_quantized_count <$> qm_shared_expert m)
  + default 0 ((λ x, usize_from (is_quantized x)) <$> qm_shared_expert_gate m).

Inductive FeedForward : Type := FF_Dense (mlp : DenseMlp) | FF_Moe (moe : QwenMoe).
Definition ff_forward (f : FeedForward) (hidden : T) : option (result T TensorError) :=
  match f with FF_Dense mlp => dense_forward mlp hidden | FF_Moe moe => moe_forward moe hidden end.
Definition ff_quantized_count (f : FeedForward) : nat :=
  match f with FF_Dense mlp => dense_quantized_count mlp | FF_Moe moe => moe_quantized_count moe end.

(** ** Decoder layers *)
Record QwenDecoderLayer : Type := mkQwenLayer {
  ql_attention : LlamaAttention (T := T);
  ql_feed_forward : FeedForward;
  ql_input_norm : RmsNorm (T := T);
  ql_post_attention_norm : RmsNorm (T := T);
}.

(** The feed-forward layer with its residual. *)
Definition ff_block (l : QwenDecoderLayer) (hidden : T) : option (result T TensorError) :=
  n <-! Some (rms_forward (ql_post_attention_norm l) hidden);
  y <-! ff_forward (ql_feed_forward l) n;
  Some (n_add hidden y).

Definition qwen_layer_forward (l : QwenDecoderLayer) (hidden : T) (positions : list nat) (cache : KvCache) (rope : RotaryEmbedding T) :
    option (result T TensorError * KvCache) :=
  match rms_forward (ql_input_norm l) hidden with
  | Err e => Some (Err e, cache)
  | Ok n =>
      '(r, cache) ← attention_forward show (ql_attention l) n positions cache rope;
      out ← (y <-! Some r; h <-! Some (n_add hidden y); ff_block l h);
      Some (out, cache)
  end.

Context (has_cuda paged_attention_enabled : bool) (paged_op : nat → T → T → T → nat → nat → bool → result T TensorError).

Definition qwen_layer_forward_paged (l : QwenDecoderLayer) (hidden : T) (positions : list nat) (layer : nat) (rope : RotaryEmbedding T) :
    option (result T TensorError) :=
  n <-! Some (rms_forward (ql_input_norm l) hidden);
  y <-! attention_forward_paged show has_cuda paged_attention_enabled paged_op (ql_attention l) n positions layer rope;
  h <-! Some (n_add hidden y);
  ff_block l h.

(** ** The model *)
Record QwenModel : Type := mkQwenModel {
  qw_embed_tokens : Linear;
  qw_layers : list QwenDecoderLayer;
  qw_norm : RmsNorm (T := T);
  qw_lm_head : Linear;
  qw_rope : RotaryEmbedding T;
  qw_quantized_layer_count : nat;
}.

Definition qwen_embed (m : QwenModel) (input_ids : T) : option (result T TensorError) :=
  w <-! linear_weight show (qw_embed_tokens m); Some (embedding_lookup w input_ids).

Definition in_qwen_layer (i : nat) (e : TensorError) : TensorError := ("Qwen layer " +:+ show i +:+ ": " +:+ e)%string.

Definition qwen_forward (m : QwenModel) (input_ids : T) (positions : list nat) (cache : list KvCache) :
    option (result T TensorError * list KvCache) :=
  if negb (length cache =? length (qw_layers m)) then Some (Err "Qwen KV cache layer count"%string, cache)
  else
    match qwen_embed m input_ids with
    | None => None
    | Some (Err e) => Some (Err e, cache)
    | Some (Ok hidden) =>
        '(r, cache) ← layers_loop (λ l x positions c, qwen_layer_forward l x positions c (qw_rope m)) in_qwen_layer 0 (qw_layers m)
                        hidden positions cache;
        out ← (hidden <-! Some r; n <-! Some (rms_forward (qw_norm m) hidden); linear_forward show (qw_lm_head m) n);
        Some (out, cache)
    end.

Fixpoint qwen_layers_paged (i : nat) (ls : list QwenDecoderLayer) (hidden : T) (positions : list nat) (rope : RotaryEmbedding T) :
    option (result T TensorError) :=
  match ls with
  | [] => Some (Ok hidden)
  | l :: ls =>
      match qwen_layer_forward_paged l hidden positions i rope with
      | Some (Err e) => Some (Err (in_qwen_layer i e))
      | Some (Ok hidden) => qwen_layers_paged (S i) ls hidden positions rope
      | None => None
      end
  end.

Definition qwen_forward_paged (m : QwenModel) (input_ids : T) (positions : list nat) : option (result T TensorError) :=
  hidden <-! qwen_embed m input_ids;
  hidden <-! qwen_layers_paged 0 (qw_layers m) hidden positions (qw_rope m);
  n <-! Some (rms_forward (qw_norm m) hidden);
  linear_forward show (qw_lm_head m) n.
End qwen.

Arguments mkDenseMlp {T}.
Arguments mkQwenMoe {T}.
Arguments mkQwenLayer {T}.
Arguments mkQwenModel {T}.

(** ** Greedy generation *)
Section generate.
Context {T : Type} `{!NdOps T} (to_vec1_f32 : T → result (list f32) TensorError).
#[local] Abbreviation KvCache := (option (T * T)).

(** The last of the greatest values by [total_cmp], which orders every float; 0 of no values. *)
Fixpoint last_max_total (best : nat * f32) (l : list (nat * f32)) : nat * f32 :=
  match l with
  | [] => best
  | x :: l => last_max_total (match F32.total_cmp best.2 x.2 with Gt => best | _ => x end) l
  end.
Definition argmax_total (values : list f32) : N :=
  match imap pair values with [] => 0%N | x :: l => as_u32 (N.of_nat (last_max_total x l).1) end.

Definition qwen_argmax (logits : T) : result N TensorError :=
  flat <-? n_flatten_all logits;
  f <-? n_to_dtype flat T_F32;
  values <-? to_vec1_f32 f;
  Ok (argmax_total values).

(** The last position; a pass over no token panics. *)
Definition last_position (logits : T) : option (result T TensorError) :=
  n <-! Some (n_dim logits 1);
  last ← sub_checked n 1;
  Some (n_narrow logits 1 last 1).

Context (forward : T → list nat → list KvCache → option (result T TensorError * list KvCache)).

(** The [while] loop, for at most [steps] more tokens. *)
Fixpoint generate_loop (steps : nat) (max_tokens : nat) (tokens : list N) (logits : T) (cache : list KvCache) :
    option (result (list N) TensorError) :=
  match steps with
  | 0 => Some (Ok tokens)
  | S steps =>
      if length tokens <? max_tokens then
        last <-! last_position logits;
        next <-! Some (qwen_argmax last);
        let tokens := tokens ++ [next] in
        if length tokens =? max_tokens then Some (Ok tokens)
        else
          position ← sub_checked (length tokens) 1;
          input <-! Some (ids_tensor [next]);
          '(r, cache) ← forward input [position] cache;
          logits <-! Some r;
          generate_loop steps max_tokens tokens logits cache
      else Some (Ok tokens)
  end.

(** [QwenForCausalLM::generate]; every step but the last appends a token, so
    [max_tokens] steps are enough. *)
Definition qwen_generate (num_layers : nat) (prompt : list N) (max_tokens : nat) : option (result (list N) TensorError) :=
  match prompt with
  | [] => Some (Err "cannot generate from an empty prompt"%string)
  | _ =>
      if max_tokens <=? length prompt then Some (Ok prompt)
      else
        input <-! Some (ids_tensor prompt);
        '(r, cache) ← forward input (seq 0 (length prompt)) (replicate num_layers None);
        logits <-! Some r;
        generate_loop max_tokens max_tokens prompt logits cache
  end.
End generate.

(** ** Loading *)
Section load.
Context {T G Q : Type} `{!TensorLib T, !NdOps T, !MoeOps T}.
Context (g_dims : G → list nat) (from_arc : G → result Q string) (q_forward : Q → T → result T TensorError).
Context (log2 exp2 : f32 → f32) (powi : f32 → Z → f32) (f8_from_f32 : f32 → N) (f8_from_bits : N → f32).
Context (powf : f64 → f64 → f64) (show : nat → string) (q_show : QError → string).
(** The device, the types the grouped kernels take, and the fused layer. *)
Context (on_cuda : bool) (g_supported : G → bool) (fused_moe : T → G → G → G → bool → nat → T → bool → result T TensorError).

#[local] Abbreviation Load := (Load (T := T) (G := G)).
#[local] Abbreviation Linear := (Layers.Linear (T := T)).
#[local] Abbreviation load_linear := (load_linear (T := T) g_dims from_arc q_forward log2 exp2 powi f8_from_f32 f8_from_bits q_show).

Definition q_fail {A} (e : string) : Load A := l_fail (QTensor e).

(** [has_linear] *)
Definition has_linear (prefix : string) : Load bool :=
  l_bind (has_tensor (prefix +:+ ".weight")) (λ w,
  l_bind (has_tensor (prefix +:+ ".qweight")) (λ qw,
  l_bind (has_quant_tensor (prefix +:+ ".weight")) (λ qt,
  l_bind (has_gguf_tensor (prefix +:+ ".weight")) (λ g, l_ret ((w : bool) || qw || qt || g))))).

Definition load_projection (prefix : string) (core : ModelConfig) (schema : option QuantSchema) (bias : bool) : Load Linear :=
  l_bind (load_linear prefix (mc_quantization core) schema) (λ projection,
  if bias then l_bind (remove_tensor (prefix +:+ ".bias")) (λ b, l_ret (with_bias projection b)) else l_ret projection).

Definition load_mlp (prefix : string) (core : ModelConfig) (schema : option QuantSchema) : Load (DenseMlp (T := T)) :=
  l_bind (load_linear (prefix +:+ ".gate_proj") (mc_quantization core) schema) (λ gate,
  l_bind (load_linear (prefix +:+ ".up_proj") (mc_quantization core) schema) (λ up,
  l_bind (load_linear (prefix +:+ ".down_proj") (mc_quantization core) schema) (λ down, l_ret (mkDenseMlp gate up down)))).

Fixpoint load_experts (prefix : string) (core : ModelConfig) (schema : option QuantSchema) (expert n : nat) : Load (list (DenseMlp (T := T))) :=
  match n with
  | 0 => l_ret []
  | S n =>
      l_bind (load_mlp (prefix +:+ ".experts." +:+ show expert) core schema) (λ e,
      l_bind (load_experts prefix core schema (S expert) n) (λ es, l_ret (e :: es)))
  end.

Definition take_gguf_experts (name : string) (expected_shape : list nat) : Load G :=
  l_bind (remove_gguf_tensor name) (λ tensor,
  if negb (bool_decide (g_dims tensor = expected_shape)) then q_fail "shape of the GGUF experts"
  else if negb (g_supported tensor) then q_fail "type of the GGUF experts"
  else l_ret tensor).

Definition load_packed_experts (prefix : string) (core : ModelConfig) (num_experts expert_width top_k : nat) (norm_topk_prob : bool) :
    Load (QwenExperts (T := T)) :=
  if negb on_cuda then q_fail "Qwen GGUF MoE requires CUDA grouped-expert kernels"
  else
    let hidden_size := mc_hidden_size core in
    l_bind (take_gguf_experts (prefix +:+ ".experts.gate_proj.weight") [num_experts; expert_width; hidden_size]) (λ gate_experts,
    l_bind (take_gguf_experts (prefix +:+ ".experts.up_proj.weight") [num_experts; expert_width; hidden_size]) (λ up_experts,
    l_bind (take_gguf_experts (prefix +:+ ".experts.down_proj.weight") [num_experts; hidden_size; expert_width]) (λ down_experts,
    l_bind (remove_tensor (prefix +:+ ".gate.weight")) (λ router,
    l_bind (l_try (lift (n_to_dtype router T_F32))) (λ router,
    if negb (bool_decide (n_dims router = [num_experts; hidden_size])) then q_fail "shape of the GGUF router"
    else l_ret (QE_Gguf (fused_moe router gate_experts up_experts down_experts norm_topk_prob top_k))))))).

Definition load_dense_experts (prefix : string) (core : ModelConfig) (schema : option QuantSchema) (num_experts top_k : nat)
    (norm_topk_prob : bool) : Load (QwenExperts (T := T)) :=
  l_bind (load_experts prefix core schema 0 num_experts) (λ experts,
  l_bind (remove_tensor (prefix +:+ ".gate.weight")) (λ router, l_ret (QE_Dense router experts top_k norm_topk_prob))).

Definition load_shared (prefix : string) (core : ModelConfig) (schema : option QuantSchema) (config : QwenConfig) (a : QwenArchitecture) :
    Load (option (DenseMlp (T := T)) * option Linear) :=
  if bool_decide (a = QwenConfig.Qwen2Moe) && negb (default 0 (qn_shared_expert_intermediate_size config) =? 0) then
    l_bind (load_mlp (prefix +:+ ".shared_expert") core schema) (λ shared,
    l_bind (load_linear (prefix +:+ ".shared_expert_gate") (mc_quantization core) schema) (λ gate, l_ret (Some shared, Some gate)))
  else l_ret (None, None).

Definition load_moe (prefix : string) (core : ModelConfig) (schema : option QuantSchema) (config : QwenConfig) (a : QwenArchitecture) :
    Load (QwenMoe (T := T)) :=
  match qn_num_experts config, qn_num_experts_per_tok config, qn_moe_intermediate_size config with
  | None, _, _ => q_fail "missing num_experts"
  | _, None, _ => q_fail "missing num_experts_per_tok"
  | _, _, None => q_fail "missing moe_intermediate_size"
  | Some num_experts, Some top_k, Some expert_width =>
      let packed_gate_name := (prefix +:+ ".experts.gate_proj.weight")%string in
      l_bind (has_gguf_tensor packed_gate_name) (λ g,
      l_bind (has_tensor packed_gate_name) (λ w,
      l_bind (if (g : bool) || w
              then load_packed_experts prefix core num_experts expert_width top_k (qn_norm_topk_prob config)
              else load_dense_experts prefix core schema num_experts top_k (qn_norm_topk_prob config)) (λ experts,
      l_bind (load_shared prefix core schema config a) (λ '(shared_expert, shared_expert_gate),
      l_ret (mkQwenMoe experts shared_expert shared_expert_gate)))))
  end.

Definition qwen_norm (config : QwenConfig) (name : string) : Load (RmsNorm (T := T)) :=
  l_bind (remove_tensor name) (λ w, l_ret (mkRmsNorm w (qn_rms_norm_eps config))).

(** The query and key norms of the third generation. *)
Definition load_qk_norm (prefix : string) (config : QwenConfig) (a : QwenArchitecture) (attention : LlamaAttention (T := T)) :
    Load (LlamaAttention (T := T)) :=
  if is_qwen3 a then
    l_bind (qwen_norm config (prefix +:+ ".self_attn.q_norm.weight")) (λ q_norm,
    l_bind (qwen_norm config (prefix +:+ ".self_attn.k_norm.weight")) (λ k_norm, l_ret (with_qk_norm attention q_norm k_norm)))
  else l_ret attention.

Definition sparse_layer (config : QwenConfig) (a : QwenArchitecture) (layer : nat) : bool :=
  is_moe a && negb (existsb (Nat.eqb layer) (qn_mlp_only_layers config)) && ((layer + 1) mod qn_decoder_sparse_step config =? 0).

(** A layer and how many of its projections are quantized. *)
Definition load_qwen_layer (core : ModelConfig) (schema : option QuantSchema) (config : QwenConfig) (a : QwenArchitecture) (layer : nat) :
    Load (QwenDecoderLayer (T := T) * nat) :=
  let prefix := ("model.layers." +:+ show layer)%string in
  let bias := attention_bias config a in
  let proj name b := load_projection (prefix +:+ name) core schema b in
  l_bind (proj ".self_attn.q_proj" bias) (λ q,
  l_bind (proj ".self_attn.k_proj" bias) (λ k,
  l_bind (proj ".self_attn.v_proj" bias) (λ v,
  l_bind (proj ".self_attn.o_proj" (is_qwen3 a && bias)) (λ o,
  l_bind (load_qk_norm prefix config a
    (from_linears q k v o (mc_num_attention_heads core) (mc_num_kv_heads core) (mc_head_dim core))) (λ attention,
  l_bind (if sparse_layer config a layer
          then l_bind (load_moe (prefix +:+ ".mlp") core schema config a) (λ m, l_ret (FF_Moe m))
          else l_bind (load_mlp (prefix +:+ ".mlp") core schema) (λ m, l_ret (FF_Dense m))) (λ feed_forward,
  l_bind (qwen_norm config (prefix +:+ ".input_layernorm.weight")) (λ input_norm,
  l_bind (qwen_norm config (prefix +:+ ".post_attention_layernorm.weight")) (λ post_attention_norm,
  l_ret (mkQwenLayer attention feed_forward input_norm post_attention_norm,
         count_quantized [q; k; v; o] + ff_quantized_count feed_forward))))))))).

Fixpoint load_qwen_layers (core : ModelConfig) (schema : option QuantSchema) (config : QwenConfig) (a : QwenArchitecture) (layer n : nat) :
    Load (list (QwenDecoderLayer (T := T)) * nat) :=
  match n with
  | 0 => l_ret ([], 0)
  | S n =>
      l_bind (load_qwen_layer core schema config a layer) (λ '(l, c),
      l_bind (load_qwen_layers core schema config a (S layer) n) (λ '(ls, cs), l_ret (l :: ls, c + cs)))
  end.

(** The head: its own weights, or the embedding when the configuration ties them. *)
Definition load_qwen_head (core : ModelConfig) (schema : option QuantSchema) (config : QwenConfig) (embed_weight : T) : Load Linear :=
  l_bind (has_linear "lm_head") (λ own : bool,
  if own then load_linear "lm_head" (mc_quantization core) schema
  else if qn_tie_word_embeddings config then l_ret (linear_new embed_weight)
  else q_fail "missing lm_head.weight while tie_word_embeddings is false").

(** [QwenModel::new]; a sparse step of zero would panic, and is refused before. *)
Definition qwen_new (core : ModelConfig) (schema : option QuantSchema) (config : QwenConfig) : Load (QwenModel (T := T)) :=
  match architecture config with
  | Err _ => q_fail "unsupported Qwen architecture"
  | Ok a =>
      l_bind (remove_tensor "model.embed_tokens.weight") (λ embed_weight,
      l_bind (load_qwen_head core schema config embed_weight) (λ head,
      l_bind (load_qwen_layers core schema config a 0 (mc_num_layers core)) (λ '(ls, quantized),
      l_bind (qwen_norm config "model.norm.weight") (λ norm,
      l_bind (l_try (lift (rope_new powf (mc_head_dim core) (qn_max_position_embeddings config) (F64.to_f32 (qn_rope_theta config))))) (λ rope,
      l_ret (mkQwenModel (linear_new embed_weight) ls norm head rope (count_quantized [head] + quantized)))))))
  end.

(** [QwenForCausalLM::from_weights] *)
Definition from_weights (core : ModelConfig) (schema : option QuantSchema) (config : QwenConfig) : Load (QwenModel (T := T)) :=
  match validate_core config core with
  | Err _ => q_fail "the configurations differ"
  | Ok _ => qwen_new core schema config
  end.
End load.
