(* ===== verification/QwenRows.v ===== *)
(** * What the Qwen models compute

    [sparse_rows]: the sparse layer makes of each row, alone, the sum over the
    experts its router chooses, in order, of their outputs times their weights,
    plus the gated shared expert.  [qwen_causal]: the forward pass keeps the
    promise of Decoder.v, so cached decoding gives the logits of one pass; and
    [qwen_generate_greedy]: generation appends the last of the greatest logits by
    the total order of floats. *)
From S2P Require Import Prelude F32 Logits Tensors Sampler NdTensor Rope Layers LayerRows AttentionRows Llama Decoder LlamaRows Moe QwenConfig Qwen Exact.
#[local] Open Scope list_scope.
#[local] Open Scope nat_scope.
#[local] Open Scope rllm_scope.

Section rows.
Context {T E : Type} `{!NdOps T, !MoeOps T, !Scalars E, !MoeScalars E, !Elements T E, !LawfulNd T E, !LawfulScalars E, !LawfulMoe T E}.
#[local] Abbreviation gives := (gives (T := T) (E := E)).
#[local] Abbreviation den := (den (T := T) (E := E)).
Context (show : nat → string).

(** ** The gated perceptron *)
Lemma dense_mlp_acts (m : DenseMlp (T := T)) h w G U D :
  acts (linear_forward show (dm_gate m)) h w G → acts (linear_forward show (dm_up m)) h w U →
  acts (linear_forward show (dm_down m)) w h D → acts (dense_forward show m) h h (mlp_row G U D).
Proof using All.
  intros HG HU HD. apply (acts_ext _ _ _ _ _ (gated_acts _ _ _ h w G U D HG HU HD)). intros x y. unfold dense_forward.
  by destruct (linear_forward show (dm_gate m) x) as [[g|]|].
Qed.

(** ** Routing *)
Section route.
Context (n_exp top_k : nat) (Hexp : (N.of_nat n_exp <= u32_max)%N) (Hk : top_k ≤ n_exp).

Definition probabilities (router : nat → list E) (x : list E) : list E := e_softmax (dense_row router n_exp x).
(** The experts of a row, the most likely first, and their weights. *)
Definition chosen (p : list E) : list nat := take top_k (e_argsort p).
Definition chosen_weights (normalize : bool) (p : list E) : list E :=
  let ws := at_ p <$> chosen p in
  if normalize && (1 <? top_k) then (λ w, e_div w (e_add (e_sum ws) (e_cast T_F64 T_F32 (e_f64 route_eps)))) <$> ws else ws.

Lemma argsort_bounds (p : list E) : length p = n_exp → length (e_argsort p) = n_exp ∧ Forall (λ i, i < n_exp) (e_argsort p) ∧ NoDup (e_argsort p).
Proof using All.
  intros Hl. pose proof (argsort_perm (T := T) p) as Hp. rewrite Hl in Hp. split_and!.
  - by rewrite Hp, length_seq.
  - rewrite Hp. apply Forall_forall. intros i Hi%elem_of_seq. lia.
  - rewrite Hp. apply NoDup_seq.
Qed.

Lemma chosen_ok (p : list E) : length p = n_exp → length (chosen p) = top_k ∧ Forall (λ i, i < n_exp) (chosen p) ∧ NoDup (chosen p).
Proof using All.
  intros Hl. destruct (argsort_bounds p Hl) as (H1 & H2 & H3). unfold chosen. split_and!.
  - rewrite length_take. lia.
  - by apply Forall_take.
  - eapply sublist_NoDup; [exact H3 | apply sublist_take].
Qed.

Lemma row_of_flat (f : nat → nat → E) r c t : t < r →
  rows_of c r (tab [r; c] (ix2 f)) !! t = Some ((λ j, f t j) <$> seq 0 c).
Proof using All.
  intros Ht. rewrite rows_of_seq, list_lookup_fmap, lookup_seq_lt by done. cbn [fmap option_fmap option_map Nat.add]. f_equal.
  apply list_eq. intros j. rewrite list_lookup_fmap. destruct (decide (j < c)) as [Hj|Hj].
  - rewrite lookup_take_lt, lookup_drop, lookup_seq_lt by done.
    replace (t * c + j) with (ravel [r; c] [t; j]) by (cbn; lia). by rewrite tab_lookup by (cbn; lia).
  - rewrite !lookup_ge_None_2; [done | rewrite length_seq; lia | rewrite length_take; lia].
Qed.

(** The router's scores of every row. *)
Lemma probabilities_table flat router n h X Wr : table flat n h X →
  den router T_F32 [n_exp; h] (λ i, match i with [o; j] => at_ (Wr o) j | _ => e_zero end) → (∀ o, o < n_exp → length (Wr o) = h) →
  ∃ p, (x <-? n_to_dtype flat T_F32; r <-? n_to_dtype router T_F32; rt <-? n_t r; logits <-? n_matmul x rt; m_softmax_last_dim logits) = Ok p
    ∧ table p n n_exp (λ t, probabilities Wr (X t)).
Proof using All.
  intros [Hf Hl] Hr Hlr. destruct (to_dtype_ok flat T_F32 T_F32 _ _ Hf) as (x & -> & Hx). cbn [result_bind].
  apply (den_ext _ _ _ _ (ix2 (λ i j, at_ (X i) j))) in Hx; [| intros; apply e_cast_same].
  destruct (to_dtype_ok router T_F32 T_F32 _ _ Hr) as (r & -> & Hr'). cbn [result_bind].
  destruct (t_ok r T_F32 _ _ Hr' ltac:(cbn; lia)) as (rt & -> & Hrt). cbn [result_bind swap_last] in *.
  destruct (matmul2_ok x rt T_F32 n h n_exp _ _ ltac:(by left) Hx Hrt) as (lg & -> & Hlg). cbn [result_bind].
  assert (Ht : table lg n n_exp (λ t, dense_row Wr n_exp (X t))).
  { split; [| intros t _; unfold dense_row; by rewrite length_fmap, length_seq]. apply (den_ext _ _ _ _ _ Hlg).
    intros [|t [|o [|? ?]]]; cbn [inb]; try tauto. intros (Htn & Ho & _). cbn [ix2]. unfold dense_row. rewrite at_fmap by done. f_equal.
    - apply list_of_at, Hl, Htn.
    - etrans; [| apply list_of_at, Hlr, Ho]. apply list_fmap_ext. intros _ k _. cbn. apply e_cast_same. }
  destruct (softmax_last_ok lg T_F32 [n] n_exp _ ltac:(by left) (proj1 Ht)) as (p & -> & Hp). exists p. split; [done |].
  split; [| intros t Hlt; unfold probabilities; rewrite length_e_softmax; by apply (proj2 Ht)].
  apply (den_ext _ _ _ _ _ Hp). intros [|t [|o [|? ?]]]; cbn [inb app]; try tauto. intros (Htn & Ho & _). cbn [ix2 List.last].
  rewrite row_at_table by (by apply (proj2 Ht)). done.
Qed.

(** The first of the sorted positions. *)
Lemma chosen_table p n P : table p n n_exp P →
  ∃ ids, (sorted <-? m_arg_sort_desc p; k <-? minus1 sorted; ids <-? n_narrow sorted k 0 top_k; n_contiguous ids) = Ok ids
    ∧ den ids T_U32 [n; top_k] (ix2 (λ t j, e_u32 (N.of_nat (default 0 (chosen (P t) !! j))))).
Proof using All.
  intros [Hp Hl]. destruct (arg_sort_ok p T_F32 [n] n_exp _ ltac:(by left) Hp) as (so & -> & Hso). cbn [result_bind app] in *.
  pose proof Hso as (Ds & _ & _). unfold minus1. rewrite Ds. cbn [length result_bind].
  destruct (narrow_ok so T_U32 _ _ 1 0 top_k n_exp Hso eq_refl ltac:(lia)) as (ids & -> & Hids). cbn [result_bind insert list_insert] in *.
  destruct (contiguous_ok ids T_U32 _ _ Hids) as (ids' & -> & Hids'). exists ids'. split; [done |]. apply (den_ext _ _ _ _ _ Hids').
  intros [|t [|j [|? ?]]]; cbn [inb]; try tauto. intros (Ht & Hj & _). cbn [alter list_alter ix2 List.last].
  rewrite row_at_table by (by apply Hl). unfold chosen. by rewrite lookup_take_lt.
Qed.

Lemma chosen_lt (P : nat → list E) n t j : (∀ t, t < n → length (P t) = n_exp) → t < n → j < top_k →
  ∃ e, chosen (P t) !! j = Some e ∧ e < n_exp ∧ N.to_nat (e_to_u32 (E := E) (e_u32 (N.of_nat e))) = e.
Proof using All.
  intros Hl Ht Hj. destruct (chosen_ok (P t) (Hl t Ht)) as (H1 & H2 & _). destruct (lookup_lt_is_Some_2 (chosen (P t)) j) as [e Ee]; [by rewrite H1 |].
  exists e. split; [done |]. pose proof (Forall_lookup_1 _ _ _ _ H2 Ee) as Hlt. cbn beta in Hlt. split; [done |]. rewrite e_to_u32_of by lia. apply Nat2N.id.
Qed.

(** The scores of the chosen experts, and those divided by their sum. *)
Lemma gathered_table p ids n P Q : table p n n_exp P → (∀ t, t < n → length (Q t) = n_exp) →
  den ids T_U32 [n; top_k] (ix2 (λ t j, e_u32 (N.of_nat (default 0 (chosen (Q t) !! j))))) →
  ∃ g, m_gather_last p ids = Ok g ∧ table g n top_k (λ t, at_ (P t) <$> chosen (Q t)).
Proof using All.
  intros [Hp Hl] HQ Hids. destruct (gather_ok p ids T_F32 [n] n_exp top_k _ _ Hp Hids) as (g & -> & Hg).
  { intros [|t [|j [|? ?]]]; cbn [inb app]; try tauto. intros (Ht & Hj & _). cbn [ix2].
    destruct (chosen_lt Q n t j HQ Ht Hj) as (e & -> & He & Ee). by rewrite default_Some, Ee. }
  exists g. split; [done |]. split; [| intros t Ht; rewrite length_fmap; by apply chosen_ok, HQ]. apply (den_ext _ _ _ _ _ Hg).
  intros [|t [|j [|? ?]]]; cbn [inb app]; try tauto. intros (Ht & Hj & _). cbn [ix2].
  destruct (chosen_lt Q n t j HQ Ht Hj) as (e & Ee & He & Eu). rewrite Ee, default_Some, Eu.
  unfold set_last. cbn [removelast app ix2]. unfold at_ at 2. by rewrite list_lookup_fmap, Ee.
Qed.

Lemma normalized_table g n W : table g n top_k W →
  ∃ w, (s <-? m_sum_keepdim g; s <-? n_add_scalar s route_eps; n_broadcast_div g s) = Ok w
    ∧ table w n top_k (λ t, (λ x, e_div x (e_add (e_sum (W t)) (e_cast T_F64 T_F32 (e_f64 route_eps)))) <$> W t).
Proof using All.
  intros Hg. destruct (sum_keepdim_ok g T_F32 [n] top_k _ ltac:(by left) (proj1 Hg)) as (sm & -> & Hsm). cbn [result_bind app] in *.
  destruct (add_scalar_ok sm T_F32 _ _ route_eps ltac:(by left) Hsm) as (sm' & -> & Hsm'). cbn [result_bind].
  destruct (broadcast_div_ok g sm' T_F32 _ _ _ _ ltac:(by left) (proj1 Hg) Hsm' (bfits_column n top_k)) as (w & -> & Hw).
  exists w. split; [done |]. split; [| intros t Ht; rewrite length_fmap; by apply Hg]. apply (den_ext _ _ _ _ _ Hw).
  intros [|t [|j [|? ?]]]; cbn [inb]; try tauto. intros (Ht & Hj & _). rewrite bidx_column by done. cbn [ix2].
  rewrite row_at_table by (by apply (proj2 Hg)). symmetry. pose proof (proj2 Hg t Ht) as Hlt.
  exact (at_map (λ x, e_div x (e_add (e_sum (W t)) (e_cast T_F64 T_F32 (e_f64 route_eps)))) _ _ top_k Hlt Hj).
Qed.

Lemma weights_table p ids n P normalize : table p n n_exp P →
  den ids T_U32 [n; top_k] (ix2 (λ t j, e_u32 (N.of_nat (default 0 (chosen (P t) !! j))))) →
  ∃ w, (route_weights <-? m_gather_last p ids;
        if normalize && (1 <? top_k) then s <-? m_sum_keepdim route_weights; s <-? n_add_scalar s route_eps; n_broadcast_div route_weights s
        else Ok route_weights) = Ok w
    ∧ table w n top_k (λ t, chosen_weights normalize (P t)).
Proof using All.
  intros Hp Hids. destruct (gathered_table p ids n P P Hp (proj2 Hp) Hids) as (g & -> & Hg). cbn [result_bind].
  unfold chosen_weights. destruct (normalize && (1 <? top_k)); [by apply normalized_table | by exists g].
Qed.

(** Ids and weights read back. *)
Lemma routing_read ids w n P V :
  den ids T_U32 [n; top_k] (ix2 (λ t j, e_u32 (N.of_nat (default 0 (chosen (P t) !! j))))) →
  table w n top_k V → (∀ t, t < n → length (P t) = n_exp) →
  ∃ cpu_ids cpu_weights, (a <-? m_to_vec2_u32 ids; w <-? n_to_dtype w T_F32; b <-? n_to_vec2_f32 w; Ok (a, b)) = Ok (cpu_ids, cpu_weights)
    ∧ routing_is cpu_ids cpu_weights n top_k (λ t, N.of_nat <$> chosen (P t)) (λ t, e_to_f32 <$> V t).
Proof using All.
  intros Hids Hw Hl. rewrite (to_vec2_u32_ok ids n top_k _ Hids). cbn [result_bind].
  destruct (to_dtype_ok w T_F32 T_F32 _ _ (proj1 Hw)) as (w' & -> & Hw'). cbn [result_bind].
  rewrite (nd_to_vec2_ok w' n top_k _ Hw'). cbn [result_bind]. eexists _, _. split; [done |]. intros t Ht.
  pose proof Hids as (_ & _ & ->). apply (den_ext _ _ _ _ (ix2 (λ t j, at_ (V t) j))) in Hw'; [| intros; apply e_cast_same].
  pose proof Hw' as (_ & _ & ->). pose proof (proj2 Hw t Ht) as Hlw.
  destruct (chosen_ok (P t) (Hl t Ht)) as (Hlc & Hbc & _).
  split_and!; [| | by rewrite length_fmap | by rewrite length_fmap].
  - rewrite rows_of_fmap, list_lookup_fmap, row_of_flat by done. cbn [fmap option_fmap option_map]. f_equal.
    apply list_eq. intros j. rewrite !list_lookup_fmap. destruct (decide (j < top_k)) as [Hj|Hj].
    + rewrite lookup_seq_lt by done. cbn [fmap option_fmap option_map Nat.add].
      destruct (chosen_lt P n t j Hl Ht Hj) as (e & Ee & He & Eu). rewrite Ee, default_Some.
      cbn [fmap option_fmap option_map]. f_equal. lia.
    + rewrite !lookup_ge_None_2; [done | lia | rewrite length_seq; lia].
  - rewrite rows_of_fmap, list_lookup_fmap, row_of_flat by done. cbn [fmap option_fmap option_map]. do 2 f_equal. by apply list_of_at.
Qed.

Lemma route_gives flat router n h X Wr normalize : table flat n h X →
  den router T_F32 [n_exp; h] (λ i, match i with [o; j] => at_ (Wr o) j | _ => e_zero end) → (∀ o, o < n_exp → length (Wr o) = h) →
  ∃ ids ws, route flat router top_k normalize = Ok (ids, ws)
    ∧ routing_is ids ws n top_k (λ t, N.of_nat <$> chosen (probabilities Wr (X t)))
        (λ t, e_to_f32 <$> chosen_weights normalize (probabilities Wr (X t))).
Proof using All.
  intros Hf Hr Hlr. destruct (probabilities_table flat router n h X Wr Hf Hr Hlr) as (p & Ep & Hp).
  destruct (chosen_table p n _ Hp) as (ids & Ei & Hids). destruct (weights_table p ids n _ normalize Hp Hids) as (w & Ew & Hw).
  unfold route. revert Ep. destruct (n_to_dtype flat _) as [x|]; cbn [result_bind]; [| done].
  destruct (n_to_dtype router _) as [r|]; cbn [result_bind]; [| done]. destruct (n_t r) as [rt|]; cbn [result_bind]; [| done].
  destruct (n_matmul x rt) as [lg|]; cbn [result_bind]; [| done]. intros ->. cbn [result_bind].
  revert Ei. destruct (m_arg_sort_desc p) as [so|]; cbn [result_bind]; [| done]. destruct (minus1 so) as [k|]; cbn [result_bind]; [| done].
  destruct (n_narrow so k 0 top_k) as [i0|]; cbn [result_bind]; [| done]. intros ->. cbn [result_bind].
  revert Ew. destruct (m_gather_last p ids) as [rw|]; cbn [result_bind]; [| done]. intros ->. cbn [result_bind].
  apply (routing_read ids w n (λ t, probabilities Wr (X t)) _ Hids Hw (proj2 Hp)).
Qed.
End route.

(** ** The sparse layer *)

(** What a sparse layer is made of: router, experts, choice, and the shared expert with its gate. *)
Record SparseRows : Type := mkSparseRows {
  sp_router : nat → list E;
  sp_experts : list (list E → list E);
  sp_top_k : nat;
  sp_normalize : bool;
  sp_shared : option ((list E → list E) * option (list E → list E));
}.

Definition routed_row (s : SparseRows) (x : list E) : list E :=
  let p := probabilities (length (sp_experts s)) (sp_router s) x in
  mixture 0 (sp_experts s) x (gates (chosen (sp_top_k s) p) (e_to_f32 <$> chosen_weights (sp_top_k s) (sp_normalize s) p))
    (replicate (length x) e_zero).
Definition shared_row (Sh : list E → list E) (G : option (list E → list E)) (x : list E) : list E :=
  match G with None => Sh x | Some G => (λ y, e_mul y (e_sigmoid (at_ (G x) 0))) <$> Sh x end.
Definition sparse_row (s : SparseRows) (x : list E) : list E :=
  match sp_shared s with
  | None => routed_row s x
  | Some (Sh, G) => zip_with e_add (routed_row s x) (shared_row Sh G x)
  end.

Definition gate_is (g : option (Linear (T := T))) (G : option (list E → list E)) (h : nat) : Prop :=
  match g with
  | None => G = None
  | Some g => ∃ G', G = Some G' ∧ acts (linear_forward show g) h 1 G'
  end.

Record sparse_is (m : QwenMoe (T := T)) (s : SparseRows) (h : nat) : Prop := {
  si_experts : ∃ router experts, qm_experts m = QE_Dense router experts (sp_top_k s) (sp_normalize s)
    ∧ den router T_F32 [length (sp_experts s); h] (λ i, match i with [o; j] => at_ (sp_router s o) j | _ => e_zero end)
    ∧ Forall2 (λ e F, acts (dense_forward show e) h h F) experts (sp_experts s);
  si_router : ∀ o, o < length (sp_experts s) → length (sp_router s o) = h;
  si_exp : (N.of_nat (length (sp_experts s)) <= u32_max)%N;
  si_top_k : sp_top_k s ≤ length (sp_experts s);
  si_shared : match qm_shared_expert m, sp_shared s with
              | None, None => True
              | Some e, Some (Sh, G) =>
                  acts (dense_forward show e) h h Sh
                  ∧ gate_is (qm_shared_expert_gate m) G h
              | _, _ => False
              end;
}.

Lemma bfits_col3 n h : bfits [1; n; 1] [1; n; h] = true.
Proof. cbn. by rewrite Nat.eqb_refl, orb_true_r. Qed.

Lemma bidx_col3 n i j : i < n → bidx [1; n; 1] [0; i; j] = [0; i; 0].
Proof. intros Hi. unfold bidx. cbn. destruct (Nat.eqb_spec n 1); [f_equal; f_equal; lia | done]. Qed.

Lemma shared_rows e g Sh G x n h R : acts (dense_forward show e) h h Sh →
  gate_is g G h →
  tensor_rows x n h R → ∃ y, shared_forward show e g x = Some (Ok y) ∧ tensor_rows y n h (λ i, shared_row Sh G (R i)).
Proof using All.
  intros HS HG Hx. unfold shared_forward. destruct (acts_rows _ _ _ _ x n R HS Hx) as (y & -> & Hy). cbn [bind_r].
  destruct g as [g|]; cbn [gate_is] in HG; [destruct HG as (G' & -> & HG) | subst; by exists y].
  destruct (acts_rows _ _ _ _ x n R HG Hx) as (z & -> & Hz). cbn [bind_r].
  destruct (sigmoid_ok z T_F32 _ _ ltac:(by left) (proj1 Hz)) as (sg & -> & Hsg). cbn [result_bind].
  pose proof Hy as [(_ & Ty & _) Hly]. rewrite Ty.
  destruct (to_dtype_ok sg T_F32 T_F32 _ _ Hsg) as (sg' & -> & Hsg'). cbn [result_bind].
  destruct (broadcast_mul_ok y sg' T_F32 _ _ _ _ ltac:(by left) (proj1 Hy) Hsg' (bfits_col3 n h)) as (o & -> & Ho).
  exists o. split; [done |]. split; [| intros i Hi; cbn [shared_row]; rewrite length_fmap; by apply Hly]. apply (den_ext _ _ _ _ _ Ho).
  intros [|u [|i [|j [|? ?]]]]; cbn [inb]; try tauto. intros (Hu & Hi & Hj & _). assert (u = 0) as -> by lia.
  rewrite bidx_col3 by done. cbn [ix3 shared_row]. rewrite e_cast_same.
  pose proof (Hly i Hi) as Hli. cbn beta in Hli. symmetry. exact (at_map (λ y, e_mul y (e_sigmoid (at_ (G' (R i)) 0))) _ _ h Hli Hj).
Qed.

Lemma zeros_table flat n w X : table flat n w X → ∃ z, m_zeros_like flat = Ok z ∧ table z n w (λ _, replicate w e_zero).
Proof using All.
  intros [Hf _]. destruct (zeros_like_ok flat T_F32 _ _ ltac:(by left) Hf) as (z & -> & Hz). exists z. split; [done |].
  split; [| intros; apply length_replicate]. apply (den_ext _ _ _ _ _ Hz). intros [|t [|j [|? ?]]]; cbn [inb]; try tauto.
  intros (_ & Hj & _). cbn [ix2]. unfold at_. by rewrite lookup_replicate_2.
Qed.

Lemma routed_rows router fws s n h flat X : den router T_F32 [length (sp_experts s); h]
    (λ i, match i with [o; j] => at_ (sp_router s o) j | _ => e_zero end) →
  (∀ o, o < length (sp_experts s) → length (sp_router s o) = h) → (N.of_nat (length (sp_experts s)) <= u32_max)%N →
  sp_top_k s ≤ length (sp_experts s) → Forall2 (λ fw F, acts fw h h F) fws (sp_experts s) →
  (N.of_nat n <= u32_max)%N → table flat n h X →
  ∃ routes zeros out, route flat router (sp_top_k s) (sp_normalize s) = Ok routes ∧ m_zeros_like flat = Ok zeros
    ∧ run_experts flat routes.1 routes.2 n (sp_top_k s) 0 fws zeros = Some (Ok out)
    ∧ table out n h (λ t, routed_row s (X t)).
Proof using All.
  intros Hr Hlr Hexp Hk Hes Hn Hf.
  destruct (route_gives (length (sp_experts s)) (sp_top_k s) Hexp Hk flat router n h X (sp_router s) (sp_normalize s) Hf Hr Hlr)
    as (ids & ws & Er & Hroutes).
  destruct (zeros_table flat n h X Hf) as (z & Ez & Hz). exists (ids, ws), z. cbn [fst snd].
  destruct (run_experts_table _ _ flat n h (sp_top_k s) ids ws _ _ X Hes Hn Hf Hroutes 0 z _ Hz) as (out & Eo & Ho).
  exists out. split_and!; [done | done | exact Eo |]. apply (table_ext _ _ _ _ _ Ho). intros t Ht. unfold routed_row. cbv zeta.
  rewrite (proj2 Hf t Ht).
  assert (Hlp : length (probabilities (length (sp_experts s)) (sp_router s) (X t)) = length (sp_experts s)).
  { unfold probabilities. rewrite length_e_softmax. unfold dense_row. by rewrite length_fmap, length_seq. }
  destruct (chosen_ok (length (sp_experts s)) (sp_top_k s) Hexp Hk _ Hlp) as (Hc & _ & Hnd).
  apply mix_is_mixture; [done |]. rewrite length_fmap. unfold chosen_weights. destruct (_ && _); by rewrite ?length_fmap.
Qed.

(** Any batch of tokens: each row alone. *)
Lemma moe_rows m s h max : sparse_is m s h → h ≠ 0 → (N.of_nat max <= u32_max)%N → on_rows max (moe_forward show m) h h (sparse_row s).
Proof using All.
  intros Hm Hh Hmax x n R Hn Hx. pose proof Hx as [(Dx & _ & _) _]. unfold moe_forward, dim_minus1, minus1, n_dim. rewrite Dx.
  cbn [length result_bind lookup list_lookup bind_r]. rewrite (proj2 (Nat.eqb_neq h 0) Hh).
  assert (nprod [1; n; h] / h = n) as -> by (cbn; rewrite Nat.mul_1_r, Nat.add_0_r; by apply Nat.div_mul).
  destruct (flatten_rows x n h R Hx) as (flat & -> & Hf). cbn [bind_r]. destruct (si_experts _ _ _ Hm) as (router & experts & -> & Hr & Hes).
  assert (Hes' : Forall2 (λ fw F, acts fw h h F) (dense_forward show <$> experts) (sp_experts s)) by (by apply Forall2_fmap_l).
  destruct (routed_rows router _ s n h flat R Hr (si_router _ _ _ Hm) (si_exp _ _ _ Hm) (si_top_k _ _ _ Hm) Hes' ltac:(lia) Hf)
    as (routes & zeros & out & -> & Ez & Eo & Ho). cbn [bind_r]. rewrite Ez. cbn [bind_r]. rewrite Eo. cbn [bind_r].
  destruct (unflatten_rows out n h _ Ho) as (y & -> & Hy). cbn [bind_r]. unfold sparse_row. pose proof (si_shared _ _ _ Hm) as Hs.
  destruct (qm_shared_expert m) as [e|], (sp_shared s) as [[Sh G]|]; try done; [| by exists y].
  destruct Hs as [HS HG]. destruct (shared_rows e (qm_shared_expert_gate m) Sh G x n h R HS HG Hx) as (z & -> & Hz). cbn [bind_r].
  destruct (add_rows y z n h _ _ Hy Hz) as (o & -> & Hout). by exists o.
Qed.
End rows.

Section model.
Context {T E : Type} `{!NdOps T, !MoeOps T, !Scalars E, !MoeScalars E, !Elements T E, !LawfulNd T E, !LawfulScalars E, !LawfulMoe T E, !MaskLaws E}.
#[local] Abbreviation gives := (gives (T := T) (E := E)).
#[local] Abbreviation den := (den (T := T) (E := E)).
#[local] Abbreviation KV := ((nat → nat → E) * (nat → nat → E))%type.
#[local] Abbreviation ModelFn := (ModelFn (T := T) (E := E) (K := KV)).
Context (show : nat → string) (hidden max out : nat) (Hmax : (N.of_nat max <= u32_max)%N).

(** ** Decoder layers *)
Record qwen_layer_is (l : QwenDecoderLayer (T := T)) (L : LayerFn (E := E)) : Prop := {
  qi_attn : attn_is show (ql_attention l) (lr_attn L) hidden;
  qi_ff : on_rows max (ff_forward show (ql_feed_forward l)) hidden hidden (lr_mlp L);
  qi_input_norm : rowwise (rms_forward (ql_input_norm l)) hidden hidden (lr_input_norm L);
  qi_post_norm : rowwise (rms_forward (ql_post_attention_norm l)) hidden hidden (lr_post_norm L);
}.

Lemma ff_block_rows l L x n R : qwen_layer_is l L → n ≤ max → tensor_rows x n hidden R →
  ∃ y, ff_block show l x = Some (Ok y) ∧ tensor_rows y n hidden (λ i, zip_with e_add (R i) (lr_mlp L (lr_post_norm L (R i)))).
Proof using All.
  intros Hl Hn Hx. unfold ff_block.
  destruct (acts_rows _ _ _ _ x n R (rowwise_acts _ _ _ _ (qi_post_norm _ _ Hl)) Hx) as (m & [= ->] & Hm). cbn [bind_r].
  destruct (qi_ff _ _ Hl m n _ Hn Hm) as (y & -> & Hy). cbn [bind_r].
  destruct (add_rows x y n hidden _ _ Hx Hy) as (z & -> & Hz). by exists z.
Qed.

Lemma qwen_layer_computes rp l L : qwen_layer_is l L → rope_for rp max (lr_attn L) →
  computes hidden max false (λ x positions c, qwen_layer_forward show l x positions c rp) (causal L).
Proof using All.
  intros Hl Hr. split; [done |]. intros R n m c x Hm Hor Hle Hx Hc. unfold qwen_layer_forward.
  destruct (acts_rows _ _ _ _ x _ _ (rowwise_acts _ _ _ _ (qi_input_norm _ _ Hl)) Hx) as (y & [= ->] & Hy).
  assert (Hy' : tensor_rows y (length (seq n m)) hidden (λ i, lr_input_norm L (R (n + i)))) by (rewrite length_seq; exact Hy).
  destruct (attention_rows show _ _ hidden rp max y (seq n m) (λ i, lr_input_norm L (R (n + i))) c (kvs (causal L) R 0 n) (qi_attn _ _ Hl) Hr Hmax) as (z & c' & -> & Hz & Hc');
    [by destruct m | by apply seq_positions | rewrite length_seq; destruct Hor as [|[-> |]]; [by left | by right | done] | exact Hy' | exact Hc |].
  cbn [mbind option_bind bind_r].
  change (new_kvs (lr_attn L) (seq n m) (λ i, lr_input_norm L (R (n + i)))) with (layer_kvs L (seq n m) (λ i, R (n + i))) in Hz, Hc'.
  rewrite layer_kvs_seq, length_seq in Hz. rewrite layer_kvs_seq, <- kvs_app in Hc'.
  destruct (add_rows x z _ hidden _ _ Hx Hz) as (h & -> & Hh). cbn [bind_r].
  destruct (ff_block_rows l L h m _ Hl ltac:(lia) Hh) as (o & -> & Ho). cbn [mbind option_bind].
  exists o, c'. split; [done |]. split; [| exact Hc']. apply (tensor_rows_ext _ _ _ _ _ Ho). intros i Hi.
  rewrite lookup_seq_lt by done. change (default 0 (Some (n + i))) with (n + i). rewrite take_kvs by done. done.
Qed.

(** ** The model *)
Record qwen_is (m : QwenModel (T := T)) (F : ModelFn) : Prop := {
  wi_embed : ∃ w, linear_weight show (qw_embed_tokens m) = Some (Ok w) ∧ table_is w F hidden;
  wi_layers : ∃ Ls, mf_layers F = causal <$> Ls
    ∧ Forall2 (λ l L, qwen_layer_is l L ∧ rope_for (qw_rope m) max (lr_attn L)) (qw_layers m) Ls;
  wi_norm : rowwise (rms_forward (qw_norm m)) hidden hidden (mf_norm F);
  wi_head : acts (linear_forward show (qw_lm_head m)) hidden out (mf_head F);
}.

Lemma qwen_layers_are m F : qwen_is m F →
  layers_are hidden max false (λ l x positions c, qwen_layer_forward show l x positions c (qw_rope m)) (qw_layers m) (mf_layers F).
Proof using All.
  intros HF. destruct (wi_layers _ _ HF) as (Ls & -> & H). apply Forall2_fmap_r, (Forall2_impl _ _ _ _ H).
  intros l L [Hl Hr]. by apply qwen_layer_computes.
Qed.

Lemma qwen_causal m F : qwen_is m F → CausalModel (qwen_forward show m) F (length (qw_layers m)) max out false.
Proof using All.
  intros HF. pose proof (qwen_layers_are m F HF) as Hls. destruct (wi_embed _ _ HF) as (w & Ew & Hw). split.
  - apply Hw.
  - by apply (fresh_caches hidden max false _ _ F Hls).
  - intros ctx ts ids caches Hv Hne Hor Hle Eids Hc. unfold qwen_forward, qwen_embed.
    rewrite (caches_length _ _ _ _ Hc), <- (Forall2_length _ _ _ Hls), Nat.eqb_refl. cbn [negb]. rewrite Ew. cbn [bind_r].
    destruct (embedding_rows w F hidden ids ts Hw Hne (proj2 (proj1 (Forall_app _ _ _) Hv)) Eids) as (x & -> & Hx).
    destruct (layers_loop_rows hidden max false _ (in_qwen_layer show) _ _ Hls (token_rows F (ctx ++ ts)) (length ctx) (length ts) [] caches x)
      as (h & caches' & E1 & Hh & Hc'); [by destruct ts | done | done | by apply token_rows_app | by apply caches_app |].
    cbn [length app] in E1. rewrite E1. cbn [mbind option_bind bind_r].
    destruct (acts_rows _ _ _ _ h _ _ (rowwise_acts _ _ _ _ (wi_norm _ _ HF)) Hh) as (y & [= ->] & Hy). cbn [bind_r].
    destruct (acts_rows _ _ _ _ y _ _ (wi_head _ _ HF) Hy) as (z & -> & Hz). cbn [mbind option_bind].
    exists z, caches'. split; [done |]. split; [| unfold caches_for; by rewrite length_app].
    apply (tensor_rows_ext _ _ _ _ _ Hz). intros i Hi. by apply lm_take.
Qed.
End model.

(** ** Generation *)
Lemma last_max_total_in l : ∀ best, last_max_total best l ∈ best :: l.
Proof.
  induction l as [|x l IH]; intros best; cbn [last_max_total]; [by left |]. specialize (IH (match F32.total_cmp best.2 x.2 with Gt => best | _ => x end)).
  apply elem_of_cons in IH as [IH|IH]; [rewrite IH; destruct (F32.total_cmp _ _); set_solver | set_solver].
Qed.

Lemma argmax_total_lt (l : list f32) : l ≠ [] → (N.of_nat (length l) <= u32_max)%N → N.to_nat (argmax_total l) < length l.
Proof.
  intros Hne Hu. unfold argmax_total. destruct (imap pair l) as [|x r] eqn:El; [by destruct l |].
  pose proof (last_max_total_in r x) as H. rewrite <- El in H. apply elem_of_lookup_imap in H as (i & y & Ei & Hi).
  rewrite Ei. cbn [fst]. apply lookup_lt_Some in Hi. unfold as_u32, u32_max in *. rewrite N.mod_small by lia. lia.
Qed.

Section generation.
Context {T E K : Type} `{!NdOps T, !Scalars E, !Elements T E, !LawfulNd T E, !LawfulScalars E}.
Context (to_vec1_f32 : T → result (list f32) TensorError).
Context (to_vec1_ok : ∀ (t : T) n (f : list nat → E), den t T_F32 [n] f → to_vec1_f32 t = Ok (e_to_f32 <$> n_flat t)).
Context (fwd : T → list nat → list (option (T * T)) → option (result T TensorError * list (option (T * T)))).
Context (F : ModelFn (T := T) (E := E) (K := K)) (layers max out : nat) (chunked : bool) `{!CausalModel fwd F layers max out chunked}.
Context (Hout : out ≠ 0) (Hvo : out ≤ mf_vocab F).

Definition total_choice (l : list E) : N := argmax_total (e_to_f32 <$> l).

Lemma qwen_argmax_gives (t : T) R : tensor_rows t 1 out R → qwen_argmax to_vec1_f32 t = Ok (total_choice (R 0)).
Proof using All.
  intros [Ht Hl]. unfold qwen_argmax.
  destruct (nd_flatten_ok t T_F32 _ _ (λ i, at_ (R 0) (default 0 (i !! 0))) Ht) as (f & -> & Hf).
  { cbn [nprod foldr tab seq mbind list_bind ix3]. rewrite !app_nil_r. by replace (1 * (1 * (out * 1))) with out by lia. }
  cbn [result_bind]. destruct (to_dtype_ok f T_F32 T_F32 _ _ Hf) as (g & -> & Hg). cbn [result_bind].
  rewrite (to_vec1_ok g _ _ Hg). cbn [result_bind]. unfold total_choice. do 3 f_equal. pose proof Hg as (_ & _ & ->).
  cbn [nprod foldr tab]. replace (1 * (1 * (out * 1))) with out by lia. etrans; [| apply (list_of_at _ out), Hl; lia].
  generalize (seq 0 out) as l. induction l as [|j l IH]; [done |]. cbn. rewrite e_cast_same. f_equal. exact IH.
Qed.

Lemma total_chooses : chooses out total_choice.
Proof using All.
  intros l Hl. unfold total_choice. rewrite <- Hl, <- (length_fmap e_to_f32 l). apply argmax_total_lt.
  - intros E0%(f_equal length). rewrite length_fmap in E0. cbn in E0. lia.
  - rewrite length_fmap, Hl. pose proof (cm_vocab (fwd := fwd)). lia.
Qed.

Lemma generate_loop_greedy max_tokens : max_tokens ≤ max → ∀ steps tokens logits n R cache,
  max_tokens - length tokens ≤ steps → length tokens ≤ max_tokens → valid_tokens F tokens → tensor_rows logits (S n) out R → R n = lm F tokens →
  caches_for F tokens cache →
  generate_loop to_vec1_f32 fwd steps max_tokens tokens logits cache
  = Some (Ok (greedy F total_choice (max_tokens - length tokens) tokens)).
Proof using All.
  intros Hmt. induction steps as [|steps IH]; intros tokens logits n R cache Hst Hle Hv Hlog HR Hc.
  { cbn. by replace (max_tokens - length tokens) with 0 by lia. }
  cbn [generate_loop]. destruct (Nat.ltb_spec (length tokens) max_tokens) as [Hlt|Hge]; cycle 1.
  { by replace (max_tokens - length tokens) with 0 by lia. }
  pose proof Hlog as [(Dl & _ & _) _]. unfold last_position, n_dim. rewrite Dl. cbn [lookup list_lookup bind_r].
  rewrite sub_checked_Some by lia. cbn [mbind option_bind Nat.sub]. rewrite Nat.sub_0_r.
  destruct (last_row out logits n R Hlog) as (lst & -> & Hlst). cbn [bind_r]. rewrite (qwen_argmax_gives lst _ Hlst), HR. cbn [bind_r].
  set (next := total_choice (lm F tokens)). rewrite length_app. cbn [length].
  replace (max_tokens - length tokens) with (S (max_tokens - (length tokens + 1))) by lia. cbn [greedy]. fold (next_token F total_choice tokens) in next.
  assert (Hnext : valid_tokens F [next]).
  { apply (next_valid F out total_choice tokens total_chooses Hvo). rewrite <- HR. apply Hlog. lia. }
  destruct (Nat.eqb_spec (length tokens + 1) max_tokens) as [He|Hne].
  { replace (max_tokens - (length tokens + 1)) with 0 by lia. done. }
  rewrite sub_checked_Some by lia. cbn [mbind option_bind]. rewrite Nat.add_sub.
  assert (Hv' : valid_tokens F (tokens ++ [next])) by (by apply Forall_app).
  destruct (pass_token fwd F layers max out chunked tokens next cache Hv' ltac:(lia) Hc) as (ids & logits' & cache' & -> & Ef & Hl' & _ & Hc').
  cbn [bind_r]. rewrite Ef. cbn [mbind option_bind bind_r].
  rewrite (IH (tokens ++ [next]) logits' 0 (λ _, lm F (tokens ++ [next])) cache'); rewrite ?length_app; cbn [length]; [done | lia | lia | done | exact Hl' | done | done].
Qed.

Lemma generate_greedy prompt max_tokens : prompt ≠ [] → valid_tokens F prompt → length prompt ≤ max → max_tokens ≤ max →
  qwen_generate to_vec1_f32 fwd layers prompt max_tokens = Some (Ok (greedy F total_choice (max_tokens - length prompt) prompt)).
Proof using All.
  intros Hne Hv Hle Hmt. unfold qwen_generate. destruct prompt as [|p0 prompt0] eqn:Ep; [done |]. rewrite <- Ep in *. clear Ep p0 prompt0.
  destruct (Nat.leb_spec max_tokens (length prompt)) as [Hm|Hm].
  { by replace (max_tokens - length prompt) with 0 by lia. }
  destruct (ids_tensor_gives prompt) as (ids & Eids & _). rewrite Eids. cbn [bind_r].
  destruct (pass_prompt fwd F layers max out chunked prompt ids Hv Hne Hle Eids) as (logits & cache & Ef & Hl & Hc). rewrite Ef.
  cbn [mbind option_bind bind_r]. destruct (length prompt) as [|n] eqn:En; [by destruct prompt |]. rewrite <- En.
  apply (generate_loop_greedy max_tokens Hmt max_tokens prompt logits n (λ i, lm F (take (S i) prompt)) cache ltac:(lia) ltac:(lia) Hv Hl); [| done].
  by rewrite take_ge by lia.
Qed.
End generation.

(** ** What is promised, in exact arithmetic *)
Section promises.
Context {T : Type} `{!Rounding, !NdOps T, !MoeOps T, !Elements T Exact, !LawfulNd T Exact, !LawfulMoe T Exact}.
Context (show : nat → string).
#[local] Abbreviation KV := ((nat → nat → Exact) * (nat → nat → Exact))%type.

(** C11. The sparse layer mixes no tokens.  When the tensor library's operations
    compute over the real numbers, then whatever batch a token is in, its row of the
    output is the sum, over the experts its router ranks highest and in the order of
    their numbers, of what each makes of its row times its weight, plus the gated
    shared expert; so equal rows of two batches, however large, get equal rows.  (How
    a weight is rounded to [f32] on the way is left open.) *)
Theorem sparse_layer_rowwise (m : QwenMoe (T := T)) (s : SparseRows (E := Exact)) h x n R x' n' R' i i' :
  sparse_is show m s h → h ≠ 0 → (N.of_nat n <= u32_max)%N → (N.of_nat n' <= u32_max)%N →
  tensor_rows x n h R → tensor_rows x' n' h R' → i < n → i' < n' → R i = R' i' →
  ∃ y y', moe_forward show m x = Some (Ok y) ∧ moe_forward show m x' = Some (Ok y')
    ∧ row_of h y i = sparse_row s (R i) ∧ row_of (E := Exact) h y' i' = row_of h y i.
Proof using All.
  intros Hm Hh Hn Hn' Hx Hx' Hi Hi' Heq.
  destruct (moe_rows show m s h n Hm Hh Hn x n R ltac:(lia) Hx) as (y & -> & Hy).
  destruct (moe_rows show m s h n' Hm Hh Hn' x' n' R' ltac:(lia) Hx') as (y' & -> & Hy').
  exists y, y'. rewrite (row_of_rows h y n _ i Hy Hi), (row_of_rows h y' n' _ i' Hy' Hi'), Heq. done.
Qed.

(** C12. Qwen generation, in exact arithmetic.  When the tensor library's operations
    compute over the real numbers and only the logits read back are rounded, in
    whatever way, then for a non-empty prompt of known tokens that fits, [generate]
    with a model of dense or sparse layers returns without error or panic the prompt
    extended, a token at a time over the caches, by the last of the greatest logits
    (by the total order of floats) of the language model of the weights, until
    there are [max_tokens] tokens in all. *)
Theorem qwen_generates (to_vec1_f32 : T → result (list f32) TensorError) hidden max out m (F : ModelFn (T := T) (E := Exact) (K := KV)) prompt max_tokens :
  (∀ (t : T) n (f : list nat → Exact), den t T_F32 [n] f → to_vec1_f32 t = Ok (e_to_f32 <$> n_flat (E := Exact) t)) →
  (N.of_nat max <= u32_max)%N → qwen_is show hidden max out m F → out ≠ 0 → out ≤ mf_vocab F →
  prompt ≠ [] → valid_tokens F prompt → length prompt ≤ max → max_tokens ≤ max →
  qwen_generate to_vec1_f32 (qwen_forward show m) (length (qw_layers m)) prompt max_tokens
  = Some (Ok (greedy F total_choice (max_tokens - length prompt) prompt)).
Proof using All.
  intros Hvec Hmax HF Ho Hvo Hne Hv Hle Hmt. pose proof (qwen_causal show hidden max out Hmax m F HF) as Hc.
  by apply (generate_greedy to_vec1_f32 Hvec (qwen_forward show m) F (length (qw_layers m)) max out false).
Qed.
End promises.

(** ** A small sparse model *)
#[local] Existing Instance up_rounding.

Definition demo_expert (a b : Z) : DenseMlp (T := NdHost Exact) :=
  mkDenseMlp (linear_new (mat 1 2 [a; b]%Z)) (linear_new (mat 1 2 [1; -1]%Z)) (linear_new (mat 2 1 [1; -1]%Z)).
Definition demo_expert_fn (a b : Z) : list Exact → list Exact := mlp_row (dense_fn 1 2 [a; b]%Z) (dense_fn 1 2 [1; -1]%Z) (dense_fn 2 1 [1; -1]%Z).

Definition demo_moe : QwenMoe (T := NdHost Exact) :=
  mkQwenMoe (QE_Dense (mat 3 2 [1; 0; 0; 1; 1; 1]%Z) [demo_expert 1 1; demo_expert 2 0; demo_expert 0 3] 2 true)
    (Some (demo_expert 1 2)) (Some (linear_new (mat 1 2 [1; 1]%Z))).
Definition demo_sparse : SparseRows (E := Exact) :=
  mkSparseRows (mat_row 2 [1; 0; 0; 1; 1; 1]%Z) [demo_expert_fn 1 1; demo_expert_fn 2 0; demo_expert_fn 0 3] 2 true
    (Some (demo_expert_fn 1 2, Some (dense_fn 1 2 [1; 1]%Z))).

#[local] Ltac toy_den := split_and!; vm_compute; reflexivity.
#[local] Ltac toy_dense := apply dense_acts; [toy_den | by repeat constructor].
#[local] Ltac toy_gain := apply gain_rowwise; [done | toy_den].

Lemma demo_expert_acts a b : acts (T := NdHost Exact) (dense_forward no_show (demo_expert a b)) 2 2 (demo_expert_fn a b).
Proof.
  apply (dense_mlp_acts no_show (demo_expert a b) 2 1); [| toy_dense | toy_dense].
  apply dense_acts; [split_and!; reflexivity | by repeat constructor].
Qed.

Lemma demo_moe_is : sparse_is no_show demo_moe demo_sparse 2.
Proof.
  split.
  - eexists _, _. split; [reflexivity |]. split; [toy_den |]. repeat (apply Forall2_cons; split; [apply demo_expert_acts |]). by apply Forall2_nil.
  - intros [|[|[|o]]] Ho; cbn in Ho; done || lia.
  - done.
  - cbn. lia.
  - cbn. split; [apply demo_expert_acts |]. eexists. split; [reflexivity | toy_dense].
Qed.

Definition demo_row (l : list Z) (i : nat) : list Exact := real <$> take 2 (drop (i * 2) l).
Definition demo_batch (n : nat) (l : list Z) : NdHost Exact := mkNdHost [1; n; 2] T_F32 (real <$> l).

(** The same token alone and in a batch of three. *)
Lemma sparse_layer_rowwise_witness :
  ∃ y y', moe_forward no_show demo_moe (demo_batch 3 [1; 0; 2; 1; 0; 3]%Z) = Some (Ok y)
    ∧ moe_forward no_show demo_moe (demo_batch 1 [2; 1]%Z) = Some (Ok y')
    ∧ row_of 2 y 1 = sparse_row demo_sparse [real 2; real 1] ∧ row_of 2 y' 0 = row_of (E := Exact) 2 y 1.
Proof.
  apply (sparse_layer_rowwise (T := NdHost Exact) no_show demo_moe demo_sparse 2 (demo_batch 3 [1; 0; 2; 1; 0; 3]%Z) 3 (demo_row [1; 0; 2; 1; 0; 3]%Z)
    (demo_batch 1 [2; 1]%Z) 1 (demo_row [2; 1]%Z) 1 0 demo_moe_is); try done; try lia.
  - split; [toy_den |]. intros [|[|[|i]]] Hi; done || lia.
  - split; [toy_den |]. intros [|i] Hi; done || lia.
Defined.

Definition demo_qwen_model : QwenModel (T := NdHost Exact) :=
  mkQwenModel (linear_new (mat 3 2 [1; 0; 0; 1; 1; 1]%Z))
    [mkQwenLayer (self_attn demo_layer) (FF_Moe demo_moe) (gain 2 [1; 1]%Z) (gain 2 [1; 2]%Z)]
    (gain 2 [1; 1]%Z) (linear_new (mat 3 2 [1; 0; 0; 1; -1; -1]%Z)) demo_rope 0.

Definition demo_qwen_layer_fn : LayerFn (E := Exact) :=
  mkLayerFn (lr_attn demo_layer_fn) (sparse_row demo_sparse) (gain_fn [1; 1]%Z) (gain_fn [1; 2]%Z).
Definition demo_qwen_fn : ModelFn (T := NdHost Exact) :=
  mkModelFn 3 (mat_row 2 [1; 0; 0; 1; 1; 1]%Z) [causal demo_qwen_layer_fn] (gain_fn [1; 1]%Z) (dense_fn 3 2 [1; 0; 0; 1; -1; -1]%Z).

Lemma demo_qwen_is : qwen_is no_show 2 8 3 demo_qwen_model demo_qwen_fn.
Proof.
  split.
  - exists (mat 3 2 [1; 0; 0; 1; 1; 1]%Z). split; [done |]. split; [toy_den | | done].
    intros [|[|[|t]]] Ht; cbn in Ht; done || lia.
  - exists [demo_qwen_layer_fn]. split; [done |]. apply Forall2_cons. split; [| by apply Forall2_nil]. split.
    + split; [apply demo_layer_is | | toy_gain | toy_gain]. by apply moe_rows; [apply demo_moe_is | |].
    + destruct (rope_new_holds (T := NdHost Exact) (E := Exact) (λ _ _, F64.of_Z 1) 1 8 F32.one ltac:(done)) as (r & Er & Hr).
      unfold demo_qwen_model, demo_rope. cbn [qw_rope]. cbn [Nat.add] in Er. rewrite Er. exact Hr.
  - toy_gain.
  - toy_dense.
Qed.

Lemma qwen_generates_witness :
  qwen_generate (λ t, Ok (e_to_f32 <$> nh_data t)) (qwen_forward no_show demo_qwen_model) 1 [1%N; 0%N] 5
  = Some (Ok (greedy demo_qwen_fn total_choice 3 [1%N; 0%N])).
Proof.
  apply (qwen_generates (T := NdHost Exact) no_show (λ t, Ok (e_to_f32 <$> nh_data t)) 2 8 3 demo_qwen_model demo_qwen_fn [1%N; 0%N] 5);
    [done | done | apply demo_qwen_is | done | cbn; lia | done | apply valid_check; reflexivity | cbn; lia | lia].
Defined.
