(* ===== verification/DeepseekV3.v ===== *)
(** * The routed layers of DeepSeek V3 (deepseek_v3.rs)

    The configuration and its checks, the router that first chooses groups of
    experts and then experts, the block-scaled FP8 projections and stacked experts
    in their reference form, and the layer that combines them.  The CUDA kernels
    take the place of the reference when the tensors are on a CUDA device: each is
    an operation given by the caller, or none.  The scaled rotary schemes are those
    of the library's configuration type. *)
From S2P Require Import Prelude F32 CoreTypes Json Tensors Mxfp NdTensor QuantMethod HfConfig QwenConfig Layers Moe.
#[local] Open Scope list_scope.
#[local] Open Scope nat_scope.
#[local] Open Scope rllm_scope.

(** ** Configuration *)

(** [DeepSeekV2RopeScaling] of the library, with the fields that are read. *)
Inductive RopeScalingV2 : Type :=
  | Yarn (original_max_position_embeddings : nat) (beta_fast beta_slow mscale mscale_all_dim factor : f32)
  | LinearOrDynamic (factor : f64).

Record DeepseekV3Config : Type := mkDeepseekConfig {
  dc_vocab_size : nat;
  dc_hidden_size : nat;
  dc_intermediate_size : nat;
  dc_moe_intermediate_size : nat;
  dc_num_hidden_layers : nat;
  dc_num_attention_heads : nat;
  dc_n_shared_experts : nat;
  dc_n_routed_experts : nat;
  dc_num_experts_per_tok : nat;
  dc_first_k_dense_replace : nat;
  dc_moe_layer_freq : nat;
  dc_q_lora_rank : option nat;
  dc_kv_lora_rank : nat;
  dc_qk_nope_head_dim : nat;
  dc_qk_rope_head_dim : nat;
  dc_v_head_dim : nat;
  dc_n_group : nat;
  dc_topk_group : nat;
  dc_norm_topk_prob : bool;
  dc_routed_scaling_factor : f64;
  dc_max_position_embeddings : nat;
  dc_rope_theta : f32;
  dc_rope_scaling : option RopeScalingV2;
  dc_rms_norm_eps : f64;
  dc_attention_bias : bool;
  dc_tie_word_embeddings : bool;
  dc_topk_method : string;
  dc_scoring_func : string;
  (** [quantization_config], whose only field is an optional [weight_block_size]. *)
  dc_quantization_config : option (option (list nat));
}.

(** A number read as [f32]. *)
Definition json_f32 (v : Json) : option f32 :=
  match v with
  | JNumber (PosInt n) => Some (F32.of_N n)
  | JNumber (NegInt z) => Some (F32.of_Z z)
  | JNumber (Float x) => Some (F64.to_f32 x)
  | _ => None
  end.

Definition decode_fp8 (v : Json) : option (option (list nat)) := _ ← json_object v; read_opt json_usizes v "weight_block_size".

Definition decode_deepseek (decode_rope : Json → option RopeScalingV2) (v : Json) : option DeepseekV3Config :=
  _ ← json_object v;
  vocab_size ← read_req json_usize v "vocab_size";
  hidden_size ← read_req json_usize v "hidden_size";
  intermediate_size ← read_req json_usize v "intermediate_size";
  moe_intermediate_size ← read_req json_usize v "moe_intermediate_size";
  num_hidden_layers ← read_req json_usize v "num_hidden_layers";
  num_attention_heads ← read_req json_usize v "num_attention_heads";
  n_shared_experts ← read_req json_usize v "n_shared_experts";
  n_routed_experts ← read_req json_usize v "n_routed_experts";
  num_experts_per_tok ← read_req json_usize v "num_experts_per_tok";
  first_k_dense_replace ← read_req json_usize v "first_k_dense_replace";
  moe_layer_freq ← read_default 1 json_usize v "moe_layer_freq";
  q_lora_rank ← read_opt json_usize v "q_lora_rank";
  kv_lora_rank ← read_req json_usize v "kv_lora_rank";
  qk_nope_head_dim ← read_req json_usize v "qk_nope_head_dim";
  qk_rope_head_dim ← read_req json_usize v "qk_rope_head_dim";
  v_head_dim ← read_req json_usize v "v_head_dim";
  n_group ← read_req json_usize v "n_group";
  topk_group ← read_req json_usize v "topk_group";
  norm_topk_prob ← read_default false json_bool v "norm_topk_prob";
  routed_scaling_factor ← read_default (F64.of_Z 1) json_f64 v "routed_scaling_factor";
  max_position_embeddings ← read_req json_usize v "max_position_embeddings";
  rope_theta ← read_req json_f32 v "rope_theta";
  rope_scaling ← read_opt decode_rope v "rope_scaling";
  rms_norm_eps ← read_req json_f64 v "rms_norm_eps";
  attention_bias ← read_default false json_bool v "attention_bias";
  tie_word_embeddings ← read_default false json_bool v "tie_word_embeddings";
  topk_method ← read_default "greedy"%string json_str v "topk_method";
  scoring_func ← read_default "softmax"%string json_str v "scoring_func";
  quantization_config ← read_opt decode_fp8 v "quantization_config";
  Some (mkDeepseekConfig vocab_size hidden_size intermediate_size moe_intermediate_size num_hidden_layers num_attention_heads
    n_shared_experts n_routed_experts num_experts_per_tok first_k_dense_replace moe_layer_freq q_lora_rank kv_lora_rank qk_nope_head_dim
    qk_rope_head_dim v_head_dim n_group topk_group norm_topk_prob routed_scaling_factor max_position_embeddings rope_theta rope_scaling
    rms_norm_eps attention_bias tie_word_embeddings topk_method scoring_func quantization_config).

Inductive DeepseekError : Type :=
  | DE_Json
  | DE_Sizes
  | DE_LayerFreq
  | DE_Groups
  | DE_TopkGroup
  | DE_TopK
  | DE_HeadDims
  | DE_Bias
  | DE_Scoring (scoring_func : string)
  | DE_BlockSize.

Definition validate (c : DeepseekV3Config) : result unit DeepseekError :=
  require negb ((dc_hidden_size c =? 0) || (dc_num_attention_heads c =? 0)) else DE_Sizes;
  require negb (dc_moe_layer_freq c =? 0) else DE_LayerFreq;
  require negb ((dc_n_group c =? 0) || negb (dc_n_routed_experts c mod dc_n_group c =? 0)) else DE_Groups;
  require negb ((dc_topk_group c =? 0) || (dc_n_group c <? dc_topk_group c)) else DE_TopkGroup;
  require negb ((dc_num_experts_per_tok c =? 0) || (dc_n_routed_experts c <? dc_num_experts_per_tok c)) else DE_TopK;
  require negb ((dc_qk_nope_head_dim c + dc_qk_rope_head_dim c =? 0) || (dc_v_head_dim c =? 0)) else DE_HeadDims;
  require negb (dc_attention_bias c) else DE_Bias;
  require String.eqb (dc_scoring_func c) "softmax" || String.eqb (dc_scoring_func c) "sigmoid" else DE_Scoring (dc_scoring_func c);
  Ok ().

Definition deepseek_from_json (decode_rope : Json → option RopeScalingV2) (v : Json) : result DeepseekV3Config DeepseekError :=
  match decode_deepseek decode_rope v with
  | None => Err DE_Json
  | Some c => _ <-? validate c; Ok c
  end.

Definition fp8_block_size (c : DeepseekV3Config) : result nat DeepseekError :=
  match dc_quantization_config c with
  | Some (Some blocks) =>
      match blocks with
      | [a; b] => if (a =? 0) || negb (a =? b) then Err DE_BlockSize else Ok a
      | _ => Err DE_BlockSize
      end
  | _ => Ok 128
  end.

(** ** Further calls of the tensor library *)
Class GroupOps (T : Type) : Type := {
  (** The greatest, or the sum, over the last dimension; the sum over dimension 1: the dimension goes. *)
  g_max_last : T → result T TensorError;
  g_sum_last : T → result T TensorError;
  g_sum_1 : T → result T TensorError;
  g_zeros : list nat → TDType → result T TensorError;
  g_ones : list nat → TDType → result T TensorError;
  (** Values added at the positions of dimension 1. *)
  g_scatter_add_1 : T → T → T → result T TensorError;
  g_eq_f32 : T → f32 → result T TensorError;
  (** The second where the first is not zero, else the third. *)
  g_where : T → T → T → result T TensorError;
  (** [tensor * f64] *)
  g_mul_scalar : T → f64 → result T TensorError;
  g_repeat : T → list nat → result T TensorError;
  (** The last dimension, of one element, dropped. *)
  g_squeeze_last : T → result T TensorError;
  g_to_vec1_f32 : T → result (list f32) TensorError;
}.

(** A loop that collects, and can panic or fail. *)
Fixpoint collect_r {A B E} (f : A → option (result B E)) (l : list A) : option (result (list B) E) :=
  match l with
  | [] => Some (Ok [])
  | a :: l => b <-! f a; bs <-! collect_r f l; Some (Ok (b :: bs))
  end.

Section deepseek_v3.
Context {T : Type} `{!NdOps T, !MoeOps T, !GroupOps T} (show : nat → string).

(** [dims()[..len - 1]], the product of it: a scalar panics. *)
Definition leading (t : T) : option (list nat) := n ← sub_checked (length (n_dims t)) 1; Some (take n (n_dims t)).

(** [div_ceil]: a divisor of zero panics. *)
Definition div_ceil (a b : nat) : option nat := if b =? 0 then None else Some (cdiv a b).

(** ** The router *)
Record NoAuxTcRouter : Type := mkRouter {
  rt_weight : T;
  rt_correction_bias : T;
  rt_top_k : nat;
  rt_num_groups : nat;
  rt_topk_groups : nat;
  rt_normalize : bool;
  rt_routed_scaling_factor : f64;
}.

Definition router_new (weight correction_bias : T) (top_k num_groups topk_groups : nat) (normalize : bool) (routed_scaling_factor : f64) :
    result NoAuxTcRouter TensorError :=
  d <-? dims2 weight;
  let num_experts := d.1 in
  require bool_decide (n_dims correction_bias = [num_experts]) else "router correction bias"%string;
  require negb ((num_groups =? 0) || negb (num_experts mod num_groups =? 0)) else "router experts must be divisible by num_groups"%string;
  require negb ((top_k =? 0) || (num_experts <? top_k)) else "router top_k"%string;
  require negb ((topk_groups =? 0) || (num_groups <? topk_groups)) else "router topk_groups"%string;
  Ok (mkRouter weight correction_bias top_k num_groups topk_groups normalize routed_scaling_factor).

(** [arg_sort_last_dim(false)], the first [k] of it, contiguous. *)
Definition top_positions (t : T) (k : nat) : result T TensorError :=
  sorted <-? m_arg_sort_desc t;
  d <-? minus1 sorted;
  ids <-? n_narrow sorted d 0 k;
  n_contiguous ids.

(** Negative infinity for the experts of the groups that are not among [groups]. *)
Definition mask_groups (groups scores : T) (tokens num_groups experts_per_group num_experts : nat) : result T TensorError :=
  zeros <-? g_zeros [tokens; num_groups] T_F32;
  ones <-? g_ones (n_dims groups) T_F32;
  group_mask <-? g_scatter_add_1 zeros groups ones;
  u <-? n_unsqueeze group_mask (length (n_dims group_mask));
  e <-? n_expand u [tokens; num_groups; experts_per_group];
  expert_mask <-? n_reshape e [tokens; num_experts];
  inf <-? n_scalar_f32 F32.neg_infinity;
  negative <-? n_expand inf (n_dims scores);
  out <-? g_eq_f32 expert_mask F32.zero;
  g_where out negative scores.

Definition normalized (normalize : bool) (top_k : nat) (w : T) : result T TensorError :=
  if normalize && (1 <? top_k) then
    s <-? m_sum_keepdim w;
    s <-? n_add_scalar s (SpecFloat.S754_finite false 6646139978924579 (-119));
    n_broadcast_div w s
  else Ok w.

(** The experts of each token and their weights; no hidden size panics. *)
Definition router_forward (r : NoAuxTcRouter) (hidden_states : T) : option (result (T * T) TensorError) :=
  hidden_size <-! Some (n_dim (rt_weight r) 1);
  num_experts <-! Some (n_dim (rt_weight r) 0);
  if (hidden_size =? 0) || (rt_num_groups r =? 0) then None
  else
    let tokens := nprod (n_dims hidden_states) / hidden_size in
    let experts_per_group := num_experts / rt_num_groups r in
    Some (h <-? n_reshape hidden_states [tokens; hidden_size];
          hidden <-? n_to_dtype h T_F32;
          w <-? n_to_dtype (rt_weight r) T_F32;
          wt <-? n_t w;
          logits <-? n_matmul hidden wt;
          raw_scores <-? m_sigmoid logits;
          b <-? n_to_dtype (rt_correction_bias r) T_F32;
          b <-? n_reshape b [1; num_experts];
          selection_scores <-? n_broadcast_add raw_scores b;
          grouped <-? n_reshape selection_scores [tokens; rt_num_groups r; experts_per_group];
          top_two <-? top_positions grouped (Nat.min 2 experts_per_group);
          best <-? m_gather_last grouped top_two;
          group_scores <-? g_sum_last best;
          selected_groups <-? top_positions group_scores (rt_topk_groups r);
          masked_scores <-? mask_groups selected_groups selection_scores tokens (rt_num_groups r) experts_per_group num_experts;
          expert_ids <-? top_positions masked_scores (rt_top_k r);
          expert_weights <-? m_gather_last raw_scores expert_ids;
          expert_weights <-? normalized (rt_normalize r) (rt_top_k r) expert_weights;
          expert_weights <-? g_mul_scalar expert_weights (rt_routed_scaling_factor r);
          Ok (expert_ids, expert_weights)).

(** ** Block-scaled FP8 projections *)
Record BlockFp8Linear : Type := mkBlockFp8 { bf_weight : T; bf_scales : T; bf_block_size : nat }.

Definition block_fp8_new (weight scales : T) (block_size : nat) : option (result BlockFp8Linear TensorError) :=
  d <-! Some (dims2 weight);
  rows ← div_ceil d.1 block_size;
  cols ← div_ceil d.2 block_size;
  Some (require bool_decide (n_dtype weight = T_F8E4M3) else "DeepSeek FP8 weight must use F8E4M3"%string;
        require bool_decide (n_dims scales = [rows; cols]) else "DeepSeek FP8 scale shape"%string;
        Ok (mkBlockFp8 weight scales block_size)).

(** The scale of every element of the weight. *)
Definition expand_scales (scales : T) (block_size out_features in_features out_blocks in_blocks : nat) : result T TensorError :=
  s <-? n_to_dtype scales T_F32;
  s <-? n_reshape s [out_blocks; 1; in_blocks; 1];
  s <-? g_repeat s [1; block_size; 1; block_size];
  s <-? n_reshape s [out_blocks * block_size; in_blocks * block_size];
  s <-? n_narrow s 0 0 out_features;
  n_narrow s 1 0 in_features.

Definition block_fp8_reference (l : BlockFp8Linear) (input : T) : option (result T TensorError) :=
  d <-! Some (dims2 (bf_weight l));
  let '(out_features, in_features) := d in
  out_blocks ← div_ceil out_features (bf_block_size l);
  in_blocks ← div_ceil in_features (bf_block_size l);
  weight <-! Some (s <-? expand_scales (bf_scales l) (bf_block_size l) out_features in_features out_blocks in_blocks;
                   w <-? n_to_dtype (bf_weight l) T_F32;
                   n_broadcast_mul w s);
  lead ← leading input;
  Some (x <-? n_reshape input [nprod lead; in_features];
        x <-? n_to_dtype x T_F32;
        wt <-? n_t weight;
        output <-? n_matmul x wt;
        output <-? n_reshape output (lead ++ [out_features]);
        n_to_dtype output (n_dtype input)).

(** The kernel for a CUDA device, if any takes the place of the reference. *)
Context (cuda_linear : option (BlockFp8Linear → T → result T TensorError)).

Definition block_fp8_forward (l : BlockFp8Linear) (input : T) : option (result T TensorError) :=
  match cuda_linear with Some kernel => Some (kernel l input) | None => block_fp8_reference l input end.

(** ** Stacked experts *)
Record SelectedBlockFp8Experts : Type := mkSelected { se_weights : T; se_scales : T; se_block_size : nat }.

Definition selected_new (weights scales : T) (block_size : nat) : option (result SelectedBlockFp8Experts TensorError) :=
  d <-! Some (dims3 weights);
  let '(num_experts, out_features, in_features) := d in
  rows ← div_ceil out_features block_size;
  cols ← div_ceil in_features block_size;
  Some (require negb (negb (bool_decide (n_dtype weights = T_F8E4M3)) || negb (bool_decide (n_dims scales = [num_experts; rows; cols])))
          else "selected expert FP8 tensors have invalid dtype/shape"%string;
        Ok (mkSelected weights scales block_size)).

(** One output of one expert, summed in the order of the columns. *)
Definition expert_output (input_values weight_values scale_values : list f32)
    (in_features out_features in_blocks out_blocks block_size input_row expert out : nat) : option f32 :=
  foldl (λ acc col,
    acc ← acc;
    x ← input_values !! (input_row * in_features + col);
    w ← weight_values !! ((expert * out_features + out) * in_features + col);
    s ← scale_values !! (expert * out_blocks * in_blocks + out / block_size * in_blocks + col / block_size);
    Some (F32.add acc (F32.mul (F32.mul x w) s))) (Some F32.zero) (seq 0 in_features).

(** What the expert of a route makes of its row; an expert out of range is an error. *)
Definition route_output (ids : list (list N)) (input_values weight_values scale_values : list f32)
    (num_experts in_features out_features in_blocks out_blocks block_size top_k : nat) (shared_input : bool) (p : nat * nat) :
    option (result (list f32) TensorError) :=
  let '(token, route) := p in
  id ← ids !! token ≫= lookup route;
  let expert := N.to_nat id in
  if num_experts <=? expert then Some (Err "expert id is out of range"%string)
  else
    let input_row := if shared_input then token else token * top_k + route in
    outs ← mapM (expert_output input_values weight_values scale_values in_features out_features in_blocks out_blocks block_size input_row expert)
             (seq 0 out_features);
    Some (Ok outs).

(** The outputs are stored token by token, route by route. *)
Definition selected_reference (l : SelectedBlockFp8Experts) (input expert_ids : T) (shared_input : bool) : option (result T TensorError) :=
  d <-! Some (dims3 (se_weights l));
  let '(num_experts, out_features, in_features) := d in
  e <-! Some (dims2 expert_ids);
  let '(tokens, top_k) := e in
  input_values <-! Some (x <-? n_to_dtype input T_F32; x <-? n_flatten_all x; g_to_vec1_f32 x);
  ids <-! Some (m_to_vec2_u32 expert_ids);
  weight_values <-! Some (w <-? n_to_dtype (se_weights l) T_F32; w <-? n_flatten_all w; g_to_vec1_f32 w);
  scale_values <-! Some (s <-? n_to_dtype (se_scales l) T_F32; s <-? n_flatten_all s; g_to_vec1_f32 s);
  in_blocks ← div_ceil in_features (se_block_size l);
  out_blocks ← div_ceil out_features (se_block_size l);
  outputs <-! collect_r (route_output ids input_values weight_values scale_values num_experts in_features out_features in_blocks out_blocks
                           (se_block_size l) top_k shared_input) (seq 0 tokens ≫= (λ token, pair token <$> seq 0 top_k));
  Some (n_from_f32 (concat outputs) [tokens; top_k; out_features]).

Context (cuda_selected : option (SelectedBlockFp8Experts → T → T → bool → result T TensorError)).

Definition selected_forward (l : SelectedBlockFp8Experts) (input expert_ids : T) (shared_input : bool) : option (result T TensorError) :=
  match cuda_selected with
  | Some kernel => Some (kernel l input expert_ids shared_input)
  | None => selected_reference l input expert_ids shared_input
  end.

(** ** The layer *)
Record DeepseekV3Moe : Type := mkDeepseekMoe {
  vm_router : NoAuxTcRouter;
  vm_gate_experts : SelectedBlockFp8Experts;
  vm_up_experts : SelectedBlockFp8Experts;
  vm_down_experts : SelectedBlockFp8Experts;
  vm_shared_gate : option BlockFp8Linear;
  vm_shared_up : option BlockFp8Linear;
  vm_shared_down : option BlockFp8Linear;
}.

Definition count_some {A} (o : option A) : nat := match o with Some _ => 1 | None => 0 end.

Definition moe_new (router : NoAuxTcRouter) (gate_experts up_experts down_experts : SelectedBlockFp8Experts)
    (shared_gate shared_up shared_down : option BlockFp8Linear) : result DeepseekV3Moe TensorError :=
  let shared_count := count_some shared_gate + count_some shared_up + count_some shared_down in
  require (shared_count =? 0) || (shared_count =? 3) else "shared expert gate/up/down projections must be provided together"%string;
  Ok (mkDeepseekMoe router gate_experts up_experts down_experts shared_gate shared_up shared_down).

Definition v3_shared (gate up down : BlockFp8Linear) (hidden : T) (dtype : TDType) : option (result T TensorError) :=
  g <-! block_fp8_forward gate hidden;
  g <-! Some (n_silu g);
  u <-! block_fp8_forward up hidden;
  shared <-! Some (n_broadcast_mul g u);
  shared <-! block_fp8_forward down shared;
  Some (n_to_dtype shared dtype).

Definition v3_moe_forward (m : DeepseekV3Moe) (hidden_states : T) : option (result T TensorError) :=
  hidden_size <-! Some (dim_minus1 hidden_states);
  if hidden_size =? 0 then None
  else
    let tokens := nprod (n_dims hidden_states) / hidden_size in
    hidden <-! Some (n_reshape hidden_states [tokens; hidden_size]);
    routes <-! router_forward (vm_router m) hidden;
    let '(expert_ids, expert_weights) := routes in
    gate <-! selected_forward (vm_gate_experts m) hidden expert_ids true;
    gate <-! Some (n_silu gate);
    up <-! selected_forward (vm_up_experts m) hidden expert_ids true;
    intermediate <-! Some (n_broadcast_mul gate up);
    routed <-! selected_forward (vm_down_experts m) intermediate expert_ids false;
    output <-! Some (w <-? n_to_dtype expert_weights (n_dtype routed);
                     w <-? n_unsqueeze w (length (n_dims w));
                     y <-? n_broadcast_mul routed w;
                     g_sum_1 y);
    output <-! match vm_shared_gate m, vm_shared_up m, vm_shared_down m with
               | Some gate, Some up, Some down =>
                   shared <-! v3_shared gate up down hidden (n_dtype output);
                   Some (n_add output shared)
               | _, _, _ => Some (Ok output)
               end;
    Some (y <-? n_reshape output (n_dims hidden_states); n_to_dtype y (n_dtype hidden_states)).
End deepseek_v3.

Arguments mkRouter {T}.
Arguments mkBlockFp8 {T}.
Arguments mkSelected {T}.
Arguments mkDeepseekMoe {T}.

(** ** Loading *)
Section load.
Context {T G : Type} `{!NdOps T, !MoeOps T, !GroupOps T} (show : nat → string).
#[local] Abbreviation Load := (Load (T := T) (G := G)).

(** A step that may panic or fail in the tensor library. *)
Definition l_run {A} (r : option (result A TensorError)) : Load A :=
  match r with None => l_panic | Some r => l_try (lift r) end.

Definition take_block_fp8_linear (prefix : string) (block_size : nat) : Load (BlockFp8Linear (T := T)) :=
  l_bind (remove_tensor (prefix +:+ ".weight")) (λ weight,
  l_bind (remove_tensor (prefix +:+ ".weight_scale_inv")) (λ scales, l_run (block_fp8_new weight scales block_size))).

Fixpoint take_experts (prefix projection : string) (expert n : nat) : Load (list T * list T) :=
  match n with
  | 0 => l_ret ([], [])
  | S n =>
      let expert_prefix := (prefix +:+ ".experts." +:+ show expert +:+ "." +:+ projection)%string in
      l_bind (remove_tensor (expert_prefix +:+ ".weight")) (λ w,
      l_bind (remove_tensor (expert_prefix +:+ ".weight_scale_inv")) (λ s,
      l_bind (take_experts prefix projection (S expert) n) (λ '(ws, ss), l_ret (w :: ws, s :: ss))))
  end.

Definition take_stacked_experts (prefix projection : string) (num_experts block_size : nat) : Load (SelectedBlockFp8Experts (T := T)) :=
  l_bind (take_experts prefix projection 0 num_experts) (λ '(ws, ss),
  l_bind (l_try (lift (n_stack ws 0))) (λ weights,
  l_bind (l_try (lift (n_stack ss 0))) (λ scales, l_run (selected_new weights scales block_size)))).

(** [DeepseekV3Moe::from_weights]; the shared experts are always taken. *)
Definition v3_moe_from_weights (c : DeepseekV3Config) (prefix : string) (block_size : nat) : Load (DeepseekV3Moe (T := T)) :=
  l_bind (remove_tensor (prefix +:+ ".gate.weight")) (λ router_weight,
  l_bind (remove_tensor (prefix +:+ ".gate.e_score_correction_bias")) (λ correction_bias,
  l_bind (l_try (lift (router_new router_weight correction_bias (dc_num_experts_per_tok c) (dc_n_group c) (dc_topk_group c)
    (dc_norm_topk_prob c) (dc_routed_scaling_factor c)))) (λ router,
  l_bind (take_stacked_experts prefix "gate_proj" (dc_n_routed_experts c) block_size) (λ gate_experts,
  l_bind (take_stacked_experts prefix "up_proj" (dc_n_routed_experts c) block_size) (λ up_experts,
  l_bind (take_stacked_experts prefix "down_proj" (dc_n_routed_experts c) block_size) (λ down_experts,
  let shared_prefix := (prefix +:+ ".shared_experts")%string in
  l_bind (take_block_fp8_linear (shared_prefix +:+ ".gate_proj") block_size) (λ gate,
  l_bind (take_block_fp8_linear (shared_prefix +:+ ".up_proj") block_size) (λ up,
  l_bind (take_block_fp8_linear (shared_prefix +:+ ".down_proj") block_size) (λ down,
  l_try (lift (moe_new router gate_experts up_experts down_experts (Some gate) (Some up) (Some down)))))))))))).
End load.
