(* ===== verification/Deepseek.v ===== *)
(** * The DeepSeek models (deepseek.rs)

    Multi-head latent attention (the keys and values are expanded from a narrow
    latent row before they are cached), its rotary embedding of adjacent pairs with
    the Yarn correction, the routed layers of the second generation, the decoder
    and its loading.  Every mask row is made from the position of its own token, so
    a pass over several tokens on a cache that is not empty is exact
    (DeepseekRows).  [powf] and [ln] are the platform's; the paged attention of a
    CUDA build is one operation given by the caller. *)
From S2P Require Import Prelude F32 CoreTypes Tensors Mxfp NdTensor QuantMethod Rope Layers Llama LlamaLoad Moe Qwen DeepseekV3.
#[local] Open Scope list_scope.
#[local] Open Scope nat_scope.
#[local] Open Scope rllm_scope.

(** ** Single-precision constants and operations of the standard library *)
Definition f32_floor (a : f32) : f32 := SFopp (F32.ceil (SFopp a)).
Definition f32_min (a b : f32) : f32 :=
  if F32.is_nan a then b else if F32.is_nan b then a else if F32.ltb b a then b else a.
(** [PI], [0.1] and [0.001] *)
Definition f32_pi : f32 := SpecFloat.S754_finite false 13176795 (-22).
Definition f32_tenth : f32 := SpecFloat.S754_finite false 13421773 (-27).
Definition f32_thousandth : f32 := SpecFloat.S754_finite false 8589935 (-33).

(** ** Frequencies *)
Section frequencies.
Context (powf : f32 → f32 → f32) (ln : f32 → f32).

Definition base_freqs (dim : nat) (theta : f32) : list f32 :=
  (λ k, F32.div F32.one (powf theta (F32.div (F32.of_N (N.of_nat (2 * k))) (F32.of_N (N.of_nat dim))))) <$> seq 0 (cdiv dim 2).

Definition yarn_scale (factor value : f32) : f32 :=
  if F32.leb factor F32.one then F32.one else F32.add (F32.mul (F32.mul f32_tenth value) (ln factor)) F32.one.

Definition correction (dim original_max_position_embeddings : nat) (theta rotations : f32) : f32 :=
  F32.div (F32.mul (F32.of_N (N.of_nat dim))
             (ln (F32.div (F32.of_N (N.of_nat original_max_position_embeddings)) (F32.mul (F32.mul rotations F32.two) f32_pi))))
    (F32.mul F32.two (ln theta)).

(** Between the frequency itself, of the fast dimensions, and the interpolated one. *)
Definition yarn_freq (low ramp_denominator factor : f32) (i : nat) (extra : f32) : f32 :=
  let ramp := F32.clamp F32.zero F32.one (F32.div (F32.sub (F32.of_N (N.of_nat i)) low) ramp_denominator) in
  let mask := F32.sub F32.one ramp in
  let interpolated := F32.div extra factor in
  F32.add (F32.mul interpolated (F32.sub F32.one mask)) (F32.mul extra mask).

(** The frequencies and the scale of the sines. *)
Definition scaled_freqs (c : DeepseekV3Config) : list f32 * f32 :=
  let dim := dc_qk_rope_head_dim c in
  let half := dim / 2 in
  let base := base_freqs dim (dc_rope_theta c) in
  match dc_rope_scaling c with
  | Some (Yarn original beta_fast beta_slow mscale mscale_all_dim factor) =>
      let low := F32.max (f32_floor (correction dim original (dc_rope_theta c) beta_fast)) F32.zero in
      let high := f32_min (F32.ceil (correction dim original (dc_rope_theta c) beta_slow)) (F32.of_N (N.of_nat (half - 1))) in
      let ramp_denominator := F32.max (F32.sub high low) f32_thousandth in
      (imap (yarn_freq low ramp_denominator factor) base, F32.div (yarn_scale factor mscale) (yarn_scale factor mscale_all_dim))
  | Some (LinearOrDynamic factor) => ((λ v, F32.div v (F64.to_f32 factor)) <$> base, F32.one)
  | None => (base, F32.one)
  end.

(** The scale of the scores. *)
Definition mla_scale (c : DeepseekV3Config) : f32 :=
  let scale := attention_scale (dc_qk_nope_head_dim c + dc_qk_rope_head_dim c) in
  match dc_rope_scaling c with
  | Some (Yarn _ _ _ _ mscale_all_dim factor) =>
      let mscale := yarn_scale factor mscale_all_dim in F32.mul scale (F32.mul mscale mscale)
  | _ => scale
  end.
End frequencies.

Section deepseek.
Context {T : Type} `{!NdOps T, !MoeOps T, !GroupOps T} (show : nat → string).
Context (cuda_linear : option (BlockFp8Linear (T := T) → T → result T TensorError)).
Context (cuda_selected : option (SelectedBlockFp8Experts (T := T) → T → T → bool → result T TensorError)).
#[local] Abbreviation KvCache := (option (T * T)).

(** ** Projections *)
Inductive Projection : Type :=
  | P_Linear (linear : Linear (T := T))
  | P_BlockFp8 (linear : BlockFp8Linear (T := T)).

Definition proj_forward (p : Projection) (input : T) : option (result T TensorError) :=
  match p with
  | P_Linear linear => linear_forward show linear input
  | P_BlockFp8 linear => block_fp8_forward cuda_linear linear input
  end.

Definition proj_is_quantized (p : Projection) : bool :=
  match p with P_Linear linear => is_quantized linear | P_BlockFp8 _ => true end.
Definition count_projections (ps : list Projection) : nat := length (filter (λ p, proj_is_quantized p = true) ps).

(** ** The rotary embedding *)
Record DeepseekRope : Type := mkDeepseekRope { dr_cos : T; dr_sin : T }.

Definition deepseek_rope_new (powf : f32 → f32 → f32) (ln : f32 → f32) (c : DeepseekV3Config) : result DeepseekRope TensorError :=
  let dim := dc_qk_rope_head_dim c in
  require negb ((dim =? 0) || negb (dim mod 2 =? 0)) else "DeepSeek rotary head dimension must be positive and even"%string;
  let '(inv_freq, mscale) := scaled_freqs powf ln c in
  inv <-? n_from_f32 inv_freq [1; dim / 2];
  range <-? n_arange_u32 0 (as_u32 (N.of_nat (dc_max_position_embeddings c)));
  p <-? n_to_dtype range T_F32;
  positions <-? n_reshape p [dc_max_position_embeddings c; 1];
  freqs <-? n_matmul positions inv;
  cos <-? n_cos freqs;
  cos <-? g_mul_scalar cos (F64.of_f32 mscale);
  sin <-? n_sin freqs;
  sin <-? g_mul_scalar sin (F64.of_f32 mscale);
  Ok (mkDeepseekRope cos sin).

(** The rows of some positions, as the type of [dtype]. *)
Definition rope_rows (cache indices : T) (dtype : TDType) (tokens half : nat) : result T TensorError :=
  rows <-? n_index_select_0 cache indices;
  rows <-? n_to_dtype rows dtype;
  n_reshape rows [1; 1; tokens; half].

(** One of the elements of each pair. *)
Definition pair_side (pairs : T) (side : nat) : result T TensorError :=
  k <-? minus1 pairs;
  x <-? n_narrow pairs k side 1;
  g_squeeze_last x.

Definition deepseek_rope_apply (r : DeepseekRope) (input : T) (positions : list nat) : result T TensorError :=
  d <-? dims4 input;
  let '(batch, heads, tokens, dim) := d in
  require length positions =? tokens else "DeepSeek RoPE positions"%string;
  indices <-? n_from_u32 ((λ position, as_u32 (N.of_nat position)) <$> positions) [length positions];
  cos <-? rope_rows (dr_cos r) indices (n_dtype input) tokens (dim / 2);
  sin <-? rope_rows (dr_sin r) indices (n_dtype input) tokens (dim / 2);
  pairs <-? n_reshape input [batch; heads; tokens; dim / 2; 2];
  even <-? pair_side pairs 0;
  odd <-? pair_side pairs 1;
  a <-? n_broadcast_mul even cos;
  b <-? n_broadcast_mul odd sin;
  out_even <-? n_sub a b;
  a <-? n_broadcast_mul even sin;
  b <-? n_broadcast_mul odd cos;
  out_odd <-? n_add a b;
  out <-? n_stack [out_even; out_odd] (length (n_dims out_even));
  n_reshape out [batch; heads; tokens; dim].

(** ** Latent attention *)
Inductive QueryProjection : Type :=
  | Q_Plain (projection : Projection)
  | Q_Lora (a : Projection) (norm : RmsNorm (T := T)) (b : Projection).

Definition query_forward (q : QueryProjection) (input : T) : option (result T TensorError) :=
  match q with
  | Q_Plain projection => proj_forward projection input
  | Q_Lora a norm b =>
      x <-! proj_forward a input;
      x <-! Some (rms_forward norm x);
      proj_forward b x
  end.

Definition query_quantized_count (q : QueryProjection) : nat :=
  match q with Q_Plain p => count_projections [p] | Q_Lora a _ b => count_projections [a; b] end.

Record MlaAttention : Type := mkMla {
  ma_query : QueryProjection;
  ma_kv_a : Projection;
  ma_kv_a_norm : RmsNorm (T := T);
  ma_kv_b : Projection;
  ma_output : Projection;
  ma_rope : DeepseekRope;
  ma_num_heads : nat;
  ma_qk_nope_dim : nat;
  ma_qk_rope_dim : nat;
  ma_value_dim : nat;
  ma_scale : f32;
}.

(** [narrow] and [cat] over the last dimension. *)
Definition narrow_last (t : T) (start len : nat) : result T TensorError := k <-? minus1 t; n_narrow t k start len.
Definition cat_last (a b : T) : result T TensorError := k <-? minus1 a; n_cat [a; b] k.

(** Rows split into heads, the heads first. *)
Definition by_heads (t : T) (batch tokens heads head_dim : nat) : result T TensorError :=
  t <-? n_reshape t [batch; tokens; heads; head_dim];
  n_transpose_1_2 t.

(** Queries, keys and values of the new tokens. *)
Definition mla_project (a : MlaAttention) (hidden : T) (positions : list nat) : option (result (T * T * T) TensorError) :=
  d <-! Some (dims3 hidden);
  let '(batch, tokens, _) := d in
  let head_dim := ma_qk_nope_dim a + ma_qk_rope_dim a in
  query <-! query_forward (ma_query a) hidden;
  q <-! Some (query <-? by_heads query batch tokens (ma_num_heads a) head_dim;
              q_nope <-? narrow_last query 0 (ma_qk_nope_dim a);
              q_rope <-? narrow_last query (ma_qk_nope_dim a) (ma_qk_rope_dim a);
              Ok (q_nope, q_rope));
  compressed <-! proj_forward (ma_kv_a a) hidden;
  c <-! Some (width <-? dim_minus1 (rn_weight (ma_kv_a_norm a));
              latent <-? narrow_last compressed 0 width;
              k_rope <-? narrow_last compressed width (ma_qk_rope_dim a);
              k_rope <-? by_heads k_rope batch tokens 1 (ma_qk_rope_dim a);
              latent <-? rms_forward (ma_kv_a_norm a) latent;
              Ok (latent, k_rope));
  expanded <-! proj_forward (ma_kv_b a) c.1;
  Some (expanded <-? by_heads expanded batch tokens (ma_num_heads a) (ma_qk_nope_dim a + ma_value_dim a);
        k_nope <-? narrow_last expanded 0 (ma_qk_nope_dim a);
        value <-? narrow_last expanded (ma_qk_nope_dim a) (ma_value_dim a);
        q_rope <-? deepseek_rope_apply (ma_rope a) q.2 positions;
        k_rope <-? deepseek_rope_apply (ma_rope a) c.2 positions;
        k_rope <-? g_repeat k_rope [1; ma_num_heads a; 1; 1];
        q <-? cat_last q.1 q_rope;
        k <-? cat_last k_nope k_rope;
        Ok (q, k, value)).

(** One row per query, from its position; a missing position panics. *)
Definition position_mask (positions : list nat) (query_len key_len : nat) : option (list f32) :=
  rows ← mapM (λ i, p ← positions !! i; Some ((λ j, if p <? j then F32.neg_infinity else F32.zero) <$> seq 0 key_len)) (seq 0 query_len);
  Some (concat rows).

(** The weighted sums, before the output projection. *)
Definition mla_attend (a : MlaAttention) (query key value : T) (positions : list nat) : option (result T TensorError) :=
  query_len <-! Some (n_dim query 2);
  key_len <-! Some (n_dim key 2);
  scores <-! Some (q <-? n_contiguous query;
                   kt <-? n_t key;
                   k <-? n_contiguous kt;
                   scores <-? n_matmul q k;
                   g_mul_scalar scores (F64.of_f32 (ma_scale a)));
  mask ← position_mask positions query_len key_len;
  Some (mask <-? n_from_f32 mask [1; 1; query_len; key_len];
        mask <-? n_to_dtype mask (n_dtype scores);
        masked <-? n_broadcast_add scores mask;
        probabilities <-? m_softmax_last_dim masked;
        v <-? n_contiguous value;
        output <-? n_matmul probabilities v;
        output <-? n_transpose_1_2 output;
        n_reshape output [1; query_len; ma_num_heads a * ma_value_dim a]).

(** The cache is taken out, and put back extended: a failed concatenation loses it. *)
Definition mla_forward (a : MlaAttention) (hidden : T) (positions : list nat) (cache : KvCache) :
    option (result T TensorError * KvCache) :=
  match mla_project a hidden positions with
  | None => None
  | Some (Err e) => Some (Err e, cache)
  | Some (Ok (query, new_key, new_value)) =>
      match extend_cache cache new_key new_value with
      | Err e => Some (Err e, None)
      | Ok (key, value) =>
          out ← (output <-! mla_attend a query key value positions; proj_forward (ma_output a) output);
          Some (out, Some (key, value))
      end
  end.

(** Token-major, in half precision. *)
Definition mla_token_major (t : T) (tokens heads head_dim : nat) : result T TensorError :=
  t <-? n_transpose_1_2 t;
  t <-? n_reshape t [tokens; heads; head_dim];
  t <-? n_to_dtype t T_F16;
  n_contiguous t.

(** Values padded with zeros to the width of the keys. *)
Definition pad_values (value : T) (heads tokens value_dim head_dim : nat) : result T TensorError :=
  if value_dim <? head_dim then
    padding <-? g_zeros [1; heads; tokens; head_dim - value_dim] (n_dtype value);
    cat_last value padding
  else Ok value.

Context (paged_op : option (nat → T → T → T → result T TensorError)).

Definition mla_forward_paged (a : MlaAttention) (hidden : T) (positions : list nat) (layer : nat) : option (result T TensorError) :=
  p <-! mla_project a hidden positions;
  let '(query, key, value) := p in
  match paged_op with
  | None => Some (Err "DeepSeek paged MLA requires a CUDA build"%string)
  | Some op =>
      let tokens := length positions in
      let heads := ma_num_heads a in
      let head_dim := ma_qk_nope_dim a + ma_qk_rope_dim a in
      output <-! Some (query <-? mla_token_major query tokens heads head_dim;
                       key <-? mla_token_major key tokens heads head_dim;
                       value <-? pad_values value heads tokens (ma_value_dim a) head_dim;
                       value <-? mla_token_major value tokens heads head_dim;
                       output <-? op layer query key value;
                       output <-? narrow_last output 0 (ma_value_dim a);
                       output <-? n_reshape output [1; tokens; heads * ma_value_dim a];
                       n_to_dtype output (n_dtype hidden));
      proj_forward (ma_output a) output
  end.

Definition mla_quantized_count (a : MlaAttention) : nat :=
  query_quantized_count (ma_query a) + count_projections [ma_kv_a a; ma_kv_b a; ma_output a].

(** ** Feed-forward layers *)
Record DenseMlp : Type := mkDsMlp { ds_gate : Projection; ds_up : Projection; ds_down : Projection }.

Definition ds_mlp_forward (m : DenseMlp) (hidden : T) : option (result T TensorError) :=
  gate <-! proj_forward (ds_gate m) hidden;
  gate <-! Some (n_silu gate);
  up <-! proj_forward (ds_up m) hidden;
  h <-! Some (n_broadcast_mul gate up);
  proj_forward (ds_down m) h.

Definition ds_mlp_quantized_count (m : DenseMlp) : nat := count_projections [ds_gate m; ds_up m; ds_down m].

Record DenseMoe : Type := mkDenseMoe {
  de_gate_weight : T;
  de_experts : list DenseMlp;
  de_shared : option DenseMlp;
  de_top_k : nat;
  de_num_groups : nat;
  de_topk_groups : nat;
  de_group_limited : bool;
  de_normalize : bool;
  de_scaling : f64;
}.

(** The scores, with negative infinity outside the groups whose best expert is
    among the best; no group panics. *)
Definition dense_selection (m : DenseMoe) (scores : T) (tokens : nat) : option (result T TensorError) :=
  if de_group_limited m then
    let num_experts := length (de_experts m) in
    if de_num_groups m =? 0 then None
    else
      let experts_per_group := num_experts / de_num_groups m in
      Some (grouped <-? n_reshape scores [tokens; de_num_groups m; experts_per_group];
            group_scores <-? g_max_last grouped;
            groups <-? top_positions group_scores (de_topk_groups m);
            mask_groups groups scores tokens (de_num_groups m) experts_per_group num_experts)
  else Some (Ok scores).

Definition dense_weights (m : DenseMoe) (scores ids : T) : result T TensorError :=
  w <-? m_gather_last scores ids;
  if de_normalize m && (1 <? de_top_k m) then
    s <-? m_sum_keepdim w;
    s <-? n_add_scalar s route_eps;
    n_broadcast_div w s
  else g_mul_scalar w (de_scaling m).

(** The experts of each token and their weights, read back from the device. *)
Definition dense_route (m : DenseMoe) (flat : T) (tokens : nat) : option (result (list (list N) * list (list f32)) TensorError) :=
  scores <-! Some (x <-? n_to_dtype flat T_F32;
                   g <-? n_to_dtype (de_gate_weight m) T_F32;
                   gt <-? n_t g;
                   logits <-? n_matmul x gt;
                   m_softmax_last_dim logits);
  selection <-! dense_selection m scores tokens;
  Some (ids <-? top_positions selection (de_top_k m);
        w <-? dense_weights m scores ids;
        cpu_ids <-? m_to_vec2_u32 ids;
        w <-? n_to_dtype w T_F32;
        cpu_weights <-? n_to_vec2_f32 w;
        Ok (cpu_ids, cpu_weights)).

Definition dense_moe_forward (m : DenseMoe) (hidden : T) : option (result T TensorError) :=
  width <-! Some (dim_minus1 hidden);
  if width =? 0 then None
  else
    let tokens := nprod (n_dims hidden) / width in
    flat <-! Some (n_reshape hidden [tokens; width]);
    routes <-! dense_route m flat tokens;
    zeros <-! Some (m_zeros_like flat);
    output <-! run_experts flat routes.1 routes.2 tokens (de_top_k m) 0 (ds_mlp_forward <$> de_experts m) zeros;
    output <-! match de_shared m with
               | None => Some (Ok output)
               | Some shared => y <-! ds_mlp_forward shared flat; Some (n_add output y)
               end;
    Some (n_reshape output (n_dims hidden)).

Definition dense_moe_quantized_count (m : DenseMoe) : nat :=
  sum_list (ds_mlp_quantized_count <$> de_experts m) + default 0 (ds_mlp_quantized_count <$> de_shared m).

Inductive FeedForward : Type :=
  | FD_Dense (mlp : DenseMlp)
  | FD_DenseMoe (moe : DenseMoe)
  | FD_Fp8Moe (moe : DeepseekV3Moe (T := T)).

Definition ds_ff_forward (f : FeedForward) (hidden : T) : option (result T TensorError) :=
  match f with
  | FD_Dense mlp => ds_mlp_forward mlp hidden
  | FD_DenseMoe moe => dense_moe_forward moe hidden
  | FD_Fp8Moe moe => v3_moe_forward cuda_linear cuda_selected moe hidden
  end.

Definition ds_ff_quantized_count (f : FeedForward) : nat :=
  match f with
  | FD_Dense mlp => ds_mlp_quantized_count mlp
  | FD_DenseMoe moe => dense_moe_quantized_count moe
  | FD_Fp8Moe _ => 1
  end.

(** ** Decoder layers *)
Record DecoderLayer : Type := mkDsLayer {
  dl_input_norm : RmsNorm (T := T);
  dl_post_attention_norm : RmsNorm (T := T);
  dl_attention : MlaAttention;
  dl_feed_forward : FeedForward;
}.

(** The feed-forward layer with its residual. *)
Definition ds_ff_block (l : DecoderLayer) (hidden : T) : option (result T TensorError) :=
  n <-! Some (rms_forward (dl_post_attention_norm l) hidden);
  y <-! ds_ff_forward (dl_feed_forward l) n;
  Some (n_add hidden y).

Definition ds_layer_forward (l : DecoderLayer) (hidden : T) (positions : list nat) (cache : KvCache) :
    option (result T TensorError * KvCache) :=
  match rms_forward (dl_input_norm l) hidden with
  | Err e => Some (Err e, cache)
  | Ok n =>
      '(r, cache) ← mla_forward (dl_attention l) n positions cache;
      out ← (y <-! Some r; h <-! Some (n_add hidden y); ds_ff_block l h);
      Some (out, cache)
  end.

Definition ds_layer_forward_paged (l : DecoderLayer) (hidden : T) (positions : list nat) (layer : nat) : option (result T TensorError) :=
  n <-! Some (rms_forward (dl_input_norm l) hidden);
  y <-! mla_forward_paged (dl_attention l) n positions layer;
  h <-! Some (n_add hidden y);
  ds_ff_block l h.

(** ** The model *)
Record DeepseekModel : Type := mkDeepseekModel {
  ds_embedding : T;
  ds_layers : list DecoderLayer;
  ds_norm : RmsNorm (T := T);
  ds_lm_head : Projection;
  ds_quantized_layer_count : nat;
}.

Definition ds_embedding_lookup (weight ids : T) : result T TensorError :=
  flat <-? n_flatten_all ids;
  values <-? n_to_vec1_u32 flat;
  batch <-? n_dim ids 0;
  tokens <-? n_dim ids 1;
  hidden <-? dim_minus1 weight;
  indices <-? n_from_u32 values [batch * tokens];
  rows <-? n_index_select_0 weight indices;
  n_reshape rows [batch; tokens; hidden].

Definition in_ds_layer (i : nat) (e : TensorError) : TensorError := ("DeepSeek layer " +:+ show i +:+ ": " +:+ e)%string.
Definition in_ds_paged_layer (i : nat) (e : TensorError) : TensorError := ("DeepSeek paged layer " +:+ show i +:+ ": " +:+ e)%string.

Definition ds_head (m : DeepseekModel) (hidden : T) : option (result T TensorError) :=
  n <-! Some (rms_forward (ds_norm m) hidden); proj_forward (ds_lm_head m) n.

Definition ds_forward (m : DeepseekModel) (input_ids : T) (positions : list nat) (caches : list KvCache) :
    option (result T TensorError * list KvCache) :=
  if negb (length caches =? length (ds_layers m)) then Some (Err "DeepSeek cache layer count does not match the decoder"%string, caches)
  else
    match ds_embedding_lookup (ds_embedding m) input_ids with
    | Err e => Some (Err e, caches)
    | Ok hidden =>
        '(r, caches) ← layers_loop ds_layer_forward in_ds_layer 0 (ds_layers m) hidden positions caches;
        out ← (hidden <-! Some r; ds_head m hidden);
        Some (out, caches)
    end.

Fixpoint ds_layers_paged (i : nat) (ls : list DecoderLayer) (hidden : T) (positions : list nat) : option (result T TensorError) :=
  match ls with
  | [] => Some (Ok hidden)
  | l :: ls =>
      match ds_layer_forward_paged l hidden positions i with
      | Some (Err e) => Some (Err (in_ds_paged_layer i e))
      | Some (Ok hidden) => ds_layers_paged (S i) ls hidden positions
      | None => None
      end
  end.

Definition ds_forward_paged (m : DeepseekModel) (input_ids : T) (positions : list nat) (cache_layers : nat) : option (result T TensorError) :=
  if negb (cache_layers =? length (ds_layers m)) then Some (Err "DeepSeek paged cache layers"%string)
  else
    hidden <-! Some (ds_embedding_lookup (ds_embedding m) input_ids);
    hidden <-! ds_layers_paged 0 (ds_layers m) hidden positions;
    ds_head m hidden.
End deepseek.

Arguments mkDeepseekRope {T}.
Arguments P_Linear {T}.
Arguments P_BlockFp8 {T}.
Arguments Q_Plain {T}.
Arguments Q_Lora {T}.
Arguments mkMla {T}.
Arguments mkDsMlp {T}.
Arguments mkDenseMoe {T}.
Arguments FD_Dense {T}.
Arguments FD_DenseMoe {T}.
Arguments FD_Fp8Moe {T}.
Arguments mkDsLayer {T}.
Arguments mkDeepseekModel {T}.

(** ** Greedy generation *)

(** [DeepseekForCausalLM::generate]: the prompt is always run, and its loop is the
    one of the Qwen models, with the same [argmax]. *)
Definition ds_generate {T} `{!NdOps T} (to_vec1_f32 : T → result (list f32) TensorError)
    (forward : T → list nat → list (option (T * T)) → option (result T TensorError * list (option (T * T))))
    (num_layers : nat) (prompt : list N) (max_tokens : nat) : option (result (list N) TensorError) :=
  match prompt with
  | [] => Some (Err "cannot generate from an empty prompt"%string)
  | _ =>
      input <-! Some (ids_tensor prompt);
      '(r, cache) ← forward input (seq 0 (length prompt)) (replicate num_layers None);
      logits <-! Some r;
      generate_loop to_vec1_f32 forward max_tokens max_tokens prompt logits cache
  end.

(** ** Loading *)
Section load.
Context {T G Q : Type} `{!TensorLib T, !NdOps T, !MoeOps T, !GroupOps T}.
Context (g_dims : G → list nat) (from_arc : G → result Q string) (q_forward : Q → T → result T TensorError).
Context (log2 exp2 : f32 → f32) (powi : f32 → Z → f32) (f8_from_f32 : f32 → N) (f8_from_bits : N → f32).
Context (powf : f32 → f32 → f32) (ln : f32 → f32) (show : nat → string) (q_show : QError → string).

#[local] Abbreviation Load := (Load (T := T) (G := G)).
#[local] Abbreviation load_linear := (load_linear (T := T) g_dims from_arc q_forward log2 exp2 powi f8_from_f32 f8_from_bits q_show).

(** [Projection::load] *)
Definition proj_load (prefix : string) (model : ModelConfig) (schema : option QuantSchema) (block_size : nat) : Load (Projection (T := T)) :=
  let scale_name := (prefix +:+ ".weight_scale_inv")%string in
  l_bind (has_tensor scale_name) (λ scaled : bool,
  if scaled then
    l_bind (remove_tensor (prefix +:+ ".weight")) (λ weight,
    l_bind (remove_tensor scale_name) (λ scales,
    l_bind (l_run (block_fp8_new weight scales block_size)) (λ l, l_ret (P_BlockFp8 l))))
  else l_bind (load_linear prefix (mc_quantization model) schema) (λ l, l_ret (P_Linear l))).

Definition ds_norm_load (name : string) (c : DeepseekV3Config) : Load (RmsNorm (T := T)) :=
  l_bind (remove_tensor name) (λ w, l_ret (mkRmsNorm w (dc_rms_norm_eps c))).

Definition load_query (prefix : string) (model : ModelConfig) (schema : option QuantSchema) (c : DeepseekV3Config) (block_size : nat) :
    Load (QueryProjection (T := T)) :=
  match dc_q_lora_rank c with
  | Some _ =>
      l_bind (proj_load (prefix +:+ ".q_a_proj") model schema block_size) (λ a,
      l_bind (ds_norm_load (prefix +:+ ".q_a_layernorm.weight") c) (λ norm,
      l_bind (proj_load (prefix +:+ ".q_b_proj") model schema block_size) (λ b, l_ret (Q_Lora a norm b))))
  | None => l_bind (proj_load (prefix +:+ ".q_proj") model schema block_size) (λ p, l_ret (Q_Plain p))
  end.

Definition load_attention (prefix : string) (model : ModelConfig) (schema : option QuantSchema) (c : DeepseekV3Config) (block_size : nat)
    (rope : DeepseekRope (T := T)) : Load (MlaAttention (T := T)) :=
  l_bind (load_query prefix model schema c block_size) (λ query,
  l_bind (proj_load (prefix +:+ ".kv_a_proj_with_mqa") model schema block_size) (λ kv_a,
  l_bind (ds_norm_load (prefix +:+ ".kv_a_layernorm.weight") c) (λ kv_a_norm,
  l_bind (proj_load (prefix +:+ ".kv_b_proj") model schema block_size) (λ kv_b,
  l_bind (proj_load (prefix +:+ ".o_proj") model schema block_size) (λ output,
  l_ret (mkMla query kv_a kv_a_norm kv_b output rope (dc_num_attention_heads c) (dc_qk_nope_head_dim c) (dc_qk_rope_head_dim c)
           (dc_v_head_dim c) (mla_scale ln c))))))).

Definition ds_load_mlp (prefix : string) (model : ModelConfig) (schema : option QuantSchema) (block_size : nat) : Load (DenseMlp (T := T)) :=
  l_bind (proj_load (prefix +:+ ".gate_proj") model schema block_size) (λ gate,
  l_bind (proj_load (prefix +:+ ".up_proj") model schema block_size) (λ up,
  l_bind (proj_load (prefix +:+ ".down_proj") model schema block_size) (λ down, l_ret (mkDsMlp gate up down)))).

Fixpoint ds_load_experts (prefix : string) (model : ModelConfig) (schema : option QuantSchema) (block_size expert n : nat) :
    Load (list (DenseMlp (T := T))) :=
  match n with
  | 0 => l_ret []
  | S n =>
      l_bind (ds_load_mlp (prefix +:+ ".experts." +:+ show expert) model schema block_size) (λ e,
      l_bind (ds_load_experts prefix model schema block_size (S expert) n) (λ es, l_ret (e :: es)))
  end.

Definition load_dense_moe (prefix : string) (model : ModelConfig) (schema : option QuantSchema) (c : DeepseekV3Config) (block_size : nat) :
    Load (DenseMoe (T := T)) :=
  l_bind (remove_tensor (prefix +:+ ".gate.weight")) (λ gate_weight,
  l_bind (ds_load_experts prefix model schema block_size 0 (dc_n_routed_experts c)) (λ experts,
  l_bind (if 0 <? dc_n_shared_experts c
          then l_bind (ds_load_mlp (prefix +:+ ".shared_experts") model schema block_size) (λ m, l_ret (Some m))
          else l_ret None) (λ shared,
  l_ret (mkDenseMoe gate_weight experts shared (dc_num_experts_per_tok c) (dc_n_group c) (dc_topk_group c)
           (String.eqb (dc_topk_method c) "group_limited_greedy") (dc_norm_topk_prob c) (dc_routed_scaling_factor c))))).

(** The architectures whose routed layers are stacked FP8 experts. *)
Definition is_v3 (model : ModelConfig) : bool :=
  String.eqb (mc_architecture model) "DeepseekV3ForCausalLM" || String.eqb (mc_architecture model) "DeepseekR1ForCausalLM".

(** Whether a layer is routed; a frequency of zero panics. *)
Definition routed_layer (c : DeepseekV3Config) (layer_index : nat) : option bool :=
  if dc_first_k_dense_replace c <=? layer_index then
    if dc_moe_layer_freq c =? 0 then None else Some (layer_index mod dc_moe_layer_freq c =? 0)
  else Some false.

Definition load_feed_forward (prefix : string) (model : ModelConfig) (schema : option QuantSchema) (c : DeepseekV3Config)
    (block_size layer_index : nat) : Load (FeedForward (T := T)) :=
  match routed_layer c layer_index with
  | None => l_panic
  | Some is_moe =>
      if is_moe && is_v3 model then l_bind (v3_moe_from_weights show c prefix block_size) (λ m, l_ret (FD_Fp8Moe m))
      else if is_moe then l_bind (load_dense_moe prefix model schema c block_size) (λ m, l_ret (FD_DenseMoe m))
      else l_bind (ds_load_mlp prefix model schema block_size) (λ m, l_ret (FD_Dense m))
  end.

(** A layer and how many of its parts are quantized. *)
Definition ds_load_layer (model : ModelConfig) (schema : option QuantSchema) (c : DeepseekV3Config) (block_size : nat)
    (rope : DeepseekRope (T := T)) (layer_index : nat) : Load (DecoderLayer (T := T) * nat) :=
  let prefix := ("model.layers." +:+ show layer_index)%string in
  l_bind (load_attention (prefix +:+ ".self_attn") model schema c block_size rope) (λ attention,
  l_bind (ds_norm_load (prefix +:+ ".input_layernorm.weight") c) (λ input_norm,
  l_bind (ds_norm_load (prefix +:+ ".post_attention_layernorm.weight") c) (λ post_attention_norm,
  l_bind (load_feed_forward (prefix +:+ ".mlp") model schema c block_size layer_index) (λ feed_forward,
  l_ret (mkDsLayer input_norm post_attention_norm attention feed_forward,
         mla_quantized_count attention + ds_ff_quantized_count feed_forward))))).

Fixpoint ds_load_layers (model : ModelConfig) (schema : option QuantSchema) (c : DeepseekV3Config) (block_size : nat)
    (rope : DeepseekRope (T := T)) (layer_index n : nat) : Load (list (DecoderLayer (T := T)) * nat) :=
  match n with
  | 0 => l_ret ([], 0)
  | S n =>
      l_bind (ds_load_layer model schema c block_size rope layer_index) (λ '(l, q),
      l_bind (ds_load_layers model schema c block_size rope (S layer_index) n) (λ '(ls, qs), l_ret (l :: ls, q + qs)))
  end.

(** The head: its own weights ([has_projection], as [has_linear]), or the embedding when tied. *)
Definition ds_load_head (model : ModelConfig) (schema : option QuantSchema) (c : DeepseekV3Config) (block_size : nat) (embedding : T) :
    Load (Projection (T := T)) :=
  l_bind (has_linear "lm_head") (λ own : bool,
  if own then proj_load "lm_head" model schema block_size
  else if dc_tie_word_embeddings c then l_ret (P_Linear (linear_new embedding))
  else q_fail "missing lm_head.weight for untied DeepSeek checkpoint").

(** [DeepseekModel::new] *)
Definition deepseek_new (model : ModelConfig) (schema : option QuantSchema) (c : DeepseekV3Config) : Load (DeepseekModel (T := T)) :=
  match fp8_block_size c with
  | Err _ => q_fail "weight_block_size"
  | Ok block_size =>
      l_bind (remove_tensor "model.embed_tokens.weight") (λ embedding,
      l_bind (ds_load_head model schema c block_size embedding) (λ lm_head,
      l_bind (ds_norm_load "model.norm.weight" c) (λ norm,
      l_bind (l_try (lift (deepseek_rope_new powf ln c))) (λ rope,
      l_bind (ds_load_layers model schema c block_size rope 0 (dc_num_hidden_layers c)) (λ '(ls, quantized),
      l_ret (mkDeepseekModel embedding ls norm lm_head (count_projections [lm_head] + quantized)))))))
  end.

(** [DeepseekForCausalLM::from_weights] *)
Definition ds_from_weights (model : ModelConfig) (schema : option QuantSchema) (c : DeepseekV3Config) : Load (DeepseekModel (T := T)) := λ s,
  match gguf_weights s with
  | Some g => if size g =? 0 then deepseek_new model schema c s else q_fail "native DeepSeek MLA does not support GGUF checkpoints" s
  | None => deepseek_new model schema c s
  end.
End load.
