(* ===== verification/DeepseekParts.v ===== *)
(** * The row-wise parts of the DeepSeek models

    The laws of the further calls of the tensor library, with their instance on
    host tensors.  A block-scaled FP8 projection multiplies by the matrix whose
    elements are the stored ones times the scale of their block ([block_fp8_acts]).
    The perceptron and the routed layer act on each row alone: a token is sent to
    the experts of greatest score, where the scores outside the groups with the
    best experts count as negative infinity when the choice is limited to groups
    ([dense_moe_rows]). *)
From S2P Require Import Prelude F32 Tensors NdTensor Rope Layers LayerRows AttentionRows Llama Decoder LlamaRows Moe QwenConfig Qwen QwenRows DeepseekV3 Deepseek.
#[local] Open Scope list_scope.
#[local] Open Scope nat_scope.
#[local] Open Scope rllm_scope.

(** ** Laws of the further calls *)
Class GroupScalars (E : Type) : Type := {
  e_max_of : list E → E;
  (** Equality, as the library's [u8], and whether such a value is not zero. *)
  e_eq : E → E → E;
  e_true : E → bool;
}.

Definition e_one {E} `{!Scalars E} : E := e_f32 F32.one.

(** How many of the ids of a row are [g], as the sum of as many ones. *)
Definition count_of {E} `{!Scalars E} (ids : list E) (g : nat) : E :=
  foldl (λ acc x, if N.to_nat (e_to_u32 x) =? g then e_add acc e_one else acc) e_zero ids.

Class LawfulGroup (T E : Type) `{!NdOps T, !GroupOps T, !Scalars E, !GroupScalars E, !Elements T E} : Prop := {
  mul_scalar_ok : ∀ (t : T) ty d (f : list nat → E) x, is_float ty → den t ty d f →
    gives (g_mul_scalar t x) ty d (λ i, e_mul (f i) (e_cast T_F64 ty (e_f64 x)));
  repeat_ok : ∀ (t : T) ty d (f : list nat → E) reps, den t ty d f → length reps = length d →
    gives (g_repeat t reps) ty (zip_with Nat.mul d reps) (λ i, f (zip_with Nat.modulo i d));
  squeeze_last_ok : ∀ (t : T) ty d (f : list nat → E), den t ty (d ++ [1]) f → gives (g_squeeze_last t) ty d (λ i, f (i ++ [0]));
  max_last_ok : ∀ (t : T) ty d n (f : list nat → E), is_float ty → n ≠ 0 → den t ty (d ++ [n]) f →
    gives (g_max_last t) ty d (λ i, e_max_of (row_at f (i ++ [0]) n));
  zeros_ok : ∀ d ty, is_float ty → gives (T := T) (E := E) (g_zeros d ty) ty d (λ _, e_zero);
  ones_ok : ∀ d ty, is_float ty → gives (T := T) (E := E) (g_ones d ty) ty d (λ _, e_one);
  scatter_add_ok : ∀ (t ids src : T) ty n w m (f g h : list nat → E), is_float ty → den t ty [n; w] f → den ids T_U32 [n; m] g →
    den src ty [n; m] h → (∀ i, inb [n; m] i → N.to_nat (e_to_u32 (g i)) < w) →
    gives (g_scatter_add_1 t ids src) ty [n; w] (λ i, match i with
      | [x; j] => foldl (λ acc k, if N.to_nat (e_to_u32 (g [x; k])) =? j then e_add acc (h [x; k]) else acc) (f [x; j]) (seq 0 m)
      | _ => e_zero end);
  eq_f32_ok : ∀ (t : T) ty d (f : list nat → E) x, is_float ty → den t ty d f → gives (g_eq_f32 t x) T_U8 d (λ i, e_eq (f i) (e_f32 x));
  where_ok : ∀ (c a b : T) ty d (f g h : list nat → E), den c T_U8 d f → den a ty d g → den b ty d h →
    gives (g_where c a b) ty d (λ i, if e_true (f i) then g i else h i);
  zero_is_zero : e_true (e_eq (e_zero (E := E)) e_zero) = true;
  one_is_not : e_true (e_eq (e_add (e_zero (E := E)) e_one) e_zero) = false;
}.

Section parts.
Context {T E : Type} `{!NdOps T, !MoeOps T, !GroupOps T, !Scalars E, !MoeScalars E, !GroupScalars E, !Elements T E, !LawfulNd T E, !LawfulScalars E, !LawfulMoe T E, !LawfulGroup T E}.
#[local] Abbreviation gives := (gives (T := T) (E := E)).
#[local] Abbreviation den := (den (T := T) (E := E)).
Context (show : nat → string) (cuda_linear : option (BlockFp8Linear (T := T) → T → result T TensorError)).

(** ** Block-scaled projections *)

(** Row [o] of the weight: the stored elements times the scales of their blocks. *)
Definition block_weight (w s : nat → nat → E) (b n o : nat) : list E :=
  (λ j, e_mul (e_cast T_F8E4M3 T_F32 (w o j)) (s (o / b) (j / b))) <$> seq 0 n.

Record block_is (l : BlockFp8Linear (T := T)) (n m : nat) (w s : nat → nat → E) : Prop := {
  bk_weight : den (bf_weight l) T_F8E4M3 [m; n] (ix2 w);
  bk_scales : den (bf_scales l) T_F32 [Prelude.cdiv m (bf_block_size l); Prelude.cdiv n (bf_block_size l)] (ix2 s);
  bk_size : bf_block_size l ≠ 0;
}.

Lemma scale_blocks (t : T) b ob ib s : den t T_F32 [ob; b; ib; b] (λ i, match i with [x; _; z; _] => s x z | _ => e_zero end) →
  gives (n_reshape t [ob * b; ib * b]) T_F32 [ob * b; ib * b] (ix2 (λ r c, s (r / b) (c / b))).
Proof using All.
  intros Ht. apply (nd_reshape_ok t T_F32 _ _ _ _ Ht); [cbn; lia |]. symmetry.
  etrans; [apply (tab_split [] ob b [ib * b] _ (λ i, match i with [x; y; c] => s ((x * b + y) / b) (c / b) | _ => e_zero end)) |].
  { intros [|? ?] x y [|c [|? ?]]; cbn [inb]; tauto || done. }
  apply (tab_split [ob; b] ib b []). intros [|x [|y [|? ?]]] z u [|? ?]; cbn [inb]; try tauto. intros (Hx & Hy & _) Hz Hu _. cbn [app].
  rewrite !(Nat.add_comm (_ * b)), !Nat.div_add, !Nat.div_small by lia. done.
Qed.

Lemma expand_scales_gives (scales : T) b m n s : b ≠ 0 → den scales T_F32 [Prelude.cdiv m b; Prelude.cdiv n b] (ix2 s) →
  gives (expand_scales scales b m n (Prelude.cdiv m b) (Prelude.cdiv n b)) T_F32 [m; n] (ix2 (λ r c, s (r / b) (c / b))).
Proof using All.
  intros Hb Hs. set (ob := Prelude.cdiv m b) in *. set (ib := Prelude.cdiv n b) in *. unfold expand_scales.
  destruct (to_dtype_ok scales T_F32 T_F32 _ _ Hs) as (t & -> & Ht). cbn [result_bind].
  destruct (nd_reshape_ok t T_F32 _ [ob; 1; ib; 1] _ (λ i, match i with [x; _; z; _] => s x z | _ => e_zero end) Ht) as (u & -> & Hu); [cbn; lia | |].
  { cbn [tab seq mbind list_bind]. apply seq_bind_ext. intros x _. rewrite app_nil_r. apply seq_bind_ext. intros z _. cbn [ix2]. by rewrite e_cast_same. }
  cbn [result_bind]. destruct (repeat_ok u T_F32 _ _ [1; b; 1; b] Hu eq_refl) as (v & -> & Hv). cbn [result_bind zip_with] in *.
  rewrite !Nat.mul_1_r, !Nat.mul_1_l in Hv.
  destruct (scale_blocks v b ob ib s) as (y & -> & Hy).
  { apply (den_ext _ _ _ _ _ Hv). intros [|x [|y [|z [|w [|? ?]]]]]; cbn [inb]; try tauto. intros (Hx & _ & Hz & _). cbn [zip_with].
    by rewrite !Nat.mod_small by done. }
  cbn [result_bind]. pose proof (cdiv_bounds m b ltac:(lia)). pose proof (cdiv_bounds n b ltac:(lia)).
  destruct (narrow_ok y T_F32 _ _ 0 0 m (ob * b) Hy eq_refl ltac:(unfold ob; lia)) as (y1 & -> & Hy1). cbn [result_bind insert list_insert] in *.
  destruct (narrow_ok y1 T_F32 _ _ 1 0 n (ib * b) Hy1 eq_refl ltac:(unfold ib; lia)) as (y2 & -> & Hy2). cbn [insert list_insert] in *.
  exists y2. split; [done |]. apply (den_ext _ _ _ _ _ Hy2). intros [|r [|c [|? ?]]]; cbn [inb]; tauto || done.
Qed.

(** The reference projection multiplies by the scaled weight, whatever the leading shape. *)
Lemma block_fp8_acts l n m w s : block_is l n m w s → acts (block_fp8_reference l) n m (dense_row (block_weight w s (bf_block_size l) n) m).
Proof using All.
  intros [Hw Hs Hb]. set (b := bf_block_size l) in *. split; [intros x _; unfold dense_row; by rewrite length_fmap, length_seq |].
  intros x d f Hx. pose proof Hx as (Dx & Tx & _). pose proof Hw as (Dw & _ & _). unfold block_fp8_reference, dims2, div_ceil, leading, sub_checked.
  rewrite Dw. cbn [bind_r]. fold b. rewrite (proj2 (Nat.eqb_neq b 0) Hb). cbn [mbind option_bind].
  destruct (expand_scales_gives (bf_scales l) b m n s Hb Hs) as (sc & -> & Hsc). cbn [result_bind].
  destruct (to_dtype_ok (bf_weight l) T_F8E4M3 T_F32 _ _ Hw) as (w1 & -> & Hw1). cbn [result_bind].
  destruct (broadcast_mul_ok w1 sc T_F32 _ _ _ _ ltac:(by left) Hw1 Hsc (bfits_refl _)) as (w2 & -> & Hw2). cbn [bind_r].
  rewrite Dx, length_app, (proj2 (Nat.leb_le _ _)) by (cbn; lia). cbn [length mbind option_bind].
  replace (length d + 1 - 1) with (length d) by lia. rewrite take_app_length.
  destruct (merge_leading x d n f Hx) as (x1 & -> & Hx1). cbn [result_bind].
  destruct (to_dtype_ok x1 T_F32 T_F32 _ _ Hx1) as (x2 & -> & Hx2). cbn [result_bind].
  apply (den_ext _ _ _ _ (λ i, match i with [r; j] => f (unravel d r ++ [j]) | _ => e_zero end)) in Hx2; [| intros; apply e_cast_same].
  destruct (rows_matmul x2 w2 d n m f (block_weight w s b n) Hx2) as (wt & o & -> & Eo & Ho).
  - apply (den_ext _ _ _ _ _ Hw2). intros [|r [|c [|? ?]]]; cbn [inb]; try tauto. intros (Hr & Hc & _).
    rewrite bidx_same by (cbn; tauto). cbn [ix2]. unfold block_weight. by rewrite at_fmap.
  - intros o _. unfold block_weight. by rewrite length_fmap, length_seq.
  - cbn [result_bind]. rewrite Eo. cbn [result_bind]. destruct Ho as (y & -> & Hy). cbn [result_bind]. rewrite Tx.
    destruct (to_dtype_ok y T_F32 T_F32 _ _ Hy) as (z & -> & Hz). exists z. split; [done |].
    apply (den_ext _ _ _ _ _ Hz). intros; apply e_cast_same.
Qed.

(** ** Compositions *)
Lemma acts_then f g a b c F G : acts (T := T) (E := E) f a b F → acts g b c G → acts (λ x, y <-! f x; g y) a c (λ l, G (F l)).
Proof using All.
  intros [HF Hf] [HG Hg]. split; [auto |]. intros x d u Hx. destruct (Hf x d u Hx) as (y & -> & Hy). cbn [bind_r].
  destruct (Hg y d _ Hy) as (z & -> & Hz). exists z. split; [done |]. apply (den_ext _ _ _ _ _ Hz).
  intros i (p & j & -> & Hp & Hj)%inb_last. rewrite List.last_last. do 2 f_equal.
  etrans; [| apply (list_of_at _ b), HF, row_at_length]. unfold row_at at 1. apply list_fmap_ext. intros _ k _.
  rewrite set_last_app, List.last_last. do 2 f_equal. unfold row_at. apply list_fmap_ext. intros _ z' _. by rewrite !set_last_app.
Qed.

(** Queries through a narrow row. *)
Lemma lora_acts a norm b h r q A N B : acts (proj_forward show cuda_linear a) h r A → rowwise (rms_forward norm) r r N →
  acts (proj_forward show cuda_linear b) r q B → acts (query_forward show cuda_linear (Q_Lora a norm b)) h q (λ x, B (N (A x))).
Proof using All.
  intros HA HN HB. exact (acts_then _ _ h r q A (λ l, B (N l)) HA (acts_then _ _ r r q N B (rowwise_acts _ _ _ _ HN) HB)).
Qed.

(** ** The perceptron *)
Lemma ds_mlp_acts (m : DenseMlp (T := T)) h w G U D :
  acts (proj_forward show cuda_linear (ds_gate m)) h w G → acts (proj_forward show cuda_linear (ds_up m)) h w U →
  acts (proj_forward show cuda_linear (ds_down m)) w h D → acts (ds_mlp_forward show cuda_linear m) h h (mlp_row G U D).
Proof using All.
  intros HG HU HD. apply (acts_ext _ _ _ _ _ (gated_acts _ _ _ h w G U D HG HU HD)). intros x y. unfold ds_mlp_forward.
  by destruct (proj_forward show cuda_linear (ds_gate m) x) as [[g|]|].
Qed.

(** ** Routing within groups *)
Section groups.
Context (n_exp num_groups topk_groups : nat) (Hsz : (N.of_nat num_groups <= u32_max)%N) (Hk : topk_groups ≤ num_groups).
Context (Hg : num_groups ≠ 0) (Hdiv : n_exp mod num_groups = 0).

Definition per_group : nat := n_exp / num_groups.

Lemma groups_product : num_groups * per_group = n_exp.
Proof using Hdiv. clear - Hdiv. unfold per_group. pose proof (Nat.div_mod_eq n_exp num_groups). lia. Qed.

(** The scores outside the groups of [picked] are negative infinity. *)
Definition masked_scores (picked : list nat) (p : list E) : list E :=
  (λ e, if existsb (Nat.eqb (e / per_group)) picked then at_ p e else e_f32 F32.neg_infinity) <$> seq 0 n_exp.

Lemma count_picked (picked : list nat) g : NoDup picked → Forall (λ x, x < num_groups) picked →
  e_true (e_eq (count_of (e_u32 <$> (N.of_nat <$> picked)) g) (e_zero (E := E))) = negb (existsb (Nat.eqb g) picked).
Proof using All.
  intros Hnd Hb. unfold count_of.
  assert (Hskip : ∀ l acc, g ∉ l → Forall (λ x, x < num_groups) l →
    foldl (λ acc x, if N.to_nat (e_to_u32 x) =? g then e_add acc (e_one (E := E)) else acc) acc (e_u32 <$> (N.of_nat <$> l)) = acc).
  { induction l as [|x l IH]; intros acc Hn Hf; [done |]. apply Forall_cons in Hf as [Hx Hf]. cbn [fmap list_fmap foldl].
    rewrite e_to_u32_of by lia. rewrite Nat2N.id. destruct (Nat.eqb_spec x g); [set_solver |]. apply IH; [set_solver | done]. }
  induction picked as [|x l IH]; [cbn; apply (zero_is_zero (T := T)) |]. apply NoDup_cons in Hnd as [Hx Hnd]. apply Forall_cons in Hb as [Hlt Hb].
  cbn [fmap list_fmap foldl existsb]. rewrite e_to_u32_of by lia. rewrite Nat2N.id, (Nat.eqb_sym g x). destruct (Nat.eqb_spec x g) as [->|Hne].
  - rewrite Hskip by done. apply (one_is_not (T := T)).
  - by apply IH.
Qed.

Lemma mask_groups_table groups scores n P (Q : nat → list nat) : table scores n n_exp P →
  den groups T_U32 [n; topk_groups] (ix2 (λ t j, e_u32 (N.of_nat (default 0 (Q t !! j))))) →
  (∀ t, t < n → length (Q t) = topk_groups ∧ NoDup (Q t) ∧ Forall (λ x, x < num_groups) (Q t)) →
  ∃ m, mask_groups groups scores n num_groups per_group n_exp = Ok m ∧ table m n n_exp (λ t, masked_scores (Q t) (P t)).
Proof using All.
  intros [Hs Hl] Hgr HQ. pose proof Hgr as (Dg & _ & _). pose proof Hs as (Ds & _ & _). unfold mask_groups. rewrite Dg, Ds.
  destruct (zeros_ok (T := T) (E := E) [n; num_groups] T_F32 ltac:(by left)) as (z & -> & Hz). cbn [result_bind].
  destruct (ones_ok (T := T) (E := E) [n; topk_groups] T_F32 ltac:(by left)) as (o & -> & Ho). cbn [result_bind].
  assert (Hid : ∀ t j, t < n → j < topk_groups → ∃ x, Q t !! j = Some x ∧ x < num_groups).
  { intros t j Ht Hj. destruct (HQ t Ht) as (Hq & _ & Hb). destruct (lookup_lt_is_Some_2 (Q t) j ltac:(lia)) as [x Ex].
    exists x. split; [done |]. by apply (Forall_lookup_1 _ _ _ _ Hb) in Ex. }
  destruct (scatter_add_ok z groups o T_F32 n num_groups topk_groups _ _ _ ltac:(by left) Hz Hgr Ho) as (c & -> & Hc).
  { intros [|t [|j [|? ?]]]; cbn [inb]; try tauto. intros (Ht & Hj & _). cbn [ix2]. destruct (Hid t j Ht Hj) as (x & -> & Hx).
    rewrite default_Some. rewrite e_to_u32_of by lia. by rewrite Nat2N.id. }
  cbn [result_bind]. apply (den_ext _ _ _ _ (ix2 (λ t g, count_of (e_u32 <$> (N.of_nat <$> Q t)) g))) in Hc.
  2: { intros [|t [|g [|? ?]]]; cbn [inb]; try tauto. intros (Ht & _). cbn [ix2]. unfold count_of. rewrite (foldl_seq_list _ (e_u32 0%N : E)).
       rewrite !length_fmap, (proj1 (HQ t Ht)). apply foldl_ext_in. intros acc k Hk'%elem_of_seq. rewrite !list_lookup_fmap.
       destruct (Hid t k Ht ltac:(lia)) as (x & -> & _). done. }
  pose proof Hc as (Dc & _ & _). rewrite Dc. cbn [length].
  destruct (unsqueeze_ok c T_F32 _ _ 2 Hc ltac:(cbn; lia)) as (u & -> & Hu). cbn [result_bind take drop app] in *.
  destruct (expand_ok u T_F32 _ [n; num_groups; per_group] _ Hu) as (e & -> & He).
  { unfold bfits. cbn. by rewrite !Nat.eqb_refl, !orb_true_r. }
  cbn [result_bind].
  destruct (nd_reshape_ok e T_F32 _ [n; n_exp] _ (ix2 (λ t e, count_of (e_u32 <$> (N.of_nat <$> Q t)) (e / per_group))) He) as (m & -> & Hm).
  { rewrite <- groups_product. cbn. lia. }
  { symmetry. rewrite <- groups_product at 1. apply (tab_split [n] num_groups per_group []).
    intros [|t [|? ?]] a b [|? ?]; cbn [inb]; try tauto. intros (Ht & _) Ha Hb _. unfold bidx. cbn [app length Nat.sub drop zip_with take ix2].
    rewrite (Nat.add_comm (a * _)), Nat.div_add, Nat.div_small, Nat.add_0_l by lia.
    assert (∀ m k, k < m → (if m =? 1 then 0 else k) = k) as Hif by (intros m k ?; destruct (Nat.eqb_spec m 1); lia).
    by rewrite !Hif. }
  cbn [result_bind]. destruct (scalar_ok (T := T) (E := E) F32.neg_infinity) as (i & -> & Hi). cbn [result_bind].
  destruct (expand_ok i T_F32 _ [n; n_exp] _ Hi eq_refl) as (ng & -> & Hng). cbn [result_bind].
  destruct (eq_f32_ok m T_F32 _ _ F32.zero ltac:(by left) Hm) as (q & -> & Hq). cbn [result_bind].
  destruct (where_ok q ng scores T_F32 _ _ _ _ Hq Hng Hs) as (w & -> & Hw). exists w. split; [done |].
  split; [| intros t _; unfold masked_scores; by rewrite length_fmap, length_seq]. apply (den_ext _ _ _ _ _ Hw).
  intros [|t [|x [|? ?]]]; cbn [inb]; try tauto. intros (Ht & Hx & _). cbn [ix2]. destruct (HQ t Ht) as (_ & Hnd & Hb).
  fold (e_zero (E := E)). rewrite count_picked by done. unfold masked_scores. rewrite at_fmap by done. by destruct (existsb _ _).
Qed.
End groups.

(** ** The routed layer of the second generation *)

(** Router, experts, choice, and the shared expert; [dx_groups] is the number of
    groups and of those chosen, when the choice is limited to groups. *)
Record DenseMoeRows : Type := mkDenseMoeRows {
  dx_router : nat → list E;
  dx_experts : list (list E → list E);
  dx_top_k : nat;
  dx_groups : option (nat * nat);
  dx_normalize : bool;
  dx_scaling : f64;
  dx_shared : option (list E → list E);
}.
Definition dx_n (s : DenseMoeRows) : nat := length (dx_experts s).

(** The best score of each group, and the groups with the greatest. *)
Definition group_best (n_exp num_groups : nat) (p : list E) : list E :=
  (λ g, e_max_of ((λ j, at_ p (g * per_group n_exp num_groups + j)) <$> seq 0 (per_group n_exp num_groups))) <$> seq 0 num_groups.
Definition best_groups (n_exp num_groups topk_groups : nat) (p : list E) : list nat := chosen topk_groups (group_best n_exp num_groups p).

Definition selection_row (s : DenseMoeRows) (p : list E) : list E :=
  match dx_groups s with
  | None => p
  | Some (g, k) => masked_scores (dx_n s) g (best_groups (dx_n s) g k p) p
  end.

Definition dense_weights_row (s : DenseMoeRows) (p : list E) (ids : list nat) : list E :=
  let ws := at_ p <$> ids in
  if dx_normalize s && (1 <? dx_top_k s) then (λ w, e_div w (e_add (e_sum ws) (e_cast T_F64 T_F32 (e_f64 route_eps)))) <$> ws
  else (λ w, e_mul w (e_cast T_F64 T_F32 (e_f64 (dx_scaling s)))) <$> ws.

Definition dense_routed_row (s : DenseMoeRows) (x : list E) : list E :=
  let p := probabilities (dx_n s) (dx_router s) x in
  let ids := chosen (dx_top_k s) (selection_row s p) in
  mixture 0 (dx_experts s) x (gates ids (e_to_f32 <$> dense_weights_row s p ids)) (replicate (length x) e_zero).
Definition dense_moe_row (s : DenseMoeRows) (x : list E) : list E :=
  match dx_shared s with None => dense_routed_row s x | Some Sh => zip_with e_add (dense_routed_row s x) (Sh x) end.

Record dense_moe_is (m : DenseMoe (T := T)) (s : DenseMoeRows) (h : nat) : Prop := {
  xi_router : den (de_gate_weight m) T_F32 [dx_n s; h] (λ i, match i with [o; j] => at_ (dx_router s o) j | _ => e_zero end);
  xi_router_rows : ∀ o, o < dx_n s → length (dx_router s o) = h;
  xi_experts : Forall2 (λ e F, acts (ds_mlp_forward show cuda_linear e) h h F) (de_experts m) (dx_experts s);
  xi_n : (N.of_nat (dx_n s) <= u32_max)%N;
  xi_top_k : de_top_k m = dx_top_k s ∧ dx_top_k s ≤ dx_n s;
  xi_groups : if de_group_limited m
              then dx_groups s = Some (de_num_groups m, de_topk_groups m) ∧ de_topk_groups m ≤ de_num_groups m
                ∧ de_num_groups m ≠ 0 ∧ dx_n s ≠ 0 ∧ dx_n s mod de_num_groups m = 0
              else dx_groups s = None;
  xi_normalize : de_normalize m = dx_normalize s;
  xi_scaling : de_scaling m = dx_scaling s;
  xi_shared : match de_shared m, dx_shared s with
              | None, None => True
              | Some e, Some Sh => acts (ds_mlp_forward show cuda_linear e) h h Sh
              | _, _ => False
              end;
}.

Lemma length_selection_row s p : length p = dx_n s → length (selection_row s p) = dx_n s.
Proof. intros Hl. unfold selection_row. destruct (dx_groups s) as [[g k]|]; [| done]. unfold masked_scores. by rewrite length_fmap, length_seq. Qed.

Lemma group_best_table scores n n_exp g P : g ≠ 0 → n_exp ≠ 0 → n_exp mod g = 0 → table scores n n_exp P →
  ∃ gs, (grouped <-? n_reshape scores [n; g; per_group n_exp g]; g_max_last grouped) = Ok gs ∧ table gs n g (λ t, group_best n_exp g (P t)).
Proof using All.
  intros Hg Hn Hdiv [Hs Hl]. pose proof (groups_product n_exp g Hdiv) as Hprod.
  destruct (nd_reshape_ok scores T_F32 _ [n; g; per_group n_exp g] _ (λ i, match i with [t; a; j] => at_ (P t) (a * per_group n_exp g + j) | _ => e_zero end) Hs)
    as (y & -> & Hy).
  { rewrite <- Hprod at 2. cbn. lia. }
  { rewrite <- Hprod at 1. apply (tab_split [n] g (per_group n_exp g) []). intros [|t [|? ?]] a b [|? ?]; cbn [inb]; tauto || done. }
  cbn [result_bind]. assert (Hpg : per_group n_exp g ≠ 0) by (intros E0; rewrite E0 in Hprod; lia).
  destruct (max_last_ok y T_F32 [n; g] _ _ ltac:(by left) Hpg Hy) as (gs & -> & Hgs). exists gs. split; [done |].
  split; [| intros t _; unfold group_best; by rewrite length_fmap, length_seq]. apply (den_ext _ _ _ _ _ Hgs).
  intros [|t [|a [|? ?]]]; cbn [inb app]; try tauto. intros (Ht & Ha & _). cbn [ix2]. unfold group_best. rewrite at_fmap by done. done.
Qed.

Lemma selection_table m s h scores n P : dense_moe_is m s h → table scores n (dx_n s) P →
  ∃ sel, dense_selection m scores n = Some (Ok sel) ∧ table sel n (dx_n s) (λ t, selection_row s (P t)).
Proof using All.
  intros Hm Hp. pose proof (xi_groups _ _ _ Hm) as Hg. pose proof (xi_n _ _ _ Hm) as Hu.
  pose proof (Forall2_length _ _ _ (xi_experts _ _ _ Hm)) as Hlen. fold (dx_n s) in Hlen.
  unfold dense_selection, selection_row. destruct (de_group_limited m); [| rewrite Hg; by exists scores].
  destruct Hg as (-> & Hk & Hg & Hn & Hdiv). rewrite Hlen, (proj2 (Nat.eqb_neq _ _) Hg). fold (per_group (dx_n s) (de_num_groups m)).
  destruct (group_best_table scores n _ _ P Hg Hn Hdiv Hp) as (gs & Egs & Hgs).
  destruct (n_reshape scores _) as [y|]; cbn [result_bind] in *; [| done]. rewrite Egs. cbn [result_bind].
  assert (Hgu : (N.of_nat (de_num_groups m) <= u32_max)%N).
  { assert (de_num_groups m ≤ dx_n s); [| lia]. pose proof (Nat.div_mod_eq (dx_n s) (de_num_groups m)). destruct (dx_n s / de_num_groups m); lia. }
  destruct (chosen_table show _ _ Hgu Hk gs n _ Hgs) as (ids & Eids & Hids).
  change (top_positions gs (de_topk_groups m)) with
    (sorted <-? m_arg_sort_desc gs; k <-? minus1 sorted; ids <-? n_narrow sorted k 0 (de_topk_groups m); n_contiguous ids).
  rewrite Eids. cbn [result_bind].
  destruct (mask_groups_table (dx_n s) _ _ Hgu Hk Hg Hdiv ids scores n P (λ t, best_groups (dx_n s) (de_num_groups m) (de_topk_groups m) (P t)) Hp Hids)
    as (mk & -> & Hmk); [| by exists mk].
  intros t Ht. destruct (chosen_ok show (de_num_groups m) (de_topk_groups m) Hgu Hk (group_best (dx_n s) (de_num_groups m) (P t))) as (H1 & H2 & H3);
    [by apply (proj2 Hgs) | done].
Qed.

Lemma dense_weights_table m s h p ids n P : dense_moe_is m s h → table p n (dx_n s) P →
  den ids T_U32 [n; dx_top_k s] (ix2 (λ t j, e_u32 (N.of_nat (default 0 (chosen (dx_top_k s) (selection_row s (P t)) !! j))))) →
  ∃ w, dense_weights m p ids = Ok w ∧ table w n (dx_top_k s) (λ t, dense_weights_row s (P t) (chosen (dx_top_k s) (selection_row s (P t)))).
Proof using All.
  intros Hm Hp Hids. destruct (xi_top_k _ _ _ Hm) as [Ek Hk].
  destruct (gathered_table show (dx_n s) (dx_top_k s) (xi_n _ _ _ Hm) Hk p ids n P (λ t, selection_row s (P t)) Hp) as (g & Eg & Hg);
    [intros t Ht; by apply length_selection_row, (proj2 Hp) | done |].
  unfold dense_weights. rewrite Eg, Ek, (xi_normalize _ _ _ Hm), (xi_scaling _ _ _ Hm). cbn [result_bind]. unfold dense_weights_row.
  destruct (dx_normalize s && (1 <? dx_top_k s)); [by apply (normalized_table show (dx_n s) (dx_top_k s) (xi_n _ _ _ Hm) Hk) |].
  destruct (mul_scalar_ok g T_F32 _ _ (dx_scaling s) ltac:(by left) (proj1 Hg)) as (w & -> & Hw). exists w. split; [done |].
  split; [| intros t Ht; rewrite length_fmap; by apply (proj2 Hg)]. apply (den_ext _ _ _ _ _ Hw).
  intros [|t [|j [|? ?]]]; cbn [inb]; try tauto. intros (Ht & Hj & _). cbn [ix2]. symmetry. pose proof (proj2 Hg t Ht) as Hlt. cbn beta in Hlt.
  exact (at_map (λ w, e_mul w (e_cast T_F64 T_F32 (e_f64 (dx_scaling s)))) _ _ _ Hlt Hj).
Qed.

(** The routes of a batch, and what the experts make of them. *)
Lemma dense_route_gives m s h flat n X : dense_moe_is m s h → table flat n h X →
  ∃ ids ws, dense_route m flat n = Some (Ok (ids, ws))
    ∧ routing_is ids ws n (dx_top_k s)
        (λ t, N.of_nat <$> chosen (dx_top_k s) (selection_row s (probabilities (dx_n s) (dx_router s) (X t))))
        (λ t, let p := probabilities (dx_n s) (dx_router s) (X t) in
              e_to_f32 <$> dense_weights_row s p (chosen (dx_top_k s) (selection_row s p))).
Proof using All.
  intros Hm Hf. destruct (xi_top_k _ _ _ Hm) as [Ek Hk]. unfold dense_route.
  destruct (probabilities_table show (dx_n s) (dx_top_k s) (xi_n _ _ _ Hm) Hk flat _ n h X _ Hf (xi_router _ _ _ Hm) (xi_router_rows _ _ _ Hm)) as (p & -> & Hp).
  cbn [bind_r]. destruct (selection_table m s h p n _ Hm Hp) as (sel & -> & Hsel). cbn [bind_r].
  destruct (chosen_table show (dx_n s) (dx_top_k s) (xi_n _ _ _ Hm) Hk sel n _ Hsel) as (ids & Eids & Hids). rewrite Ek.
  change (top_positions sel (dx_top_k s)) with
    (sorted <-? m_arg_sort_desc sel; k <-? minus1 sorted; ids <-? n_narrow sorted k 0 (dx_top_k s); n_contiguous ids).
  rewrite Eids. cbn [result_bind].
  destruct (dense_weights_table m s h p ids n _ Hm Hp Hids) as (w & -> & Hw). cbn [result_bind].
  destruct (routing_read show (dx_n s) (dx_top_k s) (xi_n _ _ _ Hm) Hk ids w n _ _ Hids Hw (proj2 Hsel)) as (a & b & -> & Hr).
  by exists a, b.
Qed.

(** Any batch of tokens: each row alone. *)
Lemma dense_moe_rows m s h max : dense_moe_is m s h → h ≠ 0 → (N.of_nat max <= u32_max)%N →
  on_rows max (dense_moe_forward show cuda_linear m) h h (dense_moe_row s).
Proof using All.
  intros Hm Hh Hmax x n R Hn Hx. pose proof Hx as [(Dx & _ & _) _]. unfold dense_moe_forward, dim_minus1, minus1, n_dim. rewrite Dx.
  cbn [length result_bind lookup list_lookup bind_r]. rewrite (proj2 (Nat.eqb_neq h 0) Hh).
  assert (nprod [1; n; h] / h = n) as -> by (cbn; rewrite Nat.mul_1_r, Nat.add_0_r; by apply Nat.div_mul).
  destruct (flatten_rows x n h R Hx) as (flat & -> & Hf). cbn [bind_r]. destruct (xi_top_k _ _ _ Hm) as [Ek Hk].
  destruct (dense_route_gives m s h flat n R Hm Hf) as (ids & ws & -> & Hr). cbn [bind_r fst snd].
  destruct (zeros_table show flat n h R Hf) as (z & -> & Hz). cbn [bind_r]. rewrite Ek.
  destruct (run_experts_table (ds_mlp_forward show cuda_linear <$> de_experts m) (dx_experts s) flat n h (dx_top_k s) ids ws _ _ R
    ltac:(by apply Forall2_fmap_l, (xi_experts _ _ _ Hm)) ltac:(lia) Hf Hr 0 z _ Hz) as (o & -> & Ho). cbn [bind_r].
  apply (table_ext _ _ _ _ (λ t, dense_routed_row s (R t))) in Ho.
  2: { intros t Ht. unfold dense_routed_row. cbv zeta. rewrite (proj2 Hf t Ht).
       assert (Hlp : length (selection_row s (probabilities (dx_n s) (dx_router s) (R t))) = dx_n s).
       { apply length_selection_row. unfold probabilities. rewrite length_e_softmax. unfold dense_row. by rewrite length_fmap, length_seq. }
       destruct (chosen_ok show (dx_n s) (dx_top_k s) (xi_n _ _ _ Hm) Hk _ Hlp) as (Hc & _ & Hnd).
       apply mix_is_mixture; [done |]. rewrite length_fmap. unfold dense_weights_row. destruct (_ && _); by rewrite !length_fmap. }
  unfold dense_moe_row. pose proof (xi_shared _ _ _ Hm) as Hs. destruct (de_shared m) as [e|], (dx_shared s) as [Sh|]; try done.
  - destruct (acts_table _ _ _ _ flat n R Hs Hf) as (y & -> & Hy). cbn [bind_r].
    destruct (add_ok o y T_F32 _ _ _ ltac:(by left) (proj1 Ho) (proj1 Hy)) as (a & -> & Ha). cbn [bind_r].
    assert (Ht : table a n h (λ t, zip_with e_add (dense_routed_row s (R t)) (Sh (R t)))).
    { split; [| intros t Ht; rewrite length_zip_with, (proj2 Ho), (proj2 Hy) by done; lia]. apply (den_ext _ _ _ _ _ Ha).
      intros [|t [|j [|? ?]]]; cbn [inb]; try tauto. intros (Ht & Hj & _). cbn [ix2]. symmetry.
      apply (at_zip _ _ _ _ h); [by apply (proj2 Ho) | by apply (proj2 Hy) | done]. }
    destruct (unflatten_rows a n h _ Ht) as (b & -> & Hb). by exists b.
  - cbn [bind_r]. destruct (unflatten_rows o n h _ Ho) as (b & -> & Hb). by exists b.
Qed.
End parts.

(** ** The calls on host tensors *)
Section host.
Context {E : Type} `{!Scalars E, !LawfulScalars E, !MoeScalars E, !GroupScalars E}.
#[local] Abbreviation H := (NdHost E).
#[local] Existing Instances host_nd host_elements host_nd_lawful host_moe.

#[local] Instance host_group : GroupOps H := {
  g_max_last t := Ok (nh_mk (removelast (nh_dims t)) (nh_dtype t) (λ i, e_max_of (nh_row t (i ++ [0]))));
  g_sum_last t := Ok (nh_mk (removelast (nh_dims t)) (nh_dtype t) (λ i, e_sum (nh_row t (i ++ [0]))));
  g_sum_1 t := match nh_dims t with
               | [a; b; c] => Ok (nh_mk [a; c] (nh_dtype t) (λ i, match i with
                   | [x; z] => e_sum ((λ y, nh_at t [x; y; z]) <$> seq 0 b) | _ => e_zero end))
               | _ => Err "unexpected rank"%string
               end;
  g_zeros d ty := Ok (nh_mk d ty (λ _, e_zero));
  g_ones d ty := Ok (nh_mk d ty (λ _, e_one));
  g_scatter_add_1 t ids src :=
    match nh_dims ids with
    | [_; m] => Ok (nh_mk (nh_dims t) (nh_dtype t) (λ i, match i with
        | [x; j] => foldl (λ acc k, if N.to_nat (e_to_u32 (nh_at ids [x; k])) =? j then e_add acc (nh_at src [x; k]) else acc)
                      (nh_at t [x; j]) (seq 0 m)
        | _ => e_zero end))
    | _ => Err "unexpected rank"%string
    end;
  g_eq_f32 t x := Ok (nh_mk (nh_dims t) T_U8 (λ i, e_eq (nh_at t i) (e_f32 x)));
  g_where c a b := Ok (nh_mk (nh_dims a) (nh_dtype a) (λ i, if e_true (nh_at c i) then nh_at a i else nh_at b i));
  g_mul_scalar t x := nh_map (λ e, e_mul e (e_cast T_F64 (nh_dtype t) (e_f64 x))) t;
  g_repeat t reps := Ok (nh_mk (zip_with Nat.mul (nh_dims t) reps) (nh_dtype t) (λ i, nh_at t (zip_with Nat.modulo i (nh_dims t))));
  g_squeeze_last t := Ok (nh_mk (removelast (nh_dims t)) (nh_dtype t) (λ i, nh_at t (i ++ [0])));
  g_to_vec1_f32 t := Ok (e_to_f32 <$> nh_data t);
}.

Lemma inb_repeat d : ∀ reps i, length reps = length d → inb (zip_with Nat.mul d reps) i → inb d (zip_with Nat.modulo i d).
Proof.
  induction d as [|n d IH]; intros [|r reps] [|k i]; cbn; try done. intros [= Hl] [Hk Hi]. split; [apply Nat.mod_upper_bound; lia |].
  by apply (IH reps).
Qed.

Lemma inb_snoc d n i j : inb d i → j < n → inb (d ++ [n]) (i ++ [j]).
Proof. intros Hi Hj. apply inb_app; [by rewrite (inb_length _ _ Hi) | done]. Qed.

#[local] Instance host_group_lawful : e_true (e_eq (e_zero (E := E)) e_zero) = true → e_true (e_eq (e_add (e_zero (E := E)) e_one) e_zero) = false →
  LawfulGroup H E.
Proof using All.
  intros Hz Ho. split; cbn [g_mul_scalar g_repeat g_squeeze_last g_max_last g_zeros g_ones g_scatter_add_1 g_eq_f32 g_where host_group].
  - intros t ty d f x _ Hd. pose proof Hd as (_ & Ty & _). cbn in Ty. rewrite Ty. exact (nh_map_gives (λ e, e_mul e (e_cast T_F64 ty (e_f64 x))) t ty d f Hd).
  - intros t ty d f reps Hd Hl. pose proof Hd as (Dt & Ty & _). cbn in Dt, Ty. rewrite Dt, Ty. apply nh_mk_gives. intros i Hi.
    apply (nh_at_den t ty d f); [done |]. by apply (inb_repeat d reps).
  - intros t ty d f Hd. pose proof Hd as (Dt & Ty & _). cbn in Dt, Ty. rewrite Dt, Ty, removelast_last. apply nh_mk_gives. intros i Hi.
    apply (nh_at_den t ty (d ++ [1]) f); [done |]. apply inb_snoc; [done | lia].
  - intros t ty d n f _ Hn Hd. pose proof Hd as (Dt & Ty & _). cbn in Dt, Ty. rewrite Dt, Ty, removelast_last. apply nh_mk_gives. intros i Hi.
    by rewrite (nh_row_den t ty d n f) by (done || by rewrite removelast_last).
  - intros d ty _. by apply nh_mk_gives.
  - intros d ty _. by apply nh_mk_gives.
  - intros t ids src ty n w m f g h _ Ht Hids Hs Hlt. pose proof Ht as (Dt & Ty & _). pose proof Hids as (Di & _ & _). cbn in Dt, Ty, Di.
    rewrite Dt, Di, Ty. apply nh_mk_gives. intros [|x [|j [|? ?]]]; cbn [inb]; try tauto. intros (Hx & Hj & _).
    rewrite (nh_at_den t ty [n; w] f) by (done || (cbn; lia)). apply foldl_ext_in. intros a k Hk%elem_of_seq.
    rewrite (nh_at_den ids T_U32 [n; m] g) by (done || (cbn; lia)). by rewrite (nh_at_den src ty [n; m] h) by (done || (cbn; lia)).
  - intros t ty d f x _ Hd. pose proof Hd as (Dt & _ & _). cbn in Dt. rewrite Dt. apply nh_mk_gives. intros i Hi.
    by rewrite (nh_at_den t ty d f).
  - intros c a b ty d f g h Hc Ha Hb. pose proof Ha as (Da & Ty & _). cbn in Da, Ty. rewrite Da, Ty. apply nh_mk_gives. intros i Hi.
    by rewrite (nh_at_den c T_U8 d f), (nh_at_den a ty d g), (nh_at_den b ty d h).
  - exact Hz.
  - exact Ho.
Qed.
End host.
