(* ===== verification/DeepseekRows.v ===== *)
(** * What the DeepSeek models compute

    Latent attention by rows: what a token leaves in the cache are its expanded
    keys, with the shared rotated part, and its values; a token sees those up to
    its own position, which every row of the mask says by itself.  So a DeepSeek
    layer keeps the promise of Decoder.v for every split of a prompt
    ([mla_layer_computes], [deepseek_causal]), where the grouped-query layers keep
    it only on empty caches or for one token.  The further calls of the tensor
    library have the laws of [LawfulGroup]. *)
From S2P Require Import Prelude F32 Tensors NdTensor Rope Layers LayerRows AttentionRows Llama Decoder LlamaRows Moe QwenConfig Qwen QwenRows DeepseekV3 Deepseek DeepseekParts Exact.
#[local] Open Scope list_scope.
#[local] Open Scope nat_scope.
#[local] Open Scope rllm_scope.

Section rows.
Context {T E : Type} `{!NdOps T, !MoeOps T, !GroupOps T, !Scalars E, !MoeScalars E, !GroupScalars E, !Elements T E, !LawfulNd T E, !LawfulScalars E, !MaskLaws E, !LawfulMoe T E, !LawfulGroup T E}.
#[local] Abbreviation gives := (gives (T := T) (E := E)).
#[local] Abbreviation den := (den (T := T) (E := E)).

(** A tensor of heads, then tokens, then components. *)
Definition heads (t : T) (h n d : nat) (f : nat → nat → nat → E) : Prop := den t T_F32 [1; h; n; d] (ix4 (λ _ a i j, f a i j)).

Lemma heads_ext t h n d f g : heads t h n d f → (∀ a i j, a < h → i < n → j < d → f a i j = g a i j) → heads t h n d g.
Proof.
  intros Ht H. apply (den_ext _ _ _ _ _ Ht). intros [|u [|a [|i [|j [|? ?]]]]]; cbn [inb ix4]; try tauto.
  intros (_ & Ha & Hi & Hj & _). by apply H.
Qed.

Lemma by_heads_gives (y : T) n h d R : tensor_rows y n (h * d) R →
  ∃ z, by_heads y 1 n h d = Ok z ∧ heads z h n d (λ a i j, at_ (R i) (a * d + j)).
Proof using All.
  intros Hy. unfold by_heads. destruct (split_heads y n h d R Hy) as (z & -> & Hz). cbn [result_bind].
  exact (swap_heads z n h d (λ i a j, at_ (R i) (a * d + j)) Hz).
Qed.

Lemma narrow_heads t h n d f start len : heads t h n d f → start + len ≤ d →
  ∃ z, narrow_last t start len = Ok z ∧ heads z h n len (λ a i j, f a i (start + j)).
Proof using All.
  intros Ht Hle. pose proof Ht as (Dt & _ & _). unfold narrow_last, minus1. rewrite Dt. cbn [length result_bind].
  destruct (narrow_ok t T_F32 _ _ 3 start len d Ht eq_refl Hle) as (z & -> & Hz). exists z. split; [done |].
  apply (den_ext _ _ _ _ _ Hz). intros [|u [|a [|i [|j [|? ?]]]]]; cbn [inb insert list_insert]; tauto || done.
Qed.

Lemma narrow_rows t n w R start len : tensor_rows t n w R → start + len ≤ w →
  ∃ z, narrow_last t start len = Ok z ∧ tensor_rows z n len (λ i, take len (drop start (R i))).
Proof using All.
  intros [Ht Hl] Hle. pose proof Ht as (Dt & _ & _). unfold narrow_last, minus1. rewrite Dt. cbn [length result_bind].
  destruct (narrow_ok t T_F32 _ _ 2 start len w Ht eq_refl Hle) as (z & -> & Hz). exists z. split; [done |].
  split; [| intros i Hi; rewrite length_take, length_drop, Hl by done; lia].
  apply (den_ext _ _ _ _ _ Hz). intros [|u [|i [|j [|? ?]]]]; cbn [inb insert list_insert]; try tauto. intros (_ & Hi & Hj & _).
  cbn [alter list_alter ix3]. unfold at_. by rewrite lookup_take_lt, lookup_drop by done.
Qed.

Lemma cat_last_heads (a b : T) h n d e f g : heads a h n d f → heads b h n e g →
  ∃ z, cat_last a b = Ok z ∧ heads z h n (d + e) (λ x i j, if j <? d then f x i j else g x i (j - d)).
Proof using All.
  intros Ha Hb. pose proof Ha as (Da & _ & _). unfold cat_last, minus1. rewrite Da. cbn [length result_bind].
  destruct (cat_ok a b T_F32 [1; h; n; d] _ _ 3 d e Ha Hb eq_refl) as (z & -> & Hz). exists z. split; [done |].
  apply (den_ext _ _ _ _ _ Hz). intros [|u [|x [|i [|j [|? ?]]]]]; cbn [inb insert list_insert]; tauto || done.
Qed.

(** One head for all. *)
Lemma repeat_heads t h n d f : heads t 1 n d f → ∃ z, g_repeat t [1; h; 1; 1] = Ok z ∧ heads z h n d (λ _ i j, f 0 i j).
Proof using All.
  intros Ht. destruct (repeat_ok t T_F32 [1; 1; n; d] _ [1; h; 1; 1] Ht eq_refl) as (z & -> & Hz). exists z. split; [done |].
  cbn [zip_with] in Hz. rewrite !Nat.mul_1_r, !Nat.mul_1_l in Hz. apply (den_ext _ _ _ _ _ Hz).
  intros [|u [|x [|i [|j [|? ?]]]]]; cbn [inb]; try tauto. intros (_ & _ & Hi & Hj & _). cbn [zip_with ix4].
  by rewrite !Nat.mod_1_r, !Nat.mod_small by done.
Qed.

(** ** The rotary embedding *)

(** The tables of cosines and sines. *)
Record ds_rope_holds (r : DeepseekRope (T := T)) (max half : nat) (c s : nat → nat → E) : Prop := {
  dh_cos : den (dr_cos r) T_F32 [max; half] (λ i, c (default 0 (i !! 0)) (default 0 (i !! 1)));
  dh_sin : den (dr_sin r) T_F32 [max; half] (λ i, s (default 0 (i !! 0)) (default 0 (i !! 1)));
}.

(** Each pair of adjacent components is rotated. *)
Definition rotate_pairs (c s : nat → nat → E) (p : nat) (x : nat → E) (j : nat) : E :=
  let k := j / 2 in
  if j mod 2 =? 0 then e_sub (e_mul (x (2 * k)) (c p k)) (e_mul (x (2 * k + 1)) (s p k))
  else e_add (e_mul (x (2 * k)) (s p k)) (e_mul (x (2 * k + 1)) (c p k)).

Lemma rope_rows_gives (cache : T) max half c positions : (N.of_nat max <= u32_max)%N → Forall (λ p, p < max) positions →
  den cache T_F32 [max; half] (λ i, c (default 0 (i !! 0)) (default 0 (i !! 1))) →
  ∃ indices z, n_from_u32 ((λ position, as_u32 (N.of_nat position)) <$> positions) [length positions] = Ok indices
    ∧ rope_rows cache indices T_F32 (length positions) half = Ok z
    ∧ den z T_F32 [1; 1; length positions; half] (ix4 (λ _ _ i k, c (default 0 (positions !! i)) k)).
Proof using All.
  intros Hmax Hp Hc. set (n := length positions).
  assert (Hu : ((λ position, as_u32 (N.of_nat position)) <$> positions) = N.of_nat <$> positions).
  { apply list_fmap_ext. intros i p Hi. apply (Forall_lookup_1 _ _ _ _ Hp) in Hi. unfold as_u32, u32_max in *. rewrite N.mod_small; lia. }
  rewrite Hu. clear Hu.
  destruct (from_u32_list (T := T) (E := E) (N.of_nat <$> positions) [n]) as (ix & Eix & Hix); [rewrite length_fmap; apply Nat.mul_1_r |].
  exists ix. unfold rope_rows.
  assert (Hg : ∀ k, k < n → N.to_nat (e_to_u32 (E := E) (e_u32 (default 0%N ((N.of_nat <$> positions) !! ravel [n] [k])))) = default 0 (positions !! k)
    ∧ default 0 (positions !! k) < max).
  { intros k Hk. cbn [ravel nprod foldr]. rewrite Nat.mul_1_r, Nat.add_0_r, list_lookup_fmap.
    destruct (lookup_lt_is_Some_2 positions k Hk) as [p Ep]. rewrite Ep. cbn. apply (Forall_lookup_1 _ _ _ _ Hp) in Ep.
    rewrite e_to_u32_of by lia. split; [apply Nat2N.id | done]. }
  destruct (index_select_ok cache ix T_F32 max [half] n _ _ Hc Hix) as (rs & -> & Hr); [intros k Hk; destruct (Hg k Hk) as [-> H]; done |].
  cbn [result_bind]. destruct (to_dtype_ok rs T_F32 T_F32 _ _ Hr) as (r1 & -> & Hr1). cbn [result_bind].
  destruct (nd_reshape_ok r1 T_F32 _ [1; 1; n; half] _ (ix4 (λ _ _ i k, c (default 0 (positions !! i)) k)) Hr1) as (z & -> & Hz); [cbn; lia | |].
  - symmetry. cbn [tab seq mbind list_bind]. rewrite !app_nil_r. apply seq_bind_ext. intros k Hk. apply seq_bind_ext. intros j Hj.
    cbn [ix4 lookup list_lookup]. rewrite e_cast_same. by rewrite (proj1 (Hg k Hk)).
  - by exists z.
Qed.

Lemma bfits_rope h n half : bfits [1; 1; n; half] [1; h; n; half] = true.
Proof. unfold bfits. cbn. by rewrite !Nat.eqb_refl, !orb_true_r. Qed.

Lemma bidx_rope n half a i k : i < n → k < half → bidx [1; 1; n; half] [0; a; i; k] = [0; 0; i; k].
Proof.
  intros Hi Hk. unfold bidx. cbn [length Nat.sub drop zip_with Nat.eqb].
  destruct (Nat.eqb_spec n 1), (Nat.eqb_spec half 1); repeat f_equal; lia.
Qed.

(** A product with a table. *)
Lemma mul_rope (x w : T) h n half f g : heads x h n half f → den w T_F32 [1; 1; n; half] (ix4 (λ _ _ i k, g i k)) →
  ∃ z, n_broadcast_mul x w = Ok z ∧ heads z h n half (λ a i k, e_mul (f a i k) (g i k)).
Proof using All.
  intros Hx Hw. destruct (broadcast_mul_ok x w T_F32 _ _ _ _ ltac:(by left) Hx Hw (bfits_rope h n half)) as (z & -> & Hz).
  exists z. split; [done |]. apply (den_ext _ _ _ _ _ Hz). intros [|u [|a [|i [|k [|? ?]]]]]; cbn [inb]; try tauto.
  intros (Hu & _ & Hi & Hk & _). assert (u = 0) as -> by lia. by rewrite bidx_rope.
Qed.

(** One side of the pairs. *)
Lemma pair_side_gives (x : T) h n half f side : side < 2 → den x T_F32 [1; h; n; half; 2]
    (λ i, match i with [_; a; i; k; b] => f a i (2 * k + b) | _ => e_zero end) →
  ∃ z, pair_side x side = Ok z ∧ heads z h n half (λ a i k, f a i (2 * k + side)).
Proof using All.
  intros Hs Hx. pose proof Hx as (Dx & _ & _). unfold pair_side, minus1. rewrite Dx. cbn [length result_bind].
  destruct (narrow_ok x T_F32 _ _ 4 side 1 2 Hx eq_refl ltac:(lia)) as (y & -> & Hy). cbn [result_bind insert list_insert] in *.
  destruct (squeeze_last_ok y T_F32 [1; h; n; half] _ Hy) as (z & -> & Hz). exists z. split; [done |].
  apply (den_ext _ _ _ _ _ Hz). intros [|u [|a [|i [|k [|? ?]]]]]; cbn [inb app]; try tauto. intros _. cbn [alter list_alter ix4].
  by rewrite Nat.add_0_r.
Qed.

Lemma stack_pairs (even odd : T) h n half f g : heads even h n half f → heads odd h n half g →
  ∃ z, (out <-? n_stack [even; odd] (length (n_dims even)); n_reshape out [1; h; n; half * 2]) = Ok z
    ∧ heads z h n (half * 2) (λ a i j, if j mod 2 =? 0 then f a i (j / 2) else g a i (j / 2)).
Proof using All.
  intros He Ho. pose proof He as (De & _ & _). rewrite De. cbn [length].
  destruct (stack_ok [even; odd] T_F32 [1; h; n; half] (λ s, if s =? 0 then ix4 (λ _ a i j, f a i j) else ix4 (λ _ a i j, g a i j)) 4)
    as (st & -> & Hst); [done | intros [|[|j]] t; cbn; intros [= <-]; done | cbn; lia |]. cbn [result_bind take drop app length] in *.
  destruct (nd_reshape_ok st T_F32 _ [1; h; n; half * 2] _ (ix4 (λ _ a i j, if j mod 2 =? 0 then f a i (j / 2) else g a i (j / 2))) Hst)
    as (z & -> & Hz); [cbn; lia | | by exists z].
  symmetry. apply (tab_split [1; h; n] half 2 []). intros [|u [|a [|i [|? ?]]]] k b [|? ?]; cbn [inb]; try tauto. intros _ Hk Hb _.
  cbn [app ix4 lookup list_lookup take drop]. rewrite (Nat.add_comm (k * 2)), Nat.div_add, Nat.Div0.mod_add by lia.
  rewrite Nat.div_small, Nat.mod_small by done. destruct b as [|[|b]]; [done | done | lia].
Qed.

Lemma split_pairs (x : T) h n half f : heads x h n (half * 2) f → ∃ z, n_reshape x [1; h; n; half; 2] = Ok z
  ∧ den z T_F32 [1; h; n; half; 2] (λ i, match i with [_; a; i; k; b] => f a i (2 * k + b) | _ => e_zero end).
Proof using All.
  intros Hx. apply (nd_reshape_ok x T_F32 _ _ _ _ Hx); [cbn; lia |]. apply (tab_split [1; h; n] half 2 []).
  intros [|u [|a [|i [|? ?]]]] k b [|? ?]; cbn [inb]; try tauto. intros _ Hk Hb _. cbn [app ix4]. f_equal. lia.
Qed.

Lemma ds_rope_gives r max half c s x h n f positions : ds_rope_holds r max half c s → (N.of_nat max <= u32_max)%N →
  Forall (λ p, p < max) positions → length positions = n → heads x h n (half * 2) f →
  ∃ y, deepseek_rope_apply r x positions = Ok y
    ∧ heads y h n (half * 2) (λ a i, rotate_pairs c s (default 0 (positions !! i)) (f a i)).
Proof using All.
  intros [Hc Hs] Hmax Hp <- Hx. pose proof Hx as (Dx & Tx & _). unfold deepseek_rope_apply, dims4. rewrite Dx, Tx. cbn [result_bind].
  rewrite Nat.eqb_refl, Nat.div_mul by done.
  destruct (rope_rows_gives _ max half c positions Hmax Hp Hc) as (ix & cs & Eix & Ec & Hcs).
  destruct (rope_rows_gives _ max half s positions Hmax Hp Hs) as (ix' & sn & Eix' & Es & Hsn).
  rewrite Eix in Eix'. injection Eix' as <-. rewrite Eix. cbn [result_bind]. rewrite Ec. cbn [result_bind]. rewrite Es. cbn [result_bind].
  destruct (split_pairs x h _ half f Hx) as (pr & -> & Hpr). cbn [result_bind].
  destruct (pair_side_gives pr h _ half f 0 ltac:(lia) Hpr) as (ev & -> & Hev). cbn [result_bind].
  destruct (pair_side_gives pr h _ half f 1 ltac:(lia) Hpr) as (od & -> & Hod). cbn [result_bind].
  destruct (mul_rope ev cs h _ half _ _ Hev Hcs) as (a1 & -> & Ha1). cbn [result_bind].
  destruct (mul_rope od sn h _ half _ _ Hod Hsn) as (b1 & -> & Hb1). cbn [result_bind].
  destruct (sub_ok a1 b1 T_F32 _ _ _ ltac:(by left) Ha1 Hb1) as (o1 & -> & Ho1). cbn [result_bind].
  destruct (mul_rope ev sn h _ half _ _ Hev Hsn) as (a2 & -> & Ha2). cbn [result_bind].
  destruct (mul_rope od cs h _ half _ _ Hod Hcs) as (b2 & -> & Hb2). cbn [result_bind].
  destruct (add_ok a2 b2 T_F32 _ _ _ ltac:(by left) Ha2 Hb2) as (o2 & -> & Ho2). cbn [result_bind].
  destruct (stack_pairs o1 o2 h (length positions) half
    (λ a i k, e_sub (e_mul (f a i (2 * k + 0)) (c (default 0 (positions !! i)) k)) (e_mul (f a i (2 * k + 1)) (s (default 0 (positions !! i)) k)))
    (λ a i k, e_add (e_mul (f a i (2 * k + 0)) (s (default 0 (positions !! i)) k)) (e_mul (f a i (2 * k + 1)) (c (default 0 (positions !! i)) k))))
    as (z & -> & Hz).
  - apply (den_ext _ _ _ _ _ Ho1). intros [|u [|a [|i [|k [|? ?]]]]]; cbn [inb]; tauto || done.
  - apply (den_ext _ _ _ _ _ Ho2). intros [|u [|a [|i [|k [|? ?]]]]]; cbn [inb]; tauto || done.
  - exists z. split; [done |]. apply (heads_ext _ _ _ _ _ _ Hz). intros a i j _ _ _. unfold rotate_pairs. by rewrite Nat.add_0_r.
Qed.

(** ** Scores and weights *)
Definition mla_score (d : nat) (scale : E) (q k : nat → E) : E := e_mul (e_dot (vec d q) (vec d k)) scale.

Definition mla_weigh (d : nat) (scale : E) (q : nat → E) (keys values : list (nat → E)) (j : nat) : E :=
  e_dot (e_softmax (mla_score d scale q <$> keys)) ((λ v, v j) <$> values).

(** A row masked after position [p] is the row up to it. *)
Lemma masked_prefix (sc u : nat → E) p m : p < m →
  e_dot (e_softmax (vec m (λ j, e_add (sc j) (e_f32 (if p <? j then F32.neg_infinity else F32.zero))))) (vec m u)
  = e_dot (e_softmax (vec (S p) sc)) (vec (S p) u).
Proof using All.
  intros Hp. unfold vec. replace m with (S p + (m - S p)) by lia. rewrite seq_app, !fmap_app. cbn [Nat.add].
  set (l := seq 0 (S p)). set (r := seq (S p) (m - S p)).
  assert ((λ j, e_add (sc j) (e_f32 (if p <? j then F32.neg_infinity else F32.zero))) <$> l = (λ x, e_add x e_zero) <$> (sc <$> l)) as ->.
  { rewrite <- !list_fmap_compose. apply list_fmap_ext. intros j ? [-> Hj]%lookup_seq. cbn [Nat.add compose]. by destruct (Nat.ltb_spec p j); [lia |]. }
  assert ((λ j, e_add (sc j) (e_f32 (if p <? j then F32.neg_infinity else F32.zero))) <$> r
          = (λ x, e_add x (e_f32 F32.neg_infinity)) <$> (sc <$> r)) as ->.
  { rewrite <- !list_fmap_compose. apply list_fmap_ext. intros j ? [-> Hj]%lookup_seq. cbn [compose]. by destruct (Nat.ltb_spec p (S p + j)); [| lia]. }
  rewrite mask_softmax by done. rewrite length_fmap, <- (length_fmap u r), dot_zeros; [done |].
  by rewrite length_e_softmax, !length_fmap.
Qed.

Lemma position_mask_gives positions m : ∃ l, position_mask positions (length positions) m = Some l
  ∧ gives (n_from_f32 l [1; 1; length positions; m]) T_F32 [1; 1; length positions; m]
      (ix4 (λ _ _ i j, e_f32 (if default 0 (positions !! i) <? j then F32.neg_infinity else F32.zero))).
Proof using All.
  set (row p := (λ j, if p <? j then F32.neg_infinity else F32.zero) <$> seq 0 m). set (n := length positions).
  assert (Hrows : mapM (λ i, p ← positions !! i; Some (row p)) (seq 0 n) = Some ((λ i, row (default 0 (positions !! i))) <$> seq 0 n)).
  { apply mapM_Some_2, Forall2_fmap_r, Forall_Forall2_diag, Forall_forall. intros i Hi%elem_of_seq.
    assert (is_Some (positions !! i)) as [p Ep] by (apply lookup_lt_is_Some_2; unfold n in Hi; lia).
    unfold compose. by rewrite Ep. }
  change (position_mask positions n m) with (rows ← mapM (λ i, p ← positions !! i; Some (row p)) (seq 0 n); Some (concat rows)).
  rewrite Hrows. cbn [mbind option_bind]. eexists. split; [reflexivity |].
  assert (Hc : concat ((λ i, row (default 0 (positions !! i))) <$> seq 0 n) = seq 0 n ≫= (λ i, row (default 0 (positions !! i)))).
  { generalize (seq 0 n) as l. induction l as [|i l IH]; [done |]. cbn. by rewrite IH. }
  rewrite Hc. apply nd_from_f32_ok.
  - rewrite (length_seq_bind _ m) by (intros; unfold row; by rewrite length_fmap, length_seq). cbn. lia.
  - cbn [tab seq mbind list_bind]. rewrite !app_nil_r, fmap_seq_bind. apply seq_bind_ext. intros i _. unfold row.
    generalize (seq 0 m) as l. induction l as [|j l IH]; [done |]. cbn. f_equal. exact IH.
Qed.

(** The softmax of the masked scores, and the sums it weighs. *)
Lemma attend_values (x v : T) h n m d vd positions fq fk fv scale : Forall (λ p, p < m) positions → length positions = n →
  heads x h n m (λ a i j, e_add (mla_score d scale (fq a i) (fk a j))
    (e_f32 (if default 0 (positions !! i) <? j then F32.neg_infinity else F32.zero))) → heads v h m vd fv →
  ∃ y, (probabilities <-? m_softmax_last_dim x; v <-? n_contiguous v; output <-? n_matmul probabilities v;
        output <-? n_transpose_1_2 output; n_reshape output [1; n; h * vd]) = Ok y
    ∧ tensor_rows y n (h * vd) (λ i, vec (h * vd) (λ t,
        let seen := seq 0 (S (default 0 (positions !! i))) in
        mla_weigh d scale (fq (t / vd) i) (fk (t / vd) <$> seen) (fv (t / vd) <$> seen) (t mod vd))).
Proof using All.
  intros Hp Hn Hx Hv. destruct (softmax_last_ok x T_F32 [1; h; n] m _ ltac:(by left) Hx) as (p & -> & Hpr). cbn [result_bind].
  destruct (contiguous_ok v T_F32 _ _ Hv) as (vc & -> & Hvc). cbn [result_bind].
  destruct (matmul4_ok p vc T_F32 1 h n m vd _ _ ltac:(by left) Hpr Hvc) as (o & -> & Ho). cbn [result_bind].
  set (out a i j := mla_weigh d scale (fq a i) (fk a <$> seq 0 (S (default 0 (positions !! i)))) (fv a <$> seq 0 (S (default 0 (positions !! i)))) j).
  assert (Ho1 : heads o h n vd out).
  { apply (den_ext _ _ _ _ _ Ho). intros [|u [|a [|i [|j [|? ?]]]]]; cbn [inb]; try tauto. intros (_ & _ & Hi & _). cbn [ix4].
    assert (is_Some (positions !! i)) as [q Eq] by (apply lookup_lt_is_Some_2; lia). pose proof (Forall_lookup_1 _ _ _ _ Hp Eq) as Hq. cbn in Hq.
    transitivity (e_dot (e_softmax (vec m (λ j, e_add (mla_score d scale (fq a i) (fk a j))
      (e_f32 (if q <? j then F32.neg_infinity else F32.zero))))) (vec m (λ l, fv a l j))).
    { f_equal. etrans; [| apply (list_of_at _ m); by rewrite length_e_softmax, length_vec]. unfold row_at. cbn [set_last removelast app ix4].
      rewrite Eq. done. }
    rewrite masked_prefix by done. unfold out, mla_weigh, vec. rewrite Eq. cbn [default from_option]. by rewrite <- !list_fmap_compose. }
  destruct (swap_heads o h n vd out Ho1) as (t & -> & Ht). cbn [result_bind].
  exact (merge_heads t n h vd (λ i a j, out a i j) Ht).
Qed.

(** Queries of some tokens against the keys and values of all up to them. *)
Lemma attend_gives (a : MlaAttention (T := T)) (q k v : T) d positions m fq fk fv : Forall (λ p, p < m) positions →
  heads q (ma_num_heads a) (length positions) d fq → heads k (ma_num_heads a) m d fk → heads v (ma_num_heads a) m (ma_value_dim a) fv →
  let vd := ma_value_dim a in let scale := e_cast T_F64 T_F32 (e_f64 (F64.of_f32 (ma_scale a))) in
  ∃ y, mla_attend a q k v positions = Some (Ok y)
    ∧ tensor_rows y (length positions) (ma_num_heads a * vd) (λ i, vec (ma_num_heads a * vd) (λ t,
        let seen := seq 0 (S (default 0 (positions !! i))) in
        mla_weigh d scale (fq (t / vd) i) (fk (t / vd) <$> seen) (fv (t / vd) <$> seen) (t mod vd))).
Proof using All.
  intros Hp Hq Hk Hv vd scale. set (h := ma_num_heads a) in *. set (n := length positions) in *.
  pose proof Hq as (Dq & _ & _). pose proof Hk as (Dk & _ & _). unfold mla_attend, n_dim. rewrite Dq, Dk.
  cbn [lookup list_lookup bind_r].
  destruct (contiguous_ok q T_F32 _ _ Hq) as (qc & -> & Hqc). cbn [result_bind].
  destruct (t_ok k T_F32 _ _ Hk ltac:(cbn; lia)) as (kt & -> & Hkt). cbn [result_bind swap_last] in *.
  destruct (contiguous_ok kt T_F32 _ _ Hkt) as (kc & -> & Hkc). cbn [result_bind].
  destruct (matmul4_ok qc kc T_F32 1 h n d m _ _ ltac:(by left) Hqc Hkc) as (sc & -> & Hsc). cbn [result_bind].
  destruct (mul_scalar_ok sc T_F32 _ _ (F64.of_f32 (ma_scale a)) ltac:(by left) Hsc) as (w & -> & Hw). cbn [bind_r].
  destruct (position_mask_gives positions m) as (l & El & Hl). fold n in El, Hl. rewrite El. clear El. cbn [mbind option_bind].
  destruct Hl as (mk & -> & Hmk). cbn [result_bind]. pose proof Hw as (_ & Tw & _). rewrite Tw.
  destruct (to_dtype_ok mk T_F32 T_F32 _ _ Hmk) as (m1 & -> & Hm1). cbn [result_bind].
  assert (Hfit : bfits [1; 1; n; m] [1; h; n; m] = true) by (unfold bfits; cbn; by rewrite !Nat.eqb_refl, !orb_true_r).
  destruct (broadcast_add_ok w m1 T_F32 _ _ _ _ ltac:(by left) Hw Hm1 Hfit) as (x & -> & Hx). cbn [result_bind].
  set (masked a i j := e_add (mla_score d scale (fq a i) (fk a j))
    (e_f32 (if default 0 (positions !! i) <? j then F32.neg_infinity else F32.zero))).
  apply (den_ext _ _ _ _ (ix4 (λ _ a i j, masked a i j))) in Hx.
  2: { intros [|u [|x0 [|i [|j [|? ?]]]]]; cbn [inb]; try tauto. intros (Hu & _ & Hi & Hj & _). assert (u = 0) as -> by lia.
       rewrite bidx_rope by done. cbn [ix4]. by rewrite e_cast_same. }
  destruct (attend_values x v h n m d vd positions fq fk fv scale Hp eq_refl Hx Hv) as (y & Ey & Hy).
  exists y. split; [f_equal; exact Ey | exact Hy].
Qed.
End rows.

(** ** Latent attention, by rows *)
Section attention.
Context {T E : Type} `{!NdOps T, !MoeOps T, !GroupOps T, !Scalars E, !MoeScalars E, !GroupScalars E, !Elements T E, !LawfulNd T E, !LawfulScalars E, !MaskLaws E, !LawfulMoe T E, !LawfulGroup T E}.
#[local] Abbreviation den := (den (T := T) (E := E)).
#[local] Abbreviation KV := ((nat → nat → E) * (nat → nat → E))%type.
Context (show : nat → string) (cuda_linear : option (BlockFp8Linear (T := T) → T → result T TensorError)).

(** What the projections, the latent norm and the tables are as functions. *)
Record MlaRows : Type := mkMlaRows {
  ml_q : list E → list E;
  ml_kv_a : list E → list E;
  ml_norm : list E → list E;
  ml_kv_b : list E → list E;
  ml_o : list E → list E;
  ml_heads : nat;
  ml_nope : nat;
  ml_half : nat;
  ml_vd : nat;
  ml_latent : nat;
  ml_cos : nat → nat → E;
  ml_sin : nat → nat → E;
  ml_scale : E;
}.
Definition ml_d (s : MlaRows) : nat := ml_nope s + ml_half s * 2.

(** The components of a head: those left alone, then those rotated. *)
Definition part_rotated (s : MlaRows) (p : nat) (plain rotated : nat → E) (j : nat) : E :=
  if j <? ml_nope s then plain j else rotate_pairs (ml_cos s) (ml_sin s) p rotated (j - ml_nope s).

Definition mla_query (s : MlaRows) (p : nat) (x : list E) (a : nat) : nat → E :=
  part_rotated s p (λ j, at_ (ml_q s x) (a * ml_d s + j)) (λ j, at_ (ml_q s x) (a * ml_d s + (ml_nope s + j))).

(** What the cache keeps of a token: the rotated part of the keys is one for all heads. *)
Definition mla_expanded (s : MlaRows) (x : list E) : list E := ml_kv_b s (ml_norm s (take (ml_latent s) (ml_kv_a s x))).
Definition mla_kv (s : MlaRows) (p : nat) (x : list E) : KV :=
  let w := ml_nope s + ml_vd s in
  (λ a, part_rotated s p (λ j, at_ (mla_expanded s x) (a * w + j)) (λ j, at_ (ml_kv_a s x) (ml_latent s + j)),
   λ a j, at_ (mla_expanded s x) (a * w + (ml_nope s + j))).

(** The row of a token at position [p], seeing the tokens of [hist]. *)
Definition mla_row (s : MlaRows) (p : nat) (x : list E) (hist : list KV) : list E :=
  ml_o s (vec (ml_heads s * ml_vd s) (λ t,
    let a := t / ml_vd s in
    mla_weigh (ml_d s) (ml_scale s) (mla_query s p x a) ((λ kv, kv.1 a) <$> hist) ((λ kv, kv.2 a) <$> hist) (t mod ml_vd s))).

Record mla_is (a : MlaAttention (T := T)) (s : MlaRows) (hidden max : nat) : Prop := {
  mi_q : acts (query_forward show cuda_linear (ma_query a)) hidden (ml_heads s * ml_d s) (ml_q s);
  mi_kv_a : acts (proj_forward show cuda_linear (ma_kv_a a)) hidden (ml_latent s + ml_half s * 2) (ml_kv_a s);
  mi_width : n_dims (rn_weight (ma_kv_a_norm a)) = [ml_latent s];
  mi_norm : rowwise (rms_forward (ma_kv_a_norm a)) (ml_latent s) (ml_latent s) (ml_norm s);
  mi_kv_b : acts (proj_forward show cuda_linear (ma_kv_b a)) (ml_latent s) (ml_heads s * (ml_nope s + ml_vd s)) (ml_kv_b s);
  mi_o : acts (proj_forward show cuda_linear (ma_output a)) (ml_heads s * ml_vd s) hidden (ml_o s);
  mi_rope : ds_rope_holds (ma_rope a) max (ml_half s) (ml_cos s) (ml_sin s);
  mi_heads : ma_num_heads a = ml_heads s;
  mi_nope : ma_qk_nope_dim a = ml_nope s;
  mi_rope_dim : ma_qk_rope_dim a = ml_half s * 2;
  mi_value : ma_value_dim a = ml_vd s;
  mi_scale : e_cast T_F64 T_F32 (e_f64 (F64.of_f32 (ma_scale a))) = ml_scale s;
}.

Lemma mla_project_gives a s hidden max x positions R : mla_is a s hidden max → (N.of_nat max <= u32_max)%N →
  Forall (λ p, p < max) positions → tensor_rows x (length positions) hidden R →
  ∃ q k v, mla_project show cuda_linear a x positions = Some (Ok (q, k, v))
    ∧ heads q (ml_heads s) (length positions) (ml_d s) (λ a i, mla_query s (default 0 (positions !! i)) (R i) a)
    ∧ heads k (ml_heads s) (length positions) (ml_d s) (λ a i, (mla_kv s (default 0 (positions !! i)) (R i)).1 a)
    ∧ heads v (ml_heads s) (length positions) (ml_vd s) (λ a i, (mla_kv s (default 0 (positions !! i)) (R i)).2 a).
Proof using All.
  intros Ha Hmax Hp Hx. set (n := length positions) in *. pose proof Hx as [(Dx & _ & _) Hlx]. unfold mla_project, dims3. rewrite Dx. cbn [bind_r].
  rewrite (mi_heads _ _ _ _ Ha), (mi_nope _ _ _ _ Ha), (mi_rope_dim _ _ _ _ Ha), (mi_value _ _ _ _ Ha). fold (ml_d s).
  destruct (acts_rows _ _ _ _ x n R (mi_q _ _ _ _ Ha) Hx) as (y & -> & Hy). cbn [bind_r].
  destruct (by_heads_gives y n _ _ _ Hy) as (q & -> & Hq). cbn [result_bind].
  destruct (narrow_heads q _ _ _ _ 0 (ml_nope s) Hq ltac:(unfold ml_d; lia)) as (qn & -> & Hqn). cbn [result_bind].
  destruct (narrow_heads q _ _ _ _ (ml_nope s) (ml_half s * 2) Hq ltac:(unfold ml_d; lia)) as (qr & -> & Hqr). cbn [bind_r].
  destruct (acts_rows _ _ _ _ x n R (mi_kv_a _ _ _ _ Ha) Hx) as (c & -> & Hc). cbn [bind_r].
  unfold dim_minus1, minus1, n_dim. rewrite (mi_width _ _ _ _ Ha). cbn [length lookup list_lookup result_bind].
  destruct (narrow_rows c n _ _ 0 (ml_latent s) Hc ltac:(lia)) as (l & -> & Hl). cbn [result_bind].
  destruct (narrow_rows c n _ _ (ml_latent s) (ml_half s * 2) Hc ltac:(lia)) as (kr & -> & Hkr). cbn [result_bind].
  rewrite <- (Nat.mul_1_l (ml_half s * 2)) in Hkr. destruct (by_heads_gives kr n 1 _ _ Hkr) as (kr1 & Ekr & Hkr1).
  rewrite Ekr. cbn [result_bind].
  destruct (acts_rows _ _ _ _ l n _ (rowwise_acts _ _ _ _ (mi_norm _ _ _ _ Ha)) Hl) as (l1 & [= ->] & Hl1). cbn [result_bind bind_r fst snd].
  destruct (acts_rows _ _ _ _ l1 n _ (mi_kv_b _ _ _ _ Ha) Hl1) as (e & -> & He). cbn [bind_r].
  destruct (by_heads_gives e n _ _ _ He) as (e1 & -> & He1). cbn [result_bind].
  destruct (narrow_heads e1 _ _ _ _ 0 (ml_nope s) He1 ltac:(lia)) as (kn & -> & Hkn). cbn [result_bind].
  destruct (narrow_heads e1 _ _ _ _ (ml_nope s) (ml_vd s) He1 ltac:(lia)) as (v & -> & Hv). cbn [result_bind].
  destruct (ds_rope_gives _ max _ _ _ qr _ n _ positions (mi_rope _ _ _ _ Ha) Hmax Hp eq_refl Hqr) as (qr1 & -> & Hqr1). cbn [result_bind].
  destruct (ds_rope_gives _ max _ _ _ kr1 _ n _ positions (mi_rope _ _ _ _ Ha) Hmax Hp eq_refl Hkr1) as (kr2 & -> & Hkr2). cbn [result_bind].
  destruct (repeat_heads kr2 (ml_heads s) n _ _ Hkr2) as (kr3 & -> & Hkr3). cbn [result_bind].
  destruct (cat_last_heads qn qr1 _ _ _ _ _ _ Hqn Hqr1) as (q1 & -> & Hq1). cbn [result_bind].
  destruct (cat_last_heads kn kr3 _ _ _ _ _ _ Hkn Hkr3) as (k1 & -> & Hk1). cbn [result_bind].
  exists q1, k1, v. split; [done |]. split_and!; [exact Hq1 | | exact Hv].
  apply (heads_ext _ _ _ _ _ _ Hk1). intros h i j _ Hi Hj. cbn [mla_kv fst]. unfold part_rotated.
  destruct (Nat.ltb_spec j (ml_nope s)) as [H|H]; [done |]. unfold rotate_pairs, ml_d in *. cbv beta zeta.
  assert (Hat : ∀ t, t < ml_half s * 2 → at_ (take (1 * (ml_half s * 2)) (drop (ml_latent s) (ml_kv_a s (R i)))) (0 * (ml_half s * 2) + t) = at_ (ml_kv_a s (R i)) (ml_latent s + t)).
  { intros t Ht. unfold at_. rewrite Nat.mul_0_l, lookup_take_lt, lookup_drop by lia. done. }
  assert ((j - ml_nope s) / 2 < ml_half s) by (apply Nat.Div0.div_lt_upper_bound; lia).
  rewrite !Hat by lia. done.
Qed.

(** The cache of a layer. *)
Definition mla_tensors (s : MlaRows) (k v : T) (hist : list KV) : Prop :=
  heads k (ml_heads s) (length hist) (ml_d s) (λ a i j, (kv_at hist i).1 a j)
  ∧ heads v (ml_heads s) (length hist) (ml_vd s) (λ a i j, (kv_at hist i).2 a j).
Definition mla_cache (s : MlaRows) (cache : option (T * T)) (hist : list KV) : Prop :=
  match cache with None => hist = [] | Some (k, v) => mla_tensors s k v hist end.

Lemma mla_extend s cache hist (k v : T) new : mla_cache s cache hist → mla_tensors s k v new →
  ∃ k' v', extend_cache cache k v = Ok (k', v') ∧ mla_tensors s k' v' (hist ++ new).
Proof using All.
  intros Hc [Hk Hv]. destruct cache as [[ck cv]|]; cbn in *; [| by subst; exists k, v]. destruct Hc as [Hck Hcv].
  destruct (cat_heads ck k _ _ _ _ (λ i, (kv_at hist i).1) (λ i, (kv_at new i).1) Hck Hk) as (k' & -> & Hk'). cbn [result_bind].
  destruct (cat_heads cv v _ _ _ _ (λ i, (kv_at hist i).2) (λ i, (kv_at new i).2) Hcv Hv) as (v' & -> & Hv'). cbn [result_bind].
  exists k', v'. split; [done |]. unfold mla_tensors. rewrite length_app.
  split; [apply (heads_ext _ _ _ _ _ _ Hk') | apply (heads_ext _ _ _ _ _ _ Hv')];
    intros a i j _ _ _; rewrite kv_at_app; by destruct (i <? length hist).
Qed.

(** What the tokens of a pass, from position [n] on, add. *)
Definition mla_kvs (s : MlaRows) (R : nat → list E) (n m : nat) : list KV := (λ i, mla_kv s (n + i) (R i)) <$> seq 0 m.

Lemma mla_kvs_at s R n m i : i < m → kv_at (mla_kvs s R n m) i = mla_kv s (n + i) (R i).
Proof. intros Hi. unfold kv_at, mla_kvs. by rewrite list_lookup_fmap, lookup_seq_lt. Qed.

Lemma length_mla_kvs s R n m : length (mla_kvs s R n m) = m.
Proof. unfold mla_kvs. by rewrite length_fmap, length_seq. Qed.

Lemma seen_rows {B} (f : KV → B) (hist new : list KV) i : i < length new →
  (λ l, f (kv_at (hist ++ new) l)) <$> seq 0 (S (length hist + i)) = f <$> (hist ++ take (S i) new).
Proof using All.
  intros Hi. rewrite fmap_kv_take by (rewrite length_app; lia). rewrite take_app_ge by lia. do 3 f_equal. lia.
Qed.

(** A pass over tokens that follow those in the cache, however many. *)
Lemma mla_forward_rows a s hidden max x m R cache hist : mla_is a s hidden max → (N.of_nat max <= u32_max)%N →
  length hist + m ≤ max → tensor_rows x m hidden R → mla_cache s cache hist →
  ∃ y cache', mla_forward show cuda_linear a x (seq (length hist) m) cache = Some (Ok y, cache')
    ∧ tensor_rows y m hidden (λ i, mla_row s (length hist + i) (R i) (hist ++ take (S i) (mla_kvs s R (length hist) m)))
    ∧ mla_cache s cache' (hist ++ mla_kvs s R (length hist) m).
Proof using All.
  intros Ha Hmax Hle Hx Hc. set (n := length hist) in *. set (new := mla_kvs s R n m).
  assert (Hat : ∀ i, i < m → default 0 (seq n m !! i) = n + i) by (intros i Hi; by rewrite lookup_seq_lt).
  assert (Hpos : Forall (λ p, p < max) (seq n m)) by (apply Forall_forall; intros p Hp%elem_of_seq; lia).
  destruct (mla_project_gives a s hidden max x (seq n m) R Ha Hmax Hpos) as (q & k & v & Ep & Hq & Hk & Hv); [by rewrite length_seq |].
  rewrite length_seq in Hq, Hk, Hv. unfold mla_forward. rewrite Ep.
  assert (Hnew : mla_tensors s k v new).
  { unfold mla_tensors, new. rewrite length_mla_kvs. split; [apply (heads_ext _ _ _ _ _ _ Hk) | apply (heads_ext _ _ _ _ _ _ Hv)];
      intros h i j _ Hi _; by rewrite mla_kvs_at, Hat. }
  destruct (mla_extend s cache hist k v new Hc Hnew) as (k' & v' & -> & Hk' & Hv').
  assert (Hlen : length (hist ++ new) = n + m) by (unfold new; by rewrite length_app, length_mla_kvs).
  assert (Hpos' : Forall (λ p, p < length (hist ++ new)) (seq n m)) by (apply Forall_forall; intros p Hp%elem_of_seq; lia).
  assert (Hq' : heads q (ma_num_heads a) (length (seq n m)) (ml_d s) (λ h i, mla_query s (default 0 (seq n m !! i)) (R i) h))
    by (rewrite (mi_heads _ _ _ _ Ha), length_seq; exact Hq).
  pose proof Hk' as Hk2. pose proof Hv' as Hv2. rewrite <- (mi_heads _ _ _ _ Ha) in Hk2, Hv2. rewrite <- (mi_value _ _ _ _ Ha) in Hv2.
  destruct (attend_gives a q k' v' (ml_d s) (seq n m) _ _ _ _ Hpos' Hq' Hk2 Hv2) as (o & -> & Ho). cbn [bind_r].
  rewrite (mi_heads _ _ _ _ Ha), (mi_value _ _ _ _ Ha), (mi_scale _ _ _ _ Ha), length_seq in Ho.
  destruct (acts_rows _ _ _ _ o m _ (mi_o _ _ _ _ Ha) Ho) as (y & -> & Hy). cbn [mbind option_bind].
  exists y, (Some (k', v')). split; [done |]. split; [| done]. apply (tensor_rows_ext _ _ _ _ _ Hy). intros i Hi. rewrite Hat by done.
  unfold mla_row. f_equal. apply list_fmap_ext. intros _ t _. cbv zeta.
  assert (Hi' : i < length new) by (unfold new; by rewrite length_mla_kvs).
  f_equal; exact (seen_rows (λ kv, _ kv _) hist new i Hi').
Qed.
End attention.

(** ** Decoder layers and the model *)
Section model.
Context {T E : Type} `{!NdOps T, !MoeOps T, !GroupOps T, !Scalars E, !MoeScalars E, !GroupScalars E, !Elements T E, !LawfulNd T E, !LawfulScalars E, !MaskLaws E, !LawfulMoe T E, !LawfulGroup T E}.
#[local] Abbreviation den := (den (T := T) (E := E)).
#[local] Abbreviation KV := ((nat → nat → E) * (nat → nat → E))%type.
#[local] Abbreviation ModelFn := (ModelFn (T := T) (E := E) (K := KV)).
Context (show : nat → string) (cuda_linear : option (BlockFp8Linear (T := T) → T → result T TensorError)).
Context (cuda_selected : option (SelectedBlockFp8Experts (T := T) → T → T → bool → result T TensorError)).
Context (hidden max out : nat) (Hmax : (N.of_nat max <= u32_max)%N).

Record DsLayerFn : Type := mkDsLayerFn {
  dr_attn : MlaRows (E := E);
  dr_ff : list E → list E;
  dr_input_norm : list E → list E;
  dr_post_norm : list E → list E;
}.

Definition ds_row (L : DsLayerFn) (p : nat) (x : list E) (hist : list KV) : list E :=
  let h := zip_with e_add x (mla_row (dr_attn L) p (dr_input_norm L x) hist) in
  zip_with e_add h (dr_ff L (dr_post_norm L h)).

Definition ds_causal (L : DsLayerFn) : CausalFn (T := T) (E := E) (K := KV) :=
  mkCausalFn (λ p x, mla_kv (dr_attn L) p (dr_input_norm L x)) (ds_row L) (mla_cache (dr_attn L)).

Record ds_layer_is (l : DecoderLayer (T := T)) (L : DsLayerFn) : Prop := {
  dy_attn : mla_is show cuda_linear (dl_attention l) (dr_attn L) hidden max;
  dy_ff : on_rows max (ds_ff_forward show cuda_linear cuda_selected (dl_feed_forward l)) hidden hidden (dr_ff L);
  dy_input_norm : rowwise (rms_forward (dl_input_norm l)) hidden hidden (dr_input_norm L);
  dy_post_norm : rowwise (rms_forward (dl_post_attention_norm l)) hidden hidden (dr_post_norm L);
}.

Lemma ds_ff_rows l L x n R : ds_layer_is l L → n ≤ max → tensor_rows x n hidden R →
  ∃ y, ds_ff_block show cuda_linear cuda_selected l x = Some (Ok y)
    ∧ tensor_rows y n hidden (λ i, zip_with e_add (R i) (dr_ff L (dr_post_norm L (R i)))).
Proof using All.
  intros Hl Hn Hx. unfold ds_ff_block.
  destruct (acts_rows _ _ _ _ x n R (rowwise_acts _ _ _ _ (dy_post_norm _ _ Hl)) Hx) as (m & [= ->] & Hm). cbn [bind_r].
  destruct (dy_ff _ _ Hl m n _ Hn Hm) as (y & -> & Hy). cbn [bind_r].
  destruct (add_rows x y n hidden _ _ Hx Hy) as (z & -> & Hz). by exists z.
Qed.

(** The layer keeps its promise for passes of any length on any cache. *)
Lemma mla_layer_computes l L : ds_layer_is l L →
  computes hidden max true (ds_layer_forward show cuda_linear cuda_selected l) (ds_causal L).
Proof using All.
  intros Hl. split; [done |]. intros R n m c x Hm _ Hle Hx Hc. unfold ds_layer_forward.
  destruct (acts_rows _ _ _ _ x _ _ (rowwise_acts _ _ _ _ (dy_input_norm _ _ Hl)) Hx) as (y & [= ->] & Hy).
  assert (Hlen : length (kvs (ds_causal L) R 0 n) = n) by (unfold kvs; by rewrite length_fmap, length_seq).
  destruct (mla_forward_rows show cuda_linear _ _ hidden max y m (λ i, dr_input_norm L (R (n + i))) c (kvs (ds_causal L) R 0 n)
    (dy_attn _ _ Hl) Hmax ltac:(lia) Hy Hc) as (z & c' & Ez & Hz & Hc').
  rewrite Hlen in Ez, Hz, Hc'. rewrite Ez. cbn [mbind option_bind bind_r].
  assert (Hkvs : mla_kvs (dr_attn L) (λ i, dr_input_norm L (R (n + i))) n m = kvs (ds_causal L) R n m).
  { unfold mla_kvs, kvs. assert (seq n m = Nat.add n <$> seq 0 m) as -> by (by rewrite fmap_add_seq, Nat.add_0_r).
    by rewrite <- list_fmap_compose. }
  rewrite Hkvs in Hz, Hc'. rewrite <- kvs_app in Hc'.
  destruct (add_rows x z _ hidden _ _ Hx Hz) as (h & -> & Hh). cbn [bind_r].
  destruct (ds_ff_rows l L h m _ Hl ltac:(lia) Hh) as (o & -> & Ho). cbn [mbind option_bind].
  exists o, c'. split; [done |]. split; [| exact Hc']. apply (tensor_rows_ext _ _ _ _ _ Ho). intros i Hi.
  by rewrite take_kvs.
Qed.

Record deepseek_is (m : DeepseekModel (T := T)) (F : ModelFn) : Prop := {
  fi_embed : table_is (ds_embedding m) F hidden;
  fi_layers : ∃ Ls, mf_layers F = ds_causal <$> Ls ∧ Forall2 ds_layer_is (ds_layers m) Ls;
  fi_norm : rowwise (rms_forward (ds_norm m)) hidden hidden (mf_norm F);
  fi_head : acts (proj_forward show cuda_linear (ds_lm_head m)) hidden out (mf_head F);
}.

Lemma ds_layers_are m F : deepseek_is m F →
  layers_are hidden max true (ds_layer_forward show cuda_linear cuda_selected) (ds_layers m) (mf_layers F).
Proof using All.
  intros HF. destruct (fi_layers _ _ HF) as (Ls & -> & H). apply Forall2_fmap_r, (Forall2_impl _ _ _ _ H).
  intros l L Hl. by apply mla_layer_computes.
Qed.

Lemma deepseek_causal m F : deepseek_is m F →
  CausalModel (ds_forward show cuda_linear cuda_selected m) F (length (ds_layers m)) max out true.
Proof using All.
  intros HF. pose proof (ds_layers_are m F HF) as Hls. split.
  - apply (fi_embed _ _ HF).
  - by apply (fresh_caches hidden max true _ _ F Hls).
  - intros ctx ts ids caches Hv Hne Hor Hle Eids Hc. unfold ds_forward.
    rewrite (caches_length _ _ _ _ Hc), <- (Forall2_length _ _ _ Hls), Nat.eqb_refl. cbn [negb].
    destruct (embedding_rows _ F hidden ids ts (fi_embed _ _ HF) Hne (proj2 (proj1 (Forall_app _ _ _) Hv)) Eids) as (x & Ex & Hx).
    change (ds_embedding_lookup (ds_embedding m) ids) with (embedding_lookup (ds_embedding m) ids). rewrite Ex.
    destruct (layers_loop_rows hidden max true _ (in_ds_layer show) _ _ Hls (token_rows F (ctx ++ ts)) (length ctx) (length ts) [] caches x)
      as (h & caches' & E1 & Hh & Hc'); [by destruct ts | done | done | by apply token_rows_app | by apply caches_app |].
    cbn [length app] in E1. rewrite E1. cbn [mbind option_bind bind_r]. unfold ds_head.
    destruct (acts_rows _ _ _ _ h _ _ (rowwise_acts _ _ _ _ (fi_norm _ _ HF)) Hh) as (y & [= ->] & Hy). cbn [bind_r].
    destruct (acts_rows _ _ _ _ y _ _ (fi_head _ _ HF) Hy) as (z & -> & Hz). cbn [mbind option_bind].
    exists z, caches'. split; [done |]. split; [| unfold caches_for; by rewrite length_app].
    apply (tensor_rows_ext _ _ _ _ _ Hz). intros i Hi. by apply lm_take.
Qed.

(** However a prompt is split into non-empty chunks: the logits of one pass. *)
Lemma chunked_is_full m F chunks ids : deepseek_is m F → Forall (λ ts, ts ≠ []) chunks → chunks ≠ [] →
  valid_tokens F (concat chunks) → length (concat chunks) ≤ max → ids_tensor (concat chunks) = Ok ids →
  let fwd := ds_forward show cuda_linear cuda_selected m in
  let fresh := replicate (length (ds_layers m)) None in
  ∃ full cf os cs, fwd ids (seq 0 (length (concat chunks))) fresh = Some (Ok full, cf)
    ∧ run_chunks fwd 0 chunks fresh = Some (os, cs) ∧ length os = length chunks
    ∧ ∀ k ts o i, chunks !! k = Some ts → os !! k = Some o → i < length ts →
        row_of (E := E) out o i = row_of out full (length (concat (take k chunks)) + i).
Proof using All.
  intros HF Hne Hch Hv Hle Eids fwd fresh. pose proof (deepseek_causal m F HF) as Hc.
  apply (chunks_equal_full fwd F (length (ds_layers m)) max out true chunks ids); [| | done | done | done].
  - split; [done |]. intros k ts _. right. by right.
  - destruct chunks as [|[|t ts] chunks]; [done | by apply Forall_cons in Hne as [? _] | done].
Qed.

(** DeepSeek generation.  For a non-empty prompt of known tokens that fits, [generate]
    returns without error or panic the prompt extended, a token at a time over the
    latent caches, by the last of the greatest logits of the language model of the
    weights, until there are [max_tokens] tokens in all; a prompt that already has as
    many is run once and returned. *)
Theorem deepseek_generates (to_vec1_f32 : T → result (list f32) TensorError) m F prompt max_tokens :
  (∀ (t : T) n (f : list nat → E), den t T_F32 [n] f → to_vec1_f32 t = Ok (e_to_f32 <$> n_flat t)) →
  deepseek_is m F → out ≠ 0 → out ≤ mf_vocab F →
  prompt ≠ [] → valid_tokens F prompt → length prompt ≤ max → max_tokens ≤ max →
  ds_generate to_vec1_f32 (ds_forward show cuda_linear cuda_selected m) (length (ds_layers m)) prompt max_tokens
  = Some (Ok (greedy F total_choice (max_tokens - length prompt) prompt)).
Proof using All.
  intros Hvec HF Ho Hvo Hne Hv Hle Hmt. pose proof (deepseek_causal m F HF) as Hc.
  unfold ds_generate. destruct prompt as [|p0 prompt0] eqn:Ep; [done |]. rewrite <- Ep in *. clear Ep p0 prompt0.
  destruct (ids_tensor_gives prompt) as (ids & Eids & _). rewrite Eids. cbn [bind_r].
  destruct (pass_prompt _ F _ max out true prompt ids Hv Hne Hle Eids) as (logits & cache & Ef & Hl & Hcs). rewrite Ef.
  cbn [mbind option_bind bind_r]. destruct (Nat.le_gt_cases max_tokens (length prompt)) as [Hm|Hm].
  { replace (max_tokens - length prompt) with 0 by lia. destruct max_tokens as [|mt]; [done |]. cbn [generate_loop].
    by rewrite (proj2 (Nat.ltb_ge _ _) Hm). }
  destruct (length prompt) as [|n] eqn:En; [by destruct prompt |]. rewrite <- En.
  apply (generate_loop_greedy to_vec1_f32 Hvec _ F (length (ds_layers m)) max out true Ho Hvo max_tokens Hmt max_tokens prompt logits n
    (λ i, lm F (take (S i) prompt)) cache ltac:(lia) ltac:(lia) Hv Hl); [by rewrite take_ge by lia | done].
Qed.
End model.

(** ** In exact arithmetic *)
#[export] Instance exact_group : GroupScalars Exact := {
  e_max_of := x_max;
  e_eq := x_eq;
  e_true := x_true;
}.

#[export] Instance exact_group_ops `{!Rounding} : GroupOps (NdHost Exact) := host_group.
#[export] Instance exact_group_lawful `{!Rounding} : LawfulGroup (NdHost Exact) Exact.
Proof. exact (host_group_lawful x_zero_is_zero x_one_is_not). Qed.

Section exact.
Context {T : Type} `{!Rounding, !NdOps T, !MoeOps T, !GroupOps T, !Elements T Exact, !LawfulNd T Exact, !LawfulMoe T Exact, !LawfulGroup T Exact}.
#[local] Abbreviation KV := ((nat → nat → Exact) * (nat → nat → Exact))%type.

(** C7. Chunked prefill of a DeepSeek model, in exact arithmetic.  When the tensor
    library's operations compute over the real numbers, then however a prompt is
    split into non-empty chunks, the passes over them, one after the other on the same
    caches, succeed, and every token gets the logits it gets when the prompt is passed
    at once.  (Floats may round the two differently.) *)
Theorem chunked_prefill_exact show cuda_linear cuda_selected hidden max out m (F : ModelFn (T := T) (E := Exact) (K := KV)) chunks ids :
  (N.of_nat max <= u32_max)%N →
  deepseek_is show cuda_linear cuda_selected hidden max out m F → Forall (λ ts, ts ≠ []) chunks → chunks ≠ [] →
  valid_tokens F (concat chunks) → length (concat chunks) ≤ max → ids_tensor (concat chunks) = Ok ids →
  let fwd := ds_forward show cuda_linear cuda_selected m in
  let fresh := replicate (length (ds_layers m)) None in
  ∃ full cf os cs, fwd ids (seq 0 (length (concat chunks))) fresh = Some (Ok full, cf)
    ∧ run_chunks fwd 0 chunks fresh = Some (os, cs) ∧ length os = length chunks
    ∧ ∀ k ts o i, chunks !! k = Some ts → os !! k = Some o → i < length ts →
        row_of (E := Exact) out o i = row_of out full (length (concat (take k chunks)) + i).
Proof using All. intros Hmax. by apply chunked_is_full. Qed.
End exact.

(** ** A small model *)
#[local] Existing Instance up_rounding.

#[local] Ltac toy_den := split_and!; vm_compute; reflexivity.
#[local] Ltac toy_dense := apply dense_acts; [toy_den | by repeat constructor].
#[local] Ltac toy_gain := apply gain_rowwise; [done | toy_den].

Definition dense_proj (b a : nat) (data : list Z) : Projection (T := NdHost Exact) := P_Linear (linear_new (mat b a data)).

(** An output projection of blocks of two. *)
Definition demo_fp8 : BlockFp8Linear (T := NdHost Exact) :=
  mkBlockFp8 (mkNdHost [2; 1] T_F8E4M3 (real <$> [1; -1]%Z)) (mat 1 1 [2]%Z) 2.

(** Four experts in two groups, of which one is chosen. *)
Definition demo_expert_of (a b : Z) : DenseMlp (T := NdHost Exact) :=
  mkDsMlp (dense_proj 1 2 [a; b]%Z) (dense_proj 1 2 [1; -1]%Z) (dense_proj 2 1 [1; -1]%Z).
Definition demo_dense_moe : DenseMoe (T := NdHost Exact) :=
  mkDenseMoe (mat 4 2 [1; 0; 0; 1; 2; 1; 1; 1]%Z) [demo_expert_of 1 1; demo_expert_of 2 0; demo_expert_of 0 3; demo_expert_of 1 2]
    (Some (demo_expert_of 1 2)) 2 2 1 true false (F64.of_Z 2).

Definition demo_mla : MlaAttention (T := NdHost Exact) :=
  mkMla (Q_Lora (dense_proj 1 2 [1; 1]%Z) (gain 1 [2]%Z) (dense_proj 3 1 [1; 2; -1]%Z)) (dense_proj 3 2 [1; 0; 0; 1; 1; -1]%Z) (gain 1 [1]%Z)
    (dense_proj 2 1 [1; 3]%Z) (P_BlockFp8 demo_fp8) (mkDeepseekRope (mat 8 1 [1; 0; 1; 0; 1; 0; 1; 0]%Z) (mat 8 1 [0; 1; 0; 1; 0; 1; 0; 1]%Z))
    1 1 2 1 F32.one.

Definition demo_deepseek : DeepseekModel (T := NdHost Exact) :=
  mkDeepseekModel (mat 3 2 [1; 0; 0; 1; 1; 1]%Z) [mkDsLayer (gain 2 [1; 1]%Z) (gain 2 [1; 2]%Z) demo_mla (FD_DenseMoe demo_dense_moe)]
    (gain 2 [1; 1]%Z) (dense_proj 3 2 [1; 0; 0; 1; -1; -1]%Z) 0.

Definition demo_expert_rows (a b : Z) : list Exact → list Exact :=
  mlp_row (dense_fn 1 2 [a; b]%Z) (dense_fn 1 2 [1; -1]%Z) (dense_fn 2 1 [1; -1]%Z).
Definition demo_moe_rows : DenseMoeRows (E := Exact) :=
  mkDenseMoeRows (mat_row 2 [1; 0; 0; 1; 2; 1; 1; 1]%Z) [demo_expert_rows 1 1; demo_expert_rows 2 0; demo_expert_rows 0 3; demo_expert_rows 1 2]
    2 (Some (2, 1)) false (F64.of_Z 2) (Some (demo_expert_rows 1 2)).
Definition demo_cos (p k : nat) : Exact := real (if Nat.even p then 1%Z else 0%Z).
Definition demo_sin (p k : nat) : Exact := real (if Nat.even p then 0%Z else 1%Z).
Definition demo_mla_rows : MlaRows (E := Exact) :=
  mkMlaRows (λ x, dense_fn 3 1 [1; 2; -1]%Z (gain_fn [2]%Z (dense_fn 1 2 [1; 1]%Z x))) (dense_fn 3 2 [1; 0; 0; 1; 1; -1]%Z) (gain_fn [1]%Z)
    (dense_fn 2 1 [1; 3]%Z) (dense_row (block_weight (λ o _, at_ (real <$> [1; -1]%Z) o) (λ _ _, real 2) 2 1) 2) 1 1 1 1 1 demo_cos demo_sin (e_cast T_F64 T_F32 (e_f64 (F64.of_f32 F32.one))).
Definition demo_ds_fn : ModelFn (T := NdHost Exact) (E := Exact) :=
  mkModelFn 3 (mat_row 2 [1; 0; 0; 1; 1; 1]%Z)
    [ds_causal (mkDsLayerFn demo_mla_rows (dense_moe_row demo_moe_rows) (gain_fn [1; 1]%Z) (gain_fn [1; 2]%Z))]
    (gain_fn [1; 1]%Z) (dense_fn 3 2 [1; 0; 0; 1; -1; -1]%Z).

Lemma dense_proj_acts b a data : den (mat b a data) T_F32 [b; a] (λ i, match i with [o; j] => at_ (mat_row a data o) j | _ => e_zero end) →
  Forall (λ o, length (mat_row a data o) = a) (seq 0 b) →
  acts (T := NdHost Exact) (proj_forward no_show None (dense_proj b a data)) a b (dense_fn b a data).
Proof. apply dense_acts. Qed.
#[local] Ltac toy_proj := apply dense_proj_acts; [toy_den | by repeat constructor].

Lemma demo_mla_is : mla_is no_show None demo_mla demo_mla_rows 2 8.
Proof.
  split; try done; try toy_proj; try toy_gain.
  - apply (lora_acts no_show None _ _ _ 2 1 3); [toy_proj | toy_gain | toy_proj].
  - apply (block_fp8_acts no_show None demo_fp8 1 2). split; [toy_den | toy_den | done].
Qed.

Lemma demo_dense_moe_is : dense_moe_is no_show None demo_dense_moe demo_moe_rows 2.
Proof.
  assert (He : ∀ a b, acts (T := NdHost Exact) (ds_mlp_forward no_show None (demo_expert_of a b)) 2 2 (demo_expert_rows a b)).
  { intros a b. apply (ds_mlp_acts no_show None (demo_expert_of a b) 2 1); [| toy_proj | toy_proj].
    apply dense_proj_acts; [split_and!; reflexivity | by repeat constructor]. }
  split; try done.
  - intros [|[|[|[|o]]]] Ho; cbn in Ho; done || lia.
  - repeat (apply Forall2_cons; split; [apply He |]). by apply Forall2_nil.
  - split; [done | cbn; lia].
  - cbn. split_and!; done || lia.
  - apply He.
Qed.

Lemma demo_deepseek_is : deepseek_is no_show None None 2 8 3 demo_deepseek demo_ds_fn.
Proof.
  split.
  - split; [toy_den | | done]. intros [|[|[|t]]] Ht; cbn in Ht; done || lia.
  - eexists [_]. split; [done |]. apply Forall2_cons. split; [| by apply Forall2_nil]. split; cbn.
    + apply demo_mla_is.
    + by apply (dense_moe_rows no_show None demo_dense_moe demo_moe_rows 2 8 demo_dense_moe_is).
    + toy_gain.
    + toy_gain.
  - toy_gain.
  - toy_proj.
Qed.

(** Five tokens as two, two and one. *)
Lemma chunked_prefill_exact_witness :
  ∃ full os cf cs,
    ds_forward no_show None None demo_deepseek (mkNdHost [1; 5] T_U32 (real <$> [1; 0; 2; 2; 1]%Z)) (seq 0 5) [None] = Some (Ok full, cf)
    ∧ run_chunks (ds_forward no_show None None demo_deepseek) 0 [[1%N; 0%N]; [2%N; 2%N]; [1%N]] [None] = Some (os, cs)
    ∧ length os = 3 ∧ row_of 3 (default full (os !! 1)) 1 = row_of 3 full 3.
Proof.
  destruct (chunked_prefill_exact no_show None None 2 8 3 demo_deepseek demo_ds_fn [[1%N; 0%N]; [2%N; 2%N]; [1%N]]
    (mkNdHost [1; 5] T_U32 (real <$> [1; 0; 2; 2; 1]%Z)) ltac:(done) demo_deepseek_is) as (full & cf & os & cs & Ef & Eo & Hl & Ho);
    [by repeat constructor | done | apply valid_check; reflexivity | cbn; lia | done |].
  exists full, os, cf, cs. split_and!; [exact Ef | exact Eo | exact Hl |].
  destruct (lookup_lt_is_Some_2 os 1) as [o Eo1]; [rewrite Hl; cbn; lia |]. rewrite Eo1. exact (Ho 1 [2%N; 2%N] o 1 eq_refl Eo1 ltac:(cbn; lia)).
Defined.

Lemma deepseek_generates_witness :
  ds_generate (λ t, Ok (e_to_f32 <$> nh_data t)) (ds_forward no_show None None demo_deepseek) 1 [1%N; 0%N] 5
  = Some (Ok (greedy demo_ds_fn total_choice 3 [1%N; 0%N])).
Proof.
  apply (deepseek_generates (T := NdHost Exact) (E := Exact) no_show None None 2 8 3 ltac:(done) (λ t, Ok (e_to_f32 <$> nh_data t)) demo_deepseek demo_ds_fn [1%N; 0%N] 5);
    [done | apply demo_deepseek_is | done | cbn; lia | done | apply valid_check; reflexivity | cbn; lia | lia].
Defined.
