(* ===== verification/Structured.v ===== *)
(** * Constrained decoding (rllm-sampling/src/structured.rs)

    The manager of grammars: a matcher per request, the mask over logits and the
    tokens the matcher takes.  XGrammar is a class of operations ([XGrammar]) with
    its documented behaviour ([LawfulXGrammar]).  The executor's use of the manager
    (the [structured-outputs] feature of rllm-executor/src/uniproc.rs) is at the end. *)
From Stdlib Require Import Ascii.
From S2P Require Import Prelude F32 CoreTypes Request Json Executor Logits Sampler AttentionMeta Scheduler.
#[local] Open Scope string_scope.
#[local] Open Scope list_scope.
#[local] Open Scope nat_scope.
#[local] Open Scope rllm_scope.

(** ** Choices as a regular expression *)

Definition regex_specials : list ascii :=
  String.list_ascii_of_string "\.+*?()|[]{}^$".

(** The characters escaped are ASCII, so bytes may be walked for characters. *)
Fixpoint regex_escape (value : string) : string :=
  match value with
  | EmptyString => EmptyString
  | String ch value =>
      if bool_decide (ch ∈ regex_specials) then String "\" (String ch (regex_escape value))
      else String ch (regex_escape value)
  end.

Fixpoint join (sep : string) (l : list string) : string :=
  match l with
  | [] => ""
  | [s] => s
  | s :: l => s +:+ sep +:+ join sep l
  end.

Definition choice_regex (choices : list string) : string :=
  "(?:" +:+ join "|" (regex_escape <$> choices) +:+ ")".

(** ** XGrammar *)

Class XGrammar (Compiler Grammar Compiled Matcher : Type) : Type := {
  xg_compiler : string → nat → list Z → option Compiler;
  xg_bitmask_size : Z → nat;
  xg_from_json_schema : string → option Grammar;
  xg_from_regex : string → option Grammar;
  xg_from_ebnf : string → option Grammar;
  xg_compile_json_schema : Compiler → string → option Compiled;
  xg_compile_json : Compiler → option Compiled;
  xg_compile_regex : Compiler → string → option Compiled;
  xg_compile_grammar : Compiler → Grammar → option Compiled;
  xg_matcher : Compiled → Matcher;
  (** The bitmask after the call, and whether it needs to be applied. *)
  xg_fill : Matcher → list Z → option (bool * list Z) * Matcher;
  xg_accept : Matcher → Z → bool * Matcher;
}.

Section structured.
Context {Compiler Grammar Compiled Matcher : Type} `{!XGrammar Compiler Grammar Compiled Matcher}.
Context (json_text : Json → string).
#[local] Abbreviation Params := (StructuredOutputParams Json).

(** [result.context(msg)] *)
Definition context {A} (r : option A) (msg : string) : result A Error :=
  match r with Some a => Ok a | None => Err (EMsg msg) end.

Definition schema_source (schema : Json) : string :=
  match schema with JString s => s | v => json_text v end.

Definition checked (p : Params) : result unit Error :=
  match structured_validate json_text p with
  | Ok u => Ok u
  | Err _ => Err (EMsg "invalid structured output parameters")
  end.

Definition validate_structured_output (p : Params) : result unit Error :=
  _ <-? checked p;
  match json_schema p, regex p, choice p, from_option Some (grammar p) (xml p) with
  | Some s, _, _, _ => _ <-? context (xg_from_json_schema (schema_source s)) "validating JSON schema with XGrammar"; Ok ()
  | None, Some r, _, _ => _ <-? context (xg_from_regex r) "validating regex with XGrammar"; Ok ()
  | None, None, Some cs, _ => _ <-? context (xg_from_regex (choice_regex cs)) "validating choice constraint with XGrammar"; Ok ()
  | None, None, None, Some g => _ <-? context (xg_from_ebnf g) "validating EBNF with XGrammar"; Ok ()
  | _, _, _, _ => Ok ()
  end.

(** ** The manager *)

Record StructuredOutputManager : Type := mkManager {
  so_compiler : Compiler;
  so_vocab_size : nat;
  so_bitmask_len : nat;
  so_matchers : gmap RequestId Matcher;
}.

Definition with_matchers (m : StructuredOutputManager) (ms : gmap RequestId Matcher) : StructuredOutputManager :=
  mkManager (so_compiler m) (so_vocab_size m) (so_bitmask_len m) ms.

(** The loop over the stop tokens. *)
Fixpoint stop_ids (vocab_size : nat) (ids : list TokenId) (acc : list Z) : result (list Z) Error :=
  match ids with
  | [] => Ok acc
  | t :: ids =>
      require negb (vocab_size <=? N.to_nat t)
        else EMsg "structured outputs require valid stop token IDs";
      require (Z.of_N t <=? i32_max)%Z else EMsg "structured output stop token ID is too large";
      stop_ids vocab_size ids (if bool_decide (Z.of_N t ∈ acc) then acc else acc ++ [Z.of_N t])
  end.

Definition new_with_stop_token_ids (tokenizer_backend : string) (vocab_size : nat) (stop_token_ids : list TokenId) :
    result StructuredOutputManager Error :=
  require (Z.of_nat vocab_size <=? i32_max)%Z else EMsg "tokenizer vocabulary is too large";
  require negb (bool_decide (stop_token_ids = [])) else EMsg "structured outputs require at least one stop token ID";
  stops <-? stop_ids vocab_size stop_token_ids [];
  compiler <-? context (xg_compiler tokenizer_backend vocab_size stops) "building XGrammar tokenizer metadata";
  Ok (mkManager compiler vocab_size (xg_bitmask_size (Z.of_nat vocab_size)) ∅).

Definition manager_new (tokenizer_backend : string) (vocab_size : nat) (eos_token_id : TokenId) :
    result StructuredOutputManager Error :=
  new_with_stop_token_ids tokenizer_backend vocab_size [eos_token_id].

(** The compiled constraint of a request. *)
Definition compile_params (c : Compiler) (p : Params) : result Compiled Error :=
  match json_schema p with
  | Some s => context (xg_compile_json_schema c (schema_source s)) "compiling JSON schema with XGrammar"
  | None =>
      if bool_decide (Request.json_object p = Some true) then context (xg_compile_json c) "compiling the built-in JSON grammar"
      else match regex p, choice p with
      | Some r, _ => context (xg_compile_regex c r) "compiling regex with XGrammar"
      | None, Some cs => context (xg_compile_regex c (choice_regex cs)) "compiling choice constraint with XGrammar"
      | None, None =>
          ke <-? match xml p, grammar p with
                          | Some x, _ => Ok ("XML", x)
                          | None, Some g => Ok ("EBNF", g)
                          | None, None => Err (EMsg "structured output parameters did not contain a constraint")
                          end;
          let '(kind, ebnf) := ke in
          g <-? context (xg_from_ebnf ebnf) ("parsing " +:+ kind +:+ " grammar with XGrammar");
          context (xg_compile_grammar c g) ("compiling " +:+ kind +:+ " grammar with XGrammar")
      end
  end.

Definition register (m : StructuredOutputManager) (id : RequestId) (p : Params) : result StructuredOutputManager Error :=
  _ <-? checked p;
  compiled <-? compile_params (so_compiler m) p;
  Ok (with_matchers m (<[id := xg_matcher compiled]> (so_matchers m))).

(** The bit of a token in the words; [None] when the word is not there. *)
Definition token_bit (words : list Z) (t : nat) : option bool :=
  word ← words !! (t / 32); Some (Z.testbit (word mod 2 ^ 32) (Z.of_nat (t mod 32))).

(** The loop over the vocabulary. *)
Fixpoint apply_words (words : list Z) (ts : list nat) (logits : list f32) : option (list f32) :=
  match ts with
  | [] => Some logits
  | t :: ts =>
      bit ← token_bit words t;
      if negb bit then
        if t <? length logits then apply_words words ts (mask_at logits t) else None
      else apply_words words ts logits
  end.

(** [mask_logits] changes the logits in place and, through XGrammar, the matcher;
    [None] is a panic. *)
Definition mask_logits (m : StructuredOutputManager) (id : RequestId) (logits : list f32) :
    option (result unit Error * list f32 * StructuredOutputManager) :=
  match so_matchers m !! id with
  | None => Some (Ok (), logits, m)
  | Some matcher =>
      if length logits <? so_vocab_size m then
        Some (Err (EMsg "logits vocabulary size is smaller than tokenizer vocabulary size"), logits, m)
      else
        let '(filled, matcher) := xg_fill matcher (replicate (so_bitmask_len m) 0%Z) in
        let m := with_matchers m (<[id := matcher]> (so_matchers m)) in
        match filled with
        | None => Some (Err (EMsg "computing XGrammar token bitmask"), logits, m)
        | Some (needed, words) =>
            logits ← (if needed : bool then apply_words words (seq 0 (so_vocab_size m)) logits else Some logits);
            if forallb (λ l, negb (F32.is_finite l)) (take (so_vocab_size m) logits) then
              Some (Err (EMsg "structured output constraint rejected every token"), logits, m)
            else Some (Ok (), logits, m)
        end
  end.

Definition accept_token (m : StructuredOutputManager) (id : RequestId) (t : TokenId) :
    result unit Error * StructuredOutputManager :=
  match so_matchers m !! id with
  | None => (Ok (), m)
  | Some matcher =>
      if (i32_max <? Z.of_N t)%Z then (Err (EMsg "sampled token ID is too large"), m)
      else
        let '(accepted, matcher) := xg_accept matcher (Z.of_N t) in
        let m := with_matchers m (<[id := matcher]> (so_matchers m)) in
        (if accepted then Ok () else Err (EMsg "XGrammar rejected sampled token"), m)
  end.

Definition manager_remove (m : StructuredOutputManager) (id : RequestId) : StructuredOutputManager :=
  with_matchers m (delete id (so_matchers m)).

(** ** The executor's use of the manager *)

(** At the start of a step, the matchers of the finished requests go. *)
Definition remove_finished (m : option StructuredOutputManager) (out : SchedulerOutput) : option StructuredOutputManager :=
  (λ m, foldl manager_remove m (finished_ids out)) <$> m.

(** The constraint of a new request. *)
Definition register_request (m : option StructuredOutputManager) (id : RequestId) (so : option Params) :
    result (option StructuredOutputManager) Error :=
  match so, m with
  | None, _ => Ok m
  | Some _, None => Err (EMsg "structured outputs are not configured for this executor")
  | Some p, Some m => m <-? register m id p; Ok (Some m)
  end.

Context {R : Type} (expf lnf : f32 → f32) (next : R → f32 * R).

Definition with_logits (i : SamplingInput (Value := Json)) (logits : list f32) : SamplingInput (Value := Json) :=
  mkSamplingInput logits (si_params i) (si_context_token_ids i) (si_num_generated i) (si_eos_token_id i) (si_bad_word_token_ids i).

(** One sampled token of the normal path: mask, sample, accept. *)
Definition constrained_sample (m : StructuredOutputManager) (s : Sampler (R := R)) (id : RequestId)
    (i : SamplingInput (Value := Json)) (entropy : f32) :
    option (result SamplingOutput Error * Sampler (R := R) * StructuredOutputManager) :=
  '(r, logits, m) ← mask_logits m id (si_logits i);
  match r with
  | Err e => Some (Err e, s, m)
  | Ok _ =>
      let '(o, s) := sample expf lnf next s (with_logits i logits) entropy in
      let '(r, m) := accept_token m id (so_token_id o) in
      Some (match r with Ok _ => Ok o | Err e => Err e end, s, m)
  end.
End structured.

(** ** What XGrammar documents *)

(** The operations speak of one vocabulary.  [fill_next_token_bitmask] sets the bit
    of each token the matcher would take, returns whether some bit is unset, and
    moves no matcher. *)
Class LawfulXGrammar (Compiler Grammar Compiled Matcher : Type) `{!XGrammar Compiler Grammar Compiled Matcher} : Type := {
  compiler_vocab : Compiler → nat;
  compiled_vocab : Compiled → nat;
  matcher_vocab : Matcher → nat;
  bitmask_covers : ∀ n, n <= 32 * xg_bitmask_size (Z.of_nat n);
  compiler_built : ∀ b v ids c, xg_compiler b v ids = Some c → compiler_vocab c = v;
  json_schema_vocab : ∀ c s d, xg_compile_json_schema c s = Some d → compiled_vocab d = compiler_vocab c;
  json_vocab : ∀ c d, xg_compile_json c = Some d → compiled_vocab d = compiler_vocab c;
  regex_vocab : ∀ c s d, xg_compile_regex c s = Some d → compiled_vocab d = compiler_vocab c;
  grammar_vocab : ∀ c g d, xg_compile_grammar c g = Some d → compiled_vocab d = compiler_vocab c;
  matcher_built : ∀ d, matcher_vocab (xg_matcher d) = compiled_vocab d;
  accept_vocab : ∀ x t, matcher_vocab (xg_accept x t).2 = matcher_vocab x;
  fill_vocab : ∀ x ws, matcher_vocab (xg_fill x ws).2 = matcher_vocab x;
  fill_moves_nothing : ∀ x ws t, (xg_accept (xg_fill x ws).2 t).1 = (xg_accept x t).1;
  fill_length : ∀ x ws needed ws', (xg_fill x ws).1 = Some (needed, ws') → length ws' = length ws;
  fill_bits : ∀ x ws ws' t, (xg_fill x ws).1 = Some (true, ws') → t < matcher_vocab x → t < 32 * length ws →
    token_bit ws' t = Some (xg_accept x (Z.of_nat t)).1;
  fill_all : ∀ x ws ws' t, (xg_fill x ws).1 = Some (false, ws') → t < matcher_vocab x →
    (xg_accept x (Z.of_nat t)).1 = true;
}.

(** ** The escape of regular expressions *)

(** The texts of an alternation of literals: a backslash takes the next character
    as it is, a bar ends a text, and no other special character occurs. *)
Fixpoint read_literals (s : string) (text : string) : option (list string) :=
  match s with
  | EmptyString => Some [text]
  | String c s =>
      if bool_decide (c = "\"%char) then
        match s with EmptyString => None | String c s => read_literals s (text +:+ String c "") end
      else if bool_decide (c = "|"%char) then l ← read_literals s ""; Some (text :: l)
      else if bool_decide (c ∈ regex_specials) then None
      else read_literals s (text +:+ String c "")
  end.

Lemma read_escaped v : ∀ rest text, read_literals (regex_escape v +:+ rest) text = read_literals rest (text +:+ v).
Proof.
  induction v as [|c v IH]; intros rest text.
  { by rewrite string_app_nil. }
  assert (E : text +:+ String c v = (text +:+ String c "") +:+ v) by (by rewrite string_app_assoc).
  cbn [regex_escape]. case_bool_decide as Hc.
  - change (read_literals (String "\" (String c (regex_escape v +:+ rest))) text = read_literals rest (text +:+ String c v)).
    cbn [read_literals]. rewrite bool_decide_eq_true_2 by done. by rewrite IH, E.
  - change (read_literals (String c (regex_escape v +:+ rest)) text = read_literals rest (text +:+ String c v)).
    cbn [read_literals]. rewrite !bool_decide_eq_false_2; [by rewrite IH, E | done | |];
      intros ->; apply Hc; unfold regex_specials; vm_compute; set_solver.
Qed.

(** Read as an alternation of literals, the joined escapes are the choices. *)
Lemma read_choices c cs : ∀ text,
  read_literals (join "|" (regex_escape <$> c :: cs)) text = Some ((text +:+ c) :: cs).
Proof.
  revert c. induction cs as [|d cs IH]; intros c text.
  - cbn [fmap list_fmap join]. rewrite <- (string_app_nil (regex_escape c)), read_escaped. done.
  - change (join "|" (regex_escape <$> c :: d :: cs))
      with (regex_escape c +:+ String "|" (join "|" (regex_escape <$> d :: cs))).
    rewrite read_escaped. cbn [read_literals]. rewrite bool_decide_eq_false_2 by done.
    rewrite bool_decide_eq_true_2 by done. rewrite IH. done.
Qed.

(** The pattern of a choice is an alternation of exactly its texts. *)
Lemma choice_regex_texts c cs : ∃ body, choice_regex (c :: cs) = "(?:" +:+ body +:+ ")" ∧ read_literals body "" = Some (c :: cs).
Proof. eexists. split; [reflexivity | apply (read_choices c cs "")]. Qed.

(** ** Processors keep the mask *)

(** What [SamplingParams::validate] and finite biases give. *)
Record keeps_masked {Value} (p : SamplingParams Value) : Prop := {
  km_bias : map_Forall (λ _ b, F32.is_finite b = true) (logit_bias p);
  km_repetition : F32.gtb (repetition_penalty p) F32.zero = true;
  km_frequency : in_range F32.zero F32.two (frequency_penalty p) = true;
  km_presence : in_range F32.zero F32.two (presence_penalty p) = true;
  km_temperature : F32.gtb (temperature p) F32.zero = true →
    F32.gtb (F32.div F32.one (temperature p)) F32.zero = true;
}.

Lemma update_keeps f tid : f neg_inf = neg_inf → keeps (λ ls, update_logit f tid ls).
Proof.
  intros Hf ls. unfold update_logit, masked. split; [apply length_alter |].
  intros i Hi. destruct (decide (i = N.to_nat tid)) as [->|Hne].
  - rewrite list_lookup_alter_eq, Hi. cbn. by rewrite Hf.
  - by rewrite list_lookup_alter_ne.
Qed.

Lemma keeps_foldl_in {B} (f : list f32 → B → list f32) (l : list B) :
  (∀ b, b ∈ l → keeps (λ ls, f ls b)) → keeps (λ ls, foldl f ls l).
Proof.
  induction l as [|b l IH]; intros Hf; [apply keeps_id |].
  apply (keeps_compose (λ ls, foldl f ls l) (λ ls, f ls b)); [apply IH; intros c Hc |]; apply Hf; set_solver.
Qed.

Lemma penalize_neg_inf r : F32.gtb r F32.zero = true → penalize r neg_inf = neg_inf.
Proof. unfold penalize. intros H. by destruct r as [[]|[]| |[] ? ?]. Qed.

Lemma in_range_finite x : in_range F32.zero F32.two x = true →
  F32.is_finite x = true ∧ (F32.eqb x F32.zero = false → ∃ m e, x = S754_finite false m e).
Proof.
  unfold in_range. intros [H1 H2]%andb_true_iff. destruct x as [[]|[]| |[] m e]; try done. eauto.
Qed.

Lemma frequency_step_neg_inf x n : in_range F32.zero F32.two x = true → F32.eqb x F32.zero = false →
  F32.sub neg_inf (F32.mul x (F32.of_N n)) = neg_inf.
Proof.
  intros Hr Hz. destruct (proj2 (in_range_finite x Hr) Hz) as (m & e & ->).
  apply sub_from_neg_infinity. left. destruct (signed_mul m e (F32.of_N n) (signed_of_N n)) as [|E]; [done |].
  exfalso. pose proof (signed_of_N n) as Hs. destruct (F32.of_N n) as [s|s| |s m' e'] eqn:En; try done.
  change (binary_round_aux 24 128 (xorb false s) (Z.pos (m * m')) (e + e') loc_Exact = S754_nan) in E.
  pose proof (signed_round_aux 24 128 ltac:(lia) (xorb false s) (Z.pos (m * m')) (e + e') loc_Exact ltac:(lia)) as Hsg.
  by rewrite E in Hsg.
Qed.

Lemma penalties_keep {Value} (p : SamplingParams Value) ctx : keeps_masked p → keeps (apply_penalties p ctx).
Proof.
  intros [_ Hr Hf Hp _]. unfold apply_penalties. destruct ctx as [|t0 ctx]; [apply keeps_id |]. set (c := t0 :: ctx).
  set (f1 := λ ls, if F32.eqb (repetition_penalty p) F32.one then ls else apply_repetition_penalty ls c (repetition_penalty p)).
  set (f2 := λ ls, if F32.eqb (frequency_penalty p) F32.zero then ls else apply_frequency_penalty ls c (frequency_penalty p)).
  set (f3 := λ ls, if F32.eqb (presence_penalty p) F32.zero then ls else apply_presence_penalty ls c (presence_penalty p)).
  apply (keeps_compose f3 (λ ls, f2 (f1 ls))); [| apply (keeps_compose f2 f1)].
  - unfold f3. apply (keeps_if _ (λ ls, ls)); [apply keeps_id |]. unfold apply_presence_penalty.
    apply (keeps_if _ (λ ls, ls)); [apply keeps_id |]. apply keeps_foldl_in. intros b _. apply update_keeps.
    apply sub_from_neg_infinity. right. by apply in_range_finite.
  - unfold f2. destruct (F32.eqb (frequency_penalty p) F32.zero) eqn:Ez; [apply keeps_id |]. unfold apply_frequency_penalty.
    apply (keeps_if _ (λ ls, ls)); [apply keeps_id |]. apply keeps_foldl_in. intros b _. apply update_keeps.
    by apply frequency_step_neg_inf.
  - unfold f1. apply (keeps_if _ (λ ls, ls)); [apply keeps_id |]. unfold apply_repetition_penalty.
    apply (keeps_if _ (λ ls, ls)); [apply keeps_id |]. apply keeps_foldl_in. intros b _. apply update_keeps.
    by apply penalize_neg_inf.
Qed.

Lemma bias_keeps bias : map_Forall (λ (_ : TokenId) b, F32.is_finite b = true) bias → keeps (λ ls, apply_logit_bias ls bias).
Proof.
  intros Hb. apply keeps_foldl_in. intros [t b] Hin%elem_of_map_to_list. apply update_keeps.
  specialize (Hb _ _ Hin). cbn [snd]. cbn beta in Hb. clear Hin. by destruct b as [[]|[]| |[] ? ?].
Qed.

Lemma masks_keep {Value} (i : SamplingInput (Value := Value)) : keeps (apply_masks i).
Proof.
  set (f1 := λ ls, foldl (block_bad_word (si_context_token_ids i)) ls (si_bad_word_token_ids i)).
  set (f2 := λ ls, match allowed_token_ids (si_params i) with Some allowed => apply_allowed_token_ids ls allowed | None => ls end).
  set (f3 := λ ls, if (0 <? min_tokens (si_params i))%N
    then apply_eos_suppression ls (si_eos_token_id i) (si_num_generated i) (min_tokens (si_params i)) else ls).
  apply (keeps_compose f3 (λ ls, f2 (f1 ls))); [| apply (keeps_compose f2 f1)].
  - unfold f3. apply (keeps_if _ _ (λ ls, ls)); [apply eos_keeps | apply keeps_id].
  - unfold f2. destruct (allowed_token_ids (si_params i)); [apply allowed_keeps | apply keeps_id].
  - apply keeps_foldl, block_bad_word_keeps.
Qed.

(** Preparation keeps what is masked. *)
Lemma prepare_keeps {Value} expf lnf (i : SamplingInput (Value := Value)) t_on tr_on k :
  keeps_masked (si_params i) → masked (si_logits i) k → masked (prepare_logits expf lnf i t_on tr_on) k.
Proof.
  intros Hk. unfold prepare_logits. set (p := si_params i) in *.
  set (f0 := λ ls, if bool_decide (logit_bias p = ∅) then ls else apply_logit_bias ls (logit_bias p)).
  set (f3 := λ ls, if t_on && F32.gtb (temperature p) F32.zero then apply_temperature ls (temperature p) else ls).
  set (f4 := λ ls, if tr_on : bool then apply_truncations expf lnf p ls else ls).
  assert (H0 : keeps f0).
  { apply (keeps_if _ (λ ls, ls)); [apply keeps_id | apply bias_keeps; by destruct Hk]. }
  assert (H3 : keeps f3).
  { unfold f3. destruct (t_on && F32.gtb (temperature p) F32.zero) eqn:E; [| apply keeps_id].
    apply andb_true_iff in E as [_ E]. apply temperature_keeps. by apply (km_temperature p Hk). }
  assert (H4 : keeps f4) by (apply (keeps_if _ _ (λ ls, ls)); [apply truncations_keep | apply keeps_id]).
  intros Hm. apply (H4 (f3 (apply_masks i (apply_penalties p (si_context_token_ids i) (f0 (si_logits i)))))).
  by apply H3, masks_keep, penalties_keep, H0.
Qed.

(** ** The manager is consistent, and its mask is the grammar's *)

Section lawful.
Context {Compiler Grammar Compiled Matcher : Type} `{!XGrammar Compiler Grammar Compiled Matcher}.
Context `{!LawfulXGrammar Compiler Grammar Compiled Matcher} (json_text : Json → string).
#[local] Abbreviation Manager := (StructuredOutputManager (Compiler := Compiler) (Matcher := Matcher)).

(** Whether the matcher takes a token. *)
Definition takes (x : Matcher) (t : nat) : bool := (xg_accept x (Z.of_nat t)).1.

Record manager_ok (m : Manager) : Prop := {
  mo_vocab : (Z.of_nat (so_vocab_size m) <= i32_max)%Z;
  mo_bitmask : so_bitmask_len m = xg_bitmask_size (Z.of_nat (so_vocab_size m));
  mo_compiler : compiler_vocab (so_compiler m) = so_vocab_size m;
  mo_matchers : map_Forall (λ _ x, matcher_vocab x = so_vocab_size m) (so_matchers m);
}.

Lemma with_matchers_ok (m : Manager) ms :
  manager_ok m → map_Forall (λ _ x, matcher_vocab x = so_vocab_size m) ms → manager_ok (with_matchers m ms).
Proof. intros [H1 H2 H3 _] H4. by split. Qed.

Lemma replace_matcher_ok (m : Manager) id x x' : manager_ok m → so_matchers m !! id = Some x →
  matcher_vocab x' = matcher_vocab x → manager_ok (with_matchers m (<[id := x']> (so_matchers m))).
Proof.
  intros Hm Hx E. apply with_matchers_ok; [done |]. apply map_Forall_insert_2; [| apply Hm].
  rewrite E. exact (mo_matchers m Hm _ _ Hx).
Qed.

Lemma new_ok backend v ids (m : Manager) : new_with_stop_token_ids backend v ids = Ok m → manager_ok m.
Proof.
  unfold new_with_stop_token_ids. destruct (_ <=? _)%Z eqn:E1; [| done]. destruct (negb _); [| done].
  destruct (stop_ids v ids []) as [stops|]; cbn [result_bind]; [| done].
  destruct (xg_compiler backend v stops) as [c|] eqn:Ec; cbn [context result_bind]; [| done].
  intros [= <-]. split; cbn; [lia | done | by eapply compiler_built | apply map_Forall_empty].
Qed.

Lemma compile_params_vocab (c : Compiler) p d : compile_params json_text c p = Ok d → compiled_vocab d = compiler_vocab c.
Proof.
  assert (Hc : ∀ (o : option Compiled) msg, context o msg = Ok d → o = Some d) by (by intros [?|] ?; intros [= ->]).
  unfold compile_params. destruct (json_schema p); [intros E%Hc; by eapply json_schema_vocab |].
  case_bool_decide; [intros E%Hc; by eapply json_vocab |].
  destruct (regex p); [intros E%Hc; by eapply regex_vocab |].
  destruct (choice p); [intros E%Hc; by eapply regex_vocab |].
  destruct (match xml p, grammar p with Some x, _ => _ | None, Some g => _ | None, None => _ end) as [[kind ebnf]|]; cbn [result_bind]; [| done].
  destruct (xg_from_ebnf ebnf); cbn [context result_bind]; [| done]. intros E%Hc. by eapply grammar_vocab.
Qed.

Lemma register_ok (m m' : Manager) id p : manager_ok m → register json_text m id p = Ok m' → manager_ok m'.
Proof.
  intros Hm. unfold register. destruct (checked json_text p); cbn [result_bind]; [| done].
  destruct (compile_params _ _ _) as [d|] eqn:E; cbn [result_bind]; [| done]. intros [= <-].
  apply with_matchers_ok; [done |]. apply map_Forall_insert_2; [| apply Hm].
  rewrite matcher_built. erewrite compile_params_vocab by done. apply Hm.
Qed.

Lemma remove_ok (m : Manager) id : manager_ok m → manager_ok (manager_remove m id).
Proof. intros Hm. apply with_matchers_ok; [done |]. apply map_Forall_delete, Hm. Qed.

Lemma accept_token_ok (m : Manager) id t : manager_ok m → manager_ok (accept_token m id t).2.
Proof.
  intros Hm. unfold accept_token. destruct (so_matchers m !! id) as [x|] eqn:Hx; [| done].
  destruct (_ <? _)%Z; [done |]. pose proof (accept_vocab x (Z.of_N t)) as Hv.
  destruct (xg_accept x (Z.of_N t)) as [b x']. eapply replace_matcher_ok; done.
Qed.

Lemma apply_words_spec words (f : nat → bool) ts : ∀ ls, NoDup ts →
  (∀ t, t ∈ ts → t < length ls ∧ token_bit words t = Some (f t)) →
  ∃ out, apply_words words ts ls = Some out ∧ length out = length ls
    ∧ ∀ t, out !! t = if bool_decide (t ∈ ts) && negb (f t) then Some neg_inf else ls !! t.
Proof.
  induction ts as [|t ts IH]; intros ls Hnd Hts.
  { exists ls. by split_and!. }
  apply NoDup_cons in Hnd as [Hnin Hnd]. destruct (Hts t ltac:(set_solver)) as [Ht Hbit].
  cbn [apply_words]. rewrite Hbit. cbn [mbind option_bind].
  assert (Hskip : ∀ u, bool_decide (u ∈ t :: ts) && negb (f u)
    = (bool_decide (u = t) && negb (f u)) || (bool_decide (u ∈ ts) && negb (f u))).
  { intros u. rewrite <- andb_orb_distrib_l. f_equal. apply Bool.eq_true_iff_eq.
    rewrite orb_true_iff, !bool_decide_eq_true. set_solver. }
  destruct (f t) eqn:Eb; cbn [negb].
  - destruct (IH ls Hnd) as (out & E & Hl & Hout); [intros u Hu; apply Hts; set_solver |].
    exists out. split_and!; [done | done |]. intros u. rewrite Hout, Hskip.
    destruct (decide (u = t)) as [->|Hne]; [by rewrite Eb, !andb_false_r |]. by rewrite (bool_decide_eq_false_2 (u = t)).
  - rewrite (proj2 (Nat.ltb_lt _ _) Ht).
    destruct (IH (mask_at ls t) Hnd) as (out & E & Hl & Hout).
    { intros u Hu. unfold mask_at. rewrite length_insert. apply Hts. set_solver. }
    exists out. unfold mask_at in *. rewrite length_insert in Hl. split_and!; [done | done |].
    intros u. rewrite Hout, Hskip. destruct (decide (u = t)) as [->|Hne].
    + rewrite Eb, (bool_decide_eq_false_2 (t ∈ ts)), bool_decide_eq_true_2 by done. cbn [andb negb orb].
      by rewrite list_lookup_insert_eq.
    + rewrite (bool_decide_eq_false_2 (u = t)) by done. by rewrite list_lookup_insert_ne.
Qed.

Lemma not_all_non_finite (l : list f32) :
  forallb (λ x, negb (F32.is_finite x)) l = false ↔ ∃ t x, l !! t = Some x ∧ F32.is_finite x = true.
Proof.
  induction l as [|x l IH]; cbn [forallb]; [split; [done | by intros ([|t] & x & ? & ?)] |].
  destruct (F32.is_finite x) eqn:E; cbn [negb andb].
  - split; [intros _; by exists 0, x | done].
  - rewrite IH. split; [intros (t & y & ? & ?); by exists (S t), y |].
    intros ([|t] & y & Hy & Hf); [cbn in Hy; congruence | by exists t, y].
Qed.

(** The logits under a mask. *)
Definition mask_with (allowed : nat → bool) (v : nat) (ls : list f32) : list f32 :=
  imap (λ t l, if (t <? v) && negb (allowed t) then neg_inf else l) ls.

Lemma mask_with_eq allowed v ls out : length out = length ls →
  (∀ t, t < length ls → out !! t = if (t <? v) && negb (allowed t) then Some neg_inf else ls !! t) → out = mask_with allowed v ls.
Proof.
  intros Hl Ho. apply list_eq. intros t. unfold mask_with. rewrite list_lookup_imap.
  destruct (ls !! t) as [l|] eqn:E; cbn.
  - rewrite Ho, E by (by eapply lookup_lt_Some). by destruct (_ && _).
  - apply lookup_ge_None in E. apply lookup_ge_None. lia.
Qed.

Lemma mask_with_lookup allowed v ls t l :
  mask_with allowed v ls !! t = Some l ↔ ∃ l0, ls !! t = Some l0 ∧ l = if (t <? v) && negb (allowed t) then neg_inf else l0.
Proof. unfold mask_with. rewrite list_lookup_imap. destruct (ls !! t); cbn; naive_solver. Qed.

(** [mask_logits] of a request with a matcher, where XGrammar answers: each token the
    matcher would not take is masked, the others keep their logits, and it is an error
    when no token of the vocabulary has a finite logit left. *)
Lemma mask_logits_exact (m : Manager) id x ls
    (Hm : manager_ok m) (Hx : so_matchers m !! id = Some x) (Hlen : so_vocab_size m ≤ length ls)
    (Hfill : is_Some (xg_fill x (replicate (so_bitmask_len m) 0%Z)).1) :
  ∃ r out x', mask_logits m id ls = Some (r, out, with_matchers m (<[id := x']> (so_matchers m)))
    ∧ manager_ok (with_matchers m (<[id := x']> (so_matchers m))) ∧ (∀ t, takes x' t = takes x t)
    ∧ out = mask_with (takes x) (so_vocab_size m) ls
    ∧ (r = Ok () ↔ ∃ t l, t < so_vocab_size m ∧ takes x t = true ∧ ls !! t = Some l ∧ F32.is_finite l = true).
Proof.
  unfold mask_logits. rewrite Hx. rewrite (proj2 (Nat.ltb_ge _ _) Hlen).
  set (ws := replicate (so_bitmask_len m) 0%Z) in *.
  pose proof (fill_moves_nothing x ws) as Hsame. pose proof (fill_vocab x ws) as Hv.
  pose proof (fill_bits x ws) as Hbits. pose proof (fill_all x ws) as Hall.
  destruct (xg_fill x ws) as [filled x']. cbn [fst snd] in *. destruct Hfill as [[needed words] ->].
  assert (Hvx : matcher_vocab x = so_vocab_size m) by exact (mo_matchers m Hm _ _ Hx).
  assert (Hout : ∃ out, (if needed then apply_words words (seq 0 (so_vocab_size m)) ls else Some ls) = Some out
    ∧ out = mask_with (takes x) (so_vocab_size m) ls).
  { destruct needed.
    - destruct (apply_words_spec words (takes x) (seq 0 (so_vocab_size m)) ls) as (out & E & Hl & Ho).
      + apply NoDup_seq.
      + intros t Ht%elem_of_seq. split; [lia |]. apply (Hbits words t eq_refl); [lia |].
        unfold ws. rewrite length_replicate, (mo_bitmask m Hm).
        pose proof (bitmask_covers (so_vocab_size m)). lia.
      + exists out. split; [done |]. apply mask_with_eq; [done |]. intros t _. rewrite Ho.
        assert (bool_decide (t ∈ seq 0 (so_vocab_size m)) = (t <? so_vocab_size m)) as ->; [| done].
        apply Bool.eq_true_iff_eq. rewrite bool_decide_eq_true, elem_of_seq, Nat.ltb_lt. lia.
    - exists ls. split; [done |]. apply mask_with_eq; [done |]. intros t _.
      destruct (Nat.ltb_spec t (so_vocab_size m)) as [Ht|]; [| done].
      unfold takes. by rewrite (Hall words t eq_refl) by lia. }
  destruct Hout as (out & Hout & Hmask). cbv beta iota zeta.
  change (so_vocab_size (with_matchers m _)) with (so_vocab_size m). rewrite Hout. cbn [mbind option_bind].
  assert (Hfin : forallb (λ l, negb (F32.is_finite l)) (take (so_vocab_size m) out) = false ↔
    ∃ t l, t < so_vocab_size m ∧ takes x t = true ∧ ls !! t = Some l ∧ F32.is_finite l = true).
  { rewrite not_all_non_finite. split.
    - intros (t & l & [Hl Ht]%lookup_take_Some & Hf). subst out. apply mask_with_lookup in Hl as (l0 & Hl & ->).
      rewrite (proj2 (Nat.ltb_lt _ _) Ht) in Hf. cbn [andb] in Hf.
      destruct (takes x t) eqn:Et; [eauto 8 | done].
    - intros (t & l & Ht & Et & Hl & Hf). exists t, l. split; [| done]. rewrite lookup_take_lt by done.
      subst out. apply mask_with_lookup. exists l. split; [done |]. by rewrite Et, andb_false_r. }
  destruct (forallb _ _); do 3 eexists; (split; [reflexivity |]);
    (split; [by eapply replace_matcher_ok |]); (split; [intros t; apply Hsame |]); (split; [exact Hmask |]).
  - split; [done |]. intros H. by apply Hfin in H.
  - split; [intros _; by apply Hfin | done].
Qed.

(** ** A constrained token is taken *)

Context {R : Type} (expf lnf : f32 → f32) (next : R → f32 * R).

(** What the theorems on sampling ask of one draw: some token is left, or the draw
    falls on one. *)
Definition draw_ok (s : Sampler (R := R)) (i : SamplingInput (Value := Json)) (entropy : f32) : Prop :=
  if is_greedy (si_params i) then
    all_num (prepare_logits expf lnf i false false)
    ∧ ∃ j l, prepare_logits expf lnf i false false !! j = Some l ∧ F32.ltb neg_inf l = true
  else
    expf neg_inf = F32.zero ∧ F32.gtb (F32.div F32.one (temperature (si_params i))) F32.zero = true
    ∧ F32.gtb (drawn next s entropy) F32.zero = true
    ∧ is_Some (pick (drawn next s entropy) F32.zero 0 (softmax_in_place expf lnf (prepare_logits expf lnf i true true)).1).

Lemma draw_unmasked s (i : SamplingInput (Value := Json)) entropy :
  si_logits i ≠ [] → (N.of_nat (length (si_logits i)) <= u32_max + 1)%N → keeps_masked (si_params i) → draw_ok s i entropy →
  ∃ k, so_token_id (sample expf lnf next s i entropy).1 = N.of_nat k ∧ k < length (si_logits i) ∧ ¬ masked (si_logits i) k.
Proof.
  intros Hne Hlen Hk. unfold draw_ok. destruct (is_greedy (si_params i)) eqn:Hg.
  - intros (Hnum & j & l & Hj & Hlt).
    destruct (greedy_draw expf lnf next s i entropy Hne Hlen Hg Hnum) as (k & y & Htok & Hlt' & Hy & Hmax & _).
    exists k. split_and!; [done | done |]. intros Hm. apply (prepare_keeps expf lnf i false false) in Hm; [| done].
    unfold masked in Hm. rewrite Hy in Hm. injection Hm as ->. by rewrite (proj1 (Hmax j l Hj)) in Hlt.
  - intros (Hexp & Ht & Hd & k & Hp).
    destruct (random_draw expf lnf next s i entropy k Hexp Hne Hlen Hg Ht Hd Hp) as (Htok & Hlt & Hm).
    exists k. split_and!; [done | done |]. intros Hmask. by apply Hm, prepare_keeps.
Qed.

(** C10. One step of a constrained request whose logits are as many as the
    tokenizer's vocabulary (see [padded_vocabulary_fails] for the others) and whose
    bias, penalties and allowed tokens leave a masked logit masked
    ([keeps_masked]): when the grammar leaves a token with a finite logit and the
    draw falls on a token that is left ([draw_ok]: greedily, no NaN among the
    prepared logits and one of them above negative infinity; at random, a positive
    temperature and a draw above zero that the cumulative probabilities reach), the step
    succeeds, its token is one the grammar takes, and the matcher has moved past
    it. *)
Theorem constrained_token_accepted (m : Manager) s id x (i : SamplingInput (Value := Json)) entropy
    (Hm : manager_ok m) (Hx : so_matchers m !! id = Some x) (Hlen : length (si_logits i) = so_vocab_size m)
    (Hfill : is_Some (xg_fill x (replicate (so_bitmask_len m) 0%Z)).1)
    (Hleft : ∃ t l, takes x t = true ∧ si_logits i !! t = Some l ∧ F32.is_finite l = true)
    (Hkeeps : keeps_masked (si_params i))
    (Hdraw : draw_ok s (with_logits i (mask_with (takes x) (so_vocab_size m) (si_logits i))) entropy) :
  ∃ o s' m' k x', constrained_sample expf lnf next m s id i entropy = Some (Ok o, s', m')
    ∧ so_token_id o = N.of_nat k ∧ k < so_vocab_size m ∧ takes x k = true
    ∧ manager_ok m' ∧ (∀ t, takes x' t = takes x t)
    ∧ so_matchers m' = <[id := (xg_accept x' (Z.of_nat k)).2]> (so_matchers m).
Proof.
  destruct (mask_logits_exact m id x (si_logits i)) as (r & out & x' & E & Hm' & Hsame & -> & Hr); [done | done | lia | done |].
  assert (Hok : r = Ok ()).
  { apply Hr. destruct Hleft as (t & l & Ht & Hl & Hf). exists t, l. split_and!; try done.
    apply lookup_lt_Some in Hl. lia. }
  unfold constrained_sample. rewrite E, Hok. cbn [mbind option_bind].
  set (i' := with_logits i _) in *. pose proof (mo_vocab m Hm) as Hv.
  assert (Hlen' : length (si_logits i') = so_vocab_size m).
  { unfold i'. cbn [si_logits with_logits]. unfold mask_with. by rewrite length_imap. }
  destruct (draw_unmasked s i' entropy) as (k & Htok & Hk & Hun); [| | done | done |].
  { intros Hnil. rewrite Hnil in Hlen'. destruct Hleft as (t & l & _ & Hl & _).
    apply lookup_lt_Some in Hl. cbn in Hlen'. lia. }
  { unfold u32_max, i32_max in *. lia. }
  rewrite Hlen' in Hk.
  assert (Ht : takes x k = true).
  { destruct (takes x k) eqn:Et; [done |]. exfalso. apply Hun. unfold masked, i'. cbn [si_logits with_logits].
    destruct (lookup_lt_is_Some_2 (si_logits i) k ltac:(lia)) as [l Hl]. apply mask_with_lookup. exists l. split; [done |].
    by rewrite (proj2 (Nat.ltb_lt _ _) Hk), Et. }
  destruct (sample expf lnf next s i' entropy) as [o s']. cbn [fst] in Htok.
  set (m1 := with_matchers m _) in *. pose proof (accept_token_ok m1 id (so_token_id o) Hm') as Hm2.
  unfold accept_token in *. change (so_matchers m1) with (<[id := x']> (so_matchers m)) in *.
  rewrite lookup_insert_eq in *. rewrite Htok in *.
  rewrite (proj2 (Z.ltb_ge _ _)) in * by (unfold i32_max in *; lia).
  assert (Hacc : (xg_accept x' (Z.of_N (N.of_nat k))).1 = true).
  { rewrite nat_N_Z. change (takes x' k = true). by rewrite Hsame. }
  rewrite nat_N_Z in *. destruct (xg_accept x' (Z.of_nat k)) as [b x2] eqn:Ea. cbn [fst snd] in *. rewrite Hacc in *.
  exists o, s'. eexists _, k, x'. rewrite Ea. split_and!; try done.
  cbn [so_matchers with_matchers]. by rewrite insert_insert_eq.
Qed.

End lawful.

(** ** A concrete grammar: one fixed text *)

(** The matcher of a fixed token sequence over a vocabulary of the given size. *)
Record Literal : Type := mkLiteral { lit_vocab : nat; lit_rest : list nat }.

Definition lit_next (x : Literal) : option nat := head (lit_rest x).

Definition lit_accept (x : Literal) (t : Z) : bool * Literal :=
  match lit_rest x with
  | h :: rest => if (t =? Z.of_nat h)%Z then (true, mkLiteral (lit_vocab x) rest) else (false, x)
  | [] => (false, x)
  end.

Definition lit_words (h : option nat) (ws : list Z) : list Z :=
  imap (λ j _, match h with Some h => if h / 32 =? j then (2 ^ Z.of_nat (h mod 32))%Z else 0%Z | None => 0%Z end) ws.

#[local] Instance literal_xgrammar : XGrammar nat unit Literal Literal := {
  xg_compiler _ v _ := Some v;
  xg_bitmask_size v := Z.to_nat ((v + 31) / 32);
  xg_from_json_schema _ := Some tt;
  xg_from_regex _ := Some tt;
  xg_from_ebnf _ := Some tt;
  xg_compile_json_schema v _ := Some (mkLiteral v []);
  xg_compile_json v := Some (mkLiteral v []);
  xg_compile_regex v s := Some (mkLiteral v [String.length s]);
  xg_compile_grammar v _ := Some (mkLiteral v []);
  xg_matcher x := x;
  xg_fill x ws := (Some (true, lit_words (lit_next x) ws), x);
  xg_accept := lit_accept;
}.

Lemma lit_accept_iff x t : (lit_accept x (Z.of_nat t)).1 = bool_decide (lit_next x = Some t).
Proof.
  unfold lit_accept, lit_next. destruct (lit_rest x) as [|h rest]; cbn [head]; [done |].
  destruct (Z.eqb_spec (Z.of_nat t) (Z.of_nat h)) as [E|E]; cbn [fst]; symmetry;
    [apply bool_decide_eq_true; f_equal; lia | apply bool_decide_eq_false; intros [= ->]; done].
Qed.

Lemma lit_bit h ws t : t < 32 * length ws → token_bit (lit_words h ws) t = Some (bool_decide (h = Some t)).
Proof.
  intros Ht. unfold token_bit, lit_words. rewrite list_lookup_imap.
  pose proof (Nat.div_mod_eq t 32) as Hd. pose proof (Nat.mod_upper_bound t 32 ltac:(lia)) as Hm.
  destruct (lookup_lt_is_Some_2 ws (t / 32)) as [w ->]; [lia |]. cbn [fmap option_fmap option_map mbind option_bind]. f_equal.
  destruct h as [h|]; [| by rewrite Z.mod_0_l, Z.bits_0 by lia].
  pose proof (Nat.div_mod_eq h 32) as Hd'. pose proof (Nat.mod_upper_bound h 32 ltac:(lia)) as Hm'.
  destruct (decide (h / 32 = t / 32)) as [E|E].
  - rewrite (proj2 (Nat.eqb_eq _ _) E), Z.mod_small by (split; [apply Z.pow_nonneg; lia | apply Z.pow_lt_mono_r; lia]). rewrite Z.pow2_bits_eqb by lia.
    apply Bool.eq_true_iff_eq. rewrite Z.eqb_eq, bool_decide_eq_true. split; [intros; f_equal; lia | intros [= ->]; done].
  - rewrite (proj2 (Nat.eqb_neq _ _) E), Z.mod_0_l, Z.bits_0 by lia. symmetry. apply bool_decide_eq_false. intros [= ->]. done.
Qed.

#[local, refine] Instance literal_lawful : LawfulXGrammar nat unit Literal Literal := {
  compiler_vocab v := v;
  compiled_vocab := lit_vocab;
  matcher_vocab := lit_vocab;
}.
Proof.
  - intros n. cbn. pose proof (Z.div_mod (Z.of_nat n + 31) 32 ltac:(lia)).
    pose proof (Z.mod_pos_bound (Z.of_nat n + 31) 32 ltac:(lia)). lia.
  - intros b v ids c [= <-]. done.
  - intros c s d [= <-]. done.
  - intros c d [= <-]. done.
  - intros c s d [= <-]. done.
  - intros c g d [= <-]. done.
  - done.
  - intros x t. cbn. unfold lit_accept. destruct (lit_rest x); [done |]. by destruct (_ =? _)%Z.
  - done.
  - done.
  - intros x ws needed ws' [= <- <-]. apply length_imap.
  - intros x ws ws' t [= <-] _ Ht. cbn [xg_accept literal_xgrammar]. rewrite lit_accept_iff. by apply lit_bit.
  - done.
Defined.

Definition demo_request : SamplingInput (Value := Json) :=
  mkSamplingInput (F32.of_Z <$> [5; 1; 3]%Z)
    (let d := SamplingParams_default (Value := Json) in
     mkSamplingParams (sp_n d) (best_of d) (presence_penalty d) (frequency_penalty d) (repetition_penalty d)
       F32.zero (top_p d) (top_k d) (min_p d) (seed d) (stop d) (stop_token_ids d) (ignore_eos d) (max_tokens d)
       (min_tokens d) (logprobs d) (prompt_logprobs d) (detokenize d) (skip_special_tokens d)
       (spaces_between_special_tokens d) (include_stop_str_in_output d) (output_kind d) (logit_bias d)
       (allowed_token_ids d) (bad_words d) (structured_outputs d) (skip_reading_prefix_cache d)
       (speculative_decoding d)) [0; 2]%N 0 9 [].

Definition demo_manager (v : nat) : StructuredOutputManager (Compiler := nat) (Matcher := Literal) :=
  mkManager v v (xg_bitmask_size (Z.of_nat v)) {[ 7%N := mkLiteral v [1; 0] ]}.

Lemma demo_manager_ok : manager_ok (demo_manager 3).
Proof.
  split; [vm_compute; discriminate | reflexivity | reflexivity |]. intros id x.
  cbn [so_matchers demo_manager]. intros [_ <-]%lookup_singleton_Some. reflexivity.
Qed.

(** The text wants token 1, whose logit is the smallest. *)
Lemma constrained_token_accepted_witness :
  ∃ o s' m' k x', constrained_sample demo_exp demo_ln demo_next (demo_manager 3) sampler_new 7%N demo_request F32.zero = Some (Ok o, s', m')
    ∧ so_token_id o = N.of_nat k ∧ k < 3 ∧ takes (mkLiteral 3 [1; 0]) k = true
    ∧ manager_ok m' ∧ (∀ t, takes x' t = takes (mkLiteral 3 [1; 0]) t)
    ∧ so_matchers m' = <[7%N := (xg_accept x' (Z.of_nat k)).2]> (so_matchers (demo_manager 3)).
Proof.
  apply (constrained_token_accepted demo_exp demo_ln demo_next (demo_manager 3) sampler_new 7%N (mkLiteral 3 [1; 0]) demo_request F32.zero).
  - exact demo_manager_ok.
  - reflexivity.
  - reflexivity.
  - eexists. reflexivity.
  - exists 1. eexists. split_and!; vm_compute; reflexivity.
  - split; try reflexivity. all: first [apply map_Forall_empty | vm_compute; discriminate].
  - unfold draw_ok. change (is_greedy (si_params (with_logits demo_request _))) with true. cbv iota. split.
    + apply all_num_check. vm_compute. reflexivity.
    + exists 1. eexists. split; vm_compute; reflexivity.
Defined.

(** When the model has more tokens than the tokenizer, the tokens beyond the
    tokenizer's are not masked, one can be sampled, and the whole step fails. *)
Example padded_vocabulary_fails :
  option_map (λ r, r.1.1) (constrained_sample demo_exp demo_ln demo_next (demo_manager 2) sampler_new 7%N demo_request F32.zero)
  = Some (Err (EMsg "XGrammar rejected sampled token")).
Proof. vm_compute. reflexivity. Qed.

(** Read as a regular expression, the pattern of a choice is its texts. *)
Example choice_pattern : choice_regex ["a.b"; "c|d"] = "(?:a\.b|c\|d)".
Proof. reflexivity. Qed.
