(* ===== verification/MultiProc.v ===== *)
(** * The executor over ranks (rllm-executor/src/multiproc.rs)

    The executor that is to coordinate several workers: today rank 0 samples from
    flat logits.  It keeps the tokens of each request; [abort_request] is the
    trait's default, which does nothing. *)
From S2P Require Import Prelude F32 CoreTypes Request KVSpec Scheduler Executor Sampler Logits.
#[local] Open Scope string_scope.
#[local] Open Scope list_scope.
#[local] Open Scope nat_scope.

Section multiproc.
Context {Value R Ent : Type}.
Context (expf lnf : f32 → f32) (next : R → f32 * R) (thread_next : Ent → f32 * Ent).

Record MultiProcRequestState : Type := mkMpState {
  mp_prompt_token_ids : list TokenId;
  mp_generated_token_ids : list TokenId;
  mp_sampling_params : SamplingParams Value;
}.

(** [mp_thread_rng] is the generator of the thread, which the samplers without a
    seed use. *)
Record MultiProcExecutor : Type := mkMultiProc {
  tensor_parallel_size : nat;
  mp_samplers : list (Sampler (R := R));
  mp_request_states : gmap RequestId MultiProcRequestState;
  mp_eos_token_id : TokenId;
  mp_initialized : bool;
  mp_thread_rng : Ent;
}.

Definition multiproc_new (size : nat) (rng : Ent) : MultiProcExecutor :=
  mkMultiProc size (replicate size sampler_new) ∅ 0 false rng.

Definition mp_set_eos_token_id (x : MultiProcExecutor) (eos : TokenId) : MultiProcExecutor :=
  mkMultiProc (tensor_parallel_size x) (mp_samplers x) (mp_request_states x) eos (mp_initialized x) (mp_thread_rng x).

(** [sampler_mut]: what the caller does with the reference. *)
Definition sampler_mut (x : MultiProcExecutor) (rank : nat) (f : Sampler (R := R) → Sampler (R := R)) : option MultiProcExecutor :=
  s ← mp_samplers x !! rank;
  Some (mkMultiProc (tensor_parallel_size x) (<[rank := f s]> (mp_samplers x)) (mp_request_states x) (mp_eos_token_id x)
    (mp_initialized x) (mp_thread_rng x)).

Definition multiproc_initialize (x : MultiProcExecutor) (configs : list KVCacheConfig) : result nat Error * MultiProcExecutor :=
  if length configs <? tensor_parallel_size x then (Err (EMsg "too few KV cache configs for the workers"), x)
  else (Ok (from_option num_blocks 0 (head configs)),
        mkMultiProc (tensor_parallel_size x) (mp_samplers x) (mp_request_states x) (mp_eos_token_id x) true (mp_thread_rng x)).

Definition mp_vocab_size : nat := N.to_nat 32000.

Definition mp_push (st : MultiProcRequestState) (t : TokenId) : MultiProcRequestState :=
  mkMpState (mp_prompt_token_ids st) (mp_generated_token_ids st ++ [t]) (mp_sampling_params st).

Definition mp_input (eos : TokenId) (st : MultiProcRequestState) : SamplingInput (Value := Value) :=
  mkSamplingInput (replicate mp_vocab_size F32.zero) (mp_sampling_params st)
    (mp_prompt_token_ids st ++ mp_generated_token_ids st)
    (as_u32 (N.of_nat (length (mp_generated_token_ids st)))) eos [].

(** The loop over the scheduled requests, with rank 0's sampler. *)
Fixpoint mp_loop (eos : TokenId) (ids : list RequestId) (s : Sampler (R := R)) (rng : Ent)
    (states : gmap RequestId MultiProcRequestState) (outs : list PerRequestOutput) :
    Sampler (R := R) * Ent * gmap RequestId MultiProcRequestState * list PerRequestOutput :=
  match ids with
  | [] => (s, rng, states, outs)
  | id :: ids =>
      match states !! id with
      | None => mp_loop eos ids s rng states outs
      | Some st =>
          let '(entropy, rng) := thread_next rng in
          let '(o, s) := sample expf lnf next s (mp_input eos st) entropy in
          mp_loop eos ids s rng (<[id := mp_push st (so_token_id o)]> states)
            (outs ++ [mkPerRequestOutput id [so_token_id o] [so_logprob o]])
      end
  end.

Definition mp_scheduled (out : SchedulerOutput) : list RequestId :=
  scheduled_new out ++ scheduled_cached out ++ scheduled_running out.

Definition multiproc_execute (x : MultiProcExecutor) (out : SchedulerOutput) :
    option (result ExecutorOutput Error * MultiProcExecutor) :=
  if negb (mp_initialized x) then Some (Err (EMsg "MultiProcExecutor not initialized"), x)
  else if num_scheduled out =? 0 then Some (Ok ExecutorOutput.empty, x)
  else
    s ← mp_samplers x !! 0;
    let '(s, rng, states, outs) :=
      mp_loop (mp_eos_token_id x) (mp_scheduled out) s (mp_thread_rng x) (mp_request_states x) [] in
    Some (Ok (mkExecutorOutput outs),
      mkMultiProc (tensor_parallel_size x) (<[0 := s]> (mp_samplers x)) states (mp_eos_token_id x) true rng).

Definition multiproc_add_request (x : MultiProcExecutor) (id : RequestId) (prompt : list TokenId) (p : SamplingParams Value) :
    result unit Error * MultiProcExecutor :=
  (Ok (), mkMultiProc (tensor_parallel_size x) (mp_samplers x) (<[id := mkMpState prompt [] p]> (mp_request_states x))
            (mp_eos_token_id x) (mp_initialized x) (mp_thread_rng x)).

Definition multiproc_shutdown (x : MultiProcExecutor) : MultiProcExecutor :=
  mkMultiProc (tensor_parallel_size x) (mp_samplers x) ∅ (mp_eos_token_id x) (mp_initialized x) (mp_thread_rng x).

#[global] Instance multiproc_executor : Executor Value MultiProcExecutor := {
  initialize x configs _ := Some (multiproc_initialize x configs);
  determine_available_memory _ := Ok 4294967296%N;
  execute_model := multiproc_execute;
  executor_add_request := multiproc_add_request;
  executor_abort_request x _ := x;
  shutdown := multiproc_shutdown;
}.

(** ** One token for each request that is known *)

(** The tokens a list of outputs reports for a request. *)
Definition reported (outs : list PerRequestOutput) (id : RequestId) : list TokenId :=
  outs ≫= λ p, if bool_decide (pro_request_id p = id) then pro_token_ids p else [].

Definition mp_known (states : gmap RequestId MultiProcRequestState) (id : RequestId) : bool :=
  bool_decide (is_Some (states !! id)).

Definition mp_generate (st : MultiProcRequestState) (ts : list TokenId) : MultiProcRequestState :=
  mkMpState (mp_prompt_token_ids st) (mp_generated_token_ids st ++ ts) (mp_sampling_params st).

Lemma mp_generate_nil st : mp_generate st [] = st.
Proof. destruct st. unfold mp_generate. cbn. by rewrite app_nil_r. Qed.

Lemma mp_loop_spec eos ids : ∀ s rng states outs, ∃ s' rng' states' more,
  mp_loop eos ids s rng states outs = (s', rng', states', outs ++ more)
  ∧ pro_request_id <$> more = filter (λ id, mp_known states id = true) ids
  ∧ Forall (λ p, length (pro_token_ids p) = 1 ∧ length (pro_logprobs p) = 1) more
  ∧ ∀ id, states' !! id = (λ st, mp_generate st (reported more id)) <$> states !! id.
Proof.
  induction ids as [|id ids IH]; intros s rng states outs; cbn [mp_loop].
  { exists s, rng, states, []. rewrite app_nil_r. split_and!; [done | done | done |].
    intros i. destruct (states !! i); [cbn; by rewrite mp_generate_nil | done]. }
  rewrite filter_cons. destruct (states !! id) as [st|] eqn:Est; cycle 1.
  { rewrite decide_False; [apply IH |]. unfold mp_known. rewrite Est, bool_decide_eq_true. by intros [? ?]. }
  destruct (thread_next rng) as [entropy rng1]. destruct (sample expf lnf next s (mp_input eos st) entropy) as [o s1].
  rewrite decide_True by (unfold mp_known; rewrite Est, bool_decide_eq_true; eauto).
  set (p := mkPerRequestOutput id [so_token_id o] [so_logprob o]).
  destruct (IH s1 rng1 (<[id := mp_push st (so_token_id o)]> states) (outs ++ [p])) as (s' & rng' & states' & more & E & Hids & Hone & Hst).
  exists s', rng', states', (p :: more). rewrite <- app_assoc in E. split_and!; [exact E | | by constructor |].
  - cbn [fmap list_fmap pro_request_id p]. f_equal. rewrite Hids. apply list_filter_iff. intros i.
    unfold mp_known. rewrite !bool_decide_eq_true. destruct (decide (i = id)) as [->|Hne].
    + rewrite lookup_insert_eq, Est. split; eauto.
    + by rewrite lookup_insert_ne.
  - intros i. rewrite Hst. unfold reported. cbn [mbind list_bind pro_request_id pro_token_ids p].
    destruct (decide (i = id)) as [->|Hne].
    + rewrite lookup_insert_eq, Est, bool_decide_eq_true_2 by done. cbn. f_equal. unfold mp_generate, mp_push. cbn.
      by rewrite <- app_assoc.
    + by rewrite lookup_insert_ne, bool_decide_eq_false_2.
Qed.

(** A step of the executor, once it is initialized with a rank at least: one token
    for each scheduled request it knows, in the order of the lists, each added to the
    request's tokens; nothing else changes. *)
Theorem multiproc_step (x : MultiProcExecutor) out
    (Hinit : mp_initialized x = true) (Hrank : mp_samplers x ≠ []) :
  ∃ outs x', execute_model Value x out = Some (Ok (mkExecutorOutput outs), x')
    ∧ pro_request_id <$> outs = filter (λ id, mp_known (mp_request_states x) id = true) (mp_scheduled out)
    ∧ Forall (λ p, length (pro_token_ids p) = 1 ∧ length (pro_logprobs p) = 1) outs
    ∧ (∀ id, mp_request_states x' !! id = (λ st, mp_generate st (reported outs id)) <$> mp_request_states x !! id)
    ∧ mp_initialized x' = true ∧ length (mp_samplers x') = length (mp_samplers x).
Proof.
  cbn [execute_model multiproc_executor]. unfold multiproc_execute. rewrite Hinit. cbn [negb].
  destruct (Nat.eqb_spec (num_scheduled out) 0) as [E|_].
  { exists [], x. unfold num_scheduled in E. unfold mp_scheduled.
    destruct (scheduled_new out), (scheduled_cached out), (scheduled_running out); cbn in E; try lia.
    split_and!; try done. intros id. destruct (_ !! id); [cbn; by rewrite mp_generate_nil | done]. }
  destruct (mp_samplers x) as [|s ss]; [done |]. cbn [lookup list_lookup mbind option_bind].
  destruct (mp_loop_spec (mp_eos_token_id x) (mp_scheduled out) s (mp_thread_rng x) (mp_request_states x) [])
    as (s' & rng' & states' & more & -> & Hids & Hone & Hst).
  do 2 eexists. split; [reflexivity |]. by split_and!.
Qed.
End multiproc.

(** A rank at least is needed: with none, initialization is happy and the first step
    panics. *)
Example no_rank_panics :
  let r := multiproc_initialize (multiproc_new (Value := unit) (R := unit) 0 tt) [] in
  r.1 = Ok 0 ∧ multiproc_execute (λ x, x) (λ x, x) (λ u, (F32.zero, u)) (λ u, (F32.zero, u)) r.2
    (mkOutput [1%N] [] [] ∅ ∅ 1 [] [] stats_default) = None.
Proof. split; reflexivity. Qed.
