(* ===== verification/Tokenizer.v ===== *)
(** * Tokenizers and chat prompts (rllm-tokenizer/src/{tokenizer,chat_template,pool}.rs)

    Reading a tokenizer's configuration, the token ids that end a generation, chat
    templates with their fallback, and the pool the servers use.  The Hugging Face
    tokenizer is a class; the template engine (minijinja) and pretty-printed JSON are
    parameters.  Downloads and files are not modelled: a configuration is its parsed
    content. *)
From S2P Require Import Prelude F32 CoreTypes Request Json Server.
#[local] Open Scope string_scope.
#[local] Open Scope list_scope.
#[local] Open Scope nat_scope.

Class HfTokenizer (H : Type) : Type := {
  hf_encode : H → string → bool → option (list TokenId);
  hf_decode : H → list TokenId → bool → option string;
  hf_encode_batch : H → list string → bool → option (list (list TokenId));
  hf_decode_batch : H → list (list TokenId) → bool → option (list string);
  hf_token_to_id : H → string → option TokenId;
  hf_vocab_size : H → bool → nat;
  hf_to_string : H → bool → option string;
}.

(** ** The configuration file *)

Record TokenizerConfigData : Type := mkTokenizerConfig {
  td_eos_tokens : list string;
  td_bos_token : option string;
  td_pad_token : option string;
  td_chat_template : option string;
}.

Definition empty_config : TokenizerConfigData := mkTokenizerConfig [] None None None.

(** [opt.or_else(f)] *)
Definition or_else {A} (o : option A) (f : option A) : option A := match o with Some _ => o | None => f end.

Definition extract_token_value (value : Json) : option string :=
  or_else (json_str value) (json_get value "content" ≫= json_str).

Definition extract_token_fields (json : Json) (field : string) : list string :=
  match json_get json field with
  | None => []
  | Some (JArray values) => omap extract_token_value values
  | Some value => option_list (extract_token_value value)
  end.

Definition extract_token_field (json : Json) (field : string) : option string :=
  json_get json field ≫= extract_token_value.

Definition extract_chat_template (json : Json) : option string :=
  v ← json_get json "chat_template";
  match v with
  | JString s => Some s
  | JObject _ => json_get v "default" ≫= json_str
  | _ => None
  end.

(** [content]: the parsed file, [None] when it does not exist. *)
Definition load_config_from_dir (content : option Json) : TokenizerConfigData :=
  match content with
  | None => empty_config
  | Some json =>
      mkTokenizerConfig (extract_token_fields json "eos_token") (extract_token_field json "bos_token")
        (extract_token_field json "pad_token") (extract_chat_template json)
  end.

(** ** The tokenizer *)

Section tokenizer.
Context {H : Type} `{!HfTokenizer H}.

Record Tokenizer : Type := mkLoaded {
  tz_inner : H;
  tz_eos_token_id : option TokenId;
  tz_stop_token_ids : list TokenId;
  tz_bos_token_id : option TokenId;
  tz_pad_token_id : option TokenId;
  tz_chat_template : option string;
}.

(** [iter.find_map(f)] *)
Fixpoint find_map {A B} (f : A → option B) (l : list A) : option B :=
  match l with [] => None | x :: l => or_else (f x) (find_map f l) end.

Definition stop_defaults : list string := ["</s>"; "<|end_of_text|>"; "<|eom_id|>"; "<|eot_id|>"].

(** The loop that collects the stop ids. *)
Fixpoint collect_stops (inner : H) (tokens : list string) (acc : list TokenId) : list TokenId :=
  match tokens with
  | [] => acc
  | t :: tokens =>
      collect_stops inner tokens
        (match hf_token_to_id inner t with
         | Some id => if bool_decide (id ∈ acc) then acc else acc ++ [id]
         | None => acc
         end)
  end.

Definition build_eos (inner : H) (eos_tokens : list string) : option TokenId :=
  or_else (or_else (or_else (find_map (hf_token_to_id inner) eos_tokens) (hf_token_to_id inner "</s>"))
    (hf_token_to_id inner "<|end_of_text|>")) (hf_token_to_id inner "<|eot_id|>").

Definition build (inner : H) (config : TokenizerConfigData) : Tokenizer :=
  let eos_token_id := build_eos inner (td_eos_tokens config) in
  let stop_token_ids := collect_stops inner (td_eos_tokens config ++ stop_defaults) [] in
  let stop_token_ids := match eos_token_id with
                        | Some eos => if bool_decide (eos ∈ stop_token_ids) then stop_token_ids else eos :: stop_token_ids
                        | None => stop_token_ids
                        end in
  mkLoaded inner eos_token_id stop_token_ids
    (or_else (or_else (td_bos_token config ≫= hf_token_to_id inner) (hf_token_to_id inner "<s>"))
       (hf_token_to_id inner "<|begin_of_text|>"))
    (td_pad_token config ≫= hf_token_to_id inner) (td_chat_template config).

Definition tz_encode (t : Tokenizer) (text : string) (add_special_tokens : bool) : option (list TokenId) :=
  hf_encode (tz_inner t) text add_special_tokens.
Definition tz_decode (t : Tokenizer) (ids : list TokenId) (skip_special_tokens : bool) : option string :=
  hf_decode (tz_inner t) ids skip_special_tokens.
Definition tz_decode_single_token (t : Tokenizer) (id : TokenId) : string :=
  default "" (hf_decode (tz_inner t) [id] false).
Definition tz_batch_encode (t : Tokenizer) (texts : list string) (add_special_tokens : bool) : option (list (list TokenId)) :=
  hf_encode_batch (tz_inner t) texts add_special_tokens.
Definition tz_batch_decode (t : Tokenizer) (batch : list (list TokenId)) (skip_special_tokens : bool) : option (list string) :=
  hf_decode_batch (tz_inner t) batch skip_special_tokens.
Definition tz_vocab_size (t : Tokenizer) : nat := hf_vocab_size (tz_inner t) true.
Definition tz_backend_json (t : Tokenizer) : option string := hf_to_string (tz_inner t) false.
Definition is_eos_token (t : Tokenizer) (id : TokenId) : bool := bool_decide (tz_eos_token_id t = Some id).
Definition clone_if_possible (t : Tokenizer) : option Tokenizer := Some t.

(** ** Chat templates *)

Record TemplateContext : Type := mkTemplateContext {
  tc_messages : list Json;
  tc_tools : option (list Json);
  tc_tool_choice : option Json;
  tc_parallel_tool_calls : bool;
  tc_add_generation_prompt : bool;
  tc_bos_token : string;
  tc_eos_token : string;
}.

(** Adding and rendering a template; [None] when it does not parse or render. *)
Context (minijinja : string → TemplateContext → option string) (to_string_pretty : list Json → string).

(** [serde_json::to_value] of a message: keys in the order of the map. *)
Definition message_value (m : ChatMessage) : Json :=
  JObject [("content", JString (content m)); ("role", JString (role m))].

Definition render_chat_template_with_tools (template : string) (messages : list Json) (tools : option (list Json))
    (tool_choice : option Json) (parallel_tool_calls add_generation_prompt : bool) : option string :=
  minijinja template (mkTemplateContext messages tools tool_choice parallel_tool_calls add_generation_prompt "" "").

Definition render_chat_template (template : string) (messages : list ChatMessage) (add_generation_prompt : bool) : option string :=
  render_chat_template_with_tools template (message_value <$> messages) None None true add_generation_prompt.

Definition newline : string := String (Ascii.ascii_of_nat 10) "".

(** One message of the fallback prompt. *)
Definition fallback_message (role content : string) : string :=
  "<|" +:+ role +:+ "|>" +:+ newline +:+ content +:+ newline.

Definition generation_prompt (add : bool) (output : string) : string :=
  if add then output +:+ "<|assistant|>" +:+ newline else output.

Definition render_chat_template_fallback_with_tools (messages : list Json) (tools : option (list Json))
    (add_generation_prompt : bool) : option string :=
  let output := match tools with
                | Some tools =>
                    "<|system|>" +:+ newline +:+ "You have access to the following functions. "
                    +:+ "When a function is needed, respond with a JSON object containing its name and arguments." +:+ newline
                    +:+ to_string_pretty tools +:+ newline
                | None => ""
                end in
  let output := foldl (λ output message,
    output +:+ fallback_message (default "user" (json_get message "role" ≫= json_str))
                 (default "" (json_get message "content" ≫= json_str))) output messages in
  Some (generation_prompt add_generation_prompt output).

Definition render_chat_template_fallback (messages : list ChatMessage) (add_generation_prompt : bool) : string :=
  generation_prompt add_generation_prompt
    (foldl (λ output m, output +:+ fallback_message (role m) (content m)) "" messages).

(** ** The pool *)

Record PoolInner : Type := mkPool { pl_tokenizers : list Tokenizer; pl_index : nat }.

Definition pool_new (t : Tokenizer) (pool_size : nat) : PoolInner :=
  mkPool (default [t] (mapM (λ _, clone_if_possible t) (seq 0 pool_size))) 0.

(** [pool.index = (pool.index + 1) % pool.tokenizers.len()] and the call of the
    tokenizer there, under the lock; [None] is a panic. *)
Definition pool_call {A} (f : Tokenizer → option A) (p : PoolInner) : option (option A * PoolInner) :=
  match pl_tokenizers p with
  | [] => None
  | ts =>
      let i := (pl_index p + 1) mod length ts in
      t ← ts !! i;
      Some (f t, mkPool ts i)
  end.

Definition pool_encode (text : string) (add_special_tokens : bool) : PoolInner → option (option (list TokenId) * PoolInner) :=
  pool_call (λ t, tz_encode t text add_special_tokens).
Definition pool_decode (ids : list TokenId) (skip_special_tokens : bool) : PoolInner → option (option string * PoolInner) :=
  pool_call (λ t, tz_decode t ids skip_special_tokens).
Definition pool_batch_encode (texts : list string) (add_special_tokens : bool) :
    PoolInner → option (option (list (list TokenId)) * PoolInner) :=
  pool_call (λ t, tz_batch_encode t texts add_special_tokens).

Definition render_with (t : Tokenizer) (messages : list ChatMessage) (add_generation_prompt : bool) : option string :=
  match tz_chat_template t with
  | Some template => render_chat_template template messages add_generation_prompt
  | None => Some (render_chat_template_fallback messages add_generation_prompt)
  end.

Definition pool_render_chat (messages : list ChatMessage) (add_generation_prompt : bool) (p : PoolInner) :
    option (option string * PoolInner) :=
  t ← pl_tokenizers p !! 0; Some (render_with t messages add_generation_prompt, p).

Definition render_tools_with (t : Tokenizer) (messages : list Json) (tools : option (list Json)) (tool_choice : option Json)
    (parallel_tool_calls add_generation_prompt : bool) : option string :=
  match tz_chat_template t with
  | Some template =>
      render_chat_template_with_tools template messages tools tool_choice parallel_tool_calls add_generation_prompt
  | None => render_chat_template_fallback_with_tools messages tools add_generation_prompt
  end.

Definition pool_render_chat_with_tools (messages : list Json) (tools : option (list Json)) (tool_choice : option Json)
    (parallel_tool_calls add_generation_prompt : bool) (p : PoolInner) : option (option string * PoolInner) :=
  t ← pl_tokenizers p !! 0;
  Some (render_tools_with t messages tools tool_choice parallel_tool_calls add_generation_prompt, p).

(** ** The ids that end a generation *)

Lemma find_map_Some {A B} (f : A → option B) l b : find_map f l = Some b → ∃ x, x ∈ l ∧ f x = Some b.
Proof.
  clear minijinja to_string_pretty.
  induction l as [|x l IH]; cbn [find_map]; [done |]. unfold or_else. destruct (f x) eqn:E.
  - intros [= ->]. exists x. split; [by left | done].
  - intros (y & Hy & E')%IH. exists y. split; [by right | done].
Qed.

Lemma collect_stops_spec inner tokens : ∀ acc, NoDup acc →
  NoDup (collect_stops inner tokens acc)
  ∧ ∀ id, id ∈ collect_stops inner tokens acc ↔ id ∈ acc ∨ ∃ t, t ∈ tokens ∧ hf_token_to_id inner t = Some id.
Proof.
  clear minijinja to_string_pretty.
  induction tokens as [|t tokens IH]; intros acc Hnd; cbn [collect_stops].
  { split; [done |]. intros id. set_solver. }
  set (acc' := match hf_token_to_id inner t with Some _ => _ | None => _ end).
  assert (Hacc : NoDup acc' ∧ ∀ id, id ∈ acc' ↔ id ∈ acc ∨ hf_token_to_id inner t = Some id).
  { unfold acc'. destruct (hf_token_to_id inner t) as [id|]; [| split; [done |]; naive_solver].
    case_bool_decide as Hin.
    - split; [done |]. intros j. split; [by left | intros [|[= ->]]; done].
    - split; [apply NoDup_app; split_and!; [done | set_solver | apply NoDup_singleton] |].
      intros j. rewrite elem_of_app, list_elem_of_singleton. naive_solver. }
  destruct (IH acc' (proj1 Hacc)) as [H1 H2]. split; [exact H1 |]. intros id. rewrite H2, (proj2 Hacc). set_solver.
Qed.

Lemma build_eos_in inner tokens id : build_eos inner tokens = Some id →
  ∃ t, t ∈ tokens ++ stop_defaults ∧ hf_token_to_id inner t = Some id.
Proof.
  clear minijinja to_string_pretty.
  unfold build_eos, or_else. intros E.
  destruct (find_map (hf_token_to_id inner) tokens) eqn:E0.
  { injection E as ->. apply find_map_Some in E0 as (t & Ht & Ht'). exists t. split; [set_solver | done]. }
  unfold stop_defaults.
  destruct (hf_token_to_id inner "</s>") eqn:E1; [injection E as ->; exists "</s>"; split; [set_solver | done] |].
  destruct (hf_token_to_id inner "<|end_of_text|>") eqn:E2; [injection E as ->; exists "<|end_of_text|>"; split; [set_solver | done] |].
  exists "<|eot_id|>". split; [set_solver | done].
Qed.

(** The stop ids of a tokenizer are, without repetition, the ids of the configured
    end tokens and of the usual ones that the tokenizer knows; the end-of-sequence id
    is among them, so it is never added at the front. *)
Theorem stop_ids_exact (inner : H) (config : TokenizerConfigData) :
  NoDup (tz_stop_token_ids (build inner config))
  ∧ (∀ id, id ∈ tz_stop_token_ids (build inner config)
       ↔ ∃ t, t ∈ td_eos_tokens config ++ stop_defaults ∧ hf_token_to_id inner t = Some id)
  ∧ (∀ id, tz_eos_token_id (build inner config) = Some id → id ∈ tz_stop_token_ids (build inner config)).
Proof.
  clear minijinja to_string_pretty.
  unfold build. cbn [tz_stop_token_ids tz_eos_token_id]. set (tokens := td_eos_tokens config ++ stop_defaults).
  destruct (collect_stops_spec inner tokens [] ltac:(constructor)) as [Hnd Hin].
  assert (Hin' : ∀ id, id ∈ collect_stops inner tokens [] ↔ ∃ t, t ∈ tokens ∧ hf_token_to_id inner t = Some id).
  { intros id. rewrite Hin. split; [intros [[]%not_elem_of_nil|]; done | by right]. }
  assert (Hkeep : match build_eos inner (td_eos_tokens config) with
    | Some eos => if bool_decide (eos ∈ collect_stops inner tokens []) then collect_stops inner tokens [] else eos :: collect_stops inner tokens []
    | None => collect_stops inner tokens [] end = collect_stops inner tokens []).
  { destruct (build_eos inner _) as [eos|] eqn:E; [| done]. rewrite bool_decide_eq_true_2; [done |].
    apply Hin'. by apply build_eos_in. }
  rewrite Hkeep. split_and!; [done | done |]. intros id E. apply Hin'. by apply build_eos_in.
Qed.

(** ** The pool answers as its tokenizer *)

Lemma fallback_fold messages : ∀ output,
  foldl (λ output message,
    output +:+ fallback_message (default "user" (json_get message "role" ≫= json_str))
                 (default "" (json_get message "content" ≫= json_str))) output (message_value <$> messages)
  = foldl (λ output m, output +:+ fallback_message (role m) (content m)) output messages.
Proof. induction messages as [|m messages IH]; intros output; [done |]. cbn [fmap list_fmap foldl]. by rewrite IH. Qed.

Lemma render_agrees t messages add :
  render_tools_with t (message_value <$> messages) None None true add = render_with t messages add.
Proof.
  unfold render_tools_with, render_with. destruct (tz_chat_template t); [done |].
  unfold render_chat_template_fallback_with_tools, render_chat_template_fallback. by rewrite fallback_fold.
Qed.

(** A pool that holds copies of one tokenizer. *)
Definition pool_of (t : Tokenizer) (p : PoolInner) : Prop :=
  pl_tokenizers p ≠ [] ∧ Forall (eq t) (pl_tokenizers p).

Lemma pool_new_of t n : 0 < n → pool_of t (pool_new t n).
Proof.
  clear minijinja to_string_pretty.
  intros Hn. unfold pool_of, pool_new. cbn [pl_tokenizers].
  assert (E : ∀ l : list nat, mapM (λ _, clone_if_possible t) l = Some (replicate (length l) t)).
  { induction l as [|x l IH]; [done |]. cbn. cbn in IH. by rewrite IH. }
  rewrite E, length_seq. cbn [default]. split; [by destruct n; [lia |] |].
  apply Forall_forall. intros x Hx. by apply elem_of_replicate in Hx as [-> _].
Qed.

Lemma pool_call_of {A} (f : Tokenizer → option A) t p : pool_of t p →
  ∃ p', pool_call f p = Some (f t, p') ∧ pool_of t p'.
Proof.
  clear minijinja to_string_pretty.
  intros [Hne Hall]. unfold pool_call. destruct (pl_tokenizers p) as [|t0 ts] eqn:E; [done |].
  set (i := (pl_index p + 1) mod length (t0 :: ts)).
  assert (Hi : i < length (t0 :: ts)) by (apply Nat.mod_upper_bound; done).
  destruct (lookup_lt_is_Some_2 _ _ Hi) as [x Hx]. rewrite Hx. cbn [mbind option_bind].
  rewrite Forall_lookup in Hall. rewrite <- (Hall _ _ Hx). eexists. split; [reflexivity |].
  split; [done |]. cbn [pl_tokenizers]. by apply Forall_lookup.
Qed.

Lemma pool_first t p : pool_of t p → pl_tokenizers p !! 0 = Some t.
Proof.
  clear minijinja to_string_pretty. intros [Hne Hall]. destruct (pl_tokenizers p); [done |]. by inversion Hall; subst. Qed.

(** The requests of a pool, in the order they take the lock. *)
Inductive PoolOp : Type :=
  | P_Encode (text : string) (add_special_tokens : bool)
  | P_Decode (ids : list TokenId) (skip_special_tokens : bool)
  | P_BatchEncode (texts : list string) (add_special_tokens : bool)
  | P_Render (messages : list ChatMessage) (add_generation_prompt : bool)
  | P_RenderTools (messages : list Json) (tools : option (list Json)) (tool_choice : option Json)
      (parallel_tool_calls add_generation_prompt : bool).

Inductive PoolAnswer : Type :=
  | A_Ids (r : option (list TokenId))
  | A_Text (r : option string)
  | A_Batch (r : option (list (list TokenId))).

Definition pool_step (p : PoolInner) (op : PoolOp) : option (PoolAnswer * PoolInner) :=
  match op with
  | P_Encode text add => '(r, p) ← pool_encode text add p; Some (A_Ids r, p)
  | P_Decode ids skip => '(r, p) ← pool_decode ids skip p; Some (A_Text r, p)
  | P_BatchEncode texts add => '(r, p) ← pool_batch_encode texts add p; Some (A_Batch r, p)
  | P_Render ms add => '(r, p) ← pool_render_chat ms add p; Some (A_Text r, p)
  | P_RenderTools ms tools choice par add =>
      '(r, p) ← pool_render_chat_with_tools ms tools choice par add p; Some (A_Text r, p)
  end.

Definition pool_run (p : PoolInner) (ops : list PoolOp) : option (list PoolAnswer * PoolInner) :=
  foldl (λ acc op, '(answers, p) ← acc; '(a, p) ← pool_step p op; Some (answers ++ [a], p)) (Some ([], p)) ops.

(** What the one tokenizer answers. *)
Definition answer (t : Tokenizer) (op : PoolOp) : PoolAnswer :=
  match op with
  | P_Encode text add => A_Ids (tz_encode t text add)
  | P_Decode ids skip => A_Text (tz_decode t ids skip)
  | P_BatchEncode texts add => A_Batch (tz_batch_encode t texts add)
  | P_Render ms add => A_Text (render_with t ms add)
  | P_RenderTools ms tools choice par add => A_Text (render_tools_with t ms tools choice par add)
  end.

Lemma pool_step_of t p op : pool_of t p → ∃ p', pool_step p op = Some (answer t op, p') ∧ pool_of t p'.
Proof.
  intros Hp. destruct op; cbn [pool_step answer].
  - destruct (pool_call_of (λ t, tz_encode t text add_special_tokens) t p Hp) as (p' & E & Hp').
    unfold pool_encode. rewrite E. by exists p'.
  - destruct (pool_call_of (λ t, tz_decode t ids skip_special_tokens) t p Hp) as (p' & E & Hp').
    unfold pool_decode. rewrite E. by exists p'.
  - destruct (pool_call_of (λ t, tz_batch_encode t texts add_special_tokens) t p Hp) as (p' & E & Hp').
    unfold pool_batch_encode. rewrite E. by exists p'.
  - unfold pool_render_chat. rewrite (pool_first t p Hp). by exists p.
  - unfold pool_render_chat_with_tools. rewrite (pool_first t p Hp). by exists p.
Qed.

Lemma pool_run_of t ops : ∀ p acc, pool_of t p →
  ∃ p', foldl (λ acc op, '(answers, p) ← acc; '(a, p) ← pool_step p op; Some (answers ++ [a], p)) (Some (acc, p)) ops
        = Some (acc ++ (answer t <$> ops), p') ∧ pool_of t p'.
Proof.
  induction ops as [|op ops IH]; intros p acc Hp; cbn [foldl fmap list_fmap].
  { exists p. by rewrite app_nil_r. }
  destruct (pool_step_of t p op Hp) as (p1 & E & Hp1). cbn [mbind option_bind]. rewrite E. cbn [mbind option_bind].
  destruct (IH p1 (acc ++ [answer t op]) Hp1) as (p' & E' & Hp'). exists p'. split; [| done].
  by rewrite E', <- app_assoc.
Qed.

(** A pool of one tokenizer or more answers every sequence of calls, whichever of its
    copies serves each, as the one tokenizer would; plain chat prompts are those with
    tools without any. *)
Theorem pool_transparent t n ops (Hn : 0 < n) :
  (∃ p', pool_run (pool_new t n) ops = Some (answer t <$> ops, p'))
  ∧ ∀ ms add, answer t (P_RenderTools (message_value <$> ms) None None true add) = answer t (P_Render ms add).
Proof.
  split.
  - destruct (pool_run_of t ops (pool_new t n) [] (pool_new_of t n Hn)) as (p' & E & _). by exists p'.
  - intros ms add. cbn [answer]. by rewrite render_agrees.
Qed.

(** The pool as the servers see it. *)
Definition server_tokenizer (t : Tokenizer) : Server.Tokenizer :=
  Server.mkTokenizer (λ ms tools choice par add, render_tools_with t ms tools choice par add) (tz_encode t) (tz_decode t).
End tokenizer.

(** A pool without tokenizers panics at its first call. *)
Example empty_pool_panics {H} `{!HfTokenizer H} (t : Tokenizer (H := H)) text :
  pool_encode text true (pool_new t 0) = None.
Proof. reflexivity. Qed.

(** ** A tokenizer of two words *)

#[local] Instance toy_hf : HfTokenizer unit := {
  hf_encode _ s _ := Some (if String.eqb s "hi" then [0%N] else [1%N]);
  hf_decode _ ids _ := Some (String.concat " " ((λ i, if (i =? 0)%N then "hi" else "</s>") <$> ids));
  hf_encode_batch _ ss _ := Some ((λ s, if String.eqb s "hi" then [0%N] else [1%N]) <$> ss);
  hf_decode_batch _ l _ := Some ((λ _, "") <$> l);
  hf_token_to_id _ s := if String.eqb s "hi" then Some 0%N else if String.eqb s "</s>" then Some 1%N else None;
  hf_vocab_size _ _ := 2;
  hf_to_string _ _ := Some "";
}.

Definition toy_loaded : Tokenizer (H := unit) :=
  build tt (load_config_from_dir (Some (JObject [("eos_token", JArray [JObject [("content", JString "hi")]; JString "gone"])]))).

Example toy_ids : tz_eos_token_id toy_loaded = Some 0%N ∧ tz_stop_token_ids toy_loaded = [0; 1]%N.
Proof. split; reflexivity. Qed.

Lemma pool_transparent_witness :
  0 < 4 ∧ ∃ p', pool_run (λ _ _, None) (λ _, "") (pool_new toy_loaded 4) [P_Encode "hi" true; P_Decode [0; 1]%N true; P_Render [] true]
    = Some ([A_Ids (Some [0%N]); A_Text (Some "hi </s>"); A_Text (Some ("<|assistant|>" +:+ newline))], p').
Proof.
  split; [lia |].
  exact (proj1 (pool_transparent (λ _ _, None) (λ _, "") toy_loaded 4
    [P_Encode "hi" true; P_Decode [0; 1]%N true; P_Render [] true] ltac:(lia))).
Defined.
