(* ===== verification/Loader.v ===== *)
(** * Weight files (rllm-model/src/{loader,gguf_loader}.rs)

    Which files of a model directory or of a repository listing are read, how their
    tensors become the weight map the models load from, and the names and the
    configuration of GGUF files.  The parsers of the formats are libraries: a shard is
    its list of views, a GGUF file its metadata and tensors.  Downloads, tokens and
    progress output are not modelled. *)
From Stdlib Require Import Ascii.
From stdpp Require Import pretty.
From S2P Require Import Prelude F32 CoreTypes Json Tensors Mxfp Int8 Sorting NdTensor QuantMethod QwenConfig.
#[local] Open Scope string_scope.
#[local] Open Scope list_scope.
#[local] Open Scope nat_scope.
#[local] Open Scope rllm_scope.

(** ** Strings and paths *)

(** [s.split(c)] *)
Fixpoint split (c : ascii) (s : string) : list string :=
  match s with
  | EmptyString => [""]
  | String a s =>
      if bool_decide (a = c) then "" :: split c s
      else match split c s with
           | [] => [String a ""]
           | part :: parts => String a part :: parts
           end
  end.

(** [parts.join(sep)] for a separator of one character. *)
Fixpoint join_with (c : ascii) (parts : list string) : string :=
  match parts with
  | [] => ""
  | [p] => p
  | p :: parts => p +:+ String c (join_with c parts)
  end.

(** [std::path::Component], on Unix. *)
Inductive Component : Type :=
  | RootDir
  | CurDir
  | ParentDir
  | Normal (name : string).

#[global] Instance component_eq_dec : EqDecision Component.
Proof. solve_decision. Defined.

(** One part after the first: empty parts and [.] are skipped. *)
Definition part_component (p : string) : list Component :=
  if String.eqb p "" || String.eqb p "." then []
  else if String.eqb p ".." then [ParentDir] else [Normal p].

(** [Path::components]: a leading [.] is kept. *)
Definition components (path : string) : list Component :=
  match split "/" path with
  | [] => []
  | first :: parts =>
      (if String.eqb first "" then if String.eqb path "" then [] else [RootDir]
       else if String.eqb first "." then [CurDir] else part_component first)
      ++ (parts ≫= part_component)
  end.

(** [Path::join] of a relative path. *)
Definition join_path (dir f : string) : string :=
  if String.eqb dir "" || str_ends_with dir "/" then dir +:+ f else dir +:+ String "/" f.

(** ** The shards of a directory *)

(** The element types that the loader tells apart: those of a view, and candle's. *)
Inductive SafeDType : Type :=
  | S_I8 | S_U8 | S_U16 | S_U32 | S_I16 | S_I32 | S_I64 | S_BF16 | S_F16 | S_F32 | S_F64
  | S_F8_E4M3 | S_F6_E2M3 | S_F6_E3M2 | S_F4 | S_F8_E8M0 | S_Other.
Inductive CandleDType : Type :=
  | C_U8 | C_U32 | C_I16 | C_I32 | C_I64 | C_BF16 | C_F16 | C_F32 | C_F64
  | C_F8E4M3 | C_F6E2M3 | C_F6E3M2 | C_F4 | C_F8E8M0.

#[global] Instance safe_dtype_eq_dec : EqDecision SafeDType.
Proof. solve_decision. Defined.

Definition candle_dtype (d : SafeDType) : option CandleDType :=
  match d with
  | S_U8 => Some C_U8 | S_U32 => Some C_U32 | S_I16 => Some C_I16 | S_I32 => Some C_I32 | S_I64 => Some C_I64
  | S_BF16 => Some C_BF16 | S_F16 => Some C_F16 | S_F32 => Some C_F32 | S_F64 => Some C_F64
  | S_F8_E4M3 => Some C_F8E4M3 | S_F6_E2M3 => Some C_F6E2M3 | S_F6_E3M2 => Some C_F6E3M2 | S_F4 => Some C_F4
  | S_F8_E8M0 => Some C_F8E8M0
  | S_I8 | S_U16 | S_Other => None
  end.

Record SafeView : Type := mkView {
  sv_name : string;
  sv_dtype : SafeDType;
  sv_shape : list nat;
  sv_data : list N;
}.

(** What the loader sees of a directory; a file that cannot be read or parsed is
    [None], as is a directory entry. *)
Record ModelDir : Type := mkDir {
  md_path : string;
  md_is_dir : bool;
  md_exists : string → bool;
  md_entries : option (list (option string));
  md_index : option Json;
  md_config : option Json;
  md_shard : string → option (list SafeView);
}.

Inductive LoadError : Type :=
  | LE_NoDir
  | LE_NoFiles
  | LE_Index
  | LE_Traversal (f : string)
  | LE_ShardMissing (f : string)
  | LE_Config
  | LE_Shard (f : string)
  | LE_Int8 (name : string) (e : QError)
  | LE_Tensor (name msg : string).

(** The files named by the index: [weight_map] is an object of strings. *)
Definition index_files (v : Json) : option (list string) :=
  _ ← json_object v;
  w ← json_get v "weight_map";
  entries ← json_object w;
  mapM (λ e : string * Json, json_str e.2) entries.

Definition has_traversal (f : string) : bool :=
  existsb (λ c, match c with Normal _ | CurDir => false | _ => true end) (components f).

(** Without duplicates, sorted. *)
Definition sorted_files (fs : list string) : list string :=
  sort_by String.leb (elements (list_to_set fs : gset string)).

Definition shard_path (dir f : string) : result string LoadError :=
  require negb (has_traversal f) else LE_Traversal f;
  Ok (join_path dir f).

(** [dir != Path::new(".")] compares the components of the two paths. *)
Definition load_shard_index (index : option Json) (dir : string) (exists_at : string → bool) : result (list string) LoadError :=
  match index ≫= index_files with
  | None => Err LE_Index
  | Some files =>
      paths <-? try_map (shard_path dir) (sorted_files files);
      match List.find (λ p, negb (bool_decide (components dir = components ".")) && negb (exists_at p)) paths with
      | Some p => Err (LE_ShardMissing p)
      | None => Ok paths
      end
  end.

(** [format!("{index:05}")] *)
Definition pad5 (i : nat) : string :=
  let s := pretty (N.of_nat i) in
  String.concat "" (replicate (5 - String.length s) "0") +:+ s.

(** The first entry of a shard's name; an entry that cannot be read ends the search. *)
Fixpoint find_entry (prefix : string) (entries : list (option string)) : option string :=
  match entries with
  | [] => None
  | None :: _ => None
  | Some name :: entries =>
      if String.prefix prefix name && str_ends_with name ".safetensors" then Some name else find_entry prefix entries
  end.

Definition find_shard_by_index (d : ModelDir) (index : nat) : option string :=
  entries ← md_entries d;
  name ← find_entry ("model-" +:+ pad5 index +:+ "-of-") entries;
  Some (join_path (md_path d) name).

(** The shards from index [i] on, until one is missing. *)
Fixpoint numbered_shards (d : ModelDir) (i n : nat) : list string :=
  match n with
  | 0 => []
  | S n => match find_shard_by_index d i with
           | Some p => p :: numbered_shards d (S i) n
           | None => []
           end
  end.

Definition max_shards : nat := N.to_nat 1000.

Definition find_safetensor_shards (d : ModelDir) : result (list string) LoadError :=
  require md_is_dir d else LE_NoDir;
  if md_exists d (join_path (md_path d) "model.safetensors.index.json") then
    load_shard_index (md_index d) (md_path d) (md_exists d)
  else
    let single := join_path (md_path d) "model.safetensors" in
    if md_exists d single then Ok [single]
    else match numbered_shards d 0 max_shards with
         | [] => Err LE_NoFiles
         | shards => Ok shards
         end.

(** ** From files to the weight map *)

(** [chunks_exact(2)] read as little-endian [u16]s. *)
Fixpoint u16_le (data : list N) : list N :=
  match data with
  | a :: b :: data => (a + 256 * b)%N :: u16_le data
  | _ => []
  end.

Section weights.
Context {T G : Type} `{!NdOps T}.
Context (from_raw_buffer : list N → CandleDType → list nat → result T TensorError).

Definition load_non_i8_view (v : SafeView) : result T TensorError :=
  match sv_dtype v with
  | S_U16 => n_from_u32 (u16_le (sv_data v)) (sv_shape v)
  | d => match candle_dtype d with
         | Some d => from_raw_buffer (sv_data v) d (sv_shape v)
         | None => Err "unsupported SafeTensors dtype"
         end
  end.

(** The maps of a shard. *)
Fixpoint load_views (views : list SafeView) (acc : gmap string T * gmap string QuantTensor) :
    result (gmap string T * gmap string QuantTensor) LoadError :=
  match views with
  | [] => Ok acc
  | v :: views =>
      let name := sv_name v in
      if bool_decide (sv_dtype v = S_I8) then
        match from_i8_bytes (sv_data v) (sv_shape v) with
        | Ok q => load_views views (acc.1, <[name := q]> acc.2)
        | Err e => Err (LE_Int8 name e)
        end
      else
        match load_non_i8_view v with
        | Ok t => load_views views (<[name := t]> acc.1, acc.2)
        | Err e => Err (LE_Tensor name e)
        end
  end.

Definition load_safetensors_shard (d : ModelDir) (path : string) : result (gmap string T * gmap string QuantTensor) LoadError :=
  match md_shard d path with
  | None => Err (LE_Shard path)
  | Some views => load_views views (∅, ∅)
  end.

(** [weights.extend(shard_weights)]: the later tensor of a name stays. *)
Fixpoint load_shards (d : ModelDir) (paths : list string) (acc : gmap string T * gmap string QuantTensor) :
    result (gmap string T * gmap string QuantTensor) LoadError :=
  match paths with
  | [] => Ok acc
  | p :: paths =>
      shard <-? load_safetensors_shard d p;
      load_shards d paths (shard.1 ∪ acc.1, shard.2 ∪ acc.2)
  end.

Record WeightMap : Type := mkWeightMap {
  wm_weights : gmap string T;
  wm_quantized : gmap string QuantTensor;
  wm_gguf_weights : gmap string G;
  wm_quant_schema : option QuantSchema;
}.

Definition wm_is_empty (w : WeightMap) : bool :=
  bool_decide (wm_weights w = ∅) && bool_decide (wm_quantized w = ∅) && bool_decide (wm_gguf_weights w = ∅).

Definition unconsumed_names (w : WeightMap) : list string :=
  sort_by String.leb ((map_to_list (wm_weights w)).*1 ++ (map_to_list (wm_quantized w)).*1 ++ (map_to_list (wm_gguf_weights w)).*1).

(** What the models take their tensors from. *)
Definition weight_source (w : WeightMap) : WeightSource (T := T) (G := G) :=
  mkWeightSource (wm_weights w) (wm_quantized w) (Some (wm_gguf_weights w)).

(** [config.json] is read when it exists; it must then be readable. *)
Definition load_checkpoint_quant_schema (d : ModelDir) : result (option QuantSchema) LoadError :=
  if md_exists d (join_path (md_path d) "config.json") then
    match md_config d with
    | None => Err LE_Config
    | Some v => Ok (from_hf_value <$> json_get v "quantization_config")
    end
  else Ok None.

Definition load_weights_from_dir (d : ModelDir) : result WeightMap LoadError :=
  paths <-? find_safetensor_shards d;
  schema <-? load_checkpoint_quant_schema d;
  maps <-? load_shards d paths (∅, ∅);
  Ok (mkWeightMap maps.1 maps.2 ∅ schema).

Definition load_weights_with_tied_detection (d : ModelDir) : result (WeightMap * bool) LoadError :=
  w <-? load_weights_from_dir d;
  let has name := bool_decide (is_Some (wm_weights w !! name)) || bool_decide (is_Some (wm_gguf_weights w !! name)) in
  Ok (w, negb (has "lm_head.weight") && has "model.embed_tokens.weight").

(** Half-precision tensors become [f32]; how many did. *)
Fixpoint promote_entries (l : list (string * T)) (w : gmap string T) (promoted : nat) : result (gmap string T * nat) TensorError :=
  match l with
  | [] => Ok (w, promoted)
  | (name, t) :: l =>
      if bool_decide (n_dtype t = T_F16 ∨ n_dtype t = T_BF16) then
        t <-? n_to_dtype t T_F32; promote_entries l (<[name := t]> w) (S promoted)
      else promote_entries l w promoted
  end.

Definition promote_cpu_weights_to_f32 (w : WeightMap) : result (WeightMap * nat) TensorError :=
  r <-? promote_entries (map_to_list (wm_weights w)) (wm_weights w) 0;
  Ok (mkWeightMap r.1 (wm_quantized w) (wm_gguf_weights w) (wm_quant_schema w), r.2).
End weights.
Arguments WeightMap : clear implicits.

(** Views with different names, all readable and none of raw bytes, become the entries
    of the map. *)
Lemma load_views_spec {T} `{!NdOps T} (from_raw_buffer : list N → CandleDType → list nat → result T TensorError) views : ∀ acc,
  NoDup (sv_name <$> views) → Forall (λ v, sv_dtype v ≠ S_I8 ∧ is_ok (load_non_i8_view from_raw_buffer v) = true) views →
  ∃ maps, load_views from_raw_buffer views acc = Ok maps ∧ maps.2 = acc.2
    ∧ (∀ v t, v ∈ views → load_non_i8_view from_raw_buffer v = Ok t → maps.1 !! sv_name v = Some t)
    ∧ (∀ n, n ∉ sv_name <$> views → maps.1 !! n = acc.1 !! n).
Proof.
  induction views as [|v views IH]; intros acc Hnd Hok; cbn [load_views fmap list_fmap].
  { exists acc. split_and!; [done | done | | done]. intros v t []%not_elem_of_nil. }
  apply NoDup_cons in Hnd as [Hn Hnd]. apply Forall_cons in Hok as [[Hd Hv] Hok]. rewrite bool_decide_eq_false_2 by done.
  destruct (load_non_i8_view from_raw_buffer v) as [t|] eqn:Et; [| done].
  destruct (IH (<[sv_name v := t]> acc.1, acc.2) Hnd Hok) as (maps & E & E2 & H1 & H2).
  exists maps. split_and!; [done | done | |].
  - intros u s Hu Hs. apply elem_of_cons in Hu as [->|Hu]; [| by apply H1].
    rewrite Et in Hs. injection Hs as <-. rewrite H2 by done. apply lookup_insert_eq.
  - intros n Hnn. apply not_elem_of_cons in Hnn as [Hne Hnn]. rewrite H2 by done. by apply lookup_insert_ne.
Qed.


(** What promotion makes of a tensor. *)
Definition promotes {T} `{!NdOps T} (t t' : T) : Prop :=
  if bool_decide (n_dtype t = T_F16 ∨ n_dtype t = T_BF16) then n_to_dtype t T_F32 = Ok t' else t' = t.

Lemma promote_entries_spec {T} `{!NdOps T} l : ∀ (w : gmap string T) k, NoDup l.*1 →
  Forall (λ e, ∃ t', promotes e.2 t') l →
  ∃ w' n, promote_entries l w k = Ok (w', n)
    ∧ (∀ name t t', (name, t) ∈ l → promotes t t' → w !! name = Some t → w' !! name = Some t')
    ∧ (∀ name, name ∉ l.*1 → w' !! name = w !! name).
Proof.
  induction l as [|[name t] l IH]; intros w k Hnd Hl; cbn [promote_entries fmap list_fmap fst].
  { exists w, k. split_and!; [done | | done]. intros ? ? ? []%not_elem_of_nil. }
  apply NoDup_cons in Hnd as [Hn Hnd]. apply Forall_cons in Hl as [[t1 Ht1] Hl]. cbn [snd] in Ht1. unfold promotes in Ht1.
  case_bool_decide as Hh.
  - rewrite Ht1. cbn [result_bind]. destruct (IH (<[name := t1]> w) (S k) Hnd Hl) as (w' & n & E & H1 & H2).
    exists w', n. split_and!; [done | |].
    + intros m u u' Hin Hu Hw. apply elem_of_cons in Hin as [[= -> ->]|Hin].
      * unfold promotes in Hu. rewrite bool_decide_eq_true_2 in Hu by done. rewrite H2, lookup_insert_eq by done. congruence.
      * apply (H1 _ _ _ Hin Hu). rewrite lookup_insert_ne; [done |]. intros <-. apply Hn, list_elem_of_fmap. by exists (name, u).
    + intros m Hm. apply not_elem_of_cons in Hm as [Hne Hm]. rewrite H2 by done. by apply lookup_insert_ne.
  - subst t1. destruct (IH w k Hnd Hl) as (w' & n & E & H1 & H2). exists w', n. split_and!; [done | |].
    + intros m u u' Hin Hu Hw. apply elem_of_cons in Hin as [[= -> ->]|Hin]; [| by apply (H1 _ _ _ Hin Hu)].
      unfold promotes in Hu. rewrite bool_decide_eq_false_2 in Hu by done. subst u'. by rewrite H2.
    + intros m Hm. apply not_elem_of_cons in Hm as [Hne Hm]. by apply H2.
Qed.

(** ** What is downloaded *)

(** [name.to_ascii_uppercase()] and [s.contains(pat)] *)
Fixpoint to_ascii_uppercase (s : string) : string :=
  match s with
  | EmptyString => EmptyString
  | String c s =>
      let n := N_of_ascii c in
      String (if ((97 <=? n) && (n <=? 122))%N then ascii_of_N (n - 32) else c) (to_ascii_uppercase s)
  end.
Definition str_contains (s pat : string) : bool := bool_decide (is_Some (String.index 0 pat s)).

Definition gguf_preferred : list string := ["Q4_K_M"; "Q4_0"; "Q5_K_M"; "Q3_K_M"; "Q6_K"; "Q8_0"; "Q2_K"].

(** The first file that has the first of the preferred kinds that any file has. *)
Fixpoint preferred_file (pats gguf : list string) : option string :=
  match pats with
  | [] => None
  | pat :: pats =>
      match List.find (λ name, str_contains (to_ascii_uppercase name) pat) gguf with
      | Some name => Some name
      | None => preferred_file pats gguf
      end
  end.

(** The files of a repository to fetch, from its listing and the index it may have. *)
Definition files_to_download (siblings : list string) (index : option Json) : result (list string) LoadError :=
  let has_file name := bool_decide (name ∈ siblings) in
  if has_file "model.safetensors.index.json" then load_shard_index index "." (λ _, true)
  else if has_file "model.safetensors" then Ok ["model.safetensors"]
  else
    match filter (λ name, str_ends_with name ".safetensors" = true) siblings with
    | [] =>
        match filter (λ name, str_ends_with name ".gguf" = true) siblings with
        | [] => Err LE_NoFiles
        | (first :: _) as gguf => Ok [default first (preferred_file gguf_preferred gguf)]
        end
    | safetensors => Ok safetensors
    end.

(** ** GGUF files *)

Section gguf.
Context {V : Type} (v_string : V → option string) (v_f32 : V → option f32) (v_u64 : V → option N) (v_array_len : V → option nat).

Inductive GgufError : Type :=
  | GE_Heads
  | GE_Architecture (arch : string).

Definition gguf_architecture (arch : string) : result string GgufError :=
  if String.eqb arch "llama" then Ok "LlamaForCausalLM"
  else if String.eqb arch "mistral" then Ok "MistralForCausalLM"
  else if String.eqb arch "qwen2" then Ok "Qwen2ForCausalLM"
  else if String.eqb arch "qwen3" then Ok "Qwen3ForCausalLM"
  else if String.eqb arch "qwen2moe" then Ok "Qwen2MoeForCausalLM"
  else if String.eqb arch "qwen3moe" then Ok "Qwen3MoeForCausalLM"
  else Err (GE_Architecture arch).

Definition parse_gguf_config (content : GgufContent (V := V)) (path : string) : result ModelConfig GgufError :=
  let md := metadata content in
  let arch := default "llama" (md !! "general.architecture" ≫= v_string) in
  let get key := N.to_nat <$> (md !! (arch +:+ key) ≫= v_u64) in
  let num_layers := default 32 (get ".block_count") in
  let hidden_size := default 4096 (get ".embedding_length") in
  let num_attention_heads := default 32 (get ".attention.head_count") in
  let num_kv_heads := default num_attention_heads (get ".attention.head_count_kv") in
  let intermediate_size := default (hidden_size * 4) (get ".feed_forward_length") in
  let max_model_len := default 4096 (get ".context_length") in
  let rope_theta := default (F32.of_Z 10000) (md !! (arch +:+ ".rope.freq_base") ≫= v_f32) in
  require negb (num_attention_heads =? 0) else GE_Heads;
  let head_dim := default (hidden_size / num_attention_heads) (get ".attention.key_length") in
  architecture <-? gguf_architecture arch;
  let vocab_size := default (N.to_nat 32000) (md !! "tokenizer.ggml.tokens" ≫= v_array_len) in
  Ok (mkModelConfig path architecture vocab_size hidden_size intermediate_size num_layers num_attention_heads num_kv_heads
        head_dim max_model_len rope_theta None DT_F16 (Some (mkQuantizationConfig QK_Gguf None None)) TM_Auto).
End gguf.

(** The tensors of a block. *)
Definition gguf_suffixes : list (string * string) :=
  [("attn_q.weight", "self_attn.q_proj.weight"); ("attn_q.bias", "self_attn.q_proj.bias");
   ("attn_k.weight", "self_attn.k_proj.weight"); ("attn_k.bias", "self_attn.k_proj.bias");
   ("attn_v.weight", "self_attn.v_proj.weight"); ("attn_v.bias", "self_attn.v_proj.bias");
   ("attn_output.weight", "self_attn.o_proj.weight"); ("attn_output.bias", "self_attn.o_proj.bias");
   ("attn_q_norm.weight", "self_attn.q_norm.weight"); ("attn_k_norm.weight", "self_attn.k_norm.weight");
   ("ffn_gate.weight", "mlp.gate_proj.weight"); ("ffn_up.weight", "mlp.up_proj.weight"); ("ffn_down.weight", "mlp.down_proj.weight");
   ("ffn_gate_inp.weight", "mlp.gate.weight"); ("ffn_gate_exps.weight", "mlp.experts.gate_proj.weight");
   ("ffn_up_exps.weight", "mlp.experts.up_proj.weight"); ("ffn_down_exps.weight", "mlp.experts.down_proj.weight");
   ("ffn_gate_inp_shexp.weight", "mlp.shared_expert_gate.weight"); ("ffn_gate_shexp.weight", "mlp.shared_expert.gate_proj.weight");
   ("ffn_up_shexp.weight", "mlp.shared_expert.up_proj.weight"); ("ffn_down_shexp.weight", "mlp.shared_expert.down_proj.weight");
   ("attn_norm.weight", "input_layernorm.weight"); ("ffn_norm.weight", "post_attention_layernorm.weight")].

Fixpoint assoc (key : string) (l : list (string * string)) : option string :=
  match l with
  | [] => None
  | (k, v) :: l => if String.eqb key k then Some v else assoc key l
  end.

Definition map_gguf_name_to_hf (gguf_name : string) : string :=
  if String.eqb gguf_name "token_embd.weight" then "model.embed_tokens.weight"
  else if String.eqb gguf_name "output.weight" then "lm_head.weight"
  else if String.eqb gguf_name "output_norm.weight" then "model.norm.weight"
  else if String.prefix "blk." gguf_name then
    match split "." gguf_name with
    | _ :: layer_idx :: ((_ :: _) as rest) =>
        let suffix := join_with "." rest in
        "model.layers." +:+ layer_idx +:+ String "." (default suffix (assoc suffix gguf_suffixes))
    | _ => gguf_name
    end
  else gguf_name.

Section gguf_weights.
Context {T G : Type}.
(** Whether a tensor is stored as plain floats, and its dequantization. *)
Context (g_plain : G → bool) (g_dequantize : G → result T TensorError).

(** Kept quantized: projections and the head. *)
Definition should_keep_quantized (hf_name : string) (g : G) : bool :=
  negb (g_plain g) && (str_ends_with hf_name "_proj.weight" || String.eqb hf_name "lm_head.weight").

(** The loop over the tensors, in the order of the map; one that cannot be read is
    [None]. *)
Fixpoint load_gguf_tensors (tensors : list (string * option G)) (acc : gmap string T * gmap string G) :
    result (gmap string T * gmap string G) LoadError :=
  match tensors with
  | [] => Ok acc
  | (name, None) :: _ => Err (LE_Tensor name "loading GGUF tensor")
  | (name, Some g) :: tensors =>
      let hf_name := map_gguf_name_to_hf name in
      if should_keep_quantized hf_name g then load_gguf_tensors tensors (acc.1, <[hf_name := g]> acc.2)
      else match g_dequantize g with
           | Ok t => load_gguf_tensors tensors (<[hf_name := t]> acc.1, acc.2)
           | Err e => Err (LE_Tensor name e)
           end
  end.

Definition load_gguf_weights (tensors : list (string * option G)) : result (WeightMap T G) LoadError :=
  maps <-? load_gguf_tensors tensors (∅, ∅);
  Ok (mkWeightMap maps.1 ∅ maps.2 None).
End gguf_weights.

(** ** Paths stay inside *)

Lemma split_cons c s : ∃ p ps, split c s = p :: ps.
Proof.
  destruct s as [|a s]; cbn [split]; [by eexists _, _ |].
  case_bool_decide; [by eexists _, _ |]. destruct (split c s); by eexists _, _.
Qed.

(** Splitting a concatenation at a separator. *)
Lemma split_sep c s t : split c (s +:+ String c t) = split c s ++ split c t.
Proof.
  induction s as [|a s IH].
  - change ("" +:+ String c t) with (String c t). cbn [split]. by rewrite bool_decide_eq_true_2.
  - change (String a s +:+ String c t) with (String a (s +:+ String c t)). cbn [split]. rewrite IH.
    case_bool_decide; [done |]. destruct (split_cons c s) as (p & ps & ->). done.
Qed.

(** A string without the separator is one part. *)
Fixpoint has_char (c : ascii) (s : string) : bool :=
  match s with EmptyString => false | String a s => bool_decide (a = c) || has_char c s end.

Lemma split_none c s : has_char c s = false → split c s = [s].
Proof.
  induction s as [|a s IH]; cbn [has_char split]; [done |]. case_bool_decide; [done |]. cbn [orb]. intros Hs. by rewrite IH.
Qed.

Lemma join_split c s : join_with c (split c s) = s.
Proof.
  induction s as [|a s IH]; [done |]. cbn [split]. destruct (split_cons c s) as (p & ps & E). rewrite E in IH |- *.
  case_bool_decide as Ha.
  - subst a. change (String c (join_with c (p :: ps)) = String c s). by rewrite IH.
  - destruct ps as [|q ps]; [cbn in IH |- *; by rewrite IH |].
    change (String a (p +:+ String c (join_with c (q :: ps))) = String a s).
    change (p +:+ String c (join_with c (q :: ps)) = s) in IH. by rewrite IH.
Qed.

Lemma ends_with_char s c : str_ends_with s (String c "") = true → ∃ t, s = t +:+ String c "".
Proof.
  unfold str_ends_with. rewrite bool_decide_eq_true. intros [l Hl].
  change (String.list_ascii_of_string (String c "")) with [c] in Hl. exists (String.string_of_list_ascii l).
  rewrite <- (String.string_of_list_ascii_of_string s), Hl. clear s Hl. induction l as [|a l IH]; [done |].
  change (String a (String.string_of_list_ascii (l ++ [c])) = String a (String.string_of_list_ascii l +:+ String c "")).
  by rewrite IH.
Qed.

(** The components that a relative path adds. *)
Definition relative_components (f : string) : list Component := split "/" f ≫= part_component.

Lemma components_join dir f : dir ≠ "" → components (join_path dir f) = components dir ++ relative_components f.
Proof.
  intros Hdir. unfold join_path. rewrite (proj2 (String.eqb_neq dir "") Hdir). cbn [orb].
  assert (Hne : ∀ t, String.eqb (dir +:+ t) "" = false) by (intros t; by destruct dir).
  unfold components, relative_components. rewrite (proj2 (String.eqb_neq dir "") Hdir).
  destruct (str_ends_with dir "/") eqn:He.
  - apply ends_with_char in He as [d ->]. rewrite Hne. rewrite string_app_assoc. change (String "/" "" +:+ f) with (String "/" f).
    rewrite !split_sep. destruct (split_cons "/" d) as (p & ps & ->). cbn [app]. rewrite !bind_app, <- !app_assoc. reflexivity.
  - rewrite Hne, split_sep. destruct (split_cons "/" dir) as (p & ps & ->). cbn [app]. by rewrite bind_app, app_assoc.
Qed.

(** A path that is not a traversal only goes down. *)
Lemma relative_normal f : has_traversal f = false → ∃ names, relative_components f = Normal <$> names ∧ ".." ∉ names.
Proof.
  assert (Hpart : ∀ parts, existsb (λ c, match c with Normal _ | CurDir => false | _ => true end) (parts ≫= part_component) = false →
    ∃ names, parts ≫= part_component = Normal <$> names ∧ ".." ∉ names).
  { induction parts as [|p parts IH]; cbn [mbind list_bind]; [intros _; exists []; split; [done | set_solver] |].
    rewrite existsb_app. intros [H1 H2]%orb_false_iff. destruct (IH H2) as (names & E & Hn). rewrite E.
    unfold part_component in *. destruct (String.eqb_spec p "") as [->|]; [by exists names |].
    destruct (String.eqb_spec p ".") as [->|]; [by exists names |]. cbn [orb] in *.
    destruct (String.eqb_spec p ".."); [done |]. exists (p :: names). split; [done | set_solver]. }
  unfold has_traversal, components, relative_components. destruct (split "/" f) as [|p ps] eqn:Ef.
  { intros _. exists []. split; [done | set_solver]. }
  rewrite existsb_app. intros [H1 H2]%orb_false_iff. apply Hpart. cbn [mbind list_bind]. rewrite existsb_app, H2, orb_false_r.
  destruct (String.eqb_spec p "") as [->|]; [done |]. destruct (String.eqb_spec p ".") as [->|]; [done | exact H1].
Qed.

Lemma try_map_shards dir fs paths : try_map (shard_path dir) fs = Ok paths →
  paths = join_path dir <$> fs ∧ Forall (λ f, has_traversal f = false) fs.
Proof.
  revert paths. induction fs as [|f fs IH]; intros paths; cbn [try_map]; [intros [= <-]; by split |].
  unfold shard_path at 1. destruct (has_traversal f) eqn:Ht; cbn [negb result_bind]; [done |].
  destruct (try_map (shard_path dir) fs) as [ps|]; cbn [result_bind]; [| done]. intros [= <-].
  destruct (IH ps eq_refl) as [-> HF]. split; [done | by constructor].
Qed.

Lemma sorted_files_elem fs f : f ∈ sorted_files fs ↔ f ∈ fs.
Proof. unfold sorted_files. by rewrite sort_by_perm, elem_of_elements, elem_of_list_to_set. Qed.

Lemma sorted_files_NoDup fs : NoDup (sorted_files fs).
Proof. unfold sorted_files. rewrite sort_by_perm. apply NoDup_elements. Qed.

Lemma string_leb_trans : ∀ a b c, String.leb a b = true → String.leb b c = true → String.leb a c = true.
Proof.
  unfold String.leb. induction a as [|x a IH]; intros [|y b] [|z c]; try done. cbn [String.compare].
  unfold Ascii.compare. specialize (IH b c).
  destruct (N.compare_spec (Ascii.N_of_ascii x) (Ascii.N_of_ascii y)) as [Exy|Exy|Exy];
    destruct (N.compare_spec (Ascii.N_of_ascii y) (Ascii.N_of_ascii z)) as [Eyz|Eyz|Eyz];
    destruct (N.compare_spec (Ascii.N_of_ascii x) (Ascii.N_of_ascii z)) as [Exz|Exz|Exz]; try done; try lia.
Qed.

Lemma sorted_files_sorted fs : StronglySorted (λ a b, String.leb a b = true) (sorted_files fs).
Proof.
  apply (sort_by_sorted String.leb (λ _, True)); [intros; apply String.leb_total | | by apply Forall_true].
  intros a b c _ _ _. apply string_leb_trans.
Qed.

(** C39. The shards an index names.  Whatever the index says, each file that is read lies
    in the model directory: its path goes down from there and never up, nor starts
    again at the root.  Each file the index names is read once, in the order of the
    names, and unless the directory is [.] (however it is written) all exist. *)
Theorem shards_stay_inside index dir exists_at paths (Hdir : dir ≠ "")
    (Hload : load_shard_index index dir exists_at = Ok paths) :
  ∃ files fs, index ≫= index_files = Some files ∧ paths = join_path dir <$> fs
    ∧ NoDup fs ∧ StronglySorted (λ a b, String.leb a b = true) fs ∧ (∀ f, f ∈ fs ↔ f ∈ files)
    ∧ (∀ f, f ∈ files → ∃ names, components (join_path dir f) = components dir ++ (Normal <$> names) ∧ ".." ∉ names)
    ∧ (components dir ≠ [CurDir] → Forall (λ p, exists_at p = true) paths).
Proof.
  unfold load_shard_index in Hload. destruct (index ≫= index_files) as [files|]; [| done].
  destruct (try_map (shard_path dir) (sorted_files files)) as [ps|] eqn:Et; cbn [result_bind] in Hload; [| done].
  destruct (List.find _ ps) as [|] eqn:Ef; [done |]. injection Hload as ->.
  apply try_map_shards in Et as [-> HF]. exists files, (sorted_files files).
  split_and!; [done | done | apply sorted_files_NoDup | apply sorted_files_sorted | apply sorted_files_elem | |].
  - intros f Hf. rewrite components_join by done. rewrite Forall_forall in HF.
    destruct (relative_normal f) as (names & E & Hn); [by apply HF, sorted_files_elem |]. exists names. by rewrite E.
  - intros Hd. apply Forall_forall. intros p Hp. pose proof (List.find_none _ _ Ef p) as Hn.
    specialize (Hn (proj1 (list_elem_of_In _ _) Hp)). cbn in Hn.
    rewrite bool_decide_eq_false_2 in Hn by exact Hd. cbn [negb andb] in Hn. by apply negb_false_iff in Hn.
Qed.

Definition demo_index : Json :=
  JObject [("weight_map", JObject [("b", JString "w-2.safetensors"); ("a", JString "./w-1.safetensors"); ("c", JString "w-2.safetensors")])].

Lemma shards_stay_inside_witness :
  load_shard_index (Some demo_index) "/m" (λ _, true) = Ok ["/m/./w-1.safetensors"; "/m/w-2.safetensors"]
  ∧ ∃ names, components "/m/./w-1.safetensors" = components "/m" ++ (Normal <$> names) ∧ ".." ∉ names.
Proof.
  assert (E : load_shard_index (Some demo_index) "/m" (λ _, true) = Ok ["/m/./w-1.safetensors"; "/m/w-2.safetensors"])
    by (vm_compute; reflexivity).
  split; [exact E |].
  destruct (shards_stay_inside (Some demo_index) "/m" (λ _, true) _ ltac:(discriminate) E) as (files & fs & Ef & _ & _ & _ & _ & Hin & _).
  injection Ef as <-. apply (Hin "./w-1.safetensors"). right. left.
Defined.

(** In the current directory, however it is written, no file need exist. *)
Example current_directory_unchecked :
  load_shard_index (Some demo_index) "." (λ _, false) = Ok ["././w-1.safetensors"; "./w-2.safetensors"]
  ∧ load_shard_index (Some demo_index) "./" (λ _, false) = Ok ["././w-1.safetensors"; "./w-2.safetensors"]
  ∧ load_shard_index (Some demo_index) "/m" (λ _, false) = Err (LE_ShardMissing "/m/./w-1.safetensors").
Proof. split_and!; vm_compute; reflexivity. Qed.

Example traversal_refused :
  load_shard_index (Some (JObject [("weight_map", JObject [("a", JString "../w.safetensors")])])) "/m" (λ _, true)
    = Err (LE_Traversal "../w.safetensors")
  ∧ load_shard_index (Some (JObject [("weight_map", JObject [("a", JString "/etc/w.safetensors")])])) "/m" (λ _, true)
    = Err (LE_Traversal "/etc/w.safetensors").
Proof. split; vm_compute; reflexivity. Qed.

(** Shards without an index are looked for from number 0; the usual names start at 1. *)
Example numbered_shards_from_zero :
  let dir first := mkDir "/m" true (λ _, false) (Some (Some <$> [first; "config.json"])) None None (λ _, None) in
  find_safetensor_shards (dir "model-00000-of-00001.safetensors") = Ok ["/m/model-00000-of-00001.safetensors"]
  ∧ find_safetensor_shards (dir "model-00001-of-00001.safetensors") = Err LE_NoFiles.
Proof. split; vm_compute; reflexivity. Qed.

(** ** The names of GGUF files *)

(** The names a GGUF file of the supported models uses, and those of the models. *)
Inductive recognized : string → string → Prop :=
  | R_embed : recognized "token_embd.weight" "model.embed_tokens.weight"
  | R_output : recognized "output.weight" "lm_head.weight"
  | R_norm : recognized "output_norm.weight" "model.norm.weight"
  | R_block i s hf : has_char "." i = false → (s, hf) ∈ gguf_suffixes →
      recognized ("blk." +:+ i +:+ String "." s) ("model.layers." +:+ i +:+ String "." hf).

Lemma suffixes_assoc s hf : (s, hf) ∈ gguf_suffixes → assoc s gguf_suffixes = Some hf.
Proof.
  assert (H : Forall (λ p, assoc p.1 gguf_suffixes = Some p.2) gguf_suffixes).
  { apply Forall_forall. apply Forall_forall. repeat (constructor; [reflexivity |]). constructor. }
  rewrite Forall_forall in H. intros Hin. exact (H (s, hf) Hin).
Qed.

Lemma suffixes_inj s s' hf : (s, hf) ∈ gguf_suffixes → (s', hf) ∈ gguf_suffixes → s = s'.
Proof.
  assert (H : NoDup gguf_suffixes.*2) by (apply (bool_decide_unpack _); vm_compute; reflexivity).
  intros [i Hi]%list_elem_of_lookup [j Hj]%list_elem_of_lookup.
  assert (i = j) as ->; [| congruence]. apply (NoDup_lookup _ i j hf H); rewrite list_lookup_fmap; [by rewrite Hi | by rewrite Hj].
Qed.

Lemma prefix_app p s : String.prefix p (p +:+ s) = true.
Proof.
  induction p as [|c p IH]; [by destruct s |]. change (String.prefix (String c p) (String c (p +:+ s)) = true).
  cbn [String.prefix]. by destruct (ascii_dec c c).
Qed.

Lemma map_recognized n h : recognized n h → map_gguf_name_to_hf n = h.
Proof.
  intros [| | |i s hf Hi Hs]; [reflexivity | reflexivity | reflexivity |]. unfold map_gguf_name_to_hf.
  change ("blk." +:+ i +:+ String "." s) with ("blk" +:+ String "." (i +:+ String "." s)).
  assert (E : split "." ("blk" +:+ String "." (i +:+ String "." s)) = "blk" :: i :: split "." s).
  { rewrite !split_sep, (split_none _ i Hi). reflexivity. }
  rewrite E. pose proof (join_split "." s) as Hj. destruct (split_cons "." s) as (p & ps & Ep). rewrite Ep in Hj |- *.
  rewrite Hj, (suffixes_assoc s hf Hs).
  change ("blk" +:+ String "." (i +:+ String "." s)) with ("blk." +:+ (i +:+ String "." s)). rewrite prefix_app. reflexivity.
Qed.

Lemma dotless_inj c i j a b : has_char c i = false → has_char c j = false → i +:+ String c a = j +:+ String c b → i = j ∧ a = b.
Proof.
  revert j. induction i as [|x i IH]; intros [|y j]; cbn [has_char]; intros Hi Hj H.
  - by injection H.
  - exfalso. injection H as <- _. by rewrite bool_decide_eq_true_2 in Hj.
  - exfalso. injection H as -> _. by rewrite bool_decide_eq_true_2 in Hi.
  - apply orb_false_iff in Hi as [_ Hi], Hj as [_ Hj]. injection H as -> H.
    destruct (IH j Hi Hj H) as [-> ->]. done.
Qed.

Lemma recognized_inj n n' h : recognized n h → recognized n' h → n = n'.
Proof.
  intros H H'. inversion H as [| | |i s hf Hi Hs]; subst; inversion H' as [| | |j s' hf' Hj Hs' E1 E2]; subst; try reflexivity;
    try discriminate.
  apply string_app_inj in E2. destruct (dotless_inj "." _ _ _ _ Hj Hi E2) as [-> ->].
  by rewrite (suffixes_inj _ _ _ Hs Hs').
Qed.

Section gguf_exact.
Context {T G : Type} (g_plain : G → bool) (g_dequantize : G → result T TensorError).
#[local] Abbreviation keep := (should_keep_quantized g_plain).

(** Where a tensor of a name ends up. *)
Definition stored (maps : gmap string T * gmap string G) (h : string) (g : G) : Prop :=
  if keep h g then maps.2 !! h = Some g ∧ maps.1 !! h = None
  else ∃ t, g_dequantize g = Ok t ∧ maps.1 !! h = Some t ∧ maps.2 !! h = None.

Lemma load_gguf_tensors_spec tensors : ∀ acc,
  NoDup ((λ p, map_gguf_name_to_hf p.1) <$> tensors) →
  Forall (λ p, is_ok (g_dequantize p.2) = true) tensors →
  Forall (λ p, acc.1 !! map_gguf_name_to_hf p.1 = None ∧ acc.2 !! map_gguf_name_to_hf p.1 = None) tensors →
  ∃ maps, load_gguf_tensors g_plain g_dequantize ((λ p, (p.1, Some p.2)) <$> tensors) acc = Ok maps
    ∧ Forall (λ p, stored maps (map_gguf_name_to_hf p.1) p.2) tensors
    ∧ ∀ h, h ∉ (λ p, map_gguf_name_to_hf p.1) <$> tensors → maps.1 !! h = acc.1 !! h ∧ maps.2 !! h = acc.2 !! h.
Proof.
  induction tensors as [|[n g] tensors IH]; intros acc Hnd Hd Ha; cbn [fmap list_fmap] in *.
  { by exists acc. }
  apply NoDup_cons in Hnd as [Hnin Hnd]. apply Forall_cons in Hd as [Hg Hd]. apply Forall_cons in Ha as [[H1 H2] Ha].
  cbn [fst snd load_gguf_tensors] in *. set (h := map_gguf_name_to_hf n) in *.
  assert (Hnext : ∀ acc', (∀ k, k ≠ h → acc'.1 !! k = acc.1 !! k ∧ acc'.2 !! k = acc.2 !! k) →
    (∀ maps, maps.1 !! h = acc'.1 !! h → maps.2 !! h = acc'.2 !! h → stored maps h g) →
    ∃ maps, load_gguf_tensors g_plain g_dequantize ((λ p, (p.1, Some p.2)) <$> tensors) acc' = Ok maps
      ∧ Forall (λ p, stored maps (map_gguf_name_to_hf p.1) p.2) ((n, g) :: tensors)
      ∧ ∀ k, k ∉ h :: ((λ p, map_gguf_name_to_hf p.1) <$> tensors) → maps.1 !! k = acc.1 !! k ∧ maps.2 !! k = acc.2 !! k).
  { intros acc' Hacc Hst. destruct (IH acc' Hnd Hd) as (maps & E & Hs & Hk).
    { apply Forall_forall. intros p Hp. rewrite Forall_forall in Ha.
      destruct (Hacc (map_gguf_name_to_hf p.1)) as [-> ->]; [| by apply Ha].
      intros Eh. apply Hnin. rewrite <- Eh. apply list_elem_of_fmap. by exists p. }
    exists maps. split; [done |]. split.
    - constructor; [| done]. destruct (Hk h Hnin) as [Hk1 Hk2]. by apply Hst.
    - intros k Hkn. apply not_elem_of_cons in Hkn as [Hne Hkn]. destruct (Hk k Hkn) as [-> ->]. by apply Hacc. }
  destruct (keep h g) eqn:Ek.
  - apply Hnext.
    + intros k Hne. cbn [fst snd]. split; [done | by rewrite lookup_insert_ne].
    + intros maps E1 E2. unfold stored. rewrite Ek, E1, E2. cbn [fst snd]. by rewrite lookup_insert_eq.
  - destruct (g_dequantize g) as [t|] eqn:Et; [| done]. apply Hnext.
    + intros k Hne. cbn [fst snd]. split; [by rewrite lookup_insert_ne | done].
    + intros maps E1 E2. unfold stored. rewrite Ek, Et, E1, E2. exists t. cbn [fst snd]. by rewrite lookup_insert_eq.
Qed.

(** C40. The tensors of a GGUF file.  Of a file of supported names, each used once, every
    tensor is found under the models' name for it and nothing is lost or shadowed: a
    quantized projection or head is kept as it is, any other tensor is dequantized, and
    no other names appear. *)
Theorem gguf_weights_exact (tensors : list (string * string * G))
    (Hnames : Forall (λ p, recognized p.1.1 p.1.2) tensors) (Hnd : NoDup tensors.*1.*1)
    (Hdeq : Forall (λ p, is_ok (g_dequantize p.2) = true) tensors) :
  ∃ w, load_gguf_weights g_plain g_dequantize ((λ p, (p.1.1, Some p.2)) <$> tensors) = Ok w
    ∧ (∀ n h g, (n, h, g) ∈ tensors →
         if negb (g_plain g) && (str_ends_with h "_proj.weight" || String.eqb h "lm_head.weight")
         then wm_gguf_weights w !! h = Some g ∧ wm_weights w !! h = None
         else ∃ t, g_dequantize g = Ok t ∧ wm_weights w !! h = Some t ∧ wm_gguf_weights w !! h = None)
    ∧ ∀ h, h ∉ tensors.*1.*2 → wm_weights w !! h = None ∧ wm_gguf_weights w !! h = None.
Proof.
  set (l := (λ p : string * string * G, (p.1.1, p.2)) <$> tensors).
  assert (Hl : (λ p : string * string * G, (p.1.1, Some p.2)) <$> tensors = (λ p, (p.1, Some p.2)) <$> l).
  { unfold l. by rewrite <- list_fmap_compose. }
  assert (Hh : (λ p, map_gguf_name_to_hf p.1) <$> l = tensors.*1.*2).
  { unfold l. rewrite <- !list_fmap_compose. apply Forall_fmap_ext_1. apply (Forall_impl _ _ _ Hnames).
    intros p Hp. by apply map_recognized. }
  destruct (load_gguf_tensors_spec l (∅, ∅)) as (maps & E & Hst & Hrest).
  - rewrite Hh. clear -Hnames Hnd. induction tensors as [|[[n h] g] ts IH]; [constructor |].
    cbn [fmap list_fmap fst snd] in *. apply Forall_cons in Hnames as [Hr Hnames]. apply NoDup_cons in Hnd as [Hn Hnd].
    constructor; [| by apply IH]. intros Hin. apply Hn. apply list_elem_of_fmap in Hin as ([n' h'] & E & Hin). cbn in E. subst h'.
    apply list_elem_of_fmap in Hin as ([[n2 h2] g2] & [= <- <-] & Hin). rewrite Forall_forall in Hnames.
    pose proof (Hnames _ Hin) as Hr'. cbn in Hr, Hr'. rewrite (recognized_inj _ _ _ Hr Hr').
    apply list_elem_of_fmap. exists (n', h). split; [done |]. apply list_elem_of_fmap. by exists (n', h, g2).
  - unfold l. rewrite Forall_fmap. exact Hdeq.
  - apply Forall_forall. intros p _. split; apply lookup_empty.
  - unfold load_gguf_weights. rewrite Hl, E. cbn [result_bind]. eexists. split; [reflexivity |]. cbn [wm_weights wm_gguf_weights]. split.
    + intros n h g Hin. rewrite Forall_forall in Hst. rewrite Forall_forall in Hnames. pose proof (Hnames _ Hin) as Hr. cbn in Hr.
      specialize (Hst (n, g)). cbn [fst snd] in Hst. rewrite (map_recognized _ _ Hr) in Hst. apply Hst. unfold l.
      apply list_elem_of_fmap. by exists (n, h, g).
    + intros h Hh'. rewrite <- Hh in Hh'. destruct (Hrest h Hh') as [-> ->]. split; apply lookup_empty.
Qed.
End gguf_exact.

(** A file with an embedding, a quantized projection and a quantized head; tensors are
    numbers, and those below 10 are stored as plain floats. *)
Definition demo_gguf : list (string * string * nat) :=
  [("token_embd.weight", "model.embed_tokens.weight", 20);
   ("blk.0.attn_q.weight", "model.layers.0.self_attn.q_proj.weight", 21);
   ("blk.0.attn_norm.weight", "model.layers.0.input_layernorm.weight", 1);
   ("output.weight", "lm_head.weight", 22)].
Definition demo_plain (g : nat) : bool := g <? 10.
Definition demo_dequantize (g : nat) : result nat TensorError := Ok (g + 100).

Lemma gguf_weights_exact_witness :
  ∃ w, load_gguf_weights demo_plain demo_dequantize ((λ p, (p.1.1, Some p.2)) <$> demo_gguf) = Ok w
    ∧ wm_weights w !! "model.embed_tokens.weight" = Some 120 ∧ wm_gguf_weights w !! "lm_head.weight" = Some 22
    ∧ wm_weights w !! "lm_head.weight" = None.
Proof.
  destruct (gguf_weights_exact demo_plain demo_dequantize demo_gguf) as (w & E & Hw & _).
  - repeat constructor.
    + exact (R_block "0" "attn_q.weight" "self_attn.q_proj.weight" eq_refl (list_elem_of_here _ _)).
    + apply (R_block "0" "attn_norm.weight" "input_layernorm.weight" eq_refl).
      apply (bool_decide_unpack _). vm_compute. reflexivity.
  - apply (bool_decide_unpack _). vm_compute. reflexivity.
  - repeat constructor.
  - exists w. split; [exact E |].
    destruct (Hw "token_embd.weight" "model.embed_tokens.weight" 20 (list_elem_of_here _ _)) as (t & [= <-] & H1 & _).
    destruct (Hw "output.weight" "lm_head.weight" 22) as [H2 H3]; [apply (bool_decide_unpack _); vm_compute; reflexivity |].
    split_and!; [exact H1 | exact H2 | exact H3].
Defined.
