(* ===== verification/Export.v ===== *)
(** * Exporting quantized checkpoints (rllm-model/src/quantize.rs)

    The calibration prompts, the quantization of the layers of a weight map, the
    tensors of the exported checkpoint as they are written, and its configuration.
    Copying the other files of the directory is not modelled.  The theorem closes the
    loop: what is exported is read back by the loader, and the model's layers multiply
    with exactly the matrices that the quantizer made. *)
From S2P Require Import Prelude F32 CoreTypes Json Sorting Tensors Mxfp NdTensor QuantMethod Gptq Dequant Layers LlamaLoad HfConfig Loader.
#[local] Open Scope string_scope.
#[local] Open Scope list_scope.
#[local] Open Scope nat_scope.
#[local] Open Scope rllm_scope.

(** ** Numbers in memory *)

(** Little-endian bytes. *)
Fixpoint le_bytes (n : nat) (v : N) : list N :=
  match n with 0 => [] | S n => (v mod 256)%N :: le_bytes n (v / 256)%N end.

Definition f32_bits (x : f32) : N :=
  (Z.to_N (F32.magnitude_bits x) + if F32.sign_bit x then 2147483648 else 0)%N.
Definition i32_bytes (z : Z) : list N := le_bytes 4 (i32_as_u32 z).
Definition u32_bytes (n : N) : list N := le_bytes 4 n.
Definition f32_bytes (x : f32) : list N := le_bytes 4 (f32_bits x).

(** The number of some bits; a number of the format is that of its bits. *)
Definition f32_of_bits (b : N) : f32 :=
  let s := (2147483648 <=? b)%N in
  let m := (b mod 8388608)%N in
  match (b / 8388608 mod 256)%N with
  | 0%N => match m with 0%N => SpecFloat.S754_zero s | N.pos m => SpecFloat.S754_finite s m (-149) end
  | 255%N => match m with 0%N => SpecFloat.S754_infinity s | _ => SpecFloat.S754_nan end
  | e => match (8388608 + m)%N with 0%N => SpecFloat.S754_nan | N.pos m => SpecFloat.S754_finite s m (Z.of_N e - 150) end
  end.
Definition f32_format (x : f32) : bool :=
  bool_decide (f32_of_bits (f32_bits x) = x) && (f32_bits x <=? u32_max)%N.

(** ** Tensors as they are written *)

Record SerializableTensor : Type := mkSerializable {
  st_dtype : SafeDType;
  st_shape : list nat;
  st_bytes : list N;
}.

(** [from_typed]: the bytes of the values. *)
Definition from_typed {A} (bytes : A → list N) (dtype : SafeDType) (shape : list nat) (values : list A) : SerializableTensor :=
  mkSerializable dtype shape (values ≫= bytes).

Definition export_dtype (d : TDType) : option SafeDType :=
  match d with
  | T_F32 => Some S_F32 | T_F16 => Some S_F16 | T_BF16 => Some S_BF16 | T_U32 => Some S_U32 | T_I32 => Some S_I32
  | _ => None
  end.

Record GptqExportOptions : Type := mkExportOptions {
  xo_bits : nat;
  xo_group_size : nat;
  xo_damp_percent : f32;
  xo_act_order : bool;
  xo_calibration_prompts : list string;
  xo_max_calibration_samples : nat;
  xo_max_seq_len : nat;
  xo_include_lm_head : bool;
}.

Definition GptqExportOptions_default : GptqExportOptions :=
  mkExportOptions 4 128 (gq_damp_percent GptqConfig_default) false [] 128 (N.to_nat 2048) true.

Definition export_config (o : GptqExportOptions) : GptqConfig :=
  mkGptqConfig (xo_bits o) (xo_group_size o) (xo_damp_percent o) (xo_act_order o).

Inductive ExportError : Type :=
  | XE_NoPrompts
  | XE_NoTokens
  | XE_Tokenizer
  | XE_Tensor (msg : string)
  | XE_Missing (name : string)
  | XE_Shape (name : string) (dims : list nat)
  | XE_Gptq (e : GptqError)
  | XE_Dtype (d : TDType).

(** ** Calibration prompts *)

Section batches.
Context (encode : string → bool → option (list N)).

Fixpoint batches_of (prompts : list string) (max_seq_len : nat) : result (list (list N)) ExportError :=
  match prompts with
  | [] => Ok []
  | p :: prompts =>
      match encode p true with
      | None => Err XE_Tokenizer
      | Some [] => batches_of prompts max_seq_len
      | Some ids => bs <-? batches_of prompts max_seq_len; Ok (take max_seq_len ids :: bs)
      end
  end.

Definition build_calibration_batches (o : GptqExportOptions) : result (list (list N)) ExportError :=
  batches_of (take (xo_max_calibration_samples o) (xo_calibration_prompts o)) (xo_max_seq_len o).
End batches.

(** ** The layers *)

(** [name.strip_suffix(".weight")] *)
Definition strip_weight (name : string) : option string :=
  if str_ends_with name ".weight" then Some (String.substring 0 (String.length name - 7) name) else None.

(** The entries of a [BTreeMap], in order. *)
Definition in_order {A} (m : gmap string A) : list (string * A) :=
  sort_by (λ a b, String.leb a.1 b.1) (map_to_list m).

Definition should_skip_original_weight (name : string) (calibrations : gmap string GptqCalibration) (include_lm_head : bool) : bool :=
  match strip_weight name with
  | Some prefix => bool_decide (is_Some (calibrations !! prefix)) || (include_lm_head && String.eqb prefix "lm_head")
  | None => false
  end.

Definition insert_quantized_layer (out : gmap string SerializableTensor) (prefix : string) (q : QuantizedGptqLayer) :
    gmap string SerializableTensor :=
  let pair p := [p.1; p.2] in
  <[(prefix +:+ ".g_idx") := from_typed u32_bytes S_U32 [gl_in_features q] (gl_g_idx q)]>
  (<[(prefix +:+ ".scales") := from_typed f32_bytes S_F32 (pair (scales_shape q)) (gl_scales q)]>
  (<[(prefix +:+ ".qzeros") := from_typed i32_bytes S_I32 (pair (qzeros_shape q)) (gl_qzeros q)]>
  (<[(prefix +:+ ".qweight") := from_typed i32_bytes S_I32 (pair (qweight_shape q)) (gl_qweight q)]> out))).

Section quantize.
Context {T : Type} `{!NdOps T}.
(** [flatten_all()?.to_vec1()], as [f32] and as the bytes of the tensor's own type. *)
Context (to_vec1_f32 : T → result (list f32) TensorError) (raw_bytes : T → result (list N) TensorError).

Definition or_tensor {A} (r : result A TensorError) : result A ExportError :=
  match r with Ok a => Ok a | Err e => Err (XE_Tensor e) end.

Definition serialize_candle_tensor (t : T) : result SerializableTensor ExportError :=
  match export_dtype (n_dtype t) with
  | Some d => bytes <-? or_tensor (raw_bytes t); Ok (mkSerializable d (n_dims t) bytes)
  | None => Err (XE_Dtype (n_dtype t))
  end.

(** The originals that stay. *)
Fixpoint keep_originals (ws : list (string * T)) (cals : gmap string GptqCalibration) (include_lm_head : bool)
    (out : gmap string SerializableTensor) : result (gmap string SerializableTensor) ExportError :=
  match ws with
  | [] => Ok out
  | (name, t) :: ws =>
      if should_skip_original_weight name cals include_lm_head then keep_originals ws cals include_lm_head out
      else s <-? serialize_candle_tensor t; keep_originals ws cals include_lm_head (<[name := s]> out)
  end.

(** The weight of a layer: for a tied head, the embedding. *)
Definition layer_weight (w : gmap string T) (tied_lm_head : bool) (name : string) : result T ExportError :=
  if String.eqb name "lm_head" && tied_lm_head && negb (bool_decide (is_Some (w !! "lm_head.weight"))) then
    match w !! "model.embed_tokens.weight" with Some t => Ok t | None => Err (XE_Missing "model.embed_tokens.weight") end
  else match w !! (name +:+ ".weight") with Some t => Ok t | None => Err (XE_Missing (name +:+ ".weight")) end.

(** The matrix of a layer: outputs, inputs and values. *)
Definition layer_matrix (w : gmap string T) (tied_lm_head : bool) (name : string) : result (nat * nat * list f32) ExportError :=
  weight <-? layer_weight w tied_lm_head name;
  weight <-? or_tensor (n_to_dtype weight T_F32);
  match n_dims weight with
  | [o; i] => flat <-? or_tensor (t <-? n_flatten_all weight; to_vec1_f32 t); Ok (o, i, flat)
  | dims => Err (XE_Shape name dims)
  end.

Definition quantize_layer (w : gmap string T) (tied_lm_head : bool) (config : GptqConfig) (name : string) (cal : GptqCalibration) :
    option (result QuantizedGptqLayer ExportError) :=
  match layer_matrix w tied_lm_head name with
  | Err e => Some (Err e)
  | Ok (o, i, flat) =>
      r ← quantize_gptq flat o i cal config;
      Some (match r with Ok q => Ok q | Err e => Err (XE_Gptq e) end)
  end.

Fixpoint quantize_layers (w : gmap string T) (tied_lm_head : bool) (config : GptqConfig) (cals : list (string * GptqCalibration))
    (out : gmap string SerializableTensor) : option (result (gmap string SerializableTensor) ExportError) :=
  match cals with
  | [] => Some (Ok out)
  | (name, cal) :: cals =>
      r ← quantize_layer w tied_lm_head config name cal;
      match r with
      | Ok q => quantize_layers w tied_lm_head config cals (insert_quantized_layer out name q)
      | Err e => Some (Err e)
      end
  end.

(** The order in which the weights are visited, that of a hash map, decides only
    which error comes first. *)
Definition quantize_weight_map (w : gmap string T) (cals : gmap string GptqCalibration) (o : GptqExportOptions) (tied_lm_head : bool) :
    option (result (gmap string SerializableTensor) ExportError) :=
  match keep_originals (map_to_list w) cals (xo_include_lm_head o) ∅ with
  | Err e => Some (Err e)
  | Ok out => quantize_layers w tied_lm_head (export_config o) (in_order cals) out
  end.
End quantize.

(** The checkpoint as the loader's parser gives it back. *)
Definition checkpoint_views (out : gmap string SerializableTensor) : list SafeView :=
  (λ e, mkView e.1 (st_dtype e.2) (st_shape e.2) (st_bytes e.2)) <$> map_to_list out.

(** ** The configuration *)

(** An entry of a sorted map. *)
Fixpoint insert_entry (key : string) (v : Json) (entries : list (string * Json)) : list (string * Json) :=
  match entries with
  | [] => [(key, v)]
  | (k, x) :: entries =>
      if String.eqb k key then (k, v) :: entries
      else if String.ltb key k then (key, v) :: (k, x) :: entries
      else (k, x) :: insert_entry key v entries
  end.

(** [json["quantization_config"] = value]: null becomes an object, and any other value
    that is not one is a panic. *)
Definition set_quantization_config (json value : Json) : option Json :=
  match json with
  | JObject entries => Some (JObject (insert_entry "quantization_config" value entries))
  | JNull => Some (JObject [("quantization_config", value)])
  | _ => None
  end.

Definition quantization_value (o : GptqExportOptions) : Json :=
  JObject [("act_order", JBool (xo_act_order o)); ("bits", JNumber (PosInt (N.of_nat (xo_bits o))));
           ("damp_percent", JNumber (Float (F64.of_f32 (xo_damp_percent o))));
           ("group_size", JNumber (PosInt (N.of_nat (xo_group_size o)))); ("quant_method", JString "gptq")].

Definition write_quantized_config (json : Json) (o : GptqExportOptions) : option Json :=
  set_quantization_config json (quantization_value o).

(** [should_skip_copy]: what is written anew is not copied. *)
Definition should_skip_copy (file_name : option string) : bool :=
  match file_name with
  | Some name => String.eqb name "config.json" || str_ends_with name ".safetensors" || str_ends_with name ".safetensors.index.json"
  | None => false
  end.

(** ** The names of the exported tensors *)

Definition layer_suffixes : list string := [".qweight"; ".qzeros"; ".scales"; ".g_idx"].

(** Of two equal names, one suffix ends with the other. *)
Lemma suffix_compare (p p' s s' : string) : p +:+ s = p' +:+ s' → str_ends_with s s' = true ∨ str_ends_with s' s = true.
Proof.
  intros H%(f_equal String.list_ascii_of_string). rewrite !list_of_append in H. unfold str_ends_with.
  destruct (app_eq_inv _ _ _ _ H) as [(k & _ & ->)|(k & _ & ->)]; [right | left]; apply bool_decide_eq_true; by eexists.
Qed.

Lemma append_cancel_r (p p' s : string) : p +:+ s = p' +:+ s → p = p'.
Proof.
  intros H%(f_equal String.list_ascii_of_string). rewrite !list_of_append in H.
  apply app_inv_tail in H. by apply list_of_string_inj.
Qed.

(** Names of layers with different endings differ; with the same ending, they are of
    one layer. *)
Lemma layer_names_inj p p' s s' : s ∈ layer_suffixes → s' ∈ layer_suffixes → p +:+ s = p' +:+ s' → p = p' ∧ s = s'.
Proof.
  assert (Hc : Forall (λ s, Forall (λ s', (str_ends_with s s' || str_ends_with s' s) = true → s = s') layer_suffixes) layer_suffixes)
    by (repeat constructor; intros E; first [reflexivity | exfalso; vm_compute in E; discriminate E]).
  intros Hs Hs' E. rewrite Forall_forall in Hc. specialize (Hc s Hs). rewrite Forall_forall in Hc. specialize (Hc s' Hs').
  assert (s = s') as -> by (apply Hc, orb_true_iff; by eapply suffix_compare).
  split; [by apply append_cancel_r in E | done].
Qed.

Lemma weight_name_new p p' s : s ∈ layer_suffixes → p +:+ ".weight" ≠ p' +:+ s.
Proof.
  assert (Hc : Forall (λ s, (str_ends_with ".weight" s || str_ends_with s ".weight") = false) layer_suffixes)
    by (repeat constructor).
  intros Hs E. rewrite Forall_forall in Hc. specialize (Hc s Hs). apply suffix_compare in E.
  apply orb_true_iff in E. congruence.
Qed.

Lemma substring_append (p s : string) : String.substring 0 (String.length p) (p +:+ s) = p.
Proof.
  induction p as [|c p IH]; [by destruct s |].
  change (String c (String.substring 0 (String.length p) (p +:+ s)) = String c p). by rewrite IH.
Qed.

Lemma strip_weight_name p : strip_weight (p +:+ ".weight") = Some p.
Proof.
  unfold strip_weight. assert (str_ends_with (p +:+ ".weight") ".weight" = true) as ->.
  { unfold str_ends_with. apply bool_decide_eq_true. exists (String.list_ascii_of_string p). by rewrite list_of_append. }
  f_equal. rewrite length_append. change (String.length ".weight") with 7. rewrite Nat.add_sub. apply substring_append.
Qed.

(** ** What the exported map holds *)

(** The tensors of a layer. *)
Definition layer_entries (q : QuantizedGptqLayer) : list (string * SerializableTensor) :=
  [(".qweight", from_typed i32_bytes S_I32 [(qweight_shape q).1; (qweight_shape q).2] (gl_qweight q));
   (".qzeros", from_typed i32_bytes S_I32 [(qzeros_shape q).1; (qzeros_shape q).2] (gl_qzeros q));
   (".scales", from_typed f32_bytes S_F32 [(scales_shape q).1; (scales_shape q).2] (gl_scales q));
   (".g_idx", from_typed u32_bytes S_U32 [gl_in_features q] (gl_g_idx q))].

Lemma suffix_of_entry q s t : (s, t) ∈ layer_entries q → s ∈ layer_suffixes.
Proof. intros H. change layer_suffixes with (layer_entries q).*1. apply list_elem_of_fmap. by exists (s, t). Qed.

Lemma entry_of_suffix q s : s ∈ layer_suffixes → ∃ t, (s, t) ∈ layer_entries q.
Proof.
  change layer_suffixes with (layer_entries q).*1. intros H. apply list_elem_of_fmap in H as ([s' t] & -> & H). by exists t.
Qed.

Definition is_layer_name (name key : string) : Prop := ∃ s, s ∈ layer_suffixes ∧ key = name +:+ s.

Lemma insert_layer_other out p q k : ¬ is_layer_name p k → insert_quantized_layer out p q !! k = out !! k.
Proof.
  intros H. unfold insert_quantized_layer.
  rewrite !lookup_insert_ne; try done; intros <-; apply H; eexists; (split; [| reflexivity]); unfold layer_suffixes; set_solver.
Qed.

Lemma insert_layer_entry out p q s t : (s, t) ∈ layer_entries q → insert_quantized_layer out p q !! (p +:+ s) = Some t.
Proof.
  assert (Hne : ∀ s s', s ∈ layer_suffixes → s' ∈ layer_suffixes → s ≠ s' → p +:+ s ≠ p +:+ s').
  { intros s1 s2 H1 H2 Hn E. apply Hn. by apply (layer_names_inj p p s1 s2) in E as [_ ->]. }
  unfold layer_entries, insert_quantized_layer. rewrite !elem_of_cons, elem_of_nil.
  intros [[= -> ->]|[[= -> ->]|[[= -> ->]|[[= -> ->]|[]]]]];
    repeat first [rewrite lookup_insert_eq; reflexivity
                 | rewrite lookup_insert_ne by (apply Hne; [unfold layer_suffixes; set_solver | unfold layer_suffixes; set_solver | discriminate])].
Qed.

Section exported.
Context {T : Type} `{!NdOps T}.
Context (to_vec1_f32 : T → result (list f32) TensorError) (raw_bytes : T → result (list N) TensorError).
#[local] Abbreviation serialize := (serialize_candle_tensor raw_bytes).

Lemma keep_originals_spec ws cals incl : ∀ out0 out, NoDup ws.*1 →
  keep_originals raw_bytes ws cals incl out0 = Ok out →
  (∀ n t, (n, t) ∈ ws → should_skip_original_weight n cals incl = false → ∃ s, serialize t = Ok s ∧ out !! n = Some s)
  ∧ (∀ n, n ∉ ws.*1 ∨ should_skip_original_weight n cals incl = true → out !! n = out0 !! n).
Proof.
  clear to_vec1_f32.
  induction ws as [|[n t] ws IH]; intros out0 out Hnd; cbn [keep_originals fmap list_fmap fst].
  { intros [= <-]. split; [set_solver | done]. }
  apply NoDup_cons in Hnd as [Hn Hnd]. destruct (should_skip_original_weight n cals incl) eqn:Es.
  - intros E. destruct (IH _ _ Hnd E) as [H1 H2]. split.
    + intros k u Hk Hu. apply elem_of_cons in Hk as [[= -> ->]|Hk]; [congruence | by apply H1].
    + intros k Hk. apply H2. destruct Hk as [Hk|Hk]; [left; set_solver | by right].
  - destruct (serialize t) as [s|] eqn:Et; cbn [result_bind]; [| done]. intros E. destruct (IH _ _ Hnd E) as [H1 H2]. split.
    + intros k u Hk Hu. apply elem_of_cons in Hk as [[= -> ->]|Hk]; [| by apply H1].
      exists s. split; [done |]. rewrite H2 by (by left). apply lookup_insert_eq.
    + intros k Hk. rewrite H2 by (destruct Hk as [Hk|Hk]; [left; set_solver | by right]).
      apply lookup_insert_ne. intros <-. destruct Hk as [Hk|Hk]; [set_solver | congruence].
Qed.

Lemma quantize_layers_spec w tied cfg cals : ∀ out0 out, NoDup cals.*1 →
  quantize_layers to_vec1_f32 w tied cfg cals out0 = Some (Ok out) →
  (∀ name cal, (name, cal) ∈ cals → ∃ q, quantize_layer to_vec1_f32 w tied cfg name cal = Some (Ok q)
     ∧ ∀ s t, (s, t) ∈ layer_entries q → out !! (name +:+ s) = Some t)
  ∧ (∀ k, (∀ name, name ∈ cals.*1 → ¬ is_layer_name name k) → out !! k = out0 !! k).
Proof.
  clear raw_bytes.
  induction cals as [|[name cal] cals IH]; intros out0 out Hnd; cbn [quantize_layers fmap list_fmap fst].
  { intros [= <-]. split; [set_solver | done]. }
  apply NoDup_cons in Hnd as [Hn Hnd]. destruct (quantize_layer to_vec1_f32 w tied cfg name cal) as [[q|e]|] eqn:Eq; [| done | done].
  cbn [mbind option_bind]. intros E. destruct (IH _ _ Hnd E) as [H1 H2]. split.
  - intros k c Hk. apply elem_of_cons in Hk as [[= -> ->]|Hk]; [| by apply H1]. exists q. split; [done |].
    intros s t Hst. rewrite H2; [by apply insert_layer_entry |]. intros name' Hin (s' & Hs' & E').
    destruct (layer_names_inj _ _ _ _ (suffix_of_entry q s t Hst) Hs' E') as [<- _]. by apply Hn.
  - intros k Hk. rewrite H2 by (intros; apply Hk; by right). apply insert_layer_other. apply Hk. by left.
Qed.

Lemma in_order_elem {A} (m : gmap string A) e : e ∈ in_order m ↔ m !! e.1 = Some e.2.
Proof. unfold in_order. rewrite sort_by_perm. destruct e. apply elem_of_map_to_list. Qed.

Lemma in_order_NoDup {A} (m : gmap string A) : NoDup (in_order m).*1.
Proof. unfold in_order. rewrite sort_by_perm. apply NoDup_fst_map_to_list. Qed.

(** The exported map: the layers' tensors, and every other tensor as it was. *)
Lemma quantize_weight_map_spec w cals o tied out :
  quantize_weight_map to_vec1_f32 raw_bytes w cals o tied = Some (Ok out) →
  (∀ name cal, cals !! name = Some cal → ∃ q, quantize_layer to_vec1_f32 w tied (export_config o) name cal = Some (Ok q)
     ∧ ∀ s t, (s, t) ∈ layer_entries q → out !! (name +:+ s) = Some t)
  ∧ (∀ n t, w !! n = Some t → should_skip_original_weight n cals (xo_include_lm_head o) = false →
       (∀ name, is_Some (cals !! name) → ¬ is_layer_name name n) → ∃ s, serialize t = Ok s ∧ out !! n = Some s)
  ∧ (∀ name, is_Some (cals !! name) → out !! (name +:+ ".weight") = None)
  ∧ (∀ k s, out !! k = Some s → (∃ t, w !! k = Some t ∧ serialize t = Ok s)
       ∨ ∃ name q e, is_Some (cals !! name) ∧ quantize_layer to_vec1_f32 w tied (export_config o) name (default (calibration_new 0) (cals !! name)) = Some (Ok q)
           ∧ (e, s) ∈ layer_entries q ∧ k = name +:+ e).
Proof.
  unfold quantize_weight_map. destruct (keep_originals _ _ _ _ _) as [out0|] eqn:Ek; [| done]. intros Eq.
  apply keep_originals_spec in Ek as [K1 K2]; [| apply NoDup_fst_map_to_list].
  apply quantize_layers_spec in Eq as [Q1 Q2]; [| apply in_order_NoDup].
  assert (Hin : ∀ name, name ∈ (in_order cals).*1 ↔ is_Some (cals !! name)).
  { intros name. rewrite list_elem_of_fmap. split.
    - intros ([n c] & -> & H). apply in_order_elem in H. by eexists.
    - intros [c H]. exists (name, c). split; [done |]. by apply in_order_elem. }
  split_and!.
  - intros name cal Hc. by apply Q1, in_order_elem.
  - intros n t Hn Hs Hne. destruct (K1 n t) as (s & Es & Ho); [by apply elem_of_map_to_list | done |].
    exists s. split; [done |]. rewrite Q2; [done |]. intros name Hname. by apply Hne, Hin.
  - intros name Hname. rewrite Q2.
    + rewrite K2; [apply lookup_empty |]. right. unfold should_skip_original_weight. rewrite strip_weight_name.
      by rewrite bool_decide_eq_true_2.
    + intros name' _ (s & Hs & E). by apply (weight_name_new name name' s).
  - intros k s Hk. destruct (decide (Exists (λ name, Exists (λ e, k = name +:+ e) layer_suffixes) (in_order cals).*1)) as [Hex|Hne].
    + right. apply Exists_exists in Hex as (name & Hname & Hex). apply Exists_exists in Hex as (e & He & ->).
      apply Hin in Hname as [cal Hcal]. destruct (Q1 name cal) as (q & Eq & Hq); [by apply in_order_elem |].
      exists name, q, e. split_and!; [by eexists | by rewrite Hcal | | done].
      destruct (entry_of_suffix q e He) as [t Ht]. rewrite (Hq e t Ht) in Hk. by injection Hk as <-.
    + left. rewrite Q2 in Hk.
      * destruct (decide (k ∈ (map_to_list w).*1 ∧ should_skip_original_weight k cals (xo_include_lm_head o) = false)) as [[Hkw Hs]|Hn].
        -- apply list_elem_of_fmap in Hkw as ([k' t] & -> & Ht). destruct (K1 _ _ Ht Hs) as (s' & Es & Ho).
           cbn in Hk. exists t. split; [by apply elem_of_map_to_list in Ht |]. congruence.
        -- rewrite K2 in Hk; [by rewrite lookup_empty in Hk |].
           destruct (should_skip_original_weight k cals _) eqn:E; [by right | left]. intros H. by apply Hn.
      * intros name Hname (e & He & ->). apply Hne. apply Exists_exists. exists name. split; [done |].
        apply Exists_exists. by exists e.
Qed.
End exported.

(** ** Reading it back *)

(** What the tensor library says of its buffers: a tensor is rebuilt from its own
    bytes, and numbers from theirs. *)
Record raw_lawful {T E} `{!NdOps T, !Scalars E, !Elements T E} (raw_bytes : T → result (list N) TensorError)
    (from_raw_buffer : list N → CandleDType → list nat → result T TensorError) : Prop := {
  raw_round_trip : ∀ t b d c, raw_bytes t = Ok b → export_dtype (n_dtype t) = Some d → candle_dtype d = Some c →
    from_raw_buffer b c (n_dims t) = Ok t;
  raw_i32 : ∀ zs d, Forall i32_range zs → length zs = nprod d → ∃ t, from_raw_buffer (zs ≫= i32_bytes) C_I32 d = Ok t
    ∧ n_dims t = d ∧ n_dtype t = T_I32 ∧ n_flat t = e_i32 <$> zs;
  raw_u32 : ∀ ns d, Forall (λ n, (n <= u32_max)%N) ns → length ns = nprod d → ∃ t, from_raw_buffer (ns ≫= u32_bytes) C_U32 d = Ok t
    ∧ n_dims t = d ∧ n_dtype t = T_U32 ∧ n_flat t = e_u32 <$> ns;
  raw_f32 : ∀ xs d, forallb f32_format xs = true → length xs = nprod d → ∃ t, from_raw_buffer (xs ≫= f32_bytes) C_F32 d = Ok t
    ∧ n_dims t = d ∧ n_dtype t = T_F32 ∧ n_flat t = e_f32 <$> xs;
}.

(** The quantization that the exported configuration asks for. *)
Definition exported_quantization (o : GptqExportOptions) : QuantizationConfig :=
  mkQuantizationConfig QK_GPTQ (Some (N.of_nat (xo_group_size o))) (Some (N.of_nat (xo_bits o))).

Lemma exported_config_read o : quantization_of (quantization_value o) = Some (exported_quantization o).
Proof.
  unfold quantization_of, decode_quant. cbn [quantization_value json_object mbind option_bind].
  unfold read_opt, json_get. cbn [quantization_value json_assoc String.eqb Ascii.eqb Bool.eqb json_str json_usize json_u64 fmap option_fmap option_map mbind option_bind].
  cbn. unfold exported_quantization. by rewrite !Nat2N.id.
Qed.

Section roundtrip.
Context {T E G Q : Type} `{!TensorLib T, !NdOps T, !Scalars E, !Elements T E, !LawfulNd T E, !IeeeScalars E}.
Context (to_vec1_f32 : T → result (list f32) TensorError) (raw_bytes : T → result (list N) TensorError).
Context (from_raw_buffer : list N → CandleDType → list nat → result T TensorError).
Context (g_dims : G → list nat) (from_arc : G → result Q string) (q_forward : Q → T → result T TensorError).
Context (log2 exp2 : f32 → f32) (powi : f32 → Z → f32) (f8_from_f32 : f32 → N) (f8_from_bits : N → f32).
Context (show : nat → string) (q_show : QError → string).
Context (raw_ok : raw_lawful (E := E) raw_bytes from_raw_buffer).
#[local] Abbreviation load_linear := (load_linear (T := T) g_dims from_arc q_forward log2 exp2 powi f8_from_f32 f8_from_bits q_show).
#[local] Abbreviation exported := (quantize_weight_map to_vec1_f32 raw_bytes).
#[local] Abbreviation layer_made := (quantize_layer to_vec1_f32).

(** What calibration gives: a square matrix of the input's width. *)
Definition calibration_ok (c : GptqCalibration) : Prop :=
  length (cal_hessian c) = cal_in_features c * cal_in_features c ∧ (N.of_nat (cal_in_features c) <= u32_max)%N.

Lemma quantize_layer_Ok w tied cfg name cal q : layer_made w tied cfg name cal = Some (Ok q) →
  ∃ o i flat, layer_matrix to_vec1_f32 w tied name = Ok (o, i, flat) ∧ quantize_gptq flat o i cal cfg = Some (Ok q).
Proof.
  unfold quantize_layer. destruct (layer_matrix _ _ _ _) as [[[o i] flat]|]; [| done].
  destruct (quantize_gptq flat o i cal cfg) as [[q'|e]|] eqn:Eq; cbn [mbind option_bind]; intros [= <-]. by exists o, i, flat.
Qed.

(** A quantized layer: its sizes, and packed as the dequantizer needs. *)
Lemma quantized_ok flat o i cal cfg q : quantize_gptq flat o i cal cfg = Some (Ok q) → calibration_ok cal →
  layer_ok q ∧ gl_out_features q = o ∧ gl_in_features q = i ∧ gl_bits q = 4 ∧ gq_bits cfg = 4
  ∧ length (cal_hessian cal) = i * i ∧ (N.of_nat i <= u32_max)%N.
Proof.
  intros Hq [Hh Hn]. destruct (quantize_gptq_order _ _ _ _ _ _ Hq) as (Hc & order & Hord).
  destruct (gptq_checks_Ok _ _ _ _ _ Hc) as (Hb & _ & _ & _ & _ & Hin). rewrite Hin in Hh, Hn.
  pose proof (quantize_gptq_made flat o i cal cfg order Hc Hh Hn Hord) as Hm. rewrite Hq in Hm. cbn [outcome] in Hm.
  destruct Hm as (h & c & Hm). destruct (md_sizes _ _ _ _ _ _ _ _ _ Hm) as (E1 & E2 & E3 & _).
  split; [exact (made_layer_ok _ _ _ _ _ _ _ _ _ Hc Hord Hn Hm) |]. by split_and!.
Qed.

(** The tensors of a layer, by the ends of their names. *)
Definition held (qw qz sc gi : T) (e : string) : T :=
  if String.eqb e ".qweight" then qw else if String.eqb e ".qzeros" then qz else if String.eqb e ".scales" then sc else gi.

(** Read from their bytes, they hold the layer. *)
Lemma entries_read q : layer_ok q → forallb f32_format (gl_scales q) = true →
  ∃ qw qz sc gi, holds_layer (E := E) qw qz sc gi q
    ∧ ∀ e s, (e, s) ∈ layer_entries q → st_dtype s ≠ S_I8
        ∧ ∀ n, load_non_i8_view from_raw_buffer (mkView n (st_dtype s) (st_shape s) (st_bytes s)) = Ok (held qw qz sc gi e).
Proof using raw_ok.
  intros [Hin Hout [Lw Rw] [Lz Rz] Ls [Lg Rg]] Hf.
  destruct (raw_i32 _ _ raw_ok (gl_qweight q) [(qweight_shape q).1; (qweight_shape q).2] Rw) as (qw & Ew & Dw).
  { rewrite Lw. cbn. unfold PACK_FACTOR. lia. }
  destruct (raw_i32 _ _ raw_ok (gl_qzeros q) [(qzeros_shape q).1; (qzeros_shape q).2] Rz) as (qz & Ez & Dz).
  { rewrite Lz. cbn. unfold PACK_FACTOR. lia. }
  destruct (raw_f32 _ _ raw_ok (gl_scales q) [(scales_shape q).1; (scales_shape q).2] Hf) as (sc & Es & Ds).
  { rewrite Ls. cbn. lia. }
  destruct (raw_u32 _ _ raw_ok (gl_g_idx q) [gl_in_features q]) as (gi & Eg & Dg).
  { apply (Forall_impl _ _ _ Rg). by intros n [_ H]. }
  { rewrite Lg. cbn. lia. }
  exists qw, qz, sc, gi. split; cycle 1.
  { intros e s. unfold layer_entries. rewrite !elem_of_cons, elem_of_nil.
    intros [[= -> ->]|[[= -> ->]|[[= -> ->]|[[= -> ->]|[]]]]]; split; done. }
  unfold holds_layer, qweight_shape, qzeros_shape, scales_shape, PACK_FACTOR in *. cbn [fst snd] in *.
  split; [exact Dw |]. split; [exact Dz |]. split; [exact Ds | exact Dg].
Qed.

(** Four tensors under a layer's names load as its projection. *)
Lemma load_packed name (q : QuantizationConfig) schema (ws : gmap string T) quant qw qz sc gi rows :
  qc_kind q = QK_GPTQ → ws !! (name +:+ ".qweight") = Some qw → ws !! (name +:+ ".qzeros") = Some qz →
  ws !! (name +:+ ".scales") = Some sc → ws !! (name +:+ ".g_idx") = Some gi → n_dim qw 0 = Ok rows →
  ∃ s', load_linear name (Some q) schema (mkWeightSource ws quant None)
    = Some (Ok (new_gptq qw qz sc gi (bits_of (Some q)) (group_size_of (Some q))), s').
Proof.
  clear raw_ok raw_bytes from_raw_buffer to_vec1_f32 show IeeeScalars0 LawfulNd0 Elements0 Scalars0 E.
  intros Hk Hw Hz Hs Hg Hd. unfold LlamaLoad.load_linear, l_bind, has_tensor, remove_tensor, take_tensor, l_try, l_ret, lift.
  assert (Hne : ∀ a b, a ∈ layer_suffixes → b ∈ layer_suffixes → a ≠ b → name +:+ a ≠ name +:+ b).
  { intros a b Ha Hb Hab Eq. apply Hab. by apply (layer_names_inj name name a b) in Eq as [_ ->]. }
  cbn [weights quantized gguf_weights]. rewrite Hw. rewrite bool_decide_eq_true_2 by (by eexists).
  assert (Hwz : name +:+ ".qweight" ≠ name +:+ ".qzeros") by (apply Hne; unfold layer_suffixes; (set_solver || discriminate)).
  assert (Hws : name +:+ ".qweight" ≠ name +:+ ".scales") by (apply Hne; unfold layer_suffixes; (set_solver || discriminate)).
  assert (Hwg : name +:+ ".qweight" ≠ name +:+ ".g_idx") by (apply Hne; unfold layer_suffixes; (set_solver || discriminate)).
  assert (Hzs : name +:+ ".qzeros" ≠ name +:+ ".scales") by (apply Hne; unfold layer_suffixes; (set_solver || discriminate)).
  assert (Hzg : name +:+ ".qzeros" ≠ name +:+ ".g_idx") by (apply Hne; unfold layer_suffixes; (set_solver || discriminate)).
  assert (Hsg : name +:+ ".scales" ≠ name +:+ ".g_idx") by (apply Hne; unfold layer_suffixes; (set_solver || discriminate)).
  cbn [weights quantized gguf_weights]. rewrite Hw. cbn [weights quantized gguf_weights].
  rewrite lookup_delete_ne, Hz by done. cbn [weights quantized gguf_weights].
  rewrite !lookup_delete_ne, Hs by done. cbn [weights quantized gguf_weights].
  rewrite Hd. rewrite bool_decide_eq_false_2 by (cbn; rewrite Hk; discriminate). cbn [weights quantized gguf_weights].
  rewrite !lookup_delete_ne, Hg by done. by eexists.
Qed.

(** The view of an entry of the file. *)
#[local] Abbreviation view := (λ e : string * SerializableTensor, mkView e.1 (st_dtype e.2) (st_shape e.2) (st_bytes e.2)).

Lemma kept_read t s n : serialize_candle_tensor raw_bytes t = Ok s →
  load_non_i8_view from_raw_buffer (view (n, s)) = Ok t ∧ st_dtype s ≠ S_I8.
Proof using raw_ok.
  unfold serialize_candle_tensor. destruct (export_dtype (n_dtype t)) as [d|] eqn:Ed; [| done].
  destruct (raw_bytes t) as [b|] eqn:Eb; cbn [or_tensor result_bind]; [| done]. intros [= <-].
  unfold load_non_i8_view. cbn [st_dtype st_shape st_bytes sv_dtype sv_shape sv_data fst snd].
  destruct (n_dtype t) eqn:Et; cbn in Ed; try done; injection Ed as <-; split; try done;
    cbn [candle_dtype]; eapply (raw_round_trip _ _ raw_ok); (done || by rewrite Et).
Qed.

Lemma layer_read w tied cfg name cal q : calibration_ok cal → layer_made w tied cfg name cal = Some (Ok q) →
  forallb f32_format (gl_scales q) = true →
  ∃ outs ins flat, layer_matrix to_vec1_f32 w tied name = Ok (outs, ins, flat)
    ∧ quantize_gptq flat outs ins cal cfg = Some (Ok q) ∧ gq_bits cfg = 4 ∧ gl_bits q = 4
    ∧ length (cal_hessian cal) = ins * ins ∧ (N.of_nat ins <= u32_max)%N
    ∧ ∃ qw qz sc gi, holds_layer (E := E) qw qz sc gi q
      ∧ ∀ e s, (e, s) ∈ layer_entries q → st_dtype s ≠ S_I8
          ∧ ∀ n, load_non_i8_view from_raw_buffer (view (n, s)) = Ok (held qw qz sc gi e).
Proof using raw_ok.
  intros Hcal Hq Hf. destruct (quantize_layer_Ok _ _ _ _ _ _ Hq) as (outs & ins & flat & Em & Eq).
  destruct (quantized_ok _ _ _ _ _ _ Eq Hcal) as (Hok & _ & _ & Hb & Hb' & Hh & Hn).
  destruct (entries_read q Hok Hf) as (qw & qz & sc & gi & Hold & Hread).
  exists outs, ins, flat. split_and!; try done. by exists qw, qz, sc, gi.
Qed.

(** C37. Exporting and loading a quantized checkpoint.  When the export succeeds, its file is
    read back without an error, and its configuration asks for GPTQ of the same width
    and group size.  Under the name of each calibrated layer the model's loader then
    builds a projection whose matrix is, at every output and input, the quantizer's own
    reading of the layer it made from the original matrix; the original is gone, and
    every tensor that was not quantized is read back as it was. *)
Theorem gptq_export_loads schema (w : gmap string T) cals o tied out
    (Hexport : exported w cals o tied = Some (Ok out))
    (Hcals : map_Forall (λ _ c, calibration_ok c) cals)
    (Hscales : ∀ name cal q, cals !! name = Some cal → layer_made w tied (export_config o) name cal = Some (Ok q) →
       forallb f32_format (gl_scales q) = true) :
  quantization_of (quantization_value o) = Some (exported_quantization o)
  ∧ ∃ tensors, load_views from_raw_buffer (checkpoint_views out) (∅, ∅) = Ok (tensors, ∅)
    ∧ (∀ name cal, cals !! name = Some cal → ∃ outs ins flat q l s',
         layer_matrix to_vec1_f32 w tied name = Ok (outs, ins, flat)
         ∧ quantize_gptq flat outs ins cal (export_config o) = Some (Ok q)
         ∧ load_linear name (Some (exported_quantization o)) schema (mkWeightSource tensors ∅ None) = Some (Ok l, s')
         ∧ (∃ r, linear_weight show l = Some r ∧ gives (E := E) r T_F32 [outs; ins]
              (λ i, match i with [a; b] => e_f32 (default F32.zero (dequantize_cell q a b)) | _ => e_zero end))
         ∧ tensors !! (name +:+ ".weight") = None)
    ∧ (∀ n t, w !! n = Some t → should_skip_original_weight n cals (xo_include_lm_head o) = false →
         (∀ name, is_Some (cals !! name) → ¬ is_layer_name name n) → tensors !! n = Some t).
Proof using All.
  split; [apply exported_config_read |].
  destruct (quantize_weight_map_spec to_vec1_f32 raw_bytes w cals o tied out Hexport) as (Hlayers & Hkept & Hgone & Hall).
  destruct (load_views_spec from_raw_buffer (checkpoint_views out) (∅, ∅)) as ([tensors quant] & Eload & Equant & Hread & Hnone).
  { unfold checkpoint_views. rewrite <- list_fmap_compose. apply NoDup_fst_map_to_list. }
  { unfold checkpoint_views. rewrite Forall_fmap. apply Forall_forall. intros [k s] Hks. apply elem_of_map_to_list in Hks.
    cbn [compose]. destruct (Hall k s Hks) as [(t & _ & Es)|(name & q & e & [cal Hcal] & Hq & He & _)].
    - destruct (kept_read t s k Es) as [Hl Hd]. split; [exact Hd |]. cbn [fst snd] in Hl |- *. by rewrite Hl.
    - rewrite Hcal in Hq. destruct (layer_read _ _ _ _ _ _ (Hcals _ _ Hcal) Hq (Hscales _ _ _ Hcal Hq)) as
        (? & ? & ? & _ & _ & _ & _ & _ & _ & qw & qz & sc & gi & _ & Hr).
      destruct (Hr e s He) as [Hd Hl]. split; [exact Hd |]. specialize (Hl k). cbn [fst snd] in Hl |- *. by rewrite Hl. }
  cbn [snd] in Equant. subst quant. cbn [fst] in Hread, Hnone.
  assert (Hget : ∀ k s t, out !! k = Some s → load_non_i8_view from_raw_buffer (view (k, s)) = Ok t → tensors !! k = Some t).
  { intros k s t Hk Hl. apply (Hread (view (k, s)) t); [| done]. unfold checkpoint_views. apply list_elem_of_fmap.
    exists (k, s). split; [done | by apply elem_of_map_to_list]. }
  exists tensors. split; [exact Eload |]. split.
  - intros name cal Hcal. destruct (Hlayers name cal Hcal) as (q & Hq & Hentries).
    destruct (layer_read _ _ _ _ _ _ (Hcals _ _ Hcal) Hq (Hscales _ _ _ Hcal Hq)) as
      (outs & ins & flat & Em & Eq & Hbits & Hgb & Hh & Hn & qw & qz & sc & gi & Hold & Hr).
    assert (Hat : ∀ e, e ∈ layer_suffixes → tensors !! (name +:+ e) = Some (held qw qz sc gi e)).
    { intros e He. destruct (entry_of_suffix q e He) as [s Hs]. destruct (Hr e s Hs) as [_ Hl]. apply (Hget _ s); [by apply Hentries | apply Hl]. }
    assert (Hdim : ∃ rows, n_dim qw 0 = Ok rows).
    { unfold holds_layer, qweight_shape in Hold. destruct Hold as ((Hd & _) & _). unfold n_dim. rewrite Hd. by eexists. }
    destruct Hdim as [rows Hdim].
    assert (Hw : tensors !! (name +:+ ".qweight") = Some qw) by (apply Hat; unfold layer_suffixes; set_solver).
    assert (Hz : tensors !! (name +:+ ".qzeros") = Some qz) by (apply Hat; unfold layer_suffixes; set_solver).
    assert (Hs : tensors !! (name +:+ ".scales") = Some sc) by (apply Hat; unfold layer_suffixes; set_solver).
    assert (Hg : tensors !! (name +:+ ".g_idx") = Some gi) by (apply Hat; unfold layer_suffixes; set_solver).
    destruct (load_packed name (exported_quantization o) schema tensors ∅ qw qz sc gi rows eq_refl Hw Hz Hs Hg Hdim) as [s' El].
    do 6 eexists. split; [exact Em |]. split; [exact Eq |]. split; [exact El |]. split; cycle 1.
    { rewrite Hnone; [apply lookup_empty |]. intros Hin. unfold checkpoint_views in Hin. rewrite <- list_fmap_compose in Hin.
      apply list_elem_of_fmap in Hin as ([k s] & Ek & Hks). apply elem_of_map_to_list in Hks. cbn in Ek. subst k.
      rewrite (Hgone name) in Hks; [done | by eexists]. }
    eexists. split; [reflexivity |].
    change (bits_of (Some (exported_quantization o))) with (N.to_nat (N.of_nat (xo_bits o))). rewrite Nat2N.id. cbn [export_config gq_bits] in Hbits. rewrite Hbits, <- Hgb.
    by apply (quantized_layer_loads (E := E) show flat outs ins cal (export_config o) q).
  - intros n t Hn Hs Hne. destruct (Hkept n t Hn Hs Hne) as (s & Es & Ho).
    apply (Hget n s); [done |]. by apply kept_read.
Qed.
End roundtrip.

(** ** Buffers of host tensors *)

(** The little-endian words of a buffer. *)
Fixpoint le_words (bytes : list N) : list N :=
  match bytes with
  | a :: b :: c :: d :: bytes => (a + 256 * b + 65536 * c + 16777216 * d)%N :: le_words bytes
  | _ => []
  end.

Lemma le_words_app (n : N) (bytes : list N) : (n <= u32_max)%N → le_words (le_bytes 4 n ++ bytes) = n :: le_words bytes.
Proof.
  unfold u32_max. intros Hn. cbn [le_bytes app le_words]. f_equal.
  pose proof (N.div_mod n 256 ltac:(done)). pose proof (N.div_mod (n / 256) 256 ltac:(done)).
  pose proof (N.div_mod (n / 256 / 256) 256 ltac:(done)). pose proof (N.div_mod (n / 256 / 256 / 256) 256 ltac:(done)).
  assert (n / 256 / 256 / 256 / 256 = 0)%N; [| lia]. rewrite !N.Div0.div_div. apply N.div_small. lia.
Qed.

Lemma le_words_bytes {A} (f : A → N) (l : list A) : Forall (λ a, (f a <= u32_max)%N) l → le_words (l ≫= λ a, le_bytes 4 (f a)) = f <$> l.
Proof.
  induction l as [|a l IH]; [done |]. intros [Ha Hl]%Forall_cons.
  rewrite bind_cons, le_words_app by done. by rewrite (IH Hl).
Qed.

Lemma i32_round_trip z : i32_range z → u32_as_i32 (i32_as_u32 z) = z ∧ (i32_as_u32 z <= u32_max)%N.
Proof.
  unfold i32_range, i32_as_u32, u32_as_i32, u32_max. intros Hz. pose proof (Z.mod_pos_bound z 4294967296 ltac:(lia)).
  destruct (decide (0 <= z)%Z).
  - rewrite Z.mod_small by lia. destruct (N.ltb_spec (Z.to_N z) 2147483648); lia.
  - rewrite <- (Z_mod_plus_full z 1), Z.mod_small by lia. destruct (N.ltb_spec (Z.to_N (z + 1 * 4294967296)) 2147483648); lia.
Qed.

#[local] Abbreviation H := (NdHost Value).
#[local] Existing Instances value_scalars value_ieee host_nd host_elements host_nd_lawful.

Definition f32_of (v : Value) : option f32 := match v with V32 x => if f32_format x then Some x else None | _ => None end.
Definition u32_of (v : Value) : option N := match v with VU32 n => if (n <=? u32_max)%N then Some n else None | _ => None end.
Definition i32_of (v : Value) : option Z :=
  match v with VI32 z => if bool_decide (i32_range z) then Some z else None | _ => None end.

(** The host has no halves. *)
Definition host_raw_bytes (t : H) : result (list N) TensorError :=
  let bytes {A} (rd : Value → option A) (enc : A → list N) :=
    match mapM rd (nh_data t) with Some l => Ok (l ≫= enc) | None => Err "not of the type" end in
  match nh_dtype t with
  | T_F32 => bytes f32_of f32_bytes
  | T_U32 => bytes u32_of u32_bytes
  | T_I32 => bytes i32_of i32_bytes
  | _ => Err "no such values"
  end.

Definition host_from_raw (b : list N) (c : CandleDType) (d : list nat) : result H TensorError :=
  match c with
  | C_F32 => Ok (mkNdHost d T_F32 ((λ w, V32 (f32_of_bits w)) <$> le_words b))
  | C_U32 => Ok (mkNdHost d T_U32 (VU32 <$> le_words b))
  | C_I32 => Ok (mkNdHost d T_I32 ((λ w, VI32 (u32_as_i32 w)) <$> le_words b))
  | _ => Err "no such values"
  end.

Lemma f32_words xs : Forall (λ x, f32_format x = true) xs →
  (λ w, V32 (f32_of_bits w)) <$> le_words (xs ≫= f32_bytes) = V32 <$> xs.
Proof.
  intros Hx. unfold f32_bytes. rewrite le_words_bytes.
  - rewrite <- list_fmap_compose. apply Forall_fmap_ext_1, (Forall_impl _ _ _ Hx). intros x Hf. cbn [compose].
    unfold f32_format in Hf. apply andb_true_iff in Hf as [Hf _]. by apply bool_decide_eq_true in Hf as ->.
  - apply (Forall_impl _ _ _ Hx). intros x Hf. unfold f32_format in Hf. apply andb_true_iff in Hf as [_ Hf]. by apply N.leb_le.
Qed.

Lemma i32_words zs : Forall i32_range zs → (λ w, VI32 (u32_as_i32 w)) <$> le_words (zs ≫= i32_bytes) = VI32 <$> zs.
Proof.
  intros Hz. unfold i32_bytes. rewrite (le_words_bytes i32_as_u32).
  - rewrite <- list_fmap_compose. apply Forall_fmap_ext_1, (Forall_impl _ _ _ Hz). intros z Hr. cbn [compose].
    by rewrite (proj1 (i32_round_trip z Hr)).
  - apply (Forall_impl _ _ _ Hz). intros z Hr. by apply i32_round_trip.
Qed.

Lemma u32_words ns : Forall (λ n, (n <= u32_max)%N) ns → le_words (ns ≫= u32_bytes) = ns.
Proof. intros Hn. unfold u32_bytes. rewrite (le_words_bytes id); [by rewrite list_fmap_id | exact Hn]. Qed.

(** What a reader of values accepts is what it then gives. *)
Lemma mapM_values {A} (rd : Value → option A) (enc : A → Value) (P : A → Prop) l vs :
  (∀ v a, rd v = Some a → v = enc a ∧ P a) → mapM rd vs = Some l → vs = enc <$> l ∧ Forall P l.
Proof.
  intros Hrd Hm. apply mapM_Some in Hm. split.
  - induction Hm as [|v a vs l Hv _ IH]; [done |]. cbn. by rewrite (proj1 (Hrd _ _ Hv)), IH.
  - induction Hm as [|v a vs l Hv _ IH]; constructor; [by eapply Hrd | done].
Qed.

Lemma host_raw_lawful : raw_lawful (E := Value) host_raw_bytes host_from_raw.
Proof.
  split.
  - intros [d ty data] b sd c Hb Hd Hc. unfold host_raw_bytes in Hb. cbn [nh_dtype nh_data n_dtype n_dims host_nd nh_dims] in *.
    destruct ty; cbn in Hd; try done; injection Hd as <-; cbn in Hc; injection Hc as <-; cbn in Hb; try done.
    + destruct (mapM f32_of data) as [l|] eqn:E; [| done]. injection Hb as <-.
      destruct (mapM_values f32_of V32 (λ x, f32_format x = true) l data) as [-> Hl]; [| done |].
      { intros [x|x|z|n|n] a; cbn; try done. destruct (f32_format x) eqn:Ef; [| done]. by intros [= ->]. }
      unfold host_from_raw. by rewrite f32_words.
    + destruct (mapM u32_of data) as [l|] eqn:E; [| done]. injection Hb as <-.
      destruct (mapM_values u32_of VU32 (λ n, (n <= u32_max)%N) l data) as [-> Hl]; [| done |].
      { intros [x|x|z|n|n] a; cbn; try done. destruct (N.leb_spec n u32_max); [| done]. by intros [= ->]. }
      unfold host_from_raw. by rewrite u32_words.
    + destruct (mapM i32_of data) as [l|] eqn:E; [| done]. injection Hb as <-.
      destruct (mapM_values i32_of VI32 i32_range l data) as [-> Hl]; [| done |].
      { intros [x|x|z|n|n] a; cbn; try done. case_bool_decide; [| done]. by intros [= ->]. }
      unfold host_from_raw. by rewrite i32_words.
  - intros zs d Hz _. unfold host_from_raw. rewrite i32_words by done. by eexists.
  - intros ns d Hn _. unfold host_from_raw. rewrite u32_words by done. by eexists.
  - intros xs d Hx _. unfold host_from_raw. rewrite f32_words; [by eexists |].
    apply Forall_forall. intros x Hin. rewrite forallb_forall in Hx. by apply Hx, list_elem_of_In.
Qed.


(** ** A small model's export *)
#[local] Instance value_lib : TensorLib H := {
  t_dims := n_dims;
  t_dtype := n_dtype;
  t_to_dtype := n_to_dtype;
  t_flatten_all := n_flatten_all;
  t_to_vec1_f32 t := Ok (e_to_f32 <$> nh_data t);
  t_to_vec1_u8 t := Ok (e_to_u32 <$> nh_data t);
  t_to_vec1_f8 t := Ok (e_to_u32 <$> nh_data t);
  t_to_vec2_f32 := n_to_vec2_f32;
  t_from_f32 := n_from_f32;
  t_from_u8 := n_from_u32;
  t_reshape := n_reshape;
  t_t := n_t;
  t_matmul := n_matmul;
  t_broadcast_sub := n_sub;
  t_broadcast_mul := n_broadcast_mul;
}.

Definition host_to_vec1_f32 (t : H) : result (list f32) TensorError := Ok (e_to_f32 <$> nh_data t).

Definition small_norm : H := mkNdHost [8] T_F32 ((λ z, V32 (F32.of_Z z)) <$> [1; -2; 3; 0; 1; 1; 5; 1]%Z).
Definition small_weights : gmap string H :=
  list_to_map [("model.norm.weight", small_norm);
               ("model.layers.0.self_attn.q_proj.weight", mkNdHost [8; 8] T_F32 (V32 <$> demo_gptq_weights))].
Definition small_calibrations : gmap string GptqCalibration :=
  {["model.layers.0.self_attn.q_proj" := demo_calibration]}.
Definition small_options : GptqExportOptions :=
  mkExportOptions 4 4 (F32.div F32.one (F32.of_Z 16)) true ["a prompt"] 1 8 false.

(** The quantized projection and the norm as the model's loader finds them. *)
Lemma gptq_export_loads_witness :
  ∃ out tensors l s', quantize_weight_map host_to_vec1_f32 host_raw_bytes small_weights small_calibrations small_options false = Some (Ok out)
    ∧ load_views host_from_raw (checkpoint_views out) (∅, ∅) = Ok (tensors, ∅)
    ∧ load_linear (Q := unit) (λ _ : unit, []) (λ _, Err "") (λ _ t, Ok t) id id (λ x _, x) (λ _, 0%N) (λ _, F32.zero) (λ _, "")
        "model.layers.0.self_attn.q_proj" (Some (exported_quantization small_options)) None (mkWeightSource tensors ∅ None) = Some (Ok l, s')
    ∧ tensors !! "model.norm.weight" = Some small_norm
    ∧ tensors !! "model.layers.0.self_attn.q_proj.weight" = None.
Proof.
  destruct (quantize_weight_map host_to_vec1_f32 host_raw_bytes small_weights small_calibrations small_options false) as [[out|e]|] eqn:Eo;
    [| vm_compute in Eo; discriminate Eo | vm_compute in Eo; discriminate Eo].
  destruct (gptq_export_loads (T := H) (E := Value) (Q := unit) host_to_vec1_f32 host_raw_bytes host_from_raw (λ _ : unit, []) (λ _, Err "")
    (λ _ t, Ok t) id id (λ x _, x) (λ _, 0%N) (λ _, F32.zero) (λ _, "") (λ _, "") host_raw_lawful None small_weights small_calibrations
    small_options false out Eo) as [_ (tensors & El & Hl & Hk)].
  - intros name c Hc. unfold small_calibrations in Hc; apply lookup_singleton_Some in Hc as [_ <-]. split; [vm_compute; reflexivity | vm_compute; discriminate].
  - intros name c q Hc Hq. unfold small_calibrations in Hc; apply lookup_singleton_Some in Hc as [<- <-]. vm_compute in Hq. injection Hq as <-. vm_compute. reflexivity.
  - destruct (Hl "model.layers.0.self_attn.q_proj" demo_calibration) as (_ & _ & _ & _ & l & s' & _ & _ & Ell & _ & Hnone); [reflexivity |].
    exists out, tensors, l, s'. split; [reflexivity |]. split; [exact El |]. split; [exact Ell |]. split; [| exact Hnone].
    apply Hk; [vm_compute; reflexivity | vm_compute; reflexivity |].
    intros name [c Hc] (e & He & En). unfold small_calibrations in Hc; apply lookup_singleton_Some in Hc as [<- _]. discriminate En.
Defined.
