(* ===== verification/ExportDir.v ===== *)
(** * Quantizing a model directory (rllm-model/src/quantize.rs)

    The whole command: the configuration, the calibration prompts, the weights, the
    model whose runs over the prompts give the statistics of each projection, and the
    quantized checkpoint with its configuration.  The tokenizer is the caller's; of the
    output directory only what it holds before is known.  The theorem says what a
    successful run has written: statistics that the model gathered are always of a
    square matrix, so [gptq_export_loads] applies to what they quantize. *)
From S2P Require Import Prelude F32 CoreTypes Json CpuRef Tensors Mxfp NdTensor QuantMethod Gptq Dequant Rope Layers Llama LlamaLoad HfConfig Loader Export.
#[local] Open Scope string_scope.
#[local] Open Scope list_scope.
#[local] Open Scope nat_scope.
#[local] Open Scope rllm_scope.

(** Statistics of a square matrix. *)
Definition square (c : GptqCalibration) : Prop := length (cal_hessian c) = cal_in_features c * cal_in_features c.

Lemma observe_square batch : ∀ c r c', square c → observe batch c = Some (r, c') → square c'.
Proof.
  induction batch as [|sample batch IH]; intros c r c' Hc; cbn [observe]; [by intros [= _ <-] |].
  unfold observe_sample. destruct (negb _); cbn [mbind option_bind]; [by intros [= _ <-] |].
  destruct (add_outer _ sample (cal_hessian c)) as [h|] eqn:E; cbn [mbind option_bind]; [| done]. apply IH.
  unfold square. cbn [cal_hessian cal_in_features]. unfold add_outer in E.
  revert E. apply (for_each_keep (λ h, length h = cal_in_features c * cal_in_features c)); [exact Hc |]. intros row h1 h2 E H1; cbv beta in E, H1 |- *. destruct (sample !! row) as [a|]; cbn [mbind option_bind] in E; [| done].
  revert E. apply (for_each_keep (λ h, length h = cal_in_features c * cal_in_features c)); [exact H1 |]. intros col h3 h4 E H3; cbv beta in E, H3 |- *. destruct (sample !! col) as [b|]; cbn [mbind option_bind] in E; [| done].
  destruct (h3 !! _) as [x|]; cbn [mbind option_bind] in E; [| done]. revert E. unfold vec_set. case_match; [| done].
  intros [= <-]. by rewrite length_insert.
Qed.

Section keeps.
Context {T : Type} `{!NdOps T} (show : nat → string) (gptq_error : GptqError → TensorError).

(** A step of calibration that keeps the statistics square. *)
Definition keeps {A} (m : Cal A) : Prop := ∀ s r s', map_Forall (λ _, square) s → m s = Some (r, s') → map_Forall (λ _, square) s'.

Lemma keeps_bind {A B} (m : Cal A) (k : A → Cal B) : keeps m → (∀ a, keeps (k a)) → keeps (c_bind m k).
Proof.
  intros Hm Hk s r s' Hs. unfold c_bind. destruct (m s) as [[[a|e] s1]|] eqn:E; [| | done].
  - by apply Hk, (Hm _ _ _ Hs E).
  - intros [= _ <-]. by apply (Hm _ _ _ Hs E).
Qed.

Lemma keeps_run {A} (m : option (result A TensorError)) : keeps (c_run m).
Proof. intros s r s' Hs. unfold c_run. destruct m; cbn [mbind option_bind]; [| done]. by intros [= _ <-]. Qed.

Lemma keeps_try {A} (r : result A TensorError) : keeps (c_try r).
Proof. apply keeps_run. Qed.

Lemma keeps_ret {A} (a : A) : keeps (c_ret a).
Proof. intros s r s' Hs. by intros [= _ <-]. Qed.

Lemma keeps_observe name linear input : keeps (observe_linear_input show gptq_error name linear input).
Proof.
  unfold observe_linear_input. apply keeps_bind; [apply keeps_run |]. intros weight. apply keeps_bind; [apply keeps_try |].
  intros n. apply keeps_bind; [apply keeps_try |]. intros x. destruct (n =? 0); [done |].
  apply keeps_bind; [apply keeps_try |]. intros samples s r s' Hs.
  destruct (observe samples _) as [[q c]|] eqn:E; cbn [mbind option_bind]; [| done]. intros [= _ <-].
  apply map_Forall_insert_2; [| done]. eapply observe_square; [| exact E].
  destruct (s !! name) as [c0|] eqn:E0; cbn [default]; [by apply (Hs _ _ E0) |]. unfold square. cbn. apply length_replicate.
Qed.

#[local] Ltac keep_steps := repeat lazymatch goal with
  | |- keeps (match ?p with (_, _) => _ end) => destruct p
  | |- keeps (observe_linear_input _ _ _ _ _) => apply keeps_observe
  | |- keeps (c_try _) => apply keeps_try
  | |- keeps (c_run _) => apply keeps_run
  | |- keeps (c_bind _ _) => apply keeps_bind; [| intros ?]
  end.

Lemma keeps_layers ls : ∀ i x positions rp, keeps (collect_layers show gptq_error i ls x positions rp).
Proof.
  induction ls as [|l ls IH]; intros i x positions rp; cbn [collect_layers]; [apply keeps_ret |].
  assert (Hl : ∀ p, keeps (collect_decoder_layer_calibration show gptq_error l x positions rp p)).
  { intros p. unfold collect_decoder_layer_calibration, collect_attention_calibration, collect_mlp_calibration, observed_forward.
    keep_steps. }
  intros s r s' Hs. destruct (collect_decoder_layer_calibration _ _ _ _ _ _ _ s) as [[[y|e] s1]|] eqn:E; [| | done].
  - by apply IH, (Hl _ _ _ _ Hs E).
  - intros [= _ <-]. by apply (Hl _ _ _ _ Hs E).
Qed.

(** Whatever the model gathers is square. *)
Lemma collected_square m batches incl cals :
  collect_gptq_calibrations show gptq_error m batches incl = Some (Ok cals) → map_Forall (λ _, square) cals.
Proof.
  assert (Hb : keeps (collect_batches show gptq_error m batches incl)).
  { induction batches as [|[|t ts] batches IH]; cbn [collect_batches]; [apply keeps_ret | exact IH |].
    apply keeps_bind; [apply keeps_try |]. intros ids. apply keeps_bind; [| intros _; exact IH].
    unfold collect_batch. apply keeps_bind; [apply keeps_run |]. intros x. apply keeps_bind; [apply keeps_layers |].
    intros h. apply keeps_bind; [apply keeps_try |]. intros y. destruct incl; [apply keeps_observe | apply keeps_ret]. }
  unfold collect_gptq_calibrations. destruct (collect_batches _ _ _ _ _ ∅) as [[r s]|] eqn:E; cbn [mbind option_bind]; [| done].
  destruct r; [| done]. intros [= <-]. eapply Hb; [apply map_Forall_empty | exact E].
Qed.
End keeps.


(** ** The command *)
Inductive CommandError : Type :=
  | CE_NoPrompts
  | CE_NoConfig
  | CE_Config (e : HfError)
  | CE_NoTokenizer
  | CE_NoTokens
  | CE_Export (e : ExportError)
  | CE_Load (e : LoadError)
  | CE_Model (e : QError)
  | CE_Calibration (e : TensorError)
  | CE_NotEmpty.

Definition or_command {A E} (f : E → CommandError) (r : result A E) : result A CommandError :=
  match r with Ok a => Ok a | Err e => Err (f e) end.

(** What is written: the tensors of [model.safetensors] and [config.json]. *)
Record Exported : Type := mkExported {
  ex_tensors : gmap string SerializableTensor;
  ex_config : Json;
}.

Section command.
Context {T G Q : Type} `{!TensorLib T, !NdOps T}.
Context (g_dims : G → list nat) (from_arc : G → result Q string).
Context (log2 exp2 : f32 → f32) (powi : f32 → Z → f32) (f8_from_f32 : f32 → N) (f8_from_bits : N → f32).
Context (q_forward : Q → T → result T TensorError).
Context (powf : f64 → f64 → f64) (show : nat → string) (q_show : QError → string) (gptq_error : GptqError → TensorError).
Context (to_vec1_f32 : T → result (list f32) TensorError) (raw_bytes : T → result (list N) TensorError).
Context (from_raw_buffer : list N → CandleDType → list nat → result T TensorError).
#[local] Abbreviation load_weights := (load_weights_with_tied_detection (T := T) (G := G) from_raw_buffer).
#[local] Abbreviation llama_new := (llama_new (T := T) g_dims from_arc q_forward log2 exp2 powi f8_from_f32 f8_from_bits powf show q_show).

(** [materialize_output_dir]: what is there before, if it is there, must be empty. *)
Definition materialize_output_dir (output : option (list string)) : result unit CommandError :=
  match output with Some (_ :: _) => Err CE_NotEmpty | _ => Ok () end.

(** [tokenizer] is what [encode] does, when the file can be read.  The model is a Llama
    model whatever the architecture of the configuration. *)
Definition quantize_model_dir_to_gptq (d : ModelDir) (tokenizer : option (string → bool → option (list N)))
    (output : option (list string)) (o : GptqExportOptions) : option (result Exported CommandError) :=
  match xo_calibration_prompts o with
  | [] => Some (Err CE_NoPrompts)
  | _ =>
      match md_config d with
      | None => Some (Err CE_NoConfig)
      | Some v =>
          config <-! (r ← parse_hf_config v (md_path d); Some (or_command CE_Config r));
          match tokenizer with
          | None => Some (Err CE_NoTokenizer)
          | Some encode =>
              batches <-! Some (or_command CE_Export (build_calibration_batches encode o));
              if bool_decide (batches = []) then Some (Err CE_NoTokens)
              else
                loaded <-! Some (or_command CE_Load (load_weights d));
                let '(w, tied_lm_head) := loaded in
                '(r, _) ← llama_new config (wm_quant_schema w) (weight_source w);
                model <-! Some (or_command CE_Model r);
                calibrations <-! (r ← collect_gptq_calibrations show gptq_error model batches (xo_include_lm_head o);
                                  Some (or_command CE_Calibration r));
                tensors <-! (r ← quantize_weight_map to_vec1_f32 raw_bytes (wm_weights w) calibrations o tied_lm_head;
                             Some (or_command CE_Export r));
                _ <-! Some (materialize_output_dir output);
                json ← write_quantized_config v o;
                Some (Ok (mkExported tensors json))
          end
      end
  end.

(** A step that succeeded. *)
Lemma bind_r_Ok {A B E} (m : option (result A E)) (k : A → option (result B E)) b :
  bind_r m k = Some (Ok b) → ∃ a, m = Some (Ok a) ∧ k a = Some (Ok b).
Proof. destruct m as [[a|e]|]; [| done | done]. intros H. by exists a. Qed.

Lemma or_command_Ok {A E} (f : E → CommandError) (r : result A E) a : or_command f r = Ok a → r = Ok a.
Proof. destruct r; [| done]. by intros [= ->]. Qed.

(** A successful run: every prompt was encoded, the model is the Llama model of the
    directory's weights, and what is written is the quantization of those weights by the
    statistics that the model gathered, which are of square matrices; the output
    directory held nothing. *)
Theorem quantized_dir_spec d tokenizer output o x :
  quantize_model_dir_to_gptq d tokenizer output o = Some (Ok x) →
  ∃ v config encode batches w tied m s cals, md_config d = Some v ∧ parse_hf_config v (md_path d) = Some (Ok config)
    ∧ tokenizer = Some encode ∧ build_calibration_batches encode o = Ok batches ∧ batches ≠ []
    ∧ load_weights d = Ok (w, tied) ∧ llama_new config (wm_quant_schema w) (weight_source w) = Some (Ok m, s)
    ∧ collect_gptq_calibrations show gptq_error m batches (xo_include_lm_head o) = Some (Ok cals)
    ∧ map_Forall (λ _, square) cals
    ∧ quantize_weight_map to_vec1_f32 raw_bytes (wm_weights w) cals o tied = Some (Ok (ex_tensors x))
    ∧ write_quantized_config v o = Some (ex_config x) ∧ default [] output = [].
Proof.
  unfold quantize_model_dir_to_gptq. destruct (xo_calibration_prompts o) as [|p ps]; [done |].
  destruct (md_config d) as [v|]; [| done]. intros (config & Ec & H)%bind_r_Ok.
  destruct (parse_hf_config v (md_path d)) as [rc|] eqn:Epc; cbn [mbind option_bind] in Ec; [| done].
  injection Ec as ->%or_command_Ok. destruct tokenizer as [encode|]; [| done].
  apply bind_r_Ok in H as (batches & [= Eb%or_command_Ok] & H). case_bool_decide as Hne; [done |].
  apply bind_r_Ok in H as ([w tied] & [= El%or_command_Ok] & H).
  destruct (llama_new config (wm_quant_schema w) (weight_source w)) as [[r s]|] eqn:Em; cbn [mbind option_bind] in H; [| done].
  apply bind_r_Ok in H as (m & [= ->%or_command_Ok] & H). apply bind_r_Ok in H as (cals & Hc & H).
  destruct (collect_gptq_calibrations _ _ m batches _) as [rc|] eqn:Ecals; cbn [mbind option_bind] in Hc; [| done].
  injection Hc as ->%or_command_Ok. apply bind_r_Ok in H as (out & Ho & H).
  destruct (quantize_weight_map _ _ _ _ _ _) as [ro|] eqn:Eo; cbn [mbind option_bind] in Ho; [| done]. injection Ho as ->%or_command_Ok.
  apply bind_r_Ok in H as ([] & [= Hout] & H). destruct (write_quantized_config v o) as [json|] eqn:Ej; cbn [mbind option_bind] in H; [| done].
  injection H as <-. exists v, config, encode, batches, w, tied, m, s, cals.
  repeat (split; [first [done | by eapply collected_square] |]). by destruct output as [[|]|].
Qed.
End command.


(** With a maximal length of zero every prompt is cut to nothing, which the check for
    prompts without tokens does not see; the model then gathers nothing, so nothing is
    quantized, and yet the head's weight is left out. *)
Lemma cut_prompts encode o batches : xo_max_seq_len o = 0 → build_calibration_batches encode o = Ok batches → Forall (λ b, b = []) batches.
Proof.
  unfold build_calibration_batches. intros ->. generalize (take (xo_max_calibration_samples o) (xo_calibration_prompts o)).
  intros ps. revert batches. induction ps as [|p ps IH]; intros batches; cbn [batches_of]; [by intros [= <-] |].
  destruct (encode p true) as [[|i ids]|]; [apply IH | | done].
  destruct (batches_of encode ps 0) as [bs|] eqn:E; cbn [result_bind]; [| done]. intros [= <-]. constructor; [done | by apply IH].
Qed.

Lemma nothing_collected {T} `{!NdOps T} show gptq_error (m : LlamaModel (T := T)) batches incl :
  Forall (λ b, b = []) batches → collect_gptq_calibrations show gptq_error m batches incl = Some (Ok ∅).
Proof.
  intros Hb. unfold collect_gptq_calibrations. assert (collect_batches show gptq_error m batches incl ∅ = Some (Ok (), ∅)) as ->; [| done].
  induction Hb as [|b batches -> _ IH]; [done | exact IH].
Qed.

Lemma head_dropped {T} `{!NdOps T} to_vec1_f32 raw_bytes (w : gmap string T) o tied out : xo_include_lm_head o = true →
  quantize_weight_map to_vec1_f32 raw_bytes w ∅ o tied = Some (Ok out) → out !! "lm_head.weight" = None.
Proof.
  unfold quantize_weight_map. intros ->. destruct (keep_originals _ _ _ _ _) as [out0|] eqn:Ek; [| done].
  apply keep_originals_spec in Ek as [_ K]; [| apply NoDup_fst_map_to_list]. intros [= <-].
  rewrite K; [apply lookup_empty |]. by right.
Qed.
