(* ===== verification/Runner.v ===== *)
(** * From a model directory to a model (rllm-model/src/runner.rs)

    The runner finds out whether a path holds a GGUF file or a Hugging Face
    checkpoint, reads its configuration and weights, promotes half-precision weights on
    a CPU, and builds the model of the architecture, behind one interface
    ([CausalLM]).  [runner_serves_checkpoint] puts the parts together: a directory whose
    files hold a dense Llama checkpoint is served as the language model of that
    checkpoint. *)
From S2P Require Import Prelude F32 CoreTypes Json Tensors Mxfp Int8 Nvfp Sampler NdTensor QuantMethod Rope Layers LayerRows AttentionRows Llama Decoder LlamaRows LlamaLoad LlamaCheckpoint HfConfig Moe QwenConfig Qwen QwenRows DeepseekV3 Deepseek DeepseekParts DeepseekRows Loader Exact.
#[local] Open Scope string_scope.
#[local] Open Scope list_scope.
#[local] Open Scope nat_scope.
#[local] Open Scope rllm_scope.

(** ** Paths *)

(** [Path::extension] of a file name: what follows its last dot, when that is not its
    first character. *)
Definition name_extension (name : string) : option string :=
  match split dot_char name with
  | [_] | [""; _] => None
  | parts => if String.eqb name ".." then None else last parts
  end.
Definition path_extension (path : string) : option string :=
  match last (components path) with Some (Normal name) => name_extension name | _ => None end.
Definition is_gguf (path : string) : bool := bool_decide (path_extension path = Some "gguf").

(** The path given: the directory, as the loader sees it, or a file; which of the paths
    in it are files. *)
Record ModelPath : Type := mkModelPath {
  mp_dir : ModelDir;
  mp_is_file : string → bool;
}.

(** The first GGUF file of a directory; an entry that cannot be read is passed over. *)
Fixpoint first_gguf (dir : string) (is_file : string → bool) (entries : list (option string)) : option string :=
  match entries with
  | [] => None
  | None :: entries => first_gguf dir is_file entries
  | Some name :: entries =>
      let path := join_path dir name in
      if is_file path && is_gguf path then Some path else first_gguf dir is_file entries
  end.

Definition gguf_file_path (p : ModelPath) : option string :=
  let dir := mp_dir p in
  if mp_is_file p (md_path dir) && is_gguf (md_path dir) then Some (md_path dir)
  else if md_is_dir dir then md_entries dir ≫= first_gguf (md_path dir) (mp_is_file p)
  else None.

Inductive RunnerError : Type :=
  | RE_Device (msg : string)
  | RE_File
  | RE_Gguf (e : GgufError)
  | RE_Config (e : HfError)
  | RE_Weights (e : LoadError)
  | RE_Promote (e : TensorError)
  | RE_Model (e : QError)
  | RE_Qwen (e : QwenError)
  | RE_Deepseek (e : DeepseekError)
  | RE_Architecture (arch : string).

Definition or_runner {A E} (f : E → RunnerError) (r : result A E) : result A RunnerError :=
  match r with Ok a => Ok a | Err e => Err (f e) end.

Definition with_dtype (d : DType) (c : ModelConfig) : ModelConfig :=
  mkModelConfig (mc_model_id c) (mc_architecture c) (mc_vocab_size c) (mc_hidden_size c) (mc_intermediate_size c) (mc_num_layers c)
    (mc_num_attention_heads c) (mc_num_kv_heads c) (mc_head_dim c) (mc_max_model_len c) (mc_rope_theta c) (mc_rope_scaling c)
    d (mc_quantization c) (mc_tokenizer_mode c).
Definition with_model_id (id : string) (c : ModelConfig) : ModelConfig :=
  mkModelConfig id (mc_architecture c) (mc_vocab_size c) (mc_hidden_size c) (mc_intermediate_size c) (mc_num_layers c)
    (mc_num_attention_heads c) (mc_num_kv_heads c) (mc_head_dim c) (mc_max_model_len c) (mc_rope_theta c) (mc_rope_scaling c)
    (mc_dtype c) (mc_quantization c) (mc_tokenizer_mode c).

(** [Box<dyn CausalLM>] *)
Record CausalLM (T : Type) : Type := mkCausalLM {
  lm_config : ModelConfig;
  lm_quantized_layer_count : nat;
  lm_forward : T → list nat → list (option (T * T)) → option (result T TensorError * list (option (T * T)));
  lm_generate : list N → nat → option (result (list N) TensorError);
}.
Arguments mkCausalLM {T}.
Arguments lm_config {T}.
Arguments lm_quantized_layer_count {T}.
Arguments lm_forward {T}.
Arguments lm_generate {T}.

Record ModelRunner (T : Type) : Type := mkModelRunner { rn_model : CausalLM T; rn_cuda : bool }.
Arguments mkModelRunner {T}.
Arguments rn_model {T}.
Arguments rn_cuda {T}.

Section runner.
Context {T G Q V : Type} `{!TensorLib T, !NdOps T, !MoeOps T, !GroupOps T}.
Context (g_dims : G → list nat) (from_arc : G → result Q string) (q_forward : Q → T → result T TensorError).
Context (log2 exp2 : f32 → f32) (powi : f32 → Z → f32) (f8_from_f32 : f32 → N) (f8_from_bits : N → f32).
Context (powf : f64 → f64 → f64) (powf32 : f32 → f32 → f32) (ln : f32 → f32) (show : nat → string) (q_show : QError → string).
Context (to_vec1_f32 : T → result (list f32) TensorError) (from_raw_buffer : list N → CandleDType → list nat → result T TensorError).
(** The GPU's: the types its grouped kernels take, and its kernels. *)
Context (g_supported : G → bool) (fused_moe : T → G → G → G → bool → nat → T → bool → result T TensorError).
Context (cuda_linear : option (BlockFp8Linear (T := T) → T → result T TensorError)).
Context (cuda_selected : option (SelectedBlockFp8Experts (T := T) → T → T → bool → result T TensorError)).
(** GGUF files: their values and tensors, and what each file holds. *)
Context (v_string : V → option string) (v_f32 : V → option f32) (v_f64 : V → option f64) (v_u64 : V → option N) (v_array_len : V → option nat).
Context (g_plain : G → bool) (g_dequantize : G → result T TensorError).
Context (gguf_file : string → option (GgufContent (V := V) * list (string * option G))).
Context (decode_rope : Json → option RopeScalingV2).

(** ** The models *)
Definition llama_lm (config : ModelConfig) (m : LlamaModel (T := T)) : CausalLM T :=
  mkCausalLM config (quantized_layer_count m) (Llama.forward show m) (Llama.generate show m (mc_num_layers config)).
Definition deepseek_lm (config : ModelConfig) (m : DeepseekModel (T := T)) : CausalLM T :=
  let forward := ds_forward show cuda_linear cuda_selected m in
  mkCausalLM config (ds_quantized_layer_count m) forward (ds_generate to_vec1_f32 forward (mc_num_layers config)).
Definition qwen_lm (config : ModelConfig) (m : QwenModel (T := T)) : CausalLM T :=
  let forward := qwen_forward show m in
  mkCausalLM config (qw_quantized_layer_count m) forward (qwen_generate to_vec1_f32 forward (mc_num_layers config)).

(** ** Loading *)

(** Configuration and weights: of a GGUF file, or of a directory.  On a GPU, INT8
    weights are loaded to the CPU first, which is another place and not other values. *)
Definition load_parts (p : ModelPath) (gguf : option string) (config : option ModelConfig) :
    option (result (ModelConfig * WeightMap T G) RunnerError) :=
  match gguf with
  | Some path =>
      config <-! Some (match config with
                       | Some c => Ok c
                       | None => match gguf_file path with
                                 | Some (content, _) => or_runner RE_Gguf (parse_gguf_config v_string v_f32 v_u64 v_array_len content path)
                                 | None => Err RE_File
                                 end
                       end);
      Some (match gguf_file path with
            | Some (_, tensors) => w <-? or_runner RE_Weights (load_gguf_weights g_plain g_dequantize tensors); Ok (config, w)
            | None => Err RE_File
            end)
  | None =>
      config <-! match config with
                 | Some c => Some (Ok c)
                 | None => match md_config (mp_dir p) with
                           | Some v => r ← parse_hf_config v (md_path (mp_dir p)); Some (or_runner RE_Config r)
                           | None => Some (Err RE_File)
                           end
                 end;
      Some (w <-? or_runner RE_Weights (load_weights_with_tied_detection from_raw_buffer (mp_dir p)); Ok (config, w.1))
  end.

(** On a CPU half-precision weights become [f32], and so does the configured type when
    there were any. *)
Definition promoted (cuda : bool) (parts : ModelConfig * WeightMap T G) : result (ModelConfig * WeightMap T G) RunnerError :=
  if cuda then Ok parts
  else
    r <-? or_runner RE_Promote (promote_cpu_weights_to_f32 parts.2);
    Ok (if 0 <? r.2 then with_dtype DT_F32 parts.1 else parts.1, r.1).

(** [QwenConfig::from_gguf] and the [parse_config] of the models. *)
Definition read_qwen_config (p : ModelPath) (gguf : option string) (config : ModelConfig) : result QwenConfig RunnerError :=
  match gguf with
  | Some path => match gguf_file path with
                 | Some (content, _) => or_runner RE_Qwen (from_gguf v_string v_f32 v_f64 v_u64 content config)
                 | None => Err RE_File
                 end
  | None => match md_config (mp_dir p) with Some v => or_runner RE_Qwen (from_json v) | None => Err RE_File end
  end.
Definition read_deepseek_config (p : ModelPath) : result DeepseekV3Config RunnerError :=
  match md_config (mp_dir p) with Some v => or_runner RE_Deepseek (deepseek_from_json decode_rope v) | None => Err RE_File end.

(** What a loader leaves of the weights is dropped. *)
Definition built {A} (lm : A → CausalLM T) (r : option (result A QError * WeightSource (T := T) (G := G))) :
    option (result (CausalLM T) RunnerError) :=
  '(r, _) ← r; Some (m <-? or_runner RE_Model r; Ok (lm m)).

Definition build_model (p : ModelPath) (cuda : bool) (gguf : option string) (config : ModelConfig) (w : WeightMap T G) :
    option (result (CausalLM T) RunnerError) :=
  let schema := wm_quant_schema w in
  match family (mc_architecture config) with
  | Some LlamaFamily =>
      built (llama_lm config)
        (llama_new g_dims from_arc q_forward log2 exp2 powi f8_from_f32 f8_from_bits powf show q_show config schema (weight_source w))
  | Some DeepseekFamily =>
      c <-! Some (read_deepseek_config p);
      built (deepseek_lm config)
        (ds_from_weights g_dims from_arc q_forward log2 exp2 powi f8_from_f32 f8_from_bits powf32 ln show q_show config schema c
           (weight_source w))
  | Some QwenFamily =>
      c <-! Some (read_qwen_config p gguf config);
      built (qwen_lm config)
        (Qwen.from_weights g_dims from_arc q_forward log2 exp2 powi f8_from_f32 f8_from_bits powf show q_show cuda g_supported fused_moe
           config schema c (weight_source w))
  | None => Some (Err (RE_Architecture (mc_architecture config)))
  end.

(** [device] is [Device::cuda_if_available]: whether there is a GPU. *)
Definition from_dir_path_with_config (device : result bool string) (p : ModelPath) (config : option ModelConfig) :
    option (result (ModelRunner T) RunnerError) :=
  let gguf := gguf_file_path p in
  cuda <-! Some (or_runner RE_Device device);
  parts <-! load_parts p gguf config;
  parts <-! Some (promoted cuda parts);
  m <-! build_model p cuda gguf parts.1 parts.2;
  Some (Ok (mkModelRunner m cuda)).

(** [from_model_ref_with_config], of a reference resolved to a path. *)
Definition from_model_ref_with_config (device : result bool string) (p : ModelPath) (config : ModelConfig) :
    option (result (ModelRunner T) RunnerError) :=
  from_dir_path_with_config device p (Some (with_model_id (md_path (mp_dir p)) config)).
Definition from_dir (device : result bool string) (p : ModelPath) : option (result (ModelRunner T) RunnerError) :=
  from_dir_path_with_config device p None.

Definition runner_config (r : ModelRunner T) : ModelConfig := lm_config (rn_model r).
Definition runner_quantized_layer_count (r : ModelRunner T) : nat := lm_quantized_layer_count (rn_model r).
Definition runner_is_cuda (r : ModelRunner T) : bool := rn_cuda r.
Definition runner_generate (r : ModelRunner T) : list N → nat → option (result (list N) TensorError) := lm_generate (rn_model r).
Definition runner_forward (r : ModelRunner T) (input_ids : T) (positions : list nat) (kv_cache : list (option (T * T))) :
    option (result T TensorError * list (option (T * T))) :=
  lm_forward (rn_model r) input_ids positions kv_cache.
End runner.


(** ** A directory with one file of tensors *)
Section single.
Context {T G : Type} `{!NdOps T} (from_raw_buffer : list N → CandleDType → list nat → result T TensorError).

Record single_file (d : ModelDir) (views : list SafeView) : Prop := {
  sf_dir : md_is_dir d = true;
  sf_no_index : md_exists d (join_path (md_path d) "model.safetensors.index.json") = false;
  sf_exists : md_exists d (join_path (md_path d) "model.safetensors") = true;
  sf_shard : md_shard d (join_path (md_path d) "model.safetensors") = Some views;
}.

(** The tensor of a view, as the model gets it on a CPU. *)
Definition view_tensor (v : SafeView) (e : string * T) : Prop :=
  sv_name v = e.1 ∧ sv_dtype v ≠ S_I8 ∧ ∃ t, load_non_i8_view from_raw_buffer v = Ok t ∧ promotes t e.2.

Lemma promoted_views d views entries schema : single_file d views → NoDup (sv_name <$> views) → Forall2 view_tensor views entries →
  load_checkpoint_quant_schema d = Ok schema →
  ∃ w tied n, load_weights_with_tied_detection (G := G) from_raw_buffer d = Ok (w, tied)
    ∧ promote_cpu_weights_to_f32 w = Ok (mkWeightMap (list_to_map entries) ∅ ∅ schema, n).
Proof.
  intros [Hd Hi He Hs] Hnd Hv Hsc.
  destruct (load_views_spec from_raw_buffer views (∅, ∅) Hnd) as ([tensors quant] & El & Eq & Hin & Hout).
  { eapply Forall2_Forall_l; [exact Hv |]. apply Forall_true. intros e v (_ & Hd8 & t & Ht & _). split; [exact Hd8 | by rewrite Ht]. }
  cbn [snd fst] in Eq, Hin, Hout. subst quant.
  unfold load_weights_with_tied_detection, load_weights_from_dir, find_safetensor_shards. rewrite Hd, Hi, He. cbn [result_bind].
  rewrite Hsc. cbn [result_bind load_shards]. unfold load_safetensors_shard. rewrite Hs, El. cbn [result_bind fst snd].
  rewrite (right_id_L ∅ (∪)), (right_id_L ∅ (∪)).
  eexists _, _.
  assert (Hnames : sv_name <$> views = entries.*1) by (apply list_eq_Forall2, Forall2_fmap_l, Forall2_fmap_r, (Forall2_impl _ _ _ _ Hv); by intros v e [? _]).
  assert (Hten : ∀ n t, tensors !! n = Some t → ∃ v e, v ∈ views ∧ e ∈ entries ∧ sv_name v = n ∧ e.1 = n
                   ∧ load_non_i8_view from_raw_buffer v = Ok t ∧ promotes t e.2).
  { intros n t Ht. destruct (decide (n ∈ sv_name <$> views)) as [Hn|Hn]; [| by rewrite Hout, lookup_empty in Ht].
    apply list_elem_of_fmap in Hn as (v & -> & Hvin). apply list_elem_of_lookup in Hvin as [i Hi'].
    destruct (Forall2_lookup_l _ _ _ _ _ Hv Hi') as (e & Hei & Hne & Hd8 & u & Hu & Hp). exists v, e.
    rewrite (Hin v u) in Ht; [| by eapply list_elem_of_lookup_2 | done]. injection Ht as <-.
    repeat (split; [first [done | by eapply list_elem_of_lookup_2] |]). done. }
  destruct (promote_entries_spec (map_to_list tensors) tensors 0) as (w' & n & Ep & P1 & P2).
  { apply NoDup_fst_map_to_list. }
  { apply Forall_forall. intros [m t] Hm. apply elem_of_map_to_list in Hm. destruct (Hten _ _ Hm) as (v & e & _ & _ & _ & _ & _ & Hp). by exists e.2. }
  exists n. split; [reflexivity |]. unfold promote_cpu_weights_to_f32. cbn [wm_weights wm_quantized wm_gguf_weights wm_quant_schema]. rewrite Ep. cbn [result_bind fst snd]. do 3 f_equal. apply map_eq. intros m.
  destruct (list_to_map entries !! m) as [t'|] eqn:Em.
  - apply elem_of_list_to_map_2, list_elem_of_lookup in Em as [i Hei].
    destruct (Forall2_lookup_r _ _ _ _ _ Hv Hei) as (v & Hvi & Hne & Hd8 & u & Hu & Hp). cbn [fst snd] in Hne, Hp. subst m.
    assert (Hw : tensors !! sv_name v = Some u) by (apply Hin; [by eapply list_elem_of_lookup_2 | done]).
    apply (P1 _ u); [by apply elem_of_map_to_list | done | done].
  - apply not_elem_of_list_to_map_2 in Em. rewrite <- Hnames in Em. rewrite P2, Hout by (done || (intros Hm; apply list_elem_of_fmap in Hm as ([k t] & -> & Hm);
      apply elem_of_map_to_list in Hm; cbn [fst] in *; rewrite Hout, lookup_empty in Hm; done)). apply lookup_empty.
Qed.
End single.


(** ** Serving a checkpoint *)
Section serves.
Context {T G Q V : Type}.
Context `{!Rounding, !TensorLib T, !NdOps T, !MoeOps T, !GroupOps T, !SameLib T, !Elements T Exact, !LawfulNd T Exact}.
Context (g_dims : G → list nat) (from_arc : G → result Q string) (q_forward : Q → T → result T TensorError).
Context (log2 exp2 : f32 → f32) (powi : f32 → Z → f32) (f8_from_f32 : f32 → N) (f8_from_bits : N → f32).
Context (powf : f64 → f64 → f64) (powf32 : f32 → f32 → f32) (ln : f32 → f32) (show : nat → string) (q_show : QError → string).
Context (to_vec1_f32 : T → result (list f32) TensorError) (from_raw_buffer : list N → CandleDType → list nat → result T TensorError).
Context (g_supported : G → bool) (fused_moe : T → G → G → G → bool → nat → T → bool → result T TensorError).
Context (cuda_linear : option (BlockFp8Linear (T := T) → T → result T TensorError)).
Context (cuda_selected : option (SelectedBlockFp8Experts (T := T) → T → T → bool → result T TensorError)).
Context (v_string : V → option string) (v_f32 : V → option f32) (v_f64 : V → option f64) (v_u64 : V → option N) (v_array_len : V → option nat).
Context (g_plain : G → bool) (g_dequantize : G → result T TensorError).
Context (gguf_file : string → option (GgufContent (V := V) * list (string * option G))).
Context (decode_rope : Json → option RopeScalingV2).
Context (show_inj : ∀ i j, show i = show j → i = j) (show_nodot : ∀ i, has_dot (show i) = false).
#[local] Abbreviation load_runner := (from_dir_path_with_config g_dims from_arc q_forward log2 exp2 powi f8_from_f32 f8_from_bits powf powf32 ln
  show q_show to_vec1_f32 from_raw_buffer g_supported fused_moe cuda_linear cuda_selected v_string v_f32 v_f64 v_u64 v_array_len g_plain
  g_dequantize gguf_file decode_rope).

Lemma dtype_config_ok d c schema : config_ok c schema → config_ok (with_dtype d c) schema.
Proof. clear. intros [H1 H2 H3 H4 H5 H6 H7]. by split. Qed.

Lemma dtype_checkpoint_in d c (w : gmap string T) (cp : Checkpoint (E := Exact)) :
  checkpoint_in show c w cp → checkpoint_in show (with_dtype d c) w cp.
Proof.
  clear. intros [H1 H2 H3 H4 H5 H6]. split; try done. intros i ck Hck. destruct (H4 i ck Hck). by split.
Qed.

(** The configuration that was given, or else that of the directory. *)
Definition configured (p : ModelPath) (config : option ModelConfig) (c : ModelConfig) : Prop :=
  match config with
  | Some c' => c' = c
  | None => ∃ v, md_config (mp_dir p) = Some v ∧ parse_hf_config v (md_path (mp_dir p)) = Some (Ok c)
  end.

(** C8. From files to tokens, in exact arithmetic.  Let the tensor library's operations
    compute over the real numbers, and round, in whatever way, only the logits read
    back.  On a CPU, take a directory without GGUF files whose one file of tensors can
    be read and, with half-precision tensors widened, holds a dense checkpoint of the
    configured shapes, for an architecture of the Llama family.  Then the runner loads,
    with no quantized layer and the configuration given or found there (except perhaps
    for its element type), and what it generates from a prompt of known tokens that
    fits extends the prompt greedily by the language model of the checkpoint, up to
    [max_tokens] tokens in all, without error or panic. *)
Theorem runner_serves_checkpoint p config c schema views entries cp
    (Hgguf : gguf_file_path p = None) (Hc : configured p config c) (Hf : family (mc_architecture c) = Some LlamaFamily)
    (Hfile : single_file (mp_dir p) views) (Hnd : NoDup (sv_name <$> views)) (Hviews : Forall2 (view_tensor from_raw_buffer) views entries)
    (Hschema : load_checkpoint_quant_schema (mp_dir p) = Ok schema)
    (Hok : config_ok c schema) (Hcp : checkpoint_in show c (list_to_map entries) cp) (Hvocab : mc_vocab_size c ≠ 0) :
  ∃ r, load_runner (Ok false) p config = Some (Ok r)
    ∧ runner_is_cuda r = false ∧ runner_quantized_layer_count r = 0 ∧ (∃ d, runner_config r = with_dtype d c)
    ∧ ∀ prompt max_tokens, prompt ≠ [] → Forall (λ t, N.to_nat t < mc_vocab_size c) prompt →
        length prompt ≤ mc_max_model_len c → max_tokens ≤ mc_max_model_len c →
        runner_generate r prompt max_tokens
        = Some (Ok (greedy (checkpoint_fn (T := T) powf c cp) greedy_choice (max_tokens - length prompt) prompt)).
Proof using All.
  destruct (promoted_views (G := G) from_raw_buffer _ _ _ _ Hfile Hnd Hviews Hschema) as (w & tied & n & Ew & Ep).
  unfold from_dir_path_with_config. rewrite Hgguf. cbn [or_runner bind_r].
  assert (load_parts from_raw_buffer v_string v_f32 v_u64 v_array_len g_plain g_dequantize gguf_file p None config = Some (Ok (c, w))) as ->.
  { unfold load_parts. rewrite Ew. destruct config as [c'|]; cbn [configured] in Hc; [by subst c' |].
    destruct Hc as (v & -> & ->). done. }
  cbn [bind_r promoted]. unfold promoted. cbn [fst snd]. rewrite Ep. cbn [or_runner result_bind bind_r fst snd].
  set (c' := if 0 <? n then with_dtype DT_F32 c else c). set (W := mkWeightMap _ _ _ _).
  assert (Hd : ∃ d, c' = with_dtype d c) by (unfold c'; destruct (0 <? n); [by eexists | exists (mc_dtype c); by destruct c]).
  clearbody c'. destruct Hd as [d ->].
  destruct (loads_model (T := T) (E := Exact) (Q := Q) g_dims from_arc q_forward log2 exp2 powi f8_from_f32 f8_from_bits powf show q_show
    show_inj show_nodot (with_dtype d c) schema (list_to_map entries) cp (dtype_config_ok d c schema Hok)
    (dtype_checkpoint_in d c _ cp Hcp) (weight_source W)) as (m & s' & Em & (Hm & Hn & Hq) & _); [done |].
  exists (mkModelRunner (llama_lm show (with_dtype d c) m) false). split.
  - unfold build_model. change (mc_architecture (with_dtype d c)) with (mc_architecture c). rewrite Hf.
    change (wm_quant_schema W) with schema. rewrite Em. reflexivity.
  - split; [done |]. split; [exact Hq |]. split; [by exists d |]. intros prompt max_tokens Hne Hv Hl Hmt.
    unfold runner_generate. cbn [rn_model llama_lm lm_generate]. rewrite <- Hn.
    by apply (generate_is_greedy show (mc_hidden_size (with_dtype d c)) (mc_max_model_len c) (mc_vocab_size c) m (checkpoint_fn powf (with_dtype d c) cp)).
Qed.
End serves.


(** ** A small directory *)
#[local] Existing Instances up_rounding exact_lib exact_same.

(** Bytes of the small numbers of the checkpoint, in half precision. *)
Definition exact_raw (b : list N) (c : CandleDType) (d : list nat) : result (NdHost Exact) TensorError :=
  Ok (mkNdHost d (match c with C_BF16 => T_BF16 | _ => T_F32 end) ((λ n, real (Z.of_N n - 128)) <$> b)).
Definition small_views : list SafeView :=
  (λ e : string * (list nat * list Z), mkView e.1 S_BF16 e.2.1 ((λ z, Z.to_N (z + 128)) <$> e.2.2)) <$> small_data.
Definition small_path : ModelPath :=
  let file := "m/model.safetensors" in
  mkModelPath (mkDir "m" true (λ p, String.eqb p file) (Some [Some "model.safetensors"; None]) None None
                 (λ p, if String.eqb p file then Some small_views else None))
    (λ p, String.eqb p file).

Lemma runner_serves_checkpoint_witness :
  ∃ r, from_dir_path_with_config (V := unit) (Q := unit) (λ _ : unit, []) (λ _, Err "") (λ _ t, Ok t) id id (λ x _, x) (λ _, 0%N) (λ _, F32.zero)
      (λ _ _, F64.of_Z 1) (λ x _, x) id strokes (λ _, "") (λ _, Ok []) exact_raw (λ _, false) (λ _ _ _ _ _ _ _ _, Err "") None None
      (λ _, None) (λ _, None) (λ _, None) (λ _, None) (λ _, None) (λ _, false) (λ _, Err "") (λ _, None) (λ _, None)
      (Ok false) small_path (Some small_config) = Some (Ok r)
    ∧ ∃ ts, runner_generate r [1%N; 2%N] 5 = Some (Ok ts) ∧ length ts = 5.
Proof.
  destruct (runner_serves_checkpoint (T := NdHost Exact) (V := unit) (Q := unit) (λ _ : unit, []) (λ _, Err "") (λ _ t, Ok t) id id (λ x _, x)
    (λ _, 0%N) (λ _, F32.zero) (λ _ _, F64.of_Z 1) (λ x _, x) id strokes (λ _, "") (λ _, Ok []) exact_raw (λ _, false)
    (λ _ _ _ _ _ _ _ _, Err "") None None (λ _, None) (λ _, None) (λ _, None) (λ _, None) (λ _, None) (λ _, false) (λ _, Err "")
    (λ _, None) (λ _, None) strokes_inj strokes_nodot small_path (Some small_config) small_config None small_views small_entries small_checkpoint)
    as (r & Er & _ & _ & _ & Hg).
  - vm_compute. reflexivity.
  - reflexivity.
  - vm_compute. reflexivity.
  - by split; vm_compute.
  - apply (bool_decide_unpack _). vm_compute. exact I.
  - unfold small_views, small_entries. apply Forall2_fmap_l, Forall2_fmap_r, Forall_Forall2_diag. unfold small_data, small_layer_data.
    repeat constructor; (discriminate || (eexists; split; vm_compute; reflexivity)).
  - vm_compute. reflexivity.
  - exact small_config_ok.
  - exact small_checkpoint_in.
  - discriminate.
  - exists r. split; [exact Er |].
    exists (greedy (checkpoint_fn (T := NdHost Exact) (λ _ _, F64.of_Z 1) small_config small_checkpoint) greedy_choice 3 [1%N; 2%N]).
    split; [| by rewrite length_greedy]. apply (Hg [1%N; 2%N] 5); [done | repeat constructor; cbn; lia | cbn; lia | cbn; lia].
Defined.
