(* ===== verification/Launch.v ===== *)
(** * Kernel launches (rllm-kernels/src: cuda.rs, cache_ops.rs, attention.rs, fused.rs, quant_matmul.rs, deepseek_v3.rs)

    What the host asks of the device: a launch is a kernel with its arguments and
    the stream it goes to, and answers with a return code.  The device is a
    parameter, [Driver]: its state, the launches, the uploads and the
    allocations.  [operands] and [indices_ok] are what the kernels require of
    their arguments (the Safety sections of the wrappers, and the addresses the
    kernels of src/cuda form); [checked] is a driver that also keeps the log of
    the launches it made with whether each met those requirements, so that the
    callers' theorems can speak of it. *)
From S2P Require Import Prelude F32 Tensors.
#[local] Open Scope string_scope.
#[local] Open Scope list_scope.
#[local] Open Scope nat_scope.
#[local] Open Scope rllm_scope.

(** ** The entry points
    The kernels with the arguments of their entry points, but the stream; the
    [_sync] entry points are the same kernels without one.  [P] is a device
    address. *)
Inductive Kernel (P : Type) : Type :=
  | rllm_vector_add_f32 (a b out : P) (n : Z)
  | rllm_block_copy (src dst : P) (nbytes : Z)
  | rllm_gptq_gemm_f16 (x qweight qzeros scales g_idx out : P) (m in_features out_features num_groups group_size : Z)
  | rllm_awq_gemm_f16 (x qweight qzeros scales out : P) (m in_features out_features num_groups group_size : Z)
  | rllm_cache_write_f16 (key_cache value_cache new_key new_value slot_mapping : P) (num_tokens num_kv_heads head_dim
    block_size num_blocks : Z)
  | rllm_cache_write_fp8 (key_cache value_cache new_key new_value slot_mapping : P) (num_tokens num_kv_heads head_dim
    block_size num_blocks is_e5m2 : Z)
  | rllm_cache_write_i8 (key_cache value_cache new_key new_value slot_mapping : P) (num_tokens num_kv_heads head_dim
    block_size num_blocks : Z) (k_scale v_scale : f32)
  | rllm_cache_block_copy (src dst : P) (block_nbytes num_blocks : Z)
  | rllm_cache_zero (ptr : P) (nbytes : Z)
  | rllm_paged_attention_decode_f16 (output query key_cache value_cache block_tables seq_lens : P) (num_seqs
    num_q_heads num_kv_heads head_dim block_size max_num_blocks_per_seq : Z) (scale : f32)
  | rllm_paged_attention_decode_fp8 (output query key_cache value_cache block_tables seq_lens : P) (num_seqs
    num_q_heads num_kv_heads head_dim block_size max_num_blocks_per_seq : Z) (scale : f32) (is_e5m2 : Z)
  | rllm_paged_attention_prefill_f16 (output query key_cache value_cache block_tables seq_lens query_start_loc : P)
    (num_seqs num_tokens num_q_heads num_kv_heads head_dim block_size max_num_blocks_per_seq : Z) (scale : f32)
  | rllm_paged_attention_prefill_fp8 (output query key_cache value_cache block_tables seq_lens query_start_loc : P)
    (num_seqs num_tokens num_q_heads num_kv_heads head_dim block_size max_num_blocks_per_seq : Z) (scale : f32)
    (is_e5m2 : Z)
  | rllm_paged_attention_decode_i8 (output query key_cache value_cache block_tables seq_lens : P) (num_seqs
    num_q_heads num_kv_heads head_dim block_size max_num_blocks_per_seq : Z) (scale k_scale v_scale : f32)
  | rllm_paged_attention_prefill_i8 (output query key_cache value_cache block_tables seq_lens query_start_loc : P)
    (num_seqs num_tokens num_q_heads num_kv_heads head_dim block_size max_num_blocks_per_seq : Z) (scale k_scale
    v_scale : f32)
  | rllm_fused_rmsnorm_f16 (output input weight : P) (hidden_size n_elements : Z) (eps : f32)
  | rllm_fused_silu_mul_f16 (output gate up : P) (n_elements : Z)
  | rllm_fused_rope_f16 (out_q out_k query key positions : P) (num_tokens num_q_heads num_kv_heads head_dim : Z)
    (rope_theta : f32)
  | rllm_int8_matmul_w8a8_f16 (x qweight weight_scale output : P) (rows out_features in_features : Z)
  | rllm_mxfp8_matmul_w8a16_f16 (x qweight scales output : P) (rows out_features in_features group_size : Z)
  | rllm_mxfp4_matmul_w4a16_f16 (x qweight scales output : P) (rows out_features in_features group_size : Z)
  | rllm_nvfp4_matmul_w4a16_f16 (x qweight scales output : P) (rows out_features in_features : Z)
  | rllm_deepseek_fp8_block_matmul_f16 (x weight scales output : P) (rows out_features in_features block_size : Z)
  | rllm_deepseek_fp8_selected_expert_matmul_f16 (x expert_ids weights scales output : P) (tokens top_k num_experts
    out_features in_features block_size shared_input : Z).
Arguments rllm_vector_add_f32 {P}.
Arguments rllm_block_copy {P}.
Arguments rllm_gptq_gemm_f16 {P}.
Arguments rllm_awq_gemm_f16 {P}.
Arguments rllm_cache_write_f16 {P}.
Arguments rllm_cache_write_fp8 {P}.
Arguments rllm_cache_write_i8 {P}.
Arguments rllm_cache_block_copy {P}.
Arguments rllm_cache_zero {P}.
Arguments rllm_paged_attention_decode_f16 {P}.
Arguments rllm_paged_attention_decode_fp8 {P}.
Arguments rllm_paged_attention_prefill_f16 {P}.
Arguments rllm_paged_attention_prefill_fp8 {P}.
Arguments rllm_paged_attention_decode_i8 {P}.
Arguments rllm_paged_attention_prefill_i8 {P}.
Arguments rllm_fused_rmsnorm_f16 {P}.
Arguments rllm_fused_silu_mul_f16 {P}.
Arguments rllm_fused_rope_f16 {P}.
Arguments rllm_int8_matmul_w8a8_f16 {P}.
Arguments rllm_mxfp8_matmul_w8a16_f16 {P}.
Arguments rllm_mxfp4_matmul_w4a16_f16 {P}.
Arguments rllm_nvfp4_matmul_w4a16_f16 {P}.
Arguments rllm_deepseek_fp8_block_matmul_f16 {P}.
Arguments rllm_deepseek_fp8_selected_expert_matmul_f16 {P}.

Inductive CudaKernelError : Type :=
  | KernelError (code : Z)
  | NotAvailable.

Definition check (rc : Z) : result unit CudaKernelError := if (rc =? 0)%Z then Ok () else Err (KernelError rc).

(** [if is_e5m2 { 1 } else { 0 }] *)
Definition c_int (b : bool) : Z := if b then 1%Z else 0%Z.

(** ** The device *)
Class Driver (Dev Ptr : Type) : Type := {
  (** A launch on a stream, or on none (and then waited for). *)
  launch : Dev → Kernel (Ptr * N) → option N → Z * Dev;
  (** [clone_htod] of integers that take so many bytes each. *)
  upload : Dev → N → list Z → result Ptr TensorError * Dev;
  (** [alloc], and [Tensor::zeros]. *)
  device_alloc : Dev → N → result Ptr TensorError * Dev;
}.

(** ** The wrappers *)
Section wrappers.
Context {Dev Ptr : Type} `{!Driver Dev Ptr}.
(** An address: an allocation and a byte offset into it. *)
#[local] Notation P := (Ptr * N)%type.
#[local] Notation Step := (Dev → result unit CudaKernelError * Dev).

Definition call (k : Kernel P) (stream : option N) : Step := λ d, let '(rc, d) := launch d k stream in (check rc, d).

(** cuda.rs *)
Definition vector_add_f32 (a b out : P) (n : Z) (stream : N) : Step :=
  call (rllm_vector_add_f32 a b out n) (Some stream).

Definition vector_add_f32_sync (a b out : P) (n : Z) : Step :=
  call (rllm_vector_add_f32 a b out n) None.

Definition block_copy (src dst : P) (nbytes : Z) (stream : N) : Step :=
  call (rllm_block_copy src dst nbytes) (Some stream).

Definition block_copy_sync (src dst : P) (nbytes : Z) : Step :=
  call (rllm_block_copy src dst nbytes) None.

Definition gptq_gemm_f16 (x qweight qzeros scales g_idx out : P) (m in_features out_features num_groups group_size :
    Z) (stream : N) : Step :=
  call (rllm_gptq_gemm_f16 x qweight qzeros scales g_idx out m in_features out_features num_groups group_size) (Some
    stream).

Definition gptq_gemm_f16_sync (x qweight qzeros scales g_idx out : P) (m in_features out_features num_groups
    group_size : Z) : Step :=
  call (rllm_gptq_gemm_f16 x qweight qzeros scales g_idx out m in_features out_features num_groups group_size) None.

Definition awq_gemm_f16 (x qweight qzeros scales out : P) (m in_features out_features num_groups group_size : Z)
    (stream : N) : Step :=
  call (rllm_awq_gemm_f16 x qweight qzeros scales out m in_features out_features num_groups group_size) (Some stream).

Definition awq_gemm_f16_sync (x qweight qzeros scales out : P) (m in_features out_features num_groups group_size : Z)
    : Step :=
  call (rllm_awq_gemm_f16 x qweight qzeros scales out m in_features out_features num_groups group_size) None.

(** cache_ops.rs *)
Definition cache_write_f16 (key_cache value_cache new_key new_value slot_mapping : P) (num_tokens num_kv_heads
    head_dim block_size num_blocks : Z) (stream : N) : Step :=
  call (rllm_cache_write_f16 key_cache value_cache new_key new_value slot_mapping num_tokens num_kv_heads head_dim
    block_size num_blocks) (Some stream).

Definition cache_write_f16_sync (key_cache value_cache new_key new_value slot_mapping : P) (num_tokens num_kv_heads
    head_dim block_size num_blocks : Z) : Step :=
  call (rllm_cache_write_f16 key_cache value_cache new_key new_value slot_mapping num_tokens num_kv_heads head_dim
    block_size num_blocks) None.

Definition cache_write_fp8 (key_cache value_cache new_key new_value slot_mapping : P) (num_tokens num_kv_heads
    head_dim block_size num_blocks : Z) (is_e5m2 : bool) (stream : N) : Step :=
  call (rllm_cache_write_fp8 key_cache value_cache new_key new_value slot_mapping num_tokens num_kv_heads head_dim
    block_size num_blocks (c_int is_e5m2)) (Some stream).

Definition cache_write_fp8_sync (key_cache value_cache new_key new_value slot_mapping : P) (num_tokens num_kv_heads
    head_dim block_size num_blocks : Z) (is_e5m2 : bool) : Step :=
  call (rllm_cache_write_fp8 key_cache value_cache new_key new_value slot_mapping num_tokens num_kv_heads head_dim
    block_size num_blocks (c_int is_e5m2)) None.

Definition cache_write_i8 (key_cache value_cache new_key new_value slot_mapping : P) (num_tokens num_kv_heads
    head_dim block_size num_blocks : Z) (k_scale v_scale : f32) (stream : N) : Step :=
  call (rllm_cache_write_i8 key_cache value_cache new_key new_value slot_mapping num_tokens num_kv_heads head_dim
    block_size num_blocks k_scale v_scale) (Some stream).

Definition cache_write_i8_sync (key_cache value_cache new_key new_value slot_mapping : P) (num_tokens num_kv_heads
    head_dim block_size num_blocks : Z) (k_scale v_scale : f32) : Step :=
  call (rllm_cache_write_i8 key_cache value_cache new_key new_value slot_mapping num_tokens num_kv_heads head_dim
    block_size num_blocks k_scale v_scale) None.

Definition cache_block_copy (src dst : P) (block_nbytes num_blocks : Z) (stream : N) : Step :=
  call (rllm_cache_block_copy src dst block_nbytes num_blocks) (Some stream).

Definition cache_block_copy_sync (src dst : P) (block_nbytes num_blocks : Z) : Step :=
  call (rllm_cache_block_copy src dst block_nbytes num_blocks) None.

Definition cache_zero (ptr : P) (nbytes : Z) (stream : N) : Step :=
  call (rllm_cache_zero ptr nbytes) (Some stream).

Definition cache_zero_sync (ptr : P) (nbytes : Z) : Step :=
  call (rllm_cache_zero ptr nbytes) None.

(** attention.rs *)
Definition paged_attention_decode_f16 (output query key_cache value_cache block_tables seq_lens : P) (num_seqs
    num_q_heads num_kv_heads head_dim block_size max_num_blocks_per_seq : Z) (scale : f32) (stream : N) : Step :=
  call (rllm_paged_attention_decode_f16 output query key_cache value_cache block_tables seq_lens num_seqs num_q_heads
    num_kv_heads head_dim block_size max_num_blocks_per_seq scale) (Some stream).

Definition paged_attention_decode_f16_sync (output query key_cache value_cache block_tables seq_lens : P) (num_seqs
    num_q_heads num_kv_heads head_dim block_size max_num_blocks_per_seq : Z) (scale : f32) : Step :=
  call (rllm_paged_attention_decode_f16 output query key_cache value_cache block_tables seq_lens num_seqs num_q_heads
    num_kv_heads head_dim block_size max_num_blocks_per_seq scale) None.

Definition paged_attention_decode_fp8 (output query key_cache value_cache block_tables seq_lens : P) (num_seqs
    num_q_heads num_kv_heads head_dim block_size max_num_blocks_per_seq : Z) (scale : f32) (is_e5m2 : bool) (stream :
    N) : Step :=
  call (rllm_paged_attention_decode_fp8 output query key_cache value_cache block_tables seq_lens num_seqs num_q_heads
    num_kv_heads head_dim block_size max_num_blocks_per_seq scale (c_int is_e5m2)) (Some stream).

Definition paged_attention_decode_fp8_sync (output query key_cache value_cache block_tables seq_lens : P) (num_seqs
    num_q_heads num_kv_heads head_dim block_size max_num_blocks_per_seq : Z) (scale : f32) (is_e5m2 : bool) : Step :=
  call (rllm_paged_attention_decode_fp8 output query key_cache value_cache block_tables seq_lens num_seqs num_q_heads
    num_kv_heads head_dim block_size max_num_blocks_per_seq scale (c_int is_e5m2)) None.

Definition paged_attention_prefill_f16 (output query key_cache value_cache block_tables seq_lens query_start_loc : P)
    (num_seqs num_tokens num_q_heads num_kv_heads head_dim block_size max_num_blocks_per_seq : Z) (scale : f32)
    (stream : N) : Step :=
  call (rllm_paged_attention_prefill_f16 output query key_cache value_cache block_tables seq_lens query_start_loc
    num_seqs num_tokens num_q_heads num_kv_heads head_dim block_size max_num_blocks_per_seq scale) (Some stream).

Definition paged_attention_prefill_f16_sync (output query key_cache value_cache block_tables seq_lens query_start_loc
    : P) (num_seqs num_tokens num_q_heads num_kv_heads head_dim block_size max_num_blocks_per_seq : Z) (scale : f32)
    : Step :=
  call (rllm_paged_attention_prefill_f16 output query key_cache value_cache block_tables seq_lens query_start_loc
    num_seqs num_tokens num_q_heads num_kv_heads head_dim block_size max_num_blocks_per_seq scale) None.

Definition paged_attention_prefill_fp8 (output query key_cache value_cache block_tables seq_lens query_start_loc : P)
    (num_seqs num_tokens num_q_heads num_kv_heads head_dim block_size max_num_blocks_per_seq : Z) (scale : f32)
    (is_e5m2 : bool) (stream : N) : Step :=
  call (rllm_paged_attention_prefill_fp8 output query key_cache value_cache block_tables seq_lens query_start_loc
    num_seqs num_tokens num_q_heads num_kv_heads head_dim block_size max_num_blocks_per_seq scale (c_int is_e5m2))
    (Some stream).

Definition paged_attention_prefill_fp8_sync (output query key_cache value_cache block_tables seq_lens query_start_loc
    : P) (num_seqs num_tokens num_q_heads num_kv_heads head_dim block_size max_num_blocks_per_seq : Z) (scale : f32)
    (is_e5m2 : bool) : Step :=
  call (rllm_paged_attention_prefill_fp8 output query key_cache value_cache block_tables seq_lens query_start_loc
    num_seqs num_tokens num_q_heads num_kv_heads head_dim block_size max_num_blocks_per_seq scale (c_int is_e5m2))
    None.

Definition paged_attention_decode_i8 (output query key_cache value_cache block_tables seq_lens : P) (num_seqs
    num_q_heads num_kv_heads head_dim block_size max_num_blocks_per_seq : Z) (scale k_scale v_scale : f32) (stream :
    N) : Step :=
  call (rllm_paged_attention_decode_i8 output query key_cache value_cache block_tables seq_lens num_seqs num_q_heads
    num_kv_heads head_dim block_size max_num_blocks_per_seq scale k_scale v_scale) (Some stream).

Definition paged_attention_decode_i8_sync (output query key_cache value_cache block_tables seq_lens : P) (num_seqs
    num_q_heads num_kv_heads head_dim block_size max_num_blocks_per_seq : Z) (scale k_scale v_scale : f32) : Step :=
  call (rllm_paged_attention_decode_i8 output query key_cache value_cache block_tables seq_lens num_seqs num_q_heads
    num_kv_heads head_dim block_size max_num_blocks_per_seq scale k_scale v_scale) None.

Definition paged_attention_prefill_i8 (output query key_cache value_cache block_tables seq_lens query_start_loc : P)
    (num_seqs num_tokens num_q_heads num_kv_heads head_dim block_size max_num_blocks_per_seq : Z) (scale k_scale
    v_scale : f32) (stream : N) : Step :=
  call (rllm_paged_attention_prefill_i8 output query key_cache value_cache block_tables seq_lens query_start_loc
    num_seqs num_tokens num_q_heads num_kv_heads head_dim block_size max_num_blocks_per_seq scale k_scale v_scale)
    (Some stream).

Definition paged_attention_prefill_i8_sync (output query key_cache value_cache block_tables seq_lens query_start_loc
    : P) (num_seqs num_tokens num_q_heads num_kv_heads head_dim block_size max_num_blocks_per_seq : Z) (scale k_scale
    v_scale : f32) : Step :=
  call (rllm_paged_attention_prefill_i8 output query key_cache value_cache block_tables seq_lens query_start_loc
    num_seqs num_tokens num_q_heads num_kv_heads head_dim block_size max_num_blocks_per_seq scale k_scale v_scale)
    None.

(** fused.rs *)
Definition fused_rmsnorm_f16 (output input weight : P) (hidden_size n_elements : Z) (eps : f32) (stream : N) : Step :=
  call (rllm_fused_rmsnorm_f16 output input weight hidden_size n_elements eps) (Some stream).

Definition fused_rmsnorm_f16_sync (output input weight : P) (hidden_size n_elements : Z) (eps : f32) : Step :=
  call (rllm_fused_rmsnorm_f16 output input weight hidden_size n_elements eps) None.

Definition fused_silu_mul_f16 (output gate up : P) (n_elements : Z) (stream : N) : Step :=
  call (rllm_fused_silu_mul_f16 output gate up n_elements) (Some stream).

Definition fused_silu_mul_f16_sync (output gate up : P) (n_elements : Z) : Step :=
  call (rllm_fused_silu_mul_f16 output gate up n_elements) None.

Definition fused_rope_f16 (out_q out_k query key positions : P) (num_tokens num_q_heads num_kv_heads head_dim : Z)
    (rope_theta : f32) (stream : N) : Step :=
  call (rllm_fused_rope_f16 out_q out_k query key positions num_tokens num_q_heads num_kv_heads head_dim rope_theta)
    (Some stream).

Definition fused_rope_f16_sync (out_q out_k query key positions : P) (num_tokens num_q_heads num_kv_heads head_dim :
    Z) (rope_theta : f32) : Step :=
  call (rllm_fused_rope_f16 out_q out_k query key positions num_tokens num_q_heads num_kv_heads head_dim rope_theta)
    None.

(** quant_matmul.rs *)
Definition int8_matmul_w8a8_f16 (x qweight weight_scale output : P) (rows out_features in_features : Z) (stream : N)
    : Step :=
  call (rllm_int8_matmul_w8a8_f16 x qweight weight_scale output rows out_features in_features) (Some stream).

Definition int8_matmul_w8a8_f16_sync (x qweight weight_scale output : P) (rows out_features in_features : Z) : Step :=
  call (rllm_int8_matmul_w8a8_f16 x qweight weight_scale output rows out_features in_features) None.

Definition mxfp8_matmul_w8a16_f16 (x qweight scales output : P) (rows out_features in_features group_size : Z)
    (stream : N) : Step :=
  call (rllm_mxfp8_matmul_w8a16_f16 x qweight scales output rows out_features in_features group_size) (Some stream).

Definition mxfp4_matmul_w4a16_f16 (x qweight scales output : P) (rows out_features in_features group_size : Z)
    (stream : N) : Step :=
  call (rllm_mxfp4_matmul_w4a16_f16 x qweight scales output rows out_features in_features group_size) (Some stream).

Definition nvfp4_matmul_w4a16_f16 (x qweight scales output : P) (rows out_features in_features : Z) (stream : N) :
    Step :=
  call (rllm_nvfp4_matmul_w4a16_f16 x qweight scales output rows out_features in_features) (Some stream).

(** deepseek_v3.rs *)
Definition fp8_selected_expert_matmul_f16 (x expert_ids weights scales output : P) (tokens top_k num_experts
    out_features in_features block_size : Z) (shared_input : bool) (stream : N) : Step :=
  call (rllm_deepseek_fp8_selected_expert_matmul_f16 x expert_ids weights scales output tokens top_k num_experts
    out_features in_features block_size (c_int shared_input)) (Some stream).

Definition fp8_block_matmul_f16 (x weight scales output : P) (rows out_features in_features block_size : Z) (stream :
    N) : Step :=
  call (rllm_deepseek_fp8_block_matmul_f16 x weight scales output rows out_features in_features block_size) (Some
    stream).

(** Without CUDA every wrapper is this. *)
Definition not_available : Step := λ d, (Err NotAvailable, d).

End wrappers.

(** ** What the kernels require *)
Section requirements.
Context {Ptr : Type}.
#[local] Notation P := (Ptr * N)%type.
#[local] Open Scope Z_scope.

Definition blocks_of (n size : Z) : Z := (n + size - 1) / size.

(** The operands of a kernel with the bytes it needs of each.  The attention
    kernels address the caches through the block tables, see [indices_ok]. *)
Definition operands (k : Kernel P) : list (P * Z) :=
  match k with
  | rllm_vector_add_f32 a b out n => [(a, 4 * n); (b, 4 * n); (out, 4 * n)]
  | rllm_block_copy src dst n => [(src, n); (dst, n)]
  | rllm_gptq_gemm_f16 x qweight qzeros scales g_idx out m i o groups _ =>
      [(x, 2 * (m * i)); (qweight, 4 * (i / 8 * o)); (qzeros, 4 * (groups * (o / 8))); (scales, 2 * (groups * o));
       (g_idx, 4 * i); (out, 2 * (m * o))]
  | rllm_awq_gemm_f16 x qweight qzeros scales out m i o groups _ =>
      [(x, 2 * (m * i)); (qweight, 4 * (i * (o / 8))); (qzeros, 4 * (groups * (o / 8))); (scales, 2 * (groups * o));
       (out, 2 * (m * o))]
  | rllm_cache_write_f16 kc vc nk nv slots tokens heads dim size blocks =>
      [(kc, 2 * (blocks * heads * dim * size)); (vc, 2 * (blocks * heads * dim * size));
       (nk, 2 * (tokens * heads * dim)); (nv, 2 * (tokens * heads * dim)); (slots, 8 * tokens)]
  | rllm_cache_write_fp8 kc vc nk nv slots tokens heads dim size blocks _
  | rllm_cache_write_i8 kc vc nk nv slots tokens heads dim size blocks _ _ =>
      [(kc, blocks * heads * dim * size); (vc, blocks * heads * dim * size);
       (nk, 2 * (tokens * heads * dim)); (nv, 2 * (tokens * heads * dim)); (slots, 8 * tokens)]
  | rllm_cache_block_copy src dst bytes blocks => [(src, bytes * blocks); (dst, bytes * blocks)]
  | rllm_cache_zero ptr bytes => [(ptr, bytes)]
  | rllm_paged_attention_decode_f16 out q _ _ bt sl seqs heads _ dim _ width _
  | rllm_paged_attention_decode_fp8 out q _ _ bt sl seqs heads _ dim _ width _ _
  | rllm_paged_attention_decode_i8 out q _ _ bt sl seqs heads _ dim _ width _ _ _ =>
      [(out, 2 * (seqs * heads * dim)); (q, 2 * (seqs * heads * dim)); (bt, 4 * (seqs * width)); (sl, 4 * seqs)]
  | rllm_paged_attention_prefill_f16 out q _ _ bt sl qsl seqs tokens heads _ dim _ width _
  | rllm_paged_attention_prefill_fp8 out q _ _ bt sl qsl seqs tokens heads _ dim _ width _ _
  | rllm_paged_attention_prefill_i8 out q _ _ bt sl qsl seqs tokens heads _ dim _ width _ _ _ =>
      [(out, 2 * (tokens * heads * dim)); (q, 2 * (tokens * heads * dim)); (bt, 4 * (seqs * width)); (sl, 4 * seqs);
       (qsl, 4 * (seqs + 1))]
  | rllm_fused_rmsnorm_f16 out input weight hidden n _ => [(out, 2 * n); (input, 2 * n); (weight, 2 * hidden)]
  | rllm_fused_silu_mul_f16 out gate up n => [(out, 2 * n); (gate, 2 * n); (up, 2 * n)]
  | rllm_fused_rope_f16 oq ok q k positions tokens heads kv_heads dim _ =>
      [(oq, 2 * (tokens * heads * dim)); (ok, 2 * (tokens * kv_heads * dim)); (q, 2 * (tokens * heads * dim));
       (k, 2 * (tokens * kv_heads * dim)); (positions, 4 * tokens)]
  | rllm_int8_matmul_w8a8_f16 x w scale out rows o i =>
      [(x, 2 * (rows * i)); (w, o * i); (scale, 4 * o); (out, 2 * (rows * o))]
  | rllm_mxfp8_matmul_w8a16_f16 x w scales out rows o i g =>
      [(x, 2 * (rows * i)); (w, o * i); (scales, 2 * (o * (i / g))); (out, 2 * (rows * o))]
  | rllm_mxfp4_matmul_w4a16_f16 x w scales out rows o i g =>
      [(x, 2 * (rows * i)); (w, o * (i / 2)); (scales, 2 * (o * (i / g))); (out, 2 * (rows * o))]
  | rllm_nvfp4_matmul_w4a16_f16 x w scales out rows o i =>
      [(x, 2 * (rows * i)); (w, o * (i / 2)); (scales, 2 * (o * (i / 16))); (out, 2 * (rows * o))]
  | rllm_deepseek_fp8_block_matmul_f16 x w scales out rows o i b =>
      [(x, 2 * (rows * i)); (w, o * i); (scales, 4 * (blocks_of o b * blocks_of i b)); (out, 2 * (rows * o))]
  | rllm_deepseek_fp8_selected_expert_matmul_f16 x ids w scales out tokens top_k experts o i b shared =>
      [(x, 2 * ((if shared =? 0 then tokens * top_k else tokens) * i)); (ids, 4 * (tokens * top_k));
       (w, experts * o * i); (scales, 4 * (experts * (blocks_of o b * blocks_of i b))); (out, 2 * (tokens * top_k * o))]
  end.

(** What a kernel writes to. *)
Definition written (k : Kernel P) : list Ptr :=
  match k with
  | rllm_vector_add_f32 _ _ out _ | rllm_block_copy _ out _ | rllm_gptq_gemm_f16 _ _ _ _ _ out _ _ _ _ _
  | rllm_awq_gemm_f16 _ _ _ _ out _ _ _ _ _ | rllm_cache_block_copy _ out _ _ | rllm_cache_zero out _
  | rllm_paged_attention_decode_f16 out _ _ _ _ _ _ _ _ _ _ _ _ | rllm_paged_attention_decode_fp8 out _ _ _ _ _ _ _ _ _ _ _ _ _
  | rllm_paged_attention_decode_i8 out _ _ _ _ _ _ _ _ _ _ _ _ _ _
  | rllm_paged_attention_prefill_f16 out _ _ _ _ _ _ _ _ _ _ _ _ _ _
  | rllm_paged_attention_prefill_fp8 out _ _ _ _ _ _ _ _ _ _ _ _ _ _ _
  | rllm_paged_attention_prefill_i8 out _ _ _ _ _ _ _ _ _ _ _ _ _ _ _ _
  | rllm_fused_rmsnorm_f16 out _ _ _ _ _ | rllm_fused_silu_mul_f16 out _ _ _ | rllm_int8_matmul_w8a8_f16 _ _ _ out _ _ _
  | rllm_mxfp8_matmul_w8a16_f16 _ _ _ out _ _ _ _ | rllm_mxfp4_matmul_w4a16_f16 _ _ _ out _ _ _ _
  | rllm_nvfp4_matmul_w4a16_f16 _ _ _ out _ _ _ | rllm_deepseek_fp8_block_matmul_f16 _ _ _ out _ _ _ _
  | rllm_deepseek_fp8_selected_expert_matmul_f16 _ _ _ _ out _ _ _ _ _ _ _ => [out.1]
  | rllm_cache_write_f16 kc vc _ _ _ _ _ _ _ _ | rllm_cache_write_fp8 kc vc _ _ _ _ _ _ _ _ _
  | rllm_cache_write_i8 kc vc _ _ _ _ _ _ _ _ _ _ => [kc.1; vc.1]
  | rllm_fused_rope_f16 oq ok _ _ _ _ _ _ _ _ => [oq.1; ok.1]
  end.

End requirements.

(** What the device holds: the bytes of an allocation, and the integers it was
    filled with. *)
Class DeviceView (Dev Ptr : Type) : Type := {
  extent : Dev → Ptr → option N;
  ints : Dev → Ptr → option (list Z);
}.

Section safe.
Context {Dev Ptr : Type} `{!DeviceView Dev Ptr}.
#[local] Notation P := (Ptr * N)%type.

Definition in_extent (d : Dev) (p : P) (bytes : Z) : bool :=
  match extent d p.1 with Some size => (Z.of_N p.2 + bytes <=? Z.of_N size)%Z | None => false end.

(** Every slot lies in the cache: no new row is dropped. *)
Definition slots_ok (d : Dev) (slots : P) (tokens size blocks : Z) : bool :=
  match ints d slots.1 with
  | Some l => (length l =? Z.to_nat tokens) && forallb (λ s, (0 <=? s)%Z && (s <? blocks * size)%Z) l
  | None => false
  end.

(** Every page of a sequence lies in both caches, whose elements take [width]
    bytes. *)
Definition page_ok (d : Dev) (kc vc : P) (row_bytes : Z) (page : Z) : bool :=
  (0 <=? page)%Z && in_extent d kc ((page + 1) * row_bytes)%Z && in_extent d vc ((page + 1) * row_bytes)%Z.

Definition tables_ok (d : Dev) (kc vc bt sl : P) (seqs width size row_bytes : Z) : bool :=
  match ints d bt.1, ints d sl.1 with
  | Some tables, Some lens =>
      (length lens =? Z.to_nat seqs)
      && forallb (λ '(i, len),
           let pages := Z.to_nat (blocks_of len size) in
           (pages <=? Z.to_nat width)
           && forallb (λ b, match tables !! (i * Z.to_nat width + b) with
                            | Some page => page_ok d kc vc row_bytes page
                            | None => false
                            end) (seq 0 pages)) (imap pair lens)
  | _, _ => false
  end.

(** The starts of the queries: from zero to all the tokens, and no query longer
    than its sequence. *)
Definition starts_ok (d : Dev) (qsl sl : P) (tokens : Z) : bool :=
  match ints d qsl.1, ints d sl.1 with
  | Some starts, Some lens =>
      (length starts =? S (length lens)) && bool_decide (head starts = Some 0%Z) && bool_decide (last starts = Some tokens)
      && forallb (λ '(len, (a, b)), (a <=? b)%Z && (b - a <=? len)%Z) (zip lens (zip starts (tail starts)))
  | _, _ => false
  end.

Definition indices_ok (d : Dev) (k : Kernel P) : bool :=
  match k with
  | rllm_cache_write_f16 _ _ _ _ slots tokens _ _ size blocks
  | rllm_cache_write_fp8 _ _ _ _ slots tokens _ _ size blocks _
  | rllm_cache_write_i8 _ _ _ _ slots tokens _ _ size blocks _ _ => slots_ok d slots tokens size blocks
  | rllm_paged_attention_decode_f16 _ _ kc vc bt sl seqs _ heads dim size width _ =>
      tables_ok d kc vc bt sl seqs width size (2 * (heads * dim * size))
  | rllm_paged_attention_decode_fp8 _ _ kc vc bt sl seqs _ heads dim size width _ _
  | rllm_paged_attention_decode_i8 _ _ kc vc bt sl seqs _ heads dim size width _ _ _ =>
      tables_ok d kc vc bt sl seqs width size (heads * dim * size)
  | rllm_paged_attention_prefill_f16 _ _ kc vc bt sl qsl seqs tokens _ heads dim size width _ =>
      tables_ok d kc vc bt sl seqs width size (2 * (heads * dim * size)) && starts_ok d qsl sl tokens
  | rllm_paged_attention_prefill_fp8 _ _ kc vc bt sl qsl seqs tokens _ heads dim size width _ _
  | rllm_paged_attention_prefill_i8 _ _ kc vc bt sl qsl seqs tokens _ heads dim size width _ _ _ =>
      tables_ok d kc vc bt sl seqs width size (heads * dim * size) && starts_ok d qsl sl tokens
  | _ => true
  end.

(** A launch that stays inside its operands. *)
Definition safe (d : Dev) (k : Kernel P) : bool :=
  forallb (λ o, in_extent d o.1 o.2) (operands k) && indices_ok d k.

End safe.

(** ** The laws of the device *)
Class LawfulDriver (Dev Ptr : Type) `{!Driver Dev Ptr, !DeviceView Dev Ptr} : Prop := {
  upload_ok : ∀ d w l p d', upload d w l = (Ok p, d') →
    extent d p = None ∧ extent d' p = Some (w * N.of_nat (length l))%N ∧ ints d' p = Some l
    ∧ ∀ q, q ≠ p → extent d' q = extent d q ∧ ints d' q = ints d q;
  device_alloc_ok : ∀ d n p d', device_alloc d n = (Ok p, d') →
    extent d p = None ∧ extent d' p = Some n ∧ ∀ q, q ≠ p → extent d' q = extent d q ∧ ints d' q = ints d q;
  launch_extent : ∀ d k s rc d' q, launch d k s = (rc, d') → extent d' q = extent d q;
  launch_ints : ∀ d k s rc d' q, launch d k s = (rc, d') → q ∉ written k → ints d' q = ints d q;
}.

(** ** The driver that keeps a log *)
Definition checked (Dev Ptr : Type) `{!Driver Dev Ptr, !DeviceView Dev Ptr} :
    Driver (Dev * list (Kernel (Ptr * N) * option N * bool)) Ptr := {|
  launch d k s := let '(rc, d') := launch d.1 k s in (rc, (d', d.2 ++ [(k, s, safe d.1 k)]));
  upload d w l := let '(r, d') := upload d.1 w l in (r, (d', d.2));
  device_alloc d n := let '(r, d') := device_alloc d.1 n in (r, (d', d.2));
|}.

(** ** Running operations on the device
    An operation may panic ([None]) or fail, and leaves the device changed
    either way. *)
Section run.
Context {Dev : Type}.

Definition M (A : Type) : Type := Dev → option (result A TensorError * Dev).
Definition m_ret {A} (x : A) : M A := λ d, Some (Ok x, d).
Definition m_fail {A} (e : TensorError) : M A := λ d, Some (Err e, d).
Definition m_bind {A B} (m : M A) (f : A → M B) : M B := λ d,
  '(r, d) ← m d;
  match r with Ok x => f x d | Err e => Some (Err e, d) end.
Definition m_try {A} (f : Dev → result A TensorError * Dev) : M A := λ d, Some (f d).
Definition m_panic {A} (x : option A) : M A := λ d, a ← x; Some (Ok a, d).
Definition m_result {A} (r : result A TensorError) : M A := λ d, Some (r, d).

End run.
Arguments M Dev A : clear implicits.

Definition error_string (show : Z → string) (e : CudaKernelError) : TensorError :=
  match e with
  | KernelError code => "CUDA kernel returned error code " +:+ show code
  | NotAvailable => "CUDA is not available on this build"
  end.

(** [.map_err(|e| Error::Msg(e.to_string()))] *)
Definition m_step {Dev} (show : Z → string) (s : Dev → result unit CudaKernelError * Dev) : M Dev unit :=
  m_try (λ d, let '(r, d) := s d in (match r with Ok x => Ok x | Err e => Err (error_string show e) end, d)).
