(* ===== verification/PagedOp.v ===== *)
(** * The paged attention step of a layer (rllm-model/src/layers.rs, deepseek.rs)

    [PagedAttentionOp]: how a decoder layer hands its queries, keys and values to
    the device.  The operation uploads the metadata of the batch, scatters the
    new keys and values into the device cache and attends over it, with the
    kernels that the element type of the cache selects.  The theorem composes
    the metadata of a batch (ModelRunner), the device cache (GpuCache) and the
    launches (Launch): no launch leaves its operands, the two launches go to one
    stream, and the cache is read with the encoding it was written with. *)
From S2P Require Import Prelude F32 CoreTypes Tensors FreeQueue KVSpec AttentionMeta ModelRunner WorkerStep GpuCache Launch.
#[local] Open Scope string_scope.
#[local] Open Scope list_scope.
#[local] Open Scope nat_scope.
#[local] Open Scope rllm_scope.

#[local] Notation "x <-m m ; k" := (m_bind m (λ x, k)) (at level 100, m at level 99, k at level 200, right associativity).
#[local] Notation "m ;m k" := (m_bind m (λ _, k)) (at level 100, right associativity).

(** A tensor's storage on the device and its view of it. *)
Record CudaStorage (Ptr : Type) : Type := mkCudaStorage { cs_ptr : Ptr; cs_dtype : TDType; cs_len : nat }.
Arguments mkCudaStorage {Ptr}. Arguments cs_ptr {Ptr}. Arguments cs_dtype {Ptr}. Arguments cs_len {Ptr}.
Record CudaLayout : Type := mkCudaLayout { lo_shape : list nat; lo_start_offset : nat; lo_contiguous : bool }.

Record PagedAttentionOp (Ptr : Type) : Type := mkPagedAttentionOp {
  po_key_cache : Ptr;
  po_value_cache : Ptr;
  po_cache_dtype : DType;
  po_k_scale : f32;
  po_v_scale : f32;
  po_num_blocks : Z;
  po_block_size : Z;
  po_num_q_heads : Z;
  po_num_kv_heads : Z;
  po_head_dim : Z;
  po_num_tokens : Z;
  po_num_seqs : Z;
  po_max_num_blocks_per_seq : Z;
  po_scale : f32;
  po_is_prefill : bool;
  po_slot_mapping : list Z;
  po_block_tables_flat : list Z;
  po_seq_lens : list Z;
  po_query_start_loc : list Z;
}.
Arguments mkPagedAttentionOp {Ptr}.
Arguments po_key_cache {Ptr}. Arguments po_value_cache {Ptr}. Arguments po_cache_dtype {Ptr}.
Arguments po_k_scale {Ptr}. Arguments po_v_scale {Ptr}. Arguments po_num_blocks {Ptr}. Arguments po_block_size {Ptr}.
Arguments po_num_q_heads {Ptr}. Arguments po_num_kv_heads {Ptr}. Arguments po_head_dim {Ptr}.
Arguments po_num_tokens {Ptr}. Arguments po_num_seqs {Ptr}. Arguments po_max_num_blocks_per_seq {Ptr}.
Arguments po_scale {Ptr}. Arguments po_is_prefill {Ptr}. Arguments po_slot_mapping {Ptr}.
Arguments po_block_tables_flat {Ptr}. Arguments po_seq_lens {Ptr}. Arguments po_query_start_loc {Ptr}.

(** ** The operation of a layer
    A layer outside the cache panics, as does a table that does not fit. *)
Section construction.
Context {Ptr : Type}.

(** The literal that both constructions fill in. *)
Definition op_literal (c : GpuKVCache Ptr) (m : AttentionMetadata) (layer num_q_heads num_kv_heads head_dim num_tokens : nat)
    (scale : f32) (is_prefill : bool) : option (PagedAttentionOp Ptr) :=
  kc ← key_ptr c layer;
  vc ← value_ptr c layer;
  ks ← k_scale c layer;
  vs ← v_scale c layer;
  flat ← AttentionMetadata.flatten_block_tables m;
  Some (mkPagedAttentionOp kc vc (gc_dtype c) ks vs (as_i64 (gc_num_blocks c)) (as_i64 (gc_block_size c))
          (as_i64 num_q_heads) (as_i64 num_kv_heads) (as_i64 head_dim) (as_i64 num_tokens)
          (as_i64 (AttentionMetadata.num_seqs m)) (as_i64 (am_max_num_blocks_per_seq m)) scale is_prefill
          (am_slot_mapping m) flat ((λ s, as_i32 (Z.of_N s)) <$> am_seq_lens m)
          ((λ s, as_i32 (Z.of_N s)) <$> am_query_start_loc m)).

(** In [LlamaAttention::forward_paged]: the shape of the batch decides whether it
    is a prefill. *)
Definition llama_op (c : GpuKVCache Ptr) (m : AttentionMetadata) (layer num_heads num_kv_heads head_dim bsz seq_len : nat) :
    option (PagedAttentionOp Ptr) :=
  op_literal c m layer num_heads num_kv_heads head_dim (bsz * seq_len)
    (F32.div F32.one (F32.sqrt (F32.of_N (N.of_nat head_dim)))) (1 <? seq_len).

(** In [MlaAttention::forward_paged]: the metadata does. *)
Definition mla_op (c : GpuKVCache Ptr) (m : AttentionMetadata) (layer num_heads qk_nope_dim qk_rope_dim tokens : nat) (scale : f32) :
    option (PagedAttentionOp Ptr) :=
  op_literal c m layer num_heads num_heads (qk_nope_dim + qk_rope_dim) tokens scale (0 <? am_num_prefill_tokens m).

End construction.

(** ** Running it *)
Section run.
Context {Dev Ptr : Type} `{!Driver Dev Ptr} (show : Z → string) (show_dtype : DType → string).
#[local] Notation P := (Ptr * N)%type.

Definition op_name : string := "rllm-paged-attention".
Definition cpu_fwd : result (CudaStorage Ptr * list nat) TensorError := Err "rllm-paged-attention runs only on CUDA".

(** [as_cuda_slice::<f16>()?.slice(start .. start + elem_count)]: another type is
    an error, a range outside the storage a panic. *)
Definition f16_slice (s : CudaStorage Ptr) (l : CudaLayout) : M Dev P :=
  _ <-m m_result (if bool_decide (cs_dtype s = T_F16) then Ok () else Err "unexpected dtype");
  m_panic (if lo_start_offset l + nprod (lo_shape l) <=? cs_len s
           then Some (cs_ptr s, N.of_nat (2 * lo_start_offset l)) else None).

Definition i64_product (a : Z) (l : list Z) : option Z :=
  foldl (λ acc x, a ← acc; if i64_fits (a * x) then Some (a * x)%Z else None) (Some a) l.

(** The write and the attention of one family of kernels. *)
Definition f16_kernels (op : PagedAttentionOp Ptr) (out q k v slots bt sl qsl : P) (cu : N) : M Dev unit :=
  let kc := (po_key_cache op, 0%N) in
  let vc := (po_value_cache op, 0%N) in
  m_step show (cache_write_f16 kc vc k v slots (po_num_tokens op) (po_num_kv_heads op) (po_head_dim op) (po_block_size op)
                 (po_num_blocks op) cu) ;m
  if po_is_prefill op then
    m_step show (paged_attention_prefill_f16 out q kc vc bt sl qsl (po_num_seqs op) (po_num_tokens op) (po_num_q_heads op)
                   (po_num_kv_heads op) (po_head_dim op) (po_block_size op) (po_max_num_blocks_per_seq op) (po_scale op) cu)
  else
    m_step show (paged_attention_decode_f16 out q kc vc bt sl (po_num_seqs op) (po_num_q_heads op) (po_num_kv_heads op)
                   (po_head_dim op) (po_block_size op) (po_max_num_blocks_per_seq op) (po_scale op) cu).

Definition fp8_kernels (op : PagedAttentionOp Ptr) (out q k v slots bt sl qsl : P) (cu : N) : M Dev unit :=
  let kc := (po_key_cache op, 0%N) in
  let vc := (po_value_cache op, 0%N) in
  let fp8_e5m2 := bool_decide (po_cache_dtype op = FP8E5M2) in
  m_step show (cache_write_fp8 kc vc k v slots (po_num_tokens op) (po_num_kv_heads op) (po_head_dim op) (po_block_size op)
                 (po_num_blocks op) fp8_e5m2 cu) ;m
  if po_is_prefill op then
    m_step show (paged_attention_prefill_fp8 out q kc vc bt sl qsl (po_num_seqs op) (po_num_tokens op) (po_num_q_heads op)
                   (po_num_kv_heads op) (po_head_dim op) (po_block_size op) (po_max_num_blocks_per_seq op) (po_scale op)
                   fp8_e5m2 cu)
  else
    m_step show (paged_attention_decode_fp8 out q kc vc bt sl (po_num_seqs op) (po_num_q_heads op) (po_num_kv_heads op)
                   (po_head_dim op) (po_block_size op) (po_max_num_blocks_per_seq op) (po_scale op) fp8_e5m2 cu).

Definition i8_kernels (op : PagedAttentionOp Ptr) (out q k v slots bt sl qsl : P) (cu : N) : M Dev unit :=
  let kc := (po_key_cache op, 0%N) in
  let vc := (po_value_cache op, 0%N) in
  m_step show (cache_write_i8 kc vc k v slots (po_num_tokens op) (po_num_kv_heads op) (po_head_dim op) (po_block_size op)
                 (po_num_blocks op) (po_k_scale op) (po_v_scale op) cu) ;m
  if po_is_prefill op then
    m_step show (paged_attention_prefill_i8 out q kc vc bt sl qsl (po_num_seqs op) (po_num_tokens op) (po_num_q_heads op)
                   (po_num_kv_heads op) (po_head_dim op) (po_block_size op) (po_max_num_blocks_per_seq op) (po_scale op)
                   (po_k_scale op) (po_v_scale op) cu)
  else
    m_step show (paged_attention_decode_i8 out q kc vc bt sl (po_num_seqs op) (po_num_q_heads op) (po_num_kv_heads op)
                   (po_head_dim op) (po_block_size op) (po_max_num_blocks_per_seq op) (po_scale op) (po_k_scale op)
                   (po_v_scale op) cu).

Definition cache_kernels (op : PagedAttentionOp Ptr) (out q k v slots bt sl qsl : P) (cu : N) : M Dev unit :=
  match po_cache_dtype op with
  | DT_F16 | DT_BF16 => f16_kernels op out q k v slots bt sl qsl cu
  | FP8E4M3 | FP8E5M2 => fp8_kernels op out q k v slots bt sl qsl cu
  | DT_INT8 => i8_kernels op out q k v slots bt sl qsl cu
  | other => m_fail ("paged attention: unsupported KV cache dtype " +:+ show_dtype other)
  end.

(** [cu] is the stream of the device. *)
Definition cuda_fwd (cu : N) (op : PagedAttentionOp Ptr) (q : CudaStorage Ptr) (ql : CudaLayout) (k : CudaStorage Ptr)
    (kl : CudaLayout) (v : CudaStorage Ptr) (vl : CudaLayout) : M Dev (CudaStorage Ptr * list nat) :=
  if negb (lo_contiguous ql) || negb (lo_contiguous kl) || negb (lo_contiguous vl)
  then m_fail "paged-attention inputs must be contiguous"
  else
    q_ptr <-m f16_slice q ql;
    k_ptr <-m f16_slice k kl;
    v_ptr <-m f16_slice v vl;
    slot_dev <-m m_try (λ d, upload d 8 (po_slot_mapping op));
    bt_dev <-m m_try (λ d, upload d 4 (po_block_tables_flat op));
    seq_dev <-m m_try (λ d, upload d 4 (po_seq_lens op));
    qsl_dev <-m m_try (λ d, upload d 4 (po_query_start_loc op));
    out_len <-m m_panic (i64_product (po_num_tokens op) [po_num_q_heads op; po_head_dim op]);
    output <-m m_try (λ d, device_alloc d (2 * Z.to_N out_len));
    cache_kernels op (output, 0%N) q_ptr k_ptr v_ptr (slot_dev, 0%N) (bt_dev, 0%N) (seq_dev, 0%N) (qsl_dev, 0%N) cu ;m
    m_ret (mkCudaStorage output T_F16 (Z.to_nat out_len),
           [Z.to_nat (po_num_tokens op); Z.to_nat (po_num_q_heads op); Z.to_nat (po_head_dim op)]).

End run.

(** ** What a batch's operation asks for *)

(** The encoding of the cache's elements, as the kernels use it. *)
Inductive Codec : Type :=
  | C_f16
  | C_fp8 (is_e5m2 : Z)
  | C_i8 (k_scale v_scale : f32).

Definition written_as {P} (k : Kernel P) : option Codec :=
  match k with
  | rllm_cache_write_f16 _ _ _ _ _ _ _ _ _ _ => Some C_f16
  | rllm_cache_write_fp8 _ _ _ _ _ _ _ _ _ _ e => Some (C_fp8 e)
  | rllm_cache_write_i8 _ _ _ _ _ _ _ _ _ _ ks vs => Some (C_i8 ks vs)
  | _ => None
  end.

Definition read_as {P} (k : Kernel P) : option Codec :=
  match k with
  | rllm_paged_attention_decode_f16 _ _ _ _ _ _ _ _ _ _ _ _ _
  | rllm_paged_attention_prefill_f16 _ _ _ _ _ _ _ _ _ _ _ _ _ _ _ => Some C_f16
  | rllm_paged_attention_decode_fp8 _ _ _ _ _ _ _ _ _ _ _ _ _ e
  | rllm_paged_attention_prefill_fp8 _ _ _ _ _ _ _ _ _ _ _ _ _ _ _ e => Some (C_fp8 e)
  | rllm_paged_attention_decode_i8 _ _ _ _ _ _ _ _ _ _ _ _ _ ks vs
  | rllm_paged_attention_prefill_i8 _ _ _ _ _ _ _ _ _ _ _ _ _ _ _ ks vs => Some (C_i8 ks vs)
  | _ => None
  end.

(** The rows of the queries that an attention kernel answers: the decode kernels
    take one for each sequence. *)
Definition attended_rows {P} (k : Kernel P) : option Z :=
  match k with
  | rllm_paged_attention_decode_f16 _ _ _ _ _ _ seqs _ _ _ _ _ _
  | rllm_paged_attention_decode_fp8 _ _ _ _ _ _ seqs _ _ _ _ _ _ _
  | rllm_paged_attention_decode_i8 _ _ _ _ _ _ seqs _ _ _ _ _ _ _ _ => Some seqs
  | rllm_paged_attention_prefill_f16 _ _ _ _ _ _ _ _ tokens _ _ _ _ _ _
  | rllm_paged_attention_prefill_fp8 _ _ _ _ _ _ _ _ tokens _ _ _ _ _ _ _
  | rllm_paged_attention_prefill_i8 _ _ _ _ _ _ _ _ tokens _ _ _ _ _ _ _ _ => Some tokens
  | _ => None
  end.

(** The element types with kernels. *)
Definition paged_dtype (d : DType) : Prop := d ∈ [DT_F16; DT_BF16; FP8E4M3; FP8E5M2; DT_INT8].

#[global] Instance paged_dtype_dec d : Decision (paged_dtype d).
Proof. unfold paged_dtype. apply _. Defined.

(** An operation that fits [tokens] rows in [seqs] sequences and a cache of
    [blocks] blocks of [size] slots. *)
Record op_fits {Ptr} (op : PagedAttentionOp Ptr) (tokens seqs nq nkv hd blocks size width : nat) : Prop := {
  of_tokens : po_num_tokens op = Z.of_nat tokens;
  of_seqs : po_num_seqs op = Z.of_nat seqs;
  of_nq : po_num_q_heads op = Z.of_nat nq;
  of_nkv : po_num_kv_heads op = Z.of_nat nkv;
  of_hd : po_head_dim op = Z.of_nat hd;
  of_blocks : po_num_blocks op = Z.of_nat blocks;
  of_size : po_block_size op = Z.of_nat size;
  of_width : po_max_num_blocks_per_seq op = Z.of_nat width;
  of_slots_len : length (po_slot_mapping op) = tokens;
  of_slots : Forall (λ s, (0 <= s < Z.of_nat (blocks * size))%Z) (po_slot_mapping op);
  of_lens : length (po_seq_lens op) = seqs;
  of_flat : length (po_block_tables_flat op) = seqs * width;
  of_pages : ∀ i len, po_seq_lens op !! i = Some len →
    Z.to_nat (blocks_of len (Z.of_nat size)) ≤ width
    ∧ ∀ b, b < Z.to_nat (blocks_of len (Z.of_nat size)) →
        ∃ page, po_block_tables_flat op !! (i * width + b) = Some page ∧ (0 <= page < Z.of_nat blocks)%Z;
  of_starts_len : length (po_query_start_loc op) = S seqs;
  of_first : head (po_query_start_loc op) = Some 0%Z;
  of_last : last (po_query_start_loc op) = Some (Z.of_nat tokens);
  of_starts : ∀ i a b len, po_query_start_loc op !! i = Some a → po_query_start_loc op !! S i = Some b →
    po_seq_lens op !! i = Some len → (a <= b)%Z ∧ (b - a <= len)%Z;
  of_decode : po_is_prefill op = false → seqs = tokens;
  of_dim : 0 < hd;
  of_out : (Z.of_nat (tokens * nq * hd) <= i64_max)%Z;
}.

Lemma forallb_lookup {A} (f : A → bool) (l : list A) : (∀ i x, l !! i = Some x → f x = true) → forallb f l = true.
Proof.
  intros H. apply forallb_forall. intros x Hx. apply list_elem_of_In, list_elem_of_lookup in Hx as [i Hi]. by apply (H i).
Qed.

(** ** The launches of one operation *)
Section launches.
Context {Dev Ptr : Type} `{!Driver Dev Ptr, !DeviceView Dev Ptr, !LawfulDriver Dev Ptr}.
Context (show : Z → string) (show_dtype : DType → string) (cu : N).
Context (op : PagedAttentionOp Ptr) (tokens seqs nq nkv hd blocks size width : nat).
Context (Hop : op_fits op tokens seqs nq nkv hd blocks size width).
#[local] Notation P := (Ptr * N)%type.
#[local] Notation Log := (list (Kernel P * option N * bool)).

(** The device has kept what it held. *)
Definition grows (d d' : Dev) : Prop := ∀ q s, extent d q = Some s → extent d' q = Some s ∧ ints d' q = ints d q.

Lemma grows_refl d : grows d d. Proof. by intros q s. Qed.
Lemma grows_trans d1 d2 d3 : grows d1 d2 → grows d2 d3 → grows d1 d3.
Proof. intros H1 H2 q s [H E]%H1. destruct (H2 _ _ H) as [? ->]. by split. Qed.

Lemma upload_grows d w l p d' : upload d w l = (Ok p, d') →
  grows d d' ∧ extent d p = None ∧ extent d' p = Some (w * N.of_nat (length l))%N ∧ ints d' p = Some l.
Proof using All.
  intros (Hn & He & Hi & Hf)%upload_ok. split_and!; [| done ..].
  intros q s Hq. destruct (Hf q ltac:(intros ->; congruence)) as [-> ->]. by split.
Qed.

Lemma alloc_grows d n p d' : device_alloc d n = (Ok p, d') → grows d d' ∧ extent d p = None ∧ extent d' p = Some n.
Proof using All.
  intros (Hn & He & Hf)%device_alloc_ok. split_and!; [| done ..].
  intros q s Hq. destruct (Hf q ltac:(intros ->; congruence)) as [-> ->]. by split.
Qed.

(** Bytes the cache's element takes. *)
Definition kv_width (t : DType) : nat := match t with DT_F16 | DT_BF16 => 2 | _ => 1 end.

Definition cache_held (d : Dev) (p : Ptr) : Prop :=
  ∃ s, extent d p = Some s ∧ (Z.of_nat (kv_width (po_cache_dtype op) * (blocks * nkv * hd * size)) <= Z.of_N s)%Z.

(** The device before the launches. *)
Record staged (d : Dev) (out q k v slots bt sl qsl : P) : Prop := {
  sg_kc : cache_held d (po_key_cache op);
  sg_vc : cache_held d (po_value_cache op);
  sg_out : in_extent d out (2 * Z.of_nat (tokens * nq * hd)) = true;
  sg_q : in_extent d q (2 * Z.of_nat (tokens * nq * hd)) = true;
  sg_k : in_extent d k (2 * Z.of_nat (tokens * nkv * hd)) = true;
  sg_v : in_extent d v (2 * Z.of_nat (tokens * nkv * hd)) = true;
  sg_slots : in_extent d slots (8 * Z.of_nat tokens) = true ∧ ints d slots.1 = Some (po_slot_mapping op);
  sg_bt : in_extent d bt (4 * Z.of_nat (seqs * width)) = true ∧ ints d bt.1 = Some (po_block_tables_flat op);
  sg_sl : in_extent d sl (4 * Z.of_nat seqs) = true ∧ ints d sl.1 = Some (po_seq_lens op);
  sg_qsl : in_extent d qsl (4 * Z.of_nat (S seqs)) = true ∧ ints d qsl.1 = Some (po_query_start_loc op);
  sg_apart : ∀ p, p ∈ [slots.1; bt.1; sl.1; qsl.1] → p ≠ po_key_cache op ∧ p ≠ po_value_cache op;
}.

(** A launch that writes the caches leaves the device staged. *)
Lemma staged_launch d k s rc d' out q kk v slots bt sl qsl :
  staged d out q kk v slots bt sl qsl → launch d k s = (rc, d') →
  written k = [po_key_cache op; po_value_cache op] → staged d' out q kk v slots bt sl qsl.
Proof using All.
  intros Hs Hl Hw.
  assert (He : ∀ p n, in_extent d' p n = in_extent d p n).
  { intros p n. unfold in_extent. by rewrite (launch_extent _ _ _ _ _ p.1 Hl). }
  assert (Hi : ∀ p, p ∈ [slots.1; bt.1; sl.1; qsl.1] → ints d' p = ints d p).
  { intros p Hp. apply (launch_ints _ _ _ _ _ p Hl). rewrite Hw. destruct (sg_apart _ _ _ _ _ _ _ _ _ Hs p Hp). set_solver. }
  assert (Hc : ∀ p, cache_held d p → cache_held d' p).
  { intros p (n & En & Hn). exists n. by rewrite (launch_extent _ _ _ _ _ p Hl). }
  destruct Hs. split; rewrite ?He, ?Hi by set_solver; auto.
Qed.

Lemma cache_in_extent d p pages :
  cache_held d p → pages ≤ blocks →
  in_extent d (p, 0%N) (Z.of_nat (pages * (kv_width (po_cache_dtype op) * (nkv * hd * size)))) = true.
Proof using All.
  intros (n & En & Hn) Hp. unfold in_extent. cbn [fst snd]. rewrite En. apply Z.leb_le.
  pose proof (Nat.mul_le_mono_r _ _ (kv_width (po_cache_dtype op) * (nkv * hd * size)) Hp) as Hm.
  replace (blocks * (kv_width (po_cache_dtype op) * (nkv * hd * size)))
    with (kv_width (po_cache_dtype op) * (blocks * nkv * hd * size)) in Hm by lia. lia.
Qed.

Lemma page_ok_staged d out q k v slots bt sl qsl page :
  staged d out q k v slots bt sl qsl → (0 <= page < Z.of_nat blocks)%Z →
  page_ok d (po_key_cache op, 0%N) (po_value_cache op, 0%N)
    (Z.of_nat (kv_width (po_cache_dtype op) * (nkv * hd * size))) page = true.
Proof using All.
  intros Hs Hp. unfold page_ok. rewrite (proj2 (Z.leb_le 0 page)) by lia.
  pose proof (cache_in_extent d _ (S (Z.to_nat page)) (sg_kc _ _ _ _ _ _ _ _ _ Hs) ltac:(lia)) as H1.
  pose proof (cache_in_extent d _ (S (Z.to_nat page)) (sg_vc _ _ _ _ _ _ _ _ _ Hs) ltac:(lia)) as H2.
  replace ((page + 1) * _)%Z with (Z.of_nat (S (Z.to_nat page) * (kv_width (po_cache_dtype op) * (nkv * hd * size))))
    by (rewrite Nat2Z.inj_mul; f_equal; lia).
  by rewrite H1, H2.
Qed.

Lemma tables_ok_staged d out q k v slots bt sl qsl row :
  staged d out q k v slots bt sl qsl → row = Z.of_nat (kv_width (po_cache_dtype op) * (nkv * hd * size)) →
  tables_ok d (po_key_cache op, 0%N) (po_value_cache op, 0%N) bt sl (po_num_seqs op) (po_max_num_blocks_per_seq op)
    (po_block_size op) row = true.
Proof using All.
  intros Hs ->. unfold tables_ok. rewrite (proj2 (sg_bt _ _ _ _ _ _ _ _ _ Hs)), (proj2 (sg_sl _ _ _ _ _ _ _ _ _ Hs)).
  rewrite (of_seqs _ _ _ _ _ _ _ _ _ Hop), (of_width _ _ _ _ _ _ _ _ _ Hop), (of_size _ _ _ _ _ _ _ _ _ Hop), !Nat2Z.id.
  rewrite (of_lens _ _ _ _ _ _ _ _ _ Hop), Nat.eqb_refl. cbn [andb].
  apply forallb_lookup. intros i' [i len] Hi.
  rewrite list_lookup_imap in Hi. destruct (po_seq_lens op !! i') as [len'|] eqn:El; [| done]. injection Hi as <- <-.
  destruct (of_pages _ _ _ _ _ _ _ _ _ Hop i' len' El) as [Hw Hb].
  apply andb_true_intro. split; [by apply Nat.leb_le |].
  apply forallb_lookup. intros j b (-> & Hj)%lookup_seq.
  destruct (Hb j Hj) as (page & Ep & Hr). cbn [Nat.add]. rewrite Ep. by eapply page_ok_staged.
Qed.

Lemma starts_ok_staged d out q k v slots bt sl qsl :
  staged d out q k v slots bt sl qsl → starts_ok d qsl sl (po_num_tokens op) = true.
Proof using All.
  intros Hs. unfold starts_ok. rewrite (proj2 (sg_qsl _ _ _ _ _ _ _ _ _ Hs)), (proj2 (sg_sl _ _ _ _ _ _ _ _ _ Hs)).
  rewrite (of_tokens _ _ _ _ _ _ _ _ _ Hop), (of_starts_len _ _ _ _ _ _ _ _ _ Hop), (of_lens _ _ _ _ _ _ _ _ _ Hop), Nat.eqb_refl.
  rewrite (of_first _ _ _ _ _ _ _ _ _ Hop), (of_last _ _ _ _ _ _ _ _ _ Hop), !bool_decide_true by done. cbn [andb].
  apply forallb_lookup. intros i [len [a b]] Hi.
  apply lookup_zip_Some in Hi as [Hl (Ha & Hb)%lookup_zip_Some]. cbn [fst snd] in *.
  assert (Hb' : po_query_start_loc op !! S i = Some b) by (destruct (po_query_start_loc op); [done | exact Hb]).
  destruct (of_starts _ _ _ _ _ _ _ _ _ Hop i a b len Ha Hb' Hl).
  apply andb_true_intro. split; by apply Z.leb_le.
Qed.

Lemma slots_ok_staged d out q k v slots bt sl qsl :
  staged d out q k v slots bt sl qsl →
  slots_ok d slots (po_num_tokens op) (po_block_size op) (po_num_blocks op) = true.
Proof using All.
  intros Hs. unfold slots_ok. rewrite (proj2 (sg_slots _ _ _ _ _ _ _ _ _ Hs)).
  rewrite (of_tokens _ _ _ _ _ _ _ _ _ Hop), (of_size _ _ _ _ _ _ _ _ _ Hop), (of_blocks _ _ _ _ _ _ _ _ _ Hop), Nat2Z.id.
  rewrite (of_slots_len _ _ _ _ _ _ _ _ _ Hop), Nat.eqb_refl. cbn [andb].
  apply forallb_lookup. intros i s Hi. pose proof (of_slots _ _ _ _ _ _ _ _ _ Hop) as Hf.
  rewrite Forall_lookup in Hf. specialize (Hf i s Hi).
  apply andb_true_intro. split; [apply Z.leb_le | apply Z.ltb_lt]; lia.
Qed.

(** The launches one after the other: the second only when the first returned
    zero. *)
Definition paired {A} (w a : Kernel P) (r : result A TensorError) (log : Log) : Prop :=
  (log = [(w, Some cu, true)] ∧ ∃ e, r = Err e) ∨ log = [(w, Some cu, true); (a, Some cu, true)].

Lemma two_steps d w a :
  safe d w = true → (∀ rc d', launch d w (Some cu) = (rc, d') → safe d' a = true) →
  ∃ r d' log, m_bind (m_step show (@call _ _ (checked Dev Ptr) w (Some cu)))
                (λ _, m_step show (@call _ _ (checked Dev Ptr) a (Some cu))) (d, []) = Some (r, (d', log)) ∧ paired w a r log.
Proof using All.
  intros Hw Ha. unfold m_bind, m_step, m_try, call, checked. cbn [launch fst snd mbind option_bind].
  destruct (launch d w (Some cu)) as [rc d1] eqn:E1. rewrite Hw. cbn [app]. unfold check at 1.
  destruct (rc =? 0)%Z; cbn [mbind option_bind].
  - cbn [fst snd]. destruct (launch d1 a (Some cu)) as [rc2 d2]. rewrite (Ha _ _ eq_refl).
    do 3 eexists. split; [done | by right].
  - do 3 eexists. split; [done |]. left. split; [done | by eexists].
Qed.

Definition codec_of : Codec :=
  match po_cache_dtype op with
  | DT_F16 | DT_BF16 => C_f16
  | FP8E4M3 | FP8E5M2 => C_fp8 (c_int (bool_decide (po_cache_dtype op = FP8E5M2)))
  | _ => C_i8 (po_k_scale op) (po_v_scale op)
  end.

(** The attention reads with the codec the write wrote with, and answers every
    row. *)
Definition matched (w a : Kernel P) : Prop :=
  written_as w = Some codec_of ∧ read_as a = Some codec_of ∧ attended_rows a = Some (Z.of_nat tokens).

Lemma in_extent_at d (p : P) a b : in_extent d p a = true → a = b → in_extent d p b = true.
Proof using All. by intros ? <-. Qed.

Lemma cache_operand d p n : cache_held d p → n = Z.of_nat (blocks * (kv_width (po_cache_dtype op) * (nkv * hd * size))) →
  in_extent d (p, 0%N) n = true.
Proof using All. intros Hc ->. by apply cache_in_extent. Qed.

#[local] Ltac operand Hs :=
  first [ apply cache_operand; [first [apply (sg_kc _ _ _ _ _ _ _ _ _ Hs) | apply (sg_vc _ _ _ _ _ _ _ _ _ Hs)] |]
        | eapply in_extent_at; [first [apply (sg_out _ _ _ _ _ _ _ _ _ Hs) | apply (sg_q _ _ _ _ _ _ _ _ _ Hs)
            | apply (sg_k _ _ _ _ _ _ _ _ _ Hs) | apply (sg_v _ _ _ _ _ _ _ _ _ Hs) | apply (sg_slots _ _ _ _ _ _ _ _ _ Hs)
            | apply (sg_bt _ _ _ _ _ _ _ _ _ Hs) | apply (sg_sl _ _ _ _ _ _ _ _ _ Hs) | apply (sg_qsl _ _ _ _ _ _ _ _ _ Hs)] |] ].

#[local] Ltac sizes :=
  rewrite ?(of_tokens _ _ _ _ _ _ _ _ _ Hop), ?(of_seqs _ _ _ _ _ _ _ _ _ Hop), ?(of_nq _ _ _ _ _ _ _ _ _ Hop),
    ?(of_nkv _ _ _ _ _ _ _ _ _ Hop), ?(of_hd _ _ _ _ _ _ _ _ _ Hop), ?(of_blocks _ _ _ _ _ _ _ _ _ Hop),
    ?(of_size _ _ _ _ _ _ _ _ _ Hop), ?(of_width _ _ _ _ _ _ _ _ _ Hop).

#[local] Ltac safe_launch Hs Hd :=
  unfold safe; cbn [operands forallb fst snd indices_ok];
  repeat (apply andb_true_intro; split);
  try (operand Hs; sizes; rewrite ?Hd; unfold kv_width; lia); try done;
  try (eapply tables_ok_staged; [exact Hs | rewrite ?Hd; sizes; unfold kv_width; lia]);
  try (eapply starts_ok_staged; exact Hs); try (eapply slots_ok_staged; exact Hs).

(** Each family: the write and the attention that reads what it wrote. *)
Lemma kernels_paired d out q k v slots bt sl qsl :
  paged_dtype (po_cache_dtype op) → staged d out q k v slots bt sl qsl →
  ∃ w a, matched w a
    ∧ ∃ r d' log, @cache_kernels _ _ (checked Dev Ptr) show show_dtype op out q k v slots bt sl qsl cu (d, []) = Some (r, (d', log))
        ∧ paired w a r log.
Proof using All.
  intros Hdt Hs. unfold cache_kernels, matched, codec_of. unfold paged_dtype in Hdt.
  destruct (po_cache_dtype op) eqn:Hd; try (exfalso; clear -Hdt; set_solver).
  all: unfold f16_kernels, fp8_kernels, i8_kernels; rewrite ?Hd; destruct (po_is_prefill op) eqn:Hp;
    [| pose proof (of_decode _ _ _ _ _ _ _ _ _ Hop Hp) as Hdec]; do 2 eexists;
    (refine (conj _ _); [ | eapply two_steps]; [split_and!; sizes; by rewrite ?Hdec | safe_launch Hs Hd | intros rc d1 Hl;
        pose proof (staged_launch _ _ _ _ _ _ _ _ _ _ _ _ _ Hs Hl eq_refl) as Hs1; safe_launch Hs1 Hd]).
Qed.

(** A tensor of [n] half-precision numbers that the device holds. *)
Record on_device (d : Dev) (s : CudaStorage Ptr) (l : CudaLayout) (n : nat) : Prop := {
  od_dtype : cs_dtype s = T_F16;
  od_contiguous : lo_contiguous l = true;
  od_count : nprod (lo_shape l) = n;
  od_range : lo_start_offset l + n ≤ cs_len s;
  od_extent : ∃ z, extent d (cs_ptr s) = Some z ∧ (2 * N.of_nat (cs_len s) <= z)%N;
}.

Lemma f16_slice_run {D} (x : D) d s l n :
  on_device d s l n → f16_slice (Dev := D) s l x = Some (Ok (cs_ptr s, N.of_nat (2 * lo_start_offset l)), x).
Proof using All.
  intros [Ht _ Hc Hr _]. unfold f16_slice, m_bind, m_result, m_panic.
  rewrite bool_decide_true by done. cbn [mbind option_bind]. by rewrite Hc, (proj2 (Nat.leb_le _ _)).
Qed.

Lemma view_in_extent d d' s l n : on_device d s l n → grows d d' →
  in_extent d' (cs_ptr s, N.of_nat (2 * lo_start_offset l)) (2 * Z.of_nat n) = true.
Proof using All.
  intros [_ _ _ Hr (z & Ez & Hz)] Hg. unfold in_extent. cbn [fst snd]. destruct (Hg _ _ Ez) as [-> _]. apply Z.leb_le. lia.
Qed.

(** What came of the operation: nothing was launched, or the write and, when it
    returned zero, the attention; a result has the shape of the queries. *)
Definition launched (r : result (CudaStorage Ptr * list nat) TensorError) (log : Log) : Prop :=
  (log = [] ∧ ∃ e, r = Err e)
  ∨ paged_dtype (po_cache_dtype op) ∧ ∃ w a, matched w a ∧ paired w a r log
      ∧ ∀ o, r = Ok o → o.2 = [tokens; nq; hd] ∧ cs_dtype o.1 = T_F16 ∧ cs_len o.1 = tokens * nq * hd.

Lemma out_len_value : i64_product (po_num_tokens op) [po_num_q_heads op; po_head_dim op] = Some (Z.of_nat (tokens * nq * hd)).
Proof using Hop.
  pose proof (of_dim _ _ _ _ _ _ _ _ _ Hop). pose proof (of_out _ _ _ _ _ _ _ _ _ Hop).
  assert (tokens * nq ≤ tokens * nq * hd) by nia.
  unfold i64_product. cbn [foldl mbind option_bind].
  rewrite (of_tokens _ _ _ _ _ _ _ _ _ Hop), (of_nq _ _ _ _ _ _ _ _ _ Hop), (of_hd _ _ _ _ _ _ _ _ _ Hop).
  assert (Hfit : ∀ n, n ≤ tokens * nq * hd → i64_fits (Z.of_nat n) = true).
  { intros n Hn. unfold i64_fits. unfold i64_max in *. apply andb_true_intro. split; apply Z.leb_le; lia. }
  rewrite <- Nat2Z.inj_mul, Hfit by done. cbn [mbind option_bind]. by rewrite <- Nat2Z.inj_mul, Hfit.
Qed.

Lemma bind_upload {B} d (log : Log) w l (f : Ptr → M (Dev * Log) B) :
  m_bind (m_try (λ x, @upload _ _ (checked Dev Ptr) x w l)) f (d, log)
  = match upload d w l with (Ok p, d1) => f p (d1, log) | (Err e, d1) => Some (Err e, (d1, log)) end.
Proof using All. unfold m_bind, m_try, checked. cbn [upload fst snd mbind option_bind]. by destruct (upload d w l) as [[p|e] d1]. Qed.

Lemma bind_alloc {B} d (log : Log) n (f : Ptr → M (Dev * Log) B) :
  m_bind (m_try (λ x, @device_alloc _ _ (checked Dev Ptr) x n)) f (d, log)
  = match device_alloc d n with (Ok p, d1) => f p (d1, log) | (Err e, d1) => Some (Err e, (d1, log)) end.
Proof using All. unfold m_bind, m_try, checked. cbn [device_alloc fst snd mbind option_bind]. by destruct (device_alloc d n) as [[p|e] d1]. Qed.

Lemma bind_some {A B D} (m : M D A) (f : A → M D B) d x d' : m d = Some (Ok x, d') → m_bind m f d = f x d'.
Proof using All. unfold m_bind. by intros ->. Qed.

Lemma held_grows d d' p : grows d d' → cache_held d p → cache_held d' p.
Proof using All. intros Hg (n & En & Hn). exists n. by destruct (Hg _ _ En). Qed.

Lemma fresh_apart d d' p kc : grows d d' → extent d' p = None → cache_held d kc → p ≠ kc.
Proof using All. intros Hg Hp (n & En & _) ->. destruct (Hg _ _ En). congruence. Qed.

(** An upload, still there. *)
Lemma uploaded_held d d' p w l n : grows d d' → extent d p = Some (w * N.of_nat (length l))%N → ints d p = Some l →
  n = (Z.of_N w * Z.of_nat (length l))%Z → in_extent d' (p, 0%N) n = true ∧ ints d' p = Some l.
Proof using All.
  intros Hg Hx Hi ->. destruct (Hg _ _ Hx) as [Hx' Hi']. split; [| congruence].
  unfold in_extent. cbn [fst snd]. rewrite Hx'. apply Z.leb_le. lia.
Qed.

(** The operation on tensors that the device holds. *)
Lemma cuda_fwd_launches d q ql k kl v vl :
  on_device d q ql (tokens * nq * hd) → on_device d k kl (tokens * nkv * hd) → on_device d v vl (tokens * nkv * hd) →
  cache_held d (po_key_cache op) → cache_held d (po_value_cache op) →
  ∃ r d' log, @cuda_fwd _ _ (checked Dev Ptr) show show_dtype cu op q ql k kl v vl (d, []) = Some (r, (d', log))
    ∧ launched r log.
Proof using All.
  intros Hq Hk Hv Hkc Hvc. unfold cuda_fwd.
  rewrite (od_contiguous _ _ _ _ Hq), (od_contiguous _ _ _ _ Hk), (od_contiguous _ _ _ _ Hv). cbn [negb orb].
  erewrite bind_some by (by eapply f16_slice_run). erewrite bind_some by (by eapply f16_slice_run).
  erewrite bind_some by (by eapply f16_slice_run).
  assert (Hnone : ∀ (e : TensorError) (d1 : Dev), ∃ r d' log,
    Some (Err e, (d1, [] : Log)) = Some (r, (d', log)) ∧ launched r log).
  { intros e d1. do 3 eexists. split; [done |]. left. split; [done | by eexists]. }
  rewrite bind_upload. destruct (upload d 8 _) as [[slots|e] d1] eqn:E1; [| apply Hnone].
  rewrite bind_upload. destruct (upload d1 4 _) as [[bt|e] d2] eqn:E2; [| apply Hnone].
  rewrite bind_upload. destruct (upload d2 4 _) as [[sl|e] d3] eqn:E3; [| apply Hnone].
  rewrite bind_upload. destruct (upload d3 4 _) as [[qsl|e] d4] eqn:E4; [| apply Hnone].
  erewrite bind_some; [| unfold m_panic; rewrite out_len_value; done].
  rewrite bind_alloc. destruct (device_alloc d4 _) as [[out|e] d5] eqn:E5; [| apply Hnone].
  apply upload_grows in E1 as (G1 & N1 & X1 & I1), E2 as (G2 & N2 & X2 & I2), E3 as (G3 & N3 & X3 & I3), E4 as (G4 & N4 & X4 & I4).
  apply alloc_grows in E5 as (G5 & N5 & X5).
  pose proof (grows_trans _ _ _ G4 G5) as G45. pose proof (grows_trans _ _ _ G3 G45) as G35.
  pose proof (grows_trans _ _ _ G2 G35) as G25. pose proof (grows_trans _ _ _ G1 G25) as G.
  assert (Hs : staged d5 (out, 0%N) (cs_ptr q, N.of_nat (2 * lo_start_offset ql)) (cs_ptr k, N.of_nat (2 * lo_start_offset kl))
                 (cs_ptr v, N.of_nat (2 * lo_start_offset vl)) (slots, 0%N) (bt, 0%N) (sl, 0%N) (qsl, 0%N)).
  { split.
    - by eapply held_grows.
    - by eapply held_grows.
    - unfold in_extent. cbn [fst snd]. rewrite X5. apply Z.leb_le. lia.
    - by eapply view_in_extent.
    - by eapply view_in_extent.
    - by eapply view_in_extent.
    - eapply uploaded_held; [exact G25 | exact X1 | exact I1 |]. by rewrite (of_slots_len _ _ _ _ _ _ _ _ _ Hop).
    - eapply uploaded_held; [exact G35 | exact X2 | exact I2 |]. by rewrite (of_flat _ _ _ _ _ _ _ _ _ Hop).
    - eapply uploaded_held; [exact G45 | exact X3 | exact I3 |]. by rewrite (of_lens _ _ _ _ _ _ _ _ _ Hop).
    - eapply uploaded_held; [exact G5 | exact X4 | exact I4 |]. by rewrite (of_starts_len _ _ _ _ _ _ _ _ _ Hop).
    - pose proof (grows_trans _ _ _ G1 G2) as G2'. pose proof (grows_trans _ _ _ G2' G3) as G3'.
      cbn [fst]. intros p Hp. repeat (apply elem_of_cons in Hp as [->|Hp]); [.. | by apply not_elem_of_nil in Hp];
        (split; (eapply fresh_apart; [| first [exact N1 | exact N2 | exact N3 | exact N4] | first [exact Hkc | exact Hvc]];
                 first [done | apply grows_refl])). }
  destruct (decide (paged_dtype (po_cache_dtype op))) as [Hdt|Hdt].
  2: { destruct (po_cache_dtype op) eqn:Hd; try (destruct Hdt; unfold paged_dtype; clear; set_solver);
       unfold m_bind, cache_kernels; rewrite Hd; apply Hnone. }
  destruct (kernels_paired d5 _ _ _ _ _ _ _ _ Hdt Hs) as (w & a & Hm & r & d' & log & E & Hp).
  unfold m_bind at 1. rewrite E. cbn [mbind option_bind].
  destruct r as [[]|e].
  - do 3 eexists. split; [done |]. right. split; [done |]. exists w, a. split_and!; [done | | ].
    + destruct Hp as [(-> & e & [=])|Hp]; by right.
    + intros o [= <-]. cbn [fst snd cs_dtype cs_len].
      rewrite (of_tokens _ _ _ _ _ _ _ _ _ Hop), (of_nq _ _ _ _ _ _ _ _ _ Hop), (of_hd _ _ _ _ _ _ _ _ _ Hop), !Nat2Z.id. done.
  - do 3 eexists. split; [done |]. right. split; [done |]. exists w, a. split_and!; [done | | done].
    destruct Hp as [(-> & e' & _)|Hp]; [left; split; [done | by eexists] | by right].
Qed.

End launches.

(** ** The operation of a batch *)

(** The device cache of a layer: built by [gpu_cache_new], with any scales set
    since. *)
Record built_cache {Mem Ptr} `{!DeviceMemory Mem Ptr} (c : GpuKVCache Ptr) (layers nkv hd : nat) : Prop := {
  bc_built : ∃ m m' c0 ks vs, gpu_cache_new m (gc_num_blocks c) layers nkv hd (gc_block_size c) (gc_dtype c) = Some (Ok c0, m')
    ∧ c = with_scales ks vs c0 ∧ length ks = layers ∧ length vs = layers;
}.
Arguments built_cache Mem {Ptr _} c layers nkv hd.

Lemma alloc_layers_length {Mem Ptr} `{!DeviceMemory Mem Ptr} bytes n : ∀ (m m' : Mem) (ptrs : list (Ptr * Ptr)),
  alloc_layers m bytes n = (Ok ptrs, m') → length ptrs = n.
Proof.
  induction n as [|n IH]; intros m m' ptrs; cbn [alloc_layers]; [by intros [= <- <-] |].
  repeat (case_match; try done). intros [= <- <-]. simpl. f_equal. by eapply IH.
Qed.

Lemma built_layer {Mem Ptr} `{!DeviceMemory Mem Ptr} (c : GpuKVCache Ptr) layers nkv hd layer :
  built_cache Mem c layers nkv hd → layer < layers →
  ∃ kc vc ks vs sz, gc_layer_ptrs c !! layer = Some (kc, vc) ∧ k_scale c layer = Some ks ∧ v_scale c layer = Some vs
    ∧ gc_layer_sizes c !! layer = Some (sz, sz)
    ∧ sz = (N.of_nat (gc_num_blocks c * nkv * hd * gc_block_size c) * bytes_per_scalar (gc_dtype c))%N.
Proof.
  intros [(m & m' & c0 & ks & vs & Hnew & -> & Hks & Hvs)] Hl. cbn [with_scales gc_num_blocks gc_block_size gc_dtype] in *.
  unfold gpu_cache_new in Hnew. destruct (usize_product _ _) as [bytes|] eqn:Eb; [| done].
  apply usize_product_Some in Eb. cbn [mbind option_bind] in Hnew.
  destruct (alloc_layers m bytes layers) as [[ptrs|] m1] eqn:Ea; [| done]. injection Hnew as <- _.
  apply alloc_layers_length in Ea. cbn [gc_layer_ptrs gc_layer_sizes gc_num_blocks gc_block_size gc_dtype k_scale v_scale gc_k_scales gc_v_scales] in *.
  destruct (lookup_lt_is_Some_2 ptrs layer ltac:(lia)) as [[kc vc] Ep].
  destruct (lookup_lt_is_Some_2 ks layer ltac:(lia)) as [k Ek]. destruct (lookup_lt_is_Some_2 vs layer ltac:(lia)) as [v Ev].
  exists kc, vc, k, v, bytes. split_and!; [done .. | by apply lookup_replicate_2 |]. rewrite Eb. unfold product. cbn [foldr]. lia.
Qed.

Lemma as_i64_small n : (Z.of_nat n <= i64_max)%Z → as_i64 n = Z.of_nat n.
Proof. unfold as_i64, i64_max. intros Hn. rewrite Z.mod_small by lia. lia. Qed.

Lemma blocks_of_cdiv n size : 0 < size → Z.to_nat (blocks_of (Z.of_nat n) (Z.of_nat size)) = cdiv n size.
Proof.
  intros Hs. unfold blocks_of. pose proof (cdiv_bounds n size Hs) as Hb.
  enough (((Z.of_nat n + Z.of_nat size - 1) / Z.of_nat size)%Z = Z.of_nat (cdiv n size)) as -> by lia.
  symmetry. apply (Z.div_unique_pos _ _ _ (Z.of_nat n + Z.of_nat size - 1 - Z.of_nat size * Z.of_nat (cdiv n size))); [| lia].
  nia.
Qed.

(** What the metadata of a batch says besides its lengths and tables. *)
Lemma build_shape b m : build_attention_metadata b = Some m → am_seq_lens m ≠ [] →
  am_max_num_blocks_per_seq m = ib_max_num_blocks_per_seq b ∧ am_num_decode_tokens m ≤ length (am_seq_lens m).
Proof.
  unfold build_attention_metadata. destruct (ib_num_seqs b =? 0); [by intros [= <-] |].
  destruct (split_batch _ _ _) as [g|]; [| done]. cbn [mbind option_bind].
  destruct (g_prefill_lens g) as [|x pl] eqn:Ep, (g_decode_lens g) as [|y dl] eqn:Ed.
  - by intros [= <-].
  - intros [= <-] _. by split.
  - unfold AttentionMetadata.for_prefill. destruct (AttentionMetadata.cumulate _ _); [| done].
    cbn [mbind option_bind]. intros [= <-] _. cbn. split; [done | lia].
  - destruct (AttentionMetadata.cumulate _ _); [| done]. cbn [mbind option_bind]. intros [= <-] _. cbn.
    split; [done | rewrite length_app; simpl; lia].
Qed.

Lemma psums_last l : last (psums 0 l) = Some (sum_list l).
Proof. rewrite last_lookup, psums_length. cbn [pred]. rewrite psums_lookup, take_ge by done. done. Qed.

Section batch.
Context {Ptr : Type} (bs : nat) (es : list Entry) (m : AttentionMetadata) (c : GpuKVCache Ptr) (nq nkv hd : nat).
#[local] Notation tokens := (sum_list (e_count <$> es)).
#[local] Notation width := (max_list ((λ e, length (e_table e)) <$> es)).

(** A batch that the scheduler and the runner hand over: what [ModelRunner] asks
    of it, blocks of the cache, and sizes that fit their integers. *)
Record paged_batch : Prop := {
  pb_some : es ≠ [];
  pb_pos : 0 < bs;
  pb_bs : (Z.of_nat bs <= i32_max)%Z;
  pb_tables : tables_cover bs es;
  pb_order : prefill_first es;
  pb_drafts : no_drafts es;
  pb_counts : ∀ e, e ∈ es → 0 < e_count e;
  pb_lens : ∀ e, e ∈ es → (Z.of_nat (e_len e) <= i32_max)%Z;
  pb_total : (Z.of_nat tokens <= i32_max)%Z;
  pb_blocks : ∀ e b, e ∈ es → b ∈ e_table e → b < gc_num_blocks c;
  pb_meta : build_attention_metadata (batch_of bs es) = Some m;
  pb_size : gc_block_size c = bs;
  pb_num_blocks : (Z.of_nat (gc_num_blocks c) <= i64_max)%Z;
  pb_width : (Z.of_nat width <= i64_max)%Z;
  pb_nq : 0 < nq;
  pb_hd : 0 < hd;
  pb_nkv : (Z.of_nat nkv <= i64_max)%Z;
  pb_out : (Z.of_nat (tokens * nq * hd) <= i64_max)%Z;
}.

Context (Hb : paged_batch).

Lemma batch_metadata : metadata_of bs es m.
Proof using Hb.
  destruct (build_attention_metadata_spec bs es (pb_tables Hb)) as (m' & E & Hm); [| apply Hb | apply Hb | |].
  - intros e He. pose proof (pb_lens Hb e He). unfold i32_max in *. unfold u32_max. lia.
  - pose proof (pb_total Hb). unfold i32_max in *. unfold u32_max. lia.
  - rewrite (pb_meta Hb) in E. by injection E as <-.
Qed.

Lemma counts_positive : length es ≤ tokens.
Proof using Hb.
  assert (H : ∀ l : list Entry, (∀ e, e ∈ l → 0 < e_count e) → length l ≤ sum_list (e_count <$> l)).
  { induction l as [|e l IH]; intros Hl; [done |]. cbn. pose proof (Hl e ltac:(by left)).
    specialize (IH ltac:(intros; apply Hl; by right)). lia. }
  apply H, (pb_counts Hb).
Qed.

Lemma some_tokens : 0 < tokens.
Proof using Hb.
  pose proof counts_positive. assert (length es ≠ 0) by (intros E%nil_length_inv; by apply (pb_some Hb)). lia.
Qed.

Lemma batch_shape : am_max_num_blocks_per_seq m = width
  ∧ AttentionMetadata.num_tokens m = tokens ∧ AttentionMetadata.num_seqs m = length es ∧ am_num_decode_tokens m ≤ length es.
Proof using Hb.
  pose proof batch_metadata as Hm.
  assert (Hl : length (am_seq_lens m) = length es) by (by rewrite (mo_lens _ _ _ Hm), length_fmap).
  destruct (build_shape _ _ (pb_meta Hb)) as [Hw Hd].
  - intros E. rewrite E in Hl. apply (pb_some Hb). by apply nil_length_inv.
  - split_and!; [exact Hw | apply (mo_tokens _ _ _ Hm) | exact Hl | lia].
Qed.

Lemma slots_in_cache z : z ∈ am_slot_mapping m → (0 <= z < Z.of_nat (gc_num_blocks c * bs))%Z.
Proof using Hb.
  rewrite (mo_slots _ _ _ batch_metadata). intros (t & Ht)%list_elem_of_lookup.
  destruct (slot_inv bs es (pb_pos Hb) (pb_bs Hb) (pb_tables Hb) t z Ht) as (i & e & j & b & He & Hj & Hbk & _ & ->).
  pose proof (pb_blocks Hb e b (list_elem_of_lookup_2 _ _ _ He) (list_elem_of_lookup_2 _ _ _ Hbk)) as Hlt.
  pose proof (Nat.mod_upper_bound (e_start e + j) bs ltac:(pose proof (pb_pos Hb); lia)). nia.
Qed.

Lemma fits_i32 {A} (f : A → nat) (l : list A) : (∀ x, x ∈ l → (Z.of_nat (f x) <= i32_max)%Z) →
  (λ s, as_i32 (Z.of_N s)) <$> (N.of_nat ∘ f <$> l) = Z.of_nat ∘ f <$> l.
Proof.
  intros H. rewrite <- list_fmap_compose. apply list_fmap_ext. intros i x Hx. simpl. rewrite nat_N_Z.
  apply as_i32_small. split; [lia |]. apply H. by eapply list_elem_of_lookup_2.
Qed.

Lemma batch_lens : (λ s, as_i32 (Z.of_N s)) <$> am_seq_lens m = Z.of_nat ∘ e_len <$> es.
Proof using Hb. rewrite (mo_lens _ _ _ batch_metadata). apply fits_i32. apply (pb_lens Hb). Qed.

Lemma batch_starts : (λ s, as_i32 (Z.of_N s)) <$> am_query_start_loc m = Z.of_nat <$> psums 0 (e_count <$> es).
Proof using Hb.
  rewrite (mo_starts _ _ _ batch_metadata). apply (fits_i32 (λ x, x)). intros x (i & Hi)%list_elem_of_lookup.
  pose proof (lookup_lt_Some _ _ _ Hi) as Hl. rewrite psums_length in Hl. rewrite psums_lookup in Hi by lia.
  injection Hi as <-. pose proof (sum_list_take_le (e_count <$> es) i). pose proof (pb_total Hb). lia.
Qed.

(** The flat table: every page a sequence needs is a block of the cache. *)
Lemma batch_pages : ∃ flat, AttentionMetadata.flatten_block_tables m = Some flat ∧ length flat = length es * width
  ∧ ∀ i e, es !! i = Some e → cdiv (e_len e) bs ≤ width
      ∧ ∀ b, b < cdiv (e_len e) bs → ∃ page, flat !! (i * width + b) = Some page ∧ (0 <= page < Z.of_nat (gc_num_blocks c))%Z.
Proof using Hb.
  pose proof batch_metadata as Hm. destruct batch_shape as (Hw & _ & Hn & _).
  unfold AttentionMetadata.num_seqs in Hn. unfold AttentionMetadata.flatten_block_tables. rewrite Hw, Hn.
  destruct (flatten_rows_spec width (length es) (am_block_tables m) 0 (replicate (length es * width) (-1)%Z))
    as (flat & -> & Hl & Hcell); [by rewrite length_replicate | by rewrite (mo_tables _ _ _ Hm), length_fmap |].
  exists flat. split_and!; [done | done |]. intros i e He. pose proof (list_elem_of_lookup_2 _ _ _ He) as Hel.
  pose proof (tc_cover _ _ (pb_tables Hb) e Hel) as Hc.
  assert (Hle : length (e_table e) ≤ width).
  { apply max_list_elem_of_le. apply list_elem_of_fmap. by exists e. }
  split; [lia |]. intros b Hlt. rewrite Hcell, Nat.sub_0_r by lia. unfold table_cell.
  rewrite (mo_tables _ _ _ Hm), list_lookup_fmap, He, length_fmap. cbn [fmap option_fmap option_map mbind option_bind].
  unfold table_i32. rewrite list_lookup_fmap.
  destruct (lookup_lt_is_Some_2 (e_table e) b ltac:(lia)) as [p Hp]. rewrite Hp. cbn.
  rewrite decide_True by (split; [apply lookup_lt_Some in He; lia | by eexists]).
  exists (Z.of_nat p). split; [done |]. pose proof (pb_blocks Hb e p Hel ltac:(by eapply list_elem_of_lookup_2)). lia.
Qed.

(** The operation of the batch fits it. *)
Lemma literal_fits {Mem} `{!DeviceMemory Mem Ptr} layers layer scale is_prefill :
  built_cache Mem c layers nkv hd → layer < layers → (is_prefill = false → length es = tokens) →
  ∃ op, op_literal c m layer nq nkv hd tokens scale is_prefill = Some op
    ∧ op_fits op tokens (length es) nq nkv hd (gc_num_blocks c) bs width
    ∧ po_cache_dtype op = gc_dtype c ∧ gc_layer_ptrs c !! layer = Some (po_key_cache op, po_value_cache op).
Proof using Hb.
  intros Hbuilt Hlayer Hdec. destruct (built_layer c layers nkv hd layer Hbuilt Hlayer) as (kc & vc & ks & vs & _ & Ep & Ek & Ev & _).
  unfold op_literal, key_ptr, value_ptr. rewrite Ep, Ek, Ev. cbn [fmap option_fmap option_map mbind option_bind fst snd].
  destruct batch_pages as (flat & -> & Hflat & Hpages). cbn [mbind option_bind]. eexists. split; [done |].
  destruct batch_shape as (Hw & _ & Hn & _). pose proof counts_positive. pose proof some_tokens.
  pose proof (pb_total Hb). pose proof (pb_bs Hb). pose proof (pb_out Hb). pose proof (pb_nq Hb). pose proof (pb_hd Hb).
  assert (nq ≤ tokens * nq * hd ∧ hd ≤ tokens * nq * hd) as [? ?].
  { clear -H0 H4 H5. generalize dependent tokens. intros t ?. split; [assert (0 < t * hd) | assert (0 < t * nq)]; nia. }
  unfold i32_max in *. unfold i64_max in *.
  split; [| done].
  split; cbn [po_num_tokens po_num_seqs po_num_q_heads po_num_kv_heads po_head_dim po_num_blocks po_block_size
              po_max_num_blocks_per_seq po_slot_mapping po_seq_lens po_block_tables_flat po_query_start_loc po_is_prefill];
    rewrite ?Hw, ?Hn, ?(pb_size Hb), ?batch_lens, ?batch_starts, ?length_fmap, ?psums_length; try done.
  1-8: rewrite as_i64_small; [done |]; unfold i64_max; try lia.
  - apply (pb_nkv Hb).
  - apply (pb_num_blocks Hb).
  - apply (pb_width Hb).
  - rewrite (mo_slots _ _ _ batch_metadata). apply slots_total.
  - apply Forall_forall. intros z Hz. by apply slots_in_cache.
  - intros i len Hi. rewrite list_lookup_fmap in Hi. destruct (es !! i) as [e|] eqn:He; [| done]. injection Hi as <-.
    cbn [compose]. rewrite blocks_of_cdiv by apply (pb_pos Hb). by apply Hpages.
  - by rewrite length_fmap.
  - by rewrite psums_cons.
  - by rewrite fmap_last, psums_last.
  - intros i a b len Ha Hbb Hlen.
    rewrite list_lookup_fmap in Ha. rewrite list_lookup_fmap in Hbb. rewrite list_lookup_fmap in Hlen.
    destruct (es !! i) as [e|] eqn:He; [| done]. injection Hlen as <-.
    pose proof (lookup_lt_Some _ _ _ He).
    rewrite psums_lookup in Ha by (rewrite length_fmap; lia). rewrite psums_lookup in Hbb by (rewrite length_fmap; lia).
    injection Ha as <-. injection Hbb as <-.
    assert (Hc : (e_count <$> es) !! i = Some (e_count e)) by (by rewrite list_lookup_fmap, He).
    rewrite (take_S_r _ _ _ Hc), sum_list_snoc. cbn [compose]. unfold e_len. lia.
Qed.

End batch.

(** ** A step of a layer on the device *)
Section step.
Context {Dev Ptr Mem : Type} `{!Driver Dev Ptr, !DeviceView Dev Ptr, !LawfulDriver Dev Ptr, !DeviceMemory Mem Ptr}.

(** The device holds the allocations that the cache recorded. *)
Definition holds_layer (d : Dev) (c : GpuKVCache Ptr) (layer : nat) : Prop := ∀ p sz,
  gc_layer_ptrs c !! layer = Some p → gc_layer_sizes c !! layer = Some sz →
  (∃ s, extent d p.1 = Some s ∧ (sz.1 <= s)%N) ∧ (∃ s, extent d p.2 = Some s ∧ (sz.2 <= s)%N).

Lemma layer_held (d : Dev) c layers nkv hd layer (op : PagedAttentionOp Ptr) :
  built_cache Mem c layers nkv hd → layer < layers → holds_layer d c layer →
  po_cache_dtype op = gc_dtype c → gc_layer_ptrs c !! layer = Some (po_key_cache op, po_value_cache op) →
  cache_held op nkv hd (gc_num_blocks c) (gc_block_size c) d (po_key_cache op)
  ∧ cache_held op nkv hd (gc_num_blocks c) (gc_block_size c) d (po_value_cache op).
Proof using All.
  intros Hc Hl Hd Et Ep. destruct (built_layer c layers nkv hd layer Hc Hl) as (kc & vc & ks & vs & sz & _ & _ & _ & Es & Esz).
  destruct (Hd _ _ Ep Es) as [(s1 & E1 & L1) (s2 & E2 & L2)]. cbn [fst snd] in *.
  assert (Hw : (N.of_nat (kv_width (gc_dtype c)) <= bytes_per_scalar (gc_dtype c))%N) by (destruct (gc_dtype c); cbn; lia).
  apply (N.mul_le_mono_l _ _ (N.of_nat (gc_num_blocks c * nkv * hd * gc_block_size c))) in Hw.
  unfold cache_held. rewrite Et. split; [exists s1 | exists s2]; (split; [done |]); lia.
Qed.

(** C9. The paged step of a layer stays inside what it was given.  Take a batch the
    runner builds for prefills, listed first, and decodes of one token each (a
    decode with drafts is left out: its query starts miss the drafts), whose
    tables name blocks of the cache and whose sizes fit the integers of the
    kernels ([paged_batch]); a layer of a device cache that was built for its
    block size; and any device whose uploads, allocations and launches behave.
    The operation of a Llama layer and that of an MLA layer exist (no cast or
    table overflows), and running them on tensors of the batch's rows never
    panics: it fails before any launch, or the element type has kernels and
    first the write and then, if it returned zero, the attention go to the same
    stream, neither reaching outside its operands, with every new row stored,
    every page that is read allocated, every row of the queries answered, and the
    cache read with the encoding and the scales it was written with; a result has
    the shape of the queries. *)
Theorem paged_launches_safe (show : Z → string) (show_dtype : DType → string) (cu : N) bs es m (c : GpuKVCache Ptr)
    nq nkv hd layers layer scale nope rope (d : Dev) q ql k kl v vl
    (Hb : paged_batch bs es m c nq nkv hd) (Hc : built_cache Mem c layers nkv hd) (Hl : layer < layers)
    (Hd : holds_layer d c layer) :
  let tokens := sum_list (e_count <$> es) in
  on_device d q ql (tokens * nq * hd) → on_device d k kl (tokens * nkv * hd) → on_device d v vl (tokens * nkv * hd) →
  ∀ op, (op = llama_op c m layer nq nkv hd 1 tokens
         ∨ nkv = nq ∧ nope + rope = hd ∧ op = mla_op c m layer nq nope rope tokens scale) →
  ∃ o, op = Some o
    ∧ ∃ r d' log, @cuda_fwd _ _ (checked Dev Ptr) show show_dtype cu o q ql k kl v vl (d, []) = Some (r, (d', log))
        ∧ launched cu o tokens nq hd r log.
Proof using All.
  intros tokens Hq Hk Hv op Hop.
  assert (Hlit : ∃ sc pf, op = op_literal c m layer nq nkv hd tokens sc pf ∧ (pf = false → length es = tokens)) .
  { pose proof (counts_positive _ _ _ _ _ _ _ Hb) as Hcount. pose proof (some_tokens _ _ _ _ _ _ _ Hb) as Hsome.
    destruct (batch_shape _ _ _ _ _ _ _ Hb) as (_ & Hn & _ & Hdec).
    destruct Hop as [->|(-> & <- & ->)]; do 2 eexists; [unfold llama_op; rewrite Nat.mul_1_l; split; [done |] | split; [done |]].
    - intros H%Nat.ltb_ge. destruct (length es) eqn:E; [by apply nil_length_inv, (pb_some _ _ _ _ _ _ _ Hb) in E | subst tokens; lia].
    - intros H%Nat.ltb_ge. unfold AttentionMetadata.num_tokens in Hn. subst tokens. lia. }
  destruct Hlit as (sc & pf & -> & Hpf).
  destruct (literal_fits bs es m c nq nkv hd Hb layers layer sc pf Hc Hl Hpf) as (o & Eo & Hfit & Et & Ep).
  exists o. split; [done |].
  destruct (layer_held d c layers nkv hd layer o Hc Hl Hd Et Ep) as [Hkc Hvc]. rewrite (pb_size _ _ _ _ _ _ _ Hb) in Hkc, Hvc.
  by eapply (cuda_fwd_launches show show_dtype cu o tokens (length es) nq nkv hd).
Qed.
End step.

(** ** An example device
    A list of allocations, the address of one its index; launches change
    nothing. *)
#[local] Notation DemoDev := (list (N * option (list Z))).

#[local] Instance demo_driver : Driver DemoDev nat := {|
  launch d _ _ := (0%Z, d);
  upload d w l := (Ok (length d), d ++ [(w * N.of_nat (length l), Some l)%N]);
  device_alloc d n := (Ok (length d), d ++ [(n, None)]);
|}.

#[local] Instance demo_view : DeviceView DemoDev nat := {|
  extent d p := fst <$> d !! p;
  ints d p := d !! p ≫= snd;
|}.

Lemma lookup_snoc_other {A} (l : list A) x q : q ≠ length l → (l ++ [x]) !! q = l !! q.
Proof.
  intros Hq. destruct (decide (q < length l)); [by rewrite lookup_app_l |].
  rewrite !lookup_ge_None_2; [done | lia | rewrite length_app; simpl; lia].
Qed.

#[local] Instance demo_lawful : LawfulDriver DemoDev nat.
Proof.
  split.
  - intros d w l p d' [= <- <-]. unfold extent, ints, demo_view.
    rewrite (lookup_ge_None_2 d (length d)), list_lookup_middle by done.
    split_and!; [done .. |]. intros q Hq. by rewrite lookup_snoc_other.
  - intros d n p d' [= <- <-]. unfold extent, ints, demo_view.
    rewrite (lookup_ge_None_2 d (length d)), list_lookup_middle by done.
    split_and!; [done .. |]. intros q Hq. by rewrite lookup_snoc_other.
  - by intros d k s rc d' q [= <- <-].
  - by intros d k s rc d' q [= <- <-].
Qed.

(** A memory that counts its allocations. *)
#[local] Instance counting_memory : DeviceMemory nat nat := {|
  gpu_alloc := λ n _, (Ok n, S n);
  gpu_free := λ n _, n;
  GpuCache.cache_zero := λ n _ _, (Ok (), n);
|}.

(** Four blocks of four slots, one layer, two heads of two numbers. *)
Definition demo_paged_cache (t : DType) : GpuKVCache nat :=
  match gpu_cache_new (Ptr := nat) 0 4 1 2 2 4 t with
  | Some (Ok c, _) => c
  | _ => mkGpuKVCache [] [] 0 0 0 0 0 t [] []
  end.

(** The two layers' allocations, and queries, keys and values of four rows. *)
Definition demo_dev : DemoDev := [(128, None); (128, None); (32, None); (32, None); (32, None)]%N.
Definition demo_storage (p : nat) : CudaStorage nat := mkCudaStorage p T_F16 16.
Definition demo_layout : CudaLayout := mkCudaLayout [4; 2; 2] 0 true.

Definition demo_paged_meta : AttentionMetadata := default AttentionMetadata.new (build_attention_metadata (batch_of 4 demo_entries)).

Lemma demo_paged_batch t : paged_batch 4 demo_entries demo_paged_meta (demo_paged_cache t) 2 2 2.
Proof.
  assert (Hall : ∀ (P : Entry → Prop), P (mkEntry 1 [1; 2; 3]%N 0 [0; 3] true) → P (mkEntry 2 [6]%N 2 [1] false) →
    ∀ e, e ∈ demo_entries → P e).
  { intros P H1 H2 e He. unfold demo_entries in He. rewrite !elem_of_cons in He.
    destruct He as [->|[->|He%not_elem_of_nil]]; done. }
  assert (Hn : gc_num_blocks (demo_paged_cache t) = 4) by (by destruct t).
  assert (Hs : gc_block_size (demo_paged_cache t) = 4) by (by destruct t).
  split; rewrite ?Hn, ?Hs; [done | lia | done | exact demo_cover | | | | | done | | reflexivity | done | done | done | lia | lia | done | done].
  - exists [mkEntry 1 [1; 2; 3]%N 0 [0; 3] true], [mkEntry 2 [6]%N 2 [1] false]. split_and!; [done | by repeat constructor ..].
  - intros e He. revert e He. by refine (Hall _ _ _).
  - refine (Hall _ _ _); cbn; lia.
  - by refine (Hall _ _ _).
  - intros e b He. revert e He b. refine (Hall _ _ _); intros b Hb; cbn in Hb; rewrite !elem_of_cons, elem_of_nil in Hb; lia.
Qed.

Lemma demo_paged_built t : built_cache nat (demo_paged_cache t) 1 2 2.
Proof. split. destruct t; (eexists 0, 2, _, [F32.one], [F32.one]; split_and!; [vm_compute; reflexivity | done ..]). Qed.

Lemma demo_holds : holds_layer demo_dev (demo_paged_cache FP8E5M2) 0.
Proof. intros p sz [= <-] [= <-]. split; eexists; (split; [reflexivity | by vm_compute]). Qed.

Lemma demo_on_device p n : p ∈ [2; 3; 4] → n = 16 → on_device demo_dev (demo_storage p) demo_layout n.
Proof.
  intros Hp ->. rewrite !elem_of_cons, elem_of_nil in Hp.
  assert (Hx : demo_dev !! p = Some (32%N, None)) by (destruct Hp as [-> | [-> | [-> | Hf]]]; done).
  split; [done .. | cbn; lia |]. exists 32%N. cbn. by rewrite Hx.
Qed.

Lemma paged_launches_safe_witness :
  ∃ o r d' log, llama_op (demo_paged_cache FP8E5M2) demo_paged_meta 0 2 2 2 1 4 = Some o
    ∧ @cuda_fwd _ _ (checked _ nat) (λ _, "") (λ _, "") 7 o (demo_storage 2) demo_layout (demo_storage 3) demo_layout
        (demo_storage 4) demo_layout (demo_dev, []) = Some (r, (d', log))
    ∧ log.*1.*2 = [Some 7; Some 7]%N ∧ log.*2 = [true; true].
Proof.
  destruct (paged_launches_safe (Mem := nat) (λ _, "") (λ _, "") 7 4 demo_entries demo_paged_meta (demo_paged_cache FP8E5M2)
    2 2 2 1 0 F32.one 1 1 demo_dev (demo_storage 2) demo_layout (demo_storage 3) demo_layout (demo_storage 4) demo_layout
    (demo_paged_batch _) (demo_paged_built _) (le_n 1) demo_holds
    (demo_on_device 2 _ ltac:(set_solver) eq_refl) (demo_on_device 3 _ ltac:(set_solver) eq_refl)
    (demo_on_device 4 _ ltac:(set_solver) eq_refl) _ (or_introl eq_refl)) as (o & Eo & r & d' & log & E & Hrun).
  exists o, r, d', log. split_and!; [exact Eo | exact E | |];
    (destruct Hrun as [(-> & e & ->)|(_ & w & a & _ & [(-> & e & ->)| ->] & _)]; [exfalso .. | done]);
    (vm_compute in Eo; injection Eo as <-; vm_compute in E; discriminate).
Defined.

(** A cache of an element type without kernels fails before any launch. *)
Example unsupported_cache_launches_nothing :
  match llama_op (demo_paged_cache DT_F32) demo_paged_meta 0 2 2 2 1 4 with
  | Some o => match @cuda_fwd _ _ (checked _ nat) (λ _, "") (λ _, "F32") 7 o (demo_storage 2) demo_layout (demo_storage 3) demo_layout
                      (demo_storage 4) demo_layout (demo_dev, []) with
              | Some (r, (_, log)) => r = Err "paged attention: unsupported KV cache dtype F32" ∧ log = []
              | None => False
              end
  | None => False
  end.
Proof. vm_compute. by split. Qed.
