(* ===== verification/AttentionReduce.v ===== *)
(** * The dot product of the attention kernels (rllm-kernels/src/cuda/paged_attention.cu)

    The threads of a block hold one product each and add them up in shared
    memory, halving the stride.  [block_dot] is what every thread then reads as
    the logit.  The theorem: with a head size that is a power of two every
    product is counted exactly once, in some order; with others products are
    lost. *)
From S2P Require Import Prelude.
#[local] Open Scope list_scope.
#[local] Open Scope nat_scope.
#[local] Open Scope rllm_scope.

Section reduce.
Context {A : Type} (add : A → A → A).

(** One stride between two barriers.  The cells that are written, below the
    stride, are not read by other threads, so the threads' order does not
    matter. *)
Definition reduce_step (head_dim stride : nat) (s_data : list A) : list A :=
  imap (λ tid x, if (tid <? stride) && (tid + stride <? head_dim)
                 then match s_data !! (tid + stride) with Some y => add x y | None => x end
                 else x) s_data.

(** [for (stride = ...; stride > 0; stride >>= 1)] *)
Fixpoint reduce_loop (fuel head_dim stride : nat) (s_data : list A) : option (list A) :=
  match fuel with
  | 0 => None
  | S fuel => if stride =? 0 then Some s_data else reduce_loop fuel head_dim (stride / 2) (reduce_step head_dim stride s_data)
  end.

Definition block_dot (head_dim : nat) (s_data : list A) : option A :=
  s ← reduce_loop (S (S head_dim)) head_dim ((head_dim + 1) / 2) s_data; s !! 0.

(** [x] is the sum of the terms of [l], in some order and bracketing. *)
Inductive sums : list A → A → Prop :=
  | sums_one x : sums [x] x
  | sums_add l k x y : sums l x → sums k y → sums (l ++ k) (add x y)
  | sums_perm l k x : l ≡ₚ k → sums l x → sums k x.

Lemma length_step head_dim stride s : length (reduce_step head_dim stride s) = length s.
Proof. apply length_imap. Qed.

Lemma step_lookup head_dim stride s i x y :
  i < stride → i + stride < head_dim → s !! i = Some x → s !! (i + stride) = Some y →
  reduce_step head_dim stride s !! i = Some (add x y).
Proof.
  intros Hi Hh Hx Hy. unfold reduce_step. rewrite list_lookup_imap, Hx. cbn [fmap option_fmap option_map].
  rewrite (proj2 (Nat.ltb_lt _ _) Hi), (proj2 (Nat.ltb_lt _ _) Hh), Hy. done.
Qed.

Lemma concat_zip_app {B} (l k : list (list B)) : length l = length k → concat (zip_with (++) l k) ≡ₚ concat l ++ concat k.
Proof.
  revert k. induction l as [|x l IH]; intros [|y k] Hl; simplify_eq/=; [done |].
  rewrite (IH k Hl). solve_Permutation.
Qed.

(** The first [2 * stride] cells hold the sums of the parts of [ls]. *)
Definition holds (n : nat) (ls : list (list A)) (s : list A) : Prop :=
  length ls = n ∧ n ≤ length s ∧ ∀ i l, ls !! i = Some l → ∃ x, s !! i = Some x ∧ sums l x.

Lemma step_holds head_dim stride ls s :
  length s = head_dim → holds (stride + stride) ls s →
  ∃ ls', holds stride ls' (reduce_step head_dim stride s) ∧ concat ls' ≡ₚ concat ls.
Proof.
  intros Hs (Hl & Hle & Hsum). exists (zip_with (++) (take stride ls) (drop stride ls)).
  assert (Ht : length (take stride ls) = stride) by (rewrite length_take; lia).
  assert (Hd : length (drop stride ls) = stride) by (rewrite length_drop; lia).
  split; [| rewrite concat_zip_app by lia; by rewrite <- concat_app, take_drop].
  split_and!; [rewrite length_zip_with; lia | rewrite length_step; lia |].
  intros i l (a & b & -> & Ha & Hb)%lookup_zip_with_Some.
  pose proof (lookup_lt_Some _ _ _ Ha) as Hi. rewrite Ht in Hi.
  rewrite lookup_take_lt in Ha by done. rewrite lookup_drop, Nat.add_comm in Hb.
  destruct (Hsum _ _ Ha) as (x & Ex & Sx), (Hsum _ _ Hb) as (y & Ey & Sy).
  exists (add x y). split; [| by constructor].
  apply step_lookup; [done | pose proof (lookup_lt_Some _ _ _ Ey); lia | done | done].
Qed.

Lemma loop_holds head_dim k : ∀ fuel ls s, k < fuel → length s = head_dim → holds (2 ^ k) ls s →
  ∃ s' x, reduce_loop (S fuel) head_dim (2 ^ k / 2) s = Some s' ∧ s' !! 0 = Some x ∧ sums (concat ls) x.
Proof.
  induction k as [|k IH]; intros fuel ls s Hf Hs Hh.
  - destruct Hh as (Hl & Hle & Hsum). destruct ls as [|l [|? ?]]; simpl in Hl; try lia.
    destruct (Hsum 0 l eq_refl) as (x & Ex & Sx). exists s, x. split_and!; [done | done |]. cbn. by rewrite app_nil_r.
  - rewrite Nat.pow_succ_r', (Nat.mul_comm 2), Nat.div_mul by done.
    assert (Hp : 0 < 2 ^ k) by (apply Nat.neq_0_lt_0, Nat.pow_nonzero; done).
    cbn [reduce_loop]. destruct (Nat.eqb_spec (2 ^ k) 0) as [|_]; [lia |].
    destruct fuel as [|fuel]; [lia |].
    destruct (step_holds head_dim (2 ^ k) ls s Hs) as (ls' & Hh' & Hperm).
    { replace (2 ^ k + 2 ^ k) with (2 ^ S k) by (rewrite Nat.pow_succ_r'; lia). done. }
    destruct (IH fuel ls' (reduce_step head_dim (2 ^ k) s)) as (s' & x & E & Ex & Sx);
      [lia | by rewrite length_step | done |].
    exists s', x. split_and!; [done | done |]. by eapply sums_perm.
Qed.

(** With a head size that is a power of two the threads read the sum of all
    products, each counted once. *)
Theorem reduction_counts_all k s_data : length s_data = 2 ^ k → ∃ x, block_dot (2 ^ k) s_data = Some x ∧ sums s_data x.
Proof.
  intros Hs. assert (Hlt : k < 2 ^ k) by (apply Nat.pow_gt_lin_r; lia).
  assert (Hh : holds (2 ^ k) ((λ x, [x]) <$> s_data) s_data).
  { split_and!; [by rewrite length_fmap | lia |]. intros i l Hi. rewrite list_lookup_fmap in Hi.
    destruct (s_data !! i) as [x|]; [| done]. injection Hi as <-. exists x. split; [done | constructor]. }
  assert (Hc : concat ((λ x, [x]) <$> s_data) = s_data) by (clear; induction s_data as [|x l IH]; [done | cbn; by rewrite IH]).
  unfold block_dot. destruct k as [|k].
  - destruct s_data as [|x [|? ?]]; simpl in Hs; try lia. exists x. split; [done | constructor].
  - replace ((2 ^ S k + 1) / 2) with (2 ^ S k / 2).
    2: { rewrite Nat.pow_succ_r', (Nat.mul_comm 2), Nat.div_mul, Nat.div_add_l by done. cbn. lia. }
    destruct (loop_holds (2 ^ S k) (S k) (S (2 ^ S k)) _ s_data ltac:(lia) Hs Hh) as (s' & x & -> & Ex & Sx).
    exists x. cbn [mbind option_bind]. by rewrite Hc in Sx.
Qed.

End reduce.

(** The products that are counted, by their indices. *)
Definition counted (head_dim : nat) : list nat :=
  default [] (block_dot (++) head_dim ((λ i, [i]) <$> seq 0 head_dim)).

(** The head of a DeepSeek layer with 128 plain and 64 rotary dimensions: a third
    of the products never reaches the logit.  So it is with 80, 96 and 112. *)
Example deepseek_products_lost : length (counted 192) = 128 ∧ 2 ∉ counted 192.
Proof. split; [by vm_compute |]. apply (bool_decide_unpack _). by vm_compute. Qed.

Example other_heads_lose : (λ n, length (counted n)) <$> [64; 80; 96; 112; 128; 256] = [64; 64; 64; 64; 128; 256].
Proof. by vm_compute. Qed.

Lemma reduction_counts_all_witness : ∃ x, block_dot Nat.add 8 [1; 2; 3; 4; 5; 6; 7; 8] = Some x ∧ sums Nat.add [1; 2; 3; 4; 5; 6; 7; 8] x.
Proof. exact (reduction_counts_all Nat.add 3 [1; 2; 3; 4; 5; 6; 7; 8] eq_refl). Defined.
